(* ===== verification/_CoqProject ===== *)
-Q . S2P
Prelude.v
Sorting.v
Utf8.v
GoIO.v
TransferNumber.v
Frame.v
GoText.v
Control.v
Final.v
Events.v
EventStream.v
Cancellation.v
Session.v
PipeWrite.v
ControlSender.v
ControlSenderProofs.v
Paths.v
Netip.v
Hashing.v
NetipText.v
Comparing.v
SourceTree.v
Allocation.v
AllocationProofs.v
Catalog.v
CatalogProofs.v
Capture.v
Resolve.v
ResolveProofs.v
RuleDecode.v
Sanitizer.v
PlainOutput.v
RunId.v
HostAllocation.v
HostAllocationProofs.v
HostClaim.v
HostRules.v
PublishedClaims.v
Weights.v
Settings.v
TransferStart.v
TransferStartProofs.v
RunRequest.v
TransferRequest.v
RunIntent.v
Effects.v
Commands.v
Transfer.v
TransferLedger.v
TransferProofs.v
Interference.v
RunDirectory.v
RunKernel.v
RunLaws.v
RunSpecs.v
RunRoots.v
RunRemoval.v
RunProcesses.v
Listing.v
ListingProofs.v
GoTime.v
CommandLine.v
CommandLineProofs.v
Presenter.v
SourceRoot.v
SourceScan.v
SourceDescriptors.v
SourceLife.v
QuietFiles.v
QuietWalk.v
QuietScan.v
QuietSource.v
IPTables.v
IPTablesBackend.v
IPTablesHost.v
IPTablesLife.v
Nft.v
PacketPolicy.v
