(* ===== verification/Prelude.v ===== *)
(** * Verification of Transfer Lanes

    Transfer Lanes copies one source directory over several egress paths of a
    host at once: it freezes the tree, assigns whole files to transfers by
    weight, gives every transfer a namespace whose traffic the host routes and
    translates through one provider address, runs one command per transfer in a
    supervisor process and reports to the parent over pipes.  This development
    is a shallow embedding of the parts of [src/internal] that decide: the wire
    protocol and its processes, the source with its scan, its leases and its
    assignment, the reading
    of the kernel's routing state, the allocation of host resources, the
    treatment of child output, the command line with its way to the worker and
    its exit status, the flow of a transfer with its clean-up, and the directory
    of the runs with its recovery after crashes.  A Go function is a Gallina function of the same
    name, a struct a record, a tagged value an inductive type; a machine integer
    is a [Z] with [wrap w] where the code can overflow.  A definition that stands
    for a part of a function (a loop, one branch) has a name in small letters
    with underscores.  This file holds what all others share: errors and
    results, Go's slices and integers, big-endian numbers, tactics and hints.

    ** Parts, files and sources

    Go's library: [Sorting], [Comparing] (package sort and slices), [Utf8],
    [GoText] (strings, strconv.Quote), [GoIO] (io.Reader, io.Writer and the
    [Writer] interface with its laws), [Paths] (path/filepath), [Netip] (net/netip),
    [NetipText] (the text of addresses), [Hashing] (SHA-256, HMAC, hexadecimal,
    base64).  [Effects] holds programs over calls, their runs and the rules by
    which a run is shown to keep the contracts of what it calls, and by
    which every run is shown to end.

    The supervisor protocol (runsupervisor/): [TransferNumber]
    (transfernumber/number.go), [Frame] (frame.go), [Control] (control.go),
    [Final] (final.go), [Events] (events.go, event_sender.go,
    event_receiver.go), [PipeWrite] (control_pipe_linux.go, event_pipe_unix.go),
    [Cancellation] (cancellation.go), [Session] (session.go and supervisor.go: a
    step relation over the goroutines of the supervisor) and [ControlSender]
    (control_sender.go: the interleavings of the threads of the parent).  Frames
    carry events one way and controls the other; [EventStream] joins both ends.

    The source (sourcefiles/): [SourceTree] (tree.go) over [Paths];
    [SourceRoot] (source_root.go, filesystem_unix.go, backing.go, access.go,
    directory_path_linux.go) is the owner of the source's descriptor with its
    borrows and leases, [SourceScan] (scanner.go, symlink.go) the scan, both
    programs over system calls.  [SourceDescriptors] and [SourceLife] follow the
    descriptors whatever the kernel answers.  [QuietFiles] is a file system that
    does not change, with what a path leads to and what a scan should show, as
    functions without descriptors; [QuietWalk] and [QuietScan] run the code on it, and [QuietSource] has the theorems.
    [Allocation] (allocation.go) assigns the files of a frozen tree; [Weights]
    (throughput/weights.go, transfer/weights.go) makes its weights.

    The catalog (networkcatalog/): [RuleDecode] (rules_linux.go, decoders of
    capture_linux.go) turns kernel messages into facts, [Capture]
    (capture_linux.go) reads and re-reads them, [Catalog] (types.go,
    snapshot.go) orders them and lists the addresses a run may start from,
    [Resolve] (resolve.go) finds the egress of an address.

    The host network (hostnetwork/): [RunId] (runid/id.go), [HostAllocation]
    (link_owner.go, allocation.go, identities of nft.go), [HostClaim]
    (evidence.go, published_claims.go), [HostRules] (rpdb_linux.go).  A run
    allocates from an inventory in which the claims of the others are reserved
    and publishes its allocation as a claim.  [IPTables] (iptables.go, the receipts
    of firewall.go) has the rules of a claim and what saved tables say of them,
    [IPTablesBackend] (iptables_backend.go, iptables_frontend.go,
    iptables_rule_plane.go, iptables_legacy.go) the operations that install,
    verify and remove them, programs over running a command and reading a file;
    [IPTablesHost] is a host on which they run, and [IPTablesLife] has what the
    operations do to it, with one way its tools print.  [Nft] (nft.go,
    nft_linux.go, nft_forward_linux.go, nft_inventory_linux.go) is the other
    backend: the rules, the expressions they are made of, and the operations,
    programs over a connection that lists tables, chains and rules and commits
    batches.  [PacketPolicy] reads the rules of both the way the kernel does.

    The request: [RunRequest] (runcommand/request.go, request_validation.go,
    start_request.go) is the validated command line, [Settings]
    (throughput/types.go) its measurement, [TransferStart] (transferstart/) the
    message to the worker, [TransferRequest] (transfer/request.go,
    transferworker/worker.go and parts of what they call) what the worker makes
    of it; [RunIntent] composes them.

    The command line (cli/): [CommandLine] (parse.go, validate.go, help.go)
    makes a request of the arguments and has their help, [Presenter]
    (execute.go, run_presenter.go, list_presenter.go) calls the use cases, writes
    their results and decides the exit status; [GoTime] is time.ParseDuration and
    the floats of a rate.  [Listing] (listnetworks/, probe/endpoint.go) is the use
    case of the command [list].

    The run directory (rundirectory/): [RunDirectory] is the code, a program over
    system calls; [RunKernel] is what the calls do to the directory and its locks,
    [Interference] the rule by which a program is shown to keep an invariant
    whatever the other processes do between its calls, [RunLaws], [RunSpecs],
    [RunRoots] and [RunRemoval] the invariant and the operations that keep it, and [RunProcesses] any number of processes that run the code at
    once and may be killed before any call.

    The flow (transfer/): [Commands] (childprocesses/types.go) are the commands
    of a group, [Transfer] the flow that recovers old runs, acquires the run
    root, network, resolvers, views and processes and releases them on every
    path; [TransferLedger] is the contract of these owners and
    [TransferProofs] shows that the flow keeps it.

    Output (plainoutput/): [Sanitizer] (sanitizer.go) removes terminal controls,
    [PlainOutput] (output.go) writes prefixed lines.

    A file whose name ends in Proofs, [EventStream], [PublishedClaims], [RunProcesses],
    [SourceLife], [QuietSource], [IPTablesLife] and [PacketPolicy] hold
    the theorems of the components they require; the smaller components have
    definitions and theorems in one file.

    ** What the theorems show

    Protocol: encoders and decoders are inverse and accept only what they
    produce, a pipe takes whole frames whatever interrupts the writes, what the
    supervisor sends is what the parent decodes, a session sends exactly one
    valid final result, the order in which cancellations are recorded decides the
    outcome and nothing changes it later, every interleaving of the
    parent's threads keeps frames whole and closes nothing twice.  Source: no
    failing call leaks or reuses a descriptor, a scan of a file system at rest ends
    and shows what path resolution shows, a lease opens what was scanned, a
    flattened tree lists exactly its files, relative paths cannot leave their
    root, the assignment is a partition and is balanced to within one file,
    weights are the measured ratios.  Catalog: decoding forgets no attribute of a
    rule, a captured snapshot is consistent, capturing ends, the verdict on a
    rule is exact over all packets and a runnable egress is the one the kernel's
    lookup yields.  Host network: an allocation takes nothing that is in use, no
    dumped rule takes the packets of a transfer away, runs publish claims that do
    not conflict, and what is allocated validates where the names of its providers do; the iptables program of
    a claim comes in front of the rules that are there and goes without a trace,
    and after failures and crashes recovery takes exactly its rules away, those of a
    command that failed after its work included; whichever backend runs them, the rules of a
    claim let the same packets pass: what keeps to the lane of a transfer
    passes and gets the transfer's source, anything else on its link is dropped,
    packets of others are left alone.  Request: a command
    line is accepted exactly when it follows the grammar and the documented rules,
    the weights are the written ones, an accepted one reaches the worker with the
    same intent, a listing shows what the catalog says, and the exit status tells
    what happened.  Run directory: whatever the interleaving, the failing calls and
    the killed processes, a live run is left alone, every entry can be recovered,
    one process at a time recovers a run and a process that returned holds nothing.  Flow: on every path and up to any crash, owners are used
    and released in the order they allow, a run without a clean-up error leaves
    nothing behind and a successful one reports every transfer.  Output: whatever the
    children print, what reaches the terminal is whole lines of printable text,
    and without carriage returns no text is lost.

    ** Assumptions

    What the code calls and does not define is an argument: the writer and
    reader of a pipe, answers of system calls as a script in the order of the
    calls, random bytes, observations of throughput, the netlink library's
    parsing of headers and attributes (the class [Netlink] of [RuleDecode]) and
    the parsing of URLs (the class [URLs] of [Settings]).  The flow of a transfer
    calls its owners; what they promise in return is [promised] of
    [TransferLedger].  Of the kernel below a run directory [RunKernel.step] assumes
    that a call that fails changes nothing, that unlocking an open file succeeds,
    that the number of a file is not used again, and that the death of a process
    closes its files and releases its locks.
    [QuietFiles.quiet_world] assumes of a file system at rest that calls fail only
    for the path they name; [SourceDescriptors.descriptor_world] assumes only that
    a new descriptor is not one that is open and that a close ends its descriptor.
    What [IPTablesHost] assumes of iptables is in the classes [IPTablesTools] and
    [IPTablesLaws] (the versions the tools print, and that reading a printed table
    gives its lines, which [IPTablesLife] shows of one printer) and in
    [host_world]: -I puts a rule at the head of an existing chain, -D takes the first
    equal one away, a failing command changes nothing unless its error is one of those
    that come late ([comes_late]), and nobody else changes the
    tables meanwhile.
    [PacketPolicy] writes down what the words of iptables and the expressions of
    nftables ask of a packet; of the machine's byte order it assumes
    [NativeEndianLaws], which both orders have.
    Sorting with an unstable sort is modelled by the stable one where the order
    separates the elements, which is proved.  The kernel's own rule and route
    lookup, against which the resolver is judged, is written down in
    [ResolveProofs] and [HostRules].

    ** Fuel

    Loops over a list recurse on it.  UTF-8 loops have the length of their input
    as fuel and each step takes a byte.  Searches of the allocator visit each
    value of their range once.  The walk from a link to its masters has fuel in
    [Capture]; [Capture.capture_terminates] shows that the number of
    interface indexes is enough.  Loops on system calls end with their script,
    and a script used up means still waiting.  The recursion of a scan runs
    silently for ever without fuel, and [QuietSource.scan_shows_the_directory]
    shows that the number of objects is enough, links that lead back included.

    ** Not modelled

    System calls and the processes, mounts, sockets and files behind them
    (childprocesses, fileviews, runlogs, probe and most of hostnetwork; of
    rundirectory the private authorities, the roots pinned for published claims and
    the roots lent for recovery), the drawing of the interactive terminal, and the
    memory of slices: the code clones what it keeps, so values are enough.  The
    time of plain output is an argument.

    ** Plan

    Next, in this order: what the nftables backend does to a ruleset, the
    selection of a backend, the JSON documents of claims, the life of the host network, views and resolvers behind their interfaces, the
    resolver file, the helper protocol of the child processes and the input of
    the terminal. *)
From Stdlib Require Export ZArith Lia Strings.Byte.
From stdpp Require Export base tactics numbers list strings gmap sorting pretty.

(** ** Errors and results

    A Go call that returns [(value, error)] is a [result]: the value a failing
    call returns beside its error is never used by its callers.  An [error]
    keeps the structure [errors.Is] and [errors.As] inspect; [error_text] is its [Error()]. *)
#[warnings="-register-all"]
Inductive error : Type :=
  | ErrText (message : string)
  | ErrWrap (context : string) (cause : error)
  | ErrDetail (cause : error) (detail : string)
  | ErrTyped (type : string) (cause : error)
  | ErrJoin (first : error) (rest : list error)
  | ErrEOF
  | ErrUnexpectedEOF
  | ErrShortWrite
  | ErrSentinel (name : string).

Definition newline : string := String (Ascii.ascii_of_nat 10) EmptyString.

Fixpoint error_text (e : error) : string :=
  match e with
  | ErrText m => m
  | ErrWrap c e => c +:+ ": " +:+ error_text e
  | ErrDetail e d => error_text e +:+ ": " +:+ d
  | ErrTyped _ e => error_text e
  | ErrJoin e es =>
      error_text e +:+
      (fix go (es : list error) : string :=
         match es with
         | [] => ""
         | e :: es => newline +:+ error_text e +:+ go es
         end) es
  | ErrEOF => "EOF"
  | ErrUnexpectedEOF => "unexpected EOF"
  | ErrShortWrite => "short write"
  | ErrSentinel s => s
  end.

(** [errors.Is(err, io.EOF)]: the error itself, what it wraps, what it joins. *)
Fixpoint is_EOF (e : error) : bool :=
  match e with
  | ErrEOF => true
  | ErrWrap _ e | ErrDetail e _ | ErrTyped _ e => is_EOF e
  | ErrJoin e es =>
      is_EOF e || (fix go (es : list error) : bool :=
                     match es with [] => false | e :: es => is_EOF e || go es end) es
  | _ => false
  end.

(** [errors.Is(err, sentinel)], in the same way. *)
Fixpoint errors_Is (e : error) (sentinel : string) : bool :=
  match e with
  | ErrSentinel s => bool_decide (s = sentinel)
  | ErrWrap _ e | ErrDetail e _ | ErrTyped _ e => errors_Is e sentinel
  | ErrJoin e es =>
      errors_Is e sentinel || (fix go (es : list error) : bool :=
                                 match es with [] => false | e :: es => errors_Is e sentinel || go es end) es
  | _ => false
  end.

(** [errors.As(err, &target)] for a target of a named type: an [ErrTyped] is an
    error of its own type that has the text of its cause and unwraps to it. *)
Fixpoint errors_As (e : error) (type : string) : bool :=
  match e with
  | ErrTyped t e => bool_decide (t = type) || errors_As e type
  | ErrWrap _ e | ErrDetail e _ => errors_As e type
  | ErrJoin e es =>
      errors_As e type || (fix go (es : list error) : bool :=
                             match es with [] => false | e :: es => errors_As e type || go es end) es
  | _ => false
  end.

(** [errors.Join]: the nil errors are dropped, and joining none is nil. *)
Definition errors_Join (es : list (option error)) : option error :=
  match omap id es with
  | [] => None
  | e :: es => Some (ErrJoin e es)
  end.

Inductive result (A : Type) : Type :=
  | Ok (value : A)
  | Err (failure : error).
Arguments Ok {A} value.
Arguments Err {A} failure.

Definition rbind {A B} (r : result A) (k : A -> result B) : result B :=
  match r with Ok a => k a | Err e => Err e end.

Definition ok_or {A} (default : A) (r : result A) : A :=
  match r with Ok a => a | Err _ => default end.

Definition is_ok {A} (r : result A) : bool :=
  match r with Ok _ => true | Err _ => false end.

(** [if err != nil { return err }] for a call that returns only an error. *)
Definition check {A} (e : option error) (k : result A) : result A :=
  match e with None => k | Some e => Err e end.

Declare Scope go_scope.
Delimit Scope go_scope with go.
Notation "'let*' x ':=' r 'in' k" := (rbind r (fun x => k))
  (at level 10, x name, r at level 100, k at level 200) : go_scope.
Notation "'let*' ' p ':=' r 'in' k" := (rbind r (fun p => k))
  (at level 10, p strict pattern, r at level 100, k at level 200) : go_scope.
Notation "'check!' e 'in' k" := (check e k)
  (at level 10, e at level 100, k at level 200) : go_scope.
#[global] Open Scope go_scope.
#[global] Open Scope Z_scope.
#[export] Set Warnings "-clear-no-such-hyp".

Section Results.
Context {A B : Type}.

Lemma rbind_Ok_inv (r : result A) (k : A -> result B) b :
  rbind r k = Ok b -> exists a, r = Ok a /\ k a = Ok b.
Proof. destruct r; simpl; [eauto | discriminate]. Qed.

Lemma rbind_Err_inv (r : result A) (k : A -> result B) e :
  rbind r k = Err e -> r = Err e \/ exists a, r = Ok a /\ k a = Err e.
Proof. destruct r; simpl; [eauto | intros [= ->]; eauto]. Qed.

Lemma check_Ok_inv (e : option error) (k : result A) a :
  check e k = Ok a -> e = None /\ k = Ok a.
Proof. destruct e; simpl; [discriminate | eauto]. Qed.

Lemma is_ok_spec (r : result A) : is_ok r = true <-> exists a, r = Ok a.
Proof. destruct r; simpl; split; try done; [eauto | by intros [? ?]]. Qed.
End Results.

(** Injectivity stated as lemmas: [injection] would reduce the encoders inside. *)
Lemma Ok_inj {A} (a b : A) : Ok a = Ok b -> a = b.
Proof. congruence. Qed.

Lemma Ok_pair_inj {A B} (a c : A) (b d : B) : Ok (a, b) = Ok (c, d) -> a = c /\ b = d.
Proof. intros H. apply Ok_inj in H. by apply pair_equal_spec in H. Qed.

(** A loop [for _, x := range xs { ...return on error... }] that collects. *)
Fixpoint mmap {A B} (f : A -> result B) (xs : list A) : result (list B) :=
  match xs with
  | [] => Ok []
  | x :: xs => let* y := f x in let* ys := mmap f xs in Ok (y :: ys)
  end.

Lemma mmap_Ok {A B} (f : A -> result B) xs ys :
  mmap f xs = Ok ys <-> Forall2 (fun x y => f x = Ok y) xs ys.
Proof.
  revert ys; induction xs as [|x xs IH]; intros ys; simpl.
  - split; [by intros [= <-] | by inversion 1].
  - split.
    + intros (y & Hy & (ys' & Hys & [= <-])%rbind_Ok_inv)%rbind_Ok_inv.
      constructor; [done | by apply IH].
    + inversion 1 as [|? y ? ys' Hy Hys]; subst. rewrite Hy; simpl.
      apply IH in Hys. by rewrite Hys.
Qed.

(** ** Automation *)
Ltac inv_result :=
  repeat match goal with
  | H : rbind _ _ = Ok _ |- _ =>
      let a := fresh "v" in let Ha := fresh "Hv" in
      apply rbind_Ok_inv in H as (a & Ha & H)
  | H : check _ _ = Ok _ |- _ =>
      let Ha := fresh "Hc" in apply check_Ok_inv in H as [Ha H]
  | H : Ok _ = Ok _ |- _ => injection H as H; subst
  | H : Err _ = Ok _ |- _ => discriminate H
  | H : Ok _ = Err _ |- _ => discriminate H
  end.

(** Case analysis on the tests of [if]s in a hypothesis that equates the code
    with [Ok _]: the branches that return an error are discharged. *)
Ltac ok_branches H :=
  repeat match type of H with
  | (if ?c then _ else _) = Ok _ => let E := fresh "E" in destruct c eqn:E; [try discriminate H | try discriminate H]
  | match ?c with _ => _ end = Ok _ => let E := fresh "E" in destruct c eqn:E; try discriminate H
  end.

Ltac bool_to_prop :=
  repeat match goal with
  | H : (_ && _) = true |- _ => apply andb_true_iff in H as [? ?]
  | H : (_ || _) = false |- _ => apply orb_false_iff in H as [? ?]
  | H : (_ || _) = true |- _ => apply orb_true_iff in H
  | H : (_ && _) = false |- _ => apply andb_false_iff in H
  | H : negb _ = true |- _ => apply negb_true_iff in H
  | H : negb _ = false |- _ => apply negb_false_iff in H
  | H : (_ =? _) = true |- _ => apply Z.eqb_eq in H
  | H : (_ =? _) = false |- _ => apply Z.eqb_neq in H
  | H : (_ <? _) = true |- _ => apply Z.ltb_lt in H
  | H : (_ <? _) = false |- _ => apply Z.ltb_ge in H
  | H : (_ <=? _) = true |- _ => apply Z.leb_le in H
  | H : (_ <=? _) = false |- _ => apply Z.leb_gt in H
  | H : bool_decide _ = true |- _ => apply bool_decide_eq_true in H
  | H : bool_decide _ = false |- _ => apply bool_decide_eq_false in H
  end.

(** ** Machine integers

    A w-bit unsigned integer is a [Z] in [0, 2^w); conversions and arithmetic
    that may leave the range wrap explicitly.  Go's [int] is 64 bits wide on
    the two supported architectures. *)
Definition wrap (w z : Z) : Z := z mod 2 ^ w.
Definition swrap (w z : Z) : Z := (z + 2 ^ (w - 1)) mod 2 ^ w - 2 ^ (w - 1).
Definition in_u (w z : Z) : Prop := 0 <= z < 2 ^ w.
Definition in_s (w z : Z) : Prop := - 2 ^ (w - 1) <= z < 2 ^ (w - 1).
Definition MaxUint64 : Z := 2 ^ 64 - 1.

Lemma wrap_small w z : in_u w z -> wrap w z = z.
Proof. apply Z.mod_small. Qed.

Lemma wrap_range w z : 0 <= w -> in_u w (wrap w z).
Proof. intros. apply Z.mod_pos_bound, Z.pow_pos_nonneg; lia. Qed.

Lemma swrap_wrap w z : 0 < w -> in_s w z -> swrap w (wrap w z) = z.
Proof.
  unfold swrap, wrap, in_s. intros Hw Hz.
  rewrite Zplus_mod_idemp_l.
  assert (2 ^ w = 2 * 2 ^ (w - 1)) as ->.
  { rewrite <- Z.pow_succ_r by lia. f_equal; lia. }
  rewrite Z.mod_small; lia.
Qed.

Lemma wrap_swrap w z : 0 < w -> in_u w z -> wrap w (swrap w z) = z.
Proof.
  unfold swrap, wrap, in_u. intros Hw Hz.
  rewrite Zminus_mod_idemp_l. rewrite Z.mod_small; lia.
Qed.

(** ** Bytes and big-endian words *)
#[export] Instance byte_eq_dec' : EqDecision byte := Byte.byte_eq_dec.

Definition b2z (b : byte) : Z := Z.of_N (Byte.to_N b).
Definition z2b (z : Z) : byte :=
  match Byte.of_N (Z.to_N (z mod 256)) with Some b => b | None => x00 end.

Lemma b2z_range b : 0 <= b2z b < 256.
Proof. unfold b2z. pose proof (Byte.to_N_bounded b). lia. Qed.

Lemma b2z_z2b z : b2z (z2b z) = z mod 256.
Proof.
  unfold b2z, z2b. pose proof (Z.mod_pos_bound z 256 ltac:(lia)).
  destruct (Byte.of_N (Z.to_N (z mod 256))) as [b|] eqn:E.
  - apply Byte.to_of_N in E. rewrite E. lia.
  - apply Byte.of_N_None_iff in E. lia.
Qed.

Lemma z2b_b2z b : z2b (b2z b) = b.
Proof.
  unfold z2b. rewrite Z.mod_small by apply b2z_range.
  unfold b2z. by rewrite N2Z.id, Byte.of_to_N.
Qed.

Lemma b2z_inj a b : b2z a = b2z b -> a = b.
Proof. intros H. by rewrite <- (z2b_b2z a), H, z2b_b2z. Qed.

Lemma b2z_z2b_small z : 0 <= z < 256 -> b2z (z2b z) = z.
Proof. intros. rewrite b2z_z2b. by apply Z.mod_small. Qed.

(** [binary.BigEndian.UintN] and [PutUintN] over whole slices. *)
Fixpoint be_get_from (acc : Z) (l : list byte) : Z :=
  match l with [] => acc | b :: l => be_get_from (acc * 256 + b2z b) l end.
Definition be_get (l : list byte) : Z := be_get_from 0 l.

Fixpoint be_put (n : nat) (v : Z) : list byte :=
  match n with O => [] | S k => z2b (v / 256 ^ Z.of_nat k) :: be_put k v end.

Lemma be_put_length n v : length (be_put n v) = n.
Proof. induction n; simpl; auto. Qed.

Lemma be_get_from_put n v acc :
  be_get_from acc (be_put n v) = acc * 256 ^ Z.of_nat n + v mod 256 ^ Z.of_nat n.
Proof.
  revert acc; induction n as [|n IH]; intros acc.
  - simpl. rewrite Z.mod_1_r. lia.
  - cbn [be_put be_get_from]. rewrite IH, b2z_z2b.
    rewrite Nat2Z.inj_succ, Z.pow_succ_r by lia.
    rewrite (Z.mul_comm 256 (256 ^ Z.of_nat n)).
    rewrite (Z.rem_mul_r v (256 ^ Z.of_nat n) 256) by lia. ring.
Qed.

Lemma be_get_put n v : be_get (be_put n v) = v mod 256 ^ Z.of_nat n.
Proof. unfold be_get. rewrite be_get_from_put. lia. Qed.

Lemma be_get_from_range l acc :
  acc * 256 ^ Z.of_nat (length l) <= be_get_from acc l
    < (acc + 1) * 256 ^ Z.of_nat (length l).
Proof.
  revert acc; induction l as [|b l IH]; intros acc; cbn [be_get_from length].
  - simpl. lia.
  - specialize (IH (acc * 256 + b2z b)). pose proof (b2z_range b).
    rewrite Nat2Z.inj_succ, Z.pow_succ_r by lia.
    pose proof (Z.pow_pos_nonneg 256 (Z.of_nat (length l)) ltac:(lia) ltac:(lia)). nia.
Qed.

Lemma be_get_range l : 0 <= be_get l < 256 ^ Z.of_nat (length l).
Proof. pose proof (be_get_from_range l 0). unfold be_get. lia. Qed.

Lemma be_get_from_acc l acc :
  be_get_from acc l = acc * 256 ^ Z.of_nat (length l) + be_get l.
Proof.
  unfold be_get. revert acc; induction l as [|b l IH]; intros acc; cbn [be_get_from length].
  - simpl. lia.
  - rewrite IH, (IH (0 * 256 + b2z b)). rewrite Nat2Z.inj_succ, Z.pow_succ_r by lia. ring.
Qed.

Lemma be_put_add n v k :
  be_put n (v + k * 256 ^ Z.of_nat n) = be_put n v.
Proof.
  revert k; induction n as [|n IH]; intros k; [done|]. cbn [be_put].
  rewrite Nat2Z.inj_succ, Z.pow_succ_r by lia.
  replace (v + k * (256 * 256 ^ Z.of_nat n)) with (v + (k * 256) * 256 ^ Z.of_nat n) by ring.
  rewrite IH. f_equal.
  apply b2z_inj. rewrite !b2z_z2b, Z.div_add by lia. apply Z.mod_add; lia.
Qed.

Lemma be_put_get l : be_put (length l) (be_get l) = l.
Proof.
  induction l as [|b l IH]; [done|]. cbn [length be_put].
  unfold be_get; cbn [be_get_from]. rewrite be_get_from_acc.
  pose proof (be_get_range l).
  rewrite Z.add_comm, Z.div_add, Z.div_small by lia.
  rewrite be_put_add, IH. by rewrite Z.mul_0_l, !Z.add_0_l, z2b_b2z.
Qed.

Lemma be_put_inj n v w :
  0 <= v < 256 ^ Z.of_nat n -> 0 <= w < 256 ^ Z.of_nat n ->
  be_put n v = be_put n w -> v = w.
Proof.
  intros Hv Hw H. apply (f_equal be_get) in H. rewrite !be_get_put in H.
  by rewrite !Z.mod_small in H.
Qed.

(** [payload[a:b]]. *)
Definition slice {A} (a b : nat) (l : list A) : list A := take (b - a) (drop a l).

Lemma slice_length {A} a b (l : list A) :
  (a <= b)%nat -> (b <= length l)%nat -> length (slice a b l) = (b - a)%nat.
Proof. intros. unfold slice. rewrite length_take, length_drop. lia. Qed.

(** The bytes a field occupies between two others. *)
Lemma slice_mid {A} (l pre x post : list A) a b :
  l = pre ++ x ++ post -> length pre = a -> (length pre + length x = b)%nat -> slice a b l = x.
Proof.
  intros -> <- <-. unfold slice. rewrite drop_app_length.
  replace (length pre + length x - length pre)%nat with (length x) by lia.
  by rewrite take_app_length.
Qed.

Lemma nth_mid {A} (l pre post : list A) x a d :
  l = pre ++ x :: post -> length pre = a -> nth a l d = x.
Proof. intros -> <-. induction pre; simpl; auto. Qed.

Lemma drop_mid {A} (l pre post : list A) a :
  l = pre ++ post -> length pre = a -> drop a l = post.
Proof. intros -> <-. apply drop_app_length. Qed.

Lemma mjoin_cons {A} (l : list A) ls : mjoin (l :: ls) = l ++ mjoin ls.
Proof. done. Qed.

Lemma fmap_mjoin {A B} (f : A -> B) (ls : list (list A)) : f <$> mjoin ls = mjoin (fmap f <$> ls).
Proof. induction ls as [|l ls IH]; [done|]. by rewrite fmap_cons, !mjoin_cons, fmap_app, IH. Qed.

Lemma filter_mjoin {A} (P : A -> Prop) `{forall x, Decision (P x)} (ls : list (list A)) :
  filter P (mjoin ls) = mjoin (filter P <$> ls).
Proof. induction ls as [|l ls IH]; [done|]. by rewrite fmap_cons, !mjoin_cons, filter_app, IH. Qed.

(** ** Indexes

    [for index, x := range l { m[key(x)] = index }]. *)
Section Index.
Context {A K : Type} `{!EqDecision K, !Countable K} (key : A -> K).

Definition index_by (l : list A) : gmap K nat :=
  foldl (fun m '(i, x) => <[key x := i]> m) ∅ (imap pair l).

Lemma index_by_foldl (l : list A) n (m : gmap K nat) p i :
  NoDup (key <$> l) ->
  foldl (fun m '(i, x) => <[key x := i]> m) m (imap (fun j x => ((n + j)%nat, x)) l) !! p = Some i <->
  (exists j x, l !! j = Some x /\ key x = p /\ i = (n + j)%nat) \/ (m !! p = Some i /\ p ∉ key <$> l).
Proof.
  revert n m; induction l as [|x l IH]; intros n m Hn; csimpl.
  { split; [intros Hm; right; split; [done|set_solver]|]. by intros [(j & ? & ? & _)|[? _]]. }
  rewrite fmap_cons in Hn. apply NoDup_cons in Hn as [Hx Hn].
  rewrite (imap_ext _ (fun j y => ((S n + j)%nat, y))) by (intros; simpl; f_equal; lia).
  rewrite IH, not_elem_of_cons by done. split.
  - intros [(j & y & Hj & Hk & ->)|[Hm Hp]].
    + left. exists (S j), y. split_and!; [done|done|lia].
    + destruct (decide (p = key x)) as [->|Hne].
      * rewrite lookup_insert_eq in Hm. injection Hm as <-. left. exists 0%nat, x. by split_and!; [| |lia].
      * rewrite lookup_insert_ne in Hm by done. by right.
  - intros [(j & y & Hj & Hk & ->)|[Hm [Hp Hpl]]].
    + destruct j as [|j]; simpl in Hj.
      * injection Hj as ->. right. subst p. split; [rewrite lookup_insert_eq; f_equal; lia|done].
      * left. exists j, y. split_and!; [done|done|lia].
    + right. rewrite lookup_insert_ne by done. done.
Qed.

Lemma index_by_lookup (l : list A) p i :
  NoDup (key <$> l) -> index_by l !! p = Some i <-> exists x, l !! i = Some x /\ key x = p.
Proof.
  intros Hn. unfold index_by. rewrite (index_by_foldl l 0 ∅ p i Hn). split.
  - intros [(j & x & Hj & Hk & ->)|[Hm _]]; [by exists x|by rewrite lookup_empty in Hm].
  - intros (x & Hj & Hk). left. by exists i, x.
Qed.

End Index.

(** [len(x)]. *)
Definition zlen {A} (l : list A) : Z := Z.of_nat (length l).

#[export] Instance zlen_Permutation {A} : Proper ((≡ₚ) ==> eq) (@zlen A).
Proof. intros l k E. unfold zlen. by rewrite E. Qed.

Lemma zlen_nonneg {A} (l : list A) : 0 <= zlen l.
Proof. unfold zlen; lia. Qed.

Lemma zlen_app {A} (l k : list A) : zlen (l ++ k) = zlen l + zlen k.
Proof. unfold zlen. rewrite length_app. lia. Qed.

Lemma zlen_cons {A} (x : A) l : zlen (x :: l) = zlen l + 1.
Proof. unfold zlen. simpl length. lia. Qed.

Lemma zlen_nil {A} : zlen (@nil A) = 0.
Proof. done. Qed.

Lemma zlen_zero {A} `{!EqDecision A} (l : list A) : (zlen l =? 0) = bool_decide (l = []).
Proof. case_bool_decide as E; [by subst|]. apply Z.eqb_neq. destruct l; [done|]. unfold zlen. simpl. lia. Qed.

Lemma zlen_be_put n v : zlen (be_put n v) = Z.of_nat n.
Proof. unfold zlen. by rewrite be_put_length. Qed.

Create Rewrite HintDb lens.
#[export] Hint Rewrite @zlen_app @zlen_cons @zlen_nil zlen_be_put @length_app be_put_length @length_take @length_drop : lens.

#[global] Opaque be_put be_get.

#[global] Arguments b2z : simpl never.
#[global] Arguments z2b : simpl never.
#[global] Arguments slice : simpl never.
#[global] Arguments zlen : simpl never.

(** ** Tests over lists *)
Lemma existsb_Forall {A} (p : A -> bool) l : existsb p l = false -> Forall (fun x => p x = false) l.
Proof.
  induction l as [|x l IH]; [by constructor|]. cbn [existsb]. intros [Hx Hl]%orb_false_iff. constructor; [done|by apply IH].
Qed.

Lemma existsb_false {A} (p : A -> bool) l : Forall (fun x => p x = false) l -> existsb p l = false.
Proof. induction 1 as [|x l Hx _ IH]; [done|]. cbn [existsb]. by rewrite Hx, IH. Qed.

Lemma errors_Join_None es : errors_Join es = None <-> Forall (fun e => e = None) es.
Proof.
  unfold errors_Join. induction es as [|[e|] es IH]; cbn.
  - by split.
  - split; [done|]. intros H. apply Forall_cons in H as [? _]. done.
  - change (omap id es) with (omap (@id (option error)) es). rewrite Forall_cons, <- IH. by split; [|intros [_ ?]].
Qed.

Lemma errors_Join_Some es e : Some e ∈ es -> is_Some (errors_Join es).
Proof.
  intros H. destruct (errors_Join es) eqn:E; [done|]. apply errors_Join_None in E.
  rewrite Forall_forall in E. by apply E in H.
Qed.
