(* ===== verification/Sorting.v ===== *)
(** * Sorting

    Go's [sort.Slice], [sort.SliceStable] and [slices.SortFunc] take a strict
    weak order.  [sort_by] is the stable sort of a list by such an order.  The
    unstable sorts are only used where the order separates the elements, and
    there [sort_by_unique] shows that every sorted permutation is [sort_by]'s. *)
From S2P Require Import Prelude.

Section SortBy.
Context {A : Type} (less : A -> A -> bool).

Fixpoint insert_by (x : A) (l : list A) : list A :=
  match l with
  | [] => [x]
  | y :: l' => if less y x then y :: insert_by x l' else x :: l
  end.

Definition sort_by (l : list A) : list A := foldr insert_by [] l.

(** [y] may not stand before [x] only if it is strictly greater. *)
Definition not_after (x y : A) : Prop := less y x = false.
End SortBy.

Class StrictWeakOrder {A} (less : A -> A -> bool) : Prop := {
  swo_irrefl x : less x x = false;
  swo_asym x y : less x y = true -> less y x = false;
  swo_negtrans x y z : less x y = false -> less y z = false -> less x z = false
}.

Section SortFacts.
Context {A : Type} (less : A -> A -> bool) `{!StrictWeakOrder less}.

Lemma insert_by_perm x l : insert_by less x l ≡ₚ x :: l.
Proof.
  induction l as [|y l IH]; simpl; [done|].
  destruct (less y x); [|done]. rewrite IH. apply perm_swap.
Qed.

Lemma sort_by_perm l : sort_by less l ≡ₚ l.
Proof. induction l as [|x l IH]; simpl; [done|]. by rewrite insert_by_perm, IH. Qed.

Lemma sort_by_length l : length (sort_by less l) = length l.
Proof. apply Permutation_length, sort_by_perm. Qed.

Lemma insert_by_sorted x l :
  StronglySorted (not_after less) l -> StronglySorted (not_after less) (insert_by less x l).
Proof.
  induction 1 as [|y l Hl IH Hy]; simpl; [by repeat constructor|].
  destruct (less y x) eqn:E.
  - constructor; [done|]. rewrite insert_by_perm. constructor; [|done].
    by apply swo_asym.
  - constructor; [by constructor|]. constructor; [done|].
    eapply Forall_impl; [exact Hy|]. intros z Hz. unfold not_after in *.
    by eapply swo_negtrans.
Qed.

Lemma sort_by_sorted l : StronglySorted (not_after less) (sort_by less l).
Proof. induction l; simpl; [constructor | by apply insert_by_sorted]. Qed.

(** A list that is already in order is left as it is. *)
Lemma insert_by_head x l : Forall (not_after less x) l -> insert_by less x l = x :: l.
Proof. destruct l; simpl; [done|]. inversion 1 as [|? ? Hx]; subst. by rewrite Hx. Qed.

Lemma sort_by_id l : StronglySorted (not_after less) l -> sort_by less l = l.
Proof.
  induction 1 as [|x l Hl IH Hx]; simpl; [done|]. rewrite IH. by apply insert_by_head.
Qed.

(** When the order separates the elements of a list its sorted permutation is
    unique, so an unstable sort returns the same list. *)
Lemma sort_by_unique l l' :
  l' ≡ₚ l -> StronglySorted (not_after less) l' ->
  (forall x y, x ∈ l -> y ∈ l -> less x y = false -> less y x = false -> x = y) ->
  l' = sort_by less l.
Proof.
  intros Hp Hs Hsep. apply (StronglySorted_unique_strong (not_after less)); try done.
  - intros x y Hx Hy H1 H2. apply Hsep; try done.
    + by rewrite <- Hp.
    + by rewrite <- (sort_by_perm l).
  - apply sort_by_sorted.
  - by rewrite Hp, sort_by_perm.
Qed.
End SortFacts.

(** Sorting by an integer key. *)
#[export] Instance swo_key {A} (key : A -> Z) :
  StrictWeakOrder (fun x y => key x <? key y).
Proof.
  split; intros *; rewrite ?Z.ltb_ge, ?Z.ltb_lt; lia.
Qed.

(** Sorting by one order, ties broken by another ([if a != b { return a < b }]). *)
Definition lex_less {A} (less1 less2 : A -> A -> bool) (x y : A) : bool :=
  if less1 x y then true else if less1 y x then false else less2 x y.

#[export] Instance swo_lex {A} (l1 l2 : A -> A -> bool)
  `{!StrictWeakOrder l1} `{!StrictWeakOrder l2} : StrictWeakOrder (lex_less l1 l2).
Proof.
  assert (tr : forall x y z, l1 x y = true -> l1 z y = false -> l1 x z = true).
  { intros x y z H1 H2. destruct (l1 x z) eqn:E; [done|].
    by rewrite (swo_negtrans x z y E H2) in H1. }
  assert (tr' : forall x y z, l1 y x = false -> l1 y z = true -> l1 x z = true).
  { intros x y z H1 H2. destruct (l1 x z) eqn:E; [done|].
    by rewrite (swo_negtrans y x z H1 E) in H2. }
  unfold lex_less; split.
  - intros x. by rewrite !swo_irrefl.
  - intros x y. destruct (l1 x y) eqn:E1.
    + by rewrite (swo_asym x y E1).
    + destruct (l1 y x) eqn:E2; [done|]. intros; by apply swo_asym.
  - intros x y z.
    destruct (l1 x y) eqn:E1; [done|]. destruct (l1 y z) eqn:E2; [by destruct (l1 y x)|].
    rewrite (swo_negtrans x y z E1 E2).
    destruct (l1 z y) eqn:E4; [by rewrite (tr z y x E4 E1)|].
    destruct (l1 y x) eqn:E3; [by rewrite (tr' z y x E2 E3)|].
    rewrite (swo_negtrans z y x E4 E3). intros. by eapply swo_negtrans.
Qed.

Lemma StronglySorted_fmap_inv {A B} (f : A -> B) (R : B -> B -> Prop) l :
  StronglySorted R (f <$> l) -> StronglySorted (fun x y => R (f x) (f y)) l.
Proof.
  induction l as [|x l IH]; [constructor|]. rewrite fmap_cons.
  intros [Hl Hx]%StronglySorted_inv. constructor; [by apply IH|]. exact (proj1 (Forall_fmap f (R (f x)) l) Hx).
Qed.
