(* ===== verification/Utf8.v ===== *)
(** * UTF-8

    The part of Go's [unicode/utf8], [strings] and [bytes] packages that the
    program uses on raw text: recognising one encoded rune, [Valid], and
    [ToValidUTF8], which replaces every maximal run of invalid bytes by one
    replacement. *)
From S2P Require Import Prelude.

Definition in_byte (lo hi : Z) (b : byte) : bool := (lo <=? b2z b) && (b2z b <=? hi).
Definition continuation (b : byte) : bool := in_byte 0x80 0xbf b.

(** The length of the encoding a first byte announces, 0 for an invalid one. *)
Definition rune_size (b : byte) : nat :=
  if in_byte 0 0x7f b then 1
  else if in_byte 0xc2 0xdf b then 2
  else if in_byte 0xe0 0xef b then 3
  else if in_byte 0xf0 0xf4 b then 4
  else 0.

(** The admissible second byte after a given first one: no overlong
    encodings, no surrogates, nothing above U+10FFFF. *)
Definition second_ok (b0 b1 : byte) : bool :=
  match b0 with
  | xe0 => in_byte 0xa0 0xbf b1
  | xed => in_byte 0x80 0x9f b1
  | xf0 => in_byte 0x90 0xbf b1
  | xf4 => in_byte 0x80 0x8f b1
  | _ => continuation b1
  end.

(** [is_rune r]: the bytes are exactly one encoded code point. *)
Definition is_rune (r : list byte) : bool :=
  match r with
  | [b0] => bool_decide (rune_size b0 = 1%nat)
  | [b0; b1] => bool_decide (rune_size b0 = 2%nat) && second_ok b0 b1
  | [b0; b1; b2] => bool_decide (rune_size b0 = 3%nat) && second_ok b0 b1 && continuation b2
  | [b0; b1; b2; b3] =>
      bool_decide (rune_size b0 = 4%nat) && second_ok b0 b1 && continuation b2 && continuation b3
  | _ => false
  end.

(** [DecodeRune]: the first rune and the rest, [None] where it reports width 1
    for an invalid encoding. *)
Definition split_rune (l : list byte) : option (list byte * list byte) :=
  match l with
  | [] => None
  | b :: _ =>
      let n := rune_size b in
      if is_rune (take n l) then Some (take n l, drop n l) else None
  end.

(** The code point of an encoded rune. *)
Definition rune_value (r : list byte) : Z :=
  match r with
  | [b0] => b2z b0
  | [b0; b1] => Z.land (b2z b0) 0x1f * 64 + Z.land (b2z b1) 0x3f
  | [b0; b1; b2] =>
      Z.land (b2z b0) 0x0f * 4096 + Z.land (b2z b1) 0x3f * 64 + Z.land (b2z b2) 0x3f
  | [b0; b1; b2; b3] =>
      Z.land (b2z b0) 0x07 * 262144 + Z.land (b2z b1) 0x3f * 4096
        + Z.land (b2z b2) 0x3f * 64 + Z.land (b2z b3) 0x3f
  | _ => 0xfffd
  end.

Fixpoint valid_fuel (n : nat) (l : list byte) : bool :=
  match l, n with
  | [], _ => true
  | _, O => false
  | _, S n => match split_rune l with Some (_, l') => valid_fuel n l' | None => false end
  end.
Definition Valid (l : list byte) : bool := valid_fuel (length l) l.

(** [ToValidUTF8(l, replacement)]; [invalid] says that the byte before was
    replaced. *)
Fixpoint to_valid_fuel (replacement : list byte) (n : nat) (invalid : bool) (l : list byte)
  : list byte :=
  match l, n with
  | [], _ | _, O => []
  | _ :: rest, S n =>
      match split_rune l with
      | Some (r, l') => r ++ to_valid_fuel replacement n false l'
      | None => (if invalid then [] else replacement) ++ to_valid_fuel replacement n true rest
      end
  end.
Definition ToValidUTF8 (l replacement : list byte) : list byte :=
  to_valid_fuel replacement (length l) false l.

(** U+FFFD. *)
Definition replacement_rune : list byte := [xef; xbf; xbd].

(** ** Specification: a text is a concatenation of encoded runes *)
Inductive utf8 : list byte -> Prop :=
  | utf8_nil : utf8 []
  | utf8_rune r l : is_rune r = true -> utf8 l -> utf8 (r ++ l).

Lemma is_rune_length r :
  is_rune r = true -> exists b r', r = b :: r' /\ length r = rune_size b /\ (1 <= length r <= 4)%nat.
Proof.
  destruct r as [|b0 [|b1 [|b2 [|b3 [|]]]]]; simpl; try done;
    intros H; bool_to_prop; eexists _, _; split_and!; try done; lia.
Qed.

Lemma split_rune_app r l : is_rune r = true -> split_rune (r ++ l) = Some (r, l).
Proof.
  intros H. destruct (is_rune_length r H) as (b & r' & -> & Hl & _).
  cbn [split_rune app]. rewrite <- Hl.
  change (b :: r' ++ l) with ((b :: r') ++ l).
  by rewrite take_app_length, drop_app_length, H.
Qed.

Lemma split_rune_Some l r l' : split_rune l = Some (r, l') -> is_rune r = true /\ l = r ++ l'.
Proof.
  destruct l as [|b l]; [done|]. cbn [split_rune].
  destruct (is_rune (take (rune_size b) (b :: l))) eqn:E; [|done].
  intros [= <- <-]. split; [done|]. symmetry; apply take_drop.
Qed.

Lemma is_rune_nonempty r : is_rune r = true -> (1 <= length r)%nat.
Proof. intros H. destruct (is_rune_length r H) as (? & ? & ? & ? & ?); lia. Qed.

Lemma valid_fuel_utf8 n l : (length l <= n)%nat -> valid_fuel n l = true <-> utf8 l.
Proof.
  revert l; induction n as [|n IH]; intros l Hn.
  - destruct l; simpl in *; [|lia]. by split; [constructor|].
  - destruct l as [|b l]; [by split; [constructor|]|].
    cbn [valid_fuel]. split.
    + destruct (split_rune (b :: l)) as [[r l']|] eqn:E; [|done].
      apply split_rune_Some in E as [Hr Hl]. intros Hv. rewrite Hl. constructor; [done|].
      apply IH; [|done]. apply (f_equal length) in Hl. rewrite length_app in Hl.
      pose proof (is_rune_nonempty r Hr). simpl in *; lia.
    + inversion 1 as [|r l' Hr Hu Heq]. rewrite split_rune_app by done.
      apply IH; [|done]. apply (f_equal length) in Heq. rewrite length_app in Heq.
      pose proof (is_rune_nonempty r Hr). simpl in *; lia.
Qed.

Lemma Valid_utf8 l : Valid l = true <-> utf8 l.
Proof. by apply valid_fuel_utf8. Qed.

Lemma utf8_app l k : utf8 l -> utf8 k -> utf8 (l ++ k).
Proof. induction 1; simpl; [done|]. intros. rewrite <- app_assoc. by constructor; auto. Qed.

Lemma Valid_app l k : Valid l = true -> Valid k = true -> Valid (l ++ k) = true.
Proof. rewrite !Valid_utf8. apply utf8_app. Qed.

Lemma replacement_rune_valid : utf8 replacement_rune.
Proof. rewrite <- (app_nil_r replacement_rune). by repeat constructor. Qed.

Lemma to_valid_fuel_utf8 rep n inv l : utf8 rep -> utf8 (to_valid_fuel rep n inv l).
Proof.
  intros Hrep. revert inv l; induction n as [|n IH]; intros inv [|b l]; try constructor.
  cbn [to_valid_fuel]. destruct (split_rune (b :: l)) as [[r l']|] eqn:E.
  - apply split_rune_Some in E as [Hr _]. by constructor.
  - apply utf8_app; [|done]. by destruct inv; [constructor|].
Qed.

(** [ToValidUTF8] always yields valid text. *)
Lemma ToValidUTF8_valid l rep : utf8 rep -> Valid (ToValidUTF8 l rep) = true.
Proof. intros. apply Valid_utf8. by apply to_valid_fuel_utf8. Qed.

(** [ToValidUTF8] does not change valid text. *)
Lemma to_valid_fuel_id rep n inv l :
  (length l <= n)%nat -> utf8 l -> to_valid_fuel rep n inv l = l.
Proof.
  intros Hn Hu. revert n inv Hn; induction Hu as [|r l Hr Hu IH]; intros n inv Hn.
  - by destruct n.
  - pose proof (is_rune_nonempty r Hr) as H1. pose proof (split_rune_app r l Hr) as Hs.
    rewrite length_app in Hn. destruct n as [|n]; [lia|].
    destruct (r ++ l) as [|b t] eqn:Et; [by destruct r|].
    cbn [to_valid_fuel]. rewrite Hs, IH by lia. done.
Qed.

Lemma ToValidUTF8_id l rep : Valid l = true -> ToValidUTF8 l rep = l.
Proof. intros H%Valid_utf8. by apply to_valid_fuel_id. Qed.

(** A cut inside a valid text is at most three bytes after a rune boundary. *)
Lemma utf8_take_boundary l n :
  utf8 l -> (n <= length l)%nat ->
  exists k, (k <= n)%nat /\ (n < k + 4)%nat /\ utf8 (take k l).
Proof.
  intros Hu. revert n; induction Hu as [|r l Hr Hu IH]; intros n Hn.
  - exists 0%nat. simpl in Hn. split_and!; [lia|lia|constructor].
  - destruct (is_rune_length r Hr) as (b & r' & E & _ & Hlen).
    rewrite length_app in Hn. destruct (decide (n < length r)%nat) as [Hlt|Hge].
    + exists 0%nat. split_and!; [lia|lia|constructor].
    + destruct (IH (n - length r)%nat) as (k & Hk1 & Hk2 & Hk3); [lia|].
      exists (length r + k)%nat. split_and!; [lia|lia|].
      rewrite take_app_add. by constructor.
Qed.

(** ASCII bytes are runes of their own. *)
Lemma utf8_ascii b l : b2z b < 0x80 -> utf8 l -> utf8 (b :: l).
Proof.
  intros Hb Hl. change (b :: l) with ([b] ++ l). constructor; [|done].
  simpl. unfold rune_size, in_byte. pose proof (b2z_range b).
  destruct (Z.leb_spec 0 (b2z b)), (Z.leb_spec (b2z b) 127); simpl; done || lia.
Qed.
