(* ===== verification/GoIO.v ===== *)
(** * Byte streams

    [io.Reader] as the bytes it still delivers and the error it then reports,
    [io.ReadFull] on it, and [io.Writer] as an interface: a component writes to
    any state with a [Writer] operation, and theorems about what arrives are
    proved from [WriterLaws], the documented contract of the interface. *)
From S2P Require Import Prelude.

Record reader : Type := MkReader { pending : list byte; ending : error }.

(** [io.ReadFull(r, make([]byte, n))]. *)
Definition ReadFull (n : nat) (r : reader) : result (list byte) * reader :=
  if decide (n <= length (pending r))%nat then
    (Ok (take n (pending r)), MkReader (drop n (pending r)) (ending r))
  else
    (Err (match pending r, ending r with
          | _ :: _, ErrEOF => ErrUnexpectedEOF
          | _, e => e
          end),
     MkReader [] (ending r)).

Lemma ReadFull_app n l rest e :
  length l = n -> ReadFull n (MkReader (l ++ rest) e) = (Ok l, MkReader rest e).
Proof.
  intros <-. unfold ReadFull; simpl. rewrite length_app.
  rewrite decide_True by lia. by rewrite take_app_length, drop_app_length.
Qed.

Lemma ReadFull_Ok n r l r' :
  ReadFull n r = (Ok l, r') ->
  length l = n /\ pending r = l ++ pending r' /\ ending r' = ending r.
Proof.
  unfold ReadFull. case_decide; [|done]. intros [= <- <-]; simpl.
  rewrite take_drop, length_take. split_and!; [lia|done..].
Qed.

(** ** Writers *)
Class Writer (W : Type) : Type :=
  write_to : W -> list byte -> W * Z * option error.

(** The contract of [io.Writer]: [Write] consumes a prefix of its argument and
    reports its length, with an error whenever that is not all of it. *)
Class WriterLaws (W : Type) `{Writer W} : Type := {
  delivered : W -> list byte;
  write_contract w p w' n e :
    write_to w p = (w', n, e) ->
    0 <= n <= zlen p /\ delivered w' = delivered w ++ take (Z.to_nat n) p
    /\ (n < zlen p -> is_Some e)
}.

(** A writer in memory that accepts everything: the file a witness writes to. *)
#[export] Instance memory_writer : Writer (list byte) := fun w p => (w ++ p, zlen p, None).

#[export, refine] Instance memory_writer_laws : WriterLaws (list byte) :=
  { delivered w := w }.
Proof.
  unfold write_to, memory_writer. intros w p w' n e [= <- <- <-].
  unfold zlen. rewrite Nat2Z.id, firstn_all. split_and!; try lia; done.
Defined.

Section WriteFull.
Context {W : Type} `{!Writer W}.

(** The loop of [writeFull]: every round shortens the data, so [length data]
    rounds are enough ([writeFull_total]). *)
Fixpoint writeFull_loop (fuel : nat) (w : W) (data : list byte)
  : option (W * option error) :=
  match data with
  | [] => Some (w, None)
  | _ =>
      match fuel with
      | O => None
      | S fuel =>
          let '(w', written, err) := write_to w data in
          match err with
          | Some e => Some (w', Some e)
          | None =>
              if (written <=? 0) || (zlen data <? written) then Some (w', Some ErrShortWrite)
              else writeFull_loop fuel w' (drop (Z.to_nat written) data)
          end
      end
  end.

Lemma writeFull_loop_total fuel w data :
  (length data <= fuel)%nat -> is_Some (writeFull_loop fuel w data).
Proof.
  revert w data; induction fuel as [|fuel IH]; intros w data Hf.
  - destruct data; [by eexists | simpl in Hf; lia].
  - destruct data as [|b data]; [by eexists|]. cbn [writeFull_loop].
    destruct (write_to w (b :: data)) as [[w' n] [e|]]; [by eexists|].
    destruct (_ || _) eqn:E; [by eexists|]. bool_to_prop.
    apply IH. rewrite length_drop. simpl in *. lia.
Qed.

Definition writeFull (w : W) (data : list byte) : W * option error :=
  default (w, None) (writeFull_loop (length data) w data).

Context `{!WriterLaws W}.

Lemma writeFull_loop_spec fuel w data w' err :
  writeFull_loop fuel w data = Some (w', err) ->
  exists k, (k <= length data)%nat /\ delivered w' = delivered w ++ take k data
    /\ (err = None -> k = length data).
Proof.
  revert w data; induction fuel as [|fuel IH]; intros w data.
  - destruct data; [|done]. intros [= <- <-]. exists 0%nat. by rewrite app_nil_r.
  - destruct data as [|b data].
    { intros [= <- <-]. exists 0%nat. by rewrite app_nil_r. }
    cbn [writeFull_loop].
    destruct (write_to w (b :: data)) as [[w1 n] e] eqn:Hw.
    apply write_contract in Hw as (Hn & Hd & He). unfold zlen in *.
    destruct e as [e|].
    { intros [= <- <-]. exists (Z.to_nat n). split_and!; [lia|done|done]. }
    destruct (_ || _) eqn:E.
    { intros [= <- <-]. exists (Z.to_nat n). split_and!; [lia|done|done]. }
    bool_to_prop. intros (k & Hk & Hd' & Hk')%IH. rewrite length_drop in *.
    exists (Z.to_nat n + k)%nat. split_and!; [lia| |intros; rewrite Hk'; [lia|done]].
    rewrite Hd', Hd, <- app_assoc. f_equal.
    by rewrite take_take_drop.
Qed.

(** [writeFull] delivers a prefix of the data, and all of it when it reports
    no error, however the writer splits the writes. *)
Lemma writeFull_spec w data w' err :
  writeFull w data = (w', err) ->
  exists k, (k <= length data)%nat /\ delivered w' = delivered w ++ take k data
    /\ (err = None -> k = length data).
Proof.
  unfold writeFull. destruct (writeFull_loop_total (length data) w data) as [x Hx]; [done|].
  rewrite Hx. simpl. intros ->. by eapply writeFull_loop_spec.
Qed.
End WriteFull.
