(* ===== verification/TransferNumber.v ===== *)
(** * Transfer numbers

    [internal/transfernumber/number.go]: the run-local identity of a transfer.
    The zero value of the type is the invalid number. *)
From S2P Require Import Prelude.

Definition Maximum : Z := 35.

Record Number : Type := MkNumber { Value : Z }.

#[export] Instance Number_eq_dec : EqDecision Number.
Proof. solve_decision. Defined.

#[export] Instance Number_countable : Countable Number.
Proof. by apply (inj_countable' Value MkNumber); intros []. Defined.

Definition number_zero : Number := MkNumber 0.

Definition number_New (value : Z) : result Number :=
  if (value <? 1) || (Maximum <? value) then
    Err (ErrText ("transfer number " +:+ pretty value +:+ " is outside valid range 1.."
                  +:+ pretty Maximum))
  else Ok (MkNumber (wrap 8 value)).

(** The values of the type: the field is private, so a number is the zero
    value or was made by [New]. *)
Definition number_wf (n : Number) : Prop := 0 <= Value n <= Maximum.

Lemma number_New_Ok value n :
  number_New value = Ok n <-> 1 <= value <= Maximum /\ n = MkNumber value.
Proof.
  unfold number_New. destruct (_ || _) eqn:E.
  - split; [done|]. intros [H _]. bool_to_prop. unfold Maximum in *; lia.
  - bool_to_prop. unfold Maximum in *.
    rewrite wrap_small by (unfold in_u; lia).
    split; [intros [= <-]; split; [lia|done] | by intros [_ ->]].
Qed.

Lemma number_New_Value n : 1 <= Value n <= Maximum -> number_New (Value n) = Ok n.
Proof. intros. apply number_New_Ok. by destruct n. Qed.

(** The byte of a number on the wire. *)
Lemma number_byte n : number_wf n -> b2z (z2b (Value n)) = Value n.
Proof. unfold number_wf, Maximum. intros. apply b2z_z2b_small. lia. Qed.

Lemma number_New_byte n b :
  number_New (b2z b) = Ok n -> 1 <= Value n <= Maximum /\ z2b (Value n) = b.
Proof. intros [H ->]%number_New_Ok. simpl. by rewrite z2b_b2z. Qed.
