(* ===== verification/Frame.v ===== *)
(** * Supervisor frames

    [internal/runsupervisor/frame.go]: the framing of every pipe between the
    parent and the supervisor.  A frame is the magic [WS], the version, the
    kind, a 32-bit big-endian length and the payload. *)
From S2P Require Import Prelude GoIO.

Definition wireVersion : Z := 5.
Definition wireHeaderBytes : nat := 8.
Definition maximumWirePayload : Z := 64 * 1024.
Definition pipeAtomicFrameBytes : Z := 4096.
Definition wireMagic : list byte := [x57; x53].

(** The size check of [supervisor.go] on a start request. *)
Definition ValidateStartRequestSize (size : Z) : option error :=
  if (size <? 0) || (maximumWirePayload <? size) then Some (ErrText "supervisor start request is invalid")
  else None.
Definition ValidateStartRequest (request : list byte) : option error := ValidateStartRequestSize (zlen request).

(** [frameKind] is a [uint8]; a header may carry any value of it. *)
Definition frameReady : Z := 1.
Definition frameAccepted : Z := 2.
Definition frameStart : Z := 3.
Definition frameCommit : Z := 4.
Definition frameCancel : Z := 5.
Definition frameResize : Z := 6.
Definition frameInput : Z := 7.
Definition frameOutput : Z := 8.
Definition frameStatus : Z := 9.
Definition frameFinal : Z := 10.

Record wireFrame : Type := MkFrame { frame_kind : Z; frame_payload : list byte }.

Definition kind_valid (kind : Z) : bool := (frameReady <=? kind) && (kind <=? frameFinal).

Definition allowedOnEventPipe (kind : Z) : bool :=
  (kind =? frameReady) || (kind =? frameAccepted) || (kind =? frameOutput)
  || (kind =? frameStatus) || (kind =? frameFinal).

Definition encodeFrame (kind : Z) (payload : list byte) : result (list byte) :=
  if negb (kind_valid kind) || (maximumWirePayload <? zlen payload) then
    Err (ErrText "supervisor wire frame is invalid")
  else
    Ok (wireMagic ++ [z2b wireVersion; z2b kind] ++ be_put 4 (wrap 32 (zlen payload)) ++ payload).

Definition readFrame (r : reader) : result wireFrame * reader :=
  match ReadFull wireHeaderBytes r with
  | (Err e, r1) => (Err e, r1)
  | (Ok header, r1) =>
      let kind := b2z (nth 3 header x00) in
      let size := be_get (drop 4 header) in
      if negb (bool_decide (take 2 header = wireMagic))
         || negb (b2z (nth 2 header x00) =? wireVersion)
         || negb (kind_valid kind) || (maximumWirePayload <? size) then
        (Err (ErrText "supervisor wire header is invalid"), r1)
      else
        match ReadFull (Z.to_nat size) r1 with
        | (Err e, r2) => (Err (ErrWrap "read supervisor frame payload" e), r2)
        | (Ok payload, r2) => (Ok (MkFrame kind payload), r2)
        end
  end.

Definition writeFrame {W} `{!Writer W} (w : W) (kind : Z) (payload : list byte)
  : W * option error :=
  match encodeFrame kind payload with
  | Err e => (w, Some e)
  | Ok encoded =>
      match writeFull w encoded with
      | (w', Some e) => (w', Some (ErrWrap "write supervisor frame" e))
      | (w', None) => (w', None)
      end
  end.

(** ** Encoding *)
Lemma encodeFrame_Ok kind payload encoded :
  encodeFrame kind payload = Ok encoded <->
  1 <= kind <= 10 /\ zlen payload <= maximumWirePayload /\
  encoded = wireMagic ++ [z2b wireVersion; z2b kind] ++ be_put 4 (zlen payload) ++ payload.
Proof.
  unfold encodeFrame, kind_valid, frameReady, frameFinal.
  destruct (_ || _) eqn:E; bool_to_prop.
  - split; [done|]. intros (Hk & Hp & _). destruct E as [E|E]; bool_to_prop; lia.
  - rewrite wrap_small by (unfold in_u, zlen, maximumWirePayload in *; lia).
    split; [intros [= <-]; split_and!; lia || done | by intros (_ & _ & ->)].
Qed.

Lemma encodeFrame_length kind payload encoded :
  encodeFrame kind payload = Ok encoded -> zlen encoded = zlen payload + 8.
Proof.
  intros (_ & _ & ->)%encodeFrame_Ok. unfold zlen. autorewrite with lens. simpl. lia.
Qed.

Lemma encodeFrame_is_ok kind payload :
  is_ok (encodeFrame kind payload) = kind_valid kind && (zlen payload <=? maximumWirePayload).
Proof.
  unfold encodeFrame. destruct (kind_valid kind); simpl; [|done].
  destruct (Z.ltb_spec maximumWirePayload (zlen payload)), (Z.leb_spec (zlen payload) maximumWirePayload);
    simpl; done || lia.
Qed.

(** ** Reading back *)
Lemma list_8 {A} (l : list A) :
  length l = 8%nat -> exists a b c d e f g h, l = [a; b; c; d; e; f; g; h].
Proof. intros. do 8 (destruct l as [|? l]; [done|]). destruct l; [|done]. by repeat eexists. Qed.

Lemma readFrame_encode kind payload encoded rest e :
  encodeFrame kind payload = Ok encoded ->
  readFrame (MkReader (encoded ++ rest) e) = (Ok (MkFrame kind payload), MkReader rest e).
Proof.
  intros (Hk & Hp & ->)%encodeFrame_Ok. unfold readFrame, wireHeaderBytes.
  pose proof (zlen_nonneg payload) as Hnn. unfold maximumWirePayload in *.
  pose proof (be_get_put 4 (zlen payload)) as Hg. rewrite Z.mod_small in Hg by lia.
  pose proof (be_put_length 4 (zlen payload)) as Hl.
  remember (be_put 4 (zlen payload)) as bs eqn:Ebs. clear Ebs.
  rewrite <- !app_assoc.
  change (wireMagic ++ [z2b wireVersion; z2b kind] ++ bs ++ payload ++ rest)
    with ((wireMagic ++ [z2b wireVersion; z2b kind]) ++ bs ++ payload ++ rest).
  rewrite (app_assoc _ bs). rewrite ReadFull_app by (rewrite length_app, Hl; done).
  change (drop 4 ((wireMagic ++ [z2b wireVersion; z2b kind]) ++ bs)) with bs.
  change (nth 3 ((wireMagic ++ [z2b wireVersion; z2b kind]) ++ bs) x00) with (z2b kind).
  rewrite Hg, b2z_z2b_small by lia.
  assert (kind_valid kind = true) as ->.
  { unfold kind_valid, frameReady, frameFinal. apply andb_true_iff.
    split; apply Z.leb_le; lia. }
  destruct (Z.ltb_spec (64 * 1024) (zlen payload)); [lia|]. simpl.
  unfold zlen. rewrite Nat2Z.id. by rewrite ReadFull_app.
Qed.

Lemma readFrame_Ok r f r' :
  readFrame r = (Ok f, r') ->
  exists encoded, encodeFrame (frame_kind f) (frame_payload f) = Ok encoded
    /\ pending r = encoded ++ pending r' /\ ending r' = ending r.
Proof.
  unfold readFrame, wireHeaderBytes.
  destruct (ReadFull 8 r) as [[header|?] r1] eqn:Hrd1; [|done].
  apply ReadFull_Ok in Hrd1 as (Hl & Hp & He).
  destruct (_ || _) eqn:E; [done|]. bool_to_prop.
  destruct (ReadFull _ r1) as [[payload|?] r2] eqn:Hrd2; [|done].
  apply ReadFull_Ok in Hrd2 as (Hl2 & Hp2 & He2). intros [= <- <-]; simpl.
  destruct (list_8 header Hl) as (m0 & m1 & ver & k & s0 & s1 & s2 & s3 & ->).
  simpl in *. pose proof (be_get_range [s0; s1; s2; s3]) as Hr. simpl length in Hr.
  assert (Hsize : zlen payload = be_get [s0; s1; s2; s3]).
  { unfold zlen. rewrite Hl2. lia. }
  exists ([m0; m1; ver; k; s0; s1; s2; s3] ++ payload). split_and!.
  - apply encodeFrame_Ok. rewrite Hsize. unfold kind_valid, frameReady, frameFinal in *.
    bool_to_prop. split_and!; [lia..|].
    change (be_put 4) with (be_put (length [s0; s1; s2; s3])). rewrite be_put_get.
    match goal with H : [m0; m1] = wireMagic |- _ => injection H as -> -> end.
    match goal with H : b2z ver = _ |- _ => rewrite <- H end.
    by rewrite !z2b_b2z.
  - rewrite Hp, Hp2. by rewrite <- app_assoc.
  - congruence.
Qed.

(** ** How a read fails *)
Lemma readFrame_EOF r e r' :
  ending r = ErrEOF -> readFrame r = (Err e, r') -> is_EOF e = true ->
  pending r = [] \/
  exists kind payload encoded, payload <> [] /\ encodeFrame kind payload = Ok encoded /\
    pending r = take 8 encoded.
Proof.
  intros Hend. unfold readFrame, wireHeaderBytes.
  destruct (ReadFull 8 r) as [[header|?] r1] eqn:Hrd1.
  - apply ReadFull_Ok in Hrd1 as (Hl & Hp & He).
    destruct (_ || _) eqn:E; [by intros [= <- <-]|]. bool_to_prop.
    destruct (ReadFull _ r1) as [[payload|e2] r2] eqn:Hrd2; [done|].
    unfold ReadFull in Hrd2. case_decide as Hlen; [done|]. injection Hrd2 as <- <-.
    intros [= <- <-]; simpl. intros Heof.
    destruct (list_8 header Hl) as (m0 & m1 & ver & k & s0 & s1 & s2 & s3 & ->). simpl in *.
    rewrite He, Hend in Heof. destruct (pending r1) eqn:Hp1; [|done]. right.
    pose proof (be_get_range [s0; s1; s2; s3]) as Hr. simpl length in Hr.
    set (size := be_get [s0; s1; s2; s3]) in *. simpl in Hlen.
    exists (b2z k), (replicate (Z.to_nat size) x00),
      ([m0; m1; ver; k; s0; s1; s2; s3] ++ replicate (Z.to_nat size) x00).
    split_and!.
    + destruct (Z.to_nat size) eqn:Hz; [lia | done].
    + assert (Hs : zlen (replicate (Z.to_nat size) x00) = size).
      { unfold zlen. rewrite length_replicate. lia. }
      apply encodeFrame_Ok. rewrite Hs. unfold kind_valid, frameReady, frameFinal in *.
      bool_to_prop. split_and!; [lia..|]. unfold size.
      change (be_put 4) with (be_put (length [s0; s1; s2; s3])). rewrite be_put_get.
      match goal with H : [m0; m1] = wireMagic |- _ => injection H as -> -> end.
      match goal with H : b2z ver = _ |- _ => rewrite <- H end.
      by rewrite !z2b_b2z.
    + by rewrite Hp.
  - unfold ReadFull in Hrd1. case_decide; [done|]. injection Hrd1 as <- <-.
    rewrite Hend. intros [= <- <-] Heof. destruct (pending r); [by left|done].
Qed.

(** ** Properties *)

(** Framing is a round trip in both directions: reading the bytes
    [encodeFrame] wrote gives the frame back and leaves exactly the bytes after
    it, and whatever [readFrame] accepts is the encoding of what it returns; an
    encoded frame is eight bytes longer than its payload. *)
Theorem frame_round_trip kind payload encoded rest e :
  (encodeFrame kind payload = Ok encoded ->
     readFrame (MkReader (encoded ++ rest) e) = (Ok (MkFrame kind payload), MkReader rest e)
     /\ zlen encoded = zlen payload + 8) /\
  (forall r r', readFrame r = (Ok (MkFrame kind payload), r') ->
     exists encoded, encodeFrame kind payload = Ok encoded
       /\ pending r = encoded ++ pending r' /\ ending r' = ending r).
Proof.
  split.
  - intros He. split; [by apply readFrame_encode|by eapply encodeFrame_length].
  - intros r r' H. by apply readFrame_Ok in H.
Qed.

Lemma frame_round_trip_witness :
  readFrame (MkReader [x57; x53; x05; x05; x00; x00; x00; x01; x02; xff] ErrEOF)
    = (Ok (MkFrame frameCancel [x02]), MkReader [xff] ErrEOF)
  /\ exists encoded, encodeFrame frameCancel [x02] = Ok encoded
    /\ [x57; x53; x05; x05; x00; x00; x00; x01; x02; xff] = encoded ++ [xff].
Proof.
  destruct (encodeFrame frameCancel [x02]) as [encoded|] eqn:He; [|vm_compute in He; discriminate He].
  destruct (frame_round_trip frameCancel [x02] encoded [xff] ErrEOF) as [H1 H2].
  assert (encoded ++ [xff] = [x57; x53; x05; x05; x00; x00; x00; x01; x02; xff]) as Heq.
  { vm_compute in He. injection He as <-. reflexivity. }
  destruct (H1 He) as [Hread _]. rewrite Heq in Hread. split; [exact Hread|].
  destruct (H2 _ _ Hread) as (encoded' & He' & Hp & _). exists encoded'. split; [congruence|exact Hp].
Defined.

(** [writeFrame] through any [io.Writer] delivers a prefix of the encoded
    frame, and the whole frame when it reports no error. *)
Theorem writeFrame_delivers {W} `{!Writer W, !WriterLaws W} (w w' : W) kind payload err :
  kind_valid kind = true -> zlen payload <= maximumWirePayload ->
  writeFrame w kind payload = (w', err) ->
  exists encoded k, encodeFrame kind payload = Ok encoded
    /\ delivered w' = delivered w ++ take k encoded
    /\ (err = None -> take k encoded = encoded).
Proof.
  intros Hk Hp Hw. assert (exists encoded, encodeFrame kind payload = Ok encoded) as [encoded He].
  { apply is_ok_spec. rewrite encodeFrame_is_ok, Hk. by apply Z.leb_le. }
  unfold writeFrame in Hw. rewrite He in Hw.
  destruct (writeFull w encoded) as [w1 e1] eqn:Hf.
  apply writeFull_spec in Hf as (k & Hle & Hd & Hn).
  exists encoded, k. destruct e1; injection Hw as <- <-; (split_and!; [done|done|]); [done|].
  intros _. apply take_ge. by rewrite Hn.
Qed.

Lemma writeFrame_delivers_witness :
  exists encoded k, encodeFrame frameCommit [] = Ok encoded
    /\ (writeFrame ([] : list byte) frameCommit []).1 = take k encoded
    /\ take k encoded = encoded.
Proof.
  destruct (writeFrame_delivers ([] : list byte) (writeFrame ([] : list byte) frameCommit []).1
    frameCommit [] None) as (encoded & k & He & Hd & Hn).
  - reflexivity.
  - vm_compute. discriminate.
  - vm_compute. reflexivity.
  - exists encoded, k. split; [exact He|]. split; [exact Hd|]. by apply Hn.
Defined.
