(* ===== verification/GoText.v ===== *)
(** * Go strings

    A Go string is a byte string; it is a [string] here and the [[]byte]
    conversions are [bytes_of] and [text_of].  The functions are the ones of
    package [strings] the program uses. *)
From S2P Require Import Prelude Utf8.

Definition bytes_of (s : string) : list byte := String.list_byte_of_string s.
Definition text_of (l : list byte) : string := String.string_of_list_byte l.

(** [len(s)]. *)
Definition slen (s : string) : Z := zlen (bytes_of s).

Lemma text_of_bytes_of s : text_of (bytes_of s) = s.
Proof. apply String.string_of_list_byte_of_string. Qed.

Lemma bytes_of_text_of l : bytes_of (text_of l) = l.
Proof. apply String.list_byte_of_string_of_list_byte. Qed.

Lemma bytes_of_inj s t : bytes_of s = bytes_of t -> s = t.
Proof. intros H. by rewrite <- (text_of_bytes_of s), H, text_of_bytes_of. Qed.

Lemma bytes_of_app s t : bytes_of (s +:+ t) = bytes_of s ++ bytes_of t.
Proof.
  induction s as [|a s IH]; [done|].
  change (bytes_of (String a s +:+ t)) with (Ascii.byte_of_ascii a :: bytes_of (s +:+ t)).
  by rewrite IH.
Qed.

Lemma slen_app s t : slen (s +:+ t) = slen s + slen t.
Proof. unfold slen. by rewrite bytes_of_app, zlen_app. Qed.

Lemma slen_text_of l : slen (text_of l) = zlen l.
Proof. unfold slen. by rewrite bytes_of_text_of. Qed.

Lemma slen_nonneg s : 0 <= slen s.
Proof. apply zlen_nonneg. Qed.

(** [s[:n]] for [n <= len(s)]. *)
Definition stake (n : nat) (s : string) : string := text_of (take n (bytes_of s)).
Definition sdrop (n : nat) (s : string) : string := text_of (drop n (bytes_of s)).

(** [utf8.ValidString(s)] and [strings.ToValidUTF8(s, "\ufffd")]. *)
Definition ValidString (s : string) : bool := Valid (bytes_of s).
Definition ToValidText (s : string) : string :=
  text_of (ToValidUTF8 (bytes_of s) replacement_rune).

Lemma ToValidText_valid s : ValidString (ToValidText s) = true.
Proof.
  unfold ValidString, ToValidText. rewrite bytes_of_text_of.
  apply ToValidUTF8_valid, replacement_rune_valid.
Qed.

Lemma ToValidText_id s : ValidString s = true -> ToValidText s = s.
Proof.
  unfold ValidString, ToValidText. intros. by rewrite ToValidUTF8_id, text_of_bytes_of.
Qed.

Lemma ValidString_app s t :
  ValidString s = true -> ValidString t = true -> ValidString (s +:+ t) = true.
Proof. unfold ValidString. rewrite bytes_of_app. apply Valid_app. Qed.

(** [strings.IndexByte(s, b) >= 0]. *)
Definition contains_byte (b : byte) (s : string) : bool := existsb (Byte.eqb b) (bytes_of s).

(** [strings.HasPrefix]. *)
Definition HasPrefix (s prefix : string) : bool := String.prefix prefix s.

(** [strings.Cut(s, sep)] for a separator of one byte. *)
Fixpoint Cut (s : string) (sep : Ascii.ascii) : string * string * bool :=
  match s with
  | EmptyString => ("", "", false)
  | String a s' =>
      if Ascii.eqb a sep then ("", s', true)
      else let '(before, after, found) := Cut s' sep in
           if found then (String a before, after, true) else (String a s', "", false)
  end.

Definition hex_char (d : Z) : byte := if d <? 10 then z2b (0x30 + d) else z2b (0x57 + d).
Definition hex_bytes (l : list byte) : list byte := mjoin ((fun b => [hex_char (b2z b / 16); hex_char (b2z b mod 16)]) <$> l).

(** [strconv.Quote], the verb [%q]: quotes, backslashes and control characters
    are escaped, and a byte that starts no rune is written in hexadecimal.  A
    rune beyond ASCII is kept; Go escapes those of them it cannot print. *)
Definition quote_escape (b : byte) : list byte :=
  match b with
  | x22 => [x5c; x22]
  | x5c => [x5c; x5c]
  | x07 => [x5c; x61]
  | x08 => [x5c; x62]
  | x0c => [x5c; x66]
  | x0a => [x5c; x6e]
  | x0d => [x5c; x72]
  | x09 => [x5c; x74]
  | x0b => [x5c; x76]
  | _ => if (b2z b <? 0x20) || (0x7f <=? b2z b) then x5c :: x78 :: hex_bytes [b] else [b]
  end.

Fixpoint quote_fuel (n : nat) (l : list byte) : list byte :=
  match n, l with
  | S n, b :: rest =>
      match split_rune l with
      | Some (r, l') => (if (length r =? 1)%nat then quote_escape b else r) ++ quote_fuel n l'
      | None => quote_escape b ++ quote_fuel n rest
      end
  | _, _ => []
  end.

Definition Quote (s : string) : string :=
  let l := bytes_of s in text_of (x22 :: quote_fuel (length l) l ++ [x22]).

(** [s < t] on strings: bytewise lexicographic order. *)
Definition sltb (s t : string) : bool := String.ltb s t.

(** [strings.Join(values, sep)]. *)
Fixpoint Join (values : list string) (sep : string) : string :=
  match values with
  | [] => ""
  | [v] => v
  | v :: vs => v +:+ sep +:+ Join vs sep
  end.

Lemma Cut_spec s sep before after found :
  Cut s sep = (before, after, found) ->
  if found then s = before +:+ String sep after else s = before /\ after = "".
Proof.
  revert before after found; induction s as [|a s IH]; intros before after found; simpl.
  - by intros [= <- <- <-].
  - destruct (Ascii.eqb a sep) eqn:E.
    + apply Ascii.eqb_eq in E as ->. by intros [= <- <- <-].
    + destruct (Cut s sep) as [[b c] f]. specialize (IH b c f eq_refl).
      destruct f; intros [= <- <- <-]; [by rewrite IH | done].
Qed.

Lemma HasPrefix_spec s p : HasPrefix s p = true <-> exists t, s = p +:+ t.
Proof.
  unfold HasPrefix. revert s; induction p as [|a p IH]; intros s.
  - split; [by exists s|by destruct s].
  - destruct s as [|b s]; simpl; [split; [done|by intros [t [=]]]|].
    destruct (Ascii.ascii_dec a b) as [->|Hne].
    + rewrite IH. split; intros [t Ht]; exists t; [by rewrite Ht|by injection Ht].
    + split; [done|]. intros [t [= -> _]]. done.
Qed.

(** ** Runes and white space *)
(** The runes of a string; a byte that starts none is the replacement rune. *)
Fixpoint runes_fuel (n : nat) (l : list byte) : list (list byte) :=
  match n, l with
  | S n, _ :: rest =>
      match split_rune l with
      | Some (r, l') => r :: runes_fuel n l'
      | None => replacement_rune :: runes_fuel n rest
      end
  | _, _ => []
  end.
Definition runes (s : string) : list (list byte) := let l := bytes_of s in runes_fuel (length l) l.

Definition between (lo hi z : Z) : bool := (lo <=? z) && (z <=? hi).
(** [unicode.IsControl] and [unicode.IsSpace]. *)
Definition IsControl (r : list byte) : bool := between 0 0x1f (rune_value r) || between 0x7f 0x9f (rune_value r).
Definition IsSpace (r : list byte) : bool :=
  let z := rune_value r in
  between 0x09 0x0d z || (z =? 0x20) || (z =? 0x85) || (z =? 0xa0) || (z =? 0x1680) || between 0x2000 0x200a z
  || (z =? 0x2028) || (z =? 0x2029) || (z =? 0x202f) || (z =? 0x205f) || (z =? 0x3000).

Fixpoint trim_left (l : list (list byte)) : list (list byte) :=
  match l with
  | r :: rest => if IsSpace r then trim_left rest else l
  | [] => []
  end.
Definition trim (l : list (list byte)) : list (list byte) := rev (trim_left (rev (trim_left l))).

(** A string cut between its runes: a byte that starts none is a piece of its
    own, which is how [strings] reads its arguments. *)
Fixpoint pieces_fuel (n : nat) (l : list byte) : list (list byte) :=
  match n, l with
  | S n, b :: rest =>
      match split_rune l with
      | Some (r, l') => r :: pieces_fuel n l'
      | None => [b] :: pieces_fuel n rest
      end
  | _, _ => []
  end.
Definition pieces (s : string) : list (list byte) := let l := bytes_of s in pieces_fuel (length l) l.
Definition space_piece (r : list byte) : bool := is_rune r && IsSpace r.

Fixpoint skip_space (l : list (list byte)) : list (list byte) :=
  match l with
  | r :: rest => if space_piece r then skip_space rest else l
  | [] => []
  end.

(** [strings.TrimSpace] and [strings.Fields]. *)
Definition TrimSpace (s : string) : string := text_of (mjoin (rev (skip_space (rev (skip_space (pieces s)))))).

Definition flush_word (word : list byte) : list string := match word with [] => [] | _ => [text_of word] end.
Fixpoint fields_from (word : list byte) (l : list (list byte)) : list string :=
  match l with
  | [] => flush_word word
  | r :: l => if space_piece r then flush_word word ++ fields_from [] l else fields_from (word ++ r) l
  end.
Definition Fields (s : string) : list string := fields_from [] (pieces s).

(** [strings.TrimPrefix]. *)
Definition TrimPrefix (s prefix : string) : string :=
  if HasPrefix s prefix then text_of (drop (length (bytes_of prefix)) (bytes_of s)) else s.

(** [strings.Split(s, "\n")]: at least one line. *)
Fixpoint split_lines (line l : list byte) : list (list byte) :=
  match l with
  | [] => [line]
  | b :: l => if Byte.eqb b x0a then line :: split_lines [] l else split_lines (line ++ [b]) l
  end.
Definition SplitLines (s : string) : list string := text_of <$> split_lines [] (bytes_of s).

(** [fmt.Sprintf("%q", values)]. *)
Definition QuoteList (values : list string) : string := "[" +:+ Join (Quote <$> values) " " +:+ "]".
