(* ===== verification/Control.v ===== *)
(** * Control messages

    [internal/runsupervisor/control.go]: the parent's runtime instructions
    (resize and input) and the single cancellation frame, with their payload
    encodings. *)
From S2P Require Import Prelude GoIO TransferNumber Frame.

(** [CancelReason] is a [uint8]. *)
Definition CancelNone : Z := 0.
Definition CancelUser : Z := 1.
Definition CancelTerminate : Z := 2.
Definition CancelHangup : Z := 3.
Definition CancelLifeline : Z := 4.
Definition CancelInternal : Z := 5.

Definition validCancellation (reason : Z) : bool :=
  (CancelUser <=? reason) && (reason <=? CancelInternal).

Definition controlResize : Z := 1.
Definition controlInput : Z := 2.

Record Control : Type := MkControl {
  control_kind : Z;
  control_transfer : Number;
  control_cols : Z;
  control_rows : Z;
  control_input : list byte
}.

Definition newResizeControl (id : Number) (cols rows : Z) : Control :=
  MkControl controlResize id cols rows [].

Definition newInputControl (id : Number) (input : list byte) : Control :=
  MkControl controlInput id 0 0 input.

Definition encodeControl (control : Control) : result (Z * list byte) :=
  if control_kind control =? controlResize then
    if (Value (control_transfer control) =? 0) || (control_cols control =? 0)
       || (control_rows control =? 0) then
      Err (ErrText "supervisor resize is invalid")
    else
      Ok (frameResize,
          z2b (Value (control_transfer control)) :: be_put 2 (control_cols control)
            ++ be_put 2 (control_rows control))
  else if control_kind control =? controlInput then
    if (Value (control_transfer control) =? 0) || (zlen (control_input control) =? 0)
       || (maximumWirePayload <? zlen (control_input control) + 1) then
      Err (ErrText "supervisor input is invalid")
    else Ok (frameInput, z2b (Value (control_transfer control)) :: control_input control)
  else Err (ErrText "supervisor control kind is invalid").

Definition decodeControl (frame : wireFrame) : result Control :=
  let payload := frame_payload frame in
  if frame_kind frame =? frameResize then
    if negb (zlen payload =? 5) then Err (ErrText "supervisor resize payload is invalid")
    else
      let id := number_New (b2z (nth 0 payload x00)) in
      let cols := be_get (slice 1 3 payload) in
      let rows := be_get (slice 3 5 payload) in
      if negb (is_ok id) || (cols =? 0) || (rows =? 0) then
        Err (ErrText "supervisor resize payload is invalid")
      else let* id := id in Ok (newResizeControl id cols rows)
  else if frame_kind frame =? frameInput then
    if zlen payload <? 2 then Err (ErrText "supervisor input payload is invalid")
    else
      match number_New (b2z (nth 0 payload x00)) with
      | Err _ => Err (ErrText "supervisor input payload is invalid")
      | Ok id => Ok (newInputControl id (drop 1 payload))
      end
  else Err (ErrText "supervisor frame is not a control").

(** One [Write] of the whole frame: cancellation is never retried in pieces. *)
Definition writeCancellation {W} `{!Writer W} (w : W) (reason : Z) : W * option error :=
  if negb (validCancellation reason) then
    (w, Some (ErrText "supervisor cancel reason is invalid"))
  else
    match encodeFrame frameCancel [z2b reason] with
    | Err e => (w, Some e)
    | Ok encoded =>
        match write_to w encoded with
        | (w', _, Some e) => (w', Some (ErrWrap "write supervisor cancellation frame" e))
        | (w', written, None) =>
            if negb (written =? zlen encoded) then
              (w', Some (ErrWrap "write supervisor cancellation frame" ErrShortWrite))
            else (w', None)
        end
    end.

Definition decodeCancellation (frame : wireFrame) : result Z :=
  if negb (frame_kind frame =? frameCancel) || negb (zlen (frame_payload frame) =? 1) then
    Err (ErrText "supervisor cancellation frame is invalid")
  else
    let reason := b2z (nth 0 (frame_payload frame) x00) in
    if negb (validCancellation reason) then Err (ErrText "supervisor cancel reason is invalid")
    else Ok reason.

(** ** Well-formed controls

    The values the constructors and [decodeControl] produce: an existing
    transfer, and only the fields of the kind in use. *)
Definition control_wf (c : Control) : Prop :=
  1 <= Value (control_transfer c) <= Maximum /\
  ((control_kind c = controlResize /\ 1 <= control_cols c < 2 ^ 16
      /\ 1 <= control_rows c < 2 ^ 16 /\ control_input c = [])
   \/ (control_kind c = controlInput /\ control_cols c = 0 /\ control_rows c = 0
      /\ 1 <= zlen (control_input c) /\ zlen (control_input c) + 1 <= maximumWirePayload)).

Lemma decodeControl_encodeControl c kind payload :
  control_wf c -> encodeControl c = Ok (kind, payload) ->
  decodeControl (MkFrame kind payload) = Ok c.
Proof.
  destruct c as [k id cols rows input]. unfold control_wf, encodeControl; simpl.
  intros [Hid [(-> & Hc & Hr & ->)|(-> & -> & -> & Hl & Hm)]]; simpl.
  - destruct (_ || _) eqn:E; [done|]. intros [<- <-]%Ok_pair_inj. unfold decodeControl.
    unfold frame_payload, frame_kind.
    change (frameResize =? frameResize) with true; cbv iota.
    change (zlen (z2b (Value id) :: be_put 2 cols ++ be_put 2 rows) =? 5) with true.
    change (slice 1 3 (z2b (Value id) :: be_put 2 cols ++ be_put 2 rows)) with (be_put 2 cols).
    change (slice 3 5 (z2b (Value id) :: be_put 2 cols ++ be_put 2 rows)) with (be_put 2 rows).
    rewrite !be_get_put, !Z.mod_small by lia. simpl nth.
    rewrite b2z_z2b_small, number_New_Value by (unfold Maximum in *; lia).
    destruct (Z.eqb_spec cols 0), (Z.eqb_spec rows 0); try lia. done.
  - destruct (_ || _) eqn:E; [done|]. intros [= <- <-]. unfold decodeControl.
    simpl. rewrite b2z_z2b_small, number_New_Value by (unfold Maximum in *; lia).
    destruct (Z.ltb_spec (zlen (z2b (Value id) :: input)) 2) as [Hlt|]; [|done].
    unfold zlen in *; simpl in *; lia.
Qed.

Lemma encodeControl_decodeControl f c :
  zlen (frame_payload f) <= maximumWirePayload -> decodeControl f = Ok c ->
  control_wf c /\ encodeControl c = Ok (frame_kind f, frame_payload f).
Proof.
  destruct f as [kind payload]. unfold decodeControl; simpl. intros Hmax.
  destruct (Z.eqb_spec kind frameResize) as [->|].
  - destruct (Z.eqb_spec (zlen payload) 5) as [Hlen|]; [|done]. simpl.
    assert (exists b c1 c2 r1 r2, payload = [b; c1; c2; r1; r2]) as (b & c1 & c2 & r1 & r2 & ->).
    { unfold zlen in Hlen. do 5 (destruct payload as [|? payload]; [simpl in Hlen; lia|]).
      destruct payload; [by repeat eexists|simpl in Hlen; lia]. }
    change (slice 1 3 [b; c1; c2; r1; r2]) with [c1; c2].
    change (slice 3 5 [b; c1; c2; r1; r2]) with [r1; r2]. simpl nth.
    destruct (number_New (b2z b)) as [id|] eqn:Hid; [|done]. simpl.
    destruct (_ || _) eqn:E; [done|]. intros [= <-]. bool_to_prop.
    apply number_New_byte in Hid as [Hid <-].
    pose proof (be_get_range [c1; c2]) as Hc. pose proof (be_get_range [r1; r2]) as Hr.
    simpl length in *. unfold control_wf, encodeControl; simpl. split.
    + split; [done|]. left. split_and!; done || lia.
    + change 2%nat with (length [c1; c2]) at 1. rewrite be_put_get.
      change 2%nat with (length [r1; r2]). rewrite be_put_get.
      destruct (Z.eqb_spec (Value id) 0); [lia|].
      destruct (Z.eqb_spec (be_get [c1; c2]) 0); [done|].
      by destruct (Z.eqb_spec (be_get [r1; r2]) 0).
  - destruct (Z.eqb_spec kind frameInput) as [->|]; [|done].
    destruct (Z.ltb_spec (zlen payload) 2) as [|Hlen]; [done|].
    destruct payload as [|b input]; [unfold zlen in Hlen; simpl in Hlen; lia|]. simpl.
    destruct (number_New (b2z b)) as [id|] eqn:Hid; [|done]. intros [= <-].
    apply number_New_byte in Hid as [Hid <-].
    unfold control_wf, encodeControl, zlen in *; simpl in *. rewrite drop_0. split.
    + split; [done|]. right. split_and!; done || lia.
    + destruct (Z.eqb_spec (Value id) 0), (Z.eqb_spec (Z.of_nat (length input)) 0),
        (Z.ltb_spec maximumWirePayload (Z.of_nat (length input) + 1)); try lia. done.
Qed.

Lemma decodeCancellation_Ok f reason :
  decodeCancellation f = Ok reason <->
  frame_kind f = frameCancel /\ validCancellation reason = true /\ frame_payload f = [z2b reason].
Proof.
  destruct f as [kind payload]. unfold decodeCancellation; simpl. split.
  - destruct (_ || _) eqn:E; [done|]. bool_to_prop.
    destruct payload as [|b [|]]; [done| |unfold zlen in *; simpl in *; lia]. simpl.
    destruct (validCancellation (b2z b)) eqn:V; [|done]. intros [= <-].
    by rewrite z2b_b2z.
  - intros (-> & Hv & ->). simpl.
    assert (0 <= reason < 256) by (unfold validCancellation, CancelUser, CancelInternal in Hv; bool_to_prop; lia).
    rewrite b2z_z2b_small by lia. by rewrite Hv.
Qed.

(** ** Properties *)

(** Parent-to-supervisor instructions survive the wire: decoding an encoded
    instruction gives it back, and an accepted frame re-encodes to itself, so
    no two instructions share an encoding. *)
Theorem control_round_trip c kind payload frame :
  (control_wf c -> encodeControl c = Ok (kind, payload) -> decodeControl (MkFrame kind payload) = Ok c) /\
  (zlen (frame_payload frame) <= maximumWirePayload -> decodeControl frame = Ok c ->
     control_wf c /\ encodeControl c = Ok (frame_kind frame, frame_payload frame)).
Proof.
  split.
  - intros Hc He. by apply decodeControl_encodeControl.
  - apply encodeControl_decodeControl.
Qed.

Lemma control_round_trip_witness :
  exists payload, encodeControl (newResizeControl (MkNumber 7) 120 40) = Ok (frameResize, payload)
  /\ decodeControl (MkFrame frameResize payload) = Ok (newResizeControl (MkNumber 7) 120 40).
Proof.
  destruct (encodeControl (newResizeControl (MkNumber 7) 120 40)) as [[kind payload]|] eqn:He;
    [|vm_compute in He; discriminate He].
  assert (kind = frameResize) as -> by (vm_compute in He; by injection He).
  exists payload. split; [reflexivity|].
  refine (proj1 (control_round_trip _ frameResize payload (MkFrame 0 [])) _ He).
  split; [vm_compute; done|]. left. vm_compute. done.
Defined.
