(* ===== verification/Final.v ===== *)
(** * The final result

    [internal/runsupervisor/final.go]: the terminal result the supervisor
    reports, its validation and wire encoding, the bounded UTF-8 diagnostics it
    carries, and the fallback used when a result does not encode. *)
From S2P Require Import Prelude Sorting Utf8 GoText TransferNumber Control.

Definition maximumDiagnosticBytes : Z := 1024.

Record TransferResult : Type := MkTransferResult {
  Transfer : Number;
  ExitCode : Z;
  Signal : Z
}.

Record SourceSummary : Type := MkSourceSummary {
  FollowedSymlinks : Z;
  IgnoredSymlinks : Z;
  EmptyDirectories : Z;
  IgnoredSpecialFiles : Z
}.

Record Final : Type := MkFinal {
  Cancelled : bool;
  Reason : Z;
  InternalError : string;
  RunError : string;
  CleanupError : string;
  Source : option SourceSummary;
  Transfers : list TransferResult
}.

(** ** Diagnostics *)

(** The loop [for end > 0 && !utf8.ValidString(value[:end]) { end-- }]. *)
Fixpoint truncate_end (n : nat) (value : list byte) : nat :=
  match n with
  | O => O
  | S k => if Valid (take n value) then n else truncate_end k value
  end.

Definition truncateDiagnostic (value : string) (limit : Z) : string :=
  if slen value <=? limit then value
  else stake (truncate_end (Z.to_nat limit) (bytes_of value)) value.

Definition normalizeDiagnostic (value : string) : string :=
  truncateDiagnostic (ToValidText value) maximumDiagnosticBytes.

Definition boundedDiagnostic (value : string) : string := normalizeDiagnostic value.

Definition joinDiagnostic (left right : string) : string :=
  let left := ToValidText left in
  let right := ToValidText right in
  if bool_decide (left = "") then truncateDiagnostic right maximumDiagnosticBytes
  else if bool_decide (right = "") then truncateDiagnostic left maximumDiagnosticBytes
  else
    let separator := "; " in
    if slen left + slen separator + slen right <=? maximumDiagnosticBytes then
      left +:+ separator +:+ right
    else
      let budget := maximumDiagnosticBytes - slen separator in
      let '(leftLimit, rightLimit) :=
        if slen left <? budget / 2 then (slen left, budget - slen left)
        else if slen right <? budget - budget / 2 then (budget - slen right, slen right)
        else (budget / 2, budget - budget / 2) in
      truncateDiagnostic left leftLimit +:+ separator +:+ truncateDiagnostic right rightLimit.

Definition diagnosticFor (action : string) (err : option error) : string :=
  match err with None => "" | Some e => action +:+ ": " +:+ error_text e end.

(** ** Validation *)
Definition validTransferResult (r : TransferResult) : bool :=
  negb (Value (Transfer r) =? 0) && (0 <=? Signal r) && (Signal r <=? 255)
  && (((Signal r =? 0) && (0 <=? ExitCode r) && (ExitCode r <=? 255))
      || (negb (Signal r =? 0) && (ExitCode r =? -1))).

Fixpoint validate_transfers (seen : gset Number) (rs : list TransferResult)
  : result (gset Number) :=
  match rs with
  | [] => Ok seen
  | r :: rs =>
      if negb (validTransferResult r) then
        Err (ErrText "supervisor final transfer result is invalid")
      else if bool_decide (Transfer r ∈ seen) then
        Err (ErrText "supervisor final contains duplicate transfers")
      else validate_transfers ({[Transfer r]} ∪ seen) rs
  end.

(** [number, _ := transfernumber.New(expected)]. *)
Definition number_of (expected : Z) : Number :=
  match number_New expected with Ok n => n | Err _ => number_zero end.

Fixpoint missing_transfer (seen : gset Number) (expected : list Z) : option error :=
  match expected with
  | [] => None
  | k :: ks =>
      if bool_decide (number_of k ∈ seen) then missing_transfer seen ks
      else Some (ErrText ("supervisor final is missing transfer " +:+ pretty k))
  end.

Definition diagnostic_ok (s : string) : bool :=
  (slen s <=? maximumDiagnosticBytes) && ValidString s.

Definition validateFinal (final : Final) : option error :=
  if negb (eqb (Cancelled final) (validCancellation (Reason final))) then
    Some (ErrText "supervisor final cancellation is inconsistent")
  else if negb (diagnostic_ok (InternalError final) && diagnostic_ok (RunError final)
                && diagnostic_ok (CleanupError final)) then
    Some (ErrText "supervisor final diagnostic is invalid")
  else if Maximum <? zlen (Transfers final) then
    Some (ErrText "supervisor final has too many transfers")
  else
    match validate_transfers ∅ (Transfers final) with
    | Err e => Some e
    | Ok seen => missing_transfer seen (seqZ 1 (zlen (Transfers final)))
    end.

Definition transfer_less (x y : TransferResult) : bool :=
  Value (Transfer x) <? Value (Transfer y).

Definition set_transfers (final : Final) (ts : list TransferResult) : Final :=
  MkFinal (Cancelled final) (Reason final) (InternalError final) (RunError final)
    (CleanupError final) (Source final) ts.

Definition orderedFinal (final : Final) : result Final :=
  check! validateFinal final in
  Ok (set_transfers final (sort_by transfer_less (Transfers final))).

(** ** Encoding *)
Definition normalizeFinal (final : Final) : Final :=
  MkFinal (Cancelled final) (Reason final) (normalizeDiagnostic (InternalError final))
    (normalizeDiagnostic (RunError final)) (normalizeDiagnostic (CleanupError final))
    (Source final) (Transfers final).

Definition encode_source (source : option SourceSummary) : list byte :=
  match source with
  | Some s =>
      x01 :: be_put 8 (FollowedSymlinks s) ++ be_put 8 (IgnoredSymlinks s)
        ++ be_put 8 (EmptyDirectories s) ++ be_put 8 (IgnoredSpecialFiles s)
  | None => x00 :: replicate 32 x00
  end.

Definition encode_transfer (r : TransferResult) : list byte :=
  z2b (Value (Transfer r)) :: be_put 4 (wrap 32 (swrap 32 (ExitCode r)))
    ++ be_put 2 (wrap 16 (Signal r)).

Definition encode_transfers (rs : list TransferResult) : list byte := mjoin (encode_transfer <$> rs).

Definition encodeFinal (final : Final) : result (list byte) :=
  let* final := orderedFinal (normalizeFinal final) in
  let internal := bytes_of (InternalError final) in
  let runFailure := bytes_of (RunError final) in
  let cleanupFailure := bytes_of (CleanupError final) in
  Ok ([if Cancelled final then x01 else x00; z2b (Reason final)]
      ++ be_put 2 (wrap 16 (zlen internal)) ++ be_put 2 (wrap 16 (zlen runFailure))
      ++ be_put 2 (wrap 16 (zlen cleanupFailure))
      ++ encode_source (Source final)
      ++ internal ++ runFailure ++ cleanupFailure
      ++ [z2b (zlen (Transfers final))]
      ++ encode_transfers (Transfers final)).

(** ** Decoding *)
Fixpoint decode_transfers (count : nat) (l : list byte) : result (list TransferResult) :=
  match count with
  | O => Ok []
  | S count =>
      match number_New (b2z (nth 0 l x00)) with
      | Err _ => Err (ErrText "supervisor final transfer is invalid")
      | Ok id =>
          let* rest := decode_transfers count (drop 7 l) in
          Ok (MkTransferResult id (swrap 32 (be_get (slice 1 5 l))) (be_get (slice 5 7 l)) :: rest)
      end
  end.

Definition decodeFinal (payload : list byte) : result Final :=
  if zlen payload <? 42 then Err (ErrText "supervisor final payload is truncated")
  else
    let internalSize := be_get (slice 2 4 payload) in
    let runSize := be_get (slice 4 6 payload) in
    let cleanupSize := be_get (slice 6 8 payload) in
    let textSize := internalSize + runSize + cleanupSize in
    if (maximumDiagnosticBytes <? internalSize) || (maximumDiagnosticBytes <? runSize)
       || (maximumDiagnosticBytes <? cleanupSize) || (zlen payload <? 42 + textSize) then
      Err (ErrText "supervisor final diagnostic is invalid")
    else if 1 <? b2z (nth 8 payload x00) then
      Err (ErrText "supervisor final source summary flag is invalid")
    else
      let offset := Z.to_nat (41 + textSize) in
      let count := b2z (nth offset payload x00) in
      if (Maximum <? count) || negb (zlen payload =? Z.of_nat offset + 1 + 7 * count) then
        Err (ErrText "supervisor final transfer set is invalid")
      else
        let source :=
          if b2z (nth 8 payload x00) =? 1 then
            Some (MkSourceSummary (be_get (slice 9 17 payload)) (be_get (slice 17 25 payload))
                    (be_get (slice 25 33 payload)) (be_get (slice 33 41 payload)))
          else None in
        let o1 := (41 + Z.to_nat internalSize)%nat in
        let o2 := (o1 + Z.to_nat runSize)%nat in
        let o3 := (o2 + Z.to_nat cleanupSize)%nat in
        let internal := text_of (slice 41 o1 payload) in
        let run := text_of (slice o1 o2 payload) in
        let cleanup := text_of (slice o2 o3 payload) in
        if 1 <? b2z (nth 0 payload x00) then Err (ErrText "supervisor final flags are invalid")
        else
          let* ts := decode_transfers (Z.to_nat count) (drop (offset + 1) payload) in
          let final :=
            MkFinal (b2z (nth 0 payload x00) =? 1) (b2z (nth 1 payload x00))
              internal run cleanup source ts in
          check! validateFinal final in
          Ok (set_transfers final (sort_by transfer_less ts)).

(** ** The fallback for a result that does not encode *)
Definition keep_valid (valid : gmap Number TransferResult) (r : TransferResult)
  : gmap Number TransferResult :=
  if (Z.of_nat (size valid) =? Maximum) || negb (validTransferResult r) then valid
  else if bool_decide (is_Some (valid !! Transfer r)) then valid
  else <[Transfer r := r]> valid.

(** [for expected := 1; expected <= Maximum; expected++] until one is missing. *)
Fixpoint leading_transfers (valid : gmap Number TransferResult) (expected : list Z)
  : list TransferResult :=
  match expected with
  | [] => []
  | k :: ks =>
      match valid !! number_of k with
      | None => []
      | Some r => r :: leading_transfers valid ks
      end
  end.

Definition finalEncodingFallback (final : Final) (encodeErr : error) : Final :=
  let reason :=
    if Cancelled final then
      if validCancellation (Reason final) then Reason final else CancelInternal
    else CancelNone in
  let valid := foldl keep_valid ∅ (Transfers final) in
  MkFinal (Cancelled final) reason
    (joinDiagnostic (InternalError final) ("encode supervisor final: " +:+ error_text encodeErr))
    (normalizeDiagnostic (RunError final)) (normalizeDiagnostic (CleanupError final))
    (Source final) (leading_transfers valid (seqZ 1 Maximum)).

(** ** Facts about diagnostics *)
Lemma truncate_end_spec n l :
  let k := truncate_end n l in
  (k <= n)%nat /\ Valid (take k l) = true /\
  (forall j, (k < j <= n)%nat -> Valid (take j l) = false).
Proof.
  induction n as [|n IH]; [split_and!; [done|done|lia]|]. cbn [truncate_end].
  destruct (Valid (take (S n) l)) eqn:E.
  - split_and!; [done|done|lia].
  - destruct IH as (H1 & H2 & H3). split_and!; [lia|done|].
    intros j Hj. destruct (decide (j = S n)) as [->|]; [done|]. apply H3. lia.
Qed.

Lemma truncate_end_close n l :
  Valid l = true -> (n <= length l)%nat -> (n < truncate_end n l + 4)%nat.
Proof.
  intros Hl%Valid_utf8 Hn. destruct (utf8_take_boundary l n Hl Hn) as (k & Hk & Hk4 & Hu).
  destruct (truncate_end_spec n l) as (_ & _ & Hmax).
  destruct (decide (truncate_end n l < k)%nat) as [Hlt|]; [|lia].
  apply Valid_utf8 in Hu. rewrite Hmax in Hu by lia. done.
Qed.

Lemma bytes_of_stake n s : bytes_of (stake n s) = take n (bytes_of s).
Proof. apply bytes_of_text_of. Qed.

Lemma truncateDiagnostic_valid value limit :
  ValidString value = true -> ValidString (truncateDiagnostic value limit) = true.
Proof.
  unfold truncateDiagnostic. destruct (_ <=? _); [done|]. intros _.
  unfold ValidString. rewrite bytes_of_stake. apply truncate_end_spec.
Qed.

Lemma truncateDiagnostic_slen value limit :
  0 <= limit -> slen (truncateDiagnostic value limit) <= limit.
Proof.
  unfold truncateDiagnostic. intros. destruct (Z.leb_spec (slen value) limit); [done|].
  unfold slen, zlen in *. rewrite bytes_of_stake, length_take.
  destruct (truncate_end_spec (Z.to_nat limit) (bytes_of value)) as (Hk & _). lia.
Qed.

Lemma truncateDiagnostic_short value limit :
  slen value <= limit -> truncateDiagnostic value limit = value.
Proof. unfold truncateDiagnostic. by destruct (Z.leb_spec (slen value) limit); [|lia]. Qed.

Lemma diagnostic_ok_spec s :
  diagnostic_ok s = true <-> slen s <= maximumDiagnosticBytes /\ ValidString s = true.
Proof. unfold diagnostic_ok. by rewrite andb_true_iff, Z.leb_le. Qed.

Lemma truncate_diagnostic_ok s :
  ValidString s = true -> diagnostic_ok (truncateDiagnostic s maximumDiagnosticBytes) = true.
Proof.
  intros. apply diagnostic_ok_spec.
  split; [by apply truncateDiagnostic_slen | by apply truncateDiagnostic_valid].
Qed.

Lemma normalizeDiagnostic_ok s : diagnostic_ok (normalizeDiagnostic s) = true.
Proof. apply truncate_diagnostic_ok, ToValidText_valid. Qed.

Lemma normalizeDiagnostic_id s : diagnostic_ok s = true -> normalizeDiagnostic s = s.
Proof.
  intros [Hl Hv]%diagnostic_ok_spec. unfold normalizeDiagnostic.
  rewrite ToValidText_id by done. by apply truncateDiagnostic_short.
Qed.

Lemma joinDiagnostic_ok l r : diagnostic_ok (joinDiagnostic l r) = true.
Proof.
  pose proof (ToValidText_valid l) as Hl. pose proof (ToValidText_valid r) as Hr.
  unfold joinDiagnostic. revert Hl Hr. generalize (ToValidText l) (ToValidText r).
  clear l r. intros l r Hl Hr.
  case_bool_decide; [by apply truncate_diagnostic_ok|].
  case_bool_decide; [by apply truncate_diagnostic_ok|].
  change (slen "; ") with 2. unfold maximumDiagnosticBytes in *.
  pose proof (slen_nonneg l). pose proof (slen_nonneg r).
  destruct (Z.leb_spec (slen l + 2 + slen r) 1024) as [Hle|Hgt].
  { apply diagnostic_ok_spec. rewrite !slen_app. change (slen "; ") with 2.
    unfold maximumDiagnosticBytes. split; [lia|].
    by repeat apply ValidString_app. }
  change ((1024 - 2) / 2) with 511.
  assert (Hgen : forall a b, 0 <= a -> 0 <= b -> a + b = 1022 ->
    diagnostic_ok (truncateDiagnostic l a +:+ "; " +:+ truncateDiagnostic r b) = true).
  { intros a b Ha Hb Hab. apply diagnostic_ok_spec. rewrite !slen_app.
    pose proof (truncateDiagnostic_slen l a Ha). pose proof (truncateDiagnostic_slen r b Hb).
    change (slen "; ") with 2. unfold maximumDiagnosticBytes. split; [lia|].
    repeat apply ValidString_app; try done; by apply truncateDiagnostic_valid. }
  destruct (Z.ltb_spec (slen l) 511); [apply Hgen; lia|].
  destruct (Z.ltb_spec (slen r) (1024 - 2 - 511)); apply Hgen; lia.
Qed.

(** ** What a valid result is *)
Definition first_numbers (n : Z) : list Number := MkNumber <$> seqZ 1 n.

Record final_valid (f : Final) : Prop := {
  fv_reason : Cancelled f = validCancellation (Reason f);
  fv_internal : diagnostic_ok (InternalError f) = true;
  fv_run : diagnostic_ok (RunError f) = true;
  fv_cleanup : diagnostic_ok (CleanupError f) = true;
  fv_count : zlen (Transfers f) <= Maximum;
  fv_results : Forall (fun r => validTransferResult r = true) (Transfers f);
  fv_numbers : Transfer <$> Transfers f ≡ₚ first_numbers (zlen (Transfers f))
}.

Lemma number_of_small k : 1 <= k <= Maximum -> number_of k = MkNumber k.
Proof.
  intros. unfold number_of. destruct (number_New k) eqn:E.
  - apply number_New_Ok in E as [_ ->]. done.
  - assert (number_New k = Ok (MkNumber k)) by by apply number_New_Ok. congruence.
Qed.

Lemma validate_transfers_Ok seen rs seen' :
  validate_transfers seen rs = Ok seen' <->
  Forall (fun r => validTransferResult r = true) rs /\ NoDup (Transfer <$> rs)
  /\ (forall r, r ∈ rs -> Transfer r ∉ seen)
  /\ seen' = list_to_set (Transfer <$> rs) ∪ seen.
Proof.
  revert seen; induction rs as [|r rs IH]; intros seen; simpl.
  - split; [intros [= <-]; split_and!; try set_solver; by constructor |].
    intros (_ & _ & _ & ->). f_equal. set_solver.
  - rewrite NoDup_cons, Forall_cons.
    destruct (validTransferResult r) eqn:Ev; simpl; [|split; [done|by intros [[? ?] ?]]].
    case_bool_decide as Hs.
    + split; [done|]. intros (_ & _ & Hd & _). destruct (Hd r); [by left|done].
    + rewrite IH. split.
      * intros (Hf & Hn & Hd & ->). split_and!; try done.
        -- intros (r' & Hr & Hr')%list_elem_of_fmap. apply (Hd r' Hr'). set_solver.
        -- intros r' [->|Hr']%elem_of_cons; [done|]. specialize (Hd r' Hr'). set_solver.
        -- set_solver.
      * intros ([_ Hf] & [Hr Hn] & Hd & ->). split_and!; try done.
        -- intros r' Hr'. rewrite elem_of_union, elem_of_singleton. intros [Heq|Hin].
           ++ apply Hr. rewrite <- Heq. by apply list_elem_of_fmap_2.
           ++ apply (Hd r'); [by right|done].
        -- set_solver.
Qed.

Lemma missing_transfer_None seen ks :
  missing_transfer seen ks = None <-> Forall (fun k => number_of k ∈ seen) ks.
Proof.
  induction ks as [|k ks IH]; simpl; [done|]. rewrite Forall_cons.
  case_bool_decide; [by rewrite IH; intuition|]. split; [done|]. by intros [? ?].
Qed.

Lemma first_numbers_NoDup n : NoDup (first_numbers n).
Proof. apply NoDup_fmap_2; [by intros ?? [= ->]|]. apply NoDup_seqZ. Qed.

Lemma first_numbers_length n : 0 <= n -> zlen (first_numbers n) = n.
Proof. unfold first_numbers, zlen. rewrite length_fmap, length_seqZ. lia. Qed.

Lemma number_of_first_numbers n (s : gset Number) :
  n <= Maximum ->
  Forall (fun k => number_of k ∈ s) (seqZ 1 n) <-> (forall x, x ∈ first_numbers n -> x ∈ s).
Proof.
  intros Hn. unfold first_numbers. rewrite Forall_forall. split.
  - intros H x (k & -> & Hk)%list_elem_of_fmap. pose proof Hk as Hk'.
    apply elem_of_seqZ in Hk'. rewrite <- number_of_small by lia. by apply H.
  - intros H k Hk. pose proof Hk as Hk'. apply elem_of_seqZ in Hk'.
    rewrite number_of_small by lia. apply H. by apply list_elem_of_fmap_2.
Qed.

Lemma validateFinal_spec f : validateFinal f = None <-> final_valid f.
Proof.
  unfold validateFinal.
  destruct (eqb (Cancelled f) (validCancellation (Reason f))) eqn:E1; simpl;
    [apply eqb_prop in E1
    | split; [done|]; intros []; by rewrite <- fv_reason0, eqb_reflx in E1].
  destruct (_ && _) eqn:E2; simpl;
    [bool_to_prop | split; [done|]; intros [? H1 H2 H3 ? ? ?]; by rewrite H1, H2, H3 in E2].
  destruct (Z.ltb_spec Maximum (zlen (Transfers f))); [split; [done|intros []; lia]|].
  pose proof (zlen_nonneg (Transfers f)) as Hnn.
  pose proof (first_numbers_length _ Hnn) as Hlen.
  destruct (validate_transfers ∅ (Transfers f)) as [seen|e] eqn:E3.
  - apply validate_transfers_Ok in E3 as (Hf & Hn & _ & ->).
    rewrite missing_transfer_None, number_of_first_numbers by done. split.
    + intros Hin. split; try done. symmetry. apply submseteq_length_Permutation.
      * apply NoDup_submseteq; [apply first_numbers_NoDup|]. intros x Hx%Hin. set_solver.
      * rewrite length_fmap. unfold zlen in *. lia.
    + intros [] x Hx. rewrite <- fv_numbers0 in Hx. set_solver.
  - split; [done|]. intros [].
    assert (validate_transfers ∅ (Transfers f) = Ok (list_to_set (Transfer <$> Transfers f) ∪ ∅))
      as Hok; [|by rewrite Hok in E3].
    apply validate_transfers_Ok. split_and!; try done.
    rewrite fv_numbers0. apply first_numbers_NoDup.
Qed.

(** The transfers of a valid result are separated by their numbers, so sorting
    them, with any algorithm, puts them in the order 1, 2, ..., n. *)
Lemma seq_sorted a n : StronglySorted lt (seq a n).
Proof.
  revert a; induction n as [|n IH]; intros a; simpl; constructor; [done|].
  apply Forall_forall. intros x Hx%elem_of_seq. lia.
Qed.

Lemma seqZ_sorted n : StronglySorted Z.lt (seqZ 1 n).
Proof.
  unfold seqZ. apply (StronglySorted_fmap _ lt); [lia|]. apply seq_sorted.
Qed.

Lemma first_numbers_sorted n :
  StronglySorted (fun x y => (Value y <? Value x) = false) (first_numbers n).
Proof.
  unfold first_numbers. apply (StronglySorted_fmap _ Z.lt); [|apply seqZ_sorted].
  simpl. intros. apply Z.ltb_ge. lia.
Qed.

(** ** Round trip *)
Definition canonicalFinal (f : Final) : Final :=
  set_transfers (normalizeFinal f) (sort_by transfer_less (Transfers f)).

(** The ranges of the fields in Go: [uint8] and [uint64]. *)
Definition source_wf (s : SourceSummary) : Prop :=
  in_u 64 (FollowedSymlinks s) /\ in_u 64 (IgnoredSymlinks s)
  /\ in_u 64 (EmptyDirectories s) /\ in_u 64 (IgnoredSpecialFiles s).

Definition final_wf (f : Final) : Prop :=
  in_u 8 (Reason f) /\ match Source f with Some s => source_wf s | None => True end.

Lemma final_valid_perm f ts :
  ts ≡ₚ Transfers f -> final_valid f -> final_valid (set_transfers f ts).
Proof.
  intros Hp []. assert (zlen ts = zlen (Transfers f)) as Hz by (unfold zlen; by rewrite Hp).
  split; simpl; try done; rewrite ?Hz; try done; by rewrite Hp.
Qed.

Lemma final_valid_number f r :
  final_valid f -> r ∈ Transfers f -> 1 <= Value (Transfer r) <= Maximum.
Proof.
  intros [] Hr. assert (Hin : Transfer r ∈ first_numbers (zlen (Transfers f))).
  { rewrite <- fv_numbers0. by apply list_elem_of_fmap_2. }
  apply list_elem_of_fmap in Hin as (k & -> & Hk%elem_of_seqZ). simpl. lia.
Qed.

Lemma orderedFinal_Ok f g :
  orderedFinal f = Ok g <->
  final_valid f /\ g = set_transfers f (sort_by transfer_less (Transfers f)).
Proof.
  unfold orderedFinal. destruct (validateFinal f) eqn:E; simpl.
  - split; [done|]. intros [H%validateFinal_spec _]. congruence.
  - apply validateFinal_spec in E. split; [by intros [= <-]|by intros [_ ->]].
Qed.

Lemma sort_transfers_idem ts :
  sort_by transfer_less (sort_by transfer_less ts) = sort_by transfer_less ts.
Proof. apply sort_by_id. apply (sort_by_sorted transfer_less). Qed.

Lemma validTransferResult_ranges r :
  validTransferResult r = true -> -1 <= ExitCode r <= 255 /\ 0 <= Signal r <= 255.
Proof.
  unfold validTransferResult. intros. bool_to_prop.
  match goal with H : _ \/ _ |- _ => destruct H end; bool_to_prop; lia.
Qed.

Lemma encode_transfer_length r : length (encode_transfer r) = 7%nat.
Proof. unfold encode_transfer. simpl. by rewrite length_app, !be_put_length. Qed.

Lemma encode_transfers_cons r ts :
  encode_transfers (r :: ts) = encode_transfer r ++ encode_transfers ts.
Proof. done. Qed.

Lemma encode_transfers_length ts : zlen (encode_transfers ts) = 7 * zlen ts.
Proof.
  induction ts as [|r ts IH]; [done|].
  rewrite encode_transfers_cons, zlen_app, IH. unfold zlen.
  rewrite encode_transfer_length. simpl length. lia.
Qed.

Lemma swrap_small z : in_s 32 z -> swrap 32 z = z.
Proof. intros. rewrite <- (swrap_wrap 32 z) at 2 by done. unfold swrap, wrap. by rewrite Zplus_mod_idemp_l. Qed.

Lemma decode_encode_transfer r tail :
  validTransferResult r = true -> 1 <= Value (Transfer r) <= Maximum ->
  let l := encode_transfer r ++ tail in
  number_New (b2z (nth 0 l x00)) = Ok (Transfer r) /\ drop 7 l = tail /\ swrap 32 (be_get (slice 1 5 l)) = ExitCode r /\ be_get (slice 5 7 l) = Signal r.
Proof.
  intros Hv Hn. apply validTransferResult_ranges in Hv as [He Hs].
  destruct r as [id ex sg]; cbn [Transfer ExitCode Signal] in *.
  set (l := encode_transfer _ ++ tail).
  assert (Hl : l = z2b (Value id) :: be_put 4 (wrap 32 (swrap 32 ex)) ++ be_put 2 (wrap 16 sg) ++ tail).
  { unfold l, encode_transfer; cbn [Transfer ExitCode Signal app]. by rewrite <- app_assoc. }
  assert (in_s 32 ex) by (unfold in_s; lia). assert (in_u 16 sg) by (unfold in_u; lia).
  rewrite swrap_small, (wrap_small 16) in Hl by done.
  split_and!.
  - rewrite Hl. cbn [nth]. rewrite b2z_z2b_small, number_New_Value by (unfold Maximum in *; lia). done.
  - apply (drop_mid _ (encode_transfer (MkTransferResult id ex sg))); [done|apply encode_transfer_length].
  - rewrite (slice_mid l [z2b (Value id)] (be_put 4 (wrap 32 ex)) (be_put 2 sg ++ tail))
      by (rewrite ?be_put_length; done).
    rewrite be_get_put. change (256 ^ Z.of_nat 4) with (2 ^ 32).
    rewrite Z.mod_small by by apply wrap_range. by apply swrap_wrap.
  - rewrite (slice_mid l (z2b (Value id) :: be_put 4 (wrap 32 ex)) (be_put 2 sg) tail)
      by (cbn [length app]; rewrite <- ?app_assoc, ?be_put_length; done).
    rewrite be_get_put. by apply Z.mod_small.
Qed.

Lemma decode_encode_transfers ts rest :
  Forall (fun r => validTransferResult r = true) ts ->
  Forall (fun r => 1 <= Value (Transfer r) <= Maximum) ts ->
  decode_transfers (length ts) (encode_transfers ts ++ rest) = Ok ts.
Proof.
  induction ts as [|r ts IH]; [done|]. rewrite !Forall_cons. intros [Hv Hf] [Hn Hg].
  rewrite encode_transfers_cons, <- app_assoc.
  destruct (decode_encode_transfer r (encode_transfers ts ++ rest) Hv Hn) as (H1 & H2 & H3 & H4).
  cbn [length decode_transfers]. rewrite H1, H2, IH by done. cbn [rbind].
  rewrite H3, H4. by destruct r.
Qed.

(** The payload of an encoded result, field by field. *)
Definition final_layout (c : bool) (reason : Z) (i r cl : list byte)
  (source : option SourceSummary) (ts : list TransferResult) : list byte :=
  [if c then x01 else x00; z2b reason]
    ++ be_put 2 (wrap 16 (zlen i)) ++ be_put 2 (wrap 16 (zlen r)) ++ be_put 2 (wrap 16 (zlen cl))
    ++ encode_source source ++ i ++ r ++ cl ++ [z2b (zlen ts)] ++ encode_transfers ts.

Lemma encodeFinal_Ok f p :
  encodeFinal f = Ok p <->
  final_valid (normalizeFinal f) /\
  p = final_layout (Cancelled f) (Reason f) (bytes_of (normalizeDiagnostic (InternalError f)))
        (bytes_of (normalizeDiagnostic (RunError f)))
        (bytes_of (normalizeDiagnostic (CleanupError f)))
        (Source f) (sort_by transfer_less (Transfers f)).
Proof.
  unfold encodeFinal. destruct (orderedFinal (normalizeFinal f)) as [g|e] eqn:E.
  - apply orderedFinal_Ok in E as [Hv ->]. cbn [rbind]. split.
    + intros H%Ok_inj. by rewrite <- H.
    + by intros [_ ->].
  - cbn [rbind]. split; [done|]. intros [Hv _].
    assert (orderedFinal (normalizeFinal f) =
      Ok (set_transfers (normalizeFinal f) (sort_by transfer_less (Transfers f)))) as Ho
      by by apply orderedFinal_Ok.
    congruence.
Qed.

Lemma encode_source_length s : length (encode_source s) = 33%nat.
Proof. destruct s; simpl; [|done]. by rewrite !length_app, !be_put_length. Qed.

Lemma encode_source_decode s l pre post :
  l = pre ++ encode_source s ++ post -> length pre = 8%nat ->
  match s with Some s => source_wf s | None => True end ->
  b2z (nth 8 l x00) <= 1 /\
  (if b2z (nth 8 l x00) =? 1 then
     Some (MkSourceSummary (be_get (slice 9 17 l)) (be_get (slice 17 25 l))
             (be_get (slice 25 33 l)) (be_get (slice 33 41 l)))
   else None) = s.
Proof.
  intros Hl Hpre Hs. destruct s as [[a b c d]|].
  - destruct Hs as (Ha & Hb & Hc & Hd); cbn [FollowedSymlinks IgnoredSymlinks EmptyDirectories IgnoredSpecialFiles] in *.
    unfold encode_source in Hl; cbn [FollowedSymlinks IgnoredSymlinks EmptyDirectories IgnoredSpecialFiles] in Hl.
    rewrite <- app_comm_cons, <- !app_assoc in Hl.
    rewrite (nth_mid l pre _ x01 8 x00 Hl Hpre). split; [done|].
    change (b2z x01 =? 1) with true. cbv iota.
    assert (H8 : forall v, in_u 64 v -> be_get (be_put 8 v) = v).
    { intros. rewrite be_get_put. by apply Z.mod_small. }
    rewrite (slice_mid l (pre ++ [x01]) (be_put 8 a) (be_put 8 b ++ be_put 8 c ++ be_put 8 d ++ post)),
      (slice_mid l (pre ++ x01 :: be_put 8 a) (be_put 8 b) (be_put 8 c ++ be_put 8 d ++ post)),
      (slice_mid l (pre ++ x01 :: be_put 8 a ++ be_put 8 b) (be_put 8 c) (be_put 8 d ++ post)),
      (slice_mid l (pre ++ x01 :: be_put 8 a ++ be_put 8 b ++ be_put 8 c) (be_put 8 d) post), !H8;
      try done;
      by (rewrite ?length_app; cbn [length]; rewrite ?length_app, ?be_put_length, ?Hpre)
         || (rewrite Hl; repeat (rewrite <- ?app_assoc, <- ?app_comm_cons; cbn [app])).
  - unfold encode_source in Hl. rewrite <- app_comm_cons in Hl.
    by rewrite (nth_mid l pre _ x00 8 x00 Hl Hpre).
Qed.

Section Layout.
Context (c : bool) (reason : Z) (i r cl : list byte) (source : option SourceSummary)
  (ts : list TransferResult).
Hypothesis Hi : zlen i <= maximumDiagnosticBytes.
Hypothesis Hr : zlen r <= maximumDiagnosticBytes.
Hypothesis Hcl : zlen cl <= maximumDiagnosticBytes.
Hypothesis Hts : zlen ts <= Maximum.
Let p := final_layout c reason i r cl source ts.
Let head := [if c then x01 else x00; z2b reason].

Lemma layout_length : zlen p = 42 + zlen i + zlen r + zlen cl + 7 * zlen ts.
Proof.
  unfold p, final_layout. autorewrite with lens. rewrite encode_transfers_length.
  unfold zlen at 1. rewrite encode_source_length. lia.
Qed.

Lemma layout_size (l post pre : list byte) a b :
  zlen l <= maximumDiagnosticBytes -> p = pre ++ be_put 2 (wrap 16 (zlen l)) ++ post ->
  length pre = a -> b = (a + 2)%nat -> be_get (slice a b p) = zlen l.
Proof.
  intros Hl Hp Ha ->.
  rewrite (slice_mid p pre _ post a _ Hp Ha) by (rewrite be_put_length, Ha; done).
  pose proof (zlen_nonneg l). unfold maximumDiagnosticBytes in *.
  rewrite be_get_put, wrap_small by (unfold in_u; lia). apply Z.mod_small. lia.
Qed.

Lemma layout_sizes :
  be_get (slice 2 4 p) = zlen i /\ be_get (slice 4 6 p) = zlen r /\ be_get (slice 6 8 p) = zlen cl.
Proof.
  split_and!.
  - eapply (layout_size i _ head); done.
  - eapply (layout_size r _ (head ++ be_put 2 (wrap 16 (zlen i)))); done.
  - eapply (layout_size cl _ (head ++ be_put 2 (wrap 16 (zlen i)) ++ be_put 2 (wrap 16 (zlen r))));
      try done; unfold p, final_layout, head; by rewrite <- !app_assoc.
Qed.

(** The bytes before the texts. *)
Definition layout_prefix : list byte :=
  head ++ be_put 2 (wrap 16 (zlen i)) ++ be_put 2 (wrap 16 (zlen r))
    ++ be_put 2 (wrap 16 (zlen cl)) ++ encode_source source.

Lemma layout_prefix_length : length layout_prefix = 41%nat.
Proof. unfold layout_prefix. by rewrite !length_app, !be_put_length, encode_source_length. Qed.

Lemma layout_split :
  p = layout_prefix ++ i ++ r ++ cl ++ [z2b (zlen ts)] ++ encode_transfers ts.
Proof. unfold p, final_layout, layout_prefix, head. by rewrite <- !app_assoc. Qed.

Lemma layout_texts :
  slice 41 (41 + length i) p = i /\
  slice (41 + length i) (41 + length i + length r) p = r /\
  slice (41 + length i + length r) (41 + length i + length r + length cl) p = cl.
Proof.
  pose proof layout_prefix_length as H41. rewrite layout_split. split_and!.
  - by eapply slice_mid; [done|..]; rewrite H41.
  - eapply (slice_mid _ (layout_prefix ++ i)); [by rewrite <- !app_assoc|..];
      rewrite length_app, H41; done.
  - eapply (slice_mid _ (layout_prefix ++ i ++ r)); [by rewrite <- !app_assoc|..];
      rewrite !length_app, H41; lia.
Qed.

Lemma layout_count off :
  off = (41 + length i + length r + length cl)%nat ->
  b2z (nth off p x00) = zlen ts /\ drop (off + 1) p = encode_transfers ts.
Proof.
  intros ->. pose proof layout_prefix_length as H41. rewrite layout_split. split.
  - rewrite (nth_mid _ (layout_prefix ++ i ++ r ++ cl) (encode_transfers ts) (z2b (zlen ts))).
    + pose proof (zlen_nonneg ts). apply b2z_z2b_small. unfold Maximum in *; lia.
    + by rewrite <- !app_assoc.
    + rewrite !length_app, H41. lia.
  - apply (drop_mid _ (layout_prefix ++ i ++ r ++ cl ++ [z2b (zlen ts)])).
    + by rewrite <- !app_assoc.
    + rewrite !length_app, H41. simpl. lia.
Qed.

Hypothesis Hreason : in_u 8 reason.
Hypothesis Hsource : match source with Some s => source_wf s | None => True end.
Hypothesis Hvalid : Forall (fun r => validTransferResult r = true) ts.
Hypothesis Hnumbers : Forall (fun r => 1 <= Value (Transfer r) <= Maximum) ts.

Lemma decodeFinal_layout :
  let final := MkFinal c reason (text_of i) (text_of r) (text_of cl) source ts in
  decodeFinal p = check! validateFinal final in Ok (set_transfers final (sort_by transfer_less ts)).
Proof.
  unfold decodeFinal. rewrite layout_length.
  pose proof (zlen_nonneg i); pose proof (zlen_nonneg r); pose proof (zlen_nonneg cl);
    pose proof (zlen_nonneg ts).
  destruct layout_sizes as (-> & -> & ->).
  destruct (Z.ltb_spec (42 + zlen i + zlen r + zlen cl + 7 * zlen ts) 42); [lia|].
  destruct (Z.ltb_spec maximumDiagnosticBytes (zlen i)), (Z.ltb_spec maximumDiagnosticBytes (zlen r)),
    (Z.ltb_spec maximumDiagnosticBytes (zlen cl)),
    (Z.ltb_spec (42 + zlen i + zlen r + zlen cl + 7 * zlen ts) (42 + (zlen i + zlen r + zlen cl)));
    try lia. cbn [orb].
  destruct (encode_source_decode source p
    (head ++ be_put 2 (wrap 16 (zlen i)) ++ be_put 2 (wrap 16 (zlen r)) ++ be_put 2 (wrap 16 (zlen cl)))
    (i ++ r ++ cl ++ [z2b (zlen ts)] ++ encode_transfers ts)) as [Hflag ->]; [| |done|].
  { unfold p, final_layout, head. by rewrite <- !app_assoc. }
  { by rewrite !length_app, !be_put_length. }
  destruct (Z.ltb_spec 1 (b2z (nth 8 p x00))); [lia|].
  set (off := Z.to_nat (41 + (zlen i + zlen r + zlen cl))).
  assert (off = 41 + length i + length r + length cl)%nat as Hoff by (unfold off, zlen; lia).
  destruct (layout_count off Hoff) as [-> ->].
  destruct (Z.ltb_spec Maximum (zlen ts)); [lia|].
  destruct (Z.eqb_spec (42 + zlen i + zlen r + zlen cl + 7 * zlen ts)
    (Z.of_nat off + 1 + 7 * zlen ts)); [|unfold zlen in *; lia]. cbn [orb negb].
  change (nth 0 p x00) with (if c then x01 else x00).
  change (nth 1 p x00) with (z2b reason).
  rewrite (b2z_z2b_small reason) by (unfold in_u in *; lia).
  replace (1 <? b2z (if c then x01 else x00)) with false by by destruct c.
  replace (b2z (if c then x01 else x00) =? 1) with c by by destruct c.
  unfold zlen. rewrite !Nat2Z.id.
  destruct layout_texts as (-> & -> & ->).
  rewrite <- (app_nil_r (encode_transfers ts)), decode_encode_transfers by done.
  done.
Qed.
End Layout.

(** Decoding an encoded result gives the result back, with its diagnostics
    normalized and its transfers in order. *)
Lemma decodeFinal_encodeFinal f p :
  final_wf f -> encodeFinal f = Ok p -> decodeFinal p = Ok (canonicalFinal f).
Proof.
  intros [Hreason Hsource] [Hv ->]%encodeFinal_Ok.
  pose proof (sort_by_perm transfer_less (Transfers f)) as Hperm.
  pose proof (final_valid_perm (normalizeFinal f) _ Hperm Hv) as Hv'. pose proof Hv' as [].
  repeat match goal with H : diagnostic_ok _ = true |- _ => apply diagnostic_ok_spec in H as [? ?] end.
  rewrite decodeFinal_layout; try done.
  - rewrite !text_of_bytes_of.
    change (MkFinal _ _ _ _ _ _ _) with (canonicalFinal f).
    apply validateFinal_spec in Hv'. fold (canonicalFinal f) in Hv'.
    change (set_transfers (normalizeFinal f) (sort_by transfer_less (Transfers f)))
      with (canonicalFinal f) in Hv'. rewrite Hv'. cbn [check].
    by rewrite sort_transfers_idem.
  - apply Forall_forall. intros r Hr. by eapply final_valid_number.
Qed.

(** The payload always fits one pipe-atomic event frame. *)
Lemma encodeFinal_length f p :
  encodeFinal f = Ok p -> 42 <= zlen p <= 42 + 3 * maximumDiagnosticBytes + 7 * Maximum.
Proof.
  intros [Hv ->]%encodeFinal_Ok.
  pose proof (final_valid_perm (normalizeFinal f) _ (sort_by_perm transfer_less (Transfers f)) Hv) as [].
  repeat match goal with H : diagnostic_ok _ = true |- _ => apply diagnostic_ok_spec in H as [? ?] end.
  simpl in *. rewrite layout_length. unfold slen in *.
  repeat match goal with |- context [zlen ?l] => pose proof (zlen_nonneg l); generalize dependent (zlen l); intros end.
  lia.
Qed.

(** A decoded result is valid, its transfers numbered 1, 2, ..., n in order. *)
Lemma decodeFinal_valid p f :
  decodeFinal p = Ok f ->
  final_valid f /\ Transfer <$> Transfers f = first_numbers (zlen (Transfers f)).
Proof.
  unfold decodeFinal. intros H.
  repeat match type of H with (if ?c then _ else _) = _ => destruct c; [done|] end.
  apply rbind_Ok_inv in H as (ts & _ & [Hv <-%Ok_inj]%check_Ok_inv).
  apply validateFinal_spec in Hv. cbn [set_transfers Transfers].
  pose proof (sort_by_perm transfer_less ts) as Hp.
  match type of Hv with final_valid ?g =>
    pose proof (final_valid_perm g (sort_by transfer_less ts) Hp Hv) as Hv' end.
  split; [exact Hv'|].
  destruct Hv' as [_ _ _ _ _ _ Hn]. simpl in Hn.
  apply (StronglySorted_unique_strong (fun x y => (Value y <? Value x) = false)); try done.
  - intros [x] [y] _ _ Hx Hy. simpl in *. f_equal. apply Z.ltb_ge in Hx, Hy. lia.
  - apply (StronglySorted_fmap _ (not_after transfer_less)); [done|].
    apply (sort_by_sorted transfer_less).
  - apply first_numbers_sorted.
Qed.

(** ** The fallback encodes whatever the result was *)
Definition valid_map (valid : gmap Number TransferResult) (rs : list TransferResult) : Prop :=
  forall n r, valid !! n = Some r -> Transfer r = n /\ validTransferResult r = true /\ r ∈ rs.

Lemma keep_valid_inv valid r rs :
  r ∈ rs -> valid_map valid rs -> valid_map (keep_valid valid r) rs.
Proof.
  unfold keep_valid. intros Hr Hv. destruct (_ || _) eqn:E; [done|]. bool_to_prop.
  case_bool_decide; [done|]. intros n r' [[<- <-]|[_ H']]%lookup_insert_Some; [done|by apply Hv].
Qed.

Lemma fold_keep_valid valid l rs :
  (forall r, r ∈ l -> r ∈ rs) -> valid_map valid rs -> valid_map (foldl keep_valid valid l) rs.
Proof.
  revert valid; induction l as [|r l IH]; intros valid Hl Hv; simpl; [done|].
  apply IH; [set_solver|]. apply keep_valid_inv; [set_solver|done].
Qed.

Lemma leading_transfers_spec valid rs ks :
  valid_map valid rs ->
  let ts := leading_transfers valid ks in
  Transfer <$> ts = take (length ts) (number_of <$> ks) /\
  Forall (fun r => validTransferResult r = true /\ r ∈ rs) ts.
Proof.
  intros Hv. induction ks as [|k ks [IH1 IH2]]; csimpl; [done|].
  destruct (valid !! number_of k) as [r|] eqn:E; csimpl; [|done].
  apply Hv in E as (-> & Hr & Hin). split; [by f_equal|]. by constructor.
Qed.

Lemma leading_transfers_numbers valid rs :
  valid_map valid rs ->
  let ts := leading_transfers valid (seqZ 1 Maximum) in
  zlen ts <= Maximum /\ Transfer <$> ts = first_numbers (zlen ts).
Proof.
  intros Hv ts. destruct (leading_transfers_spec valid rs (seqZ 1 Maximum) Hv) as [Hn _].
  fold ts in Hn.
  assert (Hlen : (length ts <= 35)%nat).
  { apply (f_equal length) in Hn. rewrite length_take, !length_fmap, length_seqZ in Hn.
    unfold Maximum in Hn. lia. }
  split; [unfold zlen, Maximum; lia|]. rewrite Hn. unfold first_numbers.
  rewrite <- fmap_take.
  assert (take (length ts) (seqZ 1 Maximum) = seqZ 1 (zlen ts)) as ->.
  { unfold seqZ, Maximum, zlen. rewrite <- fmap_take, take_seq, Nat2Z.id. by rewrite Nat.min_l by (simpl; lia). }
  apply Forall_fmap_ext_1, Forall_forall. intros k Hk%elem_of_seqZ.
  apply number_of_small. unfold zlen, Maximum in *. lia.
Qed.

Lemma finalEncodingFallback_valid f e :
  let g := finalEncodingFallback f e in
  final_valid g /\ Cancelled g = Cancelled f /\ Source g = Source f /\
  (forall r, r ∈ Transfers g -> r ∈ Transfers f).
Proof.
  assert (Hmap : valid_map (foldl keep_valid ∅ (Transfers f)) (Transfers f)).
  { by apply fold_keep_valid. }
  destruct (leading_transfers_numbers _ _ Hmap) as [Hlen Hnum].
  destruct (leading_transfers_spec _ _ (seqZ 1 Maximum) Hmap) as [_ Hall].
  intros g. split_and!; try done.
  - split; cbn [g finalEncodingFallback Cancelled Reason InternalError RunError CleanupError Transfers].
    + destruct (Cancelled f); [|done]. by destruct (validCancellation (Reason f)) eqn:Hvc; [rewrite Hvc|].
    + apply joinDiagnostic_ok.
    + apply normalizeDiagnostic_ok.
    + apply normalizeDiagnostic_ok.
    + done.
    + eapply Forall_impl; [exact Hall|]. by intros r [? _].
    + by rewrite Hnum.
  - intros r Hr. rewrite Forall_forall in Hall. by apply Hall.
Qed.

Lemma normalizeFinal_id f : final_valid f -> normalizeFinal f = f.
Proof. intros []. unfold normalizeFinal. rewrite !normalizeDiagnostic_id by done. by destruct f. Qed.

Lemma final_valid_encodes f : final_valid f -> is_ok (encodeFinal f) = true.
Proof.
  intros Hv. apply is_ok_spec. eexists. apply encodeFinal_Ok.
  split; [by rewrite normalizeFinal_id|done].
Qed.

Lemma canonicalFinal_id f :
  final_valid f -> Transfer <$> Transfers f = first_numbers (zlen (Transfers f)) -> canonicalFinal f = f.
Proof.
  intros Hv Hn. unfold canonicalFinal. rewrite normalizeFinal_id by done.
  rewrite sort_by_id; [by destruct f|].
  apply (StronglySorted_fmap_inv Transfer (fun x y => (Value y <? Value x) = false)).
  rewrite Hn. apply first_numbers_sorted.
Qed.

(** ** Properties *)

(** The final result survives the wire: decoding an encoded result gives it
    back with its diagnostics normalized and its transfers in order, and an
    already canonical result unchanged. *)
Theorem final_round_trip f p :
  final_wf f -> encodeFinal f = Ok p ->
  decodeFinal p = Ok (canonicalFinal f)
  /\ (final_valid f -> Transfer <$> Transfers f = first_numbers (zlen (Transfers f)) ->
      decodeFinal p = Ok f).
Proof.
  intros Hf He. pose proof (decodeFinal_encodeFinal f p Hf He) as Hd. split; [done|].
  intros Hv Hn. rewrite Hd. f_equal. by apply canonicalFinal_id.
Qed.

Definition sample_final : Final :=
  MkFinal true CancelTerminate "" "late" "" (Some (MkSourceSummary 1 0 2 0))
    [MkTransferResult (MkNumber 1) 0 0; MkTransferResult (MkNumber 2) (-1) 15].

Lemma final_round_trip_witness :
  exists p, encodeFinal sample_final = Ok p /\ decodeFinal p = Ok sample_final.
Proof.
  destruct (encodeFinal sample_final) as [p|e] eqn:He; [|vm_compute in He; discriminate He].
  exists p. split; [reflexivity|].
  assert (decodeFinal p = Ok (canonicalFinal sample_final)) as ->.
  { refine (proj1 (final_round_trip sample_final p _ He)). repeat constructor; vm_compute; done. }
  vm_compute. reflexivity.
Defined.

(** Nothing invalid is decoded: any payload [decodeFinal] accepts yields a
    result with a consistent cancellation, bounded valid UTF-8 diagnostics and
    the outcomes of transfers 1, 2, ..., n in that order; and an accepted
    payload is never longer than one atomic pipe write allows. *)
Theorem decoded_final_is_valid p f :
  (decodeFinal p = Ok f ->
    final_valid f /\ Transfer <$> Transfers f = first_numbers (zlen (Transfers f))) /\
  (encodeFinal f = Ok p ->
    final_valid (normalizeFinal f) /\ 42 <= zlen p <= 42 + 3 * maximumDiagnosticBytes + 7 * Maximum).
Proof.
  split; [apply decodeFinal_valid|].
  intros He. split; [by apply encodeFinal_Ok in He as [? _]|by eapply encodeFinal_length].
Qed.

Lemma decoded_final_is_valid_witness :
  exists p, encodeFinal sample_final = Ok p /\ 42 <= zlen p <= 3359.
Proof.
  destruct (encodeFinal sample_final) as [p|e] eqn:He; [|vm_compute in He; discriminate He].
  exists p. split; [reflexivity|].
  exact (proj2 (proj2 (decoded_final_is_valid p sample_final) He)).
Defined.
