(* ===== verification/Events.v ===== *)
(** * Supervisor events

    [internal/runsupervisor/events.go], and the sending and receiving ends of
    the event pipe in [event_sender.go] and [event_receiver.go].  Every event is
    one frame small enough for the pipe to take atomically; long command output
    is cut into several of them; nothing follows the final event. *)
From S2P Require Import Prelude GoIO TransferNumber Frame Control Final.

Definition maximumEventPayload : Z := pipeAtomicFrameBytes - Z.of_nat wireHeaderBytes.
Definition maximumOutputChunk : Z := maximumEventPayload - 2.

Definition OutputPTY : Z := 1.
Definition OutputStdout : Z := 2.
Definition OutputStderr : Z := 3.

Definition stream_valid (stream : Z) : bool := (OutputPTY <=? stream) && (stream <=? OutputStderr).

Definition TransferRunning : Z := 1.
Definition TransferExited : Z := 2.

Record TransferStatus : Type := MkTransferStatus {
  status_transfer : Number;
  status_state : Z;
  status_exit : Z;
  status_signal : Z
}.

(** An event carries exactly one output, status or final payload. *)
Inductive Event : Type :=
  | EventOutput (transfer : Number) (stream : Z) (contents : list byte)
  | EventStatus (status : TransferStatus)
  | EventFinal (final : Final).

(** ** Payloads *)
Definition encodeOutput (id : Number) (stream : Z) (contents : list byte) : result wireFrame :=
  if (Value id =? 0) || negb (stream_valid stream) || (zlen contents =? 0)
     || (maximumOutputChunk <? zlen contents) then
    Err (ErrText "supervisor command output is invalid")
  else Ok (MkFrame frameOutput (z2b (Value id) :: z2b stream :: contents)).

Definition decodeOutput (payload : list byte) : result Event :=
  if zlen payload <? 3 then Err (ErrText "supervisor command output is invalid")
  else
    match number_New (b2z (nth 0 payload x00)) with
    | Err _ => Err (ErrText "supervisor command output identity is invalid")
    | Ok id =>
        let stream := b2z (nth 1 payload x00) in
        if negb (stream_valid stream) then
          Err (ErrText "supervisor command output identity is invalid")
        else Ok (EventOutput id stream (drop 2 payload))
    end.

Definition encodeStatus (status : TransferStatus) : result (list byte) :=
  let result := MkTransferResult (status_transfer status) (status_exit status) (status_signal status) in
  if (Value (status_transfer status) =? 0) || (status_state status <? TransferRunning)
     || (TransferExited <? status_state status) then
    Err (ErrText "supervisor transfer status is invalid")
  else if status_state status =? TransferRunning then
    if negb (status_exit status =? 0) || negb (status_signal status =? 0) then
      Err (ErrText "supervisor running status has an outcome")
    else
      Ok (z2b (Value (status_transfer status)) :: z2b (status_state status)
          :: be_put 4 (wrap 32 (swrap 32 (status_exit status))) ++ be_put 2 (wrap 16 (status_signal status)))
  else if negb (validTransferResult result) then
    Err (ErrText "supervisor transfer result is invalid")
  else
    Ok (z2b (Value (status_transfer status)) :: z2b (status_state status)
        :: be_put 4 (wrap 32 (swrap 32 (status_exit status))) ++ be_put 2 (wrap 16 (status_signal status))).

Definition decodeStatus (payload : list byte) : result TransferStatus :=
  if negb (zlen payload =? 8) then Err (ErrText "supervisor status payload is invalid")
  else
    match number_New (b2z (nth 0 payload x00)) with
    | Err _ => Err (ErrText "supervisor status transfer is invalid")
    | Ok id =>
        let status :=
          MkTransferStatus id (b2z (nth 1 payload x00)) (swrap 32 (be_get (slice 2 6 payload)))
            (be_get (slice 6 8 payload)) in
        let* _ := encodeStatus status in Ok status
    end.

Definition decodeEvent (frame : wireFrame) : result Event :=
  let kind := frame_kind frame in
  if negb (allowedOnEventPipe kind) || (maximumEventPayload <? zlen (frame_payload frame)) then
    Err (ErrText "supervisor event frame is not pipe-atomic")
  else if kind =? frameOutput then decodeOutput (frame_payload frame)
  else if kind =? frameStatus then
    let* status := decodeStatus (frame_payload frame) in Ok (EventStatus status)
  else if kind =? frameFinal then
    let* final := decodeFinal (frame_payload frame) in Ok (EventFinal final)
  else Err (ErrText "supervisor emitted a non-event frame").

Definition NewOutputEvent (id : Number) (stream : Z) (contents : list byte) : result Event :=
  let* frame := encodeOutput id stream contents in decodeOutput (frame_payload frame).

Definition NewStatusEvent (status : TransferStatus) : result Event :=
  let* _ := encodeStatus status in Ok (EventStatus status).

Definition NewFinalEvent (final : Final) : result Event :=
  let* ordered := orderedFinal final in Ok (EventFinal ordered).

Definition encodeEventFrame (kind : Z) (payload : list byte) : result (list byte) :=
  if negb (allowedOnEventPipe kind) || (maximumEventPayload <? zlen payload) then
    Err (ErrText "supervisor event frame is not pipe-atomic")
  else encodeFrame kind payload.

(** ** The sending end

    The pipe takes one encoded frame at a time; [EventSink] is that step. *)
Class EventSink (W : Type) : Type := sink_write : W -> list byte -> W * option error.

Class EventSinkLaws (W : Type) `{EventSink W} : Type := {
  sunk : W -> list byte;
  sink_contract w p w' e :
    sink_write w p = (w', e) ->
    (e = None -> sunk w' = sunk w ++ p) /\ (is_Some e -> exists k, sunk w' = sunk w ++ take k p)
}.

(** A pipe takes a frame of at most [PIPE_BUF] bytes whole or not at all. *)
Class AtomicSink (W : Type) `{EventSinkLaws W} : Prop :=
  sink_atomic w p w' e :
    zlen p <= pipeAtomicFrameBytes -> sink_write w p = (w', Some e) -> sunk w' = sunk w.

(** [sendLocked] on an [io.Writer] that is not a file: one [Write]. *)
#[export] Instance writer_sink {W} `{!Writer W} : EventSink W := fun w encoded =>
  match write_to w encoded with
  | (w', _, Some e) => (w', Some e)
  | (w', written, None) =>
      if negb (written =? zlen encoded) then (w', Some ErrShortWrite) else (w', None)
  end.

#[export, refine] Instance writer_sink_laws {W} `{!Writer W, !WriterLaws W} : EventSinkLaws W :=
  { sunk := delivered }.
Proof.
  intros w p w' e. unfold sink_write, writer_sink.
  destruct (write_to w p) as [[w1 n] err] eqn:Hw. apply write_contract in Hw as (Hn & Hd & He).
  destruct err as [err|].
  - intros [= <- <-]. split; [done|]. intros _. by eexists.
  - destruct (Z.eqb_spec n (zlen p)) as [->|]; simpl; intros [= <- <-].
    + split; [|by intros [? ?]]. intros _. rewrite Hd. f_equal.
      unfold zlen. by rewrite Nat2Z.id, firstn_all.
    + split; [done|]. intros _. by eexists.
Defined.

Record eventPipeSender (W : Type) : Type := MkSender { sender_writer : W; finalSent : bool }.
Arguments MkSender {W}.
Arguments sender_writer {W}.
Arguments finalSent {W}.

Section Sender.
Context {W : Type} `{!EventSink W}.

Definition sendLocked (sender : eventPipeSender W) (kind : Z) (encoded : list byte)
  : eventPipeSender W * option error :=
  if finalSent sender then (sender, Some (ErrText "supervisor final event was already sent"))
  else
    match sink_write (sender_writer sender) encoded with
    | (w, Some e) => (MkSender w (finalSent sender), Some (ErrWrap "write supervisor event frame" e))
    | (w, None) => (MkSender w (kind =? frameFinal), None)
    end.

Definition send (sender : eventPipeSender W) (kind : Z) (payload : list byte)
  : eventPipeSender W * option error :=
  match encodeEventFrame kind payload with
  | Err e => (sender, Some e)
  | Ok encoded => sendLocked sender kind encoded
  end.

(** The loop of [sendOutput]; every round sends at least one byte, so
    [length contents] rounds are enough. *)
Fixpoint sendOutput_loop (fuel : nat) (sender : eventPipeSender W) (id : Number) (stream : Z)
  (contents : list byte) : option (eventPipeSender W * option error) :=
  match contents with
  | [] => Some (sender, None)
  | _ =>
      match fuel with
      | O => None
      | S fuel =>
          let count := Z.to_nat (Z.min (zlen contents) maximumOutputChunk) in
          match encodeOutput id stream (take count contents) with
          | Err e => Some (sender, Some e)
          | Ok frame =>
              match encodeEventFrame (frame_kind frame) (frame_payload frame) with
              | Err e => Some (sender, Some e)
              | Ok encoded =>
                  match sendLocked sender (frame_kind frame) encoded with
                  | (sender, Some e) => Some (sender, Some e)
                  | (sender, None) => sendOutput_loop fuel sender id stream (drop count contents)
                  end
              end
          end
      end
  end.

Definition sendOutput (sender : eventPipeSender W) (id : Number) (stream : Z)
  (contents : list byte) : eventPipeSender W * option error :=
  if (Value id =? 0) || negb (stream_valid stream) || (zlen contents =? 0) then
    (sender, Some (ErrText "supervisor command output is invalid"))
  else default (sender, None) (sendOutput_loop (length contents) sender id stream contents).

Definition SendStatus (sender : eventPipeSender W) (status : TransferStatus)
  : eventPipeSender W * option error :=
  match encodeStatus status with
  | Err e => (sender, Some e)
  | Ok payload => send sender frameStatus payload
  end.

Definition sendSessionFinal (sender : eventPipeSender W) (final : Final)
  : eventPipeSender W * option error :=
  match encodeFinal final with
  | Ok payload => send sender frameFinal payload
  | Err encodeErr =>
      match encodeFinal (finalEncodingFallback final encodeErr) with
      | Err e => (sender, Some (ErrWrap "encode supervisor final fallback" e))
      | Ok payload => send sender frameFinal payload
      end
  end.
End Sender.

(** ** The receiving end *)
Record eventReceiver : Type := MkReceiver { receiver_events : reader; finalDelivered : bool }.

(** [next]; the flag beside the result is the call [controls.stop()]. *)
Definition next (receiver : eventReceiver) : result Event * bool * eventReceiver :=
  if finalDelivered receiver then (Err ErrEOF, false, receiver)
  else
    match readFrame (receiver_events receiver) with
    | (Err e, r) =>
        (Err (ErrWrap "read supervisor event before final" e), false, MkReceiver r false)
    | (Ok frame, r) =>
        match decodeEvent frame with
        | Err e => (Err (ErrWrap "decode supervisor event before final" e), false, MkReceiver r false)
        | Ok (EventFinal final) => (Ok (EventFinal final), true, MkReceiver r true)
        | Ok event => (Ok event, false, MkReceiver r false)
        end
    end.

(** The reader loop of the parent: [Next] until it fails. *)
Fixpoint receive_all (fuel : nat) (receiver : eventReceiver) : list Event * error :=
  match fuel with
  | O => ([], ErrText "out of fuel")
  | S fuel =>
      match next receiver with
      | (Err e, _, _) => ([], e)
      | (Ok event, _, receiver') =>
          let '(events, e) := receive_all fuel receiver' in (event :: events, e)
      end
  end.
