(* ===== verification/EventStream.v ===== *)
(** * The event stream from the supervisor to the parent

    The two ends of the event pipe put together: what the supervisor sent
    without an error is what the parent decodes, in that order, with long output
    cut into chunks and nothing after the final event.  A run of the sending end
    is a list of [Send] requests. *)
From S2P Require Import Prelude GoIO TransferNumber Frame Control Final Events.

(** ** Each event is one frame *)
Lemma decodeEvent_output id stream contents frame :
  number_wf id -> encodeOutput id stream contents = Ok frame ->
  frame_kind frame = frameOutput /\ decodeEvent frame = Ok (EventOutput id stream contents).
Proof.
  unfold encodeOutput. intros Hid. destruct (_ || _) eqn:E; [done|]. intros <-%Ok_inj.
  split; [done|]. bool_to_prop. unfold stream_valid, OutputPTY, OutputStderr in *. bool_to_prop.
  pose proof (zlen_nonneg contents).
  unfold decodeEvent. cbn [frame_kind frame_payload]. autorewrite with lens.
  unfold maximumOutputChunk in *.
  destruct (Z.ltb_spec maximumEventPayload (zlen contents + 1 + 1)); [lia|]. simpl.
  unfold decodeOutput. autorewrite with lens. destruct (Z.ltb_spec (zlen contents + 1 + 1) 3); [lia|].
  simpl nth. rewrite number_byte by done. unfold number_wf in Hid.
  rewrite number_New_Value by lia. rewrite b2z_z2b_small by lia.
  unfold stream_valid, OutputPTY, OutputStderr.
  by destruct (Z.leb_spec 1 stream), (Z.leb_spec stream 3); [|lia..].
Qed.

Definition status_ok (status : TransferStatus) : Prop :=
  Value (status_transfer status) <> 0 /\
  (status_state status = TransferRunning /\ status_exit status = 0 /\ status_signal status = 0
   \/ status_state status = TransferExited /\
      (0 <= status_exit status <= 255 /\ status_signal status = 0
       \/ status_exit status = -1 /\ 0 < status_signal status <= 255)).

Definition status_payload (status : TransferStatus) : list byte :=
  z2b (Value (status_transfer status)) :: z2b (status_state status)
  :: be_put 4 (wrap 32 (status_exit status)) ++ be_put 2 (status_signal status).

Lemma validTransferResult_spec r :
  validTransferResult r = true <->
  Value (Transfer r) <> 0 /\
  (0 <= ExitCode r <= 255 /\ Signal r = 0 \/ ExitCode r = -1 /\ 0 < Signal r <= 255).
Proof. unfold validTransferResult. lia. Qed.

Lemma encodeStatus_Ok status payload :
  encodeStatus status = Ok payload <-> status_ok status /\ payload = status_payload status.
Proof.
  assert (Hok : status_ok status -> 
    z2b (Value (status_transfer status)) :: z2b (status_state status)
          :: be_put 4 (wrap 32 (swrap 32 (status_exit status))) ++ be_put 2 (wrap 16 (status_signal status))
    = status_payload status).
  { unfold status_payload. intros (_ & H). 
    rewrite (wrap_small 16) by (unfold in_u; lia). do 3 f_equal. f_equal.
    unfold wrap, swrap. destruct H as [(_ & -> & _)|(_ & [[? _]|[-> _]])]; [done| |done].
    rewrite (Z.mod_small (_ + _)) by lia. f_equal. lia. }
  unfold encodeStatus.
  destruct (_ || _) eqn:E1.
  { split; [done|]. intros [(? & Hst) _]. unfold TransferRunning, TransferExited in *. lia. }
  bool_to_prop.
  destruct (status_state status =? TransferRunning) eqn:E2;
    unfold TransferRunning, TransferExited in *.
  - destruct (_ || _) eqn:E3.
    + split; [done|]. intros [(? & Hst) _]. unfold TransferRunning, TransferExited in *. lia.
    + assert (status_ok status) as Hs.
      { unfold status_ok, TransferRunning. split; [lia|]. left. lia. }
      rewrite Hok by done. split; [intros <-%Ok_inj; done | by intros [_ ->]].
  - destruct (validTransferResult _) eqn:E3.
    + apply validTransferResult_spec in E3. cbn [Transfer ExitCode Signal] in E3.
      assert (status_ok status) as Hs.
      { unfold status_ok, TransferRunning, TransferExited. split; [lia|]. right. lia. }
      cbn [negb]. rewrite Hok by done. split; [intros <-%Ok_inj; done | by intros [_ ->]].
    + split; [done|]. intros [(? & Hst) _]. exfalso.
      apply not_true_iff_false in E3. apply E3, validTransferResult_spec.
      unfold TransferRunning, TransferExited in *. cbn [Transfer ExitCode Signal]. lia.
Qed.

Lemma decodeEvent_status status payload :
  number_wf (status_transfer status) -> encodeStatus status = Ok payload ->
  zlen payload = 8 /\ decodeEvent (MkFrame frameStatus payload) = Ok (EventStatus status).
Proof.
  intros Hid He. pose proof He as [Hs ->]%encodeStatus_Ok.
  assert (Hz : zlen (status_payload status) = 8).
  { unfold status_payload. by autorewrite with lens. }
  split; [done|]. unfold decodeEvent. cbn [frame_kind frame_payload]. rewrite Hz. simpl.
  unfold decodeStatus. rewrite Hz. simpl.
  assert (slice 2 6 (status_payload status) = be_put 4 (wrap 32 (status_exit status))) as ->.
  { by eapply (slice_mid _ [_; _]); [done|done|rewrite be_put_length]. }
  assert (slice 6 8 (status_payload status) = be_put 2 (status_signal status)) as ->.
  { eapply (slice_mid _ (_ :: _ :: be_put 4 (wrap 32 (status_exit status))));
      [unfold status_payload; by rewrite (app_nil_r (be_put 2 _))|..]; simpl; by rewrite ?be_put_length. }
  rewrite number_byte by done.
  destruct Hs as [Hnz Hst].
  rewrite number_New_Value by (unfold number_wf in Hid; lia).
  unfold TransferRunning, TransferExited in Hst.
  rewrite b2z_z2b_small by lia. rewrite !be_get_put.
  rewrite (Z.mod_small (status_signal status)) by lia.
  change (256 ^ Z.of_nat 4) with (2 ^ 32).
  change (wrap 32 (status_exit status) mod 2 ^ 32) with (wrap 32 (wrap 32 (status_exit status))).
  rewrite (wrap_small 32 (wrap 32 _)) by by apply wrap_range.
  rewrite swrap_wrap by (unfold in_s; lia).
  destruct status as [num st ex sg]; cbn [status_transfer status_state status_exit status_signal] in *.
  by rewrite He.
Qed.

Lemma decodeEvent_final f payload :
  final_wf f -> encodeFinal f = Ok payload ->
  decodeEvent (MkFrame frameFinal payload) = Ok (EventFinal (canonicalFinal f)).
Proof.
  intros Hf He. unfold decodeEvent. cbn [frame_kind frame_payload].
  pose proof (encodeFinal_length f payload He) as Hl. unfold maximumDiagnosticBytes, Maximum in Hl.
  destruct (Z.ltb_spec maximumEventPayload (zlen payload)) as [Hx|Hx];
    [unfold maximumEventPayload, pipeAtomicFrameBytes, wireHeaderBytes in Hx; lia|].
  simpl. by rewrite (decodeFinal_encodeFinal f).
Qed.

(** An event frame is never longer than one atomic write of the pipe. *)
Lemma encodeEventFrame_Ok kind payload encoded :
  encodeEventFrame kind payload = Ok encoded <->
  allowedOnEventPipe kind = true /\ zlen payload <= maximumEventPayload
  /\ encodeFrame kind payload = Ok encoded.
Proof.
  unfold encodeEventFrame.
  destruct (allowedOnEventPipe kind); simpl; [|naive_solver].
  destruct (Z.ltb_spec maximumEventPayload (zlen payload)); naive_solver lia.
Qed.

Lemma encodeEventFrame_atomic kind payload encoded :
  encodeEventFrame kind payload = Ok encoded -> 0 < zlen encoded <= pipeAtomicFrameBytes.
Proof.
  intros (_ & Hl & He)%encodeEventFrame_Ok. apply encodeFrame_length in He.
  pose proof (zlen_nonneg payload). unfold maximumEventPayload, wireHeaderBytes in Hl. lia.
Qed.

Lemma encodeEventFrame_total kind payload :
  allowedOnEventPipe kind = true -> zlen payload <= maximumEventPayload ->
  exists encoded, encodeEventFrame kind payload = Ok encoded.
Proof.
  intros Hk Hp. unfold encodeEventFrame. rewrite Hk.
  destruct (Z.ltb_spec maximumEventPayload (zlen payload)); [lia|]. simpl.
  apply is_ok_spec. rewrite encodeFrame_is_ok. apply andb_true_iff. split.
  - unfold allowedOnEventPipe in Hk. unfold kind_valid.
    unfold frameReady, frameAccepted, frameOutput, frameStatus, frameFinal in *. lia.
  - apply Z.leb_le. unfold maximumEventPayload, pipeAtomicFrameBytes, wireHeaderBytes, maximumWirePayload in *. lia.
Qed.

(** ** A run of the sending end *)
Inductive Send : Type :=
  | SendOut (id : Number) (stream : Z) (contents : list byte)
  | SendStat (status : TransferStatus)
  | SendFin (final : Final).

Definition send_wf (op : Send) : Prop :=
  match op with
  | SendOut id _ _ => number_wf id
  | SendStat status => number_wf (status_transfer status)
  | SendFin final => final_wf final
  end.

Definition do_send {W} `{!EventSink W} (sender : eventPipeSender W) (op : Send)
  : eventPipeSender W * option error :=
  match op with
  | SendOut id stream contents => sendOutput sender id stream contents
  | SendStat status => SendStatus sender status
  | SendFin final => sendSessionFinal sender final
  end.

Fixpoint do_sends {W} `{!EventSink W} (sender : eventPipeSender W) (ops : list Send)
  : eventPipeSender W * option error :=
  match ops with
  | [] => (sender, None)
  | op :: ops =>
      match do_send sender op with
      | (sender', Some e) => (sender', Some e)
      | (sender', None) => do_sends sender' ops
      end
  end.

(** The chunks a command output is cut into. *)
Fixpoint output_chunks (fuel : nat) (contents : list byte) : list (list byte) :=
  match fuel, contents with
  | S fuel, _ :: _ =>
      let count := Z.to_nat (Z.min (zlen contents) maximumOutputChunk) in
      take count contents :: output_chunks fuel (drop count contents)
  | _, _ => []
  end.

(** The result the parent gets: the one sent, normalized and ordered, or the
    fallback when that one does not encode. *)
Definition sent_final (final : Final) : Final :=
  match encodeFinal final with
  | Ok _ => canonicalFinal final
  | Err e => canonicalFinal (finalEncodingFallback final e)
  end.

Definition expected_events (op : Send) : list Event :=
  match op with
  | SendOut id stream contents =>
      EventOutput id stream <$> output_chunks (length contents) contents
  | SendStat status => [EventStatus status]
  | SendFin final => [EventFinal (sent_final final)]
  end.

Definition is_final (event : Event) : bool :=
  match event with EventFinal _ => true | _ => false end.

Definition is_final_send (op : Send) : bool :=
  match op with SendFin _ => true | _ => false end.

Lemma output_chunk_count (contents : list byte) :
  contents <> [] ->
  let count := Z.to_nat (Z.min (zlen contents) maximumOutputChunk) in
  (0 < count <= length contents)%nat /\ Z.of_nat count <= maximumOutputChunk.
Proof.
  intros Hc. destruct contents; [done|]. unfold zlen, maximumOutputChunk, maximumEventPayload,
    pipeAtomicFrameBytes, wireHeaderBytes. simpl length. lia.
Qed.

Lemma output_chunks_spec fuel contents :
  (length contents <= fuel)%nat ->
  mjoin (output_chunks fuel contents) = contents /\
  Forall (fun c => 0 < zlen c <= maximumOutputChunk) (output_chunks fuel contents).
Proof.
  revert contents; induction fuel as [|fuel IH]; intros contents Hf.
  { destruct contents; [by simpl|simpl in Hf; lia]. }
  destruct contents as [|b contents]; [by simpl|].
  destruct (output_chunk_count (b :: contents) ltac:(done)) as [Hc Hm].
  cbn [output_chunks]. set (count := Z.to_nat _) in *. simpl in Hf.
  destruct (IH (drop count (b :: contents))) as [IH1 IH2]; [rewrite length_drop; simpl; lia|].
  rewrite mjoin_cons, IH1, take_drop. split; [done|].
  constructor; [|done]. unfold zlen. rewrite length_take. lia.
Qed.

Lemma fallback_wf f e : final_wf f -> final_wf (finalEncodingFallback f e).
Proof.
  intros [Hr Hs]. split; [|done]. simpl. unfold in_u in *.
  destruct (Cancelled f); [|done]. by destruct (validCancellation _).
Qed.

Lemma encodeFinal_fits f p : encodeFinal f = Ok p -> zlen p <= maximumEventPayload.
Proof.
  intros Hl%encodeFinal_length. unfold maximumDiagnosticBytes, Maximum in Hl.
  unfold maximumEventPayload, pipeAtomicFrameBytes, wireHeaderBytes. lia.
Qed.

(** The bytes [l] on the stream decode to the events [es]. *)
Definition carries (l : list byte) (e : Event) : Prop :=
  exists frame, encodeFrame (frame_kind frame) (frame_payload frame) = Ok l
    /\ decodeEvent frame = Ok e /\ zlen l <= pipeAtomicFrameBytes.

Lemma next_carries l e rest ended :
  carries l e ->
  next (MkReceiver (MkReader (l ++ rest) ended) false)
  = (Ok e, is_final e, MkReceiver (MkReader rest ended) (is_final e)).
Proof.
  intros ([kind payload] & He & Hd & _). unfold next. cbn [finalDelivered receiver_events].
  simpl in He. rewrite (readFrame_encode kind payload l rest ended He), Hd. by destruct e.
Qed.

Lemma encodeEventFrame_carries kind payload encoded e :
  encodeEventFrame kind payload = Ok encoded -> decodeEvent (MkFrame kind payload) = Ok e ->
  carries encoded e.
Proof.
  intros He Hd. exists (MkFrame kind payload). pose proof (encodeEventFrame_atomic _ _ _ He).
  apply encodeEventFrame_Ok in He as (_ & _ & He). by split_and!; try lia.
Qed.

Section Sending.
Context {W : Type} `{!EventSink W, !EventSinkLaws W}.
Implicit Types s : eventPipeSender W.

(** [s'] is [s] after one more frame of [kind] went out. *)
Lemma sendLocked_None s kind encoded s' :
  sendLocked s kind encoded = (s', None) ->
  finalSent s = false /\ sunk (sender_writer s') = sunk (sender_writer s) ++ encoded
  /\ finalSent s' = (kind =? frameFinal).
Proof.
  unfold sendLocked. destruct (finalSent s) eqn:Hfs; [done|].
  destruct (sink_write (sender_writer s) encoded) as [w [e|]] eqn:Hw; [done|].
  apply sink_contract in Hw as [Hw _]. intros [= <-]. by split_and!; try apply Hw.
Qed.

Lemma sendLocked_final s kind encoded :
  finalSent s = true -> exists e, sendLocked s kind encoded = (s, Some e).
Proof. unfold sendLocked. intros ->. by eexists. Qed.

Lemma send_None s kind payload s' :
  send s kind payload = (s', None) ->
  exists encoded, encodeEventFrame kind payload = Ok encoded
    /\ finalSent s = false /\ sunk (sender_writer s') = sunk (sender_writer s) ++ encoded
    /\ finalSent s' = (kind =? frameFinal).
Proof.
  unfold send. destruct (encodeEventFrame kind payload) as [encoded|e]; [|done].
  intros H%sendLocked_None. eauto.
Qed.

(** The loop of [sendOutput] never runs out of rounds. *)
Lemma sendOutput_loop_total fuel s id stream contents :
  (length contents <= fuel)%nat -> is_Some (sendOutput_loop fuel s id stream contents).
Proof.
  revert s contents; induction fuel as [|fuel IH]; intros s contents Hf.
  { destruct contents; [by eexists|simpl in Hf; lia]. }
  destruct contents as [|b contents]; [by eexists|].
  destruct (output_chunk_count (b :: contents) ltac:(done)) as [Hc _].
  cbn [sendOutput_loop]. set (count := Z.to_nat _) in *.
  destruct (encodeOutput _ _ _) as [f|]; [|by eexists].
  destruct (encodeEventFrame _ _) as [enc|]; [|by eexists].
  destruct (sendLocked _ _ _) as [s1 [e|]]; [by eexists|].
  apply IH. rewrite length_drop. simpl in *. lia.
Qed.

Lemma sendOutput_loop_None fuel s id stream contents s' :
  number_wf id -> sendOutput_loop fuel s id stream contents = Some (s', None) ->
  exists frames, Forall2 (fun l c => carries l (EventOutput id stream c)) frames (output_chunks fuel contents)
    /\ sunk (sender_writer s') = sunk (sender_writer s) ++ mjoin frames
    /\ finalSent s' = finalSent s /\ (contents <> [] -> finalSent s = false).
Proof.
  intros Hid. revert s contents; induction fuel as [|fuel IH]; intros s contents.
  { destruct contents; [|done]. intros [= <-]. exists []. by rewrite app_nil_r. }
  destruct contents as [|b contents].
  { intros [= <-]. exists []. by rewrite app_nil_r. }
  cbn [sendOutput_loop output_chunks]. set (count := Z.to_nat _).
  destruct (encodeOutput _ _ _) as [f|] eqn:Hout; [|done].
  destruct (encodeEventFrame _ _) as [enc|] eqn:Henc; [|done].
  destruct (sendLocked _ _ _) as [s1 [e|]] eqn:Hsend; [done|].
  apply (decodeEvent_output id stream _ f Hid) in Hout as [Hkind Hd].
  apply sendLocked_None in Hsend as (Hf & Hs1 & Hf1). rewrite Hkind in Hf1.
  intros (frames & Hfr & Hs' & Hfs)%IH. exists (enc :: frames). split_and!.
  - constructor; [|done]. eapply encodeEventFrame_carries; [done|]. by destruct f.
  - by rewrite Hs', Hs1, mjoin_cons, <- app_assoc.
  - destruct Hfs as [Hfs _]. by rewrite Hfs, Hf1, Hf.
  - done.
Qed.

(** One request that succeeded: its events went out in its frames, nothing
    had been finished before, and a final finishes the stream. *)
Lemma do_send_None s op s' :
  send_wf op -> do_send s op = (s', None) ->
  finalSent s = false /\ finalSent s' = is_final_send op /\
  exists frames, Forall2 carries frames (expected_events op)
    /\ sunk (sender_writer s') = sunk (sender_writer s) ++ mjoin frames.
Proof.
  destruct op as [id stream contents|status|final]; simpl; intros Hwf.
  - unfold sendOutput. destruct (_ || _) eqn:E; [done|].
    destruct (sendOutput_loop_total (length contents) s id stream contents) as [[s1 e1] Hl]; [done|].
    rewrite Hl. simpl. intros [= -> ->].
    apply sendOutput_loop_None in Hl as (frames & Hfr & Hs & Hf & Hne); [|done].
    assert (contents <> []) as Hc by (intros ->; simpl in E; bool_to_prop; done).
    split_and!; [by apply Hne|by rewrite Hf, Hne|]. exists frames. split; [|done].
    by apply Forall2_fmap_r.
  - unfold SendStatus. destruct (encodeStatus status) as [payload|] eqn:He; [|done].
    intros (enc & Henc & Hf & Hs & Hf')%send_None. split_and!; [done|done|].
    exists [enc]. simpl. rewrite app_nil_r. split; [|done]. repeat constructor.
    eapply encodeEventFrame_carries; [done|]. by apply decodeEvent_status.
  - unfold sendSessionFinal, sent_final.
    destruct (encodeFinal final) as [payload|e] eqn:He.
    + intros (enc & Henc & Hf & Hs & Hf')%send_None. split_and!; [done|done|].
      exists [enc]. simpl. rewrite app_nil_r. split; [|done]. repeat constructor.
      eapply encodeEventFrame_carries; [done|]. by apply decodeEvent_final.
    + destruct (encodeFinal (finalEncodingFallback final e)) as [payload|e'] eqn:He'; [|done].
      intros (enc & Henc & Hf & Hs & Hf')%send_None. split_and!; [done|done|].
      exists [enc]. simpl. rewrite app_nil_r. split; [|done]. repeat constructor.
      eapply encodeEventFrame_carries; [done|]. apply decodeEvent_final; [|done].
      by apply fallback_wf.
Qed.

Lemma do_sends_None s ops s' :
  Forall send_wf ops -> do_sends s ops = (s', None) ->
  exists frames, Forall2 carries frames (mjoin (expected_events <$> ops))
    /\ sunk (sender_writer s') = sunk (sender_writer s) ++ mjoin frames
    /\ Forall (fun op => is_final_send op = false) (removelast ops).
Proof.
  intros Hwf. revert s; induction Hwf as [|op ops Hop Hops IH]; intros s; simpl.
  { intros [= <-]. exists []. rewrite app_nil_r. by split_and!. }
  destruct (do_send s op) as [s1 [e|]] eqn:Hs1; [done|].
  apply do_send_None in Hs1 as (Hf & Hf1 & frames1 & Hfr1 & Hs1); [|done].
  intros Hrest. pose proof Hrest as (frames & Hfr & Hs & Hlast)%IH.
  exists (frames1 ++ frames). split_and!.
  - by apply Forall2_app.
  - by rewrite Hs, Hs1, join_app, <- app_assoc.
  - destruct ops as [|op2 ops]; [done|]. constructor; [|done].
    rewrite <- Hf1. simpl in Hrest.
    destruct (do_send s1 op2) as [s2 [e2|]] eqn:Hs2; [done|].
    apply do_send_None in Hs2 as (? & _); [done|]. by inversion Hops.
Qed.

(** On a sink that takes frames whole, a request that fails leaves whole frames
    of events behind, none of them final. *)
Lemma sendLocked_atomic `{!AtomicSink W} s kind encoded s' e :
  zlen encoded <= pipeAtomicFrameBytes -> sendLocked s kind encoded = (s', Some e) ->
  sunk (sender_writer s') = sunk (sender_writer s) /\ finalSent s' = finalSent s.
Proof.
  unfold sendLocked. intros Hl. destruct (finalSent s) eqn:Hfs; [by intros [= <- _]|].
  destruct (sink_write (sender_writer s) encoded) as [w [e1|]] eqn:Hw; [|done].
  intros [= <- _]. split; [|done]. by eapply sink_atomic.
Qed.

Lemma send_atomic `{!AtomicSink W} s kind payload s' e :
  send s kind payload = (s', Some e) ->
  sunk (sender_writer s') = sunk (sender_writer s) /\ finalSent s' = finalSent s.
Proof.
  unfold send. destruct (encodeEventFrame kind payload) as [encoded|] eqn:He; [|by intros [= <- _]].
  apply encodeEventFrame_atomic in He. apply sendLocked_atomic. lia.
Qed.

Lemma sendOutput_loop_atomic `{!AtomicSink W} fuel s id stream contents s' e :
  number_wf id -> sendOutput_loop fuel s id stream contents = Some (s', Some e) ->
  exists frames events, Forall2 carries frames events /\ Forall (fun ev => is_final ev = false) events
    /\ sunk (sender_writer s') = sunk (sender_writer s) ++ mjoin frames /\ finalSent s' = finalSent s.
Proof.
  intros Hid. revert s contents; induction fuel as [|fuel IH]; intros s contents; [by destruct contents|].
  destruct contents as [|b contents]; [done|]. cbn [sendOutput_loop]. set (count := Z.to_nat _).
  assert (forall t, t = s -> exists frames events, Forall2 carries frames events
    /\ Forall (fun ev => is_final ev = false) events
    /\ sunk (sender_writer t) = sunk (sender_writer s) ++ mjoin frames /\ finalSent t = finalSent s) as Hsame.
  { intros t ->. exists [], []. rewrite app_nil_r. by split_and!. }
  destruct (encodeOutput _ _ _) as [f|] eqn:Hout; [|intros [= <- _]; by apply Hsame].
  destruct (encodeEventFrame _ _) as [enc|] eqn:Henc; [|intros [= <- _]; by apply Hsame].
  destruct (sendLocked _ _ _) as [s1 [e1|]] eqn:Hsend.
  { intros [= <- _]. exists [], []. rewrite app_nil_r.
    apply sendLocked_atomic in Hsend as [? ?]; [by split_and!|].
    by apply encodeEventFrame_atomic in Henc as [_ ?]. }
  apply (decodeEvent_output id stream _ f Hid) in Hout as [Hkind Hd].
  apply sendLocked_None in Hsend as (Hf & Hs1 & Hf1). rewrite Hkind in Hf1.
  intros (frames & events & Hfr & Hev & Hs' & Hfs)%IH.
  exists (enc :: frames), (EventOutput id stream (take count (b :: contents)) :: events). split_and!.
  - constructor; [|done]. eapply encodeEventFrame_carries; [done|]. by destruct f.
  - by constructor.
  - by rewrite Hs', Hs1, mjoin_cons, <- app_assoc.
  - by rewrite Hfs, Hf1, Hf.
Qed.

Lemma do_send_atomic `{!AtomicSink W} s op s' e :
  send_wf op -> do_send s op = (s', Some e) ->
  exists frames events, Forall2 carries frames events /\ Forall (fun ev => is_final ev = false) events
    /\ sunk (sender_writer s') = sunk (sender_writer s) ++ mjoin frames /\ finalSent s' = finalSent s.
Proof.
  assert (forall t, sunk (sender_writer t) = sunk (sender_writer s) /\ finalSent t = finalSent s ->
    exists frames events, Forall2 carries frames events /\ Forall (fun ev => is_final ev = false) events
    /\ sunk (sender_writer t) = sunk (sender_writer s) ++ mjoin frames /\ finalSent t = finalSent s) as Hsame.
  { intros t [Ht1 Ht2]. exists [], []. rewrite app_nil_r. by split_and!. }
  destruct op as [id stream contents|status|final]; simpl; intros Hwf.
  - unfold sendOutput. destruct (_ || _) eqn:E; [intros [= <- _]; by apply Hsame|].
    destruct (sendOutput_loop_total (length contents) s id stream contents) as [[s1 e1] Hl]; [done|].
    rewrite Hl. simpl. intros [= -> ->]. by eapply sendOutput_loop_atomic.
  - unfold SendStatus. destruct (encodeStatus status); [|intros [= <- _]; by apply Hsame].
    intros H%send_atomic. by apply Hsame.
  - unfold sendSessionFinal. destruct (encodeFinal final) as [|e1].
    { intros H%send_atomic. by apply Hsame. }
    destruct (encodeFinal _); [|intros [= <- _]; by apply Hsame].
    intros H%send_atomic. by apply Hsame.
Qed.

(** After the final event nothing more reaches the pipe. *)
Lemma do_send_after_final s op :
  finalSent s = true -> exists e, do_send s op = (s, Some e).
Proof.
  intros Hf. destruct op as [id stream contents|status|final]; simpl.
  - unfold sendOutput. destruct (_ || _) eqn:E; [by eexists|].
    destruct contents as [|b contents]; [simpl in E; bool_to_prop; done|].
    cbn [length sendOutput_loop].
    destruct (encodeOutput _ _ _) as [f|]; [|by eexists].
    destruct (encodeEventFrame _ _) as [enc|]; [|by eexists].
    destruct (sendLocked_final s (frame_kind f) enc Hf) as [e ->]. by eexists.
  - unfold SendStatus, send. destruct (encodeStatus status); [|by eexists].
    destruct (encodeEventFrame _ _) as [enc|]; [|by eexists]. by apply sendLocked_final.
  - unfold sendSessionFinal, send. 
    destruct (encodeFinal final); [|destruct (encodeFinal _); [|by eexists]];
      (destruct (encodeEventFrame _ _) as [enc|]; [|by eexists]; by apply sendLocked_final).
Qed.

(** Every final has an encoding that fits one frame: its own or the fallback's. *)
Lemma sendSessionFinal_frame s final :
  final_wf final ->
  exists encoded, sendSessionFinal s final = sendLocked s frameFinal encoded
    /\ carries encoded (EventFinal (sent_final final)) /\ final_valid (sent_final final)
    /\ Cancelled (sent_final final) = Cancelled final /\ Source (sent_final final) = Source final.
Proof.
  intros Hwf.
  assert (forall f p, final_wf f -> encodeFinal f = Ok p ->
    exists encoded, send s frameFinal p = sendLocked s frameFinal encoded
    /\ carries encoded (EventFinal (canonicalFinal f)) /\ final_valid (canonicalFinal f)) as Hsend.
  { intros f p Hf He.
    destruct (encodeEventFrame_total frameFinal p) as [enc Henc]; [done|by eapply encodeFinal_fits|].
    exists enc. unfold send. rewrite Henc. pose proof (decodeEvent_final f p Hf He) as Hd.
    split_and!; [done|by eapply encodeEventFrame_carries|].
    by apply (decodeFinal_valid p), decodeFinal_encodeFinal. }
  unfold sendSessionFinal, sent_final. destruct (encodeFinal final) as [p|e] eqn:He.
  { destruct (Hsend final p Hwf He) as (enc & ? & ? & ?). by exists enc. }
  destruct (finalEncodingFallback_valid final e) as (Hv & Hc & Hs & _).
  apply final_valid_encodes, is_ok_spec in Hv as [p Hp]. rewrite Hp.
  destruct (Hsend _ p (fallback_wf _ e Hwf) Hp) as (enc & ? & ? & ?). by exists enc.
Qed.
End Sending.

(** ** Receiving what was sent *)
Lemma receive_carried frames events fuel rest ended :
  Forall2 carries frames events -> Forall (fun e => is_final e = false) events ->
  receive_all (length events + fuel) (MkReceiver (MkReader (mjoin frames ++ rest) ended) false)
  = let '(more, e) := receive_all fuel (MkReceiver (MkReader rest ended) false) in (events ++ more, e).
Proof.
  intros Hc. revert fuel; induction Hc as [|l e frames events He Hc IH]; intros fuel Hf.
  { simpl. by destruct (receive_all _ _). }
  rewrite mjoin_cons. cbn [length Nat.add receive_all].
  apply Forall_cons in Hf as [Hf1 Hf2].
  rewrite <- app_assoc, (next_carries l e) by done. rewrite Hf1.
  rewrite IH by done. by destruct (receive_all fuel _).
Qed.


Lemma expected_events_final op :
  is_final_send op = false -> Forall (fun e => is_final e = false) (expected_events op).
Proof. destruct op; simpl; intros H; [|by repeat constructor|done]. by apply Forall_fmap, Forall_true. Qed.

(** How the parent's read loop ends: quietly after a final event, with a read
    error when the pipe closes before one. *)
Definition stream_end (ops : list Send) : error :=
  if existsb is_final_send ops then ErrEOF
  else ErrWrap "read supervisor event before final" ErrEOF.

Lemma receive_final l e fuel ended :
  carries l e -> is_final e = true ->
  receive_all (S (S fuel)) (MkReceiver (MkReader l ended) false) = ([e], ErrEOF).
Proof.
  intros Hc Hf. cbn [receive_all]. rewrite <- (app_nil_r l), (next_carries l e) by done.
  by rewrite Hf.
Qed.

Lemma removelast_last {A} (l : list A) : l = [] \/ exists x, l = removelast l ++ [x].
Proof.
  destruct l as [|x l]; [by left|right]. exists (List.last (x :: l) x). by apply app_removelast_last.
Qed.

Lemma receive_ended fuel :
  receive_all (S fuel) (MkReceiver (MkReader [] ErrEOF) false)
  = ([], ErrWrap "read supervisor event before final" ErrEOF).
Proof. done. Qed.

Lemma receive_frames frames ops :
  Forall2 carries frames (mjoin (expected_events <$> ops)) ->
  Forall (fun op => is_final_send op = false) (removelast ops) ->
  receive_all (S (length (mjoin (expected_events <$> ops)))) (MkReceiver (MkReader (mjoin frames) ErrEOF) false)
  = (mjoin (expected_events <$> ops), stream_end ops).
Proof.
  destruct (removelast_last ops) as [->|[op Hops]].
  { intros H%Forall2_nil_inv_r _. by subst. }
  revert Hops. generalize (removelast ops) as init. intros init -> Hc Hi.
  assert (existsb is_final_send (init ++ [op]) = is_final_send op) as Hex.
  { rewrite existsb_app. simpl. rewrite orb_false_r.
    replace (existsb is_final_send init) with false; [done|]. symmetry.
    clear -Hi. induction Hi as [|o l Ho _ IH]; [done|]. simpl. by rewrite Ho, IH. }
  assert (Forall (fun e => is_final e = false) (mjoin (expected_events <$> init))) as Hnf.
  { clear -Hi. induction Hi as [|o l Ho _ IH]; [by constructor|]. rewrite fmap_cons, mjoin_cons.
    apply Forall_app. split; [by apply expected_events_final|done]. }
  unfold stream_end. rewrite Hex. revert Hc. rewrite fmap_app, join_app.
  change (expected_events <$> [op]) with [expected_events op]. rewrite mjoin_cons, app_nil_r.
  intros (f1 & f2 & H1 & H2 & ->)%Forall2_app_inv_r. rewrite join_app, length_app.
  rewrite <- Nat.add_succ_r. destruct (is_final_send op) eqn:Hop.
  - destruct op; try done. simpl in H2. inversion H2 as [|l e ls es Hl Hn]; subst.
    apply Forall2_nil_inv_r in Hn as ->. rewrite mjoin_cons, app_nil_r.
    rewrite receive_carried by done. cbn [expected_events length].
    by rewrite (receive_final l _ 0 ErrEOF Hl).
  - rewrite receive_carried by done.
    rewrite <- (app_nil_r (mjoin f2)), <- Nat.add_1_r, receive_carried;
      [|done|by apply expected_events_final].
    by rewrite receive_ended, app_nil_r.
Qed.

(** ** What each transfer wrote *)
Definition output_of (id : Number) (stream : Z) (event : Event) : list byte :=
  match event with
  | EventOutput id' stream' contents =>
      if bool_decide (id' = id) && (stream' =? stream) then contents else []
  | _ => []
  end.

Definition written_of (id : Number) (stream : Z) (op : Send) : list byte :=
  match op with
  | SendOut id' stream' contents =>
      if bool_decide (id' = id) && (stream' =? stream) then contents else []
  | _ => []
  end.

Lemma output_of_expected id stream op :
  mjoin (output_of id stream <$> expected_events op) = written_of id stream op.
Proof.
  destruct op as [id' stream' contents| |]; simpl; [|done..].
  destruct (output_chunks_spec (length contents) contents) as [Hj _]; [done|].
  transitivity (if bool_decide (id' = id) && (stream' =? stream)
                then mjoin (output_chunks (length contents) contents) else []); [|by rewrite Hj].
  generalize (output_chunks (length contents) contents). intros l. clear Hj.
  destruct (_ && _) eqn:E; (induction l as [|c l IH]; [done|]);
    rewrite !fmap_cons, !mjoin_cons, IH; simpl; by rewrite E.
Qed.

Lemma output_of_all id stream ops :
  mjoin (output_of id stream <$> mjoin (expected_events <$> ops)) = mjoin (written_of id stream <$> ops).
Proof.
  induction ops as [|op ops IH]; [done|].
  by rewrite !fmap_cons, !mjoin_cons, fmap_app, join_app, IH, output_of_expected.
Qed.

(** ** Properties *)

(** C5. Whatever the supervisor sent without an error is what the parent
    receives: the same statuses and the same final result in the same order,
    every command output as a sequence of pipe-sized events whose bytes, per
    transfer and descriptor, are exactly the bytes sent; and the parent's loop
    ends quietly exactly when a final event was sent. *)
Theorem supervisor_events_delivered {W} `{!EventSink W, !EventSinkLaws W}
    (w : W) (ops : list Send) (s' : eventPipeSender W) :
  sunk w = [] -> Forall send_wf ops -> do_sends (MkSender w false) ops = (s', None) ->
  let events := mjoin (expected_events <$> ops) in
  receive_all (S (length events)) (MkReceiver (MkReader (sunk (sender_writer s')) ErrEOF) false)
    = (events, stream_end ops) /\
  forall id stream,
    mjoin (output_of id stream <$> events) = mjoin (written_of id stream <$> ops).
Proof.
  intros Hw Hwf Hs events. apply do_sends_None in Hs as (frames & Hfr & Hsunk & Hinit); [|done].
  split; [|intros; apply output_of_all]. rewrite Hsunk. cbn [sender_writer]. rewrite Hw.
  by apply receive_frames.
Qed.

Definition witness_final : Final :=
  MkFinal true 2 "" "late" "" (Some (MkSourceSummary 1 0 2 0))
    [MkTransferResult (MkNumber 2) (-1) 15; MkTransferResult (MkNumber 1) 0 0].

Definition witness_sends : list Send :=
  [SendStat (MkTransferStatus (MkNumber 2) 1 0 0);
   SendOut (MkNumber 2) OutputStdout (replicate 5000 x61);
   SendStat (MkTransferStatus (MkNumber 2) 2 (-1) 15); SendFin witness_final].

Lemma supervisor_events_delivered_witness :
  exists s', do_sends (MkSender ([] : list byte) false) witness_sends = (s', None) /\
  length (mjoin (expected_events <$> witness_sends)) = 5%nat /\
  receive_all 6 (MkReceiver (MkReader (sunk (sender_writer s')) ErrEOF) false)
    = (mjoin (expected_events <$> witness_sends), ErrEOF).
Proof.
  eexists. split; [vm_compute; reflexivity|]. split; [vm_compute; reflexivity|].
  refine (proj1 (supervisor_events_delivered ([] : list byte) witness_sends _ _ _ _)).
  - reflexivity.
  - unfold witness_sends, number_wf. repeat constructor; vm_compute; done.
  - vm_compute. reflexivity.
Defined.

(** C26. A session's final result always reaches the event pipe: for any result
    at all the frame handed to the sink is one atomic frame that decodes to a
    valid result with the same cancellation flag and source summary, the
    result itself when it encodes and the diagnosed fallback when it does not. *)
Theorem session_final_always_encodes {W} `{!EventSink W, !EventSinkLaws W}
    (s : eventPipeSender W) (final : Final) :
  final_wf final ->
  exists encoded, sendSessionFinal s final = sendLocked s frameFinal encoded
    /\ carries encoded (EventFinal (sent_final final)) /\ final_valid (sent_final final)
    /\ Cancelled (sent_final final) = Cancelled final /\ Source (sent_final final) = Source final.
Proof. apply sendSessionFinal_frame. Qed.

(** An inconsistent result: a missing transfer 1 and an impossible exit code. *)
Definition inconsistent_final : Final :=
  MkFinal true 77 "" "" "" None [MkTransferResult (MkNumber 2) 999 0].

Lemma session_final_always_encodes_witness :
  exists encoded,
    sendSessionFinal (MkSender ([] : list byte) false) inconsistent_final
    = sendLocked (MkSender [] false) frameFinal encoded
    /\ carries encoded (EventFinal (sent_final inconsistent_final)) /\ final_valid (sent_final inconsistent_final)
    /\ Cancelled (sent_final inconsistent_final) = true /\ Source (sent_final inconsistent_final) = None.
Proof. apply (session_final_always_encodes (MkSender ([] : list byte) false) inconsistent_final). repeat constructor; vm_compute; done. Defined.
