(* ===== verification/Cancellation.v ===== *)
(** * Whole-run cancellation

    [internal/runsupervisor/cancellation.go]: the outcome several goroutines
    record into under one mutex, the reader of the cancellation pipe, and what
    the outcome does to the final result.  [record] is a critical section and,
    after the mutex is given back, a call that cancels the context; other
    goroutines may come between.  A run is a list of such actions. *)
From S2P Require Import Prelude GoIO GoText TransferNumber Frame Control Final.

Record cancellationSnapshot : Type := MkSnapshot { snap_reason : Z; snap_diagnostic : string }.

Record sessionCancellation : Type := MkOutcome {
  oc_reason : Z;
  oc_diagnostic : string;
  oc_frozen : bool
}.

Definition new_outcome : sessionCancellation := MkOutcome CancelNone "" false.

(** The critical section of [record], and the calls of [cancel] that the
    goroutine has still to make after it. *)
Definition record_section (outcome : sessionCancellation) (reason : Z) (diagnostic : string) : sessionCancellation :=
  if oc_frozen outcome then outcome
  else
    let replace := (oc_reason outcome =? CancelNone) || (reason =? CancelInternal)
                   || ((oc_reason outcome =? CancelLifeline) && negb (reason =? CancelLifeline)) in
    MkOutcome (if replace then reason else oc_reason outcome)
      (if replace then boundedDiagnostic diagnostic else oc_diagnostic outcome) false.

Definition record_cause (outcome : sessionCancellation) (reason : Z) (diagnostic : string) (cause : error)
  : sessionCancellation * list error :=
  (record_section outcome reason diagnostic, if oc_frozen outcome then [] else [cause]).

(** The context that [cancel] cancels, with the calls that goroutines are about
    to make.  [context.WithCancelCause]: cancelling again does not change the
    cause. *)
Record cancelContext : Type := MkContext { ctx_cause : option error; ctx_calls : list error }.
Definition new_context : cancelContext := MkContext None [].
Definition about_to_call (context : cancelContext) (calls : list error) : cancelContext :=
  MkContext (ctx_cause context) (ctx_calls context ++ calls).
(** The [n]-th of these goroutines makes its call. *)
Definition call_cancel (n : nat) (context : cancelContext) : cancelContext :=
  match ctx_calls context !! n with
  | Some cause =>
      MkContext (match ctx_cause context with Some first => Some first | None => Some cause end) (delete n (ctx_calls context))
  | None => context
  end.

Definition freeze (outcome : sessionCancellation) : sessionCancellation * cancellationSnapshot :=
  (MkOutcome (oc_reason outcome) (oc_diagnostic outcome) true,
   MkSnapshot (oc_reason outcome) (oc_diagnostic outcome)).

Definition ErrLifelineClosed : error := ErrSentinel "supervisor lifeline closed".
Definition ErrCancelled : error := ErrSentinel "supervisor cancelled".

Definition readCancellation (r : reader) (outcome : sessionCancellation) : sessionCancellation * list error :=
  match readFrame r with
  | (Err e, _) =>
      if is_EOF e then record_cause outcome CancelLifeline "" ErrLifelineClosed
      else record_cause outcome CancelInternal ("read supervisor cancellation: " +:+ error_text e) e
  | (Ok frame, _) =>
      match decodeCancellation frame with
      | Err e => record_cause outcome CancelInternal ("decode supervisor cancellation: " +:+ error_text e) e
      | Ok reason => record_cause outcome reason "" ErrCancelled
      end
  end.

Definition recordControlReadFailure (outcome : sessionCancellation) (e : error) : sessionCancellation * list error :=
  record_cause outcome CancelInternal
    (if is_EOF e then "supervisor control reached EOF before final"
     else "read supervisor control: " +:+ error_text e) e.

Definition applyCancellation (final : Final) (snapshot : cancellationSnapshot) : Final :=
  let cancelled := validCancellation (snap_reason snapshot) in
  MkFinal (if cancelled then true else Cancelled final)
    (if cancelled then snap_reason snapshot else Reason final)
    (joinDiagnostic (InternalError final) (snap_diagnostic snapshot))
    (RunError final) (CleanupError final) (Source final) (Transfers final).

(** ** What a sequence of recorded causes amounts to *)
Record Cause : Type := MkCause { cause_reason : Z; cause_diagnostic : string; cause_error : error }.

Definition record_all (outcome : sessionCancellation) (causes : list Cause) : sessionCancellation :=
  foldl (fun o c => record_section o (cause_reason c) (cause_diagnostic c)) outcome causes.

(** What the goroutines do, in the order in which it happens. *)
Inductive action : Type :=
  | Record_cause (cause : Cause)
  | Call_cancel (n : nat)
  | Freeze.
Definition act (s : sessionCancellation * cancelContext) (a : action) : sessionCancellation * cancelContext :=
  match a with
  | Record_cause c =>
      let '(outcome, calls) := record_cause s.1 (cause_reason c) (cause_diagnostic c) (cause_error c) in
      (outcome, about_to_call s.2 calls)
  | Call_cancel n => (s.1, call_cancel n s.2)
  | Freeze => ((freeze s.1).1, s.2)
  end.
Definition act_all (actions : list action) : sessionCancellation * cancelContext -> sessionCancellation * cancelContext :=
  fun s => foldl act s actions.
Definition recorded_cause (a : action) : option Cause := match a with Record_cause c => Some c | _ => None end.

(** The specification: the last internal failure; without one the first cause
    other than the closed lifeline; without one the first closed lifeline. *)
Definition internal_cause (c : Cause) : bool := cause_reason c =? CancelInternal.
Definition requested_cause (c : Cause) : bool := negb (cause_reason c =? CancelLifeline).

Definition deciding_cause (causes : list Cause) : option Cause :=
  match List.find internal_cause (rev causes) with
  | Some c => Some c
  | None =>
      match List.find requested_cause causes with
      | Some c => Some c
      | None => hd_error causes
      end
  end.

Definition decided_reason (c : option Cause) : Z := from_option cause_reason CancelNone c.
Definition decided_diagnostic (c : option Cause) : string :=
  from_option (fun c => boundedDiagnostic (cause_diagnostic c)) "" c.

Lemma validCancellation_spec r : validCancellation r = true <-> 1 <= r <= 5.
Proof. unfold validCancellation, CancelUser, CancelInternal. lia. Qed.

Lemma find_app {A} (p : A -> bool) l k :
  List.find p (l ++ k) = match List.find p l with Some x => Some x | None => List.find p k end.
Proof. induction l as [|x l IH]; simpl; [done|]. by destruct (p x). Qed.

Lemma find_rev_None {A} (p : A -> bool) (l : list A) :
  List.find p (rev l) = None <-> Forall (fun x => p x = false) l.
Proof.
  induction l as [|x l IH]; simpl; [done|]. rewrite find_app, Forall_cons, <- IH. simpl.
  destruct (List.find p (rev l)); [naive_solver|]. destruct (p x); naive_solver.
Qed.

Lemma deciding_cause_snoc causes c :
  deciding_cause (causes ++ [c])
  = match deciding_cause causes with
    | None => Some c
    | Some d =>
        if internal_cause c || (negb (requested_cause d) && requested_cause c) then Some c else Some d
    end.
Proof.
  unfold deciding_cause. rewrite rev_app_distr. simpl.
  destruct (internal_cause c) eqn:Hc; simpl.
  { by repeat case_match. }
  destruct (List.find internal_cause (rev causes)) as [d|] eqn:Hi.
  { apply find_some in Hi as [_ Hd]. unfold internal_cause, requested_cause, CancelInternal, CancelLifeline in *.
    replace (cause_reason d =? 4) with false by lia. done. }
  rewrite find_app. destruct (List.find requested_cause causes) as [d|] eqn:Hr.
  { apply find_some in Hr as [_ Hd]. by rewrite Hd. }
  destruct causes as [|d causes]; simpl.
  { by destruct (requested_cause c). }
  simpl in Hr. destruct (requested_cause d) eqn:Hd; [done|]. simpl.
  by destruct (requested_cause c).
Qed.

Lemma record_all_spec causes :
  Forall (fun c => validCancellation (cause_reason c) = true) causes ->
  record_all new_outcome causes
  = MkOutcome (decided_reason (deciding_cause causes)) (decided_diagnostic (deciding_cause causes)) false.
Proof.
  induction causes as [|c causes IH] using rev_ind; intros Hv; [done|].
  apply Forall_app in Hv as [Hv Hc]. apply Forall_cons in Hc as [Hc _].
  unfold record_all in *. rewrite foldl_snoc, IH by done.
  rewrite deciding_cause_snoc. unfold record_section; cbn [oc_frozen oc_reason oc_diagnostic].
  apply validCancellation_spec in Hc.
  assert (Hd : deciding_cause causes = None <-> causes = []).
  { unfold deciding_cause. destruct causes as [|d causes]; [done|]. split; [|done].
    destruct (List.find internal_cause (rev (d :: causes))); [done|].
    destruct (List.find requested_cause (d :: causes)); done. }
  destruct (deciding_cause causes) as [d|] eqn:E.
  - assert (cause_reason d <> CancelNone).
    { assert (d ∈ causes) as Hin.
      { unfold deciding_cause in E. apply list_elem_of_In.
        destruct (List.find internal_cause (rev causes)) as [x|] eqn:Hi.
        { injection E as ->. apply find_some in Hi as [Hi _]. by apply in_rev. }
        destruct (List.find requested_cause causes) as [x|] eqn:Hr.
        { injection E as ->. by apply find_some in Hr as [Hr _]. }
        destruct causes; [done|]. injection E as ->. by left. }
      rewrite Forall_forall in Hv. apply Hv, validCancellation_spec in Hin. unfold CancelNone. lia. }
    simpl. replace (cause_reason d =? CancelNone) with false by lia.
    unfold internal_cause, requested_cause. simpl.
    rewrite negb_involutive. by destruct (_ || _).
  - simpl. done.
Qed.

(** After the freeze nothing changes the outcome any more. *)
Lemma record_all_frozen outcome causes :
  oc_frozen outcome = true -> record_all outcome causes = outcome.
Proof.
  intros Hf. unfold record_all. induction causes as [|c causes IH]; [done|]. simpl.
  unfold record_section at 2. by rewrite Hf.
Qed.

Lemma readCancellation_spec r outcome :
  exists c, validCancellation (cause_reason c) = true /\
    readCancellation r outcome = record_cause outcome (cause_reason c) (cause_diagnostic c) (cause_error c).
Proof.
  unfold readCancellation. destruct (readFrame r) as [[frame|e] r'].
  - destruct (decodeCancellation frame) as [reason|e] eqn:Hd; [|by eexists (MkCause CancelInternal _ _)].
    apply decodeCancellation_Ok in Hd as (_ & Hv & _). by exists (MkCause reason "" ErrCancelled).
  - destruct (is_EOF e); [by eexists (MkCause CancelLifeline _ _)|by eexists (MkCause CancelInternal _ _)].
Qed.

Lemma recordControlReadFailure_spec outcome e :
  exists c, internal_cause c = true /\
    recordControlReadFailure outcome e
    = record_cause outcome (cause_reason c) (cause_diagnostic c) (cause_error c).
Proof. unfold recordControlReadFailure. by eexists (MkCause CancelInternal _ _). Qed.

Lemma applyCancellation_valid f snapshot :
  final_valid f -> (snap_reason snapshot = CancelNone \/ validCancellation (snap_reason snapshot) = true) ->
  final_valid (applyCancellation f snapshot).
Proof.
  intros [] Hs. unfold applyCancellation.
  split; cbn [Cancelled Reason InternalError RunError CleanupError Transfers]; try done.
  - destruct (validCancellation (snap_reason snapshot)) eqn:E; [by rewrite E|done].
  - apply joinDiagnostic_ok.
Qed.

(** ** What the goroutines leave *)
(** Every recorded cause has been called or is about to be, and the context has
    the cause of the first call. *)
Definition cancelled_by (context : cancelContext) (causes : list Cause) : Prop :=
  exists called, called ++ ctx_calls context ≡ₚ cause_error <$> causes /\ ctx_cause context = hd_error called.

Lemma cancelled_by_record context causes c :
  cancelled_by context causes -> cancelled_by (about_to_call context [cause_error c]) (causes ++ [c]).
Proof.
  intros (called & Hp & Hc). exists called. split; [|done]. cbn. by rewrite fmap_app, app_assoc, Hp.
Qed.

Lemma cancelled_by_call context causes n : cancelled_by context causes -> cancelled_by (call_cancel n context) causes.
Proof.
  intros (called & Hp & Hc). unfold call_cancel. destruct (ctx_calls context !! n) as [cause|] eqn:En; [|by exists called].
  exists (called ++ [cause]). cbn. split; [|by rewrite Hc; destruct called]. by rewrite <- Hp, <- app_assoc, <- (delete_Permutation _ _ _ En).
Qed.

Lemma act_all_snoc actions a s : act_all (actions ++ [a]) s = act (act_all actions s) a.
Proof. apply foldl_snoc. Qed.

Definition not_freeze (a : action) : Prop := a <> Freeze.

Lemma before_freeze actions :
  Forall not_freeze actions ->
  let s := act_all actions (new_outcome, new_context) in
  s.1 = record_all new_outcome (omap recorded_cause actions) /\ oc_frozen s.1 = false /\ cancelled_by s.2 (omap recorded_cause actions).
Proof.
  induction actions as [|a actions IH] using rev_ind; intros Hn.
  { split_and!; [done|done|]. by exists []. }
  apply Forall_app in Hn as [Hn [Ha _]%Forall_cons]. destruct (IH Hn) as (E & Ef & Hc). cbn zeta. rewrite act_all_snoc, omap_app.
  destruct (act_all actions (new_outcome, new_context)) as [o context]. cbn [fst snd] in *. destruct a as [c|n|]; [| |done]; cbn [act fst snd record_cause].
  - rewrite Ef. cbn [omap list_omap recorded_cause]. split_and!; [|unfold record_section; by rewrite Ef|by apply cancelled_by_record].
    unfold record_all in *. by rewrite foldl_snoc, <- E.
  - cbn [omap list_omap recorded_cause]. rewrite app_nil_r. split_and!; [done|done|by apply cancelled_by_call].
Qed.

Lemma after_freeze actions o context causes :
  oc_frozen o = true -> cancelled_by context causes ->
  (act_all actions (o, context)).1 = o /\ cancelled_by (act_all actions (o, context)).2 causes.
Proof.
  intros Hf Hc. induction actions as [|a actions IH] using rev_ind; [done|]. rewrite act_all_snoc.
  destruct (act_all actions (o, context)) as [o1 c1]. cbn [fst snd] in IH. destruct IH as [-> IH]. destruct a as [c|n|]; cbn [act fst snd record_cause].
  - unfold record_section, about_to_call. rewrite Hf, app_nil_r. split; [done|]. by destruct c1.
  - split; [done|]. by apply cancelled_by_call.
  - split; [|done]. destruct o. cbn in *. by subst.
Qed.

(** The final result under the causes recorded before the freeze. *)
Lemma deciding_cause_decides causes f :
  Forall (fun c => validCancellation (cause_reason c) = true) causes ->
  let final := applyCancellation f (freeze (record_all new_outcome causes)).2 in
  InternalError final = joinDiagnostic (InternalError f) (decided_diagnostic (deciding_cause causes))
  /\ match deciding_cause causes with
     | Some c => c ∈ causes /\ Cancelled final = true /\ Reason final = cause_reason c
                 /\ (internal_cause c = false -> Forall (fun d => internal_cause d = false) causes)
                 /\ (requested_cause c = false -> Forall (fun d => requested_cause d = false) causes)
     | None => causes = [] /\ Cancelled final = Cancelled f /\ Reason final = Reason f
     end.
Proof.
  intros Hv final. unfold final. rewrite (record_all_spec causes Hv). split; [done|]. clear final. unfold deciding_cause.
  destruct (List.find internal_cause (rev causes)) as [c|] eqn:Hi; simpl.
  { apply find_some in Hi as [Hi Hc]. apply in_rev, list_elem_of_In in Hi.
    rewrite Forall_forall in Hv. rewrite (Hv c Hi). split_and!; try done; [congruence|].
    intros Hr. unfold internal_cause, requested_cause, CancelInternal, CancelLifeline in *. lia. }
  apply find_rev_None in Hi.
  destruct (List.find requested_cause causes) as [c|] eqn:Hr; simpl.
  { apply find_some in Hr as [Hr Hc]. apply list_elem_of_In in Hr.
    rewrite Forall_forall in Hv. rewrite (Hv c Hr). split_and!; done || congruence. }
  assert (Forall (fun d => requested_cause d = false) causes) as Hn.
  { apply List.Forall_forall. intros d Hd. by eapply find_none. }
  destruct causes as [|c causes]; simpl; [done|].
  apply Forall_cons in Hv as [Hc _]. rewrite Hc. split_and!; try done. by left.
Qed.

(** ** Properties *)


(** The lifeline closes and the user cancels, but the call of the second comes
    first; then the control pipe breaks. *)
Definition sample_actions : list action :=
  [Record_cause (MkCause CancelLifeline "" ErrLifelineClosed); Record_cause (MkCause CancelUser "" ErrCancelled); Call_cancel 1;
   Record_cause (MkCause CancelInternal "read supervisor control: x" ErrUnexpectedEOF); Call_cancel 0;
   Record_cause (MkCause CancelTerminate "" ErrCancelled)].

