(* ===== verification/Session.v ===== *)
(** * The supervisor's wire session

    [internal/runsupervisor/session.go] and [callWork] of [supervisor.go]: the
    main goroutine of the supervisor process, the goroutine that reads the
    cancellation pipe and the goroutine that reads run controls, as a step
    relation.  A step is a send on the event pipe, a critical section of the
    cancellation outcome, a call that cancels the context, a channel operation
    or an action of the work; the work itself is any sequence of the capabilities
    it is given.  A call of [cancel] may come at any time after its critical
    section, for the main goroutine's own one too. *)
From S2P Require Import Prelude GoIO TransferNumber Frame GoText Control Final Events EventStream Cancellation.

Definition maximumPendingControls : nat := 32.
Definition errHandshake : error := ErrSentinel "supervisor start handshake is invalid".

Definition StartRequestCapacity : Z := maximumWirePayload.

(** What [readControls] is doing: reading, waiting to hand a control over, or
    gone, which closes the channel. *)
Inductive ControlReader : Type :=
  | ReaderIdle
  | ReaderReading
  | ReaderHolding (control : Control)
  | ReaderStopped.

(** Who owns the inherited source descriptor. *)
Inductive SourceOwner : Type :=
  | SourceAbsent
  | SourceSession
  | SourceRun
  | SourceTaken
  | SourceClosed.

Inductive Phase : Type :=
  | Starting
  | Handshake
  | Accepting (request : list byte)
  | Waiting (request : list byte)
  | Working (request : list byte)
  | Finishing (final : Final)
  | Returned (outcome : option error).

Record Session (W : Type) : Type := MkSession {
  se_phase : Phase;
  se_control : reader;
  se_cancellation : reader;
  se_events : eventPipeSender W;
  se_source : SourceOwner;
  se_outcome : sessionCancellation;
  se_context : cancelContext;
  se_cancellation_read : bool;
  se_reader : ControlReader;
  se_controls : list Control
}.
Arguments MkSession {W}.
Arguments se_phase {W}.
Arguments se_control {W}.
Arguments se_cancellation {W}.
Arguments se_events {W}.
Arguments se_source {W}.
Arguments se_outcome {W}.
Arguments se_context {W}.
Arguments se_cancellation_read {W}.
Arguments se_reader {W}.
Arguments se_controls {W}.

Section Session.
Context {W : Type} `{!EventSink W}.
Variable closeFile : option error.  (** what closing the source descriptor reports *)

Definition set_phase (s : Session W) (p : Phase) : Session W :=
  MkSession p (se_control s) (se_cancellation s) (se_events s) (se_source s) (se_outcome s) (se_context s)
    (se_cancellation_read s) (se_reader s) (se_controls s).
Definition set_events (s : Session W) (e : eventPipeSender W) : Session W :=
  MkSession (se_phase s) (se_control s) (se_cancellation s) e (se_source s) (se_outcome s) (se_context s)
    (se_cancellation_read s) (se_reader s) (se_controls s).
Definition set_source (s : Session W) (o : SourceOwner) : Session W :=
  MkSession (se_phase s) (se_control s) (se_cancellation s) (se_events s) o (se_outcome s) (se_context s)
    (se_cancellation_read s) (se_reader s) (se_controls s).
(** The outcome after a critical section, and the calls that are to follow it. *)
Definition set_outcome (s : Session W) (o : sessionCancellation * list error) : Session W :=
  MkSession (se_phase s) (se_control s) (se_cancellation s) (se_events s) (se_source s) o.1 (about_to_call (se_context s) o.2)
    (se_cancellation_read s) (se_reader s) (se_controls s).
Definition set_context (s : Session W) (c : cancelContext) : Session W :=
  MkSession (se_phase s) (se_control s) (se_cancellation s) (se_events s) (se_source s) (se_outcome s) c
    (se_cancellation_read s) (se_reader s) (se_controls s).
Definition set_reader (s : Session W) (control : reader) (r : ControlReader) (cs : list Control) : Session W :=
  MkSession (se_phase s) control (se_cancellation s) (se_events s) (se_source s) (se_outcome s) (se_context s)
    (se_cancellation_read s) r cs.

(** [session.closeSource] when the session still owns it, and
    [run.closeUntakenSource] when the run does: the owner is cleared first, so
    the descriptor is closed at most once. *)
Definition closeSource (owner : SourceOwner) : SourceOwner * option error :=
  match owner with SourceSession => (SourceClosed, closeFile) | o => (o, None) end.
Definition closeUntakenSource (owner : SourceOwner) : SourceOwner * option error :=
  match owner with SourceRun => (SourceClosed, closeFile) | o => (o, None) end.

(** [return err] under the deferred [closeSource] of [serve]. *)
Definition session_return (s : Session W) (e : option error) : Session W :=
  let '(owner, closed) := closeSource (se_source s) in
  set_source (set_phase s (Returned (errors_Join [e; closed]))) owner.

Definition empty_final (cleanup : string) : Final := MkFinal false CancelNone "" "" cleanup None [].

(** The main goroutine before the work starts. *)
Definition announce (s : Session W) : Session W :=
  match send (se_events s) frameReady [] with
  | (ev, Some e) => session_return (set_events s ev) (Some e)
  | (ev, None) => set_phase (set_events s ev) Handshake
  end.

Definition read_start (s : Session W) : Session W :=
  match readFrame (se_control s) with
  | (Err e, r) => session_return (set_reader s r (se_reader s) (se_controls s)) (errors_Join [Some errHandshake; Some e])
  | (Ok start, r) =>
      let s := set_reader s r (se_reader s) (se_controls s) in
      if negb (frame_kind start =? frameStart) || bool_decide (is_Some (ValidateStartRequest (frame_payload start)))
      then session_return s (errors_Join [Some errHandshake; None])
      else set_phase s (Accepting (frame_payload start))
  end.

Definition accept (s : Session W) (request : list byte) : Session W :=
  match send (se_events s) frameAccepted [] with
  | (ev, Some e) =>
      session_return (set_events s ev) (Some (ErrWrap "acknowledge supervisor source handoff" e))
  | (ev, None) => set_phase (set_events s ev) (Waiting request)
  end.

(** [waitForCommit] failed: the source is closed and the result says why. *)
Definition not_committed (s : Session W) : Session W :=
  let '(owner, closed) := closeSource (se_source s) in
  set_phase (set_source s owner) (Finishing (empty_final (diagnosticFor "close accepted supervisor source" closed))).

(** The read branch of the [select] in [waitForCommit]. *)
Definition commit (s : Session W) (request : list byte) : Session W :=
  match readFrame (se_control s) with
  | (Err e, r) =>
      not_committed (set_outcome (set_reader s r (se_reader s) (se_controls s)) (recordControlReadFailure (se_outcome s) e))
  | (Ok frame, r) =>
      let s := set_reader s r (se_reader s) (se_controls s) in
      if negb (frame_kind frame =? frameCommit) || negb (zlen (frame_payload frame) =? 0) then
        not_committed (set_outcome s
          (record_cause (se_outcome s) CancelInternal "supervisor commit frame is invalid"
             (ErrText "supervisor commit frame is invalid")))
      else
        set_phase
          (set_source (set_reader s (se_control s) ReaderReading (se_controls s))
             (match se_source s with SourceSession => SourceRun | o => o end))
          (Working request)
  end.

(** One read of [readControls]. *)
Definition read_control (s : Session W) : Session W :=
  match readFrame (se_control s) with
  | (Err e, r) =>
      set_outcome (set_reader s r ReaderStopped (se_controls s)) (recordControlReadFailure (se_outcome s) e)
  | (Ok frame, r) =>
      match decodeControl frame with
      | Err e =>
          set_outcome (set_reader s r ReaderStopped (se_controls s))
            (record_cause (se_outcome s) CancelInternal ("decode supervisor control: " +:+ error_text e) e)
      | Ok control => set_reader s r (ReaderHolding control) (se_controls s)
      end
  end.

(** [callWork] returned [final]: an untaken source is closed. *)
Definition work_returned (s : Session W) (final : Final) : Session W :=
  let '(owner, closed) := closeUntakenSource (se_source s) in
  set_phase (set_source s owner)
    (Finishing (MkFinal (Cancelled final) (Reason final) (InternalError final) (RunError final)
       (joinDiagnostic (CleanupError final) (diagnosticFor "close untaken supervisor source" closed))
       (Source final) (Transfers final))).

(** The result [callWork] makes of a panic. *)
Definition panic_final (recovered : string) : Final :=
  MkFinal true CancelInternal (boundedDiagnostic ("supervisor work panic: " +:+ recovered)) "" "" None [].

(** [applyCancellation(final, cancellation.freeze())], sent as the last frame. *)
Definition reported_final (s : Session W) (final : Final) : Final :=
  applyCancellation final (freeze (se_outcome s)).2.

Definition finish (s : Session W) (final : Final) : Session W :=
  let s1 := set_outcome s ((freeze (se_outcome s)).1, []) in
  let '(ev, e) := sendSessionFinal (se_events s) (reported_final s final) in
  session_return (set_events s1 ev) e.

(** What the work does with its run: events, one taken source, controls. *)
Definition work_send (op : Send) : bool := negb (is_final_send op).

Inductive session_step : Session W -> Session W -> Prop :=
  | step_announce s : se_phase s = Starting -> session_step s (announce s)
  | step_start s : se_phase s = Handshake -> session_step s (read_start s)
  | step_accept s request : se_phase s = Accepting request -> session_step s (accept s request)
  | step_context s request :
      se_phase s = Waiting request -> is_Some (ctx_cause (se_context s)) -> session_step s (not_committed s)
  | step_commit s request : se_phase s = Waiting request -> session_step s (commit s request)
  | step_cancellation s p :
      se_phase s = p ->
      match p with Starting | Handshake | Accepting _ => False | _ => True end ->
      se_cancellation_read s = false ->
      session_step s
        (let recorded := readCancellation (se_cancellation s) (se_outcome s) in
         MkSession (se_phase s) (se_control s) (se_cancellation s) (se_events s) (se_source s)
           recorded.1 (about_to_call (se_context s) recorded.2) true (se_reader s) (se_controls s))
  | step_cancel s n :
      (n < length (ctx_calls (se_context s)))%nat -> session_step s (set_context s (call_cancel n (se_context s)))
  | step_read_control s : se_reader s = ReaderReading -> session_step s (read_control s)
  | step_hand_control s control :
      se_reader s = ReaderHolding control -> (length (se_controls s) < maximumPendingControls)%nat ->
      session_step s (set_reader s (se_control s) ReaderReading (se_controls s ++ [control]))
  | step_drop_control s control :
      se_reader s = ReaderHolding control -> is_Some (ctx_cause (se_context s)) ->
      session_step s (set_reader s (se_control s) ReaderStopped (se_controls s))
  | step_work_control s request control rest :
      se_phase s = Working request -> se_controls s = control :: rest ->
      session_step s (set_reader s (se_control s) (se_reader s) rest)
  | step_work_source s request :
      se_phase s = Working request -> se_source s = SourceRun -> session_step s (set_source s SourceTaken)
  | step_work_send s request op :
      se_phase s = Working request -> work_send op = true -> send_wf op ->
      session_step s (set_events s (do_send (se_events s) op).1)
  | step_work_return s request final :
      se_phase s = Working request -> final_wf final -> session_step s (work_returned s final)
  | step_work_panic s request recovered :
      se_phase s = Working request -> session_step s (work_returned s (panic_final recovered))
  | step_finish s final : se_phase s = Finishing final -> session_step s (finish s final).

Definition session_start (control cancellation : reader) (w : W) (source : bool) : Session W :=
  MkSession Starting control cancellation (MkSender w false) (if source then SourceSession else SourceAbsent)
    new_outcome new_context false ReaderIdle [].

Definition session_reachable (s0 s : Session W) : Prop := rtc session_step s0 s.
End Session.

(** * What a session does on its event pipe

    The invariant of [Session.session_step] and its consequences: the order of
    the frames on the pipe, the single final result and its cancellation, and
    the ownership of the source descriptor. *)
Definition frame_bytes (kind : Z) : list byte :=
  match encodeFrame kind [] with Ok l => l | Err _ => [] end.

(** The pipe after the source was accepted: [Ready], [Accepted], then events. *)
Definition event_log (bytes : list byte) (frames : list (list byte)) (events : list Event) : Prop :=
  bytes = frame_bytes frameReady ++ frame_bytes frameAccepted ++ mjoin frames /\ Forall2 carries frames events.

Definition running_log (bytes : list byte) : Prop :=
  exists frames events, event_log bytes frames events /\ Forall (fun e => is_final e = false) events.

(** Every cause recorded so far was recorded by one of the session's readers. *)
Definition recorded (outcome : sessionCancellation) (causes : list Cause) : Prop :=
  Forall (fun c => validCancellation (cause_reason c) = true) causes
  /\ (outcome = record_all new_outcome causes).

Definition finished_log (bytes : list byte) (outcome : sessionCancellation) : Prop :=
  exists frames events final causes,
    event_log bytes frames (events ++ [EventFinal (sent_final (applyCancellation final (freeze (record_all new_outcome causes)).2))])
    /\ Forall (fun e => is_final e = false) events /\ final_wf final
    /\ Forall (fun c => validCancellation (cause_reason c) = true) causes
    /\ outcome = (freeze (record_all new_outcome causes)).1.

Definition phase_log (phase : Phase) (bytes : list byte) (sent : bool) (outcome : sessionCancellation) : Prop :=
  match phase with
  | Starting => bytes = [] /\ sent = false /\ exists causes, recorded outcome causes
  | Handshake | Accepting _ =>
      bytes = frame_bytes frameReady /\ sent = false /\ exists causes, recorded outcome causes
  | Waiting _ | Working _ => running_log bytes /\ sent = false /\ exists causes, recorded outcome causes
  | Finishing final => running_log bytes /\ sent = false /\ final_wf final /\ exists causes, recorded outcome causes
  | Returned None => sent = true /\ finished_log bytes outcome
  | Returned (Some _) => sent = false /\ (bytes = [] \/ bytes = frame_bytes frameReady \/ running_log bytes)
  end.

Definition phase_source (phase : Phase) (owner : SourceOwner) : Prop :=
  match phase with
  | Starting | Handshake | Accepting _ | Waiting _ => owner = SourceAbsent \/ owner = SourceSession
  | Working _ => owner = SourceAbsent \/ owner = SourceRun \/ owner = SourceTaken
  | Finishing _ | Returned _ => owner = SourceAbsent \/ owner = SourceTaken \/ owner = SourceClosed
  end.

(** The control reader runs only between the commit and its own failure. *)
Definition phase_reader (phase : Phase) (r : ControlReader) : Prop :=
  match phase with
  | Starting | Handshake | Accepting _ | Waiting _ => r = ReaderIdle
  | Working _ => r <> ReaderIdle
  | Finishing _ | Returned _ => True
  end.

Lemma recorded_snoc outcome causes c :
  recorded outcome causes -> validCancellation (cause_reason c) = true ->
  recorded (record_section outcome (cause_reason c) (cause_diagnostic c)) (causes ++ [c]).
Proof.
  intros [Hv ->] Hc. split; [by apply Forall_app; split; [|constructor]|].
  unfold record_all. by rewrite foldl_snoc.
Qed.

(** A recorded cause never breaks what the phase says of the pipe. *)
Lemma phase_log_record phase bytes sent outcome c :
  validCancellation (cause_reason c) = true -> phase_log phase bytes sent outcome ->
  phase_log phase bytes sent
    (record_section outcome (cause_reason c) (cause_diagnostic c)).
Proof.
  intros Hc. destruct phase as [| | | | | |[e|]]; simpl; try done.
  all: try (intros (Hb & Hs & causes & Hr); split_and!; [done|done|]; by eexists; apply recorded_snoc).
  - intros (Hb & Hs & Hf & causes & Hr). split_and!; [done|done|done|]. by eexists; apply recorded_snoc.
  - intros (Hs & frames & events & final & causes & Hlog & He & Hf & Hv & ->).
    split; [done|]. exists frames, events, final, causes. by split_and!.
Qed.

Lemma phase_log_cancellation phase bytes sent outcome r :
  phase_log phase bytes sent outcome -> phase_log phase bytes sent (readCancellation r outcome).1.
Proof. destruct (readCancellation_spec r outcome) as (c & Hc & ->). by apply phase_log_record. Qed.

Lemma phase_log_control phase bytes sent outcome e :
  phase_log phase bytes sent outcome -> phase_log phase bytes sent (recordControlReadFailure outcome e).1.
Proof.
  destruct (recordControlReadFailure_spec outcome e) as (c & Hc & ->). apply phase_log_record.
  unfold internal_cause in Hc. by apply Z.eqb_eq in Hc as ->.
Qed.

Section Invariant.
Context {W : Type} `{!EventSink W, !EventSinkLaws W, !AtomicSink W}.
Variable closeFile : option error.
Implicit Types s : Session W.

Definition pipe_bytes (s : Session W) : list byte := sunk (sender_writer (se_events s)).

Record session_inv (s : Session W) : Prop := {
  si_log : phase_log (se_phase s) (pipe_bytes s) (finalSent (se_events s)) (se_outcome s);
  si_source : phase_source (se_phase s) (se_source s);
  si_reader : phase_reader (se_phase s) (se_reader s)
}.

Lemma send_announcement (ev : eventPipeSender W) kind ev' :
  kind = frameReady \/ kind = frameAccepted -> send ev kind [] = (ev', None) ->
  sunk (sender_writer ev') = sunk (sender_writer ev) ++ frame_bytes kind /\ finalSent ev' = false.
Proof.
  intros Hk (enc & He & _ & Hs & Hf)%send_None. apply encodeEventFrame_Ok in He as (_ & _ & He).
  unfold frame_bytes. rewrite He. split; [done|]. rewrite Hf. by destruct Hk as [->| ->].
Qed.

Lemma closeSource_session owner :
  owner = SourceAbsent \/ owner = SourceSession ->
  let o := (closeSource closeFile owner).1 in o = SourceAbsent \/ o = SourceTaken \/ o = SourceClosed.
Proof. intros [->| ->]; simpl; auto. Qed.

(** Returning with an error before the work is over. *)
Lemma session_return_inv s e :
  finalSent (se_events s) = false -> 
  (pipe_bytes s = [] \/ pipe_bytes s = frame_bytes frameReady \/ running_log (pipe_bytes s)) ->
  se_source s = SourceAbsent \/ se_source s = SourceSession ->
  session_inv (session_return closeFile s (Some e)).
Proof.
  intros Hf Hb Ho. pose proof (closeSource_session _ Ho) as Hc. unfold session_return.
  destruct (closeSource closeFile (se_source s)) as [o cl]. by split.
Qed.

Lemma errors_Join_handshake e : exists x, errors_Join [Some errHandshake; e] = Some x.
Proof. destruct e; by eexists. Qed.

Lemma announce_inv s : session_inv s -> se_phase s = Starting -> session_inv (announce closeFile s).
Proof.
  intros [Hl Ho Hr] Hp. rewrite Hp in *. destruct Hl as (Hb & Hf & Hc). unfold announce.
  destruct (send (se_events s) frameReady []) as [ev [e|]] eqn:Hs.
  - apply send_atomic in Hs as [Hs1 Hs2]. apply session_return_inv; simpl; [congruence| |done].
    left. unfold pipe_bytes in *; simpl. congruence.
  - apply send_announcement in Hs as [Hs1 Hs2]; [|by left]. unfold pipe_bytes in Hb. rewrite Hb in Hs1.
    by split.
Qed.

Lemma read_start_inv s : session_inv s -> se_phase s = Handshake -> session_inv (read_start closeFile s).
Proof.
  intros [Hl Ho Hr] Hp. rewrite Hp in *. destruct Hl as (Hb & Hf & Hc). unfold read_start.
  destruct (readFrame (se_control s)) as [[frame|e] r].
  - destruct (_ || _); [|by split].
    destruct (errors_Join_handshake None) as [x ->]. apply session_return_inv; simpl; auto.
  - destruct (errors_Join_handshake (Some e)) as [x ->]. apply session_return_inv; simpl; auto.
Qed.

Lemma accept_inv s request :
  session_inv s -> se_phase s = Accepting request -> session_inv (accept closeFile s request).
Proof.
  intros [Hl Ho Hr] Hp. rewrite Hp in *. destruct Hl as (Hb & Hf & Hc). unfold accept.
  destruct (send (se_events s) frameAccepted []) as [ev [e|]] eqn:Hs.
  - apply send_atomic in Hs as [Hs1 Hs2]. apply session_return_inv; simpl; [congruence| |done].
    right; left. unfold pipe_bytes in *; simpl. congruence.
  - apply send_announcement in Hs as [Hs1 Hs2]; [|by right]. unfold pipe_bytes in Hb. rewrite Hb in Hs1.
    split; [|done|done]. simpl. split_and!; [|done|done]. exists [], []. 
    split; [|done]. split; [|done]. unfold pipe_bytes; simpl. by rewrite app_nil_r.
Qed.

Lemma empty_final_wf text : final_wf (empty_final text).
Proof. done. Qed.

Lemma not_committed_inv s request outcome r reader cs :
  session_inv s -> se_phase s = Waiting request ->
  phase_log (Waiting request) (pipe_bytes s) (finalSent (se_events s)) outcome.1 ->
  session_inv (not_committed closeFile (set_outcome (set_reader s r reader cs) outcome)).
Proof.
  intros [_ Ho Hr] Hp (Hb & Hf & Hc). rewrite Hp in *. unfold not_committed. simpl.
  pose proof (closeSource_session _ Ho) as Hcl.
  destruct (closeSource closeFile (se_source s)) as [o cl]. by split.
Qed.

Lemma commit_inv s request :
  session_inv s -> se_phase s = Waiting request -> session_inv (commit closeFile s request).
Proof.
  intros Hi Hp. pose proof Hi as [Hl Ho Hr]. rewrite Hp in *. unfold commit.
  destruct (readFrame (se_control s)) as [[frame|e] r].
  - destruct (_ || _).
    + apply (not_committed_inv s request); [done|done|].
      by apply (phase_log_record _ _ _ _ (MkCause CancelInternal _ ErrEOF)).
    + split; [done| |done]. simpl. destruct Ho as [->| ->]; auto.
  - apply (not_committed_inv s request); [done|done|]. by apply phase_log_control.
Qed.

Lemma read_control_inv s : session_inv s -> se_reader s = ReaderReading -> session_inv (read_control s).
Proof.
  intros [Hl Ho Hr] Hrd. unfold read_control.
  assert (forall r, r <> ReaderIdle -> phase_reader (se_phase s) r) as Hr'.
  { intros r Hne. rewrite Hrd in Hr. destruct (se_phase s); simpl in *; done. }
  destruct (readFrame (se_control s)) as [[frame|e] r].
  - destruct (decodeControl frame) as [c|e]; split; simpl; try done; try by apply Hr'.
    by apply (phase_log_record _ _ _ _ (MkCause CancelInternal _ ErrEOF)).
  - split; simpl; try done; [by apply phase_log_control|by apply Hr'].
Qed.

Lemma work_send_inv s request op :
  session_inv s -> se_phase s = Working request -> work_send op = true -> send_wf op ->
  session_inv (set_events s (do_send (se_events s) op).1).
Proof.
  intros [Hl Ho Hr] Hp Hw Hwf. rewrite Hp in *. destruct Hl as (Hb & Hf & Hc).
  destruct Hb as (frames & events & [Hb Hcar] & Hnf).
  assert (exists frames1 events1, Forall2 carries frames1 events1
    /\ Forall (fun ev => is_final ev = false) events1
    /\ sunk (sender_writer (do_send (se_events s) op).1) = pipe_bytes s ++ mjoin frames1
    /\ finalSent (do_send (se_events s) op).1 = false) as (frames1 & events1 & Hc1 & Hn1 & Hb1 & Hf1).
  { destruct (do_send (se_events s) op) as [ev [e|]] eqn:Hs; simpl.
    - apply do_send_atomic in Hs as (frames1 & events1 & ? & ? & ? & ?); [|done].
      exists frames1, events1. split_and!; done || congruence.
    - apply do_send_None in Hs as (_ & Hfs & frames1 & Hc1 & Hs); [|done].
      exists frames1, (expected_events op). unfold work_send in Hw. apply negb_true_iff in Hw.
      split_and!; [done|by apply expected_events_final|done|by rewrite Hfs]. }
  split; simpl; rewrite Hp; [|done|done]. split_and!; [|done|done].
  exists (frames ++ frames1), (events ++ events1). split; [|by apply Forall_app].
  split; [|by apply Forall2_app]. unfold pipe_bytes in *. simpl. rewrite Hb1, Hb.
  by rewrite join_app, <- !app_assoc.
Qed.

Lemma work_returned_inv s request final :
  session_inv s -> se_phase s = Working request -> final_wf final ->
  session_inv (work_returned closeFile s final).
Proof.
  intros [Hl Ho Hr] Hp Hf. rewrite Hp in *. destruct Hl as (Hb & Hsent & Hc). unfold work_returned.
  destruct (closeUntakenSource closeFile (se_source s)) as [o cl] eqn:Hcl. split; simpl; [done| |done].
  destruct Ho as [Ho|[Ho|Ho]]; rewrite Ho in Hcl; simpl in Hcl; injection Hcl as <- <-; auto.
Qed.

Lemma reported_final_wf final causes :
  Forall (fun c => validCancellation (cause_reason c) = true) causes -> final_wf final ->
  final_wf (applyCancellation final (freeze (record_all new_outcome causes)).2).
Proof.
  intros Hv [Hr Hs]. split; [|done]. simpl.
  destruct (validCancellation (oc_reason (record_all new_outcome causes))) eqn:E; [|done].
  apply validCancellation_spec in E. unfold in_u. lia.
Qed.

Lemma finish_inv s final : session_inv s -> se_phase s = Finishing final -> session_inv (finish closeFile s final).
Proof.
  intros [Hl Ho Hr] Hp. rewrite Hp in *. destruct Hl as (Hb & Hf & Hwf & causes & [Hv Hout]).
  unfold finish, reported_final. rewrite Hout.
  pose proof (reported_final_wf final causes Hv Hwf) as Hwf'.
  destruct Hb as (frames & events & [Hb Hcar] & Hnf).
  assert (forall ev e, session_return closeFile (set_events (set_outcome s ((freeze (record_all new_outcome causes)).1, [])) ev) e
    = MkSession (Returned (errors_Join [e; None])) (se_control s) (se_cancellation s) ev (se_source s)
        (freeze (record_all new_outcome causes)).1 (about_to_call (se_context s) []) (se_cancellation_read s) (se_reader s) (se_controls s)) as Hret.
  { intros ev e. unfold session_return. simpl. simpl in Ho. by destruct Ho as [->|[->| ->]]. }
  set (report := applyCancellation _ _) in *.
  destruct (sendSessionFinal (se_events s) report) as [ev [e|]] eqn:Hs; rewrite Hret.
  - pose proof (do_send_atomic _ (SendFin report) _ _ Hwf' Hs) as (frames1 & events1 & Hc1 & Hn1 & Hb1 & Hf1).
    split; [|done..]. simpl. split; [congruence|]. right; right.
    exists (frames ++ frames1), (events ++ events1). split; [|by apply Forall_app].
    split; [|by apply Forall2_app]. unfold pipe_bytes in *. simpl. rewrite Hb1, Hb.
    by rewrite join_app, <- !app_assoc.
  - pose proof (do_send_None _ (SendFin report) _ Hwf' Hs) as (_ & Hf1 & frames1 & Hc1 & Hb1).
    split; [|done..]. simpl. split; [done|].
    exists (frames ++ frames1), events, final, causes. split_and!; [|done..].
    split; [|by apply Forall2_app]. unfold pipe_bytes in *. simpl. rewrite Hb1, Hb.
    by rewrite join_app, <- !app_assoc.
Qed.

Lemma set_reader_inv s control r cs :
  session_inv s -> phase_reader (se_phase s) r -> session_inv (set_reader s control r cs).
Proof. intros [Hl Ho Hr] Hr'. by split. Qed.

Lemma session_step_inv s s' : session_step closeFile s s' -> session_inv s -> session_inv s'.
Proof.
  assert (forall s r, se_reader s <> ReaderIdle -> session_inv s -> r <> ReaderIdle ->
    phase_reader (se_phase s) r) as Hrd.
  { intros s0 r Hne [_ _ Hr] Hr'. destruct (se_phase s0); simpl in *; done. }
  destruct 1 as [s Hp|s Hp|s req Hp|s req Hp Hc|s req Hp|s p Hp Hph Hc|s n Hc|s Hr|s c Hr Hlen|s c Hr Hc
    |s req c rest Hp Hcs|s req Hp Ho|s req op Hp Hw Hwf|s req f Hp Hf|s req t Hp|s f Hp]; intros Hi.
  - by apply announce_inv.
  - by apply read_start_inv.
  - by apply accept_inv.
  - pose proof Hi as [Hl _ _]. rewrite Hp in Hl.
    pose proof (not_committed_inv s req (se_outcome s, []) (se_control s) (se_reader s) (se_controls s) Hi Hp Hl) as Hn.
    unfold not_committed in *. cbn in *. destruct (closeSource closeFile (se_source s)) as [o cl]. by destruct Hn; split.
  - by apply commit_inv.
  - destruct Hi as [Hl Ho Hr]. pose proof (phase_log_cancellation _ _ _ _ (se_cancellation s) Hl) as Hl'.
    by split.
  - by destruct Hi; split.
  - by apply read_control_inv.
  - apply set_reader_inv; [done|]. by apply Hrd; [rewrite Hr| |].
  - apply set_reader_inv; [done|]. by apply Hrd; [rewrite Hr| |].
  - apply set_reader_inv; [done|]. by destruct Hi.
  - destruct Hi as [Hl Hso Hr]. rewrite Hp in *. split; simpl; rewrite Hp; simpl; auto.
  - by eapply work_send_inv.
  - by eapply work_returned_inv.
  - by eapply work_returned_inv.
  - by apply finish_inv.
Qed.

Lemma session_start_inv control cancellation w source :
  sunk w = [] -> session_inv (session_start control cancellation w source).
Proof.
  intros Hw. split; simpl; [|by destruct source; auto|done].
  split_and!; [done|done|]. by exists [].
Qed.

Lemma session_reachable_inv control cancellation w source s :
  sunk w = [] -> session_reachable closeFile (session_start control cancellation w source) s -> session_inv s.
Proof.
  intros Hw Hs. pose proof (session_start_inv control cancellation w source Hw) as Hi.
  revert Hi. induction Hs as [|s1 s2 s3 Hstep _ IH]; [done|]. intros Hi. apply IH.
  by eapply session_step_inv.
Qed.
End Invariant.

#[export] Instance memory_atomic : AtomicSink (list byte).
Proof.
  intros w p w' e _. unfold sink_write, writer_sink, write_to, memory_writer.
  by rewrite Z.eqb_refl.
Qed.

(** ** The parent's side of a finished log *)
Lemma readFrame_announcement kind rest ended :
  kind_valid kind = true ->
  readFrame (MkReader (frame_bytes kind ++ rest) ended) = (Ok (MkFrame kind []), MkReader rest ended).
Proof.
  intros Hk. unfold frame_bytes. destruct (encodeFrame kind []) as [l|] eqn:He.
  - by apply readFrame_encode.
  - pose proof (encodeFrame_is_ok kind []) as H. by rewrite He, Hk in H.
Qed.

Lemma receive_finished frames events final fuel :
  Forall2 carries frames (events ++ [EventFinal final]) -> Forall (fun e => is_final e = false) events ->
  receive_all (length events + S (S fuel)) (MkReceiver (MkReader (mjoin frames) ErrEOF) false)
  = (events ++ [EventFinal final], ErrEOF).
Proof.
  intros (f1 & f2 & H1 & H2 & ->)%Forall2_app_inv_r Hn. rewrite join_app.
  rewrite receive_carried by done.
  inversion H2 as [|l e ls es Hl Hnil]; subst. apply Forall2_nil_inv_r in Hnil as ->.
  rewrite mjoin_cons, app_nil_r. by rewrite (receive_final l _ fuel ErrEOF Hl).
Qed.

(** What the parent decodes from the pipe of a session that returned cleanly. *)
Definition parent_observes (bytes : list byte) (events : list Event) : Prop :=
  exists r1 r2,
    readFrame (MkReader bytes ErrEOF) = (Ok (MkFrame frameReady []), r1)
    /\ readFrame r1 = (Ok (MkFrame frameAccepted []), r2)
    /\ receive_all (S (length events)) (MkReceiver r2 false) = (events, ErrEOF).

Lemma event_log_observed bytes frames events final :
  event_log bytes frames (events ++ [EventFinal final]) -> Forall (fun e => is_final e = false) events ->
  parent_observes bytes (events ++ [EventFinal final]).
Proof.
  intros [-> Hc] Hn. do 2 eexists. split_and!.
  - by apply readFrame_announcement.
  - by apply readFrame_announcement.
  - rewrite length_app. simpl length. rewrite <- Nat.add_succ_r. by apply receive_finished.
Qed.

Lemma sent_final_valid f : final_wf f -> final_valid (sent_final f).
Proof.
  intros Hf. destruct (sendSessionFinal_frame (MkSender ([] : list byte) false) f Hf) as (_ & _ & _ & Hv & _).
  exact Hv.
Qed.

(** ** Properties *)

(** C16. A supervisor session that returns without an error has reported exactly
    one result: the parent reads [Ready], [Accepted], events and then one valid
    final result, which is the work's result under the causes recorded before it
    was frozen; and the source descriptor has been taken, closed or was absent. *)
Theorem session_reports_one_final {W} `{!EventSink W, !EventSinkLaws W, !AtomicSink W}
    (closeFile : option error) (control cancellation : reader) (w : W) (source : bool) (s : Session W) :
  sunk w = [] ->
  session_reachable closeFile (session_start control cancellation w source) s ->
  se_phase s = Returned None ->
  exists events final causes,
    let result := sent_final (applyCancellation final (freeze (record_all new_outcome causes)).2) in
    parent_observes (pipe_bytes s) (events ++ [EventFinal result])
    /\ Forall (fun e => is_final e = false) events /\ final_valid result
    /\ Forall (fun c => validCancellation (cause_reason c) = true) causes
    /\ se_outcome s = (freeze (record_all new_outcome causes)).1
    /\ (se_source s = SourceAbsent \/ se_source s = SourceTaken \/ se_source s = SourceClosed).
Proof.
  intros Hw Hs Hp. apply session_reachable_inv in Hs as [Hl Ho _]; [|done]. rewrite Hp in Hl, Ho.
  destruct Hl as (_ & frames & events & final & causes & Hlog & Hn & Hf & Hv & Hout).
  exists events, final, causes. split_and!; try done.
  - by eapply event_log_observed.
  - by apply sent_final_valid, reported_final_wf.
Qed.

(** Once the session returned nothing changes what it reported: the readers
    that may still run touch neither the pipe nor the source, and after a clean
    return not even the recorded outcome. *)
Theorem session_return_is_final {W} `{!EventSink W, !EventSinkLaws W, !AtomicSink W}
    (closeFile : option error) (control cancellation : reader) (w : W) (source : bool) (s s' : Session W) e :
  sunk w = [] ->
  session_reachable closeFile (session_start control cancellation w source) s ->
  se_phase s = Returned e -> session_step closeFile s s' ->
  se_phase s' = Returned e /\ pipe_bytes s' = pipe_bytes s /\ se_source s' = se_source s
  /\ (e = None -> se_outcome s' = se_outcome s).
Proof.
  intros Hw Hs Hp Hstep. apply session_reachable_inv in Hs as [Hl _ _]; [|done]. rewrite Hp in Hl.
  assert (e = None -> forall c, record_section (se_outcome s) (cause_reason c) (cause_diagnostic c) = se_outcome s) as Hfrozen.
  { intros ->. destruct Hl as (_ & ? & ? & ? & causes & _ & _ & _ & _ & ->). intros c. done. }
  destruct Hstep as [s Hq|s Hq|s req Hq|s req Hq Hc|s req Hq|s p Hq Hph Hc|s n Hc|s Hr|s c Hr Hlen|s c Hr Hc
    |s req c rest Hq Hcs|s req Hq Ho|s req op Hq Hwk Hwf|s req f Hq Hf|s req t Hq|s f Hq];
    try congruence; try (by split_and!).
  - destruct (readCancellation_spec (se_cancellation s) (se_outcome s)) as (c & _ & Hc'). rewrite Hc'.
    split_and!; try done. intros He. cbn. by apply Hfrozen.
  - unfold read_control. destruct (readFrame (se_control s)) as [[frame|x] r].
    + destruct (decodeControl frame); [by split_and!|]. split_and!; try done.
      intros He. simpl. by apply (Hfrozen He (MkCause CancelInternal _ ErrEOF)).
    + destruct (recordControlReadFailure_spec (se_outcome s) x) as (c & _ & Hc').
      rewrite Hc'. split_and!; try done. intros He. cbn. by apply Hfrozen.
Qed.

(** A session whose parent starts, commits and then hangs up. *)
Definition frame_or_empty (kind : Z) (payload : list byte) : list byte :=
  match encodeFrame kind payload with Ok l => l | Err _ => [] end.
Definition sample_control : reader :=
  MkReader (frame_or_empty frameStart [x2a] ++ frame_or_empty frameCommit []) ErrEOF.
Definition sample_session : Session (list byte) :=
  session_start sample_control (MkReader [] ErrEOF) [] true.
Definition sample_announced : Session (list byte) := announce None sample_session.
Definition sample_started : Session (list byte) := read_start None sample_announced.
Definition sample_accepted : Session (list byte) := accept None sample_started [x2a].
Definition sample_working : Session (list byte) := commit None sample_accepted [x2a].
Definition sample_hung_up : Session (list byte) :=
  MkSession (se_phase sample_working) (se_control sample_working) (se_cancellation sample_working)
    (se_events sample_working) (se_source sample_working)
    (readCancellation (se_cancellation sample_working) (se_outcome sample_working)).1
    (about_to_call (se_context sample_working) (readCancellation (se_cancellation sample_working) (se_outcome sample_working)).2) true
    (se_reader sample_working) (se_controls sample_working).
Definition sample_worked : Session (list byte) := work_returned None sample_hung_up (empty_final "").
Definition sample_returned : Session (list byte) := finish None sample_worked (empty_final "").

Lemma sample_session_reachable :
  session_reachable None sample_session sample_returned.
Proof.
  apply rtc_l with sample_announced; [by apply step_announce; vm_compute|].
  apply rtc_l with sample_started; [by apply step_start; vm_compute|].
  apply rtc_l with sample_accepted; [by apply (step_accept _ _ [x2a]); vm_compute|].
  apply rtc_l with sample_working; [by apply (step_commit _ _ [x2a]); vm_compute|].
  apply rtc_l with sample_hung_up; [by apply (step_cancellation _ _ (Working [x2a])); vm_compute|].
  apply rtc_l with sample_worked; [by apply (step_work_return _ _ [x2a] (empty_final "")); vm_compute|].
  apply rtc_l with sample_returned; [by apply (step_finish _ _ (empty_final "")); vm_compute|].
  apply rtc_refl.
Qed.

Lemma session_reports_one_final_witness :
  exists events final causes,
    parent_observes (pipe_bytes sample_returned)
      (events ++ [EventFinal (sent_final (applyCancellation final (freeze (record_all new_outcome causes)).2))])
    /\ se_outcome sample_returned = MkOutcome CancelLifeline "" true.
Proof.
  destruct (session_reports_one_final None sample_control (MkReader [] ErrEOF) ([] : list byte) true
    sample_returned) as (events & final & causes & Hp & _);
    [reflexivity|exact sample_session_reachable|vm_compute; reflexivity|].
  exists events, final, causes. split; [exact Hp|]. vm_compute. reflexivity.
Defined.

Lemma session_return_is_final_witness :
  se_phase (read_control sample_returned) = Returned None
  /\ pipe_bytes (read_control sample_returned) = pipe_bytes sample_returned.
Proof.
  destruct (session_return_is_final None sample_control (MkReader [] ErrEOF) ([] : list byte) true sample_returned
    (read_control sample_returned) None) as (Hp & Hb & _);
    [reflexivity|exact sample_session_reachable|vm_compute; reflexivity| |split; [exact Hp|exact Hb]].
  apply step_read_control. vm_compute. reflexivity.
Defined.
