(* ===== verification/PipeWrite.v ===== *)
(** * Non-blocking pipe writes

    The write loops of [internal/runsupervisor/control_pipe_linux.go] and
    [event_pipe_unix.go].  The kernel is a script of answers to the system
    calls in the order the loop makes them; a loop that has used up its script
    is still waiting ([None]).  Besides its error each loop says which bytes the
    pipe took. *)
From S2P Require Import Prelude Frame.

Inductive errno : Type :=
  | EINTR
  | EAGAIN
  | EOTHER (name : string).

Inductive Answer : Type :=
  | AWrite (written : Z)
  | AWriteError (e : errno)
  | APoll (pipe wake : Z)
  | APollNone
  | APollError (e : errno)
  | AClock (remaining : Z).

Definition POLLOUT : Z := 4.
Definition POLLERR : Z := 8.
Definition POLLHUP : Z := 16.

Definition ErrClosed : error := ErrSentinel "file already closed".
Definition ErrClosedPipe : error := ErrSentinel "io: read/write on closed pipe".

Definition errno_error (e : errno) : error :=
  match e with
  | EINTR => ErrSentinel "interrupted system call"
  | EAGAIN => ErrSentinel "resource temporarily unavailable"
  | EOTHER name => ErrSentinel name
  end.

Definition any (revents mask : Z) : bool := negb (Z.land revents mask =? 0).

(** ** The parent's control pipe *)
Fixpoint waitForControlFile (script : list Answer) : option (option error * list Answer) :=
  match script with
  | APollError EINTR :: script => waitForControlFile script
  | APollError e :: script => Some (Some (ErrWrap "wait supervisor control write" (errno_error e)), script)
  | APoll pipe wake :: script =>
      if negb (wake =? 0) then Some (Some ErrClosed, script)
      else if any pipe POLLOUT then Some (None, script)
      else if any pipe (Z.lor POLLERR POLLHUP) then Some (Some ErrClosedPipe, script)
      else waitForControlFile script
  | _ => None
  end.

(** The bytes the pipe took, the error, the rest of the script. *)
Fixpoint writeControl_loop (fuel : nat) (atomic : bool) (script : list Answer) (encoded : list byte)
  : option (list byte * option error) :=
  match fuel, encoded with
  | _, [] => Some ([], None)
  | O, _ => None
  | S fuel, _ =>
      match script with
      | AWrite written :: script =>
          if (0 <? written) && (negb atomic || (written =? zlen encoded)) then
            match writeControl_loop fuel atomic script (drop (Z.to_nat written) encoded) with
            | Some (took, e) => Some (take (Z.to_nat written) encoded ++ took, e)
            | None => None
            end
          else Some (take (Z.to_nat written) encoded, Some (ErrWrap "write supervisor control frame" ErrShortWrite))
      | AWriteError EINTR :: script => writeControl_loop fuel atomic script encoded
      | AWriteError EAGAIN :: script =>
          match waitForControlFile script with
          | None => None
          | Some (Some e, _) => Some ([], Some e)
          | Some (None, script) => writeControl_loop fuel atomic script encoded
          end
      | AWriteError e :: _ => Some ([], Some (ErrWrap "write supervisor control frame" (errno_error e)))
      | _ => None
      end
  end.

(** Each round uses an answer, so the script's length is fuel enough
    ([writeControl_loop_fuel]). *)
Definition writeControlFile (atomic : bool) (script : list Answer) (kind : Z) (payload : list byte)
  : option (list byte * option error) :=
  match encodeFrame kind payload with
  | Err e => Some ([], Some e)
  | Ok encoded =>
      if atomic && (pipeAtomicFrameBytes <? zlen encoded) then
        Some ([], Some (ErrText "supervisor runtime control frame is not pipe-atomic"))
      else writeControl_loop (S (length script)) atomic script encoded
  end.

Definition writeAtomicControlFile := writeControlFile true.

(** ** The supervisor's event pipe *)
Definition backpressure : error := ErrText "supervisor event backpressure did not advance".

Fixpoint waitForEventPipe (script : list Answer) : option (option error * list Answer) :=
  match script with
  | AClock remaining :: script =>
      if remaining <=? 0 then Some (Some backpressure, script)
      else
        match script with
        | APollError EINTR :: script => waitForEventPipe script
        | APollError e :: script => Some (Some (errno_error e), script)
        | APollNone :: script => Some (Some backpressure, script)
        | APoll pipe _ :: script =>
            if any pipe POLLOUT then Some (None, script)
            else if any pipe (Z.lor POLLERR POLLHUP) then Some (Some ErrClosedPipe, script)
            else waitForEventPipe script
        | _ => None
        end
  | _ => None
  end.

Fixpoint writeEventPipe_loop (fuel : nat) (script : list Answer) (encoded : list byte)
  : option (list byte * option error) :=
  match fuel with
  | O => None
  | S fuel =>
      match script with
      | AWrite written :: _ =>
          if written =? zlen encoded then Some (encoded, None)
          else Some (take (Z.to_nat written) encoded, Some ErrShortWrite)
      | AWriteError EINTR :: script => writeEventPipe_loop fuel script encoded
      | AWriteError EAGAIN :: script =>
          match waitForEventPipe script with
          | None => None
          | Some (Some e, _) => Some ([], Some e)
          | Some (None, script) => writeEventPipe_loop fuel script encoded
          end
      | AWriteError e :: _ => Some ([], Some (errno_error e))
      | _ => None
      end
  end.

Definition writeEventPipe (script : list Answer) (encoded : list byte) : option (list byte * option error) :=
  writeEventPipe_loop (S (length script)) script encoded.

(** ** The kernel's promise

    [write(2)] on a non-blocking pipe takes at most [PIPE_BUF] bytes whole or
    fails, and a successful call reports at most what it was given. *)
Definition kernel_atomic (n : Z) (script : list Answer) : Prop :=
  Forall (fun a => match a with AWrite written => written = n | _ => True end) script.

Definition kernel_bounded (script : list Answer) : Prop :=
  Forall (fun a => match a with AWrite written => 0 <= written | _ => True end) script.

(** ** The loops use their script up and nothing else *)
Lemma waitForControlFile_rest script e rest :
  waitForControlFile script = Some (e, rest) -> exists used, script = used ++ rest /\ used <> [].
Proof.
  revert e rest; induction script as [|a script IH]; intros e rest; [done|].
  assert (waitForControlFile script = Some (e, rest) ->
    exists used, a :: script = used ++ rest /\ used <> []) as Hmore.
  { intros (used & -> & _)%IH. by exists (a :: used). }
  destruct a as [| | pipe wake| |[| |]|]; simpl; try done; repeat case_match; try done;
    intros Hx; first [by apply Hmore | injection Hx as _ <-; by eexists [_]].
Qed.

Lemma waitForEventPipe_rest n script e rest :
  (length script <= n)%nat ->
  waitForEventPipe script = Some (e, rest) -> exists used, script = used ++ rest /\ used <> [].
Proof.
  revert script; induction n as [|n IH]; intros script Hn; [by destruct script; [|simpl in Hn; lia]|].
  destruct script as [|a script]; [done|]. destruct a; try done. cbn [waitForEventPipe].
  destruct (_ <=? 0); [intros [= _ <-]; by eexists [_]|].
  destruct script as [|a script]; [done|]. simpl in Hn.
  assert (waitForEventPipe script = Some (e, rest) ->
    exists used, AClock remaining :: a :: script = used ++ rest /\ used <> []) as Hmore.
  { intros (used & -> & _)%IH; [|lia]. by exists (AClock remaining :: a :: used). }
  destruct a as [| | pipe wake| |[| |]|]; try done; repeat case_match; try done;
    intros Hx; first [by apply Hmore | injection Hx as _ <-; by eexists [_; _]].
Qed.

Lemma kernel_atomic_app n used rest : kernel_atomic n (used ++ rest) -> kernel_atomic n rest.
Proof. by intros [_ H]%Forall_app. Qed.

Lemma writeControl_loop_atomic fuel script encoded took e :
  kernel_atomic (zlen encoded) script -> encoded <> [] ->
  writeControl_loop fuel true script encoded = Some (took, e) ->
  took = match e with Some _ => [] | None => encoded end.
Proof.
  intros Hk Hne. revert script Hk; induction fuel as [|fuel IH]; intros script Hk; [by destruct encoded|].
  destruct encoded as [|b encoded]; [done|]. set (l := b :: encoded) in *.
  assert (0 < zlen l) as Hpos by (unfold l, zlen; simpl; lia).
  cbn [writeControl_loop]. fold l. destruct script as [|a script]; [done|].
  apply Forall_cons in Hk as [Ha Hk].
  destruct a as [written|[| |name]| | | |]; try done.
  - subst written. replace (0 <? zlen l) with true by lia. rewrite Z.eqb_refl. simpl.
    unfold zlen. rewrite Nat2Z.id, drop_all, firstn_all.
    destruct fuel; simpl; intros [= <- <-]; by rewrite app_nil_r.
  - by apply IH.
  - destruct (waitForControlFile script) as [[[e0|] rest]|] eqn:Hw; [by intros [= <- <-]| |done].
    apply waitForControlFile_rest in Hw as (used & -> & _). apply IH. by eapply kernel_atomic_app.
  - by intros [= <- <-].
Qed.

Lemma writeEventPipe_loop_atomic fuel script encoded took e :
  kernel_atomic (zlen encoded) script ->
  writeEventPipe_loop fuel script encoded = Some (took, e) -> took = match e with Some _ => [] | None => encoded end.
Proof.
  revert script; induction fuel as [|fuel IH]; intros script Hk; [done|].
  cbn [writeEventPipe_loop]. destruct script as [|a script]; [done|].
  apply Forall_cons in Hk as [Ha Hk].
  destruct a as [written|[| |name]| | | |]; try done.
  - subst written. rewrite Z.eqb_refl. by intros [= <- <-].
  - by apply IH.
  - destruct (waitForEventPipe script) as [[[e0|] rest]|] eqn:Hw; [by intros [= <- <-]| |done].
    apply (waitForEventPipe_rest (length script)) in Hw as (used & -> & _); [|done].
    apply IH. by eapply kernel_atomic_app.
  - by intros [= <- <-].
Qed.

(** More fuel than answers changes nothing. *)
Lemma writeControl_loop_fuel fuel1 fuel2 atomic script encoded :
  (length script < fuel1)%nat -> (length script < fuel2)%nat ->
  writeControl_loop fuel1 atomic script encoded = writeControl_loop fuel2 atomic script encoded.
Proof.
  revert fuel2 script encoded; induction fuel1 as [|fuel1 IH]; intros fuel2 script encoded H1 H2; [lia|].
  destruct fuel2 as [|fuel2]; [lia|]. destruct encoded as [|b encoded]; [done|].
  cbn [writeControl_loop]. destruct script as [|a script]; [done|]. simpl in *.
  destruct a as [written|[| |name]| | | |]; try done.
  - by rewrite (IH fuel2) by lia.
  - apply IH; lia.
  - destruct (waitForControlFile script) as [[[e0|] rest]|] eqn:Hw; [done| |done].
    apply waitForControlFile_rest in Hw as (used & -> & _). rewrite length_app in *. apply IH; lia.
Qed.

(** Without the atomic flag the pipe takes a prefix, and all of it on success. *)
Lemma writeControl_loop_prefix fuel atomic script encoded took e :
  kernel_bounded script -> writeControl_loop fuel atomic script encoded = Some (took, e) ->
  exists k, took = take k encoded /\ (e = None -> took = encoded).
Proof.
  revert script encoded took; induction fuel as [|fuel IH]; intros script encoded took Hk.
  { destruct encoded; [|done]. intros [= <- <-]. by exists 0%nat. }
  destruct encoded as [|b encoded]; [intros [= <- <-]; by exists 0%nat|]. set (l := b :: encoded) in *.
  cbn [writeControl_loop]. fold l. destruct script as [|a script]; [done|].
  apply Forall_cons in Hk as [Ha Hk].
  destruct a as [written|[| |name]| | | |]; try done.
  - destruct (_ && _).
    + destruct (writeControl_loop fuel _ _ _) as [[took1 e1]|] eqn:Hl; [|done].
      intros [= <- <-]. apply IH in Hl as (k & -> & Hn); [|done].
      exists (Z.to_nat written + k)%nat. split; [by rewrite take_take_drop|].
      intros He. rewrite Hn by done. apply take_drop.
    + intros [= <- <-]. by eexists.
  - by apply IH.
  - destruct (waitForControlFile script) as [[[e0|] rest]|] eqn:Hw; [intros [= <- <-]; by exists 0%nat| |done].
    apply waitForControlFile_rest in Hw as (used & -> & _). apply IH. by apply Forall_app in Hk as [_ ?].
  - intros [= <- <-]. by exists 0%nat.
Qed.

Lemma writeAtomicControlFile_result script kind payload encoded took e :
  encodeFrame kind payload = Ok encoded -> kernel_atomic (zlen payload + 8) script ->
  writeAtomicControlFile script kind payload = Some (took, e) ->
  took = match e with Some _ => [] | None => encoded end /\ (e = None -> zlen encoded <= pipeAtomicFrameBytes).
Proof.
  intros He Hk. pose proof (encodeFrame_length _ _ _ He) as Hl. rewrite <- Hl in Hk.
  unfold writeAtomicControlFile, writeControlFile. rewrite He. cbn [andb].
  destruct (Z.ltb_spec pipeAtomicFrameBytes (zlen encoded)); [by intros [= <- <-]|].
  intros Hw. split; [|done]. apply writeControl_loop_atomic in Hw; [done|done|].
  intros ->. pose proof (zlen_nonneg payload). autorewrite with lens in Hl. lia.
Qed.

(** ** Properties *)

(** A pipe write is all or nothing on a kernel whose writes of at most
    [PIPE_BUF] bytes are: a runtime control or event frame that is reported
    written was taken whole, and one reported as failed (interrupted by the wake
    descriptor, out of time, a closed pipe, any error) left no byte behind. *)
Theorem pipe_writes_are_atomic script kind payload encoded took e :
  encodeFrame kind payload = Ok encoded -> kernel_atomic (zlen encoded) script ->
  (writeAtomicControlFile script kind payload = Some (took, e) ->
     took = match e with Some _ => [] | None => encoded end /\ (e = None -> zlen encoded <= pipeAtomicFrameBytes))
  /\ (writeEventPipe script encoded = Some (took, e) -> took = match e with Some _ => [] | None => encoded end).
Proof.
  intros He Hk. split; [|by apply writeEventPipe_loop_atomic].
  apply writeAtomicControlFile_result; [done|]. by rewrite <- (encodeFrame_length _ _ _ He).
Qed.

Lemma pipe_writes_are_atomic_witness :
  exists encoded, encodeFrame frameInput [x01; x61] = Ok encoded /\
  writeAtomicControlFile [AWriteError EINTR; AWriteError EAGAIN; APoll 0 0; APoll POLLOUT 0; AWrite 10]
    frameInput [x01; x61] = Some (encoded, None) /\
  writeEventPipe [AWriteError EAGAIN; AClock 5; APoll POLLHUP 0] encoded = Some ([], Some ErrClosedPipe).
Proof.
  destruct (encodeFrame frameInput [x01; x61]) as [encoded|] eqn:He; [|vm_compute in He; discriminate He].
  exists encoded. split; [reflexivity|].
  set (script := [AWriteError EINTR; AWriteError EAGAIN; APoll 0 0; APoll POLLOUT 0; AWrite 10]).
  destruct (writeAtomicControlFile script frameInput [x01; x61]) as [[took e]|] eqn:Hw; [|vm_compute in Hw; discriminate Hw].
  assert (e = None) as -> by (vm_compute in Hw; injection Hw as _ <-; reflexivity).
  destruct (proj1 (pipe_writes_are_atomic script frameInput [x01; x61] encoded took None He
    ltac:(apply encodeFrame_length in He; rewrite He; repeat constructor)) Hw) as [-> _].
  split; [reflexivity|]. vm_compute in He. injection He as <-. vm_compute. reflexivity.
Defined.
