(* ===== verification/ControlSender.v ===== *)
(** * The parent's control sender

    [internal/runsupervisor/control_sender.go]: senders, cancellers, the event
    reader and the final wait share one object with two mutexes.  [stateMu]
    sections are the atomic steps of the relation below; [sendMu] is a lock the
    threads hold over several of them.  The control pipe is the list of bytes it
    took; a write in progress may take any time and is then whole or failed. *)
From S2P Require Import Prelude GoIO TransferNumber Frame Control PipeWrite.

Definition maximumAtomicInputBytes : Z := pipeAtomicFrameBytes - Z.of_nat wireHeaderBytes - 1.

Inductive controlState : Type :=
  | controlOpen
  | controlCancelling
  | controlStopped
  | controlClosed.

#[export] Instance controlState_eq_dec : EqDecision controlState.
Proof. solve_decision. Defined.

(** The order in which a sender may go through its states. *)
Definition state_rank (s : controlState) : nat :=
  match s with controlOpen => 0 | controlCancelling => 1 | controlStopped => 2 | controlClosed => 3 end%nat.

(** The object, its three descriptors being held or not, and what the control
    and cancellation pipes took.  [C] is the cancellation pipe. *)
Record controlSender (C : Type) : Type := MkControlSender {
  cs_state : controlState;
  cs_control : bool;
  cs_cancellation : bool;
  cs_wake : bool;
  cs_cancelErr : option error;
  cs_lifelineErr : option error;
  cs_teardownErr : option error;
  cs_log : list byte;
  cs_cancel_pipe : C
}.
Arguments MkControlSender {C}.
Arguments cs_state {C}.
Arguments cs_control {C}.
Arguments cs_cancellation {C}.
Arguments cs_wake {C}.
Arguments cs_cancelErr {C}.
Arguments cs_lifelineErr {C}.
Arguments cs_teardownErr {C}.
Arguments cs_log {C}.
Arguments cs_cancel_pipe {C}.

Definition newControlSender {C} (pipe : C) : controlSender C :=
  MkControlSender controlOpen true true true None None None [] pipe.

Section Operations.
Context {C : Type} `{!Writer C}.
Implicit Types s : controlSender C.

Definition set_state s (st : controlState) : controlSender C :=
  MkControlSender st (cs_control s) (cs_cancellation s) (cs_wake s) (cs_cancelErr s) (cs_lifelineErr s)
    (cs_teardownErr s) (cs_log s) (cs_cancel_pipe s).

Definition openForSend s : bool := bool_decide (cs_state s = controlOpen).

Definition stop s : controlSender C :=
  match cs_state s with
  | controlOpen | controlCancelling => set_state s controlStopped
  | _ => s
  end.

Definition cancel s (reason : Z) : controlSender C * option error :=
  if negb (validCancellation reason) then (s, Some (ErrText "supervisor cancel reason is invalid"))
  else
    match cs_state s with
    | controlOpen =>
        let '(pipe, e) := writeCancellation (cs_cancel_pipe s) reason in
        (MkControlSender controlCancelling (cs_control s) (cs_cancellation s) (cs_wake s) e
           (cs_lifelineErr s) (cs_teardownErr s) (cs_log s) pipe, e)
    | controlCancelling => (s, cs_cancelErr s)
    | controlStopped | controlClosed => (s, None)
    end.

(** The second section of [closeLifeline], after [stop]; [close] is what
    closing the descriptor reports, and the flag says whether it was closed. *)
Definition closeLifeline_section s (close : option error) : controlSender C * option error * bool :=
  if cs_cancellation s then
    (MkControlSender (cs_state s) (cs_control s) false (cs_wake s) (cs_cancelErr s) close
       (cs_teardownErr s) (cs_log s) (cs_cancel_pipe s), close, true)
  else (s, cs_lifelineErr s, false).

(** The sections of [teardown] under [sendMu]: taking the descriptors, or
    returning the error of the teardown that took them; and storing the error. *)
Definition teardown_take s : controlSender C * option error :=
  (MkControlSender controlClosed false false false (cs_cancelErr s) (cs_lifelineErr s) (cs_teardownErr s)
     (cs_log s) (cs_cancel_pipe s), cs_lifelineErr s).

Definition teardown_store s (e : option error) : controlSender C :=
  MkControlSender (cs_state s) (cs_control s) (cs_cancellation s) (cs_wake s) (cs_cancelErr s)
    (cs_lifelineErr s) e (cs_log s) (cs_cancel_pipe s).

(** The control pipe took [took]. *)
Definition log_write s (took : list byte) : controlSender C :=
  MkControlSender (cs_state s) (cs_control s) (cs_cancellation s) (cs_wake s) (cs_cancelErr s)
    (cs_lifelineErr s) (cs_teardownErr s) (cs_log s ++ took) (cs_cancel_pipe s).
End Operations.

(** The frames of one [writeInput], each small enough to be taken whole. *)
Fixpoint input_frames (fuel : nat) (id : Number) (input : list byte) : list wireFrame :=
  match fuel, input with
  | S fuel, _ :: _ =>
      let count := Z.to_nat (Z.min (zlen input) maximumAtomicInputBytes) in
      MkFrame frameInput (z2b (Value id) :: take count input) :: input_frames fuel id (drop count input)
  | _, _ => []
  end.

(** What a caller asks of the sender, reduced to the frames it will write. *)
Definition writeInput_frames (id : Number) (input : list byte) : result (list wireFrame) :=
  if (Value id =? 0) || (zlen input =? 0) || (maximumWirePayload <? zlen input + 1) then
    Err (ErrText "supervisor input is invalid")
  else Ok (input_frames (length input) id input).

Definition resize_frames (id : Number) (cols rows : Z) : result (list wireFrame) :=
  let* ' (kind, payload) := encodeControl (newResizeControl id cols rows) in Ok [MkFrame kind payload].

(** ** Threads

    A call remembers what the pipe had taken when it got the lock, its frames
    and, as [sent], those it wrote. *)
Record Call : Type := MkCall { call_base : list byte; call_frames : list wireFrame }.

Inductive Thread : Type :=
  | Idle
  | SendWaiting (frames : list wireFrame)
  | SendLoop (call : Call) (sent frames : list wireFrame)
  | SendFrame (call : Call) (sent : list wireFrame) (frame : wireFrame) (frames : list wireFrame)
  | SendWriting (call : Call) (sent : list wireFrame) (frame : wireFrame) (frames : list wireFrame)
  | SendFailed (call : Call) (sent frames : list wireFrame) (e : error)
  | SendDone (call : Call) (sent : list wireFrame) (e : option error)
  | LifelineClosing
  | TeardownWaiting
  | TeardownLocked
  | TeardownClosing (control cancellation wake : bool) (lifelineErr : option error).

(** The threads that hold [sendMu]. *)
Definition holds (t : Thread) : bool :=
  match t with
  | SendLoop _ _ _ | SendFrame _ _ _ _ | SendWriting _ _ _ _ | SendFailed _ _ _ _
  | TeardownLocked | TeardownClosing _ _ _ _ => true
  | _ => false
  end.

Record System (C : Type) : Type := MkSystem {
  sy_sender : controlSender C;
  sy_threads : list Thread;
  sy_closed : list nat  (** how often control, cancellation and wake were closed *)
}.
Arguments MkSystem {C}.
Arguments sy_sender {C}.
Arguments sy_threads {C}.
Arguments sy_closed {C}.

Definition frame_log (frames : list wireFrame) : list byte :=
  mjoin ((fun f => match encodeFrame (frame_kind f) (frame_payload f) with Ok l => l | Err _ => [] end) <$> frames).

Section Steps.
Context {C : Type} `{!Writer C}.

(** Thread [i] moves from [t] to [t'] while the object goes from [s] to [s']. *)
Inductive thread_step (free : bool) : controlSender C -> Thread -> controlSender C -> Thread -> list bool -> Prop :=
  | ts_resize s id cols rows frames :
      resize_frames id cols rows = Ok frames -> thread_step free s Idle s (SendWaiting frames) []
  | ts_input s id input frames :
      writeInput_frames id input = Ok frames -> thread_step free s Idle s (SendWaiting frames) []
  | ts_lock s frames :
      free = true ->
      thread_step free s (SendWaiting frames) s (SendLoop (MkCall (cs_log s) frames) [] frames) []
  | ts_loop_end s call sent : thread_step free s (SendLoop call sent []) s (SendDone call sent None) []
  | ts_loop_closed s call sent frame frames :
      openForSend s = false ->
      thread_step free s (SendLoop call sent (frame :: frames)) s (SendDone call sent None) []
  | ts_loop_open s call sent frame frames :
      openForSend s = true ->
      thread_step free s (SendLoop call sent (frame :: frames)) s (SendFrame call sent frame frames) []
  | ts_frame_closed s call sent frame frames :
      openForSend s = false ->
      thread_step free s (SendFrame call sent frame frames) s (SendLoop call sent frames) []
  | ts_frame_open s call sent frame frames :
      openForSend s = true ->
      thread_step free s (SendFrame call sent frame frames) s (SendWriting call sent frame frames) []
  | ts_write s call sent frame frames script took e :
      kernel_atomic (zlen (frame_payload frame) + 8) script ->
      writeAtomicControlFile script (frame_kind frame) (frame_payload frame) = Some (took, e) ->
      thread_step free s (SendWriting call sent frame frames) (log_write s took)
        match e with
        | None => SendLoop call (sent ++ [frame]) frames
        | Some e => SendFailed call sent frames e
        end []
  | ts_failed s call sent frames e :
      thread_step free s (SendFailed call sent frames e) s
        (if openForSend s then SendDone call sent (Some e) else SendLoop call sent frames) []
  | ts_return s call sent e : thread_step free s (SendDone call sent e) s Idle []
  | ts_cancel s reason : thread_step free s Idle (cancel s reason).1 Idle []
  | ts_stop s : thread_step free s Idle (stop s) Idle []
  | ts_lifeline s : thread_step free s Idle (stop s) LifelineClosing []
  | ts_lifeline_close s close s' e closed :
      closeLifeline_section s close = (s', e, closed) ->
      thread_step free s LifelineClosing s' Idle [false; closed; false]
  | ts_teardown s : thread_step free s Idle (stop s) TeardownWaiting []
  | ts_teardown_lock s : free = true -> thread_step free s TeardownWaiting s TeardownLocked []
  | ts_teardown_again s : cs_state s = controlClosed -> thread_step free s TeardownLocked s Idle []
  | ts_teardown_take s s' e :
      cs_state s <> controlClosed -> teardown_take s = (s', e) ->
      thread_step free s TeardownLocked s'
        (TeardownClosing (cs_control s) (cs_cancellation s) (cs_wake s) e) []
  | ts_teardown_close s control cancellation wake lifelineErr e :
      thread_step free s (TeardownClosing control cancellation wake lifelineErr)
        (teardown_store s (errors_Join [lifelineErr; e])) Idle [control; cancellation; wake].

Definition free_lock (threads : list Thread) : bool := negb (existsb holds threads).

Fixpoint count_closes (closed : list nat) (now : list bool) : list nat :=
  match closed, now with
  | n :: closed, b :: now => (if b then S n else n) :: count_closes closed now
  | closed, _ => closed
  end.

Inductive system_step : System C -> System C -> Prop :=
  | system_step_thread sy i t s' t' now :
      sy_threads sy !! i = Some t ->
      thread_step (free_lock (sy_threads sy)) (sy_sender sy) t s' t' now ->
      system_step sy (MkSystem s' (<[i := t']> (sy_threads sy)) (count_closes (sy_closed sy) now)).

Definition system_start (pipe : C) (threads : nat) : System C :=
  MkSystem (newControlSender pipe) (replicate threads Idle) [0; 0; 0]%nat.
End Steps.

(** ** The frames of a call *)
Definition frame_ok (f : wireFrame) : Prop :=
  exists encoded, encodeFrame (frame_kind f) (frame_payload f) = Ok encoded /\ zlen encoded <= pipeAtomicFrameBytes.

Lemma input_frames_spec fuel id input :
  (length input <= fuel)%nat ->
  Forall frame_ok (input_frames fuel id input)
  /\ mjoin ((fun f => drop 1 (frame_payload f)) <$> input_frames fuel id input) = input.
Proof.
  revert input; induction fuel as [|fuel IH]; intros input Hf.
  { by destruct input; [|simpl in Hf; lia]. }
  destruct input as [|b input]; [done|]. cbn [input_frames]. set (l := b :: input) in *.
  set (count := Z.to_nat _).
  assert (0 < zlen l) by (unfold l, zlen; simpl; lia).
  assert (Hc : (0 < count <= length l)%nat /\ Z.of_nat count <= maximumAtomicInputBytes).
  { unfold count, maximumAtomicInputBytes, pipeAtomicFrameBytes, wireHeaderBytes, zlen in *. lia. }
  destruct (IH (drop count l)) as [IH1 IH2]; [rewrite length_drop; lia|]. split.
  - constructor; [|done].
    assert (Hz : zlen (z2b (Value id) :: take count l) = Z.of_nat count + 1).
    { rewrite zlen_cons. unfold zlen. rewrite length_take. lia. }
    unfold maximumAtomicInputBytes, pipeAtomicFrameBytes, wireHeaderBytes in Hc.
    destruct (encodeFrame frameInput (z2b (Value id) :: take count l)) as [enc|] eqn:He.
    + exists enc. split; [done|]. apply encodeFrame_length in He. unfold pipeAtomicFrameBytes. lia.
    + pose proof (encodeFrame_is_ok frameInput (z2b (Value id) :: take count l)) as Hok.
      rewrite He, Hz in Hok. simpl in Hok. unfold maximumWirePayload in Hok. lia.
  - rewrite fmap_cons, mjoin_cons, IH2. simpl. apply take_drop.
Qed.

Lemma writeInput_frames_ok id input frames : writeInput_frames id input = Ok frames -> Forall frame_ok frames.
Proof.
  unfold writeInput_frames. destruct (_ || _); [done|]. intros <-%Ok_inj. by apply input_frames_spec.
Qed.

Lemma resize_frames_ok id cols rows frames : resize_frames id cols rows = Ok frames -> Forall frame_ok frames.
Proof.
  unfold resize_frames. intros ([kind payload] & He & <-%Ok_inj)%rbind_Ok_inv.
  unfold encodeControl in He. simpl in He. destruct (_ || _); [done|].
  apply Ok_pair_inj in He as [<- <-]. constructor; [|done]. unfold frame_ok. cbn [frame_kind frame_payload].
  assert (forall p, zlen p = 5 -> frame_ok (MkFrame frameResize p)) as H.
  { intros p Hp. destruct (encodeFrame frameResize p) as [enc|] eqn:He.
    - exists enc. split; [done|]. apply encodeFrame_length in He. unfold pipeAtomicFrameBytes. lia.
    - pose proof (encodeFrame_is_ok frameResize p) as Hok. rewrite He, Hp in Hok. done. }
  apply (H (_ :: _)). by autorewrite with lens.
Qed.

Lemma frame_log_app fs gs : frame_log (fs ++ gs) = frame_log fs ++ frame_log gs.
Proof. unfold frame_log. by rewrite fmap_app, join_app. Qed.

Lemma frame_log_one f encoded :
  encodeFrame (frame_kind f) (frame_payload f) = Ok encoded -> frame_log [f] = encoded.
Proof. unfold frame_log. simpl. intros ->. apply app_nil_r. Qed.
