(* ===== verification/ControlSenderProofs.v ===== *)
(** * What the control sender guarantees

    The invariant of the interleavings of [ControlSender]: frames reach the
    pipe whole, a call's frames are never interleaved with another's, the state
    only moves forward, at most one cancellation frame is written and every
    descriptor is closed exactly once and never used after that. *)
From S2P Require Import Prelude GoIO TransferNumber Frame Control PipeWrite ControlSender.

(** ** Lists of threads *)
Lemma sum_list_insert (l : list nat) i x y :
  l !! i = Some x -> (sum_list (<[i := y]> l) + x = sum_list l + y)%nat.
Proof.
  revert i; induction l as [|z l IH]; intros [|i]; simpl; try done.
  - intros [= ->]. lia.
  - intros H%IH. lia.
Qed.

Lemma free_lock_spec threads i t :
  free_lock threads = true -> threads !! i = Some t -> holds t = false.
Proof.
  unfold free_lock. rewrite negb_true_iff. intros Hf Hi. apply not_true_iff_false. intros Ht.
  apply not_true_iff_false in Hf. apply Hf, existsb_exists. exists t. split; [|done].
  apply list_elem_of_In. by eapply list_elem_of_lookup_2.
Qed.

Section Invariant.
Context {C : Type} `{!Writer C, !WriterLaws C}.
Implicit Types (s : controlSender C) (sy : System C).

Definition present (k : nat) s : nat :=
  Nat.b2n (nth k [cs_control s; cs_cancellation s; cs_wake s] false).

Definition pend (k : nat) (t : Thread) : nat :=
  match t with
  | TeardownClosing control cancellation wake _ => Nat.b2n (nth k [control; cancellation; wake] false)
  | _ => 0
  end.

(** Nothing but a prefix of one cancellation frame ever reaches its pipe. *)
Definition cancel_ok (bytes : list byte) : Prop :=
  bytes = [] \/ exists reason encoded k, validCancellation reason = true
    /\ encodeFrame frameCancel [z2b reason] = Ok encoded /\ bytes = take k encoded.

Record base_inv s : Prop := {
  bi_files : cs_state s <> controlClosed -> cs_control s = true /\ cs_wake s = true;
  bi_lifeline : (state_rank (cs_state s) < 2)%nat -> cs_cancellation s = true;
  bi_untouched : cs_state s = controlOpen -> delivered (cs_cancel_pipe s) = [];
  bi_cancel : cancel_ok (delivered (cs_cancel_pipe s));
  bi_log : exists frames, Forall frame_ok frames /\ cs_log s = frame_log frames
}.

Definition wrote s (c : Call) (sent : list wireFrame) : Prop :=
  cs_log s = call_base c ++ frame_log sent /\ sent `prefix_of` call_frames c.

Definition thread_inv s (t : Thread) : Prop :=
  match t with
  | SendWaiting frames => Forall frame_ok frames
  | SendLoop c sent frames =>
      wrote s c sent /\ Forall frame_ok frames /\ (cs_state s = controlOpen -> call_frames c = sent ++ frames)
  | SendFrame c sent f frames =>
      wrote s c sent /\ Forall frame_ok (f :: frames) /\ call_frames c = sent ++ f :: frames
  | SendWriting c sent f frames =>
      wrote s c sent /\ Forall frame_ok (f :: frames) /\ call_frames c = sent ++ f :: frames
      /\ cs_state s <> controlClosed
  | SendFailed c sent frames _ => wrote s c sent /\ Forall frame_ok frames
  | SendDone c sent e =>
      (exists later, cs_log s = call_base c ++ frame_log sent ++ later) /\ sent `prefix_of` call_frames c
      /\ (e = None -> cs_state s = controlOpen -> sent = call_frames c)
  | LifelineClosing | TeardownWaiting | TeardownLocked => (2 <= state_rank (cs_state s))%nat
  | TeardownClosing _ _ _ _ => cs_state s = controlClosed
  | Idle => True
  end.

(** [s'] is a later state of the object; a thread without [sendMu] neither
    writes to the control pipe nor closes. *)
Definition later (held : bool) s s' : Prop :=
  (state_rank (cs_state s) <= state_rank (cs_state s'))%nat
  /\ (exists x, cs_log s' = cs_log s ++ x /\ (held = false -> x = []))
  /\ (held = false -> cs_state s' = controlClosed -> cs_state s = controlClosed).

Lemma later_refl held s : later held s s.
Proof. split_and!; [done| |done]. exists []. by rewrite app_nil_r. Qed.

Lemma rank_open s s' :
  (state_rank (cs_state s) <= state_rank (cs_state s'))%nat -> cs_state s' = controlOpen -> cs_state s = controlOpen.
Proof. intros H E. rewrite E in H. destruct (cs_state s); simpl in H; done || lia. Qed.

Lemma rank_closed st : (3 <= state_rank st)%nat -> st = controlClosed.
Proof. destruct st; simpl; done || lia. Qed.

Lemma later_stop s : later false s (stop s).
Proof.
  unfold stop. destruct (cs_state s) eqn:E; try apply later_refl;
    (split_and!; [rewrite E; simpl; lia| |done]; exists []; by rewrite app_nil_r).
Qed.

Lemma rank_stop s : (2 <= state_rank (cs_state (stop s)))%nat.
Proof. unfold stop. destruct (cs_state s) eqn:E; simpl; rewrite ?E; simpl; lia. Qed.

Lemma later_cancel s reason : later false s (cancel s reason).1.
Proof.
  unfold cancel. destruct (negb _); [apply later_refl|].
  destruct (cs_state s) eqn:E; simpl; try apply later_refl.
  destruct (writeCancellation _ _) as [pipe e]. simpl.
  split_and!; [rewrite E; simpl; lia| |done]. exists []. by rewrite app_nil_r.
Qed.

(** Another thread's step keeps what a thread knows. *)
Lemma thread_inv_later held s s' t :
  later held s s' -> (held = true -> holds t = false) -> thread_inv s t -> thread_inv s' t.
Proof.
  intros (Hr & (x & Hx & Hx0) & Hc) Hh. 
  assert (holds t = true -> cs_log s' = cs_log s /\ (cs_state s' = controlClosed -> cs_state s = controlClosed)) as Hheld.
  { intros Ht. destruct held; [rewrite Hh in Ht; done|]. rewrite Hx, Hx0 by done. by rewrite app_nil_r; auto. }
  pose proof (rank_open s s' Hr) as Hopen.
  assert (forall c sent, holds t = true -> wrote s c sent -> wrote s' c sent) as Hwrote.
  { intros c sent Ht [Hl Hp]. destruct (Hheld Ht) as [Hlog _]. split; [congruence|done]. }
  destruct t as [| |c sent frames|c sent f frames|c sent f frames|c sent frames e|c sent e| | | |]; simpl; try done; try lia.
  - intros (Hw & Hok & Hall). split_and!; [by apply Hwrote|done|auto].
  - intros (Hw & Hok & Hall). split_and!; [by apply Hwrote|done|done].
  - intros (Hw & Hok & Hall & Hst). split_and!; [by apply Hwrote|done|done|].
    intros E. by apply Hst, Hheld.
  - intros (Hw & Hok). split; [by apply Hwrote|done].
  - intros ((more & Hl) & Hp & Ho). split_and!; [|done|auto]. exists (more ++ x).
    by rewrite Hx, Hl, <- !app_assoc.
  - intros E. apply rank_closed. rewrite E in Hr. simpl in Hr. lia.
Qed.

Lemma cancel_base s reason : base_inv s -> base_inv (cancel s reason).1.
Proof.
  intros Hb. unfold cancel. destruct (validCancellation reason) eqn:Hv; [|done]. simpl.
  destruct (cs_state s) eqn:E; try done. destruct (writeCancellation (cs_cancel_pipe s) reason) as [pipe e] eqn:Hw.
  destruct Hb as [Hf Hl Hu Hc Hlog]. rewrite E in *. split; simpl; try done; [by intros _; apply Hf|intros _; apply Hl; simpl; lia|].
  unfold writeCancellation in Hw. rewrite Hv in Hw. cbn [negb] in Hw.
  destruct (encodeFrame frameCancel [z2b reason]) as [encoded|] eqn:He; [|by injection Hw as <- _].
  destruct (write_to (cs_cancel_pipe s) encoded) as [[w n] err] eqn:Hwr.
  apply write_contract in Hwr as (_ & Hd & _). rewrite Hu in Hd by done.
  assert (pipe = w) as -> by by repeat case_match; congruence.
  right. exists reason, encoded, (Z.to_nat n). by rewrite Hd.
Qed.

Lemma stop_base s : base_inv s -> base_inv (stop s).
Proof.
  unfold stop. intros Hb. destruct (cs_state s) eqn:E; try done; destruct Hb as [Hf Hl Hu Hc Hlog];
    rewrite E in *; (split; simpl; [by intros _; apply Hf|lia|done|done|done]).
Qed.

Lemma openForSend_spec s : openForSend s = true <-> cs_state s = controlOpen.
Proof. apply bool_decide_eq_true. Qed.

Lemma openForSend_false s : openForSend s = false <-> cs_state s <> controlOpen.
Proof. apply bool_decide_eq_false. Qed.

(** A write under way: whole or not at all. *)
Lemma write_inv s c sent f frames script took e :
  thread_inv s (SendWriting c sent f frames) -> base_inv s ->
  kernel_atomic (zlen (frame_payload f) + 8) script ->
  writeAtomicControlFile script (frame_kind f) (frame_payload f) = Some (took, e) ->
  base_inv (log_write s took) /\
  thread_inv (log_write s took)
    match e with None => SendLoop c (sent ++ [f]) frames | Some e => SendFailed c sent frames e end.
Proof.
  intros ((Hlog & Hpre) & Hok & Hall & Hst) [Hf Hl Hu Hc (all & Hfr & Ha)] Hk Hw.
  apply Forall_cons in Hok as [(encoded & He & Hsz) Hok].
  apply (writeAtomicControlFile_result _ _ _ _ _ _ He Hk) in Hw as [-> _].
  pose proof (frame_log_one f encoded He) as Hone. destruct e as [e|]; simpl.
  - split; [split; simpl; try done; exists all; by rewrite app_nil_r|].
    unfold wrote. simpl. by rewrite app_nil_r.
  - split.
    + split; simpl; try done. exists (all ++ [f]). split; [apply Forall_app; split; [done|]|].
      * constructor; [by exists encoded|done].
      * by rewrite frame_log_app, Hone, Ha.
    + unfold wrote. simpl. split_and!.
      * by rewrite frame_log_app, Hone, Hlog, <- app_assoc.
      * rewrite Hall. exists frames. by rewrite <- app_assoc.
      * done.
      * intros _. by rewrite Hall, <- app_assoc.
Qed.

(** One step: forward, keeping the invariants, and what it closed. *)
Lemma thread_step_facts free s t s' t' now :
  thread_step free s t s' t' now -> base_inv s -> thread_inv s t ->
  later (holds t) s s' /\ base_inv s' /\ thread_inv s' t' /\ (holds t' = true -> holds t = true \/ free = true)
  /\ Nat.leb (length now) 3 = true
  /\ forall k, (present k s' + pend k t' + Nat.b2n (nth k now false) = present k s + pend k t)%nat.
Proof.
  assert (Hk0 : forall k, Nat.b2n (nth k [] false) = 0%nat) by by intros [].
  intros Hstep Hb Ht.
  destruct Hstep as [s id cols rows frames Hfr|s id input frames Hfr|s frames Hfree|s c sent|s c sent f frames Ho
    |s c sent f frames Ho|s c sent f frames Ho|s c sent f frames Ho|s c sent f frames script took e Hk Hw
    |s c sent frames e|s c sent e|s reason|s|s|s close s' e closed Hcl|s|s Hfree|s Hst|s s' e Hst Htk
    |s fc fl fw le e].
  - split_and!; [apply later_refl|done|by eapply resize_frames_ok|done|done|intros; rewrite Hk0; simpl; lia].
  - split_and!; [apply later_refl|done|by eapply writeInput_frames_ok|done|done|intros; rewrite Hk0; simpl; lia].
  - split_and!; [apply later_refl|done| |by right|done|intros; rewrite Hk0; simpl; lia].
    unfold thread_inv, wrote. cbn [call_base call_frames]. unfold frame_log. simpl. rewrite app_nil_r.
    split_and!; [done|apply prefix_nil|done|done].
  - destruct Ht as ([Hl Hp] & _ & Hall).
    split_and!; [apply later_refl|done| |done|done|intros; rewrite Hk0; simpl; lia].
    split_and!; [exists []; by rewrite app_nil_r|done|]. intros _ E. rewrite Hall by done. by rewrite app_nil_r.
  - destruct Ht as ([Hl Hp] & _ & Hall).
    split_and!; [apply later_refl|done| |done|done|intros; rewrite Hk0; simpl; lia].
    apply openForSend_false in Ho. by split_and!; [exists []; rewrite app_nil_r|..].
  - destruct Ht as (Hwr & Hok & Hall). apply openForSend_spec in Ho.
    split_and!; [apply later_refl|done| |auto|done|intros; rewrite Hk0; simpl; lia]. split_and!; auto.
  - destruct Ht as (Hwr & Hok & Hall). apply openForSend_false in Ho. apply Forall_cons in Hok as [_ Hok].
    split_and!; [apply later_refl|done| |auto|done|intros; rewrite Hk0; simpl; lia]. split_and!; done || naive_solver.
  - destruct Ht as (Hwr & Hok & Hall). apply openForSend_spec in Ho.
    split_and!; [apply later_refl|done| |auto|done|intros; rewrite Hk0; simpl; lia].
    split_and!; [done|done|done|congruence].
  - destruct (write_inv s c sent f frames script took e Ht Hb Hk Hw) as [Hb' Ht'].
    split_and!; [|done|done|auto|done|].
    + split_and!; [done| |done]. by exists took.
    + intros k. rewrite Hk0. destruct e; simpl; unfold present; simpl; lia.
  - destruct Ht as [Hwr Hok].
    split_and!; [apply later_refl|done| |auto|done|intros; rewrite Hk0; destruct (openForSend s); simpl; lia].
    destruct (openForSend s) eqn:Ho.
    + destruct Hwr. split_and!; [exists []; by rewrite app_nil_r|done|done].
    + apply openForSend_false in Ho. split_and!; naive_solver.
  - split_and!; [apply later_refl|done..|intros; rewrite Hk0; simpl; lia].
  - split_and!; [apply later_cancel|by apply cancel_base|done..|].
    intros k. rewrite Hk0. unfold present, cancel. destruct (negb _); [simpl; lia|].
    destruct (cs_state s); simpl; try lia. destruct (writeCancellation _ _). simpl. lia.
  - split_and!; [apply later_stop|by apply stop_base|done..|].
    intros k. rewrite Hk0. unfold present, stop. destruct (cs_state s); simpl; lia.
  - split_and!; [apply later_stop|by apply stop_base|apply rank_stop|done|done|].
    intros k. rewrite Hk0. unfold present, stop. destruct (cs_state s); simpl; lia.
  - unfold closeLifeline_section in Hcl. simpl in Ht.
    destruct (cs_cancellation s) eqn:Hc; injection Hcl as <- <- <-.
    + split_and!; [|destruct Hb; split; simpl; done || lia|done..|].
      * split_and!; [done| |done]. exists []. by rewrite app_nil_r.
      * intros [|[|[|k]]]; unfold present; simpl; rewrite ?Hc; try destruct k; simpl; lia.
    + split_and!; [apply later_refl|done..|]. intros [|[|[|k]]]; unfold present; simpl; rewrite ?Hc; try destruct k; simpl; lia.
  - split_and!; [apply later_stop|by apply stop_base|apply rank_stop|done|done|].
    intros k. rewrite Hk0. unfold present, stop. destruct (cs_state s); simpl; lia.
  - split_and!; [apply later_refl|done|done|auto|done|intros; rewrite Hk0; simpl; lia].
  - split_and!; [apply later_refl|done|done|done|done|intros; rewrite Hk0; simpl; lia].
  - injection Htk as <- <-. destruct Hb. split_and!; [|split; simpl; done || lia|done|auto|done|].
    + split_and!; [destruct (cs_state s); simpl; lia| |done]. exists []. by rewrite app_nil_r.
    + intros k. rewrite Hk0. unfold present. simpl. destruct k as [|[|[|k]]]; simpl; try destruct k; simpl; lia.
  - simpl in Ht. destruct Hb as [Hf Hl Hu Hc Hlog]. rewrite Ht in *.
    split_and!; [|split; simpl; rewrite ?Ht; done|done|auto|done|].
    + split_and!; [done| |done]. exists []. by rewrite app_nil_r.
    + intros k. unfold present. simpl. lia.
Qed.

(** ** The whole system *)
Record sys_inv sy : Prop := {
  sy_base : base_inv (sy_sender sy);
  sy_thread i t : sy_threads sy !! i = Some t -> thread_inv (sy_sender sy) t;
  sy_mutex i j t u : sy_threads sy !! i = Some t -> sy_threads sy !! j = Some u ->
    holds t = true -> holds u = true -> i = j;
  sy_three : length (sy_closed sy) = 3%nat;
  sy_count k : (k < 3)%nat ->
    (nth k (sy_closed sy) 0 + present k (sy_sender sy) + sum_list (pend k <$> sy_threads sy) = 1)%nat
}.

Lemma count_closes_length closed now : length (count_closes closed now) = length closed.
Proof. revert now; induction closed as [|n closed IH]; intros [|b now]; simpl; auto. Qed.

Lemma count_closes_nth closed now k :
  (k < length closed)%nat ->
  nth k (count_closes closed now) 0%nat = (nth k closed 0 + Nat.b2n (nth k now false))%nat.
Proof.
  revert now k; induction closed as [|n closed IH]; intros [|b now] k Hk; simpl in *; try lia.
  - destruct k; simpl; lia.
  - destruct k; simpl; [destruct b; simpl; lia|]. apply IH. lia.
Qed.

Lemma system_step_inv sy sy' : system_step sy sy' -> sys_inv sy -> sys_inv sy'.
Proof.
  intros [sy0 i t s' t' now Hi Hstep] [Hb Ht Hm H3 Hk]. pose proof (Ht i t Hi) as Hti.
  destruct (thread_step_facts _ _ _ _ _ _ Hstep Hb Hti) as (Hl & Hb' & Ht' & Hh & _ & Hc).
  pose proof (lookup_lt_Some _ _ _ Hi) as Hlen.
  assert (Hother : forall j u, j <> i -> <[i := t']> (sy_threads sy0) !! j = Some u -> sy_threads sy0 !! j = Some u).
  { intros j u Hne. by rewrite list_lookup_insert_ne. }
  assert (Hnew : forall u, <[i := t']> (sy_threads sy0) !! i = Some u -> u = t').
  { intros u. rewrite list_lookup_insert_eq by done. by intros [= ->]. }
  split; cbn [sy_sender sy_threads sy_closed]; [done| | | |].
  - intros j u Hj. destruct (decide (j = i)) as [->|Hne]; [by apply Hnew in Hj as ->|].
    apply Hother in Hj; [|done]. eapply thread_inv_later; [exact Hl| |by eapply Ht].
    intros Hhold. apply not_true_iff_false. intros Hu. apply Hne. by eapply (Hm j i u t).
  - assert (forall j u, j <> i -> <[i := t']> (sy_threads sy0) !! j = Some u -> holds u = true -> holds t' = true -> False) as Hx.
    { intros j u Hne Hj Hu Hht. apply Hother in Hj; [|done]. destruct (Hh Hht) as [Hhold|Hfree].
      - apply Hne. by eapply (Hm j i u t).
      - by rewrite (free_lock_spec _ _ _ Hfree Hj) in Hu. }
    intros j k u v Hj Hv Hu Hhv. destruct (decide (j = i)) as [->|Hji], (decide (k = i)) as [->|Hki]; [done|..].
    + apply Hnew in Hj as ->. exfalso. by eapply Hx.
    + apply Hnew in Hv as ->. exfalso. by eapply Hx.
    + eapply (Hm j k u v); eauto.
  - by rewrite count_closes_length.
  - intros k Hk3. rewrite count_closes_nth by lia. specialize (Hk k Hk3). specialize (Hc k).
    rewrite list_fmap_insert.
    pose proof (sum_list_insert (pend k <$> sy_threads sy0) i (pend k t) (pend k t')) as Hs.
    rewrite list_lookup_fmap, Hi in Hs. specialize (Hs eq_refl). lia.
Qed.

Lemma system_start_inv pipe n : delivered pipe = [] -> sys_inv (system_start pipe n).
Proof.
  intros Hp. assert (forall i t, replicate n Idle !! i = Some t -> t = Idle) as Hidle.
  { intros i t [-> _]%lookup_replicate. done. }
  split; cbn [sy_sender sy_threads sy_closed system_start].
  - split; simpl; try done; [by left|]. by exists [].
  - intros i t ->%Hidle. done.
  - intros i j t u ->%Hidle. done.
  - done.
  - intros k Hk.
    assert (sum_list (pend k <$> replicate n Idle) = 0%nat) as ->.
    { clear. induction n; simpl; [done|]. by destruct k. }
    by destruct k as [|[|[|k]]]; [..|lia].
Qed.

Definition system_reachable (pipe : C) (n : nat) sy : Prop := rtc system_step (system_start pipe n) sy.

Lemma system_reachable_inv pipe n sy : delivered pipe = [] -> system_reachable pipe n sy -> sys_inv sy.
Proof.
  intros Hp Hs. pose proof (system_start_inv pipe n Hp) as Hi. revert Hi.
  induction Hs as [|s1 s2 s3 Hstep _ IH]; [done|]. intros Hi. apply IH. by eapply system_step_inv.
Qed.


(** While the state is open or cancelling all descriptors are there, unclosed. *)
Lemma inv_unclosed sy k :
  sys_inv sy -> (k < 3)%nat -> present k (sy_sender sy) = 1%nat -> nth k (sy_closed sy) 0%nat = 0%nat.
Proof. intros [_ _ _ _ Hk] Hk3 Hp. specialize (Hk k Hk3). lia. Qed.

Lemma cancel_pipe_fixed free s t s' t' now :
  thread_step free s t s' t' now -> cs_state s <> controlOpen -> cs_cancel_pipe s' = cs_cancel_pipe s.
Proof.
  destruct 1; try done; intros Hst.
  - unfold cancel. destruct (negb _); [done|]. by destruct (cs_state s).
  - unfold stop. by destruct (cs_state s).
  - unfold stop. by destruct (cs_state s).
  - unfold closeLifeline_section in *. by destruct (cs_cancellation s); simplify_eq.
  - unfold stop. by destruct (cs_state s).
  - unfold teardown_take in *. by simplify_eq.
Qed.
End Invariant.

(** ** Properties *)

(** C15. However senders, cancellers, the event reader and the final wait
    interleave: only one thread writes at a time, to descriptors that are still
    open; the control pipe has taken whole frames only; the cancellation pipe
    has taken at most one cancellation frame, and nothing while the sender is
    open; and no descriptor is ever closed twice. *)
Theorem control_sender_safe {C} `{!Writer C, !WriterLaws C} (pipe : C) (n : nat) (sy : System C) :
  delivered pipe = [] -> system_reachable pipe n sy ->
  (forall i j t u, sy_threads sy !! i = Some t -> sy_threads sy !! j = Some u ->
     holds t = true -> holds u = true -> i = j)
  /\ (forall i c sent f frames, sy_threads sy !! i = Some (SendWriting c sent f frames) ->
        cs_control (sy_sender sy) = true /\ cs_wake (sy_sender sy) = true
        /\ nth 0 (sy_closed sy) 0%nat = 0%nat /\ nth 2 (sy_closed sy) 0%nat = 0%nat)
  /\ (exists frames, Forall frame_ok frames /\ cs_log (sy_sender sy) = frame_log frames)
  /\ cancel_ok (delivered (cs_cancel_pipe (sy_sender sy)))
  /\ (cs_state (sy_sender sy) = controlOpen -> delivered (cs_cancel_pipe (sy_sender sy)) = [])
  /\ (forall k, (k < 3)%nat -> (nth k (sy_closed sy) 0 <= 1)%nat).
Proof.
  intros Hp Hs. apply system_reachable_inv in Hs as Hinv; [|done]. pose proof Hinv as [[Hf Hl Hu Hc Hlog] Ht Hm _ Hk].
  split_and!; try done.
  - intros i c sent f frames Hi. destruct (Ht i _ Hi) as (_ & _ & _ & Hst).
    destruct (Hf Hst) as [Hcon Hwake].
    split_and!; [done|done|..]; (apply inv_unclosed; [done|lia|]; unfold present; simpl; by rewrite ?Hcon, ?Hwake).
  - intros k Hk3. specialize (Hk k Hk3). lia.
Qed.

(** A send that returned put exactly a prefix of its frames on the control
    pipe, in order and with no other call's frames between them; if it reported
    no error and the sender is still open it put all of them. *)
Theorem control_calls_are_contiguous {C} `{!Writer C, !WriterLaws C} (pipe : C) (n i : nat) (sy : System C) c sent e :
  delivered pipe = [] -> system_reachable pipe n sy -> sy_threads sy !! i = Some (SendDone c sent e) ->
  (exists later, cs_log (sy_sender sy) = call_base c ++ frame_log sent ++ later)
  /\ sent `prefix_of` call_frames c
  /\ (e = None -> cs_state (sy_sender sy) = controlOpen -> sent = call_frames c).
Proof. intros Hp Hs Hi. apply system_reachable_inv in Hs as [_ Ht _ _ _]; [|done]. apply (Ht i _ Hi). Qed.

(** The sender only moves forward: its state never returns to an earlier
    one, the control pipe only grows, the first cancellation is the last word on
    the cancellation pipe, and the descriptors go away only while no write is
    under way. *)
Theorem control_sender_forward {C} `{!Writer C, !WriterLaws C} (pipe : C) (n : nat) (sy sy' : System C) :
  delivered pipe = [] -> system_reachable pipe n sy -> system_step sy sy' ->
  (state_rank (cs_state (sy_sender sy)) <= state_rank (cs_state (sy_sender sy')))%nat
  /\ cs_log (sy_sender sy) `prefix_of` cs_log (sy_sender sy')
  /\ (cs_state (sy_sender sy) <> controlOpen ->
        cs_cancel_pipe (sy_sender sy') = cs_cancel_pipe (sy_sender sy))
  /\ (cs_state (sy_sender sy) <> controlClosed -> cs_state (sy_sender sy') = controlClosed ->
        forall j c sent f frames, sy_threads sy' !! j <> Some (SendWriting c sent f frames)).
Proof.
  intros Hp Hs Hstep. apply system_reachable_inv in Hs as Hinv; [|done].
  pose proof (system_step_inv _ _ Hstep Hinv) as [_ Ht' _ _ _]. destruct Hinv as [Hb Ht _ _ _].
  destruct Hstep as [sy i t s' t' now Hi Hstep]. cbn [sy_sender sy_threads] in *.
  destruct (thread_step_facts _ _ _ _ _ _ Hstep Hb (Ht i t Hi)) as ((Hr & (x & Hx & _) & _) & _).
  split_and!; [done|by exists x|by eapply cancel_pipe_fixed|].
  intros _ Hcl j c sent f frames Hj. destruct (Ht' j _ Hj) as (_ & _ & _ & Hne). done.
Qed.

(** Two threads: one resizes, the other cancels while the write is under way. *)
Definition sample_frame : wireFrame := MkFrame frameResize [x07; x00; x78; x00; x28].
Definition sample_call : Call := MkCall [] [sample_frame].
Definition sample_bytes : list byte := frame_log [sample_frame].

Definition sample_s0 : controlSender (list byte) := newControlSender [].
Definition sample_s1 : controlSender (list byte) := (cancel sample_s0 CancelUser).1.
Definition sample_s2 : controlSender (list byte) := log_write sample_s1 sample_bytes.

Definition sample_sy0 : System (list byte) := MkSystem sample_s0 [SendWriting sample_call [] sample_frame []; Idle] [0; 0; 0]%nat.
Definition sample_sy1 : System (list byte) := MkSystem sample_s1 [SendWriting sample_call [] sample_frame []; Idle] [0; 0; 0]%nat.
Definition sample_sy2 : System (list byte) := MkSystem sample_s2 [SendDone sample_call [sample_frame] None; Idle] [0; 0; 0]%nat.

Lemma step_at {C} `{!Writer C} s threads closed i t s' t' now threads' closed' :
  threads !! i = Some t -> thread_step (free_lock threads) s t s' t' now ->
  threads' = <[i := t']> threads -> closed' = count_closes closed now ->
  system_step (MkSystem s threads closed) (MkSystem s' threads' closed').
Proof. intros Hi Hs -> ->. exact (system_step_thread (MkSystem s threads closed) i t s' t' now Hi Hs). Qed.

Lemma sample_writing : system_reachable ([] : list byte) 2 sample_sy0.
Proof.
  apply rtc_l with (MkSystem sample_s0 [SendWaiting [sample_frame]; Idle] [0; 0; 0]%nat).
  { apply (step_at _ _ _ 0 Idle _ (SendWaiting [sample_frame]) []); try done.
    apply (ts_resize _ _ (MkNumber 7) 120 40). vm_compute. reflexivity. }
  apply rtc_l with (MkSystem sample_s0 [SendLoop sample_call [] [sample_frame]; Idle] [0; 0; 0]%nat).
  { apply (step_at _ _ _ 0 (SendWaiting [sample_frame]) _ (SendLoop sample_call [] [sample_frame]) []); try done.
    by apply (ts_lock _ sample_s0). }
  apply rtc_l with (MkSystem sample_s0 [SendFrame sample_call [] sample_frame []; Idle] [0; 0; 0]%nat).
  { eapply (step_at _ _ _ 0 (SendLoop sample_call [] [sample_frame]) _ _ []); try done. by apply ts_loop_open. }
  apply rtc_l with sample_sy0; [|apply rtc_refl].
  eapply (step_at _ _ _ 0 (SendFrame sample_call [] sample_frame []) _ _ []); try done. by apply ts_frame_open.
Qed.

Lemma sample_cancel : system_step sample_sy0 sample_sy1.
Proof. eapply (step_at _ _ _ 1 Idle _ Idle []); try done. apply ts_cancel. Qed.

Lemma sample_cancelled : system_reachable ([] : list byte) 2 sample_sy1.
Proof. eapply rtc_r; [exact sample_writing|exact sample_cancel]. Qed.

Lemma sample_finished : system_reachable ([] : list byte) 2 sample_sy2.
Proof.
  eapply rtc_r; [eapply rtc_r; [exact sample_cancelled|]|].
  - eapply (step_at _ _ _ 0 (SendWriting sample_call [] sample_frame []) sample_s2
      (SendLoop sample_call [sample_frame] []) []); try done.
    apply (ts_write _ sample_s1 sample_call [] sample_frame [] [AWrite 13] sample_bytes None);
      [repeat constructor|vm_compute; reflexivity].
  - eapply (step_at _ _ _ 0 (SendLoop sample_call [sample_frame] []) _ _ []); try done. apply ts_loop_end.
Qed.

Lemma control_sender_safe_witness :
  cs_control (sy_sender sample_sy1) = true /\ nth 0 (sy_closed sample_sy1) 0%nat = 0%nat
  /\ cancel_ok (cs_cancel_pipe (sy_sender sample_sy1)).
Proof.
  destruct (@control_sender_safe (list byte) memory_writer memory_writer_laws [] 2 sample_sy1) as (_ & Hw & _ & Hc & _);
    [reflexivity|exact sample_cancelled|].
  destruct (Hw 0%nat sample_call [] sample_frame [] eq_refl) as (Hcon & _ & Hz & _).
  exact (conj Hcon (conj Hz Hc)).
Defined.

Lemma control_calls_are_contiguous_witness :
  exists later, cs_log (sy_sender sample_sy2) = frame_log [sample_frame] ++ later.
Proof.
  exact (proj1 (@control_calls_are_contiguous (list byte) memory_writer memory_writer_laws [] 2 0 sample_sy2 sample_call [sample_frame] None
    eq_refl sample_finished eq_refl)).
Defined.

Lemma control_sender_forward_witness :
  (state_rank (cs_state (sy_sender sample_sy0)) <= state_rank (cs_state (sy_sender sample_sy1)))%nat
  /\ cs_state (sy_sender sample_sy1) = controlCancelling.
Proof.
  destruct (@control_sender_forward (list byte) memory_writer memory_writer_laws [] 2 sample_sy0 sample_sy1) as (Hr & _);
    [reflexivity|exact sample_writing|exact sample_cancel|]. split; [exact Hr|vm_compute; reflexivity].
Defined.
