(* ===== verification/Paths.v ===== *)
(** * Text order and slash-separated paths

    The order of Go strings, and the parts of [path/filepath] on Unix that the
    source scan relies on ([Clean], [Base], [IsAbs], [Join]), with
    [normalizeRelativePath] and the base-name checks of
    [internal/sourcefiles/tree.go].  A normalized relative path is one whose
    components are all proper names, so it cannot leave its root. *)
From S2P Require Import Prelude Sorting GoText.

(** ** The order of strings *)
Lemma ascii_compare_lt a b : Ascii.compare a b = Lt <-> (Ascii.N_of_ascii a < Ascii.N_of_ascii b)%N.
Proof. apply N.compare_lt_iff. Qed.

Lemma sltb_spec s t : sltb s t = true <-> String.compare s t = Lt.
Proof. unfold sltb, String.ltb. by destruct (String.compare s t). Qed.

Lemma string_compare_trans s t u :
  String.compare s t = Lt -> String.compare t u = Lt -> String.compare s u = Lt.
Proof.
  revert t u; induction s as [|a s IH]; intros [|b t] [|c u]; simpl; try done.
  destruct (Ascii.compare a b) eqn:E1; [|intros _|done].
  - apply Ascii.compare_eq_iff in E1 as ->. destruct (Ascii.compare b c) eqn:E2; eauto.
  - destruct (Ascii.compare b c) eqn:E2; [|intros _|done].
    + apply Ascii.compare_eq_iff in E2 as ->. by rewrite E1.
    + apply ascii_compare_lt in E1, E2. assert (Ascii.compare a c = Lt) as ->; [|done].
      apply ascii_compare_lt. by eapply N.lt_trans.
Qed.

Lemma string_compare_refl s : String.compare s s = Eq.
Proof.
  induction s as [|a s IH]; simpl; [done|]. assert (Ascii.compare a a = Eq) as ->; [|done].
  unfold Ascii.compare. apply N.compare_refl.
Qed.

Lemma sltb_irrefl s : sltb s s = false.
Proof. unfold sltb, String.ltb. by rewrite string_compare_refl. Qed.

Lemma sltb_trans s t u : sltb s t = true -> sltb t u = true -> sltb s u = true.
Proof. rewrite !sltb_spec. apply string_compare_trans. Qed.

Lemma sltb_asym s t : sltb s t = true -> sltb t s = false.
Proof.
  intros H. apply not_true_iff_false. intros H'. pose proof (sltb_trans s t s H H') as E.
  by rewrite sltb_irrefl in E.
Qed.

(** The order separates strings. *)
Lemma sltb_total s t : sltb s t = false -> sltb t s = false -> s = t.
Proof.
  unfold sltb, String.ltb. rewrite (String.compare_antisym t s).
  destruct (String.compare s t) eqn:E; simpl; try done. by apply String.compare_eq_iff in E.
Qed.

#[export] Instance swo_string {A} (key : A -> string) : StrictWeakOrder (fun x y => sltb (key x) (key y)).
Proof.
  split.
  - intros x. apply sltb_irrefl.
  - intros x y. apply sltb_asym.
  - intros x y z H1 H2. apply not_true_iff_false. intros H3.
    destruct (sltb (key y) (key x)) eqn:E.
    + pose proof (sltb_trans _ _ _ E H3). congruence.
    + pose proof (sltb_total _ _ H1 E) as Heq. rewrite Heq in H3. congruence.
Qed.

(** The reverse of an order, for [a.size > b.size]. *)
#[export] Instance swo_flip {A} (less : A -> A -> bool) `{!StrictWeakOrder less} :
  StrictWeakOrder (fun x y => less y x).
Proof.
  split; intros *.
  - apply swo_irrefl.
  - apply swo_asym.
  - intros H1 H2. by eapply swo_negtrans.
Qed.

(** ** Components *)
Definition slash : Ascii.ascii := Ascii.ascii_of_nat 47.

(** The parts of a string between the separators: never an empty list. *)
Fixpoint split_on (sep : Ascii.ascii) (s : string) : list string :=
  match s with
  | EmptyString => [""]
  | String a s =>
      if Ascii.eqb a sep then "" :: split_on sep s
      else match split_on sep s with
           | c :: cs => String a c :: cs
           | [] => [String a ""]
           end
  end.

(** [strings.Split(path, "/")], [splitRelative] of [scanner.go]. *)
Definition splitRelative (path : string) : list string := split_on slash path.

Fixpoint has_char (sep : Ascii.ascii) (s : string) : bool :=
  match s with
  | EmptyString => false
  | String a s => Ascii.eqb a sep || has_char sep s
  end.

Lemma split_on_cons sep s : exists c cs, split_on sep s = c :: cs.
Proof.
  induction s as [|a s (c & cs & IH)]; simpl; [by do 2 eexists|].
  destruct (Ascii.eqb a sep); [by do 2 eexists|]. rewrite IH. by do 2 eexists.
Qed.

Lemma split_on_no_sep sep s : Forall (fun c => has_char sep c = false) (split_on sep s).
Proof.
  induction s as [|a s IH]; simpl; [by repeat constructor|].
  destruct (Ascii.eqb a sep) eqn:E; [by constructor|].
  destruct (split_on sep s) as [|c cs]; [by repeat constructor; simpl; rewrite E|].
  apply Forall_cons in IH as [Hc Hcs]. constructor; [|done]. simpl. by rewrite E.
Qed.

Lemma split_on_app sep s t :
  has_char sep s = false -> split_on sep (s +:+ String sep t) = s :: split_on sep t.
Proof.
  induction s as [|a s IH]; simpl; [by rewrite Ascii.eqb_refl|].
  intros [Ha Hs]%orb_false_iff. rewrite Ha, IH by done. done.
Qed.

Lemma split_on_one sep s : has_char sep s = false -> split_on sep s = [s].
Proof. induction s as [|a s IH]; simpl; [done|]. intros [Ha Hs]%orb_false_iff. by rewrite Ha, IH. Qed.

(** Joining and splitting are inverse on components without the separator. *)
Lemma split_Join sep cs :
  cs <> [] -> Forall (fun c => has_char sep c = false) cs -> split_on sep (Join cs (String sep "")) = cs.
Proof.
  intros Hne Hf. induction Hf as [|c cs Hc Hcs IH]; [done|].
  destruct cs as [|c' cs]; [by apply split_on_one|].
  change (Join (c :: c' :: cs) (String sep "")) with (c +:+ String sep "" +:+ Join (c' :: cs) (String sep "")).
  change (String sep "" +:+ Join (c' :: cs) (String sep "")) with (String sep (Join (c' :: cs) (String sep ""))).
  rewrite split_on_app by done. by rewrite IH.
Qed.

Lemma Join_split sep s : Join (split_on sep s) (String sep "") = s.
Proof.
  induction s as [|a s IH]; simpl; [done|].
  destruct (split_on_cons sep s) as (c & cs & E). rewrite E in *.
  destruct (Ascii.eqb a sep) eqn:Ea.
  - apply Ascii.eqb_eq in Ea as ->.
    transitivity (String sep (Join (c :: cs) (String sep ""))); [reflexivity|by rewrite IH].
  - transitivity (String a (Join (c :: cs) (String sep ""))); [by destruct cs|by rewrite IH].
Qed.

(** ** [path/filepath] *)
Definition IsAbs (path : string) : bool :=
  match path with String a _ => Ascii.eqb a slash | EmptyString => false end.

(** One component of [Clean]; the stack holds the components kept, last first. *)
Definition clean_step (rooted : bool) (stack : list string) (c : string) : list string :=
  if bool_decide (c = "") || bool_decide (c = ".") then stack
  else if bool_decide (c = "..") then
    match stack with
    | top :: rest => if bool_decide (top = "..") then ".." :: stack else rest
    | [] => if rooted then [] else [".."]
    end
  else c :: stack.

Definition clean_components (path : string) : list string :=
  rev (foldl (clean_step (IsAbs path)) [] (splitRelative path)).

Definition Clean (path : string) : string :=
  match path, clean_components path with
  | EmptyString, _ => "."
  | _, cs =>
      if IsAbs path then "/" +:+ Join cs "/"
      else match cs with [] => "." | _ => Join cs "/" end
  end.

(** [filepath.Join(parent, name)] of two non-empty parts. *)
Definition filepath_Join (parent name : string) : string := Clean (parent +:+ "/" +:+ name).

Definition trim_slashes (cs : list string) : list string :=
  List.filter (fun c => negb (bool_decide (c = ""))) cs.

(** [filepath.Base]: the last component that is not empty. *)
Definition Base (path : string) : string :=
  if bool_decide (path = "") then "."
  else match last (trim_slashes (splitRelative path)) with Some c => c | None => "/" end.

(** ** The source tree's use of paths *)
Definition normalizeRelativePath (path : string) : result string :=
  let cleaned := Clean path in
  if bool_decide (path = "") || IsAbs path || bool_decide (cleaned = ".") || negb (bool_decide (cleaned = path)) then
    Err (ErrText ("source relative path " +:+ Quote path +:+ " is not normalized"))
  else if bool_decide (cleaned = "..") || HasPrefix cleaned "../" then
    Err (ErrText ("source relative path " +:+ Quote path +:+ " escapes its root"))
  else Ok cleaned.

Definition validateBaseName (baseName : string) : option error :=
  if bool_decide (baseName = "") || negb (bool_decide (Base baseName = baseName))
     || bool_decide (baseName = ".") || bool_decide (baseName = "..") then
    Some (ErrText ("source base name " +:+ Quote baseName +:+ " is invalid"))
  else None.

(** On Unix the volume name is empty. *)
Definition validateRootPath (root : string) : result string :=
  if negb (IsAbs root) || negb (bool_decide (Clean root = root))
  then Err (ErrText ("source root " +:+ Quote root +:+ " is not normalized absolute"))
  else if bool_decide (root = "/") then Err (ErrText ("source root cannot be filesystem root " +:+ Quote root))
  else
    let baseName := Base root in
    match validateBaseName baseName with
    | Some e => Err (ErrWrap ("source root " +:+ Quote root +:+ " has no safe base name") e)
    | None => Ok baseName
    end.

Definition joinRelative (parent name : string) : string :=
  if bool_decide (parent = "") then name else filepath_Join parent name.
Definition joinBacking (parent name : string) : string :=
  if bool_decide (parent = ".") then name else filepath_Join parent name.

(** ** What a normalized path is *)
Definition proper_name (c : string) : Prop := c <> "" /\ c <> "." /\ c <> "..".

Lemma clean_step_proper rooted stack c : proper_name c -> clean_step rooted stack c = c :: stack.
Proof. intros (? & ? & ?). unfold clean_step. by repeat (case_bool_decide; [done|]; simpl). Qed.

Lemma clean_proper rooted cs stack :
  Forall proper_name cs -> foldl (clean_step rooted) stack cs = rev cs ++ stack.
Proof.
  intros Hp. revert stack. induction Hp as [|c cs Hc Hcs IH]; intros stack; simpl; [done|].
  by rewrite clean_step_proper, IH, <- app_assoc.
Qed.

(** In a stack of a relative path the ".." entries are at its bottom. *)
Inductive clean_stack : list string -> Prop :=
  | clean_dots n : clean_stack (replicate n "..")
  | clean_name c stack : proper_name c -> has_char slash c = false -> clean_stack stack -> clean_stack (c :: stack).

Lemma clean_step_stack stack c :
  has_char slash c = false -> clean_stack stack -> clean_stack (clean_step false stack c).
Proof.
  intros Hc Hs. unfold clean_step. case_bool_decide; [done|]. case_bool_decide; [done|]. simpl.
  case_bool_decide as Hdd; [|by constructor].
  destruct Hs as [[|n]|t stack Ht Hst Hs]; simpl.
  - apply (clean_dots 1).
  - apply (clean_dots (S (S n))).
  - case_bool_decide; [|done]. by destruct Ht as (_ & _ & ?).
Qed.

Lemma clean_foldl_stack cs stack :
  Forall (fun c => has_char slash c = false) cs -> clean_stack stack ->
  clean_stack (foldl (clean_step false) stack cs).
Proof.
  intros Hf. revert stack. induction Hf as [|c cs Hc Hcs IH]; intros stack Hs; simpl; [done|].
  by apply IH, clean_step_stack.
Qed.

Lemma clean_stack_spec stack :
  clean_stack stack -> exists n names, stack = names ++ replicate n ".." /\ Forall proper_name names
    /\ Forall (fun c => has_char slash c = false) stack.
Proof.
  induction 1 as [n|c stack Hp Hc Hs (n & names & -> & Hn & Hf)].
  - exists n, []. split_and!; [done|done|]. by apply Forall_replicate.
  - exists n, (c :: names). split_and!; [done|by constructor|by constructor].
Qed.

(** The prefix [".." "/"] of a joined list is its first component. *)
Lemma HasPrefix_dots cs c :
  HasPrefix (Join (".." :: c :: cs) "/") "../" = true.
Proof. by destruct cs, c. Qed.

Lemma Clean_relative path :
  IsAbs path = false -> path <> "" ->
  Clean path = match clean_components path with [] => "." | cs => Join cs "/" end.
Proof. intros Ha Hp. unfold Clean.
  destruct path as [|a path]; [done|].
  rewrite Ha. by destruct (clean_components (String a path)). Qed.

Lemma rev_replicate {A} n (x : A) : rev (replicate n x) = replicate n x.
Proof. rewrite rev_alt. apply reverse_replicate. Qed.

Lemma rev_perm {A} (l : list A) : rev l ≡ₚ l.
Proof. symmetry. apply Permutation_rev. Qed.

Lemma HasPrefix_dots_split s : HasPrefix s "../" = true -> exists cs, splitRelative s = ".." :: cs.
Proof.
  intros (t & ->)%HasPrefix_spec. exists (split_on slash t). by apply (split_on_app slash "..").
Qed.

Lemma normalizeRelativePath_Ok path out :
  normalizeRelativePath path = Ok out <-> out = path /\ Forall proper_name (splitRelative path).
Proof.
  assert (Hjoin : Join (splitRelative path) "/" = path) by apply Join_split.
  destruct (split_on_cons slash path) as (c0 & cs0 & Hsplit). fold (splitRelative path) in Hsplit.
  unfold normalizeRelativePath. split.
  - case_bool_decide as Hempty; [done|]. destruct (IsAbs path) eqn:Habs; [done|]. simpl.
    case_bool_decide as Hdot; [done|]. case_bool_decide as Hclean; [|done]. simpl.
    case_bool_decide as Hdd; [done|]. destruct (HasPrefix (Clean path) "../") eqn:Hpre; [done|].
    intros <-%Ok_inj. split; [done|]. rewrite Hclean in *.
    rewrite Clean_relative in Hclean by done.
    pose proof (clean_foldl_stack (splitRelative path) [] (split_on_no_sep slash path) (clean_dots 0)) as Hst.
    apply clean_stack_spec in Hst as (n & names & Hst & Hnames & Hsep).
    unfold clean_components in Hclean. rewrite Habs, Hst, rev_app_distr, rev_replicate in Hclean.
    rewrite Hst in Hsep.
    assert (Forall (fun c => has_char slash c = false) (replicate n ".." ++ rev names)) as Hsep'.
    { eapply Permutation_Forall; [|exact Hsep]. rewrite (rev_perm names) at 1. apply Permutation_app_comm. }
    destruct (replicate n ".." ++ rev names) as [|d ds] eqn:Hds; [done|].
    assert (splitRelative path = d :: ds) as Hpath.
    { rewrite <- Hclean. by apply split_Join. }
    destruct n as [|n]; simpl in Hds.
    + rewrite Hpath, <- Hds. apply Forall_rev. done.
    + injection Hds as <- Hds. exfalso.
      destruct ds as [|d' ds']; [by apply Hdd; rewrite <- Hclean|].
      rewrite <- Hclean in Hpre. by rewrite HasPrefix_dots in Hpre.
  - intros [-> Hp]. 
    assert (path <> "") as Hempty by (intros ->; apply Forall_cons in Hp as [(? & _) _]; done).
    assert (IsAbs path = false) as Habs.
    { destruct path as [|a path]; [done|]. simpl. apply not_true_iff_false. intros Ha.
      unfold splitRelative in Hp. simpl in Hp. rewrite Ha in Hp. apply Forall_cons in Hp as [(? & _) _]. done. }
    assert (Clean path = path) as Hclean.
    { rewrite Clean_relative by done. unfold clean_components.
      rewrite clean_proper, app_nil_r, rev_involutive by done. rewrite Hsplit. by rewrite <- Hsplit. }
    rewrite Hclean, Habs, (bool_decide_eq_false_2 _ Hempty), (bool_decide_eq_true_2 (path = path)) by done. simpl.
    case_bool_decide as Hdot.
    { exfalso. rewrite Hdot in Hp. apply Forall_cons in Hp as [(_ & ? & _) _]. done. }
    simpl. case_bool_decide as Hdd.
    { exfalso. rewrite Hdd in Hp. apply Forall_cons in Hp as [(_ & _ & ?) _]. done. }
    simpl. destruct (HasPrefix path "../") eqn:Hpre; [|done].
    exfalso. apply HasPrefix_dots_split in Hpre as (cs & Hpre). rewrite Hpre in Hp.
    apply Forall_cons in Hp as [(_ & _ & ?) _]. done.
Qed.

(** ** Clean absolute paths *)
Definition rooted_stack (stack : list string) : Prop :=
  Forall proper_name stack /\ Forall (fun c => has_char slash c = false) stack.

Lemma clean_step_rooted stack c :
  has_char slash c = false -> rooted_stack stack -> rooted_stack (clean_step true stack c).
Proof.
  intros Hc [Hs Hf]. unfold clean_step. case_bool_decide; [done|]. case_bool_decide; [done|]. simpl.
  case_bool_decide as Hdd; [|by split; constructor].
  destruct stack as [|top stack]; [done|]. inversion_clear Hs as [|? ? (_ & _ & Ht) ?]. inversion_clear Hf.
  case_bool_decide; [done|]. done.
Qed.

Lemma clean_foldl_rooted cs : forall stack,
  Forall (fun c => has_char slash c = false) cs -> rooted_stack stack -> rooted_stack (foldl (clean_step true) stack cs).
Proof.
  induction cs as [|c cs IH]; intros stack Hf Hs; simpl; [done|]. inversion_clear Hf. apply IH; [done|by apply clean_step_rooted].
Qed.

(** The components of a clean absolute path are its base and its ancestors. *)
Lemma clean_absolute_components path :
  IsAbs path = true -> Clean path = path ->
  exists cs, path = "/" +:+ Join cs "/" /\ Forall proper_name cs /\ Forall (fun c => has_char slash c = false) cs.
Proof.
  intros Ha Hc. exists (clean_components path).
  assert (rooted_stack (foldl (clean_step true) [] (splitRelative path))) as [Hp Hf].
  { apply clean_foldl_rooted; [apply split_on_no_sep|by split]. }
  unfold clean_components. rewrite Ha. split; [|split; by apply Forall_rev].
  rewrite <- Hc at 1. unfold Clean, clean_components. destruct path as [|a path]; [done|]. by rewrite Ha.
Qed.

Lemma trim_slashes_proper cs : Forall proper_name cs -> trim_slashes cs = cs.
Proof.
  unfold trim_slashes. induction 1 as [|c cs (Hc & _) _ IH]; [done|]. simpl. by rewrite bool_decide_eq_false_2, IH.
Qed.

Lemma Base_absolute path :
  IsAbs path = true -> Clean path = path -> path <> "/" -> proper_name (Base path).
Proof.
  intros Ha Hc Hne. destruct (clean_absolute_components path Ha Hc) as (cs & E & Hp & Hf).
  destruct cs as [|c cs]; [by rewrite E in Hne|]. unfold Base. rewrite bool_decide_eq_false_2 by (by intros ->).
  assert (splitRelative path = "" :: c :: cs) as ->.
  { rewrite E. change ("/" +:+ Join (c :: cs) "/") with (String slash (Join (c :: cs) "/")). unfold splitRelative.
    cbn [split_on]. rewrite Ascii.eqb_refl. by rewrite (split_Join slash). }
  assert (trim_slashes ("" :: c :: cs) = c :: cs) as -> by exact (trim_slashes_proper _ Hp).
  destruct (last (c :: cs)) as [b|] eqn:Eb; [|by apply last_None in Eb].
  rewrite Forall_forall in Hp. apply Hp, last_Some_elem_of, Eb.
Qed.

Lemma base_no_slash path :
  IsAbs path = true -> Clean path = path -> path <> "/" -> Base path <> "/".
Proof.
  intros Ha Hc Hne E. pose proof (split_on_no_sep slash path) as Hf. rewrite Forall_forall in Hf.
  unfold Base in E. rewrite bool_decide_eq_false_2 in E by (by intros ->).
  destruct (last (trim_slashes (splitRelative path))) as [c|] eqn:El.
  - subst c. apply last_Some_elem_of, list_elem_of_In, List.filter_In in El as [El _]. apply list_elem_of_In, Hf in El. done.
  - apply last_None in El. destruct (clean_absolute_components path Ha Hc) as (cs & Ep & Hp & Hs).
    destruct cs as [|c cs]; [by rewrite Ep in Hne|]. rewrite Ep in El.
    change ("/" +:+ Join (c :: cs) "/") with (String slash (Join (c :: cs) "/")) in El. unfold splitRelative in El.
    cbn [split_on] in El. rewrite Ascii.eqb_refl, (split_Join slash) in El by done.
    assert (trim_slashes ("" :: c :: cs) = c :: cs) as E' by exact (trim_slashes_proper _ Hp). congruence.
Qed.
