(* ===== verification/Netip.v ===== *)
(** * Internet addresses

    The part of Go's [net/netip] the program uses: an address is the zero value,
    an IPv4 address or an IPv6 address with a zone; a prefix is an address with
    a number of bits, -1 when it is not valid. *)
From S2P Require Import Prelude GoText.

Inductive Addr : Type :=
  | AddrNone
  | Addr4 (v : Z)
  | Addr6 (v : Z) (zone : string).

#[export] Instance Addr_eq_dec : EqDecision Addr.
Proof. solve_decision. Defined.

#[export] Instance Addr_countable : Countable Addr.
Proof.
  refine (inj_countable'
    (fun a => match a with AddrNone => inl () | Addr4 v => inr (inl v) | Addr6 v z => inr (inr (v, z)) end)
    (fun x => match x with inl _ => AddrNone | inr (inl v) => Addr4 v | inr (inr (v, z)) => Addr6 v z end) _).
  by intros [].
Defined.

Definition addr_wf (a : Addr) : Prop :=
  match a with AddrNone => True | Addr4 v => in_u 32 v | Addr6 v _ => in_u 128 v end.

Definition AddrIsValid (a : Addr) : bool := match a with AddrNone => false | _ => true end.
Definition Is4 (a : Addr) : bool := match a with Addr4 _ => true | _ => false end.
Definition Is6 (a : Addr) : bool := match a with Addr6 _ _ => true | _ => false end.
Definition Is4In6 (a : Addr) : bool := match a with Addr6 v _ => v / 2 ^ 32 =? 0xffff | _ => false end.
Definition Unmap (a : Addr) : Addr :=
  match a with Addr6 v _ => if Is4In6 a then Addr4 (v mod 2 ^ 32) else a | _ => a end.
Definition BitLen (a : Addr) : Z := match a with AddrNone => 0 | Addr4 _ => 32 | Addr6 _ _ => 128 end.
Definition addr_bits (a : Addr) : Z := match a with AddrNone => 0 | Addr4 v => v | Addr6 v _ => v end.

(** [AddrFrom4]: the four bytes, most significant first. *)
Definition AddrFrom4 (raw : list byte) : Addr := Addr4 (be_get raw).

(** [Addr.Next]: the zero value after the last address. *)
Definition Next (a : Addr) : Addr :=
  match a with
  | AddrNone => AddrNone
  | Addr4 v => if v =? 2 ^ 32 - 1 then AddrNone else Addr4 (v + 1)
  | Addr6 v z => if v =? 2 ^ 128 - 1 then AddrNone else Addr6 (v + 1) z
  end.

Definition IPv4Broadcast : Addr := Addr4 0xffffffff.

Definition IsUnspecified (a : Addr) : bool := bool_decide (a = Addr4 0) || bool_decide (a = Addr6 0 "").

Definition IsLoopback (a : Addr) : bool :=
  match Unmap a with Addr4 v => v / 2 ^ 24 =? 127 | Addr6 v _ => v =? 1 | AddrNone => false end.

Definition IsMulticast (a : Addr) : bool :=
  match Unmap a with Addr4 v => v / 2 ^ 28 =? 14 | Addr6 v _ => v / 2 ^ 120 =? 0xff | AddrNone => false end.

Definition IsLinkLocalUnicast (a : Addr) : bool :=
  match Unmap a with
  | Addr4 v => v / 2 ^ 16 =? 169 * 256 + 254
  | Addr6 v _ => v / 2 ^ 118 =? 0xfe80 / 2 ^ 6
  | AddrNone => false
  end.

Definition IsGlobalUnicast (a : Addr) : bool :=
  match a with
  | AddrNone => false
  | _ =>
      let a := Unmap a in
      if Is4 a && (bool_decide (a = Addr4 0) || bool_decide (a = IPv4Broadcast)) then false
      else negb (bool_decide (a = Addr6 0 "")) && negb (IsLoopback a) && negb (IsMulticast a)
           && negb (IsLinkLocalUnicast a)
  end.

(** [cmp.Compare] on integers and strings. *)
Definition zcmp (x y : Z) : Z := if x <? y then -1 else if y <? x then 1 else 0.
Definition scmp (x y : string) : Z := if sltb x y then -1 else if sltb y x then 1 else 0.

Definition CompareAddr (x y : Addr) : Z :=
  if negb (BitLen x =? BitLen y) then zcmp (BitLen x) (BitLen y)
  else if negb (addr_bits x =? addr_bits y) then zcmp (addr_bits x) (addr_bits y)
  else match x, y with Addr6 _ zx, Addr6 _ zy => scmp zx zy | _, _ => 0 end.

(** ** Text *)
Definition hex_digit (d : Z) : string :=
  nth (Z.to_nat d) ["0"; "1"; "2"; "3"; "4"; "5"; "6"; "7"; "8"; "9"; "a"; "b"; "c"; "d"; "e"; "f"] "".

(** A 16-bit field in hexadecimal without leading zeros. *)
Definition hex16 (f : Z) : string :=
  (if 0x1000 <=? f then hex_digit (f / 0x1000) else "")
  +:+ (if 0x100 <=? f then hex_digit (f / 0x100 mod 16) else "")
  +:+ (if 0x10 <=? f then hex_digit (f / 0x10 mod 16) else "")
  +:+ hex_digit (f mod 16).

Definition dotted (v : Z) : string :=
  pretty (v / 2 ^ 24) +:+ "." +:+ pretty (v / 2 ^ 16 mod 256) +:+ "." +:+ pretty (v / 2 ^ 8 mod 256)
  +:+ "." +:+ pretty (v mod 256).

Definition fields6 (v : Z) : list Z := (fun i => v / 2 ^ (112 - 16 * Z.of_nat i) mod 2 ^ 16) <$> seq 0 8.

Fixpoint zero_run (fs : list Z) : nat :=
  match fs with f :: fs => if f =? 0 then S (zero_run fs) else 0 | [] => 0 end.

(** The first longest run of at least two zero fields. *)
Definition longest_run (fs : list Z) : nat * nat :=
  foldl (fun '(start, len) i =>
           let n := zero_run (drop i fs) in
           if (2 <=? n)%nat && (len <? n)%nat then (i, n) else (start, len)) (8, 0)%nat (seq 0 8).

Definition string6 (v : Z) : string :=
  let fs := fields6 v in
  let '(start, len) := longest_run fs in
  if (len =? 0)%nat then Join (hex16 <$> fs) ":"
  else Join (hex16 <$> take start fs) ":" +:+ "::" +:+ Join (hex16 <$> drop (start + len) fs) ":".

Definition AddrString (a : Addr) : string :=
  match a with
  | AddrNone => "invalid IP"
  | Addr4 v => dotted v
  | Addr6 v zone =>
      let zone := if bool_decide (zone = "") then "" else "%" +:+ zone in
      if Is4In6 a then "::ffff:" +:+ dotted (v mod 2 ^ 32) +:+ zone else string6 v +:+ zone
  end.

Example string6_examples :
  string6 1 = "::1"%string /\ string6 (0x20010db8 * 2 ^ 96 + 0x1002000) = "2001:db8::100:2000"%string
  /\ string6 0 = "::"%string.
Proof. vm_compute. done. Qed.

(** ** Prefixes *)
Record Prefix : Type := MkPrefix { prefix_ip : Addr; prefix_bits : Z }.

#[export] Instance Prefix_eq_dec : EqDecision Prefix.
Proof. solve_decision. Defined.

Definition zero_prefix : Prefix := MkPrefix AddrNone (-1).

Definition without_zone (a : Addr) : Addr := match a with Addr6 v _ => Addr6 v "" | _ => a end.

Definition PrefixFrom (ip : Addr) (bits : Z) : Prefix :=
  if AddrIsValid ip && (0 <=? bits) && (bits <=? BitLen ip) then MkPrefix (without_zone ip) bits
  else MkPrefix (without_zone ip) (-1).

Definition PrefixIsValid (p : Prefix) : bool := 0 <=? prefix_bits p.

(** The leading [bits] bits. *)
Definition top_bits (a : Addr) (bits : Z) : Z := addr_bits a / 2 ^ (BitLen a - bits).

Definition has_zone (a : Addr) : bool := match a with Addr6 _ z => negb (bool_decide (z = "")) | _ => false end.

Definition Contains (p : Prefix) (ip : Addr) : bool :=
  PrefixIsValid p && negb (has_zone ip) && AddrIsValid ip && (BitLen (prefix_ip p) =? BitLen ip)
  && (top_bits (prefix_ip p) (prefix_bits p) =? top_bits ip (prefix_bits p)).

Definition mask_addr (a : Addr) (bits : Z) : Addr :=
  let keep v n := v / 2 ^ (n - bits) * 2 ^ (n - bits) in
  match a with AddrNone => AddrNone | Addr4 v => Addr4 (keep v 32) | Addr6 v z => Addr6 (keep v 128) "" end.

Definition Masked (p : Prefix) : Prefix :=
  if PrefixIsValid p then MkPrefix (mask_addr (prefix_ip p) (prefix_bits p)) (prefix_bits p) else zero_prefix.

Definition Overlaps (p o : Prefix) : bool :=
  if negb (PrefixIsValid p && PrefixIsValid o) then false
  else if bool_decide (p = o) then true
  else if negb (BitLen (prefix_ip p) =? BitLen (prefix_ip o)) then false
  else
    let bits := Z.min (prefix_bits p) (prefix_bits o) in
    if bits =? 0 then true else top_bits (prefix_ip p) bits =? top_bits (prefix_ip o) bits.

Definition PrefixString (p : Prefix) : string :=
  if PrefixIsValid p then AddrString (prefix_ip p) +:+ "/" +:+ pretty (prefix_bits p) else "invalid Prefix".
