(* ===== verification/Hashing.v ===== *)
(** * Digests and text encodings

    The part of Go's standard library that turns bytes into identities:
    [crypto/sha256], [crypto/hmac] over it, [encoding/hex] and the raw URL
    alphabet of [encoding/base64], each executable and checked on the published
    test vectors. *)
From S2P Require Import Prelude GoText.

(** ** SHA-256 *)
Module Sha256.

(** Fractional parts of the cube roots of the first sixty-four primes. *)
Definition round_constants : list Z :=
  [1116352408; 1899447441; 3049323471; 3921009573; 961987163; 1508970993;
   2453635748; 2870763221; 3624381080; 310598401; 607225278; 1426881987;
   1925078388; 2162078206; 2614888103; 3248222580; 3835390401; 4022224774;
   264347078; 604807628; 770255983; 1249150122; 1555081692; 1996064986;
   2554220882; 2821834349; 2952996808; 3210313671; 3336571891; 3584528711;
   113926993; 338241895; 666307205; 773529912; 1294757372; 1396182291;
   1695183700; 1986661051; 2177026350; 2456956037; 2730485921; 2820302411;
   3259730800; 3345764771; 3516065817; 3600352804; 4094571909; 275423344;
   430227734; 506948616; 659060556; 883997877; 958139571; 1322822218;
   1537002063; 1747873779; 1955562222; 2024104815; 2227730452; 2361852424;
   2428436474; 2756734187; 3204031479; 3329325298].

(** Fractional parts of the square roots of the first eight primes. *)
Definition initial_state : list Z :=
  [1779033703; 3144134277; 1013904242; 2773480762;
   1359893119; 2600822924; 528734635; 1541459225].

Definition add32 (x y : Z) : Z := wrap 32 (x + y).
Definition rotate (n x : Z) : Z := Z.lor (Z.shiftr x n) (wrap 32 (Z.shiftl x (32 - n))).
Definition mix (f : Z -> Z) (a b : Z) (x : Z) : Z := Z.lxor (Z.lxor (rotate a x) (rotate b x)) (f x).

Definition extend (w : list Z) (t : nat) : list Z :=
  let at_ k := nth (t - k) w 0 in
  w ++ [add32 (add32 (mix (fun x => Z.shiftr x 10) 17 19 (at_ 2%nat)) (at_ 7%nat))
          (add32 (mix (fun x => Z.shiftr x 3) 7 18 (at_ 15%nat)) (at_ 16%nat))].

Definition schedule (block : list Z) : list Z := foldl extend block (seq 16 48).

Definition round (state : list Z) (kw : Z) : list Z :=
  match state with
  | [a; b; c; d; e; f; g; h] =>
      let choose := Z.lxor (Z.land e f) (Z.land (Z.lxor e 0xffffffff) g) in
      let majority := Z.lxor (Z.lxor (Z.land a b) (Z.land a c)) (Z.land b c) in
      let t1 := add32 (add32 h (mix (rotate 25) 6 11 e)) (add32 choose kw) in
      let t2 := add32 (mix (rotate 22) 2 13 a) majority in
      [add32 t1 t2; a; b; c; add32 d t1; e; f; g]
  | _ => state
  end.

Definition block_step (state block : list Z) : list Z :=
  zip_with add32 state (foldl round state (zip_with add32 round_constants (schedule block))).

(** The message, a one bit, zeros up to 56 bytes modulo 64, and its bit length. *)
Definition pad (message : list byte) : list byte :=
  message ++ [x80] ++ replicate (Z.to_nat ((55 - zlen message) mod 64)) x00 ++ be_put 8 (8 * zlen message).

Fixpoint chunks (fuel n : nat) (l : list byte) : list (list byte) :=
  match fuel, l with
  | S fuel, _ :: _ => take n l :: chunks fuel n (drop n l)
  | _, _ => []
  end.

Definition words (l : list byte) : list Z := be_get <$> chunks (length l) 4 l.

Definition digest_state (message : list byte) : list Z :=
  foldl (fun state block => block_step state (words block)) initial_state
    (chunks (length (pad message)) 64 (pad message)).

Definition digest (message : list byte) : list byte := mjoin (be_put 4 <$> digest_state message).
End Sha256.

Definition Sum256 : list byte -> list byte := Sha256.digest.

(** [hmac.New(sha256.New, key)], the bytes written to it, and [Sum]. *)
Definition hmac_sha256 (key message : list byte) : list byte :=
  let key := if 64 <? zlen key then Sum256 key else key in
  let key := key ++ replicate (64 - length key) x00 in
  let masked (m : Z) := (fun b => z2b (Z.lxor (b2z b) m)) <$> key in
  Sum256 (masked 0x5c ++ Sum256 (masked 0x36 ++ message)).

Lemma round_length state kw : length (Sha256.round state kw) = length state.
Proof. unfold Sha256.round. by repeat case_match. Qed.

Lemma foldl_round_length kws state : length (foldl Sha256.round state kws) = length state.
Proof.
  revert state; induction kws as [|kw kws IH]; intros state; [done|]. simpl. by rewrite IH, round_length.
Qed.

Lemma block_step_length state block : length state = 8%nat -> length (Sha256.block_step state block) = 8%nat.
Proof. intros H. unfold Sha256.block_step. by rewrite length_zip_with, foldl_round_length, H. Qed.

Lemma digest_state_length message : length (Sha256.digest_state message) = 8%nat.
Proof.
  unfold Sha256.digest_state. generalize (Sha256.chunks (length (Sha256.pad message)) 64 (Sha256.pad message)).
  assert (length Sha256.initial_state = 8%nat) as H by done. revert H. generalize Sha256.initial_state.
  intros state H blocks. revert state H; induction blocks as [|b blocks IH]; intros state H; [done|].
  simpl. by apply IH, block_step_length.
Qed.

Lemma Sum256_length message : length (Sum256 message) = 32%nat.
Proof.
  unfold Sum256, Sha256.digest. pose proof (digest_state_length message) as H. revert H.
  generalize (Sha256.digest_state message). intros l H.
  assert (length (mjoin (be_put 4 <$> l)) = 4 * length l)%nat as ->; [|lia].
  clear H. induction l as [|x l IH]; [done|]. rewrite fmap_cons, mjoin_cons, length_app, be_put_length, IH. simpl. lia.
Qed.

Lemma hmac_length key message : length (hmac_sha256 key message) = 32%nat.
Proof. apply Sum256_length. Qed.

(** ** Hexadecimal *)
Definition EncodeToString (l : list byte) : string := text_of (hex_bytes l).

Definition hex_value (b : byte) : option Z :=
  let v := b2z b in
  if (0x30 <=? v) && (v <=? 0x39) then Some (v - 0x30)
  else if (0x61 <=? v) && (v <=? 0x66) then Some (v - 0x57)
  else if (0x41 <=? v) && (v <=? 0x46) then Some (v - 0x37)
  else None.

Fixpoint hex_decode (l : list byte) : option (list byte) :=
  match l with
  | [] => Some []
  | a :: b :: l => x ← hex_value a; y ← hex_value b; rest ← hex_decode l; Some (z2b (16 * x + y) :: rest)
  | _ => None
  end.

Definition DecodeString (s : string) : option (list byte) := hex_decode (bytes_of s).

Lemma hex_value_char d : 0 <= d < 16 -> hex_value (hex_char d) = Some d.
Proof.
  intros H. assert (d ∈ seqZ 0 16) as Hd by (apply elem_of_seqZ; lia). clear H. revert d Hd.
  apply Forall_forall. by repeat (constructor; [reflexivity|]).
Qed.

Lemma hex_decode_bytes l : hex_decode (hex_bytes l) = Some l.
Proof.
  induction l as [|b l IH]; [done|]. unfold hex_bytes. rewrite fmap_cons, mjoin_cons. simpl. fold (hex_bytes l).
  pose proof (b2z_range b). rewrite !hex_value_char by (Z.to_euclidean_division_equations; lia). simpl. rewrite IH. simpl.
  by rewrite <- Z.div_mod, z2b_b2z by done.
Qed.

Lemma hex_bytes_length l : length (hex_bytes l) = (2 * length l)%nat.
Proof. unfold hex_bytes. induction l as [|b l IH]; [done|]. rewrite fmap_cons, mjoin_cons, length_app, IH. simpl. lia. Qed.

Lemma hex_bytes_inj l k : hex_bytes l = hex_bytes k -> l = k.
Proof. intros H. apply (f_equal hex_decode) in H. rewrite !hex_decode_bytes in H. by injection H. Qed.

Lemma DecodeString_Encode l : DecodeString (EncodeToString l) = Some l.
Proof. unfold DecodeString, EncodeToString. by rewrite bytes_of_text_of, hex_decode_bytes. Qed.

(** A lower-case digit is the digit of its value. *)
Definition lower_hex (b : byte) : bool :=
  ((0x30 <=? b2z b) && (b2z b <=? 0x39)) || ((0x61 <=? b2z b) && (b2z b <=? 0x66)).

Lemma lower_hex_value b : lower_hex b = true -> exists d, hex_value b = Some d /\ 0 <= d < 16 /\ hex_char d = b.
Proof.
  unfold lower_hex, hex_value, hex_char. intros H.
  destruct ((0x30 <=? b2z b) && (b2z b <=? 0x39)) eqn:E1; simpl in H.
  - bool_to_prop. exists (b2z b - 0x30). split_and!; [done|lia..|]. rewrite (proj2 (Z.ltb_lt _ _)) by lia.
    replace (0x30 + (b2z b - 0x30)) with (b2z b) by lia. apply z2b_b2z.
  - rewrite H. bool_to_prop. exists (b2z b - 0x57). split_and!; [done|lia..|]. rewrite (proj2 (Z.ltb_ge _ _)) by lia.
    replace (0x57 + (b2z b - 0x57)) with (b2z b) by lia. apply z2b_b2z.
Qed.

Lemma hex_bytes_decode n l :
  length l = (2 * n)%nat -> forallb lower_hex l = true -> exists r, hex_decode l = Some r /\ hex_bytes r = l /\ length r = n.
Proof.
  revert l; induction n as [|n IH]; intros l Hl Hh.
  { destruct l; [|simpl in Hl; lia]. by exists []. }
  destruct l as [|a [|b l]]; [simpl in Hl; lia..|]. simpl in Hh. bool_to_prop.
  destruct (lower_hex_value a) as (x & Hx & Rx & Cx); [done|]. destruct (lower_hex_value b) as (y & Hy & Ry & Cy); [done|].
  destruct (IH l) as (r & Hr & Er & Lr); [simpl in Hl; lia|done|].
  exists (z2b (16 * x + y) :: r). simpl. rewrite Hx, Hy. simpl. rewrite Hr. split_and!; [done| |simpl; lia].
  unfold hex_bytes. rewrite fmap_cons, mjoin_cons. fold (hex_bytes r). rewrite Er, b2z_z2b_small by lia.
  replace ((16 * x + y) / 16) with x by (Z.to_euclidean_division_equations; lia).
  replace ((16 * x + y) mod 16) with y by (Z.to_euclidean_division_equations; lia). by rewrite Cx, Cy.
Qed.

(** ** The raw URL alphabet of base 64 *)
Definition base64_char (d : Z) : byte :=
  if d <? 26 then z2b (0x41 + d) else if d <? 52 then z2b (0x61 + (d - 26)) else if d <? 62 then z2b (0x30 + (d - 52))
  else if d =? 62 then z2b 0x2d else z2b 0x5f.

Definition base64_value (b : byte) : option Z :=
  let v := b2z b in
  if (0x41 <=? v) && (v <=? 0x5a) then Some (v - 0x41)
  else if (0x61 <=? v) && (v <=? 0x7a) then Some (v - 0x61 + 26)
  else if (0x30 <=? v) && (v <=? 0x39) then Some (v - 0x30 + 52)
  else if v =? 0x2d then Some 62
  else if v =? 0x5f then Some 63
  else None.

(** [n] digits of six bits, most significant first. *)
Fixpoint digits64 (n : nat) (v : Z) : list byte :=
  match n with O => [] | S n => digits64 n (v / 64) ++ [base64_char (v mod 64)] end.

(** [RawURLEncoding.EncodeToString]: three bytes are four digits. *)
Fixpoint base64_encode (fuel : nat) (l : list byte) : list byte :=
  match fuel, l with
  | S fuel, a :: b :: c :: l => digits64 4 (be_get [a; b; c]) ++ base64_encode fuel l
  | S _, [a; b] => digits64 3 (be_get [a; b] * 4)
  | S _, [a] => digits64 2 (be_get [a] * 16)
  | _, _ => []
  end.

Definition RawURLEncode (l : list byte) : string := text_of (base64_encode (length l) l).

Definition base64_number (l : list byte) : option Z :=
  foldl (fun acc b => v ← acc; d ← base64_value b; Some (64 * v + d)) (Some 0) l.

(** [RawURLEncoding.Strict().DecodeString]: line breaks are skipped, the bits
    beyond the last byte must be zero. *)
Fixpoint base64_quanta (fuel : nat) (l : list byte) : option (list byte) :=
  match fuel, l with
  | S fuel, a :: b :: c :: d :: l => v ← base64_number [a; b; c; d]; rest ← base64_quanta fuel l; Some (be_put 3 v ++ rest)
  | S _, [a; b; c] => v ← base64_number [a; b; c]; if v mod 4 =? 0 then Some (be_put 2 (v / 4)) else None
  | S _, [a; b] => v ← base64_number [a; b]; if v mod 16 =? 0 then Some (be_put 1 (v / 16)) else None
  | S _, [a] => None
  | _, _ => Some []
  end.

Definition line_break (b : byte) : bool := (b2z b =? 0x0a) || (b2z b =? 0x0d).

Definition RawURLDecode (s : string) : option (list byte) :=
  let l := filter (fun b => negb (line_break b)) (bytes_of s) in base64_quanta (length l) l.

Lemma base64_char_spec d :
  0 <= d < 64 -> base64_value (base64_char d) = Some d /\ line_break (base64_char d) = false.
Proof.
  intros H. assert (d ∈ seqZ 0 64) as Hd by (apply elem_of_seqZ; lia). clear H. revert d Hd.
  apply Forall_forall. by repeat (constructor; [split; reflexivity|]).
Qed.

Lemma digits64_length n v : length (digits64 n v) = n.
Proof. revert v; induction n as [|n IH]; intros v; [done|]. simpl. rewrite length_app, IH. simpl. lia. Qed.

Lemma digits64_breaks n v : Forall (fun b => line_break b = false) (digits64 n v).
Proof.
  revert v; induction n as [|n IH]; intros v; [constructor|]. simpl. apply Forall_app. split; [apply IH|].
  constructor; [|constructor]. by apply base64_char_spec, Z.mod_pos_bound.
Qed.

Lemma digits64_number n v : base64_number (digits64 n v) = Some (v mod 64 ^ Z.of_nat n).
Proof.
  revert v; induction n as [|n IH]; intros v; [simpl; by rewrite Z.mod_1_r|].
  unfold base64_number in *. cbn [digits64]. rewrite foldl_app, IH. cbn [foldl mbind option_bind].
  destruct (base64_char_spec (v mod 64)) as [-> _]; [by apply Z.mod_pos_bound|]. simpl. f_equal.
  rewrite Nat2Z.inj_succ, Z.pow_succ_r by lia. rewrite Z.rem_mul_r by lia. lia.
Qed.

Lemma base64_encode_breaks fuel l : Forall (fun b => line_break b = false) (base64_encode fuel l).
Proof.
  revert l; induction fuel as [|fuel IH]; intros l; [constructor|].
  destruct l as [|a [|b [|c l]]]; cbn [base64_encode]; [constructor|apply digits64_breaks..|].
  apply Forall_app. split; [apply digits64_breaks|apply IH].
Qed.

Lemma be_put_get_n n l : length l = n -> be_put n (be_get l) = l.
Proof. intros <-. apply be_put_get. Qed.

Lemma base64_quanta_encode fuel fuel' l :
  (length l <= fuel)%nat -> (length (base64_encode fuel l) <= fuel')%nat ->
  base64_quanta fuel' (base64_encode fuel l) = Some l.
Proof.
  revert fuel' l; induction fuel as [|fuel IH]; intros fuel' l Hf Hf'.
  { destruct l; [|simpl in Hf; lia]. by destruct fuel'. }
  destruct l as [|a [|b [|c l]]]; cbn [base64_encode] in Hf' |- *; [by destruct fuel'|..].
  - pose proof (digits64_number 2 (be_get [a] * 16)) as Hn. pose proof (digits64_length 2 (be_get [a] * 16)) as Hl.
    pose proof (be_get_range [a]) as Hr. destruct (digits64 2 _) as [|x [|y [|]]]; try done.
    destruct fuel' as [|fuel']; [simpl in Hf'; lia|]. cbn [base64_quanta]. rewrite Hn. cbn [mbind option_bind].
    simpl length in Hr. change (64 ^ Z.of_nat 2) with 4096. change (256 ^ Z.of_nat 1) with 256 in Hr.
    rewrite (Z.mod_small _ 4096) by lia. rewrite Z.mod_mul, Z.div_mul by lia. simpl. f_equal. by apply (be_put_get_n 1 [a]).
  - pose proof (digits64_number 3 (be_get [a; b] * 4)) as Hn. pose proof (digits64_length 3 (be_get [a; b] * 4)) as Hl.
    pose proof (be_get_range [a; b]) as Hr. destruct (digits64 3 _) as [|x [|y [|z [|]]]]; try done.
    destruct fuel' as [|fuel']; [simpl in Hf'; lia|]. cbn [base64_quanta]. rewrite Hn. cbn [mbind option_bind].
    simpl length in Hr. change (64 ^ Z.of_nat 3) with 262144. change (256 ^ Z.of_nat 2) with 65536 in Hr.
    rewrite (Z.mod_small _ 262144) by lia. rewrite Z.mod_mul, Z.div_mul by lia. rewrite Z.eqb_refl. f_equal. by apply (be_put_get_n 2 [a; b]).
  - rewrite length_app, digits64_length in Hf'.
    pose proof (digits64_number 4 (be_get [a; b; c])) as Hn. pose proof (digits64_length 4 (be_get [a; b; c])) as Hl.
    pose proof (be_get_range [a; b; c]) as Hr. destruct (digits64 4 _) as [|x [|y [|z [|u [|]]]]]; try done.
    destruct fuel' as [|fuel']; [lia|]. cbn [app base64_quanta]. rewrite Hn. cbn [mbind option_bind].
    simpl length in Hr. change (64 ^ Z.of_nat 4) with 16777216. change (256 ^ Z.of_nat 3) with 16777216 in Hr.
    rewrite (Z.mod_small _ 16777216) by lia. simpl in Hf. rewrite IH by lia. rewrite (be_put_get_n 3 [a; b; c]) by done. done.
Qed.

Lemma filter_no_breaks l : Forall (fun b => line_break b = false) l -> filter (fun b => negb (line_break b)) l = l.
Proof. induction 1 as [|b l Hb _ IH]; [done|]. rewrite filter_cons, decide_True, IH by (by rewrite Hb). done. Qed.

Lemma RawURLDecode_Encode l : RawURLDecode (RawURLEncode l) = Some l.
Proof.
  unfold RawURLDecode, RawURLEncode. rewrite bytes_of_text_of, filter_no_breaks by apply base64_encode_breaks.
  by apply base64_quanta_encode.
Qed.

Lemma RawURLEncode_inj l k : RawURLEncode l = RawURLEncode k -> l = k.
Proof. intros H. apply (f_equal RawURLDecode) in H. rewrite !RawURLDecode_Encode in H. by injection H. Qed.

Lemma base64_encode_length fuel l :
  (length l <= fuel)%nat -> Z.of_nat (length (base64_encode fuel l)) = (4 * zlen l + 2) / 3.
Proof.
  revert l; induction fuel as [|fuel IH]; intros l Hf.
  { destruct l; [done|simpl in Hf; lia]. }
  destruct l as [|a [|b [|c l]]]; cbn [base64_encode]; rewrite ?digits64_length; [done..|].
  rewrite length_app, digits64_length, Nat2Z.inj_add, IH by (simpl in Hf; lia). rewrite !zlen_cons.
  replace (4 * (zlen l + 1 + 1 + 1) + 2) with (4 * 3 + (4 * zlen l + 2)) by lia.
  rewrite Z.div_add_l by lia. done.
Qed.

(** ** The published test vectors *)
Example sha256_abc :
  EncodeToString (Sum256 (bytes_of "abc")) = "ba7816bf8f01cfea414140de5dae2223b00361a396177a9cb410ff61f20015ad".
Proof. vm_compute. reflexivity. Qed.

Example hmac_rfc4231_2 :
  EncodeToString (hmac_sha256 (bytes_of "Jefe") (bytes_of "what do ya want for nothing?"))
  = "5bdcc146bf60754e6a042426089575c75a003f089d2739839dec58b964ec3843".
Proof. vm_compute. reflexivity. Qed.

Example base64_foob : RawURLEncode (bytes_of "foob") = "Zm9vYg".
Proof. vm_compute. reflexivity. Qed.
