(* ===== verification/NetipText.v ===== *)
(** * Internet addresses as text

    [netip.ParseAddr] and its inverse [Addr.String] of [Netip].  The two loops of
    the parser keep the fields they have read; the IPv6 loop runs at most eight
    times because the address has eight fields. *)
From S2P Require Import Prelude Utf8 GoText Hashing Netip.

(** [parseAddrError]: what is wrong, and where. *)
Definition addr_error (input message at_ : string) : error :=
  ErrText ("ParseAddr(" +:+ Quote input +:+ "): " +:+ message
             +:+ (if bool_decide (at_ = "") then "" else " (at " +:+ Quote at_ +:+ ")")).

Definition digit_value (b : byte) : option Z := if in_byte 0x30 0x39 b then Some (b2z b - 0x30) else None.

Section Parser.
Context (input : string).

#[local] Abbreviation fail message at_ := (Err (addr_error input message (text_of at_))).

(** [parseIPv4Fields]; [fresh]: no character of the octet has been read. *)
Fixpoint parse4_loop (l : list byte) (fresh : bool) (val : Z) (digLen : nat) (fields : list Z) : result (list Z) :=
  match l with
  | [] => if (length fields <? 3)%nat then fail "IPv4 address too short" [] else Ok (fields ++ [val])
  | b :: rest =>
      match digit_value b with
      | Some d =>
          if (digLen =? 1)%nat && (val =? 0) then fail "IPv4 field has octet with leading zero" []
          else
            let val := val * 10 + d in
            if 255 <? val then fail "IPv4 field has value >255" []
            else parse4_loop rest false val (S digLen) fields
      | None =>
          if Byte.eqb b x2e then
            if fresh || bool_decide (rest = []) then fail "IPv4 field must have at least one digit" l
            else if (length fields =? 3)%nat then fail "IPv4 address too long" []
            else parse4_loop rest true 0 0 (fields ++ [val])
          else fail "unexpected character" l
      end
  end.

(** The hexadecimal number at the head of [s]: its length, value and the rest. *)
Fixpoint hex_group (s : list byte) (off : nat) (acc : Z) (l : list byte) : result (nat * Z * list byte) :=
  match l with
  | [] => Ok (off, acc, [])
  | b :: rest =>
      match hex_value b with
      | Some d =>
          let acc := wrap 32 (acc * 16 + d) in
          if (3 <? off)%nat then fail "each group must have 4 or less digits" s
          else if 0xffff <? acc then fail "IPv6 field has value >=2^16" s
          else hex_group s (S off) acc rest
      | None => Ok (off, acc, l)
      end
  end.

Definition field_pairs (octets : list Z) : list Z :=
  match octets with [a; b; c; d] => [a * 256 + b; c * 256 + d] | _ => [] end.

(** Numbers and colons, until the text or the room for [n] fields ends: the text
    left, the fields, and the position of the ellipsis. *)
Fixpoint parse6_loop (n : nat) (s : list byte) (fields : list Z) (ellipsis : option nat)
    : result (list byte * list Z * option nat) :=
  match n with
  | O => Ok (s, fields, ellipsis)
  | S n =>
      let* '(off, acc, rest) := hex_group s 0 0 s in
      if (off =? 0)%nat then fail "each colon-separated field must have at least one digit" s
      else if bool_decide (head rest = Some x2e) then
        if bool_decide (ellipsis = None) && negb (length fields =? 6)%nat
        then fail "embedded IPv4 address must replace the final 2 fields of the address" s
        else if (8 <? length fields + 2)%nat
        then fail "too many hex fields to fit an embedded IPv4 at the end of the address" s
        else
          let* octets := parse4_loop s true 0 0 [] in
          Ok ([], fields ++ field_pairs octets, ellipsis)
      else
        let fields := fields ++ [acc] in
        match rest with
        | [] => Ok ([], fields, ellipsis)
        | b :: rest' =>
            if negb (Byte.eqb b x3a) then fail "unexpected character, want colon" rest
            else
              match rest' with
              | [] => fail "colon must be followed by more characters" rest
              | c :: rest'' =>
                  if Byte.eqb c x3a then
                    if bool_decide (is_Some ellipsis) then fail "multiple :: in address" rest'
                    else
                      match rest'' with
                      | [] => Ok ([], fields, Some (length fields))
                      | _ :: _ => parse6_loop n rest'' fields (Some (length fields))
                      end
                  else parse6_loop n rest' fields ellipsis
              end
        end
  end.

(** The eight fields of the address. *)
Definition expand_ellipsis (rest : list byte) (fields : list Z) (ellipsis : option nat) : result (list Z) :=
  if negb (bool_decide (rest = [])) then fail "trailing garbage after address" rest
  else if (length fields <? 8)%nat then
    match ellipsis with
    | None => fail "address string too short" []
    | Some e => Ok (take e fields ++ replicate (8 - length fields) 0 ++ drop e fields)
    end
  else if bool_decide (is_Some ellipsis) then fail "the :: must expand to at least one field of zeros" []
  else Ok fields.

Definition from_fields (fields : list Z) : Z := foldl (fun v f => v * 2 ^ 16 + f) 0 fields.

Definition parse6_fields (s : list byte) : result (list Z) :=
  match s with
  | x3a :: x3a :: s =>
      if bool_decide (s = []) then Ok (replicate 8 0)
      else let* '(rest, fields, ellipsis) := parse6_loop 8 s [] (Some 0%nat) in expand_ellipsis rest fields ellipsis
  | _ => let* '(rest, fields, ellipsis) := parse6_loop 8 s [] None in expand_ellipsis rest fields ellipsis
  end.

Definition parseIPv6 : result Addr :=
  let '(s, zone, explicit) := Cut input (Ascii.ascii_of_nat 37) in
  if explicit && bool_decide (zone = "") then fail "zone must be a non-empty string" []
  else let* fields := parse6_fields (bytes_of s) in Ok (Addr6 (from_fields fields) zone).

Definition parseIPv4 : result Addr :=
  let* octets := parse4_loop (bytes_of input) true 0 0 [] in
  Ok (Addr4 (foldl (fun v o => v * 2 ^ 8 + o) 0 octets)).

(** The first of the three characters that tell the forms apart. *)
Fixpoint parse_form (l : list byte) : result Addr :=
  match l with
  | [] => fail "unable to parse IP" []
  | b :: l =>
      match b with
      | x2e => parseIPv4
      | x3a => parseIPv6
      | x25 => fail "missing IPv6 address" []
      | _ => parse_form l
      end
  end.
End Parser.

Definition ParseAddr (s : string) : result Addr := parse_form s (bytes_of s).

(** ** Prefixes *)
(** What is before and after the last slash. *)
Fixpoint last_slash (l : list byte) : list byte * option (list byte) :=
  match l with
  | [] => ([], None)
  | b :: l => match last_slash l with
              | (before, Some after) => (b :: before, Some after)
              | (before, None) => if Byte.eqb b x2f then ([], Some l) else (b :: before, None)
              end
  end.

Definition prefix_error (input message : string) : error :=
  ErrText ("netip.ParsePrefix(" +:+ Quote input +:+ "): " +:+ message).

(** Digits without a sign or a leading zero. *)
Definition plain_decimal (l : list byte) : bool :=
  forallb (in_byte 0x30 0x39) l && (0 <? zlen l) && negb ((1 <? zlen l) && bool_decide (head l = Some x30)).

Definition ParsePrefix (s : string) : result Prefix :=
  match last_slash (bytes_of s) with
  | (_, None) => Err (prefix_error s "no '/'")
  | (before, Some bitsStr) =>
      match ParseAddr (text_of before) with
      | Err e => Err (prefix_error s (error_text e))
      | Ok ip =>
          let bits := foldl (fun v b => v * 10 + (b2z b - 0x30)) 0 bitsStr in
          if has_zone ip then Err (prefix_error s "IPv6 zones cannot be present in a prefix")
          else if negb (plain_decimal bitsStr) then Err (prefix_error s ("bad bits after slash: " +:+ Quote (text_of bitsStr)))
          else if BitLen ip <? bits then Err (prefix_error s "prefix length out of range")
          else Ok (PrefixFrom ip bits)
      end
  end.

Example parse_examples :
  ParseAddr "192.0.2.10" = Ok (Addr4 0xc000020a) /\ is_ok (ParseAddr "192.0.2.010") = false
  /\ is_ok (ParseAddr "192.0.2") = false
  /\ ParseAddr "2001:db8::100:0" = Ok (Addr6 (0x20010db8 * 2 ^ 96 + 0x1000000) "")
  /\ ParseAddr "::ffff:1.2.3.4%e" = Ok (Addr6 (0xffff * 2 ^ 32 + 0x1020304) "e")
  /\ ParseAddr "::" = Ok (Addr6 0 "") /\ is_ok (ParseAddr "1::2::3") = false
  /\ is_ok (ParseAddr "1:2:3:4:5:6:7:8::") = false /\ ParseAddr "1:2:3:4:5:6:7::" = Ok (Addr6 (from_fields [1;2;3;4;5;6;7;0]) "").
Proof. vm_compute. done. Qed.

(** ** What is printed is read back *)
(** The decimal and hexadecimal readers on digits alone. *)
Fixpoint decimal_run (l : list byte) (val : Z) (digLen : nat) : option Z :=
  match l with
  | [] => Some val
  | b :: l =>
      d ← digit_value b;
      if ((digLen =? 1)%nat && (val =? 0)) || (255 <? val * 10 + d) then None else decimal_run l (val * 10 + d) (S digLen)
  end.

Fixpoint hex_run (l : list byte) (off : nat) (acc : Z) : option (nat * Z) :=
  match l with
  | [] => Some (off, acc)
  | b :: l =>
      d ← hex_value b;
      if (3 <? off)%nat || (0xffff <? wrap 32 (acc * 16 + d)) then None else hex_run l (S off) (wrap 32 (acc * 16 + d))
  end.

(** The text of an octet and of a field, checked for every value. *)
Definition octet_text (n : Z) : list byte := bytes_of (pretty n).
Definition field_text (f : Z) : list byte := bytes_of (hex16 f).

Definition octet_ok (n : Z) : bool :=
  bool_decide (decimal_run (octet_text n) 0 0 = Some n)
  && match hex_run (octet_text n) 0 0 with Some (off, _) => (0 <? off)%nat | None => false end.

Lemma all_octets : forallb octet_ok (seqZ 0 256) = true.
Proof. vm_compute. done. Qed.
Lemma in_range_ok (p : Z -> bool) m n : forallb p (seqZ 0 m) = true -> 0 <= n < m -> p n = true.
Proof. rewrite forallb_forall. intros H Hn. apply H, list_elem_of_In, elem_of_seqZ. lia. Qed.

Lemma octet_run n : 0 <= n < 256 ->
  decimal_run (octet_text n) 0 0 = Some n /\ exists off acc, hex_run (octet_text n) 0 0 = Some (S off, acc).
Proof.
  intros H. pose proof (in_range_ok octet_ok _ _ all_octets H) as E. unfold octet_ok in E.
  apply andb_true_iff in E as [E1%bool_decide_eq_true E2]. split; [done|].
  destruct (hex_run _ _ _) as [[[|off] acc]|]; [done|by eauto|done].
Qed.

Lemma bytes_of_hex_digit d : 0 <= d < 16 -> bytes_of (hex_digit d) = [hex_char d].
Proof.
  intros H. pose proof (in_range_ok (fun d => bool_decide (bytes_of (hex_digit d) = [hex_char d])) 16 d) as E.
  eapply bool_decide_eq_true, E; [vm_compute; done|done].
Qed.

Lemma hex_run_char d l off acc :
  0 <= d < 16 -> (off < 4)%nat -> 0 <= acc -> acc * 16 + d < 65536 ->
  hex_run (hex_char d :: l) off acc = hex_run l (S off) (acc * 16 + d).
Proof.
  intros. cbn [hex_run]. rewrite hex_value_char by done. cbn [mbind option_bind].
  rewrite (proj2 (Nat.ltb_ge 3 off)) by lia.
  rewrite wrap_small by (unfold in_u; lia). by rewrite (proj2 (Z.ltb_ge _ _)) by lia.
Qed.

(** A field without its leading zeros: the digits that are written. *)
Lemma field_run f : in_u 16 f -> exists off, hex_run (field_text f) 0 0 = Some (S off, f).
Proof.
  unfold in_u, field_text, hex16. intros H. rewrite !bytes_of_app.
  destruct (0x1000 <=? f) eqn:E3, (0x100 <=? f) eqn:E2, (0x10 <=? f) eqn:E1; bool_to_prop; try lia;
    rewrite ?bytes_of_hex_digit by (Z.to_euclidean_division_equations; lia);
    change (bytes_of "") with (@nil byte); cbn [app];
    rewrite ?hex_run_char by (Z.to_euclidean_division_equations; lia); cbn [hex_run];
    eexists; f_equal; f_equal; Z.to_euclidean_division_equations; lia.
Qed.

Section RoundTrip.
Context (input : string).

Lemma parse4_run l rest fresh val k fields v :
  decimal_run l val k = Some v ->
  exists k', parse4_loop input (l ++ rest) fresh val k fields
             = parse4_loop input rest (match l with [] => fresh | _ => false end) v k' fields.
Proof.
  revert fresh val k; induction l as [|b l IH]; intros fresh val k; simpl; [intros [= ->]; by eauto|].
  destruct (digit_value b) as [d|]; [|done]. simpl. destruct ((k =? 1)%nat && (val =? 0)); [done|].
  destruct (255 <? _); [done|]. intros E. destruct (IH false _ _ E) as [k' ->]. exists k'. by destruct l.
Qed.

Lemma octet_text_cons n : 0 <= n < 256 -> exists b l, octet_text n = b :: l.
Proof.
  intros H. destruct (octet_run n H) as (_ & off & acc & E). destruct (octet_text n); [done|]. by eauto.
Qed.

(** An octet before a dot, and the last one. *)
Lemma parse4_octet n rest fields :
  0 <= n < 256 -> rest <> [] -> (length fields < 3)%nat ->
  parse4_loop input (octet_text n ++ x2e :: rest) true 0 0 fields = parse4_loop input rest true 0 0 (fields ++ [n]).
Proof.
  intros H Hr Hf. destruct (octet_run n H) as (E & _).
  destruct (parse4_run _ (x2e :: rest) true _ _ fields _ E) as [k ->].
  destruct (octet_text_cons n H) as (b & l & ->). simpl. rewrite bool_decide_eq_false_2 by done. simpl.
  by rewrite (proj2 (Nat.eqb_neq _ _)) by lia.
Qed.

Lemma parse4_last n fields :
  0 <= n < 256 -> length fields = 3%nat ->
  parse4_loop input (octet_text n) true 0 0 fields = Ok (fields ++ [n]).
Proof.
  intros H Hf. destruct (octet_run n H) as (E & _). rewrite <- (app_nil_r (octet_text n)).
  destruct (parse4_run _ [] true _ _ fields _ E) as [k ->]. simpl. by rewrite Hf.
Qed.

Definition octets (v : Z) : list Z := [v / 2 ^ 24; v / 2 ^ 16 mod 256; v / 2 ^ 8 mod 256; v mod 256].

Lemma octets_range v : in_u 32 v -> Forall (fun o => 0 <= o < 256) (octets v).
Proof. unfold in_u. intros. repeat constructor; Z.to_euclidean_division_equations; lia. Qed.

Lemma bytes_of_dotted v :
  bytes_of (dotted v) = octet_text (v / 2 ^ 24) ++ x2e :: octet_text (v / 2 ^ 16 mod 256)
                          ++ x2e :: octet_text (v / 2 ^ 8 mod 256) ++ x2e :: octet_text (v mod 256).
Proof. unfold dotted. rewrite !bytes_of_app. done. Qed.

Lemma parse4_dotted v : in_u 32 v -> parse4_loop input (bytes_of (dotted v)) true 0 0 [] = Ok (octets v).
Proof.
  intros H. pose proof (octets_range v H) as Ho. inversion_clear Ho as [|? ? H1 Ho']. inversion_clear Ho' as [|? ? H2 Ho].
  inversion_clear Ho as [|? ? H3 Ho']. inversion_clear Ho' as [|? ? H4 _].
  rewrite bytes_of_dotted.
  rewrite parse4_octet, parse4_octet, parse4_octet, parse4_last; try done; simpl; try lia.
  - by destruct (octet_text_cons _ H4) as (? & ? & ->).
  - by destruct (octet_text_cons _ H3) as (? & ? & ->).
  - by destruct (octet_text_cons _ H2) as (? & ? & ->).
Qed.

Lemma octets_value v : in_u 32 v -> foldl (fun v o => v * 2 ^ 8 + o) 0 (octets v) = v.
Proof. unfold in_u. intros. cbn [octets foldl]. Z.to_euclidean_division_equations. lia. Qed.
(** ** The fields of an IPv6 address *)
Lemma hex_group_run s l rest off acc o a :
  hex_run l off acc = Some (o, a) -> match rest with b :: _ => hex_value b = None | [] => True end ->
  hex_group input s off acc (l ++ rest) = Ok (o, a, rest).
Proof.
  intros E Hr. revert off acc E; induction l as [|b l IH]; intros off acc; cbn [hex_run app].
  - intros [= -> ->]. destruct rest as [|b rest]; [done|]. cbn [hex_group]. by rewrite Hr.
  - cbn [hex_group]. destruct (hex_value b) as [d|]; [|done]. cbn [mbind option_bind].
    destruct (3 <? off)%nat; [done|]. destruct (0xffff <? _); [done|]. apply IH.
Qed.

Definition text6 (fs : list Z) : list byte := bytes_of (Join (hex16 <$> fs) ":").

Lemma text6_cons f g fs : text6 (f :: g :: fs) = field_text f ++ x3a :: text6 (g :: fs).
Proof. unfold text6, field_text. cbn [fmap list_fmap]. cbn [Join]. by rewrite !bytes_of_app. Qed.

Lemma field_text_cons f : in_u 16 f -> exists b l, field_text f = b :: l /\ b <> x3a.
Proof.
  intros H. destruct (field_run f H) as [off E]. destruct (field_text f) as [|b l]; [done|].
  exists b, l. split; [done|]. intros ->. done.
Qed.

Lemma text6_head f fs : in_u 16 f -> exists b l, text6 (f :: fs) = b :: l /\ b <> x3a.
Proof.
  intros H. destruct (field_text_cons f H) as (b & l & E & Hb). destruct fs as [|g fs].
  - exists b, l. done.
  - exists b, (l ++ x3a :: text6 (g :: fs)). rewrite text6_cons, E. done.
Qed.

Lemma parse6_field n f rest fields ellipsis :
  in_u 16 f ->
  parse6_loop input (S n) (field_text f ++ x3a :: rest) fields ellipsis =
    match rest with
    | [] => parse6_loop input (S n) (field_text f ++ [x3a]) fields ellipsis
    | c :: rest' =>
        if Byte.eqb c x3a then
          match ellipsis, rest' with
          | Some _, _ => parse6_loop input (S n) (field_text f ++ x3a :: rest) fields ellipsis
          | None, [] => Ok ([], fields ++ [f], Some (length (fields ++ [f])))
          | None, _ :: _ => parse6_loop input n rest' (fields ++ [f]) (Some (length (fields ++ [f])))
          end
        else parse6_loop input n rest (fields ++ [f]) ellipsis
    end.
Proof.
  intros H. destruct (field_run f H) as [off E]. destruct rest as [|c rest]; [done|].
  destruct (Byte.eqb c x3a) eqn:Hc; [destruct ellipsis; [done|]|];
    cbn [parse6_loop]; rewrite (hex_group_run _ _ (x3a :: _) _ _ _ _ E) by done; cbn; rewrite Hc; done.
Qed.

Lemma parse6_last n f fields ellipsis :
  in_u 16 f -> parse6_loop input (S n) (field_text f) fields ellipsis = Ok ([], fields ++ [f], ellipsis).
Proof.
  intros H. destruct (field_run f H) as [off E].
  assert (hex_group input (field_text f) 0 0 (field_text f) = Ok (S off, f, [])) as Hg.
  { rewrite <- (app_nil_r (field_text f)) at 2. by apply hex_group_run. }
  cbn [parse6_loop]. rewrite Hg. done.
Qed.

(** Fields up to the end of the text. *)
Lemma parse6_fields_run fs : forall n fields ellipsis,
  fs <> [] -> Forall (in_u 16) fs -> (length fs <= n)%nat ->
  parse6_loop input n (text6 fs) fields ellipsis = Ok ([], fields ++ fs, ellipsis).
Proof.
  induction fs as [|f fs IH]; intros n fields ellipsis; [done|]. intros _ Hfs Hn.
  inversion_clear Hfs as [|? ? Hf Hfs']. destruct n as [|n]; [simpl in Hn; lia|].
  destruct fs as [|g fs]; [by apply parse6_last|].
  rewrite text6_cons, parse6_field by done. inversion Hfs' as [|? ? Hg _]; subst.
  destruct (text6_head g fs Hg) as (b & l & E & Hb). rewrite E.
  destruct (Byte.eqb b x3a) eqn:Hc; [by apply Byte.byte_dec_bl in Hc|].
  rewrite <- E, IH; [by rewrite <- app_assoc|done|done|simpl in *; lia].
Qed.

(** Fields, the ellipsis and fields. *)
Lemma parse6_ellipsis_run pre post : forall n fields,
  pre <> [] -> Forall (in_u 16) pre -> Forall (in_u 16) post -> (length pre + length post <= n)%nat ->
  parse6_loop input n (text6 pre ++ x3a :: x3a :: text6 post) fields None
  = Ok ([], fields ++ pre ++ post, Some (length (fields ++ pre))).
Proof.
  induction pre as [|f pre IH]; intros n fields; [done|]. intros _ Hpre Hpost Hn.
  inversion_clear Hpre as [|? ? Hf Hpre']. destruct n as [|n]; [simpl in Hn; lia|]. simpl in Hn.
  destruct pre as [|g pre].
  - change (text6 [f]) with (field_text f). rewrite parse6_field by done. cbn [Byte.eqb].
    destruct post as [|h post].
    { done. }
    inversion Hpost as [|? ? Hh _]; subst. destruct (text6_head h post Hh) as (b & l & E & Hb). rewrite E.
    cbn. rewrite <- E, parse6_fields_run; [by rewrite <- app_assoc|done|done|simpl in *; lia].
  - rewrite text6_cons, <- app_assoc. cbn [app]. rewrite parse6_field by done.
    inversion Hpre' as [|? ? Hg _]; subst. destruct (text6_head g pre Hg) as (b & l & E & Hb). rewrite E. cbn [app].
    destruct (Byte.eqb b x3a) eqn:Hc; [by apply Byte.byte_dec_bl in Hc|].
    change (b :: l ++ x3a :: x3a :: text6 post) with ((b :: l) ++ x3a :: x3a :: text6 post).
    rewrite <- E, IH; [by rewrite <- !app_assoc|done|done|done|simpl in *; lia].
Qed.
End RoundTrip.

(** ** The longest run of zeros *)
Lemma zero_run_spec fs : take (zero_run fs) fs = replicate (zero_run fs) 0 /\ (zero_run fs <= length fs)%nat.
Proof.
  induction fs as [|f fs [IH1 IH2]]; [done|]. simpl. destruct (f =? 0) eqn:E; [|simpl; split; [done|lia]].
  bool_to_prop. subst. simpl. split; [by rewrite IH1|lia].
Qed.

Definition zeros_at (fs : list Z) (start len : nat) : Prop :=
  len = 0%nat \/ ((2 <= len)%nat /\ (start + len <= length fs)%nat
                  /\ fs = take start fs ++ replicate len 0 ++ drop (start + len) fs).

Lemma longest_run_from fs steps : forall start len,
  zeros_at fs start len ->
  let '(start, len) :=
    foldl (fun '(start, len) i =>
             let n := zero_run (drop i fs) in
             if (2 <=? n)%nat && (len <? n)%nat then (i, n) else (start, len)) (start, len) steps in
  zeros_at fs start len.
Proof.
  induction steps as [|i steps IH]; intros start len H; [done|]. cbn [foldl].
  destruct (2 <=? zero_run (drop i fs))%nat eqn:E1; cbn [andb]; [|by apply IH].
  destruct (len <? zero_run (drop i fs))%nat eqn:E2; [|by apply IH]. apply IH. right.
  apply Nat.leb_le in E1. destruct (zero_run_spec (drop i fs)) as [Hz Hl]. rewrite length_drop in Hl.
  split_and!; [done|lia|]. rewrite <- Hz, <- drop_drop, take_drop. by rewrite take_drop.
Qed.

Lemma longest_run_spec fs : let '(start, len) := longest_run fs in zeros_at fs start len.
Proof. apply longest_run_from. by left. Qed.

Lemma fields6_length v : length (fields6 v) = 8%nat.
Proof. done. Qed.

Lemma fields6_range v : Forall (in_u 16) (fields6 v).
Proof.
  unfold fields6. apply Forall_fmap, Forall_true. intros i. unfold in_u. cbn. apply Z.mod_pos_bound. lia.
Qed.

Lemma fields6_value v : in_u 128 v -> from_fields (fields6 v) = v.
Proof.
  intros H. unfold in_u in H.
  change (fields6 v) with ((fun k => v / 2 ^ (16 * k) mod 2 ^ 16) <$> [7; 6; 5; 4; 3; 2; 1; 0]).
  unfold from_fields. cbn [fmap list_fmap foldl].
  assert (forall k k', 0 <= k -> k' = k + 1 -> v / 2 ^ (16 * k') * 2 ^ 16 + v / 2 ^ (16 * k) mod 2 ^ 16 = v / 2 ^ (16 * k)) as Hs.
  { intros k ? Hk ->. replace (16 * (k + 1)) with (16 * k + 16) by lia. rewrite Z.pow_add_r, <- Z.div_div by lia.
    pose proof (Z.div_mod (v / 2 ^ (16 * k)) (2 ^ 16) ltac:(lia)). lia. }
  rewrite (Z.mod_small (v / 2 ^ (16 * 7))) by (split; [apply Z.div_pos; lia|apply Z.div_lt_upper_bound; lia]).
  rewrite Z.add_0_l, (Hs 6 7), (Hs 5 6), (Hs 4 5), (Hs 3 4), (Hs 2 3), (Hs 1 2), (Hs 0 1) by lia. apply Z.div_1_r.
Qed.

Section RoundTrip6.
Context (input : string).

Lemma parse6_fields_plain b l :
  b <> x3a ->
  parse6_fields input (b :: l)
  = let* '(rest, fields, ellipsis) := parse6_loop input 8 (b :: l) [] None in expand_ellipsis input rest fields ellipsis.
Proof. intros H. by destruct b. Qed.

Lemma expand_at pre post :
  (length pre + length post < 8)%nat ->
  expand_ellipsis input [] (pre ++ post) (Some (length pre))
  = Ok (pre ++ replicate (8 - (length pre + length post)) 0 ++ post).
Proof.
  intros H. unfold expand_ellipsis. rewrite bool_decide_eq_true_2 by done. cbn [negb].
  rewrite length_app, (proj2 (Nat.ltb_lt _ _)) by lia. by rewrite take_app_length, drop_app_length.
Qed.

Lemma bytes_of_string6 v :
  bytes_of (string6 v) =
    let '(start, len) := longest_run (fields6 v) in
    if (len =? 0)%nat then text6 (fields6 v)
    else text6 (take start (fields6 v)) ++ x3a :: x3a :: text6 (drop (start + len) (fields6 v)).
Proof.
  unfold string6. destruct (longest_run (fields6 v)) as [start len]. destruct (len =? 0)%nat; [done|].
  by rewrite !bytes_of_app.
Qed.

Lemma text6_plain f fs :
  Forall (in_u 16) (f :: fs) -> forall rest,
  parse6_fields input (text6 (f :: fs) ++ rest)
  = let* '(rest, fields, ellipsis) := parse6_loop input 8 (text6 (f :: fs) ++ rest) [] None in
    expand_ellipsis input rest fields ellipsis.
Proof.
  intros H rest. inversion_clear H as [|? ? Hf _]. destruct (text6_head f fs Hf) as (b & l & E & Hb). rewrite E.
  by apply parse6_fields_plain.
Qed.

Lemma parse6_string6 v : parse6_fields input (bytes_of (string6 v)) = Ok (fields6 v).
Proof.
  rewrite bytes_of_string6. pose proof (longest_run_spec (fields6 v)) as Hz. pose proof (fields6_range v) as Hr.
  pose proof (fields6_length v) as Hl. destruct (longest_run (fields6 v)) as [start len].
  destruct (len =? 0)%nat eqn:E0.
  - revert Hr Hl. generalize (fields6 v). intros [|f fs] Hr Hl; [done|]. rewrite <- (app_nil_r (text6 _)), text6_plain by done.
    rewrite app_nil_r, parse6_fields_run by (done || lia). cbn [rbind app]. unfold expand_ellipsis.
    rewrite bool_decide_eq_true_2 by done. cbn [negb]. by rewrite Hl.
  - apply Nat.eqb_neq in E0. destruct Hz as [?|(H2 & Hlen & Hfs)]; [done|]. revert Hfs Hr.
    set (pre := take start (fields6 v)). set (post := drop (start + len) (fields6 v)). intros Hfs Hr.
    assert (length pre = start /\ length post = 8 - (start + len))%nat as [Hpre Hpost].
    { unfold pre, post. rewrite length_take, length_drop. lia. }
    rewrite Hfs. rewrite Hfs in Hr. apply Forall_app in Hr as [Hr1 Hr]. apply Forall_app in Hr as [_ Hr2].
    replace len with (8 - (length pre + length post))%nat by lia. rewrite <- expand_at by lia.
    clearbody pre post. clear Hfs. destruct pre as [|f pre].
    + cbn [app]. change (text6 []) with (@nil byte). cbn [app parse6_fields]. destruct post as [|h post]; [done|].
      inversion Hr2 as [|? ? Hh _]; subst.
      destruct (text6_head h post Hh) as (b & l & E & _). rewrite E, bool_decide_eq_false_2 by done.
      rewrite <- E, parse6_fields_run by (done || lia). done.
    + rewrite text6_plain, parse6_ellipsis_run by (done || lia). done.
Qed.
End RoundTrip6.

(** ** Telling the forms apart *)
Definition hex_byte (b : byte) : Prop := is_Some (hex_value b).
Definition addr_byte (b : byte) : Prop := hex_byte b \/ b = x3a \/ b = x2e.

Lemma hex_run_bytes l off acc r : hex_run l off acc = Some r -> Forall hex_byte l.
Proof.
  revert off acc; induction l as [|b l IH]; intros off acc; cbn [hex_run]; [by constructor|].
  unfold hex_byte. destruct (hex_value b) as [d|] eqn:E; [|done]. cbn [mbind option_bind].
  destruct ((3 <? off)%nat || _); [done|]. constructor; [by rewrite E|by eapply IH].
Qed.

Lemma field_text_hex f : in_u 16 f -> Forall hex_byte (field_text f).
Proof. intros H. destruct (field_run f H) as [off E]. by eapply hex_run_bytes. Qed.

Lemma octet_text_hex n : 0 <= n < 256 -> Forall hex_byte (octet_text n).
Proof. intros H. destruct (octet_run n H) as (_ & off & acc & E). by eapply hex_run_bytes. Qed.

Lemma text6_bytes fs : Forall (in_u 16) fs -> Forall addr_byte (text6 fs).
Proof.
  induction fs as [|f fs IH]; intros H; [by constructor|]. inversion_clear H as [|? ? Hf Hfs].
  assert (Forall addr_byte (field_text f)) as Ht by (eapply Forall_impl; [by apply field_text_hex|by left]).
  destruct fs as [|g fs]; [done|]. rewrite text6_cons. apply Forall_app. split; [done|].
  constructor; [by right; left|]. by apply IH.
Qed.

Lemma dotted_bytes v : in_u 32 v -> Forall addr_byte (bytes_of (dotted v)).
Proof.
  intros H. pose proof (octets_range v H) as Ho. rewrite bytes_of_dotted.
  assert (forall n, n ∈ octets v -> Forall addr_byte (octet_text n)) as Ht.
  { intros n Hn. eapply Forall_impl; [apply octet_text_hex; by eapply (proj1 (Forall_forall _ _) Ho)|by left]. }
  repeat (apply Forall_app; split; [apply Ht; set_solver|constructor; [by right; right|]]). apply Ht. set_solver.
Qed.

Lemma string6_bytes v : Forall addr_byte (bytes_of (string6 v)).
Proof.
  rewrite bytes_of_string6. pose proof (fields6_range v) as Hr. destruct (longest_run _) as [start len].
  destruct (len =? 0)%nat; [by apply text6_bytes|].
  apply Forall_app. split; [by apply text6_bytes, Forall_take|].
  do 2 (constructor; [by right; left|]). by apply text6_bytes, Forall_drop.
Qed.

Lemma parse_form_skip input l rest :
  Forall hex_byte l -> parse_form input (l ++ rest) = parse_form input rest.
Proof.
  induction 1 as [|b l Hb _ IH]; [done|]. cbn [app parse_form]. destruct Hb as [d Hb].
  destruct b; try done; vm_compute in Hb; discriminate Hb.
Qed.

(** A colon is the first mark of a printed IPv6 address. *)
Lemma string6_colon v : exists l rest, bytes_of (string6 v) = l ++ x3a :: rest /\ Forall hex_byte l.
Proof.
  rewrite bytes_of_string6. pose proof (fields6_range v) as Hr. pose proof (fields6_length v) as Hl.
  destruct (longest_run _) as [start len]. revert Hr Hl. generalize (fields6 v). intros fs Hr Hl.
  assert (forall gs rest, Forall (in_u 16) gs ->
    exists l rest', text6 gs ++ x3a :: rest = l ++ x3a :: rest' /\ Forall hex_byte l) as Ht.
  { intros gs rest Hg. destruct Hg as [|g gs Hg _]; [by exists [], rest|].
    destruct gs as [|h gs]; [exists (field_text g), rest; by auto using field_text_hex|].
    rewrite text6_cons, <- app_assoc. eexists (field_text g), _. by auto using field_text_hex. }
  destruct (len =? 0)%nat; [|by apply Ht, Forall_take].
  destruct fs as [|f [|g fs]]; [done|done|]. inversion_clear Hr. rewrite text6_cons.
  eexists (field_text f), _. by auto using field_text_hex.
Qed.

Lemma Cut_percent s zone :
  Forall addr_byte (bytes_of s) ->
  Cut s (Ascii.ascii_of_nat 37) = (s, "", false)
  /\ Cut (s +:+ "%" +:+ zone) (Ascii.ascii_of_nat 37) = (s, zone, true).
Proof.
  induction s as [|a s IH]; intros H; [done|].
  change (bytes_of (String a s)) with (Ascii.byte_of_ascii a :: bytes_of s) in H. inversion_clear H as [|? ? Ha Hs].
  destruct (IH Hs) as [IH1 IH2].
  change (String a s +:+ "%" +:+ zone) with (String a (s +:+ "%" +:+ zone)). cbn [Cut].
  destruct (Ascii.eqb a (Ascii.ascii_of_nat 37)) eqn:E; [|by rewrite IH1, IH2].
  apply Ascii.eqb_eq in E as ->. exfalso. destruct Ha as [[d Hd]|[Hd|Hd]]; vm_compute in Hd; discriminate Hd.
Qed.

Lemma append_empty s : s +:+ "" = s.
Proof. apply bytes_of_inj. rewrite bytes_of_app. apply app_nil_r. Qed.

Lemma parseIPv6_zone s zone fields :
  Forall addr_byte (bytes_of s) ->
  let input := s +:+ (if bool_decide (zone = "") then "" else "%" +:+ zone) in
  parse6_fields input (bytes_of s) = Ok fields -> parseIPv6 input = Ok (Addr6 (from_fields fields) zone).
Proof.
  intros Hs input H. unfold parseIPv6. destruct (Cut_percent s zone Hs) as [C1 C2]. revert H. unfold input.
  destruct (bool_decide (zone = "")) eqn:Ez.
  - apply bool_decide_eq_true in Ez as ->. rewrite append_empty, C1. cbn. by intros ->.
  - rewrite C2, Ez. cbn. by intros ->.
Qed.

Lemma parse_form_string6 input s zone :
  input = string6 s +:+ zone -> parse_form input (bytes_of input) = parseIPv6 input.
Proof.
  intros E. rewrite E at 2. rewrite bytes_of_app. destruct (string6_colon s) as (l & rest & -> & Hl).
  by rewrite <- app_assoc, parse_form_skip.
Qed.

Definition mapped_text (v : Z) : string := "::ffff:" +:+ dotted (v mod 2 ^ 32).

Lemma parse6_mapped input v :
  in_u 128 v -> v / 2 ^ 32 = 0xffff ->
  exists fields, parse6_fields input (bytes_of (mapped_text v)) = Ok fields /\ from_fields fields = v.
Proof.
  intros Hv Hm.
  assert (exists w, in_u 32 w /\ v = w + 0xffff * 2 ^ 32) as (w & Hw & ->).
  { exists (v mod 2 ^ 32). unfold in_u. Z.to_euclidean_division_equations. lia. }
  unfold mapped_text. rewrite Z_mod_plus_full, Z.mod_small, bytes_of_app by done.
  change (bytes_of "::ffff:") with (x3a :: x3a :: field_text 0xffff ++ [x3a]). cbn [app parse6_fields].
  rewrite bool_decide_eq_false_2 by done. rewrite <- app_assoc. cbn [app].
  pose proof (octets_range w Hw) as Ho. inversion_clear Ho as [|? ? H1 _].
  destruct (octet_run _ H1) as (_ & off & acc & E).
  assert (hex_group input (bytes_of (dotted w)) 0 0 (bytes_of (dotted w))
          = Ok (S off, acc, x2e :: octet_text (w / 2 ^ 16 mod 256) ++ x2e :: octet_text (w / 2 ^ 8 mod 256)
                                 ++ x2e :: octet_text (w mod 256))) as Hg.
  { rewrite bytes_of_dotted at 2. by apply hex_group_run. }
  rewrite parse6_field by done.
  destruct (bytes_of (dotted w)) as [|c rest] eqn:Ec; [rewrite bytes_of_dotted in Ec; by destruct (octet_text _)|].
  assert (hex_byte c) as Hc.
  { rewrite bytes_of_dotted in Ec. pose proof (octet_text_hex _ H1) as Hh.
    destruct (octet_text_cons _ H1) as (b & l & El). rewrite El in Ec, Hh. injection Ec as <- _. by inversion Hh. }
  destruct (Byte.eqb c x3a) eqn:Hx; [apply Byte.byte_dec_bl in Hx as ->; destruct Hc as [? Hc]; discriminate Hc|].
  rewrite <- Ec in *. cbn [parse6_loop]. rewrite Hg. cbn. rewrite parse4_dotted by done. cbn [rbind].
  eexists. split; [reflexivity|]. unfold octets, field_pairs, from_fields. cbn. unfold in_u in Hw.
  Z.to_euclidean_division_equations. lia.
Qed.

Lemma dotted_form input v rest : in_u 32 v -> input = dotted v +:+ rest -> parse_form input (bytes_of input) = parseIPv4 input.
Proof.
  intros H E. rewrite E at 2. rewrite bytes_of_app, bytes_of_dotted, <- app_assoc.
  pose proof (octets_range v H) as Ho. inversion_clear Ho as [|? ? H1 _]. by rewrite parse_form_skip by by apply octet_text_hex.
Qed.

Lemma ParseAddr_AddrString a : addr_wf a -> AddrIsValid a = true -> ParseAddr (AddrString a) = Ok a.
Proof.
  intros Hwf Hv. unfold ParseAddr. destruct a as [|v|v zone]; [done| |]; cbn [AddrString addr_wf] in *.
  - rewrite (dotted_form _ v "") by (done || by rewrite append_empty).
    unfold parseIPv4. rewrite parse4_dotted by done. cbn [rbind]. by rewrite octets_value.
  - destruct (Is4In6 (Addr6 v zone)) eqn:E.
    + cbn [Is4In6] in E. apply Z.eqb_eq in E.
      set (suffix := if bool_decide (zone = "") then "" else "%" +:+ zone).
      change (parse_form (mapped_text v +:+ suffix) (x3a :: bytes_of (":ffff:" +:+ dotted (v mod 2 ^ 32) +:+ suffix)) = Ok (Addr6 v zone)).
      cbn [parse_form]. destruct (parse6_mapped (mapped_text v +:+ suffix) v Hwf E) as (fields & Hf & Hval).
      assert (parseIPv6 (mapped_text v +:+ suffix) = Ok (Addr6 (from_fields fields) zone)) as ->; [|by rewrite Hval].
      apply (parseIPv6_zone (mapped_text v) zone fields); [|done].
      unfold mapped_text. rewrite bytes_of_app. apply Forall_app. split; [|apply dotted_bytes, Z.mod_pos_bound; lia].
      change (bytes_of "::ffff:") with [x3a; x3a; x66; x66; x66; x66; x3a].
      repeat (apply Forall_cons_2; [first [by right; left | left; exists 15; reflexivity]|]). by constructor.
    + rewrite (parse_form_string6 _ v _ eq_refl).
      rewrite (parseIPv6_zone (string6 v) zone (fields6 v)); [by rewrite fields6_value|apply string6_bytes|].
      apply parse6_string6.
Qed.

(** ** IPv4 texts are canonical

    The parser refuses leading zeros, so it reads an IPv4 address from one text
    only. *)
Lemma decimal_run_app l1 l2 val k :
  decimal_run (l1 ++ l2) val k = (v ← decimal_run l1 val k; decimal_run l2 v (length l1 + k)).
Proof.
  revert val k; induction l1 as [|b l1 IH]; intros val k; [done|]. cbn [app decimal_run length].
  destruct (digit_value b) as [d|]; [|done]. cbn [mbind option_bind]. destruct (_ || _); [done|].
  rewrite IH. by replace (length l1 + S k)%nat with (S (length l1) + k)%nat by lia.
Qed.

Lemma decimal_run_range l val k v : decimal_run l val k = Some v -> 0 <= val < 256 -> 0 <= v < 256.
Proof.
  revert val k; induction l as [|b l IH]; intros val k; cbn [decimal_run]; [by intros [= ->]|].
  unfold digit_value. destruct (in_byte 0x30 0x39 b) eqn:Eb; [|done]. cbn [mbind option_bind].
  destruct (_ || (255 <? _)) eqn:E; [done|]. unfold in_byte in Eb. bool_to_prop. intros Hr Hv. apply (IH _ _ Hr). lia.
Qed.

Definition digit_bytes : list byte := (fun d => z2b (0x30 + d)) <$> seqZ 0 10.

Lemma digit_value_elem b d : digit_value b = Some d -> b ∈ digit_bytes /\ 0 <= d < 10.
Proof.
  unfold digit_value. destruct (in_byte 0x30 0x39 b) eqn:E; [|done]. intros [= <-]. unfold in_byte in E. bool_to_prop.
  split; [|lia]. apply list_elem_of_fmap. exists (b2z b - 0x30). split; [|apply elem_of_seqZ; lia].
  rewrite <- (z2b_b2z b) at 1. f_equal. lia.
Qed.

Definition canonical_octet (t : list byte) : bool :=
  match decimal_run t 0 0 with Some n => bool_decide (t = octet_text n) | None => true end.

Lemma short_octets :
  forallb (fun b => canonical_octet [b]
    && forallb (fun c => canonical_octet [b; c] && forallb (fun d => canonical_octet [b; c; d]) digit_bytes) digit_bytes)
    digit_bytes = true.
Proof. vm_compute. done. Qed.

Lemma forallb_elem {A} (p : A -> bool) l x : forallb p l = true -> x ∈ l -> p x = true.
Proof. rewrite forallb_forall. intros H Hx. by apply H, list_elem_of_In. Qed.

Lemma decimal_run_step b l val k v :
  decimal_run (b :: l) val k = Some v ->
  exists d, b ∈ digit_bytes /\ 0 <= d < 10 /\ (k <> 1%nat \/ val <> 0) /\ val * 10 + d <= 255
            /\ decimal_run l (val * 10 + d) (S k) = Some v.
Proof.
  cbn [decimal_run]. destruct (digit_value b) as [d|] eqn:Eb; [|done]. cbn [mbind option_bind].
  destruct (_ || (255 <? _)) eqn:E; [done|]. intros H. apply digit_value_elem in Eb as [? ?]. exists d.
  apply orb_false_iff in E as [E1 E2]. split; [done|]. split; [done|].
  split; [|split; [by apply Z.ltb_ge|done]]. destruct (Nat.eq_dec k 1%nat) as [->|]; [|by left]. right. intros ->. done.
Qed.

Lemma canonical_octet_text t n : t <> [] -> decimal_run t 0 0 = Some n -> t = octet_text n.
Proof.
  intros Hne E. pose proof short_octets as Hs.
  destruct t as [|b t]; [case (Hne eq_refl)|]. destruct (decimal_run_step _ _ _ _ _ E) as (d1 & Hb & Hd1 & _ & _ & E1).
  apply (forallb_elem _ _ _ Hs) in Hb. apply andb_true_iff in Hb as [C1 Hs1].
  assert (forall t, decimal_run t 0 0 = Some n -> canonical_octet t = true -> t = octet_text n) as Hc.
  { intros t' E'. unfold canonical_octet. rewrite E'. by rewrite bool_decide_eq_true. }
  destruct t as [|c t]; [by apply Hc|].
  destruct (decimal_run_step _ _ _ _ _ E1) as (d2 & Hc2 & Hd2 & [?|Hz] & _ & E2); [lia|].
  apply (forallb_elem _ _ _ Hs1) in Hc2. apply andb_true_iff in Hc2 as [C2 Hs2].
  destruct t as [|d t]; [by apply Hc|].
  destruct (decimal_run_step _ _ _ _ _ E2) as (d3 & Hc3 & Hd3 & _ & _ & E3).
  apply (forallb_elem _ _ _ Hs2) in Hc3. destruct t as [|e t]; [by apply Hc|].
  destruct (decimal_run_step _ _ _ _ _ E3) as (d4 & _ & Hd4 & _ & ? & _). lia.
Qed.

(** The texts of the octets the loop reads, [ds] being the digits read of the
    current one. *)
Fixpoint dot_joined (ts : list (list byte)) : list byte :=
  match ts with [] => [] | [t] => t | t :: ts => t ++ x2e :: dot_joined ts end.

Lemma dot_joined_cons t ts : ts <> [] -> dot_joined (t :: ts) = t ++ x2e :: dot_joined ts.
Proof. by destruct ts. Qed.

Lemma parse4_loop_Ok input l : forall ds val fields fs,
  parse4_loop input l (bool_decide (ds = [])) val (length ds) fields = Ok fs ->
  decimal_run ds 0 0 = Some val -> (ds = [] -> l <> []) -> (length fields <= 3)%nat ->
  exists ts ns, ds ++ l = dot_joined ts /\ Forall2 (fun t n => t <> [] /\ decimal_run t 0 0 = Some n) ts ns
                /\ fs = fields ++ ns /\ length fs = 4%nat.
Proof.
  induction l as [|b l IH]; intros ds val fields fs E Hd Hl Hf; cbn [parse4_loop] in E.
  - destruct (length fields <? 3)%nat eqn:E3; [done|]. apply Nat.ltb_ge in E3. apply Ok_inj in E as <-.
    exists [ds], [val]. split_and!; [by rewrite app_nil_r| |done|rewrite length_app; simpl; lia].
    repeat constructor; [|done]. intros ->. by destruct Hl.
  - destruct (digit_value b) as [d|] eqn:Eb.
    + destruct ((length ds =? 1)%nat && (val =? 0)) eqn:E0; [done|]. destruct (255 <? val * 10 + d) eqn:E1; [done|].
      destruct (IH (ds ++ [b]) (val * 10 + d) fields fs) as (ts & ns & Hj & H); [| |by destruct ds|done|].
      * rewrite bool_decide_eq_false_2 by (by destruct ds). rewrite length_app. cbn [length].
        by replace (length ds + 1)%nat with (S (length ds)) by lia.
      * rewrite decimal_run_app, Hd. cbn [mbind option_bind decimal_run]. rewrite Eb, Nat.add_0_r. cbn [mbind option_bind].
        by rewrite E0, E1.
      * exists ts, ns. by rewrite <- app_assoc in Hj.
    + destruct (Byte.eqb b x2e) eqn:Ex; [|done]. apply Byte.byte_dec_bl in Ex as ->.
      destruct (bool_decide (ds = []) || bool_decide (l = [])) eqn:E0; [done|]. bool_to_prop.
      destruct (length fields =? 3)%nat eqn:E3; [done|]. apply Nat.eqb_neq in E3.
      destruct (IH [] 0 (fields ++ [val]) fs) as (ts & ns & Hj & H2 & -> & Hl4); try done; [rewrite length_app; simpl; lia|].
      exists (ds :: ts), (val :: ns). rewrite dot_joined_cons.
      * cbn [app] in Hj. rewrite <- Hj. split_and!; [done|by constructor|by rewrite <- app_assoc|done].
      * intros ->. inversion H2; subst. rewrite app_nil_r, length_app in Hl4. simpl in Hl4. lia.
Qed.

Lemma parseIPv4_canonical s v : parseIPv4 s = Ok (Addr4 v) -> s = dotted v /\ in_u 32 v.
Proof.
  unfold parseIPv4. intros E. apply rbind_Ok_inv in E as (fs & E & Ev). apply Ok_inj in Ev. injection Ev as Ev.
  destruct (bytes_of s) as [|b l] eqn:Es; [done|]. rewrite <- Es in E.
  destruct (parse4_loop_Ok s (bytes_of s) [] 0 [] fs E) as (ts & ns & Hj & H2 & -> & Hl); [done|by rewrite Es|simpl; lia|].
  cbn [app] in *. destruct ns as [|n1 [|n2 [|n3 [|n4 [|]]]]]; try done. inversion H2 as [|t1 ? ? ? [T1 R1] H3]; subst.
  inversion H3 as [|t2 ? ? ? [T2 R2] H4]; subst. inversion H4 as [|t3 ? ? ? [T3 R3] H5]; subst.
  inversion H5 as [|t4 ? ? ? [T4 R4] H6]; subst. inversion H6; subst.
  pose proof (decimal_run_range _ _ _ _ R1 ltac:(lia)). pose proof (decimal_run_range _ _ _ _ R2 ltac:(lia)).
  pose proof (decimal_run_range _ _ _ _ R3 ltac:(lia)). pose proof (decimal_run_range _ _ _ _ R4 ltac:(lia)).
  apply canonical_octet_text in R1 as ->, R2 as ->, R3 as ->, R4 as ->; try done. cbn [foldl].
  split; [|unfold in_u; lia]. apply bytes_of_inj. rewrite Hj, bytes_of_dotted. cbn [dot_joined].
  repeat f_equal; Z.to_euclidean_division_equations; lia.
Qed.

Lemma ParseAddr_canonical s a : ParseAddr s = Ok a -> Is4 a = true -> s = AddrString a /\ addr_wf a.
Proof.
  unfold ParseAddr. generalize (bytes_of s) as l. induction l as [|b l IH]; [done|]. intros E H4. cbn [parse_form] in E.
  destruct a as [|v|]; try done. cbn [AddrString addr_wf].
  assert (parseIPv4 s = Ok (Addr4 v) \/ parseIPv6 s = Ok (Addr4 v) \/ parse_form s l = Ok (Addr4 v)) as [E'|[E'|E']].
  { destruct b; try (by right; right); try done; try (by left); by (right; left). }
  - by apply parseIPv4_canonical.
  - exfalso. unfold parseIPv6 in E'. destruct (Cut s _) as [[s' zone] found]. destruct (found && _); [done|].
    apply rbind_Ok_inv in E' as (? & _ & [=]).
  - by apply IH.
Qed.

(** ** Prefixes read back *)
Lemma last_slash_plain l : x2f ∉ l -> last_slash l = (l, None).
Proof.
  induction l as [|b l IH]; intros H; [done|]. apply not_elem_of_cons in H as [Hb H]. cbn [last_slash]. rewrite IH by done.
  destruct (Byte.eqb b x2f) eqn:E; [by apply Byte.byte_dec_bl in E as ->|done].
Qed.

Lemma last_slash_app l r : x2f ∉ r -> last_slash (l ++ x2f :: r) = (l, Some r).
Proof.
  intros H. induction l as [|b l IH]; cbn [app last_slash]; [by rewrite last_slash_plain|]. by rewrite IH.
Qed.

Definition bits_text_ok (bits : Z) : bool :=
  let l := bytes_of (pretty bits) in
  plain_decimal l && forallb (fun b => negb (Byte.eqb b x2f)) l && (foldl (fun v b => v * 10 + (b2z b - 0x30)) 0 l =? bits).
Lemma all_bits_texts : forallb bits_text_ok (seqZ 0 33) = true.
Proof. vm_compute. reflexivity. Qed.

Lemma ParsePrefix_PrefixString v bits :
  in_u 32 v -> 0 <= bits <= 32 -> ParsePrefix (PrefixString (MkPrefix (Addr4 v) bits)) = Ok (MkPrefix (Addr4 v) bits).
Proof.
  intros Hv Hb. unfold PrefixString, PrefixIsValid. cbn [prefix_bits prefix_ip]. rewrite (proj2 (Z.leb_le 0 bits)) by lia.
  pose proof (in_range_ok _ _ bits all_bits_texts ltac:(lia)) as H. unfold bits_text_ok in H. rewrite !andb_true_iff in H.
  destruct H as [[Hd Hs] Hn]. apply Z.eqb_eq in Hn.
  assert (Hslash : x2f ∉ bytes_of (pretty bits)).
  { intros Hin. rewrite forallb_forall in Hs. apply list_elem_of_In in Hin. by specialize (Hs _ Hin). }
  unfold ParsePrefix. rewrite !bytes_of_app. change (bytes_of "/") with [x2f]. cbn [app].
  rewrite last_slash_app, text_of_bytes_of, ParseAddr_AddrString by done. cbn [has_zone]. rewrite Hd, Hn. cbn [negb BitLen].
  rewrite (proj2 (Z.ltb_ge 32 bits)) by lia. unfold PrefixFrom. cbn [AddrIsValid BitLen without_zone andb].
  by rewrite (proj2 (Z.leb_le 0 bits)), (proj2 (Z.leb_le bits 32)) by lia.
Qed.
