(* ===== verification/Comparing.v ===== *)
(** * Three-way comparison

    Go's [cmp.Compare], the comparison of the first differing field and
    [slices.CompareFunc], and the strict weak orders they induce for sorting. *)
From S2P Require Import Prelude Sorting GoText Paths Netip.

Class Comparator {A} (c : A -> A -> Z) : Prop := {
  cmp_sign x y : Z.sgn (c y x) = - Z.sgn (c x y);
  cmp_trans x y z : c x y <= 0 -> c y z <= 0 -> c x z <= 0
}.

Section Comparators.
Context {A : Type}.

Lemma cmp_refl (c : A -> A -> Z) `{!Comparator c} x : c x x = 0.
Proof. pose proof (cmp_sign x x). lia. Qed.

(** Equal to something in front is in front. *)
Lemma cmp_trans_lt (c : A -> A -> Z) `{!Comparator c} x y z : c x y <= 0 -> c y z < 0 -> c x z < 0.
Proof.
  intros H1 H2. assert (c y z <= 0) as Hyz by lia. pose proof (cmp_trans x y z H1 Hyz). destruct (Z.eq_dec (c x z) 0) as [E|]; [|lia].
  pose proof (cmp_sign x z). pose proof (cmp_sign y z). assert (c z x <= 0) as Hzx by lia. pose proof (cmp_trans z x y Hzx H1). lia.
Qed.

Lemma cmp_trans_lt' (c : A -> A -> Z) `{!Comparator c} x y z : c x y < 0 -> c y z <= 0 -> c x z < 0.
Proof.
  intros H1 H2. assert (c x y <= 0) as Hxy by lia. pose proof (cmp_trans x y z Hxy H2). destruct (Z.eq_dec (c x z) 0) as [E|]; [|lia].
  pose proof (cmp_sign x z). pose proof (cmp_sign x y). assert (c z x <= 0) as Hzx by lia. pose proof (cmp_trans y z x H2 Hzx). lia.
Qed.

Lemma swo_comparator (c : A -> A -> Z) `{!Comparator c} : StrictWeakOrder (fun x y => c x y <? 0).
Proof.
  split.
  - intros x. by rewrite (cmp_refl c).
  - intros x y. rewrite Z.ltb_lt. intros H. pose proof (cmp_sign x y). apply Z.ltb_ge. lia.
  - intros x y z. rewrite !Z.ltb_ge. intros H1 H2. pose proof (cmp_sign x y). pose proof (cmp_sign y z).
    pose proof (cmp_sign x z). pose proof (cmp_trans z y x). lia.
Qed.

#[export] Instance zcmp_by (key : A -> Z) : Comparator (fun x y => zcmp (key x) (key y)).
Proof.
  unfold zcmp. split; intros *.
  - destruct (Z.ltb_spec (key x) (key y)), (Z.ltb_spec (key y) (key x)); lia.
  - destruct (Z.ltb_spec (key x) (key y)), (Z.ltb_spec (key y) (key x)), (Z.ltb_spec (key y) (key z)),
      (Z.ltb_spec (key z) (key y)), (Z.ltb_spec (key x) (key z)), (Z.ltb_spec (key z) (key x)); lia.
Qed.

Lemma scmp_le x y : scmp x y <= 0 <-> sltb y x = false.
Proof.
  unfold scmp. destruct (sltb x y) eqn:E1.
  - rewrite (sltb_asym x y E1). lia.
  - destruct (sltb y x); lia.
Qed.

#[export] Instance scmp_by (key : A -> string) : Comparator (fun x y => scmp (key x) (key y)).
Proof.
  split; intros *.
  - unfold scmp. destruct (sltb (key x) (key y)) eqn:E1; [by rewrite (sltb_asym _ _ E1)|].
    by destruct (sltb (key y) (key x)).
  - rewrite !scmp_le. intros H1 H2. exact (swo_negtrans (StrictWeakOrder := swo_string key) z y x H2 H1).
Qed.

(** The first comparison that differs. *)
Definition lex_cmp (c1 c2 : A -> A -> Z) (x y : A) : Z := if c1 x y =? 0 then c2 x y else c1 x y.

#[export] Instance lex_comparator (c1 c2 : A -> A -> Z) `{!Comparator c1, !Comparator c2} : Comparator (lex_cmp c1 c2).
Proof.
  unfold lex_cmp. split; intros *.
  - pose proof (cmp_sign (c := c1) x y). pose proof (cmp_sign (c := c2) x y).
    destruct (Z.eqb_spec (c1 x y) 0), (Z.eqb_spec (c1 y x) 0); lia.
  - destruct (Z.eqb_spec (c1 x y) 0) as [E1|N1], (Z.eqb_spec (c1 y z) 0) as [E2|N2]; intros H1 H2.
    + pose proof (cmp_trans (c := c1) x y z). pose proof (cmp_trans (c := c1) z y x).
      pose proof (cmp_sign (c := c1) x y). pose proof (cmp_sign (c := c1) y z). pose proof (cmp_sign (c := c1) x z).
      assert (c1 x z = 0) as E by lia. rewrite (proj2 (Z.eqb_eq _ _) E). by apply (cmp_trans x y z).
    + pose proof (cmp_trans_lt c1 x y z). destruct (Z.eqb_spec (c1 x z) 0); lia.
    + pose proof (cmp_trans_lt' c1 x y z). destruct (Z.eqb_spec (c1 x z) 0); lia.
    + pose proof (cmp_trans_lt c1 x y z). destruct (Z.eqb_spec (c1 x z) 0); lia.
Qed.

(** [slices.CompareFunc]: element by element, then the shorter first. *)
Fixpoint list_cmp (c : A -> A -> Z) (xs ys : list A) : Z :=
  match xs, ys with
  | [], [] => 0
  | [], _ => -1
  | _, [] => 1
  | x :: xs, y :: ys => if c x y =? 0 then list_cmp c xs ys else c x y
  end.

#[export] Instance list_comparator (c : A -> A -> Z) `{!Comparator c} : Comparator (list_cmp c).
Proof.
  split.
  - induction x as [|x xs IH]; intros [|y ys]; simpl; try done. pose proof (cmp_sign x y).
    destruct (Z.eqb_spec (c x y) 0), (Z.eqb_spec (c y x) 0); lia || apply IH.
  - induction x as [|x xs IH]; intros [|y ys] [|z zs]; simpl; try lia.
    destruct (Z.eqb_spec (c x y) 0) as [E1|N1], (Z.eqb_spec (c y z) 0) as [E2|N2]; intros H1 H2.
    + pose proof (cmp_trans x y z). pose proof (cmp_trans z y x).
      pose proof (cmp_sign x y). pose proof (cmp_sign y z). pose proof (cmp_sign x z).
      assert (c x z = 0) as E by lia. rewrite (proj2 (Z.eqb_eq _ _) E). by apply (IH ys zs).
    + pose proof (cmp_trans_lt c x y z). destruct (Z.eqb_spec (c x z) 0); lia.
    + pose proof (cmp_trans_lt' c x y z). destruct (Z.eqb_spec (c x z) 0); lia.
    + pose proof (cmp_trans_lt c x y z). destruct (Z.eqb_spec (c x z) 0); lia.
Qed.
End Comparators.

(** Comparing by a part of the value. *)
Lemma comparator_by {A B} (f : A -> B) (c : B -> B -> Z) `{!Comparator c} :
  Comparator (fun x y => c (f x) (f y)).
Proof. split; intros *; [apply cmp_sign|apply cmp_trans]. Qed.

Lemma zcmp_zero x y : zcmp x y = 0 <-> x = y.
Proof. unfold zcmp. destruct (Z.ltb_spec x y), (Z.ltb_spec y x); lia. Qed.

Lemma zcmp_eqb x y : (zcmp x y =? 0) = (x =? y).
Proof. apply eq_true_iff_eq. by rewrite !Z.eqb_eq, zcmp_zero. Qed.

Lemma scmp_zero x y : scmp x y = 0 <-> x = y.
Proof.
  unfold scmp. destruct (sltb x y) eqn:E1; [split; [done|]; intros ->; by rewrite sltb_irrefl in E1|].
  destruct (sltb y x) eqn:E2; [split; [done|]; intros ->; by rewrite sltb_irrefl in E2|].
  split; [|done]. intros _. by apply sltb_total.
Qed.

Lemma lex_cmp_zero {A} (c1 c2 : A -> A -> Z) x y : lex_cmp c1 c2 x y = 0 <-> c1 x y = 0 /\ c2 x y = 0.
Proof. unfold lex_cmp. destruct (Z.eqb_spec (c1 x y) 0); lia. Qed.

Lemma list_cmp_zero {A} (c : A -> A -> Z) xs ys : list_cmp c xs ys = 0 <-> Forall2 (fun x y => c x y = 0) xs ys.
Proof.
  revert ys; induction xs as [|x xs IH]; intros [|y ys]; simpl; try (split; [done|by inversion 1]).
  rewrite Forall2_cons, <- IH. destruct (Z.eqb_spec (c x y) 0); tauto.
Qed.

(** [netip.Addr.Compare] is a comparator, and separates addresses. *)
#[export] Instance addr_comparator : Comparator CompareAddr.
Proof.
  assert (forall x y, CompareAddr x y = lex_cmp (fun x y => zcmp (BitLen x) (BitLen y))
    (lex_cmp (fun x y => zcmp (addr_bits x) (addr_bits y))
      (fun x y => scmp (match x with Addr6 _ z => z | _ => "" end) (match y with Addr6 _ z => z | _ => "" end))) x y) as H.
  { intros x y. unfold CompareAddr, lex_cmp. rewrite !zcmp_eqb.
    destruct x, y; simpl; try done; [destruct (v =? v0)|destruct (v =? v0)]; done. }
  split; intros *; rewrite !H; [apply cmp_sign|apply cmp_trans].
Qed.

Lemma CompareAddr_zero x y : CompareAddr x y = 0 <-> x = y.
Proof.
  unfold CompareAddr. split.
  - destruct (Z.eqb_spec (BitLen x) (BitLen y)) as [E|E]; simpl; [|by rewrite zcmp_zero].
    destruct (Z.eqb_spec (addr_bits x) (addr_bits y)) as [E2|E2]; simpl; [|by rewrite zcmp_zero].
    destruct x, y; simpl in *; try done; [by rewrite E2|]. rewrite scmp_zero. by intros ->; rewrite E2.
  - intros ->. rewrite !Z.eqb_refl. simpl. destruct y; try done. by apply scmp_zero.
Qed.
