(* ===== verification/SourceTree.v ===== *)
(** * The frozen source tree

    [internal/sourcefiles/tree.go]: files, directories and the snapshot that
    flattens a scanned tree into sorted lists with their indexes.  The entry of
    a directory is a tagged union, so an entry always holds what its kind says. *)
From S2P Require Import Prelude Sorting GoText Paths.

Record BackingReference : Type := MkBacking { anchor : Z; backingPath : string }.

Definition DirectoryEntry : Z := 1.
Definition RegularFileEntry : Z := 2.

Record SourceFile : Type := MkSourceFile { relativePath : string; size : Z; backing : BackingReference }.

#[warnings="-register-all"]
Inductive SourceEntry : Type :=
  | DirEntry (path : string) (reference : BackingReference) (children : list SourceEntry)
  | FileEntry (file : SourceFile).

Record SourceDirectory : Type := MkDirectory {
  dirPath : string;
  dirBacking : BackingReference;
  dirChildren : list SourceEntry
}.

Record SourceTree : Type := MkTree { tree_root : SourceDirectory }.

Definition directoryEntry (d : SourceDirectory) : SourceEntry := DirEntry (dirPath d) (dirBacking d) (dirChildren d).
Definition fileEntry (f : SourceFile) : SourceEntry := FileEntry f.

Definition entryPath (e : SourceEntry) : string :=
  match e with DirEntry p _ _ => p | FileEntry f => relativePath f end.
Definition entryName (e : SourceEntry) : string := Base (entryPath e).
Definition entryKind (e : SourceEntry) : Z :=
  match e with DirEntry _ _ _ => DirectoryEntry | FileEntry _ => RegularFileEntry end.
Definition DirEmpty (d : SourceDirectory) : bool := bool_decide (length (dirChildren d) = 0%nat).

Definition backing_valid (reference : BackingReference) (anchorCount : Z) : bool :=
  if anchorCount <=? anchor reference then false
  else bool_decide (backingPath reference = ".") || is_ok (normalizeRelativePath (backingPath reference)).

Definition newSourceFile (path : string) (sz : Z) (backings : list BackingReference) : result SourceFile :=
  let* normalized := normalizeRelativePath path in
  match backings with
  | [] => Ok (MkSourceFile normalized sz (MkBacking 0 normalized))
  | [reference] => Ok (MkSourceFile normalized sz reference)
  | _ => Err (ErrText "source file has multiple backing references")
  end.

Definition name_less (x y : SourceEntry) : bool := sltb (entryName x) (entryName y).

Fixpoint repeated_child (copied : list SourceEntry) : option string :=
  match copied with
  | x :: ((y :: _) as rest) =>
      if bool_decide (entryName x = entryName y) then Some (entryName y) else repeated_child rest
  | _ => None
  end.

Definition newSourceDirectory (path : string) (reference : BackingReference) (children : list SourceEntry)
  : result SourceDirectory :=
  let* _ := (if negb (bool_decide (path = "")) then normalizeRelativePath path else Ok path) in
  let copied := sort_by name_less children in
  match repeated_child copied with
  | Some name => Err (ErrText ("source directory repeats child " +:+ Quote name))
  | None => Ok (MkDirectory path reference copied)
  end.

(** ** Flattening *)
Record Walk : Type := MkWalk {
  walk_files : list SourceFile;
  walk_emptyDirs : list SourceDirectory;
  walk_seen : gmap string Z
}.

Fixpoint walk_entry (e : SourceEntry) (w : Walk) : result Walk :=
  let path := entryPath e in
  if bool_decide (is_Some (walk_seen w !! path)) then Err (ErrText ("source tree repeats path " +:+ Quote path))
  else
    let seen := <[path := entryKind e]> (walk_seen w) in
    match e with
    | FileEntry file => Ok (MkWalk (walk_files w ++ [file]) (walk_emptyDirs w) seen)
    | DirEntry p b children =>
        let child := MkDirectory p b children in
        let w := MkWalk (walk_files w)
                   (if DirEmpty child then walk_emptyDirs w ++ [child] else walk_emptyDirs w) seen in
        (fix walk (cs : list SourceEntry) (w : Walk) : result Walk :=
           match cs with
           | [] => Ok w
           | c :: cs => let* w := walk_entry c w in walk cs w
           end) children w
    end.

Fixpoint walk (cs : list SourceEntry) (w : Walk) : result Walk :=
  match cs with
  | [] => Ok w
  | c :: cs => let* w := walk_entry c w in walk cs w
  end.

Definition file_less (x y : SourceFile) : bool := sltb (relativePath x) (relativePath y).
Definition dir_less (x y : SourceDirectory) : bool := sltb (dirPath x) (dirPath y).

Record flattenedSourceTree : Type := MkFlat {
  files : list SourceFile;
  emptyDirs : list SourceDirectory;
  fileIndex : gmap string nat;
  emptyDirIndex : gmap string nat;
  entryKinds : gmap string Z
}.

Definition flattenTree (tree : SourceTree) : result flattenedSourceTree :=
  if negb (bool_decide (dirPath (tree_root tree) = "")) then Err (ErrText "source tree root is invalid")
  else
    let* w := walk (dirChildren (tree_root tree)) (MkWalk [] [] ∅) in
    let files := sort_by file_less (walk_files w) in
    let emptyDirs := sort_by dir_less (walk_emptyDirs w) in
    Ok (MkFlat files emptyDirs (index_by relativePath files) (index_by dirPath emptyDirs) (walk_seen w)).

Record Summary : Type := MkSummary {
  followedSymlinks : Z;
  ignoredSymlinks : Z;
  emptyDirectories : Z;
  ignoredSpecialFiles : Z
}.

Record sourceIdentity : Type := MkIdentity { device : Z; inode : Z; kind : Z }.
Definition sourceDirectoryObject : Z := 1.

Record sourceSnapshotContents : Type := MkContents {
  baseName : string;
  identity : sourceIdentity;
  capability : option Z;
  tree : SourceTree;
  entries : flattenedSourceTree;
  summary : Summary
}.

(** [SourceSnapshot]: a handle, nil in its zero value. *)
Definition SourceSnapshot : Type := option sourceSnapshotContents.

Definition newSourceSnapshot (name : string) (id : sourceIdentity) (source : option Z) (t : SourceTree) (s : Summary)
  : result SourceSnapshot :=
  check! validateBaseName name in
  if negb (kind id =? sourceDirectoryObject) || bool_decide (source = None) then
    Err (ErrText "source snapshot root identity is invalid")
  else let* flat := flattenTree t in Ok (Some (MkContents name id source t flat s)).

(** The queries of a snapshot; an iterator is the list it yields. *)
Definition zero_directory : SourceDirectory := MkDirectory "" (MkBacking 0 "") [].
Definition snapshot_BaseName (s : SourceSnapshot) : string := from_option baseName "" s.
Definition RootDirectory (s : SourceSnapshot) : SourceDirectory :=
  from_option (fun c => tree_root (tree c)) zero_directory s.
Definition snapshot_Files (s : SourceSnapshot) : list SourceFile := from_option (fun c => files (entries c)) [] s.
Definition snapshot_EmptyDirectories (s : SourceSnapshot) : list SourceDirectory :=
  from_option (fun c => emptyDirs (entries c)) [] s.
Definition snapshot_Summary (s : SourceSnapshot) : Summary := from_option summary (MkSummary 0 0 0 0) s.
Definition FileCount (s : SourceSnapshot) : Z := from_option (fun c => zlen (files (entries c))) 0 s.
Definition EmptyDirectoryCount (s : SourceSnapshot) : Z := from_option (fun c => zlen (emptyDirs (entries c))) 0 s.

(** ** The contents of a tree, in the order of the walk *)
Fixpoint entry_paths (e : SourceEntry) : list (string * Z) :=
  (entryPath e, entryKind e) ::
  match e with DirEntry _ _ cs => mjoin (entry_paths <$> cs) | FileEntry _ => [] end.

Fixpoint entry_files (e : SourceEntry) : list SourceFile :=
  match e with DirEntry _ _ cs => mjoin (entry_files <$> cs) | FileEntry f => [f] end.

Fixpoint entry_emptyDirs (e : SourceEntry) : list SourceDirectory :=
  match e with
  | DirEntry p b [] => [MkDirectory p b []]
  | DirEntry _ _ cs => mjoin (entry_emptyDirs <$> cs)
  | FileEntry _ => []
  end.

Definition tree_paths (t : SourceTree) : list (string * Z) := mjoin (entry_paths <$> dirChildren (tree_root t)).
Definition tree_files (t : SourceTree) : list SourceFile := mjoin (entry_files <$> dirChildren (tree_root t)).
Definition tree_emptyDirs (t : SourceTree) : list SourceDirectory :=
  mjoin (entry_emptyDirs <$> dirChildren (tree_root t)).

Section SourceEntryInd.
Variable P : SourceEntry -> Prop.
Hypothesis Hdir : forall p b cs, Forall P cs -> P (DirEntry p b cs).
Hypothesis Hfile : forall f, P (FileEntry f).

Fixpoint SourceEntry_nested_ind (e : SourceEntry) : P e :=
  match e with
  | DirEntry p b cs =>
      Hdir p b cs
        ((fix go (cs : list SourceEntry) : Forall P cs :=
            match cs with
            | [] => @List.Forall_nil _ P
            | c :: cs => @List.Forall_cons _ P c cs (SourceEntry_nested_ind c) (go cs)
            end) cs)
  | FileEntry f => Hfile f
  end.
End SourceEntryInd.

(** What the walk does with a list of entries, as one equation. *)
Definition fresh (paths : list (string * Z)) (seen : gmap string Z) : Prop :=
  NoDup paths.*1 /\ forall p, p ∈ paths.*1 -> seen !! p = None.

Definition walked (paths : list (string * Z)) (fs : list SourceFile) (ds : list SourceDirectory) (w : Walk) : Walk :=
  MkWalk (walk_files w ++ fs) (walk_emptyDirs w ++ ds) (foldl (fun m pk => <[pk.1 := pk.2]> m) (walk_seen w) paths).

Definition walks (run : Walk -> result Walk) (paths : list (string * Z)) (fs : list SourceFile)
  (ds : list SourceDirectory) : Prop :=
  forall w, match run w with
            | Ok w' => fresh paths (walk_seen w) /\ w' = walked paths fs ds w
            | Err _ => ~ fresh paths (walk_seen w)
            end.

Lemma foldl_insert_None paths (seen : gmap string Z) p :
  seen !! p = None -> p ∉ paths.*1 -> foldl (fun m pk => <[pk.1 := pk.2]> m) seen paths !! p = None.
Proof.
  revert seen; induction paths as [|[q k] paths IH]; intros seen Hs Hp; simpl; [done|].
  rewrite fmap_cons, not_elem_of_cons in Hp. destruct Hp as [Hne Hp]. apply IH; [|done].
  rewrite lookup_insert_ne; [done|]. simpl in Hne. congruence.
Qed.

Lemma foldl_insert_Some paths (seen : gmap string Z) p k :
  NoDup paths.*1 -> (forall q, q ∈ paths.*1 -> seen !! q = None) ->
  foldl (fun m pk => <[pk.1 := pk.2]> m) seen paths !! p = Some k <-> seen !! p = Some k \/ (p, k) ∈ paths.
Proof.
  revert seen; induction paths as [|[q j] paths IH]; intros seen Hn Hs; simpl; [set_solver|].
  rewrite fmap_cons in Hn, Hs. apply NoDup_cons in Hn as [Hq Hn]. simpl in Hq.
  assert (seen !! q = None) as Hsq by (apply Hs; set_solver).
  rewrite IH; [|done|].
  - destruct (decide (p = q)) as [->|Hne].
    + rewrite lookup_insert_eq. split.
      * intros [[= ->]|Hin]; [right; by left|]. exfalso. apply Hq. apply list_elem_of_fmap. by exists (q, k).
      * intros [E|Hin]; [congruence|]. apply elem_of_cons in Hin as [[= ->]|Hin]; [by left|].
        exfalso. apply Hq. apply list_elem_of_fmap. by exists (q, k).
    + rewrite lookup_insert_ne by done. rewrite elem_of_cons. naive_solver.
  - intros r Hr. rewrite lookup_insert_ne by (intros ->; done). apply Hs. set_solver.
Qed.

Lemma fresh_app paths1 paths2 (seen : gmap string Z) :
  fresh (paths1 ++ paths2) seen <->
  fresh paths1 seen /\ fresh paths2 (foldl (fun m pk => <[pk.1 := pk.2]> m) seen paths1).
Proof.
  unfold fresh. rewrite fmap_app, NoDup_app. split.
  - intros ((Hn1 & Hd & Hn2) & Hs). split_and!; [done|set_solver|done|].
    intros p Hp. apply foldl_insert_None; [set_solver|]. intros Hp1. by eapply Hd.
  - intros ((Hn1 & Hs1) & Hn2 & Hs2).
    assert (forall p, p ∈ paths2.*1 -> seen !! p = None /\ p ∉ paths1.*1) as H2.
    { intros p Hp. specialize (Hs2 p Hp). apply eq_None_not_Some in Hs2. split.
      - apply eq_None_not_Some. intros [k Hk]. apply Hs2. exists k. apply foldl_insert_Some; [done|done|]. by left.
      - intros Hp1. apply Hs2. apply list_elem_of_fmap in Hp1 as ([q k] & -> & Hin). exists k.
        apply foldl_insert_Some; [done|done|]. by right. }
    split_and!; [done| |done|].
    + intros p Hp1 Hp2. by apply (H2 p Hp2).
    + intros p Hp. apply elem_of_app in Hp as [Hp|Hp]; [by apply Hs1|by apply H2].
Qed.

Lemma walked_nil w : walked [] [] [] w = w.
Proof. unfold walked. rewrite !app_nil_r. by destruct w. Qed.

Lemma walked_app paths1 paths2 fs1 fs2 ds1 ds2 w :
  walked paths2 fs2 ds2 (walked paths1 fs1 ds1 w) = walked (paths1 ++ paths2) (fs1 ++ fs2) (ds1 ++ ds2) w.
Proof. unfold walked; simpl. by rewrite foldl_app, !app_assoc. Qed.

Lemma fresh_nil (seen : gmap string Z) : fresh [] seen.
Proof. split; [constructor|set_solver]. Qed.

Lemma walk_list cs :
  Forall (fun e => walks (walk_entry e) (entry_paths e) (entry_files e) (entry_emptyDirs e)) cs ->
  walks (walk cs) (mjoin (entry_paths <$> cs)) (mjoin (entry_files <$> cs)) (mjoin (entry_emptyDirs <$> cs)).
Proof.
  induction 1 as [|c cs Hc Hcs IH]; intros w; cbn [walk].
  { split; [apply fresh_nil|]. by rewrite walked_nil. }
  rewrite !fmap_cons, !mjoin_cons. specialize (Hc w).
  destruct (walk_entry c w) as [w1|e]; simpl.
  - destruct Hc as [Hf ->]. specialize (IH (walked (entry_paths c) (entry_files c) (entry_emptyDirs c) w)).
    destruct (walk cs _) as [w2|e].
    + destruct IH as [Hf2 ->]. split; [by apply fresh_app|]. apply walked_app.
    + intros [_ Hf2]%fresh_app. by apply IH.
  - intros [Hf _]%fresh_app. by apply Hc.
Qed.

Lemma walk_entry_spec e : walks (walk_entry e) (entry_paths e) (entry_files e) (entry_emptyDirs e).
Proof.
  induction e as [p b cs IH|f] using SourceEntry_nested_ind; intros w.
  - apply walk_list in IH. cbn [walk_entry entry_paths entry_files entryPath entryKind].
    change ((p, DirectoryEntry) :: mjoin (entry_paths <$> cs)) with ([(p, DirectoryEntry)] ++ mjoin (entry_paths <$> cs)).
    case_bool_decide as Hp.
    { simpl. intros [_ Hf]. specialize (Hf p). rewrite Hf in Hp; [by destruct Hp|set_solver]. }
    assert (fresh [(p, DirectoryEntry)] (walk_seen w)) as Hf0.
    { split; [apply NoDup_singleton|]. intros q Hq. apply list_elem_of_singleton in Hq as ->.
      by apply eq_None_not_Some. }
    set (w0 := MkWalk _ _ _).
    match goal with |- context [?f cs w0] => change (f cs w0) with (walk cs w0) end.
    assert (w0 = walked [(p, DirectoryEntry)] [] (if DirEmpty (MkDirectory p b cs) then [MkDirectory p b cs] else []) w) as Hw0.
    { unfold w0, walked. simpl. rewrite app_nil_r. f_equal. destruct (DirEmpty _); [done|]. by rewrite app_nil_r. }
    assert (entry_emptyDirs (DirEntry p b cs)
      = (if DirEmpty (MkDirectory p b cs) then [MkDirectory p b cs] else []) ++ mjoin (entry_emptyDirs <$> cs)) as ->.
    { by destruct cs. }
    specialize (IH w0). destruct (walk cs w0) as [w1|e].
    + destruct IH as [Hf ->]. split.
      * apply fresh_app. split; [done|]. by rewrite Hw0 in Hf.
      * rewrite Hw0, walked_app. done.
    + intros [_ Hf]%fresh_app. apply IH. by rewrite Hw0.
  - cbn [walk_entry entry_paths entry_files entry_emptyDirs entryPath entryKind].
    case_bool_decide as Hp.
    { simpl. intros [_ Hf]. specialize (Hf (relativePath f)). rewrite Hf in Hp; [by destruct Hp|set_solver]. }
    split.
    + split; [apply NoDup_singleton|]. intros q Hq. apply list_elem_of_singleton in Hq as ->.
      by apply eq_None_not_Some.
    + unfold walked; simpl. by rewrite app_nil_r.
Qed.

Lemma walk_spec cs :
  walks (walk cs) (mjoin (entry_paths <$> cs)) (mjoin (entry_files <$> cs)) (mjoin (entry_emptyDirs <$> cs)).
Proof. apply walk_list, Forall_true. intros e. apply walk_entry_spec. Qed.

(** ** Sorted lists *)
Lemma strictly_sorted {A} (key : A -> string) l :
  NoDup (key <$> l) -> StronglySorted (not_after (fun x y => sltb (key x) (key y))) l ->
  StronglySorted (fun x y => sltb (key x) (key y) = true) l.
Proof.
  intros Hn Hs. induction Hs as [|x l Hl IH Hx]; [constructor|].
  rewrite fmap_cons in Hn. apply NoDup_cons in Hn as [Hnx Hn]. constructor; [by apply IH|].
  rewrite Forall_forall in Hx. apply Forall_forall. intros y Hy. specialize (Hx y Hy). unfold not_after in Hx.
  destruct (sltb (key x) (key y)) eqn:E; [done|]. exfalso. apply Hnx, list_elem_of_fmap. exists y.
  split; [|done]. by apply sltb_total.
Qed.

(** ** The lists of a tree *)
Lemma mjoin_sublist {A B} (f g : A -> list B) cs :
  Forall (fun c => f c `sublist_of` g c) cs -> mjoin (f <$> cs) `sublist_of` mjoin (g <$> cs).
Proof. induction 1; [done|]. rewrite !fmap_cons, !mjoin_cons. by apply sublist_app. Qed.

Lemma entry_files_sublist e : relativePath <$> entry_files e `sublist_of` (entry_paths e).*1.
Proof.
  induction e as [p b cs IH|f] using SourceEntry_nested_ind; [|done].
  cbn [entry_files entry_paths]. rewrite fmap_cons. apply sublist_cons.
  rewrite !fmap_mjoin, <- !list_fmap_compose.
  exact (mjoin_sublist (fun e => relativePath <$> entry_files e) (fun e => (entry_paths e).*1) cs IH).
Qed.

Lemma entry_emptyDirs_sublist e : dirPath <$> entry_emptyDirs e `sublist_of` (entry_paths e).*1.
Proof.
  induction e as [p b cs IH|f] using SourceEntry_nested_ind; [|simpl; apply sublist_nil_l].
  destruct cs as [|c cs]; [done|].
  change (dirPath <$> mjoin (entry_emptyDirs <$> (c :: cs)) `sublist_of` p :: (mjoin (entry_paths <$> (c :: cs))).*1).
  revert IH. generalize (c :: cs). intros l IH.
  apply sublist_cons. rewrite !fmap_mjoin, <- !list_fmap_compose.
  exact (mjoin_sublist (fun e => dirPath <$> entry_emptyDirs e) (fun e => (entry_paths e).*1) l IH).
Qed.

Lemma tree_files_sublist t : relativePath <$> tree_files t `sublist_of` (tree_paths t).*1.
Proof.
  unfold tree_files, tree_paths. rewrite !fmap_mjoin, <- !list_fmap_compose.
  apply (mjoin_sublist (fun e => relativePath <$> entry_files e) (fun e => (entry_paths e).*1)).
  apply Forall_true, entry_files_sublist.
Qed.

Lemma tree_emptyDirs_sublist t : dirPath <$> tree_emptyDirs t `sublist_of` (tree_paths t).*1.
Proof.
  unfold tree_emptyDirs, tree_paths. rewrite !fmap_mjoin, <- !list_fmap_compose.
  apply (mjoin_sublist (fun e => dirPath <$> entry_emptyDirs e) (fun e => (entry_paths e).*1)).
  apply Forall_true, entry_emptyDirs_sublist.
Qed.

(** A flattened tree is a faithful, ordered index of it. *)
Record flat_of (t : SourceTree) (flat : flattenedSourceTree) : Prop := {
  fo_files : files flat ≡ₚ tree_files t;
  fo_files_sorted : StronglySorted (fun x y => sltb (relativePath x) (relativePath y) = true) (files flat);
  fo_dirs : emptyDirs flat ≡ₚ tree_emptyDirs t;
  fo_dirs_sorted : StronglySorted (fun x y => sltb (dirPath x) (dirPath y) = true) (emptyDirs flat);
  fo_fileIndex p i : fileIndex flat !! p = Some i <-> exists f, files flat !! i = Some f /\ relativePath f = p;
  fo_dirIndex p i : emptyDirIndex flat !! p = Some i <-> exists d, emptyDirs flat !! i = Some d /\ dirPath d = p;
  fo_kinds p k : entryKinds flat !! p = Some k <-> (p, k) ∈ tree_paths t
}.

Lemma flattenTree_spec t :
  match flattenTree t with
  | Ok flat => dirPath (tree_root t) = "" /\ NoDup (tree_paths t).*1 /\ flat_of t flat
  | Err _ => dirPath (tree_root t) <> "" \/ ~ NoDup (tree_paths t).*1
  end.
Proof.
  unfold flattenTree. case_bool_decide as Hroot; simpl; [|by left].
  pose proof (walk_spec (dirChildren (tree_root t)) (MkWalk [] [] ∅)) as Hw. fold (tree_paths t) in Hw.
  destruct (walk _ _) as [w|e]; simpl in *.
  - destruct Hw as [[Hn _] ->]. split_and!; [done|done|].
    fold (tree_files t) (tree_emptyDirs t). unfold walked; simpl.
    pose proof (sort_by_perm file_less (tree_files t)) as Hpf.
    pose proof (sort_by_perm dir_less (tree_emptyDirs t)) as Hpd.
    assert (NoDup (relativePath <$> sort_by file_less (tree_files t))) as Hnf.
    { rewrite Hpf. eapply sublist_NoDup; [exact Hn|apply tree_files_sublist]. }
    assert (NoDup (dirPath <$> sort_by dir_less (tree_emptyDirs t))) as Hnd.
    { rewrite Hpd. eapply sublist_NoDup; [exact Hn|apply tree_emptyDirs_sublist]. }
    split; simpl; try done.
    + apply strictly_sorted; [done|]. apply (sort_by_sorted file_less).
    + apply strictly_sorted; [done|]. apply (sort_by_sorted dir_less).
    + intros p i. by apply index_by_lookup.
    + intros p i. by apply index_by_lookup.
    + intros p k. rewrite foldl_insert_Some by (done || intros; apply lookup_empty).
      rewrite lookup_empty. naive_solver.
  - right. intros Hn. apply Hw. split; [done|]. intros. apply lookup_empty.
Qed.

(** The regular paths of a tree are those of its files. *)
Lemma entry_regular e p : (p, RegularFileEntry) ∈ entry_paths e <-> p ∈ relativePath <$> entry_files e.
Proof.
  induction e as [q b cs IH|f] using SourceEntry_nested_ind; simpl.
  - rewrite elem_of_cons. transitivity ((p, RegularFileEntry) ∈ mjoin (entry_paths <$> cs)).
    { split; [intros [[=]|?]; done|by right]. }
    rewrite fmap_mjoin, !list_elem_of_join. rewrite Forall_forall in IH. split.
    + intros (l & Hp & (e & -> & He)%list_elem_of_fmap). exists (relativePath <$> entry_files e).
      split; [by apply IH|]. rewrite <- list_fmap_compose. apply list_elem_of_fmap. by exists e.
    + intros (l & Hp & Hl). rewrite <- list_fmap_compose in Hl. apply list_elem_of_fmap in Hl as (e & -> & He).
      exists (entry_paths e). split; [by apply IH|]. by apply list_elem_of_fmap_2.
  - rewrite !list_elem_of_singleton. split; [by intros [= ->]|by intros ->].
Qed.

Lemma tree_regular t p : (p, RegularFileEntry) ∈ tree_paths t <-> p ∈ relativePath <$> tree_files t.
Proof.
  pose proof (entry_regular (DirEntry "" (MkBacking 0 "") (dirChildren (tree_root t))) p) as H. simpl in H.
  rewrite elem_of_cons in H. unfold tree_paths, tree_files. rewrite <- H. split; [by right|by intros [[=]|?]].
Qed.

Lemma entry_directory e p : p ∈ dirPath <$> entry_emptyDirs e -> (p, DirectoryEntry) ∈ entry_paths e.
Proof.
  induction e as [q b cs IH|f] using SourceEntry_nested_ind; [|simpl; set_solver].
  destruct cs as [|c cs]; [simpl; intros ->%list_elem_of_singleton; by left|].
  change (p ∈ dirPath <$> mjoin (entry_emptyDirs <$> (c :: cs)) ->
    (p, DirectoryEntry) ∈ (q, DirectoryEntry) :: mjoin (entry_paths <$> (c :: cs))).
  revert IH. generalize (c :: cs). intros l IH. rewrite Forall_forall in IH.
  rewrite fmap_mjoin, <- list_fmap_compose. intros (k & Hp & (e & -> & He)%list_elem_of_fmap)%list_elem_of_join.
  right. apply list_elem_of_join. exists (entry_paths e). split; [by apply IH|]. by apply list_elem_of_fmap_2.
Qed.

Lemma tree_directory t p : p ∈ dirPath <$> tree_emptyDirs t -> (p, DirectoryEntry) ∈ tree_paths t.
Proof.
  unfold tree_emptyDirs, tree_paths. rewrite fmap_mjoin, <- list_fmap_compose.
  intros (k & Hp & (e & -> & He)%list_elem_of_fmap)%list_elem_of_join.
  apply list_elem_of_join. exists (entry_paths e). split; [by apply entry_directory|]. by apply list_elem_of_fmap_2.
Qed.

(** What the kinds of a flattened tree say of its lists. *)
Lemma flat_file_kind t flat p :
  flat_of t flat -> entryKinds flat !! p = Some RegularFileEntry <-> p ∈ relativePath <$> files flat.
Proof. intros []. by rewrite fo_kinds0, fo_files0, tree_regular. Qed.

Lemma flat_dir_kind t flat p :
  flat_of t flat -> p ∈ dirPath <$> emptyDirs flat -> entryKinds flat !! p = Some DirectoryEntry.
Proof. intros []. rewrite fo_kinds0, fo_dirs0. apply tree_directory. Qed.

(** ** Properties *)

(** C29. Flattening a scanned tree succeeds exactly when its root is the empty
    path and no path occurs twice, and then lists every regular file and every
    empty directory exactly once, strictly ordered by path, with indexes that
    find exactly those paths at their positions and the kind of every entry. *)
Theorem flattenTree_faithful t :
  (is_ok (flattenTree t) = true <-> dirPath (tree_root t) = "" /\ NoDup (tree_paths t).*1)
  /\ (forall flat, flattenTree t = Ok flat -> flat_of t flat).
Proof.
  pose proof (flattenTree_spec t) as H. destruct (flattenTree t) as [flat|e]; simpl.
  - destruct H as (H1 & H2 & H3). split; [done|]. by intros flat' <-%Ok_inj.
  - split; [|done]. split; [done|]. intros [H1 H2]. by destruct H.
Qed.

(** A relative path is accepted exactly when every component between its
    slashes is a proper name, so that no file or directory of a snapshot lies
    outside its root; the accepted path is returned unchanged. *)
Theorem relative_paths_stay_inside path out :
  normalizeRelativePath path = Ok out <-> out = path /\ Forall proper_name (splitRelative path).
Proof. apply normalizeRelativePath_Ok. Qed.
