(* ===== verification/Allocation.v ===== *)
(** * Assigning source items to transfers

    [internal/sourcefiles/allocation.go]: transfer weights, the greedy weighted
    assignment of files, the round robin of empty directories and the queries
    on the result. *)
From S2P Require Import Prelude Sorting GoText TransferNumber Paths SourceTree.

Record TransferWeight : Type := MkWeight { transfer : Number; weight : Z }.

(** [TransferWeights]: the private list of a validated value. *)
Definition TransferWeights : Type := list TransferWeight.

Record transferLoad : Type := MkLoad { load_weight : TransferWeight; load_bytes : Z }.

Record TransferAllocation : Type := MkAllocation {
  snapshot : SourceSnapshot;
  transfers : list Number;
  transferIndex : gmap Number nat;
  fileOwners : list Number;
  emptyDirOwners : list Number;
  totalBytes : list Z
}.

Definition NewTransferWeight (t : Number) (w : Z) : result TransferWeight :=
  if (Value t =? 0) || (w =? 0) then Err (ErrText "source transfer weight must be positive")
  else Ok (MkWeight t w).

Definition weight_less (x y : TransferWeight) : bool := Value (transfer x) <? Value (transfer y).

Fixpoint check_weights (index : Z) (previous : option TransferWeight) (ws : list TransferWeight) : option error :=
  match ws with
  | [] => None
  | w :: ws =>
      if (Value (transfer w) =? 0) || (weight w =? 0) then
        Some (ErrText ("source transfer weight " +:+ pretty index +:+ " is invalid"))
      else if bool_decide (transfer <$> previous = Some (transfer w)) then
        Some (ErrText ("source transfer " +:+ pretty (Value (transfer w)) +:+ " is repeated"))
      else check_weights (index + 1) (Some w) ws
  end.

Definition NewTransferWeights (values : list TransferWeight) : result TransferWeights :=
  if (zlen values =? 0) || (Maximum <? zlen values) then
    Err (ErrText ("source allocation requires 1.." +:+ pretty Maximum +:+ " transfers"))
  else
    let copied := sort_by weight_less values in
    check! check_weights 0 None copied in Ok copied.

(** ** Comparing loads *)
Definition Mul64 (x y : Z) : Z * Z := ((x * y) / 2 ^ 64, (x * y) mod 2 ^ 64).

Definition compareLoad (left right : transferLoad) : Z :=
  let '(leftHigh, leftLow) := Mul64 (load_bytes left) (weight (load_weight right)) in
  let '(rightHigh, rightLow) := Mul64 (load_bytes right) (weight (load_weight left)) in
  if (leftHigh <? rightHigh) || ((leftHigh =? rightHigh) && (leftLow <? rightLow)) then -1
  else if (leftHigh =? rightHigh) && (leftLow =? rightLow) then 0
  else 1.

Definition zero_load : transferLoad := MkLoad (MkWeight number_zero 0) 0.

(** [loads[i]] where the code's indexes are in range. *)
Definition load_at (loads : list transferLoad) (i : nat) : transferLoad := nth i loads zero_load.

Definition minimumLoad (loads : list transferLoad) : nat :=
  foldl (fun minimum index => if compareLoad (load_at loads index) (load_at loads minimum) <? 0 then index else minimum)
    0%nat (seq 1 (length loads - 1)).

(** ** Files *)
Definition zero_file : SourceFile := MkSourceFile "" 0 (MkBacking 0 "").
Definition file_at (files : list SourceFile) (i : nat) : SourceFile := nth i files zero_file.

(** Larger files first, then by path. *)
Definition order_less (files : list SourceFile) : nat -> nat -> bool :=
  lex_less (fun l r => size (file_at files r) <? size (file_at files l))
    (fun l r => sltb (relativePath (file_at files l)) (relativePath (file_at files r))).

Fixpoint allocate_loop (files : list SourceFile) (order : list nat) (loads : list transferLoad)
  (owners : list Number) : result (list Number * list transferLoad) :=
  match order with
  | [] => Ok (owners, loads)
  | fileIndex :: order =>
      let chosen := minimumLoad loads in
      let load := load_at loads chosen in
      let sz := size (file_at files fileIndex) in
      if MaxUint64 - sz <? load_bytes load then
        Err (ErrText ("source transfer " +:+ pretty (Value (transfer (load_weight load))) +:+ " byte total overflows"))
      else
        allocate_loop files order (<[chosen := MkLoad (load_weight load) (load_bytes load + sz)]> loads)
          (<[fileIndex := transfer (load_weight load)]> owners)
  end.

Definition allocateFiles (files : list SourceFile) (loads : list transferLoad)
  : result (list Number * list transferLoad) :=
  allocate_loop files (sort_by (order_less files) (seq 0 (length files))) loads
    (replicate (length files) number_zero).

Definition allocateEmptyDirectories (count : nat) (transfers : list Number) : list Number :=
  (fun index => nth (index mod length transfers) transfers number_zero) <$> seq 0 count.

(** ** The checks on the result *)
Fixpoint check_transfers (index : nat) (transferIndex : gmap Number nat) (ts : list Number) : bool :=
  match ts with
  | [] => true
  | t :: ts =>
      negb ((Value t =? 0) || negb (bool_decide (default 0%nat (transferIndex !! t) = index)))
      && check_transfers (S index) transferIndex ts
  end.

Fixpoint recompute (files : list SourceFile) (transferIndex : gmap Number nat) (index : nat)
  (owners : list Number) (calculated : list Z) : option (list Z) :=
  match owners with
  | [] => Some calculated
  | owner :: owners =>
      match transferIndex !! owner with
      | None => None
      | Some i =>
          let current := nth i calculated 0 in
          let sz := size (file_at files index) in
          if MaxUint64 - sz <? current then None
          else recompute files transferIndex (S index) owners (<[i := current + sz]> calculated)
      end
  end.

Definition validateTransferAllocation (allocation : TransferAllocation) : option error :=
  match snapshot allocation with
  | None => Some (ErrText "source allocation is incomplete")
  | Some contents =>
      let flat := entries contents in
      if (zlen (transfers allocation) =? 0)
         || negb (bool_decide (length (fileOwners allocation) = length (files flat)))
         || negb (bool_decide (length (emptyDirOwners allocation) = length (emptyDirs flat)))
         || negb (bool_decide (length (totalBytes allocation) = length (transfers allocation)))
         || negb (bool_decide (base.size (transferIndex allocation) = length (transfers allocation)))
      then Some (ErrText "source allocation is incomplete")
      else if negb (check_transfers 0 (transferIndex allocation) (transfers allocation)) then
        Some (ErrText "source allocation transfers are invalid")
      else
        match recompute (files flat) (transferIndex allocation) 0 (fileOwners allocation)
                (replicate (length (transfers allocation)) 0) with
        | None => Some (ErrText "source allocation file owner or byte total is invalid")
        | Some calculated =>
            if negb (forallb (fun owner => bool_decide (is_Some (transferIndex allocation !! owner)))
                       (emptyDirOwners allocation)) then
              Some (ErrText "source allocation empty-directory owner is invalid")
            else if negb (bool_decide (calculated = totalBytes allocation)) then
              Some (ErrText "source allocation byte totals are inconsistent")
            else None
        end
  end.

(** The checks of the first loop of [AllocateTransferItems]. *)
Fixpoint check_positive (index : Z) (ws : list TransferWeight) : option error :=
  match ws with
  | [] => None
  | w :: ws =>
      if (Value (transfer w) =? 0) || (weight w =? 0) then
        Some (ErrText ("source transfer weight " +:+ pretty index +:+ " is invalid"))
      else check_positive (index + 1) ws
  end.

Definition ErrNoTransferItems : error :=
  ErrSentinel "source contains no transferable files or empty directories".

Definition AllocateTransferItems (snapshot : SourceSnapshot) (weights : TransferWeights)
  : result TransferAllocation :=
  match snapshot with
  | None => Err ErrNoTransferItems
  | Some contents =>
      if FileCount snapshot + EmptyDirectoryCount snapshot =? 0 then Err ErrNoTransferItems
      else if zlen weights =? 0 then Err (ErrText "source allocation requires transfer weights")
      else
        check! check_positive 0 weights in
        let loads := (fun w => MkLoad w 0) <$> weights in
        let transfers := transfer <$> weights in
        let transferIndex := index_by id transfers in
        let* ' (fileOwners, loads) := allocateFiles (files (entries contents)) loads in
        let emptyDirOwners := allocateEmptyDirectories (length (emptyDirs (entries contents))) transfers in
        let allocation :=
          MkAllocation snapshot transfers transferIndex fileOwners emptyDirOwners (load_bytes <$> loads) in
        check! validateTransferAllocation allocation in Ok allocation
  end.

(** ** Queries *)
Definition OwnerOf (allocation : TransferAllocation) (path : string) : option Number :=
  match snapshot allocation with
  | None => None
  | Some contents =>
      let flat := entries contents in
      if default 0 (entryKinds flat !! path) =? RegularFileEntry then
        Some (nth (default 0%nat (fileIndex flat !! path)) (fileOwners allocation) number_zero)
      else if default 0 (entryKinds flat !! path) =? DirectoryEntry then
        match emptyDirIndex flat !! path with
        | None => None
        | Some index => Some (nth index (emptyDirOwners allocation) number_zero)
        end
      else None
  end.

Definition TotalBytes (allocation : TransferAllocation) (t : Number) : option Z :=
  match transferIndex allocation !! t with
  | None => None
  | Some index => Some (nth index (totalBytes allocation) 0)
  end.

(** The sequences [Files] and [EmptyDirectories] yield. *)
Definition owned {A} (items : list A) (owners : list Number) (t : Number) : list A :=
  (snd <$> List.filter (fun ox => bool_decide (ox.1 = t)) (zip owners items)).

Definition Files (allocation : TransferAllocation) (t : Number) : list SourceFile :=
  match snapshot allocation with
  | None => []
  | Some contents => owned (files (entries contents)) (fileOwners allocation) t
  end.

Definition EmptyDirectories (allocation : TransferAllocation) (t : Number) : list SourceDirectory :=
  match snapshot allocation with
  | None => []
  | Some contents => owned (emptyDirs (entries contents)) (emptyDirOwners allocation) t
  end.
