(* ===== verification/AllocationProofs.v ===== *)
(** * The assignment is a balanced partition

    Every file and empty directory of the snapshot gets exactly one owner, the
    byte totals are those of the owned files, the only failure beside an empty
    source is a byte total that does not fit 64 bits, and no transfer is loaded
    ahead of another by more than its smallest file. *)
From S2P Require Import Prelude Sorting GoText TransferNumber Paths SourceTree Allocation.

(** ** Weights *)
Definition weight_ok (w : TransferWeight) : Prop :=
  1 <= Value (transfer w) <= Maximum /\ 1 <= weight w < 2 ^ 64.

(** The range of the Go types: a number or zero, and a [uint64]. *)
Definition weight_wf (w : TransferWeight) : Prop := number_wf (transfer w) /\ in_u 64 (weight w).

(** A validated value: at least one transfer, ordered, each once. *)
Record weights_ok (ws : list TransferWeight) : Prop := {
  wo_some : ws <> [];
  wo_each : Forall weight_ok ws;
  wo_sorted : StronglySorted (fun x y => Value (transfer x) < Value (transfer y)) ws
}.

Lemma check_weights_None index previous ws :
  Forall weight_wf ws -> StronglySorted (not_after weight_less) ws ->
  (forall p, previous = Some p -> Forall (fun w => Value (transfer p) <= Value (transfer w)) ws) ->
  check_weights index previous ws = None ->
  Forall weight_ok ws /\ StronglySorted (fun x y => Value (transfer x) < Value (transfer y)) ws
  /\ (forall p, previous = Some p -> Forall (fun w => Value (transfer p) < Value (transfer w)) ws).
Proof.
  revert index previous; induction ws as [|w ws IH]; intros index previous Hwf Hs Hp; simpl.
  { intros _. split_and!; [constructor|constructor|by constructor]. }
  apply Forall_cons in Hwf as [Hw Hwf]. apply StronglySorted_inv in Hs as [Hs Hsw].
  destruct (_ || _) eqn:E; [done|]. case_bool_decide as Hprev; [done|]. bool_to_prop.
  assert (Forall (fun x => Value (transfer w) <= Value (transfer x)) ws) as Hle.
  { eapply Forall_impl; [exact Hsw|]. intros x Hx. unfold not_after, weight_less in Hx. lia. }
  intros (Hok & Hsort & Hfst)%IH; [|done|done|by intros ? [= <-]].
  assert (weight_ok w) as Hwok.
  { destruct Hw as [Hn Hu]. unfold weight_ok, number_wf, in_u in *. lia. }
  split_and!; [by constructor|constructor; [done|by apply Hfst]|].
  intros p ->. specialize (Hp p eq_refl). apply Forall_cons in Hp as [Hpw Hpws].
  assert (Value (transfer p) < Value (transfer w)) as Hlt.
  { simpl in Hprev. destruct (transfer p) as [vp], (transfer w) as [vw]. simpl in *.
    assert (vp <> vw) by congruence. lia. }
  constructor; [done|]. eapply Forall_impl; [exact (Hfst w eq_refl)|]. simpl. lia.
Qed.

Lemma NewTransferWeights_ok values ws :
  Forall weight_wf values -> NewTransferWeights values = Ok ws ->
  weights_ok ws /\ ws ≡ₚ values /\ 1 <= zlen ws <= Maximum.
Proof.
  unfold NewTransferWeights. intros Hwf. destruct (_ || _) eqn:E; [done|]. bool_to_prop.
  intros [Hc <-%Ok_inj]%check_Ok_inv. pose proof (sort_by_perm weight_less values) as Hp.
  apply check_weights_None in Hc as (Hok & Hs & _); [|by rewrite Hp|apply (sort_by_sorted weight_less)|done].
  pose proof (sort_by_length weight_less values) as Hl.
  pose proof (zlen_nonneg values). unfold zlen in *. rewrite Hl.
  split_and!; [split; [|done|done]|done|lia|lia]. intros E. rewrite E in Hl. simpl in Hl. lia.
Qed.

Lemma weights_ok_NoDup ws : weights_ok ws -> NoDup (transfer <$> ws).
Proof.
  intros [_ _ Hs]. induction Hs as [|w ws Hs IH Hw]; csimpl; [constructor|]. constructor; [|done].
  intros (x & Hx & Hin)%list_elem_of_fmap. rewrite Forall_forall in Hw. specialize (Hw x Hin). rewrite Hx in Hw. lia.
Qed.

(** ** Comparing loads *)
Lemma compareLoad_spec l r :
  compareLoad l r
  = match load_bytes l * weight (load_weight r) ?= load_bytes r * weight (load_weight l) with
    | Lt => -1 | Eq => 0 | Gt => 1
    end.
Proof.
  unfold compareLoad, Mul64. cbv zeta.
  generalize (load_bytes l * weight (load_weight r)) (load_bytes r * weight (load_weight l)). intros a b.
  pose proof (Z.div_mod a (2 ^ 64) ltac:(lia)). pose proof (Z.mod_pos_bound a (2 ^ 64) ltac:(lia)).
  pose proof (Z.div_mod b (2 ^ 64) ltac:(lia)). pose proof (Z.mod_pos_bound b (2 ^ 64) ltac:(lia)).
  generalize dependent (a / 2 ^ 64). generalize dependent (a mod 2 ^ 64).
  generalize dependent (b / 2 ^ 64). generalize dependent (b mod 2 ^ 64). intros.
  change (2 ^ 64) with 18446744073709551616 in *.
  destruct (Z.compare_spec a b), (Z.ltb_spec z2 z0), (Z.ltb_spec z1 z), (Z.eqb_spec z2 z0), (Z.eqb_spec z1 z);
    simpl; try done; lia.
Qed.

Lemma compareLoad_lt l r :
  compareLoad l r < 0 <-> load_bytes l * weight (load_weight r) < load_bytes r * weight (load_weight l).
Proof. rewrite compareLoad_spec. destruct (Z.compare_spec (load_bytes l * weight (load_weight r)) (load_bytes r * weight (load_weight l))); lia. Qed.

Definition load_le (l r : transferLoad) : Prop :=
  load_bytes l * weight (load_weight r) <= load_bytes r * weight (load_weight l).

Definition load_wf (l : transferLoad) : Prop := 0 <= load_bytes l /\ 0 < weight (load_weight l).

Lemma load_le_trans x y z : load_wf x -> load_wf y -> load_wf z -> load_le x y -> load_le y z -> load_le x z.
Proof. unfold load_wf, load_le. intros. nia. Qed.

Lemma load_at_lookup loads i l : loads !! i = Some l -> load_at loads i = l.
Proof. unfold load_at. by apply nth_lookup_Some. Qed.

(** The chosen transfer has the least load for its weight. *)
Lemma minimumLoad_spec loads :
  loads <> [] -> Forall load_wf loads ->
  exists l, loads !! minimumLoad loads = Some l /\ Forall (load_le l) loads.
Proof.
  intros Hne Hwf. unfold minimumLoad.
  assert (forall k, (k < length loads)%nat ->
    exists l, loads !! (foldl (fun minimum index => if compareLoad (load_at loads index) (load_at loads minimum) <? 0
      then index else minimum) 0%nat (seq 1 k)) = Some l /\ Forall (load_le l) (take (S k) loads)) as Hk.
  { induction k as [|k IH]; intros Hk.
    - destruct loads as [|l loads]; [done|]. exists l. split; [done|]. repeat constructor. unfold load_le. lia.
    - destruct IH as (l & Hl & Hle); [lia|]. rewrite seq_S, foldl_snoc.
      destruct (lookup_lt_is_Some_2 loads (1 + k)%nat Hk) as [x Hx].
      rewrite (load_at_lookup _ _ _ Hx), (load_at_lookup _ _ _ Hl).
      rewrite (take_S_r loads (S k) x Hx). rewrite Forall_forall in Hwf.
      assert (load_wf x) by (apply Hwf; by eapply list_elem_of_lookup_2).
      assert (load_wf l) by (apply Hwf; by eapply list_elem_of_lookup_2).
      destruct (Z.ltb_spec (compareLoad x l) 0) as [Hc|Hc].
      + apply compareLoad_lt in Hc. exists x. split; [done|]. apply Forall_app. split.
        * rewrite Forall_forall in Hle |- *. intros y Hy. apply (load_le_trans x l y); try done.
          -- apply Hwf. by eapply subseteq_take.
          -- unfold load_le. lia.
          -- by apply Hle.
        * constructor; [unfold load_le; lia|constructor].
      + exists l. split; [done|]. apply Forall_app. split; [done|]. constructor; [|constructor].
        assert (~ compareLoad x l < 0) as Hn by lia. rewrite compareLoad_lt in Hn. unfold load_le. lia. }
  destruct loads as [|l0 loads]; [done|]. destruct (Hk (length loads) ltac:(simpl; lia)) as (l & Hl & Hle).
  exists l. simpl length in *. rewrite Nat.sub_succ, Nat.sub_0_r. split; [done|].
  rewrite take_ge in Hle by (simpl; lia). done.
Qed.

(** ** Sums *)
Definition zsum (l : list Z) : Z := foldr Z.add 0 l.

Lemma zsum_app l k : zsum (l ++ k) = zsum l + zsum k.
Proof. induction l as [|x l IH]; simpl; [done|]. unfold zsum in *; simpl. lia. Qed.

Lemma zsum_perm l k : l ≡ₚ k -> zsum l = zsum k.
Proof. induction 1; unfold zsum in *; simpl; lia. Qed.

#[export] Instance zsum_proper : Proper ((≡ₚ) ==> (=)) zsum.
Proof. exact zsum_perm. Qed.

Lemma zsum_nonneg l : Forall (fun x => 0 <= x) l -> 0 <= zsum l.
Proof. induction 1; unfold zsum in *; simpl; lia. Qed.

Lemma zsum_zero l : Forall (fun x => x = 0) l -> zsum l = 0.
Proof. induction 1; unfold zsum in *; simpl; lia. Qed.

Section Files.
Variable fs : list SourceFile.
Hypothesis Hsizes : Forall (fun f => in_u 64 (size f)) fs.

Definition sz (i : nat) : Z := size (file_at fs i).

Lemma sz_range i : in_u 64 (sz i).
Proof.
  unfold sz, file_at. destruct (fs !! i) as [f|] eqn:E.
  - rewrite (nth_lookup_Some _ _ _ _ E). rewrite Forall_forall in Hsizes.
    by apply Hsizes; eapply list_elem_of_lookup_2.
  - rewrite nth_overflow; [done|]. by apply lookup_ge_None.
Qed.

(** The bytes of the files in [idxs] that [t] owns. *)
Definition share (owners : list Number) (t : Number) (i : nat) : Z :=
  if bool_decide (owners !! i = Some t) then sz i else 0.
Definition load_of (owners : list Number) (idxs : list nat) (t : Number) : Z := zsum (share owners t <$> idxs).

Definition total_size (idxs : list nat) : Z := zsum (sz <$> idxs).

Lemma total_size_app idxs1 idxs2 : total_size (idxs1 ++ idxs2) = total_size idxs1 + total_size idxs2.
Proof. unfold total_size. by rewrite fmap_app, zsum_app. Qed.

Lemma total_size_one i : total_size [i] = sz i.
Proof. unfold total_size, zsum; simpl. lia. Qed.

Lemma total_size_nonneg idxs : 0 <= total_size idxs.
Proof. apply zsum_nonneg, Forall_fmap, Forall_true. intros i. apply sz_range. Qed.

Lemma share_range owners t i : 0 <= share owners t i <= sz i.
Proof. pose proof (sz_range i) as [? _]. unfold share. case_bool_decide; lia. Qed.

Lemma load_of_le owners idxs t : 0 <= load_of owners idxs t <= total_size idxs.
Proof.
  unfold load_of, total_size. induction idxs as [|i idxs IH]; csimpl; [done|]. pose proof (share_range owners t i).
  unfold zsum in *; simpl. lia.
Qed.

Lemma load_of_insert owners idxs i t t0 :
  i ∉ idxs -> (i < length owners)%nat ->
  load_of (<[i := t0]> owners) (idxs ++ [i]) t
  = load_of owners idxs t + (if bool_decide (t = t0) then sz i else 0).
Proof.
  intros Hi Hlen. unfold load_of. rewrite fmap_app, zsum_app. f_equal.
  - f_equal. apply list_fmap_ext. intros k j Hj. unfold share. rewrite list_lookup_insert_ne; [done|].
    intros <-. apply Hi. by eapply list_elem_of_lookup_2.
  - csimpl. unfold share. rewrite list_lookup_insert_eq by done. unfold zsum; simpl. rewrite Z.add_0_r.
    do 2 case_bool_decide; congruence || done.
Qed.

(** What the loop knows after the files [done]. *)
Record assigned (ws : list TransferWeight) (processed : list nat) (loads : list transferLoad) (owners : list Number)
  : Prop := {
  as_weights : load_weight <$> loads = ws;
  as_length : length owners = length fs;
  as_bytes l : l ∈ loads -> load_bytes l = load_of owners processed (transfer (load_weight l)) /\ load_bytes l <= MaxUint64;
  as_owned i : i ∈ processed -> exists w, w ∈ ws /\ owners !! i = Some (transfer w);
  as_balance l : l ∈ loads ->
    (forall i, i ∈ processed -> owners !! i <> Some (transfer (load_weight l))) \/
    exists i, i ∈ processed /\ owners !! i = Some (transfer (load_weight l))
      /\ (forall j, j ∈ processed -> owners !! j = Some (transfer (load_weight l)) -> sz i <= sz j)
      /\ (forall m, m ∈ loads ->
            (load_bytes l - sz i) * weight (load_weight m) <= load_bytes m * weight (load_weight l))
}.

Lemma elem_of_insert_list {A} (l : list A) i (x y : A) :
  y ∈ <[i := x]> l -> y = x \/ exists j, j <> i /\ l !! j = Some y.
Proof.
  intros [j Hj]%list_elem_of_lookup. destruct (decide (j = i)) as [->|Hne].
  - left. destruct (decide (i < length l)%nat) as [Hl|Hl].
    + rewrite list_lookup_insert_eq in Hj by done. congruence.
    + rewrite list_insert_ge in Hj by lia. apply lookup_lt_Some in Hj. lia.
  - right. exists j. by rewrite list_lookup_insert_ne in Hj.
Qed.

Lemma fmap_insert_same {A B} (f : A -> B) (l : list A) i x y :
  l !! i = Some x -> f y = f x -> f <$> <[i := y]> l = f <$> l.
Proof.
  intros Hi Hf. rewrite list_fmap_insert, Hf. apply list_insert_id. by rewrite list_lookup_fmap, Hi.
Qed.

(** One file more. *)
Lemma assigned_step ws processed loads owners i :
  weights_ok ws -> assigned ws processed loads owners ->
  i ∉ processed -> (i < length fs)%nat -> (forall j, j ∈ processed -> sz i <= sz j) ->
  exists l0, loads !! minimumLoad loads = Some l0 /\
  (load_bytes l0 <= MaxUint64 - sz i ->
   assigned ws (processed ++ [i]) (<[minimumLoad loads := MkLoad (load_weight l0) (load_bytes l0 + sz i)]> loads)
     (<[i := transfer (load_weight l0)]> owners)).
Proof.
  intros Hws [Hw Hlen Hbytes Howned Hbal] Hi Hlt Hdesc. pose proof (weights_ok_NoDup _ Hws) as Hnd.
  destruct Hws as [Hsome Heach _].
  assert (forall l, l ∈ loads -> load_weight l ∈ ws) as Hin.
  { intros l Hl. rewrite <- Hw. by apply list_elem_of_fmap_2. }
  assert (Forall load_wf loads) as Hwf.
  { apply Forall_forall. intros l Hl. destruct (Hbytes l Hl) as [Hlb _].
    rewrite Forall_forall in Heach. destruct (Heach _ (Hin l Hl)) as [_ ?].
    pose proof (load_of_le owners processed (transfer (load_weight l))). unfold load_wf. lia. }
  destruct (minimumLoad_spec loads) as (l0 & Hl0 & Hmin); [|done|].
  { intros ->. simpl in Hw. by subst. }
  set (c := minimumLoad loads) in *. exists l0. split; [done|]. intros Hfit.
  set (l0' := MkLoad (load_weight l0) (load_bytes l0 + sz i)).
  pose proof (sz_range i) as [Hsz _]. pose proof (list_elem_of_lookup_2 _ _ _ Hl0) as Hl0in.
  assert (forall l j, j <> c -> loads !! j = Some l -> transfer (load_weight l) <> transfer (load_weight l0)) as Hother.
  { intros l j Hj Hl He. apply Hj. rewrite <- Hw in Hnd.
    apply (NoDup_lookup _ _ _ (transfer (load_weight l)) Hnd).
    - rewrite !list_lookup_fmap, Hl. done.
    - rewrite !list_lookup_fmap, Hl0. simpl. by rewrite He. }
  assert (forall j, j ∈ processed -> <[i := transfer (load_weight l0)]> owners !! j = owners !! j) as Hsame.
  { intros j Hj. apply list_lookup_insert_ne. intros <-. done. }
  assert (forall m', m' ∈ <[c := l0']> loads -> exists m, m ∈ loads /\ load_weight m' = load_weight m
    /\ load_bytes m <= load_bytes m') as Hgrow.
  { intros m' [->|(j & Hj & Hm)]%elem_of_insert_list.
    - exists l0. simpl. split_and!; [done|done|lia].
    - exists m'. split_and!; [by eapply list_elem_of_lookup_2|done|lia]. }
  split.
  - rewrite (fmap_insert_same load_weight loads c l0 l0'); done.
  - by rewrite length_insert.
  - intros l' Hl'. apply elem_of_insert_list in Hl' as [->|(j & Hj & Hl)]; rewrite load_of_insert by (done || lia).
    + simpl. rewrite bool_decide_eq_true_2 by done. destruct (Hbytes l0 Hl0in) as [E _]. lia.
    + rewrite bool_decide_eq_false_2 by (by eapply Hother).
      destruct (Hbytes l' (list_elem_of_lookup_2 _ _ _ Hl)) as [E ?]. lia.
  - intros j Hj. apply elem_of_app in Hj as [Hj|Hj].
    + destruct (Howned j Hj) as (w & ? & ?). exists w. by rewrite Hsame.
    + apply list_elem_of_singleton in Hj as ->. exists (load_weight l0). split; [by apply Hin|].
      apply list_lookup_insert_eq. lia.
  - intros l' Hl'. apply elem_of_insert_list in Hl' as [->|(j & Hj & Hl)].
    + right. exists i. simpl. split_and!.
      * apply elem_of_app. right. by apply list_elem_of_singleton.
      * apply list_lookup_insert_eq. lia.
      * intros j [Hj|Hj]%elem_of_app _; [by apply Hdesc|]. by apply list_elem_of_singleton in Hj as ->.
      * intros m' (m & Hm & -> & Hle)%Hgrow. rewrite Forall_forall in Hmin. specialize (Hmin m Hm). unfold load_le in Hmin.
        rewrite Forall_forall in Hwf. destruct (Hwf l0 Hl0in). nia.
    + pose proof (list_elem_of_lookup_2 _ _ _ Hl) as Hlin.
      assert (<[i := transfer (load_weight l0)]> owners !! i <> Some (transfer (load_weight l'))) as Hni.
      { rewrite list_lookup_insert_eq by lia. intros [= E]. by eapply Hother. }
      destruct (Hbal l' Hlin) as [Hnone|(k & Hk & Hok & Hmink & Hbk)].
      * left. intros x [Hx|Hx]%elem_of_app; [rewrite Hsame by done; by apply Hnone|].
        by apply list_elem_of_singleton in Hx as ->.
      * right. exists k. split_and!; [by apply elem_of_app; left|by rewrite Hsame| |].
        -- intros x [Hx|Hx]%elem_of_app; [rewrite Hsame by done; by apply Hmink|].
           apply list_elem_of_singleton in Hx as ->. done.
        -- intros m' (m & Hm & Hwm & Hle)%Hgrow. rewrite Hwm. specialize (Hbk m Hm).
           rewrite Forall_forall in Hwf. destruct (Hwf l' Hlin). nia.
Qed.

(** The whole loop: all files assigned, or a sum of sizes beyond 64 bits. *)
Lemma allocate_loop_spec ws order : forall processed loads owners,
  weights_ok ws -> assigned ws processed loads owners ->
  NoDup (processed ++ order) -> Forall (fun i => (i < length fs)%nat) order ->
  StronglySorted (fun i j => sz j <= sz i) (processed ++ order) ->
  match allocate_loop fs order loads owners with
  | Ok (owners', loads') => assigned ws (processed ++ order) loads' owners'
  | Err _ => MaxUint64 < total_size (processed ++ order)
  end.
Proof.
  induction order as [|i order IH]; intros processed loads owners Hws Has Hnd Hlt Hs; cbn [allocate_loop].
  { by rewrite app_nil_r. }
  apply Forall_cons in Hlt as [Hi Hlt].
  assert ((i ∉ processed) /\ (forall j, j ∈ processed -> sz i <= sz j)) as [Hni Hdesc].
  { apply NoDup_app in Hnd as (_ & Hd & _). split; [intros Hx; apply (Hd i Hx); by left|].
    apply StronglySorted_app in Hs as (Hs & _ & _). intros j Hj. apply Hs; [done|by left]. }
  destruct (assigned_step ws processed loads owners i Hws Has Hni Hi Hdesc) as (l0 & Hl0 & Hstep).
  rewrite (load_at_lookup _ _ _ Hl0). fold (sz i). 
  replace (processed ++ (i :: order)) with ((processed ++ [i]) ++ order) in * by (by rewrite <- app_assoc).
  destruct (Z.ltb_spec (MaxUint64 - sz i) (load_bytes l0)) as [Hov|Hfit].
  - destruct Has as [_ _ Hbytes _ _]. destruct (Hbytes l0 (list_elem_of_lookup_2 _ _ _ Hl0)) as [E _].
    pose proof (load_of_le owners processed (transfer (load_weight l0))).
    pose proof (total_size_nonneg order). rewrite !total_size_app, total_size_one. lia.
  - apply IH; try done. by apply Hstep.
Qed.
End Files.

(** ** Items by owner *)
Section Owned.
Context {A : Type}.
Implicit Types (items : list A) (owners : list Number).

Lemma owned_cons x items o owners t :
  owned (x :: items) (o :: owners) t = (if bool_decide (o = t) then [x] else []) ++ owned items owners t.
Proof. unfold owned. simpl. by case_bool_decide. Qed.

Lemma owned_elem items owners t x :
  x ∈ owned items owners t <-> exists i, owners !! i = Some t /\ items !! i = Some x.
Proof.
  revert owners; induction items as [|y items IH]; intros [|o owners];
    try (split; [unfold owned; simpl; set_solver|by intros ([|i] & ? & ?)]).
  rewrite owned_cons, elem_of_app, IH. split.
  - intros [Hx|(i & ? & ?)]; [|by exists (S i)].
    case_bool_decide; [|set_solver]. apply list_elem_of_singleton in Hx as ->. subst. by exists 0%nat.
  - intros ([|i] & Ho & Hi); simpl in *; [|right; by exists i].
    injection Ho as ->. injection Hi as ->. left. rewrite bool_decide_eq_true_2 by done. by left.
Qed.

(** Each item is owned by exactly one of the transfers. *)
Lemma owned_partition items owners ts :
  NoDup ts -> length owners = length items -> Forall (fun o => o ∈ ts) owners ->
  mjoin (owned items owners <$> ts) ≡ₚ items.
Proof.
  intros Hn. revert owners; induction items as [|x items IH]; intros [|o owners] Hl Ho; try done.
  { clear. induction ts as [|t ts IH]; [done|]. rewrite fmap_cons, mjoin_cons, IH. by rewrite app_nil_r. }
  injection Hl as Hl. apply Forall_cons in Ho as [Hin Ho]. rewrite <- (IH owners) at 2 by done.
  apply list_elem_of_split in Hin as (t1 & t2 & ->). apply NoDup_app in Hn as (_ & Hd & Hn2).
  apply NoDup_cons in Hn2 as [Hn2 _].
  assert (forall us : list Number, o ∉ us -> owned (x :: items) (o :: owners) <$> us = owned items owners <$> us) as Hsame.
  { intros us Hus. apply list_fmap_ext. intros i u Hu. rewrite owned_cons, bool_decide_eq_false_2; [done|].
    intros ->. apply Hus. by eapply list_elem_of_lookup_2. }
  rewrite !fmap_app, !fmap_cons, !join_app, !mjoin_cons, !Hsame; [|done|intros Ht; apply (Hd o Ht); by left].
  rewrite owned_cons, bool_decide_eq_true_2 by done. simpl. symmetry. apply Permutation_middle.
Qed.
End Owned.

Section Totals.
Variable fs : list SourceFile.
Hypothesis Hsizes : Forall (fun f => in_u 64 (size f)) fs.

(** The bytes of [t]'s files among those from position [s] on. *)
Fixpoint owner_sum (t : Number) (s : nat) (owners : list Number) : Z :=
  match owners with
  | [] => 0
  | o :: owners => (if bool_decide (o = t) then sz fs s else 0) + owner_sum t (S s) owners
  end.

Lemma owner_sum_nonneg t s owners : 0 <= owner_sum t s owners.
Proof.
  revert s; induction owners as [|o owners IH]; intros s; simpl; [lia|]. specialize (IH (S s)).
  pose proof (sz_range fs Hsizes s) as [? _]. case_bool_decide; lia.
Qed.

Lemma owner_sum_load t owners : owner_sum t 0 owners = load_of fs owners (seq 0 (length owners)) t.
Proof.
  assert (forall s, owner_sum t s owners
    = zsum ((fun i => if bool_decide (owners !! i = Some t) then sz fs (s + i) else 0) <$> seq 0 (length owners))) as H;
    [|apply (H 0%nat)].
  induction owners as [|o owners IH]; intros s; [done|].
  cbn [owner_sum length seq]. rewrite fmap_cons. unfold zsum; cbn [foldr]. rewrite IH, Nat.add_0_r. f_equal.
  - simpl. do 2 case_bool_decide; congruence || done.
  - rewrite <- fmap_S_seq, <- list_fmap_compose. unfold zsum. f_equal. apply list_fmap_ext. intros i x _. simpl.
    by rewrite Nat.add_succ_r.
Qed.

Lemma owner_sum_owned t owners :
  length owners = length fs -> owner_sum t 0 owners = zsum (size <$> owned fs owners t).
Proof.
  assert (forall s gs, length owners = length gs -> (forall i f, gs !! i = Some f -> file_at fs (s + i) = f) ->
    owner_sum t s owners = zsum (size <$> owned gs owners t)) as H.
  { induction owners as [|o owners IH]; intros s [|g gs] Hl Hg; try done.
    rewrite owned_cons, fmap_app, zsum_app. cbn [owner_sum]. injection Hl as Hl.
    rewrite (IH (S s) gs); [|done|].
    - f_equal. case_bool_decide; [|done]. unfold sz. rewrite <- (Nat.add_0_r s), (Hg 0%nat g) by done.
      unfold zsum; simpl. lia.
    - intros i f Hi. rewrite Nat.add_succ_comm. by apply Hg. }
  intros Hl. apply H; [done|]. intros i f Hi. unfold file_at. by apply nth_lookup_Some.
Qed.

(** The second count of [validateTransferAllocation] agrees with the first. *)
Lemma recompute_spec (ts : list Number) (index : gmap Number nat) owners : forall s calc,
  (forall t i, index !! t = Some i <-> ts !! i = Some t) -> NoDup ts ->
  Forall (fun o => o ∈ ts) owners -> length calc = length ts ->
  (forall i t c, ts !! i = Some t -> calc !! i = Some c -> 0 <= c /\ c + owner_sum t s owners <= MaxUint64) ->
  exists calc', recompute fs index s owners calc = Some calc' /\ length calc' = length ts /\
    forall i t c, ts !! i = Some t -> calc !! i = Some c -> calc' !! i = Some (c + owner_sum t s owners).
Proof.
  induction owners as [|o owners IH]; intros s calc Hindex Hn Ho Hl Hfit; cbn [recompute].
  { exists calc. split_and!; [done|done|]. intros i t c _ Hc. simpl. by rewrite Z.add_0_r. }
  apply Forall_cons in Ho as [Hin Ho]. apply list_elem_of_lookup in Hin as [i Hi].
  pose proof Hi as Hio. apply Hindex in Hio. rewrite Hio.
  destruct (lookup_lt_is_Some_2 calc i) as [c Hc]; [rewrite Hl; by eapply lookup_lt_Some|].
  rewrite (nth_lookup_Some _ _ _ _ Hc). fold (sz fs s).
  pose proof (sz_range fs Hsizes s) as [Hsz _]. pose proof (owner_sum_nonneg o (S s) owners) as Hnn.
  destruct (Hfit i o c Hi Hc) as [Hc0 Hci]. cbn [owner_sum] in Hci. rewrite bool_decide_eq_true_2 in Hci by done.
  destruct (Z.ltb_spec (MaxUint64 - sz fs s) c); [lia|].
  assert (forall j t, ts !! j = Some t -> j <> i -> t <> o) as Hother.
  { intros j t Hj Hne ->. apply Hne. by eapply NoDup_lookup. }
  destruct (IH (S s) (<[i := c + sz fs s]> calc)) as (calc' & Hr & Hl' & Hcalc'); try done.
  - by rewrite length_insert.
  - intros j t d Hj Hd. destruct (decide (j = i)) as [->|Hne].
    + rewrite list_lookup_insert_eq in Hd by (rewrite Hl; by eapply lookup_lt_Some). injection Hd as <-.
      rewrite Hi in Hj. injection Hj as <-. lia.
    + rewrite list_lookup_insert_ne in Hd by done. destruct (Hfit j t d Hj Hd) as [? Hd2]. split; [done|].
      cbn [owner_sum] in Hd2. rewrite bool_decide_eq_false_2 in Hd2; [lia|]. intros <-. by eapply Hother.
  - exists calc'. split_and!; [done|done|]. intros j t d Hj Hd. cbn [owner_sum].
    destruct (decide (j = i)) as [->|Hne].
    + rewrite Hi in Hj. injection Hj as <-. rewrite Hc in Hd. injection Hd as <-.
      rewrite bool_decide_eq_true_2 by done. rewrite Z.add_assoc. apply Hcalc'; [done|].
      apply list_lookup_insert_eq. rewrite Hl. by eapply lookup_lt_Some.
    + rewrite bool_decide_eq_false_2 by (intros <-; by eapply Hother).
      rewrite Z.add_0_l. apply Hcalc'; [done|]. by rewrite list_lookup_insert_ne.
Qed.
End Totals.

(** ** The whole assignment *)
#[export] Instance order_less_swo fs : StrictWeakOrder (order_less fs).
Proof.
  apply swo_lex.
  - apply (swo_flip (fun x y => size (file_at fs x) <? size (file_at fs y))).
  - apply (swo_string (fun i => relativePath (file_at fs i))).
Qed.

(** The order of assignment: every position once, larger files first. *)
Lemma file_order_spec fs :
  let order := sort_by (order_less fs) (seq 0 (length fs)) in
  order ≡ₚ seq 0 (length fs) /\ StronglySorted (fun i j => sz fs j <= sz fs i) order.
Proof.
  intros order. split; [apply (sort_by_perm (order_less fs))|].
  pose proof (sort_by_sorted (order_less fs) (seq 0 (length fs))) as Hs. fold order in Hs.
  induction Hs as [|i l Hl IH Hi]; constructor; [done|]. eapply Forall_impl; [exact Hi|].
  intros j Hj. unfold not_after, order_less, lex_less in Hj.
  destruct (size (file_at fs i) <? size (file_at fs j)) eqn:E; [done|]. unfold sz. lia.
Qed.

(** Distinct paths leave no choice to the unstable sort. *)
Lemma file_order_unique fs order :
  NoDup (relativePath <$> fs) -> order ≡ₚ seq 0 (length fs) ->
  StronglySorted (not_after (order_less fs)) order -> order = sort_by (order_less fs) (seq 0 (length fs)).
Proof.
  intros Hn Hp Hs. apply (sort_by_unique (order_less fs)); [done|done|].
  intros i j Hi%elem_of_seq Hj%elem_of_seq H1 H2.
  destruct (lookup_lt_is_Some_2 fs i) as [f Hf]; [lia|]. destruct (lookup_lt_is_Some_2 fs j) as [g Hg]; [lia|].
  apply (NoDup_lookup _ _ _ (relativePath f) Hn); rewrite list_lookup_fmap, ?Hf, ?Hg; [done|]. simpl. f_equal.
  unfold order_less, lex_less, file_at in H1, H2. rewrite (nth_lookup_Some _ _ _ _ Hf), (nth_lookup_Some _ _ _ _ Hg) in H1, H2.
  destruct (size g <? size f) eqn:E1; [done|]. destruct (size f <? size g) eqn:E2; [done|].
  by apply sltb_total.
Qed.

Lemma allocateFiles_spec fs ws :
  Forall (fun f => in_u 64 (size f)) fs -> weights_ok ws ->
  match allocateFiles fs ((fun w => MkLoad w 0) <$> ws) with
  | Ok (owners, loads) => assigned fs ws (seq 0 (length fs)) loads owners
  | Err _ => MaxUint64 < total_size fs (seq 0 (length fs))
  end.
Proof.
  intros Hsizes Hws. unfold allocateFiles. destruct (file_order_spec fs) as [Hp Hs].
  set (order := sort_by (order_less fs) (seq 0 (length fs))) in *.
  assert (assigned fs ws [] ((fun w => MkLoad w 0) <$> ws) (replicate (length fs) number_zero)) as Has.
  { split.
    - rewrite <- list_fmap_compose. apply list_fmap_id.
    - apply length_replicate.
    - intros l (w & -> & _)%list_elem_of_fmap. simpl. done.
    - set_solver.
    - intros l _. left. set_solver. }
  pose proof (allocate_loop_spec fs Hsizes ws order [] _ _ Hws Has) as Hloop. simpl in Hloop.
  assert (NoDup order) as Hn by (rewrite Hp; apply NoDup_seq).
  assert (Forall (fun i => (i < length fs)%nat) order) as Hlt.
  { rewrite Hp. apply Forall_forall. intros i Hi%elem_of_seq. lia. }
  specialize (Hloop Hn Hlt Hs).
  destruct (allocate_loop _ _ _ _) as [[owners loads]|e].
  - destruct Hloop as [H1 H2 H3 H4 H5]. split; try done.
    + intros l Hl. destruct (H3 l Hl) as [E ?]. split; [|done]. rewrite E. unfold load_of. apply zsum_perm.
      by rewrite Hp.
    + intros i Hi. apply H4. by rewrite Hp.
    + intros l Hl. destruct (H5 l Hl) as [Hnone|(i & Hi & Ho & Hm & Hb)].
      * left. intros i Hi. apply Hnone. by rewrite Hp.
      * right. exists i. split_and!; [by rewrite <- Hp|done| |done]. intros j Hj. apply Hm. by rewrite Hp.
  - unfold total_size in *. by rewrite Hp in Hloop.
Qed.

(** What a complete allocation of the snapshot [c] by [ws] is. *)
Record allocation_ok (c : sourceSnapshotContents) (ws : list TransferWeight) (a : TransferAllocation) : Prop := {
  ao_snapshot : snapshot a = Some c;
  ao_transfers : transfers a = transfer <$> ws;
  ao_files : mjoin (Files a <$> transfers a) ≡ₚ files (entries c);
  ao_dirs : mjoin (EmptyDirectories a <$> transfers a) ≡ₚ emptyDirs (entries c);
  ao_totals t : t ∈ transfers a ->
    TotalBytes a t = Some (zsum (size <$> Files a t)) /\ zsum (size <$> Files a t) <= MaxUint64;
  ao_balance v w : v ∈ ws -> w ∈ ws ->
    Files a (transfer v) = [] \/
    exists f, f ∈ Files a (transfer v) /\ (forall g, g ∈ Files a (transfer v) -> size f <= size g) /\
      (zsum (size <$> Files a (transfer v)) - size f) * weight w
        <= zsum (size <$> Files a (transfer w)) * weight v
}.

Lemma check_positive_ok index ws : Forall weight_ok ws -> check_positive index ws = None.
Proof.
  intros Hw. revert index. induction Hw as [|w ws [? ?] Hws IH]; intros index; simpl; [done|].
  destruct (_ || _) eqn:E; [bool_to_prop; lia|]. apply IH.
Qed.

Lemma index_transfers (ts : list Number) t i :
  NoDup ts -> index_by id ts !! t = Some i <-> ts !! i = Some t.
Proof.
  intros Hn. rewrite index_by_lookup by by rewrite list_fmap_id. simpl. split.
  - by intros (x & Hx & <-).
  - intros Hi. by exists t.
Qed.

Lemma check_transfers_ok index ts s :
  Forall (fun t => Value t <> 0) ts -> (forall i t, ts !! i = Some t -> index !! t = Some (s + i)%nat) ->
  check_transfers s index ts = true.
Proof.
  intros Ht. revert s. induction Ht as [|t ts Hv Hts IH]; intros s Hi; simpl; [done|].
  rewrite (Hi 0%nat t eq_refl). simpl. rewrite Nat.add_0_r, (bool_decide_eq_true_2 (s = s)) by done.
  destruct (Z.eqb_spec (Value t) 0); [done|]. simpl. apply IH. intros i u Hu.
  rewrite (Hi (S i) u Hu). f_equal. lia.
Qed.

Lemma index_by_size (ts : list Number) : NoDup ts -> base.size (index_by id ts) = length ts.
Proof.
  intros Hn. rewrite <- size_dom. assert (dom (index_by id ts) = list_to_set ts) as ->.
  { apply set_eq. intros t. rewrite elem_of_dom, elem_of_list_to_set. split.
    - intros [i Hi%index_transfers]; [|done]. by eapply list_elem_of_lookup_2.
    - intros [i Hi]%list_elem_of_lookup. exists i. by apply index_transfers. }
  by apply size_list_to_set.
Qed.

Lemma allocateEmptyDirectories_owners count (ts : list Number) :
  ts <> [] -> length (allocateEmptyDirectories count ts) = count
  /\ Forall (fun o => o ∈ ts) (allocateEmptyDirectories count ts).
Proof.
  intros Hts. unfold allocateEmptyDirectories. rewrite length_fmap, length_seq. split; [done|].
  apply Forall_fmap, Forall_true. intros i. simpl.
  destruct (lookup_lt_is_Some_2 ts (i mod length ts)) as [t Ht].
  { apply Nat.mod_upper_bound. by destruct ts. }
  rewrite (nth_lookup_Some _ _ _ _ Ht). by eapply list_elem_of_lookup_2.
Qed.

(** What the loop's state says of the owners and loads it returns. *)
Lemma assigned_owners fs ws loads owners :
  assigned fs ws (seq 0 (length fs)) loads owners ->
  length owners = length fs /\ Forall (fun o => o ∈ transfer <$> ws) owners /\
  (forall i w, ws !! i = Some w -> exists l, loads !! i = Some l /\ load_weight l = w).
Proof.
  intros [Hw Hl _ Ho _]. split_and!; [done| |].
  - apply Forall_lookup. intros i o Hi. destruct (Ho i) as (w & Hin & Hiw).
    { apply elem_of_seq. apply lookup_lt_Some in Hi. lia. }
    rewrite Hi in Hiw. injection Hiw as ->. by apply list_elem_of_fmap_2.
  - intros i w Hi. rewrite <- Hw, list_lookup_fmap in Hi. destruct (loads !! i) as [l|] eqn:E; [|done].
    injection Hi as <-. by exists l.
Qed.

Section Assignment.
Variables (c : sourceSnapshotContents) (ws : list TransferWeight).
Variables (owners : list Number) (loads : list transferLoad).
Let fs := files (entries c).
Let ts := transfer <$> ws.
Let dirs := allocateEmptyDirectories (length (emptyDirs (entries c))) ts.
Let a := MkAllocation (Some c) ts (index_by id ts) owners dirs (load_bytes <$> loads).
Hypothesis Hsizes : Forall (fun f => in_u 64 (size f)) fs.
Hypothesis Hws : weights_ok ws.
Hypothesis Has : assigned fs ws (seq 0 (length fs)) loads owners.

Lemma assignment_NoDup : NoDup ts.
Proof. by apply weights_ok_NoDup. Qed.

(** A transfer's load is the size of its files. *)
Lemma assignment_load l :
  l ∈ loads -> load_bytes l = zsum (size <$> owned fs owners (transfer (load_weight l))) /\ load_bytes l <= MaxUint64.
Proof.
  intros Hl. destruct (as_bytes _ _ _ _ _ Has l Hl) as [E ?]. split; [|done].
  rewrite E, <- (as_length _ _ _ _ _ Has), <- owner_sum_load by done.
  apply owner_sum_owned. apply Has.
Qed.

Lemma assignment_valid : validateTransferAllocation a = None.
Proof.
  destruct (assigned_owners _ _ _ _ Has) as (Hlo & Hoin & Hat).
  pose proof assignment_NoDup as Hn. destruct Hws as [Hsome Heach _].
  assert (ts <> []) as Hts by (unfold ts; by destruct ws).
  destruct (allocateEmptyDirectories_owners (length (emptyDirs (entries c))) ts Hts) as [Hdl Hdin].
  assert (length loads = length ts) as Hll.
  { unfold ts. rewrite <- (as_weights _ _ _ _ _ Has), !length_fmap. done. }
  unfold validateTransferAllocation, a. cbn [snapshot transfers fileOwners emptyDirOwners totalBytes transferIndex].
  fold fs. unfold dirs. rewrite index_by_size by done. rewrite length_fmap, Hll, Hdl, Hlo.
  rewrite !bool_decide_eq_true_2 by done.
  destruct (Z.eqb_spec (zlen ts) 0) as [E|_]; [by destruct ts|]. simpl.
  rewrite check_transfers_ok; [|unfold ts; apply Forall_fmap; eapply Forall_impl; [exact Heach|]; unfold weight_ok; simpl; lia|by intros i t ?; apply index_transfers].
  simpl. destruct (recompute_spec fs Hsizes ts (index_by id ts) owners 0 (replicate (length ts) 0))
    as (calc & -> & Hcl & Hcalc); [by intros; apply index_transfers|done|done|by rewrite length_replicate| |].
  { intros i t x Hi Hx. apply lookup_replicate in Hx as [-> _]. split; [done|].
    unfold ts in Hi. rewrite list_lookup_fmap in Hi. destruct (ws !! i) as [w|] eqn:Ew; [|done]. injection Hi as <-.
    destruct (Hat i w Ew) as (l & Hl & <-). destruct (assignment_load l (list_elem_of_lookup_2 _ _ _ Hl)) as [E ?].
    rewrite owner_sum_owned by done. rewrite <- E. lia. }
  assert (calc = load_bytes <$> loads) as ->.
  { apply list_eq_same_length with (length ts); [by rewrite length_fmap|done|].
    intros i x y Hi Hx Hy. rewrite list_lookup_fmap in Hy. destruct (loads !! i) as [l|] eqn:El; [|done].
    injection Hy as <-. destruct (assignment_load l (list_elem_of_lookup_2 _ _ _ El)) as [-> _].
    assert (ts !! i = Some (transfer (load_weight l))) as Hti.
    { unfold ts. rewrite <- (as_weights _ _ _ _ _ Has), !list_lookup_fmap, El. done. }
    specialize (Hcalc i _ 0 Hti). rewrite lookup_replicate_2 in Hcalc by done. specialize (Hcalc eq_refl).
    rewrite Hx in Hcalc. injection Hcalc as ->. rewrite owner_sum_owned by done. lia. }
  rewrite bool_decide_eq_true_2 by done. simpl.
  replace (forallb _ _) with true; [done|]. symmetry. apply forallb_forall. intros o Ho%list_elem_of_In.
  apply bool_decide_eq_true. rewrite Forall_forall in Hdin. specialize (Hdin o Ho).
  apply list_elem_of_lookup in Hdin as [i Hi]. exists i. by apply index_transfers.
Qed.

Lemma assignment_ok : allocation_ok c ws a.
Proof.
  destruct (assigned_owners _ _ _ _ Has) as (Hlo & Hoin & Hat).
  pose proof assignment_NoDup as Hn.
  assert (ts <> []) as Hts by (unfold ts; pose proof (wo_some _ Hws); by destruct ws).
  destruct (allocateEmptyDirectories_owners (length (emptyDirs (entries c))) ts Hts) as [Hdl Hdin].
  assert (forall i w, ws !! i = Some w -> exists l, l ∈ loads /\ loads !! i = Some l /\ load_weight l = w
    /\ load_bytes l = zsum (size <$> owned fs owners (transfer w)) /\ load_bytes l <= MaxUint64) as Hload.
  { intros i w Hi. destruct (Hat i w Hi) as (l & Hl & <-). pose proof (list_elem_of_lookup_2 _ _ _ Hl) as Hin.
    destruct (assignment_load l Hin). by exists l. }
  split; [done|done| | | |].
  - by apply owned_partition.
  - by apply owned_partition.
  - intros t Ht. unfold a, TotalBytes in *. cbn [transfers transferIndex totalBytes] in *.
    apply list_elem_of_lookup in Ht as [i Hi]. pose proof Hi as Hi'. apply index_transfers in Hi'; [|done]. rewrite Hi'.
    unfold ts in Hi. rewrite list_lookup_fmap in Hi. destruct (ws !! i) as [w|] eqn:Ew; [|done]. injection Hi as <-.
    destruct (Hload i w Ew) as (l & Hin & Hl & _ & Hb & Hm). unfold Files. cbn [snapshot fileOwners]. fold fs.
    rewrite <- Hb. split; [|done]. f_equal. apply nth_lookup_Some. by rewrite list_lookup_fmap, Hl.
  - intros v w [i Hv]%list_elem_of_lookup [j Hw]%list_elem_of_lookup.
    destruct (Hload i v Hv) as (l & Hlin & Hl & Hlv & Hlb & _), (Hload j w Hw) as (m & Hmin & Hm & Hmw & Hmb & _).
    unfold Files, a. cbn [snapshot fileOwners]. fold fs.
    destruct (as_balance _ _ _ _ _ Has l Hlin) as [Hnone|(k & Hk & Hko & Hkmin & Hkb)]; rewrite Hlv in *.
    + left. destruct (owned fs owners (transfer v)) as [|f rest] eqn:E; [done|]. exfalso.
      assert (f ∈ owned fs owners (transfer v)) as (k & Hko & Hkf)%owned_elem by (rewrite E; by left).
      apply (Hnone k); [|done]. apply elem_of_seq. apply lookup_lt_Some in Hkf. lia.
    + right. apply elem_of_seq in Hk. destruct (lookup_lt_is_Some_2 fs k) as [f Hf]; [lia|].
      assert (forall n g, fs !! n = Some g -> sz fs n = size g) as Hsz.
      { intros n g Hg. unfold sz, file_at. by rewrite (nth_lookup_Some _ _ _ _ Hg). }
      exists f. split_and!.
      * apply owned_elem. by exists k.
      * intros g (n & Hno & Hng)%owned_elem. rewrite <- (Hsz k f Hf), <- (Hsz n g Hng). apply Hkmin; [|done].
        apply elem_of_seq. apply lookup_lt_Some in Hng. lia.
      * specialize (Hkb m Hmin). rewrite Hmw, (Hsz k f Hf), Hlb, Hmb in Hkb. done.
Qed.
End Assignment.

Lemma AllocateTransferItems_spec c ws :
  Forall (fun f => in_u 64 (size f)) (files (entries c)) -> weights_ok ws ->
  match AllocateTransferItems (Some c) ws with
  | Ok a => allocation_ok c ws a
  | Err e => e = ErrNoTransferItems /\ files (entries c) = [] /\ emptyDirs (entries c) = []
             \/ MaxUint64 < zsum (size <$> files (entries c))
  end.
Proof.
  intros Hsizes Hws. unfold AllocateTransferItems, FileCount, EmptyDirectoryCount. simpl from_option.
  destruct (Z.eqb_spec (zlen (files (entries c)) + zlen (emptyDirs (entries c))) 0) as [E|_].
  { left. unfold zlen in E. split_and!; [done|by destruct (files (entries c)); [|simpl in E; lia]|].
    by destruct (emptyDirs (entries c)); [|simpl in E; lia]. }
  destruct (Z.eqb_spec (zlen ws) 0) as [E|_].
  { destruct Hws as [Hs _ _]. by destruct ws. }
  rewrite check_positive_ok by apply Hws. cbn [check].
  pose proof (allocateFiles_spec (files (entries c)) ws Hsizes Hws) as Hspec.
  destruct (allocateFiles _ _) as [[owners loads]|e]; cbn [rbind].
  - rewrite assignment_valid by done. cbn [check]. by apply assignment_ok.
  - right. unfold total_size in Hspec.
    assert (sz (files (entries c)) <$> seq 0 (length (files (entries c))) = size <$> files (entries c)) as E.
    { apply list_eq. intros i. rewrite !list_lookup_fmap.
      destruct (files (entries c) !! i) as [f|] eqn:Ef.
      - pose proof (lookup_lt_Some _ _ _ Ef). rewrite lookup_seq_lt by done. simpl. f_equal.
        unfold sz, file_at. by rewrite (nth_lookup_Some _ _ _ _ Ef).
      - rewrite lookup_seq_ge; [done|]. by apply lookup_ge_None. }
    by rewrite E in Hspec.
Qed.

Lemma AllocateTransferItems_lengths c ws a :
  Forall (fun f => in_u 64 (size f)) (files (entries c)) -> weights_ok ws -> AllocateTransferItems (Some c) ws = Ok a ->
  length (fileOwners a) = length (files (entries c)) /\ length (emptyDirOwners a) = length (emptyDirs (entries c)).
Proof.
  intros Hsizes Hws Ha. unfold AllocateTransferItems in Ha. simpl in Ha.
  destruct (_ =? 0); [done|]. destruct (zlen ws =? 0); [done|].
  apply check_Ok_inv in Ha as [_ Ha].
  pose proof (allocateFiles_spec (files (entries c)) ws Hsizes Hws) as Hspec.
  destruct (allocateFiles _ _) as [[owners loads]|e]; [|done]. cbn [rbind] in Ha.
  apply check_Ok_inv in Ha as [_ <-%Ok_inj]. cbn [fileOwners emptyDirOwners].
  split; [apply Hspec|]. apply allocateEmptyDirectories_owners. by destruct Hws as [Hsome _ _], ws.
Qed.

(** The owner a path is looked up with is the owner of its item. *)
Lemma nth_owner (os : list Number) i n :
  (i < length os)%nat -> Some (nth i os number_zero) = Some n <-> os !! i = Some n.
Proof. intros Hi. destruct (lookup_lt_is_Some_2 os i Hi) as [o Ho]. by rewrite (nth_lookup_Some _ _ _ _ Ho), Ho. Qed.

Lemma OwnerOf_spec t c a path n :
  flat_of t (entries c) -> snapshot a = Some c ->
  length (fileOwners a) = length (files (entries c)) ->
  length (emptyDirOwners a) = length (emptyDirs (entries c)) ->
  OwnerOf a path = Some n <->
  (exists f, f ∈ Files a n /\ relativePath f = path) \/ (exists d, d ∈ EmptyDirectories a n /\ dirPath d = path).
Proof.
  intros Hflat Hsn Hlf Hld. unfold OwnerOf, Files, EmptyDirectories. rewrite Hsn.
  assert (forall f, f ∈ owned (files (entries c)) (fileOwners a) n ->
    entryKinds (entries c) !! relativePath f = Some RegularFileEntry) as Hfile.
  { intros f (i & _ & Hi)%owned_elem. apply (flat_file_kind t); [done|].
    by eapply list_elem_of_fmap_2, list_elem_of_lookup_2. }
  assert (forall d, d ∈ owned (emptyDirs (entries c)) (emptyDirOwners a) n ->
    entryKinds (entries c) !! dirPath d = Some DirectoryEntry) as Hdir.
  { intros d (i & _ & Hi)%owned_elem. apply (flat_dir_kind t); [done|].
    by eapply list_elem_of_fmap_2, list_elem_of_lookup_2. }
  destruct (entryKinds (entries c) !! path) as [k|] eqn:Ek; simpl.
  2:{ split; [done|]. intros [(f & Hf & <-)|(d & Hd & <-)]; [apply Hfile in Hf|apply Hdir in Hd]; congruence. }
  destruct (Z.eqb_spec k RegularFileEntry) as [->|Hk]; [|destruct (Z.eqb_spec k DirectoryEntry) as [->|Hk2]].
  - pose proof Ek as (f & -> & [i Hi]%list_elem_of_lookup)%(flat_file_kind t)%list_elem_of_fmap; [|done].
    assert (fileIndex (entries c) !! relativePath f = Some i) as Hfi.
    { apply (fo_fileIndex _ _ Hflat). by exists f. }
    rewrite Hfi. simpl. rewrite nth_owner by (rewrite Hlf; by eapply lookup_lt_Some). split.
    + intros Ho. left. exists f. split; [|done]. apply owned_elem. by exists i.
    + intros [(g & Hg & He)|(d & Hd%Hdir & He)]; [|rewrite He, Ek in Hd; done].
      apply owned_elem in Hg as (j & Ho & Hg). replace i with j; [done|].
      assert (fileIndex (entries c) !! relativePath f = Some j) by (apply (fo_fileIndex _ _ Hflat); eauto). congruence.
  - destruct (emptyDirIndex (entries c) !! path) as [i|] eqn:Ei.
    + pose proof Ei as (d & Hdi & Hp)%(fo_dirIndex _ _ Hflat).
      rewrite nth_owner by (rewrite Hld; by eapply lookup_lt_Some). split.
      * intros Ho. right. exists d. split; [|done]. apply owned_elem. by exists i.
      * intros [(g & Hg%Hfile & He)|(d' & Hd' & He)]; [rewrite He, Ek in Hg; done|].
        apply owned_elem in Hd' as (j & Ho & Hj). replace i with j; [done|].
        assert (emptyDirIndex (entries c) !! path = Some j) by (apply (fo_dirIndex _ _ Hflat); eauto). congruence.
    + split; [done|]. intros [(g & Hg%Hfile & He)|(d & Hd & He)]; [rewrite He, Ek in Hg; done|].
      apply owned_elem in Hd as (j & _ & Hj).
      assert (emptyDirIndex (entries c) !! path = Some j) by (apply (fo_dirIndex _ _ Hflat); eauto). congruence.
  - split; [done|]. intros [(f & Hf%Hfile & He)|(d & Hd%Hdir & He)]; rewrite He, Ek in *; congruence.
Qed.

(** ** Properties *)

(** C12. Assigning a snapshot to validated weights either fails, and then only
    because the source is empty or the file sizes together exceed 64 bits, or
    gives every file and every empty directory to exactly one of the transfers,
    with byte totals that are the sizes of the files each one owns. *)
Theorem allocation_partitions_source c values ws :
  Forall (fun f => in_u 64 (size f)) (files (entries c)) -> Forall weight_wf values ->
  NewTransferWeights values = Ok ws ->
  match AllocateTransferItems (Some c) ws with
  | Ok a =>
      transfers a = transfer <$> ws
      /\ mjoin (Files a <$> transfers a) ≡ₚ files (entries c)
      /\ mjoin (EmptyDirectories a <$> transfers a) ≡ₚ emptyDirs (entries c)
      /\ forall t, t ∈ transfers a ->
           TotalBytes a t = Some (zsum (size <$> Files a t)) /\ zsum (size <$> Files a t) <= MaxUint64
  | Err e =>
      e = ErrNoTransferItems /\ files (entries c) = [] /\ emptyDirs (entries c) = []
      \/ MaxUint64 < zsum (size <$> files (entries c))
  end.
Proof.
  intros Hs Hv (Hws & _ & _)%NewTransferWeights_ok; [|done].
  pose proof (AllocateTransferItems_spec c ws Hs Hws) as H. destruct (AllocateTransferItems _ _); [|done].
  by destruct H.
Qed.

(** C28. The assignment is balanced: however many files a transfer got, its load
    without its smallest file is, relative to its weight, no more than the load
    of any other transfer. *)
Theorem allocation_is_balanced c values ws a v w :
  Forall (fun f => in_u 64 (size f)) (files (entries c)) -> Forall weight_wf values ->
  NewTransferWeights values = Ok ws -> AllocateTransferItems (Some c) ws = Ok a -> v ∈ ws -> w ∈ ws ->
  Files a (transfer v) = [] \/
  exists f, f ∈ Files a (transfer v) /\ (forall g, g ∈ Files a (transfer v) -> size f <= size g) /\
    (zsum (size <$> Files a (transfer v)) - size f) * weight w
      <= zsum (size <$> Files a (transfer w)) * weight v.
Proof.
  intros Hs Hv (Hws & _ & _)%NewTransferWeights_ok; [|done]. intros Ha Hvw Hww.
  pose proof (AllocateTransferItems_spec c ws Hs Hws) as H. rewrite Ha in H. by apply H.
Qed.

(** Looking a path up finds its one owner: the transfer among whose files or
    empty directories the path is, and none for a path that is neither. *)
Theorem OwnerOf_finds_owner t c values ws a path n :
  flattenTree t = Ok (entries c) ->
  Forall (fun f => in_u 64 (size f)) (files (entries c)) -> Forall weight_wf values ->
  NewTransferWeights values = Ok ws -> AllocateTransferItems (Some c) ws = Ok a ->
  OwnerOf a path = Some n <->
  (exists f, f ∈ Files a n /\ relativePath f = path) \/ (exists d, d ∈ EmptyDirectories a n /\ dirPath d = path).
Proof.
  intros Ht Hs Hv (Hws & _ & _)%NewTransferWeights_ok Ha; [|done].
  pose proof (flattenTree_spec t) as Hflat. rewrite Ht in Hflat. destruct Hflat as (_ & _ & Hflat).
  pose proof (AllocateTransferItems_spec c ws Hs Hws) as Hok. rewrite Ha in Hok.
  destruct (AllocateTransferItems_lengths c ws a Hs Hws Ha). apply (OwnerOf_spec t c); try done. apply Hok.
Qed.

(** A source of three files and an empty directory, for two transfers. *)
Definition sample_file (path : string) (n : Z) : SourceFile := MkSourceFile path n (MkBacking 0 path).
Definition sample_tree : SourceTree :=
  MkTree (MkDirectory "" (MkBacking 0 ".")
    [FileEntry (sample_file "a" 5);
     DirEntry "d" (MkBacking 0 "d") [FileEntry (sample_file "d/c" 9); DirEntry "d/e" (MkBacking 0 "d/e") []];
     FileEntry (sample_file "z" 3)]).
Definition sample_flat : flattenedSourceTree :=
  match flattenTree sample_tree with Ok flat => flat | Err _ => MkFlat [] [] ∅ ∅ ∅ end.
Definition sample_contents : sourceSnapshotContents :=
  MkContents "src" (MkIdentity 1 2 1) (Some 1) sample_tree sample_flat (MkSummary 0 0 1 0).
Definition sample_values : list TransferWeight := [MkWeight (MkNumber 2) 1; MkWeight (MkNumber 1) 2].
Definition sample_weights : list TransferWeight := [MkWeight (MkNumber 1) 2; MkWeight (MkNumber 2) 1].
Definition sample_allocation : TransferAllocation :=
  match AllocateTransferItems (Some sample_contents) sample_weights with
  | Ok a => a
  | Err _ => MkAllocation None [] ∅ [] [] []
  end.

Lemma sample_flattened : flattenTree sample_tree = Ok (entries sample_contents).
Proof. vm_compute. reflexivity. Qed.

Lemma sample_sizes : Forall (fun f => in_u 64 (size f)) (files (entries sample_contents)).
Proof. repeat constructor; vm_compute; done. Qed.

Lemma sample_values_wf : Forall weight_wf sample_values.
Proof. repeat constructor; vm_compute; done. Qed.

Lemma sample_validated : NewTransferWeights sample_values = Ok sample_weights.
Proof. vm_compute. reflexivity. Qed.

Lemma sample_allocated : AllocateTransferItems (Some sample_contents) sample_weights = Ok sample_allocation.
Proof. vm_compute. reflexivity. Qed.

Lemma allocation_partitions_source_witness :
  mjoin (Files sample_allocation <$> transfers sample_allocation) ≡ₚ files (entries sample_contents)
  /\ TotalBytes sample_allocation (MkNumber 1) = Some 12 /\ TotalBytes sample_allocation (MkNumber 2) = Some 5.
Proof.
  pose proof (allocation_partitions_source sample_contents sample_values sample_weights
    sample_sizes sample_values_wf sample_validated) as H.
  rewrite sample_allocated in H. destruct H as (_ & Hf & _). split; [exact Hf|]. split; vm_compute; reflexivity.
Defined.

Lemma allocation_is_balanced_witness :
  exists f, f ∈ Files sample_allocation (MkNumber 1) /\
    (zsum (size <$> Files sample_allocation (MkNumber 1)) - size f) * 1
      <= zsum (size <$> Files sample_allocation (MkNumber 2)) * 2.
Proof.
  destruct (allocation_is_balanced sample_contents sample_values sample_weights sample_allocation
    (MkWeight (MkNumber 1) 2) (MkWeight (MkNumber 2) 1)
    sample_sizes sample_values_wf sample_validated sample_allocated) as [H|(f & Hf & _ & Hb)].
  - by left.
  - right. by left.
  - vm_compute in H. discriminate H.
  - exists f. exact (conj Hf Hb).
Defined.

Lemma OwnerOf_finds_owner_witness :
  (exists f, f ∈ Files sample_allocation (MkNumber 1) /\ relativePath f = "d/c"%string)
  \/ (exists d, d ∈ EmptyDirectories sample_allocation (MkNumber 1) /\ dirPath d = "d/c"%string).
Proof.
  apply (OwnerOf_finds_owner sample_tree sample_contents sample_values sample_weights sample_allocation "d/c" (MkNumber 1)
    sample_flattened sample_sizes sample_values_wf sample_validated sample_allocated).
  vm_compute. reflexivity.
Defined.
