(* ===== verification/Catalog.v ===== *)
(** * The network catalog: facts and order

    [networkcatalog/types.go] and [snapshot.go]: what one capture of the host
    network observed, the canonical order of those facts, and the addresses a
    transfer may start from. *)
From S2P Require Import Prelude Sorting GoText Paths Netip Comparing.

(** ** Facts *)
Definition FlagUp : Z := 1.
Definition FlagLoopback : Z := 4.
Definition has_flag (flags flag : Z) : bool := negb (Z.land flags flag =? 0).

Record linkObservation : Type := MkLink {
  link_index : Z;
  link_name : string;
  link_kind : string;
  link_mtu : Z;
  link_flags : Z;
  link_masterIndex : Z;
  link_operationalState : string
}.

#[export] Instance linkObservation_eq_dec : EqDecision linkObservation.
Proof. solve_decision. Defined.

(** Go's zero value, which a map yields for a missing key. *)
Definition zero_link : linkObservation := MkLink 0 "" "" 0 0 0 "".

(** The exported interface has the fields of the observation. *)
Record Interface : Type := MkInterface {
  if_index : Z;
  if_name : string;
  if_kind : string;
  if_mtu : Z;
  if_flags : Z;
  if_masterIndex : Z;
  if_operationalState : string
}.

#[export] Instance Interface_eq_dec : EqDecision Interface.
Proof. solve_decision. Defined.

Definition zero_interface : Interface := MkInterface 0 "" "" 0 0 0 "".

Definition Interface_Up (value : Interface) : bool := has_flag (if_flags value) FlagUp.
Definition Interface_Loopback (value : Interface) : bool := has_flag (if_flags value) FlagLoopback.

Record addressObservation : Type := MkAddress { addr_linkIndex : Z; addr_prefix : Prefix }.

#[export] Instance addressObservation_eq_dec : EqDecision addressObservation.
Proof. solve_decision. Defined.

Record LocalAddress : Type := MkLocalAddress {
  la_ip : Addr;
  la_prefixBits : Z;
  la_interface : Interface;
  la_exclusionReason : string
}.

Definition IncludedByDefault (value : LocalAddress) : bool := bool_decide (la_exclusionReason value = "").

Record Egress : Type := MkEgress {
  eg_localIP : Addr;
  eg_interface : Interface;
  eg_table : Z;
  eg_gateway : Addr;
  eg_hasGateway : bool;
  eg_runnable : bool;
  eg_reason : string;
  eg_diagnostics : list string
}.

(** The last constructor is the [ruleAction(255)] of a kernel action the program
    does not know. *)
Inductive ruleAction : Type :=
  | ruleLookup
  | ruleBlackhole
  | ruleUnreachable
  | ruleProhibit
  | ruleContinue
  | ruleUnknown.

Definition action_value (a : ruleAction) : Z :=
  match a with
  | ruleLookup => 0 | ruleBlackhole => 1 | ruleUnreachable => 2 | ruleProhibit => 3 | ruleContinue => 4
  | ruleUnknown => 255
  end.

(** [inputInterfaceNone] is the zero value. *)
Inductive inputInterfaceState : Type :=
  | inputInterfaceNone
  | inputInterfaceUnresolved
  | inputInterfaceAttached
  | inputInterfaceDetached.

#[export] Instance inputInterfaceState_eq_dec : EqDecision inputInterfaceState.
Proof. solve_decision. Defined.

Definition input_state_value (s : inputInterfaceState) : Z :=
  match s with
  | inputInterfaceNone => 0 | inputInterfaceUnresolved => 1 | inputInterfaceAttached => 2 | inputInterfaceDetached => 3
  end.

Record inputInterfaceSelector : Type := MkInput {
  in_name : string;
  in_state : inputInterfaceState;
  in_index : Z;
  in_isL3Master : bool
}.

#[export] Instance inputInterfaceSelector_eq_dec : EqDecision inputInterfaceSelector.
Proof. solve_decision. Defined.

Definition no_input : inputInterfaceSelector := MkInput "" inputInterfaceNone 0 false.

Inductive outputInterfaceState : Type :=
  | outputInterfaceNone
  | outputInterfaceAttached
  | outputInterfaceDetached.

#[export] Instance outputInterfaceState_eq_dec : EqDecision outputInterfaceState.
Proof. solve_decision. Defined.

Definition output_state_value (s : outputInterfaceState) : Z :=
  match s with outputInterfaceNone => 0 | outputInterfaceAttached => 1 | outputInterfaceDetached => 2 end.

Record outputInterfaceSelector : Type := MkOutput { out_name : string; out_state : outputInterfaceState }.

#[export] Instance outputInterfaceSelector_eq_dec : EqDecision outputInterfaceSelector.
Proof. solve_decision. Defined.

Definition no_output : outputInterfaceSelector := MkOutput "" outputInterfaceNone.

Inductive unresolvedRuleSelectorKind : Type :=
  | ruleSelectorTypeOfService
  | ruleSelectorFirewallMark
  | ruleSelectorUIDRange
  | ruleSelectorTransport
  | ruleSelectorL3Master
  | ruleSelectorTunnelID
  | ruleSelectorFlowRealm
  | ruleSelectorUnknownAttribute.

#[export] Instance unresolvedRuleSelectorKind_eq_dec : EqDecision unresolvedRuleSelectorKind.
Proof. solve_decision. Defined.

Definition selector_value (k : unresolvedRuleSelectorKind) : Z :=
  match k with
  | ruleSelectorTypeOfService => 1 | ruleSelectorFirewallMark => 2 | ruleSelectorUIDRange => 3
  | ruleSelectorTransport => 4 | ruleSelectorL3Master => 5 | ruleSelectorTunnelID => 6
  | ruleSelectorFlowRealm => 7 | ruleSelectorUnknownAttribute => 8
  end.

Record unresolvedRuleSelector : Type := MkSelector {
  sel_kind : unresolvedRuleSelectorKind;
  sel_attribute : Z;
  sel_value : string
}.

#[export] Instance unresolvedRuleSelector_eq_dec : EqDecision unresolvedRuleSelector.
Proof. solve_decision. Defined.

Inductive unsupportedRuleEffectKind : Type :=
  | ruleEffectRouteSuppression
  | ruleEffectGoto
  | ruleEffectHeaderFlags.

#[export] Instance unsupportedRuleEffectKind_eq_dec : EqDecision unsupportedRuleEffectKind.
Proof. solve_decision. Defined.

Definition effect_value (k : unsupportedRuleEffectKind) : Z :=
  match k with ruleEffectRouteSuppression => 1 | ruleEffectGoto => 2 | ruleEffectHeaderFlags => 3 end.

Record unsupportedRuleEffect : Type := MkEffect {
  eff_kind : unsupportedRuleEffectKind;
  eff_attribute : Z;
  eff_value : string;
  eff_flags : Z
}.

#[export] Instance unsupportedRuleEffect_eq_dec : EqDecision unsupportedRuleEffect.
Proof. solve_decision. Defined.

Record policyRule : Type := MkRule {
  rule_priority : Z;
  rule_table : Z;
  rule_source : Prefix;
  rule_destination : Prefix;
  rule_inputInterface : inputInterfaceSelector;
  rule_outputInterface : outputInterfaceSelector;
  rule_unresolvedSelectors : list unresolvedRuleSelector;
  rule_unsupportedEffects : list unsupportedRuleEffect;
  rule_inverted : bool;
  rule_action : ruleAction
}.

Inductive routeKind : Type :=
  | routeUnicast
  | routeThrow
  | routeUnreachable
  | routeBlackhole
  | routeProhibit
  | routeUnsupported.

#[export] Instance routeKind_eq_dec : EqDecision routeKind.
Proof. solve_decision. Defined.

Definition route_kind_value (k : routeKind) : Z :=
  match k with
  | routeUnicast => 0 | routeThrow => 1 | routeUnreachable => 2 | routeBlackhole => 3 | routeProhibit => 4
  | routeUnsupported => 5
  end.

Record fibRoute : Type := MkRoute {
  route_table : Z;
  route_destination : Prefix;
  route_kind : routeKind;
  route_linkIndex : Z;
  route_gateway : Addr;
  route_hasGateway : bool;
  route_metric : Z;
  route_unsupported : string
}.

Record Snapshot : Type := MkSnapshot {
  snap_links : list linkObservation;
  snap_addresses : list addressObservation;
  snap_rules : list policyRule;
  snap_routes : list fibRoute
}.

(** ** Comparison and order *)
Definition boolValue (b : bool) : Z := if b then 1 else 0.

Definition comparePrefix (left right : Prefix) : Z := scmp (PrefixString left) (PrefixString right).

(** [firstRuleDifference]: every comparison is computed, the first that differs decides. *)
Definition firstRuleDifference {A} (cs : list (A -> A -> Z)) : A -> A -> Z := foldr lex_cmp (fun _ _ => 0) cs.

Definition compareInputInterface : inputInterfaceSelector -> inputInterfaceSelector -> Z :=
  firstRuleDifference [
    (fun l r => scmp (in_name l) (in_name r));
    (fun l r => zcmp (input_state_value (in_state l)) (input_state_value (in_state r)));
    (fun l r => zcmp (in_index l) (in_index r));
    (fun l r => zcmp (boolValue (in_isL3Master l)) (boolValue (in_isL3Master r)))].

Definition compareOutputInterface : outputInterfaceSelector -> outputInterfaceSelector -> Z :=
  firstRuleDifference [
    (fun l r => scmp (out_name l) (out_name r));
    (fun l r => zcmp (output_state_value (out_state l)) (output_state_value (out_state r)))].

Definition compareUnresolvedSelector : unresolvedRuleSelector -> unresolvedRuleSelector -> Z :=
  firstRuleDifference [
    (fun l r => zcmp (selector_value (sel_kind l)) (selector_value (sel_kind r)));
    (fun l r => zcmp (sel_attribute l) (sel_attribute r));
    (fun l r => scmp (sel_value l) (sel_value r))].

Definition compareUnsupportedEffect : unsupportedRuleEffect -> unsupportedRuleEffect -> Z :=
  firstRuleDifference [
    (fun l r => zcmp (effect_value (eff_kind l)) (effect_value (eff_kind r)));
    (fun l r => zcmp (eff_attribute l) (eff_attribute r));
    (fun l r => scmp (eff_value l) (eff_value r));
    (fun l r => zcmp (eff_flags l) (eff_flags r))].

Definition comparePolicyRules : policyRule -> policyRule -> Z :=
  lex_cmp
    (firstRuleDifference [
      (fun l r => zcmp (rule_priority l) (rule_priority r));
      (fun l r => zcmp (rule_table l) (rule_table r));
      (fun l r => comparePrefix (rule_source l) (rule_source r));
      (fun l r => comparePrefix (rule_destination l) (rule_destination r));
      (fun l r => compareInputInterface (rule_inputInterface l) (rule_inputInterface r));
      (fun l r => compareOutputInterface (rule_outputInterface l) (rule_outputInterface r));
      (fun l r => zcmp (boolValue (rule_inverted l)) (boolValue (rule_inverted r)));
      (fun l r => zcmp (action_value (rule_action l)) (action_value (rule_action r)))])
    (lex_cmp
      (fun l r => list_cmp compareUnresolvedSelector (rule_unresolvedSelectors l) (rule_unresolvedSelectors r))
      (fun l r => list_cmp compareUnsupportedEffect (rule_unsupportedEffects l) (rule_unsupportedEffects r))).

Definition lessRule (left right : policyRule) : bool := comparePolicyRules left right <? 0.

Definition lessAddress (left right : addressObservation) : bool :=
  let comparison := CompareAddr (prefix_ip (addr_prefix left)) (prefix_ip (addr_prefix right)) in
  if negb (comparison =? 0) then comparison <? 0
  else if negb (addr_linkIndex left =? addr_linkIndex right) then addr_linkIndex left <? addr_linkIndex right
  else prefix_bits (addr_prefix left) <? prefix_bits (addr_prefix right).

Definition lessLink (left right : linkObservation) : bool :=
  if negb (link_index left =? link_index right) then link_index left <? link_index right
  else sltb (link_name left) (link_name right).

Definition lessRoute (left right : fibRoute) : bool :=
  if negb (route_table left =? route_table right) then route_table left <? route_table right
  else if negb (prefix_bits (route_destination left) =? prefix_bits (route_destination right))
  then prefix_bits (route_destination right) <? prefix_bits (route_destination left)
  else if negb (route_metric left =? route_metric right) then route_metric left <? route_metric right
  else if negb (route_kind_value (route_kind left) =? route_kind_value (route_kind right))
  then route_kind_value (route_kind left) <? route_kind_value (route_kind right)
  else route_linkIndex left <? route_linkIndex right.

(** [slices.SortFunc] of the selectors and effects: elements that compare equal
    are equal, so the stable sort gives the only possible result. *)
Definition cloneRule (value : policyRule) : policyRule :=
  MkRule (rule_priority value) (rule_table value) (rule_source value) (rule_destination value)
    (rule_inputInterface value) (rule_outputInterface value)
    (sort_by (fun l r => compareUnresolvedSelector l r <? 0) (rule_unresolvedSelectors value))
    (sort_by (fun l r => compareUnsupportedEffect l r <? 0) (rule_unsupportedEffects value))
    (rule_inverted value) (rule_action value).

Definition cloneRules (values : list policyRule) : list policyRule := cloneRule <$> values.

Definition sortFacts (snapshot : Snapshot) : Snapshot :=
  MkSnapshot (sort_by lessLink (snap_links snapshot)) (sort_by lessAddress (snap_addresses snapshot))
    (sort_by lessRule (snap_rules snapshot)) (sort_by lessRoute (snap_routes snapshot)).

Definition newSnapshot (links : list linkObservation) (addresses : list addressObservation)
    (rules : list policyRule) (routes : list fibRoute) : Snapshot :=
  sortFacts (MkSnapshot links addresses (cloneRules rules) routes).

(** ** Interfaces and local addresses *)
Definition publicInterface (link : linkObservation) : Interface :=
  MkInterface (link_index link) (link_name link) (link_kind link) (link_mtu link) (link_flags link)
    (link_masterIndex link) (link_operationalState link).

(** The last link of an index wins. *)
Definition linkIndex (snapshot : Snapshot) : gmap Z linkObservation :=
  foldl (fun m link => <[link_index link := link]> m) ∅ (snap_links snapshot).

Definition Interfaces (snapshot : Snapshot) : list Interface := publicInterface <$> snap_links snapshot.

Definition publicAddress (address : addressObservation) (link : linkObservation) (reason : string) : LocalAddress :=
  MkLocalAddress (prefix_ip (addr_prefix address)) (prefix_bits (addr_prefix address)) (publicInterface link) reason.

Definition unavailableInterfaceReason (link : linkObservation) (subject : string) : string :=
  if negb (has_flag (link_flags link) FlagUp) then subject +:+ " is administratively down"
  else if bool_decide (link_operationalState link ∈ [""; "up"; "unknown"]) then ""
  else subject +:+ " operational state is " +:+ link_operationalState link.

Definition defaultExclusion (link : linkObservation) (found : bool) (links : gmap Z linkObservation) : string :=
  if negb found then "address refers to a missing interface"
  else
    let reason := unavailableInterfaceReason link "interface" in
    if negb (bool_decide (reason = "")) then reason
    else if has_flag (link_flags link) FlagLoopback then "interface is loopback"
    else if bool_decide (link_kind link = "bridge") then "interface is a bridge"
    else if bool_decide (link_kind link = "veth") then "interface is a veth endpoint"
    else match links !! link_masterIndex link with
         | Some master =>
             if bool_decide (link_kind master = "bridge") then "interface is attached to bridge " +:+ link_name master
             else ""
         | None => ""
         end.

Definition local_address (snapshot : Snapshot) (address : addressObservation) : LocalAddress :=
  let found := linkIndex snapshot !! addr_linkIndex address in
  let link := default zero_link found in
  publicAddress address link (defaultExclusion link (bool_decide (is_Some found)) (linkIndex snapshot)).

Definition LocalAddresses (snapshot : Snapshot) : list LocalAddress :=
  local_address snapshot <$> snap_addresses snapshot.

(** [addresses[start:end]] of [addressGroupEnd], and the rest. *)
Fixpoint address_group (ip : Addr) (addresses : list LocalAddress) : list LocalAddress * list LocalAddress :=
  match addresses with
  | a :: rest =>
      if bool_decide (la_ip a = ip) then let '(group, rest) := address_group ip rest in (a :: group, rest)
      else ([], addresses)
  | [] => ([], [])
  end.

Definition group_agrees (first current : LocalAddress) : bool :=
  IncludedByDefault current && bool_decide (la_interface current = la_interface first)
  && (la_prefixBits current =? la_prefixBits first).

Definition defaultGroupCandidate (first : LocalAddress) (rest : list LocalAddress) : option LocalAddress :=
  if negb (IncludedByDefault first) || negb (IsGlobalUnicast (la_ip first)) then None
  else if forallb (group_agrees first) rest then Some first else None.

(** The fuel bounds the number of groups. *)
Fixpoint default_candidates (fuel : nat) (addresses : list LocalAddress) : list LocalAddress :=
  match fuel, addresses with
  | S fuel, first :: rest =>
      let '(group, rest) := address_group (la_ip first) rest in
      match defaultGroupCandidate first group with
      | Some candidate => candidate :: default_candidates fuel rest
      | None => default_candidates fuel rest
      end
  | _, _ => []
  end.

Definition DefaultCandidates (snapshot : Snapshot) : list LocalAddress :=
  let addresses := LocalAddresses snapshot in default_candidates (length addresses) addresses.
