(* ===== verification/CatalogProofs.v ===== *)
(** * The network catalog: the proofs

    The orders of the facts are strict weak orders, a snapshot does not depend
    on the order of observation beyond facts that compare equal, and the default
    candidates are exactly the addresses whose every observation agrees. *)
From S2P Require Import Prelude Sorting GoText Paths Netip Comparing Catalog.

(** ** Orders *)
Lemma first_comparator {A} (cs : list (A -> A -> Z)) :
  Forall (fun c => Comparator c) cs -> Comparator (firstRuleDifference cs).
Proof.
  induction 1 as [|c cs Hc _ IH]; simpl; [by split|]. by apply (lex_comparator _ _).
Qed.

Ltac comparators :=
  apply first_comparator; repeat (apply Forall_cons; split); [..|by apply Forall_nil];
  try (exact (zcmp_by _) || exact (scmp_by _)).

#[export] Instance input_comparator : Comparator compareInputInterface.
Proof. comparators. Qed.

#[export] Instance output_comparator : Comparator compareOutputInterface.
Proof. comparators. Qed.

#[export] Instance selector_comparator : Comparator compareUnresolvedSelector.
Proof. comparators. Qed.

#[export] Instance effect_comparator : Comparator compareUnsupportedEffect.
Proof. comparators. Qed.

#[export] Instance rule_comparator : Comparator comparePolicyRules.
Proof.
  apply lex_comparator; [comparators|apply lex_comparator].
  - exact (comparator_by rule_inputInterface _).
  - exact (comparator_by rule_outputInterface _).
  - exact (comparator_by rule_unresolvedSelectors _).
  - exact (comparator_by rule_unsupportedEffects _).
Qed.

#[export] Instance swo_rule : StrictWeakOrder lessRule.
Proof. exact (swo_comparator comparePolicyRules). Qed.

(** Comparison of selectors and effects separates them. *)
Lemma compareUnresolvedSelector_zero x y : compareUnresolvedSelector x y = 0 <-> x = y.
Proof.
  unfold compareUnresolvedSelector, firstRuleDifference. simpl. rewrite !lex_cmp_zero, !zcmp_zero, scmp_zero.
  destruct x as [[] a v], y as [[] b w]; simpl; split; try (intros (? & ? & ? & ?)); try (intros [=]); subst; done.
Qed.

Lemma compareUnsupportedEffect_zero x y : compareUnsupportedEffect x y = 0 <-> x = y.
Proof.
  unfold compareUnsupportedEffect, firstRuleDifference. simpl. rewrite !lex_cmp_zero, !zcmp_zero, scmp_zero.
  destruct x as [[] a v f], y as [[] b w g]; simpl; split; try (intros (? & ? & ? & ? & ?)); try (intros [=]); subst; done.
Qed.

(** ** Sorting up to an order *)
Lemma Forall2_reorder {A B} (R : A -> B -> Prop) l s k :
  Forall2 R l s -> s ≡ₚ k -> exists l', l' ≡ₚ l /\ Forall2 R l' k.
Proof.
  intros Hf Hp. revert l Hf. induction Hp as [|x s k Hp IH|x y s|s k m H1 IH1 H2 IH2]; intros l Hf.
  - by exists l.
  - inversion Hf as [|a ? l' ? Ha Hl]; subst. destruct (IH l' Hl) as (l'' & Hp' & Hf').
    exists (a :: l''). split; [by constructor|by constructor].
  - inversion Hf as [|a ? l1 ? Ha Hl1]; subst. inversion Hl1 as [|b ? l2 ? Hb Hl2]; subst.
    exists (b :: a :: l2). split; [apply perm_swap|by repeat constructor].
  - destruct (IH1 l Hf) as (l1 & Hp1 & Hf1). destruct (IH2 l1 Hf1) as (l2 & Hp2 & Hf2).
    exists l2. split; [by transitivity l1|done].
Qed.

Section SortModulo.
Context {A : Type} (less : A -> A -> bool) `{!StrictWeakOrder less}.

(** Neither is before the other. *)
Definition tied (x y : A) : Prop := less x y = false /\ less y x = false.

#[export] Instance tied_equivalence : Equivalence tied.
Proof.
  split.
  - intros x. split; apply swo_irrefl.
  - intros x y []. by split.
  - intros x y z [H1 H2] [H3 H4]. split; by eapply swo_negtrans.
Qed.

Lemma tied_less x x' y y' : tied x x' -> tied y y' -> less x y = less x' y'.
Proof.
  intros [H1 H2] [H3 H4]. destruct (less x y) eqn:E1, (less x' y') eqn:E2; try done.
  - pose proof (swo_negtrans x x' y' H1 E2) as E. by rewrite (swo_negtrans x y' y E H4) in E1.
  - pose proof (swo_negtrans x' x y H2 E1) as E. by rewrite (swo_negtrans x' y y' E H3) in E2.
Qed.

Lemma insert_by_tied x x' l l' :
  tied x x' -> Forall2 tied l l' -> Forall2 tied (insert_by less x l) (insert_by less x' l').
Proof.
  intros Hx. induction 1 as [|y y' l l' Hy Hl IH]; simpl; [constructor; [done|constructor]|].
  rewrite (tied_less y y' x x') by done. destruct (less y' x'); [by constructor|]. constructor; [done|]. by constructor.
Qed.

Lemma insert_by_swap x y l : Forall2 tied (insert_by less x (insert_by less y l)) (insert_by less y (insert_by less x l)).
Proof.
  assert (forall l, Forall2 tied l l) as Hrefl by (intros k; reflexivity).
  induction l as [|z l IH]; simpl.
  - destruct (less y x) eqn:E1, (less x y) eqn:E2; try apply Hrefl; [by rewrite (swo_asym _ _ E1) in E2|].
    constructor; [by split|]. constructor; [by split|constructor].
  - destruct (less z y) eqn:Ezy, (less z x) eqn:Ezx; simpl; rewrite ?Ezy, ?Ezx.
    + by constructor.
    + destruct (less x y) eqn:E.
      * destruct (less y x) eqn:E'; [by rewrite (swo_asym _ _ E) in E'|]. rewrite ?Ezy. apply Hrefl.
      * by rewrite (swo_negtrans z x y Ezx E) in Ezy.
    + destruct (less y x) eqn:E; [rewrite ?Ezx; apply Hrefl|]. by rewrite (swo_negtrans z y x Ezy E) in Ezx.
    + destruct (less y x) eqn:E1, (less x y) eqn:E2; simpl; rewrite ?Ezx, ?Ezy; try apply Hrefl.
      * by rewrite (swo_asym _ _ E1) in E2.
      * constructor; [by split|]. constructor; [by split|apply Hrefl].
Qed.

Lemma sort_by_tied_perm l k : l ≡ₚ k -> Forall2 tied (sort_by less l) (sort_by less k).
Proof.
  induction 1 as [|x l k Hp IH|x y l|l k m H1 IH1 H2 IH2]; simpl.
  - constructor.
  - by apply insert_by_tied.
  - apply insert_by_swap.
  - by transitivity (sort_by less k).
Qed.

Lemma sort_by_tied l k : Forall2 tied l k -> Forall2 tied (sort_by less l) (sort_by less k).
Proof. induction 1; simpl; [constructor|]. by apply insert_by_tied. Qed.

(** Two lists sort alike exactly when one is a permutation of the other up to ties. *)
Lemma sorts_alike l k :
  Forall2 tied (sort_by less l) (sort_by less k) <-> exists l', l' ≡ₚ l /\ Forall2 tied l' k.
Proof.
  split.
  - intros H. destruct (Forall2_reorder _ _ _ _ H (sort_by_perm less k)) as (l' & Hp & Hf).
    exists l'. split; [|done]. by rewrite Hp, sort_by_perm.
  - intros (l' & Hp & Hf). transitivity (sort_by less l').
    + by apply sort_by_tied_perm.
    + by apply sort_by_tied.
Qed.
End SortModulo.

(** ** Snapshots *)
Lemma first_difference a b z :
  (if negb (a =? b) then a <? b else z) = (if a <? b then true else if b <? a then false else z).
Proof. destruct (Z.eqb_spec a b), (Z.ltb_spec a b), (Z.ltb_spec b a); simpl; done || lia. Qed.

Lemma opp_ltb a b : (- a <? - b) = (b <? a).
Proof. destruct (Z.ltb_spec (- a) (- b)), (Z.ltb_spec b a); done || lia. Qed.

Lemma swo_ext {A} (less less' : A -> A -> bool) :
  (forall x y, less' x y = less x y) -> StrictWeakOrder less -> StrictWeakOrder less'.
Proof. intros E [S1 S2 S3]. split; intros *; rewrite !E; [apply S1|apply S2|apply S3]. Qed.

#[export] Instance swo_route : StrictWeakOrder lessRoute.
Proof.
  apply (swo_ext _ _) with (2 := swo_lex _ _ (StrictWeakOrder0 := swo_key route_table) (StrictWeakOrder1 :=
    swo_lex _ _ (StrictWeakOrder0 := swo_key (fun r => - prefix_bits (route_destination r))) (StrictWeakOrder1 :=
      swo_lex _ _ (StrictWeakOrder0 := swo_key route_metric) (StrictWeakOrder1 :=
        swo_lex _ _ (StrictWeakOrder0 := swo_key (fun r => route_kind_value (route_kind r)))
          (StrictWeakOrder1 := swo_key route_linkIndex))))).
  intros x y. unfold lessRoute, lex_less. rewrite !first_difference.
  by rewrite (Z.eqb_sym (prefix_bits _)), first_difference, !opp_ltb.
Qed.

#[export] Instance swo_address : StrictWeakOrder lessAddress.
Proof.
  apply (swo_ext _ _) with (2 := swo_lex _ _
    (StrictWeakOrder0 := swo_comparator _ (Comparator0 :=
       comparator_by (fun a => prefix_ip (addr_prefix a)) CompareAddr))
    (StrictWeakOrder1 := swo_lex _ _ (StrictWeakOrder0 := swo_key addr_linkIndex)
       (StrictWeakOrder1 := swo_key (fun a => prefix_bits (addr_prefix a))))).
  intros x y. unfold lessAddress, lex_less. cbv beta zeta. rewrite (first_difference (addr_linkIndex x)).
  pose proof (cmp_sign (c := CompareAddr) (prefix_ip (addr_prefix x)) (prefix_ip (addr_prefix y))) as Hs.
  set (c := CompareAddr (prefix_ip (addr_prefix x)) _) in *. set (d := CompareAddr (prefix_ip (addr_prefix y)) _) in *.
  destruct (Z.eqb_spec c 0), (Z.ltb_spec c 0), (Z.ltb_spec d 0); simpl; done || lia.
Qed.

#[export] Instance swo_link : StrictWeakOrder lessLink.
Proof.
  apply (swo_ext _ _) with (2 := swo_lex _ _ (StrictWeakOrder0 := swo_key link_index)
    (StrictWeakOrder1 := swo_string link_name)).
  intros x y. unfold lessLink, lex_less. apply first_difference.
Qed.

Section NewSnapshot.
Context (links : list linkObservation) (addresses : list addressObservation).
Context (rules : list policyRule) (routes : list fibRoute).
Abbreviation s := (newSnapshot links addresses rules routes).

Lemma newSnapshot_perm :
  snap_links s ≡ₚ links /\ snap_addresses s ≡ₚ addresses /\ snap_rules s ≡ₚ cloneRules rules /\ snap_routes s ≡ₚ routes.
Proof. split_and!; apply sort_by_perm. Qed.

Lemma newSnapshot_routes_sorted : StronglySorted (not_after lessRoute) (snap_routes s).
Proof. apply sort_by_sorted, _. Qed.

Lemma lessRule_priority x y : not_after lessRule x y -> rule_priority x <= rule_priority y.
Proof.
  unfold not_after, lessRule. intros H%Z.ltb_ge. destruct (Z.le_gt_cases (rule_priority x) (rule_priority y)); [done|].
  assert (zcmp (rule_priority y) (rule_priority x) = -1) as E by (unfold zcmp; by rewrite (proj2 (Z.ltb_lt _ _))).
  assert (comparePolicyRules y x = -1) as Ec; [|lia].
  unfold comparePolicyRules, firstRuleDifference, lex_cmp. simpl. rewrite !E. done.
Qed.

Lemma newSnapshot_rules_sorted : StronglySorted (fun x y => rule_priority x <= rule_priority y) (snap_rules s).
Proof.
  pose proof (sort_by_sorted lessRule (cloneRules rules)) as H.
  change (snap_rules s) with (sort_by lessRule (cloneRules rules)).
  induction H as [|x l Hs IH Hf]; constructor; [done|]. eapply Forall_impl; [exact Hf|]. apply lessRule_priority.
Qed.

Lemma newSnapshot_addresses_sorted :
  StronglySorted (fun x y => CompareAddr (la_ip x) (la_ip y) <= 0) (LocalAddresses s).
Proof.
  pose proof (sort_by_sorted lessAddress addresses) as H. unfold LocalAddresses.
  change (snap_addresses s) with (sort_by lessAddress addresses). generalize s; intros s'.
  induction H as [|x l Hs IH Hf]; csimpl; constructor; [done|]. apply Forall_fmap. eapply Forall_impl; [exact Hf|].
  intros y Hy. unfold not_after, lessAddress in Hy. simpl.
  pose proof (cmp_sign (c := CompareAddr) (prefix_ip (addr_prefix x)) (prefix_ip (addr_prefix y))) as Hsign.
  destruct (Z.eqb_spec (CompareAddr (prefix_ip (addr_prefix y)) (prefix_ip (addr_prefix x))) 0); simpl in Hy; [lia|].
  apply Z.ltb_ge in Hy. lia.
Qed.
End NewSnapshot.

(** ** Default candidates *)
(** Every observation of the address is usable and says the same. *)
Definition agreed (addresses : list LocalAddress) (c : LocalAddress) : Prop :=
  c ∈ addresses /\ IsGlobalUnicast (la_ip c) = true /\
  forall a, a ∈ addresses -> la_ip a = la_ip c ->
    la_exclusionReason a = "" /\ la_interface a = la_interface c /\ la_prefixBits a = la_prefixBits c.

Lemma address_group_split ip l g r :
  address_group ip l = (g, r) ->
  l = g ++ r /\ Forall (fun a => la_ip a = ip) g /\ forall x k, r = x :: k -> la_ip x <> ip.
Proof.
  revert g r; induction l as [|x l IH]; simpl; intros g r; [by intros [= <- <-]; split_and!|].
  case_bool_decide as E.
  - destruct (address_group ip l) as [g' r'] eqn:Eg. intros [= <- <-]. destruct (IH _ _ eq_refl) as (-> & Hg & Hr).
    split_and!; [done|by constructor|done].
  - intros [= <- <-]. split_and!; [done|constructor|congruence].
Qed.

Abbreviation by_ip := (fun x y : LocalAddress => CompareAddr (la_ip x) (la_ip y) <= 0).

(** After the group of an address the address does not come again. *)
Lemma address_group_rest first g r :
  StronglySorted by_ip (first :: g ++ r) -> (forall x k, r = x :: k -> la_ip x <> la_ip first) ->
  Forall (fun a => la_ip a <> la_ip first) r.
Proof.
  intros Hs Hr. destruct r as [|x r]; [constructor|]. specialize (Hr x r eq_refl).
  apply StronglySorted_inv in Hs as [Hs Hf]. apply Forall_app in Hf as [_ Hf]. apply Forall_cons in Hf as [Hx Hf].
  constructor; [done|]. assert (StronglySorted by_ip (x :: r)) as Hxr.
  { clear -Hs. induction g as [|z g IH]; [done|]. apply IH. by apply StronglySorted_inv in Hs as [? _]. }
  apply StronglySorted_inv in Hxr as [_ Hxf]. eapply Forall_impl; [exact Hxf|]. intros y Hy E. simpl in Hy.
  rewrite E in Hy. apply Hr. apply CompareAddr_zero. pose proof (cmp_sign (c := CompareAddr) (la_ip x) (la_ip first)). lia.
Qed.

Lemma defaultGroupCandidate_spec first g c :
  defaultGroupCandidate first g = Some c <->
  c = first /\ IsGlobalUnicast (la_ip first) = true /\
  forall a, a ∈ first :: g ->
    la_exclusionReason a = "" /\ la_interface a = la_interface first /\ la_prefixBits a = la_prefixBits first.
Proof.
  unfold defaultGroupCandidate, IncludedByDefault. split.
  - destruct (_ || _) eqn:E; [done|]. destruct (forallb _ _) eqn:Ef; [|done]. intros [= <-].
    bool_to_prop. split_and!; [done|done|]. intros a [->|Ha]%elem_of_cons; [done|].
    rewrite forallb_forall in Ef. apply list_elem_of_In, Ef in Ha. unfold group_agrees, IncludedByDefault in Ha. by bool_to_prop.
  - intros (-> & Hg & Ha). destruct (Ha first ltac:(left)) as (He & _ & _).
    rewrite (bool_decide_eq_true_2 _ He), Hg. simpl. replace (forallb _ _) with true; [done|]. symmetry.
    apply forallb_forall. intros a Hin%list_elem_of_In. destruct (Ha a ltac:(by right)) as (H1 & H2 & H3).
    unfold group_agrees, IncludedByDefault. by rewrite !bool_decide_eq_true_2, H3, Z.eqb_refl.
Qed.

Lemma default_candidates_agreed fuel l :
  (length l <= fuel)%nat -> StronglySorted by_ip l ->
  NoDup (la_ip <$> default_candidates fuel l) /\ forall c, c ∈ default_candidates fuel l <-> agreed l c.
Proof.
  revert l; induction fuel as [|fuel IH]; intros [|first l] Hlen Hs; simpl in Hlen; try lia; simpl.
  1-2: split; [constructor|]; intros c; split; [by intros ?%not_elem_of_nil|by intros [?%not_elem_of_nil _]].
  destruct (address_group (la_ip first) l) as [g r] eqn:Eg. apply address_group_split in Eg as (-> & Hg & Hr).
  pose proof (address_group_rest first g r Hs Hr) as Hne.
  assert (StronglySorted by_ip r) as Hsr.
  { clear -Hs. apply StronglySorted_inv in Hs as [Hs _]. induction g as [|z g IH]; [done|].
    apply IH. by apply StronglySorted_inv in Hs as [? _]. }
  destruct (IH r) as [Hn Hc]; [rewrite length_app in Hlen; lia|done|].
  rewrite Forall_forall in Hg, Hne.
  (** what is agreed about a later address *)
  assert (forall c, agreed r c <-> agreed (first :: g ++ r) c /\ la_ip c <> la_ip first) as Hlater.
  { intros c. unfold agreed. split.
    - intros (Hin & Hgu & Ha). split; [split_and!; [set_solver|done|]|by apply Hne].
      intros a Ha' E. apply Ha; [|done]. apply elem_of_cons in Ha' as [->|[Ha'|Ha']%elem_of_app]; [| |done].
      + by destruct (Hne c Hin).
      + destruct (Hne c Hin). by rewrite <- E, Hg.
    - intros [(Hin & Hgu & Ha) Hd]. split_and!; [|done|intros a Hr' E; apply Ha; set_solver].
      apply elem_of_cons in Hin as [->|[Hin|Hin]%elem_of_app]; [done| |done]. by destruct (Hd (Hg c Hin)). }
  (** and about this one *)
  assert (forall c, la_ip c = la_ip first -> agreed (first :: g ++ r) c <-> defaultGroupCandidate first g = Some c) as Hthis.
  { intros c E. rewrite defaultGroupCandidate_spec. unfold agreed. split.
    - intros (Hin & Hgu & Ha). destruct (Ha first ltac:(left) ltac:(done)) as (E1 & E2 & E3).
      destruct (Ha c Hin ltac:(done)) as (E4 & _). split_and!.
      + destruct c, first; simpl in *; congruence.
      + by rewrite <- E.
      + intros a Hin'. rewrite E2, E3. apply Ha; [set_solver|]. rewrite E.
        apply elem_of_cons in Hin' as [->|Hin']; [done|by apply Hg].
    - intros (-> & Hgu & Ha). split_and!; [left|done|]. intros a Hin E'. apply Ha.
      apply elem_of_cons in Hin as [->|[Hin|Hin]%elem_of_app]; [left|by right|]. by destruct (Hne a Hin). }
  destruct (defaultGroupCandidate first g) as [x|] eqn:Ex.
  - assert (x = first) as -> by (by apply defaultGroupCandidate_spec in Ex as [? _]). rewrite fmap_cons. split.
    + constructor; [|done]. intros (c & E & [_ Hd]%Hc%Hlater)%list_elem_of_fmap. by rewrite E in Hd.
    + intros c. rewrite elem_of_cons, Hc, Hlater. destruct (decide (la_ip c = la_ip first)) as [E|E].
      * rewrite (Hthis c E). split; [intros [->|[_ ?]]; done|]. intros [= ->]. by left.
      * split; [intros [->|[? _]]; done|]. by right.
  - split; [done|]. intros c. rewrite Hc, Hlater. destruct (decide (la_ip c = la_ip first)) as [E|E]; [|tauto].
    rewrite (Hthis c E). split; [by intros [_ ?]|done].
Qed.

(** The addresses offered by default are exactly the global unicast addresses
    all of whose observations are on a usable, non-virtual interface and agree on
    the interface and the prefix length, and each is offered once. *)
Theorem default_candidates_exact links addresses rules routes :
  let s := newSnapshot links addresses rules routes in
  NoDup (la_ip <$> DefaultCandidates s)
  /\ forall c, c ∈ DefaultCandidates s <->
       c ∈ LocalAddresses s /\ IsGlobalUnicast (la_ip c) = true /\
       forall a, a ∈ LocalAddresses s -> la_ip a = la_ip c ->
         la_exclusionReason a = "" /\ la_interface a = la_interface c /\ la_prefixBits a = la_prefixBits c.
Proof.
  intros s. apply default_candidates_agreed; [done|]. apply newSnapshot_addresses_sorted.
Qed.
