(* ===== verification/Capture.v ===== *)
(** * Capturing the network

    [captureLinuxNetwork] of [networkcatalog/capture_linux.go] over any
    [linuxNetworkReader]: facts are read, the interfaces the rules name are
    resolved and every referenced link is observed twice, and only what did not
    change in between becomes a snapshot.  The reader is a state that answers
    each call; the walk from links to their masters has fuel, and [None] is a
    walk that has not ended. *)
From S2P Require Import Prelude Sorting GoText Paths Netip Comparing Catalog CatalogProofs.

Class linuxNetworkReader (S : Type) : Type := {
  readAddresses : S -> result (list addressObservation) * S;
  readPolicyRules : S -> result (list policyRule) * S;
  readRoutes : S -> result (list fibRoute) * S;
  readLinkByIndex : S -> Z -> result (linkObservation * bool) * S;
  readLinkByName : S -> string -> result (linkObservation * bool) * S
}.

Definition linkIsL3Master (link : linkObservation) : bool := bool_decide (link_kind link = "vrf").

Definition set_input_selector (i : inputInterfaceSelector) (r : policyRule) : policyRule :=
  MkRule (rule_priority r) (rule_table r) (rule_source r) (rule_destination r) i (rule_outputInterface r)
    (rule_unresolvedSelectors r) (rule_unsupportedEffects r) (rule_inverted r) (rule_action r).

(** ** Pure parts *)
Definition ruleInputInterfaceIndexes (rules : list policyRule) : gset Z :=
  foldr (fun rule s =>
           if bool_decide (in_state (rule_inputInterface rule) = inputInterfaceAttached)
              && (0 <? in_index (rule_inputInterface rule))
           then {[in_index (rule_inputInterface rule)]} ∪ s else s) ∅ rules.

Definition sortedPositiveIndexes (values : gset Z) : list Z :=
  sort_by Z.ltb (filter (fun v => 0 < v) (elements values)).

Definition referencedLinkIndexes (addresses : list addressObservation) (routes : list fibRoute)
    (rules : list policyRule) : list Z :=
  sortedPositiveIndexes
    (list_to_set (addr_linkIndex <$> addresses) ∪ list_to_set (route_linkIndex <$> routes)
     ∪ foldr (fun rule s =>
           if bool_decide (in_state (rule_inputInterface rule) = inputInterfaceAttached)
           then {[in_index (rule_inputInterface rule)]} ∪ s else s) ∅ rules).

Definition by_index (links : list linkObservation) : gmap Z linkObservation :=
  foldl (fun m link => <[link_index link := link]> m) ∅ links.

Definition input_still_there (links : list linkObservation) (rule : policyRule) : bool :=
  let selector := rule_inputInterface rule in
  if negb (bool_decide (in_state selector = inputInterfaceAttached)) then true
  else match by_index links !! in_index selector with
       | Some link =>
           bool_decide (link_name link = in_name selector)
           && Bool.eqb (linkIsL3Master link) (in_isL3Master selector)
       | None => false
       end.

Fixpoint validateRuleInputInterfaces (rules : list policyRule) (links : list linkObservation) : option error :=
  match rules with
  | [] => None
  | rule :: rules =>
      if input_still_there links rule then validateRuleInputInterfaces rules links
      else Some (ErrText ("policy rule input interface " +:+ in_name (rule_inputInterface rule)
                          +:+ " changed during link observation"))
  end.

Definition requireStableRuleInputInterfaces (rules : list policyRule) (links : list linkObservation) : option error :=
  match validateRuleInputInterfaces rules links with
  | Some e => Some (ErrWrap "policy rule input interface was unstable across link observations" e)
  | None => None
  end.

(** [slices.EqualFunc]. *)
Fixpoint equal_by {A} (eq : A -> A -> bool) (xs ys : list A) : bool :=
  match xs, ys with
  | [], [] => true
  | x :: xs, y :: ys => eq x y && equal_by eq xs ys
  | _, _ => false
  end.

Definition samePolicyRules (left right : list policyRule) : bool :=
  equal_by (fun first second => comparePolicyRules first second =? 0)
    (sort_by lessRule (cloneRules left)) (sort_by lessRule (cloneRules right)).

Definition stableLinkFacts (before : list linkObservation) (addresses : list addressObservation)
    (after : list linkObservation) : list linkObservation * list addressObservation :=
  let confirmed := by_index after in
  let stable := filter (fun link => default zero_link (confirmed !! link_index link) = link) before in
  (stable, filter (fun address => addr_linkIndex address ∈ link_index <$> stable) addresses).

(** ** Reading *)
Section Capture.
Context {S : Type} `{!linuxNetworkReader S}.

(** The rule with its input interface resolved. *)
Definition resolve_input (state : S) (rule : policyRule) : result policyRule * S :=
  let selector := rule_inputInterface rule in
  if bool_decide (selector = no_input) then (Ok rule, state)
  else if bool_decide (in_name selector = "")
  then (Err (ErrText "policy rule has input interface identity without a name"), state)
  else
    match readLinkByName state (in_name selector) with
    | (Err e, state) => (Err e, state)
    | (Ok (link, present), state) =>
        match in_state selector with
        | inputInterfaceUnresolved =>
            if negb present then
              (Err (ErrText ("attached policy rule input interface " +:+ in_name selector +:+ " is unavailable")), state)
            else if (link_index link <=? 0) || negb (bool_decide (link_name link = in_name selector)) then
              (Err (ErrText ("attached policy rule input interface " +:+ in_name selector
                             +:+ " has inconsistent identity")), state)
            else
              (Ok (set_input_selector (MkInput (in_name selector) inputInterfaceAttached (link_index link)
                 (linkIsL3Master link)) rule), state)
        | inputInterfaceDetached =>
            if negb (in_index selector =? -1) || present then
              (Err (ErrText ("detached policy rule input interface " +:+ in_name selector
                             +:+ " has conflicting link identity")), state)
            else (Ok rule, state)
        | _ =>
            (Err (ErrText ("policy rule input interface " +:+ in_name selector
                           +:+ " is already resolved before capture")), state)
        end
    end.

Fixpoint resolve_inputs (state : S) (rules : list policyRule) : result (list policyRule) * S :=
  match rules with
  | [] => (Ok [], state)
  | rule :: rules =>
      match resolve_input state rule with
      | (Err e, state) => (Err e, state)
      | (Ok rule, state) =>
          match resolve_inputs state rules with
          | (Err e, state) => (Err e, state)
          | (Ok rules, state) => (Ok (rule :: rules), state)
          end
      end
  end.

Definition resolveRuleInputInterfaces (state : S) (rules : list policyRule) : result (list policyRule) * S :=
  resolve_inputs state (cloneRules rules).

(** The loop over [indexes[next:]]; [queued] holds every index of [indexes]. *)
Fixpoint observe_links (fuel : nat) (state : S) (required queued : gset Z) (indexes : list Z)
    (links : list linkObservation) : option (result (list linkObservation) * S) :=
  match indexes with
  | [] => Some (Ok links, state)
  | index :: indexes =>
      match fuel with
      | O => None
      | Datatypes.S fuel =>
          match readLinkByIndex state index with
          | (Err e, state) => Some (Err e, state)
          | (Ok (link, present), state) =>
              if negb present then
                if bool_decide (index ∈ required)
                then Some (Err (ErrText ("policy rule input interface index " +:+ pretty index +:+ " is unavailable")), state)
                else observe_links fuel state required queued indexes links
              else if negb (link_index link =? index) || bool_decide (link_name link = "")
              then Some (Err (ErrText ("referenced Linux interface " +:+ pretty index +:+ " has inconsistent identity")), state)
              else
                let master := link_masterIndex link in
                if (0 <? master) && negb (bool_decide (master ∈ queued))
                then observe_links fuel state required ({[master]} ∪ queued) (indexes ++ [master]) (links ++ [link])
                else observe_links fuel state required queued indexes (links ++ [link])
          end
      end
  end.

Definition observeReferencedLinks (fuel : nat) (state : S) (requested : list Z) (required : gset Z)
    : option (result (list linkObservation) * S) :=
  match observe_links fuel state required (list_to_set requested) requested [] with
  | Some (Ok links, state) => Some (Ok (sort_by lessLink links), state)
  | r => r
  end.

Definition resolveRulesAndObserveLinks (fuel : nat) (state : S) (addresses : list addressObservation)
    (rules : list policyRule) (routes : list fibRoute)
    : option (result (list policyRule * list linkObservation) * S) :=
  match resolveRuleInputInterfaces state rules with
  | (Err e, state) => Some (Err e, state)
  | (Ok resolved, state) =>
      let required := ruleInputInterfaceIndexes resolved in
      let indexes := referencedLinkIndexes addresses routes resolved in
      match observeReferencedLinks fuel state indexes required with
      | None => None
      | Some (Err e, state) => Some (Err e, state)
      | Some (Ok links, state) =>
          Some (check! validateRuleInputInterfaces resolved links in Ok (resolved, links), state)
      end
  end.

(** What two rounds of observation make of the facts. *)
Definition settle_facts (addresses : list addressObservation) (routes : list fibRoute)
    (resolved confirmed : list policyRule) (links confirmedLinks : list linkObservation)
    : result Snapshot :=
  if negb (samePolicyRules resolved confirmed)
  then Err (ErrText "Linux policy rule interface identity changed while capturing network catalog")
  else
    let '(stableLinks, stableAddresses) := stableLinkFacts links addresses confirmedLinks in
    check! requireStableRuleInputInterfaces resolved stableLinks in
    Ok (newSnapshot stableLinks stableAddresses resolved routes).

Definition captureLinuxNetwork (fuel : nat) (state : S) : option (result Snapshot * S) :=
  match readAddresses state with
  | (Err e, state) => Some (Err e, state)
  | (Ok addresses, state) =>
  match readPolicyRules state with
  | (Err e, state) => Some (Err e, state)
  | (Ok rules, state) =>
  match readRoutes state with
  | (Err e, state) => Some (Err e, state)
  | (Ok routes, state) =>
  match resolveRulesAndObserveLinks fuel state addresses rules routes with
  | None => None
  | Some (Err e, state) => Some (Err e, state)
  | Some (Ok (resolvedRules, links), state) =>
  match readPolicyRules state with
  | (Err e, state) => Some (Err e, state)
  | (Ok confirmedRawRules, state) =>
  if negb (samePolicyRules rules confirmedRawRules)
  then Some (Err (ErrText "Linux policy rules changed while capturing network catalog"), state)
  else
  match resolveRulesAndObserveLinks fuel state addresses confirmedRawRules routes with
  | None => None
  | Some (Err e, state) => Some (Err e, state)
  | Some (Ok (confirmedRules, confirmedLinks), state) =>
      Some (settle_facts addresses routes resolvedRules confirmedRules links confirmedLinks, state)
  end end end end end end.
End Capture.

(** * The proofs

    The comparison of two readings of the rules decides equality up to order,
    the walk over links ends, and what becomes a snapshot is consistent. *)
(** ** Two readings of the rules *)
Lemma tied_rules x y : tied lessRule x y <-> comparePolicyRules x y = 0.
Proof.
  unfold tied, lessRule. rewrite !Z.ltb_ge. pose proof (cmp_sign (c := comparePolicyRules) x y). lia.
Qed.

Lemma equal_by_spec {A} (eq : A -> A -> bool) (R : A -> A -> Prop) xs ys :
  (forall x y, eq x y = true <-> R x y) -> equal_by eq xs ys = true <-> Forall2 R xs ys.
Proof.
  intros Heq. revert ys; induction xs as [|x xs IH]; intros [|y ys]; simpl; try (split; [done|by inversion 1]).
  rewrite andb_true_iff, Heq, IH, Forall2_cons. done.
Qed.

Lemma samePolicyRules_spec left right :
  samePolicyRules left right = true <->
  exists left', left' ≡ₚ cloneRules left /\ Forall2 (fun x y => comparePolicyRules x y = 0) left' (cloneRules right).
Proof.
  unfold samePolicyRules. rewrite (equal_by_spec _ (tied lessRule)).
  - rewrite (sorts_alike lessRule). split; intros (l & Hp & Hf); exists l; (split; [done|]);
      (eapply Forall2_impl; [exact Hf|]); intros x y; apply tied_rules.
  - intros x y. by rewrite Z.eqb_eq, tied_rules.
Qed.

(** ** Indexes *)
Lemma by_index_foldl links (m : gmap Z linkObservation) i link :
  foldl (fun m link => <[link_index link := link]> m) m links !! i = Some link ->
  (link ∈ links /\ link_index link = i) \/ m !! i = Some link.
Proof.
  revert m; induction links as [|x links IH]; simpl; intros m H; [by right|].
  apply IH in H as [[? ?]|H]; [left; split; [by right|done]|].
  apply lookup_insert_Some in H as [[? ->]|[? ?]]; [left; by split; [left|]|by right].
Qed.

Lemma by_index_Some links i link : by_index links !! i = Some link -> link ∈ links /\ link_index link = i.
Proof. intros [?|H]%by_index_foldl; [done|]. by rewrite lookup_empty in H. Qed.

Lemma sortedPositiveIndexes_spec values :
  NoDup (sortedPositiveIndexes values) /\ forall i, i ∈ sortedPositiveIndexes values <-> 0 < i /\ i ∈ values.
Proof.
  unfold sortedPositiveIndexes. split.
  - rewrite sort_by_perm. apply NoDup_filter, NoDup_elements.
  - intros i. by rewrite sort_by_perm, list_elem_of_filter, elem_of_elements.
Qed.

Section Reading.
Context {S : Type} `{!linuxNetworkReader S}.

(** ** Input interfaces *)
Definition input_settled (selector : inputInterfaceSelector) : Prop :=
  selector = no_input
  \/ (in_name selector <> "" /\ in_state selector = inputInterfaceDetached /\ in_index selector = -1)
  \/ (in_name selector <> "" /\ in_state selector = inputInterfaceAttached /\ 0 < in_index selector).

Lemma resolve_input_settled state rule rule' state' :
  resolve_input state rule = (Ok rule', state') -> input_settled (rule_inputInterface rule').
Proof.
  unfold resolve_input, input_settled. case_bool_decide as E1; [intros [= <- <-]; by left|].
  case_bool_decide as E2; [done|].
  destruct (readLinkByName state _) as [[[link present]|] st]; [|done].
  destruct (in_state (rule_inputInterface rule)) eqn:Es; try done.
  - destruct (negb present); [done|]. destruct (_ || _) eqn:Ei; [done|]. intros [= <- <-]. simpl. right; right.
    bool_to_prop. by split_and!.
  - destruct (_ || _) eqn:Ei; [done|]. intros [= <- <-]. right; left. bool_to_prop. by split_and!.
Qed.
Lemma resolve_inputs_settled state rules rules' state' :
  resolve_inputs state rules = (Ok rules', state') -> Forall (fun r => input_settled (rule_inputInterface r)) rules'.
Proof.
  revert state rules' state'; induction rules as [|rule rules IH]; simpl; intros state rules' state'.
  { intros [= <- <-]. constructor. }
  destruct (resolve_input state rule) as [[rule1|] st1] eqn:E1; [|done].
  destruct (resolve_inputs st1 rules) as [[rules2|] st2] eqn:E2; [|done]. intros [= <- <-].
  constructor; [by eapply resolve_input_settled|by eapply IH].
Qed.

(** ** The walk over links *)
(** A link observed by its index. *)
Definition observed (link : linkObservation) : Prop := 0 < link_index link /\ link_name link <> "".

Record walk_ok (queued : gset Z) (indexes : list Z) (links : list linkObservation) : Prop := {
  walk_observed : Forall observed links;
  walk_positive : Forall (fun i => 0 < i) indexes;
  walk_distinct : NoDup ((link_index <$> links) ++ indexes);
  walk_queued : forall i, i ∈ (link_index <$> links) ++ indexes -> i ∈ queued
}.

Lemma walk_skip queued i indexes links : walk_ok queued (i :: indexes) links -> walk_ok queued indexes links.
Proof.
  intros [H1 H2 H3 H4]. constructor; [done|by apply Forall_cons in H2 as [_ ?]| |intros j Hj; apply H4; set_solver].
  apply NoDup_app in H3 as (? & Hd & H3). apply NoDup_cons in H3 as [_ ?]. apply NoDup_app. split_and!; [done| |done].
  intros j Hj Hj'. by apply (Hd j Hj); right.
Qed.

Lemma walk_take queued i indexes links link :
  walk_ok queued (i :: indexes) links -> link_index link = i -> link_name link <> "" ->
  walk_ok queued indexes (links ++ [link]).
Proof.
  intros [H1 H2 H3 H4] <- Hn. apply Forall_cons in H2 as [Hi H2]. constructor.
  - apply Forall_app. split; [done|]. by constructor.
  - done.
  - rewrite fmap_app, <- app_assoc. done.
  - rewrite fmap_app, <- app_assoc. done.
Qed.

Lemma walk_add queued m indexes links :
  walk_ok queued indexes links -> 0 < m -> m ∉ queued -> walk_ok ({[m]} ∪ queued) (indexes ++ [m]) links.
Proof.
  intros [H1 H2 H3 H4] Hm Hq. constructor.
  - done.
  - apply Forall_app. split; [done|by constructor].
  - rewrite app_assoc. apply NoDup_app. split_and!; [done| |apply NoDup_singleton].
    intros j Hj ->%list_elem_of_singleton. by apply Hq, H4.
  - intros j. rewrite app_assoc, elem_of_app, list_elem_of_singleton. set_solver.
Qed.

Lemma observe_links_ok fuel state required queued indexes links links' state' :
  walk_ok queued indexes links -> observe_links fuel state required queued indexes links = Some (Ok links', state') ->
  Forall observed links' /\ NoDup (link_index <$> links').
Proof.
  revert state queued indexes links; induction fuel as [|fuel IH]; intros state queued [|i indexes] links Hw; simpl; try done.
  1-2: intros [= <- <-]; destruct Hw as [H1 _ H3 _]; rewrite app_nil_r in H3; done.
  destruct (readLinkByIndex state i) as [[[link present]|] st]; [|done].
  destruct (negb present); [case_bool_decide; [done|]; apply IH; by eapply walk_skip|].
  destruct (_ || _) eqn:Ei; [done|]. bool_to_prop.
  assert (walk_ok queued indexes (links ++ [link])) as Hw' by (by eapply walk_take).
  destruct (_ && _) eqn:Em; [|by apply IH]. bool_to_prop. apply IH. by apply walk_add.
Qed.

Lemma observeReferencedLinks_ok fuel state requested required links state' :
  NoDup requested -> Forall (fun i => 0 < i) requested ->
  observeReferencedLinks fuel state requested required = Some (Ok links, state') ->
  Forall observed links /\ NoDup (link_index <$> links).
Proof.
  unfold observeReferencedLinks. intros Hn Hp.
  destruct (observe_links _ _ _ _ _ _) as [[[links0|] st]|] eqn:E; [|done|done]. intros [= <- <-].
  rewrite sort_by_perm. eapply observe_links_ok; [|exact E]. constructor; simpl; [constructor|done|done|set_solver].
Qed.

Lemma resolveRulesAndObserveLinks_ok fuel state addresses rules routes resolved links state' :
  resolveRulesAndObserveLinks fuel state addresses rules routes = Some (Ok (resolved, links), state') ->
  Forall (fun r => input_settled (rule_inputInterface r)) resolved
  /\ Forall observed links /\ NoDup (link_index <$> links).
Proof.
  unfold resolveRulesAndObserveLinks.
  destruct (resolveRuleInputInterfaces state rules) as [[resolved0|] st] eqn:Er; [|done].
  destruct (observeReferencedLinks _ _ _ _) as [[[links0|] st2]|] eqn:Eo; [|done|done].
  intros [= Hc <-]. apply check_Ok_inv in Hc as [_ [= <- <-]].
  split; [by eapply resolve_inputs_settled|].
  destruct (sortedPositiveIndexes_spec (list_to_set (addr_linkIndex <$> addresses) ∪ list_to_set (route_linkIndex <$> routes)
     ∪ foldr (fun rule s =>
           if bool_decide (in_state (rule_inputInterface rule) = inputInterfaceAttached)
           then {[in_index (rule_inputInterface rule)]} ∪ s else s) ∅ resolved0)) as [Hn Hi].
  eapply observeReferencedLinks_ok; [| |exact Eo]; [exact Hn|].
  apply Forall_forall. intros i Hin. by apply Hi in Hin as [? _].
Qed.

(** ** Snapshots *)
(** The rule's input interface agrees with the observed links. *)
Definition input_consistent (links : list linkObservation) (selector : inputInterfaceSelector) : Prop :=
  selector = no_input
  \/ (in_name selector <> "" /\ in_state selector = inputInterfaceDetached /\ in_index selector = -1)
  \/ (in_name selector <> "" /\ in_state selector = inputInterfaceAttached
      /\ exists link, link ∈ links /\ link_index link = in_index selector /\ link_name link = in_name selector
         /\ linkIsL3Master link = in_isL3Master selector).

Lemma validated_inputs rules links :
  validateRuleInputInterfaces rules links = None -> Forall (fun r => input_settled (rule_inputInterface r)) rules ->
  Forall (fun r => input_consistent links (rule_inputInterface r)) rules.
Proof.
  intros Hv. induction 1 as [|rule rules Hr _ IH]; simpl in *; [constructor|].
  destruct (input_still_there links rule) eqn:E; [|done]. constructor; [|by apply IH].
  destruct Hr as [Hr|[Hr|(Hn & Hs & Hi)]]; [by left|by right; left|right; right]. split_and!; [done|done|].
  unfold input_still_there in E. rewrite (bool_decide_eq_true_2 _ Hs) in E. simpl in E.
  destruct (by_index links !! _) as [link|] eqn:El; [|done]. apply by_index_Some in El as [? ?]. bool_to_prop.
  exists link. split_and!; [done|done|done|by apply eqb_prop].
Qed.

Lemma cloneRule_input rule : rule_inputInterface (cloneRule rule) = rule_inputInterface rule.
Proof. done. Qed.

Lemma settle_facts_ok addresses routes resolved confirmed links confirmedLinks snapshot :
  Forall (fun r => input_settled (rule_inputInterface r)) resolved ->
  Forall observed links -> NoDup (link_index <$> links) ->
  settle_facts addresses routes resolved confirmed links confirmedLinks = Ok snapshot ->
  Forall observed (snap_links snapshot) /\ NoDup (link_index <$> snap_links snapshot)
  /\ (forall link, link ∈ snap_links snapshot -> link ∈ links /\ link ∈ confirmedLinks)
  /\ Forall (fun a => addr_linkIndex a ∈ link_index <$> snap_links snapshot) (snap_addresses snapshot)
  /\ Forall (fun r => input_consistent (snap_links snapshot) (rule_inputInterface r)) (snap_rules snapshot).
Proof.
  intros Hr Hl Hn. unfold settle_facts, stableLinkFacts. destruct (negb _); [done|].
  set (stable := filter _ links). set (stable_addresses := filter _ addresses).
  intros [Hc <-%Ok_inj]%check_Ok_inv. unfold requireStableRuleInputInterfaces in Hc.
  destruct (validateRuleInputInterfaces resolved stable) eqn:Ev; [done|].
  destruct (newSnapshot_perm stable stable_addresses resolved routes) as (Pl & Pa & Pr & _).
  assert (forall link, link ∈ stable -> link ∈ links /\ link ∈ confirmedLinks) as Hstable.
  { intros link [Hc' Hin]%list_elem_of_filter. split; [done|].
    destruct (by_index confirmedLinks !! link_index link) as [l|] eqn:El; simpl in Hc'; subst.
    - by apply by_index_Some in El as [? _].
    - rewrite Forall_forall in Hl. by destruct (Hl _ Hin) as [? _]. }
  split_and!.
  - rewrite Pl. rewrite Forall_forall in Hl |- *. intros link Hin. by apply Hl, Hstable.
  - rewrite Pl. eapply (sublist_NoDup _ _ Hn). apply fmap_sublist, sublist_filter.
  - intros link. rewrite Pl. apply Hstable.
  - rewrite Pa. apply Forall_forall. intros a [Ha _]%list_elem_of_filter. by rewrite Pl.
  - rewrite Pr. unfold cloneRules. apply Forall_fmap. eapply Forall_impl; [by apply (validated_inputs resolved stable)|].
    intros r [Hi|[Hi|(H1 & H2 & link & Hin & H3)]]; [by left|by right; left|right; right].
    split_and!; [done|done|]. exists link. by rewrite Pl.
Qed.

(** ** The walk ends *)
(** Interface indexes do not exceed [N]. *)
Definition indexes_bounded (N : Z) : Prop :=
  (forall state addresses state', readAddresses state = (Ok addresses, state') ->
     Forall (fun a => addr_linkIndex a <= N) addresses)
  /\ (forall state routes state', readRoutes state = (Ok routes, state') -> Forall (fun r => route_linkIndex r <= N) routes)
  /\ (forall state i link present state', readLinkByIndex state i = (Ok (link, present), state') ->
     link_masterIndex link <= N)
  /\ (forall state name link present state', readLinkByName state name = (Ok (link, present), state') ->
     link_index link <= N).

Definition up_to (N : Z) : gset Z := list_to_set (seqZ 1 N).

Lemma elem_of_up_to N i : i ∈ up_to N <-> 0 < i <= N.
Proof. unfold up_to. rewrite elem_of_list_to_set, elem_of_seqZ. lia. Qed.

Lemma size_up_to N queued : queued ⊆ up_to N -> (size queued <= Z.to_nat N)%nat.
Proof.
  intros Hs. etransitivity; [by apply subseteq_size|]. unfold up_to. rewrite size_list_to_set; [|apply NoDup_seqZ].
  by rewrite length_seqZ.
Qed.

Lemma observe_links_terminates N fuel state required queued indexes links :
  indexes_bounded N -> queued ⊆ up_to N -> (length indexes + (Z.to_nat N - size queued) <= fuel)%nat ->
  is_Some (observe_links fuel state required queued indexes links).
Proof.
  intros (_ & _ & HN & _). revert state queued indexes links; induction fuel as [|fuel IH];
    intros state queued [|i indexes] links Hq Hf; simpl; try by eexists.
  { simpl in Hf. lia. }
  simpl in Hf. destruct (readLinkByIndex state i) as [[[link present]|] st] eqn:El; [|by eexists].
  destruct (negb present); [case_bool_decide; [by eexists|]; apply IH; [done|lia]|].
  destruct (_ || _); [by eexists|]. destruct (_ && _) eqn:Em; [|by apply IH; [done|lia]].
  bool_to_prop. pose proof (HN _ _ _ _ _ El) as Hm.
  assert ({[link_masterIndex link]} ∪ queued ⊆ up_to N) as Hq'.
  { apply union_subseteq. split; [|done]. apply singleton_subseteq_l. by apply elem_of_up_to. }
  apply IH; [done|]. pose proof (size_up_to _ _ Hq') as Hsz. rewrite size_union_alt in Hsz |- *.
  rewrite length_app. cbn [length].
  assert (size (queued ∖ {[link_masterIndex link]}) = size queued) as Hd.
  { f_equal. set_solver. }
  rewrite size_singleton in *. rewrite Hd in *. lia.
Qed.

Lemma resolve_input_index N state rule rule' state' :
  indexes_bounded N -> resolve_input state rule = (Ok rule', state') ->
  in_state (rule_inputInterface rule') = inputInterfaceAttached -> in_index (rule_inputInterface rule') <= N.
Proof.
  intros (_ & _ & _ & HN). unfold resolve_input. case_bool_decide as E1; [intros [= <- <-]; by rewrite E1|].
  case_bool_decide; [done|]. destruct (readLinkByName state _) as [[[link present]|] st] eqn:El; [|done].
  destruct (in_state (rule_inputInterface rule)) eqn:Es; try done.
  - destruct (negb present); [done|]. destruct (_ || _); [done|]. intros [= <- <-]. simpl. intros _. by eapply HN.
  - destruct (_ || _); [done|]. intros [= <- <-]. congruence.
Qed.

Lemma resolve_inputs_index N state rules rules' state' :
  indexes_bounded N -> resolve_inputs state rules = (Ok rules', state') ->
  Forall (fun r => in_state (rule_inputInterface r) = inputInterfaceAttached -> in_index (rule_inputInterface r) <= N) rules'.
Proof.
  intros HN. revert state rules' state'; induction rules as [|rule rules IH]; simpl; intros state rules' state'.
  { intros [= <- <-]. constructor. }
  destruct (resolve_input state rule) as [[rule1|] st1] eqn:E1; [|done].
  destruct (resolve_inputs st1 rules) as [[rules2|] st2] eqn:E2; [|done]. intros [= <- <-].
  constructor; [by eapply resolve_input_index|by eapply IH].
Qed.

Lemma attached_indexes (N : Z) rules i :
  Forall (fun r => in_state (rule_inputInterface r) = inputInterfaceAttached -> in_index (rule_inputInterface r) <= N) rules ->
  i ∈ foldr (fun rule s =>
           if bool_decide (in_state (rule_inputInterface rule) = inputInterfaceAttached)
           then {[in_index (rule_inputInterface rule)]} ∪ s else s) (∅ : gset Z) rules -> i <= N.
Proof.
  induction 1 as [|r rules Hr _ IH]; simpl; [set_solver|]. case_bool_decide as E; [|done].
  intros [->%elem_of_singleton|?]%elem_of_union; auto.
Qed.

Lemma resolveRulesAndObserveLinks_terminates N fuel state addresses rules routes :
  indexes_bounded N -> Forall (fun a => addr_linkIndex a <= N) addresses -> Forall (fun r => route_linkIndex r <= N) routes ->
  (Z.to_nat N <= fuel)%nat -> is_Some (resolveRulesAndObserveLinks fuel state addresses rules routes).
Proof.
  intros HN Ha Hr Hf. unfold resolveRulesAndObserveLinks.
  destruct (resolveRuleInputInterfaces state rules) as [[resolved|] st] eqn:Er; [|by eexists].
  assert (is_Some (observeReferencedLinks fuel st (referencedLinkIndexes addresses routes resolved)
    (ruleInputInterfaceIndexes resolved))) as [[[links|] st'] ->]; [|by eexists|by eexists].
  unfold observeReferencedLinks, referencedLinkIndexes.
  match goal with |- context [sortedPositiveIndexes ?v] => destruct (sortedPositiveIndexes_spec v) as [Hn Hi];
    set (requested := sortedPositiveIndexes v) in * end.
  assert (list_to_set requested ⊆ up_to N) as Hq.
  { intros i [Hpos Hin]%elem_of_list_to_set%Hi. apply elem_of_up_to. split; [done|].
    apply elem_of_union in Hin as [Hin|Hin]; [|by apply (attached_indexes N resolved i);
      [eapply resolve_inputs_index; [exact HN|exact Er]|]].
    rewrite Forall_forall in Ha. rewrite Forall_forall in Hr.
    apply elem_of_union in Hin as [(x & -> & Hx)%elem_of_list_to_set%list_elem_of_fmap
      |(x & -> & Hx)%elem_of_list_to_set%list_elem_of_fmap]; auto. }
  destruct (observe_links_terminates N fuel st (ruleInputInterfaceIndexes resolved) (list_to_set requested) requested [])
    as [[[links|] st'] ->]; [done|done| |by eexists|by eexists].
  pose proof (size_up_to N (list_to_set requested) Hq) as Hsz. rewrite size_list_to_set in * by done. lia.
Qed.

Lemma captureLinuxNetwork_terminates N fuel state :
  indexes_bounded N -> (Z.to_nat N <= fuel)%nat -> is_Some (captureLinuxNetwork fuel state).
Proof.
  intros HN Hf. unfold captureLinuxNetwork. pose proof HN as (Ha & Hr & _).
  destruct (readAddresses state) as [[addresses|] s1] eqn:E1; [|by eexists].
  destruct (readPolicyRules s1) as [[rules|] s2]; [|by eexists].
  destruct (readRoutes s2) as [[routes|] s3] eqn:E3; [|by eexists]. apply Ha in E1. apply Hr in E3.
  destruct (resolveRulesAndObserveLinks_terminates N fuel s3 addresses rules routes HN E1 E3 Hf)
    as [[[[resolved links]|] s4] ->]; [|by eexists].
  destruct (readPolicyRules s4) as [[confirmed|] s5]; [|by eexists]. destruct (negb _); [by eexists|].
  destruct (resolveRulesAndObserveLinks_terminates N fuel s5 addresses confirmed routes HN E1 E3 Hf)
    as [[[[resolved' links']|] s6] ->]; by eexists.
Qed.

Lemma captureLinuxNetwork_ok fuel state snapshot state' :
  captureLinuxNetwork fuel state = Some (Ok snapshot, state') ->
  Forall observed (snap_links snapshot) /\ NoDup (link_index <$> snap_links snapshot)
  /\ Forall (fun a => addr_linkIndex a ∈ link_index <$> snap_links snapshot) (snap_addresses snapshot)
  /\ Forall (fun r => input_consistent (snap_links snapshot) (rule_inputInterface r)) (snap_rules snapshot).
Proof.
  unfold captureLinuxNetwork.
  destruct (readAddresses state) as [[addresses|] s1]; [|done].
  destruct (readPolicyRules s1) as [[rules|] s2]; [|done].
  destruct (readRoutes s2) as [[routes|] s3]; [|done].
  destruct (resolveRulesAndObserveLinks fuel s3 addresses rules routes) as [[[[resolved links]|] s4]|] eqn:E4; [|done|done].
  destruct (readPolicyRules s4) as [[confirmed|] s5]; [|done]. destruct (negb _); [done|].
  destruct (resolveRulesAndObserveLinks fuel s5 addresses confirmed routes) as [[[[resolved' links']|] s6]|]; [|done|done].
  intros [= Hs <-]. apply resolveRulesAndObserveLinks_ok in E4 as (H1 & H2 & H3).
  apply settle_facts_ok in Hs as (? & ? & _ & ? & ?); [|done..]. by split_and!.
Qed.
End Reading.

(** ** Properties *)
(** C30. Capturing always ends: with interface indexes up to [N] (the kernel's are
    below 2^31), [N] steps of the walk over links and their masters are enough,
    whatever the kernel answers at each call. *)
Theorem capture_terminates {S : Type} {reader : linuxNetworkReader S} N fuel (state : S)
    (HN : indexes_bounded N) (Hf : (Z.to_nat N <= fuel)%nat) :
  is_Some (captureLinuxNetwork fuel state).
Proof. exact (captureLinuxNetwork_terminates N fuel state HN Hf). Qed.

(** C31. A captured snapshot is consistent: every link was observed under its own
    positive index and has a name, indexes do not repeat, every address is on an
    observed link, and every rule's input interface is absent, gone, or one of
    the observed links under its name and index. *)
Theorem captured_snapshot_is_consistent {S : Type} {reader : linuxNetworkReader S} fuel (state state' : S) snapshot
    (Hc : captureLinuxNetwork fuel state = Some (Ok snapshot, state')) :
  Forall observed (snap_links snapshot) /\ NoDup (link_index <$> snap_links snapshot)
  /\ Forall (fun a => addr_linkIndex a ∈ link_index <$> snap_links snapshot) (snap_addresses snapshot)
  /\ Forall (fun r => input_consistent (snap_links snapshot) (rule_inputInterface r)) (snap_rules snapshot).
Proof. exact (captureLinuxNetwork_ok fuel state snapshot state' Hc). Qed.

(** Two readings of the policy rules count as the same exactly when one is a
    reordering of the other up to rules that compare equal: the comparison by
    sorting is the comparison of multisets. *)
Theorem same_policy_rules_is_multiset_equality left right :
  samePolicyRules left right = true <->
  exists left', left' ≡ₚ cloneRules left /\ Forall2 (fun x y => comparePolicyRules x y = 0) left' (cloneRules right).
Proof. exact (samePolicyRules_spec left right). Qed.

(** A host with one interface attached to a bridge. *)
Definition fixed_link (i : Z) : result (linkObservation * bool) :=
  if i =? 2 then Ok (MkLink 2 "eth0" "" 1500 1 3 "up", true)
  else if i =? 3 then Ok (MkLink 3 "br0" "bridge" 1500 1 0 "up", true)
  else Ok (zero_link, false).

Definition fixed_rules : list policyRule := [
  MkRule 5 254 zero_prefix zero_prefix (MkInput "eth0" inputInterfaceUnresolved 0 false) no_output [] [] false ruleLookup].

#[export] Instance fixed_reader : linuxNetworkReader () := {
  readAddresses _ := (Ok [MkAddress 2 (MkPrefix (Addr4 5) 24)], ());
  readPolicyRules _ := (Ok fixed_rules, ());
  readRoutes _ := (Ok [], ());
  readLinkByIndex _ i := (fixed_link i, ());
  readLinkByName _ name := (if bool_decide (name = "eth0") then fixed_link 2 else Ok (zero_link, false), ())
}.

Lemma fixed_reader_bounded : indexes_bounded (S := ()) 3.
Proof.
  split_and!; simpl.
  - intros u a u' [= <- <-]. by repeat constructor.
  - intros u r u' [= <- <-]. constructor.
  - intros u i link present u'. unfold fixed_link. destruct (i =? 2); [by intros [= <- <-]|].
    by destruct (i =? 3); intros [= <- <-].
  - intros u name link present u'. unfold fixed_link. case_bool_decide; by intros [= <- <-].
Qed.

Lemma capture_terminates_witness : is_Some (captureLinuxNetwork 3 ()).
Proof. exact (capture_terminates 3 3 () fixed_reader_bounded (le_n 3)). Defined.

Definition fixed_snapshot : Snapshot :=
  match captureLinuxNetwork 3 () with Some (Ok s, _) => s | _ => MkSnapshot [] [] [] [] end.

Example fixed_capture : captureLinuxNetwork 3 () = Some (Ok fixed_snapshot, ()).
Proof. vm_compute. reflexivity. Qed.

Lemma captured_snapshot_is_consistent_witness :
  length (snap_links fixed_snapshot) = 2%nat /\ NoDup (link_index <$> snap_links fixed_snapshot).
Proof.
  split; [vm_compute; reflexivity|].
  exact (proj1 (proj2 (captured_snapshot_is_consistent 3 () () fixed_snapshot fixed_capture))).
Defined.
