(* ===== verification/Resolve.v ===== *)
(** * Egress resolution

    [networkcatalog/resolve.go]: which interface, routing table and gateway the
    kernel uses for traffic a selected source address originates, decided from
    the observed policy rules and default routes alone, or the reason why that
    cannot be decided. *)
From S2P Require Import Prelude Sorting GoText Paths Netip Comparing Catalog.

Definition localIPv4OutputInputInterfaceIndex : Z := 1.

Inductive localOutputRuleMatch : Type :=
  | ruleDoesNotMatchLocalOutput
  | ruleMatchesLocalOutput
  | ruleMayMatchLocalOutput.

Section Egress.
Variable egress : Egress.

Definition with_reason (reason : string) : Egress :=
  MkEgress (eg_localIP egress) (eg_interface egress) (eg_table egress) (eg_gateway egress) (eg_hasGateway egress)
    (eg_runnable egress) reason (eg_diagnostics egress).

Definition with_diagnostics (more : list string) : Egress :=
  MkEgress (eg_localIP egress) (eg_interface egress) (eg_table egress) (eg_gateway egress) (eg_hasGateway egress)
    (eg_runnable egress) (eg_reason egress) (eg_diagnostics egress ++ more).

Definition with_route (link : linkObservation) (route : fibRoute) : Egress :=
  MkEgress (eg_localIP egress) (publicInterface link) (route_table route) (route_gateway route)
    (route_hasGateway route) true (eg_reason egress) (eg_diagnostics egress).
End Egress.

Definition new_egress (source : Addr) : Egress := MkEgress source zero_interface 0 AddrNone false false "" [].

(** ** Text *)
Definition action_text (a : ruleAction) : string :=
  match a with
  | ruleLookup => "lookup" | ruleBlackhole => "blackhole" | ruleUnreachable => "unreachable"
  | ruleProhibit => "prohibit" | ruleContinue => "continue" | ruleUnknown => ""
  end.

Definition route_kind_text (k : routeKind) : string :=
  match k with
  | routeUnicast => "unicast" | routeThrow => "throw" | routeUnreachable => "unreachable"
  | routeBlackhole => "blackhole" | routeProhibit => "prohibit" | routeUnsupported => "unsupported"
  end.

Definition selector_description (selector : unresolvedRuleSelector) : string :=
  match sel_kind selector with
  | ruleSelectorTypeOfService => "type-of-service"
  | ruleSelectorFirewallMark => "fwmark"
  | ruleSelectorUIDRange => "UID range"
  | ruleSelectorTransport => "transport selector"
  | ruleSelectorL3Master => "VRF/l3mdev"
  | ruleSelectorTunnelID => "tunnel ID"
  | ruleSelectorFlowRealm => "flow realm"
  | ruleSelectorUnknownAttribute => "rule attribute " +:+ pretty (sel_attribute selector)
  end.

(** [%#x]: at most [fuel] hexadecimal digits. *)
Fixpoint hex_text (fuel : nat) (v : Z) : string :=
  match fuel with
  | S fuel => (if v / 16 =? 0 then "" else hex_text fuel (v / 16)) +:+ hex_digit (v mod 16)
  | O => ""
  end.

Definition effect_description (effect : unsupportedRuleEffect) : string :=
  match eff_kind effect with
  | ruleEffectRouteSuppression => "route suppression"
  | ruleEffectGoto => "goto"
  | ruleEffectHeaderFlags => "rule flags 0x" +:+ hex_text 8 (eff_flags effect)
  end.

(** ** The source address *)
Definition same_observation (first match_ : addressObservation) : bool :=
  (addr_linkIndex match_ =? addr_linkIndex first)
  && (prefix_bits (addr_prefix match_) =? prefix_bits (addr_prefix first)).

Definition localAddress (snapshot : Snapshot) (source : Addr) : string + addressObservation * list string :=
  match filter (fun address => prefix_ip (addr_prefix address) = source) (snap_addresses snapshot) with
  | [] => inl ("selected source " +:+ AddrString source +:+ " is not a local address")
  | first :: rest =>
      if forallb (same_observation first) rest then
        let link := default zero_link (linkIndex snapshot !! addr_linkIndex first) in
        inr (first,
             if (0 <? zlen rest) then
               ["duplicate address observation on " +:+ link_name link +:+ "(ifindex=" +:+ pretty (link_index link) +:+ ")"]
             else [])
      else inl ("selected source " +:+ AddrString source
                +:+ " has conflicting facts on multiple interfaces or prefixes")
  end.

(** The name of the VRF a link is attached to. *)
Definition vrf_master (snapshot : Snapshot) (link : linkObservation) : option string :=
  match linkIndex snapshot !! link_masterIndex link with
  | Some master => if bool_decide (link_kind master = "vrf") then Some (link_name master) else None
  | None => None
  end.

Definition unsupportedAddressTopology (snapshot : Snapshot) (address : addressObservation) : string :=
  match linkIndex snapshot !! addr_linkIndex address with
  | None => "local address refers to missing interface index " +:+ pretty (addr_linkIndex address)
  | Some link =>
      let reason := unavailableInterfaceReason link ("local interface " +:+ link_name link) in
      if negb (bool_decide (reason = "")) then reason
      else if has_flag (link_flags link) FlagLoopback then "local interface " +:+ link_name link +:+ " is loopback"
      else if bool_decide (link_kind link = "vrf") then
        "local interface " +:+ link_name link +:+ " uses unsupported VRF topology"
      else match vrf_master snapshot link with
           | Some master => "local interface " +:+ link_name link +:+ " is attached to unsupported VRF " +:+ master
           | None => ""
           end
  end.

(** ** Matching a policy rule *)
(** Whether the rule's input interface is the one of locally originated traffic,
    and whether that is known. *)
Definition inputInterfaceMatchesLocalOutput (selector : inputInterfaceSelector) : bool * bool :=
  if in_isL3Master selector then (false, false)
  else match in_state selector with
       | inputInterfaceAttached =>
           if in_index selector <=? 0 then (false, false)
           else (in_index selector =? localIPv4OutputInputInterfaceIndex, true)
       | inputInterfaceDetached => if negb (in_index selector =? -1) then (false, false) else (false, true)
       | _ => (false, false)
       end.

Definition appendUniqueDescription (values : list string) (value : string) : list string :=
  if bool_decide (value ∈ values) then values else values ++ [value].

Definition undecidable_destination (rule : policyRule) : list string :=
  if PrefixIsValid (rule_destination rule) && (0 <? prefix_bits (rule_destination rule))
  then ["destination prefix " +:+ PrefixString (rule_destination rule)] else [].

(** Whether the input interface excludes local output, and what is undecidable. *)
Definition input_selector_result (selector : inputInterfaceSelector) : bool * list string :=
  if negb (bool_decide (in_name selector = "")) then
    let '(matches, known) := inputInterfaceMatchesLocalOutput selector in
    if known && negb matches then (true, [])
    else if negb known then (false, ["input interface " +:+ in_name selector])
    else (false, [])
  else if negb (bool_decide (selector = no_input)) then (false, ["invalid input interface identity"])
  else (false, []).

Definition undecidable_output (selector : outputInterfaceSelector) : list string :=
  if negb (bool_decide (out_name selector = "")) then ["output interface " +:+ out_name selector]
  else if negb (bool_decide (selector = no_output)) then ["invalid output interface identity"]
  else [].

Definition matchLocalOutputRule (rule : policyRule) (source : Addr) : localOutputRuleMatch * list string :=
  let '(excluded, undecidable_input) := input_selector_result (rule_inputInterface rule) in
  let nonmatching := (PrefixIsValid (rule_source rule) && negb (Contains (rule_source rule) source)) || excluded in
  let undecidable :=
    foldl (fun values selector => appendUniqueDescription values (selector_description selector))
      (undecidable_destination rule ++ undecidable_input ++ undecidable_output (rule_outputInterface rule))
      (rule_unresolvedSelectors rule) in
  if nonmatching then
    if rule_inverted rule then (ruleMatchesLocalOutput, []) else (ruleDoesNotMatchLocalOutput, [])
  else if negb (zlen undecidable =? 0) then (ruleMayMatchLocalOutput, undecidable)
  else if rule_inverted rule then (ruleDoesNotMatchLocalOutput, [])
  else (ruleMatchesLocalOutput, []).

(** ** Routes *)
Definition invalidGateway (address : Addr) : bool :=
  negb (Is4 address) || IsUnspecified address || IsLoopback address || IsMulticast address
  || bool_decide (address = AddrFrom4 [xff; xff; xff; xff]).

Definition runnableRoute (snapshot : Snapshot) (egress : Egress) (route : fibRoute) : Egress :=
  match linkIndex snapshot !! route_linkIndex route with
  | Some link =>
      if (link_index link <=? 0) || bool_decide (link_name link = "") then
        with_reason egress ("default route output interface index " +:+ pretty (route_linkIndex route) +:+ " is unavailable")
      else
        let reason := unavailableInterfaceReason link ("default route output interface " +:+ link_name link) in
        if negb (bool_decide (reason = "")) then with_reason egress reason
        else if bool_decide (link_kind link = "vrf") then
          with_reason egress ("default route uses unsupported VRF interface " +:+ link_name link)
        else match vrf_master snapshot link with
             | Some master =>
                 with_reason egress ("default route interface " +:+ link_name link
                                     +:+ " is attached to unsupported VRF " +:+ master)
             | None =>
                 if route_hasGateway route && invalidGateway (route_gateway route) then
                   with_reason egress ("default route gateway " +:+ AddrString (route_gateway route) +:+ " is invalid")
                 else with_route egress link route
             end
  | None =>
      with_reason egress ("default route output interface index " +:+ pretty (route_linkIndex route) +:+ " is unavailable")
  end.

Definition applyRoute (snapshot : Snapshot) (egress : Egress) (route : fibRoute) : Egress * bool :=
  let egress := with_diagnostics egress
    ["default route table=" +:+ pretty (route_table route) +:+ " metric=" +:+ pretty (route_metric route)
     +:+ " type=" +:+ route_kind_text (route_kind route)] in
  match route_kind route with
  | routeThrow => (egress, false)
  | routeUnreachable | routeBlackhole | routeProhibit =>
      (with_reason egress ("default route action is " +:+ route_kind_text (route_kind route)), true)
  | routeUnicast => (runnableRoute snapshot egress route, true)
  | routeUnsupported =>
      (with_reason egress ("default route is unsupported"
         +:+ (if bool_decide (route_unsupported route = "") then "" else ": " +:+ route_unsupported route)), true)
  end.

Definition is_default (table : Z) (route : fibRoute) : bool :=
  (route_table route =? table) && PrefixIsValid (route_destination route)
  && (prefix_bits (route_destination route) =? 0).

Definition defaultRoutes (snapshot : Snapshot) (table : Z) : list fibRoute :=
  filter (fun route => Is_true (is_default table route)) (snap_routes snapshot).

(** The routes after the first that share its metric. *)
Fixpoint equal_metric (metric : Z) (routes : list fibRoute) : list fibRoute :=
  match routes with
  | r :: rest => if route_metric r =? metric then r :: equal_metric metric rest else []
  | [] => []
  end.

Definition equivalent_route (first route : fibRoute) : bool :=
  bool_decide (route_kind route = route_kind first) && (route_linkIndex route =? route_linkIndex first)
  && bool_decide (route_gateway route = route_gateway first)
  && Bool.eqb (route_hasGateway route) (route_hasGateway first).

Definition lookupTable (snapshot : Snapshot) (egress : Egress) (table : Z) : Egress * bool :=
  match defaultRoutes snapshot table with
  | [] => (with_diagnostics egress ["table " +:+ pretty table +:+ " has no default route"], false)
  | first :: rest =>
      if forallb (equivalent_route first) (equal_metric (route_metric first) rest)
      then applyRoute snapshot egress first
      else (with_reason egress ("table " +:+ pretty table +:+ " has ambiguous equal-cost default routes"), true)
  end.

(** ** Rules *)
Definition rule_diagnostic (rule : policyRule) : string :=
  "policy rule priority=" +:+ pretty (rule_priority rule) +:+ " table=" +:+ pretty (rule_table rule).

Definition applyRule (snapshot : Snapshot) (egress : Egress) (rule : policyRule) : Egress * bool :=
  let egress := with_diagnostics egress [rule_diagnostic rule] in
  if negb (zlen (rule_unsupportedEffects rule) =? 0) then
    (with_reason egress ("policy rule has unsupported effect: "
       +:+ Join (effect_description <$> rule_unsupportedEffects rule) ", "), true)
  else match rule_action rule with
       | ruleContinue => (egress, false)
       | ruleBlackhole | ruleUnreachable | ruleProhibit =>
           (with_reason egress ("policy rule action is " +:+ action_text (rule_action rule)), true)
       | ruleLookup => lookupTable snapshot egress (rule_table rule)
       | ruleUnknown => (with_reason egress "policy rule has unsupported action", true)
       end.

(** The applicable rules of one priority, or the egress that ends the search. *)
Fixpoint applicable_rules (egress : Egress) (source : Addr) (group : list policyRule) : Egress + list policyRule :=
  match group with
  | [] => inr []
  | rule :: group =>
      match matchLocalOutputRule rule source with
      | (ruleMayMatchLocalOutput, undecidable) =>
          inl (with_reason (with_diagnostics egress [rule_diagnostic rule])
            ("policy rule depends on selector not determined for local output: " +:+ Join undecidable ", "))
      | (ruleMatchesLocalOutput, _) =>
          match applicable_rules egress source group with inl e => inl e | inr rules => inr (rule :: rules) end
      | (ruleDoesNotMatchLocalOutput, _) => applicable_rules egress source group
      end
  end.

Definition equivalentRules (first : policyRule) (rest : list policyRule) : bool :=
  forallb (fun rule => comparePolicyRules rule first =? 0) rest.

Fixpoint priority_group (priority : Z) (rules : list policyRule) : list policyRule * list policyRule :=
  match rules with
  | r :: rest =>
      if rule_priority r =? priority then let '(group, rest) := priority_group priority rest in (r :: group, rest)
      else ([], rules)
  | [] => ([], [])
  end.

(** One priority: the egress so far, and whether the search has ended. *)
Definition resolve_group (snapshot : Snapshot) (egress : Egress) (source : Addr) (group : list policyRule) : Egress * bool :=
  match applicable_rules egress source group with
  | inl egress => (egress, true)
  | inr [] => (egress, false)
  | inr (first :: rest) =>
      if equivalentRules first rest then applyRule snapshot egress first
      else (with_reason egress ("multiple policy rules at priority " +:+ pretty (rule_priority first)
                                +:+ " are ambiguous"), true)
  end.

(** The fuel bounds the number of priorities. *)
Fixpoint resolve_rules (fuel : nat) (snapshot : Snapshot) (egress : Egress) (source : Addr)
    (rules : list policyRule) : Egress :=
  match fuel, rules with
  | S fuel, first :: _ =>
      let '(group, rest) := priority_group (rule_priority first) rules in
      let '(egress, finished) := resolve_group snapshot egress source group in
      if finished then egress else resolve_rules fuel snapshot egress source rest
  | _, _ => with_reason egress "no usable default route for selected source"
  end.

Definition resolveRules (snapshot : Snapshot) (egress : Egress) (source : Addr) : Egress :=
  resolve_rules (length (snap_rules snapshot)) snapshot egress source (snap_rules snapshot).

Definition resolveOne (snapshot : Snapshot) (source : Addr) : Egress :=
  let egress := new_egress source in
  if negb (Is4 source) then with_reason egress ("selected source " +:+ AddrString source +:+ " is not IPv4")
  else match localAddress snapshot source with
       | inl reason => with_reason egress reason
       | inr (address, diagnostics) =>
           let egress := with_diagnostics egress diagnostics in
           let reason := unsupportedAddressTopology snapshot address in
           if negb (bool_decide (reason = "")) then with_reason egress reason
           else resolveRules snapshot egress source
       end.

Definition Resolve (snapshot : Snapshot) (sources : list Addr) : list Egress := resolveOne snapshot <$> sources.
