(* ===== verification/ResolveProofs.v ===== *)
(** * Egress resolution: the proofs

    A concrete packet is a destination and the answer to every selector the
    resolver does not know.  The kernel's own lookup is written down for such a
    packet; the resolver's verdict on a rule is exact over all packets, and an
    egress it calls runnable is the one the kernel uses for every packet that
    only the default routes cover. *)
From S2P Require Import Prelude Sorting GoText Paths Netip Comparing Catalog CatalogProofs Resolve.

(** ** Packets and the kernel's lookup *)
Record World : Type := MkWorld {
  w_destination : Z;
  w_input : inputInterfaceSelector -> bool;
  w_output : outputInterfaceSelector -> bool;
  w_selector : unresolvedRuleSelector -> bool
}.

Definition world_wf (W : World) : Prop := in_u 32 (w_destination W).

(** Local output enters through the loopback interface, and an interface that is
    gone matches nothing; l3mdev masters and anything else is up to the packet. *)
Definition input_matches (W : World) (selector : inputInterfaceSelector) : bool :=
  if bool_decide (selector = no_input) then true
  else if bool_decide (in_name selector = "") || in_isL3Master selector then w_input W selector
  else match in_state selector with
       | inputInterfaceAttached => if 0 <? in_index selector then in_index selector =? 1 else w_input W selector
       | inputInterfaceDetached => if in_index selector =? -1 then false else w_input W selector
       | _ => w_input W selector
       end.

Definition output_matches (W : World) (selector : outputInterfaceSelector) : bool :=
  if bool_decide (selector = no_output) then true else w_output W selector.

Definition rule_matches (W : World) (source : Addr) (rule : policyRule) : bool :=
  xorb (rule_inverted rule)
    (Contains (rule_source rule) source && Contains (rule_destination rule) (Addr4 (w_destination W))
     && input_matches W (rule_inputInterface rule) && output_matches W (rule_outputInterface rule)
     && forallb (w_selector W) (rule_unresolvedSelectors rule)).

(** An IPv4 prefix, as the decoder makes them. *)
Definition prefix4_wf (p : Prefix) : Prop :=
  exists v, prefix_ip p = Addr4 v /\ in_u 32 v /\ 0 <= prefix_bits p <= 32.

Definition rule_wf (rule : policyRule) : Prop :=
  prefix4_wf (rule_source rule) /\ prefix4_wf (rule_destination rule).

Definition covers (W : World) (route : fibRoute) : Prop :=
  Contains (route_destination route) (Addr4 (w_destination W)) = true.

(** Longest prefix, then lowest metric. *)
Definition chosen (snapshot : Snapshot) (W : World) (table : Z) (r : fibRoute) : Prop :=
  r ∈ snap_routes snapshot /\ route_table r = table /\ covers W r /\
  forall r', r' ∈ snap_routes snapshot -> route_table r' = table -> covers W r' ->
    prefix_bits (route_destination r') < prefix_bits (route_destination r)
    \/ (prefix_bits (route_destination r') = prefix_bits (route_destination r) /\ route_metric r <= route_metric r').

(** What becomes of a packet: the route it takes, or none.  A rule whose effect
    or action the program does not know may do anything. *)
Inductive kernel_outcome (snapshot : Snapshot) (W : World) (source : Addr) : list policyRule -> option fibRoute -> Prop :=
  | ko_end : kernel_outcome snapshot W source [] None
  | ko_skip rule rules o :
      rule_matches W source rule = false -> kernel_outcome snapshot W source rules o ->
      kernel_outcome snapshot W source (rule :: rules) o
  | ko_effect rule rules o :
      rule_matches W source rule = true -> rule_unsupportedEffects rule <> [] \/ rule_action rule = ruleUnknown ->
      kernel_outcome snapshot W source (rule :: rules) o
  | ko_refuse rule rules :
      rule_matches W source rule = true -> rule_unsupportedEffects rule = [] ->
      rule_action rule ∈ [ruleBlackhole; ruleUnreachable; ruleProhibit] ->
      kernel_outcome snapshot W source (rule :: rules) None
  | ko_continue rule rules o :
      rule_matches W source rule = true -> rule_unsupportedEffects rule = [] -> rule_action rule = ruleContinue ->
      kernel_outcome snapshot W source rules o -> kernel_outcome snapshot W source (rule :: rules) o
  | ko_route rule rules r :
      rule_matches W source rule = true -> rule_unsupportedEffects rule = [] -> rule_action rule = ruleLookup ->
      chosen snapshot W (rule_table rule) r -> route_kind r <> routeThrow ->
      kernel_outcome snapshot W source (rule :: rules) (Some r)
  | ko_throw rule rules r o :
      rule_matches W source rule = true -> rule_unsupportedEffects rule = [] -> rule_action rule = ruleLookup ->
      chosen snapshot W (rule_table rule) r -> route_kind r = routeThrow ->
      kernel_outcome snapshot W source rules o -> kernel_outcome snapshot W source (rule :: rules) o
  | ko_miss rule rules o :
      rule_matches W source rule = true -> rule_unsupportedEffects rule = [] -> rule_action rule = ruleLookup ->
      (forall r, ~ chosen snapshot W (rule_table rule) r) ->
      kernel_outcome snapshot W source rules o -> kernel_outcome snapshot W source (rule :: rules) o.

(** Only default routes cover the packet. *)
Definition default_only (snapshot : Snapshot) (W : World) : Prop :=
  forall r, r ∈ snap_routes snapshot -> covers W r -> prefix_bits (route_destination r) = 0.

Definition routes_wf (snapshot : Snapshot) : Prop :=
  forall r, r ∈ snap_routes snapshot -> prefix4_wf (route_destination r).

(** ** The verdict on one rule *)
Lemma prefix4_valid p : prefix4_wf p -> PrefixIsValid p = true.
Proof. intros (v & _ & _ & ?). apply Z.leb_le. lia. Qed.

Lemma contains4 p v d :
  prefix_ip p = Addr4 v -> 0 <= prefix_bits p ->
  Contains p (Addr4 d) = (v / 2 ^ (32 - prefix_bits p) =? d / 2 ^ (32 - prefix_bits p)).
Proof.
  intros Hv Hb. unfold Contains, PrefixIsValid, top_bits. rewrite Hv, (proj2 (Z.leb_le _ _) Hb). done.
Qed.

Lemma default_contains p d : prefix4_wf p -> prefix_bits p = 0 -> in_u 32 d -> Contains p (Addr4 d) = true.
Proof.
  intros (v & Hv & Hr & Hb) H0 Hd. rewrite (contains4 p v d Hv) by lia. rewrite H0.
  unfold in_u in *. rewrite Z.sub_0_r, !Z.div_small by lia. done.
Qed.

Lemma prefix_contains_itself p v : prefix_ip p = Addr4 v -> 0 <= prefix_bits p -> Contains p (Addr4 v) = true.
Proof. intros Hv Hb. rewrite (contains4 p v v Hv Hb). apply Z.eqb_refl. Qed.

Lemma prefix_excludes p :
  prefix4_wf p -> 0 < prefix_bits p -> exists d, in_u 32 d /\ Contains p (Addr4 d) = false.
Proof.
  intros (v & Hv & Hr & Hb) H0. unfold in_u in *.
  set (n := 32 - prefix_bits p). assert (0 <= n <= 31) as Hn by lia.
  assert (2 ^ 31 = 2 ^ (31 - n) * 2 ^ n) as E by (rewrite <- Z.pow_add_r by lia; f_equal; lia).
  pose proof (Z.pow_pos_nonneg 2 n ltac:(lia) ltac:(lia)). pose proof (Z.pow_pos_nonneg 2 (31 - n) ltac:(lia) ltac:(lia)).
  exists (if v <? 2 ^ 31 then v + 2 ^ 31 else v - 2 ^ 31). split; [destruct (Z.ltb_spec v (2 ^ 31)); lia|].
  rewrite (contains4 p v _ Hv) by lia. fold n. apply Z.eqb_neq.
  destruct (Z.ltb_spec v (2 ^ 31)); rewrite E; [rewrite Z.div_add by lia; lia|].
  replace (v - 2 ^ (31 - n) * 2 ^ n) with (v + (- 2 ^ (31 - n)) * 2 ^ n) by lia. rewrite Z.div_add by lia. lia.
Qed.

(** What the resolver finds out about an input selector. *)
Lemma input_selector_exact selector :
  match input_selector_result selector with
  | (true, u) => u = [] /\ forall W, input_matches W selector = false
  | (false, []) => forall W, input_matches W selector = true
  | (false, _) => forall W, input_matches W selector = w_input W selector
  end.
Proof.
  unfold input_selector_result, input_matches.
  case_bool_decide as En; csimpl.
  { destruct (decide (selector = no_input)) as [->|Hne]; [done|].
    rewrite (bool_decide_eq_false_2 (selector = no_input)) by done. intros W. done. }
  assert (selector <> no_input) as Hne by (by intros ->).
  rewrite (bool_decide_eq_false_2 (selector = no_input)) by done.
  unfold inputInterfaceMatchesLocalOutput, localIPv4OutputInputInterfaceIndex. destruct (in_isL3Master selector); [done|].
  destruct (in_state selector); csimpl; try done.
  - rewrite Z.leb_antisym. destruct (0 <? in_index selector); csimpl; [|done].
    by destruct (in_index selector =? 1).
  - by destruct (in_index selector =? -1).
Qed.

Lemma output_selector_exact selector W :
  if bool_decide (undecidable_output selector = []) then output_matches W selector = true
  else output_matches W selector = w_output W selector.
Proof.
  unfold undecidable_output, output_matches. destruct (decide (selector = no_output)) as [->|Hne]; [done|].
  rewrite (bool_decide_eq_false_2 (selector = no_output)) by done.
  by destruct (negb (bool_decide (out_name selector = ""))).
Qed.

Lemma append_unique_nil (values : list string) v : appendUniqueDescription values v <> [].
Proof. unfold appendUniqueDescription. case_bool_decide; [by intros ->; set_solver|by destruct values]. Qed.

Lemma undecidable_nil selectors values :
  foldl (fun values selector => appendUniqueDescription values (selector_description selector)) values selectors = [] <->
  values = [] /\ selectors = [].
Proof.
  revert values; induction selectors as [|s ss IH]; intros values; simpl; [tauto|].
  rewrite IH. split; [|by intros [_ ?]]. intros [H%append_unique_nil _]. done.
Qed.

Lemma destination_decided rule d :
  prefix4_wf (rule_destination rule) -> in_u 32 d -> undecidable_destination rule = [] ->
  Contains (rule_destination rule) (Addr4 d) = true.
Proof.
  intros Hp Hd. unfold undecidable_destination. rewrite (prefix4_valid _ Hp). simpl.
  destruct (Z.ltb_spec 0 (prefix_bits (rule_destination rule))); [done|]. intros _.
  pose proof Hp as (v & ? & ? & ?). apply default_contains; [done|lia|done].
Qed.

(** A packet that satisfies, or fails, everything that is up to it. *)
Definition agreeable (d : Z) (b : bool) : World := MkWorld d (fun _ => b) (fun _ => b) (fun _ => b).

Definition verdict_exact (source : Addr) (rule : policyRule) (v : localOutputRuleMatch) : Prop :=
  match v with
  | ruleMatchesLocalOutput => forall W, world_wf W -> rule_matches W source rule = true
  | ruleDoesNotMatchLocalOutput => forall W, world_wf W -> rule_matches W source rule = false
  | ruleMayMatchLocalOutput =>
      (exists W, world_wf W /\ rule_matches W source rule = true)
      /\ exists W, world_wf W /\ rule_matches W source rule = false
  end.

(** The selectors apart from inversion. *)
Definition base_matches (W : World) (source : Addr) (rule : policyRule) : bool :=
  Contains (rule_source rule) source && Contains (rule_destination rule) (Addr4 (w_destination W))
  && input_matches W (rule_inputInterface rule) && output_matches W (rule_outputInterface rule)
  && forallb (w_selector W) (rule_unresolvedSelectors rule).

Lemma undecided_both_ways rule source :
  rule_wf rule -> Contains (rule_source rule) source = true ->
  (input_selector_result (rule_inputInterface rule)).1 = false ->
  undecidable_destination rule ++ (input_selector_result (rule_inputInterface rule)).2
    ++ undecidable_output (rule_outputInterface rule) <> [] \/ rule_unresolvedSelectors rule <> [] ->
  (exists W, world_wf W /\ base_matches W source rule = true)
  /\ exists W, world_wf W /\ base_matches W source rule = false.
Proof.
  intros [_ Hd] Hs Hi Hu. pose proof Hd as (v & Hv & Hr & Hb). unfold base_matches. rewrite Hs.
  pose proof (input_selector_exact (rule_inputInterface rule)) as Hin.
  destruct (input_selector_result (rule_inputInterface rule)) as [ex u]; simpl in *; subst ex.
  pose proof (output_selector_exact (rule_outputInterface rule)) as Hout. split.
  - exists (agreeable v true). split; [done|]. simpl. rewrite (prefix_contains_itself _ v Hv) by lia. simpl.
    assert (input_matches (agreeable v true) (rule_inputInterface rule) = true) as -> by (destruct u; by rewrite Hin).
    specialize (Hout (agreeable v true)). case_bool_decide; rewrite Hout; simpl; by apply forallb_forall.
  - destruct (Z.ltb_spec 0 (prefix_bits (rule_destination rule))) as [H0|H0].
    { destruct (prefix_excludes _ Hd H0) as (d & Hdr & Hc). exists (agreeable d true). split; [done|]. simpl. by rewrite Hc. }
    assert (undecidable_destination rule = []) as Hud.
    { unfold undecidable_destination. by rewrite (proj2 (Z.ltb_ge _ _) H0), andb_false_r. }
    exists (agreeable v false). split; [done|]. rewrite Hud in Hu. specialize (Hout (agreeable v false)).
    destruct u as [|x u]; [|rewrite Hin; simpl; by rewrite andb_false_r].
    case_bool_decide as Eo; [|rewrite Hout; simpl; by rewrite !andb_false_r].
    rewrite Eo in Hu. destruct (rule_unresolvedSelectors rule); [naive_solver|]. simpl. by rewrite andb_false_r.
Qed.

Lemma match_verdict_exact rule source :
  rule_wf rule -> verdict_exact source rule (matchLocalOutputRule rule source).1.
Proof.
  intros Hwf. pose proof Hwf as [Hs Hd]. unfold matchLocalOutputRule. rewrite (prefix4_valid _ Hs).
  pose proof (undecided_both_ways rule source Hwf) as Hboth.
  pose proof (input_selector_exact (rule_inputInterface rule)) as Hin.
  destruct (input_selector_result (rule_inputInterface rule)) as [ex u]; simpl in *.
  assert (forall W, rule_matches W source rule = xorb (rule_inverted rule) (base_matches W source rule)) as Hm by done.
  destruct (Contains (rule_source rule) source) eqn:Ec; simpl; last first.
  { assert (forall W, base_matches W source rule = false) as Hb by (intros W; unfold base_matches; by rewrite Ec).
    destruct (rule_inverted rule) eqn:Ei; simpl; intros W _; by rewrite Hm, Hb, ?Ei. }
  destruct ex; simpl.
  { assert (forall W, base_matches W source rule = false) as Hb.
    { intros W. unfold base_matches. destruct Hin as [_ ->]. by rewrite andb_false_r. }
    destruct (rule_inverted rule) eqn:Ei; simpl; intros W _; by rewrite Hm, Hb, ?Ei. }
  match goal with |- context [zlen ?x =? 0] => set (un := x) end.
  destruct (zlen un =? 0) eqn:En; simpl; last first.
  { destruct Hboth as [(W1 & Hw1 & H1) (W2 & Hw2 & H2)]; [done|done| |].
    - destruct (decide (rule_unresolvedSelectors rule = [])) as [Es|]; [|by right]. left. intros Ex. apply Z.eqb_neq in En.
      apply En. unfold un. by rewrite (proj2 (undecidable_nil _ _) (conj Ex Es)).
    - destruct (rule_inverted rule) eqn:Ei; split; [exists W2|exists W1|exists W1|exists W2];
        rewrite Hm, ?H1, ?H2, ?Ei; done. }
  assert (forall W, world_wf W -> base_matches W source rule = true) as Hb.
  { apply Z.eqb_eq in En. assert (un = []) as E by (destruct un; [done|rewrite zlen_cons in En; pose proof (zlen_nonneg un); lia]).
    unfold un in E. apply undecidable_nil in E as [[E1 [E2 E3]%app_nil]%app_nil E4]. intros W Hw. unfold base_matches.
    rewrite Ec, (destination_decided rule _ Hd Hw E1), E4. subst u. rewrite Hin.
    pose proof (output_selector_exact (rule_outputInterface rule) W) as Hout. rewrite (bool_decide_eq_true_2 _ E3) in Hout.
    by rewrite Hout. }
  destruct (rule_inverted rule) eqn:Ei; simpl; intros W Hw; by rewrite Hm, Hb, ?Ei.
Qed.

(** ** Default routes *)
Definition routes_sorted (snapshot : Snapshot) : Prop := StronglySorted (not_after lessRoute) (snap_routes snapshot).
Definition rules_sorted (rules : list policyRule) : Prop :=
  StronglySorted (fun x y => rule_priority x <= rule_priority y) rules.

Lemma is_default_spec table r :
  is_default table r = true <-> route_table r = table /\ prefix_bits (route_destination r) = 0.
Proof.
  unfold is_default, PrefixIsValid. rewrite !andb_true_iff, !Z.eqb_eq, Z.leb_le. lia.
Qed.

Lemma elem_of_defaultRoutes snapshot table r :
  r ∈ defaultRoutes snapshot table <->
  r ∈ snap_routes snapshot /\ route_table r = table /\ prefix_bits (route_destination r) = 0.
Proof. unfold defaultRoutes. rewrite list_elem_of_filter, Is_true_true, is_default_spec. tauto. Qed.

Lemma StronglySorted_filter' {A} (R : A -> A -> Prop) (P : A -> Prop) `{!forall x, Decision (P x)} l :
  StronglySorted R l -> StronglySorted R (filter P l).
Proof.
  induction 1 as [|x l Hs IH Hf]; [constructor|]. rewrite filter_cons. case_decide; [|done].
  constructor; [done|]. rewrite Forall_forall in Hf |- *. intros y [_ Hy]%list_elem_of_filter. by apply Hf.
Qed.

Lemma default_metrics snapshot table :
  routes_sorted snapshot ->
  StronglySorted (fun x y => route_metric x <= route_metric y) (defaultRoutes snapshot table).
Proof.
  intros Hs. apply (StronglySorted_filter' _ (fun r => Is_true (is_default table r))) in Hs.
  fold (defaultRoutes snapshot table) in Hs.
  assert (forall r, r ∈ defaultRoutes snapshot table -> is_default table r = true) as Hd.
  { intros r Hr. apply is_default_spec. by apply elem_of_defaultRoutes in Hr as [_ ?]. }
  revert Hs Hd. generalize (defaultRoutes snapshot table). induction 1 as [|x l Hs IH Hf]; intros Hd; [constructor|].
  constructor; [apply IH; set_solver|].
  rewrite Forall_forall in Hf |- *. intros y Hy. specialize (Hf y Hy). unfold not_after, lessRoute in Hf.
  pose proof (proj1 (is_default_spec _ _) (Hd x ltac:(set_solver))) as [E1 E2].
  pose proof (proj1 (is_default_spec _ _) (Hd y ltac:(set_solver))) as [E3 E4].
  rewrite E1, E2, E3, E4, !Z.eqb_refl in Hf. simpl in Hf.
  destruct (Z.eqb_spec (route_metric y) (route_metric x)); simpl in Hf; [lia|]. apply Z.ltb_ge in Hf. lia.
Qed.

Lemma elem_of_equal_metric m l r :
  StronglySorted (fun x y => route_metric x <= route_metric y) l -> Forall (fun x => m <= route_metric x) l ->
  r ∈ l -> route_metric r = m -> r ∈ equal_metric m l.
Proof.
  induction 1 as [|x l Hs IH Hf]; intros Hm Hr E; [by apply not_elem_of_nil in Hr|].
  apply Forall_cons in Hm as [Hx Hm]. simpl. apply elem_of_cons in Hr as [->|Hr].
  - rewrite (proj2 (Z.eqb_eq _ _) E). left.
  - rewrite Forall_forall in Hf. specialize (Hf r Hr). simpl in Hf.
    assert (route_metric x = m) as -> by lia. rewrite Z.eqb_refl. right. by apply IH.
Qed.

Section Choice.
Context (snapshot : Snapshot) (W : World) (table : Z).
Context (Hwf : routes_wf snapshot) (Hsorted : routes_sorted snapshot).
Context (HW : world_wf W) (Honly : default_only snapshot W).

Lemma default_covers r : r ∈ snap_routes snapshot -> prefix_bits (route_destination r) = 0 -> covers W r.
Proof. intros Hr H0. apply default_contains; [by apply Hwf|done|done]. Qed.

Lemma chosen_none r : defaultRoutes snapshot table = [] -> ~ chosen snapshot W table r.
Proof.
  intros E (Hr & Ht & Hc & _). assert (r ∈ defaultRoutes snapshot table) as H.
  { apply elem_of_defaultRoutes. split_and!; [done|done|by apply Honly]. }
  rewrite E in H. by apply not_elem_of_nil in H.
Qed.

Lemma chosen_first first rest : defaultRoutes snapshot table = first :: rest -> chosen snapshot W table first.
Proof.
  intros E. assert (first ∈ defaultRoutes snapshot table) as H by (rewrite E; left).
  apply elem_of_defaultRoutes in H as (Hr & Ht & H0). split_and!; [done|done|by apply default_covers|].
  intros r' Hr' Ht' Hc'. right. pose proof (Honly r' Hr' Hc') as H0'. split; [lia|].
  assert (r' ∈ defaultRoutes snapshot table) as H' by (by apply elem_of_defaultRoutes).
  pose proof (default_metrics snapshot table Hsorted) as Hm. rewrite E in Hm, H'. apply elem_of_cons in H' as [->|H']; [lia|].
  apply StronglySorted_inv in Hm as [_ Hf]. rewrite Forall_forall in Hf. by apply Hf.
Qed.

Lemma chosen_among_first first rest r :
  defaultRoutes snapshot table = first :: rest -> chosen snapshot W table r ->
  r ∈ first :: equal_metric (route_metric first) rest.
Proof.
  intros E (Hr & Ht & Hc & Hbest). pose proof (default_metrics snapshot table Hsorted) as Hm. rewrite E in Hm.
  apply StronglySorted_inv in Hm as [Hm Hf].
  assert (r ∈ defaultRoutes snapshot table) as H by (apply elem_of_defaultRoutes; split_and!; [done|done|by apply Honly]).
  rewrite E in H. apply elem_of_cons in H as [->|H]; [left|]. right. apply elem_of_equal_metric; [done|done|done|].
  destruct (chosen_first first rest E) as (Hr1 & Ht1 & Hc1 & _).
  destruct (Hbest first Hr1 Ht1 Hc1) as [Hb|[_ Hle]].
  - pose proof (Honly first Hr1 Hc1). pose proof (Honly r Hr Hc). lia.
  - rewrite Forall_forall in Hf. specialize (Hf r H). simpl in Hf. lia.
Qed.
End Choice.

(** ** Rules, one priority at a time *)
Section Lookup.
Context (snapshot : Snapshot) (W : World) (source : Addr).
Context (Hroutes : routes_wf snapshot) (Hsorted : routes_sorted snapshot).
Context (HW : world_wf W) (Honly : default_only snapshot W).

(** The kernel goes on past the rule. *)
Inductive passes (rule : policyRule) : Prop :=
  | passes_skip : rule_matches W source rule = false -> passes rule
  | passes_continue :
      rule_matches W source rule = true -> rule_unsupportedEffects rule = [] -> rule_action rule = ruleContinue ->
      passes rule
  | passes_miss :
      rule_matches W source rule = true -> rule_unsupportedEffects rule = [] -> rule_action rule = ruleLookup ->
      (forall r, ~ chosen snapshot W (rule_table rule) r) -> passes rule
  | passes_throw r :
      rule_matches W source rule = true -> rule_unsupportedEffects rule = [] -> rule_action rule = ruleLookup ->
      chosen snapshot W (rule_table rule) r ->
      (forall r, chosen snapshot W (rule_table rule) r -> route_kind r = routeThrow) -> passes rule.

(** The route has the effect of [first]. *)
Definition like (first r : fibRoute) : Prop :=
  route_kind r = route_kind first /\ route_linkIndex r = route_linkIndex first
  /\ route_gateway r = route_gateway first /\ route_hasGateway r = route_hasGateway first
  /\ route_table r = route_table first.

(** The rule sends the packet where [first] leads. *)
Definition hits (first : fibRoute) (rule : policyRule) : Prop :=
  rule_matches W source rule = true /\ rule_unsupportedEffects rule = [] /\ rule_action rule = ruleLookup
  /\ chosen snapshot W (rule_table rule) first /\ route_kind first = routeUnicast
  /\ forall r, chosen snapshot W (rule_table rule) r -> like first r.

(** Steps of the kernel that contradict what is known of the rule. *)
Ltac ko_clash :=
  repeat match goal with
  | H : _ \/ _ |- _ => destruct H
  | H : _ ∈ _ :: _ |- _ => apply elem_of_cons in H
  | H : _ ∈ [] |- _ => by apply not_elem_of_nil in H
  | H : forall r, ~ chosen _ _ _ r, Hc : chosen _ _ _ _ |- _ => by destruct (H _ Hc)
  | H : forall r, chosen _ _ _ r -> _, Hc : chosen _ _ _ _ |- _ => apply H in Hc as Hc
  | H : like _ _ |- _ => destruct H as (? & ? & ? & ? & ?)
  end; congruence.

Lemma outcome_passes kg kr o :
  Forall passes kg -> kernel_outcome snapshot W source (kg ++ kr) o <-> kernel_outcome snapshot W source kr o.
Proof.
  induction 1 as [|rule kg Hp _ IH]; [done|]. simpl. rewrite <- IH. split.
  - intros H. inversion H; subst; try done; destruct Hp; ko_clash.
  - intros H. destruct Hp; [by apply ko_skip|by apply ko_continue|by apply ko_miss|].
    apply (ko_throw _ _ _ _ _ r); auto.
Qed.

Lemma outcome_hits first kg kr :
  Forall (fun rule => rule_matches W source rule = false \/ hits first rule) kg -> Exists (hits first) kg ->
  (exists o, kernel_outcome snapshot W source (kg ++ kr) o)
  /\ forall o, kernel_outcome snapshot W source (kg ++ kr) o -> exists r, o = Some r /\ like first r.
Proof.
  induction 1 as [|rule kg Hp Hf IH]; intros He; [by apply Exists_nil in He|].
  destruct Hp as [Hp|(Hm & Heff & Ha & Hc & Hk & Hl)].
  - apply Exists_cons in He as [(Hm & _)|He]; [congruence|]. destruct (IH He) as [(o & Ho) Hall]. split.
    + exists o. by apply ko_skip.
    + intros o' H. inversion H; subst; try congruence. by apply Hall.
  - split.
    + exists (Some first). apply ko_route; [done|done|done|done|congruence].
    + intros o H. inversion H; subst; try ko_clash. exists r. split; [done|]. by apply Hl.
Qed.
End Lookup.

(** ** Links *)
Lemma linkIndex_Some snapshot i link :
  linkIndex snapshot !! i = Some link -> link ∈ snap_links snapshot /\ link_index link = i.
Proof.
  unfold linkIndex. generalize (snap_links snapshot). intros l. cut (forall (m : gmap Z linkObservation),
    (forall i link, m !! i = Some link -> link_index link = i) ->
    foldl (fun m link => <[link_index link := link]> m) m l !! i = Some link ->
    (link ∈ l \/ m !! i = Some link) /\ link_index link = i).
  { intros Hg H. destruct (Hg ∅) as [[?|?] ?]; done. }
  induction l as [|x l IH]; simpl; intros m Hm H; [by split; [right|by apply Hm]|].
  apply IH in H as [H ?].
  - split; [|done]. destruct H as [H|H]; [left; by right|].
    apply lookup_insert_Some in H as [[? ->]|[? ?]]; [left; left|by right].
  - intros j y [[? ->]|[_ Hy]]%lookup_insert_Some; [done|by apply Hm].
Qed.

(** What makes an output interface usable. *)
Definition link_usable (snapshot : Snapshot) (link : linkObservation) : Prop :=
  0 < link_index link /\ link_name link <> "" /\ has_flag (link_flags link) FlagUp = true
  /\ link_operationalState link ∈ [""; "up"; "unknown"] /\ link_kind link <> "vrf" /\ vrf_master snapshot link = None.

Lemma available_link link subject :
  subject <> "" ->
  unavailableInterfaceReason link subject = "" ->
  has_flag (link_flags link) FlagUp = true /\ link_operationalState link ∈ [""; "up"; "unknown"].
Proof.
  unfold unavailableInterfaceReason. destruct (has_flag (link_flags link) FlagUp); simpl; [|by destruct subject].
  case_bool_decide; [done|]. by destruct subject.
Qed.

Ltac reasoned := right; eexists; split; [|reflexivity]; first [discriminate | by bool_to_prop].

Lemma runnableRoute_cases snapshot egress route :
  (exists link, linkIndex snapshot !! route_linkIndex route = Some link /\ link_usable snapshot link
     /\ (route_hasGateway route = true -> invalidGateway (route_gateway route) = false)
     /\ runnableRoute snapshot egress route = with_route egress link route)
  \/ exists reason, reason <> "" /\ runnableRoute snapshot egress route = with_reason egress reason.
Proof.
  unfold runnableRoute. destruct (linkIndex snapshot !! route_linkIndex route) as [link|]; [|reasoned].
  destruct ((link_index link <=? 0) || bool_decide (link_name link = "")) eqn:E1; [reasoned|].
  destruct (negb (bool_decide (unavailableInterfaceReason link _ = ""))) eqn:E2; [reasoned|].
  destruct (bool_decide (link_kind link = "vrf")) eqn:E3; [reasoned|].
  destruct (vrf_master snapshot link) eqn:E4; [reasoned|].
  destruct (route_hasGateway route && invalidGateway (route_gateway route)) eqn:E5; [reasoned|].
  left. exists link. bool_to_prop. apply available_link in E2 as [? ?]; [|done]. split_and!; try done.
  destruct E5; congruence.
Qed.

(** ** The steps of the resolver *)
Definition leads (egress : Egress) (r : fibRoute) : Prop :=
  route_kind r = routeUnicast /\ route_linkIndex r = if_index (eg_interface egress)
  /\ route_table r = eg_table egress /\ route_gateway r = eg_gateway egress
  /\ route_hasGateway r = eg_hasGateway egress.

Section Steps.
Context (snapshot : Snapshot) (W : World) (source : Addr).
Context (Hroutes : routes_wf snapshot) (Hsorted : routes_sorted snapshot).
Context (HW : world_wf W) (Honly : default_only snapshot W).

Abbreviation matches := (rule_matches W source).

Lemma applyRoute_step egress route e' fin :
  eg_runnable egress = false -> applyRoute snapshot egress route = (e', fin) ->
  if fin then eg_runnable e' = true -> leads e' route
  else eg_runnable e' = false /\ route_kind route = routeThrow.
Proof.
  intros He. unfold applyRoute. destruct (route_kind route) eqn:Ek; intros [= <- <-]; try (simpl; congruence); [|by simpl].
  match goal with |- context [runnableRoute snapshot ?e route] => destruct (runnableRoute_cases snapshot e route)
    as [(link & Hl & _ & _ & ->)|(reason & _ & ->)] end; simpl; [|congruence].
  intros _. apply linkIndex_Some in Hl as [_ Hi]. by split_and!.
Qed.

Lemma lookupTable_step egress table rule e' fin :
  eg_runnable egress = false -> rule_table rule = table -> matches rule = true ->
  rule_unsupportedEffects rule = [] -> rule_action rule = ruleLookup ->
  lookupTable snapshot egress table = (e', fin) ->
  if fin then eg_runnable e' = true -> exists first, hits snapshot W source first rule /\ leads e' first
  else eg_runnable e' = false /\ passes snapshot W source rule.
Proof.
  intros He <- Hm Heff Ha. unfold lookupTable. destruct (defaultRoutes snapshot (rule_table rule)) as [|first rest] eqn:Ed.
  - intros [= <- <-]. split; [done|]. apply passes_miss; [done..|]. intros r. by apply chosen_none.
  - pose proof (chosen_first snapshot W _ Hroutes Hsorted HW Honly _ _ Ed) as Hf.
    destruct (forallb _ _) eqn:Eq; [|intros [= <- <-]; simpl; congruence].
    assert (forall r, chosen snapshot W (rule_table rule) r -> like first r) as Hlike.
    { intros r Hr. pose proof (chosen_among_first snapshot W _ Hroutes Hsorted HW Honly _ _ _ Ed Hr) as Hin.
      destruct Hf as (_ & Ht1 & _), Hr as (_ & Ht2 & _). apply elem_of_cons in Hin as [->|Hin]; [done|].
      rewrite forallb_forall in Eq. apply list_elem_of_In, Eq in Hin. unfold equivalent_route in Hin. bool_to_prop.
      split_and!; try done; [by apply eqb_prop|congruence]. }
    intros Happ%applyRoute_step; [|done]. destruct fin.
    + intros Hr. exists first. specialize (Happ Hr). pose proof Happ as (? & _). split; [|done]. by split_and!.
    + destruct Happ as [? Hk]. split; [done|]. apply (passes_throw _ _ _ _ first); [done..|].
      intros r Hr. destruct (Hlike r Hr) as (-> & _). done.
Qed.

Lemma applyRule_step egress rule e' fin :
  eg_runnable egress = false -> matches rule = true -> applyRule snapshot egress rule = (e', fin) ->
  if fin then eg_runnable e' = true -> exists first, hits snapshot W source first rule /\ leads e' first
  else eg_runnable e' = false /\ passes snapshot W source rule.
Proof.
  intros He Hm. unfold applyRule. destruct (decide (rule_unsupportedEffects rule = [])) as [Eeff|Eeff]; last first.
  { rewrite zlen_zero, bool_decide_eq_false_2 by done. intros [= <- <-]. simpl. congruence. }
  rewrite zlen_zero, bool_decide_eq_true_2 by done. simpl.
  destruct (rule_action rule) eqn:Ea; try (intros [= <- <-]; simpl; congruence).
  - apply lookupTable_step; done.
  - intros [= <- <-]. split; [done|]. by apply passes_continue.
Qed.

Lemma equivalent_same rule first :
  comparePolicyRules rule first = 0 ->
  rule_table rule = rule_table first /\ rule_action rule = rule_action first
  /\ (rule_unsupportedEffects first = [] -> rule_unsupportedEffects rule = []).
Proof.
  unfold comparePolicyRules, firstRuleDifference. simpl. rewrite !lex_cmp_zero, !zcmp_zero.
  intros ((_ & Ht & _ & _ & _ & _ & _ & Ha & _) & _ & He). split_and!; [done| |].
  - by destruct (rule_action rule), (rule_action first).
  - intros E. rewrite E in He. by destruct (rule_unsupportedEffects rule).
Qed.

Lemma hits_equivalent first rule rule' :
  comparePolicyRules rule' rule = 0 -> matches rule' = true -> hits snapshot W source first rule ->
  hits snapshot W source first rule'.
Proof.
  intros (Ht & Ha & He)%equivalent_same Hm (_ & Heff & Hact & Hc & Hk & Hl). unfold hits. rewrite Ht, Ha. auto 10.
Qed.

Lemma passes_equivalent rule rule' :
  comparePolicyRules rule' rule = 0 -> matches rule = true -> matches rule' = true ->
  passes snapshot W source rule -> passes snapshot W source rule'.
Proof.
  intros (Ht & Ha & He)%equivalent_same Hm' Hm Hp. destruct Hp as [|? ? Hact|? ? Hact Hn|r ? ? Hact Hc Hall]; [congruence|..].
  - apply passes_continue; auto; congruence.
  - apply passes_miss; auto; [congruence|]. by rewrite Ht.
  - apply (passes_throw _ _ _ _ r); auto; [congruence|by rewrite Ht..].
Qed.

Lemma applicable_rules_step egress group :
  eg_runnable egress = false -> Forall rule_wf group ->
  match applicable_rules egress source group with
  | inl e => eg_runnable e = false
  | inr app => (forall rule, rule ∈ group -> matches rule = true -> rule ∈ app)
               /\ (forall rule, rule ∈ app -> rule ∈ group /\ matches rule = true)
  end.
Proof.
  intros He. induction 1 as [|rule group Hwf _ IH]; simpl.
  { split; [done|]. intros rule []%not_elem_of_nil. }
  pose proof (match_verdict_exact rule source Hwf) as Hv.
  destruct (matchLocalOutputRule rule source) as [[] u]; simpl in Hv; [| |done].
  - specialize (Hv W HW). destruct (applicable_rules egress source group) as [e|app]; [done|]. destruct IH as [IH1 IH2]. split.
    + intros x [->|Hx]%elem_of_cons Hmx; [congruence|by apply IH1].
    + intros x Hx. destruct (IH2 x Hx). split; [by right|done].
  - specialize (Hv W HW). destruct (applicable_rules egress source group) as [e|app]; [done|]. destruct IH as [IH1 IH2]. split.
    + intros x [->|Hx]%elem_of_cons Hmx; [left|right; by apply IH1].
    + intros x [->|Hx]%elem_of_cons; [split; [left|done]|]. destruct (IH2 x Hx). split; [by right|done].
Qed.

Lemma resolve_group_step egress group kg e' fin :
  eg_runnable egress = false -> Forall rule_wf group -> kg ≡ₚ group ->
  resolve_group snapshot egress source group = (e', fin) ->
  if fin then eg_runnable e' = true ->
    exists first, Forall (fun rule => matches rule = false \/ hits snapshot W source first rule) kg
      /\ Exists (hits snapshot W source first) kg /\ leads e' first
  else eg_runnable e' = false /\ Forall (passes snapshot W source) kg.
Proof.
  intros He Hwf Hp. unfold resolve_group. pose proof (applicable_rules_step egress group He Hwf) as Happ.
  destruct (applicable_rules egress source group) as [e|[|first rest]].
  { intros [= <- <-]. congruence. }
  { intros [= <- <-]. split; [done|]. apply Forall_forall. intros x Hx. apply passes_skip.
    destruct (matches x) eqn:E; [|done]. rewrite Hp in Hx. destruct Happ as [H _]. by destruct (not_elem_of_nil x (H x Hx E)). }
  destruct Happ as [H1 H2]. destruct (equivalentRules first rest) eqn:Eq; [|intros [= <- <-]; simpl; congruence].
  assert (forall x, x ∈ kg -> matches x = true -> x = first \/ comparePolicyRules x first = 0) as Hsame.
  { intros x Hx Hm. rewrite Hp in Hx. specialize (H1 x Hx Hm). apply elem_of_cons in H1 as [->|H1]; [by left|right].
    unfold equivalentRules in Eq. rewrite forallb_forall in Eq. apply list_elem_of_In, Eq in H1. by apply Z.eqb_eq. }
  destruct (H2 first (list_elem_of_here _ _)) as [Hfg Hfm]. intros Ha%applyRule_step; [|done..]. destruct fin.
  - intros Hr. destruct (Ha Hr) as (r & Hh & Hl). exists r. split_and!; [| |done].
    + apply Forall_forall. intros x Hx. destruct (matches x) eqn:E; [right|by left].
      destruct (Hsame x Hx E) as [->|Hc]; [done|]. by eapply hits_equivalent.
    + apply Exists_exists. exists first. split; [|done]. by rewrite Hp.
  - destruct Ha as [? Hpass]. split; [done|]. apply Forall_forall. intros x Hx.
    destruct (matches x) eqn:E; [|by apply passes_skip].
    destruct (Hsame x Hx E) as [->|Hc]; [done|]. by eapply passes_equivalent.
Qed.
End Steps.

(** ** All priorities *)
Lemma priority_group_split p rules g r :
  priority_group p rules = (g, r) ->
  rules = g ++ r /\ Forall (fun x => rule_priority x = p) g /\ forall x l, r = x :: l -> rule_priority x <> p.
Proof.
  revert g r; induction rules as [|x rules IH]; simpl; intros g r; [by intros [= <- <-]; split_and!|].
  destruct (Z.eqb_spec (rule_priority x) p) as [E|E].
  - destruct (priority_group p rules) as [g' r'] eqn:Eg. intros [= <- <-]. destruct (IH _ _ eq_refl) as (-> & Hg & Hr).
    split_and!; [done|by constructor|done].
  - intros [= <- <-]. split_and!; [done|constructor|congruence].
Qed.

Lemma rules_sorted_app g r :
  rules_sorted (g ++ r) -> rules_sorted r /\ forall x y, x ∈ g -> y ∈ r -> rule_priority x <= rule_priority y.
Proof.
  induction g as [|z g IH]; simpl; intros Hs; [split; [done|]; intros x y []%not_elem_of_nil|].
  apply StronglySorted_inv in Hs as [Hs Hf]. destruct (IH Hs) as [Hr Hle]. split; [done|].
  intros x y [->|Hx]%elem_of_cons Hy; [|by apply Hle]. rewrite Forall_forall in Hf. apply Hf. set_solver.
Qed.

Lemma rules_sorted_rest p g x r :
  rules_sorted (g ++ x :: r) -> Forall (fun y => rule_priority y = p) g -> g <> [] -> rule_priority x <> p ->
  Forall (fun y => p < rule_priority y) (x :: r).
Proof.
  intros Hs Hg Hne Hx. destruct g as [|z g]; [done|]. apply rules_sorted_app in Hs as [Hr Hle].
  apply Forall_cons in Hg as [Hz _].
  assert (rule_priority z <= rule_priority x) by (apply Hle; left).
  apply StronglySorted_inv in Hr as [_ Hf]. constructor; [lia|].
  eapply Forall_impl; [exact Hf|]. simpl. lia.
Qed.

(** A reordering that keeps the priorities in order splits at the same place. *)
Lemma reordering_split p ks g r :
  rules_sorted ks -> ks ≡ₚ g ++ r -> Forall (fun y => rule_priority y = p) g ->
  Forall (fun y => p < rule_priority y) r ->
  exists kg kr, ks = kg ++ kr /\ kg ≡ₚ g /\ kr ≡ₚ r.
Proof.
  intros Hs Hp Hg Hr.
  assert (forall l, Forall (fun y => rule_priority y = p) l ->
    filter (fun y => rule_priority y = p) l = l /\ filter (fun y => rule_priority y <> p) l = []) as Hall.
  { induction 1 as [|y l Hy _ [IH1 IH2]]; [done|]. rewrite !filter_cons. rewrite decide_True by done.
    rewrite decide_False by congruence. by rewrite IH1, IH2. }
  assert (forall l, Forall (fun y => p < rule_priority y) l ->
    filter (fun y => rule_priority y = p) l = [] /\ filter (fun y => rule_priority y <> p) l = l) as Hnone.
  { induction 1 as [|y l Hy _ [IH1 IH2]]; [done|]. rewrite !filter_cons. rewrite decide_False by lia.
    rewrite decide_True by lia. by rewrite IH1, IH2. }
  exists (filter (fun y => rule_priority y = p) ks), (filter (fun y => rule_priority y <> p) ks). split_and!.
  - assert (Forall (fun y => p <= rule_priority y) ks) as Hge.
    { rewrite Hp. apply Forall_app. split; eapply Forall_impl; [exact Hg| |exact Hr|]; simpl; lia. }
    clear Hp Hg Hr g r. induction Hs as [|y ks Hs IH Hf]; [done|]. apply Forall_cons in Hge as [Hy Hge].
    rewrite !filter_cons. destruct (decide (rule_priority y = p)) as [E|E].
    + rewrite decide_False by congruence. simpl. f_equal. by apply IH.
    + rewrite decide_True by done. assert (Forall (fun z => p < rule_priority z) ks) as Hlt.
      { eapply Forall_impl; [exact Hf|]. simpl. lia. }
      destruct (Hnone ks Hlt) as [-> ->]. done.
  - rewrite Hp, filter_app. destruct (Hall g Hg) as [-> _], (Hnone r Hr) as [-> _]. by rewrite app_nil_r.
  - rewrite Hp, filter_app. destruct (Hall g Hg) as [_ ->], (Hnone r Hr) as [_ ->]. done.
Qed.

Section Search.
Context (snapshot : Snapshot) (W : World) (source : Addr).
Context (Hroutes : routes_wf snapshot) (Hsorted : routes_sorted snapshot).
Context (HW : world_wf W) (Honly : default_only snapshot W).

Lemma resolve_rules_kernel fuel rules ks egress e' :
  (length rules <= fuel)%nat -> rules_sorted rules -> rules_sorted ks -> ks ≡ₚ rules -> Forall rule_wf rules ->
  eg_runnable egress = false -> resolve_rules fuel snapshot egress source rules = e' -> eg_runnable e' = true ->
  (exists o, kernel_outcome snapshot W source ks o)
  /\ forall o, kernel_outcome snapshot W source ks o -> exists r, o = Some r /\ leads e' r.
Proof.
  revert rules ks egress; induction fuel as [|fuel IH]; intros rules ks egress Hlen Hs Hks Hp Hwf He; simpl.
  { intros <-. simpl. congruence. }
  destruct rules as [|first rules]; [intros <-; simpl; congruence|].
  destruct (priority_group (rule_priority first) (first :: rules)) as [g r] eqn:Eg.
  destruct (resolve_group snapshot egress source g) as [e1 fin] eqn:Er.
  assert (g <> []) as Hne.
  { intros ->. simpl in Eg. rewrite Z.eqb_refl in Eg. by destruct (priority_group _ rules). }
  destruct (priority_group_split _ _ _ _ Eg) as (Eq & Hg & Hr). rewrite Eq in Hs, Hp, Hwf.
  apply Forall_app in Hwf as [Hwg Hwr].
  assert (Forall (fun y => rule_priority first < rule_priority y) r) as Hgt.
  { destruct r as [|x r]; [done|]. by apply (rules_sorted_rest _ g); [| | |apply (Hr x r)]. }
  destruct (reordering_split _ ks g r Hks Hp Hg Hgt) as (kg & kr & -> & Hpg & Hpr).
  apply resolve_group_step with (W := W) (kg := kg) in Er; [|done..]. destruct fin.
  - intros <- Hrun. destruct (Er Hrun) as (f & Hf & Hex & Hl).
    destruct (outcome_hits snapshot W source f kg kr Hf Hex) as [Hsome Hall]. split; [done|].
    intros o Ho. destruct (Hall o Ho) as (x & -> & Hx). exists x. split; [done|].
    destruct Hx as (? & ? & ? & ? & ?), Hl as (? & ? & ? & ? & ?). split_and!; congruence.
  - destruct Er as [He1 Hpass]. intros Hres Hrun.
    destruct (IH r kr e1) as [(o & Ho) Hall]; [|by apply rules_sorted_app in Hs as [? _]
      |by apply rules_sorted_app in Hks as [? _]|done|done|done|done|done|].
    + apply (f_equal length) in Eq. rewrite length_app in Eq. simpl in Eq, Hlen. destruct g; [done|]. simpl in Eq. lia.
    + split; [exists o; by apply outcome_passes|]. intros o' Ho'. apply Hall. by apply outcome_passes in Ho'.
Qed.

Lemma resolveOne_kernel ks :
  rules_sorted (snap_rules snapshot) -> Forall rule_wf (snap_rules snapshot) ->
  rules_sorted ks -> ks ≡ₚ snap_rules snapshot -> eg_runnable (resolveOne snapshot source) = true ->
  (exists o, kernel_outcome snapshot W source ks o)
  /\ forall o, kernel_outcome snapshot W source ks o -> exists r, o = Some r /\ leads (resolveOne snapshot source) r.
Proof.
  intros Hs Hwf Hks Hp. unfold resolveOne.
  destruct (negb (Is4 source)); [done|]. destruct (localAddress snapshot source) as [|[address diagnostics]]; [done|].
  destruct (negb _); [done|]. intros Hrun. unfold resolveRules in *.
  apply (resolve_rules_kernel (length (snap_rules snapshot)) (snap_rules snapshot) ks
    (with_diagnostics (new_egress source) diagnostics)); done.
Qed.
End Search.

(** ** Reasons *)
(** The interface and the gateway of a runnable egress. *)
Definition usable_egress (snapshot : Snapshot) (e : Egress) : Prop :=
  exists link, link ∈ snap_links snapshot /\ link_usable snapshot link /\ eg_interface e = publicInterface link
    /\ (eg_hasGateway e = true -> invalidGateway (eg_gateway e) = false).

Definition settled (snapshot : Snapshot) (e : Egress) : Prop :=
  (eg_runnable e = true <-> eg_reason e = "") /\ (eg_runnable e = true -> usable_egress snapshot e).
Definition pending (e : Egress) : Prop := eg_runnable e = false /\ eg_reason e = "".

Lemma settled_reason snapshot e reason :
  eg_runnable e = false -> reason <> "" -> settled snapshot (with_reason e reason).
Proof. unfold settled. simpl. intros ->. done. Qed.

Lemma pending_diagnostics e more : pending e -> pending (with_diagnostics e more).
Proof. done. Qed.

Ltac settle := apply settled_reason; [done || congruence | first [discriminate | done]].

Definition step_settles (snapshot : Snapshot) (r : Egress * bool) : Prop :=
  if r.2 then settled snapshot r.1 else pending r.1.

Lemma applyRoute_settles snapshot e route : pending e -> step_settles snapshot (applyRoute snapshot e route).
Proof.
  intros [He Hr]. unfold applyRoute, step_settles. destruct (route_kind route); simpl; try settle.
  - match goal with |- context [runnableRoute snapshot ?e route] => destruct (runnableRoute_cases snapshot e route)
      as [(link & Hl & Hu & Hg & ->)|(reason & ? & ->)] end; [|settle]. split; [simpl; tauto|]. intros _.
    exists link. apply linkIndex_Some in Hl as [? _]. by split_and!.
  - done.
Qed.

Lemma applyRule_settles snapshot e rule : pending e -> step_settles snapshot (applyRule snapshot e rule).
Proof.
  intros [He Hr]. unfold applyRule. destruct (negb _); [unfold step_settles; simpl; settle|].
  destruct (rule_action rule); try (unfold step_settles; simpl; settle); [|done].
  unfold lookupTable. destruct (defaultRoutes _ _); [done|]. destruct (forallb _ _).
  - by apply applyRoute_settles.
  - unfold step_settles; simpl; settle.
Qed.

Lemma applicable_rules_settles snapshot e source group :
  pending e -> match applicable_rules e source group with inl e' => settled snapshot e' | inr _ => True end.
Proof.
  intros [He Hr]. induction group as [|rule group IH]; simpl; [done|].
  destruct (matchLocalOutputRule rule source) as [[] u]; [done| |settle]. by destruct (applicable_rules e source group).
Qed.

Lemma resolve_rules_settles fuel snapshot e source rules :
  pending e -> settled snapshot (resolve_rules fuel snapshot e source rules).
Proof.
  revert e rules; induction fuel as [|fuel IH]; intros e rules Hp; simpl; [destruct Hp; settle|].
  destruct rules as [|first rules]; [destruct Hp; settle|].
  destruct (priority_group _ _) as [g r]. unfold resolve_group.
  pose proof (applicable_rules_settles snapshot e source g Hp) as Ha.
  destruct (applicable_rules e source g) as [|[|f l]]; [done|by apply IH|].
  destruct (equivalentRules f l); [|destruct Hp; settle].
  pose proof (applyRule_settles snapshot e f Hp) as Hs. destruct (applyRule snapshot e f) as [e' []]; [done|by apply IH].
Qed.

Lemma localAddress_reason snapshot source reason : localAddress snapshot source = inl reason -> reason <> "".
Proof.
  unfold localAddress. destruct (filter _ _); [by intros [= <-]|]. by destruct (forallb _ _); intros [= <-].
Qed.

Lemma resolveOne_settled snapshot source : settled snapshot (resolveOne snapshot source).
Proof.
  unfold resolveOne. destruct (negb (Is4 source)); [by apply settled_reason|].
  destruct (localAddress snapshot source) as [reason|[address diagnostics]] eqn:El.
  { apply settled_reason; [done|]. by apply localAddress_reason in El. }
  destruct (negb _) eqn:E.
  - apply settled_reason; [done|]. by bool_to_prop.
  - by apply resolve_rules_settles.
Qed.

(** ** Properties *)
Definition rules_wf (rules : list policyRule) : Prop := Forall rule_wf rules.

Lemma cloneRules_wf rules : rules_wf rules -> rules_wf (cloneRules rules).
Proof. unfold rules_wf. intros H. apply Forall_fmap. eapply Forall_impl; [exact H|]. done. Qed.

(** C6. A source whose egress is called runnable leaves the host the way the
    kernel sends it: for every packet that only default routes cover, whatever
    the selectors the resolver does not know say, and in whatever order the
    kernel holds rules of equal priority, the kernel's lookup ends, and only in
    a unicast route with the interface, table and gateway of the egress. *)
Theorem runnable_egress_is_the_kernels links addresses rules routes source W kernel_rules
    (Hrules : rules_wf rules)
    (Hroutes : Forall (fun r => prefix4_wf (route_destination r)) routes)
    (HW : world_wf W)
    (Honly : default_only (newSnapshot links addresses rules routes) W)
    (Hperm : kernel_rules ≡ₚ cloneRules rules)
    (Horder : rules_sorted kernel_rules)
    (Hrun : eg_runnable (resolveOne (newSnapshot links addresses rules routes) source) = true) :
  let snapshot := newSnapshot links addresses rules routes in
  (exists o, kernel_outcome snapshot W source kernel_rules o)
  /\ forall o, kernel_outcome snapshot W source kernel_rules o ->
       exists r, o = Some r /\ leads (resolveOne snapshot source) r.
Proof.
  cbv zeta. pose proof (newSnapshot_perm links addresses rules routes) as (_ & _ & Hpr & Hpt).
  apply resolveOne_kernel; try done.
  - intros r Hr. rewrite Hpt in Hr. rewrite Forall_forall in Hroutes. by apply Hroutes.
  - apply newSnapshot_routes_sorted.
  - apply newSnapshot_rules_sorted.
  - rewrite Hpr. by apply cloneRules_wf.
  - by rewrite Hpr.
Qed.

(** C24. The resolver's verdict on a policy rule is exact: it says that the rule
    matches, or does not match, locally originated traffic of the source exactly
    when that holds for every packet, and that it may match when some packets do
    and some do not. *)
Theorem rule_verdict_exact rule source (Hwf : rule_wf rule) :
  match (matchLocalOutputRule rule source).1 with
  | ruleMatchesLocalOutput => forall W, world_wf W -> rule_matches W source rule = true
  | ruleDoesNotMatchLocalOutput => forall W, world_wf W -> rule_matches W source rule = false
  | ruleMayMatchLocalOutput =>
      (exists W, world_wf W /\ rule_matches W source rule = true)
      /\ exists W, world_wf W /\ rule_matches W source rule = false
  end.
Proof. exact (match_verdict_exact rule source Hwf). Qed.

(** Every resolution either is runnable or gives a reason, never both; a
    runnable one leaves through an observed interface that is up, named, not part
    of a VRF, and by a gateway that is an ordinary IPv4 address. *)
Theorem resolution_is_settled snapshot source :
  let e := resolveOne snapshot source in
  (eg_runnable e = true <-> eg_reason e = "")
  /\ (eg_runnable e = true ->
       exists link, link ∈ snap_links snapshot /\ link_usable snapshot link /\ eg_interface e = publicInterface link
         /\ (eg_hasGateway e = true -> invalidGateway (eg_gateway e) = false)).
Proof. exact (resolveOne_settled snapshot source). Qed.

(** ** A sample host: a rule on a firewall mark that cannot match the source, the
    main table and its two default routes. *)
Definition sample_source : Addr := Addr4 (10 * 2 ^ 24 + 5).
Definition sample_link : linkObservation := MkLink 2 "eth0" "" 1500 1 0 "up".
Definition all4 : Prefix := MkPrefix (Addr4 0) 0.
Definition sample_rules : list policyRule := [
  MkRule 32766 254 all4 all4 no_input no_output [] [] false ruleLookup;
  MkRule 100 7 (MkPrefix (Addr4 (192 * 2 ^ 24)) 8) all4 no_input no_output
    [MkSelector ruleSelectorFirewallMark 10 "mark"] [] false ruleLookup].
Definition sample_route (metric : Z) : fibRoute := MkRoute 254 all4 routeUnicast 2 (Addr4 (10 * 2 ^ 24 + 1)) true metric "".
Definition sample_routes : list fibRoute := [sample_route 200; sample_route 100].
Definition sample_snapshot : Snapshot :=
  newSnapshot [sample_link] [MkAddress 2 (MkPrefix sample_source 24)] sample_rules sample_routes.
Definition sample_world : World := agreeable (8 * 2 ^ 24 + 8) true.

Lemma all4_wf : prefix4_wf all4.
Proof. exists 0. by split_and!. Qed.

Lemma sample_rules_wf : rules_wf sample_rules.
Proof.
  repeat constructor; try apply all4_wf. exists (192 * 2 ^ 24). by split_and!.
Qed.

Lemma sample_routes_only : snap_routes sample_snapshot ≡ₚ sample_routes.
Proof. apply newSnapshot_perm. Qed.

Lemma runnable_egress_is_the_kernels_witness :
  exists o, kernel_outcome sample_snapshot sample_world sample_source (snap_rules sample_snapshot) o.
Proof.
  refine (proj1 (runnable_egress_is_the_kernels [sample_link] [MkAddress 2 (MkPrefix sample_source 24)] sample_rules
    sample_routes sample_source sample_world (snap_rules sample_snapshot) sample_rules_wf _ _ _ _ _ _)).
  - repeat constructor; apply all4_wf.
  - by split.
  - intros r Hr _. rewrite sample_routes_only in Hr. unfold sample_routes in Hr.
    rewrite !elem_of_cons, elem_of_nil in Hr. by destruct Hr as [->|[->|[]]].
  - apply newSnapshot_perm.
  - apply newSnapshot_rules_sorted.
  - vm_compute. reflexivity.
Defined.

Lemma sample_world_wf : world_wf sample_world.
Proof. by split. Qed.

Lemma rule_verdict_exact_witness :
  rule_matches sample_world sample_source (MkRule 32766 254 all4 all4 no_input no_output [] [] false ruleLookup) = true.
Proof.
  exact (rule_verdict_exact (MkRule 32766 254 all4 all4 no_input no_output [] [] false ruleLookup) sample_source
    (conj all4_wf all4_wf) sample_world sample_world_wf).
Defined.
