(* ===== verification/RuleDecode.v ===== *)
(** * Decoding kernel facts

    [networkcatalog/rules_linux.go] and the decoders of [capture_linux.go]: a
    policy rule from a netlink message and a route or an address from what the
    netlink library returns.  The library's parsing of headers and attributes is
    a parameter, [Netlink]; kernel constants are the published ABI. *)
From S2P Require Import Prelude GoText Netip Catalog Resolve ResolveProofs.

(** The header fields the decoder reads. *)
Record RtMsg : Type := MkRtMsg {
  rt_Family : Z;
  rt_Dst_len : Z;
  rt_Src_len : Z;
  rt_Tos : Z;
  rt_Table : Z;
  rt_Type : Z;
  rt_Flags : Z
}.

Class Netlink : Type := {
  DeserializeRtMsg : list byte -> RtMsg;
  RtMsg_Len : RtMsg -> nat;
  ParseRouteAttr : list byte -> result (list (Z * list byte));
  NativeUint32 : list byte -> Z
}.

(** Header fields are unsigned. *)
Class NetlinkLaws `{Netlink} : Prop := {
  header_lengths m : 0 <= rt_Dst_len (DeserializeRtMsg m) /\ 0 <= rt_Src_len (DeserializeRtMsg m)
}.

(** ** Kernel constants *)
Definition SizeofRtMsg : Z := 12.
Definition IFNAMSIZ : Z := 16.
Definition AF_INET : Z := 2.
Definition RT_TABLE_UNSPEC : Z := 0.
Definition RT_TABLE_COMPAT : Z := 252.
Definition NLA_TYPE_MASK : Z := 0x3fff.
Definition FIB_RULE_PERMANENT : Z := 1.
Definition FIB_RULE_INVERT : Z := 2.
Definition FIB_RULE_IIF_DETACHED : Z := 8.
Definition FIB_RULE_OIF_DETACHED : Z := 16.
Definition FRA_UNSPEC : Z := 0.
Definition FRA_DST : Z := 1.
Definition FRA_SRC : Z := 2.
Definition FRA_IIFNAME : Z := 3.
Definition FRA_GOTO : Z := 4.
Definition FRA_UNUSED2 : Z := 5.
Definition FRA_PRIORITY : Z := 6.
Definition FRA_UNUSED3 : Z := 7.
Definition FRA_UNUSED4 : Z := 8.
Definition FRA_UNUSED5 : Z := 9.
Definition FRA_FWMARK : Z := 10.
Definition FRA_FLOW : Z := 11.
Definition FRA_TUN_ID : Z := 12.
Definition FRA_SUPPRESS_IFGROUP : Z := 13.
Definition FRA_SUPPRESS_PREFIXLEN : Z := 14.
Definition FRA_TABLE : Z := 15.
Definition FRA_FWMASK : Z := 16.
Definition FRA_OIFNAME : Z := 17.
Definition FRA_PAD : Z := 18.
Definition FRA_L3MDEV : Z := 19.
Definition FRA_UID_RANGE : Z := 20.
Definition FRA_PROTOCOL : Z := 21.
Definition FRA_IP_PROTO : Z := 22.
Definition FRA_SPORT_RANGE : Z := 23.
Definition FRA_DPORT_RANGE : Z := 24.

Definition is_one_of (kind : Z) (kinds : list Z) : bool := existsb (Z.eqb kind) kinds.

(** ** The rule being decoded *)
Definition set_source (p : Prefix) (r : policyRule) : policyRule :=
  MkRule (rule_priority r) (rule_table r) p (rule_destination r) (rule_inputInterface r) (rule_outputInterface r)
    (rule_unresolvedSelectors r) (rule_unsupportedEffects r) (rule_inverted r) (rule_action r).
Definition set_destination (p : Prefix) (r : policyRule) : policyRule :=
  MkRule (rule_priority r) (rule_table r) (rule_source r) p (rule_inputInterface r) (rule_outputInterface r)
    (rule_unresolvedSelectors r) (rule_unsupportedEffects r) (rule_inverted r) (rule_action r).
Definition set_table (t : Z) (r : policyRule) : policyRule :=
  MkRule (rule_priority r) t (rule_source r) (rule_destination r) (rule_inputInterface r) (rule_outputInterface r)
    (rule_unresolvedSelectors r) (rule_unsupportedEffects r) (rule_inverted r) (rule_action r).
Definition set_priority (p : Z) (r : policyRule) : policyRule :=
  MkRule p (rule_table r) (rule_source r) (rule_destination r) (rule_inputInterface r) (rule_outputInterface r)
    (rule_unresolvedSelectors r) (rule_unsupportedEffects r) (rule_inverted r) (rule_action r).
Definition set_input (i : inputInterfaceSelector) (r : policyRule) : policyRule :=
  MkRule (rule_priority r) (rule_table r) (rule_source r) (rule_destination r) i (rule_outputInterface r)
    (rule_unresolvedSelectors r) (rule_unsupportedEffects r) (rule_inverted r) (rule_action r).
Definition set_output (o : outputInterfaceSelector) (r : policyRule) : policyRule :=
  MkRule (rule_priority r) (rule_table r) (rule_source r) (rule_destination r) (rule_inputInterface r) o
    (rule_unresolvedSelectors r) (rule_unsupportedEffects r) (rule_inverted r) (rule_action r).
Definition add_effect (e : unsupportedRuleEffect) (r : policyRule) : policyRule :=
  MkRule (rule_priority r) (rule_table r) (rule_source r) (rule_destination r) (rule_inputInterface r)
    (rule_outputInterface r) (rule_unresolvedSelectors r) (rule_unsupportedEffects r ++ [e]) (rule_inverted r)
    (rule_action r).

Definition appendRuleSelector (rule : policyRule) (selector : unresolvedRuleSelectorKind) (attribute : Z)
    (value : list byte) : policyRule :=
  MkRule (rule_priority rule) (rule_table rule) (rule_source rule) (rule_destination rule) (rule_inputInterface rule)
    (rule_outputInterface rule) (rule_unresolvedSelectors rule ++ [MkSelector selector attribute (text_of value)])
    (rule_unsupportedEffects rule) (rule_inverted rule) (rule_action rule).

(** ** Values *)
Definition requireRuleBytes (value : list byte) (count : Z) : option error :=
  if negb (zlen value =? count)
  then Some (ErrText ("policy rule attribute length is " +:+ pretty (zlen value) +:+ ", want " +:+ pretty count))
  else None.

Definition hasNonzeroByte (value : list byte) : bool := existsb (fun b => negb (b2z b =? 0)) value.

Definition rulePrefix (bits : Z) (value : list byte) : result Prefix :=
  if negb (zlen value =? 4) || (32 <? bits) then Err (ErrText "invalid IPv4 prefix")
  else Ok (Masked (PrefixFrom (AddrFrom4 value) bits)).

(** The bytes before the terminator, none of them zero. *)
Definition ruleInterfaceName (value : list byte) : result string :=
  if (zlen value <? 2) || (IFNAMSIZ <? zlen value) || negb (b2z (List.last value x01) =? 0)
  then Err (ErrText "invalid NUL-terminated interface name")
  else
    let name := text_of (removelast value) in
    if bool_decide (name = "") || contains_byte x00 name
    then Err (ErrText "invalid NUL-terminated interface name") else Ok name.

Definition linuxRuleAction (value : Z) : ruleAction :=
  if value =? 1 then ruleLookup
  else if value =? 6 then ruleBlackhole
  else if value =? 7 then ruleUnreachable
  else if value =? 8 then ruleProhibit
  else if value =? 3 then ruleContinue
  else ruleUnknown.

Section Decoder.
Context `{Netlink}.

Definition ruleUint32 (value : list byte) : result Z :=
  check! requireRuleBytes value 4 in Ok (NativeUint32 value).

Definition wrap_error {A} (context : string) (r : result A) : result A :=
  match r with Ok a => Ok a | Err e => Err (ErrWrap context e) end.

Definition decodeRuleSource (rule : policyRule) (bits : Z) (value : list byte) : result policyRule :=
  let* prefix := wrap_error "decode policy rule source" (rulePrefix bits value) in Ok (set_source prefix rule).

Definition decodeRuleDestination (rule : policyRule) (bits : Z) (value : list byte) : result policyRule :=
  let* prefix := wrap_error "decode policy rule destination" (rulePrefix bits value) in Ok (set_destination prefix rule).

Definition decodeRuleTable (rule : policyRule) (header : RtMsg) (value : list byte) : result policyRule :=
  let* table := ruleUint32 value in
  if negb (rt_Table header =? RT_TABLE_UNSPEC) && negb (rt_Table header =? RT_TABLE_COMPAT)
     && negb (rt_Table header =? table)
  then Err (ErrText ("policy rule table attribute " +:+ pretty table +:+ " conflicts with header table "
                     +:+ pretty (rt_Table header)))
  else Ok (set_table table rule).

Definition decodeRuleInputInterface (rule : policyRule) (flags : Z) (value : list byte) : result policyRule :=
  let* name := wrap_error "decode policy rule input interface" (ruleInterfaceName value) in
  let '(state, index) :=
    if has_flag flags FIB_RULE_IIF_DETACHED then (inputInterfaceDetached, -1) else (inputInterfaceUnresolved, 0) in
  Ok (set_input (MkInput name state index false) rule).

Definition decodeRuleOutputInterface (rule : policyRule) (flags : Z) (value : list byte) : result policyRule :=
  let* name := wrap_error "decode policy rule output interface" (ruleInterfaceName value) in
  let state := if has_flag flags FIB_RULE_OIF_DETACHED then outputInterfaceDetached else outputInterfaceAttached in
  Ok (set_output (MkOutput name state) rule).

Definition decodeRuleL3Master (rule : policyRule) (kind : Z) (value : list byte) : result policyRule :=
  check! requireRuleBytes value 1 in
  if negb (b2z (nth 0 value x00) =? 0) then Ok (appendRuleSelector rule ruleSelectorL3Master kind value) else Ok rule.

Definition decodeRuleSuppression (rule : policyRule) (kind : Z) (value : list byte) : result policyRule :=
  let* decoded := ruleUint32 value in
  if negb (decoded =? 2 ^ 32 - 1)
  then Ok (add_effect (MkEffect ruleEffectRouteSuppression kind (text_of value) 0) rule) else Ok rule.

Definition decodeRuleGoto (rule : policyRule) (kind : Z) (value : list byte) : result policyRule :=
  check! requireRuleBytes value 4 in Ok (add_effect (MkEffect ruleEffectGoto kind (text_of value) 0) rule).

Definition decodeRuleFixedSelector (rule : policyRule) (selector : unresolvedRuleSelectorKind) (kind : Z)
    (value : list byte) (size : Z) : result policyRule :=
  check! requireRuleBytes value size in Ok (appendRuleSelector rule selector kind value).

Definition decodeRuleAttribute (rule : policyRule) (header : RtMsg) (kind : Z) (value : list byte) : result policyRule :=
  if kind =? FRA_SRC then decodeRuleSource rule (rt_Src_len header) value
  else if kind =? FRA_DST then decodeRuleDestination rule (rt_Dst_len header) value
  else if kind =? FRA_TABLE then decodeRuleTable rule header value
  else if kind =? FRA_PRIORITY then let* decoded := ruleUint32 value in Ok (set_priority decoded rule)
  else if kind =? FRA_PROTOCOL then check! requireRuleBytes value 1 in Ok rule
  else if kind =? FRA_IIFNAME then decodeRuleInputInterface rule (rt_Flags header) value
  else if kind =? FRA_L3MDEV then decodeRuleL3Master rule kind value
  else if is_one_of kind [FRA_SUPPRESS_IFGROUP; FRA_SUPPRESS_PREFIXLEN] then decodeRuleSuppression rule kind value
  else if kind =? FRA_GOTO then decodeRuleGoto rule kind value
  else if is_one_of kind [FRA_FWMARK; FRA_FWMASK]
  then decodeRuleFixedSelector rule ruleSelectorFirewallMark kind value 4
  else if kind =? FRA_OIFNAME then decodeRuleOutputInterface rule (rt_Flags header) value
  else if kind =? FRA_UID_RANGE then decodeRuleFixedSelector rule ruleSelectorUIDRange kind value 8
  else if kind =? FRA_IP_PROTO then decodeRuleFixedSelector rule ruleSelectorTransport kind value 1
  else if is_one_of kind [FRA_SPORT_RANGE; FRA_DPORT_RANGE]
  then decodeRuleFixedSelector rule ruleSelectorTransport kind value 4
  else if kind =? FRA_TUN_ID then decodeRuleFixedSelector rule ruleSelectorTunnelID kind value 8
  else if kind =? FRA_FLOW then decodeRuleFixedSelector rule ruleSelectorFlowRealm kind value 4
  else if kind =? FRA_PAD then
    if hasNonzeroByte value then Err (ErrText "policy rule padding is not zero") else Ok rule
  else if is_one_of kind [FRA_UNSPEC; FRA_UNUSED2; FRA_UNUSED3; FRA_UNUSED4; FRA_UNUSED5] then
    if hasNonzeroByte value then Ok (appendRuleSelector rule ruleSelectorUnknownAttribute kind value) else Ok rule
  else Ok (appendRuleSelector rule ruleSelectorUnknownAttribute kind value).

Definition hasRuleAttribute (seen : gset Z) (kind : Z) : bool := bool_decide (kind ∈ seen).

Definition validateRuleAttributes (header : RtMsg) (seen : gset Z) : option error :=
  if (0 <? rt_Src_len header) && negb (hasRuleAttribute seen FRA_SRC)
  then Some (ErrText "policy rule source prefix is missing")
  else if (0 <? rt_Dst_len header) && negb (hasRuleAttribute seen FRA_DST)
  then Some (ErrText "policy rule destination prefix is missing")
  else if has_flag (rt_Flags header) FIB_RULE_IIF_DETACHED && negb (hasRuleAttribute seen FRA_IIFNAME)
  then Some (ErrText "policy rule marks a missing input interface as detached")
  else if has_flag (rt_Flags header) FIB_RULE_OIF_DETACHED && negb (hasRuleAttribute seen FRA_OIFNAME)
  then Some (ErrText "policy rule marks a missing output interface as detached")
  else if (rt_Table header =? RT_TABLE_COMPAT) && negb (hasRuleAttribute seen FRA_TABLE)
  then Some (ErrText "policy rule compatibility table marker has no table attribute")
  else None.

Fixpoint decode_attributes (rule : policyRule) (header : RtMsg) (seen : gset Z)
    (attributes : list (Z * list byte)) : result (policyRule * gset Z) :=
  match attributes with
  | [] => Ok (rule, seen)
  | (attribute_type, value) :: attributes =>
      let kind := Z.land attribute_type NLA_TYPE_MASK in
      if hasRuleAttribute seen kind && negb (kind =? FRA_PAD)
      then Err (ErrText ("policy rule repeats attribute " +:+ pretty kind))
      else let* rule := decodeRuleAttribute rule header kind value in
           decode_attributes rule header ({[kind]} ∪ seen) attributes
  end.

Definition decodeRuleAttributes (rule : policyRule) (header : RtMsg) (attributes : list (Z * list byte))
    : result policyRule :=
  let* '(rule, seen) := decode_attributes rule header ∅ attributes in
  check! validateRuleAttributes header seen in Ok rule.

Definition understood : Z :=
  Z.lor (Z.lor FIB_RULE_PERMANENT FIB_RULE_INVERT) (Z.lor FIB_RULE_IIF_DETACHED FIB_RULE_OIF_DETACHED).

Definition decodeRuleHeader (rule : policyRule) (header : RtMsg) : policyRule :=
  let rule :=
    if negb (rt_Tos header =? 0) then appendRuleSelector rule ruleSelectorTypeOfService 0 [z2b (rt_Tos header)]
    else rule in
  let flags := Z.ldiff (rt_Flags header) understood in
  if negb (flags =? 0) then add_effect (MkEffect ruleEffectHeaderFlags 0 "" flags) rule else rule.

Definition defaultPrefix : Prefix := MkPrefix (Addr4 0) 0.

Definition decodePolicyRule (message : list byte) : result policyRule :=
  if zlen message <? SizeofRtMsg then Err (ErrText "policy rule message is truncated")
  else
    let header := DeserializeRtMsg message in
    if negb (rt_Family header =? AF_INET) || (32 <? rt_Src_len header) || (32 <? rt_Dst_len header)
    then Err (ErrText "policy rule has invalid IPv4 header")
    else
      let rule := MkRule 0 (rt_Table header) defaultPrefix defaultPrefix no_input no_output [] []
                    (has_flag (rt_Flags header) FIB_RULE_INVERT) (linuxRuleAction (rt_Type header)) in
      let rule := decodeRuleHeader rule header in
      let* attributes := wrap_error "parse policy rule attributes" (ParseRouteAttr (drop (RtMsg_Len header) message)) in
      decodeRuleAttributes rule header attributes.
End Decoder.

(** ** Routes and addresses *)
(** [net.IPNet]: an address and a mask of bytes. *)
Record IPNet : Type := MkIPNet { ipnet_IP : list byte; ipnet_Mask : list byte }.

(** The fields of the library's route; [raw_determined] is false when the route
    has a type of service, an input link, an encapsulation, a [via] or a new
    destination. *)
Record RawRoute : Type := MkRawRoute {
  raw_Table : Z;
  raw_Dst : option IPNet;
  raw_Type : Z;
  raw_LinkIndex : Z;
  raw_Priority : Z;
  raw_multipath : bool;
  raw_determined : bool;
  raw_Gw : list byte
}.

(** [netip.AddrFromSlice]. *)
Definition AddrFromSlice (raw : list byte) : option Addr :=
  if zlen raw =? 4 then Some (Addr4 (be_get raw))
  else if zlen raw =? 16 then Some (Addr6 (be_get raw) "")
  else None.

(** [net.IPMask.Size]: the leading ones of a canonical mask and its length, else (0, 0). *)
Definition MaskSize (mask : list byte) : Z * Z :=
  let bits := 8 * zlen mask in
  let v := be_get mask in
  match list_find (fun n => v = 2 ^ bits - 2 ^ (bits - Z.of_nat n)) (seq 0 (S (Z.to_nat bits))) with
  | Some (_, n) => (Z.of_nat n, bits)
  | None => (0, 0)
  end.

Definition linuxIPv4Prefix (value : IPNet) : result Prefix :=
  match AddrFromSlice (ipnet_IP value) with
  | None => Err (ErrText "address is not IPv4")
  | Some address =>
      if negb (Is4 (Unmap address)) then Err (ErrText "address is not IPv4")
      else
        let '(ones, bits) := MaskSize (ipnet_Mask value) in
        let '(ones, bits) := if (bits =? 128) && Is4In6 address then (ones - 96, 32) else (ones, bits) in
        if negb (bits =? 32) || (ones <? 0) || (32 <? ones)
        then Err (ErrText ("mask is " +:+ pretty ones +:+ "/" +:+ pretty bits +:+ ", want IPv4"))
        else Ok (PrefixFrom (Unmap address) ones)
  end.

Definition linuxRouteKind (kind : Z) : routeKind :=
  if kind =? 1 then routeUnicast
  else if kind =? 9 then routeThrow
  else if kind =? 7 then routeUnreachable
  else if kind =? 6 then routeBlackhole
  else if kind =? 8 then routeProhibit
  else routeUnsupported.

Definition decodeRoute (route : RawRoute) : result fibRoute :=
  let* destination :=
    match raw_Dst route with
    | None => Ok defaultPrefix
    | Some dst =>
        let* p := wrap_error ("decode route table " +:+ pretty (raw_Table route) +:+ " destination") (linuxIPv4Prefix dst) in
        Ok (Masked p)
    end in
  let '(kind, unsupported) := (linuxRouteKind (raw_Type route), "") in
  let '(kind, unsupported) :=
    if raw_multipath route then (routeUnsupported, "multipath route requires destination-dependent selection")
    else (kind, unsupported) in
  let '(kind, unsupported) :=
    if negb (raw_determined route)
    then (routeUnsupported, "route has selectors or encapsulation not determined by source")
    else (kind, unsupported) in
  let fact gateway has := MkRoute (raw_Table route) destination kind (raw_LinkIndex route) gateway has
                            (raw_Priority route) unsupported in
  if negb (zlen (raw_Gw route) =? 0) then
    match AddrFromSlice (raw_Gw route) with
    | Some gateway =>
        if negb (Is4 (Unmap gateway))
        then Err (ErrText ("route table " +:+ pretty (raw_Table route) +:+ " has non-IPv4 gateway"))
        else Ok (fact (Unmap gateway) true)
    | None => Err (ErrText ("route table " +:+ pretty (raw_Table route) +:+ " has non-IPv4 gateway"))
    end
  else Ok (fact AddrNone false).

(** * The proofs

    Decoded facts are well formed, which is what egress resolution relies on,
    and no attribute of a rule is forgotten: it becomes a field, a selector the
    resolver cannot decide or an effect it does not support. *)
(** ** Prefixes *)
Lemma masked_wf v bits :
  in_u 32 v -> 0 <= bits <= 32 ->
  prefix4_wf (Masked (PrefixFrom (Addr4 v) bits)) /\ prefix_bits (Masked (PrefixFrom (Addr4 v) bits)) = bits.
Proof.
  intros Hv Hb. unfold PrefixFrom. simpl. rewrite (proj2 (Z.leb_le _ _)) by lia. simpl.
  rewrite (proj2 (Z.leb_le bits 32)) by lia. unfold Masked, PrefixIsValid. simpl. rewrite (proj2 (Z.leb_le _ _)) by lia.
  split; [|done]. eexists. split; [done|]. split; [|done].
  pose proof (Z.pow_pos_nonneg 2 (32 - bits) ltac:(lia) ltac:(lia)) as Hp. unfold in_u in *.
  pose proof (Z.mul_div_le v (2 ^ (32 - bits)) Hp). pose proof (Z.div_pos v (2 ^ (32 - bits))). nia.
Qed.

Lemma be_get4 l : zlen l = 4 -> in_u 32 (be_get l).
Proof.
  intros Hl. pose proof (be_get_range l) as H. unfold zlen in Hl. rewrite Hl in H. exact H.
Qed.

Lemma rulePrefix_wf bits value p : 0 <= bits -> rulePrefix bits value = Ok p -> prefix4_wf p /\ prefix_bits p = bits.
Proof.
  unfold rulePrefix. intros Hb. destruct (_ || _) eqn:E; [done|]. intros [= <-]. bool_to_prop.
  apply masked_wf; [by apply be_get4|lia].
Qed.

Lemma default_prefix_wf : prefix4_wf defaultPrefix.
Proof. exists 0. by split_and!. Qed.

(** ** Attributes *)
Section Attributes.
Context `{NetlinkLaws} (header : RtMsg).

(** Kinds whose meaning the resolver cannot decide. *)
Definition undecided_kind (kind : Z) (value : list byte) : Prop :=
  kind ∈ [FRA_FWMARK; FRA_FWMASK; FRA_UID_RANGE; FRA_IP_PROTO; FRA_SPORT_RANGE; FRA_DPORT_RANGE; FRA_TUN_ID; FRA_FLOW]
  \/ 24 < kind \/ kind < 0
  \/ (kind ∈ [FRA_L3MDEV; FRA_UNSPEC; FRA_UNUSED2; FRA_UNUSED3; FRA_UNUSED4; FRA_UNUSED5] /\ hasNonzeroByte value = true).

(** The rule says what the attribute says. *)
Record attribute_kept (kind : Z) (value : list byte) (rule : policyRule) : Prop := {
  kept_source : kind = FRA_SRC -> rulePrefix (rt_Src_len header) value = Ok (rule_source rule);
  kept_destination : kind = FRA_DST -> rulePrefix (rt_Dst_len header) value = Ok (rule_destination rule);
  kept_table : kind = FRA_TABLE -> rule_table rule = NativeUint32 value;
  kept_priority : kind = FRA_PRIORITY -> rule_priority rule = NativeUint32 value;
  kept_input : kind = FRA_IIFNAME ->
    ruleInterfaceName value = Ok (in_name (rule_inputInterface rule))
    /\ in_state (rule_inputInterface rule)
       = (if has_flag (rt_Flags header) FIB_RULE_IIF_DETACHED then inputInterfaceDetached else inputInterfaceUnresolved);
  kept_output : kind = FRA_OIFNAME -> ruleInterfaceName value = Ok (out_name (rule_outputInterface rule));
  kept_selector : undecided_kind kind value ->
    exists k, MkSelector k kind (text_of value) ∈ rule_unresolvedSelectors rule;
  kept_goto : kind = FRA_GOTO -> MkEffect ruleEffectGoto kind (text_of value) 0 ∈ rule_unsupportedEffects rule;
  kept_suppression : kind ∈ [FRA_SUPPRESS_IFGROUP; FRA_SUPPRESS_PREFIXLEN] -> NativeUint32 value <> 2 ^ 32 - 1 ->
    MkEffect ruleEffectRouteSuppression kind (text_of value) 0 ∈ rule_unsupportedEffects rule
}.

(** What decoding one attribute leaves alone. *)
Record others_kept (kind : Z) (r r' : policyRule) : Prop := {
  other_source : kind <> FRA_SRC -> rule_source r' = rule_source r;
  other_destination : kind <> FRA_DST -> rule_destination r' = rule_destination r;
  other_table : kind <> FRA_TABLE -> rule_table r' = rule_table r;
  other_priority : kind <> FRA_PRIORITY -> rule_priority r' = rule_priority r;
  other_input : kind <> FRA_IIFNAME -> rule_inputInterface r' = rule_inputInterface r;
  other_output : kind <> FRA_OIFNAME -> rule_outputInterface r' = rule_outputInterface r;
  other_selectors : rule_unresolvedSelectors r ⊆ rule_unresolvedSelectors r';
  other_effects : rule_unsupportedEffects r ⊆ rule_unsupportedEffects r';
  other_verdict : rule_inverted r' = rule_inverted r /\ rule_action r' = rule_action r
}.

Lemma is_one_of_spec kind kinds : is_one_of kind kinds = true <-> kind ∈ kinds.
Proof.
  unfold is_one_of. rewrite existsb_exists. setoid_rewrite Z.eqb_eq. split.
  - intros (x & Hx%list_elem_of_In & ->). done.
  - intros Hx. exists kind. split; [by apply list_elem_of_In|done].
Qed.

Lemma is_one_of_false kind kinds : is_one_of kind kinds = false <-> kind ∉ kinds.
Proof. rewrite <- is_one_of_spec. by destruct (is_one_of kind kinds). Qed.

Create HintDb kept.

Lemma subseteq_refl' {A} (l : list A) : l ⊆ l.
Proof. set_solver. Qed.

Lemma subseteq_snoc {A} (l : list A) x : l ⊆ l ++ [x].
Proof. set_solver. Qed.

Lemma elem_of_snoc {A} (l : list A) x : x ∈ l ++ [x].
Proof. set_solver. Qed.
#[local] Hint Resolve subseteq_refl' subseteq_snoc elem_of_snoc : kept.

(** The branches of [decodeRuleAttribute] that succeed. *)
Ltac attribute_cases Hd :=
  unfold decodeRuleAttribute, decodeRuleSource, decodeRuleDestination, decodeRuleTable, decodeRuleInputInterface,
    decodeRuleOutputInterface, decodeRuleL3Master, decodeRuleSuppression, decodeRuleGoto, decodeRuleFixedSelector,
    ruleUint32 in Hd;
  repeat match type of Hd with
  | (if ?c then _ else _) = Ok _ => let E := fresh "E" in destruct c eqn:E; try (apply Z.eqb_eq in E; subst)
  | rbind _ _ = Ok _ => let v := fresh "v" in let Hv := fresh "Hv" in apply rbind_Ok_inv in Hd as (v & Hv & Hd)
  | check _ _ = Ok _ => apply check_Ok_inv in Hd as [? Hd]
  | Err _ = Ok _ => discriminate Hd
  | (let '(_, _) := ?p in _) = Ok _ => destruct p eqn:?
  end; apply Ok_inj in Hd;
  repeat match goal with
  | Hv : check _ (Ok _) = Ok _ |- _ => apply check_Ok_inv in Hv as [? Hv]; apply Ok_inj in Hv
  | E : is_one_of _ _ = true |- _ => apply is_one_of_spec in E
  | E : is_one_of _ _ = false |- _ => apply is_one_of_false in E
  | E : (_ =? _) = false |- _ => apply Z.eqb_neq in E
  end; subst.

(** The attribute has another kind. *)
Ltac other_kind :=
  exfalso; unfold undecided_kind, FRA_SRC, FRA_DST, FRA_TABLE, FRA_PRIORITY, FRA_PROTOCOL, FRA_IIFNAME, FRA_L3MDEV,
    FRA_SUPPRESS_IFGROUP, FRA_SUPPRESS_PREFIXLEN, FRA_GOTO, FRA_FWMARK, FRA_FWMASK, FRA_OIFNAME, FRA_UID_RANGE,
    FRA_IP_PROTO, FRA_SPORT_RANGE, FRA_DPORT_RANGE, FRA_TUN_ID, FRA_FLOW, FRA_PAD, FRA_UNSPEC, FRA_UNUSED2,
    FRA_UNUSED3, FRA_UNUSED4, FRA_UNUSED5 in *;
  rewrite ?elem_of_cons, ?elem_of_nil in *; lia.

Lemma decodeRuleAttribute_others rule kind value rule' :
  decodeRuleAttribute rule header kind value = Ok rule' -> others_kept kind rule rule'.
Proof.
  intros Hd. attribute_cases Hd; constructor; simpl; auto with kept; congruence.
Qed.

Lemma wrap_error_Ok {A} context (r : result A) a : wrap_error context r = Ok a -> r = Ok a.
Proof. by destruct r. Qed.

Lemma one_byte_nonzero value :
  requireRuleBytes value 1 = None -> hasNonzeroByte value = true -> negb (b2z (nth 0 value x00) =? 0) = true.
Proof.
  unfold requireRuleBytes. destruct (negb (zlen value =? 1)) eqn:E; [done|]. intros _. bool_to_prop.
  destruct value as [|b [|c value]]; rewrite ?zlen_cons, ?zlen_nil in E; try lia.
  - unfold hasNonzeroByte. simpl. by rewrite orb_false_r.
  - pose proof (zlen_nonneg value). lia.
Qed.

Lemma snoc_selector (l : list unresolvedRuleSelector) k a v : exists k', MkSelector k' a v ∈ l ++ [MkSelector k a v].
Proof. exists k. set_solver. Qed.
#[local] Hint Resolve snoc_selector wrap_error_Ok : kept.

Lemma decodeRuleAttribute_kept rule kind value rule' :
  decodeRuleAttribute rule header kind value = Ok rule' -> attribute_kept kind value rule'.
Proof.
  intros Hd. attribute_cases Hd; constructor; simpl; intros;
    first [solve [eauto with kept] | congruence | other_kind | idtac].
  - split; [by eapply wrap_error_Ok|]. destruct (has_flag _ _); congruence.
  - match goal with Hu : undecided_kind _ _ |- _ => destruct Hu as [Hu|[Hu|[Hu|[_ Hu]]]]; [other_kind..|] end.
    match goal with Hn : negb _ = false |- _ => by rewrite one_byte_nonzero in Hn end.
  - match goal with Hu : undecided_kind _ _ |- _ => destruct Hu as [Hu|[Hu|[Hu|[_ Hu]]]]; [other_kind..|] end. congruence.
Qed.

(** Decoding another attribute does not undo what is kept. *)
Lemma attribute_kept_on kind kind' value r r' :
  kind <> kind' -> others_kept kind' r r' -> attribute_kept kind value r -> attribute_kept kind value r'.
Proof.
  intros Hne Ho Hk. constructor; intros; subst.
  - rewrite (other_source _ _ _ Ho) by congruence. by apply (kept_source _ _ _ Hk).
  - rewrite (other_destination _ _ _ Ho) by congruence. by apply (kept_destination _ _ _ Hk).
  - rewrite (other_table _ _ _ Ho) by congruence. by apply (kept_table _ _ _ Hk).
  - rewrite (other_priority _ _ _ Ho) by congruence. by apply (kept_priority _ _ _ Hk).
  - rewrite (other_input _ _ _ Ho) by congruence. by apply (kept_input _ _ _ Hk).
  - rewrite (other_output _ _ _ Ho) by congruence. by apply (kept_output _ _ _ Hk).
  - destruct (kept_selector _ _ _ Hk) as (k & Hin); [done|]. exists k. by apply (other_selectors _ _ _ Ho).
  - by apply (other_effects _ _ _ Ho), (kept_goto _ _ _ Hk).
  - by apply (other_effects _ _ _ Ho), (kept_suppression _ _ _ Hk).
Qed.

(** Padding and attributes of kind 18 constrain nothing. *)
Lemma pad_kept value r : attribute_kept FRA_PAD value r.
Proof. constructor; intros; first [congruence | other_kind]. Qed.

Definition kind_of (attribute_type : Z) : Z := Z.land attribute_type NLA_TYPE_MASK.

Lemma decode_attributes_kept attributes rule seen rule' seen' :
  decode_attributes rule header seen attributes = Ok (rule', seen') ->
  (forall kind value, kind ∈ seen -> attribute_kept kind value rule -> attribute_kept kind value rule')
  /\ (forall t value, (t, value) ∈ attributes -> attribute_kept (kind_of t) value rule')
  /\ (forall kind, kind ∈ seen' <-> kind ∈ seen \/ kind ∈ kind_of <$> attributes.*1)
  /\ rule_unresolvedSelectors rule ⊆ rule_unresolvedSelectors rule'
  /\ rule_unsupportedEffects rule ⊆ rule_unsupportedEffects rule'
  /\ rule_inverted rule' = rule_inverted rule /\ rule_action rule' = rule_action rule.
Proof.
  revert rule seen; induction attributes as [|[t v] attributes IH]; intros rule seen; simpl.
  { intros [<- <-]%Ok_pair_inj. split_and!; try done; [by intros ? ? []%not_elem_of_nil|set_solver]. }
  fold (kind_of t). destruct (hasRuleAttribute seen (kind_of t) && negb (kind_of t =? FRA_PAD)) eqn:Edup; [done|].
  intros (r1 & H1 & Hrest)%rbind_Ok_inv. destruct (IH _ _ Hrest) as (Hkept & Hattrs & Hseen & Hsel & Heff & Hi & Ha).
  pose proof (decodeRuleAttribute_others _ _ _ _ H1) as Ho. pose proof (decodeRuleAttribute_kept _ _ _ _ H1) as Hk.
  split_and!.
  - intros kind value Hin Hkr. destruct (decide (kind = kind_of t)) as [->|Hne].
    + unfold hasRuleAttribute in Edup. rewrite bool_decide_eq_true_2 in Edup by done. simpl in Edup. bool_to_prop.
      rewrite Edup. apply pad_kept.
    + apply Hkept; [set_solver|]. by eapply attribute_kept_on.
  - intros t' v' [[= -> ->]|Hin]%elem_of_cons; [|by apply Hattrs]. apply Hkept; [set_solver|done].
  - intros kind. rewrite Hseen. csimpl. set_solver.
  - etransitivity; [apply (other_selectors _ _ _ Ho)|done].
  - etransitivity; [apply (other_effects _ _ _ Ho)|done].
  - rewrite Hi. apply (other_verdict _ _ _ Ho).
  - rewrite Ha. apply (other_verdict _ _ _ Ho).
Qed.

(** Prefixes stay well formed. *)
Lemma decodeRuleAttribute_wf rule kind value rule' :
  0 <= rt_Src_len header -> 0 <= rt_Dst_len header -> rule_wf rule ->
  decodeRuleAttribute rule header kind value = Ok rule' -> rule_wf rule'.
Proof.
  intros Hs Hd [Hws Hwd] H1. pose proof (decodeRuleAttribute_others _ _ _ _ H1) as Ho.
  pose proof (decodeRuleAttribute_kept _ _ _ _ H1) as Hk. split.
  - destruct (decide (kind = FRA_SRC)) as [E|E]; [|by rewrite (other_source _ _ _ Ho)].
    by apply (kept_source _ _ _ Hk), rulePrefix_wf in E as [? _].
  - destruct (decide (kind = FRA_DST)) as [E|E]; [|by rewrite (other_destination _ _ _ Ho)].
    by apply (kept_destination _ _ _ Hk), rulePrefix_wf in E as [? _].
Qed.

Lemma decode_attributes_wf attributes rule seen rule' seen' :
  0 <= rt_Src_len header -> 0 <= rt_Dst_len header -> rule_wf rule ->
  decode_attributes rule header seen attributes = Ok (rule', seen') -> rule_wf rule'.
Proof.
  intros Hs Hd. revert rule seen; induction attributes as [|[t v] attributes IH]; intros rule seen Hw; simpl.
  { by intros [<- _]%Ok_pair_inj. }
  destruct (_ && _); [done|]. intros (r1 & H1 & Hrest)%rbind_Ok_inv.
  eapply IH; [|exact Hrest]. by eapply decodeRuleAttribute_wf.
Qed.

(** The prefix lengths are the header's. *)
Definition lengths_so_far (rule : policyRule) (seen : gset Z) : Prop :=
  (if bool_decide (FRA_SRC ∈ seen) then prefix_bits (rule_source rule) = rt_Src_len header
   else prefix_bits (rule_source rule) = 0)
  /\ (if bool_decide (FRA_DST ∈ seen) then prefix_bits (rule_destination rule) = rt_Dst_len header
      else prefix_bits (rule_destination rule) = 0).

Lemma decode_attributes_lengths attributes rule seen rule' seen' :
  0 <= rt_Src_len header -> 0 <= rt_Dst_len header -> lengths_so_far rule seen ->
  decode_attributes rule header seen attributes = Ok (rule', seen') -> lengths_so_far rule' seen'.
Proof.
  intros Hs Hd. revert rule seen; induction attributes as [|[t v] attributes IH]; intros rule seen Hw; simpl.
  { by intros [<- <-]%Ok_pair_inj. }
  destruct (_ && _); [done|]. intros (r1 & H1 & Hrest)%rbind_Ok_inv. eapply IH; [|exact Hrest]. clear IH Hrest.
  pose proof (decodeRuleAttribute_others _ _ _ _ H1) as Ho. pose proof (decodeRuleAttribute_kept _ _ _ _ H1) as Hk.
  destruct Hw as [Hws Hwd]. generalize dependent (Z.land t NLA_TYPE_MASK). intros kind H1 Ho Hk. split.
  - destruct (decide (kind = FRA_SRC)) as [->|E].
    + rewrite bool_decide_eq_true_2 by set_solver.
      destruct (rulePrefix_wf _ _ _ Hs (kept_source _ _ _ Hk eq_refl)) as [_ Hb]. done.
    + rewrite (other_source _ _ _ Ho E). rewrite (bool_decide_ext _ (FRA_SRC ∈ seen)); [done|set_solver].
  - destruct (decide (kind = FRA_DST)) as [->|E].
    + rewrite bool_decide_eq_true_2 by set_solver.
      destruct (rulePrefix_wf _ _ _ Hd (kept_destination _ _ _ Hk eq_refl)) as [_ Hb]. done.
    + rewrite (other_destination _ _ _ Ho E). rewrite (bool_decide_ext _ (FRA_DST ∈ seen)); [done|set_solver].
Qed.

Lemma validated_lengths rule seen :
  0 <= rt_Src_len header -> 0 <= rt_Dst_len header ->
  validateRuleAttributes header seen = None -> lengths_so_far rule seen ->
  prefix_bits (rule_source rule) = rt_Src_len header /\ prefix_bits (rule_destination rule) = rt_Dst_len header.
Proof.
  intros Hs Hd. unfold validateRuleAttributes, hasRuleAttribute, lengths_so_far.
  destruct (Z.ltb_spec 0 (rt_Src_len header)), (Z.ltb_spec 0 (rt_Dst_len header)),
    (bool_decide (FRA_SRC ∈ seen)), (bool_decide (FRA_DST ∈ seen)); simpl; try done; intros _ [? ?]; lia.
Qed.
End Attributes.

(** ** Whole rules *)
Section Rules.
Context `{NetlinkLaws}.

(** The header's own selector and effect. *)
Definition header_kept (header : RtMsg) (rule : policyRule) : Prop :=
  (rt_Tos header <> 0 -> MkSelector ruleSelectorTypeOfService 0 (text_of [z2b (rt_Tos header)]) ∈ rule_unresolvedSelectors rule)
  /\ (Z.ldiff (rt_Flags header) understood <> 0 ->
      MkEffect ruleEffectHeaderFlags 0 "" (Z.ldiff (rt_Flags header) understood) ∈ rule_unsupportedEffects rule)
  /\ rule_inverted rule = has_flag (rt_Flags header) FIB_RULE_INVERT
  /\ rule_action rule = linuxRuleAction (rt_Type header).

Lemma decodeRuleHeader_spec rule header :
  let rule' := decodeRuleHeader rule header in
  rule_source rule' = rule_source rule /\ rule_destination rule' = rule_destination rule
  /\ rule_inverted rule' = rule_inverted rule /\ rule_action rule' = rule_action rule
  /\ (rt_Tos header <> 0 -> MkSelector ruleSelectorTypeOfService 0 (text_of [z2b (rt_Tos header)]) ∈ rule_unresolvedSelectors rule')
  /\ (Z.ldiff (rt_Flags header) understood <> 0 ->
      MkEffect ruleEffectHeaderFlags 0 "" (Z.ldiff (rt_Flags header) understood) ∈ rule_unsupportedEffects rule').
Proof.
  unfold decodeRuleHeader. destruct (Z.eqb_spec (rt_Tos header) 0), (Z.eqb_spec (Z.ldiff (rt_Flags header) understood) 0);
    simpl; split_and!; try done; intros _; set_solver.
Qed.

Lemma decodePolicyRule_spec message rule :
  decodePolicyRule message = Ok rule ->
  let header := DeserializeRtMsg message in
  exists attributes, ParseRouteAttr (drop (RtMsg_Len header) message) = Ok attributes
    /\ (forall t value, (t, value) ∈ attributes -> attribute_kept header (kind_of t) value rule)
    /\ header_kept header rule /\ rule_wf rule
    /\ prefix_bits (rule_source rule) = rt_Src_len header /\ prefix_bits (rule_destination rule) = rt_Dst_len header.
Proof.
  unfold decodePolicyRule. destruct (zlen message <? SizeofRtMsg); [done|]. cbv zeta.
  destruct (header_lengths message) as [Hd Hs]. set (header := DeserializeRtMsg message) in *.
  destruct (_ || _); [done|].
  intros (attributes & Hp%wrap_error_Ok & Hattributes)%rbind_Ok_inv. unfold decodeRuleAttributes in Hattributes.
  apply rbind_Ok_inv in Hattributes as ([rule1 seen] & H1 & Hr). apply check_Ok_inv in Hr as [Hc Hr].
  apply Ok_inj in Hr as ->. exists attributes. split; [done|].
  match type of H1 with decode_attributes (decodeRuleHeader ?r _) _ _ _ = _ =>
    destruct (decodeRuleHeader_spec r header) as (Esrc & Edst & Einv & Eact & Htos & Hflags);
    set (r0 := decodeRuleHeader r header) in * end.
  destruct (decode_attributes_kept _ _ _ _ _ _ H1) as (_ & Hattrs & _ & Hsel & Heff & Hi & Ha). split; [done|].
  assert (rule_wf r0) as Hw0 by (split; [rewrite Esrc|rewrite Edst]; apply default_prefix_wf).
  split; [|split].
  - split_and!; [intros Ht; by apply Hsel, Htos|intros Hf; by apply Heff, Hflags|by rewrite Hi, Einv|by rewrite Ha, Eact].
  - by apply (decode_attributes_wf header attributes r0 ∅ rule seen).
  - apply (validated_lengths header rule seen Hs Hd Hc).
    apply (decode_attributes_lengths header attributes r0 ∅ rule seen Hs Hd); [|done].
    split; rewrite bool_decide_eq_false_2 by set_solver; by rewrite ?Esrc, ?Edst.
Qed.
End Rules.

(** ** Routes *)
Lemma Unmap_is4 a : Is4 (Unmap a) = true -> (forall v, a = Addr4 v -> in_u 32 v) -> exists v, Unmap a = Addr4 v /\ in_u 32 v.
Proof.
  destruct a as [|v|v z]; simpl; [done| |].
  - intros _ H. exists v. split; [done|by apply H].
  - destruct (v / 2 ^ 32 =? 0xffff); [|done]. intros _ _. eexists. split; [done|]. apply Z.mod_pos_bound. lia.
Qed.

Lemma AddrFromSlice_is4 raw a :
  AddrFromSlice raw = Some a -> Is4 (Unmap a) = true -> exists v, Unmap a = Addr4 v /\ in_u 32 v.
Proof.
  unfold AddrFromSlice. destruct (Z.eqb_spec (zlen raw) 4) as [E|E].
  - intros [= <-] _. exists (be_get raw). split; [done|by apply be_get4].
  - destruct (zlen raw =? 16); [|done]. intros [= <-] H. by apply Unmap_is4.
Qed.

Lemma linuxIPv4Prefix_wf value p : linuxIPv4Prefix value = Ok p -> prefix4_wf p.
Proof.
  unfold linuxIPv4Prefix. destruct (AddrFromSlice (ipnet_IP value)) as [a|] eqn:Ea; [|done].
  destruct (Is4 (Unmap a)) eqn:E4; simpl; [|done]. destruct (AddrFromSlice_is4 _ _ Ea E4) as (v & Hv & Hr).
  destruct (MaskSize (ipnet_Mask value)) as [ones bits]. destruct (_ && _).
  all: destruct (_ || _) eqn:E; [done|]; intros [= <-]; bool_to_prop; rewrite Hv; exists v; unfold PrefixFrom; simpl.
  all: rewrite (proj2 (Z.leb_le 0 _)) by lia; simpl; rewrite (proj2 (Z.leb_le _ 32)) by lia; simpl; split_and!; done || lia.
Qed.

Lemma Masked_wf p : prefix4_wf p -> prefix4_wf (Masked p).
Proof.
  destruct p as [a b]. intros (v & Ha & Hr & Hb); simpl in *; subst a.
  pose proof (masked_wf v b Hr Hb) as [H _]. unfold PrefixFrom in H. simpl in H.
  by rewrite (proj2 (Z.leb_le 0 b)), (proj2 (Z.leb_le b 32)) in H by lia.
Qed.

(** ** A concrete netlink parser: little-endian fields, attributes padded to four bytes. *)
Definition le_get (l : list byte) : Z := be_get (rev l).

Definition sample_header (m : list byte) : RtMsg :=
  let field i := b2z (nth i m x00) in
  MkRtMsg (field 0%nat) (field 1%nat) (field 2%nat) (field 3%nat) (field 4%nat) (field 7%nat) (le_get (slice 8 12 m)).

Fixpoint sample_attributes (fuel : nat) (m : list byte) : result (list (Z * list byte)) :=
  match fuel, m with
  | S fuel, _ :: _ =>
      let len := Z.to_nat (le_get (slice 0 2 m)) in
      if (len <? 4)%nat || (length m <? len)%nat then Err (ErrText "attribute is truncated")
      else let* rest := sample_attributes fuel (drop (4 * ((len + 3) / 4)) m) in
           Ok ((le_get (slice 2 4 m), slice 4 len m) :: rest)
  | _, _ => Ok []
  end.

#[export] Instance sample_netlink : Netlink :=
  Build_Netlink sample_header (fun _ => 12%nat) (fun m => sample_attributes (length m) m) le_get.

#[export] Instance sample_netlink_laws : NetlinkLaws.
Proof. split. intros m. simpl. split; apply b2z_range. Qed.

(** [ip rule add from 10.0.0.0/8 fwmark 7 priority 100 lookup 7]. *)
Definition sample_message : list byte :=
  [x02; x00; x08; x00; x07; x00; x00; x01; x00; x00; x00; x00]
  ++ [x08; x00; x02; x00; x0a; x00; x00; x00] ++ [x08; x00; x06; x00; x64; x00; x00; x00]
  ++ [x08; x00; x0a; x00; x07; x00; x00; x00].

Definition sample_decoded : policyRule :=
  MkRule 100 7 (MkPrefix (Addr4 (10 * 2 ^ 24)) 8) defaultPrefix no_input no_output
    [MkSelector ruleSelectorFirewallMark 10 (text_of [x07; x00; x00; x00])] [] false ruleLookup.

Example sample_message_decodes : decodePolicyRule sample_message = Ok sample_decoded.
Proof. vm_compute. reflexivity. Qed.

(** A policy rule that decodes says all the message says: the source and
    destination prefixes and their lengths, the table, priority, interfaces,
    inversion and action are the message's, and every attribute, type of service
    or header flag the resolver has no rule for is kept as an undecidable
    selector or an unsupported effect. *)
Theorem decoded_rule_keeps_everything {nl : Netlink} {laws : NetlinkLaws} message rule
    (Hd : decodePolicyRule message = Ok rule) :
  let header := DeserializeRtMsg message in
  exists attributes, ParseRouteAttr (drop (RtMsg_Len header) message) = Ok attributes
    /\ (forall t value, (t, value) ∈ attributes -> attribute_kept header (kind_of t) value rule)
    /\ header_kept header rule /\ rule_wf rule
    /\ prefix_bits (rule_source rule) = rt_Src_len header /\ prefix_bits (rule_destination rule) = rt_Dst_len header.
Proof. exact (decodePolicyRule_spec message rule Hd). Qed.

Lemma decoded_rule_keeps_everything_witness :
  rule_wf sample_decoded /\ prefix_bits (rule_source sample_decoded) = 8.
Proof.
  destruct (decoded_rule_keeps_everything sample_message sample_decoded sample_message_decodes)
    as (attributes & _ & _ & _ & Hw & Hs & _).
  split; [exact Hw|exact Hs].
Defined.

(** A route that decodes has a masked IPv4 destination and an IPv4 gateway or
    none; it counts as an ordinary unicast route only when the kernel type says
    so and nothing but the source determines it. *)
Theorem decoded_route_is_well_formed raw route (Hd : decodeRoute raw = Ok route) :
  prefix4_wf (route_destination route)
  /\ (if route_hasGateway route then exists v, route_gateway route = Addr4 v /\ in_u 32 v
      else route_gateway route = AddrNone /\ raw_Gw raw = [])
  /\ (route_kind route = routeUnicast -> raw_Type raw = 1 /\ raw_multipath raw = false /\ raw_determined raw = true)
  /\ (route_kind route <> routeUnsupported -> route_unsupported route = "")
  /\ route_table route = raw_Table raw /\ route_linkIndex route = raw_LinkIndex raw /\ route_metric route = raw_Priority raw.
Proof.
  unfold decodeRoute in Hd. apply rbind_Ok_inv in Hd as (dst & Hdst & Hd).
  assert (prefix4_wf dst) as Hw.
  { destruct (raw_Dst raw) as [net|]; [|apply Ok_inj in Hdst as <-; apply default_prefix_wf].
    apply rbind_Ok_inv in Hdst as (p & Hp%wrap_error_Ok & <-%Ok_inj). by apply Masked_wf, (linuxIPv4Prefix_wf net). }
  rewrite zlen_zero in Hd.
  assert (linuxRouteKind (raw_Type raw) = routeUnicast -> raw_Type raw = 1) as Hk.
  { unfold linuxRouteKind. destruct (Z.eqb_spec (raw_Type raw) 1); [done|].
    by destruct (raw_Type raw =? 9), (raw_Type raw =? 7), (raw_Type raw =? 6), (raw_Type raw =? 8). }
  destruct (raw_multipath raw) eqn:Em, (raw_determined raw) eqn:Eu; simpl in Hd;
    (destruct (bool_decide (raw_Gw raw = [])) eqn:Eg; simpl in Hd; [apply Ok_inj in Hd as <-|
       destruct (AddrFromSlice (raw_Gw raw)) as [a|] eqn:Ea; [|done]; destruct (Is4 (Unmap a)) eqn:E4; [|done];
       simpl in Hd; apply Ok_inj in Hd as <-]); simpl; bool_to_prop; split_and!; try done; auto;
    by apply (AddrFromSlice_is4 _ _ Ea).
Qed.

Lemma decoded_route_is_well_formed_witness :
  prefix4_wf (MkPrefix (Addr4 (10 * 2 ^ 24)) 8).
Proof.
  exact (proj1 (decoded_route_is_well_formed
    (MkRawRoute 254 (Some (MkIPNet [x0a; x00; x00; x07] [xff; x00; x00; x00])) 1 2 0 false true [])
    (MkRoute 254 (MkPrefix (Addr4 (10 * 2 ^ 24)) 8) routeUnicast 2 AddrNone false 0 "")
    ltac:(vm_compute; reflexivity))).
Defined.
