(* ===== verification/Sanitizer.v ===== *)
(** * The terminal sanitizer

    [plainoutput/sanitizer.go]: a byte-at-a-time filter that removes terminal
    control sequences from the output of a child and keeps ordinary UTF-8 text.
    The pending bytes of a rune are the first [utf8Length] bytes of the array. *)
From S2P Require Import Prelude Utf8.

Inductive terminalSequence : Type :=
  | terminalText
  | terminalEscape
  | terminalEscapeIntermediate
  | terminalCSI
  | terminalOSC
  | terminalControlString
  | terminalOSCEscape
  | terminalStringEscape.

(** [append] copies into an array of [2 * utf8.UTFMax] bytes. *)
Definition chunk_capacity : nat := 8.
Definition chunk_append (chunk content : list byte) : list byte :=
  chunk ++ take (chunk_capacity - length chunk) content.
Definition appendReplacement (chunk : list byte) : list byte := chunk_append chunk replacement_rune.

Record terminalSanitizer : Type := MkSanitizer {
  sequence : terminalSequence;
  utf8Bytes : list byte;
  utf8Expected : Z;
  controlStringUTF8Remaining : Z;
  controlStringC2 : bool
}.

Definition new_sanitizer : terminalSanitizer := MkSanitizer terminalText [] 0 0 false.

Definition set_sequence (q : terminalSequence) (s : terminalSanitizer) : terminalSanitizer :=
  MkSanitizer q (utf8Bytes s) (utf8Expected s) (controlStringUTF8Remaining s) (controlStringC2 s).

Definition resetUTF8 (s : terminalSanitizer) : terminalSanitizer :=
  MkSanitizer (sequence s) [] 0 (controlStringUTF8Remaining s) (controlStringC2 s).

Definition set_control_string (remaining : Z) (c2 : bool) (s : terminalSanitizer) : terminalSanitizer :=
  MkSanitizer (sequence s) (utf8Bytes s) (utf8Expected s) remaining c2.

Definition resetControlStringUTF8 (s : terminalSanitizer) : terminalSanitizer := set_control_string 0 false s.

Definition resetSequence (s : terminalSanitizer) : terminalSanitizer :=
  resetControlStringUTF8 (set_sequence terminalText s).

Definition utf8SequenceLength (value : byte) : Z :=
  let v := b2z value in
  if (0xc2 <=? v) && (v <=? 0xdf) then 2
  else if (0xe0 <=? v) && (v <=? 0xef) then 3
  else if (0xf0 <=? v) && (v <=? 0xf4) then 4
  else 0.

Definition consumeC1 (value : Z) (s : terminalSanitizer) : terminalSanitizer :=
  if (value =? 0x90) || (value =? 0x98) || (value =? 0x9e) || (value =? 0x9f)
  then resetControlStringUTF8 (set_sequence terminalControlString s)
  else if value =? 0x9b then set_sequence terminalCSI s
  else if value =? 0x9d then resetControlStringUTF8 (set_sequence terminalOSC s)
  else s.

Definition consumeRawC1 (value : byte) (s : terminalSanitizer) : terminalSanitizer :=
  if (0x80 <=? b2z value) && (b2z value <=? 0x9f) then consumeC1 (b2z value) s else s.

(** [consumeText] with no rune pending. *)
Definition consume_first (value : byte) (s : terminalSanitizer) (visible : list byte)
    : terminalSanitizer * list byte :=
  if b2z value <? 0x80 then
    if b2z value =? 0x1b then (set_sequence terminalEscape s, visible) else (s, chunk_append visible [value])
  else if b2z value <=? 0x9f then (consumeC1 (b2z value) s, visible)
  else
    let expected := utf8SequenceLength value in
    if expected =? 0 then (s, appendReplacement visible)
    else (MkSanitizer (sequence s) [value] expected (controlStringUTF8Remaining s) (controlStringC2 s), visible).

(** The recursive call of the code is made with no rune pending. *)
Definition consumeText (value : byte) (s : terminalSanitizer) (visible : list byte)
    : terminalSanitizer * list byte :=
  if negb (zlen (utf8Bytes s) =? 0) then
    if (b2z value <? 0x80) || (0xbf <? b2z value)
    then consume_first value (resetUTF8 s) (appendReplacement visible)
    else
      let content := utf8Bytes s ++ [value] in
      if zlen content <? utf8Expected s
      then (MkSanitizer (sequence s) content (utf8Expected s) (controlStringUTF8Remaining s) (controlStringC2 s), visible)
      else if negb (Valid content) then (resetUTF8 s, appendReplacement visible)
      else
        let character := rune_value content in
        if (0x80 <=? character) && (character <=? 0x9f) then (resetUTF8 (consumeC1 (wrap 8 character) s), visible)
        else (resetUTF8 s, chunk_append visible content)
  else consume_first value s visible.

Definition consumeEscape (value : byte) (s : terminalSanitizer) : terminalSanitizer :=
  let v := b2z value in
  if v =? 0x1b then s
  else if v =? 0x5b then set_sequence terminalCSI s
  else if v =? 0x5d then resetControlStringUTF8 (set_sequence terminalOSC s)
  else if (v =? 0x50) || (v =? 0x58) || (v =? 0x5e) || (v =? 0x5f)
  then resetControlStringUTF8 (set_sequence terminalControlString s)
  else if (0x20 <=? v) && (v <=? 0x2f) then set_sequence terminalEscapeIntermediate s
  else if (0x30 <=? v) && (v <=? 0x7e) then set_sequence terminalText s
  else consumeRawC1 value (set_sequence terminalText s).

Definition consumeEscapeIntermediate (value : byte) (s : terminalSanitizer) : terminalSanitizer :=
  let v := b2z value in
  if v =? 0x1b then set_sequence terminalEscape s
  else if (0x20 <=? v) && (v <=? 0x2f) then s
  else if (0x30 <=? v) && (v <=? 0x7e) then set_sequence terminalText s
  else consumeRawC1 value (set_sequence terminalText s).

Definition consumeCSI (value : byte) (s : terminalSanitizer) : terminalSanitizer :=
  let v := b2z value in
  if v =? 0x1b then set_sequence terminalEscape s
  else if (0x20 <=? v) && (v <=? 0x3f) then s
  else if (0x40 <=? v) && (v <=? 0x7e) then set_sequence terminalText s
  else consumeRawC1 value (set_sequence terminalText s).

(** [consumeControlString] with no rune of the string pending. *)
Definition control_string_first (value : byte) (allowBell : bool) (escape : terminalSequence) (s : terminalSanitizer)
    : terminalSanitizer :=
  let v := b2z value in
  if v =? 0x1b then set_sequence escape s
  else if (allowBell && (v =? 0x07)) || (v =? 0x9c) then resetSequence s
  else
    let expected := utf8SequenceLength value in
    if negb (expected =? 0) then set_control_string (expected - 1) (v =? 0xc2) s else s.

Definition consumeControlString (value : byte) (allowBell : bool) (escape : terminalSequence) (s : terminalSanitizer)
    : terminalSanitizer :=
  let v := b2z value in
  if negb (controlStringUTF8Remaining s =? 0) then
    if (0x80 <=? v) && (v <=? 0xbf) then
      if controlStringC2 s && (controlStringUTF8Remaining s =? 1) && (v =? 0x9c) then resetSequence s
      else
        let remaining := controlStringUTF8Remaining s - 1 in
        set_control_string remaining (if remaining =? 0 then false else controlStringC2 s) s
    else control_string_first value allowBell escape (resetControlStringUTF8 s)
  else control_string_first value allowBell escape s.

Definition consumeStringEscape (value : byte) (allowBell : bool) (content escape : terminalSequence)
    (s : terminalSanitizer) : terminalSanitizer :=
  if b2z value =? 0x5c then resetSequence s
  else if b2z value =? 0x1b then s
  else consumeControlString value allowBell escape (set_sequence content s).

Definition consumeSequence (value : byte) (s : terminalSanitizer) : terminalSanitizer :=
  match sequence s with
  | terminalText => s
  | terminalEscape => consumeEscape value s
  | terminalEscapeIntermediate => consumeEscapeIntermediate value s
  | terminalCSI => consumeCSI value s
  | terminalOSC => consumeControlString value true terminalOSCEscape s
  | terminalControlString => consumeControlString value false terminalStringEscape s
  | terminalOSCEscape => consumeStringEscape value true terminalOSC terminalOSCEscape s
  | terminalStringEscape => consumeStringEscape value false terminalControlString terminalStringEscape s
  end.

Definition sanitizer_accept (value : byte) (s : terminalSanitizer) : terminalSanitizer * list byte :=
  match sequence s with
  | terminalText => consumeText value s []
  | _ => (consumeSequence value s, [])
  end.

Definition sanitizer_finish (s : terminalSanitizer) : terminalSanitizer * list byte :=
  (resetSequence (resetUTF8 s), if negb (zlen (utf8Bytes s) =? 0) then appendReplacement [] else []).

(** The bytes of a stream, one after the other. *)
Fixpoint sanitize (content : list byte) (s : terminalSanitizer) : terminalSanitizer * list byte :=
  match content with
  | [] => (s, [])
  | value :: content =>
      let '(s, visible) := sanitizer_accept value s in
      let '(s, rest) := sanitize content s in
      (s, visible ++ rest)
  end.

(** ** What is shown *)
(** A rune that starts no control sequence. *)
Definition rune_shown (r : list byte) : bool :=
  is_rune r && negb (bool_decide (r = [x1b])) && negb ((0x80 <=? rune_value r) && (rune_value r <=? 0x9f)).

Inductive shown : list byte -> Prop :=
  | shown_nil : shown []
  | shown_rune r l : rune_shown r = true -> shown l -> shown (r ++ l).

Lemma shown_app l k : shown l -> shown k -> shown (l ++ k).
Proof. induction 1; simpl; [done|]. intros. rewrite <- app_assoc. by constructor; auto. Qed.

Lemma shown_one r : rune_shown r = true -> shown r.
Proof. intros H. rewrite <- (app_nil_r r). by constructor; [|constructor]. Qed.

Lemma shown_utf8 l : shown l -> utf8 l.
Proof. induction 1 as [|r l Hr _ IH]; [constructor|]. unfold rune_shown in Hr. bool_to_prop. by constructor. Qed.

(** ** The state *)
(** The pending bytes start a rune of the expected length; nothing is pending
    inside a control sequence. *)
Definition pending_rune (s : terminalSanitizer) : Prop :=
  match utf8Bytes s with
  | [] => utf8Expected s = 0
  | b :: rest =>
      sequence s = terminalText /\ 0xa0 <= b2z b /\ utf8Expected s = Z.of_nat (rune_size b)
      /\ Forall (fun c => continuation c = true) rest /\ zlen (utf8Bytes s) < utf8Expected s
  end.

Lemma sequence_length_rune_size b : 0xa0 <= b2z b -> utf8SequenceLength b = Z.of_nat (rune_size b).
Proof.
  intros H. unfold utf8SequenceLength, rune_size, in_byte. pose proof (b2z_range b).
  rewrite (proj2 (Z.leb_gt (b2z b) 0x7f)) by lia. rewrite andb_false_r.
  destruct (_ && _); [done|]. destruct (_ && _); [done|]. by destruct (_ && _).
Qed.

Lemma replacement_shown : shown replacement_rune.
Proof. by apply shown_one. Qed.

Lemma consumeC1_pending v s : utf8Bytes s = [] -> utf8Expected s = 0 -> pending_rune (consumeC1 v s).
Proof.
  intros H1 H2. unfold consumeC1, pending_rune, resetControlStringUTF8, set_control_string, set_sequence.
  by destruct (_ || _), (v =? 0x9b), (v =? 0x9d); simpl; rewrite H1.
Qed.

Lemma consume_first_shown value s visible s' visible' :
  utf8Bytes s = [] -> utf8Expected s = 0 -> sequence s = terminalText -> shown visible -> (length visible <= 3)%nat ->
  consume_first value s visible = (s', visible') ->
  pending_rune s' /\ shown visible' /\ (length visible' <= 6)%nat.
Proof.
  intros H1 H2 Hq Hv Hl. unfold consume_first, appendReplacement, chunk_append, chunk_capacity.
  pose proof (b2z_range value). destruct (Z.ltb_spec (b2z value) 0x80) as [Ha|Ha].
  - destruct (Z.eqb_spec (b2z value) 0x1b) as [Ee|Ee]; intros [= <- <-].
    + unfold pending_rune, set_sequence; simpl; rewrite H1. split_and!; [done|done|lia].
    + unfold pending_rune. rewrite H1. split_and!; [done| |rewrite length_app, length_take; simpl; lia].
      rewrite take_ge by (simpl; lia). apply shown_app; [done|]. apply shown_one. unfold rune_shown. simpl.
      assert (rune_size value = 1%nat) as ->.
      { unfold rune_size, in_byte. rewrite (proj2 (Z.leb_le 0 _)), (proj2 (Z.leb_le _ 0x7f)) by lia. done. }
      rewrite bool_decide_eq_true_2 by done. rewrite bool_decide_eq_false_2 by (by intros [= ->]).
      simpl. rewrite (proj2 (Z.leb_gt 0x80 _)) by lia. done.
  - destruct (Z.leb_spec (b2z value) 0x9f) as [Hc|Hc].
    { intros [= <- <-]. split_and!; [by apply consumeC1_pending|done|lia]. }
    destruct (Z.eqb_spec (utf8SequenceLength value) 0) as [E|E]; intros [= <- <-].
    + unfold pending_rune. rewrite H1. split_and!; [done| |rewrite length_app, length_take; simpl; lia].
      rewrite take_ge by (simpl; lia). apply shown_app; [done|apply replacement_shown].
    + split_and!; [|done|lia]. unfold pending_rune; simpl. rewrite sequence_length_rune_size in E |- * by lia.
      split_and!; [done|lia|done|constructor|]. rewrite zlen_cons, zlen_nil.
      unfold rune_size in *. destruct (in_byte 0 127 value) eqn:Eb; [|repeat destruct (in_byte _ _ _); simpl in *; lia].
      unfold in_byte in Eb. bool_to_prop. lia.
Qed.

(** A completed rune with a valid encoding is one rune. *)
Lemma valid_pending b rest :
  0xa0 <= b2z b -> length (b :: rest) = rune_size b -> Valid (b :: rest) = true -> is_rune (b :: rest) = true.
Proof.
  intros Hb Hl Hv. unfold Valid in Hv. cbn [length valid_fuel] in Hv.
  destruct (split_rune (b :: rest)) as [[r l]|] eqn:E; [|done]. cbn [split_rune] in E.
  rewrite <- Hl in E. rewrite take_ge, drop_ge in E by lia.
  destruct (is_rune (b :: rest)); [done|done].
Qed.

Lemma consumeText_shown value s s' visible :
  pending_rune s -> sequence s = terminalText -> consumeText value s [] = (s', visible) ->
  pending_rune s' /\ shown visible /\ (length visible <= 6)%nat.
Proof.
  intros Hp Hq. unfold consumeText. rewrite zlen_zero. pose proof Hp as Hp'. unfold pending_rune in Hp.
  destruct (utf8Bytes s) as [|b rest] eqn:Eb; cbn [negb bool_decide].
  { rewrite bool_decide_eq_true_2 by done. simpl. intros H. eapply consume_first_shown in H; try done; [constructor|simpl; lia]. }
  rewrite bool_decide_eq_false_2 by done. cbn [negb]. destruct Hp as (_ & Hb & He & Hrest & Hlen).
  destruct (_ || _) eqn:Ec.
  { intros H. eapply consume_first_shown in H; try done.
    unfold appendReplacement, chunk_append. apply replacement_shown. }
  bool_to_prop. assert (continuation value = true) as Hcont.
  { unfold continuation, in_byte. rewrite (proj2 (Z.leb_le _ _)), (proj2 (Z.leb_le _ _)) by lia. done. }
  cbv zeta. destruct (Z.ltb_spec (zlen ((b :: rest) ++ [value])) (utf8Expected s)) as [Hlt|Hge].
  { intros [= <- <-]. split_and!; [|constructor|simpl; lia]. unfold pending_rune; simpl. split_and!; try done.
    apply Forall_app. by repeat constructor. }
  destruct (Valid ((b :: rest) ++ [value])) eqn:Ev; cbn [negb]; last first.
  { intros [= <- <-]. split_and!; [done|apply shown_app; [constructor|apply replacement_shown]|vm_compute; lia]. }
  assert (length ((b :: rest) ++ [value]) = rune_size b) as Hlr.
  { rewrite zlen_app, zlen_cons in Hge. rewrite zlen_cons in Hlen. unfold zlen in *. rewrite length_app. simpl in *. lia. }
  destruct (_ && _) eqn:Erange.
  { intros [= <- <-]. split_and!; [|constructor|simpl; lia]. done. }
  intros [= <- <-]. pose proof (valid_pending b (rest ++ [value]) Hb Hlr Ev) as Hrune.
  assert (length (b :: rest ++ [value]) <= 4)%nat.
  { pose proof (is_rune_length _ Hrune) as (? & ? & _ & _ & ?). lia. }
  unfold chunk_append, chunk_capacity. simpl. rewrite take_ge by (simpl in *; lia).
  split_and!; [done| |simpl in *; lia]. apply shown_one. unfold rune_shown. rewrite Hrune.
  rewrite bool_decide_eq_false_2 by (intros [= -> Hnil]; by destruct rest). cbn [andb negb].
  cbn [app] in Erange. by rewrite Erange.
Qed.

(** Inside a sequence nothing is pending, and nothing becomes pending. *)
Lemma consumeSequence_pending value s :
  pending_rune s -> sequence s <> terminalText -> pending_rune (consumeSequence value s).
Proof.
  intros Hp Hq. assert (utf8Bytes s = [] /\ utf8Expected s = 0) as [H1 H2].
  { unfold pending_rune in Hp. destruct (utf8Bytes s); [done|]. by destruct Hp as [? _]. }
  assert (forall s', utf8Bytes s' = [] -> utf8Expected s' = 0 -> pending_rune s') as Hnone.
  { intros s' E1 E2. unfold pending_rune. by rewrite E1. }
  assert (forall q, pending_rune (consumeRawC1 value (set_sequence q s))) as Hraw.
  { intros q. unfold consumeRawC1. destruct (_ && _); [by apply consumeC1_pending|by apply Hnone]. }
  assert (forall a e s', utf8Bytes s' = [] -> utf8Expected s' = 0 -> pending_rune (consumeControlString value a e s')) as Hcs.
  { intros a e s' E1 E2. apply Hnone; unfold consumeControlString, control_string_first;
      repeat case_match; done. }
  unfold consumeSequence. destruct (sequence s); [done|..].
  - unfold consumeEscape. repeat case_match; try by apply Hnone. apply Hraw.
  - unfold consumeEscapeIntermediate. repeat case_match; try by apply Hnone. apply Hraw.
  - unfold consumeCSI. repeat case_match; try by apply Hnone. apply Hraw.
  - by apply Hcs.
  - by apply Hcs.
  - unfold consumeStringEscape. repeat case_match; try by apply Hnone. by apply Hcs.
  - unfold consumeStringEscape. repeat case_match; try by apply Hnone. by apply Hcs.
Qed.

Lemma sanitizer_accept_shown value s s' visible :
  pending_rune s -> sanitizer_accept value s = (s', visible) ->
  pending_rune s' /\ shown visible /\ (length visible <= 6)%nat.
Proof.
  intros Hp. unfold sanitizer_accept. destruct (sequence s) eqn:Eq; [by apply consumeText_shown|..].
  all: intros [= <- <-]; split_and!; [|constructor|simpl; lia]; apply consumeSequence_pending; [done|congruence].
Qed.

Lemma sanitize_shown content s s' visible :
  pending_rune s -> sanitize content s = (s', visible) -> pending_rune s' /\ shown visible.
Proof.
  revert s s' visible; induction content as [|value content IH]; simpl; intros s s' visible Hp.
  { intros [= <- <-]. split; [done|constructor]. }
  destruct (sanitizer_accept value s) as [s1 v1] eqn:E1. destruct (sanitize content s1) as [s2 v2] eqn:E2.
  intros [= <- <-]. destruct (sanitizer_accept_shown _ _ _ _ Hp E1) as (H1 & H2 & _).
  destruct (IH _ _ _ H1 E2) as [H3 H4]. split; [done|by apply shown_app].
Qed.

Lemma finish_shown s : pending_rune (sanitizer_finish s).1 /\ shown (sanitizer_finish s).2.
Proof.
  split; [done|]. unfold sanitizer_finish. simpl. destruct (negb _); [|constructor]. apply replacement_shown.
Qed.

(** ** What is kept and what is removed *)
Lemma sanitize_app l k s :
  sanitize (l ++ k) s =
  let '(s1, v1) := sanitize l s in let '(s2, v2) := sanitize k s1 in (s2, v1 ++ v2).
Proof.
  revert s; induction l as [|b l IH]; intros s; simpl; [by destruct (sanitize k s)|].
  destruct (sanitizer_accept b s) as [s1 v1]. rewrite IH. destruct (sanitize l s1) as [s2 v2].
  destruct (sanitize k s2) as [s3 v3]. by rewrite app_assoc.
Qed.

Lemma in_byte_sub lo hi lo' hi' b : lo' <= lo -> hi <= hi' -> in_byte lo hi b = true -> in_byte lo' hi' b = true.
Proof. unfold in_byte. rewrite !andb_true_iff, !Z.leb_le. lia. Qed.

Lemma second_continuation b0 b1 : second_ok b0 b1 = true -> continuation b1 = true.
Proof.
  unfold second_ok, continuation. destruct b0; try done; apply in_byte_sub; lia.
Qed.

Lemma rune_tail_continuations b rest :
  is_rune (b :: rest) = true -> Forall (fun c => continuation c = true) rest.
Proof.
  destruct rest as [|b1 [|b2 [|b3 [|]]]]; simpl; intros H; try done; bool_to_prop; repeat constructor; try done;
    by eapply second_continuation.
Qed.

Lemma rune_lead b rest : is_rune (b :: rest) = true -> rest <> [] -> 0xc2 <= b2z b <= 0xf4.
Proof.
  intros H Hne. destruct (is_rune_length _ H) as (b' & r' & [= <- <-] & Hl & _). unfold rune_size, in_byte in Hl.
  destruct rest as [|c rest]; [done|]. cbn [length] in Hl.
  repeat match type of Hl with context [if ?c then _ else _] => destruct c eqn:? end; bool_to_prop; lia.
Qed.

Lemma is_rune_Valid r : is_rune r = true -> Valid r = true.
Proof. intros H. apply Valid_utf8. rewrite <- (app_nil_r r). by constructor; [|constructor]. Qed.

Section Feeding.
Context (remaining : Z) (c2 : bool).
Abbreviation text := (MkSanitizer terminalText [] 0 remaining c2).
Abbreviation pend l n := (MkSanitizer terminalText l n remaining c2).

Lemma feed_tail b rest tail :
  rune_shown (b :: rest ++ tail) = true -> tail <> [] ->
  sanitize tail (pend (b :: rest) (Z.of_nat (rune_size b))) = (text, b :: rest ++ tail).
Proof.
  revert rest; induction tail as [|c tail IH]; intros rest Hs Hne; [done|].
  pose proof Hs as Hs'. unfold rune_shown in Hs'. bool_to_prop.
  match goal with H : is_rune _ = true |- _ => rename H into Hr end.
  match goal with H : _ \/ _ |- _ => rename H into Hc end.
  destruct (is_rune_length _ Hr) as (b' & r' & [= <- <-] & Hl & Hl4).
  pose proof (rune_tail_continuations _ _ Hr) as Hconts. apply Forall_app in Hconts as [_ Hconts].
  apply Forall_cons in Hconts as [Hcont _]. unfold continuation, in_byte in Hcont. bool_to_prop.
  cbn [sanitize]. unfold sanitizer_accept. cbn [sequence]. unfold consumeText. cbn [utf8Bytes utf8Expected sequence
    controlStringUTF8Remaining controlStringC2]. rewrite zlen_zero, bool_decide_eq_false_2 by done. cbn [negb].
  rewrite (proj2 (Z.ltb_ge _ 0x80)), (proj2 (Z.ltb_ge 0xbf _)) by lia. cbn [orb]. cbv zeta.
  destruct tail as [|c' tail].
  - rewrite (proj2 (Z.ltb_ge _ _)); [|unfold zlen; cbn [length app] in *; rewrite length_app in *; simpl in *; lia].
    change ((b :: rest) ++ [c]) with (b :: rest ++ [c]). rewrite (is_rune_Valid _ Hr). cbn [negb]. rewrite (proj2 (andb_false_iff _ _) Hc).
    unfold chunk_append, chunk_capacity. simpl. rewrite take_ge by (simpl in *; lia). by rewrite app_nil_r.
  - rewrite (proj2 (Z.ltb_lt _ _)); [|unfold zlen; cbn [length app] in *; rewrite !length_app in *; simpl in *; lia].
    change ((b :: rest) ++ [c]) with (b :: rest ++ [c]). rewrite (IH (rest ++ [c])); [by rewrite <- !app_assoc|by rewrite <- app_assoc|done].
Qed.

(** A rune that is shown passes. *)
Lemma feed_rune r : rune_shown r = true -> sanitize r text = (text, r).
Proof.
  intros Hs. pose proof Hs as Hs'. unfold rune_shown in Hs'. bool_to_prop.
  match goal with H : is_rune _ = true |- _ => rename H into Hr end.
  destruct (is_rune_length _ Hr) as (b & rest & -> & Hl & _). destruct rest as [|c rest].
  - simpl in Hr. apply bool_decide_eq_true in Hr. cbn [sanitize]. unfold sanitizer_accept. cbn [sequence].
    unfold consumeText, consume_first. cbn [utf8Bytes]. rewrite zlen_zero. cbn [negb bool_decide].
    assert (b2z b < 0x80) as Hb.
    { unfold rune_size, in_byte in Hr. destruct (_ && _) eqn:E; [bool_to_prop; lia|].
      by repeat destruct (_ && _) in Hr. }
    rewrite bool_decide_eq_true_2 by done. cbn [negb].
    rewrite (proj2 (Z.ltb_lt _ _) Hb). destruct (Z.eqb_spec (b2z b) 0x1b) as [E|E]; [|done].
    assert (b = x1b) as -> by (by apply b2z_inj). done.
  - pose proof (rune_lead _ _ Hr ltac:(done)) as Hlead.
    assert (sanitizer_accept b text = (pend [b] (Z.of_nat (rune_size b)), [])) as Ha.
    { unfold sanitizer_accept. cbn [sequence]. unfold consumeText, consume_first. cbn [utf8Bytes]. rewrite zlen_zero.
      rewrite bool_decide_eq_true_2 by done. cbn [negb].
      rewrite (proj2 (Z.ltb_ge _ _)), (proj2 (Z.leb_gt _ _)) by lia. cbv zeta.
      rewrite sequence_length_rune_size by lia. rewrite <- Hl. by rewrite (proj2 (Z.eqb_neq _ _)) by (simpl; lia). }
    change (b :: c :: rest) with ([b] ++ c :: rest) at 1. rewrite sanitize_app.
    assert (sanitize [b] text = (pend [b] (Z.of_nat (rune_size b)), [])) as ->.
    { change (sanitize [b] text) with (let '(s, visible) := sanitizer_accept b text in (s, visible ++ [])). by rewrite Ha. }
    by rewrite (feed_tail b [] (c :: rest) Hs ltac:(done)).
Qed.

Lemma feed_text t : shown t -> sanitize t text = (text, t).
Proof.
  induction 1 as [|r l Hr _ IH]; [done|]. by rewrite sanitize_app, (feed_rune r Hr), IH.
Qed.
End Feeding.

(** *** Control sequences *)
Definition csi_introducers : list (list byte) := [[x1b; x5b]; [x9b]; [xc2; x9b]].
Definition osc_introducers : list (list byte) := [[x1b; x5d]; [x9d]; [xc2; x9d]].
Definition string_introducers : list (list byte) :=
  [[x1b; x50]; [x1b; x58]; [x1b; x5e]; [x1b; x5f]; [x90]; [x98]; [x9e]; [x9f]; [xc2; x90]; [xc2; x98]; [xc2; x9e]; [xc2; x9f]].
Definition string_terminators : list (list byte) := [[x1b; x5c]; [x9c]; [xc2; x9c]].

(** A final byte after ESC that begins a longer sequence. *)
Definition escape_introducers : list byte := [x5b; x5d; x50; x58; x5e; x5f].
(** The codes of C1 that begin one. *)
Definition c1_introducers : list byte := [x90; x98; x9b; x9d; x9e; x9f].

(** What a program may print: text, the control sequences of ECMA-48, single
    controls of C1, and bytes that begin no rune. *)
Inductive piece : Type :=
  | Text (t : list byte)
  | Malformed (b : byte)
  | RawC1 (b : byte)
  | EncodedC1 (b : byte)
  | Csi (introducer parameters : list byte) (final : byte)
  | Escape (intermediates : list byte) (final : byte)
  | Osc (introducer body terminator : list byte)
  | ControlString (introducer body terminator : list byte).

Definition piece_bytes (p : piece) : list byte :=
  match p with
  | Text t => t
  | Malformed b | RawC1 b => [b]
  | EncodedC1 b => [xc2; b]
  | Csi i ps f => i ++ ps ++ [f]
  | Escape ms f => [x1b] ++ ms ++ [f]
  | Osc i b t | ControlString i b t => i ++ b ++ t
  end.

Definition piece_text (p : piece) : list byte := match p with Text t => t | Malformed _ => replacement_rune | _ => [] end.

Definition piece_ok (p : piece) : Prop :=
  match p with
  | Text t => shown t
  | Malformed b => in_byte 0xa0 0xc1 b = true \/ in_byte 0xf5 0xff b = true
  | RawC1 b | EncodedC1 b => in_byte 0x80 0x9f b = true /\ b ∉ c1_introducers
  | Csi i ps f => i ∈ csi_introducers /\ Forall (fun b => in_byte 0x20 0x3f b = true) ps /\ in_byte 0x40 0x7e f = true
  | Escape ms f => Forall (fun b => in_byte 0x20 0x2f b = true) ms /\ in_byte 0x30 0x7e f = true /\ (ms = [] -> f ∉ escape_introducers)
  | Osc i b t => i ∈ osc_introducers /\ shown b /\ (x07 ∉ b) /\ t ∈ ([x07] :: string_terminators)
  | ControlString i b t => i ∈ string_introducers /\ shown b /\ t ∈ string_terminators
  end.

(** Ready for text: nothing is pending. *)
Definition at_text (s : terminalSanitizer) : Prop := sequence s = terminalText /\ utf8Bytes s = [] /\ utf8Expected s = 0.

Ltac one_of H := repeat (apply elem_of_cons in H as [->|H]); [..|by apply not_elem_of_nil in H].

Lemma feed_parameters q ps remaining c2 (lo hi : Z) step :
  (forall b s, sequence s = q -> in_byte lo hi b = true -> sanitizer_accept b s = (s, [])) ->
  step = MkSanitizer q [] 0 remaining c2 ->
  Forall (fun b => in_byte lo hi b = true) ps -> sanitize ps step = (step, []).
Proof.
  intros Hq ->. induction 1 as [|b ps Hb _ IH]; [done|]. cbn [sanitize]. by rewrite Hq, IH.
Qed.

Ltac byte_range Hb :=
  unfold in_byte in Hb; apply andb_true_iff in Hb as [?%Z.leb_le ?%Z.leb_le].

Ltac decide_tests :=
  repeat match goal with
  | |- context [?a =? ?b] => (rewrite (proj2 (Z.eqb_neq a b)) by lia) || (rewrite (proj2 (Z.eqb_eq a b)) by lia)
  | |- context [?a <=? ?b] => (rewrite (proj2 (Z.leb_le a b)) by lia) || (rewrite (proj2 (Z.leb_gt a b)) by lia)
  | |- context [?a <? ?b] => (rewrite (proj2 (Z.ltb_lt a b)) by lia) || (rewrite (proj2 (Z.ltb_ge a b)) by lia)
  end; cbn [andb orb negb].

Lemma feed_csi i ps f s : at_text s -> piece_ok (Csi i ps f) -> exists s', sanitize (i ++ ps ++ [f]) s = (s', []) /\ at_text s'.
Proof.
  intros (Hq & Hb & He) (Hi & Hps & Hf). destruct s as [q u e r c]; cbn [sequence utf8Bytes utf8Expected] in *; subst.
  assert (sanitize i (MkSanitizer terminalText [] 0 r c) = (MkSanitizer terminalCSI [] 0 r c, [])) as Hin.
  { one_of Hi; vm_compute; done. }
  exists (MkSanitizer terminalText [] 0 r c). split; [|done]. rewrite sanitize_app, Hin, sanitize_app.
  rewrite (feed_parameters terminalCSI ps r c 0x20 0x3f _); [|intros b s Hs Hr; unfold sanitizer_accept; rewrite Hs|done|done].
  - cbn [sanitize app]. unfold sanitizer_accept. cbn [sequence consumeSequence]. unfold consumeSequence. cbn [sequence].
    unfold consumeCSI. byte_range Hf. by decide_tests.
  - unfold consumeSequence. rewrite Hs. unfold consumeCSI. byte_range Hr. by decide_tests.
Qed.

(** A value is none of a list of bytes. *)
Lemma byte_other (b : byte) (l : list byte) (c : byte) : b ∉ l -> c ∈ l -> b2z b <> b2z c.
Proof. intros Hb Hc E%b2z_inj. congruence. Qed.

Lemma feed_short_escape f r c :
  in_byte 0x30 0x7e f = true -> f ∉ escape_introducers ->
  sanitize [x1b; f] (MkSanitizer terminalText [] 0 r c) = (MkSanitizer terminalText [] 0 r c, []).
Proof.
  intros Hf Hn. cbn [sanitize].
  change (sanitizer_accept x1b (MkSanitizer terminalText [] 0 r c)) with (MkSanitizer terminalEscape [] 0 r c, @nil byte). cbv iota beta.
  unfold sanitizer_accept. cbn [sequence]. unfold consumeSequence. cbn [sequence]. unfold consumeEscape. byte_range Hf.
  pose proof (byte_other f _ x5b Hn ltac:(set_solver)). pose proof (byte_other f _ x5d Hn ltac:(set_solver)).
  pose proof (byte_other f _ x50 Hn ltac:(set_solver)). pose proof (byte_other f _ x58 Hn ltac:(set_solver)).
  pose proof (byte_other f _ x5e Hn ltac:(set_solver)). pose proof (byte_other f _ x5f Hn ltac:(set_solver)).
  change (b2z x5b) with 0x5b in *. change (b2z x5d) with 0x5d in *. change (b2z x50) with 0x50 in *.
  change (b2z x58) with 0x58 in *. change (b2z x5e) with 0x5e in *. change (b2z x5f) with 0x5f in *. by decide_tests.
Qed.

Lemma feed_escape ms f s : at_text s -> piece_ok (Escape ms f) -> exists s', sanitize ([x1b] ++ ms ++ [f]) s = (s', []) /\ at_text s'.
Proof.
  intros (Hq & Hb & He) (His & Hf & Hne). destruct s as [q u e r c]; cbn [sequence utf8Bytes utf8Expected] in *; subst.
  exists (MkSanitizer terminalText [] 0 r c). split; [|done]. destruct ms as [|b ms]; [by apply feed_short_escape; auto|]. apply Forall_cons in His as [Hb His].
  match goal with |- sanitize _ ?st = _ => change (sanitize ([x1b; b] ++ ms ++ [f]) st = (st, [])) end. rewrite sanitize_app.
  assert (sanitize [x1b; b] (MkSanitizer terminalText [] 0 r c) = (MkSanitizer terminalEscapeIntermediate [] 0 r c, [])) as ->.
  { cbn [sanitize]. change (sanitizer_accept x1b (MkSanitizer terminalText [] 0 r c))
      with (MkSanitizer terminalEscape [] 0 r c, @nil byte). cbv iota beta.
    unfold sanitizer_accept. cbn [sequence]. unfold consumeSequence. cbn [sequence]. unfold consumeEscape. byte_range Hb. by decide_tests. }
  rewrite sanitize_app. rewrite (feed_parameters terminalEscapeIntermediate ms r c 0x20 0x2f _);
    [|intros b' s Hs Hr; unfold sanitizer_accept; rewrite Hs|done|done].
  - cbn [sanitize app]. unfold sanitizer_accept. cbn [sequence]. unfold consumeSequence. cbn [sequence].
    unfold consumeEscapeIntermediate. byte_range Hf. by decide_tests.
  - unfold consumeSequence. rewrite Hs. unfold consumeEscapeIntermediate. byte_range Hr. by decide_tests.
Qed.

Section Strings.
Context (bell : bool).
(** Inside an OSC string, which a bell also ends, or another control string. *)
Let q : terminalSequence := if bell then terminalOSC else terminalControlString.
Let escape : terminalSequence := if bell then terminalOSCEscape else terminalStringEscape.
Let inside (remaining : Z) (c2 : bool) : terminalSanitizer := MkSanitizer q [] 0 remaining c2.

Lemma inside_accept value remaining c2 :
  sanitizer_accept value (inside remaining c2) = (consumeControlString value bell escape (inside remaining c2), []).
Proof. unfold sanitizer_accept, consumeSequence, inside, q, escape. by destruct bell. Qed.

Lemma feed_conts tail c2 :
  Forall (fun c => continuation c = true) tail -> tail <> [] ->
  (c2 = true -> exists v, tail = [v] /\ v <> x9c) ->
  sanitize tail (inside (zlen tail) c2) = (inside 0 false, []).
Proof.
  induction 1 as [|v tail Hv Hf IH] in c2 |- *; intros Hne Hc2; [done|]. cbn [sanitize]. rewrite inside_accept.
  unfold continuation, in_byte in Hv. bool_to_prop. rewrite zlen_cons. pose proof (zlen_nonneg tail).
  unfold consumeControlString, inside. cbn [controlStringUTF8Remaining controlStringC2].
  rewrite (proj2 (Z.eqb_neq (zlen tail + 1) 0)) by lia.
  rewrite (proj2 (Z.leb_le 0x80 _)), (proj2 (Z.leb_le _ 0xbf)) by lia. cbn [andb negb]. cbv zeta.
  assert (c2 && (zlen tail + 1 =? 1) && (b2z v =? 156) = false) as ->.
  { destruct c2; [|done]. destruct (Hc2 eq_refl) as (v' & [= <- ->] & Hne'). apply andb_false_iff. right.
    apply Z.eqb_neq. intros E. by apply Hne', b2z_inj. }
  replace (zlen tail + 1 - 1) with (zlen tail) by lia. destruct tail as [|v' tail].
  - rewrite zlen_nil. simpl. done.
  - rewrite zlen_cons. pose proof (zlen_nonneg tail). rewrite (proj2 (Z.eqb_neq (zlen tail + 1) 0)) by lia.
    rewrite zlen_cons in IH. fold (inside (zlen tail + 1) c2).
    assert (c2 = false) as -> by (destruct c2; [|done]; by destruct (Hc2 eq_refl) as (? & [=] & _)).
    change (set_control_string _ _ _) with (inside (zlen tail + 1) false).
    by rewrite (IH false) by done.
Qed.

Lemma feed_body_rune r :
  rune_shown r = true -> (bell = true -> r <> [x07]) -> sanitize r (inside 0 false) = (inside 0 false, []).
Proof.
  intros Hs Hbell. pose proof Hs as Hs'. unfold rune_shown in Hs'. bool_to_prop.
  match goal with H : is_rune _ = true |- _ => rename H into Hr end.
  match goal with H : _ \/ _ |- _ => rename H into Hc end.
  destruct (is_rune_length _ Hr) as (b & rest & -> & Hl & _). cbn [sanitize]. rewrite inside_accept.
  unfold consumeControlString, inside at 1. cbn [controlStringUTF8Remaining]. cbn [negb Z.eqb].
  unfold control_string_first.
  assert (b2z b <> 0x1b) as Hesc by (intros E; destruct rest; [by assert (b = x1b) as -> by (by apply b2z_inj)|];
    pose proof (rune_lead _ _ Hr ltac:(done)); lia).
  rewrite (proj2 (Z.eqb_neq _ _) Hesc). destruct rest as [|c rest].
  - simpl in Hr. apply bool_decide_eq_true in Hr. simpl in Hc.
    assert (b2z b < 0x80) as Hb.
    { unfold rune_size, in_byte in Hr. pose proof (b2z_range b).
      repeat match type of Hr with context [if ?c then _ else _] => destruct c eqn:? end; bool_to_prop; lia. }
    assert (bell && (b2z b =? 7) = false) as ->.
    { destruct bell; [|done]. apply Z.eqb_neq. intros E. apply (Hbell eq_refl).
      by assert (b = x07) as -> by (by apply b2z_inj). }
    rewrite (proj2 (Z.eqb_neq (b2z b) 0x9c)) by lia. cbn [orb].
    assert (utf8SequenceLength b = 0) as ->; [unfold utf8SequenceLength; by decide_tests|done].
  - pose proof (rune_lead _ _ Hr ltac:(done)) as Hlead. rewrite (proj2 (Z.eqb_neq (b2z b) 7)), (proj2 (Z.eqb_neq (b2z b) 0x9c)) by lia.
    rewrite andb_false_r. cbn [orb]. cbv zeta. rewrite sequence_length_rune_size by lia. rewrite <- Hl.
    rewrite (proj2 (Z.eqb_neq _ _)) by (simpl; lia). cbn [negb].
    replace (Z.of_nat (length (b :: c :: rest)) - 1) with (zlen (c :: rest)) by (unfold zlen; simpl; lia).
    change (set_control_string (zlen (c :: rest)) (b2z b =? 194) (inside 0 false)) with (inside (zlen (c :: rest)) (b2z b =? 194)).
    rewrite feed_conts; [done|by eapply rune_tail_continuations|done|].
    intros Eb. apply Z.eqb_eq in Eb. assert (b = xc2) as -> by (by apply b2z_inj).
    assert (rest = []) as -> by (destruct rest; [done|]; simpl in Hl; done).
    exists c. split; [done|]. intros ->. by destruct Hc.
Qed.

Lemma feed_body body :
  shown body -> (bell = true -> x07 ∉ body) -> sanitize body (inside 0 false) = (inside 0 false, []).
Proof.
  induction 1 as [|r l Hr _ IH]; intros Hb; [done|]. rewrite sanitize_app, (feed_body_rune r Hr).
  - rewrite IH; [done|]. intros E. specialize (Hb E). set_solver.
  - intros E ->. apply (Hb E). set_solver.
Qed.

Lemma feed_terminator t :
  t ∈ string_terminators \/ (bell = true /\ t = [x07]) ->
  sanitize t (inside 0 false) = (MkSanitizer terminalText [] 0 0 false, []).
Proof.
  intros [Ht|[Hb ->]].
  - unfold inside, q. one_of Ht; destruct bell; vm_compute; done.
  - unfold inside, q. rewrite Hb. vm_compute. done.
Qed.

Lemma feed_string i body t s :
  at_text s -> (forall r c, sanitize i (MkSanitizer terminalText [] 0 r c) = (inside 0 false, [])) ->
  shown body -> (bell = true -> x07 ∉ body) -> t ∈ string_terminators \/ (bell = true /\ t = [x07]) ->
  exists s', sanitize (i ++ body ++ t) s = (s', []) /\ at_text s'.
Proof.
  intros (Hq & Hb & He) Hi Hbody Hbell Ht. destruct s as [q' u e r c]; cbn [sequence utf8Bytes utf8Expected] in *; subst.
  exists (MkSanitizer terminalText [] 0 0 false). split; [|done].
  by rewrite sanitize_app, Hi, sanitize_app, (feed_body body Hbody Hbell), (feed_terminator t Ht).
Qed.
End Strings.

(** *** Single controls and malformed bytes *)
Lemma plain_c1 b s : in_byte 0x80 0x9f b = true -> b ∉ c1_introducers -> consumeC1 (b2z b) s = s.
Proof.
  intros Hb Hn. unfold consumeC1. byte_range Hb.
  pose proof (byte_other b _ x90 Hn ltac:(set_solver)). pose proof (byte_other b _ x98 Hn ltac:(set_solver)).
  pose proof (byte_other b _ x9b Hn ltac:(set_solver)). pose proof (byte_other b _ x9d Hn ltac:(set_solver)).
  pose proof (byte_other b _ x9e Hn ltac:(set_solver)). pose proof (byte_other b _ x9f Hn ltac:(set_solver)).
  change (b2z x90) with 0x90 in *. change (b2z x98) with 0x98 in *. change (b2z x9b) with 0x9b in *.
  change (b2z x9d) with 0x9d in *. change (b2z x9e) with 0x9e in *. change (b2z x9f) with 0x9f in *. by decide_tests.
Qed.

Lemma feed_raw_c1 b r c :
  in_byte 0x80 0x9f b = true -> b ∉ c1_introducers ->
  sanitize [b] (MkSanitizer terminalText [] 0 r c) = (MkSanitizer terminalText [] 0 r c, []).
Proof.
  intros Hb Hn. cbn [sanitize]. unfold sanitizer_accept. cbn [sequence]. unfold consumeText. cbn [utf8Bytes]. rewrite zlen_nil.
  cbn [Z.eqb negb]. unfold consume_first. rewrite plain_c1 by done. byte_range Hb. by decide_tests.
Qed.

Lemma feed_encoded_c1 b r c :
  in_byte 0x80 0x9f b = true -> b ∉ c1_introducers ->
  sanitize [xc2; b] (MkSanitizer terminalText [] 0 r c) = (MkSanitizer terminalText [] 0 r c, []).
Proof.
  intros Hb Hn. pose proof (plain_c1 b (MkSanitizer terminalText [xc2] 2 r c) Hb Hn) as Hp. revert Hb Hn Hp. destruct b; intros Hb Hn Hp; (vm_compute; done) || (exfalso; by vm_compute in Hb) || (exfalso; apply Hn; set_solver).
Qed.

Lemma feed_malformed b r c :
  in_byte 0xa0 0xc1 b = true \/ in_byte 0xf5 0xff b = true ->
  sanitize [b] (MkSanitizer terminalText [] 0 r c) = (MkSanitizer terminalText [] 0 r c, replacement_rune).
Proof.
  intros Hb. cbn [sanitize]. unfold sanitizer_accept. cbn [sequence]. unfold consumeText. cbn [utf8Bytes]. rewrite zlen_nil.
  cbn [Z.eqb negb]. unfold consume_first, utf8SequenceLength. by destruct Hb as [Hb|Hb]; byte_range Hb; decide_tests.
Qed.

Lemma feed_piece p s : at_text s -> piece_ok p -> exists s', sanitize (piece_bytes p) s = (s', piece_text p) /\ at_text s'.
Proof.
  intros Hs Hp. destruct p as [t|b|b|b|i ps f|ms f|i b t|i b t]; cbn [piece_bytes piece_text].
  - exists s. split; [|done]. destruct s as [q u e r c]. destruct Hs as (Hq & Hu & He). simpl in *. subst. by apply feed_text.
  - destruct s as [q u e r c]; destruct Hs as (Hq & Hu & He); cbn in Hq, Hu, He; subst. eexists. split; [by apply feed_malformed|done].
  - destruct s as [q u e r c]; destruct Hs as (Hq & Hu & He); cbn in Hq, Hu, He; subst. destruct Hp. eexists. split; [by apply feed_raw_c1|done].
  - destruct s as [q u e r c]; destruct Hs as (Hq & Hu & He); cbn in Hq, Hu, He; subst. destruct Hp. eexists. split; [by apply feed_encoded_c1|done].
  - by apply feed_csi.
  - by apply feed_escape.
  - destruct Hp as (Hi & Hb & Hx & Ht). apply (feed_string true i b t s Hs); [|done|done|].
    + intros r c. one_of Hi; vm_compute; done.
    + apply elem_of_cons in Ht as [->|Ht]; [by right|by left].
  - destruct Hp as (Hi & Hb & Ht). apply (feed_string false i b t s Hs); [|done|done|by left].
    intros r c. one_of Hi; vm_compute; done.
Qed.

Lemma feed_pieces ps s :
  at_text s -> Forall piece_ok ps ->
  exists s', sanitize (mjoin (piece_bytes <$> ps)) s = (s', mjoin (piece_text <$> ps)) /\ at_text s'.
Proof.
  intros Hs Hp. revert s Hs. induction Hp as [|p ps Hp _ IH]; intros s Hs; [by exists s|].
  rewrite !fmap_cons, !mjoin_cons, sanitize_app. destruct (feed_piece p s Hs Hp) as (s1 & E1 & H1). rewrite E1.
  destruct (IH s1 H1) as (s2 & E2 & H2). rewrite E2. by exists s2.
Qed.

(** ** Properties *)
(** C32. Whatever bytes a child prints, and wherever the stream is cut into
    chunks, what the sanitizer lets through, the end of the stream included, is
    valid UTF-8 without an escape character or a C1 control: no terminal control
    sequence reaches the terminal, and a byte fills at most six of the eight places
    of the chunk, so nothing is cut. *)
Theorem sanitized_text_is_inert content :
  let '(s, visible) := sanitize content new_sanitizer in
  shown (visible ++ (sanitizer_finish s).2) /\ Valid (visible ++ (sanitizer_finish s).2) = true
  /\ forall value s', pending_rune s' -> (length (sanitizer_accept value s').2 <= 6)%nat.
Proof.
  destruct (sanitize content new_sanitizer) as [s visible] eqn:E.
  destruct (sanitize_shown content new_sanitizer s visible) as [Hp Hv]; [done|done|].
  destruct (finish_shown s) as [_ Hf]. split; [by apply shown_app|split].
  - apply Valid_utf8, shown_utf8. by apply shown_app.
  - intros value s' Hp'. destruct (sanitizer_accept value s') as [s2 v2] eqn:E2.
    by destruct (sanitizer_accept_shown _ _ _ _ Hp' E2) as (_ & _ & ?).
Qed.


Definition sample_pieces : list piece :=
  [Text [x61; xc3; xa9]; Csi [x1b; x5b] [x33; x31] x6d; Text [x62]; Osc [x1b; x5d] [x30; x3b; xe2; x82; xac] [x07];
   Escape [] x37; Escape [x28] x42; RawC1 x84; EncodedC1 x85; Malformed xff; ControlString [x90] [x71] [x1b; x5c]; Text [x0a]].

Lemma sample_pieces_ok : Forall piece_ok sample_pieces.
Proof.
  assert (shown [x61; xc3; xa9]) as H1 by (apply (shown_rune [x61] [xc3; xa9]); [done|by apply shown_one]).
  assert (shown [x30; x3b; xe2; x82; xac]) as H2.
  { apply (shown_rune [x30] [x3b; xe2; x82; xac]); [done|]. apply (shown_rune [x3b] [xe2; x82; xac]); [done|by apply shown_one]. }
  unfold sample_pieces. rewrite !Forall_cons. split_and!; try done; simpl; try by apply shown_one.
  all: try (split_and!; [set_solver|by apply shown_one|set_solver]). all: try (by split; [|set_solver]). all: try set_solver.
Qed.

