(* ===== verification/PlainOutput.v ===== *)
(** * Plain output

    [plainoutput/output.go]: the output of several children as prefixed,
    append-only lines on two writers.  A stream keeps the line being built and
    the last text a carriage return ended; writers stop at their first error.
    Times are nanoseconds, zero the zero time. *)
From S2P Require Import Prelude Utf8 GoIO TransferNumber GoText Final Events Netip Sanitizer.

Definition progressInterval : Z := 1000000000.
Definition maximumLogicalLineBytes : Z := 64 * 1024.

Record Transfer : Type := MkTransfer { number : Number; localIP : Addr }.

Definition NewTransfer (n : Number) (ip : Addr) : result Transfer :=
  if (Value n =? 0) || negb (Is4 ip) then Err (ErrText "plain output transfer is invalid") else Ok (MkTransfer n ip).

Section PlainOutput.
Context {W : Type} `{!Writer W}.

Record synchronizedWriter : Type := MkSyncWriter { writer : W; writeErr : option error; finalizing : bool }.

Record outputStream : Type := MkStream {
  line : list byte;
  progress : list byte;
  progressWritten : bool;
  segmentWritten : bool;
  lastProgress : Z;
  stream_sanitizer : terminalSanitizer;
  stream_prefix : string;
  on_stderr : bool
}.

Definition line_contents (prefix : string) (l : list byte) : list byte :=
  bytes_of prefix ++ ToValidUTF8 l replacement_rune ++ [x0a].

Definition writeLine (prefix : string) (l : list byte) (w : synchronizedWriter) : synchronizedWriter * option error :=
  match writeErr w with
  | Some e => (w, if finalizing w then None else Some e)
  | None =>
      let '(w', e) := writeFull (writer w) (line_contents prefix l) in
      (MkSyncWriter w' e (finalizing w), e)
  end.

Definition beginFinalization (w : synchronizedWriter) : synchronizedWriter := MkSyncWriter (writer w) (writeErr w) true.

(** ** One stream *)
(** A method of a stream: the stream, its writer and the error. *)
Definition step : Type := outputStream -> synchronizedWriter -> outputStream * synchronizedWriter * option error.

(** [if err := first; err != nil { return err }; next]. *)
Definition then_ (first next : step) : step := fun s w =>
  match first s w with
  | (s, w, Some e) => (s, w, Some e)
  | (s, w, None) => next s w
  end.

Definition update (f : outputStream -> outputStream) : step := fun s w => (f s, w, None).
Definition write_line (l : outputStream -> list byte) : step := fun s w =>
  let '(w, e) := writeLine (stream_prefix s) (l s) w in (s, w, e).

Definition set_buffers (l p : list byte) (pw sw : bool) (last : Z) (s : outputStream) : outputStream :=
  MkStream l p pw sw last (stream_sanitizer s) (stream_prefix s) (on_stderr s).
Definition set_sanitizer (z : terminalSanitizer) (s : outputStream) : outputStream :=
  MkStream (line s) (progress s) (progressWritten s) (segmentWritten s) (lastProgress s) z (stream_prefix s) (on_stderr s).

Definition resetLogicalLine (s : outputStream) : outputStream := set_buffers [] [] false false 0 s.

Definition writeBufferedSegment : step :=
  then_ (write_line line) (update (fun s => set_buffers [] [] false true (lastProgress s) s)).

Definition append_line (content : list byte) (s : outputStream) : outputStream :=
  set_buffers (line s ++ content) (progress s) (progressWritten s) (segmentWritten s) (lastProgress s) s.

Definition appendVisibleBytes (content : list byte) : step :=
  then_ (fun s w =>
           if negb (zlen (line s) =? 0) && (maximumLogicalLineBytes <? zlen (line s) + zlen content)
           then writeBufferedSegment s w else (s, w, None))
    (then_ (update (append_line content))
       (fun s w => if zlen (line s) <? maximumLogicalLineBytes then (s, w, None) else writeBufferedSegment s w)).

Definition acceptCarriageReturnWithoutLine (now : Z) : step := fun s w =>
  if negb (zlen (progress s) =? 0) || progressWritten s then (s, w, None)
  else if segmentWritten s then (set_buffers [] [] true false now s, w, None)
  else then_ (write_line (fun _ => []))
         (update (fun s => set_buffers (line s) (progress s) true (segmentWritten s) now s)) s w.

Definition progressUpdate (now : Z) : step := fun s w =>
  if zlen (line s) =? 0 then acceptCarriageReturnWithoutLine now s w
  else
    let s := set_buffers [] (line s) false (segmentWritten s) (lastProgress s) s in
    if negb (lastProgress s =? 0) && (now - lastProgress s <? progressInterval) then (s, w, None)
    else then_ (write_line progress)
           (update (fun s => set_buffers (line s) (progress s) true (segmentWritten s) now s)) s w.

Definition finishLine : step := fun s w =>
  if (zlen (line s) =? 0) && progressWritten s then (resetLogicalLine s, w, None)
  else if (zlen (line s) =? 0) && (zlen (progress s) =? 0) && segmentWritten s then (resetLogicalLine s, w, None)
  else then_ (write_line (fun s => if (zlen (line s) =? 0) && negb (zlen (progress s) =? 0) then progress s else line s))
         (update resetLogicalLine) s w.

Definition acceptVisible (value : byte) (now : Z) : step :=
  if b2z value =? 0x0a then finishLine
  else if b2z value =? 0x0d then progressUpdate now
  else if b2z value =? 0x09 then appendVisibleBytes [value]
  else if (0x20 <=? b2z value) && negb (b2z value =? 0x7f) then appendVisibleBytes [value]
  else fun s w => (s, w, None).

(** The loop over runes; every round shortens the content. *)
Fixpoint acceptSanitized_loop (fuel : nat) (content : list byte) (now : Z) : step :=
  match fuel, content with
  | S fuel, value :: rest =>
      if b2z value <? 0x80 then then_ (acceptVisible value now) (acceptSanitized_loop fuel rest now)
      else match split_rune content with
           | None => fun s w => (s, w, Some (ErrText "plain output sanitizer emitted invalid UTF-8"))
           | Some (rune, rest) => then_ (appendVisibleBytes rune) (acceptSanitized_loop fuel rest now)
           end
  | _, _ => fun s w => (s, w, None)
  end.

Definition acceptSanitized (content : list byte) (now : Z) : step := acceptSanitized_loop (length content) content now.

Definition accept_byte (value : byte) (now : Z) : step := fun s w =>
  let '(z, visible) := sanitizer_accept value (stream_sanitizer s) in
  acceptSanitized visible now (set_sanitizer z s) w.

Fixpoint stream_accept (content : list byte) (now : Z) : step :=
  match content with
  | [] => fun s w => (s, w, None)
  | value :: content => then_ (accept_byte value now) (stream_accept content now)
  end.

Definition stream_flush : step := fun s w =>
  let '(z, visible) := sanitizer_finish (stream_sanitizer s) in
  then_ (acceptSanitized visible 0)
    (fun s w =>
       if negb (zlen (line s) =? 0) then finishLine s w
       else if negb (zlen (progress s) =? 0) && negb (progressWritten s) then finishLine s w
       else (resetLogicalLine s, w, None)) (set_sanitizer z s) w.

(** ** All streams *)
Record PlainTextOutput : Type := MkPlain {
  stdout : synchronizedWriter;
  stderr : synchronizedWriter;
  transfers : gmap Number Transfer;
  streams : gmap (Number * Z) outputStream;
  closed : bool
}.

Definition transfer_prefix (t : Transfer) : string :=
  "[" +:+ pretty (Value (number t)) +:+ " " +:+ AddrString (localIP t) +:+ "] ".

Definition new_stream (t : Transfer) (kind : Z) : outputStream :=
  MkStream [] [] false false 0 new_sanitizer (transfer_prefix t) (kind =? OutputStderr).

Fixpoint add_transfers (expected : Z) (ts : list Transfer) (known : gmap Number Transfer)
    (streams : gmap (Number * Z) outputStream) : result (gmap Number Transfer * gmap (Number * Z) outputStream) :=
  match ts with
  | [] => Ok (known, streams)
  | t :: ts =>
      if negb (Value (number t) =? wrap 8 (expected + 1)) || negb (Is4 (localIP t))
      then Err (ErrText "plain output transfers must be complete and ordered")
      else if bool_decide (is_Some (known !! number t)) then Err (ErrText "plain output repeats a transfer")
      else add_transfers (expected + 1) ts (<[number t := t]> known)
             (<[(number t, OutputStderr) := new_stream t OutputStderr]>
                (<[(number t, OutputStdout) := new_stream t OutputStdout]> streams))
  end.

(** The writers are never nil here. *)
Definition plain_New (out err : W) (ts : list Transfer) : result PlainTextOutput :=
  if (zlen ts =? 0) || (Maximum <? zlen ts) then Err (ErrText "plain output requires writers and transfers")
  else
    let* '(known, streams) := add_transfers 0 ts ∅ ∅ in
    Ok (MkPlain (MkSyncWriter out None false) (MkSyncWriter err None false) known streams false).

Definition set_stdout (w : synchronizedWriter) (o : PlainTextOutput) : PlainTextOutput :=
  MkPlain w (stderr o) (transfers o) (streams o) (closed o).

Definition plain_Begin (o : PlainTextOutput) : PlainTextOutput * option error :=
  if closed o then (o, Some (ErrText "plain output is closed"))
  else
    let '(w, e) := writeLine "transferlanes: "
                     (bytes_of ("starting " +:+ pretty (Z.of_nat (size (transfers o))) +:+ " transfers")) (stdout o) in
    (set_stdout w o, e).

(** A method called on the stream of a key, with the writer it writes to. *)
Definition on_stream (key : Number * Z) (f : step) (o : PlainTextOutput) : PlainTextOutput * option error :=
  match streams o !! key with
  | None => (o, None)
  | Some s =>
      let '(s', w, e) := f s (if on_stderr s then stderr o else stdout o) in
      (MkPlain (if on_stderr s then stdout o else w) (if on_stderr s then w else stderr o) (transfers o)
         (<[key := s']> (streams o)) (closed o), e)
  end.

Definition flushTransfer (id : Number) (o : PlainTextOutput) : PlainTextOutput * option error :=
  let '(o, e1) := on_stream (id, OutputStdout) stream_flush o in
  let '(o, e2) := on_stream (id, OutputStderr) stream_flush o in
  (o, errors_Join [e1; e2]).

Definition plain_Show (event : Event) (now : Z) (o : PlainTextOutput) : PlainTextOutput * option error :=
  if closed o then (o, Some (ErrText "plain output is closed"))
  else match event with
       | EventOutput id kind contents =>
           match streams o !! (id, kind) with
           | None => (o, Some (ErrText "plain output received an unknown transfer or non-pipe stream"))
           | Some _ => on_stream (id, kind) (stream_accept contents now) o
           end
       | EventStatus status =>
           match transfers o !! status_transfer status with
           | None => (o, Some (ErrText "plain output received status for an unknown transfer"))
           | Some _ => if status_state status =? TransferExited then flushTransfer (status_transfer status) o else (o, None)
           end
       | EventFinal _ => (o, Some (ErrText "plain output received an unsupported event"))
       end.

Fixpoint flush_all (numbers : list Z) (o : PlainTextOutput) : PlainTextOutput * list (option error) :=
  match numbers with
  | [] => (o, [])
  | n :: numbers =>
      let '(o, e) := flushTransfer (match number_New n with Ok id => id | Err _ => number_zero end) o in
      let '(o, es) := flush_all numbers o in (o, e :: es)
  end.

Definition plain_Close (o : PlainTextOutput) : PlainTextOutput * option error :=
  if closed o then (o, None)
  else
    let o := MkPlain (beginFinalization (stdout o)) (beginFinalization (stderr o)) (transfers o) (streams o) true in
    let '(o, es) := flush_all (seqZ 1 (Z.of_nat (size (transfers o)))) o in
    (o, errors_Join es).
End PlainOutput.

(** * The proofs

    Every method of a stream is [good]: it keeps the stream well formed, writes
    only whole lines of printable text, and, while no carriage return is
    involved, neither loses nor invents text. *)
(** ** Printable text *)
Definition byte_kept (b : byte) : bool :=
  (b2z b =? 0x09) || ((0x20 <=? b2z b) && negb (b2z b =? 0x7f)).

(** A shown rune all of whose bytes are kept: no control character. *)
Definition rune_printable (r : list byte) : bool := rune_shown r && forallb byte_kept r.

Inductive printable : list byte -> Prop :=
  | printable_nil : printable []
  | printable_rune r l : rune_printable r = true -> printable l -> printable (r ++ l).

Lemma printable_app l k : printable l -> printable k -> printable (l ++ k).
Proof. induction 1; simpl; [done|]. intros. rewrite <- app_assoc. by constructor; auto. Qed.

Lemma printable_one r : rune_printable r = true -> printable r.
Proof. intros H. rewrite <- (app_nil_r r). by constructor; [|constructor]. Qed.

Lemma printable_shown l : printable l -> shown l.
Proof.
  induction 1 as [|r l Hr _ IH]; [constructor|]. unfold rune_printable in Hr. bool_to_prop. by constructor.
Qed.

Lemma printable_Valid l : printable l -> Valid l = true.
Proof. intros H. by apply Valid_utf8, shown_utf8, printable_shown. Qed.

Lemma continuation_kept b : 0x80 <= b2z b -> byte_kept b = true.
Proof.
  intros H. unfold byte_kept. rewrite (proj2 (Z.leb_le _ _)), (proj2 (Z.eqb_neq _ 0x7f)) by lia. apply orb_true_r.
Qed.

Lemma filter_all_kept l : Forall (fun c => byte_kept c = true) l -> filter byte_kept l = l.
Proof. induction 1 as [|c l Hc _ IH]; [done|]. rewrite filter_cons, decide_True, IH by (by rewrite Hc). done. Qed.

(** A rune of several bytes is printable when it is shown. *)
Lemma wide_rune b rest :
  rune_shown (b :: rest) = true -> 0x80 <= b2z b ->
  rune_printable (b :: rest) = true /\ (length (b :: rest) <= 4)%nat /\ filter byte_kept (b :: rest) = b :: rest.
Proof.
  intros Hs Hb. pose proof Hs as Hs'. unfold rune_shown in Hs'. bool_to_prop.
  match goal with H : is_rune _ = true |- _ => rename H into Hr end.
  assert (Forall (fun c => byte_kept c = true) (b :: rest)) as Hk.
  { constructor; [by apply continuation_kept|]. eapply Forall_impl; [by eapply rune_tail_continuations|].
    intros c Hc. unfold continuation, in_byte in Hc. bool_to_prop. by apply continuation_kept. }
  split_and!.
  - unfold rune_printable. rewrite Hs. apply forallb_forall. intros c Hc%list_elem_of_In. rewrite Forall_forall in Hk. by apply Hk.
  - by destruct (is_rune_length _ Hr) as (? & ? & _ & _ & ?); lia.
  - by apply filter_all_kept.
Qed.

(** The longest line written. *)
Definition line_good (l : list byte) : Prop := printable l /\ zlen l <= maximumLogicalLineBytes.

(** ** What a writer received *)
Section Proofs.
Context {W : Type} `{!Writer W} `{!WriterLaws W}.

Definition render (prefix : string) (lines : list (list byte)) : list byte :=
  mjoin ((fun l => bytes_of prefix ++ l ++ [x0a]) <$> lines).

(** [text] was written after [w], up to the first error. *)
Definition received (text : list byte) (w w' : synchronizedWriter (W := W)) : Prop :=
  match writeErr w, writeErr w' with
  | Some e, e' => e' = Some e /\ delivered (writer w') = delivered (writer w)
  | None, None => delivered (writer w') = delivered (writer w) ++ text
  | None, Some _ => exists k, delivered (writer w') = delivered (writer w) ++ take k text
  end.

Lemma received_nil w : received [] w w.
Proof. unfold received. destruct (writeErr w); [done|]. by rewrite app_nil_r. Qed.

Lemma received_app t1 t2 w w1 w2 : received t1 w w1 -> received t2 w1 w2 -> received (t1 ++ t2) w w2.
Proof.
  unfold received. intros H1 H2. destruct (writeErr w) as [e|].
  - destruct H1 as [E1 D1]. rewrite E1 in H2. destruct H2 as [E2 D2]. split; congruence.
  - destruct (writeErr w1) as [e|].
    + destruct H2 as [-> D2]. destruct H1 as [k D1]. exists (min k (length t1)). rewrite D2, D1.
      rewrite take_app_le by lia. f_equal. destruct (Nat.le_ge_cases k (length t1)); [by rewrite Nat.min_l|].
      by rewrite Nat.min_r, !take_ge by lia.
    + destruct (writeErr w2).
      * destruct H2 as [k D2]. exists (length t1 + k)%nat. rewrite D2, H1, take_app_add, app_assoc. done.
      * by rewrite H2, H1, app_assoc.
Qed.

Lemma render_app prefix l k : render prefix (l ++ k) = render prefix l ++ render prefix k.
Proof. unfold render. by rewrite fmap_app, join_app. Qed.

Lemma writeLine_received prefix l w :
  Valid l = true -> let '(w', e) := writeLine prefix l w in
  received (render prefix [l]) w w' /\ (writeErr w = None -> e = writeErr w').
Proof.
  intros Hv. assert (render prefix [l] = bytes_of prefix ++ l ++ [x0a]) as -> by (apply app_nil_r).
  unfold writeLine, received.
  destruct (writeErr w) as [e|] eqn:E; [simpl; by rewrite E|].
  destruct (writeFull (writer w) (line_contents prefix l)) as [w' e] eqn:Ew. simpl.
  apply writeFull_spec in Ew as (k & Hk & Hd & He). unfold line_contents in *. rewrite (ToValidUTF8_id l) in * by done.
  split; [|done]. destruct e as [e|]; [by exists k|].
  rewrite Hd, He by done. by rewrite take_ge by done.
Qed.

(** ** Methods of a stream *)
Record stream_ok (s : outputStream) : Prop := {
  ok_line : line_good (line s);
  ok_progress : line_good (progress s);
  ok_sanitizer : pending_rune (stream_sanitizer s)
}.

Definition same_target (s s' : outputStream) : Prop :=
  stream_prefix s' = stream_prefix s /\ on_stderr s' = on_stderr s.

(** The outcome of a method: [z] is the sanitizer a success leaves, [text] what
    the method adds to the stream when no carriage return is involved. *)
Record outcome (z : terminalSanitizer) (text : option (list byte)) (s : outputStream) (w : synchronizedWriter)
    (s' : outputStream) (w' : synchronizedWriter) (e : option error) (lines : list (list byte)) : Prop := {
  out_ok : stream_ok s';
  out_target : same_target s s';
  out_sanitizer : e = None -> stream_sanitizer s' = z;
  out_lines : Forall line_good lines;
  out_received : received (render (stream_prefix s) lines) w w';
  out_error : writeErr w = None -> e = writeErr w';
  out_text : forall t, text = Some t -> progress s = [] ->
    progress s' = [] /\ (e = None -> mjoin lines ++ line s' = line s ++ t)
}.

Definition result_of (z : terminalSanitizer) (text : option (list byte)) (s : outputStream)
    (w : synchronizedWriter) (r : outputStream * synchronizedWriter (W := W) * option error) : Prop :=
  let '(s', w', e) := r in exists lines, outcome z text s w s' w' e lines.

Definition good (text : option (list byte)) (f : step) : Prop :=
  forall s w, stream_ok s -> result_of (stream_sanitizer s) text s w (f s w).

Definition join_text (t1 t2 : option (list byte)) : option (list byte) :=
  match t1, t2 with Some a, Some b => Some (a ++ b) | _, _ => None end.

Lemma join_text_nil t : join_text (Some []) t = t.
Proof. by destruct t. Qed.

Lemma join_text_nil_r t : join_text t (Some []) = t.
Proof. destruct t; simpl; [by rewrite app_nil_r|done]. Qed.

(** Two methods in sequence; the second runs only where the first succeeded. *)
Lemma result_then z1 z2 t1 t2 (f g : step) s w :
  result_of z1 t1 s w (f s w) ->
  (forall s1 w1, f s w = (s1, w1, None) -> stream_ok s1 -> stream_sanitizer s1 = z1 ->
     result_of z2 t2 s1 w1 (g s1 w1)) ->
  result_of z2 (join_text t1 t2) s w (then_ f g s w).
Proof.
  intros Hf Hg. unfold then_. destruct (f s w) as [[s1 w1] e1] eqn:Ef.
  destruct Hf as (l1 & [O1 T1 S1 L1 R1 E1 X1]). destruct e1 as [e1|].
  - exists l1. constructor; try done. intros t Ht Hp. split; [|done].
    destruct t1 as [a|], t2 as [b|]; try done. by apply (X1 a eq_refl Hp).
  - specialize (Hg s1 w1 eq_refl O1 (S1 eq_refl)). destruct (g s1 w1) as [[s2 w2] e2].
    destruct Hg as (l2 & [O2 T2 S2 L2 R2 E2 X2]).
    exists (l1 ++ l2). destruct T1 as [P1 B1], T2 as [P2 B2]. constructor.
    + done.
    + split; congruence.
    + done.
    + by apply Forall_app.
    + rewrite render_app. rewrite P1 in R2. by eapply received_app.
    + intros Hn. apply E2. by rewrite <- E1.
    + intros t Ht Hp. destruct t1 as [a|], t2 as [b|]; try done. simpl in Ht. injection Ht as <-.
      destruct (X1 a eq_refl Hp) as [Hp1 Ht1]. destruct (X2 b eq_refl Hp1) as [Hp2 Ht2]. split; [done|].
      intros He. rewrite join_app, <- app_assoc, (Ht2 He), !app_assoc. f_equal. by apply Ht1.
Qed.

Lemma good_then t1 t2 f g : good t1 f -> good t2 g -> good (join_text t1 t2) (then_ f g).
Proof.
  intros Hf Hg s w Hs. eapply result_then; [by apply Hf|]. intros s1 w1 _ Hs1 <-. by apply Hg.
Qed.

Lemma good_weaken t f : good t f -> good None f.
Proof.
  intros Hf s w Hs. specialize (Hf s w Hs). unfold result_of in *. destruct (f s w) as [[s' w'] e].
  destruct Hf as (l & []). by exists l; constructor.
Qed.

(** Changing the buffers without writing. *)
Lemma result_update z text s w s' :
  stream_ok s' -> same_target s s' -> stream_sanitizer s' = z ->
  (forall t, text = Some t -> progress s = [] -> progress s' = [] /\ line s' = line s ++ t) ->
  result_of z text s w (s', w, None).
Proof.
  intros Hs Ht Hz Hx. exists []. constructor; try done; [apply received_nil|].
  intros t Et Hp. by destruct (Hx t Et Hp) as [? ->].
Qed.

Lemma good_skip : good (Some []) (fun s w => (s, w, None)).
Proof. intros s w Hs. apply result_update; try done. intros t [= <-] Hp. by rewrite app_nil_r. Qed.

(** A line written, and the buffers after it when that succeeded. *)
Lemma result_write text s w (l : outputStream -> list byte) (f : outputStream -> outputStream) :
  stream_ok s -> line_good (l s) -> stream_ok (f s) -> same_target s (f s) ->
  stream_sanitizer (f s) = stream_sanitizer s ->
  (forall t, text = Some t -> progress s = [] -> progress (f s) = [] /\ l s ++ line (f s) = line s ++ t) ->
  result_of (stream_sanitizer s) text s w (then_ (write_line l) (update f) s w).
Proof.
  intros Hs Hl Hf Ht Hz Hx. unfold then_, write_line, update.
  pose proof (writeLine_received (stream_prefix s) (l s) w (printable_Valid _ (proj1 Hl))) as Hw.
  destruct (writeLine (stream_prefix s) (l s) w) as [w' e]. destruct Hw as [Hr He].
  destruct e as [e|]; exists [l s]; constructor; try done; try (by constructor).
  intros t Et Hp. destruct (Hx t Et Hp) as [? E]. split; [done|]. intros _.
  change (mjoin [l s]) with (l s ++ []). by rewrite app_nil_r.
Qed.

(** ** The methods are good *)
Lemma empty_line_good : line_good [].
Proof. split; [constructor|]. unfold zlen, maximumLogicalLineBytes. simpl. lia. Qed.

Lemma buffers_ok s l p pw sw last :
  stream_ok s -> line_good l -> line_good p -> stream_ok (set_buffers l p pw sw last s).
Proof. intros [] Hl Hp. by constructor. Qed.

Create HintDb plain.
#[local] Hint Resolve empty_line_good buffers_ok ok_line ok_progress : plain.
#[local] Ltac plain := try done; eauto with plain.

Lemma writeBufferedSegment_good : good (Some []) writeBufferedSegment.
Proof. intros s w Hs. apply result_write; plain. by intros t [= <-] _. Qed.

Lemma zlen_nonzero (l : list byte) : negb (zlen l =? 0) = bool_decide (l <> []).
Proof. rewrite zlen_zero. by do 2 case_bool_decide. Qed.

Lemma appendVisibleBytes_good r :
  rune_printable r = true -> (length r <= 4)%nat -> good (Some r) (appendVisibleBytes r).
Proof.
  intros Hr Hlen s w Hs. rewrite <- (join_text_nil (Some r)). unfold appendVisibleBytes.
  eapply (result_then (stream_sanitizer s)).
  { destruct (_ && _); [by apply writeBufferedSegment_good|by apply (good_skip s w)]. }
  intros s1 w1 E1 Hs1 Hz1. rewrite <- (join_text_nil_r (Some r)).
  assert (line_good (line s1 ++ r)) as Hline.
  { split; [apply printable_app; [apply Hs1|by apply printable_one]|]. revert E1. rewrite zlen_app, zlen_nonzero.
    assert (zlen r <= 4) by (unfold zlen; lia).
    destruct (bool_decide _ && _) eqn:Ec.
    - unfold writeBufferedSegment, then_, write_line, update. destruct (writeLine _ _ _) as [w' [e|]]; [done|].
      intros [= <- _]. simpl. change (zlen []) with 0. unfold maximumLogicalLineBytes. lia.
    - intros [= <- _]. bool_to_prop. destruct Ec as [->%bool_decide_eq_false_1%dec_stable|]; [|lia].
      change (zlen []) with 0. unfold maximumLogicalLineBytes. lia. }
  eapply (result_then (stream_sanitizer s)).
  { apply result_update; plain. by intros t [= <-]. }
  intros s2 w2 _ Hs2 <-. clear E1. destruct (_ <? _); [by apply (good_skip s2 w2)|by apply writeBufferedSegment_good].
Qed.

Lemma finishLine_good : good (Some []) finishLine.
Proof.
  intros s w Hs. unfold finishLine. rewrite !zlen_zero.
  assert (line s = [] -> forall t, Some [] = Some t -> progress s = [] -> @nil byte = [] /\ [] = line s ++ t) as Hnil.
  { intros -> t [= <-] _. done. }
  destruct (bool_decide_reflect (line s = [])) as [El|El], (progressWritten s); cbn [andb].
  1: apply result_update; unfold resetLogicalLine; plain.
  1: destruct (bool_decide _ && segmentWritten s); [apply result_update; unfold resetLogicalLine; plain|].
  all: apply result_write; unfold resetLogicalLine; plain; [destruct (_ && negb _); plain|].
  all: intros t [= <-] Hp; split; [done|]; rewrite !zlen_zero, (bool_decide_eq_true_2 (progress s = [])) by done;
    simpl; by rewrite andb_false_r.
Qed.

Lemma good_update f :
  (forall s, stream_ok s -> stream_ok (f s) /\ same_target s (f s) /\ stream_sanitizer (f s) = stream_sanitizer s) ->
  good None (update f).
Proof. intros Hf s w Hs. destruct (Hf s Hs) as (? & ? & ?). by apply result_update. Qed.

Lemma progressUpdate_good now : good None (progressUpdate now).
Proof.
  intros s w Hs. unfold progressUpdate, acceptCarriageReturnWithoutLine.
  repeat case_match; try (by apply result_update; plain).
  - apply result_write; plain.
  - set (hold := fun s => set_buffers [] (line s) false (segmentWritten s) (lastProgress s) s).
    rewrite <- (join_text_nil None). change (join_text (Some []) None) with (join_text None None).
    apply (result_then (stream_sanitizer s) _ None None (update hold) _ s w).
    { apply good_update; [|done]. intros s0 Hs0. unfold hold. split_and!; plain. }
    intros s1 w1 [= <- <-] Hs1 _. apply (result_write None (hold s)); plain.
Qed.

(** ** Text *)
Definition carriage_return (b : byte) : bool := b2z b =? 0x0d.

Definition text_of (visible : list byte) : option (list byte) :=
  if existsb carriage_return visible then None else Some (filter byte_kept visible).

Lemma text_of_app l k : text_of (l ++ k) = join_text (text_of l) (text_of k).
Proof.
  unfold text_of. rewrite existsb_app, filter_app.
  by destruct (existsb _ l), (existsb _ k).
Qed.

Lemma ascii_printable b : b2z b < 0x80 -> byte_kept b = true -> rune_printable [b] = true.
Proof.
  intros Ha Hk. unfold rune_printable. simpl. rewrite Hk. unfold rune_shown. simpl.
  assert (rune_size b = 1%nat) as ->.
  { unfold rune_size, in_byte. pose proof (b2z_range b). rewrite (proj2 (Z.leb_le 0 _)), (proj2 (Z.leb_le _ 0x7f)) by lia. done. }
  rewrite bool_decide_eq_true_2 by done. rewrite bool_decide_eq_false_2 by (by intros [= ->]).
  simpl. rewrite (proj2 (Z.leb_gt 0x80 _)) by lia. done.
Qed.

Lemma acceptVisible_good b now : b2z b < 0x80 -> good (text_of [b]) (acceptVisible b now).
Proof.
  intros Ha. unfold acceptVisible, text_of, carriage_return. rewrite filter_cons, filter_nil. simpl.
  destruct (Z.eqb_spec (b2z b) 0x0a) as [E|E].
  { rewrite E. simpl. rewrite decide_False by (unfold byte_kept; rewrite E; auto). apply finishLine_good. }
  destruct (Z.eqb_spec (b2z b) 0x0d) as [E'|E']; simpl; [apply progressUpdate_good|].
  assert (byte_kept b = true -> good (Some [b]) (appendVisibleBytes [b])) as Hkept.
  { intros Hk. apply appendVisibleBytes_good; [by apply ascii_printable|simpl; lia]. }
  case_decide as Hk.
  - apply Is_true_true in Hk. specialize (Hkept Hk). revert Hk. unfold byte_kept. by destruct (_ =? 9); [|destruct (_ && _)].
  - revert Hk. unfold byte_kept. destruct (_ =? 9); simpl; [by intros []|]. destruct (_ && _); [by intros []|]. intros _. apply good_skip.
Qed.

Lemma acceptSanitized_loop_good fuel visible now :
  shown visible -> (length visible <= fuel)%nat -> good (text_of visible) (acceptSanitized_loop fuel visible now).
Proof.
  intros Hv. revert fuel. induction Hv as [|r l Hr Hl IH]; intros fuel Hf; [by destruct fuel; apply good_skip|].
  pose proof Hr as Hr'. unfold rune_shown in Hr'. bool_to_prop.
  match goal with H : is_rune _ = true |- _ => rename H into Hrune end.
  destruct (is_rune_length _ Hrune) as (b & r' & -> & Hlen & _). rewrite text_of_app.
  destruct fuel as [|fuel]; [simpl in Hf; lia|].
  rewrite length_app in Hf. simpl in Hf.
  destruct (Z.ltb_spec (b2z b) 0x80) as [Ha|Ha].
  - assert (r' = []) as ->.
    { revert Hlen. unfold rune_size, in_byte. pose proof (b2z_range b).
      rewrite (proj2 (Z.leb_le 0 _)), (proj2 (Z.leb_le _ 0x7f)) by lia. by destruct r'. }
    simpl. rewrite (proj2 (Z.ltb_lt _ _)) by done.
    apply good_then; [by apply acceptVisible_good|]. apply IH. simpl in Hf. lia.
  - destruct (wide_rune _ _ Hr Ha) as (Hp & Hl4 & Hfil).
    cbn [acceptSanitized_loop app]. rewrite (proj2 (Z.ltb_ge _ _)) by done.
    change (b :: r' ++ l) with ((b :: r') ++ l). rewrite split_rune_app by done.
    apply good_then; [|apply IH; lia].
    assert (text_of (b :: r') = Some (b :: r')) as ->; [|by apply appendVisibleBytes_good].
    unfold text_of. rewrite Hfil. destruct (existsb _ _) eqn:Ex; [|done].
    apply existsb_exists in Ex as (c & Hc & Hcr). unfold rune_printable in Hp. bool_to_prop.
    match goal with H : forallb _ _ = true |- _ => rewrite forallb_forall in H; specialize (H _ Hc) end.
    unfold carriage_return, byte_kept in *. bool_to_prop. lia.
Qed.
(** Methods that replace the sanitizer first. *)
Lemma result_sanitizer z text s w r :
  result_of z text (set_sanitizer z s) w r -> result_of z text s w r.
Proof. unfold result_of. destruct r as [[s' w'] e]. intros (lines & []). by exists lines; constructor. Qed.

Lemma set_sanitizer_ok z s : pending_rune z -> stream_ok s -> stream_ok (set_sanitizer z s).
Proof. intros Hz []. by constructor. Qed.

Lemma accept_byte_result value now s w :
  stream_ok s -> let '(z, visible) := sanitizer_accept value (stream_sanitizer s) in
  result_of z (text_of visible) s w (accept_byte value now s w).
Proof.
  intros Hs. unfold accept_byte. destruct (sanitizer_accept value (stream_sanitizer s)) as [z visible] eqn:E.
  destruct (sanitizer_accept_shown _ _ _ _ (ok_sanitizer _ Hs) E) as (Hz & Hv & _).
  apply result_sanitizer. by apply (acceptSanitized_loop_good (length visible) visible now), set_sanitizer_ok.
Qed.

Lemma stream_accept_result content now s w :
  stream_ok s -> let '(z, visible) := sanitize content (stream_sanitizer s) in
  result_of z (text_of visible) s w (stream_accept content now s w).
Proof.
  revert s w. induction content as [|value content IH]; intros s w Hs; [by apply good_skip|].
  cbn [sanitize stream_accept]. pose proof (accept_byte_result value now s w Hs) as Hb.
  destruct (sanitizer_accept value (stream_sanitizer s)) as [z1 v1].
  destruct (sanitize content z1) as [z2 v2] eqn:E2. rewrite text_of_app.
  eapply result_then; [exact Hb|]. intros s1 w1 _ Hs1 Hz1. specialize (IH s1 w1 Hs1). by rewrite Hz1, E2 in IH.
Qed.

Lemma resetLogicalLine_good_update s w :
  stream_ok s -> result_of (stream_sanitizer s) None s w (resetLogicalLine s, w, None).
Proof. intros Hs. apply result_update; unfold resetLogicalLine; plain. Qed.

Lemma stream_flush_result s w :
  stream_ok s -> let '(z, visible) := sanitizer_finish (stream_sanitizer s) in
  result_of z (text_of visible) s w (stream_flush s w).
Proof.
  intros Hs. unfold stream_flush. pose proof (finish_shown (stream_sanitizer s)) as [Hz Hv].
  destruct (sanitizer_finish (stream_sanitizer s)) as [z visible]. simpl in Hz, Hv.
  apply result_sanitizer. rewrite <- (join_text_nil_r (text_of visible)).
  eapply (result_then z); [by apply (acceptSanitized_loop_good (length visible) visible 0), set_sanitizer_ok|].
  intros s1 w1 _ Hs1 <-. rewrite !zlen_nonzero.
  destruct (bool_decide_reflect (line s1 <> [])) as [Hl|Hl]; [by apply finishLine_good|].
  destruct (bool_decide _ && _); [by apply finishLine_good|].
  apply result_update; unfold resetLogicalLine; plain. intros t [= <-] _. split; [done|].
  by rewrite app_nil_r, (dec_stable Hl).
Qed.

(** After a flush no text is pending on the stream. *)
Lemma finishLine_clears s w s' w' : finishLine s w = (s', w', None) -> line s' = [].
Proof.
  unfold finishLine, then_, write_line, update.
  destruct (_ && progressWritten s); [by intros [= <- _]|]. destruct (_ && segmentWritten s); [by intros [= <- _]|].
  destruct (writeLine _ _ _) as [w1 [e|]]; [done|]. by intros [= <- _].
Qed.

Lemma stream_flush_clears s w s' w' : stream_flush s w = (s', w', None) -> line s' = [].
Proof.
  unfold stream_flush. destruct (sanitizer_finish _) as [z visible]. unfold then_.
  destruct (acceptSanitized _ _ _ _) as [[s1 w1] [e|]]; [done|].
  destruct (negb _); [apply finishLine_clears|]. destruct (_ && _); [apply finishLine_clears|]. by intros [= <- _].
Qed.
(** ** The whole output *)
(** The calls a supervisor client makes on the output, in any order. *)
Inductive call : Type := CallBegin | CallShow (event : Event) (now : Z) | CallClose.

Definition run_call (c : call) (o : PlainTextOutput) : PlainTextOutput * option error :=
  match c with
  | CallBegin => plain_Begin o
  | CallShow event now => plain_Show event now o
  | CallClose => plain_Close o
  end.

Definition run_calls (cs : list call) (o : PlainTextOutput (W := W)) : PlainTextOutput (W := W) :=
  foldl (fun o c => (run_call c o).1) o cs.

(** A line of the output: its prefix and its text. *)
Definition plain_line (ts : list Transfer) (l : string * list byte) : Prop :=
  line_good l.2 /\ (l.1 = "transferlanes: " \/ exists t, In t ts /\ l.1 = transfer_prefix t).

Definition render_lines (ls : list (string * list byte)) : list byte :=
  mjoin ((fun l => bytes_of l.1 ++ l.2 ++ [x0a]) <$> ls).

Lemma render_lines_app l k : render_lines (l ++ k) = render_lines l ++ render_lines k.
Proof. unfold render_lines. by rewrite fmap_app, join_app. Qed.

Lemma render_lines_prefix p ls : render p ls = render_lines ((fun l => (p, l)) <$> ls).
Proof. unfold render, render_lines. by rewrite <- list_fmap_compose. Qed.

Definition streams_ok (ts : list Transfer) (streams : gmap (Number * Z) outputStream) : Prop :=
  forall key s, streams !! key = Some s -> stream_ok s /\ exists t, In t ts /\ stream_prefix s = transfer_prefix t.

Definition plain_inv (ts : list Transfer) (o : PlainTextOutput (W := W)) : Prop :=
  streams_ok ts (streams o) /\ (size (transfers o) <= 255)%nat.

Definition wrote (ts : list Transfer) (w w' : synchronizedWriter (W := W)) : Prop :=
  exists ls, Forall (plain_line ts) ls /\ received (render_lines ls) w w'.

Lemma wrote_refl ts w : wrote ts w w.
Proof. exists []. split; [done|apply received_nil]. Qed.

Lemma wrote_trans ts w w1 w2 : wrote ts w w1 -> wrote ts w1 w2 -> wrote ts w w2.
Proof.
  intros (l1 & H1 & R1) (l2 & H2 & R2). exists (l1 ++ l2). split; [by apply Forall_app|].
  rewrite render_lines_app. by eapply received_app.
Qed.

Definition advance (ts : list Transfer) (o o' : PlainTextOutput (W := W)) : Prop :=
  plain_inv ts o -> plain_inv ts o' /\ wrote ts (stdout o) (stdout o') /\ wrote ts (stderr o) (stderr o').

Lemma advance_refl ts o : advance ts o o.
Proof. intros H. split_and!; [done|apply wrote_refl..]. Qed.

Lemma advance_trans ts o o1 o2 : advance ts o o1 -> advance ts o1 o2 -> advance ts o o2.
Proof.
  intros H1 H2 Hi. destruct (H1 Hi) as (Hi1 & A1 & B1). destruct (H2 Hi1) as (Hi2 & A2 & B2).
  split_and!; [done|by eapply wrote_trans..].
Qed.

Lemma on_stream_advance ts key f o :
  (forall s w, stream_ok s -> exists z t, result_of z t s w (f s w)) -> advance ts o (on_stream key f o).1.
Proof.
  intros Hf Hi. unfold on_stream. destruct (streams o !! key) as [s|] eqn:Ek; [|by apply advance_refl].
  destruct (proj1 Hi _ _ Ek) as (Hs & t & Ht & Hp).
  set (w := if on_stderr s then stderr o else stdout o). destruct (Hf s w Hs) as (z & x & Hr).
  destruct (f s w) as [[s' w'] e]. destruct Hr as (ls & [O T _ L R _ _]). simpl.
  assert (wrote ts w w') as Hw.
  { exists ((fun l => (stream_prefix s, l)) <$> ls). rewrite <- render_lines_prefix. split; [|done].
    apply Forall_fmap. eapply Forall_impl; [exact L|]. intros l Hl. split; [done|right]. by exists t. }
  split; [split; [|apply Hi]|].
  - intros key' s1. destruct (decide (key' = key)) as [->|Hne].
    + simpl. rewrite lookup_insert_eq. intros [= <-]. split; [done|]. exists t. destruct T as [-> _]. done.
    + simpl. rewrite lookup_insert_ne by done. apply (proj1 Hi).
  - subst w. destruct (on_stderr s); simpl; (split; [try apply wrote_refl|try apply wrote_refl]; done).
Qed.

Lemma flush_advance ts id o : advance ts o (flushTransfer id o).1.
Proof.
  assert (forall s w, stream_ok s -> exists z t, result_of z t s w (stream_flush s w)) as Hf.
  { intros s w Hs. pose proof (stream_flush_result s w Hs) as H. destruct (sanitizer_finish _) as [z v]. eauto. }
  unfold flushTransfer. pose proof (on_stream_advance ts (id, OutputStdout) stream_flush o Hf) as H1.
  destruct (on_stream _ _ o) as [o1 e1]. pose proof (on_stream_advance ts (id, OutputStderr) stream_flush o1 Hf) as H2.
  destruct (on_stream _ _ o1) as [o2 e2]. by eapply advance_trans.
Qed.

Lemma flush_all_advance ts ns o : advance ts o (flush_all ns o).1.
Proof.
  revert o; induction ns as [|n ns IH]; intros o; [apply advance_refl|]. cbn [flush_all].
  pose proof (flush_advance ts (match number_New n with Ok id => id | Err _ => number_zero end) o) as H1.
  destruct (flushTransfer _ o) as [o1 e1]. specialize (IH o1). destruct (flush_all ns o1) as [o2 es].
  by eapply advance_trans.
Qed.

Lemma ascii_text_printable l :
  forallb (fun b => (b2z b <? 0x80) && byte_kept b) l = true -> printable l.
Proof.
  induction l as [|b l IH]; [constructor|]. simpl. intros H. bool_to_prop.
  apply (printable_rune [b]); [apply ascii_printable; [lia|done]|by apply IH].
Qed.

Definition begin_line (n : nat) : list byte := bytes_of ("starting " +:+ pretty (Z.of_nat n) +:+ " transfers").

Lemma begin_lines_ascii :
  forallb (fun n => forallb (fun b => (b2z b <? 0x80) && byte_kept b) (begin_line n) && (zlen (begin_line n) <? 100))
    (seq 0 256) = true.
Proof. vm_compute. reflexivity. Qed.

Lemma begin_line_good n : (n <= 255)%nat -> line_good (begin_line n).
Proof.
  intros Hn. pose proof begin_lines_ascii as H. rewrite forallb_forall in H.
  specialize (H n). rewrite in_seq in H. specialize (H ltac:(lia)). bool_to_prop.
  split; [by apply ascii_text_printable|]. unfold maximumLogicalLineBytes. lia.
Qed.

Lemma begin_advance ts o : advance ts o (plain_Begin o).1.
Proof.
  intros Hi. unfold plain_Begin. destruct (closed o); [by apply advance_refl|]. fold (begin_line (size (transfers o))).
  assert (line_good (begin_line (size (transfers o)))) as Hl by (apply begin_line_good, Hi).
  set (l := begin_line _) in *.
  pose proof (writeLine_received "transferlanes: " l (stdout o) (printable_Valid _ (proj1 Hl))) as Hw.
  destruct (writeLine _ _ _) as [w e]. split_and!; [done| |apply wrote_refl].
  exists [("transferlanes: ", l)]. split; [|apply Hw]. constructor; [|constructor]. split; [done|by left].
Qed.

Lemma show_advance ts event now o : advance ts o (plain_Show event now o).1.
Proof.
  unfold plain_Show. destruct (closed o); [apply advance_refl|]. destruct event as [id kind contents|status|f].
  - destruct (streams o !! (id, kind)); [|apply advance_refl]. apply on_stream_advance. intros s w Hs.
    pose proof (stream_accept_result contents now s w Hs) as H. destruct (sanitize _ _) as [z v]. eauto.
  - destruct (transfers o !! _); [|apply advance_refl]. case_match; [apply flush_advance|apply advance_refl].
  - apply advance_refl.
Qed.

Lemma close_advance ts o : advance ts o (plain_Close o).1.
Proof.
  unfold plain_Close. destruct (closed o); [apply advance_refl|].
  match goal with |- context [flush_all ?ns ?o1] =>
    pose proof (flush_all_advance ts ns o1) as H; destruct (flush_all ns o1) as [o' es] end.
  intros Hi. by apply H.
Qed.

Lemma run_calls_advance ts cs o : advance ts o (run_calls cs o).
Proof.
  revert o; induction cs as [|c cs IH]; intros o; [apply advance_refl|]. cbn [run_calls foldl].
  eapply advance_trans; [|apply IH]. destruct c; [apply begin_advance|apply show_advance|apply close_advance].
Qed.

Lemma new_stream_ok t kind : stream_ok (new_stream t kind).
Proof. constructor; simpl; plain. Qed.

Lemma add_transfers_inv ts0 expected ts known0 streams0 known1 streams1 :
  (forall t, In t ts -> In t ts0) -> streams_ok ts0 streams0 ->
  add_transfers expected ts known0 streams0 = Ok (known1, streams1) ->
  streams_ok ts0 streams1 /\ (size known1 <= size known0 + length ts)%nat.
Proof.
  revert expected known0 streams0; induction ts as [|t ts IH]; intros expected known0 streams0 Hin Hs.
  { intros [= <- <-]. split; [done|lia]. }
  cbn [add_transfers]. destruct (_ || _); [done|]. destruct (bool_decide _); [done|]. intros Ha.
  apply IH in Ha as [H1 H2].
  - split; [done|]. pose proof (map_size_insert (number t) t known0) as Hz. revert Hz. simpl.
    destruct (known0 !! number t); unfold id; lia.
  - intros t' Ht'. apply Hin. by right.
  - intros key s. rewrite !lookup_insert_Some.
    assert (exists t', In t' ts0 /\ transfer_prefix t = transfer_prefix t') as Ht.
    { exists t. split; [apply Hin; by left|done]. }
    intros [[_ <-]|[_ [[_ <-]|[_ Hk]]]]; [split; [apply new_stream_ok|exact Ht]..|]. by eapply Hs.
Qed.

Lemma plain_New_inv out err ts o :
  plain_New out err ts = Ok o ->
  plain_inv ts o /\ stdout o = MkSyncWriter out None false /\ stderr o = MkSyncWriter err None false.
Proof.
  unfold plain_New. destruct (_ || _) eqn:Eb; [done|]. intros H. inv_result.
  match goal with v : (_ * _)%type |- _ => destruct v as [known streams0] end. inv_result.
  match goal with H : add_transfers _ _ _ _ = Ok _ |- _ => apply (add_transfers_inv ts) in H as [H1 H2] end; [|done|].
  - split; [|done]. split; [done|]. rewrite map_size_empty in H2. bool_to_prop. unfold Maximum, zlen in *. simpl. lia.
  - by intros key s; rewrite lookup_empty.
Qed.

(** What [w] holds after a run that began with it empty of errors. *)
Definition holds_lines (ts : list Transfer) (w : W) (w' : synchronizedWriter (W := W)) : Prop :=
  exists ls k, Forall (plain_line ts) ls /\
    delivered (writer w') = delivered w ++ take k (render_lines ls) /\
    (writeErr w' = None -> take k (render_lines ls) = render_lines ls).

Lemma wrote_holds ts w w' : wrote ts (MkSyncWriter w None false) w' -> holds_lines ts w w'.
Proof.
  intros (ls & Hls & Hr). unfold received in Hr. simpl in Hr. destruct (writeErr w') eqn:E.
  - destruct Hr as (k & Hk). exists ls, k. split_and!; [done|done|by rewrite E].
  - exists ls, (length (render_lines ls)). split_and!; [done| |]; by rewrite take_ge by done.
Qed.

(** C21. Whatever the children print, each of the two writers of the plain
    output holds whole lines, each with the prefix of a transfer or of the run
    and at most 64 KiB of printable text; after a write error it holds a
    prefix of them. *)
Theorem output_is_whole_printable_lines out err ts o cs (HN : plain_New out err ts = Ok o) :
  holds_lines ts out (stdout (run_calls cs o)) /\ holds_lines ts err (stderr (run_calls cs o)).
Proof.
  apply plain_New_inv in HN as (Hi & Ho & He). destruct (run_calls_advance ts cs o Hi) as (_ & A & B).
  rewrite Ho in A. rewrite He in B. by split; apply wrote_holds.
Qed.

(** ** No text is lost *)
(** The calls on one stream, read at different times, and its flush. *)
Definition accept_chunks (chunks : list (list byte * Z)) : step :=
  foldr (fun chunk k => then_ (stream_accept chunk.1 chunk.2) k) stream_flush chunks.

Definition sanitized (content : list byte) (z : terminalSanitizer) : terminalSanitizer * list byte :=
  let '(z1, v1) := sanitize content z in
  let '(z2, v2) := sanitizer_finish z1 in (z2, v1 ++ v2).

Lemma sanitized_app l k z :
  sanitized (l ++ k) z = let '(z1, v1) := sanitize l z in let '(z2, v2) := sanitized k z1 in (z2, v1 ++ v2).
Proof.
  unfold sanitized. rewrite sanitize_app. destruct (sanitize l z) as [z1 v1].
  destruct (sanitize k z1) as [z2 v2], (sanitizer_finish z2) as [z3 v3]. by rewrite app_assoc.
Qed.

Lemma accept_chunks_result chunks s w :
  stream_ok s -> let '(z, visible) := sanitized (mjoin (fst <$> chunks)) (stream_sanitizer s) in
  result_of z (text_of visible) s w (accept_chunks chunks s w).
Proof.
  revert s w; induction chunks as [|[content now] chunks IH]; intros s w Hs; [by apply stream_flush_result|].
  cbn [accept_chunks foldr fst snd].
  change (mjoin (fst <$> (content, now) :: chunks)) with (content ++ mjoin (fst <$> chunks)).
  pose proof (stream_accept_result content now s w Hs) as Hc. rewrite sanitized_app.
  destruct (sanitize content (stream_sanitizer s)) as [z1 v1].
  destruct (sanitized (mjoin (fst <$> chunks)) z1) as [z2 v2] eqn:E2. rewrite text_of_app.
  eapply result_then; [exact Hc|]. intros s1 w1 _ Hs1 Hz1. specialize (IH s1 w1 Hs1). by rewrite Hz1, E2 in IH.
Qed.

Lemma accept_chunks_clears chunks s w s' w' : accept_chunks chunks s w = (s', w', None) -> line s' = [].
Proof.
  revert s w; induction chunks as [|[content now] chunks IH]; intros s w; [apply stream_flush_clears|].
  cbn [accept_chunks foldr fst snd]. unfold then_. destruct (stream_accept content now s w) as [[s1 w1] [e|]]; [done|].
  apply IH.
Qed.

(** When a child prints no carriage return and no write fails, the lines
    its transfer's prefix introduces are together exactly the printable bytes
    of its sanitized output, whatever the pieces it arrived in. *)
Theorem no_text_is_lost t kind chunks w s' w'
    (Hr : accept_chunks chunks (new_stream t kind) w = (s', w', None))
    (Hw : writeErr w = None)
    (Hc : existsb carriage_return (sanitized (mjoin (fst <$> chunks)) new_sanitizer).2 = false) :
  exists lines,
    mjoin lines = filter byte_kept (sanitized (mjoin (fst <$> chunks)) new_sanitizer).2 /\
    delivered (writer w') = delivered (writer w) ++ render (transfer_prefix t) lines.
Proof.
  pose proof (accept_chunks_result chunks (new_stream t kind) w (new_stream_ok t kind)) as H.
  change (stream_sanitizer (new_stream t kind)) with new_sanitizer in H.
  destruct (sanitized _ new_sanitizer) as [z visible]. rewrite Hr in H. destruct H as (lines & [_ _ _ _ R E X]).
  exists lines. simpl in Hc |- *. unfold text_of in X. rewrite Hc in X. destruct (X _ eq_refl eq_refl) as [_ Ht].
  rewrite (accept_chunks_clears _ _ _ _ _ Hr) in Ht. specialize (Ht eq_refl). rewrite app_nil_r in Ht.
  split; [exact Ht|]. unfold received in R. rewrite Hw in R. by rewrite <- (E Hw) in R.
Qed.
End Proofs.

(** ** Concrete runs *)
Definition sample_transfer : Transfer := MkTransfer (MkNumber 1) (Addr4 0x0a000002).
Definition sample_chunks : list (list byte * Z) := [(bytes_of "hel", 1); ([x1b; x5b; x31; x6d; x6c; x6f; x0a; x21], 2)].

Definition sample_writer : synchronizedWriter (W := list byte) := MkSyncWriter [] None false.
Definition sample_result : outputStream * synchronizedWriter (W := list byte) * option error :=
  accept_chunks sample_chunks (new_stream sample_transfer OutputStdout) sample_writer.

Example sample_delivered :
  writer sample_result.1.2 = bytes_of "[1 10.0.0.2] hello" ++ [x0a] ++ bytes_of "[1 10.0.0.2] !" ++ [x0a].
Proof. vm_compute. reflexivity. Qed.

Lemma no_text_is_lost_witness :
  exists lines,
    mjoin lines = filter byte_kept (sanitized (mjoin (fst <$> sample_chunks)) new_sanitizer).2 /\
    delivered (writer sample_result.1.2) = delivered (writer sample_writer) ++ render (transfer_prefix sample_transfer) lines.
Proof.
  apply (no_text_is_lost sample_transfer OutputStdout sample_chunks sample_writer sample_result.1.1); vm_compute; reflexivity.
Defined.

Definition sample_plain : PlainTextOutput (W := list byte) :=
  match plain_New [] [] [sample_transfer] with Ok o => o | Err _ => MkPlain (MkSyncWriter [] None false) (MkSyncWriter [] None false) ∅ ∅ true end.

Example sample_plain_new : plain_New [] [] [sample_transfer] = Ok sample_plain.
Proof. vm_compute. reflexivity. Qed.

Definition sample_calls : list call :=
  [CallBegin; CallShow (EventOutput (MkNumber 1) OutputStdout (bytes_of "hi")) 5; CallClose].

Lemma output_is_whole_printable_lines_witness :
  plain_New [] [] [sample_transfer] = Ok sample_plain /\
  holds_lines [sample_transfer] [] (stdout (run_calls sample_calls sample_plain)) /\
  holds_lines [sample_transfer] [] (stderr (run_calls sample_calls sample_plain)).
Proof.
  split; [exact sample_plain_new|].
  exact (output_is_whole_printable_lines [] [] [sample_transfer] sample_plain sample_calls sample_plain_new).
Defined.
