(* ===== verification/RunId.v ===== *)
(** * Run identities

    [runid/id.go]: a run is named by sixteen random bytes, not all zero, and
    its directory by their lower-case hexadecimal form.  Random bytes are a
    parameter: the answers of successive reads. *)
From S2P Require Import Prelude Utf8 GoText Hashing.

Definition encodedLength : Z := 32.
Definition ErrInvalid : error := ErrText "invalid run ID".

(** [ID]: an array of sixteen bytes. *)
Record ID : Type := MkID { id_bytes : list byte }.

#[export] Instance ID_eq_dec : EqDecision ID.
Proof. solve_decision. Defined.

Definition id_wf (id : ID) : Prop := length (id_bytes id) = 16%nat.
Definition zero_ID : ID := MkID (replicate 16 x00).

Definition isLowerHex (b : byte) : bool :=
  ((b2z b >=? 0x30) && (b2z b <=? 0x39)) || ((b2z b >=? 0x61) && (b2z b <=? 0x66)).

(** The loop over the runes of [value]: a byte outside ASCII starts a rune that
    is no digit, so the loop fails exactly when a byte is no digit. *)
Definition Parse (value : string) : result ID :=
  if negb (slen value =? encodedLength) then Err ErrInvalid
  else if negb (forallb isLowerHex (bytes_of value)) then Err ErrInvalid
  else match hex_decode (bytes_of value) with
       | None => Err ErrInvalid
       | Some raw => if bool_decide (MkID raw = zero_ID) then Err ErrInvalid else Ok (MkID raw)
       end.

Definition IDString (id : ID) : string := EncodeToString (id_bytes id).

(** [New]: it reads until the bytes are not all zero.  The reads are a stream
    of answers; a result is produced within as many rounds as there are. *)
Fixpoint New (random : list (result (list byte))) : option (result ID) :=
  match random with
  | [] => None
  | Err e :: _ => Some (Err (ErrWrap "generate run ID" e))
  | Ok raw :: random => if bool_decide (MkID raw = zero_ID) then New random else Some (Ok (MkID raw))
  end.

(** ** Proofs *)
Lemma isLowerHex_lower b : isLowerHex b = lower_hex b.
Proof. unfold isLowerHex, lower_hex. by rewrite !Z.geb_leb. Qed.

Lemma hex_char_lower d : 0 <= d < 16 -> isLowerHex (hex_char d) = true.
Proof.
  intros H. assert (d ∈ seqZ 0 16) as Hd by (apply elem_of_seqZ; lia). clear H. revert d Hd.
  apply Forall_forall. by repeat (constructor; [reflexivity|]).
Qed.

Lemma hex_bytes_lower l : forallb isLowerHex (hex_bytes l) = true.
Proof.
  induction l as [|b l IH]; [done|]. unfold hex_bytes. rewrite fmap_cons, mjoin_cons, forallb_app. fold (hex_bytes l).
  rewrite IH. simpl. pose proof (b2z_range b). rewrite !hex_char_lower by (Z.to_euclidean_division_equations; lia). done.
Qed.

Lemma IDString_length id : id_wf id -> slen (IDString id) = 32.
Proof. intros H. unfold IDString, EncodeToString. rewrite slen_text_of. unfold zlen. rewrite hex_bytes_length, H. done. Qed.

Lemma IDString_inj a b : IDString a = IDString b -> a = b.
Proof.
  unfold IDString, EncodeToString. intros H. apply (f_equal bytes_of) in H. rewrite !bytes_of_text_of in H.
  apply hex_bytes_inj in H. by destruct a, b; simpl in H; subst.
Qed.

(** The text of a run identity names it: an identity a run can have is read
    back from its text, and whatever text is accepted is the text of the
    identity it is read as, which has sixteen bytes that are not all zero.  So
    two run directories never name one run. *)
Theorem run_id_round_trip :
  (forall id, id_wf id -> id <> zero_ID -> Parse (IDString id) = Ok id) /\
  (forall value id, Parse value = Ok id <-> id_wf id /\ id <> zero_ID /\ value = IDString id).
Proof.
  assert (forall id, id_wf id -> id <> zero_ID -> Parse (IDString id) = Ok id) as H1.
  { intros id Hw Hz. unfold Parse. rewrite IDString_length by done. change (negb (32 =? encodedLength)) with false. cbv iota.
    unfold IDString, EncodeToString. rewrite bytes_of_text_of, hex_bytes_lower, hex_decode_bytes. simpl.
    destruct id as [raw]. by rewrite bool_decide_eq_false_2. }
  split; [done|]. intros value id. split; [|intros (? & ? & ->); by apply H1].
  unfold Parse. destruct (slen value =? encodedLength) eqn:El; [|done]. simpl.
  destruct (forallb isLowerHex (bytes_of value)) eqn:Eh; [|done]. simpl.
  destruct (hex_bytes_decode 16 (bytes_of value)) as (raw & -> & Er & Lr).
  { apply Z.eqb_eq in El. unfold slen, zlen, encodedLength in El. lia. }
  { rewrite forallb_forall in Eh |- *. intros b Hb. rewrite <- isLowerHex_lower. by apply Eh. }
  case_bool_decide as Ez; [done|]. intros [= <-]. split_and!; [done|done|].
  unfold IDString, EncodeToString. simpl. by rewrite Er, text_of_bytes_of.
Qed.
