(* ===== verification/HostAllocation.v ===== *)
(** * Host network allocation

    [hostnetwork/allocation.go] and the identity checks of [hostnetwork/nft.go]:
    what a run reserves on the host (a return table, a protocol, a firewall
    identity and, per transfer, a link, two rule priorities and a /30 subnet)
    against an inventory of what the host already uses. *)
From S2P Require Import Prelude Sorting TransferNumber GoText Netip Hashing RunId.

Definition linkOwnerBytes : nat := 15.

(** [linkOwnerID] and [linkMAC]: arrays of fifteen and of six bytes. *)
Record linkOwnerID : Type := MkOwner { owner_bytes : list byte }.
Record linkMAC : Type := MkMAC { mac_bytes : list byte }.

#[export] Instance linkOwnerID_eq_dec : EqDecision linkOwnerID.
Proof. solve_decision. Defined.
#[export] Instance linkMAC_eq_dec : EqDecision linkMAC.
Proof. solve_decision. Defined.

Definition owner_wf (owner : linkOwnerID) : Prop := length (owner_bytes owner) = 15%nat.
Definition mac_wf (mac : linkMAC) : Prop := length (mac_bytes mac) = 6%nat.

Definition keyedLinkDigest (key : list byte) (domain : string) (transfer : Number) : list byte :=
  hmac_sha256 key (bytes_of domain ++ [x00; z2b (Value transfer)]).

(** The key of a token, when the token is one. *)
Definition token_key (ownerToken : string) : option (list byte) :=
  match DecodeString ownerToken with
  | Some key => if negb (zlen key =? 32) then None else Some key
  | None => None
  end.

Definition deriveLinkOwnerID (ownerToken : string) (transfer : Number) : result linkOwnerID :=
  match token_key ownerToken with
  | None => Err (ErrText "derive link owner from invalid network owner token")
  | Some key => Ok (MkOwner (take linkOwnerBytes (keyedLinkDigest key "transferlanes-link-owner-v1" transfer)))
  end.

Definition derivePeerMAC (ownerToken : string) (transfer : Number) : result linkMAC :=
  match token_key ownerToken with
  | None => Err (ErrText "derive peer MAC from invalid network owner token")
  | Some key => Ok (MkMAC (x06 :: take 5 (keyedLinkDigest key "transferlanes-link-peer-v1" transfer)))
  end.

Definition OwnerString (owner : linkOwnerID) : string := RawURLEncode (owner_bytes owner).

Definition parseLinkOwnerID (value : string) : result linkOwnerID :=
  match RawURLDecode value with
  | Some decoded =>
      if negb (length decoded =? linkOwnerBytes)%nat then Err (ErrText "link owner ID is invalid")
      else if negb (bool_decide (OwnerString (MkOwner decoded) = value)) then Err (ErrText "link owner ID is not canonical")
      else Ok (MkOwner decoded)
  | None => Err (ErrText "link owner ID is invalid")
  end.

Definition hostName (owner : linkOwnerID) : string := "w" +:+ RawURLEncode (take 10 (owner_bytes owner)).
Definition hostMAC (owner : linkOwnerID) : linkMAC := MkMAC (x02 :: drop 10 (owner_bytes owner)).

Definition linkOwnerIDFromHost (name : string) (mac : linkMAC) : result linkOwnerID :=
  if negb (slen name =? 15) || negb (bool_decide (bytes_of name !! 0%nat = Some x77))
     || negb (bool_decide (mac_bytes mac !! 0%nat = Some x02))
  then Err (ErrText "host link owner marker is invalid")
  else
    match RawURLDecode (sdrop 1 name) with
    | Some nameBytes =>
        if negb (length nameBytes =? 10)%nat then Err (ErrText "host link owner name is invalid")
        else
          let owner := MkOwner (nameBytes ++ drop 1 (mac_bytes mac)) in
          if negb (bool_decide (hostName owner = name)) || negb (bool_decide (hostMAC owner = mac))
          then Err (ErrText "host link owner marker is not canonical")
          else Ok owner
    | None => Err (ErrText "host link owner name is invalid")
    end.

(** [net.HardwareAddr.String]. *)
Definition MACString (mac : linkMAC) : string := Join ((fun b => EncodeToString [b]) <$> mac_bytes mac) ":".

Definition linkMACFromHardwareAddr (value : list byte) : result linkMAC :=
  if negb (zlen value =? 6) then Err (ErrText ("link has invalid MAC length " +:+ pretty (zlen value)))
  else Ok (MkMAC value).

Definition hardwareAddrEquals (value : list byte) (expected : linkMAC) : bool :=
  match linkMACFromHardwareAddr value with Ok actual => bool_decide (actual = expected) | Err _ => false end.

(** ** Proofs *)
Lemma deriveLinkOwnerID_wf token transfer owner : deriveLinkOwnerID token transfer = Ok owner -> owner_wf owner.
Proof.
  unfold deriveLinkOwnerID. destruct (token_key token); [|done]. intros H. apply Ok_inj in H as <-.
  unfold owner_wf, keyedLinkDigest. cbn [owner_bytes]. rewrite length_take, hmac_length. done.
Qed.

Lemma bytes_of_w s : bytes_of ("w" +:+ s) = x77 :: bytes_of s.
Proof. by rewrite bytes_of_app. Qed.

Lemma hostName_length owner : owner_wf owner -> slen (hostName owner) = 15.
Proof.
  intros H. unfold hostName, slen. rewrite bytes_of_w, zlen_cons. unfold RawURLEncode. rewrite bytes_of_text_of.
  unfold zlen. rewrite base64_encode_length by done. unfold zlen. rewrite length_take, H. done.
Qed.

Lemma host_marker_inj a b : hostName a = hostName b -> hostMAC a = hostMAC b -> a = b.
Proof.
  unfold hostName, hostMAC. intros H [= Hd]. apply (f_equal bytes_of) in H. rewrite !bytes_of_w in H.
  injection H as H. apply bytes_of_inj, RawURLEncode_inj in H.
  destruct a as [a], b as [b]; simpl in *. f_equal. by rewrite <- (take_drop 10 a), <- (take_drop 10 b), H, Hd.
Qed.

(** The marks a run leaves on the host identify their owner: every owner is
    read back from the name and hardware address it gives a link and from its
    text, nothing else is read as that owner, and the name always fits the
    kernel's fifteen bytes.  So no link of the host is taken for a link of a
    run unless it carries exactly the marks that run derives. *)
Theorem link_owner_marks_identify owner (Hw : owner_wf owner) :
  linkOwnerIDFromHost (hostName owner) (hostMAC owner) = Ok owner /\
  (forall name mac, linkOwnerIDFromHost name mac = Ok owner -> name = hostName owner /\ mac = hostMAC owner) /\
  parseLinkOwnerID (OwnerString owner) = Ok owner /\
  (forall value, parseLinkOwnerID value = Ok owner -> value = OwnerString owner) /\
  slen (hostName owner) = 15.
Proof.
  pose proof (hostName_length owner Hw) as Hl. split_and!.
  - unfold linkOwnerIDFromHost. rewrite Hl, !bool_decide_eq_true_2 by (unfold hostName; by rewrite ?bytes_of_w). simpl.
    assert (sdrop 1 (hostName owner) = RawURLEncode (take 10 (owner_bytes owner))) as ->.
    { unfold sdrop, hostName. rewrite bytes_of_w. simpl. rewrite drop_0. apply text_of_bytes_of. }
    rewrite RawURLDecode_Encode, length_take, Hw. simpl.
    rewrite drop_0, take_drop. destruct owner as [raw]. by rewrite !bool_decide_eq_true_2.
  - intros name mac H. unfold linkOwnerIDFromHost in H. ok_branches H. inv_result.
    match goal with E : _ || _ = false |- _ => bool_to_prop end. done.
  - unfold parseLinkOwnerID. unfold OwnerString at 1. rewrite RawURLDecode_Encode, Hw. simpl.
    destruct owner as [raw]. by rewrite bool_decide_eq_true_2.
  - intros value H. unfold parseLinkOwnerID in H. ok_branches H. inv_result. bool_to_prop. done.
  - done.
Qed.

Lemma link_owner_marks_identify_witness :
  linkOwnerIDFromHost "wAAECAwQFBgcICQ" (MkMAC [x02; x0a; x0b; x0c; x0d; x0e])
    = Ok (MkOwner [x00; x01; x02; x03; x04; x05; x06; x07; x08; x09; x0a; x0b; x0c; x0d; x0e]).
Proof.
  apply (link_owner_marks_identify
    (MkOwner [x00; x01; x02; x03; x04; x05; x06; x07; x08; x09; x0a; x0b; x0c; x0d; x0e])).
  reflexivity.
Defined.

Definition firstPriority : Z := 20000.
Definition lastPriority : Z := 29999.
Definition firstReturnTable : Z := 30000.
Definition lastReturnTable : Z := 39999.
Definition firstClaimProtocol : Z := 100.
Definition lastClaimProtocol : Z := 252.

(** 198.18.0.0/15. *)
Definition temporaryRange : Prefix := MkPrefix (Addr4 0xc6120000) 15.

Record egressSelection : Type := MkSelection {
  sel_transfer : Number;
  sel_source : Addr;
  sel_providerName : string;
  sel_providerIndex : Z;
  sel_routeTable : Z;
  sel_gateway : Addr;
  sel_hasGateway : bool
}.

(** ** Firewall facts *)
Definition firewallNFTables : string := "nftables".
Definition firewallIPTables : string := "iptables".
Definition iptablesFrontendNFT : string := "nf_tables".
Definition iptablesFrontendLegacy : string := "legacy".
Definition knownIPTablesFrontend (value : string) : bool :=
  bool_decide (value = iptablesFrontendNFT) || bool_decide (value = iptablesFrontendLegacy).

Definition nftConntrackPriority : Z := -200.
Definition iptablesSourceNATPriority : Z := 100.

Record nftForwardChain : Type := MkForwardChain { fc_family : string; fc_table : string; fc_name : string }.
Record nftPostroutingNATChain : Type := MkNATChain {
  nat_family : string;
  nat_table : string;
  nat_name : string;
  nat_priority : Z;
  nat_hasRules : bool
}.

#[export] Instance nftForwardChain_eq_dec : EqDecision nftForwardChain.
Proof. solve_decision. Defined.
#[export] Instance nftPostroutingNATChain_eq_dec : EqDecision nftPostroutingNATChain.
Proof. solve_decision. Defined.

Definition has_nul (s : string) : bool := contains_byte x00 s.

Definition validateNFTNATPriority (priority : Z) : option error :=
  if priority <=? nftConntrackPriority
  then Some (ErrText ("NAT priority " +:+ pretty priority +:+ " must be greater than conntrack priority " +:+ pretty nftConntrackPriority))
  else None.

Definition chain_identity_incomplete (family table name : string) : bool :=
  (negb (bool_decide (family = "ip")) && negb (bool_decide (family = "inet")))
  || bool_decide (table = "") || bool_decide (name = "") || has_nul table || has_nul name.

Fixpoint validate_nat_chains (index : Z) (identities : list (string * string * string)) (chains : list nftPostroutingNATChain)
    : option error :=
  match chains with
  | [] => None
  | chain :: chains =>
      if chain_identity_incomplete (nat_family chain) (nat_table chain) (nat_name chain)
      then Some (ErrText ("nftables postrouting NAT chain " +:+ pretty index +:+ " has incomplete identity"))
      else
        let identity := (nat_family chain, nat_table chain, nat_name chain) in
        match validateNFTNATPriority (nat_priority chain) with
        | Some e => Some (ErrWrap ("nftables postrouting NAT chain " +:+ nat_family chain +:+ "/" +:+ nat_table chain
                                     +:+ "/" +:+ nat_name chain) e)
        | None =>
            if bool_decide (identity ∈ identities)
            then Some (ErrText ("nftables postrouting NAT chain identity " +:+ nat_family chain +:+ "/"
                                  +:+ nat_table chain +:+ "/" +:+ nat_name chain +:+ " is duplicated"))
            else validate_nat_chains (index + 1) (identity :: identities) chains
        end
  end.

Definition validateNFTPostroutingNATChains (chains : list nftPostroutingNATChain) : option error :=
  validate_nat_chains 0 [] chains.

Definition nextNFTPostroutingPriority (chains : list nftPostroutingNATChain) : result Z :=
  check! validateNFTPostroutingNATChains chains in
  let earliest := foldl (fun earliest chain =>
    if nat_hasRules chain && (nat_priority chain <? earliest) then nat_priority chain else earliest)
    iptablesSourceNATPriority chains in
  if earliest <=? nftConntrackPriority + 1
  then Err (ErrText ("active nftables postrouting NAT priority " +:+ pretty earliest
                       +:+ " has no earlier kernel-supported NAT priority"))
  else Ok (earliest - 1).

Record firewallInventory : Type := MkFirewall {
  fw_kind : string;
  nftTableNames : gset string;
  nftForwardChains : list nftForwardChain;
  nftPostroutingNATChains : list nftPostroutingNATChain;
  transferlanesOwnerReferences : gset string;
  fw_iptablesFrontend : string;
  iptablesForwardActive : bool;
  iptablesPostroutingActive : bool
}.

(** ** Routing rules of the host *)
Definition ruleActionLookup : Z := 1.

Record routingRule : Type := MkRoutingRule {
  rr_priority : Z;
  rr_table : Z;
  rr_action : Z;
  rr_source : option Prefix;
  rr_destination : option Prefix;
  rr_inputInterface : string;
  rr_inverted : bool;
  rr_unknownSelector : bool;
  rr_unknownTypes : list Z;
  rr_builtinLocal : bool;
  rr_protocol : Z
}.

Record hostInventory : Type := MkInventory {
  linkNames : gset string;
  firewall : firewallInventory;
  priorities : gset Z;
  usedRouteTables : gset Z;
  localAddresses : gset Addr;
  routePrefixes : list Prefix;
  routingRules : list routingRule;
  usedProtocols : gset Z;
  conntrackOriginalSources : gset Addr
}.

(** ** The allocation *)
Record transferAllocation : Type := MkTransferAllocation {
  ta_transfer : Number;
  ta_number : Z;
  ta_source : Addr;
  ta_providerName : string;
  ta_providerIndex : Z;
  ta_routeTable : Z;
  ta_gateway : Addr;
  ta_hasGateway : bool;
  subnet : Prefix;
  hostIP : Addr;
  namespaceIP : Addr;
  outboundPriority : Z;
  returnPriority : Z;
  linkOwner : linkOwnerID;
  hostVeth : string;
  ta_hostMAC : linkMAC;
  peerVeth : string;
  ta_peerMAC : linkMAC
}.

Record networkAllocation : Type := MkNetworkAllocation {
  na_runID : ID;
  na_ownerToken : string;
  na_protocol : Z;
  na_backend : string;
  na_iptablesFrontend : string;
  na_firewallTable : string;
  na_nftPostroutingPriority : Z;
  na_returnTable : Z;
  na_forwardChains : list nftForwardChain;
  na_transfers : list transferAllocation
}.

Record allocationStarts : Type := MkStarts {
  st_ownerToken : string;
  st_protocol : Z;
  st_returnTable : Z;
  st_priority : Z;
  st_temporarySubnet : Z
}.

Definition startsFromOwnerToken (ownerToken : string) : allocationStarts :=
  let digest := Sum256 (bytes_of ownerToken) in
  MkStarts ownerToken (be_get (slice 0 4 digest)) (be_get (slice 4 8 digest)) (be_get (slice 8 12 digest))
    (be_get (slice 12 16 digest)).

Definition normalizedStart (start count : Z) : Z :=
  let value := Z.rem start count in if value <? 0 then value + count else value.

(** [for visited := 0; visited < n; visited++]: the first answer. *)
Fixpoint search {A} (n : nat) (visited : Z) (f : Z -> option A) : option A :=
  match n with
  | O => None
  | S n => match f visited with Some a => Some a | None => search n (visited + 1) f end
  end.

(** The shape of the next three: the first unused value of a range, cyclically. *)
Definition next_unused (used : gset Z) (first last start : Z) : option Z :=
  let count := last - first + 1 in
  search (Z.to_nat count) 0 (fun visited =>
    let value := first + Z.rem (normalizedStart start count + visited) count in
    if bool_decide (value ∈ used) then None else Some value).

Definition or_exhausted {A} (message : string) (value : option A) : result A :=
  match value with Some v => Ok v | None => Err (ErrText message) end.

Definition nextPriorityFrom (used : gset Z) (start : Z) : result Z :=
  or_exhausted "policy priority range is exhausted" (next_unused used firstPriority lastPriority start).
Definition nextReturnTableFrom (used : gset Z) (start : Z) : result Z :=
  or_exhausted "return route table range is exhausted" (next_unused used firstReturnTable lastReturnTable start).
(** The conversion to [uint8] keeps a value of the range. *)
Definition nextProtocolFrom (used : gset Z) (start : Z) : result Z :=
  or_exhausted "route/rule protocol range is exhausted" (next_unused used firstClaimProtocol lastClaimProtocol start).

Definition validProviderName (name : string) : bool :=
  negb (bool_decide (name = "")) && negb (bool_decide (name = ".")) && negb (bool_decide (name = ".."))
  && (slen name <=? 15) && negb (contains_byte x2f name || contains_byte x00 name).

(** Transfers are unique once the set is accepted, so the order [sort.Slice]
    leaves equal elements in does not matter. *)
Definition selection_less (left right : egressSelection) : bool := Value (sel_transfer left) <? Value (sel_transfer right).

Fixpoint check_selections (index : Z) (selections : list egressSelection) : option error :=
  match selections with
  | [] => None
  | value :: selections =>
      if negb (Value (sel_transfer value) =? wrap 8 (index + 1))
      then Some (ErrText ("selected egress set is missing transfer " +:+ pretty (index + 1)))
      else if negb (validProviderName (sel_providerName value)) || negb (Is4 (sel_source value))
              || IsUnspecified (sel_source value) || (sel_providerIndex value <=? 0) || (sel_routeTable value <=? 0)
              || (sel_hasGateway value && negb (Is4 (sel_gateway value)))
      then Some (ErrText ("transfer " +:+ pretty (Value (sel_transfer value)) +:+ " has incomplete egress facts"))
      else check_selections (index + 1) selections
  end.

Definition orderedSelections (selected : list egressSelection) : result (list egressSelection) :=
  if (zlen selected =? 0) || (Maximum <? zlen selected)
  then Err (ErrText ("host network requires 1.." +:+ pretty Maximum +:+ " selected egresses"))
  else
    let result := sort_by selection_less selected in
    check! check_selections 0 result in Ok result.

Definition firewallName (id : ID) : string := "transferlanes_" +:+ IDString id.

Definition rejectFirewallIdentityCollisions (id : ID) (inventory : hostInventory) : option error :=
  let fw := firewall inventory in
  if bool_decide (fw_kind fw = firewallNFTables) then
    if bool_decide (firewallName id ∈ nftTableNames fw)
    then Some (ErrText ("nft table identity " +:+ Quote (firewallName id) +:+ " already exists"))
    else if bool_decide (IDString id ∈ transferlanesOwnerReferences fw)
    then Some (ErrText ("nftables ownership comment for run " +:+ IDString id +:+ " already exists"))
    else None
  else if bool_decide (fw_kind fw = firewallIPTables) then
    if bool_decide (IDString id ∈ transferlanesOwnerReferences fw)
    then Some (ErrText ("iptables ownership comment for run " +:+ IDString id +:+ " already exists"))
    else None
  else Some (ErrText ("host inventory has unsupported firewall backend " +:+ Quote (fw_kind fw))).

(** The firewall identity by backend: table, NAT priority, forward chains and
    frontend. *)
Definition firewall_identity (id : ID) (fw : firewallInventory) : result (string * Z * list nftForwardChain * string) :=
  if bool_decide (fw_kind fw = firewallNFTables) then
    let* priority := nextNFTPostroutingPriority (nftPostroutingNATChains fw) in
    Ok (firewallName id, priority, nftForwardChains fw, "")
  else if bool_decide (fw_kind fw = firewallIPTables) then
    if negb (knownIPTablesFrontend (fw_iptablesFrontend fw))
    then Err (ErrText "host inventory has no verified iptables frontend")
    else Ok ("", 0, [], fw_iptablesFrontend fw)
  else Err (ErrText "host inventory has no selected firewall backend").

Definition allocateRunNetworkIdentity (id : ID) (selected : list egressSelection) (inventory : hostInventory)
    (starts : allocationStarts) : result networkAllocation :=
  let used := foldl (fun used selection => {[ sel_routeTable selection ]} ∪ used) (usedRouteTables inventory) selected in
  let* returnTable := nextReturnTableFrom used (st_returnTable starts) in
  let* protocol := nextProtocolFrom (usedProtocols inventory) (st_protocol starts) in
  let* '(table, priority, chains, frontend) := firewall_identity id (firewall inventory) in
  check! rejectFirewallIdentityCollisions id inventory in
  Ok (MkNetworkAllocation id (st_ownerToken starts) protocol (fw_kind (firewall inventory)) frontend table priority
        returnTable chains []).

(** ** Links *)
Record linkAllocation : Type := MkLinks {
  la_owner : linkOwnerID;
  la_hostName : string;
  la_hostMAC : linkMAC;
  la_peerName : string;
  la_peerMAC : linkMAC
}.

(** [%02x] of a number below 256 is the two digits of its byte. *)
Definition derivedPeerName (id : ID) (number : Z) : string :=
  "wrp" +:+ (stake 10 (IDString id) +:+ EncodeToString [z2b number]).

Definition transferLinks (id : ID) (ownerToken : string) (transfer : Number) : result linkAllocation :=
  let* owner := deriveLinkOwnerID ownerToken transfer in
  let* peerMAC := derivePeerMAC ownerToken transfer in
  Ok (MkLinks owner (hostName owner) (hostMAC owner) (derivedPeerName id (Value transfer)) peerMAC).

Definition reserveHostLinkName (used : gset string) (name : string) : result (gset string) :=
  if bool_decide (name ∈ used) then Err (ErrText ("host link identity " +:+ Quote name +:+ " already exists"))
  else Ok ({[ name ]} ∪ used).

Definition makeTransferAllocation (selected : egressSelection) (links : linkAllocation) (subnet : Prefix)
    (outboundPriority returnPriority : Z) : transferAllocation :=
  MkTransferAllocation (sel_transfer selected) (Value (sel_transfer selected)) (sel_source selected)
    (sel_providerName selected) (sel_providerIndex selected) (sel_routeTable selected) (sel_gateway selected)
    (sel_hasGateway selected) subnet (Next (prefix_ip subnet)) (Next (Next (prefix_ip subnet)))
    outboundPriority returnPriority (la_owner links) (la_hostName links) (la_hostMAC links) (la_peerName links)
    (la_peerMAC links).

(** ** Subnets *)
Definition overlapsAny (candidate : Prefix) (used : list Prefix) : bool :=
  existsb (fun prefix => PrefixIsValid prefix && Is4 (prefix_ip prefix) && (0 <? prefix_bits prefix)
                         && Overlaps candidate (Masked prefix)) used.

Definition containsAnyAddress (prefix : Prefix) (addresses : gset Addr) : bool :=
  existsb (fun address => Contains prefix (Unmap address)) (elements addresses).

(** [uint32] addition on the bytes of the address. *)
Definition addIPv4 (address : Addr) (offset : Z) : Addr := Addr4 (wrap 32 (addr_bits address + offset)).

Definition selects (selector : option Prefix) (address : Addr) : bool :=
  match selector with None => true | Some prefix => Contains prefix address end.
Definition names_interface (selector name : string) : bool :=
  bool_decide (selector = "") || bool_decide (selector = name).

Definition returnSourceMayMatch (source : option Prefix) (localAddresses : gset Addr) : bool :=
  match source with
  | None => true
  | Some prefix => if negb (prefix_bits prefix =? 32) then true else negb (bool_decide (prefix_ip prefix ∈ localAddresses))
  end.

Definition not_considered (rule : routingRule) (priority : Z) : bool :=
  rr_builtinLocal rule || (rr_priority rule <? 0) || (priority <=? rr_priority rule).

Definition preempts_return (allocation : transferAllocation) (localAddresses : gset Addr) (rule : routingRule) : bool :=
  if not_considered rule (returnPriority allocation) then false
  else
    let destinationMatches := selects (rr_destination rule) (namespaceIP allocation) in
    let interfaceMatches := names_interface (rr_inputInterface rule) (ta_providerName allocation) in
    if rr_inverted rule
    then negb destinationMatches || negb interfaceMatches || bool_decide (is_Some (rr_source rule)) || rr_unknownSelector rule
    else returnSourceMayMatch (rr_source rule) localAddresses && destinationMatches && interfaceMatches.

Definition hasPreemptingReturnRule (allocation : transferAllocation) (rules : list routingRule)
    (localAddresses : gset Addr) : bool := existsb (preempts_return allocation localAddresses) rules.

Definition preempts_outbound (allocation : transferAllocation) (rule : routingRule) : bool :=
  if not_considered rule (outboundPriority allocation) then false
  else
    let sourceMatches := selects (rr_source rule) (namespaceIP allocation) in
    let interfaceMatches := names_interface (rr_inputInterface rule) (hostVeth allocation) in
    if rr_inverted rule
    then negb sourceMatches || negb interfaceMatches || rr_unknownSelector rule
    else sourceMatches && interfaceMatches.

Definition hasPreemptingRule (allocation : transferAllocation) (rules : list routingRule) : bool :=
  existsb (preempts_outbound allocation) rules.

Definition candidateCount : Z := 2 ^ 17 / 4.

Definition candidate (start visited : Z) : Prefix :=
  let index := Z.rem (normalizedStart start candidateCount + visited) candidateCount in
  PrefixFrom (addIPv4 (prefix_ip temporaryRange) (index * 4)) 30.

Definition nextTemporarySubnetForTransferFrom (selected : egressSelection) (links : linkAllocation)
    (outboundPriority returnPriority : Z) (used : list Prefix) (rules : list routingRule)
    (localAddresses conntrackSources : gset Addr) (start : Z) : result Prefix :=
  or_exhausted "temporary IPv4 /30 range has no allocation safe from higher-priority RPDB rules"
    (search (Z.to_nat candidateCount) 0 (fun visited =>
       let candidate := candidate start visited in
       if overlapsAny candidate used || containsAnyAddress candidate conntrackSources then None
       else
         let allocation := makeTransferAllocation selected links candidate outboundPriority returnPriority in
         if negb (hasPreemptingRule allocation rules) && negb (hasPreemptingReturnRule allocation rules localAddresses)
         then Some candidate else None)).

(** ** All transfers *)
(** What the loop carries: the names, priorities and prefixes in use. *)
Record InUse : Type := MkInUse { names_used : gset string; priorities_used : gset Z; prefixes_used : list Prefix }.

Definition allocate_transfer (id : ID) (inventory : hostInventory) (local : gset Addr) (starts : allocationStarts)
    (selected : egressSelection) (u : InUse) : result (transferAllocation * InUse) :=
  let* links := transferLinks id (st_ownerToken starts) (sel_transfer selected) in
  let* names := reserveHostLinkName (names_used u) (la_hostName links) in
  let* outbound := nextPriorityFrom (priorities_used u) (st_priority starts) in
  let used := {[ outbound ]} ∪ priorities_used u in
  let* return_ := nextPriorityFrom used (st_priority starts) in
  let used := {[ return_ ]} ∪ used in
  let* subnet := nextTemporarySubnetForTransferFrom selected links outbound return_ (prefixes_used u)
                   (routingRules inventory) local (conntrackOriginalSources inventory) (st_temporarySubnet starts) in
  Ok (makeTransferAllocation selected links subnet outbound return_,
      MkInUse names used (prefixes_used u ++ [subnet])).

Fixpoint allocate_transfers (id : ID) (inventory : hostInventory) (local : gset Addr) (starts : allocationStarts)
    (selected : list egressSelection) (u : InUse) : result (list transferAllocation) :=
  match selected with
  | [] => Ok []
  | s :: selected =>
      let* '(t, u) := allocate_transfer id inventory local starts s u in
      let* ts := allocate_transfers id inventory local starts selected u in
      Ok (t :: ts)
  end.

Definition set_transfers (a : networkAllocation) (ts : list transferAllocation) : networkAllocation :=
  MkNetworkAllocation (na_runID a) (na_ownerToken a) (na_protocol a) (na_backend a) (na_iptablesFrontend a)
    (na_firewallTable a) (na_nftPostroutingPriority a) (na_returnTable a) (na_forwardChains a) ts.

Definition appendTransferAllocations (result : networkAllocation) (selected : list egressSelection)
    (inventory : hostInventory) (starts : allocationStarts) : Prelude.result networkAllocation :=
  let local := foldl (fun local s => {[ sel_source s ]} ∪ local) (localAddresses inventory) selected in
  let* ts := allocate_transfers (na_runID result) inventory local starts selected
               (MkInUse (linkNames inventory) (priorities inventory) (routePrefixes inventory)) in
  Ok (set_transfers result (na_transfers result ++ ts)).

Definition allocateNetworkWithStarts (id : ID) (selected : list egressSelection) (inventory : hostInventory)
    (starts : allocationStarts) : result networkAllocation :=
  let* ordered := orderedSelections selected in
  let* result := allocateRunNetworkIdentity id ordered inventory starts in
  appendTransferAllocations result ordered inventory starts.

Definition validOwnerToken (value : string) : bool :=
  (slen value =? 64) &&
  match DecodeString value with
  | Some decoded => (zlen decoded =? 32) && negb (bool_decide (decoded = replicate 32 x00))
  | None => false
  end.

(** [newOwnerToken] on the answers of successive reads of random bytes. *)
Fixpoint newOwnerToken (random : list (result (list byte))) : option (result string) :=
  match random with
  | [] => None
  | Err e :: _ => Some (Err (ErrWrap "generate network owner token" e))
  | Ok value :: random =>
      if bool_decide (value = replicate 32 x00) then newOwnerToken random else Some (Ok (EncodeToString value))
  end.

Definition allocateClaimNetwork (id : ID) (ownerToken : string) (selected : list egressSelection)
    (inventory : hostInventory) : result networkAllocation :=
  if negb (validOwnerToken ownerToken) then Err (ErrText "network owner token is invalid")
  else allocateNetworkWithStarts id selected inventory (startsFromOwnerToken ownerToken).
