(* ===== verification/HostAllocationProofs.v ===== *)
(** * Host network allocation: the proofs

    Searches are exhaustive, what a run reserves is used by nothing else on the
    host, and no rule of the host takes a reserved packet away from the rules
    the run installs. *)
From S2P Require Import Prelude Sorting TransferNumber GoText Netip Hashing RunId HostAllocation.

(** ** Cyclic searches *)
Lemma search_Some {A} n visited (f : Z -> option A) a :
  search n visited f = Some a -> exists k, visited <= k < visited + Z.of_nat n /\ f k = Some a.
Proof.
  revert visited; induction n as [|n IH]; intros visited; [done|]. simpl. destruct (f visited) as [b|] eqn:E.
  - intros [= <-]. exists visited. split; [lia|done].
  - intros (k & Hk & Hf)%IH. exists k. split; [lia|done].
Qed.

Lemma search_None {A} n visited (f : Z -> option A) :
  search n visited f = None <-> forall k, visited <= k < visited + Z.of_nat n -> f k = None.
Proof.
  revert visited; induction n as [|n IH]; intros visited; simpl; [split; [lia|done]|].
  destruct (f visited) as [b|] eqn:E.
  - split; [done|]. intros H. specialize (H visited ltac:(lia)). congruence.
  - rewrite IH. split; intros H k Hk; [|apply H; lia]. destruct (decide (k = visited)) as [->|]; [done|apply H; lia].
Qed.

Lemma normalizedStart_mod start count : 0 < count -> normalizedStart start count = start mod count.
Proof.
  intros H. unfold normalizedStart. destruct (Z.ltb_spec (Z.rem start count) 0) as [Hl|Hl].
  - pose proof (Z.rem_bound_abs start count ltac:(lia)). apply Z.mod_unique_pos with (q := Z.quot start count - 1).
    + lia.
    + pose proof (Z.quot_rem' start count). lia.
  - pose proof (Z.rem_bound_abs start count ltac:(lia)). pose proof (Z.quot_rem' start count).
    apply Z.mod_unique_pos with (q := Z.quot start count); lia.
Qed.

Lemma cyclic_rem start count visited :
  0 < count -> 0 <= visited -> Z.rem (normalizedStart start count + visited) count = (start + visited) mod count.
Proof.
  intros H Hv. rewrite normalizedStart_mod by done. pose proof (Z.mod_pos_bound start count H).
  rewrite Z.rem_mod_nonneg by lia. by rewrite Zplus_mod_idemp_l.
Qed.

Lemma cyclic_covers start count v :
  0 < count -> 0 <= v < count -> exists visited, 0 <= visited < count /\ Z.rem (normalizedStart start count + visited) count = v.
Proof.
  intros H Hv. exists ((v - start) mod count). pose proof (Z.mod_pos_bound (v - start) count H). split; [done|].
  rewrite cyclic_rem, Zplus_mod_idemp_r by lia. replace (start + (v - start)) with v by lia. by apply Z.mod_small.
Qed.

Lemma next_unused_Some used first last start v :
  first <= last -> next_unused used first last start = Some v -> first <= v <= last /\ v ∉ used.
Proof.
  intros Hr H. unfold next_unused in H. apply search_Some in H as (k & Hk & Hf). case_bool_decide as Hu; [done|].
  injection Hf as <-. split; [|done]. rewrite cyclic_rem by lia.
  pose proof (Z.mod_pos_bound (start + k) (last - first + 1) ltac:(lia)). lia.
Qed.

Lemma next_unused_None used first last start :
  first <= last -> next_unused used first last start = None <-> forall v, first <= v <= last -> v ∈ used.
Proof.
  intros Hr. unfold next_unused. rewrite search_None. split.
  - intros H v Hv. destruct (cyclic_covers start (last - first + 1) (v - first)) as (k & Hk & Ek); [lia..|].
    specialize (H k ltac:(lia)). rewrite Ek in H. case_bool_decide as Hu; [|done]. by replace (first + (v - first)) with v in Hu by lia.
  - intros H k Hk. rewrite bool_decide_eq_true_2; [done|]. apply H. rewrite cyclic_rem by lia.
    pose proof (Z.mod_pos_bound (start + k) (last - first + 1) ltac:(lia)). lia.
Qed.

Lemma or_exhausted_Ok {A} message (o : option A) a : or_exhausted message o = Ok a <-> o = Some a.
Proof. destruct o; simpl; split; congruence. Qed.

Lemma or_exhausted_failed {A} message (o : option A) : is_ok (or_exhausted message o) = false <-> o = None.
Proof. by destruct o. Qed.

(** ** Prefixes *)
Lemma top_bits_weaken a b n k :
  BitLen a = BitLen b -> 0 <= k <= n -> n <= BitLen a -> top_bits a n = top_bits b n -> top_bits a k = top_bits b k.
Proof.
  unfold top_bits. intros Hl Hk Hn H. rewrite <- Hl in *.
  replace (BitLen a - k) with ((BitLen a - n) + (n - k)) by lia.
  rewrite Z.pow_add_r by lia. rewrite <- !Z.div_div by lia. by rewrite H.
Qed.

Lemma top_bits_mask a n : 0 <= n <= BitLen a -> top_bits (mask_addr a n) n = top_bits a n /\ BitLen (mask_addr a n) = BitLen a.
Proof. unfold top_bits. destruct a; simpl; intros Hn; (split; [|done]); [done|..]; by rewrite Z.div_mul by lia. Qed.

Definition prefix_wf (p : Prefix) : Prop := 0 <= prefix_bits p <= BitLen (prefix_ip p).

Lemma Contains_spec p ip :
  Contains p ip = true <->
  0 <= prefix_bits p /\ has_zone ip = false /\ AddrIsValid ip = true /\ BitLen (prefix_ip p) = BitLen ip
  /\ top_bits (prefix_ip p) (prefix_bits p) = top_bits ip (prefix_bits p).
Proof. unfold Contains, PrefixIsValid. rewrite !andb_true_iff, negb_true_iff, Z.leb_le, !Z.eqb_eq. tauto. Qed.

Lemma Contains_Masked p ip : prefix_wf p -> Contains (Masked p) ip = Contains p ip.
Proof.
  intros Hw. unfold Masked, PrefixIsValid. rewrite (proj2 (Z.leb_le 0 _)) by apply Hw. unfold Contains, PrefixIsValid. simpl.
  destruct (top_bits_mask (prefix_ip p) (prefix_bits p) Hw) as [-> ->]. done.
Qed.

Lemma Overlaps_disjoint p q ip :
  prefix_wf p -> prefix_wf q -> Overlaps p q = false -> Contains p ip = true -> Contains q ip = false.
Proof.
  intros [Hp1 Hp2] [Hq1 Hq2] Ho Hc. destruct (Contains q ip) eqn:Hd; [|done].
  apply Contains_spec in Hc as (_ & _ & _ & Lp & Tp), Hd as (_ & _ & _ & Lq & Tq). unfold Overlaps, PrefixIsValid in Ho.
  rewrite !(proj2 (Z.leb_le 0 _)) in Ho by done. simpl in Ho. case_bool_decide; [done|].
  rewrite Lp, Lq, Z.eqb_refl in Ho. simpl in Ho. destruct (_ =? 0) eqn:E0; [done|]. apply Z.eqb_neq in Ho. exfalso. apply Ho.
  transitivity (top_bits ip (Z.min (prefix_bits p) (prefix_bits q))).
  - eapply top_bits_weaken; [|split; [|apply Z.le_min_l]|..]; try done; lia.
  - symmetry. eapply top_bits_weaken; [|split; [|apply Z.le_min_r]|..]; try done; lia.
Qed.

(** ** The /30 subnets of the temporary range *)
Definition slot_base (i : Z) : Z := 0xc6120000 + 4 * i.
Definition slot (i : Z) : Prefix := MkPrefix (Addr4 (slot_base i)) 30.
Definition slots : Z := 2 ^ 15.

Lemma candidate_slot start visited :
  0 <= visited -> candidate start visited = slot (Z.rem (normalizedStart start candidateCount + visited) candidateCount)
  /\ 0 <= Z.rem (normalizedStart start candidateCount + visited) candidateCount < slots.
Proof.
  intros Hv. assert (0 <= Z.rem (normalizedStart start candidateCount + visited) candidateCount < slots) as Hi.
  { rewrite cyclic_rem by done. by apply Z.mod_pos_bound. }
  split; [|done]. unfold candidate, slot, slot_base. cbv zeta. revert Hi. generalize (Z.rem (normalizedStart start candidateCount + visited) candidateCount).
  intros i Hi. unfold slots in Hi. unfold addIPv4, PrefixFrom. simpl. rewrite wrap_small by (unfold in_u; lia). do 2 f_equal. lia.
Qed.

Lemma slot_wf i : prefix_wf (slot i).
Proof. unfold prefix_wf. simpl. lia. Qed.

Lemma slot_Contains i v : Contains (slot i) (Addr4 v) = true <-> slot_base i / 4 = v / 4.
Proof. rewrite Contains_spec. unfold top_bits. simpl. change (2 ^ 2) with 4. intuition lia. Qed.

Lemma slot_members i : Contains (slot i) (Addr4 (slot_base i + 1)) = true /\ Contains (slot i) (Addr4 (slot_base i + 2)) = true.
Proof. rewrite !slot_Contains. unfold slot_base. split; Z.to_euclidean_division_equations; lia. Qed.

Lemma slot_inside i ip : 0 <= i < slots -> Contains (slot i) ip = true -> Contains temporaryRange ip = true.
Proof.
  intros Hi. rewrite !Contains_spec. intros (_ & Hz & Hv & Hl & Ht). split_and!; try done.
  destruct ip as [|v|v z]; simpl in Hl; try done. revert Ht. unfold top_bits. simpl. unfold slot_base, slots in *.
  Z.to_euclidean_division_equations. lia.
Qed.

Lemma slot_Next i : 0 <= i < slots ->
  Next (prefix_ip (slot i)) = Addr4 (slot_base i + 1) /\ Next (Next (prefix_ip (slot i))) = Addr4 (slot_base i + 2).
Proof.
  unfold slots. intros Hi. unfold slot, slot_base. cbn [prefix_ip Next].
  rewrite (proj2 (Z.eqb_neq _ _)) by lia. cbn [Next]. rewrite (proj2 (Z.eqb_neq _ _)) by lia. split; [done|]. f_equal. lia.
Qed.

Lemma slot_Masked i : Masked (slot i) = slot i.
Proof.
  unfold Masked, slot, mask_addr, slot_base. simpl. do 2 f_equal. Z.to_euclidean_division_equations. lia.
Qed.

(** Two prefixes with no common address. *)
Definition disjoint (p q : Prefix) : Prop := forall ip, Contains p ip = true -> Contains q ip = false.

(** The routes that keep a subnet from being used: every valid IPv4 prefix
    but the default one. *)
Definition excluding (q : Prefix) : Prop := prefix_wf q /\ Is4 (prefix_ip q) = true /\ 0 < prefix_bits q.

Lemma overlapsAny_disjoint p used q :
  prefix_wf p -> overlapsAny p used = false -> In q used -> excluding q -> disjoint p q.
Proof.
  intros Hp Ho Hq (Hw & H4 & Hb) ip Hc. unfold overlapsAny in Ho.
  assert (PrefixIsValid q && Is4 (prefix_ip q) && (0 <? prefix_bits q) && Overlaps p (Masked q) = false) as H.
  { destruct (_ && Overlaps p (Masked q)) eqn:E; [|done]. rewrite <- Ho. symmetry. apply existsb_exists. eauto. }
  unfold PrefixIsValid in H. rewrite H4, (proj2 (Z.leb_le 0 _)), (proj2 (Z.ltb_lt 0 _)) in H by (try apply Hw; lia). simpl in H.
  rewrite <- Contains_Masked by done. eapply Overlaps_disjoint; [exact Hp| |exact H|exact Hc].
  unfold Masked, PrefixIsValid. rewrite (proj2 (Z.leb_le 0 _)) by apply Hw. unfold prefix_wf. simpl.
  by destruct (top_bits_mask (prefix_ip q) (prefix_bits q) Hw) as [_ ->].
Qed.

Lemma containsAnyAddress_false p addresses ip :
  containsAnyAddress p addresses = false -> ip ∈ addresses -> Contains p (Unmap ip) = false.
Proof.
  unfold containsAnyAddress. intros H Hi. destruct (Contains p (Unmap ip)) eqn:E; [|done]. rewrite <- H. symmetry.
  apply existsb_exists. exists ip. split; [|done]. by apply list_elem_of_In, elem_of_elements.
Qed.

(** ** One subnet *)
(** The tests a subnet passes. *)
Definition slot_suitable (selected : egressSelection) (links : linkAllocation) (o r : Z) (used : list Prefix)
    (rules : list routingRule) (local conntrack : gset Addr) (i : Z) : bool :=
  negb (overlapsAny (slot i) used) && negb (containsAnyAddress (slot i) conntrack)
  && negb (hasPreemptingRule (makeTransferAllocation selected links (slot i) o r) rules)
  && negb (hasPreemptingReturnRule (makeTransferAllocation selected links (slot i) o r) rules local).

Lemma next_subnet_Ok selected links o r used rules local conntrack start p :
  nextTemporarySubnetForTransferFrom selected links o r used rules local conntrack start = Ok p ->
  exists i, 0 <= i < slots /\ p = slot i /\ slot_suitable selected links o r used rules local conntrack i = true.
Proof.
  unfold nextTemporarySubnetForTransferFrom. rewrite or_exhausted_Ok. intros (k & Hk & H)%search_Some.
  destruct (candidate_slot start k) as [E Hi]; [lia|]. cbv zeta in H. rewrite E in H. eexists. split; [exact Hi|].
  unfold slot_suitable. destruct (overlapsAny _ _ || _) eqn:Eo; [done|]. apply orb_false_iff in Eo as [-> ->].
  destruct (_ && _) eqn:Ea in H; [|done]. injection H as <-. by split.
Qed.

Lemma next_subnet_failed selected links o r used rules local conntrack start :
  is_ok (nextTemporarySubnetForTransferFrom selected links o r used rules local conntrack start) = false <->
  forall i, 0 <= i < slots -> slot_suitable selected links o r used rules local conntrack i = false.
Proof.
  unfold nextTemporarySubnetForTransferFrom. rewrite or_exhausted_failed, search_None.
  assert (forall k, 0 <= k -> let i := Z.rem (normalizedStart start candidateCount + k) candidateCount in
    (if overlapsAny (candidate start k) used || containsAnyAddress (candidate start k) conntrack then None
     else if negb (hasPreemptingRule (makeTransferAllocation selected links (candidate start k) o r) rules)
             && negb (hasPreemptingReturnRule (makeTransferAllocation selected links (candidate start k) o r) rules local)
          then Some (candidate start k) else None) = None
    <-> slot_suitable selected links o r used rules local conntrack i = false) as Hstep.
  { intros k Hk i. destruct (candidate_slot start k Hk) as [-> _]. fold i. unfold slot_suitable.
    destruct (overlapsAny _ _); [done|]. destruct (containsAnyAddress _ _); [done|]. simpl.
    by destruct (negb (hasPreemptingRule _ _)), (negb (hasPreemptingReturnRule _ _ _)). }
  split.
  - intros H i Hi. destruct (cyclic_covers start candidateCount i) as (k & Hk & <-); [done|exact Hi|].
    apply Hstep; [lia|]. apply H. rewrite Z2Nat.id by done. lia.
  - intros H k Hk. apply Hstep; [lia|]. apply H, candidate_slot. lia.
Qed.

(** C37. The allocator gives up only when nothing is left: a priority, a return
    table or a protocol is refused exactly when every value of its range is in
    use, and a subnet exactly when each of the 32768 /30 subnets of
    198.18.0.0/15 overlaps a used prefix, has a tracked connection or loses
    packets to a rule of the host, wherever the search starts. *)
Theorem searches_are_exhaustive used start :
  (is_ok (nextPriorityFrom used start) = false <-> forall v, 20000 <= v <= 29999 -> v ∈ used) /\
  (is_ok (nextReturnTableFrom used start) = false <-> forall v, 30000 <= v <= 39999 -> v ∈ used) /\
  (is_ok (nextProtocolFrom used start) = false <-> forall v, 100 <= v <= 252 -> v ∈ used) /\
  (forall selected links o r prefixes rules local conntrack,
     is_ok (nextTemporarySubnetForTransferFrom selected links o r prefixes rules local conntrack start) = false <->
     forall i, 0 <= i < 32768 ->
       let subnet := MkPrefix (Addr4 (0xc6120000 + 4 * i)) 30 in
       let allocation := makeTransferAllocation selected links subnet o r in
       overlapsAny subnet prefixes = true \/ containsAnyAddress subnet conntrack = true
       \/ hasPreemptingRule allocation rules = true \/ hasPreemptingReturnRule allocation rules local = true).
Proof.
  unfold nextPriorityFrom, nextReturnTableFrom, nextProtocolFrom.
  split; [|split; [|split]]; [rewrite or_exhausted_failed; by apply next_unused_None..|].
  intros selected links o r prefixes rules local conntrack. rewrite next_subnet_failed.
  split; intros H i Hi; specialize (H i Hi); revert H; cbv zeta; fold (slot_base i); fold (slot i); unfold slot_suitable;
    destruct (overlapsAny _ _), (containsAnyAddress _ _), (hasPreemptingRule _ _), (hasPreemptingReturnRule _ _ _);
    simpl; intuition done.
Qed.

(** ** The allocation of all transfers *)
(** What one transfer reserves, whatever the others do: its links and slot. *)
Record reserved_as (id : ID) (inventory : hostInventory) (local : gset Addr) (token : string)
    (selected : egressSelection) (t : transferAllocation) (links : linkAllocation) (i : Z) : Prop := {
  res_links : transferLinks id token (sel_transfer selected) = Ok links;
  res_range : 0 <= i < slots;
  res_made : t = makeTransferAllocation selected links (slot i) (outboundPriority t) (returnPriority t);
  res_outbound : firstPriority <= outboundPriority t <= lastPriority;
  res_return : firstPriority <= returnPriority t <= lastPriority;
  res_distinct : outboundPriority t <> returnPriority t;
  res_conntrack : containsAnyAddress (subnet t) (conntrackOriginalSources inventory) = false;
  res_rules : hasPreemptingRule t (routingRules inventory) = false;
  res_return_rules : hasPreemptingReturnRule t (routingRules inventory) local = false
}.

Definition reserves id inventory local token selected t : Prop :=
  exists links i, reserved_as id inventory local token selected t links i.

(** A transfer takes nothing that is in use. *)
Definition apart (t : transferAllocation) (u : InUse) : Prop :=
  (hostVeth t ∉ names_used u) /\ (outboundPriority t ∉ priorities_used u) /\ (returnPriority t ∉ priorities_used u) /\
  (forall q, In q (prefixes_used u) -> excluding q -> disjoint (subnet t) q).

(** Two transfers share nothing. *)
Definition compatible (t1 t2 : transferAllocation) : Prop :=
  hostVeth t1 <> hostVeth t2 /\
  (forall p, p = outboundPriority t1 \/ p = returnPriority t1 -> p <> outboundPriority t2 /\ p <> returnPriority t2) /\
  disjoint (subnet t1) (subnet t2).

Lemma disjoint_sym p q : disjoint p q -> disjoint q p.
Proof. intros H ip Hq. destruct (Contains p ip) eqn:E; [|done]. apply H in E. congruence. Qed.

Lemma slot_excluding i : excluding (slot i).
Proof. split_and!; [apply slot_wf|done|done]. Qed.

Lemma allocate_transfer_spec id inventory local starts s u t u' :
  allocate_transfer id inventory local starts s u = Ok (t, u') ->
  reserves id inventory local (st_ownerToken starts) s t /\ apart t u /\
  names_used u' = {[ hostVeth t ]} ∪ names_used u /\
  priorities_used u' = {[ returnPriority t ]} ∪ ({[ outboundPriority t ]} ∪ priorities_used u) /\
  prefixes_used u' = prefixes_used u ++ [subnet t].
Proof.
  unfold allocate_transfer. intros H. inv_result.
  match goal with H : transferLinks _ _ _ = Ok ?l |- _ => rename H into Hl, l into links end.
  match goal with H : reserveHostLinkName _ _ = Ok _ |- _ => rename H into Hn; unfold reserveHostLinkName in Hn end.
  case_bool_decide as Hname; [done|]. apply Ok_inj in Hn as <-.
  match goal with H : nextPriorityFrom (priorities_used u) _ = Ok ?v |- _ => rename H into Ho, v into o end.
  match goal with H : nextPriorityFrom (_ ∪ _) _ = Ok ?v |- _ => rename H into Hr, v into r end.
  unfold nextPriorityFrom in Ho, Hr. rewrite or_exhausted_Ok in Ho. rewrite or_exhausted_Ok in Hr.
  apply next_unused_Some in Ho as [Ho1 Ho2]; [|done]. apply next_unused_Some in Hr as [Hr1 Hr2]; [|done].
  match goal with H : nextTemporarySubnetForTransferFrom _ _ _ _ _ _ _ _ _ = Ok ?p |- _ => apply next_subnet_Ok in H as (i & Hi & -> & Hs) end.
  unfold slot_suitable in Hs. rewrite !andb_true_iff, !negb_true_iff in Hs. destruct Hs as (((Hov & Hct) & Hpr) & Hret).
  apply not_elem_of_union in Hr2 as [Hne Hr2]. rewrite elem_of_singleton in Hne. split; [|split; [|done]].
  - exists links, i. constructor; try done.
  - split_and!; [done..|]. intros q Hq Hx. by eapply overlapsAny_disjoint; [apply slot_wf|..].
Qed.

Lemma reserves_slot id inventory local token s t :
  reserves id inventory local token s t -> exists i, 0 <= i < slots /\ subnet t = slot i.
Proof. intros (links & i & [_ Hi Ht]). exists i. split; [done|]. by rewrite Ht. Qed.

Lemma allocate_transfers_spec id inventory local starts selected u ts :
  allocate_transfers id inventory local starts selected u = Ok ts ->
  Forall2 (reserves id inventory local (st_ownerToken starts)) selected ts /\
  Forall (fun t => apart t u) ts /\ ForallOrdPairs compatible ts.
Proof.
  revert u ts; induction selected as [|s selected IH]; intros u ts H.
  { apply Ok_inj in H as <-. split_and!; constructor. }
  cbn [allocate_transfers] in H. inv_result.
  match goal with p : (transferAllocation * InUse)%type |- _ => destruct p as [t u'] end. inv_result.
  match goal with H : allocate_transfer _ _ _ _ _ _ = Ok _ |- _ => apply allocate_transfer_spec in H as (Hr & Ha & En & Ep & Es) end.
  match goal with H : allocate_transfers _ _ _ _ _ _ = Ok ?l |- _ => rename l into ts; apply IH in H as (Hrs & Has & Hc) end.
  destruct (reserves_slot _ _ _ _ _ _ Hr) as (i & Hi & Esub).
  assert (Forall (fun t' => apart t' u /\ compatible t t') ts) as Hall.
  { eapply Forall_impl; [exact Has|]. intros t' (H1 & H2 & H3 & H4). rewrite En in H1. rewrite Ep in H2, H3. rewrite Es in H4.
    split; [split_and!; [set_solver..|]|split_and!; [set_solver|set_solver|]].
    - intros q Hq. apply H4. apply in_or_app. by left.
    - apply disjoint_sym, H4; [apply in_or_app; right; by left|]. rewrite Esub. apply slot_excluding. }
  split_and!; [by constructor| |].
  - constructor; [done|]. eapply Forall_impl; [exact Hall|]. by intros t' [].
  - constructor; [|done]. eapply Forall_impl; [exact Hall|]. by intros t' [].
Qed.

Lemma orderedSelections_spec selected ordered :
  orderedSelections selected = Ok ordered ->
  ordered ≡ₚ selected /\ check_selections 0 ordered = None /\ 0 < zlen ordered <= Maximum.
Proof.
  unfold orderedSelections. destruct (_ || _) eqn:E; [done|]. intros H. inv_result. bool_to_prop.
  pose proof (sort_by_perm selection_less selected) as Hp. split_and!; [done|done|..];
    unfold zlen in *; rewrite (Permutation_length Hp); lia.
Qed.

Lemma check_selections_spec index selections :
  check_selections index selections = None -> 0 <= index -> index + zlen selections <= 255 ->
  forall i s, selections !! i = Some s ->
    Value (sel_transfer s) = index + Z.of_nat i + 1 /\ validProviderName (sel_providerName s) = true /\
    Is4 (sel_source s) = true /\ IsUnspecified (sel_source s) = false /\ 0 < sel_providerIndex s /\
    0 < sel_routeTable s /\ (sel_hasGateway s = true -> Is4 (sel_gateway s) = true).
Proof.
  revert index; induction selections as [|x selections IH]; intros index H H0 Hb i s Hs; [done|].
  rewrite zlen_cons in Hb. pose proof (zlen_nonneg selections). cbn [check_selections] in H.
  destruct (negb _) eqn:E1 in H; [done|]. destruct (_ || _) eqn:E2 in H; [done|].
  destruct i as [|i]; [|apply (IH (index + 1)) in Hs; try done; try lia; replace (index + Z.of_nat (S i)) with (index + 1 + Z.of_nat i) by lia; exact Hs].
  injection Hs as ->. rewrite negb_false_iff, Z.eqb_eq, wrap_small in E1 by (unfold in_u; lia).
  rewrite !orb_false_iff, !negb_false_iff, !Z.leb_gt, andb_false_iff, negb_false_iff in E2. intuition (lia || congruence).
Qed.

Lemma foldl_union_subset {A} `{!EqDecision A, !Countable A} {B} (f : B -> A) (l : list B) (m : gset A) :
  foldl (fun m x => {[ f x ]} ∪ m) m l = list_to_set (f <$> l) ∪ m.
Proof. revert m; induction l as [|x l IH]; intros m; simpl; [set_solver|]. rewrite IH. set_solver. Qed.

(** What the run reserves once, of its identity and the inventory. *)
Lemma allocateRunNetworkIdentity_spec id selected inventory starts a :
  allocateRunNetworkIdentity id selected inventory starts = Ok a ->
  na_runID a = id /\ na_ownerToken a = st_ownerToken starts /\ na_transfers a = [] /\
  na_backend a = fw_kind (firewall inventory) /\
  firstReturnTable <= na_returnTable a <= lastReturnTable /\ (na_returnTable a ∉ usedRouteTables inventory) /\
  (na_returnTable a ∉ sel_routeTable <$> selected) /\
  firstClaimProtocol <= na_protocol a <= lastClaimProtocol /\ (na_protocol a ∉ usedProtocols inventory) /\
  firewall_identity id (firewall inventory)
    = Ok (na_firewallTable a, na_nftPostroutingPriority a, na_forwardChains a, na_iptablesFrontend a) /\
  rejectFirewallIdentityCollisions id inventory = None.
Proof.
  unfold allocateRunNetworkIdentity. intros H. inv_result. rewrite foldl_union_subset in *.
  match goal with H : nextReturnTableFrom _ _ = Ok _ |- _ => unfold nextReturnTableFrom in H; rewrite or_exhausted_Ok in H;
    apply next_unused_Some in H as [Ht1 Ht2]; [|done] end.
  match goal with H : nextProtocolFrom _ _ = Ok _ |- _ => unfold nextProtocolFrom in H; rewrite or_exhausted_Ok in H;
    apply next_unused_Some in H as [Hp1 Hp2]; [|done] end.
  match goal with p : (_ * _ * _ * _)%type |- _ => destruct p as [[[table priority] chains] frontend] end.
  inv_result. simpl. rewrite not_elem_of_union, elem_of_list_to_set in Ht2. destruct Ht2. done.
Qed.

Lemma allocateClaimNetwork_spec id token selected inventory a :
  allocateClaimNetwork id token selected inventory = Ok a ->
  exists ordered identity,
    validOwnerToken token = true /\ orderedSelections selected = Ok ordered /\
    allocateRunNetworkIdentity id ordered inventory (startsFromOwnerToken token) = Ok identity /\
    a = set_transfers identity (na_transfers a) /\
    allocate_transfers id inventory (list_to_set (sel_source <$> ordered) ∪ localAddresses inventory)
      (startsFromOwnerToken token) ordered (MkInUse (linkNames inventory) (priorities inventory) (routePrefixes inventory))
      = Ok (na_transfers a).
Proof.
  unfold allocateClaimNetwork, allocateNetworkWithStarts. destruct (validOwnerToken token) eqn:Et; [|done].
  cbn [negb]. intros H. inv_result.
  match goal with H : orderedSelections _ = Ok ?o, I : allocateRunNetworkIdentity _ _ _ _ = Ok ?n |- _ => exists o, n; rename H into Ho, I into Hi end.
  split_and!; [done..| |]; unfold appendTransferAllocations in H; rewrite foldl_union_subset in H;
    pose proof (allocateRunNetworkIdentity_spec _ _ _ _ _ Hi) as (E1 & _ & E3 & _); rewrite E1, E3 in H; inv_result; done.
Qed.

(** What a run takes from the host for one transfer is free there. *)
Definition free_on (inventory : hostInventory) (t : transferAllocation) : Prop :=
  (hostVeth t ∉ linkNames inventory) /\
  firstPriority <= outboundPriority t <= lastPriority /\ firstPriority <= returnPriority t <= lastPriority /\
  outboundPriority t <> returnPriority t /\
  (outboundPriority t ∉ priorities inventory) /\ (returnPriority t ∉ priorities inventory) /\
  prefix_bits (subnet t) = 30 /\ Masked (subnet t) = subnet t /\
  (forall ip, Contains (subnet t) ip = true -> Contains temporaryRange ip = true) /\
  Contains (subnet t) (hostIP t) = true /\ Contains (subnet t) (namespaceIP t) = true /\ hostIP t <> namespaceIP t /\
  (forall q, In q (routePrefixes inventory) -> excluding q -> disjoint (subnet t) q) /\
  (forall source, source ∈ conntrackOriginalSources inventory -> Contains (subnet t) (Unmap source) = false).

Lemma reserved_free id inventory local token s t :
  reserves id inventory local token s t ->
  apart t (MkInUse (linkNames inventory) (priorities inventory) (routePrefixes inventory)) -> free_on inventory t.
Proof.
  intros (links & i & [Hl Hi Ht Ho Hr Hd Hc _ _]) (A1 & A2 & A3 & A4).
  destruct (slot_Next i Hi) as [N1 N2]. destruct (slot_members i) as [M1 M2].
  assert (subnet t = slot i) as Es by (by rewrite Ht).
  assert (hostIP t = Addr4 (slot_base i + 1)) as E1 by (by rewrite Ht, <- N1).
  assert (namespaceIP t = Addr4 (slot_base i + 2)) as E2 by (by rewrite Ht, <- N2).
  unfold free_on. rewrite Es, E1, E2 in *. split_and!; try done; try apply Ho; try apply Hr.
  - apply slot_Masked.
  - intros ip. by apply slot_inside.
  - intros [= ?]. lia.
  - intros source Hs. by eapply containsAnyAddress_false.
Qed.

(** The facts of the selection the transfer carries. *)
Definition carries (s : egressSelection) (t : transferAllocation) : Prop :=
  ta_transfer t = sel_transfer s /\ ta_source t = sel_source s /\ ta_providerName t = sel_providerName s /\
  ta_providerIndex t = sel_providerIndex s /\ ta_routeTable t = sel_routeTable s /\
  ta_gateway t = sel_gateway s /\ ta_hasGateway t = sel_hasGateway s.

Lemma allocation_pairs id token selected inventory a :
  allocateClaimNetwork id token selected inventory = Ok a -> ForallOrdPairs compatible (na_transfers a).
Proof.
  intros HA. apply allocateClaimNetwork_spec in HA as (? & ? & _ & _ & _ & _ & Ht).
  by apply allocate_transfers_spec in Ht as (_ & _ & ?).
Qed.

Lemma allocation_free id token selected inventory a :
  allocateClaimNetwork id token selected inventory = Ok a ->
  forall t, In t (na_transfers a) -> free_on inventory t /\ exists i, subnet t = slot i.
Proof.
  intros HA t (i & Hit)%list_elem_of_In%list_elem_of_lookup.
  apply allocateClaimNetwork_spec in HA as (ordered & identity & _ & _ & _ & _ & Ht).
  apply allocate_transfers_spec in Ht as (Hr & Hapart & _).
  destruct (Forall2_lookup_r _ _ _ _ _ Hr Hit) as (s & _ & H). split.
  - eapply reserved_free; [exact H|]. exact (Forall_lookup_1 _ _ _ _ Hapart Hit).
  - destruct (reserves_slot _ _ _ _ _ _ H) as (j & _ & Hj). by exists j.
Qed.

(** C17. An allocation takes from the host only what is free there: one transfer
    per selected egress, in order and with its facts; a return table and a
    protocol of the reserved ranges that no route or rule uses; and for every
    transfer an unused link name, two unused priorities and a /30 subnet of
    198.18.0.0/15 with its two addresses, without an address of any route but
    the default one and without a tracked connection.  No two transfers share
    a link name, a priority or an address. *)
Theorem allocation_uses_nothing_in_use id token selected inventory a
    (HA : allocateClaimNetwork id token selected inventory = Ok a) :
  (exists ordered, ordered ≡ₚ selected /\ Forall2 carries ordered (na_transfers a)) /\
  (forall i t, na_transfers a !! i = Some t -> ta_number t = Z.of_nat i + 1 /\ Value (ta_transfer t) = ta_number t) /\
  (firstReturnTable <= na_returnTable a <= lastReturnTable /\ na_returnTable a ∉ usedRouteTables inventory) /\
  (forall t, In t (na_transfers a) -> na_returnTable a <> ta_routeTable t) /\
  (firstClaimProtocol <= na_protocol a <= lastClaimProtocol /\ na_protocol a ∉ usedProtocols inventory) /\
  (forall t, In t (na_transfers a) -> free_on inventory t) /\
  ForallOrdPairs compatible (na_transfers a).
Proof.
  pose proof HA as HS. apply allocateClaimNetwork_spec in HS as (ordered & identity & _ & Ho & Hi & Ea & Ht).
  apply orderedSelections_spec in Ho as (Hperm & Hc & Hz).
  apply allocateRunNetworkIdentity_spec in Hi as (_ & _ & _ & _ & Hrt & Hrt1 & Hrt2 & Hp & Hp1 & _).
  apply allocate_transfers_spec in Ht as (Hr & Hapart & Hpairs).
  assert (na_returnTable a = na_returnTable identity) as -> by (by rewrite Ea).
  assert (na_protocol a = na_protocol identity) as -> by (by rewrite Ea).
  assert (Forall2 carries ordered (na_transfers a)) as Hcarry.
  { eapply Forall2_impl; [exact Hr|]. intros s t (links & i & [_ _ -> _ _ _ _ _ _]). done. }
  split_and!; try done; try lia.
  - by exists ordered.
  - intros i t Hit. destruct (Forall2_lookup_r _ _ _ _ _ Hr Hit) as (s & Hs & (links & j & [_ _ -> _ _ _ _ _ _])).
    unfold Maximum in Hz. apply (check_selections_spec 0) in Hs as (Hv & _); [|done|lia|lia]. simpl. lia.
  - intros t (i & Hit)%list_elem_of_In%list_elem_of_lookup E. destruct (Forall2_lookup_r _ _ _ _ _ Hcarry Hit) as (s & Hs & H).
    apply Hrt2, list_elem_of_fmap. exists s. split; [by rewrite E; apply H|by eapply list_elem_of_lookup_2].
  - intros t Ht. by apply (allocation_free _ _ _ _ _ HA).
Qed.


(** ** Rules of the host *)
(** The kernel's selection of a rule for a forwarded packet: every selector of
    the rule holds, or, for an inverted one, not every selector does.  What the
    program cannot read of a rule is any test of the packet. *)
Record packet : Type := MkPacket { packet_source : Addr; packet_destination : Addr; packet_input : string }.

Section Kernel.
Context (unread : routingRule -> packet -> bool).

Definition rule_selects (rule : routingRule) (p : packet) : bool :=
  selects (rr_source rule) (packet_source p) && selects (rr_destination rule) (packet_destination p)
  && names_interface (rr_inputInterface rule) (packet_input p)
  && (if rr_unknownSelector rule then unread rule p else true).

Definition rule_takes (rule : routingRule) (p : packet) : bool := xorb (rr_inverted rule) (rule_selects rule p).

(** An inverted rule without a destination selector. *)
Definition no_inverted_destination (rule : routingRule) : Prop := rr_inverted rule = true -> rr_destination rule = None.

Lemma considered rule priority :
  rr_builtinLocal rule = false -> 0 <= rr_priority rule < priority -> not_considered rule priority = false.
Proof. intros Hb Hp. unfold not_considered. rewrite Hb, (proj2 (Z.ltb_ge _ _)), (proj2 (Z.leb_gt _ _)) by lia. done. Qed.

Lemma outbound_not_taken t rules rule p :
  hasPreemptingRule t rules = false -> In rule rules -> rr_builtinLocal rule = false ->
  0 <= rr_priority rule < outboundPriority t -> no_inverted_destination rule ->
  packet_source p = namespaceIP t -> packet_input p = hostVeth t -> rule_takes rule p = false.
Proof.
  intros H Hin Hb Hp Hd Hs Hi. unfold hasPreemptingRule in H.
  assert (preempts_outbound t rule = false) as Hr.
  { destruct (preempts_outbound t rule) eqn:E; [|done]. rewrite <- H. symmetry. apply existsb_exists. eauto. }
  unfold preempts_outbound in Hr. rewrite considered in Hr by done. unfold rule_takes, rule_selects. rewrite Hs, Hi.
  destruct (rr_inverted rule) eqn:Ei; cbn [xorb].
  - rewrite !orb_false_iff, !negb_false_iff in Hr. destruct Hr as [[-> ->] ->]. rewrite (Hd Ei). done.
  - destruct (selects (rr_source rule) _), (names_interface _ _); simpl in *; try done. by rewrite andb_false_r.
Qed.

Lemma return_not_taken t rules local rule p :
  hasPreemptingReturnRule t rules local = false -> In rule rules -> rr_builtinLocal rule = false ->
  0 <= rr_priority rule < returnPriority t ->
  (forall q, rr_source rule = Some q -> Is4 (prefix_ip q) = true) ->
  packet_destination p = namespaceIP t -> packet_input p = ta_providerName t -> (packet_source p ∉ local) ->
  rule_takes rule p = false.
Proof.
  intros H Hin Hb Hp H4 Hd Hi Hl. unfold hasPreemptingReturnRule in H.
  assert (preempts_return t local rule = false) as Hr.
  { destruct (preempts_return t local rule) eqn:E; [|done]. rewrite <- H. symmetry. apply existsb_exists. eauto. }
  unfold preempts_return in Hr. rewrite considered in Hr by done. unfold rule_takes, rule_selects. rewrite Hd, Hi.
  destruct (rr_inverted rule) eqn:Ei; cbn [xorb].
  - rewrite !orb_false_iff, !negb_false_iff in Hr. destruct Hr as [[[-> ->] Hn] ->]. case_bool_decide as Hs; [done|].
    destruct (rr_source rule); [by destruct Hs|done].
  - assert (returnSourceMayMatch (rr_source rule) local = false -> selects (rr_source rule) (packet_source p) = false) as Hsrc.
    { unfold returnSourceMayMatch, selects. destruct (rr_source rule) as [q|]; [|done].
      destruct (prefix_bits q =? 32) eqn:Eb; [|done]. simpl. rewrite negb_false_iff, bool_decide_eq_true. intros Hq.
      destruct (Contains q (packet_source p)) eqn:Ec; [|done]. exfalso. apply Hl.
      apply Contains_spec in Ec as (_ & _ & _ & El & Et). apply Z.eqb_eq in Eb. rewrite Eb in Et. specialize (H4 q eq_refl).
      destruct (prefix_ip q) as [|v|] eqn:Eq; try done. destruct (packet_source p) as [|w|]; try done.
      unfold top_bits in Et. simpl in Et. rewrite !Z.div_1_r in Et. by rewrite <- Et. }
    destruct (returnSourceMayMatch _ _); [|by rewrite Hsrc].
    destruct (selects (rr_destination rule) _), (names_interface _ _); simpl in *; try done;
      by rewrite ?andb_false_r.
Qed.

(** The rules of the inventory against the transfers of an allocation. *)
Lemma host_rule_not_taken id token selected inventory a t rule p
    (HA : allocateClaimNetwork id token selected inventory = Ok a)
    (Ht : In t (na_transfers a)) (Hrule : In rule (routingRules inventory))
    (Hb : rr_builtinLocal rule = false) (H0 : 0 <= rr_priority rule) :
  (rr_priority rule < outboundPriority t -> no_inverted_destination rule ->
     packet_source p = namespaceIP t -> packet_input p = hostVeth t -> rule_takes rule p = false) /\
  (rr_priority rule < returnPriority t -> (forall q, rr_source rule = Some q -> Is4 (prefix_ip q) = true) ->
     packet_destination p = namespaceIP t -> packet_input p = ta_providerName t ->
     (packet_source p ∉ localAddresses inventory) -> Forall (fun s => packet_source p <> sel_source s) selected ->
     rule_takes rule p = false).
Proof.
  apply allocateClaimNetwork_spec in HA as (ordered & identity & _ & Ho & _ & _ & Hts).
  apply orderedSelections_spec in Ho as (Hperm & _). apply allocate_transfers_spec in Hts as (Hr & _).
  apply list_elem_of_In, list_elem_of_lookup in Ht as (i & Hit).
  destruct (Forall2_lookup_r _ _ _ _ _ Hr Hit) as (s & _ & (links & j & [_ _ _ _ _ _ _ Hout Hret])). split.
  - intros. by eapply outbound_not_taken.
  - intros Hp H4 Hd Hi Hl Hs. eapply return_not_taken; try done.
    rewrite not_elem_of_union, elem_of_list_to_set, list_elem_of_fmap. split; [|done].
    intros (x & Ex & Hx). rewrite Hperm in Hx. rewrite Forall_forall in Hs. by apply (Hs x).
Qed.
End Kernel.

(** ** A host with one provider *)
Definition sample_token : string := "0101010101010101010101010101010101010101010101010101010101010101".
Definition sample_id : ID := MkID (replicate 16 x07).
Definition sample_selection : egressSelection :=
  MkSelection (MkNumber 1) (Addr4 0xc0a80002) "eth0" 2 254 (Addr4 0xc0a80001) true.

Definition sample_inventory (rules : list routingRule) : hostInventory :=
  MkInventory {[ "eth0" ]} (MkFirewall firewallIPTables ∅ [] [] ∅ iptablesFrontendNFT true true)
    {[ 0; 32766; 32767 ]} {[ 254; 255 ]} {[ Addr4 0xc0a80002 ]} [MkPrefix (Addr4 0xc0a80000) 24] rules {[ 2; 3 ]} ∅.

Definition local_rule : routingRule := MkRoutingRule 0 255 1 None None "" false false [] true 2.
Definition lan_rule : routingRule := MkRoutingRule 100 254 1 (Some (MkPrefix (Addr4 0xc0a80002) 32)) None "" false false [] false 3.

Definition sample_allocation (rules : list routingRule) : networkAllocation :=
  ok_or (MkNetworkAllocation sample_id "" 0 "" "" "" 0 0 [] [])
    (allocateClaimNetwork sample_id sample_token [sample_selection] (sample_inventory rules)).

Example sample_run_allocated :
  allocateClaimNetwork sample_id sample_token [sample_selection] (sample_inventory [local_rule; lan_rule])
  = Ok (sample_allocation [local_rule; lan_rule]).
Proof. vm_compute. reflexivity. Qed.

Lemma allocation_uses_nothing_in_use_witness :
  na_transfers (sample_allocation [local_rule; lan_rule]) <> [] /\
  forall t, In t (na_transfers (sample_allocation [local_rule; lan_rule])) ->
    free_on (sample_inventory [local_rule; lan_rule]) t.
Proof.
  split; [by vm_compute|].
  apply (allocation_uses_nothing_in_use sample_id sample_token [sample_selection] _ _ sample_run_allocated).
Defined.

Definition sample_transfer_allocation (rules : list routingRule) : transferAllocation :=
  hd (makeTransferAllocation sample_selection (MkLinks (MkOwner []) "" (MkMAC []) "" (MkMAC [])) (slot 0) 0 0)
    (na_transfers (sample_allocation rules)).

Definition to_the_internet (t : transferAllocation) : packet := MkPacket (namespaceIP t) (Addr4 0x08080808) (hostVeth t).

(** A rule with the inverted selector of a destination, for instance
    [not to 198.18.0.0/15], takes every packet to another destination; the
    outbound test looks at its source and interface only and lets it pass. *)
Definition not_to_the_range : routingRule := MkRoutingRule 100 254 1 None (Some temporaryRange) "" true false [] false 3.

Example inverted_destination_is_missed :
  let rules := [local_rule; not_to_the_range] in
  let t := sample_transfer_allocation rules in
  allocateClaimNetwork sample_id sample_token [sample_selection] (sample_inventory rules) = Ok (sample_allocation rules) /\
  na_transfers (sample_allocation rules) = [t] /\
  rr_priority not_to_the_range < outboundPriority t /\ rule_takes (fun _ _ => true) not_to_the_range (to_the_internet t) = true.
Proof. vm_compute. split_and!; reflexivity. Qed.
