(* ===== verification/HostClaim.v ===== *)
(** * Network claims

    [hostnetwork/evidence.go] and [hostnetwork/published_claims.go]: the claim a
    run publishes of its allocation, its validation, and the reservation of what
    other runs have published in the inventory an allocation starts from. *)
From S2P Require Import Prelude Sorting TransferNumber GoText Netip Hashing RunId HostAllocation HostAllocationProofs.

Definition claimVersion : Z := 6.

Record networkClaim : Type := MkClaim {
  nc_version : Z;
  nc_runID : ID;
  nc_ownerToken : string;
  nc_protocol : Z;
  nc_backend : string;
  nc_iptablesFrontend : string;
  nc_firewallTable : string;
  nc_nftPostroutingPriority : Z;
  nc_returnTable : Z;
  nc_forwardChains : list nftForwardChain;
  nc_transfers : list transferAllocation
}.

Definition claimFromAllocation (a : networkAllocation) : networkClaim :=
  MkClaim claimVersion (na_runID a) (na_ownerToken a) (na_protocol a) (na_backend a) (na_iptablesFrontend a)
    (na_firewallTable a) (na_nftPostroutingPriority a) (na_returnTable a) (na_forwardChains a) (na_transfers a).

(** ** Validation *)
Definition validateTransferLanesNFTPostroutingPriority (priority : Z) : option error :=
  match validateNFTNATPriority priority with
  | Some e => Some e
  | None =>
      if iptablesSourceNATPriority <=? priority
      then Some (ErrText ("NAT priority " +:+ pretty priority +:+ " must precede standard source NAT priority "
                            +:+ pretty iptablesSourceNATPriority))
      else None
  end.

(** [slices.Compare] of family, table and name. *)
Definition lessNFTForwardChain (left right : nftForwardChain) : bool :=
  if negb (bool_decide (fc_family left = fc_family right)) then sltb (fc_family left) (fc_family right)
  else if negb (bool_decide (fc_table left = fc_table right)) then sltb (fc_table left) (fc_table right)
  else sltb (fc_name left) (fc_name right).

Fixpoint validate_forward_chains (index : Z) (previous : option nftForwardChain) (ownedTable : string)
    (chains : list nftForwardChain) : option error :=
  match chains with
  | [] => None
  | chain :: chains =>
      if chain_identity_incomplete (fc_family chain) (fc_table chain) (fc_name chain)
         || (bool_decide (fc_family chain = "ip") && bool_decide (fc_table chain = ownedTable))
      then Some (ErrText ("network claim nftables forward chain " +:+ pretty index +:+ " is invalid"))
      else if match previous with Some p => negb (lessNFTForwardChain p chain) | None => false end
      then Some (ErrText "network claim nftables forward chains are not strictly ordered")
      else validate_forward_chains (index + 1) (Some chain) ownedTable chains
  end.

Definition validateNFTForwardChains (chains : list nftForwardChain) (ownedTable : string) : option error :=
  validate_forward_chains 0 None ownedTable chains.

Definition ends_with_plus (s : string) : bool := bool_decide (last (bytes_of s) = Some x2b).

Fixpoint validateIPTablesProviderNames (transfers : list transferAllocation) : option error :=
  match transfers with
  | [] => None
  | t :: transfers =>
      if ends_with_plus (ta_providerName t) || ends_with_plus (hostVeth t)
      then Some (ErrText ("transfer " +:+ pretty (ta_number t) +:+ " interface is not an exact iptables identity"))
      else validateIPTablesProviderNames transfers
  end.

(** The facts a transfer must have whatever the others are. *)
Definition transfer_facts_ok (claim : networkClaim) (t : transferAllocation) (owner : linkOwnerID) (mac : linkMAC) : bool :=
  (1 <=? ta_number t) && (ta_number t <=? Maximum) && (Value (ta_transfer t) =? wrap 8 (ta_number t))
  && Is4 (ta_source t) && negb (IsUnspecified (ta_source t)) && validProviderName (ta_providerName t)
  && (0 <? ta_providerIndex t) && (0 <? ta_routeTable t) && negb (ta_routeTable t =? nc_returnTable claim)
  && (firstPriority <=? outboundPriority t) && (outboundPriority t <=? lastPriority)
  && (firstPriority <=? returnPriority t) && (returnPriority t <=? lastPriority)
  && negb (outboundPriority t =? returnPriority t) && (prefix_bits (subnet t) =? 30)
  && bool_decide (subnet t = Masked (subnet t)) && Contains temporaryRange (prefix_ip (subnet t))
  && (if ta_hasGateway t then Is4 (ta_gateway t) else negb (AddrIsValid (ta_gateway t)))
  && bool_decide (hostIP t = Next (prefix_ip (subnet t))) && bool_decide (namespaceIP t = Next (hostIP t))
  && bool_decide (linkOwner t = owner) && bool_decide (hostVeth t = hostName owner)
  && bool_decide (ta_hostMAC t = hostMAC owner)
  && bool_decide (peerVeth t = derivedPeerName (nc_runID claim) (ta_number t)) && bool_decide (ta_peerMAC t = mac).

(** What the loop over the transfers has seen. *)
Record Seen : Type := MkSeen {
  seen_names : gset string;
  seen_numbers : gset Z;
  seen_priorities : gset Z;
  seen_subnets : list Prefix
}.

(** The new names of a valid transfer. *)
Definition validateClaimTransfer (claim : networkClaim) (t : transferAllocation) (seen : Seen) : result (gset string) :=
  let context what := "network claim transfer " +:+ pretty (ta_number t) +:+ what in
  match deriveLinkOwnerID (nc_ownerToken claim) (ta_transfer t) with
  | Err e => Err (ErrWrap (context " has invalid link owner") e)
  | Ok owner =>
      match derivePeerMAC (nc_ownerToken claim) (ta_transfer t) with
      | Err e => Err (ErrWrap (context " has invalid peer MAC") e)
      | Ok mac =>
          if negb (transfer_facts_ok claim t owner mac) then Err (ErrText (context " has invalid facts"))
          else if bool_decide (ta_number t ∈ seen_numbers seen)
          then Err (ErrText ("network claim repeats transfer " +:+ pretty (ta_number t)))
          else if bool_decide (outboundPriority t ∈ seen_priorities seen)
          then Err (ErrText ("network claim repeats priority " +:+ pretty (outboundPriority t)))
          else if bool_decide (returnPriority t ∈ seen_priorities seen)
          then Err (ErrText ("network claim repeats priority " +:+ pretty (returnPriority t)))
          else if bool_decide (hostVeth t ∈ seen_names seen)
          then Err (ErrText ("network claim repeats object identity " +:+ Quote (hostVeth t)))
          else
            let names := {[ hostVeth t ]} ∪ seen_names seen in
            if bool_decide (peerVeth t ∈ names)
            then Err (ErrText ("network claim repeats object identity " +:+ Quote (peerVeth t)))
            else if existsb (Overlaps (subnet t)) (seen_subnets seen)
            then Err (ErrText "network claim repeats temporary subnet")
            else Ok ({[ peerVeth t ]} ∪ names)
      end
  end.

Fixpoint validate_claim_transfers (claim : networkClaim) (index : Z) (seen : Seen) (ts : list transferAllocation)
    : option error :=
  match ts with
  | [] => None
  | t :: ts =>
      if negb (ta_number t =? index + 1)
      then Some (ErrText ("network claim is missing transfer " +:+ pretty (index + 1)))
      else
        match validateClaimTransfer claim t seen with
        | Err e => Some e
        | Ok names =>
            validate_claim_transfers claim (index + 1)
              (MkSeen names ({[ ta_number t ]} ∪ seen_numbers seen)
                 ({[ returnPriority t ]} ∪ ({[ outboundPriority t ]} ∪ seen_priorities seen))
                 (seen_subnets seen ++ [subnet t])) ts
        end
  end.

(** The names the firewall identity takes, when it is valid. *)
Definition validate_backend (claim : networkClaim) (expected : ID) : result (gset string) :=
  if bool_decide (nc_backend claim = firewallNFTables) then
    if negb (bool_decide (nc_iptablesFrontend claim = "")) || negb (bool_decide (nc_firewallTable claim = firewallName expected))
    then Err (ErrText "network claim nftables identity is invalid")
    else
      match validateTransferLanesNFTPostroutingPriority (nc_nftPostroutingPriority claim) with
      | Some e => Err (ErrWrap "network claim nftables identity is invalid" e)
      | None =>
          check! validateNFTForwardChains (nc_forwardChains claim) (nc_firewallTable claim) in
          Ok {[ nc_firewallTable claim ]}
      end
  else if bool_decide (nc_backend claim = firewallIPTables) then
    if negb (bool_decide (nc_firewallTable claim = "")) || negb (nc_nftPostroutingPriority claim =? 0)
       || negb (zlen (nc_forwardChains claim) =? 0) || negb (knownIPTablesFrontend (nc_iptablesFrontend claim))
    then Err (ErrText "network claim iptables identity is invalid")
    else
      check! validateIPTablesProviderNames (nc_transfers claim) in
      Ok ∅
  else Err (ErrText "network claim firewall backend is invalid").

Definition validateClaim (claim : networkClaim) (expected : ID) : option error :=
  if negb (nc_version claim =? claimVersion) || negb (bool_decide (nc_runID claim = expected))
     || (zlen (nc_transfers claim) =? 0) || (Maximum <? zlen (nc_transfers claim))
     || (nc_returnTable claim <? firstReturnTable) || (lastReturnTable <? nc_returnTable claim)
     || (nc_protocol claim <? firstClaimProtocol) || (lastClaimProtocol <? nc_protocol claim)
     || negb (validOwnerToken (nc_ownerToken claim))
  then Some (ErrText "network claim header or identity is invalid")
  else
    match validate_backend claim expected with
    | Err e => Some e
    | Ok names => validate_claim_transfers claim 0 (MkSeen names ∅ ∅ []) (nc_transfers claim)
    end.

(** ** Published claims *)
Record publishedClaimReservations : Type := MkReservations {
  pr_subnets : list Prefix;
  pr_priorities : gmap Z ID;
  pr_returnTables : gmap Z ID;
  pr_protocols : gmap Z ID;
  pr_hostLinks : gmap string linkMAC;
  pr_firewallOwners : gmap string ID;
  pr_nftTables : gmap string ID;
  pr_nftNATPriorities : gmap Z ID
}.

Definition newPublishedClaimReservations : publishedClaimReservations := MkReservations [] ∅ ∅ ∅ ∅ ∅ ∅ ∅.

Definition conflict (previous id : ID) (description value : string) : error :=
  ErrText ("published network claims " +:+ IDString previous +:+ " and " +:+ IDString id +:+ " conflict on "
             +:+ description +:+ " " +:+ value).

Definition reserveClaimInt (reserved : gmap Z ID) (value : Z) (id : ID) (description : string) : result (gmap Z ID) :=
  match reserved !! value with
  | Some previous => Err (conflict previous id description (pretty value))
  | None => Ok (<[ value := id ]> reserved)
  end.

Definition reserveClaimString (reserved : gmap string ID) (value : string) (id : ID) (description : string)
    : result (gmap string ID) :=
  match reserved !! value with
  | Some previous => Err (conflict previous id description value)
  | None => Ok (<[ value := id ]> reserved)
  end.

Definition reserveClaimProtocol (reserved : gmap Z ID) (value : Z) (id : ID) : result (gmap Z ID) :=
  reserveClaimInt reserved value id "protocol".
Definition reserveClaimNFTPriority (reserved : gmap Z ID) (value : Z) (id : ID) : result (gmap Z ID) :=
  reserveClaimInt reserved value id "nftables postrouting priority".

Definition addNFTables (r : publishedClaimReservations) (claim : networkClaim) : result publishedClaimReservations :=
  let* tables := reserveClaimString (pr_nftTables r) (nc_firewallTable claim) (nc_runID claim) "nftables table" in
  let* nat := reserveClaimNFTPriority (pr_nftNATPriorities r) (nc_nftPostroutingPriority claim) (nc_runID claim) in
  Ok (MkReservations (pr_subnets r) (pr_priorities r) (pr_returnTables r) (pr_protocols r) (pr_hostLinks r)
        (pr_firewallOwners r) tables nat).

Definition addTransfer (id : ID) (r : publishedClaimReservations) (t : transferAllocation) : result publishedClaimReservations :=
  let* priorities := reserveClaimInt (pr_priorities r) (outboundPriority t) id "outbound priority" in
  let* priorities := reserveClaimInt priorities (returnPriority t) id "return priority" in
  match pr_hostLinks r !! hostVeth t with
  | Some previous =>
      Err (ErrText ("published network claims conflict on host link " +:+ Quote (hostVeth t) +:+ " (MAC "
                      +:+ MACString previous +:+ " and " +:+ MACString (ta_hostMAC t) +:+ ")"))
  | None =>
      if existsb (fun s => Overlaps s (subnet t)) (pr_subnets r)
      then Err (ErrText ("published network claims conflict on temporary subnet " +:+ PrefixString (subnet t)))
      else Ok (MkReservations (pr_subnets r ++ [subnet t]) priorities (pr_returnTables r) (pr_protocols r)
                 (<[ hostVeth t := ta_hostMAC t ]> (pr_hostLinks r)) (pr_firewallOwners r) (pr_nftTables r)
                 (pr_nftNATPriorities r))
  end.

Fixpoint addTransfers (id : ID) (r : publishedClaimReservations) (ts : list transferAllocation)
    : result publishedClaimReservations :=
  match ts with
  | [] => Ok r
  | t :: ts => let* r := addTransfer id r t in addTransfers id r ts
  end.

Definition reservations_add (r : publishedClaimReservations) (claim : networkClaim) : result publishedClaimReservations :=
  let* tables := reserveClaimInt (pr_returnTables r) (nc_returnTable claim) (nc_runID claim) "return table" in
  let* protocols := reserveClaimProtocol (pr_protocols r) (nc_protocol claim) (nc_runID claim) in
  let* owners := reserveClaimString (pr_firewallOwners r) (IDString (nc_runID claim)) (nc_runID claim) "firewall owner" in
  let r := MkReservations (pr_subnets r) (pr_priorities r) tables protocols (pr_hostLinks r) owners (pr_nftTables r)
             (pr_nftNATPriorities r) in
  let* r := if bool_decide (nc_backend claim = firewallNFTables) then addNFTables r claim else Ok r in
  addTransfers (nc_runID claim) r (nc_transfers claim).

(** [publishedFirewallObservations]: for each observed run whether its exact
    nftables program is on the host. *)
Definition publishedFirewallObservations : Type := ID -> option bool.

Definition same_chain (a b : nftPostroutingNATChain) : bool :=
  bool_decide (nat_family a = nat_family b) && bool_decide (nat_table a = nat_table b) && bool_decide (nat_name a = nat_name b).

Definition chain_text (c : nftPostroutingNATChain) : string :=
  nat_family c +:+ "/" +:+ nat_table c +:+ "/" +:+ nat_name c.

Definition mergeClaimedNFTChain (inventory : firewallInventory) (claim : networkClaim) (present : bool)
    : result firewallInventory :=
  let expected := MkNATChain "ip" (nc_firewallTable claim) "postrouting" (nc_nftPostroutingPriority claim) true in
  let observed := filter (fun c => same_chain c expected) (nftPostroutingNATChains inventory) in
  let published what := ErrText ("published claim " +:+ IDString (nc_runID claim) +:+ what) in
  match filter (fun c => c <> expected) observed with
  | c :: _ => Err (published (" conflicts with observed nftables chain " +:+ chain_text c))
  | [] =>
      if 1 <? zlen observed
      then Err (published (" has duplicated observed nftables chain " +:+ chain_text expected))
      else if present && negb (zlen observed =? 1)
      then Err (published " exact nftables program is absent from the host inventory")
      else if negb present && negb (zlen observed =? 0)
      then Err (published " absent nftables program conflicts with the host inventory")
      else
        Ok (MkFirewall (fw_kind inventory) ({[ nc_firewallTable claim ]} ∪ nftTableNames inventory)
              (nftForwardChains inventory)
              (if present then nftPostroutingNATChains inventory else nftPostroutingNATChains inventory ++ [expected])
              (transferlanesOwnerReferences inventory) (fw_iptablesFrontend inventory)
              (iptablesForwardActive inventory) (iptablesPostroutingActive inventory))
  end.

Definition merge_transfer (inventory : hostInventory) (t : transferAllocation) : hostInventory :=
  MkInventory ({[ hostVeth t ]} ∪ linkNames inventory) (firewall inventory)
    ({[ returnPriority t ]} ∪ ({[ outboundPriority t ]} ∪ priorities inventory)) (usedRouteTables inventory)
    ({[ namespaceIP t ]} ∪ ({[ hostIP t ]} ∪ localAddresses inventory))
    (routePrefixes inventory ++ [subnet t]) (routingRules inventory) (usedProtocols inventory)
    (conntrackOriginalSources inventory).

Definition mergeClaimTransfers (inventory : hostInventory) (ts : list transferAllocation) : hostInventory :=
  foldl merge_transfer inventory ts.

(** The maps of the inventory are never nil here. *)
Definition merge_claim (firewalls : publishedFirewallObservations) (inventory : hostInventory) (claim : networkClaim) : result hostInventory :=
  let fw := firewall inventory in
  let fw := MkFirewall (fw_kind fw) (nftTableNames fw) (nftForwardChains fw) (nftPostroutingNATChains fw)
              ({[ IDString (nc_runID claim) ]} ∪ transferlanesOwnerReferences fw) (fw_iptablesFrontend fw)
              (iptablesForwardActive fw) (iptablesPostroutingActive fw) in
  let present := default false (firewalls (nc_runID claim)) in
  let* fw := if bool_decide (nc_backend claim = firewallNFTables) then mergeClaimedNFTChain fw claim present else Ok fw in
  Ok (mergeClaimTransfers
        (MkInventory (linkNames inventory) fw (priorities inventory) ({[ nc_returnTable claim ]} ∪ usedRouteTables inventory)
           (localAddresses inventory) (routePrefixes inventory) (routingRules inventory)
           ({[ nc_protocol claim ]} ∪ usedProtocols inventory) (conntrackOriginalSources inventory))
        (nc_transfers claim)).

Fixpoint merge_claims (firewalls : publishedFirewallObservations) (inventory : hostInventory) (claims : list networkClaim)
    : result hostInventory :=
  match claims with
  | [] => Ok inventory
  | claim :: claims => let* inventory := merge_claim firewalls inventory claim in merge_claims firewalls inventory claims
  end.

Fixpoint reserve_claims (firewalls : publishedFirewallObservations) (r : publishedClaimReservations) (claims : list networkClaim)
    : result publishedClaimReservations :=
  match claims with
  | [] => Ok r
  | claim :: claims =>
      match validateClaim claim (nc_runID claim) with
      | Some e => Err (ErrWrap ("invalid published network claim for " +:+ IDString (nc_runID claim)) e)
      | None =>
          let* r := reservations_add r claim in
          if bool_decide (firewalls (nc_runID claim) = None)
          then Err (ErrText ("published run " +:+ IDString (nc_runID claim) +:+ " firewall was not observed"))
          else reserve_claims firewalls r claims
      end
  end.

Definition mergePublishedClaimReservations (inventory : hostInventory) (claims : list networkClaim)
    (firewalls : publishedFirewallObservations) : result hostInventory :=
  let* _ := reserve_claims firewalls newPublishedClaimReservations claims in
  merge_claims firewalls inventory claims.

(** * The proofs

    What the allocator reserves is a claim the validation accepts, and a run
    that allocates beside published claims publishes one that goes with them. *)
(** ** Names *)
Lemma derivedPeerName_inj id m n : 0 <= m < 256 -> 0 <= n < 256 -> derivedPeerName id m = derivedPeerName id n -> m = n.
Proof.
  intros Hm Hn H. unfold derivedPeerName in H. apply (f_equal bytes_of) in H. rewrite !bytes_of_app in H.
  apply app_inv_head, app_inv_head in H. apply bytes_of_inj, (f_equal DecodeString) in H. rewrite !DecodeString_Encode in H.
  injection H as H. by rewrite <- (b2z_z2b_small m), <- (b2z_z2b_small n), H.
Qed.

Lemma stake_length n s : (n <= length (bytes_of s))%nat -> slen (stake n s) = Z.of_nat n.
Proof. intros H. unfold stake. rewrite slen_text_of. unfold zlen. rewrite length_take. lia. Qed.

Lemma derivedPeerName_length id n : id_wf id -> slen (derivedPeerName id n) = 15.
Proof.
  intros Hw. unfold derivedPeerName. rewrite !slen_app, stake_length.
  - unfold EncodeToString. by rewrite slen_text_of.
  - pose proof (IDString_length id Hw) as H. unfold slen, zlen in H. lia.
Qed.

Lemma firewallName_length id : id_wf id -> slen (firewallName id) = 46.
Proof. intros Hw. unfold firewallName. by rewrite slen_app, IDString_length. Qed.

Lemma firewallName_inj a b : firewallName a = firewallName b -> a = b.
Proof.
  unfold firewallName. intros H. apply (f_equal bytes_of) in H. rewrite !bytes_of_app in H.
  by apply app_inv_head, bytes_of_inj, IDString_inj in H.
Qed.

(** Host names are plain text: no pluses, no NULs. *)
Definition plain_byte (b : byte) : Prop := b <> x2b /\ b <> x00.

Lemma base64_char_plain d : 0 <= d < 64 -> plain_byte (base64_char d).
Proof.
  intros H. assert (d ∈ seqZ 0 64) as Hd by (apply elem_of_seqZ; lia). clear H. revert d Hd.
  apply Forall_forall. by repeat (constructor; [split; discriminate|]).
Qed.

Lemma digits64_plain n v : Forall plain_byte (digits64 n v).
Proof.
  revert v; induction n as [|n IH]; intros v; [constructor|]. simpl. apply Forall_app. split; [apply IH|].
  constructor; [|constructor]. by apply base64_char_plain, Z.mod_pos_bound.
Qed.

Lemma base64_plain fuel l : Forall plain_byte (base64_encode fuel l).
Proof.
  revert l; induction fuel as [|fuel IH]; intros l; [constructor|].
  destruct l as [|a [|b [|c l]]]; cbn [base64_encode]; [constructor|apply digits64_plain..|].
  apply Forall_app. split; [apply digits64_plain|apply IH].
Qed.

Lemma hostName_plain owner : Forall plain_byte (bytes_of (hostName owner)).
Proof.
  unfold hostName. rewrite bytes_of_w. unfold RawURLEncode. rewrite bytes_of_text_of.
  constructor; [by split|apply base64_plain].
Qed.

Lemma hostName_not_plus owner : ends_with_plus (hostName owner) = false.
Proof.
  unfold ends_with_plus. apply bool_decide_eq_false_2. intros H%last_Some_elem_of.
  pose proof (hostName_plain owner) as Hp. rewrite Forall_forall in Hp. by destruct (Hp x2b H).
Qed.

(** ** The token of an allocation derives its links *)
Lemma validOwnerToken_key token : validOwnerToken token = true -> exists key, token_key token = Some key.
Proof.
  unfold validOwnerToken, token_key. destruct (DecodeString token) as [key|]; [|by rewrite andb_false_r].
  intros H. bool_to_prop. exists key. by rewrite (proj2 (Z.eqb_eq _ _)) by done.
Qed.

Lemma transferLinks_derived id token transfer links :
  transferLinks id token transfer = Ok links ->
  deriveLinkOwnerID token transfer = Ok (la_owner links) /\ derivePeerMAC token transfer = Ok (la_peerMAC links) /\
  la_hostName links = hostName (la_owner links) /\ la_hostMAC links = hostMAC (la_owner links) /\
  la_peerName links = derivedPeerName id (Value transfer).
Proof. unfold transferLinks. intros H. inv_result. done. Qed.

(** ** The loop of the validation *)
Definition ok_transfer (claim : networkClaim) (t : transferAllocation) : Prop :=
  exists owner mac, deriveLinkOwnerID (nc_ownerToken claim) (ta_transfer t) = Ok owner /\
    derivePeerMAC (nc_ownerToken claim) (ta_transfer t) = Ok mac /\ transfer_facts_ok claim t owner mac = true.

Definition fresh (seen : Seen) (t : transferAllocation) : Prop :=
  (ta_number t ∉ seen_numbers seen) /\ (outboundPriority t ∉ seen_priorities seen) /\
  (returnPriority t ∉ seen_priorities seen) /\ (hostVeth t ∉ seen_names seen) /\ (peerVeth t ∉ seen_names seen) /\
  hostVeth t <> peerVeth t /\ Forall (fun s => Overlaps (subnet t) s = false) (seen_subnets seen).

(** What keeps a later transfer fresh after an earlier one. *)
Definition distinct (t1 t2 : transferAllocation) : Prop :=
  ta_number t2 <> ta_number t1 /\
  (outboundPriority t2 <> outboundPriority t1 /\ outboundPriority t2 <> returnPriority t1) /\
  (returnPriority t2 <> outboundPriority t1 /\ returnPriority t2 <> returnPriority t1) /\
  (hostVeth t2 <> hostVeth t1 /\ hostVeth t2 <> peerVeth t1) /\ (peerVeth t2 <> hostVeth t1 /\ peerVeth t2 <> peerVeth t1) /\
  Overlaps (subnet t2) (subnet t1) = false.

Lemma validate_claim_transfers_ok claim index seen ts :
  Forall (ok_transfer claim) ts -> (forall i t, ts !! i = Some t -> ta_number t = index + Z.of_nat i + 1) ->
  Forall (fresh seen) ts -> ForallOrdPairs distinct ts -> validate_claim_transfers claim index seen ts = None.
Proof.
  revert index seen; induction ts as [|t ts IH]; intros index seen Hok Hn Hf Hd; [done|].
  apply Forall_cons in Hok as [(owner & mac & Ho & Hm & Hfacts) Hok]. apply Forall_cons in Hf as [Hft Hf].
  inversion Hd as [|x l Hdt Hd' E]; subst. destruct Hft as (F1 & F2 & F3 & F4 & F5 & F6 & F7).
  cbn [validate_claim_transfers]. assert (ta_number t = index + 1) as Hnum by (rewrite (Hn 0%nat t eq_refl); lia).
  rewrite Hnum, Z.eqb_refl.
  cbn [negb]. unfold validateClaimTransfer. rewrite Ho, Hm, Hfacts. cbn [negb].
  rewrite !bool_decide_eq_false_2 by (rewrite ?not_elem_of_union, ?not_elem_of_singleton; intuition congruence). rewrite existsb_false by done.
  apply IH; [done| | |done].
  - intros i t' Hi. rewrite (Hn (S i) t' Hi). lia.
  - rewrite Forall_forall in Hf, Hdt. apply Forall_forall. intros t' Ht'.
    destruct (Hf t' Ht') as (G1 & G2 & G3 & G4 & G5 & G6 & G7).
    destruct (Hdt t' Ht') as (D1 & D2 & D3 & D4 & D5 & D6). unfold fresh. simpl. rewrite Hnum in D1.
    rewrite !not_elem_of_union, !not_elem_of_singleton. split_and!; [tauto..|].
    apply Forall_app. split; [done|]. by repeat constructor.
Qed.

(** ** What the validation establishes *)
Lemma validateClaimTransfer_inv claim t seen names :
  validateClaimTransfer claim t seen = Ok names ->
  ok_transfer claim t /\ fresh seen t /\ names = {[ peerVeth t ]} ∪ ({[ hostVeth t ]} ∪ seen_names seen).
Proof.
  unfold validateClaimTransfer, ok_transfer. destruct (deriveLinkOwnerID _ _) as [owner|]; [|done].
  destruct (derivePeerMAC _ _) as [mac|]; [|done]. destruct (transfer_facts_ok claim t owner mac) eqn:Ef; [|done]. cbn [negb].
  intros H. ok_branches H. bool_to_prop. split; [by exists owner, mac|]. split; [|by apply Ok_inj in H as <-].
  match goal with H : peerVeth t ∉ _ |- _ => rewrite not_elem_of_union, not_elem_of_singleton in H end.
  unfold fresh. split_and!; try tauto; [intuition congruence|]. by apply existsb_Forall.
Qed.

Lemma validate_claim_transfers_inv claim index seen ts :
  validate_claim_transfers claim index seen ts = None ->
  Forall (ok_transfer claim) ts /\ (forall i t, ts !! i = Some t -> ta_number t = index + Z.of_nat i + 1) /\
  Forall (fresh seen) ts /\ ForallOrdPairs distinct ts.
Proof.
  revert index seen; induction ts as [|t ts IH]; intros index seen H; [by repeat split; try constructor|].
  cbn [validate_claim_transfers] in H. destruct (Z.eqb_spec (ta_number t) (index + 1)) as [En|]; [|done]. cbn [negb] in H.
  destruct (validateClaimTransfer claim t seen) as [names|] eqn:Et; [|done].
  apply validateClaimTransfer_inv in Et as (Hok & Hf & ->). apply IH in H as (IHok & IHn & IHf & IHd).
  assert (Hlater : Forall (fun t' => fresh seen t' /\ distinct t t') ts).
  { eapply Forall_impl; [exact IHf|]. intros t' (F1 & F2 & F3 & F4 & F5 & F6 & F7). cbn in *.
    rewrite not_elem_of_union, not_elem_of_singleton in F1.
    rewrite !not_elem_of_union, !not_elem_of_singleton in F2, F3.
    rewrite !not_elem_of_union, !not_elem_of_singleton in F4, F5. apply Forall_app in F7 as [F7 F8].
    apply Forall_cons in F8 as [F8 _]. unfold fresh, distinct. tauto. }
  split_and!.
  - by constructor.
  - intros [|i] t' Hi; [injection Hi as <-; lia|]. rewrite (IHn i t' Hi). lia.
  - constructor; [done|]. eapply Forall_impl; [exact Hlater|]. by intros t' [? _].
  - constructor; [|done]. eapply Forall_impl; [exact Hlater|]. by intros t' [_ ?].
Qed.

Lemma validateClaim_inv claim id :
  validateClaim claim id = None ->
  nc_runID claim = id /\ validOwnerToken (nc_ownerToken claim) = true /\ is_ok (validate_backend claim id) = true /\
  0 < zlen (nc_transfers claim) /\
  Forall (ok_transfer claim) (nc_transfers claim) /\
  (forall i t, nc_transfers claim !! i = Some t -> ta_number t = Z.of_nat i + 1) /\ ForallOrdPairs distinct (nc_transfers claim).
Proof.
  unfold validateClaim. intros H. destruct (_ || _) eqn:Eh in H; [done|]. bool_to_prop.
  destruct (validate_backend claim id) as [names|]; [|done]. apply validate_claim_transfers_inv in H as (V1 & V2 & _ & V4).
  pose proof (zlen_nonneg (nc_transfers claim)). do 5 (split; [first [done|lia]|]). split; [|done].
  intros i t Hi. rewrite (V2 i t Hi). lia.
Qed.

(** ** The claim of an allocation *)
Lemma slot_quotient i : slot_base i / 4 = 0x31848000 + i.
Proof. unfold slot_base. replace (0xc6120000 + 4 * i) with ((0x31848000 + i) * 4) by lia. by apply Z.div_mul. Qed.

Lemma slot_Overlaps i j : i <> j -> Overlaps (slot i) (slot j) = false.
Proof.
  intros Hn. unfold Overlaps. simpl. rewrite bool_decide_eq_false_2.
  2: { intros H%(f_equal (fun p => addr_bits (prefix_ip p))). unfold slot, slot_base in H. cbn [prefix_ip addr_bits] in H. lia. }
  apply Z.eqb_neq. change (slot_base i / 4 <> slot_base j / 4). rewrite !slot_quotient. lia.
Qed.

Lemma disjoint_slots i j : disjoint (slot i) (slot j) -> i <> j.
Proof. intros H <-. destruct (slot_members i) as [M _]. specialize (H _ M). congruence. Qed.

(** The facts of a checked selection that the claim repeats. *)
Definition selection_facts (s : egressSelection) : Prop :=
  1 <= Value (sel_transfer s) <= Maximum /\ validProviderName (sel_providerName s) = true /\
  Is4 (sel_source s) = true /\ IsUnspecified (sel_source s) = false /\ 0 < sel_providerIndex s /\
  0 < sel_routeTable s /\ (sel_hasGateway s = true -> Is4 (sel_gateway s) = true).

Lemma reserved_facts id inventory local token s t claim :
  reserves id inventory local token s t -> selection_facts s ->
  (sel_hasGateway s = false -> sel_gateway s = AddrNone) ->
  nc_ownerToken claim = token -> nc_runID claim = id -> nc_returnTable claim <> sel_routeTable s -> ok_transfer claim t.
Proof.
  intros (links & i & [Hl Hi Ht Ho Hr Hd _ _ _]) (S1 & S2 & S3 & S4 & S5 & S6 & S7) Hg <- <- Htable.
  apply transferLinks_derived in Hl as (L1 & L2 & L3 & L4 & L5). exists (la_owner links), (la_peerMAC links).
  destruct (slot_Next i Hi) as [N1 N2]. rewrite Ht. generalize dependent (outboundPriority t). generalize dependent (returnPriority t). intros r Hr o Ho Hd Ht.
  split; [exact L1|split; [exact L2|]]. unfold transfer_facts_ok, makeTransferAllocation.
  cbn [ta_number ta_transfer ta_source ta_providerName ta_providerIndex ta_routeTable outboundPriority returnPriority
       subnet ta_hasGateway ta_gateway hostIP namespaceIP linkOwner hostVeth ta_hostMAC peerVeth ta_peerMAC].
  rewrite S2, S3, S4, L3, L4, L5. unfold Maximum, firstPriority, lastPriority in *.
  rewrite (proj2 (Z.leb_le 1 _)), (proj2 (Z.leb_le _ 35)), wrap_small, Z.eqb_refl by (unfold in_u; lia).
  rewrite (proj2 (Z.ltb_lt 0 _)), (proj2 (Z.ltb_lt 0 _)), (proj2 (Z.eqb_neq _ _)) by lia.
  rewrite !(proj2 (Z.leb_le _ _)), (proj2 (Z.eqb_neq _ _)) by lia.
  rewrite (bool_decide_eq_true_2 (slot i = _)) by (symmetry; apply slot_Masked).
  assert (Contains temporaryRange (prefix_ip (slot i)) = true) as ->.
  { apply (slot_inside i); [done|]. apply slot_Contains. done. }
  assert ((if sel_hasGateway s then Is4 (sel_gateway s) else negb (AddrIsValid (sel_gateway s))) = true) as ->.
  { destruct (sel_hasGateway s); [by apply S7|by rewrite Hg]. }
  change (prefix_bits (slot i) =? 30) with true. by rewrite !bool_decide_eq_true_2 by congruence.
Qed.

Lemma foldl_earliest chains start :
  let earliest := foldl (fun e c => if nat_hasRules c && (nat_priority c <? e) then nat_priority c else e) start chains in
  earliest <= start /\ Forall (fun c => nat_hasRules c = true -> earliest <= nat_priority c) chains.
Proof.
  revert start; induction chains as [|c chains IH]; intros start; simpl; [split; [lia|constructor]|].
  set (s := if nat_hasRules c && (nat_priority c <? start) then nat_priority c else start).
  destruct (IH s) as [H1 H2]. assert (s <= start /\ (nat_hasRules c = true -> s <= nat_priority c)) as [H3 H4].
  { subst s. destruct (nat_hasRules c); simpl; [|split; [lia|done]].
    destruct (Z.ltb_spec (nat_priority c) start); split; intros; lia. }
  split; [lia|]. constructor; [|done]. intros Hc. specialize (H4 Hc). lia.
Qed.

Lemma nextNFTPostroutingPriority_spec chains p :
  nextNFTPostroutingPriority chains = Ok p ->
  nftConntrackPriority < p < iptablesSourceNATPriority /\
  Forall (fun c => nat_hasRules c = true -> p < nat_priority c) chains.
Proof.
  unfold nextNFTPostroutingPriority. intros H. inv_result.
  destruct (foldl_earliest chains iptablesSourceNATPriority) as [H1 H2]. cbv zeta in H1, H2.
  destruct (Z.leb_spec (foldl (fun e c => if nat_hasRules c && (nat_priority c <? e) then nat_priority c else e)
    iptablesSourceNATPriority chains) (nftConntrackPriority + 1)) as [|Hlt]; [done|].
  apply Ok_inj in H as <-. unfold nftConntrackPriority, iptablesSourceNATPriority in *. split; [lia|].
  eapply Forall_impl; [exact H2|]. intros c Hle Hr. specialize (Hle Hr). lia.
Qed.

Lemma validate_backend_ok claim id fw :
  firewall_identity id fw = Ok (nc_firewallTable claim, nc_nftPostroutingPriority claim, nc_forwardChains claim, nc_iptablesFrontend claim) ->
  nc_backend claim = fw_kind fw ->
  (fw_kind fw = firewallNFTables -> validateNFTForwardChains (nftForwardChains fw) (firewallName id) = None) ->
  (fw_kind fw = firewallIPTables -> validateIPTablesProviderNames (nc_transfers claim) = None) ->
  exists names, validate_backend claim id = Ok names /\ forall n, n ∈ names -> n = firewallName id.
Proof.
  unfold firewall_identity, validate_backend. intros H -> Hn Hi. case_bool_decide as Ek.
  - inv_result. match goal with H : nextNFTPostroutingPriority _ = Ok _ |- _ => apply nextNFTPostroutingPriority_spec in H as [Hp _] end.
    match goal with H : firewallName _ = _ |- _ => rename H into E1 end.
    match goal with H : "" = _ |- _ => rename H into E2 end.
    match goal with H : nftForwardChains _ = _ |- _ => rewrite <- H end. rewrite <- E1, <- E2.
    rewrite !bool_decide_eq_true_2 by done. cbn [negb orb]. unfold validateTransferLanesNFTPostroutingPriority, validateNFTNATPriority.
    rewrite !(proj2 (Z.leb_gt _ _)) by lia. rewrite (Hn Ek). eexists. split; [done|]. set_solver.
  - case_bool_decide as Ek'; [|done]. destruct (knownIPTablesFrontend _) eqn:Ef; [|done]. cbn [negb] in H.
    apply Ok_inj in H. apply pair_equal_spec in H as [H Hfr]. apply pair_equal_spec in H as [H Hch].
    apply pair_equal_spec in H as [Htb Hpr]. rewrite <- Htb, <- Hpr, <- Hch, <- Hfr, Ef, (Hi Ek').
    eexists. split; [done|]. set_solver.
Qed.

Lemma validateIPTables_ok ts :
  Forall (fun t => ends_with_plus (ta_providerName t) = false /\ ends_with_plus (hostVeth t) = false) ts ->
  validateIPTablesProviderNames ts = None.
Proof. induction 1 as [|t ts [H1 H2] _ IH]; [done|]. simpl. by rewrite H1, H2. Qed.

Lemma ForallOrdPairs_lookup {A} (R : A -> A -> Prop) l :
  (forall i j x y, (i < j)%nat -> l !! i = Some x -> l !! j = Some y -> R x y) <-> ForallOrdPairs R l.
Proof.
  split.
  - induction l as [|x l IH]; intros H; constructor.
    + apply Forall_lookup. intros i y Hy. by apply (H 0%nat (S i) x y ltac:(lia) eq_refl).
    + apply IH. intros i j a b Hij Ha Hb. by apply (H (S i) (S j) a b ltac:(lia)).
  - induction 1 as [|x l Hx Hl IH]; intros i j a b Hij Ha Hb; [done|].
    destruct i as [|i], j as [|j]; try lia; simpl in Ha, Hb.
    + injection Ha as <-. by apply (Forall_lookup_1 _ _ _ _ Hx Hb).
    + by apply (IH i j a b ltac:(lia)).
Qed.

(** One transfer of an allocation: its selection, and what it reserves for it. *)
Lemma allocated_transfer id token selected inventory a i t :
  allocateClaimNetwork id token selected inventory = Ok a -> na_transfers a !! i = Some t ->
  exists s local, s ∈ selected /\ reserves id inventory local token s t /\ selection_facts s /\
    Value (sel_transfer s) = Z.of_nat i + 1 /\ ta_number t = Z.of_nat i + 1 /\ na_returnTable a <> sel_routeTable s.
Proof.
  intros HA Hit. apply allocateClaimNetwork_spec in HA as (ordered & identity & _ & Ho & Hi & Ea & Ht).
  apply orderedSelections_spec in Ho as (Hperm & Hcheck & Hz). unfold Maximum in Hz.
  apply allocateRunNetworkIdentity_spec in Hi as (_ & _ & _ & _ & _ & _ & I3 & _).
  apply allocate_transfers_spec in Ht as (Hr & _).
  destruct (Forall2_lookup_r _ _ _ _ _ Hr Hit) as (s & Hs & Hres).
  exists s, (list_to_set (sel_source <$> ordered) ∪ localAddresses inventory).
  destruct (check_selections_spec 0 ordered Hcheck ltac:(lia) ltac:(lia) i s Hs) as (Hv & Hfacts).
  pose proof (lookup_lt_Some _ _ _ Hs). unfold zlen, selection_facts, Maximum in *.
  split; [rewrite <- Hperm; by eapply list_elem_of_lookup_2|]. split; [exact Hres|].
  split; [split; [lia|exact Hfacts]|]. split; [lia|split].
  - destruct Hres as (links & j & [_ _ -> _ _ _ _ _ _]). simpl. lia.
  - rewrite Ea. intros E. apply I3. simpl in E. rewrite E. apply list_elem_of_fmap. exists s.
    split; [done|by eapply list_elem_of_lookup_2].
Qed.

Lemma allocation_header id token selected inventory a :
  allocateClaimNetwork id token selected inventory = Ok a ->
  na_runID a = id /\ na_ownerToken a = token /\ validOwnerToken token = true /\
  0 < zlen (na_transfers a) <= Maximum /\
  firstReturnTable <= na_returnTable a <= lastReturnTable /\ firstClaimProtocol <= na_protocol a <= lastClaimProtocol /\
  na_backend a = fw_kind (firewall inventory) /\
  firewall_identity id (firewall inventory)
    = Ok (na_firewallTable a, na_nftPostroutingPriority a, na_forwardChains a, na_iptablesFrontend a) /\
  rejectFirewallIdentityCollisions id inventory = None /\
  (na_returnTable a ∉ usedRouteTables inventory) /\ (na_protocol a ∉ usedProtocols inventory).
Proof.
  intros HA. apply allocateClaimNetwork_spec in HA as (ordered & identity & Hv & Ho & Hi & Ea & Ht).
  apply orderedSelections_spec in Ho as (_ & _ & Hz). apply allocate_transfers_spec in Ht as (Hr & _).
  apply Forall2_length in Hr. unfold zlen in *. rewrite Hr in Hz.
  apply allocateRunNetworkIdentity_spec in Hi as (I1 & I2 & _ & I3 & I4 & I8 & _ & I5 & I9 & I6 & I7).
  rewrite Ea. simpl. tauto.
Qed.

Lemma allocated_names id inventory local token s t :
  reserves id inventory local token s t -> id_wf id ->
  slen (hostVeth t) = 15 /\ slen (peerVeth t) = 15 /\ ends_with_plus (hostVeth t) = false /\
  peerVeth t = derivedPeerName id (Value (sel_transfer s)).
Proof.
  intros (links & j & [Hl _ -> _ _ _ _ _ _]) Hid. apply transferLinks_derived in Hl as (L1 & _ & L3 & _ & L5).
  apply deriveLinkOwnerID_wf in L1. cbn [makeTransferAllocation hostVeth peerVeth]. rewrite L3, L5.
  split_and!; [by apply hostName_length|by apply derivedPeerName_length|apply hostName_not_plus|done].
Qed.

(** Two transfers of an allocation, whose names do not cross. *)
Lemma allocated_distinct id token selected inventory a i j t1 t2 :
  allocateClaimNetwork id token selected inventory = Ok a -> id_wf id ->
  na_transfers a !! i = Some t1 -> na_transfers a !! j = Some t2 -> i <> j ->
  compatible t1 t2 -> hostVeth t2 <> peerVeth t1 -> hostVeth t1 <> peerVeth t2 -> distinct t1 t2.
Proof.
  intros HA Hid H1 H2 Hij (C1 & C2 & C3) X1 X2.
  destruct (C2 (outboundPriority t1) (or_introl eq_refl)) as [P1 P2], (C2 (returnPriority t1) (or_intror eq_refl)) as [P3 P4].
  destruct (allocated_transfer _ _ _ _ _ _ _ HA H1) as (s1 & l1 & _ & R1 & [F1 _] & V1 & N1 & _).
  destruct (allocated_transfer _ _ _ _ _ _ _ HA H2) as (s2 & l2 & _ & R2 & [F2 _] & V2 & N2 & _).
  destruct (reserves_slot _ _ _ _ _ _ R1) as (k1 & _ & E1), (reserves_slot _ _ _ _ _ _ R2) as (k2 & _ & E2).
  destruct (allocated_names _ _ _ _ _ _ R1 Hid) as (_ & _ & _ & Q1), (allocated_names _ _ _ _ _ _ R2 Hid) as (_ & _ & _ & Q2).
  unfold Maximum in *. unfold distinct. split_and!; try congruence; try lia.
  - rewrite Q1, Q2. intros E. apply derivedPeerName_inj in E; lia.
  - rewrite E1, E2 in *. apply slot_Overlaps. intros ->. by apply disjoint_slots in C3.
Qed.

(** What the allocator leaves to chance: whether a route without a gateway carries
    none, whether the inventoried forward chains are valid, whether the providers
    are exact names to iptables, and whether a derived host link name is also a
    derived peer name. *)
Record publishable (id : ID) (inventory : hostInventory) (ts : list transferAllocation) : Prop := {
  publish_gateways : Forall (fun t => ta_hasGateway t = false -> ta_gateway t = AddrNone) ts;
  publish_chains : fw_kind (firewall inventory) = firewallNFTables ->
    validateNFTForwardChains (nftForwardChains (firewall inventory)) (firewallName id) = None;
  publish_providers : fw_kind (firewall inventory) = firewallIPTables ->
    Forall (fun t => ends_with_plus (ta_providerName t) = false) ts;
  publish_names : forall t t', In t ts -> In t' ts -> hostVeth t <> peerVeth t'
}.

Lemma publishable_valid id token selected inventory a :
  allocateClaimNetwork id token selected inventory = Ok a -> id_wf id -> publishable id inventory (na_transfers a) ->
  validateClaim (claimFromAllocation a) id = None.
Proof.
  intros HA Hid [Hg Hn Hi Hx].
  destruct (allocation_header _ _ _ _ _ HA) as (H1 & H2 & H3 & H4 & H5 & H6 & H7 & H8 & _).
  pose proof (allocation_pairs _ _ _ _ _ HA) as Hpairs. rewrite <- ForallOrdPairs_lookup in Hpairs.
  assert (Forall (fun t => exists s local, s ∈ selected /\ reserves id inventory local token s t) (na_transfers a)) as Hres.
  { apply Forall_lookup. intros i t Hit. destruct (allocated_transfer _ _ _ _ _ _ _ HA Hit) as (s & l & ? & ? & _). eauto. }
  destruct (validate_backend_ok (claimFromAllocation a) id (firewall inventory)) as (names & Hb & Hnames); [done..| |].
  { intros Ek. apply validateIPTables_ok. specialize (Hi Ek). rewrite Forall_forall in Hi, Hres |- *.
    intros t Ht. destruct (Hres t Ht) as (s & l & Hs & Hr). destruct (allocated_names _ _ _ _ _ _ Hr Hid) as (_ & _ & Hp & _). split; [|done].
    by apply Hi. }
  unfold validateClaim. rewrite Hb. simpl. rewrite H1, H2, H3, bool_decide_eq_true_2 by done.
  unfold firstReturnTable, lastReturnTable, firstClaimProtocol, lastClaimProtocol, Maximum in *.
  rewrite (proj2 (Z.eqb_neq _ 0)), !(proj2 (Z.ltb_ge _ _)) by lia. simpl. apply validate_claim_transfers_ok.
  - apply Forall_lookup. intros i t Hit. destruct (allocated_transfer _ _ _ _ _ _ _ HA Hit) as (s & l & Hs & Hr & Hf & _ & _ & Ht).
    eapply reserved_facts; [exact Hr|exact Hf| |done..].
    pose proof (Forall_lookup_1 _ _ _ _ Hg Hit) as Hgt. by destruct Hr as (links & j & [_ _ E _ _ _ _ _ _]); rewrite E in Hgt.
  - intros i t Hit. destruct (allocated_transfer _ _ _ _ _ _ _ HA Hit) as (? & ? & _ & _ & _ & _ & -> & _). lia.
  - apply Forall_forall. intros t Ht. rewrite Forall_forall in Hres. destruct (Hres t Ht) as (s & l & _ & Hr).
    destruct (allocated_names _ _ _ _ _ _ Hr Hid) as (L1 & L2 & _ & _). pose proof (firewallName_length id Hid) as L3.
    assert (In t (na_transfers a)) as Hin by by apply list_elem_of_In.
    unfold fresh. simpl. split_and!; [apply not_elem_of_empty..| | |by apply Hx|constructor].
    + intros E%Hnames. rewrite E in L1. lia.
    + intros E%Hnames. rewrite E in L2. lia.
  - apply ForallOrdPairs_lookup. intros i j t1 t2 Hij Ht1 Ht2.
    assert (In t1 (na_transfers a)) as M1 by by eapply list_elem_of_In, list_elem_of_lookup_2.
    assert (In t2 (na_transfers a)) as M2 by by eapply list_elem_of_In, list_elem_of_lookup_2.
    apply (allocated_distinct _ _ _ _ _ _ _ _ _ HA Hid Ht1 Ht2); [lia|by eapply Hpairs|by apply Hx..].
Qed.

(** The other way: what a valid claim of an allocation says of these things. *)
Lemma validateIPTables_inv ts :
  validateIPTablesProviderNames ts = None -> Forall (fun t => ends_with_plus (ta_providerName t) = false) ts.
Proof.
  induction ts as [|t ts IH]; [by constructor|]. cbn [validateIPTablesProviderNames]. destruct (_ || _) eqn:E; [done|].
  apply orb_false_iff in E as [E _]. intros Hts. constructor; [done|by apply IH].
Qed.

Lemma ok_transfer_gateway claim t : ok_transfer claim t -> ta_hasGateway t = false -> ta_gateway t = AddrNone.
Proof.
  intros (owner & mac & _ & _ & Hf) Hg. unfold transfer_facts_ok in Hf. rewrite !andb_true_iff, Hg in Hf.
  assert (negb (AddrIsValid (ta_gateway t)) = true) as Hv by tauto. by destruct (ta_gateway t).
Qed.

Lemma distinct_names ts :
  ForallOrdPairs distinct ts -> Forall (fun t => hostVeth t <> peerVeth t) ts ->
  forall t t', In t ts -> In t' ts -> hostVeth t <> peerVeth t'.
Proof.
  intros Hd Hs t t' Ht Ht'. rewrite Forall_forall in Hs. rewrite <- list_elem_of_In in Ht, Ht'.
  apply list_elem_of_lookup in Ht as (i & Hi), Ht' as (j & Hj). rewrite <- ForallOrdPairs_lookup in Hd.
  destruct (Nat.lt_total i j) as [Hij|[->|Hij]].
  - destruct (Hd _ _ _ _ Hij Hi Hj) as (_ & _ & _ & _ & [E _] & _). congruence.
  - rewrite Hi in Hj. injection Hj as <-. apply Hs. by eapply list_elem_of_lookup_2.
  - destruct (Hd _ _ _ _ Hij Hj Hi) as (_ & _ & _ & [_ E] & _). congruence.
Qed.

Lemma valid_publishable id token selected inventory a :
  allocateClaimNetwork id token selected inventory = Ok a -> validateClaim (claimFromAllocation a) id = None ->
  publishable id inventory (na_transfers a).
Proof.
  intros HA Hv. destruct (allocation_header _ _ _ _ _ HA) as (_ & _ & _ & _ & _ & _ & Hk & Hfw & _).
  unfold validateClaim in Hv. destruct (_ || _) in Hv; [done|]. destruct (validate_backend _ id) as [names|] eqn:Eb; [|done].
  apply validate_claim_transfers_inv in Hv as (V1 & _ & V3 & V4). unfold validate_backend in Eb. cbn [claimFromAllocation nc_backend nc_transfers nc_forwardChains nc_firewallTable] in *.
  constructor.
  - eapply Forall_impl; [exact V1|]. intros t. apply ok_transfer_gateway.
  - intros Ek. rewrite Hk, bool_decide_eq_true_2 in Eb by done. destruct (_ || _) eqn:Et in Eb; [done|].
    destruct (validateTransferLanesNFTPostroutingPriority _); [done|]. bool_to_prop.
    unfold firewall_identity in Hfw. rewrite Ek, bool_decide_eq_true_2 in Hfw by done. inv_result.
    match goal with H : nftForwardChains _ = _ |- _ => rewrite H end.
    match goal with H : firewallName _ = _ |- _ => rewrite H end.
    by destruct (validateNFTForwardChains _ _).
  - intros Ek. rewrite Hk, Ek, bool_decide_eq_false_2, bool_decide_eq_true_2 in Eb by done.
    destruct (_ || _) in Eb; [done|].
    apply validateIPTables_inv. by destruct (validateIPTablesProviderNames _).
  - apply distinct_names; [done|]. eapply Forall_impl; [exact V3|]. by intros t (_ & _ & _ & _ & _ & ? & _).
Qed.

(** C36. What the allocator reserves is publishable: the claim of an allocation
    passes the whole validation a claim read from disk must pass, so the run
    that wrote it, or a later one that cleans up after it, can read it back,
    exactly when four things hold that the allocator does not establish: a
    transfer without a gateway carries none, under nftables the inventoried
    forward chains are valid, under iptables no provider's name ends in a plus
    sign, and no derived host link name is a derived peer name. *)
Theorem allocated_claim_is_valid id token selected inventory a
    (HA : allocateClaimNetwork id token selected inventory = Ok a) (Hid : id_wf id) :
  validateClaim (claimFromAllocation a) id = None <-> publishable id inventory (na_transfers a).
Proof. split; [by eapply valid_publishable|by eapply publishable_valid]. Qed.

(** ** The claim of the sample allocation *)
Definition sample_names_apart (ts : list transferAllocation) : bool :=
  forallb (fun t => forallb (fun t' => negb (bool_decide (hostVeth t = peerVeth t'))) ts) ts.

Lemma names_apart_spec ts :
  sample_names_apart ts = true -> forall t t', In t ts -> In t' ts -> hostVeth t <> peerVeth t'.
Proof.
  unfold sample_names_apart. rewrite forallb_forall. intros H t t' Ht Ht'. specialize (H t Ht). rewrite forallb_forall in H.
  specialize (H t' Ht'). by rewrite negb_true_iff, bool_decide_eq_false in H.
Qed.

Example sample_names : sample_names_apart (na_transfers (sample_allocation [local_rule; lan_rule])) = true.
Proof. vm_compute. reflexivity. Qed.

Lemma sample_gateways :
  Forall (fun t => ta_hasGateway t = false -> ta_gateway t = AddrNone) (na_transfers (sample_allocation [local_rule; lan_rule])).
Proof. apply (bool_decide_unpack _). vm_compute. done. Qed.

Lemma sample_providers :
  Forall (fun t => ends_with_plus (ta_providerName t) = false) (na_transfers (sample_allocation [local_rule; lan_rule])).
Proof. apply (bool_decide_unpack _). vm_compute. done. Qed.

Lemma allocated_claim_is_valid_witness :
  validateClaim (claimFromAllocation (sample_allocation [local_rule; lan_rule])) sample_id = None.
Proof.
  apply (proj2 (allocated_claim_is_valid sample_id sample_token [sample_selection] (sample_inventory [local_rule; lan_rule])
                  (sample_allocation [local_rule; lan_rule]) sample_run_allocated eq_refl)).
  constructor.
  - exact sample_gateways.
  - intros E. discriminate E.
  - intros _. exact sample_providers.
  - exact (names_apart_spec _ sample_names).
Defined.
