(* ===== verification/HostRules.v ===== *)
(** * The rules of the host

    [hostnetwork/rpdb_linux.go]: the rules of the inventory, decoded from the
    kernel's dump, and what the allocation guarantees against every rule of
    that dump.  Parsing of headers and attributes is the netlink library's. *)
From S2P Require Import Prelude TransferNumber GoText Netip Hashing Catalog RuleDecode RunId HostAllocation HostAllocationProofs.

Definition RT_TABLE_LOCAL : Z := 255.

(** ** Changes of the rule being decoded *)
Definition with_selectors (source destination : option Prefix) (input : string) (r : routingRule) : routingRule :=
  MkRoutingRule (rr_priority r) (rr_table r) (rr_action r) source destination input (rr_inverted r)
    (rr_unknownSelector r) (rr_unknownTypes r) (rr_builtinLocal r) (rr_protocol r).
Definition with_numbers (priority table protocol : Z) (r : routingRule) : routingRule :=
  MkRoutingRule priority table (rr_action r) (rr_source r) (rr_destination r) (rr_inputInterface r) (rr_inverted r)
    (rr_unknownSelector r) (rr_unknownTypes r) (rr_builtinLocal r) protocol.
Definition with_flags (inverted unknown : bool) (types : list Z) (builtin : bool) (r : routingRule) : routingRule :=
  MkRoutingRule (rr_priority r) (rr_table r) (rr_action r) (rr_source r) (rr_destination r) (rr_inputInterface r)
    inverted unknown types builtin (rr_protocol r).

(** An attribute the decoder does not read. *)
Definition mark_unknown (kind : Z) (r : routingRule) : routingRule :=
  with_flags (rr_inverted r) true (rr_unknownTypes r ++ [kind]) (rr_builtinLocal r) r.

Definition nulTerminatedName (value : list byte) : option string :=
  if (zlen value <? 2) || negb (b2z (List.last value x01) =? 0) then None
  else
    let name := text_of (removelast value) in
    if bool_decide (name = "") || contains_byte x00 name then None else Some name.

Definition applyRoutingRuleHeader (rule : routingRule) (tos flags : Z) : routingRule :=
  let rule := with_flags (has_flag flags FIB_RULE_INVERT) (rr_unknownSelector rule) (rr_unknownTypes rule)
                (rr_builtinLocal rule) rule in
  if negb (tos =? 0) || negb (Z.ldiff flags (Z.lor FIB_RULE_PERMANENT FIB_RULE_INVERT) =? 0)
  then with_flags (rr_inverted rule) true (rr_unknownTypes rule) (rr_builtinLocal rule) rule
  else rule.

(** An address selector with the bits of the header. *)
Definition selector_prefix (value : list byte) (bits : Z) (message : string) : result Prefix :=
  match AddrFromSlice value with
  | Some address =>
      if negb (Is4 (Unmap address)) || (32 <? bits) then Err (ErrText message)
      else Ok (Masked (PrefixFrom (Unmap address) bits))
  | None => Err (ErrText message)
  end.

Section Decoder.
Context `{Netlink}.

Definition nativeUint32 (value : list byte) : option Z :=
  if negb (zlen value =? 4) then None else Some (NativeUint32 value).

Definition or_invalid {A} (message : string) (o : option A) : result A :=
  match o with Some a => Ok a | None => Err (ErrText message) end.

Definition applyRoutingRuleAttribute (rule : routingRule) (kind : Z) (value : list byte) (sourceBits destinationBits : Z)
    : result routingRule :=
  if kind =? FRA_PRIORITY then
    let* v := or_invalid "host IPv4 rule has invalid priority" (nativeUint32 value) in
    Ok (with_numbers v (rr_table rule) (rr_protocol rule) rule)
  else if kind =? FRA_TABLE then
    let* v := or_invalid "host IPv4 rule has invalid table" (nativeUint32 value) in
    Ok (with_numbers (rr_priority rule) v (rr_protocol rule) rule)
  else if kind =? FRA_SRC then
    let* p := selector_prefix value sourceBits "host IPv4 rule has invalid source selector" in
    Ok (with_selectors (Some p) (rr_destination rule) (rr_inputInterface rule) rule)
  else if kind =? FRA_DST then
    let* p := selector_prefix value destinationBits "host IPv4 rule has invalid destination selector" in
    Ok (with_selectors (rr_source rule) (Some p) (rr_inputInterface rule) rule)
  else if kind =? FRA_IIFNAME then
    let* name := or_invalid "host IPv4 rule has invalid input interface selector" (nulTerminatedName value) in
    Ok (with_selectors (rr_source rule) (rr_destination rule) name rule)
  else if kind =? FRA_PROTOCOL then
    match value with
    | [b] => Ok (with_numbers (rr_priority rule) (rr_table rule) (b2z b) rule)
    | _ => Err (ErrText "host IPv4 rule has invalid protocol")
    end
  else if kind =? FRA_PAD then Ok rule
  else if is_one_of kind [FRA_SUPPRESS_IFGROUP; FRA_SUPPRESS_PREFIXLEN] then
    let* v := or_invalid "host IPv4 rule has invalid suppress selector" (nativeUint32 value) in
    Ok (if negb (v =? 2 ^ 32 - 1) then mark_unknown kind rule else rule)
  else Ok (mark_unknown kind rule).

(** The loop over the attributes, with the kinds it has seen. *)
Fixpoint apply_attributes (header : RtMsg) (rule : routingRule) (seen : gset Z) (attributes : list (Z * list byte))
    : result routingRule :=
  match attributes with
  | [] => Ok rule
  | (raw, value) :: attributes =>
      let kind := Z.land raw NLA_TYPE_MASK in
      if negb (kind =? FRA_PAD) && bool_decide (kind ∈ seen)
      then apply_attributes header (mark_unknown kind rule) seen attributes
      else
        let seen := if negb (kind =? FRA_PAD) then {[ kind ]} ∪ seen else seen in
        let* rule := applyRoutingRuleAttribute rule kind value (rt_Src_len header) (rt_Dst_len header) in
        apply_attributes header rule seen attributes
  end.

Definition builtin_local (rule : routingRule) : bool :=
  (rr_priority rule =? 0) && (rr_table rule =? RT_TABLE_LOCAL) && (rr_action rule =? ruleActionLookup)
  && bool_decide (rr_source rule = None) && bool_decide (rr_destination rule = None)
  && bool_decide (rr_inputInterface rule = "") && negb (rr_inverted rule) && negb (rr_unknownSelector rule).

Definition routingRuleFromMessage (message : list byte) : result routingRule :=
  let header := DeserializeRtMsg message in
  if negb (rt_Family header =? AF_INET) then Err (ErrText "IPv4 rule dump returned an invalid family")
  else
    let* attributes := wrap_error "parse host IPv4 rule" (ParseRouteAttr (drop (RtMsg_Len header) message)) in
    let rule := MkRoutingRule 0 (rt_Table header) (rt_Type header) None None "" false false [] false 0 in
    let rule := applyRoutingRuleHeader rule (rt_Tos header) (rt_Flags header) in
    let* rule := apply_attributes header rule ∅ attributes in
    Ok (with_flags (rr_inverted rule) (rr_unknownSelector rule) (rr_unknownTypes rule) (builtin_local rule) rule).
End Decoder.

(** ** What a decoded rule looks like *)
(** [binary.NativeEndian.Uint32] is a 32-bit number. *)
Class NativeLaws `{Netlink} : Prop := { native_range l : in_u 32 (NativeUint32 l) }.

Section Decoded.
Context `{NativeLaws}.

Definition host_rule_wf (r : routingRule) : Prop :=
  0 <= rr_priority r /\ (forall q, rr_source r = Some q -> Is4 (prefix_ip q) = true).

Lemma selector_prefix_Is4 value bits message p : selector_prefix value bits message = Ok p -> 0 <= bits -> Is4 (prefix_ip p) = true.
Proof.
  unfold selector_prefix. destruct (AddrFromSlice value) as [a|]; [|done].
  destruct (Is4 (Unmap a)) eqn:E4; [|done]. destruct (Z.ltb_spec 32 bits) as [|Hb]; [done|]. intros Hp Hb0.
  apply Ok_inj in Hp as <-. destruct (Unmap a) as [|v|]; try done. unfold PrefixFrom. simpl.
  rewrite (proj2 (Z.leb_le 0 bits)), (proj2 (Z.leb_le bits 32)) by lia. unfold Masked, PrefixIsValid. simpl.
  by rewrite (proj2 (Z.leb_le 0 bits)) by lia.
Qed.

Lemma nativeUint32_range value message v : or_invalid message (nativeUint32 value) = Ok v -> 0 <= v.
Proof.
  unfold nativeUint32. destruct (negb _); [done|]. intros Hv. apply Ok_inj in Hv as <-.
  destruct (native_range value). lia.
Qed.

Lemma applyRoutingRuleAttribute_wf rule kind value sb db rule' :
  applyRoutingRuleAttribute rule kind value sb db = Ok rule' -> 0 <= sb -> host_rule_wf rule -> host_rule_wf rule'.
Proof.
  unfold applyRoutingRuleAttribute. intros Hr Hsb [W1 W2].
  repeat match type of Hr with (if ?c then _ else _) = _ => destruct c end; inv_result; try done.
  - split; [by eapply nativeUint32_range|done].
  - split; [done|]. simpl. intros q [= <-]. by eapply selector_prefix_Is4.
  - destruct value as [|b [|]]; try done. by apply Ok_inj in Hr as <-.
  - by destruct (negb _).
Qed.

Lemma apply_attributes_wf header rule seen attributes rule' :
  apply_attributes header rule seen attributes = Ok rule' -> 0 <= rt_Src_len header -> host_rule_wf rule -> host_rule_wf rule'.
Proof.
  revert rule seen; induction attributes as [|[raw value] attributes IH]; intros rule seen Hr Hs Hw; [by apply Ok_inj in Hr as <-|].
  cbn [apply_attributes] in Hr. destruct (_ && _); [by eapply IH; [exact Hr|..]|]. inv_result.
  eapply IH; [exact Hr|done|]. by eapply applyRoutingRuleAttribute_wf.
Qed.

Lemma routingRuleFromMessage_wf `{!NetlinkLaws} message rule : routingRuleFromMessage message = Ok rule -> host_rule_wf rule.
Proof.
  unfold routingRuleFromMessage. destruct (negb _); [done|]. intros Hr. inv_result.
  match goal with H : apply_attributes _ _ _ _ = Ok _ |- _ => apply apply_attributes_wf in H; [|apply header_lengths|] end; [done|].
  unfold applyRoutingRuleHeader. by destruct (_ || _).
Qed.
End Decoded.

(** C34. The rules the kernel dumped, other than its built-in local one, leave a
    transfer's packets to the rules the run installs for it: a packet the
    transfer's namespace sends is taken before the transfer's outbound priority by
    no rule but an inverted one that also selects a destination, which the
    program misses, and an answer arriving from the provider's interface with a
    source that is neither an address of the host nor that of a transfer is taken
    before its return priority by no rule at all, whatever the selectors the
    program could not read may mean. *)
Theorem dumped_rules_do_not_preempt {nl : Netlink} {laws : NetlinkLaws} {native : NativeLaws}
    (unread : routingRule -> packet -> bool) messages id token selected inventory a t rule p
    (HR : mmap routingRuleFromMessage messages = Ok (routingRules inventory))
    (HA : allocateClaimNetwork id token selected inventory = Ok a)
    (Ht : In t (na_transfers a)) (Hrule : In rule (routingRules inventory)) (Hb : rr_builtinLocal rule = false) :
  (rr_priority rule < outboundPriority t -> no_inverted_destination rule ->
     packet_source p = namespaceIP t -> packet_input p = hostVeth t -> rule_takes unread rule p = false) /\
  (rr_priority rule < returnPriority t ->
     packet_destination p = namespaceIP t -> packet_input p = ta_providerName t ->
     (packet_source p ∉ localAddresses inventory) -> Forall (fun s => packet_source p <> sel_source s) selected ->
     rule_takes unread rule p = false).
Proof.
  assert (host_rule_wf rule) as [H0 H4].
  { rewrite mmap_Ok in HR. apply list_elem_of_In, list_elem_of_lookup in Hrule as (i & Hi).
    destruct (Forall2_lookup_r _ _ _ _ _ HR Hi) as (m & _ & Hm). by eapply routingRuleFromMessage_wf. }
  destruct (host_rule_not_taken unread id token selected inventory a t rule p HA Ht Hrule Hb H0) as [H1 H2].
  split; [exact H1|]. intros Hp. by apply H2.
Qed.

(** ** A dumped table: the local rule and [from 192.168.0.2 lookup 254] *)
Definition dump_netlink : Netlink :=
  Build_Netlink sample_header (fun _ => 12%nat) (fun m => sample_attributes (length m) m) (fun l => le_get (take 4 l)).

Lemma dump_netlink_laws : NetlinkLaws (H := dump_netlink).
Proof. split. intros m. simpl. split; apply b2z_range. Qed.

Lemma dump_native_laws : NativeLaws (H := dump_netlink).
Proof.
  split. intros l. simpl. unfold le_get. pose proof (be_get_range (rev (take 4 l))) as Hr.
  rewrite length_rev, length_take in Hr. unfold in_u. split; [lia|].
  eapply Z.lt_le_trans; [apply Hr|]. change (2 ^ 32) with (256 ^ 4). apply Z.pow_le_mono_r; lia.
Qed.

Definition dump : list (list byte) :=
  [[x02; x00; x00; x00; xff; x00; x00; x01; x00; x00; x00; x00] ++ [x05; x00; x15; x00; x02; x00; x00; x00];
   [x02; x00; x20; x00; xfe; x00; x00; x01; x00; x00; x00; x00] ++ [x08; x00; x02; x00; xc0; xa8; x00; x02]
   ++ [x08; x00; x06; x00; x64; x00; x00; x00] ++ [x05; x00; x15; x00; x03; x00; x00; x00]].

Example dump_decodes : mmap (routingRuleFromMessage (H := dump_netlink)) dump = Ok [local_rule; lan_rule].
Proof. vm_compute. reflexivity. Qed.

Definition dumped_transfer : transferAllocation :=
  hd (makeTransferAllocation sample_selection (MkLinks (MkOwner []) "" (MkMAC []) "" (MkMAC [])) (slot 0) 0 0)
    (na_transfers (sample_allocation [local_rule; lan_rule])).

Example dumped_transfer_allocated :
  In dumped_transfer (na_transfers (sample_allocation [local_rule; lan_rule])) /\
  rr_priority lan_rule < outboundPriority dumped_transfer.
Proof. vm_compute. split; [by left|reflexivity]. Qed.

Lemma lan_rule_plain : no_inverted_destination lan_rule.
Proof. intros E. discriminate E. Qed.

Lemma dumped_rules_do_not_preempt_witness :
  rule_takes (fun _ _ => true) lan_rule (to_the_internet dumped_transfer) = false.
Proof.
  exact (proj1 (dumped_rules_do_not_preempt (laws := dump_netlink_laws) (native := dump_native_laws) (fun _ _ => true) dump
           sample_id sample_token [sample_selection] (sample_inventory [local_rule; lan_rule])
           (sample_allocation [local_rule; lan_rule]) dumped_transfer lan_rule (to_the_internet dumped_transfer)
           dump_decodes sample_run_allocated (proj1 dumped_transfer_allocated) (or_intror (or_introl eq_refl)) eq_refl)
         (proj2 dumped_transfer_allocated) lan_rule_plain eq_refl eq_refl).
Defined.
