(* ===== verification/PublishedClaims.v ===== *)
(** * Runs beside each other

    A run allocates from an inventory in which the claims of the other runs are
    reserved.  The proofs here show that its own claim then goes with theirs, so
    that the set of published claims stays free of conflicts. *)
From S2P Require Import Prelude TransferNumber GoText Netip Hashing RunId HostAllocation HostAllocationProofs HostClaim.

(** ** What merging a claim adds to an inventory *)
Definition claimed_chain (q : networkClaim) : nftPostroutingNATChain :=
  MkNATChain "ip" (nc_firewallTable q) "postrouting" (nc_nftPostroutingPriority q) true.

Record covers_transfer (inventory : hostInventory) (t : transferAllocation) : Prop := {
  cov_link : hostVeth t ∈ linkNames inventory;
  cov_outbound : outboundPriority t ∈ priorities inventory;
  cov_return : returnPriority t ∈ priorities inventory;
  cov_subnet : In (subnet t) (routePrefixes inventory)
}.

Record covers (inventory : hostInventory) (q : networkClaim) : Prop := {
  cov_table : nc_returnTable q ∈ usedRouteTables inventory;
  cov_protocol : nc_protocol q ∈ usedProtocols inventory;
  cov_owner : IDString (nc_runID q) ∈ transferlanesOwnerReferences (firewall inventory);
  cov_nft : nc_backend q = firewallNFTables -> In (claimed_chain q) (nftPostroutingNATChains (firewall inventory)) /\
    (nc_firewallTable q ∈ nftTableNames (firewall inventory));
  cov_transfers : Forall (covers_transfer inventory) (nc_transfers q)
}.

(** An inventory that has at least what another one has. *)
Record extends (inventory inventory' : hostInventory) : Prop := {
  ext_links : linkNames inventory ⊆ linkNames inventory';
  ext_priorities : priorities inventory ⊆ priorities inventory';
  ext_tables : usedRouteTables inventory ⊆ usedRouteTables inventory';
  ext_protocols : usedProtocols inventory ⊆ usedProtocols inventory';
  ext_prefixes : forall q, In q (routePrefixes inventory) -> In q (routePrefixes inventory');
  ext_owners : transferlanesOwnerReferences (firewall inventory) ⊆ transferlanesOwnerReferences (firewall inventory');
  ext_chains : forall c, In c (nftPostroutingNATChains (firewall inventory)) -> In c (nftPostroutingNATChains (firewall inventory'));
  ext_table_names : nftTableNames (firewall inventory) ⊆ nftTableNames (firewall inventory');
  ext_kind : fw_kind (firewall inventory') = fw_kind (firewall inventory);
  ext_rules : routingRules inventory' = routingRules inventory;
  ext_conntrack : conntrackOriginalSources inventory' = conntrackOriginalSources inventory
}.

Lemma extends_refl i : extends i i.
Proof. by constructor. Qed.

Lemma extends_trans i j k : extends i j -> extends j k -> extends i k.
Proof. intros [] []. constructor; solve [by etrans|auto|congruence]. Qed.

Lemma covers_extends i j q : extends i j -> covers i q -> covers j q.
Proof.
  intros [] [C1 C2 C3 C4 C5]. constructor; [auto..| |].
  - intros Hq. destruct (C4 Hq). auto.
  - eapply Forall_impl; [exact C5|]. intros t []. constructor; auto.
Qed.

Lemma merge_transfer_spec i t : extends i (merge_transfer i t) /\ covers_transfer (merge_transfer i t) t.
Proof.
  split; constructor; simpl; try set_solver.
  - intros q Hq. apply in_or_app. by left.
  - apply in_or_app. right. by left.
Qed.

Lemma mergeClaimTransfers_spec i ts :
  extends i (mergeClaimTransfers i ts) /\ Forall (covers_transfer (mergeClaimTransfers i ts)) ts.
Proof.
  revert i; induction ts as [|t ts IH]; intros i; [split; [apply extends_refl|constructor]|].
  destruct (IH (merge_transfer i t)) as [H1 H2]. destruct (merge_transfer_spec i t) as [H3 [C1 C2 C3 C4]].
  split; [by eapply extends_trans|]. constructor; [|done]. destruct H1. constructor; auto.
Qed.

Lemma mergeClaimedNFTChain_spec fw q present fw' :
  mergeClaimedNFTChain fw q present = Ok fw' ->
  In (claimed_chain q) (nftPostroutingNATChains fw') /\
  (forall c, In c (nftPostroutingNATChains fw) -> In c (nftPostroutingNATChains fw')) /\
  nftTableNames fw' = {[ nc_firewallTable q ]} ∪ nftTableNames fw /\
  transferlanesOwnerReferences fw' = transferlanesOwnerReferences fw /\ fw_kind fw' = fw_kind fw.
Proof.
  unfold mergeClaimedNFTChain. fold (claimed_chain q).
  set (observed := filter (fun c => same_chain c (claimed_chain q)) (nftPostroutingNATChains fw)).
  destruct (filter (fun c => c <> claimed_chain q) observed) eqn:Ef; [|done].
  destruct (1 <? zlen observed); [done|]. destruct (present && negb _) eqn:E1; [done|].
  destruct (negb present && _) eqn:E2; [done|]. intros H. apply Ok_inj in H as <-. simpl. split; [|split; [|done]].
  - destruct present; [|apply in_or_app; right; by left]. simpl in E1. rewrite negb_false_iff in E1. apply Z.eqb_eq in E1.
    assert (exists c, c ∈ observed) as [c Hc].
    { destruct observed as [|c l]; [by rewrite zlen_nil in E1|]. exists c. by left. }
    assert (c = claimed_chain q) as ->.
    { apply dec_stable. intros Hn. assert (c ∈ filter (fun c => c <> claimed_chain q) observed) as Hin by by apply list_elem_of_filter.
      rewrite Ef in Hin. by apply elem_of_nil in Hin. }
    apply list_elem_of_filter in Hc as [_ Hc]. by apply list_elem_of_In.
  - intros c Hc. destruct present; [done|]. apply in_or_app. by left.
Qed.

Lemma merge_claim_spec firewalls i q i' : merge_claim firewalls i q = Ok i' -> extends i i' /\ covers i' q.
Proof.
  unfold merge_claim. intros H. inv_result. match goal with fw : firewallInventory |- _ => rename fw into fw' end.
  match goal with |- extends _ (mergeClaimTransfers ?j _) /\ _ => set (m := j);
    destruct (mergeClaimTransfers_spec m (nc_transfers q)) as [He Ht] end.
  assert (extends i m /\ (nc_returnTable q ∈ usedRouteTables m) /\ (nc_protocol q ∈ usedProtocols m) /\
    (IDString (nc_runID q) ∈ transferlanesOwnerReferences (firewall m)) /\
    (nc_backend q = firewallNFTables -> In (claimed_chain q) (nftPostroutingNATChains (firewall m)) /\
       (nc_firewallTable q ∈ nftTableNames (firewall m)))) as (Hm & M1 & M2 & M3 & M4).
  { subst m. simpl. match goal with H : (if _ then _ else _) = Ok _ |- _ => revert H end. case_bool_decide as Eb.
    - intros (N1 & N2 & N3 & N4 & N5)%mergeClaimedNFTChain_spec. simpl in *. rewrite N4, N3.
      split; [constructor; simpl; rewrite ?N3, ?N4; try set_solver; done|]. split_and!; [set_solver..|]. intros _. split; [done|set_solver].
    - intros Hfw. apply Ok_inj in Hfw as <-. simpl. split; [constructor; simpl; try set_solver; done|]. split_and!; [set_solver..|done]. }
  split; [by eapply extends_trans|]. destruct He as [? ? E3 E4 ? E6 E7 E8 ? ? ?]. constructor; [by apply E3|by apply E4|by apply E6| |exact Ht].
  intros Eb. destruct (M4 Eb). auto.
Qed.

Lemma merge_claims_spec firewalls i qs i' :
  merge_claims firewalls i qs = Ok i' -> extends i i' /\ Forall (covers i') qs.
Proof.
  revert i; induction qs as [|q qs IH]; intros i H.
  { apply Ok_inj in H as <-. split; [apply extends_refl|constructor]. }
  simpl in H. inv_result. match goal with H : merge_claim _ _ _ = Ok _ |- _ => apply merge_claim_spec in H as [E1 C1] end.
  apply IH in H as [E2 C2]. split; [by eapply extends_trans|]. constructor; [|done]. by eapply covers_extends.
Qed.

(** ** Reservations stay within the inventory *)
Record reserved_in (r : publishedClaimReservations) (i : hostInventory) : Prop := {
  ri_tables : forall v id, pr_returnTables r !! v = Some id -> v ∈ usedRouteTables i;
  ri_protocols : forall v id, pr_protocols r !! v = Some id -> v ∈ usedProtocols i;
  ri_owners : forall v id, pr_firewallOwners r !! v = Some id -> v ∈ transferlanesOwnerReferences (firewall i);
  ri_nft_tables : forall v id, pr_nftTables r !! v = Some id -> v ∈ nftTableNames (firewall i);
  ri_nat : forall v id, pr_nftNATPriorities r !! v = Some id ->
    exists c, In c (nftPostroutingNATChains (firewall i)) /\ nat_hasRules c = true /\ nat_priority c = v;
  ri_links : forall v mac, pr_hostLinks r !! v = Some mac -> v ∈ linkNames i;
  ri_priorities : forall v id, pr_priorities r !! v = Some id -> v ∈ priorities i;
  ri_subnets : forall s, In s (pr_subnets r) -> In s (routePrefixes i) /\ exists k, s = slot k
}.

Lemma reserveClaimInt_Ok m v id what m' : reserveClaimInt m v id what = Ok m' -> m !! v = None /\ m' = <[ v := id ]> m.
Proof. unfold reserveClaimInt. destruct (m !! v) eqn:E; [done|]. by intros H%Ok_inj. Qed.

Lemma reserveClaimString_Ok m v id what m' : reserveClaimString m v id what = Ok m' -> m !! v = None /\ m' = <[ v := id ]> m.
Proof. unfold reserveClaimString. destruct (m !! v) eqn:E; [done|]. by intros H%Ok_inj. Qed.

Lemma reserveClaimInt_free m v id what : m !! v = None -> reserveClaimInt m v id what = Ok (<[ v := id ]> m).
Proof. unfold reserveClaimInt. by intros ->. Qed.

Lemma reserveClaimString_free m v id what : m !! v = None -> reserveClaimString m v id what = Ok (<[ v := id ]> m).
Proof. unfold reserveClaimString. by intros ->. Qed.

Lemma insert_within {K V : Type} `{Countable K} (P : K -> Prop) (m : gmap K V) k x :
  (forall v y, m !! v = Some y -> P v) -> P k -> forall v y, <[ k := x ]> m !! v = Some y -> P v.
Proof. intros Hm Hk v y. rewrite lookup_insert_Some. intros [[<- _]|[_ Hv]]; [done|by eapply Hm]. Qed.

Lemma addTransfer_within i id r t r' :
  addTransfer id r t = Ok r' -> covers_transfer i t -> (exists k, subnet t = slot k) -> reserved_in r i -> reserved_in r' i.
Proof.
  unfold addTransfer. intros H [C1 C2 C3 C4] Hk [R1 R2 R3 R4 R5 R6 R7 R8]. inv_result.
  match goal with H : reserveClaimInt _ (outboundPriority t) _ _ = Ok _ |- _ => apply reserveClaimInt_Ok in H as [_ ->] end.
  match goal with H : reserveClaimInt _ (returnPriority t) _ _ = Ok _ |- _ => apply reserveClaimInt_Ok in H as [_ ->] end.
  destruct (pr_hostLinks r !! hostVeth t); [done|]. destruct (existsb _ _); [done|]. apply Ok_inj in H as <-.
  constructor; simpl; try done.
  - by apply insert_within.
  - apply insert_within; [|done]. by apply insert_within.
  - intros s Hs. apply in_app_or in Hs as [Hs|[<-|[]]]; [by apply R8|done].
Qed.

Lemma addTransfers_within i id r ts r' :
  addTransfers id r ts = Ok r' -> Forall (covers_transfer i) ts -> Forall (fun t => exists k, subnet t = slot k) ts ->
  reserved_in r i -> reserved_in r' i.
Proof.
  revert r; induction ts as [|t ts IH]; intros r H Hc Hk Hr; [by apply Ok_inj in H as <-|].
  simpl in H. inv_result. apply Forall_cons in Hc as [Hc1 Hc2]. apply Forall_cons in Hk as [Hk1 Hk2].
  eapply IH; [exact H|done..|]. by eapply addTransfer_within.
Qed.

Lemma reservations_add_within i r q r' :
  reservations_add r q = Ok r' -> covers i q -> Forall (fun t => exists k, subnet t = slot k) (nc_transfers q) ->
  reserved_in r i -> reserved_in r' i.
Proof.
  unfold reservations_add. intros H [C1 C2 C3 C4 C5] Hk [R1 R2 R3 R4 R5 R6 R7 R8]. inv_result.
  match goal with H : reserveClaimInt _ _ _ _ = Ok _ |- _ => apply reserveClaimInt_Ok in H as [_ ->] end.
  match goal with H : reserveClaimProtocol _ _ _ = Ok _ |- _ => apply reserveClaimInt_Ok in H as [_ ->] end.
  match goal with H : reserveClaimString _ _ _ _ = Ok _ |- _ => apply reserveClaimString_Ok in H as [_ ->] end.
  eapply addTransfers_within; [exact H|done..|].
  match goal with H : (if _ then _ else _) = Ok _ |- _ => revert H end. case_bool_decide as Eb.
  - unfold addNFTables. intros Ha. destruct (C4 Eb) as [Q1 Q2]. inv_result. simpl in *.
    match goal with H : reserveClaimString _ _ _ _ = Ok _ |- _ => apply reserveClaimString_Ok in H as [_ ->] end.
    match goal with H : reserveClaimNFTPriority _ _ _ = Ok _ |- _ => apply reserveClaimInt_Ok in H as [_ ->] end.
    constructor; simpl; try done; try by apply insert_within.
    apply (insert_within (fun v => exists c, In c _ /\ nat_hasRules c = true /\ nat_priority c = v)); [done|]. by exists (claimed_chain q).
  - intros Ha. apply Ok_inj in Ha as <-. constructor; simpl; try done; by apply insert_within.
Qed.

(** The subnets of a valid claim are slots of the temporary range. *)
Lemma masked_in_range_slot p :
  prefix_bits p = 30 -> p = Masked p -> Contains temporaryRange (prefix_ip p) = true -> exists k, p = slot k.
Proof.
  intros Hb Hm (_ & _ & _ & Hl & Ht)%Contains_spec. unfold Masked, PrefixIsValid in Hm. rewrite Hb in Hm. simpl in Hm.
  destruct p as [[|v|v z] b]; simpl in *; try done. subst b. injection Hm as Hv.
  exists (v / 4 - 0x31848000). unfold slot, slot_base. do 2 f_equal. change (2 ^ (32 - 30)) with 4 in Hv. lia.
Qed.

Lemma validateClaim_slots q id : validateClaim q id = None -> Forall (fun t => exists k, subnet t = slot k) (nc_transfers q).
Proof.
  unfold validateClaim. destruct (_ || _); [done|]. destruct (validate_backend q id) as [names|]; [|done].
  generalize (MkSeen names ∅ ∅ []) at 1. generalize 0. generalize (nc_transfers q). intros ts.
  induction ts as [|t ts IH]; intros index seen H; [constructor|]. cbn [validate_claim_transfers] in H.
  destruct (negb _); [done|]. destruct (validateClaimTransfer q t seen) as [n|] eqn:Et; [|done].
  constructor; [|by eapply IH]. unfold validateClaimTransfer in Et. destruct (deriveLinkOwnerID _ _) as [owner|]; [|done].
  destruct (derivePeerMAC _ _) as [mac|]; [|done]. destruct (transfer_facts_ok q t owner mac) eqn:Ef; [|done].
  unfold transfer_facts_ok in Ef. rewrite !andb_true_iff, !bool_decide_eq_true, !Z.eqb_eq in Ef.
  apply masked_in_range_slot; tauto.
Qed.

Lemma reserve_claims_within firewalls i r qs r' :
  reserve_claims firewalls r qs = Ok r' -> Forall (covers i) qs -> reserved_in r i -> reserved_in r' i.
Proof.
  revert r; induction qs as [|q qs IH]; intros r H Hc Hr; [by apply Ok_inj in H as <-|].
  cbn [reserve_claims] in H. destruct (validateClaim q (nc_runID q)) eqn:Ev; [done|]. inv_result.
  case_bool_decide; [done|]. apply Forall_cons in Hc as [Hc1 Hc2]. eapply IH; [exact H|done|].
  eapply reservations_add_within; [done|done|by eapply validateClaim_slots|done].
Qed.

(** ** A new claim finds everything free *)
Lemma lookup_absent {K V : Type} `{Countable K} (P : K -> Prop) (m : gmap K V) k :
  (forall v y, m !! v = Some y -> P v) -> ~ P k -> m !! k = None.
Proof. intros Hm Hk. destruct (m !! k) eqn:E; [|done]. by destruct Hk; eapply Hm. Qed.

(** A transfer the reservations have room for. *)
Record room (r : publishedClaimReservations) (t : transferAllocation) : Prop := {
  room_outbound : pr_priorities r !! outboundPriority t = None;
  room_return : pr_priorities r !! returnPriority t = None;
  room_distinct : outboundPriority t <> returnPriority t;
  room_link : pr_hostLinks r !! hostVeth t = None;
  room_subnet : Forall (fun s => Overlaps s (subnet t) = false) (pr_subnets r);
  room_slot : exists k, subnet t = slot k
}.

Lemma addTransfer_room id r t :
  room r t -> exists r', addTransfer id r t = Ok r' /\ forall t', room r t' -> compatible t t' -> room r' t'.
Proof.
  intros [R1 R2 R3 R4 R5 R6]. unfold addTransfer. rewrite reserveClaimInt_free by done. simpl.
  rewrite reserveClaimInt_free by by rewrite lookup_insert_ne. simpl. rewrite R4, existsb_false by done.
  eexists. split; [done|]. intros t' [S1 S2 S3 S4 S5 S6] (C1 & C2 & C3).
  destruct (C2 _ (or_introl eq_refl)) as [P1 P2], (C2 _ (or_intror eq_refl)) as [P3 P4].
  constructor; simpl; rewrite ?lookup_insert_ne by done; try done.
  apply Forall_app. split; [done|]. constructor; [|constructor].
  destruct R6 as [k Ek], S6 as [k' Ek']. rewrite Ek, Ek' in *. apply slot_Overlaps. intros ->. by apply disjoint_slots in C3.
Qed.

Lemma addTransfers_room id r ts :
  Forall (room r) ts -> ForallOrdPairs compatible ts -> exists r', addTransfers id r ts = Ok r'.
Proof.
  revert r; induction ts as [|t ts IH]; intros r Hr Hc; [by eexists|].
  apply Forall_cons in Hr as [Ht Hr]. inversion Hc as [|x l Hct Hc' E]; subst.
  destruct (addTransfer_room id r t Ht) as (r1 & E1 & H1). simpl. rewrite E1. simpl. apply IH; [|done].
  rewrite Forall_forall in *. intros t' Ht'. by apply H1; [apply Hr|apply Hct].
Qed.

Lemma allocated_room id token selected i a r t :
  allocateClaimNetwork id token selected i = Ok a -> In t (na_transfers a) -> free_on i t -> reserved_in r i ->
  (exists k, subnet t = slot k) -> room r t.
Proof.
  intros HA Hin (F1 & _ & _ & F4 & F5 & F6 & _ & _ & _ & _ & _ & _ & F13 & _) [_ _ _ _ _ R6 R7 R8] [k Ek].
  constructor; [exact (lookup_absent _ _ _ R7 F5)|exact (lookup_absent _ _ _ R7 F6)|done|exact (lookup_absent _ _ _ R6 F1)| |by exists k].
  apply Forall_forall. intros s Hs. apply list_elem_of_In in Hs. destruct (R8 s Hs) as [Hp [j ->]].
  specialize (F13 _ Hp (slot_excluding j)). rewrite Ek in *. apply slot_Overlaps. intros ->. by apply disjoint_slots in F13.
Qed.

(** Two claims with nothing in common on the host. *)
Record claims_apart (q c : networkClaim) : Prop := {
  apart_tables : nc_returnTable c <> nc_returnTable q;
  apart_protocols : nc_protocol c <> nc_protocol q;
  apart_runs : nc_runID c <> nc_runID q;
  apart_nat : nc_backend q = firewallNFTables -> nc_backend c = firewallNFTables ->
    nc_nftPostroutingPriority c < nc_nftPostroutingPriority q /\ nc_firewallTable c <> nc_firewallTable q;
  apart_transfers : forall t u, In t (nc_transfers q) -> In u (nc_transfers c) -> compatible u t
}.

Lemma free_covered_compatible i u t :
  free_on i u -> covers_transfer i t -> excluding (subnet t) -> compatible u t.
Proof.
  intros (F1 & _ & _ & _ & F5 & F6 & _ & _ & _ & _ & _ & _ & F13 & _) [C1 C2 C3 C4] He. split_and!.
  - intros E. apply F1. by rewrite E.
  - intros p [->| ->]; split; intros E; [apply F5|apply F5|apply F6|apply F6]; by rewrite E.
  - by apply F13.
Qed.

(** The firewall identity of a run is free in the inventory. *)
Lemma identity_free id inventory table priority chains frontend :
  firewall_identity id (firewall inventory) = Ok (table, priority, chains, frontend) ->
  rejectFirewallIdentityCollisions id inventory = None ->
  (IDString id ∉ transferlanesOwnerReferences (firewall inventory)) /\
  (fw_kind (firewall inventory) = firewallNFTables ->
     (table ∉ nftTableNames (firewall inventory)) /\
     Forall (fun c => nat_hasRules c = true -> priority < nat_priority c) (nftPostroutingNATChains (firewall inventory))).
Proof.
  unfold firewall_identity, rejectFirewallIdentityCollisions. intros H Hr.
  destruct (decide (fw_kind (firewall inventory) = firewallNFTables)) as [Ek|Ek].
  - rewrite !(bool_decide_eq_true_2 (_ = firewallNFTables)) in H, Hr by done. inv_result.
    case_bool_decide as E1; [done|]. case_bool_decide as E2; [done|].
    match goal with H : nextNFTPostroutingPriority _ = Ok _ |- _ => apply nextNFTPostroutingPriority_spec in H as [_ Hp] end.
    done.
  - rewrite (bool_decide_eq_false_2 (_ = firewallNFTables)) in Hr by done.
    case_bool_decide; [|done]. case_bool_decide as E2; [done|]. by split.
Qed.

Lemma reserve_claims_slots firewalls r qs r' :
  reserve_claims firewalls r qs = Ok r' -> Forall (fun q => Forall (fun t => exists k, subnet t = slot k) (nc_transfers q)) qs.
Proof.
  revert r; induction qs as [|q qs IH]; intros r H; [constructor|]. cbn [reserve_claims] in H.
  destruct (validateClaim q (nc_runID q)) eqn:Ev; [done|]. inv_result. case_bool_decide; [done|].
  constructor; [by eapply validateClaim_slots|by eapply IH].
Qed.

Lemma reservations_add_room r c :
  pr_returnTables r !! nc_returnTable c = None -> pr_protocols r !! nc_protocol c = None ->
  pr_firewallOwners r !! IDString (nc_runID c) = None ->
  (nc_backend c = firewallNFTables ->
     pr_nftTables r !! nc_firewallTable c = None /\ pr_nftNATPriorities r !! nc_nftPostroutingPriority c = None) ->
  Forall (room r) (nc_transfers c) -> ForallOrdPairs compatible (nc_transfers c) -> is_ok (reservations_add r c) = true.
Proof.
  intros H1 H2 H3 H4 H5 H6. unfold reservations_add, reserveClaimProtocol. rewrite !reserveClaimInt_free by done. cbn [rbind].
  rewrite reserveClaimString_free by done. cbn [rbind]. case_bool_decide as Eb.
  - destruct (H4 Eb) as [H7 H8]. unfold addNFTables, reserveClaimNFTPriority. simpl. rewrite reserveClaimString_free by done.
    cbn [rbind]. rewrite reserveClaimInt_free by done. cbn [rbind].
    edestruct addTransfers_room as [r' E]; [|exact H6|by rewrite E]. eapply Forall_impl; [exact H5|]. by intros t []; constructor.
  - cbn [rbind]. edestruct addTransfers_room as [r' E]; [|exact H6|by rewrite E]. eapply Forall_impl; [exact H5|]. by intros t []; constructor.
Qed.

(** C35. Runs do not collide: when a run reads the claims other runs have
    published, reserves them in its inventory and allocates, its own claim
    shares no return table, protocol, firewall identity, link, priority or
    address with any of them, translates addresses before them, and is accepted
    beside them, so that the next run can again reserve all of them. *)
Theorem published_claims_stay_apart id token selected inventory published firewalls merged a
    (HM : mergePublishedClaimReservations inventory published firewalls = Ok merged)
    (HA : allocateClaimNetwork id token selected merged = Ok a) :
  Forall (fun q => claims_apart q (claimFromAllocation a)) published /\
  exists reservations, reserve_claims firewalls newPublishedClaimReservations published = Ok reservations /\
    is_ok (reservations_add reservations (claimFromAllocation a)) = true.
Proof.
  unfold mergePublishedClaimReservations in HM. inv_result. rename v into r, Hv into Hr.
  apply merge_claims_spec in HM as [_ Hcov].
  destruct (allocation_header _ _ _ _ _ HA) as (H1 & _ & _ & _ & _ & _ & H2 & H3 & H4 & H5 & H6).
  pose proof (allocation_free _ _ _ _ _ HA) as Hfree. pose proof (allocation_pairs _ _ _ _ _ HA) as Hpairs.
  destruct (identity_free _ _ _ _ _ _ H3 H4) as [Hid Hnft].
  assert (reserved_in r merged) as Hin.
  { eapply reserve_claims_within; [exact Hr|exact Hcov|]. by constructor. }
  split.
  - pose proof (reserve_claims_slots _ _ _ _ Hr) as Hslots. rewrite Forall_forall in Hcov, Hslots. apply Forall_forall. intros q Hq.
    destruct (Hcov q Hq) as [C1 C2 C3 C4 C5]. constructor; simpl.
    + intros E. apply H5. by rewrite E.
    + intros E. apply H6. by rewrite E.
    + rewrite H1. intros E. apply Hid. by rewrite E.
    + intros Bq Bc. destruct (C4 Bq) as [Q1 Q2]. rewrite H2 in Bc. destruct (Hnft Bc) as [N1 N2]. rewrite Forall_forall in N2.
      split; [by apply (N2 (claimed_chain q)); [apply list_elem_of_In|]|]. intros E. apply N1. by rewrite E.
    + intros t u Ht Hu. apply list_elem_of_In in Ht. rewrite Forall_forall in C5. specialize (Hslots q Hq).
      rewrite Forall_forall in Hslots. destruct (Hslots t Ht) as [k Ek].
      apply (free_covered_compatible merged); [by apply Hfree|by apply C5|]. rewrite Ek. apply slot_excluding.
  - exists r. split; [done|]. apply reservations_add_room; try done; simpl.
    + apply (lookup_absent _ _ _ (ri_tables _ _ Hin) H5).
    + apply (lookup_absent _ _ _ (ri_protocols _ _ Hin) H6).
    + rewrite H1. apply (lookup_absent _ _ _ (ri_owners _ _ Hin) Hid).
    + rewrite H2. intros Bc. destruct (Hnft Bc) as [N1 N2]. split; [apply (lookup_absent _ _ _ (ri_nft_tables _ _ Hin) N1)|].
      apply (lookup_absent _ _ _ (ri_nat _ _ Hin)). intros (c & Hc & Hrules & E). rewrite Forall_forall in N2.
      apply list_elem_of_In in Hc. specialize (N2 c Hc Hrules). lia.
    + apply Forall_forall. intros t Ht%list_elem_of_In. destruct (Hfree t Ht) as [Hf Hk]. by eapply allocated_room.
Qed.

(** ** Two runs on one host *)
Definition second_id : ID := MkID (replicate 16 x08).
Definition second_token : string := "0202020202020202020202020202020202020202020202020202020202020202".

Definition nft_inventory : hostInventory :=
  MkInventory {[ "eth0" ]}
    (MkFirewall firewallNFTables ∅ [] [MkNATChain "ip" "nat" "POSTROUTING" 100 true] ∅ "" true true)
    {[ 0; 32766; 32767 ]} {[ 254; 255 ]} {[ Addr4 0xc0a80002 ]} [MkPrefix (Addr4 0xc0a80000) 24]
    [local_rule; lan_rule] {[ 2; 3 ]} ∅.

Definition empty_allocation : networkAllocation := MkNetworkAllocation sample_id "" 0 "" "" "" 0 0 [] [].

Definition first_claim : networkClaim :=
  claimFromAllocation (ok_or empty_allocation (allocateClaimNetwork sample_id sample_token [sample_selection] nft_inventory)).

Definition not_on_the_host : publishedFirewallObservations := fun _ => Some false.

Definition second_inventory : hostInventory :=
  ok_or nft_inventory (mergePublishedClaimReservations nft_inventory [first_claim] not_on_the_host).

Definition second_allocation : networkAllocation :=
  ok_or empty_allocation (allocateClaimNetwork second_id second_token [sample_selection] second_inventory).

Example second_merged : mergePublishedClaimReservations nft_inventory [first_claim] not_on_the_host = Ok second_inventory.
Proof. vm_compute. reflexivity. Qed.

Example second_allocated : allocateClaimNetwork second_id second_token [sample_selection] second_inventory = Ok second_allocation.
Proof. vm_compute. reflexivity. Qed.

Example translations_ordered : nc_nftPostroutingPriority first_claim = 99 /\ na_nftPostroutingPriority second_allocation = 98.
Proof. vm_compute. by split. Qed.

Lemma published_claims_stay_apart_witness :
  Forall (fun q => claims_apart q (claimFromAllocation second_allocation)) [first_claim].
Proof.
  exact (proj1 (published_claims_stay_apart second_id second_token [sample_selection] nft_inventory [first_claim]
                  not_on_the_host second_inventory second_allocation second_merged second_allocated)).
Defined.
