(* ===== verification/Weights.v ===== *)
(** * Weights

    [throughput/weights.go] with the observations of [throughput/types.go], and
    [transfer/weights.go]: how measured throughput, or a weight given by hand,
    becomes the weight of each transfer.  The measurement itself is I/O: its
    observations are an argument.  Integers of [math/big] are [Z]. *)
From S2P Require Import Prelude GoText Netip TransferNumber Sorting SourceTree Allocation AllocationProofs.

(** ** Observations *)
Record Target : Type := MkTarget { target_localIP : Addr; target_transfer : Number }.

#[export] Instance Target_eq_dec : EqDecision Target.
Proof. solve_decision. Defined.

Definition target_valid (t : Target) : bool := xorb (Is4 (target_localIP t)) (negb (Value (target_transfer t) =? 0)).
Definition HasTransfer (t : Target) : bool := negb (Value (target_transfer t) =? 0).

Definition NewSourceBoundTarget (localIP : Addr) : result Target :=
  if negb (Is4 localIP) then Err (ErrText "source-bound throughput target is invalid") else Ok (MkTarget localIP number_zero).
Definition NewCurrentNamespaceTarget (id : Number) : result Target :=
  if Value id =? 0 then Err (ErrText "namespace throughput target is invalid") else Ok (MkTarget AddrNone id).

Record Observation : Type := MkObservation {
  obs_target : Target;
  obs_bytes : Z;
  obs_duration : Z;
  obs_err : option error
}.

Record Weight : Type := MkRelative { relative_target : Target; relative_value : Z }.

(** ** Relative weights *)
Definition normalizedScale : Z := 1000000.

(** The first loop: the successful observations, each target once. *)
Fixpoint successful (successfulOnly : bool) (seen : list Target) (results : list Observation) : result (list Observation) :=
  match results with
  | [] => Ok []
  | o :: results =>
      if negb (target_valid (obs_target o)) then Err (ErrText "throughput observation identity is invalid")
      else if bool_decide (obs_target o ∈ seen) then Err (ErrText "throughput observation identity is repeated")
      else
        let seen := obs_target o :: seen in
        match obs_err o with
        | Some e => if successfulOnly then successful successfulOnly seen results else Err e
        | None => let* valid := successful successfulOnly seen results in Ok (o :: valid)
        end
  end.

Definition comparable (duration : Z) (o : Observation) : bool :=
  negb ((obs_bytes o =? 0) || negb (obs_duration o =? duration) || (duration <=? 0)).

Definition slowest_of (first : Observation) (rest : list Observation) : Z :=
  foldl (fun slowest o => if obs_bytes o <? slowest then obs_bytes o else slowest) (obs_bytes first) rest.

(** [bytes * normalizedScale / slowest], rounded to the nearest, halves up. *)
Definition scaled_value (slowest bytes : Z) : Z :=
  let numerator := bytes * normalizedScale in
  let value := Z.quot numerator slowest in
  let remainder := Z.rem numerator slowest in
  if Z.shiftl remainder 1 >=? slowest then value + 1 else value.

Fixpoint scale_all (index slowest : Z) (valid : list Observation) : result (list Z) :=
  match valid with
  | [] => Ok []
  | o :: valid =>
      let value := scaled_value slowest (obs_bytes o) in
      if negb ((0 <=? value) && (value <=? MaxUint64)) || (value <=? 0)
      then Err (ErrText ("throughput weight " +:+ pretty index +:+ " is outside supported range"))
      else let* rest := scale_all (index + 1) slowest valid in Ok (value :: rest)
  end.

Definition RelativeWeights (results : list Observation) (successfulOnly : bool) : result (list Weight) :=
  let* valid := successful successfulOnly [] results in
  match valid with
  | first :: ((_ :: _) as rest) =>
      if negb (forallb (comparable (obs_duration first)) valid)
      then Err (ErrText "throughput observations are not comparable")
      else
        let* scaled := scale_all 0 (slowest_of first rest) valid in
        let divisor := foldl Z.gcd (hd 0 scaled) (tl scaled) in
        Ok (zip_with (fun o value => MkRelative (obs_target o) (Z.quot value divisor)) valid scaled)
  | _ =>
      if successfulOnly then Ok []
      else Err (ErrText "relative weights require at least two successful observations")
  end.

(** ** Weights of a request *)
Record ManualNetworkSelection : Type := MkManual { manual_transfer : Number; manual_localIP : Addr; manual_weight : Z }.
Record AutomaticNetworkSelection : Type := MkAutomatic { automatic_transfer : Number; automatic_localIP : Addr }.

(** The conversion of [measure]. *)
Definition transfer_weight (w : Weight) : result TransferWeight :=
  if negb (HasTransfer (relative_target w)) then Err (ErrText "automatic throughput weight has no transfer identity")
  else NewTransferWeight (target_transfer (relative_target w)) (relative_value w).

Definition measure (observed : result (list Observation)) : result (list TransferWeight) :=
  let* results := observed in
  let* measured := RelativeWeights results false in
  mmap transfer_weight measured.

Fixpoint check_weight_set (expected seen : list Number) (weights : list TransferWeight) : option error :=
  match weights with
  | [] => None
  | w :: weights =>
      let id := transfer w in
      if negb (bool_decide (id ∈ expected))
      then Some (ErrText ("automatic weight contains unknown transfer " +:+ pretty (Value id)))
      else if bool_decide (id ∈ seen)
      then Some (ErrText ("automatic weight repeats transfer " +:+ pretty (Value id)))
      else check_weight_set expected (id :: seen) weights
  end.

Definition validateWeightSet (selected : list Number) (weights : list TransferWeight) : option error :=
  if negb (zlen selected =? zlen weights) then Some (ErrText "automatic weight set is incomplete or contains extras")
  else check_weight_set selected [] weights.

Definition finalWeights (manual : list ManualNetworkSelection) (automatic : list AutomaticNetworkSelection)
    (observed : result (list Observation)) : result TransferWeights :=
  if negb (zlen automatic =? 0) then
    match measure observed with
    | Err e => Err (ErrWrap "measure automatic transfer weights" e)
    | Ok weighted =>
        check! validateWeightSet (if negb (zlen manual =? 0) then manual_transfer <$> manual else automatic_transfer <$> automatic)
                 weighted in
        NewTransferWeights weighted
    end
  else
    let* weighted := mmap (fun s => NewTransferWeight (manual_transfer s) (manual_weight s)) manual in
    NewTransferWeights weighted.

(** ** Proofs *)
Lemma successful_Ok only seen results valid :
  successful only seen results = Ok valid ->
  valid = filter (fun o => obs_err o = None) results /\ NoDup (obs_target <$> results) /\
  Forall (fun o => target_valid (obs_target o) = true /\ obs_target o ∉ seen) results /\
  (only = false -> valid = results).
Proof.
  revert seen valid; induction results as [|o results IH]; intros seen valid.
  { intros H. apply Ok_inj in H as <-. split_and!; [done|constructor|constructor|done]. }
  cbn [successful]. destruct (target_valid (obs_target o)) eqn:Ev; [|done]. cbn [negb]. case_bool_decide as Es; [done|].
  rewrite filter_cons. destruct (obs_err o) as [e|] eqn:Eo.
  - destruct only; [|done]. intros (-> & H2 & H3 & _)%IH. rewrite decide_False by done.
    split_and!; [done| | |done].
    + constructor; [|done]. intros (o' & Ho & Hin)%list_elem_of_fmap. rewrite Forall_forall in H3.
      destruct (H3 o' Hin) as [_ Hn]. apply Hn. rewrite <- Ho. by left.
    + constructor; [done|]. eapply Forall_impl; [exact H3|]. intros o' [? Hn]. split; [done|]. intros Hs. apply Hn. by right.
  - intros H. inv_result. match goal with H : successful _ _ _ = Ok _ |- _ => apply IH in H as (-> & H2 & H3 & H4) end.
    rewrite decide_True by done. split_and!; [done| | |].
    + constructor; [|done]. intros (o' & Ho & Hin)%list_elem_of_fmap. rewrite Forall_forall in H3.
      destruct (H3 o' Hin) as [_ Hn]. apply Hn. rewrite <- Ho. by left.
    + constructor; [done|]. eapply Forall_impl; [exact H3|]. intros o' [? Hn]. split; [done|]. intros Hs. apply Hn. by right.
    + intros E. by rewrite (H4 E).
Qed.

Lemma scaled_value_nearest slowest bytes :
  0 < slowest -> 0 <= bytes -> Z.abs (2 * (scaled_value slowest bytes * slowest - bytes * normalizedScale)) <= slowest.
Proof.
  intros Hs Hb. unfold scaled_value, normalizedScale. cbv zeta. rewrite Z.shiftl_mul_pow2 by done. change (2 ^ 1) with 2.
  pose proof (Z.quot_rem' (bytes * 1000000) slowest) as E. pose proof (Z.rem_bound_pos (bytes * 1000000) slowest ltac:(lia) Hs) as Hr.
  set (q := Z.quot (bytes * 1000000) slowest) in *. set (r := Z.rem (bytes * 1000000) slowest) in *.
  rewrite Z.geb_leb. destruct (Z.leb_spec slowest (r * 2)); nia.
Qed.

Lemma scale_all_Ok index slowest valid scaled :
  scale_all index slowest valid = Ok scaled ->
  Forall2 (fun o value => value = scaled_value slowest (obs_bytes o) /\ 0 < value <= MaxUint64) valid scaled.
Proof.
  revert index scaled; induction valid as [|o valid IH]; intros index scaled; simpl; [intros H; apply Ok_inj in H as <-; constructor|].
  destruct (_ || _) eqn:E; [done|]. intros H. inv_result. bool_to_prop.
  constructor; [split; [done|lia]|]. by eapply IH.
Qed.

Lemma slowest_of_spec first rest :
  let s := slowest_of first rest in
  (s = obs_bytes first \/ exists o, o ∈ rest /\ s = obs_bytes o) /\ s <= obs_bytes first /\ Forall (fun o => s <= obs_bytes o) rest.
Proof.
  unfold slowest_of. generalize (obs_bytes first). induction rest as [|o rest IH]; intros b; simpl; [split_and!; [by left|lia|constructor]|].
  destruct (Z.ltb_spec (obs_bytes o) b) as [Hl|Hl].
  - destruct (IH (obs_bytes o)) as (H1 & H2 & H3). split_and!; [right|lia|by constructor].
    destruct H1 as [->|(o' & ? & ->)]; [exists o; by split; [left|]|exists o'; by split; [right|]].
  - destruct (IH b) as (H1 & H2 & H3). split_and!; [|done|constructor; [lia|done]].
    destruct H1 as [->|(o' & ? & ->)]; [by left|right; exists o'; by split; [right|]].
Qed.

(** ** Greatest common divisors of lists *)
Definition gcd_all (l : list Z) : Z := foldr Z.gcd 0 l.

Lemma foldl_gcd l a : foldl Z.gcd a l = Z.gcd a (gcd_all l) \/ l = [] /\ foldl Z.gcd a l = a.
Proof.
  revert a; induction l as [|b l IH]; intros a; [by right|]. left. simpl. destruct (IH (Z.gcd a b)) as [->|[-> ->]].
  - by rewrite Z.gcd_assoc.
  - simpl. by rewrite Z.gcd_0_r, Z.gcd_abs_r.
Qed.

Lemma gcd_all_divides l x : In x l -> (gcd_all l | x).
Proof.
  induction l as [|y l IH]; [done|]. intros [<-|Hx]; simpl; [apply Z.gcd_divide_l|].
  etrans; [apply Z.gcd_divide_r|by apply IH].
Qed.

Lemma gcd_all_nonneg l : 0 <= gcd_all l.
Proof. destruct l; [done|]. apply Z.gcd_nonneg. Qed.

Lemma gcd_all_mul d l : 0 <= d -> gcd_all ((fun x => x * d) <$> l) = gcd_all l * d.
Proof. intros Hd. induction l as [|x l IH]; [done|]. cbn. fold (gcd_all l). unfold gcd_all in IH |- *. rewrite IH. by rewrite Z.gcd_mul_mono_r_nonneg. Qed.

Lemma divide_out l d :
  0 < d -> gcd_all l = d -> let q := (fun x => Z.quot x d) <$> l in
  l = (fun x => x * d) <$> q /\ gcd_all q = 1.
Proof.
  intros Hd Hg q. assert (l = (fun x => x * d) <$> q) as E.
  { subst q. rewrite <- list_fmap_compose. rewrite <- (list_fmap_id l) at 1. apply list_fmap_ext. intros i x Hx. simpl.
    apply list_elem_of_lookup_2, list_elem_of_In, gcd_all_divides in Hx as [k ->]. rewrite Hg. by rewrite Z.quot_mul by lia. }
  split; [done|]. rewrite E, gcd_all_mul in Hg by lia. nia.
Qed.

(** What a weight says of the observation it comes from. *)
Definition weighs (slowest divisor : Z) (o : Observation) (value : Z) : Prop :=
  slowest <= obs_bytes o /\ 1 <= value <= MaxUint64 /\
  Z.abs (2 * (value * divisor * slowest - obs_bytes o * normalizedScale)) <= slowest.

Lemma Forall2_zip {A B C} (P : A -> C -> Prop) (f : A -> B -> C) xs ys :
  Forall2 (fun x y => P x (f x y)) xs ys -> Forall2 P xs (zip_with f xs ys).
Proof. induction 1; simpl; by constructor. Qed.

Lemma zip_with_values {A} (f : A -> Target) (xs : list A) (ys : list Z) (g : Z -> Z) :
  length xs = length ys -> relative_value <$> zip_with (fun x y => MkRelative (f x) (g y)) xs ys = g <$> ys.
Proof.
  revert ys; induction xs as [|x xs IH]; intros [|y ys] H; try done. simpl. f_equal. apply IH. by injection H.
Qed.

Lemma gcd_of_scaled scaled :
  scaled <> [] -> Forall (fun v => 0 < v) scaled ->
  let d := foldl Z.gcd (hd 0 scaled) (tl scaled) in d = gcd_all scaled /\ 0 < d.
Proof.
  intros Hne Hpos. destruct scaled as [|a l]; [done|]. apply Forall_cons in Hpos as [Ha Hl]. simpl.
  assert (foldl Z.gcd a l = Z.gcd a (gcd_all l)) as ->.
  { destruct (foldl_gcd l a) as [->|[-> ->]]; [done|]. simpl. rewrite Z.gcd_0_r. lia. }
  split; [done|]. pose proof (Z.gcd_nonneg a (gcd_all l)). destruct (Z.eq_dec (Z.gcd a (gcd_all l)) 0) as [E|]; [|lia].
  apply Z.gcd_eq_0 in E. lia.
Qed.

Lemma quotient_weighs slowest divisor o :
  0 < slowest -> 0 <= obs_bytes o -> slowest <= obs_bytes o -> 0 < divisor ->
  0 < scaled_value slowest (obs_bytes o) <= MaxUint64 -> (divisor | scaled_value slowest (obs_bytes o)) ->
  weighs slowest divisor o (Z.quot (scaled_value slowest (obs_bytes o)) divisor).
Proof.
  intros Hs Hb Hle Hd Hr [k Hk]. pose proof (scaled_value_nearest slowest (obs_bytes o) Hs Hb) as Hn. rewrite Hk in *.
  rewrite Z.quot_mul by lia. unfold weighs. split_and!; [done|nia|nia|done].
Qed.

Lemma slowest_positive duration first rest :
  forallb (comparable duration) (first :: rest) = true -> Forall (fun o => 0 <= obs_bytes o) (first :: rest) ->
  0 < slowest_of first rest /\ forall o, o ∈ first :: rest -> slowest_of first rest <= obs_bytes o.
Proof.
  intros Ec Hb. destruct (slowest_of_spec first rest) as (H1 & H2 & H3). rewrite Forall_forall in H3. split.
  - assert (exists o, o ∈ first :: rest /\ slowest_of first rest = obs_bytes o) as (o & Ho & ->).
    { destruct H1 as [E|(o & Ho & E)]; [exists first|exists o]; (split; [|exact E]); [by left|by right]. }
    rewrite forallb_forall in Ec. specialize (Ec o (proj1 (list_elem_of_In _ _) Ho)). unfold comparable in Ec.
    rewrite Forall_forall in Hb. specialize (Hb o Ho). bool_to_prop. lia.
  - intros o [->|Ho]%elem_of_cons; [done|by apply H3].
Qed.

Lemma RelativeWeights_spec results ws :
  RelativeWeights results false = Ok ws -> Forall (fun o => 0 <= obs_bytes o) results ->
  exists slowest divisor, 0 < slowest /\ 0 < divisor /\
    Forall2 (fun o w => relative_target w = obs_target o /\ obs_err o = None /\ weighs slowest divisor o (relative_value w)) results ws /\
    gcd_all (relative_value <$> ws) = 1 /\ NoDup (obs_target <$> results) /\
    Forall (fun o => target_valid (obs_target o) = true) results.
Proof.
  unfold RelativeWeights. intros H Hb. inv_result.
  match goal with H : successful _ _ _ = Ok _ |- _ => apply successful_Ok in H as (Hf & Hn & Hv & E) end.
  rewrite (E eq_refl) in H. rewrite (E eq_refl) in Hf. clear E.
  destruct results as [|first [|second rest]]; [done..|].
  destruct (forallb _ _) eqn:Ec; [|done]. cbn [negb] in H.
  apply rbind_Ok_inv in H as (scaled & Hs%scale_all_Ok & Hw). cbv zeta in Hw. apply Ok_inj in Hw as <-.
  set (valid := first :: second :: rest) in *. set (slowest := slowest_of first (second :: rest)) in *.
  destruct (slowest_positive _ first (second :: rest) Ec Hb) as [Hpos Hle]. fold slowest in Hpos, Hle. fold valid in Hle.
  assert (Forall (fun v => 0 < v) scaled) as Hsp.
  { apply Forall_forall. intros x (i & Hi)%list_elem_of_lookup. destruct (Forall2_lookup_r _ _ _ _ _ Hs Hi) as (o & _ & _ & ?). lia. }
  assert (length valid = length scaled) as Hlen by by apply Forall2_length in Hs.
  destruct (gcd_of_scaled scaled) as [Hd Hd0]; [by destruct scaled|done|].
  set (divisor := foldl Z.gcd (hd 0 scaled) (tl scaled)) in *.
  destruct (divide_out scaled divisor) as [Hq Hg]; [done|done|]. exists slowest, divisor. split_and!; try done.
  - apply Forall2_zip. apply Forall2_same_length_lookup_2; [done|]. intros i o x Ho Hi. simpl. split; [done|].
    assert (o ∈ valid) as Hin by by eapply list_elem_of_lookup_2. split.
    { rewrite Hf in Hin. by apply list_elem_of_filter in Hin as [? _]. }
    destruct (Forall2_lookup_lr _ _ _ _ _ _ Hs Ho Hi) as [-> Hr]. apply quotient_weighs; [done|..].
    + rewrite Forall_forall in Hb. by apply Hb.
    + by apply Hle.
    + done.
    + done.
    + rewrite Hd. by apply gcd_all_divides, list_elem_of_In, (list_elem_of_lookup_2 _ i).
  - by rewrite (zip_with_values obs_target _ _ (fun v => Z.quot v divisor)).
  - eapply Forall_impl; [exact Hv|]. by intros o [].
Qed.

(** ** The weights of a request *)
Lemma transfer_weight_Ok w tw :
  transfer_weight w = Ok tw ->
  transfer tw = target_transfer (relative_target w) /\ weight tw = relative_value w /\ HasTransfer (relative_target w) = true.
Proof.
  unfold transfer_weight, NewTransferWeight. destruct (HasTransfer _) eqn:E; [|done]. cbn [negb].
  destruct (_ || _); [done|]. intros H. by apply Ok_inj in H as <-.
Qed.

Lemma check_weight_set_None expected seen weights :
  check_weight_set expected seen weights = None ->
  NoDup (transfer <$> weights) /\ Forall (fun w => transfer w ∈ expected /\ transfer w ∉ seen) weights.
Proof.
  revert seen; induction weights as [|w weights IH]; intros seen; simpl; [split; constructor|].
  case_bool_decide as He; [|done]. simpl. case_bool_decide as Hs; [done|]. intros [H1 H2]%IH. split.
  - constructor; [|done]. intros (w' & Ew & Hin)%list_elem_of_fmap. rewrite Forall_forall in H2.
    destruct (H2 w' Hin) as [_ Hn]. apply Hn. rewrite <- Ew. by left.
  - constructor; [done|]. eapply Forall_impl; [exact H2|]. intros w' [? Hn]. split; [done|]. intros Hs'. apply Hn. by right.
Qed.

Lemma validateWeightSet_complete selected weights :
  validateWeightSet selected weights = None -> transfer <$> weights ≡ₚ selected.
Proof.
  unfold validateWeightSet. destruct (zlen selected =? zlen weights) eqn:El; [|done]. cbn [negb].
  intros [Hn Hall]%check_weight_set_None. apply Z.eqb_eq in El.
  apply submseteq_length_Permutation; [|rewrite length_fmap; unfold zlen in El; lia].
  apply NoDup_submseteq; [done|]. intros x (w & -> & Hw)%list_elem_of_fmap. rewrite Forall_forall in Hall. by apply Hall.
Qed.

Lemma measured_weights results slowest divisor ws tws :
  Forall2 (fun o w => relative_target w = obs_target o /\ obs_err o = None /\ weighs slowest divisor o (relative_value w)) results ws ->
  mmap transfer_weight ws = Ok tws ->
  (weight <$> tws = relative_value <$> ws) /\
  Forall (fun tw => exists o, o ∈ results /\ obs_err o = None /\ target_transfer (obs_target o) = transfer tw /\
    weighs slowest divisor o (weight tw)) tws.
Proof.
  intros H Hm%mmap_Ok. revert results H; induction Hm as [|w tw ws tws Hw _ IH]; intros results H;
    inversion H as [|o w' results' ws' (Ht & He & Hv) Hrest]; subst; [split; constructor|].
  apply transfer_weight_Ok in Hw as (W1 & W2 & _). destruct (IH results' Hrest) as [I1 I2]. split.
  - rewrite !fmap_cons. by rewrite W2, I1.
  - constructor.
    + exists o. split; [by left|]. rewrite W1, W2, Ht. done.
    + eapply Forall_impl; [exact I2|]. intros tw' (o' & Ho' & ?). exists o'. split; [by right|done].
Qed.

Lemma gcd_all_perm l k : l ≡ₚ k -> gcd_all l = gcd_all k.
Proof.
  induction 1 as [|x l k _ IH|x y l|l k m _ IH1 _ IH2]; simpl; [done| |by rewrite !Z.gcd_assoc, (Z.gcd_comm x y)|by rewrite IH1].
  by rewrite IH.
Qed.

Lemma NewTransferWeights_perm values ws : NewTransferWeights values = Ok ws -> ws ≡ₚ values.
Proof.
  unfold NewTransferWeights. destruct (_ || _); [done|]. intros [_ <-%Ok_inj]%check_Ok_inv. apply sort_by_perm.
Qed.

(** The weights of an automatic run follow the measurement exactly: every
    selected transfer gets one positive weight, the weights have no common
    divisor, and each, times one divisor common to all, is its transfer's bytes
    over the slowest transfer's bytes to within half a millionth. *)
Theorem automatic_weights_follow_throughput automatic results ws
    (Hne : automatic <> []) (Hb : Forall (fun o => in_u 64 (obs_bytes o)) results)
    (H : finalWeights [] automatic (Ok results) = Ok ws) :
  (transfer <$> ws ≡ₚ automatic_transfer <$> automatic) /\ gcd_all (weight <$> ws) = 1 /\
  exists slowest divisor, 0 < slowest /\ 0 < divisor /\
    Forall (fun w => exists o, o ∈ results /\ obs_err o = None /\ target_transfer (obs_target o) = transfer w /\
      slowest <= obs_bytes o /\ 1 <= weight w <= MaxUint64 /\
      Z.abs (2 * (weight w * divisor * slowest - obs_bytes o * 1000000)) <= slowest) ws.
Proof.
  unfold finalWeights in H. rewrite (proj2 (Z.eqb_neq (zlen automatic) 0)) in H.
  2: { unfold zlen. destruct automatic; [done|]. simpl. lia. }
  cbn [negb] in H. destruct (measure (Ok results)) as [weighted|] eqn:Em; [|done]. inv_result.
  apply validateWeightSet_complete in Hc. apply NewTransferWeights_perm in H.
  unfold measure in Em. cbn [rbind] in Em. apply rbind_Ok_inv in Em as (measured & Hm & Hw).
  apply RelativeWeights_spec in Hm as (slowest & divisor & Hs & Hd & Hall & Hg & _ & _).
  2: { eapply Forall_impl; [exact Hb|]. intros o Ho. unfold in_u in Ho. lia. }
  destruct (measured_weights _ _ _ _ _ Hall Hw) as [Ew Hf]. split; [by rewrite H|]. split.
  - by rewrite (gcd_all_perm _ (weight <$> weighted)), Ew by by rewrite H.
  - exists slowest, divisor. split; [done|]. split; [done|]. rewrite H. exact Hf.
Qed.

(** Two networks, one three times as fast as the other. *)
Definition sample_results : list Observation :=
  [MkObservation (MkTarget AddrNone (MkNumber 1)) 3000000 1000000000 None;
   MkObservation (MkTarget AddrNone (MkNumber 2)) 1000000 1000000000 None].

Definition sample_automatic : list AutomaticNetworkSelection :=
  [MkAutomatic (MkNumber 1) (Addr4 0x0a000001); MkAutomatic (MkNumber 2) (Addr4 0x0a000002)].

Example sample_final :
  finalWeights [] sample_automatic (Ok sample_results) = Ok [MkWeight (MkNumber 1) 3; MkWeight (MkNumber 2) 1].
Proof. vm_compute. reflexivity. Qed.

Lemma automatic_weights_follow_throughput_witness :
  gcd_all (weight <$> [MkWeight (MkNumber 1) 3; MkWeight (MkNumber 2) 1]) = 1.
Proof.
  apply (automatic_weights_follow_throughput sample_automatic sample_results
           [MkWeight (MkNumber 1) 3; MkWeight (MkNumber 2) 1]); [done| |exact sample_final].
  repeat constructor; vm_compute; congruence.
Defined.
