(* ===== verification/Settings.v ===== *)
(** * Measurement settings

    The settings of [throughput/types.go]: an endpoint and a duration.  The URL
    is [net/url]'s: the class [URLs] has its parser, its printer and the fields
    the code looks at, and nothing is assumed of them beyond the host of the zero
    value.  Durations are nanoseconds. *)
From S2P Require Import Prelude Utf8 GoText.

Definition Millisecond : Z := 1000 * 1000.
Definition Second : Z := 1000 * Millisecond.

(** ** [time.Duration.String] *)
Definition strip_zeros (s : list byte) : list byte :=
  rev ((fix go (l : list byte) : list byte := match l with x30 :: l => go l | _ => l end) (rev s)).

(** The [prec] last decimal digits as a fraction, without trailing zeros. *)
Definition fraction_text (v : Z) (prec : nat) : string :=
  let f := v mod 10 ^ Z.of_nat prec in
  if f =? 0 then ""
  else "." +:+ text_of (strip_zeros (drop 1 (bytes_of (pretty (10 ^ Z.of_nat prec + f))))).

Definition unit_text (u : Z) (prec : nat) (unit : string) : string :=
  pretty (u / 10 ^ Z.of_nat prec) +:+ fraction_text u prec +:+ unit.

Definition DurationString (d : Z) : string :=
  let u := Z.abs d in
  let sign := if d <? 0 then "-" else "" in
  sign +:+
  (if u =? 0 then "0s"
   else if u <? 1000 then unit_text u 0 "ns"
   else if u <? Millisecond then unit_text u 3 "µs"
   else if u <? Second then unit_text u 6 "ms"
   else
     let seconds := u / Second in
     (if 3600 <=? seconds then pretty (seconds / 3600) +:+ "h" else "")
     +:+ (if 60 <=? seconds then pretty (seconds / 60 mod 60) +:+ "m" else "")
     +:+ pretty (seconds mod 60) +:+ fraction_text u 9 +:+ "s").

Example duration_examples :
  DurationString 100000000 = "100ms" /\ DurationString (60 * Second) = "1m0s" /\ DurationString 1500 = "1.5µs"
  /\ DurationString (3 * Second + 20000000) = "3.02s" /\ DurationString (-1) = "-1ns".
Proof. vm_compute. done. Qed.

(** ** [net/url] *)
Class URLs := {
  URL : Type;
  url_zero : URL;
  url_Parse : string -> result URL;
  url_String : URL -> string;
  url_Scheme : URL -> string;
  url_Host : URL -> string;
  url_hasUser : URL -> bool;
  url_Fragment : URL -> string;
  url_RawFragment : URL -> string
}.

Class URLLaws `{URLs} : Prop := { url_zero_host : url_Host url_zero = "" }.

Definition DefaultEndpointURL : string := "https://speed.cloudflare.com/__up".
Definition minimumDuration : Z := 100 * Millisecond.
Definition maximumDuration : Z := 60 * Second.
Definition defaultPreparationTimeout : Z := 10 * Second.
Definition maximumEndpointBytes : Z := 2048.

Section Settings.
Context `{URLs}.

Record Settings : Type := MkSettings { set_endpoint : URL; set_duration : Z; preparationTimeout : Z }.

Definition settings_zero : Settings := MkSettings url_zero 0 0.

Definition NewSettings (rawURL : string) (duration : Z) : result Settings :=
  if (slen rawURL =? 0) || (maximumEndpointBytes <? slen rawURL) || negb (ValidString rawURL) || contains_byte x00 rawURL
  then Err (ErrText "measure endpoint length or encoding is invalid")
  else
    match url_Parse rawURL with
    | Err e => Err (ErrWrap "parse measure endpoint" e)
    | Ok endpoint =>
        if (negb (bool_decide (url_Scheme endpoint = "http")) && negb (bool_decide (url_Scheme endpoint = "https")))
           || bool_decide (url_Host endpoint = "") || url_hasUser endpoint
           || negb (bool_decide (url_Fragment endpoint = "")) || negb (bool_decide (url_RawFragment endpoint = ""))
        then Err (ErrText "measure endpoint requires HTTP, a host, and no userinfo or fragment")
        else if (duration <? minimumDuration) || (maximumDuration <? duration)
        then Err (ErrText ("measure duration " +:+ DurationString duration +:+ " is outside "
                             +:+ DurationString minimumDuration +:+ ".." +:+ DurationString maximumDuration))
        else Ok (MkSettings endpoint duration defaultPreparationTimeout)
    end.

Definition DefaultSettings (duration : Z) : result Settings := NewSettings DefaultEndpointURL duration.

Definition settings_Valid (s : Settings) : bool :=
  negb (bool_decide (url_Host (set_endpoint s) = "")) && (minimumDuration <=? set_duration s)
  && (set_duration s <=? maximumDuration) && (0 <? preparationTimeout s).

Definition Endpoint (s : Settings) : string := url_String (set_endpoint s).

(** Settings whose endpoint is the canonical text of itself: they are what the
    worker makes of them again. *)
Definition settings_canonical (s : Settings) : Prop := NewSettings (Endpoint s) (set_duration s) = Ok s.

Lemma NewSettings_valid raw duration s : NewSettings raw duration = Ok s -> settings_Valid s = true.
Proof.
  unfold NewSettings, settings_Valid. intros E. ok_branches E. apply Ok_inj in E as <-. bool_to_prop.
  cbn. rewrite !andb_true_iff, negb_true_iff, bool_decide_eq_false, !Z.leb_le. split_and!; done.
Qed.

Lemma NewSettings_text raw duration s :
  NewSettings raw duration = Ok s -> 0 < slen raw <= maximumEndpointBytes /\ contains_byte x00 raw = false.
Proof.
  unfold NewSettings. intros E. ok_branches E. bool_to_prop. pose proof (slen_nonneg raw). split; [lia|done].
Qed.

Lemma NewSettings_duration raw duration s :
  NewSettings raw duration = Ok s -> set_duration s = duration /\ minimumDuration <= duration <= maximumDuration.
Proof. unfold NewSettings. intros E. ok_branches E. apply Ok_inj in E as <-. bool_to_prop. done. Qed.

Lemma settings_zero_invalid `{!URLLaws} : settings_Valid settings_zero = false.
Proof. unfold settings_Valid. cbn. by rewrite url_zero_host. Qed.
End Settings.
