(* ===== verification/TransferStart.v ===== *)
(** * The start request

    [transferstart/request.go] and [transferstart/codec.go]: what the parent
    sends the worker before a transfer starts, and its wire form.  The wire
    reader is the list of bytes it has left; a read that fails leaves them. *)
From S2P Require Import Prelude GoText Paths Netip NetipText TransferNumber Settings.

Definition maximumDNSResolvers : Z := 255.

(** ** Terminal sizes, [childprocesses/types.go] *)
Definition maximumTerminalSize : Z := 65535.
Record TerminalSize : Type := MkTerminalSize { ts_cols : Z; ts_rows : Z }.
Definition terminal_zero : TerminalSize := MkTerminalSize 0 0.

Definition NewTerminalSize (cols rows : Z) : result TerminalSize :=
  if (cols <? 1) || (rows <? 1) || (maximumTerminalSize <? cols) || (maximumTerminalSize <? rows)
  then Err (ErrText "terminal size is invalid")
  else Ok (MkTerminalSize (wrap 16 cols) (wrap 16 rows)).

Definition TerminalValues (size : TerminalSize) : Z * Z := (ts_cols size, ts_rows size).

(** ** Command input and output *)
Definition pipesMode : Z := 1.
Definition ptyMode : Z := 2.
Record CommandIO : Type := MkCommandIO { io_mode : Z; io_terminal : TerminalSize }.

Definition Pipes : CommandIO := MkCommandIO pipesMode terminal_zero.
Definition NewPTY (columns rows : Z) : result CommandIO :=
  let* size := NewTerminalSize columns rows in Ok (MkCommandIO ptyMode size).
Definition IsPipes (value : CommandIO) : bool := io_mode value =? pipesMode.
Definition PTYSize (value : CommandIO) : TerminalSize * bool := (io_terminal value, io_mode value =? ptyMode).
Definition io_valid (value : CommandIO) : bool :=
  let '(columns, rows) := TerminalValues (io_terminal value) in
  ((io_mode value =? pipesMode) && (columns =? 0) && (rows =? 0))
  || ((io_mode value =? ptyMode) && negb (columns =? 0) && negb (rows =? 0)).

(** ** The request *)
Record ManualNetwork : Type := MkManualNetwork { mn_localIP : Addr; mn_weight : Z }.

Definition NewManualNetwork (localIP : Addr) (weight : Z) : result ManualNetwork :=
  if negb (Is4 localIP) || (weight =? 0) then Err (ErrText "transfer start manual network is invalid")
  else Ok (MkManualNetwork localIP weight).

Definition validText (value : string) (required : bool) : bool :=
  (negb required || negb (bool_decide (value = ""))) && (slen value <=? 65535) && negb (contains_byte x00 value).

Definition invalidField (name : string) (err : option error) : error :=
  match err with
  | None => ErrText ("transfer start " +:+ name +:+ " is invalid")
  | Some e => ErrWrap ("transfer start " +:+ name +:+ " is invalid") e
  end.

Section Start.
Context `{URLs}.

Record Request : Type := MkRequest {
  sourceLabel : string;
  manual : list ManualNetwork;
  automatic : list Addr;
  settings : Settings;
  dns : list Addr;
  childArgv : list string;
  commandIO : CommandIO;
  followSymlinks : bool
}.

Definition AutomaticWeight (r : Request) : bool := negb (zlen (automatic r) =? 0).
Definition networkCount (r : Request) : Z := zlen (manual r) + zlen (automatic r).

Fixpoint check_manual (seen : gset Addr) (networks : list ManualNetwork) : option error :=
  match networks with
  | [] => None
  | n :: networks =>
      if negb (Is4 (mn_localIP n)) || (mn_weight n =? 0) then Some (ErrText "transfer start manual network is invalid")
      else if bool_decide (mn_localIP n ∈ seen) then Some (ErrText "transfer start repeats a source address")
      else check_manual ({[ mn_localIP n ]} ∪ seen) networks
  end.

Fixpoint check_automatic (seen : gset Addr) (networks : list Addr) : option error :=
  match networks with
  | [] => None
  | localIP :: networks =>
      if negb (Is4 localIP) then Some (ErrText "transfer start automatic network is invalid")
      else if bool_decide (localIP ∈ seen) then Some (ErrText "transfer start repeats a source address")
      else check_automatic ({[ localIP ]} ∪ seen) networks
  end.

Definition unusable_resolver (resolver : Addr) : bool :=
  negb (AddrIsValid resolver) || IsUnspecified resolver || IsLoopback resolver || IsMulticast resolver.

Definition placeholders (argv : list string) : Z := zlen (filter (fun argument => argument = "{}") argv).

Definition shape_ok (r : Request) : bool :=
  validText (sourceLabel r) true && IsAbs (sourceLabel r) && bool_decide (Clean (sourceLabel r) = sourceLabel r)
  && negb (bool_decide (sourceLabel r = "/")) && io_valid (commandIO r)
  && negb (Bool.eqb (zlen (manual r) =? 0) (zlen (automatic r) =? 0))
  && (zlen (dns r) <=? maximumDNSResolvers) && negb (zlen (childArgv r) =? 0) && (zlen (childArgv r) <=? 65535).

Definition check_networks (r : Request) : option error :=
  if negb (zlen (manual r) =? 0) then
    if (Maximum <? zlen (manual r)) || settings_Valid (settings r) then Some (ErrText "transfer start manual mode is invalid")
    else check_manual ∅ (manual r)
  else if (zlen (automatic r) <? 2) || (Maximum <? zlen (automatic r)) || negb (settings_Valid (settings r))
  then Some (ErrText "transfer start automatic mode is invalid")
  else check_automatic ∅ (automatic r).

Definition validate (r : Request) : option error :=
  if negb (shape_ok r) then Some (ErrText "transfer start request shape is invalid")
  else
    match check_networks r with
    | Some e => Some e
    | None =>
        if existsb unusable_resolver (dns r) then Some (ErrText "transfer start DNS is invalid")
        else if existsb (fun argument => negb (validText argument false)) (childArgv r)
        then Some (ErrText "transfer start argv is invalid")
        else if negb (placeholders (childArgv r) =? 1)
        then Some (ErrText "transfer start argv needs one standalone placeholder")
        else None
    end.

Definition NewManualRequest (sourceLabel : string) (networks : list ManualNetwork) (dns : list Addr)
    (childArgv : list string) (commandIO : CommandIO) (followSymlinks : bool) : result Request :=
  let request := MkRequest sourceLabel networks [] settings_zero dns childArgv commandIO followSymlinks in
  check! validate request in Ok request.

Definition NewAutomaticRequest (sourceLabel : string) (networks : list Addr) (settings : Settings) (dns : list Addr)
    (childArgv : list string) (commandIO : CommandIO) (followSymlinks : bool) : result Request :=
  let request := MkRequest sourceLabel [] networks settings dns childArgv commandIO followSymlinks in
  check! validate request in Ok request.
End Start.

(** ** Encoding *)
Definition wireVersion : Z := 5.
Definition wireMagic : list byte := [x57; x54; x52; x51].
Definition automaticFlag : Z := 1.
Definition pipesFlag : Z := 2.
Definition symlinkFlag : Z := 4.
Definition knownFlags : Z := Z.lor (Z.lor automaticFlag pipesFlag) symlinkFlag.
Definition fixedBytes : Z := 4 + 1 + 1 + 2 + 2 + 8 + 1 + 1 + 2.

(** The length is taken modulo 2^16. *)
Definition appendText (payload : list byte) (value : string) : list byte :=
  payload ++ be_put 2 (wrap 16 (slen value)) ++ bytes_of value.

Section Encode.
Context `{URLs}.

Definition endpoint_text (r : Request) : string := if AutomaticWeight r then Endpoint (settings r) else "".

(** The texts of the payload after the fixed part, with a weight after each
    network of manual mode. *)
Definition checkedSize (r : Request) : result Z :=
  check! validate r in
  let size := fixedBytes in
  let size := foldl (fun size text => size + 2 + slen text) size [sourceLabel r; endpoint_text r] in
  let size := foldl (fun size n => size + 2 + slen (AddrString (mn_localIP n)) + 8) size (manual r) in
  let size := foldl (fun size a => size + 2 + slen (AddrString a)) size (automatic r) in
  let size := foldl (fun size a => size + 2 + slen (AddrString a)) size (dns r) in
  Ok (foldl (fun size text => size + 2 + slen text) size (childArgv r)).

Definition EncodedSize (r : Request) : result Z := checkedSize r.

Definition request_flags (r : Request) : Z :=
  let flags := 0 in
  let flags := if AutomaticWeight r then Z.lor flags automaticFlag else flags in
  let flags := if IsPipes (commandIO r) then Z.lor flags pipesFlag else flags in
  if followSymlinks r then Z.lor flags symlinkFlag else flags.

Definition Encode (r : Request) : result (list byte) :=
  let* size := checkedSize r in
  let payload := wireMagic in
  let payload := payload ++ [z2b wireVersion; z2b (request_flags r)] in
  let '(columns, rows) := TerminalValues (PTYSize (commandIO r)).1 in
  let payload := payload ++ be_put 2 columns in
  let payload := payload ++ be_put 2 rows in
  let duration := if AutomaticWeight r then set_duration (settings r) else 0 in
  let payload := payload ++ be_put 8 (wrap 64 duration) in
  let payload := payload ++ [z2b (networkCount r); z2b (zlen (dns r))] in
  let payload := payload ++ be_put 2 (wrap 16 (zlen (childArgv r))) in
  let payload := appendText payload (sourceLabel r) in
  let payload := appendText payload (endpoint_text r) in
  let payload := foldl (fun p n => appendText p (AddrString (mn_localIP n)) ++ be_put 8 (mn_weight n)) payload (manual r) in
  let payload := foldl (fun p a => appendText p (AddrString a)) payload (automatic r) in
  let payload := foldl (fun p a => appendText p (AddrString a)) payload (dns r) in
  let payload := foldl appendText payload (childArgv r) in
  if negb (zlen payload =? size) then Err (ErrText "transfer start encoded size mismatch") else Ok payload.
End Encode.

(** ** The wire reader *)
Definition reads (A : Type) : Type := list byte -> result A * list byte.

Definition reader_take (size : Z) : reads (list byte) := fun r =>
  if (size <? 0) || (zlen r <? size) then (Err (ErrText "transfer start request is truncated"), r)
  else (Ok (take (Z.to_nat size) r), drop (Z.to_nat size) r).

(** A read that converts the bytes of a successful [take]. *)
Definition reader_map {A} (f : list byte -> A) (m : reads (list byte)) : reads A := fun r =>
  let '(value, r) := m r in (match value with Ok v => Ok (f v) | Err e => Err e end, r).

Definition reader_byte : reads Z := reader_map be_get (reader_take 1).
Definition reader_uint16 : reads Z := reader_map be_get (reader_take 2).
Definition reader_uint64 : reads Z := reader_map be_get (reader_take 8).

Definition failure {A} (r : result A) : option error := match r with Ok _ => None | Err e => Some e end.

(** [errors.Join] with a message, which is never nil. *)
Definition join_with (message : string) (err : option error) : error :=
  ErrJoin (ErrText message) (match err with Some e => [e] | None => [] end).

Definition reader_text : reads string := fun r =>
  let '(size, r) := reader_uint16 r in
  match size with
  | Err e => (Err (join_with "transfer start text length is invalid" (Some e)), r)
  | Ok size =>
      let '(value, r) := reader_take size r in
      match value with
      | Err e => (Err (join_with "transfer start text encoding is invalid" (Some e)), r)
      | Ok value =>
          (if negb (validText (text_of value) false)
           then Err (join_with "transfer start text encoding is invalid" None) else Ok (text_of value), r)
      end
  end.

(** ** Decoding *)
Record decodedHeader : Type := MkHeader {
  h_source : string;
  h_endpoint : string;
  h_duration : Z;
  h_networks : Z;
  h_dns : Z;
  h_argv : Z;
  h_automatic : bool;
  h_followSymlinks : bool;
  h_commandIO : CommandIO
}.

(** The terminal or pipes the flags and the size announce. *)
Definition header_io (flags columns rows : Z) : result CommandIO :=
  if Z.land flags pipesFlag =? 0 then
    match NewPTY columns rows with Ok io => Ok io | Err e => Err (invalidField "PTY size" (Some e)) end
  else if negb (columns =? 0) || negb (rows =? 0)
  then Err (ErrText "pipes transfer start contains a terminal size")
  else Ok Pipes.

(** The numbers and texts after the flags. *)
Definition decode_fields (flags : Z) : reads decodedHeader := fun r =>
  let '(columns, r) := reader_uint16 r in
  let '(rows, r) := reader_uint16 r in
  let '(durationValue, r) := reader_uint64 r in
  let '(networks, r) := reader_byte r in
  let '(dns, r) := reader_byte r in
  let '(argv, r) := reader_uint16 r in
  match errors_Join [failure columns; failure rows; failure durationValue; failure networks; failure dns; failure argv] with
  | Some e => (Err e, r)
  | None =>
      if (60 * Second <? ok_or 0 durationValue) || (ok_or 0 networks =? 0) || (ok_or 0 argv =? 0)
      then (Err (ErrText "transfer start request counts or duration are invalid"), r)
      else
        let '(source, r) := reader_text r in
        let '(endpoint, r) := reader_text r in
        match errors_Join [failure source; failure endpoint] with
        | Some e => (Err e, r)
        | None =>
            (let* io := header_io flags (ok_or 0 columns) (ok_or 0 rows) in
             Ok (MkHeader (ok_or "" source) (ok_or "" endpoint) (ok_or 0 durationValue) (ok_or 0 networks) (ok_or 0 dns)
                   (ok_or 0 argv) (negb (Z.land flags automaticFlag =? 0)) (negb (Z.land flags symlinkFlag =? 0)) io), r)
        end
  end.

Definition decodeHeader : reads decodedHeader := fun r =>
  let '(magic, r) := reader_take (zlen wireMagic) r in
  if negb (bool_decide (ok_or [] magic = wireMagic)) then (Err (ErrText "transfer start request magic is invalid"), r)
  else
    let '(version, r) := reader_byte r in
    if negb (ok_or 0 version =? wireVersion) then (Err (ErrText "transfer start request version is invalid"), r)
    else
      let '(flags, r) := reader_byte r in
      match flags with
      | Err _ => (Err (ErrText "transfer start request flags are invalid"), r)
      | Ok flags =>
          if negb (Z.ldiff flags knownFlags =? 0) then (Err (ErrText "transfer start request flags are invalid"), r)
          else decode_fields flags r
      end.

(** A failed read leaves the empty text, which the address parser refuses too. *)
Definition read_address (label : string) : reads Addr := fun r =>
  let '(value, r) := reader_text r in
  let address := ParseAddr (ok_or "" value) in
  match errors_Join [failure value; failure address] with
  | Some e => (Err (ErrWrap ("decode transfer start " +:+ label) e), r)
  | None => (address, r)
  end.

Definition read_manual : reads ManualNetwork := fun r =>
  let '(value, r) := reader_text r in
  let address := ParseAddr (ok_or "" value) in
  let '(weight, r) := reader_uint64 r in
  match errors_Join [failure value; failure address; failure weight] with
  | Some e => (Err (ErrWrap "decode transfer start manual network" e), r)
  | None => (NewManualNetwork (ok_or AddrNone address) (ok_or 0 weight), r)
  end.

(** [count] values, up to the first that cannot be read. *)
Fixpoint read_all {A} (read : reads A) (count : nat) : reads (list A) := fun r =>
  match count with
  | O => (Ok [], r)
  | S count =>
      let '(value, r) := read r in
      match value with
      | Err e => (Err e, r)
      | Ok value =>
          let '(values, r) := read_all read count r in
          (match values with Ok values => Ok (value :: values) | Err e => Err e end, r)
      end
  end.

Definition decodeManualNetworks (count : Z) : reads (list ManualNetwork) := read_all read_manual (Z.to_nat count).
Definition decodeAddresses (count : Z) (label : string) : reads (list Addr) :=
  read_all (read_address label) (Z.to_nat count).
Definition decodeAutomaticNetworks (count : Z) : reads (list Addr) := decodeAddresses count "automatic network".
Definition decodeTexts (count : Z) : reads (list string) := read_all reader_text (Z.to_nat count).

Section Decode.
Context `{URLs}.

(** The networks of the mode; the other mode has none. *)
Definition decode_networks (h : decodedHeader) : reads (list ManualNetwork * list Addr) := fun r =>
  if h_automatic h then
    let '(networks, r) := decodeAutomaticNetworks (h_networks h) r in
    (let* networks := networks in Ok ([], networks), r)
  else
    let '(networks, r) := decodeManualNetworks (h_networks h) r in
    (let* networks := networks in Ok (networks, []), r).

Definition build_request (h : decodedHeader) (networks : list ManualNetwork * list Addr) (dns : list Addr)
    (argv : list string) : result Request :=
  if h_automatic h then
    match NewSettings (h_endpoint h) (h_duration h) with
    | Err e => Err (invalidField "measure settings" (Some e))
    | Ok settings =>
        NewAutomaticRequest (h_source h) networks.2 settings dns argv (h_commandIO h) (h_followSymlinks h)
    end
  else if negb (bool_decide (h_endpoint h = "")) || negb (h_duration h =? 0)
  then Err (ErrText "manual transfer start contains measure settings")
  else NewManualRequest (h_source h) networks.1 dns argv (h_commandIO h) (h_followSymlinks h).

Definition Decode (payload : list byte) : result Request :=
  let '(header, r) := decodeHeader payload in
  let* header := header in
  let '(networks, r) := decode_networks header r in
  let* networks := networks in
  let '(dns, r) := decodeAddresses (h_dns header) "DNS" r in
  let* dns := dns in
  let '(argv, r) := decodeTexts (h_argv header) r in
  let* argv := argv in
  if negb (zlen r =? 0) then Err (ErrText "transfer start request has trailing bytes")
  else build_request header networks dns argv.
End Decode.
