(* ===== verification/TransferStartProofs.v ===== *)
(** * The start request: the proofs

    Every accepted request encodes to exactly the size computed beforehand, and
    what the decoder reads from an encoding is the request. *)
From S2P Require Import Prelude GoText Hashing Paths Netip NetipText TransferNumber Settings TransferStart.

(** ** The layout of a payload *)
Definition text_bytes (s : string) : list byte := be_put 2 (wrap 16 (slen s)) ++ bytes_of s.
Definition address_bytes (a : Addr) : list byte := text_bytes (AddrString a).
Definition network_bytes (n : ManualNetwork) : list byte := address_bytes (mn_localIP n) ++ be_put 8 (mn_weight n).

Lemma zlen_text_bytes s : zlen (text_bytes s) = 2 + slen s.
Proof. unfold text_bytes. by rewrite zlen_app, zlen_be_put. Qed.

Lemma foldl_append {A} (f : A -> list byte) (g : list byte -> A -> list byte) xs : forall p,
  (forall p x, g p x = p ++ f x) -> foldl g p xs = p ++ mjoin (f <$> xs).
Proof.
  induction xs as [|x xs IH]; intros p Hg; [symmetry; apply app_nil_r|]. cbn [foldl].
  change (mjoin (f <$> x :: xs)) with (f x ++ mjoin (f <$> xs)). by rewrite IH, Hg, app_assoc.
Qed.

Lemma foldl_size {A} (f : A -> list byte) (g : Z -> A -> Z) xs : forall size,
  (forall size x, g size x = size + zlen (f x)) -> foldl g size xs = size + zlen (mjoin (f <$> xs)).
Proof.
  induction xs as [|x xs IH]; intros size Hg; [symmetry; apply Z.add_0_r|]. cbn [foldl].
  change (mjoin (f <$> x :: xs)) with (f x ++ mjoin (f <$> xs)). rewrite IH, Hg, zlen_app by done. lia.
Qed.

Section Layout.
Context `{URLs}.

Definition fixed_part (r : Request) : list byte :=
  wireMagic ++ [z2b wireVersion; z2b (request_flags r)] ++ be_put 2 (ts_cols (io_terminal (commandIO r)))
  ++ be_put 2 (ts_rows (io_terminal (commandIO r)))
  ++ be_put 8 (wrap 64 (if AutomaticWeight r then set_duration (settings r) else 0))
  ++ [z2b (networkCount r); z2b (zlen (dns r))] ++ be_put 2 (wrap 16 (zlen (childArgv r))).

Definition variable_part (r : Request) : list byte :=
  text_bytes (sourceLabel r) ++ text_bytes (endpoint_text r) ++ mjoin (network_bytes <$> manual r)
  ++ mjoin (address_bytes <$> automatic r) ++ mjoin (address_bytes <$> dns r) ++ mjoin (text_bytes <$> childArgv r).

Definition payload_of (r : Request) : list byte := fixed_part r ++ variable_part r.

Lemma checkedSize_spec r : validate r = None -> checkedSize r = Ok (zlen (payload_of r)).
Proof.
  intros V. unfold checkedSize. rewrite V. cbn [check]. cbn [foldl].
  rewrite (foldl_size text_bytes), (foldl_size address_bytes), (foldl_size address_bytes), (foldl_size network_bytes).
  - f_equal. unfold payload_of, fixed_part, variable_part, wireMagic, fixedBytes.
    rewrite !zlen_app, !zlen_text_bytes, !zlen_be_put, !zlen_cons, !zlen_nil. lia.
  - intros. unfold network_bytes, address_bytes. rewrite zlen_app, zlen_text_bytes, zlen_be_put. lia.
  - intros. unfold address_bytes. rewrite zlen_text_bytes. lia.
  - intros. unfold address_bytes. rewrite zlen_text_bytes. lia.
  - intros. rewrite zlen_text_bytes. lia.
Qed.

Lemma Encode_payload r : validate r = None -> Encode r = Ok (payload_of r).
Proof.
  intros V. unfold Encode. rewrite checkedSize_spec by done. cbn [rbind TerminalValues PTYSize fst].
  assert (forall p s, appendText p s = p ++ text_bytes s) as Ha by done.
  rewrite (foldl_append text_bytes), (foldl_append address_bytes), (foldl_append address_bytes),
    (foldl_append network_bytes); try done.
  - rewrite !Ha. replace (_ ++ mjoin (text_bytes <$> childArgv r)) with (payload_of r).
    + by rewrite Z.eqb_refl.
    + unfold payload_of, fixed_part, variable_part. by rewrite <- !app_assoc.
  - intros. rewrite Ha. unfold network_bytes, address_bytes. by rewrite app_assoc.
Qed.

Lemma Encode_Ok r p : Encode r = Ok p -> validate r = None /\ p = payload_of r.
Proof.
  intros E. assert (validate r = None) as V; [|by rewrite Encode_payload in E by done; apply Ok_inj in E].
  unfold Encode, checkedSize in E. destruct (validate r); [done|done].
Qed.
End Layout.

(** ** Reading back *)
Definition returns {A} (read : reads A) (bytes : list byte) (x : A) : Prop := forall r, read (bytes ++ r) = (Ok x, r).

Lemma take_returns bytes : returns (reader_take (zlen bytes)) bytes bytes.
Proof.
  intros r. unfold reader_take. rewrite zlen_app. pose proof (zlen_nonneg bytes). pose proof (zlen_nonneg r).
  rewrite (proj2 (Z.ltb_ge _ _)), (proj2 (Z.ltb_ge _ _)) by lia. cbn [orb].
  unfold zlen. rewrite Nat2Z.id. by rewrite take_app_length, drop_app_length.
Qed.

Lemma map_returns {A} (f : list byte -> A) size bytes :
  zlen bytes = size -> returns (reader_map f (reader_take size)) bytes (f bytes).
Proof. intros <- r. unfold reader_map. by rewrite take_returns. Qed.

Lemma byte_returns v : returns reader_byte [z2b v] (v mod 256).
Proof. intros r. unfold reader_byte. rewrite map_returns by done. do 2 f_equal. rewrite <- b2z_z2b. done. Qed.

Lemma uint16_returns v : in_u 16 v -> returns reader_uint16 (be_put 2 v) v.
Proof. intros H r. unfold reader_uint16. rewrite map_returns, be_get_put by done. by rewrite Z.mod_small. Qed.

Lemma uint64_returns v : in_u 64 v -> returns reader_uint64 (be_put 8 v) v.
Proof. intros H r. unfold reader_uint64. rewrite map_returns, be_get_put by done. by rewrite Z.mod_small. Qed.

Lemma validText_slen s required : validText s required = true -> slen s <= 65535.
Proof. unfold validText. intros. by bool_to_prop. Qed.

Lemma validText_weaken s required : validText s required = true -> validText s false = true.
Proof. unfold validText. rewrite !andb_true_iff. by intros [[_ ?] ?]. Qed.

Lemma text_returns s : validText s false = true -> returns reader_text (text_bytes s) s.
Proof.
  intros H r. unfold reader_text, text_bytes. pose proof (validText_slen _ _ H). pose proof (slen_nonneg s).
  rewrite wrap_small by (unfold in_u; lia). rewrite <- app_assoc, uint16_returns by (unfold in_u; lia).
  change (slen s) with (zlen (bytes_of s)). rewrite take_returns, text_of_bytes_of, H. done.
Qed.

Definition address_fits (a : Addr) : Prop :=
  addr_wf a /\ AddrIsValid a = true /\ validText (AddrString a) false = true.

Lemma address_returns label a : address_fits a -> returns (read_address label) (address_bytes a) a.
Proof.
  intros (Hwf & Hv & Ht) r. unfold read_address, address_bytes. rewrite text_returns by done.
  cbn [ok_or]. by rewrite ParseAddr_AddrString.
Qed.

Lemma network_returns n :
  address_fits (mn_localIP n) -> Is4 (mn_localIP n) = true -> in_u 64 (mn_weight n) -> mn_weight n <> 0 ->
  returns read_manual (network_bytes n) n.
Proof.
  intros (Hwf & Hv & Ht) H4 Hw H0 r. unfold read_manual, network_bytes, address_bytes.
  rewrite <- app_assoc, text_returns by done. cbn [ok_or]. rewrite ParseAddr_AddrString, uint64_returns by done. cbn.
  unfold NewManualNetwork. rewrite H4, (proj2 (Z.eqb_neq _ _)) by done. by destruct n.
Qed.

Lemma all_returns {A} (read : reads A) (f : A -> list byte) xs :
  Forall (fun x => returns read (f x) x) xs ->
  returns (read_all read (Z.to_nat (zlen xs))) (mjoin (f <$> xs)) xs.
Proof.
  unfold zlen. rewrite Nat2Z.id. induction 1 as [|x xs Hx _ IH]; intros r; [done|].
  change (mjoin (f <$> x :: xs)) with (f x ++ mjoin (f <$> xs)). cbn [length read_all].
  by rewrite <- app_assoc, Hx, IH.
Qed.

(** ** IPv4 addresses are short texts *)
Lemma hex_run_length l off acc o a : hex_run l off acc = Some (o, a) -> (length l <= 4 - off)%nat.
Proof.
  revert off acc; induction l as [|b l IH]; intros off acc; cbn [hex_run]; [simpl; lia|].
  destruct (hex_value b); [|done]. cbn [mbind option_bind]. destruct (3 <? off)%nat eqn:E; [done|]. apply Nat.ltb_ge in E.
  destruct (0xffff <? _); [done|]. intros H%IH. simpl. lia.
Qed.

Lemma octet_text_length n : 0 <= n < 256 -> (length (octet_text n) <= 4)%nat.
Proof. intros H. destruct (octet_run n H) as (_ & off & acc & E). pose proof (hex_run_length _ _ _ _ _ E). lia. Qed.

Lemma addr_bytes_no_nul l : Forall addr_byte l -> existsb (Byte.eqb x00) l = false.
Proof.
  induction 1 as [|b l Hb _ IH]; [done|]. cbn [existsb]. rewrite IH, orb_false_r.
  destruct (Byte.eqb x00 b) eqn:E; [|done]. apply Byte.byte_dec_bl in E as <-.
  destruct Hb as [[d Hd]|[Hd|Hd]]; discriminate Hd.
Qed.

Lemma ipv4_fits a : Is4 a = true -> addr_wf a -> address_fits a.
Proof.
  destruct a as [|v|]; [done| |done]. intros _ Hwf. split_and!; [done|done|].
  unfold validText, contains_byte. cbn [AddrString negb orb andb]. rewrite addr_bytes_no_nul by by apply dotted_bytes.
  rewrite andb_true_r. apply Z.leb_le. unfold slen, zlen. rewrite bytes_of_dotted.
  pose proof (octets_range v Hwf) as Ho. unfold octets in Ho. rewrite !Forall_cons in Ho. destruct Ho as (H1 & H2 & H3 & H4 & _).
  repeat (rewrite length_app || cbn [length]).
  pose proof (octet_text_length _ H1). pose proof (octet_text_length _ H2). pose proof (octet_text_length _ H3).
  pose proof (octet_text_length _ H4). lia.
Qed.

Section RoundTrip.
Context `{URLs}.

(** What the types and constructors of a request guarantee beside [validate]:
    machine widths, settings only in automatic mode, and texts that fit. *)
Record start_wf (r : Request) : Prop := {
  wf_terminal : in_u 16 (ts_cols (io_terminal (commandIO r))) /\ in_u 16 (ts_rows (io_terminal (commandIO r)));
  wf_manual : Forall (fun n => addr_wf (mn_localIP n) /\ in_u 64 (mn_weight n)) (manual r);
  wf_automatic : Forall addr_wf (automatic r);
  wf_dns : Forall address_fits (dns r);
  wf_settings : if AutomaticWeight r then settings_canonical (settings r) else settings r = settings_zero
}.

Lemma check_manual_None seen ns :
  check_manual seen ns = None ->
  Forall (fun n => Is4 (mn_localIP n) = true /\ mn_weight n <> 0) ns /\ NoDup (mn_localIP <$> ns)
  /\ Forall (fun n => mn_localIP n ∉ seen) ns.
Proof.
  revert seen; induction ns as [|n ns IH]; intros seen; simpl; [by repeat constructor|].
  destruct (negb (Is4 _) || _) eqn:E; [done|]. destruct (bool_decide _) eqn:Es; [done|]. intros E2%IH.
  destruct E2 as (H1 & H2 & H3). bool_to_prop. rewrite Forall_forall in H3. split_and!.
  - by constructor.
  - apply NoDup_cons. split; [|done]. intros (m & Hm & Hi)%list_elem_of_fmap. destruct (H3 m Hi). set_solver.
  - constructor; [done|]. apply Forall_forall. intros m Hi. specialize (H3 m Hi). set_solver.
Qed.

Lemma check_automatic_None seen l :
  check_automatic seen l = None -> Forall (fun a => Is4 a = true) l /\ NoDup l /\ Forall (fun a => a ∉ seen) l.
Proof.
  revert seen; induction l as [|a l IH]; intros seen; simpl; [by repeat constructor|].
  destruct (negb (Is4 a)) eqn:E; [done|]. destruct (bool_decide _) eqn:Es; [done|]. intros E2%IH.
  destruct E2 as (H1 & H2 & H3). bool_to_prop. rewrite Forall_forall in H3. split_and!.
  - by constructor.
  - apply NoDup_cons. split; [|done]. intros Hi. destruct (H3 a Hi). set_solver.
  - constructor; [done|]. apply Forall_forall. intros m Hi. specialize (H3 m Hi). set_solver.
Qed.

(** What [validate] accepts. *)
Record accepted (r : Request) : Prop := {
  acc_label : validText (sourceLabel r) true = true /\ IsAbs (sourceLabel r) = true
              /\ Clean (sourceLabel r) = sourceLabel r /\ sourceLabel r <> "/";
  acc_io : io_valid (commandIO r) = true;
  acc_dns : zlen (dns r) <= maximumDNSResolvers /\ Forall (fun a => unusable_resolver a = false) (dns r);
  acc_argv : 0 < zlen (childArgv r) <= 65535 /\ Forall (fun a => validText a false = true) (childArgv r)
             /\ placeholders (childArgv r) = 1;
  acc_networks :
    (manual r <> [] /\ automatic r = [] /\ zlen (manual r) <= Maximum /\ settings_Valid (settings r) = false
     /\ Forall (fun n => Is4 (mn_localIP n) = true /\ mn_weight n <> 0) (manual r) /\ NoDup (mn_localIP <$> manual r))
    \/ (manual r = [] /\ 2 <= zlen (automatic r) <= Maximum /\ settings_Valid (settings r) = true
        /\ Forall (fun a => Is4 a = true) (automatic r) /\ NoDup (automatic r))
}.

Lemma zlen_eqb_nil {A} (l : list A) : (zlen l =? 0) = bool_decide (l = []).
Proof.
  destruct l as [|x l]; [done|]. rewrite bool_decide_eq_false_2 by done. apply Z.eqb_neq. rewrite zlen_cons.
  pose proof (zlen_nonneg l). lia.
Qed.

Lemma validate_None r : validate r = None -> accepted r.
Proof.
  unfold validate. destruct (shape_ok r) eqn:Es; [|done]. cbn [negb].
  destruct (check_networks r) eqn:En; [done|]. destruct (existsb unusable_resolver (dns r)) eqn:Ed; [done|].
  destruct (existsb _ (childArgv r)) eqn:Ea; [done|]. destruct (placeholders _ =? 1) eqn:Ep; [|done]. intros _.
  unfold shape_ok in Es. rewrite !andb_true_iff in Es. destruct Es as [[[[[[[[L1 L2] L3] L4] Io] M] D] A1] A2].
  bool_to_prop. apply existsb_Forall in Ed, Ea. pose proof (zlen_nonneg (childArgv r)). constructor.
  - done.
  - done.
  - done.
  - split_and!; [lia|done| |done]. eapply Forall_impl; [exact Ea|]. intros x. by rewrite negb_false_iff.
  - unfold check_networks in En. rewrite !zlen_eqb_nil in *. destruct (bool_decide (manual r = [])) eqn:Em; cbn [negb] in En.
    + right. bool_to_prop. destruct ((zlen (automatic r) <? 2) || _ || _) eqn:E; [done|]. bool_to_prop.
      apply check_automatic_None in En as (? & ? & _). done.
    + left. bool_to_prop. destruct (bool_decide (automatic r = [])) eqn:Eauto; [|done]. bool_to_prop.
      destruct ((Maximum <? _) || _) eqn:E; [done|]. bool_to_prop. apply check_manual_None in En as (? & ? & _). done.
Qed.
Definition start_duration (r : Request) : Z := if AutomaticWeight r then set_duration (settings r) else 0.

Definition header_of (r : Request) : decodedHeader :=
  MkHeader (sourceLabel r) (endpoint_text r) (start_duration r) (networkCount r) (zlen (dns r)) (zlen (childArgv r))
    (AutomaticWeight r) (followSymlinks r) (commandIO r).

Lemma accepted_counts r :
  accepted r -> 1 <= networkCount r <= Maximum /\ zlen (dns r) <= 255 /\ 1 <= zlen (childArgv r) <= 65535.
Proof.
  intros A. destruct (acc_argv _ A) as ((? & ?) & _). destruct (acc_dns _ A) as (? & _). unfold maximumDNSResolvers in *.
  split; [|lia]. unfold networkCount. destruct (acc_networks _ A) as [(Hm & Ha & ? & _)|(Hm & ? & _)].
  - rewrite Ha, zlen_nil. pose proof (zlen_nonneg (manual r)). destruct (manual r); [done|]. rewrite zlen_cons in *.
    pose proof (zlen_nonneg l). lia.
  - rewrite Hm, zlen_nil. lia.
Qed.

Lemma start_settings r :
  accepted r -> start_wf r ->
  0 <= start_duration r <= 60 * Second /\ validText (endpoint_text r) false = true.
Proof.
  intros A W. pose proof (wf_settings _ W) as S. unfold start_duration, endpoint_text.
  destruct (AutomaticWeight r); [|done].
  destruct (NewSettings_duration _ _ _ S) as (_ & ?). destruct (NewSettings_text _ _ _ S) as (? & Hn).
  unfold minimumDuration, maximumDuration, maximumEndpointBytes, Second, Millisecond in *. split; [lia|].
  unfold validText. rewrite Hn, (proj2 (Z.leb_le _ _)) by lia. done.
Qed.

Lemma flags_of r :
  0 <= request_flags r < 256 /\ Z.ldiff (request_flags r) knownFlags = 0
  /\ (Z.land (request_flags r) pipesFlag =? 0) = negb (IsPipes (commandIO r))
  /\ negb (Z.land (request_flags r) automaticFlag =? 0) = AutomaticWeight r
  /\ negb (Z.land (request_flags r) symlinkFlag =? 0) = followSymlinks r.
Proof.
  unfold request_flags. destruct (AutomaticWeight r), (IsPipes (commandIO r)), (followSymlinks r); vm_compute; done.
Qed.

Lemma header_io_of r :
  accepted r -> start_wf r ->
  header_io (request_flags r) (ts_cols (io_terminal (commandIO r))) (ts_rows (io_terminal (commandIO r))) = Ok (commandIO r).
Proof.
  intros A W. destruct (flags_of r) as (_ & _ & Hp & _). destruct (wf_terminal _ W) as [Hc Hr].
  pose proof (acc_io _ A) as Io. unfold header_io. rewrite Hp. clear Hp. destruct (commandIO r) as [mode [cols rows]].
  unfold io_valid, IsPipes in *. cbn in *. apply orb_true_iff in Io as [Io|Io]; bool_to_prop; subst.
  - done.
  - cbn. unfold NewPTY, NewTerminalSize, in_u in *. unfold maximumTerminalSize.
    rewrite !(proj2 (Z.ltb_ge _ _)) by lia. cbn. by rewrite !wrap_small by (unfold in_u; lia).
Qed.

Lemma decode_fields_of r rest :
  accepted r -> start_wf r ->
  decode_fields (request_flags r)
    (be_put 2 (ts_cols (io_terminal (commandIO r))) ++ be_put 2 (ts_rows (io_terminal (commandIO r)))
     ++ be_put 8 (wrap 64 (start_duration r)) ++ [z2b (networkCount r); z2b (zlen (dns r))]
     ++ be_put 2 (wrap 16 (zlen (childArgv r))) ++ text_bytes (sourceLabel r) ++ text_bytes (endpoint_text r) ++ rest)
  = (Ok (header_of r), rest).
Proof.
  intros A W. destruct (wf_terminal _ W) as [Hc Hr]. destruct (start_settings r A W) as [Hd He].
  destruct (accepted_counts r A) as (Hn & Hs & Ha). pose proof (zlen_nonneg (dns r)).
  destruct (acc_label _ A) as (Hl & _). apply validText_weaken in Hl. unfold Maximum in Hn.
  unfold Second, Millisecond in Hd.
  unfold decode_fields. rewrite uint16_returns, uint16_returns by done. rewrite wrap_small by (unfold in_u; lia).
  rewrite uint64_returns by (unfold in_u; lia).
  change ([z2b (networkCount r); z2b (zlen (dns r))] ++ ?t) with ([z2b (networkCount r)] ++ [z2b (zlen (dns r))] ++ t).
  rewrite byte_returns, byte_returns, !Z.mod_small by lia. rewrite wrap_small by (unfold in_u; lia).
  rewrite uint16_returns by (unfold in_u; lia). cbn [failure errors_Join omap list_omap id ok_or].
  unfold Second, Millisecond. rewrite (proj2 (Z.ltb_ge _ _)), !(proj2 (Z.eqb_neq _ _)) by lia. cbn [orb].
  rewrite text_returns, text_returns by done. cbn [failure errors_Join omap list_omap id ok_or].
  rewrite header_io_of by done. cbn [rbind]. destruct (flags_of r) as (_ & _ & _ & -> & ->). done.
Qed.

Lemma decodeHeader_of r rest :
  accepted r -> start_wf r ->
  decodeHeader (fixed_part r ++ text_bytes (sourceLabel r) ++ text_bytes (endpoint_text r) ++ rest)
  = (Ok (header_of r), rest).
Proof.
  intros A W. destruct (flags_of r) as (Hf & Hk & _). unfold decodeHeader, fixed_part.
  rewrite <- !app_assoc, take_returns. cbn [ok_or]. rewrite bool_decide_eq_true_2 by done. cbn [negb].
  change ([z2b wireVersion; z2b (request_flags r)] ++ ?t) with ([z2b wireVersion] ++ [z2b (request_flags r)] ++ t).
  rewrite byte_returns. cbn [ok_or]. change (wireVersion mod 256 =? wireVersion) with true. cbn [negb].
  rewrite byte_returns, Z.mod_small, Hk by lia. cbn [Z.eqb negb]. by apply decode_fields_of.
Qed.
Lemma Is4_fits a : Is4 a = true -> addr_wf a -> address_fits a.
Proof. apply ipv4_fits. Qed.

Lemma networks_returns r :
  accepted r -> start_wf r ->
  returns (decode_networks (header_of r)) (mjoin (network_bytes <$> manual r) ++ mjoin (address_bytes <$> automatic r))
    (manual r, automatic r).
Proof.
  intros A W rest. unfold decode_networks, header_of. cbn [h_automatic h_networks].
  destruct (acc_networks _ A) as [(Hm & Ha & _ & _ & Hok & _)|(Hm & Hn & _ & H4 & _)].
  - assert (AutomaticWeight r = false) as -> by (unfold AutomaticWeight; by rewrite Ha).
    assert (networkCount r = zlen (manual r)) as -> by (unfold networkCount; rewrite Ha, zlen_nil; lia).
    rewrite Ha. change (mjoin (address_bytes <$> [])) with (@nil byte). rewrite app_nil_r. unfold decodeManualNetworks. rewrite all_returns; [done|].
    pose proof (wf_manual _ W) as Hw. rewrite Forall_forall in Hok, Hw |- *. intros n Hi.
    destruct (Hok n Hi) as [? ?], (Hw n Hi) as [? ?]. apply network_returns; [by apply Is4_fits|done..].
  - assert (AutomaticWeight r = true) as -> by (unfold AutomaticWeight; rewrite (proj2 (Z.eqb_neq _ _)) by lia; done).
    assert (networkCount r = zlen (automatic r)) as -> by (unfold networkCount; rewrite Hm, zlen_nil; lia).
    rewrite Hm. change (mjoin (network_bytes <$> [])) with (@nil byte). cbn [app]. unfold decodeAutomaticNetworks, decodeAddresses.
    rewrite all_returns; [done|]. pose proof (wf_automatic _ W) as Hw. rewrite Forall_forall in H4, Hw |- *.
    intros a Hi. apply address_returns, Is4_fits; by auto.
Qed.

Lemma build_request_of r :
  accepted r -> validate r = None -> start_wf r ->
  build_request (header_of r) (manual r, automatic r) (dns r) (childArgv r) = Ok r.
Proof.
  intros A V W. pose proof (wf_settings _ W) as S. unfold build_request, header_of. cbn [h_automatic h_endpoint h_duration
    h_source h_commandIO h_followSymlinks fst snd]. unfold endpoint_text, start_duration.
  destruct (acc_networks _ A) as [(Hm & Ha & _)|(Hm & Hn & _)].
  - assert (AutomaticWeight r = false) as E by (unfold AutomaticWeight; by rewrite Ha). rewrite E in *. cbn [negb orb].
    rewrite bool_decide_eq_true_2 by done. cbn [negb orb]. rewrite (proj2 (Z.eqb_eq 0 0)) by done. cbn [negb].
    unfold NewManualRequest.
    replace (MkRequest _ _ _ _ _ _ _ _) with r by (destruct r; cbn in *; by subst). by rewrite V.
  - assert (AutomaticWeight r = true) as E by (unfold AutomaticWeight; rewrite (proj2 (Z.eqb_neq _ _)) by lia; done).
    rewrite E in *. rewrite S. unfold NewAutomaticRequest.
    replace (MkRequest _ _ _ _ _ _ _ _) with r by (destruct r; cbn in *; by subst). by rewrite V.
Qed.

Lemma Decode_payload r : validate r = None -> start_wf r -> Decode (payload_of r) = Ok r.
Proof.
  intros V W. pose proof (validate_None _ V) as A. unfold Decode, payload_of, variable_part.
  rewrite decodeHeader_of by done. cbn [rbind]. rewrite (app_assoc (mjoin _)), networks_returns by done. cbn [rbind].
  change (h_dns (header_of r)) with (zlen (dns r)). change (h_argv (header_of r)) with (zlen (childArgv r)).
  unfold decodeAddresses. rewrite all_returns
    by (eapply Forall_impl; [apply (wf_dns _ W)|intros; by apply address_returns]). cbn [rbind].
  unfold decodeTexts. rewrite <- (app_nil_r (mjoin _)), all_returns
    by (eapply Forall_impl; [apply (acc_argv _ A)|intros; by apply text_returns]). cbn [rbind].
  change (zlen [] =? 0) with true. cbn [negb]. by apply build_request_of.
Qed.
End RoundTrip.

(** ** What a decoded payload was *)
Definition read_from {A} (read : reads A) (f : A -> list byte) (P : A -> Prop) : Prop :=
  forall r x r', read r = (Ok x, r') -> r = f x ++ r' /\ P x.

Lemma take_from size r x r' : 0 <= size -> reader_take size r = (Ok x, r') -> r = x ++ r' /\ length x = Z.to_nat size.
Proof.
  intros H. unfold reader_take. destruct (_ || _) eqn:E; [done|]. bool_to_prop. intros [= <- <-].
  split; [by rewrite take_drop|]. rewrite length_take. unfold zlen in *. lia.
Qed.

Lemma number_from n :
  read_from (reader_map be_get (reader_take (Z.of_nat n))) (be_put n) (fun v => 0 <= v < 256 ^ Z.of_nat n).
Proof.
  intros r v r'. unfold reader_map. destruct (reader_take _ r) as [x r''] eqn:E. destruct x as [x|]; [|done].
  intros [= <- <-]. apply take_from in E as [-> Hl]; [|lia]. rewrite Nat2Z.id in Hl. rewrite <- Hl, be_put_get.
  split; [done|]. apply be_get_range.
Qed.

Lemma byte_from r v r' : reader_byte r = (Ok v, r') -> r = z2b v :: r' /\ 0 <= v < 256.
Proof.
  intros E. apply (number_from 1) in E as [-> Hv]. split; [|done]. cbn [be_put app].
  by rewrite Z.div_1_r.
Qed.

Lemma uint16_from r v r' : reader_uint16 r = (Ok v, r') -> r = be_put 2 v ++ r' /\ in_u 16 v.
Proof. apply (number_from 2). Qed.

Lemma uint64_from r v r' : reader_uint64 r = (Ok v, r') -> r = be_put 8 v ++ r' /\ in_u 64 v.
Proof. apply (number_from 8). Qed.

Lemma text_from : read_from reader_text text_bytes (fun s => validText s false = true).
Proof.
  intros r s r'. unfold reader_text. destruct (reader_uint16 r) as [[size|] r1] eqn:E1; [|done].
  apply uint16_from in E1 as [-> Hs]. destruct (reader_take size r1) as [[value|] r2] eqn:E2; [|done].
  apply take_from in E2 as [-> Hl]; [|unfold in_u in Hs; lia].
  destruct (validText _ _) eqn:Ev; [|done]. cbn [negb]. intros [= <- <-]. split; [|done].
  unfold text_bytes. rewrite slen_text_of, bytes_of_text_of. unfold zlen. rewrite Hl, Z2Nat.id, wrap_small
    by (done || unfold in_u in Hs; lia). by rewrite <- app_assoc.
Qed.

Lemma errors_Join_ok {A} (x : result A) es :
  errors_Join (failure x :: es) = None -> (exists a, x = Ok a) /\ errors_Join es = None.
Proof. unfold errors_Join. destruct x as [a|e]; [|done]. cbn. intros H. split; [by exists a|done]. Qed.

Lemma address_from label r a r' :
  read_address label r = (Ok a, r') -> exists s, r = text_bytes s ++ r' /\ ParseAddr s = Ok a.
Proof.
  unfold read_address. destruct (reader_text r) as [value r1] eqn:E1. destruct (errors_Join _) eqn:Ej; [done|].
  apply errors_Join_ok in Ej as [[s ->] _]. cbn [ok_or]. intros [= E <-]. exists s. split; [by apply text_from in E1 as [? _]|done].
Qed.

Lemma network_from :
  read_from read_manual network_bytes (fun n => addr_wf (mn_localIP n) /\ in_u 64 (mn_weight n)).
Proof.
  intros r n r'. unfold read_manual. destruct (reader_text r) as [value r1] eqn:E1.
  destruct (reader_uint64 r1) as [weight r2] eqn:E2. destruct (errors_Join _) eqn:Ej; [done|].
  apply errors_Join_ok in Ej as [[s ->] Ej]. apply errors_Join_ok in Ej as [[a Ea] Ej].
  apply errors_Join_ok in Ej as [[w ->] _]. cbn [ok_or] in *. rewrite Ea. cbn [ok_or].
  unfold NewManualNetwork. destruct (negb (Is4 a) || (w =? 0)) eqn:E; [done|]. intros [= <- <-]. bool_to_prop.
  apply ParseAddr_canonical in Ea as [-> Hwf]; [|done]. apply text_from in E1 as [-> _]. apply uint64_from in E2 as [-> ?].
  unfold network_bytes, address_bytes. cbn. by rewrite <- app_assoc.
Qed.

Lemma all_from {A} (read : reads A) f P :
  read_from read f P -> forall n, read_from (read_all read n) (fun xs => mjoin (f <$> xs)) (fun xs => length xs = n /\ Forall P xs).
Proof.
  intros Hf. induction n as [|n IH]; intros r xs r'; cbn [read_all]; [by intros [= <- <-]|].
  destruct (read r) as [[x|] r1] eqn:E1; [|done]. destruct (read_all read n r1) as [[ys|] r2] eqn:E2; [|done].
  intros [= <- <-]. apply Hf in E1 as [-> Hx]. apply IH in E2 as (-> & <- & Hys).
  change (mjoin (f <$> x :: ys)) with (f x ++ mjoin (f <$> ys)). rewrite <- app_assoc. by repeat constructor.
Qed.

Definition header_flags (h : decodedHeader) : Z :=
  Z.lor (Z.lor (if h_automatic h then automaticFlag else 0) (if IsPipes (h_commandIO h) then pipesFlag else 0))
    (if h_followSymlinks h then symlinkFlag else 0).

Definition header_bytes (h : decodedHeader) : list byte :=
  wireMagic ++ [z2b wireVersion; z2b (header_flags h)] ++ be_put 2 (ts_cols (io_terminal (h_commandIO h)))
  ++ be_put 2 (ts_rows (io_terminal (h_commandIO h))) ++ be_put 8 (h_duration h)
  ++ [z2b (h_networks h); z2b (h_dns h)] ++ be_put 2 (h_argv h) ++ text_bytes (h_source h) ++ text_bytes (h_endpoint h).

Lemma header_io_from flags cols rows io :
  in_u 16 cols -> in_u 16 rows -> header_io flags cols rows = Ok io ->
  IsPipes io = negb (Z.land flags pipesFlag =? 0) /\ io_terminal io = MkTerminalSize cols rows.
Proof.
  unfold header_io, in_u. intros Hc Hr. destruct (Z.land flags pipesFlag =? 0); cbn [negb].
  - unfold NewPTY, NewTerminalSize. destruct (_ || _); [done|]. cbn. intros E. apply Ok_inj in E as <-. cbn.
    rewrite !wrap_small by (unfold in_u; lia). done.
  - destruct (_ || _) eqn:E; [done|]. bool_to_prop. intros Hio. apply Ok_inj in Hio as <-. by subst.
Qed.

Lemma flags_from flags :
  0 <= flags < 256 -> Z.ldiff flags knownFlags = 0 ->
  Z.lor (Z.lor (if negb (Z.land flags automaticFlag =? 0) then automaticFlag else 0)
               (if negb (Z.land flags pipesFlag =? 0) then pipesFlag else 0))
        (if negb (Z.land flags symlinkFlag =? 0) then symlinkFlag else 0) = flags.
Proof.
  intros H Hk. apply Z.eqb_eq.
  pose proof (in_range_ok (fun flags => implb (Z.ldiff flags knownFlags =? 0)
    (Z.lor (Z.lor (if negb (Z.land flags automaticFlag =? 0) then automaticFlag else 0)
               (if negb (Z.land flags pipesFlag =? 0) then pipesFlag else 0))
        (if negb (Z.land flags symlinkFlag =? 0) then symlinkFlag else 0) =? flags)) 256 flags) as E.
  cbv beta in E. rewrite (proj2 (Z.eqb_eq _ _) Hk) in E. apply E; [vm_compute; done|done].
Qed.

Lemma decodeHeader_from : read_from decodeHeader header_bytes
  (fun h => in_u 16 (ts_cols (io_terminal (h_commandIO h))) /\ in_u 16 (ts_rows (io_terminal (h_commandIO h)))
            /\ in_u 8 (h_networks h) /\ in_u 8 (h_dns h) /\ in_u 16 (h_argv h)).
Proof.
  intros r h r'. unfold decodeHeader. destruct (reader_take (zlen wireMagic) r) as [magic r1] eqn:E1.
  destruct (bool_decide _) eqn:Em; [|done]. cbn [negb]. apply bool_decide_eq_true in Em. destruct magic as [magic|]; [|done].
  cbn [ok_or] in Em. subst magic. apply take_from in E1 as [-> _]; [|done].
  destruct (reader_byte r1) as [version r2] eqn:E2. destruct (ok_or 0 version =? wireVersion) eqn:Ev; [|done]. cbn [negb].
  destruct version as [version|]; [|done]. cbn [ok_or] in Ev. apply Z.eqb_eq in Ev as ->. apply byte_from in E2 as [-> _].
  destruct (reader_byte r2) as [[flags|] r3] eqn:E3; [|done]. apply byte_from in E3 as [-> Hf].
  destruct (Z.ldiff flags knownFlags =? 0) eqn:Ek; [|done]. cbn [negb]. apply Z.eqb_eq in Ek. unfold decode_fields.
  destruct (reader_uint16 r3) as [columns r4] eqn:E4. destruct (reader_uint16 r4) as [rows r5] eqn:E5.
  destruct (reader_uint64 r5) as [duration r6] eqn:E6. destruct (reader_byte r6) as [networks r7] eqn:E7.
  destruct (reader_byte r7) as [dns r8] eqn:E8. destruct (reader_uint16 r8) as [argv r9] eqn:E9.
  destruct (errors_Join _) eqn:Ej; [done|].
  apply errors_Join_ok in Ej as [[? ->] Ej]. apply errors_Join_ok in Ej as [[? ->] Ej]. apply errors_Join_ok in Ej as [[? ->] Ej].
  apply errors_Join_ok in Ej as [[? ->] Ej]. apply errors_Join_ok in Ej as [[? ->] Ej]. apply errors_Join_ok in Ej as [[? ->] _].
  apply uint16_from in E4 as [-> ?], E5 as [-> ?], E9 as [-> ?]. apply uint64_from in E6 as [-> ?].
  apply byte_from in E7 as [-> ?], E8 as [-> ?]. cbn [ok_or]. destruct (_ || _); [done|].
  destruct (reader_text r9) as [source r10] eqn:E10. destruct (reader_text r10) as [endpoint r11] eqn:E11.
  destruct (errors_Join _) eqn:Ej; [done|].
  apply errors_Join_ok in Ej as [[? ->] Ej]. apply errors_Join_ok in Ej as [[? ->] _].
  apply text_from in E10 as [-> _], E11 as [-> _]. cbn [ok_or].
  destruct (header_io flags _ _) as [io|] eqn:Eio; [|done]. intros [= <- <-].
  apply header_io_from in Eio as [Hp Ht]; [|done|done]. cbn [h_commandIO h_networks h_dns h_argv]. rewrite Ht. cbn [ts_cols ts_rows].
  split; [|done]. unfold header_bytes, header_flags. cbn [h_automatic h_commandIO h_followSymlinks h_networks h_dns h_argv
    h_source h_endpoint h_duration]. rewrite Ht, Hp, flags_from by done. cbn [ts_cols ts_rows].
  by rewrite <- !app_assoc.
Qed.

Lemma addresses_from label n : forall r xs r',
  read_all (read_address label) n r = (Ok xs, r') -> Forall (fun a => Is4 a = true) xs ->
  r = mjoin (address_bytes <$> xs) ++ r' /\ length xs = n /\ Forall addr_wf xs.
Proof.
  induction n as [|n IH]; intros r xs r'; cbn [read_all]; [by intros [= <- <-]|].
  destruct (read_address label r) as [[x|] r1] eqn:E1; [|done].
  destruct (read_all _ n r1) as [[ys|] r2] eqn:E2; [|done]. intros [= <- <-] H4. inversion_clear H4 as [|? ? Hx Hys].
  apply address_from in E1 as (s & -> & Hs). apply ParseAddr_canonical in Hs as [-> Hwf]; [|done].
  apply IH in E2 as (-> & <- & Hw); [|done].
  change (mjoin (address_bytes <$> x :: ys)) with (address_bytes x ++ mjoin (address_bytes <$> ys)).
  rewrite <- app_assoc. by repeat constructor.
Qed.

Section DecodeFrom.
Context `{URLs}.

Lemma build_request_valid h networks dns argv r : build_request h networks dns argv = Ok r -> validate r = None.
Proof.
  unfold build_request. destruct (h_automatic h).
  - destruct (NewSettings _ _); [|done]. unfold NewAutomaticRequest. intros (V & E)%check_Ok_inv. by apply Ok_inj in E as <-.
  - destruct (_ || _); [done|]. unfold NewManualRequest. intros (V & E)%check_Ok_inv. by apply Ok_inj in E as <-.
Qed.

Lemma build_manual h networks dns' argv r :
  build_request h networks dns' argv = Ok r -> automatic r = [] ->
  h_automatic h = false /\ h_endpoint h = "" /\ h_duration h = 0
  /\ r = MkRequest (h_source h) networks.1 [] settings_zero dns' argv (h_commandIO h) (h_followSymlinks h).
Proof.
  intros E Ha. pose proof (build_request_valid _ _ _ _ _ E) as V. apply validate_None in V. unfold build_request in E.
  destruct (h_automatic h).
  - destruct (NewSettings _ _); [|done]. unfold NewAutomaticRequest in E. apply check_Ok_inv in E as [_ E].
    apply Ok_inj in E as <-. cbn in Ha. subst. destruct (acc_networks _ V) as [(Hm & _)|(_ & Hn & _)]; [done|].
    cbn [automatic] in Hn. rewrite Ha, zlen_nil in Hn. lia.
  - destruct (_ || _) eqn:E0; [done|]. unfold NewManualRequest in E. apply check_Ok_inv in E as [_ E].
    apply Ok_inj in E as <-. by bool_to_prop.
Qed.

Lemma Decode_valid p r : Decode p = Ok r -> validate r = None.
Proof.
  unfold Decode. destruct (decodeHeader p) as [header r1]. intros (h & -> & E)%rbind_Ok_inv.
  destruct (decode_networks h r1) as [networks r2]. apply rbind_Ok_inv in E as (ns & -> & E).
  destruct (decodeAddresses _ _ r2) as [ds r3]. apply rbind_Ok_inv in E as (ds' & -> & E).
  destruct (decodeTexts _ r3) as [argv r4]. apply rbind_Ok_inv in E as (argv' & -> & E).
  destruct (_ =? 0); cbn [negb] in E; [|done]. by eapply build_request_valid.
Qed.

Lemma header_bytes_of h ns ds argv :
  let r := MkRequest (h_source h) ns [] settings_zero ds argv (h_commandIO h) (h_followSymlinks h) in
  h_automatic h = false -> h_endpoint h = "" -> h_duration h = 0 ->
  h_networks h = zlen ns -> h_dns h = zlen ds -> h_argv h = zlen argv -> in_u 16 (h_argv h) ->
  header_bytes h = fixed_part r ++ text_bytes (sourceLabel r) ++ text_bytes (endpoint_text r).
Proof.
  intros r Ha He Hd Hn Hs Hv Hw. unfold header_bytes, fixed_part, header_flags, request_flags, endpoint_text, r, AutomaticWeight,
    networkCount. cbn [commandIO automatic followSymlinks manual dns childArgv sourceLabel settings].
  rewrite Ha, He, Hd, Hn, Hs, <- Hv. change (zlen (@nil Addr)) with 0. cbn [Z.eqb negb].
  rewrite Z.add_0_r, !wrap_small by (done || unfold in_u; lia).
  replace (if h_followSymlinks h then Z.lor (if IsPipes (h_commandIO h) then Z.lor 0 pipesFlag else 0) symlinkFlag else
    (if IsPipes (h_commandIO h) then Z.lor 0 pipesFlag else 0)) with
    (Z.lor (Z.lor 0 (if IsPipes (h_commandIO h) then pipesFlag else 0)) (if h_followSymlinks h then symlinkFlag else 0))
    by (destruct (IsPipes (h_commandIO h)), (h_followSymlinks h); done).
  by rewrite <- !app_assoc.
Qed.

Lemma decoded_manual p r :
  Decode p = Ok r -> automatic r = [] -> Forall (fun a => Is4 a = true) (dns r) -> p = payload_of r /\ start_wf r.
Proof.
  unfold Decode. destruct (decodeHeader p) as [header r1] eqn:E1. intros (h & -> & E)%rbind_Ok_inv Ha H4.
  destruct (decode_networks h r1) as [networks r2] eqn:E2. apply rbind_Ok_inv in E as (ns & -> & E).
  destruct (decodeAddresses _ _ r2) as [ds r3] eqn:E3. apply rbind_Ok_inv in E as (ds' & -> & E).
  destruct (decodeTexts _ r3) as [argv r4] eqn:E4. apply rbind_Ok_inv in E as (argv' & -> & E).
  destruct (zlen r4 =? 0) eqn:E5; [|done]. cbn [negb] in E. rewrite zlen_eqb_nil in E5. bool_to_prop. subst r4.
  apply build_manual in E as (Hauto & He & Hd & ->); [|done]. cbn [dns] in H4.
  apply decodeHeader_from in E1 as [-> (Hc & Hr & Hn & Hds & Hav)].
  unfold decode_networks in E2. rewrite Hauto in E2. destruct (decodeManualNetworks _ r1) as [ns' r1'] eqn:En.
  injection E2 as E2 <-. apply rbind_Ok_inv in E2 as (ns'' & -> & E2). apply Ok_inj in E2 as <-. cbn [fst].
  apply (all_from _ _ _ network_from) in En as (-> & Hln & Hns). apply addresses_from in E3 as (-> & Hld & Hwd); [|done].
  apply (all_from _ _ _ text_from) in E4 as (-> & Hla & Hta). unfold in_u in Hn, Hds, Hav.
  assert (h_networks h = zlen ns'') as En by (unfold zlen; lia).
  assert (h_dns h = zlen ds') as Ed by (unfold zlen; lia). assert (h_argv h = zlen argv') as Ea by (unfold zlen; lia).
  split.
  - unfold payload_of, variable_part. rewrite (header_bytes_of h ns'' ds' argv') by done.
    cbn [manual automatic dns childArgv]. by rewrite app_nil_r, <- !app_assoc.
  - constructor; [done|done|by constructor| |done]. cbn [dns]. rewrite Forall_forall in H4, Hwd |- *. intros a Hi.
    apply ipv4_fits; by auto.
Qed.
End DecodeFrom.

Section Claims.
Context `{URLs}.

(** C23. A start request survives the wire: every well-formed request that
    validates has an encoding, of exactly the size computed beforehand without
    encoding, and the worker decodes it to the same request.  Well-formed means
    that numbers have their widths, the texts of the resolvers fit the wire, a
    manual request has no settings and the endpoint of an automatic one is its own
    canonical text.  Whether the encoding fits the pipe is checked elsewhere. *)
Theorem start_request_round_trip r (Hvalid : validate r = None) (Hwf : start_wf r) :
  exists p, Encode r = Ok p /\ EncodedSize r = Ok (zlen p) /\ Decode p = Ok r.
Proof.
  exists (payload_of r). split_and!; [by apply Encode_payload|by apply checkedSize_spec|by apply Decode_payload].
Qed.
(** C38. What the worker decodes has passed the validation again, and for a
    manual request whose resolvers are all IPv4 the wire form is canonical: the
    payload is the one the request encodes to, so no other payload means the same.
    Other requests have more than one payload. *)
Theorem decoded_start_request_is_canonical p r (Hdecoded : Decode p = Ok r) :
  validate r = None
  /\ (automatic r = [] -> Forall (fun a => Is4 a = true) (dns r) -> Encode r = Ok p /\ start_wf r).
Proof.
  pose proof (Decode_valid _ _ Hdecoded) as V. split; [done|]. intros Ha H4.
  destruct (decoded_manual _ _ Hdecoded Ha H4) as [-> ?]. split; [by apply Encode_payload|done].
Qed.
End Claims.

(** ** Examples

    URLs of the form [http://host], enough to run the code. *)
Module Sample.
#[local] Instance urls : URLs := {
  URL := string;
  url_zero := "";
  url_Parse raw := if HasPrefix raw "http://" then Ok raw else Err (ErrText "not a URL");
  url_String u := u;
  url_Scheme u := if HasPrefix u "http://" then "http" else "";
  url_Host u := sdrop 7 u;
  url_hasUser _ := false;
  url_Fragment _ := "";
  url_RawFragment _ := ""
}.

Definition start (dns : list Addr) : Request :=
  MkRequest "/data" [] [Addr4 0xc000020a; Addr4 0xc6336414] (MkSettings "http://h" (3 * Second) defaultPreparationTimeout)
    dns ["rsync"; "{}"] (MkCommandIO ptyMode (MkTerminalSize 80 24)) true.

Definition by_hand (dns : list Addr) : Request :=
  MkRequest "/data" [MkManualNetwork (Addr4 0xc000020a) 2] [] settings_zero dns ["cp"; "{}"] Pipes false.

Definition resolvers : list Addr := [Addr4 0xc0000235; Addr6 (0xfe80 * 2 ^ 112 + 1) "eth0"].

Lemma start_valid : validate (start resolvers) = None.
Proof. vm_compute. done. Qed.

Lemma resolver_fits : Forall address_fits resolvers.
Proof. repeat (apply Forall_cons_2; [split_and!; vm_compute; done|]). by constructor. Qed.

Lemma start_wf_sample : start_wf (start resolvers).
Proof.
  constructor; cbn.
  - split; vm_compute; done.
  - by constructor.
  - repeat (apply Forall_cons_2; [vm_compute; done|]). by constructor.
  - apply resolver_fits.
  - vm_compute. done.
Qed.

Lemma start_request_round_trip_witness :
  exists p, Encode (start resolvers) = Ok p /\ EncodedSize (start resolvers) = Ok (zlen p) /\ Decode p = Ok (start resolvers).
Proof. exact (start_request_round_trip (start resolvers) start_valid start_wf_sample). Defined.

Definition by_hand_payload : list byte := ok_or [] (Encode (by_hand [Addr4 0xc0000235])).

Lemma by_hand_decodes : Decode by_hand_payload = Ok (by_hand [Addr4 0xc0000235]).
Proof. vm_compute. done. Qed.

Lemma by_hand_ipv4 : Forall (fun a => Is4 a = true) (dns (by_hand [Addr4 0xc0000235])).
Proof. by repeat constructor. Qed.

Lemma decoded_start_request_is_canonical_witness :
  Encode (by_hand [Addr4 0xc0000235]) = Ok by_hand_payload.
Proof.
  exact (proj1 (proj2 (decoded_start_request_is_canonical _ _ by_hand_decodes) eq_refl by_hand_ipv4)).
Defined.

(** Two payloads of one request: IPv6 texts are not canonical. *)
Definition ipv6_resolver : Addr := Addr6 (0x20010db8 * 2 ^ 96 + 1) "".
Definition long_payload : list byte :=
  let r := by_hand [ipv6_resolver] in
  fixed_part r ++ text_bytes "/data" ++ text_bytes "" ++ mjoin (network_bytes <$> manual r)
  ++ text_bytes "2001:DB8:0::1" ++ mjoin (text_bytes <$> childArgv r).

Example ipv6_payload_is_not_canonical :
  Decode long_payload = Ok (by_hand [ipv6_resolver]) /\ is_ok (Encode (by_hand [ipv6_resolver])) = true
  /\ Encode (by_hand [ipv6_resolver]) <> Ok long_payload.
Proof. split_and!; [vm_compute; done..|]. vm_compute. intros [=]. Qed.

(** Only the bound of the pipe on the whole payload keeps the 16-bit length of
    a text from wrapping: a zone may be longer, and the worker would not decode
    the encoding. *)
Definition long_zone : string := text_of (replicate (Z.to_nat 65540) x7a).

Example overlong_zone_is_not_decoded :
  let r := by_hand [Addr6 (0xfe80 * 2 ^ 112 + 1) long_zone] in
  bool_decide (validate r = None) = true /\ is_ok (Encode r) = true /\ is_ok (Decode (ok_or [] (Encode r))) = false.
Proof. vm_compute. done. Qed.
End Sample.
