(* ===== verification/RunRequest.v ===== *)
(** * The intent of a run

    [runcommand/request.go] and [request_validation.go]: one parsed command line,
    validated in the order the command line documents, and [start_request.go]:
    its translation into the start request of the worker and the check that every
    form of it fits the pipe. *)
From S2P Require Import Prelude GoText Paths Netip TransferNumber Frame Settings TransferStart.

(** ** Rejections *)
Inductive RequestValidationReason : Type :=
  | RequestSourcePathInvalid
  | RequestNetworkCountInvalid
  | RequestManualMeasureOverride
  | RequestNetworkWeightSyntaxInvalid
  | RequestNetworkAddressContainsNUL
  | RequestNetworkAddressSyntaxInvalid
  | RequestAutomaticNetworkCountInvalid
  | RequestAutomaticExplicitWeightInvalid
  | RequestNetworkAddressInvalid
  | RequestNetworkRepeated
  | RequestManualNetworkWeightInvalid
  | RequestMeasureSettingsInvalid
  | RequestDNSCountInvalid
  | RequestDNSAddressSyntaxInvalid
  | RequestDNSAddressInvalid
  | RequestChildArgumentCountInvalid
  | RequestChildArgumentContainsNUL
  | RequestChildPlaceholderCountInvalid
  | RequestLogDirectoryInvalid.

#[export] Instance reason_eq_dec : EqDecision RequestValidationReason.
Proof. solve_decision. Defined.

Record RequestValidationFailure : Type := MkFailure {
  reason : RequestValidationReason;
  networkIndex : Z;
  resolverIndex : Z;
  failure_address : Addr;
  failure_maximum : Z
}.

Definition requestValidation (reason : RequestValidationReason) : RequestValidationFailure :=
  MkFailure reason (-1) (-1) AddrNone 0.
Definition requestNetworkValidation (reason : RequestValidationReason) (index : Z) (address : Addr) : RequestValidationFailure :=
  MkFailure reason index (-1) address 0.
Definition requestMaximumValidation (reason : RequestValidationReason) (maximum : Z) : RequestValidationFailure :=
  MkFailure reason (-1) (-1) AddrNone maximum.
Definition requestResolverValidation (reason : RequestValidationReason) (index : Z) (address : Addr) : RequestValidationFailure :=
  MkFailure reason (-1) index address 0.

(** [Error] of a failure that is not nil. *)
Definition failure_text (f : RequestValidationFailure) : string :=
  let network := "run request network " +:+ pretty (networkIndex f + 1) in
  match reason f with
  | RequestSourcePathInvalid => "run request source path is invalid"
  | RequestNetworkCountInvalid => "run request network count is outside 1.." +:+ pretty (failure_maximum f)
  | RequestManualMeasureOverride => "manual run does not accept measure overrides"
  | RequestNetworkWeightSyntaxInvalid => network +:+ " weight syntax is invalid"
  | RequestNetworkAddressContainsNUL => network +:+ " address contains NUL"
  | RequestNetworkAddressSyntaxInvalid => network +:+ " address syntax is invalid"
  | RequestAutomaticNetworkCountInvalid => "automatic run requires at least two networks"
  | RequestAutomaticExplicitWeightInvalid => "automatic run does not accept explicit network weights"
  | RequestNetworkAddressInvalid =>
      if networkIndex f <? 0
      then "manual run network address " +:+ Quote (AddrString (failure_address f)) +:+ " is not IPv4"
      else network +:+ " address " +:+ Quote (AddrString (failure_address f)) +:+ " is not IPv4"
  | RequestNetworkRepeated => "run request repeats network " +:+ AddrString (failure_address f)
  | RequestManualNetworkWeightInvalid =>
      if networkIndex f <? 0 then "manual run network weight is invalid" else network +:+ " weight is invalid"
  | RequestMeasureSettingsInvalid => "automatic run measure settings are invalid"
  | RequestDNSCountInvalid => "run request accepts at most " +:+ pretty (failure_maximum f) +:+ " DNS resolvers"
  | RequestDNSAddressSyntaxInvalid => "run request DNS resolver " +:+ pretty (resolverIndex f + 1) +:+ " syntax is invalid"
  | RequestDNSAddressInvalid => "run request DNS resolver " +:+ Quote (AddrString (failure_address f)) +:+ " is invalid"
  | RequestChildArgumentCountInvalid => "run request child argument count is invalid"
  | RequestChildArgumentContainsNUL => "run request child argument contains NUL"
  | RequestChildPlaceholderCountInvalid => "run request child placeholder count is invalid"
  | RequestLogDirectoryInvalid => "run request log directory is invalid"
  end.

(** [NetworkIndex] and [ResolverIndex]: the index, when there is one. *)
Definition NetworkIndex (f : RequestValidationFailure) : option Z :=
  if networkIndex f <? 0 then None else Some (networkIndex f).
Definition ResolverIndex (f : RequestValidationFailure) : option Z :=
  if resolverIndex f <? 0 then None else Some (resolverIndex f).

(** A value, or why there is none. *)
Inductive checked (A : Type) : Type :=
  | Accepted (value : A)
  | Rejected (failure : RequestValidationFailure).
Arguments Accepted {A} value.
Arguments Rejected {A} failure.

Definition checked_bind {A B} (c : checked A) (k : A -> checked B) : checked B :=
  match c with Accepted a => k a | Rejected f => Rejected f end.

Definition cleanAbsolute (path : string) : bool :=
  negb (bool_decide (path = "")) && IsAbs path && bool_decide (Clean path = path) && negb (contains_byte x00 path).

Record DisplayOptions : Type := MkDisplay { noTUI : bool; mouse : bool }.

Record NetworkArgument : Type := MkArgument {
  arg_localIP : Addr;
  normalizedWeight : Z;
  explicitWeight : bool;
  weightTextInvalid : bool;
  addressTextContainsNUL : bool
}.

Record RunNetwork : Type := MkRunNetwork { rn_localIP : Addr; rn_weight : Z }.

(** ** Validation *)
(** The loop over the network arguments: whether one has an explicit weight. *)
Fixpoint check_arguments (index : Z) (seen : gset Addr) (explicit : bool) (arguments : list NetworkArgument) : checked bool :=
  match arguments with
  | [] => Accepted explicit
  | a :: arguments =>
      let reject reason := Rejected (requestNetworkValidation reason index (arg_localIP a)) in
      if weightTextInvalid a then reject RequestNetworkWeightSyntaxInvalid
      else if addressTextContainsNUL a then reject RequestNetworkAddressContainsNUL
      else if negb (AddrIsValid (arg_localIP a)) then reject RequestNetworkAddressSyntaxInvalid
      else if negb (Is4 (arg_localIP a)) then reject RequestNetworkAddressInvalid
      else if bool_decide (arg_localIP a ∈ seen) then reject RequestNetworkRepeated
      else check_arguments (index + 1) ({[ arg_localIP a ]} ∪ seen) (explicit || explicitWeight a) arguments
  end.

Fixpoint check_resolvers (index : Z) (dns : list Addr) : option RequestValidationFailure :=
  match dns with
  | [] => None
  | address :: dns =>
      if negb (AddrIsValid address) then Some (requestResolverValidation RequestDNSAddressSyntaxInvalid index address)
      else if IsUnspecified address || IsMulticast address || IsLoopback address
      then Some (requestResolverValidation RequestDNSAddressInvalid index address)
      else check_resolvers (index + 1) dns
  end.

Definition validateChildArgv (argv : list string) : option RequestValidationFailure :=
  if (zlen argv =? 0) || (65535 <? zlen argv) then Some (requestValidation RequestChildArgumentCountInvalid)
  else if existsb (contains_byte x00) argv then Some (requestValidation RequestChildArgumentContainsNUL)
  else if negb (placeholders argv =? 1) then Some (requestValidation RequestChildPlaceholderCountInvalid)
  else None.

Fixpoint manual_networks (index : Z) (arguments : list NetworkArgument) : checked (list RunNetwork) :=
  match arguments with
  | [] => Accepted []
  | a :: arguments =>
      if normalizedWeight a =? 0
      then Rejected (requestNetworkValidation RequestManualNetworkWeightInvalid index (arg_localIP a))
      else
        checked_bind (manual_networks (index + 1) arguments) (fun networks =>
          Accepted (MkRunNetwork (arg_localIP a) (normalizedWeight a) :: networks))
  end.

Section Run.
Context `{URLs}.

Record NetworkSelections : Type := MkSelections {
  sel_manual : list RunNetwork;
  sel_automatic : list Addr;
  sel_settings : Settings
}.

Definition selections_AutomaticWeight (s : NetworkSelections) : bool := negb (zlen (sel_automatic s) =? 0).

Record RunRequest : Type := MkRunRequest {
  sourcePath : string;
  networks : NetworkSelections;
  run_dns : list Addr;
  run_childArgv : list string;
  logDirectory : string;
  display : DisplayOptions;
  run_followSymlinks : bool
}.

Definition newNetworkSelections (automatic : bool) (arguments : list NetworkArgument) (settings : Settings)
    : checked NetworkSelections :=
  if automatic then Accepted (MkSelections [] (arg_localIP <$> arguments) settings)
  else checked_bind (manual_networks 0 arguments) (fun manual => Accepted (MkSelections manual [] settings_zero)).

(** The checks of the mode, before and after the loop over the arguments. *)
Definition check_mode (automatic explicit : bool) (count : Z) (settings : Settings) : option RequestValidationFailure :=
  if automatic && explicit then Some (requestValidation RequestAutomaticExplicitWeightInvalid)
  else if automatic && (count <? 2) then Some (requestValidation RequestAutomaticNetworkCountInvalid)
  else if automatic && negb (settings_Valid settings) then Some (requestValidation RequestMeasureSettingsInvalid)
  else None.

Definition NewRequest (sourcePath : string) (automatic : bool) (arguments : list NetworkArgument) (measureOverrides : bool)
    (settings : Settings) (dns : list Addr) (childArgv : list string) (logDirectory : option string)
    (display : DisplayOptions) (followSymlinks : bool) : checked RunRequest :=
  if negb (cleanAbsolute sourcePath) || bool_decide (sourcePath = "/")
  then Rejected (requestValidation RequestSourcePathInvalid)
  else if (zlen arguments <? 1) || (Maximum <? zlen arguments)
  then Rejected (requestMaximumValidation RequestNetworkCountInvalid Maximum)
  else if negb automatic && (measureOverrides || settings_Valid settings)
  then Rejected (requestValidation RequestManualMeasureOverride)
  else
    checked_bind (check_arguments 0 ∅ false arguments) (fun explicit =>
    match check_mode automatic explicit (zlen arguments) settings with
    | Some f => Rejected f
    | None =>
        if maximumDNSResolvers <? zlen dns then Rejected (requestMaximumValidation RequestDNSCountInvalid maximumDNSResolvers)
        else
          match check_resolvers 0 dns with
          | Some f => Rejected f
          | None =>
              if match logDirectory with Some d => negb (cleanAbsolute d) | None => false end
              then Rejected (requestValidation RequestLogDirectoryInvalid)
              else
                match validateChildArgv childArgv with
                | Some f => Rejected f
                | None =>
                    checked_bind (newNetworkSelections automatic arguments settings) (fun networks =>
                    Accepted (MkRunRequest sourcePath networks dns childArgv (default "" logDirectory) display followSymlinks))
                end
          end
    end).

(** ** The start request *)
Definition NewStartRequest (r : RunRequest) (io : CommandIO) : result Request :=
  let selections := networks r in
  if selections_AutomaticWeight selections then
    NewAutomaticRequest (sourcePath r) (sel_automatic selections) (sel_settings selections) (run_dns r) (run_childArgv r)
      io (run_followSymlinks r)
  else
    match mmap (fun n => NewManualNetwork (rn_localIP n) (rn_weight n)) (sel_manual selections) with
    | Err e => Err (ErrWrap "construct transfer start network" e)
    | Ok wireNetworks =>
        NewManualRequest (sourcePath r) wireNetworks (run_dns r) (run_childArgv r) io (run_followSymlinks r)
    end.

Fixpoint check_capacity (r : RunRequest) (forms : list CommandIO) : option error :=
  match forms with
  | [] => None
  | io :: forms =>
      match NewStartRequest r io with
      | Err e => Some (ErrWrap "construct transfer start request" e)
      | Ok start =>
          match EncodedSize start with
          | Err e => Some (ErrWrap "size transfer start request" e)
          | Ok size => match ValidateStartRequestSize size with Some e => Some e | None => check_capacity r forms end
          end
      end
  end.

Definition CheckStartRequestCapacity (r : RunRequest) : option error :=
  match NewPTY 65535 65535 with
  | Err e => Some e
  | Ok maximumPTY => check_capacity r [Pipes; maximumPTY]
  end.
End Run.
