(* ===== verification/TransferRequest.v ===== *)
(** * The request of a transfer

    [transfer/request.go], the resolver intent of [namespaceresolvers/types.go]
    and [transferRequest] of [transferworker/worker.go]: the worker numbers the
    networks of the start request, adds its environment and validates the whole
    again.  [execution.go] and [childprocesses/types.go]: what one transfer runs. *)
From S2P Require Import Prelude GoText Paths Netip TransferNumber RunId Weights Settings TransferStart.

(** ** Resolver intent *)
Record Intent : Type := MkIntent { explicit : list Addr }.

Definition DefaultIntent : Intent := MkIntent [].

Fixpoint check_direct (seen : gset Addr) (addresses : list Addr) : option error :=
  match addresses with
  | [] => None
  | address :: addresses =>
      if negb (AddrIsValid address) || IsUnspecified address || IsMulticast address || IsLoopback address
      then Some (ErrText ("direct resolver " +:+ AddrString address +:+ " is invalid"))
      else if bool_decide (address ∈ seen)
      then Some (ErrText ("direct resolver " +:+ AddrString address +:+ " is repeated"))
      else check_direct ({[ address ]} ∪ seen) addresses
  end.

Definition DirectIntent (addresses : list Addr) : result Intent :=
  if zlen addresses =? 0 then Err (ErrText "direct resolver intent requires at least one address")
  else check! check_direct ∅ addresses in Ok (MkIntent addresses).

Definition UsesHostResolver (intent : Intent) : bool := zlen (explicit intent) =? 0.

(** ** Selections *)
Definition InteractiveCommandIO : Z := 1.
Definition PlainCommandIO : Z := 2.
Definition mode_valid (mode : Z) : bool := (mode =? InteractiveCommandIO) || (mode =? PlainCommandIO).

Definition viewPlaceholder : string := "{}".

Record selectedNetwork : Type := MkSelected { sn_transfer : Number; sn_localIP : Addr }.

Definition NewManualNetworkSelection (number : Number) (localIP : Addr) (weight : Z) : result ManualNetworkSelection :=
  if (Value number =? 0) || negb (Is4 localIP) || (weight =? 0)
  then Err (ErrText "manual network selection is invalid") else Ok (MkManual number localIP weight).

Definition NewAutomaticNetworkSelection (number : Number) (localIP : Addr) : result AutomaticNetworkSelection :=
  if (Value number =? 0) || negb (Is4 localIP)
  then Err (ErrText "automatic network selection is invalid") else Ok (MkAutomatic number localIP).

Definition manualSelectedNetworks (values : list ManualNetworkSelection) : list selectedNetwork :=
  (fun v => MkSelected (manual_transfer v) (manual_localIP v)) <$> values.
Definition automaticSelectedNetworks (values : list AutomaticNetworkSelection) : list selectedNetwork :=
  (fun v => MkSelected (automatic_transfer v) (automatic_localIP v)) <$> values.

(** ** Validation *)
(** The numbers seen, when every selection is valid and none repeats another. *)
Fixpoint check_selected (index : Z) (ids : gset Number) (ips : gset Addr) (selections : list selectedNetwork)
    : result (gset Number) :=
  match selections with
  | [] => Ok ids
  | s :: selections =>
      if (Value (sn_transfer s) =? 0) || negb (Is4 (sn_localIP s))
      then Err (ErrText ("network selection " +:+ pretty (index + 1) +:+ " is invalid"))
      else if bool_decide (sn_transfer s ∈ ids)
      then Err (ErrText ("run repeats transfer " +:+ pretty (Value (sn_transfer s))))
      else if bool_decide (sn_localIP s ∈ ips)
      then Err (ErrText ("transfer repeats source " +:+ AddrString (sn_localIP s)))
      else check_selected (index + 1) ({[ sn_transfer s ]} ∪ ids) ({[ sn_localIP s ]} ∪ ips) selections
  end.

(** [for expected := 1; expected <= n; expected++], from [expected]. *)
Fixpoint check_complete (n : nat) (expected : Z) (ids : gset Number) : option error :=
  match n with
  | O => None
  | S n =>
      if bool_decide (ok_or number_zero (number_New expected) ∈ ids) then check_complete n (expected + 1) ids
      else Some (ErrText ("run transfer set is missing " +:+ pretty expected))
  end.

Definition validateSelectedNetworks (selections : list selectedNetwork) : option error :=
  if (zlen selections =? 0) || (Maximum <? zlen selections)
  then Some (ErrText ("run requires 1.." +:+ pretty Maximum +:+ " transfers"))
  else
    match check_selected 0 ∅ ∅ selections with
    | Err e => Some e
    | Ok ids => check_complete (length selections) 1 ids
    end.

Fixpoint check_weights (index : Z) (selections : list ManualNetworkSelection) : option error :=
  match selections with
  | [] => None
  | s :: selections =>
      if manual_weight s =? 0 then Some (ErrText ("manual network selection " +:+ pretty (index + 1) +:+ " is invalid"))
      else check_weights (index + 1) selections
  end.

Definition validateManualSelections (selections : list ManualNetworkSelection) : option error := check_weights 0 selections.

Definition equals_sign : Ascii.ascii := Ascii.ascii_of_nat 61.

Fixpoint check_environment (seen : gset string) (environment : list string) : option error :=
  match environment with
  | [] => None
  | entry :: environment =>
      let '(name, _, found) := Cut entry equals_sign in
      if negb found || bool_decide (name = "") || contains_byte x00 entry
      then Some (ErrText "transfer command environment is invalid")
      else if bool_decide (name ∈ seen) then Some (ErrText ("transfer command environment repeats " +:+ Quote name))
      else check_environment ({[ name ]} ∪ seen) environment
  end.

Definition validateCommandIntent (argv environment : list string) (terminal : TerminalSize) (commandIO : Z) : option error :=
  if (zlen argv =? 0) || negb (mode_valid commandIO) then Some (ErrText "transfer command or resolver is invalid")
  else if existsb (contains_byte x00) argv then Some (ErrText "transfer command contains NUL")
  else if negb (placeholders argv =? 1)
  then Some (ErrText ("transfer command must contain exactly one standalone " +:+ Quote viewPlaceholder +:+ " argument"))
  else
    match check_environment ∅ environment with
    | Some e => Some e
    | None =>
        let '(cols, rows) := TerminalValues terminal in
        if ((commandIO =? InteractiveCommandIO) && ((cols =? 0) || (rows =? 0)))
           || ((commandIO =? PlainCommandIO) && (negb (cols =? 0) || negb (rows =? 0)))
        then Some (ErrText "transfer terminal size is invalid")
        else None
    end.

Section Transfer.
Context `{URLs}.

Record TransferRequest : Type := MkTransferRequest {
  sourceName : string;
  tr_manual : list ManualNetworkSelection;
  tr_automatic : list AutomaticNetworkSelection;
  tr_argv : list string;
  tr_environment : list string;
  tr_resolver : Intent;
  tr_terminal : TerminalSize;
  tr_commandIO : Z;
  tr_settings : Settings;
  tr_followSymlinks : bool
}.

Definition selectedNetworks (r : TransferRequest) : list selectedNetwork :=
  if negb (zlen (tr_manual r) =? 0) then manualSelectedNetworks (tr_manual r) else automaticSelectedNetworks (tr_automatic r).

(** Everything but the networks and settings. *)
Definition newRequest (source : string) (networks : list selectedNetwork) (argv environment : list string)
    (resolver : Intent) (terminal : TerminalSize) (commandIO : Z) (followSymlinks : bool) : result TransferRequest :=
  let sourceName := Base (Clean source) in
  if bool_decide (source = "") || contains_byte x00 source || bool_decide (sourceName = ".")
     || bool_decide (sourceName = "..") || bool_decide (sourceName = "/")
  then Err (ErrText "transfer source is invalid")
  else
    check! validateSelectedNetworks networks in
    check! validateCommandIntent argv environment terminal commandIO in
    Ok (MkTransferRequest sourceName [] [] argv environment resolver terminal commandIO settings_zero followSymlinks).

Definition with_manual (selected : list ManualNetworkSelection) (r : TransferRequest) : TransferRequest :=
  MkTransferRequest (sourceName r) selected (tr_automatic r) (tr_argv r) (tr_environment r) (tr_resolver r) (tr_terminal r)
    (tr_commandIO r) (tr_settings r) (tr_followSymlinks r).
Definition with_automatic (selected : list AutomaticNetworkSelection) (settings : Settings) (r : TransferRequest)
    : TransferRequest :=
  MkTransferRequest (sourceName r) (tr_manual r) selected (tr_argv r) (tr_environment r) (tr_resolver r) (tr_terminal r)
    (tr_commandIO r) settings (tr_followSymlinks r).

(** The interactive and the plain constructor differ in terminal and mode. *)
Definition manual_request (mode : Z) (source : string) (selected : list ManualNetworkSelection) (argv environment : list string)
    (resolver : Intent) (terminal : TerminalSize) (followSymlinks : bool) : result TransferRequest :=
  let* request := newRequest source (manualSelectedNetworks selected) argv environment resolver terminal mode followSymlinks in
  check! validateManualSelections selected in
  Ok (with_manual selected request).

Definition NewInteractiveManualRequest := manual_request InteractiveCommandIO.
Definition NewPlainManualRequest (source : string) (selected : list ManualNetworkSelection) (argv environment : list string)
    (resolver : Intent) (followSymlinks : bool) : result TransferRequest :=
  manual_request PlainCommandIO source selected argv environment resolver terminal_zero followSymlinks.

Definition automatic_request (mode : Z) (source : string) (selected : list AutomaticNetworkSelection)
    (argv environment : list string) (resolver : Intent) (terminal : TerminalSize) (settings : Settings)
    (followSymlinks : bool) : result TransferRequest :=
  if (zlen selected <? 2) || negb (settings_Valid settings)
  then Err (ErrText "automatic transfer requires at least two networks and a valid window")
  else
    let* request := newRequest source (automaticSelectedNetworks selected) argv environment resolver terminal mode followSymlinks in
    Ok (with_automatic selected settings request).

Definition NewInteractiveAutomaticRequest := automatic_request InteractiveCommandIO.
Definition NewPlainAutomaticRequest (source : string) (selected : list AutomaticNetworkSelection) (argv environment : list string)
    (resolver : Intent) (settings : Settings) (followSymlinks : bool) : result TransferRequest :=
  automatic_request PlainCommandIO source selected argv environment resolver terminal_zero settings followSymlinks.

(** ** The worker's translation *)
(** Numbers from [index + 1]; beyond the last number [New] fails and leaves the
    invalid one, which the selection refuses. *)
Fixpoint number_automatic (index : Z) (networks : list Addr) : result (list AutomaticNetworkSelection) :=
  match networks with
  | [] => Ok []
  | localIP :: networks =>
      let* selection := NewAutomaticNetworkSelection (ok_or number_zero (number_New (index + 1))) localIP in
      let* selected := number_automatic (index + 1) networks in
      Ok (selection :: selected)
  end.

Fixpoint number_manual (index : Z) (networks : list ManualNetwork) : result (list ManualNetworkSelection) :=
  match networks with
  | [] => Ok []
  | n :: networks =>
      let* selection :=
        NewManualNetworkSelection (ok_or number_zero (number_New (index + 1))) (mn_localIP n) (mn_weight n) in
      let* selected := number_manual (index + 1) networks in
      Ok (selection :: selected)
  end.

Definition transferRequest (request : Request) (environment : list string) : result TransferRequest :=
  let* resolver := if negb (zlen (dns request) =? 0) then DirectIntent (dns request) else Ok DefaultIntent in
  let '(terminal, pty) := PTYSize (commandIO request) in
  if AutomaticWeight request then
    let* selected := number_automatic 0 (automatic request) in
    if negb pty then
      NewPlainAutomaticRequest (sourceLabel request) selected (childArgv request) environment resolver (settings request)
        (followSymlinks request)
    else
      NewInteractiveAutomaticRequest (sourceLabel request) selected (childArgv request) environment resolver terminal
        (settings request) (followSymlinks request)
  else
    let* selected := number_manual 0 (manual request) in
    if negb pty then
      NewPlainManualRequest (sourceLabel request) selected (childArgv request) environment resolver (followSymlinks request)
    else
      NewInteractiveManualRequest (sourceLabel request) selected (childArgv request) environment resolver terminal
        (followSymlinks request).
End Transfer.

Definition childEnvironment (environment : list string) : list string :=
  filter (fun entry => HasPrefix entry "TERM=" = false) environment ++ ["TERM=xterm-256color"].

(** ** What a transfer runs *)
Definition descriptorBoundViewAuthority : string := "/run/transferlanes".

(** [%03d] of a transfer number. *)
Definition three_digits (v : Z) : string :=
  (if v <? 10 then "00" else if v <? 100 then "0" else "") +:+ pretty v.

Definition DescriptorBoundViewPath (run : ID) (id : Number) (baseName : string) : result string :=
  if bool_decide (baseName = "") || bool_decide (baseName = ".") || bool_decide (baseName = "..")
     || negb (bool_decide (Base baseName = baseName)) || contains_byte x00 baseName || (Value id =? 0)
  then Err (ErrText "child file-view basename is invalid")
  else
    match RunId.Parse (IDString run) with
    | Ok parsed =>
        if negb (bool_decide (parsed = run)) then Err (ErrText "child file-view run identity is invalid")
        else Ok (Clean (Join [descriptorBoundViewAuthority; "view-" +:+ IDString run;
                              "transfer-" +:+ three_digits (Value id); baseName] "/"))
    | Err _ => Err (ErrText "child file-view run identity is invalid")
    end.

Definition transferShortcut (number : Number) : result Z :=
  let value := Value number in
  if (1 <=? value) && (value <=? 9) then Ok (wrap 8 (0x30 + value))
  else if (10 <=? value) && (value <=? Maximum) then Ok (wrap 8 (0x61 + value - 10))
  else Err (ErrText "transfer shortcut identity is invalid").

Definition cleanAbsolutePath (path : string) : bool :=
  negb (bool_decide (path = "")) && IsAbs path && bool_decide (Clean path = path) && negb (contains_byte x00 path).

Definition replaceViewArgument (template : list string) (path : string) : result (list string) :=
  if negb (cleanAbsolutePath path) then Err (ErrText "descriptor-bound file-view path is invalid")
  else if negb (placeholders template =? 1)
  then Err (ErrText "command template does not contain one standalone view argument")
  else Ok ((fun argument => if bool_decide (argument = viewPlaceholder) then path else argument) <$> template).

(** ** Results of the children *)
Record ChildResult : Type := MkChildResult { cr_transfer : Number; cr_exitCode : Z; cr_signal : Z }.

Fixpoint by_transfer (known : gmap Number ChildResult) (results : list ChildResult) : result (gmap Number ChildResult) :=
  match results with
  | [] => Ok known
  | r :: results =>
      if bool_decide (is_Some (known !! cr_transfer r))
      then Err (ErrText ("child process result repeats transfer " +:+ pretty (Value (cr_transfer r))))
      else by_transfer (<[ cr_transfer r := r ]> known) results
  end.

Definition result_of (known : gmap Number ChildResult) (s : selectedNetwork) : result ChildResult :=
  match known !! sn_transfer s with
  | Some r => Ok r
  | None => Err (ErrText ("child process result omits transfer " +:+ pretty (Value (sn_transfer s))))
  end.

Definition orderedTransferResults (selected : list selectedNetwork) (results : list ChildResult) : result (list ChildResult) :=
  if negb (zlen results =? zlen selected) then Err (ErrText "child process result set is incomplete or contains extras")
  else let* known := by_transfer ∅ results in mmap (result_of known) selected.
