(* ===== verification/RunIntent.v ===== *)
(** * The intent of a run: the proofs

    [NewRequest] accepts exactly the valid intents and changes nothing of them;
    an accepted intent that fits the pipe reaches the worker as the same intent,
    with the networks numbered in their order. *)
From S2P Require Import Prelude GoText Paths Netip NetipText TransferNumber Frame Weights Settings TransferStart TransferStartProofs RunRequest TransferRequest.

(** ** Acceptance *)
Definition arg_ok (a : NetworkArgument) : Prop :=
  weightTextInvalid a = false /\ addressTextContainsNUL a = false /\ Is4 (arg_localIP a) = true.

Definition usable_resolver (a : Addr) : Prop :=
  AddrIsValid a = true /\ IsUnspecified a = false /\ IsMulticast a = false /\ IsLoopback a = false.

Lemma Is4_valid a : Is4 a = true -> AddrIsValid a = true.
Proof. by destruct a. Qed.

Lemma check_arguments_Accepted arguments : forall index seen explicit e,
  check_arguments index seen explicit arguments = Accepted e <->
  e = explicit || existsb explicitWeight arguments /\ Forall arg_ok arguments
  /\ NoDup (arg_localIP <$> arguments) /\ Forall (fun a => arg_localIP a ∉ seen) arguments.
Proof.
  induction arguments as [|a arguments IH]; intros index seen explicit e; cbn [check_arguments existsb].
  - rewrite orb_false_r. split; [intros [= <-]; split_and!; by try constructor|by intros (-> & _)].
  - rewrite fmap_cons, NoDup_cons, !Forall_cons. unfold arg_ok at 1.
    destruct (weightTextInvalid a); [split; [done|by intros (_ & ((? & _) & _) & _)]|].
    destruct (addressTextContainsNUL a); [split; [done|by intros (_ & ((_ & ? & _) & _) & _)]|].
    destruct (AddrIsValid (arg_localIP a)) eqn:Ev; cbn [negb];
      [|split; [done|intros (_ & ((_ & _ & H4%Is4_valid) & _) & _); congruence]].
    destruct (Is4 (arg_localIP a)); cbn [negb]; [|split; [done|by intros (_ & ((_ & _ & ?) & _) & _)]].
    destruct (bool_decide (arg_localIP a ∈ seen)) eqn:Es; bool_to_prop;
      [split; [done|by intros (_ & _ & _ & ? & _)]|].
    rewrite IH, orb_assoc, !Forall_forall. split.
    + intros (-> & Hok & Hnd & Hs). split_and!; try done.
      * intros (b & Hb & Hi)%list_elem_of_fmap. destruct (Hs b Hi). set_solver.
      * intros b Hi. specialize (Hs b Hi). set_solver.
    + intros (-> & [_ Hok] & [Hn Hnd] & [_ Hs]). split_and!; try done.
      intros b Hi [Hb%elem_of_singleton|Hb]%elem_of_union; [|by apply (Hs b)].
      apply Hn. rewrite <- Hb. by apply list_elem_of_fmap_2.
Qed.

Lemma check_resolvers_None index l : check_resolvers index l = None <-> Forall usable_resolver l.
Proof.
  revert index; induction l as [|a l IH]; intros index; cbn [check_resolvers]; [by split; [constructor|]|].
  rewrite Forall_cons. unfold usable_resolver at 1.
  destruct (AddrIsValid a); cbn [negb]; [|by split; [|intros ((? & _) & _)]].
  destruct (IsUnspecified a), (IsMulticast a), (IsLoopback a); cbn [orb];
    try (split; [done|by intros ((_ & ? & ? & ?) & _)]).
  rewrite IH. split; [by intros|by intros [_ ?]].
Qed.

Lemma validateChildArgv_None argv :
  validateChildArgv argv = None <->
  1 <= zlen argv <= 65535 /\ Forall (fun a => contains_byte x00 a = false) argv /\ placeholders argv = 1.
Proof.
  unfold validateChildArgv. pose proof (zlen_nonneg argv). split.
  - destruct (_ || _) eqn:E1; [done|]. destruct (existsb _ argv) eqn:E2; [done|].
    destruct (placeholders argv =? 1) eqn:E3; [|done]. intros _. apply existsb_Forall in E2. bool_to_prop. split_and!; [lia|lia|done|done].
  - intros ((H1 & H2) & H3 & H4). rewrite (proj2 (Z.eqb_neq _ _)), (proj2 (Z.ltb_ge _ _)) by lia. cbn [orb].
    assert (existsb (contains_byte x00) argv = false) as -> by (by apply existsb_false).
    by rewrite H4.
Qed.

Lemma manual_networks_Accepted arguments : forall index l,
  manual_networks index arguments = Accepted l <->
  Forall (fun a => normalizedWeight a <> 0) arguments
  /\ l = (fun a => MkRunNetwork (arg_localIP a) (normalizedWeight a)) <$> arguments.
Proof.
  induction arguments as [|a arguments IH]; intros index l; cbn [manual_networks].
  - split; [intros [= <-]; split; [by constructor|done]|by intros [_ ->]].
  - rewrite Forall_cons. destruct (normalizedWeight a =? 0) eqn:E; bool_to_prop; [by split; [|intros ((? & _) & _)]|].
    destruct (manual_networks (index + 1) arguments) as [l'|] eqn:E'; cbn [checked_bind].
    + apply IH in E' as [H ->]. split; [by intros [= <-]|by intros [_ ->]].
    + split; [done|]. intros ((_ & H) & ->).
      assert (manual_networks (index + 1) arguments = Accepted ((fun a => MkRunNetwork (arg_localIP a) (normalizedWeight a)) <$> arguments))
        as E2 by (by apply IH). congruence.
Qed.

Section Acceptance.
Context `{URLs}.

(** The valid intents, condition by condition. *)
Record intent_ok (sourcePath : string) (automatic : bool) (arguments : list NetworkArgument) (measureOverrides : bool)
    (settings : Settings) (dns : list Addr) (childArgv : list string) (logDirectory : option string) : Prop := {
  ok_source : cleanAbsolute sourcePath = true /\ sourcePath <> "/";
  ok_count : 1 <= zlen arguments <= Maximum;
  ok_arguments : Forall arg_ok arguments /\ NoDup (arg_localIP <$> arguments);
  ok_mode :
    if automatic
    then Forall (fun a => explicitWeight a = false) arguments /\ 2 <= zlen arguments /\ settings_Valid settings = true
    else measureOverrides = false /\ settings_Valid settings = false /\ Forall (fun a => normalizedWeight a <> 0) arguments;
  ok_dns : zlen dns <= maximumDNSResolvers /\ Forall usable_resolver dns;
  ok_log : match logDirectory with Some d => cleanAbsolute d = true | None => True end;
  ok_argv : 1 <= zlen childArgv <= 65535 /\ Forall (fun a => contains_byte x00 a = false) childArgv
            /\ placeholders childArgv = 1
}.

Definition selections_of (automatic : bool) (arguments : list NetworkArgument) (settings : Settings) : NetworkSelections :=
  if automatic then MkSelections [] (arg_localIP <$> arguments) settings
  else MkSelections ((fun a => MkRunNetwork (arg_localIP a) (normalizedWeight a)) <$> arguments) [] settings_zero.

Lemma newNetworkSelections_Accepted automatic arguments settings s :
  newNetworkSelections automatic arguments settings = Accepted s <->
  (automatic = false -> Forall (fun a => normalizedWeight a <> 0) arguments) /\ s = selections_of automatic arguments settings.
Proof.
  unfold newNetworkSelections, selections_of. destruct automatic; [split; [by intros [= <-]|by intros [_ ->]]|].
  destruct (manual_networks 0 arguments) as [l|] eqn:E; cbn [checked_bind].
  - apply manual_networks_Accepted in E as [Hw ->]. split; [by intros [= <-]|by intros [_ ->]].
  - split; [done|]. intros [Hw _]. specialize (Hw eq_refl).
    assert (manual_networks 0 arguments = Accepted ((fun a => MkRunNetwork (arg_localIP a) (normalizedWeight a)) <$> arguments))
      as E2 by (by apply manual_networks_Accepted). congruence.
Qed.

Lemma check_mode_None automatic arguments settings :
  check_mode automatic (existsb explicitWeight arguments) (zlen arguments) settings = None <->
  (automatic = true -> Forall (fun a => explicitWeight a = false) arguments /\ 2 <= zlen arguments /\ settings_Valid settings = true).
Proof.
  unfold check_mode. destruct automatic; cbn [andb]; [|by split].
  destruct (existsb explicitWeight arguments) eqn:E1.
  - split; [done|]. intros Hm. destruct (Hm eq_refl) as (Hx & _). apply existsb_exists in E1 as (a & Ha & E1).
    rewrite Forall_forall in Hx. rewrite (Hx a) in E1 by (by apply list_elem_of_In). done.
  - apply existsb_Forall in E1. destruct (zlen arguments <? 2) eqn:E2; bool_to_prop.
    + split; [done|]. intros Hm. destruct (Hm eq_refl) as (_ & ? & _). lia.
    + destruct (settings_Valid settings) eqn:E3; cbn [negb]; split; try done. intros Hm. by destruct (Hm eq_refl) as (_ & _ & ?).
Qed.

(** A parsed command line becomes a run request exactly when each of its
    parts is valid, and the request is that command line: no part of it is
    changed, reordered or lost. *)
Lemma NewRequest_Accepted sourcePath automatic arguments measureOverrides settings dns childArgv logDirectory
    display followSymlinks r :
  NewRequest sourcePath automatic arguments measureOverrides settings dns childArgv logDirectory display followSymlinks
    = Accepted r <->
  intent_ok sourcePath automatic arguments measureOverrides settings dns childArgv logDirectory
  /\ r = MkRunRequest sourcePath (selections_of automatic arguments settings) dns childArgv (default "" logDirectory) display
           followSymlinks.
Proof.
  unfold NewRequest.
  destruct (negb (cleanAbsolute sourcePath) || _) eqn:E1.
  { split; [done|]. intros [[[Hc Hs] _ _ _ _ _ _] _]. rewrite Hc, bool_decide_eq_false_2 in E1 by done. done. }
  destruct ((zlen arguments <? 1) || _) eqn:E2.
  { split; [done|]. intros [[_ [? ?] _ _ _ _ _] _]. bool_to_prop. destruct E2; bool_to_prop; lia. }
  destruct (negb automatic && _) eqn:E3.
  { split; [done|]. intros [[_ _ _ Hm _ _ _] _]. destruct automatic; [done|]. destruct Hm as (-> & Hv & _). by rewrite Hv in E3. }
  destruct (check_arguments 0 ∅ false arguments) as [explicit|] eqn:E4; cbn [checked_bind].
  2:{ split; [done|]. intros [[_ _ [Hok Hnd] _ _ _ _] _].
      assert (check_arguments 0 ∅ false arguments = Accepted (existsb explicitWeight arguments)) as E; [|congruence].
      apply check_arguments_Accepted. split_and!; try done. apply Forall_forall. set_solver. }
  apply check_arguments_Accepted in E4 as (-> & Hok & Hnd & _). cbn [orb].
  destruct (check_mode _ _ _ settings) as [f|] eqn:E5.
  { split; [done|]. intros [[_ _ _ Hm _ _ _] _].
    assert (check_mode automatic (existsb explicitWeight arguments) (zlen arguments) settings = None) as E; [|congruence].
    apply check_mode_None. by intros ->. }
  pose proof (proj1 (check_mode_None _ _ _) E5) as Hmode.
  destruct (maximumDNSResolvers <? zlen dns) eqn:E6.
  { split; [done|]. intros [[_ _ _ _ [? _] _ _] _]. bool_to_prop. lia. }
  destruct (check_resolvers 0 dns) eqn:E7.
  { split; [done|]. intros [[_ _ _ _ [_ Hd%(check_resolvers_None 0)] _ _] _]. congruence. }
  apply check_resolvers_None in E7.
  destruct (match logDirectory with Some d => _ | None => _ end) eqn:E8.
  { split; [done|]. intros [[_ _ _ _ _ Hl _] _]. destruct logDirectory; [|done]. by rewrite Hl in E8. }
  destruct (validateChildArgv childArgv) eqn:E9.
  { split; [done|]. intros [[_ _ _ _ _ _ Ha%validateChildArgv_None] _]. congruence. }
  apply validateChildArgv_None in E9.
  destruct (newNetworkSelections automatic arguments settings) as [s|] eqn:E10; cbn [checked_bind].
  2:{ split; [done|]. intros [[_ _ _ Hm _ _ _] _].
      assert (newNetworkSelections automatic arguments settings = Accepted (selections_of automatic arguments settings)) as E;
        [|congruence]. apply newNetworkSelections_Accepted. split; [|done]. intros ->. apply Hm. }
  apply newNetworkSelections_Accepted in E10 as [Hw ->]. split; [|by intros [_ ->]]. intros [= <-]. split; [|done].
  bool_to_prop. constructor; try done.
  - destruct automatic; [by apply Hmode|]. destruct E3 as [?|[-> ->]%orb_false_iff]; [done|]. auto.
  - destruct logDirectory; [|done]. by apply negb_false_iff.
Qed.
End Acceptance.

(** ** The start request of an intent *)
Section Worker.
Context `{URLs}.

Definition wire_network (n : RunNetwork) : ManualNetwork := MkManualNetwork (rn_localIP n) (rn_weight n).

Definition start_of (r : RunRequest) (io : CommandIO) : Request :=
  let s := networks r in
  if selections_AutomaticWeight s then
    MkRequest (sourcePath r) [] (sel_automatic s) (sel_settings s) (run_dns r) (run_childArgv r) io (run_followSymlinks r)
  else
    MkRequest (sourcePath r) (wire_network <$> sel_manual s) [] settings_zero (run_dns r) (run_childArgv r) io
      (run_followSymlinks r).

Lemma wire_networks ns l :
  mmap (fun n => NewManualNetwork (rn_localIP n) (rn_weight n)) ns = Ok l -> l = wire_network <$> ns.
Proof.
  revert l; induction ns as [|n ns IH]; intros l; cbn [mmap]; [by intros E%Ok_inj|].
  intros (m & Em & E)%rbind_Ok_inv. apply rbind_Ok_inv in E as (l' & El & E). apply Ok_inj in E as <-.
  rewrite (IH _ El). unfold NewManualNetwork in Em. destruct (_ || _); [done|]. by apply Ok_inj in Em as <-.
Qed.

Lemma NewStartRequest_Ok r io start :
  NewStartRequest r io = Ok start -> start = start_of r io /\ validate start = None.
Proof.
  unfold NewStartRequest, start_of. destruct (selections_AutomaticWeight _).
  - unfold NewAutomaticRequest. intros (V & E)%check_Ok_inv. by apply Ok_inj in E as <-.
  - destruct (mmap _ _) as [ns|] eqn:E; [|done]. apply wire_networks in E as ->. unfold NewManualRequest.
    intros (V & E)%check_Ok_inv. by apply Ok_inj in E as <-.
Qed.

Lemma wire_networks_Ok ns :
  check_manual ∅ (wire_network <$> ns) = None ->
  mmap (fun n => NewManualNetwork (rn_localIP n) (rn_weight n)) ns = Ok (wire_network <$> ns).
Proof.
  intros (Hok & _ & _)%check_manual_None. induction ns as [|n ns IH]; [done|]. rewrite fmap_cons in *.
  apply Forall_cons in Hok as [[H4 Hw] Hok]. cbn [mmap]. unfold NewManualNetwork at 1. cbn in H4, Hw.
  rewrite H4, (proj2 (Z.eqb_neq _ _) Hw). cbn [negb orb rbind]. by rewrite IH.
Qed.

(** Only the mode of the input and output decides whether it validates. *)
Lemma start_of_io r io io' :
  io_valid io = true -> io_valid io' = true -> validate (start_of r io) = None -> validate (start_of r io') = None.
Proof.
  intros V V'. unfold validate, shape_ok, check_networks, start_of.
  destruct (selections_AutomaticWeight (networks r)); cbn [sourceLabel manual automatic settings dns childArgv commandIO];
    by rewrite V, V'.
Qed.

Lemma NewStartRequest_start r io : validate (start_of r io) = None -> NewStartRequest r io = Ok (start_of r io).
Proof.
  intros V. unfold NewStartRequest, start_of in *. destruct (selections_AutomaticWeight _).
  - unfold NewAutomaticRequest. by rewrite V.
  - assert (check_manual ∅ (wire_network <$> sel_manual (networks r)) = None) as Hm.
    { unfold validate in V. destruct (shape_ok _) eqn:Es; [|done]. cbn [negb] in V. destruct (check_networks _) eqn:En; [done|].
      unfold check_networks in En. cbn [manual automatic settings] in En. destruct (zlen _ =? 0) eqn:E0; cbn [negb] in En.
      - rewrite zlen_nil in En. done.
      - by destruct (_ || _). }
    rewrite (wire_networks_Ok _ Hm). unfold NewManualRequest. by rewrite V.
Qed.

Lemma payload_length_io r io io' : zlen (payload_of (start_of r io)) = zlen (payload_of (start_of r io')).
Proof.
  unfold payload_of, fixed_part, variable_part, endpoint_text, AutomaticWeight, start_of.
  destruct (selections_AutomaticWeight _); cbn [sourceLabel manual automatic settings dns childArgv commandIO];
    rewrite !zlen_app, !zlen_cons, !zlen_be_put; done.
Qed.

(** Any form of input and output, once [CheckStartRequestCapacity] has passed. *)
Definition some_io (io : CommandIO) : Prop := io = Pipes \/ exists columns rows, NewPTY columns rows = Ok io.

Lemma some_io_valid io :
  some_io io -> io_valid io = true /\ in_u 16 (ts_cols (io_terminal io)) /\ in_u 16 (ts_rows (io_terminal io)).
Proof.
  intros [->|(columns & rows & E)]; [done|]. unfold NewPTY, NewTerminalSize in E.
  destruct (_ || _) eqn:Eo; [done|]. apply Ok_inj in E as <-. bool_to_prop. unfold maximumTerminalSize in *.
  cbn. unfold io_valid. cbn. rewrite !wrap_small by (unfold in_u; lia).
  rewrite !(proj2 (Z.eqb_neq _ _)) by lia. split_and!; (done || unfold in_u; lia).
Qed.

Lemma capacity_start r io :
  CheckStartRequestCapacity r = None -> some_io io ->
  NewStartRequest r io = Ok (start_of r io) /\ validate (start_of r io) = None
  /\ zlen (payload_of (start_of r io)) <= maximumWirePayload.
Proof.
  intros Hc Hio%some_io_valid. destruct Hio as [V _]. unfold CheckStartRequestCapacity in Hc.
  destruct (NewPTY 65535 65535) as [pty|]; [|done]. cbn [check_capacity] in Hc.
  destruct (NewStartRequest r Pipes) as [start|] eqn:E; [|done]. apply NewStartRequest_Ok in E as [-> Vs].
  unfold EncodedSize in Hc. rewrite checkedSize_spec in Hc by done.
  destruct (ValidateStartRequestSize _) eqn:Ev; [done|]. unfold ValidateStartRequestSize in Ev.
  destruct (_ || _) eqn:Eo; [done|]. bool_to_prop.
  assert (validate (start_of r io) = None) as Vio by (by apply (start_of_io r Pipes)).
  split; [by apply NewStartRequest_start|]. split; [done|]. rewrite (payload_length_io r io Pipes). done.
Qed.

(** What the types and the command line guarantee of a request: machine widths,
    texts without NUL, and an endpoint that is its own canonical text. *)
Record run_wf (r : RunRequest) : Prop := {
  run_wf_networks : Forall (fun n => addr_wf (rn_localIP n) /\ in_u 64 (rn_weight n)) (sel_manual (networks r))
                    /\ Forall addr_wf (sel_automatic (networks r));
  run_wf_dns : Forall (fun a => addr_wf a /\ contains_byte x00 (AddrString a) = false) (run_dns r);
  run_wf_settings : selections_AutomaticWeight (networks r) = true -> settings_canonical (sel_settings (networks r))
}.

Lemma mjoin_elem_length {A} (f : A -> list byte) xs x : x ∈ xs -> zlen (f x) <= zlen (mjoin (f <$> xs)).
Proof.
  induction xs as [|y xs IH]; [by intros ?%elem_of_nil|]. change (mjoin (f <$> y :: xs)) with (f y ++ mjoin (f <$> xs)).
  rewrite zlen_app. pose proof (zlen_nonneg (f y)). pose proof (zlen_nonneg (mjoin (f <$> xs))).
  intros [->|Hx%IH]%elem_of_cons; lia.
Qed.

(** A resolver of a payload that fits the pipe has a text that fits its length. *)
Lemma resolver_text_fits s a :
  zlen (payload_of s) <= maximumWirePayload -> a ∈ dns s -> slen (AddrString a) <= 65535.
Proof.
  unfold payload_of, fixed_part, variable_part. rewrite !zlen_app, zlen_cons, !zlen_text_bytes. intros Hp Ha.
  pose proof (mjoin_elem_length address_bytes _ _ Ha) as Hm. unfold address_bytes in Hm at 1. rewrite zlen_text_bytes in Hm.
  pose proof (zlen_nonneg (mjoin (network_bytes <$> manual s))). pose proof (zlen_nonneg (mjoin (address_bytes <$> automatic s))).
  pose proof (zlen_nonneg (mjoin (text_bytes <$> childArgv s))). rewrite !zlen_be_put, !zlen_cons in Hp.
  pose proof (slen_nonneg (sourceLabel s)). pose proof (slen_nonneg (endpoint_text s)).
  pose proof (zlen_nonneg (@nil byte)). change (zlen wireMagic) with 4 in Hp. unfold maximumWirePayload in Hp. lia.
Qed.

Lemma start_of_wf r io :
  run_wf r -> some_io io -> validate (start_of r io) = None -> zlen (payload_of (start_of r io)) <= maximumWirePayload ->
  start_wf (start_of r io).
Proof.
  intros W Hio V Hp. apply some_io_valid in Hio as (_ & Hc & Hr). pose proof (validate_None _ V) as A.
  assert (dns (start_of r io) = run_dns r) as Hdns by (unfold start_of; by destruct (selections_AutomaticWeight _)).
  assert (commandIO (start_of r io) = io) as Ho by (unfold start_of; by destruct (selections_AutomaticWeight _)).
  destruct (run_wf_networks _ W) as [Hm Ha]. constructor.
  - by rewrite Ho.
  - unfold start_of. destruct (selections_AutomaticWeight _); [by constructor|]. cbn [manual]. by apply Forall_fmap.
  - unfold start_of. destruct (selections_AutomaticWeight _); [done|by constructor].
  - destruct (acc_dns _ A) as [_ Hu]. rewrite Hdns in Hu |- *. pose proof (run_wf_dns _ W) as Hd.
    rewrite Forall_forall in Hd, Hu |- *. intros a Hi. destruct (Hd a Hi) as [Hwf Hn]. split_and!; [done| |].
    + specialize (Hu a Hi). unfold unusable_resolver in Hu. by destruct (AddrIsValid a).
    + unfold validText. rewrite Hn, (proj2 (Z.leb_le _ _)); [done|]. eapply resolver_text_fits; [exact Hp|by rewrite Hdns].
  - pose proof (run_wf_settings _ W) as Hs. unfold start_of, AutomaticWeight. destruct (selections_AutomaticWeight _) eqn:E; [|done].
    cbn [automatic settings]. unfold selections_AutomaticWeight in E. rewrite E. by apply Hs.
Qed.
End Worker.

(** ** Numbered networks *)
Fixpoint numbered {A B} (f : Number -> A -> B) (k : Z) (l : list A) : list B :=
  match l with [] => [] | x :: l => f (MkNumber k) x :: numbered f (k + 1) l end.

Lemma numbered_fmap {A B C} (g : B -> C) (f : Number -> A -> B) k l :
  g <$> numbered f k l = numbered (fun n x => g (f n x)) k l.
Proof. revert k; induction l as [|x l IH]; intros k; [done|]. cbn [numbered]. by rewrite fmap_cons, IH. Qed.

Lemma numbered_length {A B} (f : Number -> A -> B) k l : length (numbered f k l) = length l.
Proof. revert k; induction l as [|x l IH]; intros k; simpl; [done|by rewrite IH]. Qed.

Lemma zlen_numbered {A B} (f : Number -> A -> B) k l : zlen (numbered f k l) = zlen l.
Proof. unfold zlen. by rewrite numbered_length. Qed.

Lemma new_number k : 1 <= k <= Maximum -> number_New k = Ok (MkNumber k).
Proof. intros H. by apply number_New_Ok. Qed.

Definition number_of_manual (n : Number) (m : ManualNetwork) : ManualNetworkSelection := MkManual n (mn_localIP m) (mn_weight m).

Lemma number_manual_Ok ns : forall index,
  0 <= index -> index + zlen ns <= Maximum ->
  Forall (fun n => Is4 (mn_localIP n) = true /\ mn_weight n <> 0) ns ->
  number_manual index ns = Ok (numbered number_of_manual (index + 1) ns).
Proof.
  induction ns as [|n ns IH]; intros index H0 Hn Hok; [done|]. rewrite zlen_cons in Hn. pose proof (zlen_nonneg ns).
  apply Forall_cons in Hok as [[H4 Hw] Hok]. cbn [number_manual numbered]. rewrite new_number by lia. cbn [ok_or].
  unfold NewManualNetworkSelection. cbn [Value]. rewrite H4, !(proj2 (Z.eqb_neq _ _)) by lia. cbn [negb orb rbind].
  rewrite IH by (done || lia). done.
Qed.

Lemma number_automatic_Ok l : forall index,
  0 <= index -> index + zlen l <= Maximum -> Forall (fun a => Is4 a = true) l ->
  number_automatic index l = Ok (numbered MkAutomatic (index + 1) l).
Proof.
  induction l as [|a l IH]; intros index H0 Hn Hok; [done|]. rewrite zlen_cons in Hn. pose proof (zlen_nonneg l).
  apply Forall_cons in Hok as [H4 Hok]. cbn [number_automatic numbered]. rewrite new_number by lia. cbn [ok_or].
  unfold NewAutomaticNetworkSelection. cbn [Value]. rewrite H4, !(proj2 (Z.eqb_neq _ _)) by lia. cbn [negb orb rbind].
  rewrite IH by (done || lia). done.
Qed.

Lemma check_selected_numbered l : forall index k ids ips,
  1 <= k -> Forall (fun a => Is4 a = true) l -> NoDup l -> Forall (fun a => a ∉ ips) l ->
  (forall n, n ∈ ids -> Value n < k) ->
  exists ids', check_selected index ids ips (numbered MkSelected k l) = Ok ids'
    /\ forall n, n ∈ ids' <-> n ∈ ids \/ k <= Value n < k + zlen l.
Proof.
  induction l as [|a l IH]; intros index k ids ips Hk H4 Hnd Hips Hids; cbn [numbered check_selected].
  - exists ids. split; [done|]. intros n. rewrite zlen_nil. split; [by left|by intros [?|?]; [|lia]].
  - apply Forall_cons in H4 as [Ha H4]. apply NoDup_cons in Hnd as [Hi Hnd]. apply Forall_cons in Hips as [Hp Hips].
    cbn [sn_transfer sn_localIP Value]. rewrite (proj2 (Z.eqb_neq _ _)), Ha by lia. cbn [negb orb].
    rewrite bool_decide_eq_false_2 by (intros Hx%Hids; cbn in Hx; lia). rewrite bool_decide_eq_false_2 by done.
    destruct (IH (index + 1) (k + 1) ({[MkNumber k]} ∪ ids) ({[a]} ∪ ips)) as (ids' & -> & Hids'); [lia|done|done| | |].
    + rewrite Forall_forall in Hips |- *. intros b Hb [->%elem_of_singleton|Hx]%elem_of_union; [done|by apply (Hips b)].
    + intros n [->%elem_of_singleton|Hx%Hids]%elem_of_union; cbn; lia.
    + exists ids'. split; [done|]. intros n. rewrite Hids', elem_of_union, elem_of_singleton, zlen_cons.
      pose proof (zlen_nonneg l). split.
      * intros [[->|?]|?]; [right; cbn; lia|by left|right; lia].
      * intros [?|?]; [by left; right|]. destruct (Z.eq_dec (Value n) k) as [E|]; [|right; lia].
        left; left. destruct n as [v]. cbn in E. by subst.
Qed.

Lemma check_complete_None n : forall k ids,
  1 <= k -> k + Z.of_nat n <= Maximum + 1 -> (forall v, k <= v < k + Z.of_nat n -> MkNumber v ∈ ids) ->
  check_complete n k ids = None.
Proof.
  induction n as [|n IH]; intros k ids Hk Hn Hids; [done|]. cbn [check_complete]. rewrite new_number by lia. cbn [ok_or].
  rewrite bool_decide_eq_true_2 by (apply Hids; lia). apply IH; [lia|lia|]. intros v Hv. apply Hids. lia.
Qed.

Lemma validateSelectedNetworks_numbered l :
  1 <= zlen l <= Maximum -> Forall (fun a => Is4 a = true) l -> NoDup l ->
  validateSelectedNetworks (numbered MkSelected 1 l) = None.
Proof.
  intros Hl H4 Hnd. unfold validateSelectedNetworks. rewrite zlen_numbered, numbered_length.
  rewrite (proj2 (Z.eqb_neq _ _)), (proj2 (Z.ltb_ge _ _)) by lia. cbn [orb].
  destruct (check_selected_numbered l 0 1 ∅ ∅) as (ids & -> & Hids); [lia|done|done| |by intros n ?%elem_of_empty|].
  { apply Forall_forall. set_solver. }
  apply check_complete_None; [lia|unfold zlen in *; lia|]. intros v Hv. apply Hids. right. cbn. unfold zlen. lia.
Qed.

(** ** The environment of the children *)
Definition entry_name (entry : string) : string := (Cut entry equals_sign).1.1.
Definition entry_ok (entry : string) : Prop :=
  (Cut entry equals_sign).2 = true /\ entry_name entry <> "" /\ contains_byte x00 entry = false.

Lemma check_environment_None environment : forall seen,
  Forall entry_ok environment -> NoDup (entry_name <$> environment) ->
  Forall (fun e => entry_name e ∉ seen) environment -> check_environment seen environment = None.
Proof.
  induction environment as [|e environment IH]; intros seen Hok Hnd Hs; [done|]. rewrite fmap_cons in Hnd.
  apply Forall_cons in Hok as [(Hf & Hn & H0) Hok]. apply NoDup_cons in Hnd as [Hi Hnd]. apply Forall_cons in Hs as [He Hs].
  cbn [check_environment]. unfold entry_name in Hn, He. destruct (Cut e equals_sign) as [[name value] found] eqn:E. cbn in *.
  subst found. rewrite bool_decide_eq_false_2, H0 by done. cbn [negb orb]. rewrite bool_decide_eq_false_2 by done.
  apply IH; [done|done|]. rewrite Forall_forall in Hs |- *.
  intros f Hf [Hx%elem_of_singleton|Hx]%elem_of_union; [|by apply (Hs f)].
  assert (entry_name e = name) as Hne by (unfold entry_name; by rewrite E).
  apply Hi. rewrite Hne, <- Hx. by apply list_elem_of_fmap_2.
Qed.

Definition is_term (entry : string) : bool := HasPrefix entry "TERM=".

Lemma entry_name_term entry : entry_ok entry -> entry_name entry = "TERM" -> is_term entry = true.
Proof.
  intros (Hf & _) Hn. unfold entry_name in Hn. destruct (Cut entry equals_sign) as [[name value] found] eqn:E. cbn in *. subst.
  apply Cut_spec in E. subst. apply HasPrefix_spec. by exists value.
Qed.

(** The host's environment gives the children a valid one: its own entries, in
    their order, and one terminal. *)
Lemma childEnvironment_ok environment :
  Forall entry_ok environment -> NoDup (entry_name <$> filter (fun e => is_term e = false) environment) ->
  check_environment ∅ (childEnvironment environment) = None.
Proof.
  intros Hok Hnd. unfold childEnvironment. change (fun entry => HasPrefix entry "TERM=" = false) with (fun e => is_term e = false).
  assert (Forall entry_ok (filter (fun e => is_term e = false) environment)) as Hf.
  { rewrite Forall_forall in Hok |- *. intros e [_ He]%list_elem_of_filter. by apply Hok. }
  apply check_environment_None.
  - apply Forall_app. split; [done|]. by repeat constructor.
  - rewrite fmap_app, NoDup_app. split; [done|]. split; [|by apply NoDup_singleton].
    intros n (e & -> & He)%list_elem_of_fmap Hn. apply list_elem_of_singleton in Hn.
    apply list_elem_of_filter in He as [Ht He]. rewrite Forall_forall in Hok.
    pose proof (entry_name_term e (Hok e He) Hn). congruence.
  - apply Forall_forall. set_solver.
Qed.

Section Reaches.
Context `{URLs}.

(** ** The intent at the worker *)
(** What the worker is to run: the networks numbered from 1 in the order of the
    command line, everything else as it was given. *)
Definition intended (r : RunRequest) (io : CommandIO) (environment : list string) : TransferRequest :=
  let s := networks r in
  let auto := selections_AutomaticWeight s in
  MkTransferRequest (Base (sourcePath r))
    (if auto then [] else numbered (fun k n => MkManual k (rn_localIP n) (rn_weight n)) 1 (sel_manual s))
    (if auto then numbered MkAutomatic 1 (sel_automatic s) else [])
    (run_childArgv r) environment (MkIntent (run_dns r)) (io_terminal io)
    (if IsPipes io then PlainCommandIO else InteractiveCommandIO)
    (if auto then sel_settings s else settings_zero) (run_followSymlinks r).

Lemma resolver_intent l :
  Forall (fun a => unusable_resolver a = false) l -> NoDup l ->
  (if negb (zlen l =? 0) then DirectIntent l else Ok DefaultIntent) = Ok (MkIntent l).
Proof.
  intros Hu Hnd. destruct (zlen l =? 0) eqn:E; cbn [negb].
  - rewrite zlen_eqb_nil in E. bool_to_prop. by subst.
  - unfold DirectIntent. rewrite E.
    assert (forall seen, Forall (fun a => a ∉ seen) l -> check_direct seen l = None) as Hc; [|by rewrite Hc by (apply Forall_forall; set_solver)].
    clear E. induction l as [|a l IH]; intros seen Hs; [done|].
    apply Forall_cons in Hu as [Ha Hu]. apply NoDup_cons in Hnd as [Hi Hnd]. apply Forall_cons in Hs as [Hsa Hs].
    cbn [check_direct]. unfold unusable_resolver in Ha. destruct (AddrIsValid a), (IsUnspecified a), (IsLoopback a), (IsMulticast a);
      try discriminate Ha. cbn [negb orb]. rewrite bool_decide_eq_false_2 by done. apply IH; [done|done|].
    rewrite Forall_forall in Hs |- *. intros b Hb [->%elem_of_singleton|Hx]%elem_of_union; [done|by apply (Hs b)].
Qed.

Lemma command_intent_ok argv environment io :
  1 <= zlen argv -> Forall (fun a => validText a false = true) argv -> placeholders argv = 1 ->
  check_environment ∅ environment = None -> some_io io ->
  validateCommandIntent argv environment (io_terminal io) (if IsPipes io then PlainCommandIO else InteractiveCommandIO) = None.
Proof.
  intros Ha Ht Hp He Hio. apply some_io_valid in Hio as (V & _). unfold validateCommandIntent.
  rewrite (proj2 (Z.eqb_neq _ _)) by lia.
  assert (existsb (contains_byte x00) argv = false) as ->.
  { apply existsb_false. eapply Forall_impl; [exact Ht|]. intros a. unfold validText. intros. by bool_to_prop. }
  rewrite Hp, He. cbn [negb orb Z.eqb]. unfold io_valid, IsPipes in *. destruct io as [mode [cols rows]]. cbn in *.
  destruct (mode =? pipesMode) eqn:Em; cbn.
  - apply Z.eqb_eq in Em as ->. cbn in V. rewrite orb_false_r in V. by apply andb_true_iff in V as [-> ->].
  - apply andb_true_iff in V as [V V3]. apply andb_true_iff in V as [_ V2].
    destruct (cols =? 0), (rows =? 0); done.
Qed.

Lemma source_name label :
  validText label true = true -> IsAbs label = true -> Clean label = label -> label <> "/" ->
  bool_decide (label = "") || contains_byte x00 label || bool_decide (Base (Clean label) = ".")
  || bool_decide (Base (Clean label) = "..") || bool_decide (Base (Clean label) = "/") = false.
Proof.
  intros Ht Ha Hc Hne. rewrite Hc. destruct (Base_absolute label Ha Hc Hne) as (H1 & H2 & H3).
  destruct (clean_absolute_components label Ha Hc) as (cs & E & _ & Hf).
  rewrite (bool_decide_eq_false_2 (label = "")) by (by intros ->). unfold validText in Ht.
  assert (contains_byte x00 label = false) as -> by (bool_to_prop; done).
  rewrite !bool_decide_eq_false_2; try done. intros Hs. apply base_no_slash in Hs; done.
Qed.
Lemma io_cases io :
  some_io io ->
  (IsPipes io = true /\ (PTYSize io).2 = false /\ io_terminal io = terminal_zero) \/ (IsPipes io = false /\ (PTYSize io).2 = true).
Proof.
  intros [->|(columns & rows & E)]; [by left|]. unfold NewPTY in E. apply rbind_Ok_inv in E as (size & _ & E).
  apply Ok_inj in E as <-. by right.
Qed.

(** The constructors, once their checks are known to pass. *)
Definition label_ok (label : string) : Prop :=
  validText label true = true /\ IsAbs label = true /\ Clean label = label /\ label <> "/".

Lemma newRequest_Ok label networks argv environment resolver terminal mode follow :
  label_ok label -> validateSelectedNetworks networks = None ->
  validateCommandIntent argv environment terminal mode = None ->
  newRequest label networks argv environment resolver terminal mode follow
  = Ok (MkTransferRequest (Base label) [] [] argv environment resolver terminal mode settings_zero follow).
Proof.
  intros (L1 & L2 & L3 & L4) Hn Hc. unfold newRequest. by rewrite source_name, L3, Hn, Hc.
Qed.

Lemma automatic_request_Ok mode label l argv environment resolver terminal settings follow :
  label_ok label -> 2 <= zlen l <= Maximum -> Forall (fun a => Is4 a = true) l -> NoDup l -> settings_Valid settings = true ->
  validateCommandIntent argv environment terminal mode = None ->
  automatic_request mode label (numbered MkAutomatic 1 l) argv environment resolver terminal settings follow
  = Ok (MkTransferRequest (Base label) [] (numbered MkAutomatic 1 l) argv environment resolver terminal mode settings follow).
Proof.
  intros HL Hl H4 Hnd Hv Hc. unfold automatic_request.
  rewrite zlen_numbered, (proj2 (Z.ltb_ge _ _)), Hv by lia. cbn [negb orb].
  assert (automaticSelectedNetworks (numbered MkAutomatic 1 l) = numbered MkSelected 1 l) as ->
    by (unfold automaticSelectedNetworks; by rewrite numbered_fmap).
  rewrite newRequest_Ok; [done|done|apply validateSelectedNetworks_numbered; (done || lia)|done].
Qed.

Lemma check_weights_numbered index k ns :
  Forall (fun n => rn_weight n <> 0) ns ->
  check_weights index (numbered (fun k n => MkManual k (rn_localIP n) (rn_weight n)) k ns) = None.
Proof.
  revert index k; induction ns as [|n ns IH]; intros index k Hw; [done|]. apply Forall_cons in Hw as [Hn Hw].
  cbn [numbered check_weights manual_weight]. rewrite (proj2 (Z.eqb_neq _ _)) by done. by apply IH.
Qed.

Lemma numbered_wire {B} (f : Number -> Addr -> Z -> B) k ns :
  numbered (fun k n => f k (mn_localIP n) (mn_weight n)) k (wire_network <$> ns)
  = numbered (fun k n => f k (rn_localIP n) (rn_weight n)) k ns.
Proof. revert k; induction ns as [|n ns IH]; intros k; [done|]. rewrite fmap_cons. cbn [numbered]. by rewrite IH. Qed.

Lemma numbered_ips {B} (f : Number -> Addr -> B) k ns :
  numbered (fun k n => f k (rn_localIP n)) k ns = numbered f k (rn_localIP <$> ns).
Proof. revert k; induction ns as [|n ns IH]; intros k; [done|]. rewrite fmap_cons. cbn [numbered]. by rewrite IH. Qed.

Lemma manual_request_Ok mode label ns argv environment resolver terminal follow :
  let selected := numbered (fun k n => MkManual k (rn_localIP n) (rn_weight n)) 1 ns in
  label_ok label -> 1 <= zlen ns <= Maximum -> Forall (fun n => Is4 (rn_localIP n) = true /\ rn_weight n <> 0) ns ->
  NoDup (rn_localIP <$> ns) -> validateCommandIntent argv environment terminal mode = None ->
  manual_request mode label selected argv environment resolver terminal follow
  = Ok (MkTransferRequest (Base label) selected [] argv environment resolver terminal mode settings_zero follow).
Proof.
  intros selected HL Hl Hok Hnd Hc. apply Forall_and in Hok as [H4 Hw]. unfold manual_request.
  assert (manualSelectedNetworks selected = numbered MkSelected 1 (rn_localIP <$> ns)) as ->.
  { unfold selected, manualSelectedNetworks. rewrite numbered_fmap. apply (numbered_ips MkSelected). }
  rewrite newRequest_Ok; [|done| |done].
  - cbn [rbind]. unfold validateManualSelections, selected. by rewrite check_weights_numbered.
  - apply validateSelectedNetworks_numbered; [unfold zlen in *; by rewrite length_fmap|by apply Forall_fmap|done].
Qed.

Lemma transferRequest_intended r io environment :
  some_io io -> validate (start_of r io) = None -> NoDup (run_dns r) -> check_environment ∅ environment = None ->
  transferRequest (start_of r io) environment = Ok (intended r io environment).
Proof.
  intros Hio V Hnd He. pose proof (validate_None _ V) as A. pose proof (acc_label _ A) as HL.
  destruct (acc_dns _ A) as [_ Hd]. destruct (acc_argv _ A) as ((A1 & _) & A2 & A3).
  assert (validateCommandIntent (run_childArgv r) environment (io_terminal io)
            (if IsPipes io then PlainCommandIO else InteractiveCommandIO) = None) as Hc.
  { unfold start_of in A1, A2, A3. destruct (selections_AutomaticWeight _); cbn [childArgv] in *;
      (apply command_intent_ok; [lia|done..]). }
  pose proof (acc_networks _ A) as Hn. clear A A1 A2 A3 V. unfold transferRequest, start_of, intended, AutomaticWeight in *.
  destruct (selections_AutomaticWeight (networks r)) eqn:Eauto;
    cbn [dns commandIO automatic manual sourceLabel settings childArgv followSymlinks] in *;
    rewrite resolver_intent by done; cbn [rbind]; destruct (PTYSize io) as [terminal pty] eqn:Ep;
    injection Ep as Et Ep; rewrite Et in *; change (0 + 1) with 1.
  - unfold selections_AutomaticWeight in Eauto. rewrite Eauto.
    destruct Hn as [(? & _)|(_ & Hl & Hv & H4 & Hips)]; [done|].
    rewrite number_automatic_Ok by (done || lia). cbn [rbind]. change (0 + 1) with 1.
    destruct (io_cases io Hio) as [(Ei & Hp & Hz)|[Ei Hp]]; unfold PTYSize in Hp; cbn in Hp; rewrite Ei, ?Hz in *; rewrite <- Ep, Hp;
      cbn [negb]; [rewrite <- Et in *|];
      [unfold NewPlainAutomaticRequest|unfold NewInteractiveAutomaticRequest]; by apply automatic_request_Ok.
  - change (zlen []) with 0. cbn [Z.eqb negb]. destruct Hn as [(Hm & _ & Hl & _ & Hok & Hips)|(_ & Hl & _)];
      [|rewrite zlen_nil in Hl; lia].
    assert (1 <= zlen (sel_manual (networks r)) <= Maximum) as Hl1.
    { destruct (sel_manual (networks r)) as [|x l]; [done|]. unfold zlen in *. rewrite length_fmap in Hl. simpl in *. lia. }
    rewrite number_manual_Ok by (done || lia). cbn [rbind]. change (0 + 1) with 1.
    unfold number_of_manual. rewrite (numbered_wire MkManual).
    apply Forall_fmap in Hok. rewrite <- list_fmap_compose in Hips. unfold compose, wire_network in Hok, Hips. cbn in Hok, Hips.
    destruct (io_cases io Hio) as [(Ei & Hp & Hz)|[Ei Hp]]; unfold PTYSize in Hp; cbn in Hp; rewrite Ei, ?Hz in *; rewrite <- Ep, Hp;
      cbn [negb]; [rewrite <- Et in *|];
      [unfold NewPlainManualRequest|unfold NewInteractiveManualRequest]; by apply manual_request_Ok.
Qed.

(** Repeated resolvers are refused by the worker. *)
Lemma check_direct_NoDup l : forall seen, check_direct seen l = None -> NoDup l /\ Forall (fun a => a ∉ seen) l.
Proof.
  induction l as [|a l IH]; intros seen; [by split; constructor|]. cbn [check_direct].
  destruct (_ || _); [done|]. case_bool_decide; [done|]. intros [Hnd Hs]%IH. rewrite Forall_forall in Hs. split.
  - constructor; [|done]. intros Ha%Hs. set_solver.
  - constructor; [done|]. apply Forall_forall. intros b Hb%Hs. set_solver.
Qed.

Lemma transferRequest_repeated start environment :
  ~ NoDup (dns start) -> exists e, transferRequest start environment = Err e.
Proof.
  intros Hnd. unfold transferRequest. destruct (zlen (dns start) =? 0) eqn:E; cbn [negb].
  { rewrite zlen_eqb_nil in E. bool_to_prop. rewrite E in Hnd. destruct Hnd. constructor. }
  unfold DirectIntent. rewrite E. destruct (check_direct ∅ (dns start)) as [e|] eqn:Ec; [by exists e|].
  by apply check_direct_NoDup in Ec as [? _].
Qed.

(** The transfer a command line asks for, in the words of the command line. *)
Definition requested (source : string) (automatic : bool) (arguments : list NetworkArgument) (settings : Settings)
    (dns : list Addr) (argv : list string) (follow : bool) (io : CommandIO) (environment : list string) : TransferRequest :=
  MkTransferRequest (Base source)
    (if automatic then [] else numbered (fun k a => MkManual k (arg_localIP a) (normalizedWeight a)) 1 arguments)
    (if automatic then numbered (fun k a => MkAutomatic k (arg_localIP a)) 1 arguments else [])
    argv environment (MkIntent dns) (io_terminal io)
    (if IsPipes io then PlainCommandIO else InteractiveCommandIO)
    (if automatic then settings else settings_zero) follow.

Lemma numbered_of {A B C} (f : Number -> B -> C) (g : A -> B) k l :
  numbered f k (g <$> l) = numbered (fun k x => f k (g x)) k l.
Proof. revert k; induction l as [|x l IH]; intros k; [done|]. rewrite fmap_cons. cbn [numbered]. by rewrite IH. Qed.

Lemma selections_of_automatic automatic arguments settings :
  1 <= zlen arguments -> selections_AutomaticWeight (selections_of automatic arguments settings) = automatic.
Proof.
  unfold selections_AutomaticWeight, selections_of. destruct automatic; cbn [sel_automatic]; [|done].
  unfold zlen. rewrite length_fmap. intros ?. by rewrite (proj2 (Z.eqb_neq _ _)) by lia.
Qed.

Lemma intended_requested source automatic arguments settings dns argv log display follow io environment :
  1 <= zlen arguments ->
  intended (MkRunRequest source (selections_of automatic arguments settings) dns argv log display follow) io environment
  = requested source automatic arguments settings dns argv follow io environment.
Proof.
  intros Hl. unfold intended, requested. cbn [networks sourcePath run_childArgv run_dns run_followSymlinks].
  rewrite selections_of_automatic by done. unfold selections_of. destruct automatic; cbn [sel_manual sel_automatic sel_settings].
  - by rewrite numbered_of.
  - by rewrite numbered_of.
Qed.

(** What the types of the arguments guarantee. *)
Definition arguments_wf (arguments : list NetworkArgument) (dns : list Addr) : Prop :=
  Forall (fun a => addr_wf (arg_localIP a) /\ in_u 64 (normalizedWeight a)) arguments /\ Forall addr_wf dns.

Lemma accepted_run_wf source automatic arguments settings dns argv log display follow :
  arguments_wf arguments dns -> Forall (fun a => contains_byte x00 (AddrString a) = false) dns ->
  (automatic = true -> settings_canonical settings) ->
  run_wf (MkRunRequest source (selections_of automatic arguments settings) dns argv log display follow).
Proof.
  intros [Ha Hd] Ht Hs. constructor; cbn [networks run_dns].
  - unfold selections_of. destruct automatic; cbn [sel_manual sel_automatic]; split; try by constructor.
    + apply Forall_fmap. eapply Forall_impl; [exact Ha|]. by intros a [? _].
    + by apply Forall_fmap.
  - by apply Forall_and.
  - unfold selections_of, selections_AutomaticWeight. destruct automatic; [|done]. intros _. by apply Hs.
Qed.

(** C4. Every command line that is accepted as a run and passes the capacity check
    reaches the worker unchanged: whatever form of input and output is chosen, the
    start request has an encoding that fits the pipe, the worker decodes it to the
    same start request, and it makes of it exactly the transfer of the command line
    (source, networks numbered in their order with their weights, resolvers,
    command, settings), provided the resolvers do not repeat one another; a
    repeated one, which the command line lets pass, the worker refuses.  The texts
    of the resolvers have no NUL byte and the endpoint of a measurement is its own
    canonical text. *)
Theorem run_intent_reaches_worker source automatic arguments measureOverrides settings dns argv logDirectory display follow
    r io environment
    (Haccepted : NewRequest source automatic arguments measureOverrides settings dns argv logDirectory display follow = Accepted r)
    (Hcapacity : CheckStartRequestCapacity r = None) (Hio : some_io io)
    (Htypes : arguments_wf arguments dns) (Htexts : Forall (fun a => contains_byte x00 (AddrString a) = false) dns)
    (Hendpoint : automatic = true -> settings_canonical settings)
    (Hentries : Forall entry_ok environment)
    (Hnames : NoDup (entry_name <$> filter (fun e => is_term e = false) environment)) :
  exists start p,
    NewStartRequest r io = Ok start /\ Encode start = Ok p /\ ValidateStartRequest p = None /\ Decode p = Ok start
    /\ (NoDup dns ->
        transferRequest start (childEnvironment environment)
        = Ok (requested source automatic arguments settings dns argv follow io (childEnvironment environment)))
    /\ (~ NoDup dns -> exists e, transferRequest start (childEnvironment environment) = Err e).
Proof.
  apply NewRequest_Accepted in Haccepted as [Hok ->].
  pose proof (accepted_run_wf source automatic arguments settings dns argv (default "" logDirectory) display follow Htypes Htexts Hendpoint) as W.
  destruct (capacity_start _ io Hcapacity Hio) as (Hs & V & Hp). eexists (start_of _ io), (payload_of (start_of _ io)).
  split; [exact Hs|]. split; [by apply Encode_payload|]. split.
  { unfold ValidateStartRequest, ValidateStartRequestSize. pose proof (zlen_nonneg (payload_of (start_of
      (MkRunRequest source (selections_of automatic arguments settings) dns argv (default "" logDirectory) display follow) io))).
    by rewrite !(proj2 (Z.ltb_ge _ _)) by lia. }
  split; [apply Decode_payload; [done|by apply start_of_wf]|]. split.
  - intros Hnd. rewrite transferRequest_intended; [|done|done|done|by apply childEnvironment_ok].
    f_equal. apply intended_requested, Hok.
  - intros Hnd. apply transferRequest_repeated. unfold start_of. by destruct (selections_AutomaticWeight _).
Qed.
End Reaches.

(** ** Examples *)
Module Intent.
#[local] Existing Instance TransferStartProofs.Sample.urls.

Definition arguments : list NetworkArgument :=
  [MkArgument (Addr4 0xc000020a) 2 true false false; MkArgument (Addr4 0xc6336414) 1 true false false].
Definition resolvers : list Addr := [Addr4 0xc0000235; Addr6 (0xfe80 * 2 ^ 112 + 1) "eth0"].

Definition run (dns : list Addr) : RunRequest :=
  MkRunRequest "/data/batch" (selections_of false arguments settings_zero) dns ["rsync"; "--archive"; "{}"; "host:/in"] ""
    (MkDisplay true false) false.

Lemma arguments_wf_sample : arguments_wf arguments resolvers.
Proof.
  split; repeat (apply Forall_cons_2; [vm_compute; split_and!; done|]); by constructor.
Qed.

Lemma resolver_texts : Forall (fun a => contains_byte x00 (AddrString a) = false) resolvers.
Proof. repeat (apply Forall_cons_2; [vm_compute; done|]). by constructor. Qed.

Lemma run_accepted :
  NewRequest "/data/batch" false arguments false settings_zero resolvers ["rsync"; "--archive"; "{}"; "host:/in"] None
    (MkDisplay true false) false = Accepted (run resolvers).
Proof. vm_compute. done. Qed.

Definition host_environment : list string := ["PATH=/usr/bin"; "TERM=old"; "HOME=/root"; "TERM=older"].

Lemma host_entries_ok : Forall entry_ok host_environment.
Proof. repeat (apply Forall_cons_2; [split_and!; vm_compute; done|]). by constructor. Qed.

Lemma host_names_distinct : NoDup (entry_name <$> filter (fun e => is_term e = false) host_environment).
Proof. apply (bool_decide_unpack _). vm_compute. done. Qed.

Lemma resolvers_distinct : NoDup (run_dns (run resolvers)).
Proof. apply (bool_decide_unpack _). vm_compute. done. Qed.

Lemma run_fits : CheckStartRequestCapacity (run resolvers) = None.
Proof. vm_compute. done. Qed.

Lemma run_intent_reaches_worker_witness :
  exists start p,
    NewStartRequest (run resolvers) Pipes = Ok start /\ Encode start = Ok p /\ ValidateStartRequest p = None
    /\ Decode p = Ok start
    /\ (NoDup resolvers ->
        transferRequest start (childEnvironment host_environment)
        = Ok (requested "/data/batch" false arguments settings_zero resolvers ["rsync"; "--archive"; "{}"; "host:/in"] false
                Pipes (childEnvironment host_environment)))
    /\ (~ NoDup resolvers -> exists e, transferRequest start (childEnvironment host_environment) = Err e).
Proof.
  exact (run_intent_reaches_worker _ _ _ _ _ _ _ _ _ _ (run resolvers) Pipes host_environment run_accepted run_fits
           (or_introl eq_refl) arguments_wf_sample resolver_texts (fun E => False_ind _ (Bool.diff_false_true E)) host_entries_ok
           host_names_distinct).
Defined.

(** A repeated resolver passes the command line, the capacity check and the
    codec, and is refused only by the worker. *)
Example repeated_resolver_is_refused_late :
  let dns := [Addr4 0xc0000235; Addr4 0xc0000235] in
  NewRequest "/data/batch" false arguments false settings_zero dns ["cp"; "{}"] None (MkDisplay true false) false
    = Accepted (MkRunRequest "/data/batch" (selections_of false arguments settings_zero) dns ["cp"; "{}"] "" (MkDisplay true false) false)
  /\ CheckStartRequestCapacity (run dns) = None
  /\ transferRequest (start_of (run dns) Pipes) host_environment = Err (ErrText "direct resolver 192.0.2.53 is repeated")
  /\ is_ok (transferRequest (start_of (run [Addr4 0xc0000235]) Pipes) (childEnvironment host_environment)) = true.
Proof. vm_compute. done. Qed.
End Intent.
