(* ===== verification/Effects.v ===== *)
(** * Effects

    Code that talks to the kernel or to another owner is an interaction tree:
    a call is an event, its answer anything the callee may give.  A trace lists
    the answered calls, and ends in a call without an answer where the process
    hangs or is killed in it.  A [World] gives the calls a meaning: the state they
    act on, when a call may be made, which answers it may have and what it does.
    The triples of this file speak of every trace, finished or cut off anywhere,
    so a triple is also a statement about crashes. *)
From Stdlib Require Import Eqdep.
From ITree Require Import ITree ITreeFacts.
From Paco Require Import paco.
From S2P Require Import Prelude.


Inductive event (E : Type -> Type) : Type :=
  | Answered {X : Type} (e : E X) (x : X)
  | Pending {X : Type} (e : E X).
Arguments Answered {E X} e x.
Arguments Pending {E X} e.

(** [exec t tr o]: [t] may perform [tr], and has then returned ([Some]) or not. *)
Inductive exec {E : Type -> Type} {A : Type} : itree E A -> list (event E) -> option A -> Prop :=
  | exec_stop t : exec t [] None
  | exec_ret t a : observe t = RetF a -> exec t [] (Some a)
  | exec_tau t t' tr o : observe t = TauF t' -> exec t' tr o -> exec t tr o
  | exec_pending t X (e : E X) k : observe t = VisF e k -> exec t [Pending e] None
  | exec_vis t X (e : E X) k x tr o : observe t = VisF e k -> exec (k x) tr o -> exec t (Answered e x :: tr) o.

(** Equal nodes have the same call and the same continuation. *)
Ltac same_vis O :=
  cbn in O; inversion O; subst;
  repeat match goal with
         | H : existT _ _ = existT _ _ |- _ => apply inj_pair2 in H
         end; subst; try clear O.

Section Exec.
Context {E : Type -> Type} {A : Type}.

Lemma exec_observe (t t' : itree E A) tr o : observe t = observe t' -> exec t tr o -> exec t' tr o.
Proof.
  intros Eq H. destruct H; try congruence.
  - constructor.
  - eapply exec_ret. congruence.
  - eapply exec_tau; [|done]. congruence.
  - eapply exec_pending. rewrite <- Eq. done.
  - eapply exec_vis; [|done]. rewrite <- Eq. done.
Qed.

Lemma exec_ret_inv (a : A) tr o : exec (E := E) (Ret a) tr o -> tr = [] /\ (o = None \/ o = Some a).
Proof. inversion 1; cbn in *; simplify_eq; auto. Qed.

Lemma exec_vis_inv X (e : E X) (k : X -> itree E A) tr o :
  exec (Vis e k) tr o ->
  (tr = [] /\ o = None) \/ (tr = [Pending e] /\ o = None) \/ exists x tr', tr = Answered e x :: tr' /\ exec (k x) tr' o.
Proof.
  inversion 1 as [|? ? O|? ? ? ? O|? ? ? ? O|? ? ? ? ? ? ? O]; try discriminate; auto.
  - same_vis O. auto.
  - same_vis O. right. right. eauto.
Qed.

Lemma exec_eutt (t t' : itree E A) tr o : t ≈ t' -> exec t tr o -> exec t' tr o.
Proof.
  intros Ht H. revert t' Ht. induction H as [t|t a O|t u tr o O He IH|t X e k O|t X e k x tr o O He IH]; intros t' Ht.
  - constructor.
  - punfold Ht. red in Ht. rewrite O in Ht. remember (RetF a) as ot eqn:Eot. remember (observe t') as ot' eqn:Eot'.
    revert t' Eot'. induction Ht as [| | |? ? ? Ht IH|? ? ? Ht IH]; intros t'' Eot'; simplify_eq.
    + by eapply exec_ret.
    + eapply exec_tau; [by symmetry|]. by apply IH.
  - apply IH. rewrite <- Ht. rewrite (itree_eta t), O. by rewrite tau_eutt.
  - punfold Ht. red in Ht. rewrite O in Ht. remember (VisF e k) as ot eqn:Eot. remember (observe t') as ot' eqn:Eot'.
    revert t' Eot'. induction Ht as [| |? e' k1 k2 Hk|? ? ? Ht IH|? ? ? Ht IH]; intros t'' Eot'; try discriminate.
    + same_vis Eot. by eapply exec_pending.
    + eapply exec_tau; [by symmetry|]. by apply IH.
  - punfold Ht. red in Ht. rewrite O in Ht. remember (VisF e k) as ot eqn:Eot. remember (observe t') as ot' eqn:Eot'.
    revert t' Eot'. induction Ht as [| |? e' k1 k2 Hk|? ? ? Ht IHt|? ? ? Ht IHt]; intros t'' Eot'; try discriminate.
    + same_vis Eot. eapply exec_vis; [by symmetry|]. apply IH. destruct (Hk x) as [Hx|[]]. exact Hx.
    + eapply exec_tau; [by symmetry|]. by apply IHt.
Qed.
End Exec.

(** Sequencing, with the reading order of the source. *)
Notation "'do!' x ':=' t 'in' k" := (ITree.bind t (fun x => k))
  (at level 10, x name, t at level 100, k at level 200).
Notation "'do!' ' p ':=' t 'in' k" := (ITree.bind t (fun p => k))
  (at level 10, p pattern, t at level 100, k at level 200).
Abbreviation call := ITree.trigger.

(** Calls that may fail: the caller returns the error. *)
Definition bind_ok {E A B} (t : itree E (result A)) (k : A -> itree E (result B)) : itree E (result B) :=
  ITree.bind t (fun r => match r with Ok a => k a | Err e => Ret (Err e) end).
Definition check_ok {E B} (t : itree E (option error)) (k : itree E (result B)) : itree E (result B) :=
  ITree.bind t (fun r => match r with None => k | Some e => Ret (Err e) end).
Notation "'do*' x ':=' t 'in' k" := (bind_ok t (fun x => k))
  (at level 10, x name, t at level 100, k at level 200).
Notation "'check*' t 'in' k" := (check_ok t k)
  (at level 10, t at level 100, k at level 200).
Definition lift {E A} (r : result A) : itree E (result A) := Ret r.

(** ** Meaning of the calls *)
Class World (E : Type -> Type) (L : Type) : Type := {
  may_call : forall X, E X -> L -> Prop;
  may_answer : forall X, E X -> X -> L -> Prop;
  after_call : forall X, E X -> X -> L -> L;
  holds : L -> Prop
}.
Arguments may_call {E L _ X} e s.
Arguments may_answer {E L _ X} e x s.
Arguments after_call {E L _ X} e x s.

Section Logic.
Context {E : Type -> Type} {L : Type} `{!World E L}.

(** The caller keeps the rules: each call is allowed when it is made, and the
    invariant holds after each answer that the callee may give. *)
Fixpoint lawful (s : L) (tr : list (event E)) : Prop :=
  match tr with
  | [] => True
  | Pending e :: _ => may_call e s
  | Answered e x :: tr =>
      may_call e s /\ (may_answer e x s -> holds (after_call e x s) /\ lawful (after_call e x s) tr)
  end.

(** The callees keep the rules. *)
Fixpoint faithful (s : L) (tr : list (event E)) : Prop :=
  match tr with
  | [] | Pending _ :: _ => True
  | Answered e x :: tr => may_answer e x s /\ faithful (after_call e x s) tr
  end.

Fixpoint state_after (s : L) (tr : list (event E)) : L :=
  match tr with
  | [] | Pending _ :: _ => s
  | Answered e x :: tr => state_after (after_call e x s) tr
  end.

Definition returns {A} (Q : A -> L -> Prop) (o : option A) (s : L) : Prop :=
  match o with Some a => Q a s | None => True end.

Definition triple {A} (s : L) (t : itree E A) (Q : A -> L -> Prop) : Prop :=
  forall tr o, exec t tr o -> lawful s tr /\ (faithful s tr -> returns Q o (state_after s tr)).

(** ** One step of a triple *)
Lemma triple_ret_inv {A} s t (Q : A -> L -> Prop) a : observe t = RetF a -> triple s t Q -> Q a s.
Proof. intros O H. destruct (H [] (Some a)) as [_ HQ]; [by eapply exec_ret|]. by apply HQ. Qed.

Lemma triple_tau_inv {A} s t t' (Q : A -> L -> Prop) : observe t = TauF t' -> triple s t Q -> triple s t' Q.
Proof. intros O H tr o X. apply H. by eapply exec_tau. Qed.

Lemma triple_vis_inv {A} s t (Q : A -> L -> Prop) X (e : E X) k :
  observe t = VisF e k -> triple s t Q ->
  may_call e s /\ forall x, may_answer e x s -> holds (after_call e x s) /\ triple (after_call e x s) (k x) Q.
Proof.
  intros O H. split.
  - by destruct (H [Pending e] None) as [Hl _]; [by eapply exec_pending|].
  - intros x Hx. split.
    + destruct (H [Answered e x] None) as [[_ Hl] _]; [eapply exec_vis; [done|constructor]|]. by apply Hl.
    + intros tr o He. destruct (H (Answered e x :: tr) o) as [[_ Hl] HQ]; [by eapply exec_vis|].
      destruct (Hl Hx) as [_ Hl']. split; [done|]. intros Hf. by apply HQ.
Qed.

Lemma triple_observe {A} s t t' (Q : A -> L -> Prop) : observe t = observe t' -> triple s t Q -> triple s t' Q.
Proof. intros O H tr o He. apply H. by eapply exec_observe. Qed.

Lemma observe_bind' {A B} (t : itree E A) (k : A -> itree E B) :
  observe (ITree.bind t k)
  = match observe t with
    | RetF a => observe (k a)
    | TauF t => TauF (ITree.bind t k)
    | VisF e h => VisF e (fun x => ITree.bind (h x) k)
    end.
Proof. unfold ITree.bind, observe at 1. cbn. by destruct (observe t). Qed.

(** ** Rules *)
Lemma triple_ret {A} s (a : A) (Q : A -> L -> Prop) : Q a s -> triple s (Ret a) Q.
Proof. intros H tr o [-> [->| ->]]%exec_ret_inv; done. Qed.

Lemma triple_vis {A X} s (e : E X) (k : X -> itree E A) (Q : A -> L -> Prop) :
  may_call e s ->
  (forall x, may_answer e x s -> holds (after_call e x s) /\ triple (after_call e x s) (k x) Q) ->
  triple s (Vis e k) Q.
Proof.
  intros Hc Hk tr o [[-> ->]|[[-> ->]|(x & tr' & -> & He)]]%exec_vis_inv; [done..|]. split.
  - split; [done|]. intros Hx. destruct (Hk x Hx) as [? H]. split; [done|]. by apply (H _ _ He).
  - intros [Hx Hf]. destruct (Hk x Hx) as [_ H]. by apply (H _ _ He).
Qed.

Lemma triple_call {X} s (e : E X) (Q : X -> L -> Prop) :
  may_call e s ->
  (forall x, may_answer e x s -> holds (after_call e x s) /\ Q x (after_call e x s)) -> triple s (call e) Q.
Proof.
  intros Hc Hk. apply triple_vis; [done|]. intros x Hx. destruct (Hk x Hx) as [H HQ]. split; [done|].
  by apply triple_ret.
Qed.

Lemma triple_mono {A} s t (Q R : A -> L -> Prop) :
  triple s t Q -> (forall a s', Q a s' -> R a s') -> triple s t R.
Proof. intros H HQR tr [a|] He; destruct (H _ _ He) as [Hl HQ]; split; try done. intros Hf. by apply HQR, HQ. Qed.

Lemma triple_bind {A B} s t (k : A -> itree E B) (R : A -> L -> Prop) (Q : B -> L -> Prop) :
  triple s t R -> (forall a s', R a s' -> triple s' (k a) Q) -> triple s (ITree.bind t k) Q.
Proof.
  intros H Hk tr o He. remember (ITree.bind t k) as u eqn:Eu.
  assert (O : observe u = observe (ITree.bind t k)) by congruence. clear Eu.
  revert s t O H. induction He as [u|u b O'|u u' tr o O' He IH|u X e h O'|u X e h x tr o O' He IH]; intros s t O H; [done|..];
    rewrite O, observe_bind' in O'; destruct (observe t) as [a|t'|Y e' h'] eqn:Et; try discriminate O'; try done.
  - eapply (Hk a s); [by eapply triple_ret_inv|]. by eapply exec_ret.
  - eapply (Hk a s); [by eapply triple_ret_inv|]. by eapply exec_tau.
  - injection O' as <-. by eapply (IH s t'); [|eapply triple_tau_inv].
  - eapply (Hk a s); [by eapply triple_ret_inv|]. by eapply exec_pending.
  - same_vis O'. split; [|done]. by eapply (proj1 (triple_vis_inv _ _ _ _ _ _ Et H)).
  - eapply (Hk a s); [by eapply triple_ret_inv|]. by eapply exec_vis.
  - same_vis O'. destruct (triple_vis_inv _ _ _ _ _ _ Et H) as [Hc Ha]. split.
    + split; [done|]. intros Hx. destruct (Ha x Hx) as [? H']. split; [done|].
      by apply (IH (after_call e x s) (h' x) eq_refl H').
    + intros [Hx Hf]. destruct (Ha x Hx) as [_ H']. by apply (IH (after_call e x s) (h' x) eq_refl H').
Qed.

(** A loop keeps an invariant of its variable and the state. *)
Lemma triple_iter {I A} (inv : I -> L -> Prop) (Q : A -> L -> Prop) (body : I -> itree E (I + A)) :
  (forall i s, inv i s -> triple s (body i) (fun r s' => match r with inl i => inv i s' | inr a => Q a s' end)) ->
  forall s i, inv i s -> triple s (ITree.iter body i) Q.
Proof.
  intros Hbody s i Hi tr o He.
  set (K := fun lr : I + A => match lr with inl l => Tau (ITree.iter body l) | inr r => Ret r end).
  set (R := fun (r : I + A) s' => match r with inl i => inv i s' | inr a => Q a s' end).
  remember (ITree.iter body i) as u eqn:Eu.
  assert (O : observe u = observe (ITree.bind (body i) K)) by (subst u; reflexivity). clear Eu.
  assert (H : triple s (body i) R) by (by apply Hbody). clear Hi.
  revert s O H. generalize (body i) as t.
  induction He as [u|u b O'|u u' tr o O' He IH|u X e h O'|u X e h x tr o O' He IH]; intros t s O H; [done|..];
    rewrite O, observe_bind' in O'; destruct (observe t) as [[j|a]|t'|Y e' h'] eqn:Et; cbn in O'; try discriminate O'; try done.
  - injection O' as <-. split; [done|]. intros _. by apply (triple_ret_inv _ _ _ _ Et H).
  - injection O' as <-. pose proof (triple_ret_inv _ _ _ _ Et H) as Hj. eapply (IH (body j)); [reflexivity|]. by apply Hbody.
  - injection O' as <-. by eapply (IH t'); [|eapply triple_tau_inv].
  - same_vis O'. split; [|done]. by eapply (proj1 (triple_vis_inv _ _ _ _ _ _ Et H)).
  - same_vis O'. destruct (triple_vis_inv _ _ _ _ _ _ Et H) as [Hc Ha]. split.
    + split; [done|]. intros Hx. destruct (Ha x Hx) as [? H']. split; [done|].
      by apply (IH (h' x) (after_call e x s) eq_refl H').
    + intros [Hx Hf]. destruct (Ha x Hx) as [_ H']. by apply (IH (h' x) (after_call e x s) eq_refl H').
Qed.

(** Trees that only differ in silent steps have the same triples. *)
#[export] Instance triple_eutt {A} :
  Proper (eq ==> eutt eq ==> pointwise_relation A (pointwise_relation L iff) ==> iff) (@triple A).
Proof.
  assert (Himp : forall s (t t' : itree E A) (Q Q' : A -> L -> Prop),
    t ≈ t' -> (forall a s, Q a s <-> Q' a s) -> triple s t Q -> triple s t' Q').
  { intros s t t' Q Q' Ht HQ H. apply (triple_mono _ _ Q); [|intros; by apply HQ].
    intros tr o He. apply H. by eapply exec_eutt; [symmetry|]. }
  intros s ? <- t t' Ht Q Q' HQ. split; apply Himp; [done|apply HQ|by symmetry|]. intros a s'. symmetry. apply HQ.
Qed.

Lemma triple_bind_ok {A B} s (t : itree E (result A)) (k : A -> itree E (result B)) (R : result A -> L -> Prop)
    (Q : result B -> L -> Prop) :
  triple s t R -> (forall a s', R (Ok a) s' -> triple s' (k a) Q) -> (forall e s', R (Err e) s' -> Q (Err e) s') ->
  triple s (bind_ok t k) Q.
Proof. intros H Hk He. apply (triple_bind _ _ _ _ _ H). intros [a|e] s' HR; [by apply Hk|]. by apply triple_ret, He. Qed.

Lemma triple_check_ok {B} s (t : itree E (option error)) (k : itree E (result B)) (R : option error -> L -> Prop)
    (Q : result B -> L -> Prop) :
  triple s t R -> (forall s', R None s' -> triple s' k Q) -> (forall e s', R (Some e) s' -> Q (Err e) s') ->
  triple s (check_ok t k) Q.
Proof. intros H Hk He. apply (triple_bind _ _ _ _ _ H). intros [e|] s' HR; [by apply triple_ret, He|by apply Hk]. Qed.

Lemma triple_lift {A} s (r : result A) (Q : result A -> L -> Prop) : Q r s -> triple s (lift r) Q.
Proof. apply triple_ret. Qed.

Lemma triple_lawful {A} s (t : itree E A) Q tr o : triple s t Q -> exec t tr o -> lawful s tr.
Proof. intros H He. by apply (H _ _ He). Qed.

Lemma lawful_holds s tr : holds s -> lawful s tr -> faithful s tr -> holds (state_after s tr).
Proof. revert s. induction tr as [|[] tr IH]; intros s Hs; cbn; [done| |done]. intros [_ H] [Hx Hf]. destruct (H Hx). by apply IH. Qed.
End Logic.

(** ** Playing a tree against given answers *)
Section Play.
Context {E : Type -> Type} {W A : Type}.

Fixpoint play (fuel : nat) (answer : forall X, E X -> W -> option (X * W)) (t : itree E A) (s : W)
    : list (event E) * option A :=
  match fuel with
  | O => ([], None)
  | S fuel =>
      match observe t with
      | RetF a => ([], Some a)
      | TauF t => play fuel answer t s
      | VisF e k =>
          match answer _ e s with
          | None => ([Pending e], None)
          | Some (x, s) => let '(tr, o) := play fuel answer (k x) s in (Answered e x :: tr, o)
          end
      end
  end.

Lemma play_exec fuel answer t s : exec t (play fuel answer t s).1 (play fuel answer t s).2.
Proof.
  revert t s. induction fuel as [|fuel IH]; intros t s; cbn; [constructor|].
  destruct (observe t) as [a|t'|X e k] eqn:O.
  - by eapply exec_ret.
  - by eapply exec_tau.
  - destruct (answer X e s) as [[x s']|]; [|by eapply exec_pending]. specialize (IH (k x) s').
    destruct (play fuel answer (k x) s') as [tr' o']. by eapply exec_vis.
Qed.
End Play.

(** ** Total triples

    A triple speaks of the runs that return.  A total triple also says that every
    run does: the calls that a faithful callee answers one after the other come to
    an end, and each call that is made has an answer. *)
Section Total.
Context {E : Type -> Type} {L : Type} `{!World E L}.

Inductive returning {A : Type} (Q : A -> L -> Prop) (s : L) (t : itree E A) : Prop :=
  | total_returns a : observe t = RetF a -> Q a s -> returning Q s t
  | total_silent t' : observe t = TauF t' -> returning Q s t' -> returning Q s t
  | total_calls X (e : E X) k :
      observe t = VisF e k -> may_call e s -> (exists x, may_answer e x s) ->
      (forall x, may_answer e x s -> returning Q (after_call e x s) (k x)) -> returning Q s t.

Definition total {A : Type} (s : L) (t : itree E A) (Q : A -> L -> Prop) : Prop := returning Q s t.

Lemma total_observe {A} s (t t' : itree E A) (Q : A -> L -> Prop) : observe t = observe t' -> total s t Q -> total s t' Q.
Proof.
  intros O [a Ha HQ|u Hu HQ|X e k Hk Hc Hx HQ]; rewrite O in *; [by eapply total_returns|by eapply total_silent|by eapply total_calls].
Qed.

Lemma total_ret {A} s (a : A) (Q : A -> L -> Prop) : Q a s -> total s (Ret a) Q.
Proof. by eapply total_returns. Qed.

Lemma total_call {X} s (e : E X) (Q : X -> L -> Prop) :
  may_call e s -> (exists x, may_answer e x s) -> (forall x, may_answer e x s -> Q x (after_call e x s)) -> total s (call e) Q.
Proof. intros Hc Hx HQ. eapply total_calls; [reflexivity|done|done|]. intros x Ha. by apply total_ret, HQ. Qed.

Lemma total_mono {A} s (t : itree E A) (Q R : A -> L -> Prop) :
  total s t Q -> (forall a s', Q a s' -> R a s') -> total s t R.
Proof.
  intros H HR. induction H as [s t a O HQ|s t t' O _ IH|s t X e k O Hc Hx _ IH].
  - eapply total_returns; [exact O|]. by apply HR.
  - eapply total_silent; [exact O|]. by apply IH.
  - eapply total_calls; [exact O|done|done|]. intros x Ha. by apply IH.
Qed.

Lemma total_bind {A B} s (t : itree E A) (k : A -> itree E B) (R : A -> L -> Prop) (Q : B -> L -> Prop) :
  total s t R -> (forall a s', R a s' -> total s' (k a) Q) -> total s (ITree.bind t k) Q.
Proof.
  intros H Hk. induction H as [s t a O HR|s t t' O _ IH|s t X e h O Hc Hx _ IH].
  - eapply total_observe; [|by apply (Hk a s)]. by rewrite observe_bind', O.
  - eapply total_silent; [by rewrite observe_bind', O|]. apply IH.
  - eapply total_calls; [by rewrite observe_bind', O|done|done|]. intros x Ha. by apply IH.
Qed.

Lemma total_bind_ok {A B} s (t : itree E (result A)) (k : A -> itree E (result B)) (R : result A -> L -> Prop)
    (Q : result B -> L -> Prop) :
  total s t R -> (forall a s', R (Ok a) s' -> total s' (k a) Q) -> (forall e s', R (Err e) s' -> Q (Err e) s') ->
  total s (bind_ok t k) Q.
Proof. intros H Hk He. apply (total_bind _ _ _ _ _ H). intros [a|e] s' HR; [by apply Hk|]. by apply total_ret, He. Qed.

(** One turn of a loop. *)
Lemma total_iter {I A} (body : I -> itree E (I + A)) i s (Q : A -> L -> Prop) :
  total s (body i) (fun r s' => match r with inl j => total s' (ITree.iter body j) Q | inr a => Q a s' end) ->
  total s (ITree.iter body i) Q.
Proof.
  intros H. set (K := fun lr : I + A => match lr with inl l => Tau (ITree.iter body l) | inr r => Ret r end).
  apply (total_observe _ (ITree.bind (body i) K)); [reflexivity|]. apply (total_bind _ _ _ _ _ H).
  intros [j|a] s' HQ; [by eapply total_silent|by apply total_ret].
Qed.

(** A total triple is a triple where the invariant of the world is trivial. *)
Lemma total_triple {A} s (t : itree E A) Q : (forall s, holds s) -> total s t Q -> triple s t Q.
Proof.
  intros Hh H. induction H as [s t a O HQ|s t t' O _ IH|s t X e k O Hc Hx _ IH].
  - eapply (triple_observe _ (Ret a)); [done|]. by apply triple_ret.
  - intros tr o He. apply IH. apply (exec_eutt t); [|done]. rewrite (itree_eta t), O. apply tau_eutt.
  - eapply (triple_observe _ (Vis e k)); [done|]. by apply triple_vis; auto.
Qed.

(** Every run can be finished, and a finished run meets the postcondition. *)
Lemma total_run {A} s (t : itree E A) Q :
  total s t Q -> exists tr a, exec t tr (Some a) /\ faithful s tr /\ Q a (state_after s tr).
Proof.
  induction 1 as [s t a O HQ|s t t' O _ IH|s t X e k O Hc [x Hx] _ IH].
  - exists [], a. split_and!; [by eapply exec_ret|done|done].
  - destruct IH as (tr & a & He & H). exists tr, a. split; [by eapply exec_tau|done].
  - destruct (IH x Hx) as (tr & a & He & Hf & HQ). exists (Answered e x :: tr), a. split; [by eapply exec_vis|done].
Qed.
End Total.
