(* ===== verification/Commands.v ===== *)
(** * The commands of a process group

    [childprocesses/types.go]: the command of one transfer, bound to the view of
    its share of the source, the validation of a group, and the results of the
    group and of its helpers.  Opening a resolver capability is a call, the
    argument [open]. *)
From ITree Require Import ITree.
From S2P Require Import Prelude GoText Sorting Paths TransferNumber RunId Effects TransferStart TransferRequest.

(** The identity of a capability. *)
Definition ResolverAccess : Type := nat.

(** A view lease and the facts its [Access] reports. *)
Record ViewAccess : Type := MkView {
  view_lease : nat;
  view_RunID : ID;
  view_TransferNumber : Number;
  view_BaseName : string
}.

#[export] Instance ViewAccess_eq_dec : EqDecision ViewAccess.
Proof. solve_decision. Defined.

Record Command : Type := MkCommand {
  cmd_transfer : Number;
  cmd_cwd : string;
  cmd_resolver : option ResolverAccess;
  cmd_argv : list string;
  cmd_environment : list string;
  cmd_execChannel : bool;
  cmd_view : option ViewAccess
}.

Definition view_path (view : ViewAccess) : result string :=
  DescriptorBoundViewPath (view_RunID view) (view_TransferNumber view) (view_BaseName view).

(** ** Validation *)
Fixpoint check_child_environment (seen : gset string) (environment : list string) : option error :=
  match environment with
  | [] => None
  | entry :: environment =>
      let '(name, _, found) := Cut entry equals_sign in
      if negb found || bool_decide (name = "") || contains_byte x00 entry || contains_byte x3d name
      then Some (ErrText "child command environment is invalid")
      else if bool_decide (name ∈ seen)
      then Some (ErrText ("child command environment contains duplicate name " +:+ Quote name))
      else check_child_environment ({[ name ]} ∪ seen) environment
  end.

Definition validateCommandFields (command : Command) (descriptorViewPath : string) : option error :=
  let validWorkingDirectory :=
    cleanAbsolutePath (cmd_cwd command)
    || (negb (bool_decide (descriptorViewPath = "")) && bool_decide (cmd_cwd command = descriptorViewPath)) in
  if (Value (cmd_transfer command) =? 0) || negb validWorkingDirectory || (zlen (cmd_argv command) =? 0)
  then Some (ErrText "child command identity or paths are invalid")
  else if cmd_execChannel command && bool_decide (is_Some (cmd_view command))
  then Some (ErrText "child command has conflicting inherited capabilities")
  else if existsb (contains_byte x00) (cmd_argv command) then Some (ErrText "child command argv contains NUL")
  else check_child_environment ∅ (cmd_environment command).

Section Open.
Context {F : Type -> Type} (open : ResolverAccess -> itree F (option error)).

Definition validateCommand (command : Command) : itree F (option error) :=
  let viewPath := match cmd_view command with Some view => ok_or "" (view_path view) | None => "" end in
  match cmd_resolver command with
  | None => Ret (Some (ErrText "child resolver capability is unavailable"))
  | Some resolver =>
      do! resolverErr := open resolver in
      match resolverErr with
      | Some e => Ret (Some (ErrWrap "child resolver capability is invalid" e))
      | None => Ret (validateCommandFields command viewPath)
      end
  end.

Definition NewCommand (id : Number) (workingDirectory : string) (resolver : option ResolverAccess)
    (argv environment : list string) : itree F (result Command) :=
  let command := MkCommand id workingDirectory resolver argv environment false None in
  check* validateCommand command in
  Ret (Ok command).

(** Without the channel's own descriptor, which is only passed on. *)
Definition NewCommandWithExecChannel (id : Number) (workingDirectory : string) (resolver : option ResolverAccess)
    (argv environment : list string) (channel : bool) : itree F (result Command) :=
  if negb channel then Ret (Err (ErrText "child exec channel is absent"))
  else
    do* command := NewCommand id workingDirectory resolver argv environment in
    Ret (Ok (MkCommand (cmd_transfer command) (cmd_cwd command) (cmd_resolver command) (cmd_argv command)
               (cmd_environment command) true (cmd_view command))).

Definition NewViewCommand (id : Number) (resolver : option ResolverAccess) (argv environment : list string)
    (view : option ViewAccess) : itree F (result Command) :=
  match view with
  | None => Ret (Err (ErrText "child file-view access is unavailable"))
  | Some v =>
      if negb (bool_decide (view_TransferNumber v = id))
      then Ret (Err (ErrText "child file-view transfer identity is invalid"))
      else
        do* viewPath := lift (view_path v) in
        let command := MkCommand id viewPath resolver argv environment false view in
        check* validateCommand command in
        if negb (zlen (filter (fun argument => argument = viewPath) argv) =? 1)
        then Ret (Err (ErrText "child command must contain its descriptor-bound view exactly once"))
        else Ret (Ok command)
  end.

(** The transfers of the commands, when each is valid and none is repeated. *)
Fixpoint check_commands (seen : gset Number) (commands : list Command) : itree F (result (gset Number)) :=
  match commands with
  | [] => Ret (Ok seen)
  | command :: commands =>
      check* validateCommand command in
      if bool_decide (cmd_transfer command ∈ seen)
      then Ret (Err (ErrText ("child process group contains duplicate transfer " +:+ pretty (Value (cmd_transfer command)))))
      else check_commands ({[ cmd_transfer command ]} ∪ seen) commands
  end.

(** [for expected := 1; expected <= n; expected++], from [expected]. *)
Fixpoint check_group (n : nat) (expected : Z) (ids : gset Number) : option error :=
  match n with
  | O => None
  | S n =>
      if bool_decide (ok_or number_zero (number_New expected) ∈ ids) then check_group n (expected + 1) ids
      else Some (ErrText ("child process group is missing transfer " +:+ pretty expected))
  end.

Definition validateCommands (commands : list Command) : itree F (option error) :=
  if (zlen commands =? 0) || (Maximum <? zlen commands) then Ret (Some (ErrText "child process group size is invalid"))
  else
    do! seen := check_commands ∅ commands in
    match seen with
    | Err e => Ret (Some e)
    | Ok ids => Ret (check_group (length commands) 1 ids)
    end.
End Open.

(** ** Results *)
Record GroupResult : Type := MkGroupResult { gr_transfers : list ChildResult; gr_cancelled : bool }.

Definition outcome_ok (r : ChildResult) : bool :=
  negb ((Value (cr_transfer r) =? 0) || (cr_signal r <? 0) || (255 <? cr_signal r)
        || ((cr_signal r =? 0) && ((cr_exitCode r <? 0) || (255 <? cr_exitCode r)))
        || (negb (cr_signal r =? 0) && negb (cr_exitCode r =? -1))).

Fixpoint check_results (seen : gset Number) (results : list ChildResult) : option error :=
  match results with
  | [] => None
  | r :: results =>
      if negb (outcome_ok r) then Some (ErrText "child transfer result is invalid")
      else if bool_decide (cr_transfer r ∈ seen) then Some (ErrText "child result contains duplicate transfer")
      else check_results ({[ cr_transfer r ]} ∪ seen) results
  end.

Definition result_less (a b : ChildResult) : bool := Value (cr_transfer a) <? Value (cr_transfer b).

(** Position [index] must hold transfer [uint8(index + 1)]. *)
Fixpoint check_numbered (index : Z) (ordered : list ChildResult) : option error :=
  match ordered with
  | [] => None
  | r :: ordered =>
      if negb (Value (cr_transfer r) =? wrap 8 (index + 1))
      then Some (ErrText ("child result set is missing transfer " +:+ pretty (index + 1)))
      else check_numbered (index + 1) ordered
  end.

Definition newResult (transfers : list ChildResult) (cancelled : bool) : result GroupResult :=
  check! check_results ∅ transfers in
  let ordered := sort_by result_less transfers in
  check! check_numbered 0 ordered in
  Ok (MkGroupResult ordered cancelled).

Record HelperTransfer : Type := MkHelper {
  helper_transfer : Number;
  helper_output : list byte;
  helper_exitCode : Z;
  helper_signal : Z
}.

Definition helper_of (outputs : gmap Number (list byte)) (process : ChildResult) : result HelperTransfer :=
  match outputs !! cr_transfer process with
  | None => Err (ErrText ("transfer " +:+ pretty (Value (cr_transfer process)) +:+ " helper output is absent"))
  | Some output => Ok (MkHelper (cr_transfer process) output (cr_exitCode process) (cr_signal process))
  end.

Definition newHelperResult (processes : GroupResult) (outputs : gmap Number (list byte)) : result (list HelperTransfer) :=
  if negb (zlen (gr_transfers processes) =? Z.of_nat (size outputs)) then Err (ErrText "helper result set is incomplete")
  else mmap (helper_of outputs) (gr_transfers processes).
