(* ===== verification/Transfer.v ===== *)
(** * The flow of a transfer

    [internal/transfer]: [TransferDirectory.Run] recovers old runs, collects the
    read-only facts, acquires the run root, the host network, the resolvers, the
    views and the processes one after the other, and on every way out releases
    what it acquired in a fixed order.  The collaborators are the interfaces of
    the package; each of their methods is a call of [FlowE].  A clean-up that
    outlives [Run] in a goroutine is returned as a [delayed] value, whose
    program is [finish]. *)
From ITree Require Import ITree.
From S2P Require Import Prelude GoText Paths Netip TransferNumber RunId SourceTree Allocation Catalog Resolve Weights Settings.
From S2P Require Import TransferStart TransferRequest Effects Commands.

(** ** What the collaborators own *)
Record LiveRun : Type := MkLive { live_handle : nat; live_ID : ID }.
Record StaleRun : Type := MkStale { stale_handle : nat; stale_ID : ID }.
Definition HostSession : Type := nat.
Definition ResolverGroup : Type := nat.
Definition FileViewSet : Type := nat.
Definition Processes : Type := nat.

#[export] Instance LiveRun_eq_dec : EqDecision LiveRun.
Proof. solve_decision. Defined.
#[export] Instance StaleRun_eq_dec : EqDecision StaleRun.
Proof. solve_decision. Defined.

(** The source directory the worker inherited. *)
Record SourceRoot : Type := MkSource { source_BaseName : string; source_StableRoot : string }.

Inductive stale_offer : Type :=
  | NoStale
  | RecoveryFailed (err : error)
  | Offered (run : StaleRun).

(** The observations of every namespace, or an error and the helpers that could
    not be contained. *)
Inductive observed : Type :=
  | AllObserved (results : list Observation)
  | NotObserved (err : error) (uncontained : option Processes).

Record StartFailureResult : Type := MkStartFailure { SupervisionError : option error; ContainmentError : option error }.

Section Flow.
Context `{URLs}.

Inductive FlowE : Type -> Type :=
  (* rundirectory *)
  | NewRunID : FlowE (result ID)
  | RecoverNext : FlowE stale_offer
  | RecoverReturned (run : StaleRun) (err : option error) : FlowE (option error)
  | RootsCreate (id : ID) : FlowE (result LiveRun)
  | LiveComplete (live : LiveRun) : FlowE (option error)
  | LiveClose (live : LiveRun) : FlowE (option error)
  | RetainLiveness (live : LiveRun) : FlowE (option error)
  | CloseCleanupDone : FlowE unit
  (* the read-only facts *)
  | Capture : FlowE (result Snapshot)
  | Scan (followSymlinks : bool) : FlowE (SourceSnapshot * option error)
  (* hostnetwork *)
  | NetworkRecover (run : StaleRun) : FlowE (option error)
  | NetworkOpen (live : LiveRun) (egresses : gmap Number Egress) : FlowE (result HostSession)
  | NetworkClose (network : HostSession) : FlowE (option error)
  (* namespaceresolvers *)
  | ResolversOpen (network : HostSession) (transfers : list Number) (intent : Intent) : FlowE (result ResolverGroup)
  | ResolversAccess (resolvers : ResolverGroup) (transfer : Number) : FlowE (result ResolverAccess)
  | AccessOpen (access : ResolverAccess) : FlowE (option error)
  | ResolversDiagnostic (resolvers : ResolverGroup) : FlowE (option error)
  | ResolversClose (resolvers : ResolverGroup) : FlowE (bool * option error)
  (* fileviews *)
  | ViewsPreflight : FlowE (option error)
  | ViewsRecover (run : StaleRun) : FlowE (option error)
  | ViewsOpen (live : LiveRun) (allocation : TransferAllocation) : FlowE (option FileViewSet * option error)
  | OpenView (views : FileViewSet) (transfer : Number) : FlowE (result ViewAccess)
  | LeaseClose (lease : ViewAccess) : FlowE (option error)
  | ViewsClose (views : FileViewSet) : FlowE (bool * option error)
  (* throughput and childprocesses *)
  | ObserveNamespaces (network : HostSession) (targets : list (Number * ResolverAccess)) (settings : Settings) : FlowE observed
  | StartInteractive (network : HostSession) (commands : list Command) (terminal : TerminalSize)
      : FlowE (option Processes * option error)
  | StartPlain (network : HostSession) (commands : list Command) : FlowE (option Processes * option error)
  | Wait (processes : Processes) : FlowE (GroupResult * option error)
  | FinishStartFailure (processes : Processes) : FlowE StartFailureResult
  | ConfirmContainment (processes : Processes) : FlowE (option error)
  | ContainmentDone (processes : Processes) : FlowE bool
  | AwaitContainment (processes : Processes) : FlowE unit
  (* context.Cause *)
  | ContextCause : FlowE (option error)
  (* a method of a nil value: the process dies *)
  | NilDereference : FlowE Empty_set.

Abbreviation flow := (itree FlowE).

Definition panic {A} : flow A := do! impossible := call NilDereference in match impossible : Empty_set with end.

(** ** The result of a run, [result.go] *)
Record Outcome : Type := MkOutcome {
  out_id : ID;
  out_hasRun : bool;
  out_transfers : list ChildResult;
  out_cancelled : bool;
  out_runErr : option error;
  out_cleanupErr : option error;
  out_sourceSummary : Summary;
  out_hasSourceSummary : bool
}.

Definition no_outcome : Outcome := MkOutcome zero_ID false [] false None None (MkSummary 0 0 0 0) false.

Definition failed (err : error) : Outcome := MkOutcome zero_ID false [] false (Some err) None (MkSummary 0 0 0 0) false.

Definition resultWithSourceSummary (r : Outcome) (snapshot : SourceSnapshot) (captured : bool) : Outcome :=
  if captured then
    MkOutcome (out_id r) (out_hasRun r) (out_transfers r) (out_cancelled r) (out_runErr r) (out_cleanupErr r)
      (snapshot_Summary snapshot) true
  else r.

(** [result.runErr, result.cleanupErr = ...]. *)
Definition with_errors (r : Outcome) (runErr cleanupErr : option error) : Outcome :=
  MkOutcome (out_id r) (out_hasRun r) (out_transfers r) (out_cancelled r) runErr cleanupErr (out_sourceSummary r)
    (out_hasSourceSummary r).

Definition with_processes (r : Outcome) (transfers : list ChildResult) (cancelled : bool) (runErr cleanupErr : option error)
    : Outcome :=
  MkOutcome (out_id r) (out_hasRun r) transfers cancelled runErr cleanupErr (out_sourceSummary r) (out_hasSourceSummary r).

(** [Err]: a cleanup failure takes precedence, the run failure stays in the chain. *)
Definition OutcomeErr (r : Outcome) : option error :=
  match out_cleanupErr r with
  | Some e => errors_Join [Some (ErrWrap "transfer cleanup failed" e); out_runErr r]
  | None => out_runErr r
  end.

Definition wrap_error (context : string) (err : option error) : option error := ErrWrap context <$> err.

(** ** Egresses, [egress.go] *)
Fixpoint collect_egresses (result : gmap Number Egress) (selected : list selectedNetwork) (resolved : list Egress)
    : Prelude.result (gmap Number Egress) :=
  match selected, resolved with
  | selection :: selected, egress :: resolved =>
      if negb (bool_decide (eg_localIP egress = sn_localIP selection))
      then Err (ErrText ("transfer " +:+ pretty (Value (sn_transfer selection)) +:+ " egress source identity changed"))
      else if negb (eg_runnable egress)
      then Err (ErrText ("transfer " +:+ pretty (Value (sn_transfer selection)) +:+ " egress is not runnable: "
                           +:+ eg_reason egress))
      else collect_egresses (<[ sn_transfer selection := egress ]> result) selected resolved
  | _, _ => Ok result
  end.

Definition egresses_of (snapshot : Snapshot) (selected : list selectedNetwork) : Prelude.result (gmap Number Egress) :=
  let resolved := Resolve snapshot (sn_localIP <$> selected) in
  if negb (zlen resolved =? zlen selected)
  then Err (ErrText "network catalog returned an incomplete selected egress set")
  else collect_egresses ∅ selected resolved.

Definition resolve_egresses (selected : list selectedNetwork) : flow (Prelude.result (gmap Number Egress)) :=
  do* snapshot := call Capture in
  lift (egresses_of snapshot selected).

Definition validateEgressSet (selected : list selectedNetwork) (egresses : gmap Number Egress) : option error :=
  if negb (Z.of_nat (base.size egresses) =? zlen selected)
  then Some (ErrText "selected egress set is incomplete or contains extras")
  else
    match find (fun s => bool_decide (egresses !! sn_transfer s = None)) selected with
    | Some s => Some (ErrText ("transfer " +:+ pretty (Value (sn_transfer s)) +:+ " selected egress is absent"))
    | None => None
    end.

(** ** Clean-up, [cleanup.go] *)
Inductive delayed : Type :=
  | AfterContainment (network : HostSession) (resolvers : ResolverGroup) (views : option FileViewSet)
      (leases : list ViewAccess) (processes : Processes)
  | RetryClosing (network : HostSession) (resolvers : ResolverGroup) (views : option FileViewSet)
      (resolverStopped viewsStopped : bool).

(** An error of the clean-up, and what is left to a goroutine. *)
Definition cleaned : Type := option error * option delayed.

Definition closeNetwork (network : HostSession) : flow (option error) :=
  do! err := call (NetworkClose network) in Ret (wrap_error "close host network" err).

Definition resolverContainmentError (err : option error) : error :=
  ErrWrap "confirm namespace resolver cleanup" (default (ErrText "namespace resolver workers did not stop") err).

Definition closeResolverChain (network : HostSession) (resolvers : ResolverGroup) : flow (bool * option error) :=
  do! ' (stopped, resolverErr) := call (ResolversClose resolvers) in
  if negb stopped then Ret (false, Some (resolverContainmentError resolverErr))
  else do! closeErr := closeNetwork network in Ret (true, errors_Join [resolverErr; closeErr]).

Fixpoint close_leases (leases : list ViewAccess) : flow (list (option error)) :=
  match leases with
  | [] => Ret []
  | lease :: leases =>
      do! err := call (LeaseClose lease) in
      do! failures := close_leases leases in
      Ret (err :: failures)
  end.

Definition closeViewLeases (leases : list ViewAccess) : flow (option error) :=
  do! failures := close_leases leases in Ret (errors_Join failures).

Definition closeFileViewChain (views : option FileViewSet) (leases : list ViewAccess) : flow (bool * option error) :=
  do! leaseErr := closeViewLeases leases in
  match views with
  | None => Ret (true, leaseErr)
  | Some views =>
      do! ' (stopped, viewErr) := call (ViewsClose views) in
      Ret (stopped, errors_Join [leaseErr; wrap_error "close file views" viewErr])
  end.

Definition completeRun (live : LiveRun) : flow (option error) :=
  do! completeErr := call (LiveComplete live) in
  match completeErr with
  | None => Ret None
  | Some e =>
      do! closeErr := call (LiveClose live) in
      Ret (errors_Join [Some (ErrWrap "complete run root" e); closeErr])
  end.

Definition cleanupRoot (live : LiveRun) : flow (option error) := completeRun live.

Definition cleanupNetwork (live : LiveRun) (network : HostSession) : flow (option error) :=
  do! closeErr := closeNetwork network in
  do! completeErr := completeRun live in
  Ret (errors_Join [closeErr; completeErr]).

Definition retainClosingOwners (live : LiveRun) (network : HostSession) (resolvers : ResolverGroup)
    (views : option FileViewSet) (resolverStopped viewsStopped : bool) : flow cleaned :=
  do! err := call (RetainLiveness live) in
  match err with
  | Some e => Ret (Some e, None)
  | None => Ret (None, Some (RetryClosing network resolvers views resolverStopped viewsStopped))
  end.

Definition cleanupContainedOwners (live : LiveRun) (network : HostSession) (resolvers : ResolverGroup)
    (views : option FileViewSet) (leases : list ViewAccess) : flow cleaned :=
  do! ' (resolverStopped, resolverErr) := closeResolverChain network resolvers in
  do! ' (viewsStopped, viewErr) := closeFileViewChain views leases in
  let ownerErr := errors_Join [resolverErr; viewErr] in
  if negb resolverStopped || negb viewsStopped then
    do! ' (retainErr, later) := retainClosingOwners live network resolvers views resolverStopped viewsStopped in
    Ret (errors_Join [ownerErr; retainErr], later)
  else
    do! completeErr := completeRun live in
    Ret (errors_Join [ownerErr; completeErr], None).

Definition cleanupViews := cleanupContainedOwners.
Definition cleanupResolvers (live : LiveRun) (network : HostSession) (resolvers : ResolverGroup) : flow cleaned :=
  cleanupContainedOwners live network resolvers None [].

Definition containmentConfirmed (processes : Processes) : flow bool := call (ContainmentDone processes).

Definition retainUntilProcessContainment (live : LiveRun) (network : HostSession) (resolvers : ResolverGroup)
    (views : option FileViewSet) (leases : list ViewAccess) (processes : Processes) (evidence : option error)
    : flow cleaned :=
  let evidence := default (ErrText "child process containment is unconfirmed") evidence in
  do! retainErr := call (RetainLiveness live) in
  Ret (errors_Join [Some (ErrWrap "confirm child process cleanup" evidence); retainErr],
       match retainErr with None => Some (AfterContainment network resolvers views leases processes) | Some _ => None end).

Definition stopStartupProcesses (live : LiveRun) (network : HostSession) (resolvers : ResolverGroup)
    (views : option FileViewSet) (leases : list ViewAccess) (processes : Processes) : flow (StartFailureResult * cleaned) :=
  do! finished := call (FinishStartFailure processes) in
  do! confirmed := containmentConfirmed processes in
  do! cleaned :=
    (if negb confirmed
     then retainUntilProcessContainment live network resolvers views leases processes (ContainmentError finished)
     else cleanupContainedOwners live network resolvers views leases) in
  Ret (finished, cleaned).

Definition cleanupObservedProcesses (live : LiveRun) (network : HostSession) (resolvers : ResolverGroup)
    (views : option FileViewSet) (leases : list ViewAccess) (processes : Processes) : flow cleaned :=
  do! confirmErr := call (ConfirmContainment processes) in
  do! confirmed := containmentConfirmed processes in
  if negb confirmed then retainUntilProcessContainment live network resolvers views leases processes confirmErr
  else cleanupContainedOwners live network resolvers views leases.

(** The goroutines. *)
Definition closeAfterDelayedContainment (network : HostSession) (resolvers : ResolverGroup) (views : option FileViewSet)
    (leases : list ViewAccess) (processes : Processes) : flow unit :=
  do! done := call (AwaitContainment processes) in
  do! ' (resolverStopped, _) := closeResolverChain network resolvers in
  do! ' (viewsStopped, _) := closeFileViewChain views leases in
  if resolverStopped && viewsStopped then call CloseCleanupDone else Ret tt.

Definition retry_closing (network : HostSession) (resolvers : ResolverGroup) (views : option FileViewSet)
    (resolverStopped viewsStopped : bool) : flow unit :=
  do! resolverStopped :=
    (if negb resolverStopped then do! ' (stopped, _) := closeResolverChain network resolvers in Ret stopped
     else Ret resolverStopped) in
  do! viewsStopped :=
    (if negb viewsStopped then do! ' (stopped, _) := closeFileViewChain views [] in Ret stopped else Ret viewsStopped) in
  if resolverStopped && viewsStopped then call CloseCleanupDone else Ret tt.

Definition finish (later : option delayed) : flow unit :=
  match later with
  | None => Ret tt
  | Some (AfterContainment network resolvers views leases processes) =>
      closeAfterDelayedContainment network resolvers views leases processes
  | Some (RetryClosing network resolvers views resolverStopped viewsStopped) =>
      retry_closing network resolvers views resolverStopped viewsStopped
  end.

(** ** Executions, [execution.go] *)
Record TransferExecution : Type := MkExecution {
  ex_number : Number;
  ex_shortcut : Z;
  ex_egress : option Egress;
  ex_view : ViewAccess;
  ex_viewPath : string;
  ex_argv : list string
}.

Definition newTransferExecution (selection : selectedNetwork) (egress : option Egress) (view : ViewAccess)
    (argv : list string) : result TransferExecution :=
  if (Value (sn_transfer selection) =? 0) || negb (bool_decide (view_TransferNumber view = sn_transfer selection))
  then Err (ErrText "transfer execution facts do not share one identity")
  else
    let* viewPath := view_path view in
    let* exactArgv := replaceViewArgument argv viewPath in
    let* shortcut := transferShortcut (sn_transfer selection) in
    Ok (MkExecution (sn_transfer selection) shortcut egress view viewPath exactArgv).

(** The executions or an error, and in both cases the leases opened so far. *)
Fixpoint open_executions (argv : list string) (egresses : gmap Number Egress) (views : FileViewSet)
    (executions : list TransferExecution) (leases : list ViewAccess) (selected : list selectedNetwork)
    : flow (result (list TransferExecution) * list ViewAccess) :=
  match selected with
  | [] => Ret (Ok executions, leases)
  | s :: selected =>
      let name := "transfer " +:+ pretty (Value (sn_transfer s)) in
      do! opened := call (OpenView views (sn_transfer s)) in
      match opened with
      | Err e => Ret (Err (ErrWrap ("open " +:+ name +:+ " file view") e), leases)
      | Ok lease =>
          let leases := leases ++ [lease] in
          if negb (bool_decide (view_TransferNumber lease = sn_transfer s))
          then Ret (Err (ErrText (name +:+ " received mismatched file-view access")), leases)
          else
            match newTransferExecution s (egresses !! sn_transfer s) lease argv with
            | Err e => Ret (Err e, leases)
            | Ok execution => open_executions argv egresses views (executions ++ [execution]) leases selected
            end
      end
  end.

Definition prepareExecutions (r : TransferRequest) (egresses : gmap Number Egress) (views : FileViewSet)
    : flow (result (list TransferExecution) * list ViewAccess) :=
  match validateEgressSet (selectedNetworks r) egresses with
  | Some e => Ret (Err e, [])
  | None => open_executions (tr_argv r) egresses views [] [] (selectedNetworks r)
  end.

Definition access_open (access : ResolverAccess) : flow (option error) := call (AccessOpen access).

Definition execution_command (execution : TransferExecution) (resolver : ResolverAccess) (environment : list string)
    : flow (result Command) :=
  NewViewCommand access_open (ex_number execution) (Some resolver) (ex_argv execution) environment (Some (ex_view execution)).

(** ** Starting the commands, [command_start.go] *)
Fixpoint build_commands (resolvers : ResolverGroup) (environment : list string) (executions : list TransferExecution)
    : flow (result (list Command)) :=
  match executions with
  | [] => Ret (Ok [])
  | execution :: executions =>
      do* resolver := call (ResolversAccess resolvers (ex_number execution)) in
      do! built := execution_command execution resolver environment in
      match built with
      | Err e =>
          Ret (Err (ErrWrap ("construct transfer " +:+ pretty (Value (ex_number execution)) +:+ " command") e))
      | Ok command =>
          do* commands := build_commands resolvers environment executions in
          Ret (Ok (command :: commands))
      end
  end.

Definition start_commands (network : HostSession) (resolvers : ResolverGroup) (executions : list TransferExecution)
    (r : TransferRequest) : flow (option Processes * option error) :=
  do! built := build_commands resolvers (tr_environment r) executions in
  match built with
  | Err e => Ret (None, Some e)
  | Ok commands =>
      if tr_commandIO r =? InteractiveCommandIO then call (StartInteractive network commands (tr_terminal r))
      else call (StartPlain network commands)
  end.

(** ** Weights, [weights.go] *)
Definition NewNamespaceExecution (id : Number) (workingDirectory : string) (resolver : ResolverAccess)
    : flow (result (Number * ResolverAccess)) :=
  let target := NewCurrentNamespaceTarget id in
  if negb (is_ok target) || negb (IsAbs workingDirectory) || negb (bool_decide (Clean workingDirectory = workingDirectory))
  then Ret (Err (ErrJoin (ErrText "namespace throughput execution is invalid")
                   (match target with Err e => [e] | Ok _ => [] end)))
  else
    check* access_open resolver in
    Ret (Ok (id, resolver)).

Fixpoint measured_targets (resolvers : ResolverGroup) (workingDirectory : string) (selected : list selectedNetwork)
    : flow (result (list (Number * ResolverAccess))) :=
  match selected with
  | [] => Ret (Ok [])
  | s :: selected =>
      do* resolver := call (ResolversAccess resolvers (sn_transfer s)) in
      do* target := NewNamespaceExecution (sn_transfer s) workingDirectory resolver in
      do* targets := measured_targets resolvers workingDirectory selected in
      Ret (Ok (target :: targets))
  end.

(** The weights, or an error and the helpers that are not contained. *)
Definition measure_weights (network : HostSession) (r : TransferRequest) (resolvers : ResolverGroup)
    (workingDirectory : string) : flow (result (list TransferWeight) * option Processes) :=
  do! targets := measured_targets resolvers workingDirectory (selectedNetworks r) in
  match targets with
  | Err e => Ret (Err e, None)
  | Ok targets =>
      do! results := call (ObserveNamespaces network targets (tr_settings r)) in
      match results with
      | NotObserved e uncontained => Ret (Err e, uncontained)
      | AllObserved results => Ret (measure (Ok results), None)
      end
  end.

Definition automatic_weights (r : TransferRequest) (weighted : list TransferWeight) : result TransferWeights :=
  check! validateWeightSet (sn_transfer <$> selectedNetworks r) weighted in
  NewTransferWeights weighted.

Definition manual_weights (r : TransferRequest) : result TransferWeights :=
  let* weighted := mmap (fun s => NewTransferWeight (manual_transfer s) (manual_weight s)) (tr_manual r) in
  NewTransferWeights weighted.

Definition final_weights (network : HostSession) (r : TransferRequest) (resolvers : ResolverGroup) (sourceRoot : string)
    : flow (result TransferWeights * option Processes) :=
  if negb (zlen (tr_automatic r) =? 0) then
    do! ' (weighted, uncontained) := measure_weights network r resolvers sourceRoot in
    match weighted with
    | Err e => Ret (Err (ErrWrap "measure automatic transfer weights" e), uncontained)
    | Ok weighted => Ret (automatic_weights r weighted, None)
    end
  else Ret (manual_weights r, None).

(** ** The flow, [transfer.go] *)
Definition transferResult (r : TransferRequest) (processResult : GroupResult) (waitErr : option error) (cause : option error)
    : list ChildResult * bool * option error :=
  let ordered := orderedTransferResults (selectedNetworks r) (gr_transfers processResult) in
  (ok_or [] ordered, gr_cancelled processResult,
   errors_Join ([waitErr; match ordered with Ok _ => None | Err e => Some e end]
                ++ (if gr_cancelled processResult
                    then [Some (default (ErrText "child process group was cancelled") cause)] else []))).

(** [context.Cause] is only looked at after a cancellation. *)
Definition cancellation_cause (cancelled : bool) : flow (option error) :=
  if cancelled then call ContextCause else Ret None.

Definition execute_commands (source : SourceRoot) (r : TransferRequest) (egresses : gmap Number Egress) (live : LiveRun)
    (network : HostSession) (resolvers : ResolverGroup) (views : FileViewSet) (o : Outcome)
    : flow (Outcome * option delayed) :=
  do! ' (executions, leases) := prepareExecutions r egresses views in
  match executions with
  | Err e =>
      do! ' (cleanupErr, later) := cleanupViews live network resolvers (Some views) leases in
      Ret (with_errors o (Some e) cleanupErr, later)
  | Ok executions =>
      do! ' (processes, err) := start_commands network resolvers executions r in
      match err, processes with
      | Some e, Some processes =>
          let runErr := ErrWrap "start child process group" e in
          do! ' (finished, (cleanupErr, later)) := stopStartupProcesses live network resolvers (Some views) leases processes in
          Ret (with_errors o (errors_Join [Some runErr; SupervisionError finished]) cleanupErr, later)
      | Some e, None =>
          do! ' (cleanupErr, later) := cleanupViews live network resolvers (Some views) leases in
          Ret (with_errors o (Some (ErrWrap "start child process group" e)) cleanupErr, later)
      | None, Some processes =>
          do! ' (processResult, waitErr) := call (Wait processes) in
          do! cause := cancellation_cause (gr_cancelled processResult) in
          let '(transfers, cancelled, runErr) := transferResult r processResult waitErr cause in
          do! ' (cleanupErr, later) := cleanupObservedProcesses live network resolvers (Some views) leases processes in
          Ret (with_processes o transfers cancelled runErr cleanupErr, later)
      | None, None => panic
      end
  end.

Definition executeWithResolvers (source : SourceRoot) (r : TransferRequest) (egresses : gmap Number Egress)
    (snapshot : SourceSnapshot) (live : LiveRun) (network : HostSession) (resolvers : ResolverGroup) (o : Outcome)
    : flow (Outcome * option delayed) :=
  do! ' (weighted, measuring) := final_weights network r resolvers (source_StableRoot source) in
  match weighted with
  | Err e =>
      do! ' (cleanupErr, later) :=
        (match measuring with
         | Some measuring => cleanupObservedProcesses live network resolvers None [] measuring
         | None => cleanupResolvers live network resolvers
         end) in
      Ret (with_errors o (Some e) cleanupErr, later)
  | Ok weighted =>
      match AllocateTransferItems snapshot weighted with
      | Err e =>
          do! ' (cleanupErr, later) := cleanupResolvers live network resolvers in
          Ret (with_errors o (Some (ErrWrap "allocate source files" e)) cleanupErr, later)
      | Ok allocation =>
          do! ' (views, err) := call (ViewsOpen live allocation) in
          match err, views with
          | Some e, None =>
              do! ' (cleanupErr, later) := cleanupResolvers live network resolvers in
              Ret (with_errors o (Some (ErrWrap "open file views" e)) cleanupErr, later)
          | Some e, Some views =>
              do! ' (cleanupErr, later) := cleanupViews live network resolvers (Some views) [] in
              Ret (with_errors o (Some (ErrWrap "open file views" e)) cleanupErr, later)
          | None, Some views => execute_commands source r egresses live network resolvers views o
          | None, None => panic
          end
      end
  end.

Definition executeWithNetwork (source : SourceRoot) (r : TransferRequest) (egresses : gmap Number Egress)
    (snapshot : SourceSnapshot) (live : LiveRun) (network : HostSession) (o : Outcome) : flow (Outcome * option delayed) :=
  do! opened := call (ResolversOpen network (sn_transfer <$> selectedNetworks r) (tr_resolver r)) in
  match opened with
  | Err e =>
      do! cleanupErr := cleanupNetwork live network in
      Ret (with_errors o (Some (ErrWrap "open namespace resolvers" e)) cleanupErr, None)
  | Ok resolvers =>
      do! ' (o, later) := executeWithResolvers source r egresses snapshot live network resolvers o in
      do! diagnosticErr := call (ResolversDiagnostic resolvers) in
      match diagnosticErr with
      | Some e =>
          Ret (with_errors o (errors_Join [out_runErr o; Some (ErrWrap "namespace resolver" e)]) (out_cleanupErr o), later)
      | None => Ret (o, later)
      end
  end.

(** The run root and the result so far, or the error that ended the run. *)
Definition createLiveRun : flow (result LiveRun * Outcome) :=
  do! id := call NewRunID in
  match id with
  | Err e => Ret (Err e, failed (ErrWrap "create run identity" e))
  | Ok id =>
      do! live := call (RootsCreate id) in
      match live with
      | Err e => Ret (Err e, failed (ErrWrap "create live run" e))
      | Ok live =>
          if negb (bool_decide (live_ID live = id)) then
            let err := ErrText ("RunDirectory returned mismatched run identity " +:+ IDString (live_ID live) +:+ " for "
                                  +:+ IDString id) in
            do! cleanupErr := cleanupRoot live in
            Ret (Err err, MkOutcome (live_ID live) true [] false (Some err) cleanupErr (MkSummary 0 0 0 0) false)
          else Ret (Ok live, MkOutcome id true [] false None None (MkSummary 0 0 0 0) false)
      end
  end.

(** [complete]: no capability nor the context is nil, and the clean-up limit is positive. *)
Definition validate_run (complete : bool) (source : option SourceRoot) (r : TransferRequest) : option error :=
  if negb complete then Some (ErrText "transfer directory requires complete capabilities and context")
  else
    match source with
    | None => Some (ErrText "transfer directory requires an open source directory")
    | Some source =>
        if bool_decide (source_BaseName source = "") || bool_decide (source_StableRoot source = "")
        then Some (ErrText "transfer directory requires an open source directory")
        else if negb (bool_decide (source_BaseName source = sourceName r))
        then Some (ErrText "transfer source capability does not match the requested source name")
        else validateSelectedNetworks (selectedNetworks r)
    end.

(** [RecoverStale] offers stale runs to a callback, one after the other. *)
Definition RecoverStale (recoverRun : StaleRun -> flow (option error)) : flow (option error) :=
  ITree.iter (fun _ : unit =>
    do! offer := call RecoverNext in
    match offer with
    | NoStale => Ret (inr None)
    | RecoveryFailed e => Ret (inr (Some e))
    | Offered run =>
        do! err := recoverRun run in
        do! released := call (RecoverReturned run err) in
        match released with
        | Some e => Ret (inr (Some e))
        | None => Ret (inl tt)
        end
    end) tt.

Definition recover_run (stale : StaleRun) : flow (option error) :=
  let run := "recover run " +:+ IDString (stale_ID stale) in
  do! networkErr := call (NetworkRecover stale) in
  do! viewErr := call (ViewsRecover stale) in
  Ret (errors_Join [wrap_error (run +:+ " host network") networkErr; wrap_error (run +:+ " file views") viewErr]).

Definition recoverOldRuns : flow (option error) := RecoverStale recover_run.

(** The two readers run concurrently and change nothing; their order does not
    matter. *)
Definition readOnlyFacts (r : TransferRequest) : flow (result (gmap Number Egress) * SourceSnapshot * bool) :=
  let selected := selectedNetworks r in
  do! egresses := resolve_egresses selected in
  do! ' (snapshot, sourceErr) := call (Scan (tr_followSymlinks r)) in
  let captured := negb (bool_decide (snapshot_BaseName snapshot = "")) in
  match errors_Join [match egresses with Err e => Some e | Ok _ => None end; sourceErr] with
  | Some e => Ret (Err (ErrWrap "prepare transfer facts" e), snapshot, captured)
  | None =>
      match validateEgressSet selected (ok_or ∅ egresses) with
      | Some e => Ret (Err e, snapshot, true)
      | None => Ret (Ok (ok_or ∅ egresses), snapshot, true)
      end
  end.

Definition Run (complete : bool) (source : option SourceRoot) (r : TransferRequest) : flow (Outcome * option delayed) :=
  match validate_run complete source r, source with
  | Some e, _ => Ret (failed e, None)
  | None, None => panic
  | None, Some source =>
      do! recoverErr := recoverOldRuns in
      match recoverErr with
      | Some e => Ret (failed (ErrWrap "recover stale runs" e), None)
      | None =>
          do! preflightErr := call ViewsPreflight in
          match preflightErr with
          | Some e => Ret (failed (ErrWrap "preflight file views" e), None)
          | None =>
              do! ' (facts, snapshot, captured) := readOnlyFacts r in
              match facts with
              | Err e => Ret (resultWithSourceSummary (failed e) snapshot captured, None)
              | Ok egresses =>
                  do! ' (created, o) := createLiveRun in
                  let o := resultWithSourceSummary o snapshot true in
                  match created with
                  | Err _ => Ret (o, None)
                  | Ok live =>
                      do! opened := call (NetworkOpen live egresses) in
                      match opened with
                      | Err e =>
                          do! cleanupErr := cleanupRoot live in
                          Ret (with_errors o (Some (ErrWrap "open host network" e)) cleanupErr, None)
                      | Ok network => executeWithNetwork source r egresses snapshot live network o
                      end
                  end
              end
          end
      end
  end.

(** [Run] and the goroutine it may leave behind; what is left of [Run] after
    the goroutine starts only reads the diagnostics of the resolvers. *)
Definition run_to_the_end (complete : bool) (source : option SourceRoot) (r : TransferRequest) : flow Outcome :=
  do! ' (o, later) := Run complete source r in
  do! done := finish later in
  Ret o.
End Flow.
