(* ===== verification/TransferLedger.v ===== *)
(** * What a transfer owns, and when it lets go

    The ledger of the owners a run has acquired, the rules of their interfaces
    over it, and the proof that the clean-up of [transfer/cleanup.go] keeps them
    from whatever a run holds: resolvers before the network, leases before the
    views, the run root last, and a goroutine in charge of what could not be
    closed yet. *)
From ITree Require Import ITree.
From S2P Require Import Prelude GoText Paths Netip TransferNumber RunId SourceTree Allocation Catalog Resolve Weights Settings.
From S2P Require Import TransferStart TransferRequest Effects Commands Transfer.

(** ** The ledger *)
Inductive owned : Type :=
  | Absent
  | Open (handle : nat)
  | Closed (handle : nat).

Inductive liveness : Type :=
  | NoRun
  | Held (live : LiveRun)
  (* completing it failed, and it is still to be closed *)
  | Kept (live : LiveRun)
  | Retained (live : LiveRun)
  | Completed
  | LeftStale.

Record Ledger : Type := MkLedger {
  lg_offered : option StaleRun;
  lg_live : liveness;
  lg_network : owned;
  lg_resolvers : owned;
  lg_accesses : gmap Number ResolverAccess;
  lg_views : owned;
  lg_leases : gset nat;
  (* a group of processes that may still run *)
  lg_processes : option Processes;
  (* an owner reported that it could not let go *)
  lg_faulty : bool;
  (* the signal that releases a retained liveness *)
  lg_signalled : bool
}.

Definition idle : Ledger := MkLedger None NoRun Absent Absent ∅ Absent ∅ None false false.

Definition not_open (o : owned) : Prop := match o with Open _ => False | _ => True end.

(** Nothing is left but the run root. *)
Definition all_released (s : Ledger) : Prop :=
  not_open (lg_network s) /\ not_open (lg_resolvers s) /\ not_open (lg_views s) /\ lg_leases s = ∅ /\ lg_processes s = None.

Section Rules.
Context `{URLs} {request : TransferRequest}.

(** The command is the request's, for this selection, in an open view of it. *)
Definition command_fits (s : Ledger) (selection : selectedNetwork) (command : Command) : Prop :=
  cmd_transfer command = sn_transfer selection
  /\ cmd_environment command = tr_environment request
  /\ (exists access, cmd_resolver command = Some access /\ lg_accesses s !! sn_transfer selection = Some access)
  /\ exists view,
       cmd_view command = Some view /\ view_lease view ∈ lg_leases s /\ view_TransferNumber view = sn_transfer selection
       /\ view_path view = Ok (cmd_cwd command)
       /\ replaceViewArgument (tr_argv request) (cmd_cwd command) = Ok (cmd_argv command).

Definition commands_fit (s : Ledger) (commands : list Command) : Prop :=
  Forall2 (command_fits s) (selectedNetworks request) commands.

Definition may_start (s : Ledger) (network : HostSession) (commands : list Command) (mode : bool) : Prop :=
  lg_network s = Open network /\ lg_processes s = None /\ commands_fit s commands
  /\ (tr_commandIO request =? InteractiveCommandIO) = mode.

(** When a call may be made: what the interfaces of the package ask for. *)
Definition allowed {X} (e : FlowE X) (s : Ledger) : Prop :=
  match e with
  | NewRunID | RecoverNext | Capture | Scan _ | ViewsPreflight => lg_live s = NoRun /\ lg_offered s = None
  | RootsCreate _ => lg_live s = NoRun
  | RecoverReturned run _ | NetworkRecover run | ViewsRecover run => lg_offered s = Some run
  | LiveComplete live => lg_live s = Held live /\ all_released s
  | LiveClose live => lg_live s = Kept live
  | RetainLiveness live => lg_live s = Held live
  | CloseCleanupDone => (exists live, lg_live s = Retained live) /\ all_released s /\ lg_signalled s = false
  | NetworkOpen live egresses =>
      lg_live s = Held live /\ lg_network s = Absent /\ validateEgressSet (selectedNetworks request) egresses = None
  | NetworkClose network => lg_network s = Open network /\ not_open (lg_resolvers s) /\ lg_processes s = None
  | ResolversOpen network transfers intent =>
      lg_network s = Open network /\ lg_resolvers s = Absent
      /\ transfers = sn_transfer <$> selectedNetworks request /\ intent = tr_resolver request
  | ResolversAccess resolvers _ => lg_resolvers s = Open resolvers
  | AccessOpen access => (exists resolvers, lg_resolvers s = Open resolvers) /\ exists n, lg_accesses s !! n = Some access
  | ResolversDiagnostic resolvers => lg_resolvers s = Open resolvers \/ lg_resolvers s = Closed resolvers
  | ResolversClose resolvers => lg_resolvers s = Open resolvers /\ lg_processes s = None
  | ViewsOpen live _ => lg_live s = Held live /\ lg_views s = Absent
  | OpenView views _ => lg_views s = Open views
  | LeaseClose lease => view_lease lease ∈ lg_leases s /\ lg_processes s = None
  | ViewsClose views => lg_views s = Open views /\ lg_leases s = ∅ /\ lg_processes s = None
  | ObserveNamespaces network targets settings =>
      lg_network s = Open network /\ lg_processes s = None /\ settings = tr_settings request
      /\ Forall2 (fun selection target => target.1 = sn_transfer selection
                                          /\ lg_accesses s !! sn_transfer selection = Some target.2)
           (selectedNetworks request) targets
  | StartInteractive network commands terminal => may_start s network commands true /\ terminal = tr_terminal request
  | StartPlain network commands => may_start s network commands false
  | Wait processes | FinishStartFailure processes | ConfirmContainment processes | ContainmentDone processes
  | AwaitContainment processes => lg_processes s = Some processes
  | ContextCause => True
  | NilDereference => False
  end.

(** What the interfaces promise: a nil value comes with an error, a lease is
    fresh, views that did not stop say why, and recovery ends at an error. *)
Definition promised {X} (e : FlowE X) : X -> Ledger -> Prop :=
  match e in FlowE X return X -> Ledger -> Prop with
  | RecoverReturned _ err => fun answer _ => err <> None -> answer <> None
  | ViewsOpen _ _ => fun answer _ => answer <> (None, None)
  | StartInteractive _ _ _ | StartPlain _ _ => fun answer _ => answer <> (None, None)
  | ViewsClose _ => fun answer _ => answer <> (false, None)
  | OpenView _ _ => fun answer s => match answer with Ok view => view_lease view ∉ lg_leases s | Err _ => True end
  | _ => fun _ _ => True
  end.

Definition set_offered (o : option StaleRun) (s : Ledger) : Ledger :=
  MkLedger o (lg_live s) (lg_network s) (lg_resolvers s) (lg_accesses s) (lg_views s) (lg_leases s) (lg_processes s)
    (lg_faulty s) (lg_signalled s).
Definition set_live (l : liveness) (s : Ledger) : Ledger :=
  MkLedger (lg_offered s) l (lg_network s) (lg_resolvers s) (lg_accesses s) (lg_views s) (lg_leases s) (lg_processes s)
    (lg_faulty s) (lg_signalled s).
Definition set_network (o : owned) (s : Ledger) : Ledger :=
  MkLedger (lg_offered s) (lg_live s) o (lg_resolvers s) (lg_accesses s) (lg_views s) (lg_leases s) (lg_processes s)
    (lg_faulty s) (lg_signalled s).
Definition set_resolvers (o : owned) (s : Ledger) : Ledger :=
  MkLedger (lg_offered s) (lg_live s) (lg_network s) o (lg_accesses s) (lg_views s) (lg_leases s) (lg_processes s)
    (lg_faulty s) (lg_signalled s).
Definition add_access (n : Number) (a : ResolverAccess) (s : Ledger) : Ledger :=
  MkLedger (lg_offered s) (lg_live s) (lg_network s) (lg_resolvers s) (<[ n := a ]> (lg_accesses s)) (lg_views s)
    (lg_leases s) (lg_processes s) (lg_faulty s) (lg_signalled s).
Definition set_views (o : owned) (s : Ledger) : Ledger :=
  MkLedger (lg_offered s) (lg_live s) (lg_network s) (lg_resolvers s) (lg_accesses s) o (lg_leases s) (lg_processes s)
    (lg_faulty s) (lg_signalled s).
Definition set_leases (l : gset nat) (s : Ledger) : Ledger :=
  MkLedger (lg_offered s) (lg_live s) (lg_network s) (lg_resolvers s) (lg_accesses s) (lg_views s) l (lg_processes s)
    (lg_faulty s) (lg_signalled s).
Definition set_processes (p : option Processes) (s : Ledger) : Ledger :=
  MkLedger (lg_offered s) (lg_live s) (lg_network s) (lg_resolvers s) (lg_accesses s) (lg_views s) (lg_leases s) p
    (lg_faulty s) (lg_signalled s).
Definition fault (bad : bool) (s : Ledger) : Ledger :=
  MkLedger (lg_offered s) (lg_live s) (lg_network s) (lg_resolvers s) (lg_accesses s) (lg_views s) (lg_leases s)
    (lg_processes s) (lg_faulty s || bad) (lg_signalled s).
Definition signal (s : Ledger) : Ledger :=
  MkLedger (lg_offered s) (lg_live s) (lg_network s) (lg_resolvers s) (lg_accesses s) (lg_views s) (lg_leases s)
    (lg_processes s) (lg_faulty s) true.

Definition failed_with {A} (err : option A) : bool := match err with Some _ => true | None => false end.

Definition started (answer : option Processes * option error) (s : Ledger) : Ledger :=
  match answer.1 with Some p => set_processes (Some p) s | None => s end.

Definition recorded {X} (e : FlowE X) : X -> Ledger -> Ledger :=
  match e in FlowE X return X -> Ledger -> Ledger with
  | RecoverNext => fun answer => match answer with Offered run => set_offered (Some run) | _ => id end
  | RecoverReturned _ _ => fun _ => set_offered None
  | RootsCreate _ => fun answer => match answer with Ok live => set_live (Held live) | Err _ => id end
  | LiveComplete live => fun err => match err with None => set_live Completed | Some _ => fun s => fault true (set_live (Kept live) s) end
  | LiveClose _ => fun err s => fault (failed_with err) (set_live LeftStale s)
  | RetainLiveness live => fun err => match err with None => set_live (Retained live) | Some _ => fault true end
  | CloseCleanupDone => fun _ => signal
  | NetworkOpen _ _ => fun answer => match answer with Ok network => set_network (Open network) | Err _ => id end
  | NetworkClose network => fun err s => fault (failed_with err) (set_network (Closed network) s)
  | ResolversOpen _ _ _ => fun answer => match answer with Ok resolvers => set_resolvers (Open resolvers) | Err _ => id end
  | ResolversAccess _ n => fun answer => match answer with Ok access => add_access n access | Err _ => id end
  | ResolversClose resolvers => fun '(stopped, err) s =>
      fault (negb stopped || failed_with err) (if stopped then set_resolvers (Closed resolvers) s else s)
  | ViewsOpen _ _ => fun '(views, _) => match views with Some views => set_views (Open views) | None => id end
  | OpenView _ _ => fun answer s =>
      match answer with Ok view => set_leases ({[ view_lease view ]} ∪ lg_leases s) s | Err _ => s end
  | LeaseClose lease => fun err s => fault (failed_with err) (set_leases (lg_leases s ∖ {[ view_lease lease ]}) s)
  | ViewsClose views => fun '(stopped, err) s =>
      fault (negb stopped || failed_with err) (if stopped then set_views (Closed views) s else s)
  | ObserveNamespaces _ _ _ => fun answer =>
      match answer with NotObserved _ (Some p) => set_processes (Some p) | _ => id end
  | StartInteractive _ _ _ => started
  | StartPlain _ _ => started
  | ContainmentDone _ => fun confirmed => if confirmed : bool then set_processes None else id
  | AwaitContainment _ => fun _ => set_processes None
  | _ => fun _ s => s
  end.

#[export] Instance flow_world : World FlowE Ledger := {
  may_call := @allowed;
  may_answer := @promised;
  after_call := @recorded;
  holds := fun _ => True
}.

Abbreviation spec s t Q := (@triple FlowE Ledger flow_world _ s t Q).

(** ** Small steps *)
Lemma spec_call {X A} (e : FlowE X) (k : X -> itree FlowE A) s Q :
  allowed e s -> (forall x, promised e x s -> spec (recorded e x s) (k x) Q) -> spec s (do! x := call e in k x) Q.
Proof.
  intros Hc Hk. eapply triple_bind; [apply triple_call with (Q := fun x s' => promised e x s /\ s' = recorded e x s)|].
  - done.
  - intros x Hx. by split; [|split].
  - intros x s' [Hx ->]. by apply Hk.
Qed.

Lemma spec_then {A B} s (t : itree FlowE A) (k : A -> itree FlowE B) R Q :
  spec s t R -> (forall a s', R a s' -> spec s' (k a) Q) -> spec s (ITree.bind t k) Q.
Proof. apply triple_bind. Qed.

Lemma spec_done {A} s (a : A) Q : Q a s -> spec s (Ret a) Q.
Proof. apply triple_ret. Qed.

Lemma failed_with_wrap context err : failed_with (wrap_error context err) = failed_with err.
Proof. by destruct err. Qed.

Lemma failed_with_Join2 a b : failed_with (errors_Join [a; b]) = failed_with a || failed_with b.
Proof. by destruct a, b. Qed.

Lemma failed_with_Join es : failed_with (errors_Join es) = existsb failed_with es.
Proof.
  destruct (existsb failed_with es) eqn:Ex.
  - destruct (errors_Join es) eqn:E; [done|]. apply errors_Join_None in E.
    rewrite (existsb_false failed_with es) in Ex; [done|]. by eapply Forall_impl; [exact E|]; intros ? ->.
  - destruct (errors_Join es) eqn:E; [|done]. exfalso. assert (errors_Join es = None) as ?; [|congruence].
    apply errors_Join_None. apply existsb_Forall in Ex. eapply Forall_impl; [exact Ex|]. by intros [].
Qed.

Lemma failed_with_false {A} (err : option A) : failed_with err = false <-> err = None.
Proof. by destruct err. Qed.

Lemma fault_fault a b s : fault a (fault b s) = fault (b || a) s.
Proof. unfold fault. cbn. by rewrite orb_assoc. Qed.

Lemma fault_false s : fault false s = s.
Proof. destruct s. unfold fault. cbn. by rewrite orb_false_r. Qed.

(** ** Closing *)
Definition views_are (views : option FileViewSet) (s : Ledger) : Prop :=
  match views with Some v => lg_views s = Open v | None => not_open (lg_views s) end.
Definition close_views (views : option FileViewSet) (s : Ledger) : Ledger :=
  match views with Some v => set_views (Closed v) s | None => s end.
Definition leases_are (leases : list ViewAccess) (s : Ledger) : Prop :=
  NoDup (view_lease <$> leases) /\ lg_leases s = list_to_set (view_lease <$> leases).

Lemma closeNetwork_spec s network :
  lg_network s = Open network -> not_open (lg_resolvers s) -> lg_processes s = None ->
  spec s (closeNetwork network) (fun err s' => s' = fault (failed_with err) (set_network (Closed network) s)).
Proof.
  intros Hn Hr Hp. apply spec_call; [done|]. intros err _. apply spec_done. cbn. by rewrite failed_with_wrap.
Qed.

Lemma closeResolverChain_spec s network resolvers :
  lg_network s = Open network -> lg_resolvers s = Open resolvers -> lg_processes s = None ->
  spec s (closeResolverChain network resolvers) (fun '(stopped, err) s' =>
    if stopped : bool
    then s' = fault (failed_with err) (set_network (Closed network) (set_resolvers (Closed resolvers) s))
    else s' = fault true s /\ failed_with err = true).
Proof.
  intros Hn Hr Hp. apply spec_call; [done|]. intros [stopped err] _. destruct stopped; cbn -[fault set_network set_resolvers].
  - eapply spec_then; [by apply closeNetwork_spec|]. intros closeErr s' ->. apply spec_done.
    rewrite failed_with_Join2. unfold fault. cbn. by rewrite orb_assoc.
  - apply spec_done. by split.
Qed.

Lemma close_leases_spec leases s :
  leases_are leases s -> lg_processes s = None ->
  spec s (close_leases leases) (fun errs s' => s' = fault (existsb failed_with errs) (set_leases ∅ s)).
Proof.
  revert s. induction leases as [|l leases IH]; intros s [Hnd Hl] Hp; cbn -[fault].
  - apply spec_done. destruct s. cbn in *. subst. unfold fault, set_leases. cbn. by rewrite orb_false_r.
  - apply NoDup_cons in Hnd as [Hnot Hnd]. apply spec_call; [split; [rewrite Hl; set_solver|done]|]. intros err _.
    eapply spec_then; [apply IH; [split; [done|]|done]|].
    { cbn. rewrite Hl. cbn. apply leibniz_equiv. set_unfold. set_solver. }
    intros errs s' ->. apply spec_done. unfold fault, set_leases. cbn. by rewrite orb_assoc.
Qed.

Lemma closeViewLeases_spec leases s :
  leases_are leases s -> lg_processes s = None ->
  spec s (closeViewLeases leases) (fun err s' => s' = fault (failed_with err) (set_leases ∅ s)).
Proof.
  intros Hl Hp. eapply spec_then; [by apply close_leases_spec|]. intros errs s' ->. apply spec_done.
  by rewrite failed_with_Join.
Qed.

Lemma closeFileViewChain_spec views leases s :
  views_are views s -> leases_are leases s -> lg_processes s = None ->
  spec s (closeFileViewChain views leases) (fun '(stopped, err) s' =>
    if stopped : bool then s' = fault (failed_with err) (close_views views (set_leases ∅ s))
    else s' = fault true (set_leases ∅ s) /\ failed_with err = true /\ views_are views s').
Proof.
  intros Hv Hl Hp. eapply spec_then; [by apply closeViewLeases_spec|]. intros leaseErr s' ->. destruct views as [v|].
  - apply spec_call; [done|]. intros [stopped err] Hx. apply spec_done. rewrite failed_with_Join2, failed_with_wrap.
    destruct stopped; cbn.
    + unfold fault. cbn. by rewrite orb_assoc.
    + destruct err; [|by destruct Hx]. rewrite orb_true_r. split; [|done]. unfold fault. cbn. by rewrite !orb_true_r.
  - apply spec_done. done.
Qed.

Lemma completeRun_spec s live :
  lg_live s = Held live -> all_released s ->
  spec s (completeRun live) (fun err s' =>
    match err with None => s' = set_live Completed s | Some _ => s' = fault true (set_live LeftStale s) end).
Proof.
  intros Hl Hr. apply spec_call; [done|]. intros [e|] _; [|by apply spec_done]. apply spec_call; [done|].
  intros closeErr _. apply spec_done. destruct (errors_Join _) eqn:E; [|by destruct closeErr].
  cbn. unfold fault. cbn. by rewrite !orb_true_r.
Qed.

(** ** Letting go of everything *)
(** The owners a clean-up is handed, all still held. *)
Definition holding (live : LiveRun) (network : HostSession) (resolvers : ResolverGroup) (views : option FileViewSet)
    (leases : list ViewAccess) (s : Ledger) : Prop :=
  lg_live s = Held live /\ lg_network s = Open network /\ lg_resolvers s = Open resolvers /\ views_are views s
  /\ leases_are leases s /\ lg_faulty s = false /\ lg_signalled s = false.

(** What a goroutine that finishes the clean-up finds. *)
Definition waits (later : delayed) (s : Ledger) : Prop :=
  (exists live, lg_live s = Retained live) /\ lg_signalled s = false /\
  match later with
  | AfterContainment network resolvers views leases processes =>
      lg_network s = Open network /\ lg_resolvers s = Open resolvers /\ views_are views s /\ leases_are leases s
      /\ lg_processes s = Some processes
  | RetryClosing network resolvers views resolverStopped viewsStopped =>
      lg_processes s = None /\ lg_leases s = ∅
      /\ (if resolverStopped : bool then not_open (lg_network s) /\ not_open (lg_resolvers s)
          else lg_network s = Open network /\ lg_resolvers s = Open resolvers)
      /\ (if viewsStopped : bool then not_open (lg_views s) else views_are views s)
  end.

(** How a run ends: released, left to a goroutine, or, when not even that
    worked, held and reported. *)
Definition settled (resolvers : ResolverGroup) (err : option error) (later : option delayed) (s : Ledger) : Prop :=
  (err = None -> later = None /\ lg_live s = Completed /\ lg_faulty s = false)
  /\ match later with
     | Some later => waits later s
     | None =>
         lg_signalled s = false
         /\ ((all_released s /\ (lg_live s = Completed \/ lg_live s = LeftStale))
             \/ (exists live, lg_live s = Held live) /\ err <> None)
     end
  /\ (lg_resolvers s = Open resolvers \/ lg_resolvers s = Closed resolvers).

Lemma not_open_views views s : views_are views s -> not_open (lg_views (close_views views s)).
Proof. destruct views; done. Qed.

(** The two chains, whatever each of them reports. *)
Definition closing (live : LiveRun) (network : HostSession) (resolvers : ResolverGroup) (views : option FileViewSet)
    (resolverStopped viewsStopped : bool) (err : option error) (s : Ledger) : Prop :=
  lg_live s = Held live /\ lg_signalled s = false /\ lg_processes s = None /\ lg_leases s = ∅
  /\ (if resolverStopped then lg_network s = Closed network /\ lg_resolvers s = Closed resolvers
      else lg_network s = Open network /\ lg_resolvers s = Open resolvers)
  /\ (if viewsStopped then not_open (lg_views s) else views_are views s)
  /\ (lg_faulty s = true -> err <> None) /\ (resolverStopped && viewsStopped = false -> err <> None).

Lemma close_owners_spec {A} s live network resolvers views leases (k : bool -> option error -> bool -> option error -> itree FlowE A) Q :
  holding live network resolvers views leases s -> lg_processes s = None ->
  (forall rs re vs ve s', closing live network resolvers views rs vs (errors_Join [re; ve]) s' -> spec s' (k rs re vs ve) Q) ->
  spec s (do! ' (resolverStopped, resolverErr) := closeResolverChain network resolvers in
          do! ' (viewsStopped, viewErr) := closeFileViewChain views leases in
          k resolverStopped resolverErr viewsStopped viewErr) Q.
Proof.
  intros (Hl & Hn & Hr & Hv & Hs & Hf & Hg) Hp Hk. eapply spec_then; [by apply closeResolverChain_spec|].
  intros [rs re] s1 H1.
  assert (lg_live s1 = Held live /\ lg_signalled s1 = false /\ lg_processes s1 = None /\ views_are views s1
          /\ leases_are leases s1 /\ lg_faulty s1 = failed_with re /\ (rs = false -> re <> None)
          /\ if rs then lg_network s1 = Closed network /\ lg_resolvers s1 = Closed resolvers
             else lg_network s1 = Open network /\ lg_resolvers s1 = Open resolvers)
    as (Hl1 & Hg1 & Hp1 & Hv1 & Hs1 & Hf1 & Hre & Hrs).
  { destruct rs; [subst s1|destruct H1 as [-> Hre]]; cbn; rewrite Hf; split_and!; try done.
    by intros _ ->. }
  eapply spec_then; [by apply closeFileViewChain_spec|]. intros [vs ve] s2 H2. apply Hk. clear Hk.
  assert (lg_faulty s2 = failed_with re || failed_with ve /\ (vs = false -> ve <> None)
          /\ if vs then not_open (lg_views s2) else views_are views s2) as (Hf2 & Hve & Hvs).
  { destruct vs; [subst s2|destruct H2 as (-> & Hve & ?)]; cbn.
    - split_and!; [destruct views; by rewrite <- Hf1|done|]. by apply (not_open_views views).
    - split_and!; [by rewrite Hf1, Hve|intros _ ->; done|done]. }
  assert (Herr : failed_with (errors_Join [re; ve]) = lg_faulty s2) by (by rewrite failed_with_Join2, Hf2).
  unfold closing. split_and!; try done.
  1-4: destruct vs; [subst s2; by destruct views|by destruct H2 as [-> _]].
  - destruct rs, vs; [subst s2; by destruct views|by destruct H2 as [-> _]|subst s2; by destruct views|by destruct H2 as [-> _]].
  - intros Hf' E. rewrite <- Herr, E in Hf'. done.
  - intros Hb E. rewrite E in Herr. cbn in Herr. rewrite Hf2 in Herr. symmetry in Herr.
    apply orb_false_iff in Herr as [?%failed_with_false ?%failed_with_false]. destruct rs, vs; try done; tauto.
Qed.

Lemma cleanupContainedOwners_spec s live network resolvers views leases :
  holding live network resolvers views leases s -> lg_processes s = None ->
  spec s (cleanupContainedOwners live network resolvers views leases) (fun '(err, later) s' => settled resolvers err later s').
Proof.
  intros Hh Hp. apply (close_owners_spec _ live); [done..|]. clear s Hh Hp.
  intros rs re vs ve s (Hl & Hg & Hp & Hs & Hr & Hv & Hf & Hstop).
  assert (Hend : lg_resolvers s = Open resolvers \/ lg_resolvers s = Closed resolvers)
    by (destruct rs; destruct Hr as [_ ?]; auto).
  destruct (negb rs || negb vs) eqn:Estop.
  - assert (Herr : errors_Join [re; ve] <> None) by (apply Hstop; by destruct rs, vs).
    destruct (errors_Join [re; ve]) as [owner|] eqn:Eowner; [|done].
    unfold retainClosingOwners. eapply spec_then with (R := fun '(e, later) s' =>
      match e with
      | Some _ => later = None /\ s' = fault true s
      | None => later = Some (RetryClosing network resolvers views rs vs) /\ s' = set_live (Retained live) s
      end).
    { apply spec_call; [done|]. by intros [e|] _; apply spec_done. }
    intros [[e|] later] s' [-> ->]; apply spec_done; (split; [done|]); (split; [|done]).
    + split; [done|]. right. by split; [exists live|].
    + split; [by exists live|]. split_and!; try done. cbn. destruct rs; destruct Hr as [Hn Hr]; by rewrite Hn, Hr.
  - destruct rs, vs; try done. destruct Hr as [Hn Hr]. eapply spec_then; [apply (completeRun_spec _ live Hl)|].
    { unfold all_released. by rewrite Hn, Hr. }
    assert (Hrel : all_released s) by (unfold all_released; by rewrite Hn, Hr).
    intros [e|] s' ->; apply spec_done; unfold settled.
    + split; [intros He; by destruct (errors_Join [re; ve])|]. split; [|done]. split; [done|]. left. by split; [|right].
    + split; [|split; [|done]].
      * intros He. split_and!; [done..|]. cbn. destruct (lg_faulty s); [|done].
        assert (errors_Join [re; ve] <> None) as ? by auto. by destruct (errors_Join [re; ve]).
      * split; [done|]. left. by split; [|left].
Qed.

Lemma retainUntilProcessContainment_spec s live network resolvers views leases processes evidence :
  holding live network resolvers views leases s -> lg_processes s = Some processes ->
  spec s (retainUntilProcessContainment live network resolvers views leases processes evidence)
    (fun '(err, later) s' => settled resolvers err later s').
Proof.
  intros (Hl & Hn & Hr & Hv & Hs & Hf & Hg) Hp. apply spec_call; [done|]. intros [e|] _; apply spec_done; (split; [done|]).
  - split; [|by left]. split; [done|]. right. by split; [exists live|].
  - split; [|by left]. split; [by exists live|]. by split_and!.
Qed.

Lemma holding_contained s live network resolvers views leases :
  holding live network resolvers views leases s -> holding live network resolvers views leases (set_processes None s).
Proof. by intros ?. Qed.

(** The common end of both clean-ups: [confirmed] decides. *)
Lemma after_containment_spec s live network resolvers views leases processes evidence :
  holding live network resolvers views leases s -> lg_processes s = Some processes ->
  spec s (do! confirmed := containmentConfirmed processes in
          if negb confirmed then retainUntilProcessContainment live network resolvers views leases processes evidence
          else cleanupContainedOwners live network resolvers views leases)
    (fun '(err, later) s' => settled resolvers err later s').
Proof.
  intros Hh Hp. apply spec_call; [done|]. intros [] _; cbn [negb].
  - apply (cleanupContainedOwners_spec _ live); [by apply holding_contained|done].
  - by apply (retainUntilProcessContainment_spec _ live).
Qed.

Lemma cleanupObservedProcesses_spec s live network resolvers views leases processes :
  holding live network resolvers views leases s -> lg_processes s = Some processes ->
  spec s (cleanupObservedProcesses live network resolvers views leases processes)
    (fun '(err, later) s' => settled resolvers err later s').
Proof. intros Hh Hp. apply spec_call; [done|]. intros err _. by apply (after_containment_spec _ live). Qed.

Lemma stopStartupProcesses_spec s live network resolvers views leases processes :
  holding live network resolvers views leases s -> lg_processes s = Some processes ->
  spec s (stopStartupProcesses live network resolvers views leases processes)
    (fun '(_, (err, later)) s' => settled resolvers err later s').
Proof.
  intros Hh Hp. apply spec_call; [done|]. intros finished _.
  apply spec_call; [done|]. intros confirmed _.
  eapply spec_then with (R := fun '(err, later) s' => settled resolvers err later s'); [|intros [err later] s' ?; by apply spec_done].
  destruct confirmed; cbn [negb].
  - apply (cleanupContainedOwners_spec _ live); [by apply holding_contained|done].
  - by apply (retainUntilProcessContainment_spec _ live).
Qed.

(** ** The goroutines *)
Definition finished (s : Ledger) : Prop :=
  (exists live, lg_live s = Retained live) /\ (lg_signalled s = true -> all_released s).

Lemma signal_spec (b : bool) s :
  (exists live, lg_live s = Retained live) -> lg_signalled s = false -> (b = true -> all_released s) ->
  spec s (if b then call CloseCleanupDone else Ret tt) (fun _ s' => finished s').
Proof.
  intros Hl Hg Hb. destruct b; [|apply spec_done; split; [done|by rewrite Hg]].
  apply triple_call; [by split_and!; auto|]. intros [] _. split; [done|]. split; [done|]. intros _. by apply Hb.
Qed.

Lemma closeAfterDelayedContainment_spec s network resolvers views leases processes :
  waits (AfterContainment network resolvers views leases processes) s ->
  spec s (closeAfterDelayedContainment network resolvers views leases processes)
    (fun _ s' => finished s').
Proof.
  intros (Hl & Hg & Hn & Hr & Hv & Hs & Hp). apply spec_call; [done|]. intros [] _.
  eapply spec_then; [by apply closeResolverChain_spec|]. intros [rs re] s1 H1.
  assert (exists f, (rs = true /\ s1 = fault f (set_network (Closed network) (set_resolvers (Closed resolvers) (set_processes None s)))) \/
                    (rs = false /\ s1 = fault f (set_processes None s))) as (f & Hs1)
    by (destruct rs; [by eexists; left|destruct H1 as [-> _]; by eexists; right]).
  clear H1. eapply spec_then; [apply closeFileViewChain_spec with (s := s1); destruct Hs1 as [[_ ->]|[_ ->]]; done|].
  intros [vs ve] s2 H2. apply signal_spec.
  - destruct Hl as [live Hl]. exists live.
    destruct vs; [subst s2; destruct views|destruct H2 as (-> & _ & _)]; by destruct Hs1 as [[_ ->]|[_ ->]].
  - destruct vs; [subst s2; destruct views|destruct H2 as (-> & _ & _)]; by destruct Hs1 as [[_ ->]|[_ ->]].
  - intros [-> ->]%andb_true_iff. subst s2. destruct Hs1 as [[_ ->]|[? _]]; [|done].
    by split_and!; destruct views.
Qed.

Lemma retry_closing_spec s network resolvers views rs vs :
  waits (RetryClosing network resolvers views rs vs) s ->
  spec s (retry_closing network resolvers views rs vs) (fun _ s' => finished s').
Proof.
  intros ([live Hl] & Hg & Hp & Hs & Hr & Hv).
  eapply spec_then with (R := fun (rs' : bool) s' =>
    lg_live s' = Retained live /\ lg_signalled s' = false /\ lg_processes s' = None /\ lg_leases s' = ∅
    /\ lg_views s' = lg_views s /\ (rs' = true -> not_open (lg_network s') /\ not_open (lg_resolvers s'))).
  { destruct rs; cbn [negb]; [by apply spec_done|]. destruct Hr as [Hn Hr].
    eapply spec_then; [by apply closeResolverChain_spec|]. intros [stopped err] s' H'. apply spec_done.
    destruct stopped; [subst s'|destruct H' as [-> _]]; done. }
  intros rs' s1 (Hl1 & Hg1 & Hp1 & Hs1 & Hv1 & Hr1).
  eapply spec_then with (R := fun (vs' : bool) s' =>
    lg_live s' = Retained live /\ lg_signalled s' = false /\ lg_processes s' = None /\ lg_leases s' = ∅
    /\ (rs' = true -> not_open (lg_network s') /\ not_open (lg_resolvers s')) /\ (vs' = true -> not_open (lg_views s'))).
  { destruct vs; cbn [negb]; [apply spec_done; rewrite Hv1; by split_and!|].
    eapply spec_then; [apply closeFileViewChain_spec|].
    - unfold views_are. by rewrite Hv1.
    - split; [by apply NoDup_nil_2|done].
    - done.
    - intros [stopped err] s' H'. apply spec_done. destruct stopped; [|by destruct H' as (-> & _ & _)].
      subst s'. destruct views; cbn in *; rewrite ?Hv1; by split_and!. }
  intros vs' s2 (Hl2 & Hg2 & Hp2 & Hs2 & Hr2 & Hv2). apply signal_spec; [by exists live|done|].
  intros [[H1 H2]%Hr2 ?%Hv2]%andb_true_iff. by split_and!.
Qed.

Lemma finish_spec s later : waits later s -> spec s (finish (Some later)) (fun _ s' => finished s').
Proof. destruct later; intros Hw; [by apply closeAfterDelayedContainment_spec|by apply retry_closing_spec]. Qed.
End Rules.
Arguments allowed {_} request {X} e s.
Arguments command_fits {_} request s selection command.
Arguments commands_fit {_} request s commands.
Arguments flow_world {_} request.
