(* ===== verification/TransferProofs.v ===== *)
(** * Every path of a transfer

    [Run] and the goroutine it may leave behind keep the rules of the owners on
    every path, a transfer without a clean-up error has released everything, and
    one without any error reports every selected transfer. *)
From ITree Require Import ITree.
From S2P Require Import Prelude GoText Paths Netip TransferNumber RunId SourceTree Allocation Catalog Resolve Weights Settings.
From S2P Require Import TransferStart TransferRequest Effects Commands Transfer TransferLedger.
From S2P Require AllocationProofs ResolveProofs TransferStartProofs.

Section Stages.
Context `{URLs} (request : TransferRequest).

Abbreviation spec s t Q := (@triple FlowE Ledger (flow_world request) _ s t Q).

(** ** Preparing the commands *)
Definition set_accesses (m : gmap Number ResolverAccess) (s : Ledger) : Ledger :=
  MkLedger (lg_offered s) (lg_live s) (lg_network s) (lg_resolvers s) m (lg_views s) (lg_leases s) (lg_processes s)
    (lg_faulty s) (lg_signalled s).

Definition execution_fits (handles : list nat) (selection : selectedNetwork) (execution : TransferExecution) : Prop :=
  ex_number execution = sn_transfer selection
  /\ view_lease (ex_view execution) ∈ handles
  /\ view_TransferNumber (ex_view execution) = sn_transfer selection
  /\ view_path (ex_view execution) = Ok (ex_viewPath execution)
  /\ replaceViewArgument (tr_argv request) (ex_viewPath execution) = Ok (ex_argv execution).

Lemma execution_fits_mono handles handles' selection execution :
  handles ⊆ handles' -> execution_fits handles selection execution -> execution_fits handles' selection execution.
Proof. intros Hsub (? & ? & ? & ? & ?). split_and!; auto. Qed.

Lemma newTransferExecution_fits handles selection egress view execution :
  newTransferExecution selection egress view (tr_argv request) = Ok execution -> view_lease view ∈ handles ->
  execution_fits handles selection execution.
Proof.
  unfold newTransferExecution. intros E Hin. destruct (_ || _) eqn:Eid; [done|].
  apply rbind_Ok_inv in E as (path & Hpath & E). apply rbind_Ok_inv in E as (argv & Hargv & E).
  apply rbind_Ok_inv in E as (shortcut & _ & E). apply Ok_inj in E as <-. bool_to_prop. by split_and!.
Qed.

Lemma leases_are_snoc leases view s :
  leases_are leases s -> view_lease view ∉ lg_leases s ->
  leases_are (leases ++ [view]) (set_leases ({[ view_lease view ]} ∪ lg_leases s) s).
Proof.
  intros [Hnd Hl] Hfresh. split.
  - rewrite fmap_app. apply NoDup_app. split_and!; [done| |apply NoDup_singleton].
    intros x Hx Hx'. apply list_elem_of_singleton in Hx' as ->. apply Hfresh. rewrite Hl. by apply elem_of_list_to_set.
  - cbn. rewrite Hl, fmap_app, list_to_set_app_L. cbn. set_solver.
Qed.

Lemma open_executions_spec live network resolvers views egresses selected :
  forall s executions leases before,
  holding live network resolvers (Some views) leases s -> lg_processes s = None ->
  Forall2 (execution_fits (view_lease <$> leases)) before executions ->
  spec s (open_executions (tr_argv request) egresses views executions leases selected) (fun '(r, leases') s' =>
    holding live network resolvers (Some views) leases' s' /\ lg_processes s' = None /\ lg_accesses s' = lg_accesses s
    /\ forall executions', r = Ok executions' ->
         Forall2 (execution_fits (view_lease <$> leases')) (before ++ selected) executions').
Proof.
  induction selected as [|sel selected IH]; intros s executions leases before Hh Hp Hfit; cbn [open_executions].
  { apply spec_done. rewrite app_nil_r. split_and!; try done. by intros ? [= <-]. }
  assert (Hopen : lg_views s = Open views) by (by destruct Hh as (_ & _ & _ & ? & _)).
  apply spec_call; [done|]. intros [view|e] Hx; [|apply spec_done; by split_and!].
  set (s1 := recorded (OpenView views (sn_transfer sel)) (Ok view) s). set (leases1 := leases ++ [view]).
  assert (Hh1 : holding live network resolvers (Some views) leases1 s1).
  { destruct Hh as (? & ? & ? & ? & Hls & ? & ?). split_and!; try done; by apply leases_are_snoc. }
  assert (Hfit1 : Forall2 (execution_fits (view_lease <$> leases1)) before executions).
  { eapply Forall2_impl; [exact Hfit|]. intros a b. apply execution_fits_mono. unfold leases1. rewrite fmap_app. set_solver. }
  destruct (negb _) eqn:Eid; [apply spec_done; by split_and!|].
  destruct (newTransferExecution _ _ _ _) as [execution|e] eqn:Enew; [|apply spec_done; by split_and!].
  eapply triple_mono; [apply (IH s1 (executions ++ [execution]) leases1 (before ++ [sel])); [done..|]|].
  2: { intros [r leases'] s'. by rewrite <- app_assoc. }
  apply Forall2_app; [done|]. constructor; [|constructor]. eapply newTransferExecution_fits; [done|].
  unfold leases1. rewrite fmap_app. set_solver.
Qed.

Lemma prepareExecutions_spec s live network resolvers views egresses :
  holding live network resolvers (Some views) [] s -> lg_processes s = None ->
  spec s (prepareExecutions request egresses views) (fun '(r, leases) s' =>
    holding live network resolvers (Some views) leases s' /\ lg_processes s' = None /\ lg_accesses s' = lg_accesses s
    /\ forall executions, r = Ok executions ->
         Forall2 (execution_fits (view_lease <$> leases)) (selectedNetworks request) executions).
Proof.
  intros Hh Hp. unfold prepareExecutions. destruct (validateEgressSet _ _); [by apply spec_done|].
  by apply (open_executions_spec live network resolvers views egresses _ s [] [] []).
Qed.

Definition built (s : Ledger) (execution : TransferExecution) (command : Command) : Prop :=
  exists access,
    lg_accesses s !! ex_number execution = Some access
    /\ command = MkCommand (ex_number execution) (ex_viewPath execution) (Some access) (ex_argv execution)
                   (tr_environment request) false (Some (ex_view execution)).

Lemma access_open_spec s access resolvers n :
  lg_resolvers s = Open resolvers -> lg_accesses s !! n = Some access ->
  spec s (access_open access) (fun _ s' => s' = s).
Proof. intros Hr Ha. apply triple_call; [split; eauto|]. by intros err _. Qed.

Lemma validateCommand_spec s command access resolvers n :
  cmd_resolver command = Some access -> lg_resolvers s = Open resolvers -> lg_accesses s !! n = Some access ->
  spec s (validateCommand access_open command) (fun _ s' => s' = s).
Proof.
  intros Hc Hr Ha. unfold validateCommand. rewrite Hc. eapply spec_then; [by eapply access_open_spec|].
  by intros [e|] s' ->; apply spec_done.
Qed.

Lemma execution_command_spec s execution access resolvers :
  lg_resolvers s = Open resolvers -> lg_accesses s !! ex_number execution = Some access ->
  view_path (ex_view execution) = Ok (ex_viewPath execution) ->
  spec s (execution_command execution access (tr_environment request)) (fun r s' =>
    s' = s /\ forall command, r = Ok command -> built s execution command).
Proof.
  intros Hr Ha Hv. unfold execution_command, NewViewCommand. destruct (negb _); [by apply spec_done|].
  eapply triple_bind_ok; [apply (triple_lift _ _ (fun r s' => s' = s /\ r = view_path (ex_view execution))); done| |by intros e s' [-> _]].
  intros path s' [-> Epath]. rewrite Hv in Epath. apply Ok_inj in Epath as ->.
  eapply triple_check_ok; [by eapply validateCommand_spec| |by intros e s' ->].
  intros s' ->. destruct (negb _); apply spec_done; (split; [done|]); [done|]. intros command [= <-]. by exists access.
Qed.

(** Only accesses of the given transfers were added. *)
Definition accessed (numbers : list Number) (s s' : Ledger) : Prop :=
  exists m, s' = set_accesses m s /\ forall n, n ∉ numbers -> m !! n = lg_accesses s !! n.

Lemma accessed_refl numbers s : accessed numbers s s.
Proof. exists (lg_accesses s). by destruct s. Qed.

Lemma accessed_head n numbers access s s' :
  accessed numbers (add_access n access s) s' -> accessed (n :: numbers) s s'.
Proof.
  intros (m & -> & Hm). exists m. split; [done|]. intros n' [Hne Hn]%not_elem_of_cons. rewrite (Hm n' Hn).
  cbn. by rewrite lookup_insert_ne.
Qed.

Lemma built_accessed numbers s s' execution command :
  accessed numbers s s' -> ex_number execution ∉ numbers -> built s execution command -> built s' execution command.
Proof. intros (m & -> & Hm) Hn (access & Ha & ->). exists access. cbn. by rewrite (Hm _ Hn). Qed.

Lemma build_commands_spec resolvers executions : forall s,
  lg_resolvers s = Open resolvers -> NoDup (ex_number <$> executions) ->
  Forall (fun execution => view_path (ex_view execution) = Ok (ex_viewPath execution)) executions ->
  spec s (build_commands resolvers (tr_environment request) executions) (fun r s' =>
    accessed (ex_number <$> executions) s s'
    /\ forall commands, r = Ok commands -> Forall2 (built s') executions commands).
Proof.
  induction executions as [|ex executions IH]; intros s Hr Hnd Hv; cbn [build_commands fmap list_fmap].
  { apply spec_done. split; [apply accessed_refl|]. by intros ? [= <-]. }
  apply NoDup_cons in Hnd as [Hn Hnd]. apply Forall_cons in Hv as [Hv1 Hv].
  eapply triple_bind_ok with (R := fun r s' =>
    match r with Ok access => s' = add_access (ex_number ex) access s | Err _ => s' = s end).
  { apply triple_call; [done|]. by intros [a|e] _. }
  2: { intros e s' ->. split; [apply accessed_refl|done]. }
  intros access s1 ->. set (s1 := add_access (ex_number ex) access s).
  assert (Hfresh : forall s', accessed (ex_number <$> executions) s1 s' -> accessed (ex_number ex :: (ex_number <$> executions)) s s')
    by (intros s'; apply accessed_head).
  eapply spec_then; [apply (execution_command_spec s1 ex access resolvers); [done|cbn; by rewrite lookup_insert_eq|done]|].
  intros [command|e] s' [-> Hcommand]; [|apply spec_done; split; [apply Hfresh, accessed_refl|done]].
  eapply triple_bind_ok; [by apply IH| |intros e s' [? _]; split; [by apply Hfresh|done]].
  intros commands s2 [Hacc Hbuilt]. apply spec_done. split; [by apply Hfresh|]. intros ? [= <-].
  constructor; [|by apply Hbuilt]. eapply built_accessed; [done|done|]. by apply Hcommand.
Qed.

Lemma fits_numbers handles selected executions :
  Forall2 (execution_fits handles) selected executions -> ex_number <$> executions = sn_transfer <$> selected.
Proof. induction 1 as [|sel ex ? ? (E & _) _ IH]; cbn; [done|by rewrite E, <- IH]. Qed.

Lemma commands_fit_intro s handles executions commands :
  Forall2 (execution_fits handles) (selectedNetworks request) executions -> Forall2 (built s) executions commands ->
  list_to_set handles ⊆ lg_leases s -> commands_fit request s commands.
Proof.
  unfold commands_fit. intros Hfit Hbuilt Hsub. revert commands Hbuilt.
  induction Hfit as [|sel ex selected executions (Hn & Hl & Ht & Hv & Ha) _ IH]; intros commands Hbuilt;
    inversion Hbuilt as [|? command ? ? (access & Hacc & ->)]; subst; constructor; [|by apply IH].
  split_and!; [done|done|exists access; by rewrite <- Hn|]. exists (ex_view ex). split_and!; try done.
  apply Hsub. by apply elem_of_list_to_set.
Qed.

Lemma start_commands_spec s live network resolvers views leases executions :
  holding live network resolvers views leases s -> lg_processes s = None ->
  NoDup (sn_transfer <$> selectedNetworks request) ->
  Forall2 (execution_fits (view_lease <$> leases)) (selectedNetworks request) executions ->
  spec s (start_commands network resolvers executions request) (fun '(processes, err) s' =>
    holding live network resolvers views leases s' /\ lg_processes s' = processes /\ (processes, err) <> (None, None)).
Proof.
  intros Hh Hp Hnd Hfit. eapply spec_then; [apply build_commands_spec|].
  - by destruct Hh as (_ & _ & ? & _).
  - by rewrite (fits_numbers _ _ _ Hfit).
  - clear - Hfit. induction Hfit as [|? ? ? ? (_ & _ & _ & ? & _) _ IH]; by constructor.
  - intros [commands|e] s' [(m & -> & Hm) Hbuilt]; [|apply spec_done; split; [exact Hh|done]].
    destruct Hh as (Hl & Hn & Hr & Hv & [Hlnd Hls] & Hf & Hg).
    assert (Hcf : commands_fit request (set_accesses m s) commands)
      by (eapply commands_fit_intro; [done|by apply Hbuilt|cbn; by rewrite Hls]).
    assert (Hend : forall answer : option Processes * option error, answer <> (None, None) ->
      holding live network resolvers views leases (started answer (set_accesses m s))
      /\ lg_processes (started answer (set_accesses m s)) = answer.1).
    { intros [[p|] err] _; (split; [by split_and!|done]). }
    destruct (tr_commandIO request =? InteractiveCommandIO) eqn:Eio.
    + apply triple_call; [by split_and!|]. intros [p err] Hx. split; [done|]. destruct (Hend (p, err) Hx). by split_and!.
    + apply triple_call; [by split_and!|]. intros [p err] Hx. split; [done|]. destruct (Hend (p, err) Hx). by split_and!.
Qed.

(** ** Measuring *)
Definition targets_fit (s : Ledger) (selected : list selectedNetwork) (targets : list (Number * ResolverAccess)) : Prop :=
  Forall2 (fun selection target => target.1 = sn_transfer selection
                                   /\ lg_accesses s !! sn_transfer selection = Some target.2) selected targets.

Lemma measured_targets_spec resolvers directory selected : forall s,
  lg_resolvers s = Open resolvers -> NoDup (sn_transfer <$> selected) ->
  spec s (measured_targets resolvers directory selected) (fun r s' =>
    accessed (sn_transfer <$> selected) s s' /\ forall targets, r = Ok targets -> targets_fit s' selected targets).
Proof.
  induction selected as [|sel selected IH]; intros s Hr Hnd; cbn [measured_targets fmap list_fmap].
  { apply spec_done. split; [apply accessed_refl|]. intros ? [= <-]. constructor. }
  apply NoDup_cons in Hnd as [Hn Hnd].
  eapply triple_bind_ok with (R := fun r s' =>
    match r with Ok access => s' = add_access (sn_transfer sel) access s | Err _ => s' = s end).
  { apply triple_call; [done|]. by intros [a|e] _. }
  2: { intros e s' ->. split; [apply accessed_refl|done]. }
  intros access s1 ->. set (s1 := add_access (sn_transfer sel) access s).
  assert (Hfresh : forall s', accessed (sn_transfer <$> selected) s1 s' -> accessed (sn_transfer sel :: (sn_transfer <$> selected)) s s')
    by (intros s'; apply accessed_head).
  eapply triple_bind_ok with (R := fun r s' => s' = s1 /\ (forall target, r = Ok target -> target = (sn_transfer sel, access))).
  { unfold NewNamespaceExecution. destruct (_ || _); [by apply spec_done|].
    eapply triple_check_ok; [eapply (access_open_spec s1 access resolvers (sn_transfer sel)); [done|cbn; by rewrite lookup_insert_eq]| |].
    - intros s' ->. apply spec_done. split; [done|]. by intros ? [= <-].
    - by intros e s' ->. }
  2: { intros e s' [-> _]. split; [apply Hfresh, accessed_refl|done]. }
  intros target s' [-> Htarget]. eapply triple_bind_ok; [by apply IH| |intros e s' [? _]; split; [by apply Hfresh|done]].
  intros targets s2 [Hacc Hfit]. apply spec_done. split; [by apply Hfresh|]. intros ? [= <-].
  rewrite (Htarget target eq_refl). constructor; [|by apply Hfit]. split; [done|].
  destruct Hacc as (m & -> & Hm). cbn. rewrite (Hm _ Hn). cbn. by rewrite lookup_insert_eq.
Qed.

Lemma final_weights_spec s live network resolvers directory :
  holding live network resolvers None [] s -> lg_processes s = None -> lg_views s = Absent ->
  NoDup (sn_transfer <$> selectedNetworks request) ->
  spec s (final_weights network request resolvers directory) (fun '(r, measuring) s' =>
    holding live network resolvers None [] s' /\ lg_processes s' = measuring /\ lg_views s' = Absent
    /\ (is_ok r = true -> measuring = None)).
Proof.
  intros Hh Hp Hv Hnd. unfold final_weights. destruct (negb _); [|by apply spec_done].
  assert (Hr : lg_resolvers s = Open resolvers) by (by destruct Hh as (_ & _ & ? & _)).
  eapply spec_then with (R := fun '(r, measuring) s' =>
    holding live network resolvers None [] s' /\ lg_processes s' = measuring /\ lg_views s' = Absent
    /\ (is_ok r = true -> measuring = None)).
  - eapply spec_then; [by apply measured_targets_spec|].
    intros [targets|e] s' [(m & -> & Hm) Hfit]; [|by apply spec_done].
    apply spec_call.
    { destruct Hh as (_ & Hn & _). split_and!; try done. by apply Hfit. }
    by intros [results|e [p|]] _; apply spec_done.
  - intros [[weighted|e] measuring] s' (Hh' & Hp' & Hv' & Hm); apply spec_done; split_and!; try done.
    by rewrite Hp', Hm.
Qed.

(** ** Results *)
(** Every selected transfer has its own result, in the order of the selection. *)
Definition all_reported (o : Outcome) : Prop :=
  out_cancelled o = false
  /\ Forall2 (fun selection r => cr_transfer r = sn_transfer selection) (selectedNetworks request) (out_transfers o).

Lemma by_transfer_keys results : forall known known',
  map_Forall (fun n r => cr_transfer r = n) known -> by_transfer known results = Ok known' ->
  map_Forall (fun n r => cr_transfer r = n) known'.
Proof.
  induction results as [|r results IH]; intros known known' Hk; cbn [by_transfer]; [by intros [= <-]|].
  destruct (bool_decide _); [done|]. apply IH. by apply map_Forall_insert_2.
Qed.

Lemma orderedTransferResults_Ok selected results ordered :
  orderedTransferResults selected results = Ok ordered ->
  Forall2 (fun selection r => cr_transfer r = sn_transfer selection) selected ordered.
Proof.
  unfold orderedTransferResults. destruct (negb _); [done|]. intros (known & Hknown & E)%rbind_Ok_inv.
  apply by_transfer_keys in Hknown; [|by apply map_Forall_empty]. apply mmap_Ok in E.
  eapply Forall2_impl; [exact E|]. intros sel r. unfold result_of. destruct (known !! _) eqn:Ek; [|done].
  intros [= <-]. by apply Hknown in Ek.
Qed.

Lemma transferResult_clean processResult waitErr cause transfers cancelled :
  transferResult request processResult waitErr cause = (transfers, cancelled, None) ->
  cancelled = false
  /\ Forall2 (fun selection r => cr_transfer r = sn_transfer selection) (selectedNetworks request) transfers.
Proof.
  unfold transferResult. intros [= <- <- E]. apply errors_Join_None, Forall_cons in E as [_ E].
  apply Forall_cons in E as [E1 E2]. destruct (gr_cancelled processResult); [by apply Forall_cons in E2 as [? _]|]. split; [done|].
  destruct (orderedTransferResults _ _) eqn:Eo; [|done]. by eapply orderedTransferResults_Ok.
Qed.

(** ** The stages of a run *)
Definition ends (resolvers : ResolverGroup) (o : Outcome) (later : option delayed) (s : Ledger) : Prop :=
  settled resolvers (out_cleanupErr o) later s /\ out_hasRun o = true /\ (out_runErr o = None -> all_reported o).

Lemma cleaned_up_spec s t resolvers o runErr :
  out_hasRun o = true -> runErr <> None ->
  spec s t (fun '(err, later) s' => settled resolvers err later s') ->
  spec s (do! ' (cleanupErr, later) := t in Ret (with_errors o runErr cleanupErr, later))
    (fun '(o, later) s' => ends resolvers o later s').
Proof.
  intros Ho Hr Ht. eapply spec_then; [exact Ht|]. intros [err later] s' Hs. apply spec_done. by split_and!.
Qed.

Lemma execute_commands_spec s source egresses live network resolvers views o :
  holding live network resolvers (Some views) [] s -> lg_processes s = None -> out_hasRun o = true ->
  NoDup (sn_transfer <$> selectedNetworks request) ->
  spec s (execute_commands source request egresses live network resolvers views o)
    (fun '(o, later) s' => ends resolvers o later s').
Proof.
  intros Hh Hp Ho Hnd. eapply spec_then; [by eapply prepareExecutions_spec|].
  intros [[executions|e] leases] s1 (Hh1 & Hp1 & _ & Hfit).
  2: { apply cleaned_up_spec; [done..|]. by apply (cleanupContainedOwners_spec _ live). }
  eapply spec_then; [apply (start_commands_spec _ live network resolvers (Some views) leases); try done; by apply Hfit|].
  intros [processes err] s2 (Hh2 & Hp2 & Hnil). destruct err as [e|], processes as [p|]; [| |clear Hnil|done].
  - eapply spec_then; [by apply (stopStartupProcesses_spec _ live)|]. intros [finished [err later]] s3 Hs.
    apply spec_done. by split_and!.
  - apply cleaned_up_spec; [done..|]. by apply (cleanupContainedOwners_spec _ live).
  - apply spec_call; [done|]. intros [processResult waitErr] _.
    eapply spec_then with (R := fun _ s' => s' = s2).
    { unfold cancellation_cause. destruct (gr_cancelled _); [|by apply spec_done]. by apply triple_call. }
    intros cause s' ->. destruct (transferResult _ _ _ _) as [[transfers cancelled] runErr] eqn:Et.
    eapply spec_then; [by apply (cleanupObservedProcesses_spec _ live)|]. intros [err later] s3 Hs.
    apply spec_done. split_and!; [done..|]. cbn. intros ->. by eapply transferResult_clean.
Qed.

Lemma executeWithResolvers_spec s source egresses snapshot live network resolvers o :
  holding live network resolvers None [] s -> lg_processes s = None -> lg_views s = Absent -> out_hasRun o = true ->
  NoDup (sn_transfer <$> selectedNetworks request) ->
  spec s (executeWithResolvers source request egresses snapshot live network resolvers o)
    (fun '(o, later) s' => ends resolvers o later s').
Proof.
  intros Hh Hp Hv Ho Hnd. eapply spec_then; [by apply (final_weights_spec _ live)|].
  intros [[weighted|e] measuring] s1 (Hh1 & Hp1 & Hv1 & Hm).
  2: { apply cleaned_up_spec; [done..|]. destruct measuring as [p|].
       - by apply (cleanupObservedProcesses_spec _ live).
       - by apply (cleanupContainedOwners_spec _ live). }
  rewrite Hm in Hp1 by done. destruct (AllocateTransferItems _ _) as [allocation|e].
  2: { apply cleaned_up_spec; [done..|]. by apply (cleanupContainedOwners_spec _ live). }
  assert (Hlive : lg_live s1 = Held live) by (by destruct Hh1 as (? & _)).
  apply spec_call; [done|]. intros [[views|] err] Hx.
  - assert (Hh2 : holding live network resolvers (Some views) [] (set_views (Open views) s1)).
    { destruct Hh1 as (? & ? & ? & _ & ? & ? & ?). by split_and!. }
    destruct err as [e|].
    + apply cleaned_up_spec; [done..|]. by apply (cleanupContainedOwners_spec _ live).
    + by apply execute_commands_spec.
  - destruct err as [e|]; [|by destruct Hx].
    apply cleaned_up_spec; [done..|]. by apply (cleanupContainedOwners_spec _ live).
Qed.

(** The end of [Run], whether or not it acquired anything. *)
Definition run_ends (o : Outcome) (later : option delayed) (s : Ledger) : Prop :=
  (out_cleanupErr o = None -> later = None /\ lg_faulty s = false /\ (lg_live s = NoRun \/ lg_live s = Completed))
  /\ match later with
     | Some later => waits later s
     | None => lg_signalled s = false
               /\ (all_released s /\ (forall live, lg_live s <> Held live) \/ (exists live, lg_live s = Held live) /\ out_cleanupErr o <> None)
     end
  /\ (out_hasRun o = false <-> lg_live s = NoRun)
  /\ (out_runErr o = None -> out_hasRun o = true /\ all_reported o).

Lemma ends_run_ends resolvers o later s : ends resolvers o later s -> run_ends o later s.
Proof.
  intros ((Hc & Hl & _) & Ho & Hr).
  assert (Hlive : lg_live s <> NoRun).
  { destruct later as [later|]; [by destruct Hl as ([live ->] & _)|].
    destruct Hl as [_ [[_ [-> | ->]]|[[live ->] _]]]; done. }
  split_and!; [| |by rewrite Ho; split|by split; auto].
  - intros E. destruct (Hc E) as (-> & -> & ->). split_and!; auto.
  - destruct later as [later|]; [done|]. destruct Hl as [Hg [[? Hl]|?]]; (split; [done|]); [left|by right].
    split; [done|]. intros live E. destruct Hl as [Hl|Hl]; congruence.
Qed.

Lemma run_ends_with o o' later s :
  out_cleanupErr o' = out_cleanupErr o -> out_hasRun o' = out_hasRun o -> (out_runErr o' = None -> out_runErr o = None) ->
  (all_reported o -> all_reported o') -> run_ends o later s -> run_ends o' later s.
Proof.
  intros Ec Eh Er Ha (H1 & H2 & H3 & H4). unfold run_ends. rewrite Ec, Eh. split_and!; [done..|].
  intros E. destruct (H4 (Er E)). auto.
Qed.

(** Only the run root, or not even that, with nothing else ever opened. *)
Definition fresh (l : liveness) (s : Ledger) : Prop :=
  exists accesses, s = MkLedger None l Absent Absent accesses Absent ∅ None false false.

Lemma completeRun_ends s live o runErr :
  lg_live s = Held live -> all_released s -> lg_faulty s = false -> lg_signalled s = false -> out_hasRun o = true -> runErr <> None ->
  forall b : bool, spec s (completeRun live) (fun err s' =>
    run_ends (with_errors o runErr (if b then err else errors_Join [None; err])) None s').
Proof.
  intros Hl Hrel Hf Hg Ho Hr b. eapply triple_mono; [by apply completeRun_spec|].
  intros [e|] s' ->; unfold run_ends; cbn; rewrite ?Hg, ?Ho; split_and!; try done.
  - by destruct b.
  - left. by split.
  - by rewrite Hf; auto.
  - left. by split.
Qed.

Lemma executeWithNetwork_spec s source egresses snapshot live network o :
  (exists s0, fresh (Held live) s0 /\ s = set_network (Open network) s0) -> out_hasRun o = true ->
  NoDup (sn_transfer <$> selectedNetworks request) ->
  spec s (executeWithNetwork source request egresses snapshot live network o) (fun '(o, later) s' => run_ends o later s').
Proof.
  intros (s0 & [accesses ->] & ->) Ho Hnd. unfold executeWithNetwork. apply spec_call; [done|]. intros [resolvers|e] _.
  - eapply spec_then; [apply (executeWithResolvers_spec _ source egresses snapshot live network resolvers o); try done|].
    { split_and!; try done. split; [by apply NoDup_nil_2|done]. }
    intros [o' later] s' Hend. apply spec_call; [by destruct Hend as ((_ & _ & ?) & _)|].
    intros [e|] _; apply spec_done; [|by eapply ends_run_ends].
    eapply run_ends_with; [..|by eapply ends_run_ends]; cbn; try done.
    by destruct (out_runErr o').
  - cbn [recorded]. unfold cleanupNetwork. eapply spec_then.
    { eapply spec_then; [by apply closeNetwork_spec|]. intros closeErr s' ->.
      eapply spec_then; [apply (completeRun_spec _ live); [done|by split_and!]|].
      intros completeErr s'' Hs. apply (spec_done _ _ (fun err s' => run_ends (with_errors o (Some (ErrWrap "open namespace resolvers" e)) err) None s')).
      unfold run_ends. cbn. rewrite Ho. destruct completeErr as [ce|]; subst s''; cbn; split_and!; try done.
      - by destruct closeErr.
      - left. by split_and!.
      - destruct closeErr; [done|]. by auto.
      - left. by split_and!. }
    intros err s' Hs. by apply spec_done.
Qed.

Lemma run_ends_failed e s : fresh NoRun s -> run_ends (failed e) None s.
Proof. intros [accesses ->]. unfold run_ends. cbn. split_and!; try done; [by auto|]. left. by split_and!. Qed.

Lemma createLiveRun_spec s :
  fresh NoRun s ->
  spec s createLiveRun (fun '(created, o) s' =>
    match created with
    | Ok live => fresh (Held live) s' /\ o = MkOutcome (live_ID live) true [] false None None (MkSummary 0 0 0 0) false
    | Err _ => run_ends o None s'
    end).
Proof.
  intros Hs. pose proof (fun e => run_ends_failed e s Hs) as Hnone. destruct Hs as [accesses ->].
  apply spec_call; [done|]. intros [id|e] _; [|by apply spec_done]. apply spec_call; [done|]. intros [live|e] _; [|by apply spec_done].
  destruct (bool_decide (live_ID live = id)) eqn:Eid; cbn [negb].
  - apply bool_decide_eq_true in Eid as <-. apply spec_done. split; [by exists accesses|done].
  - set (o := MkOutcome (live_ID live) true [] false None None (MkSummary 0 0 0 0) false).
    set (err := ErrText _). eapply spec_then; [by apply (completeRun_ends _ live o (Some err)) with (b := true)|].
    intros cleanupErr s' Hs. by apply spec_done.
Qed.

(** ** Before anything is acquired *)
Lemma recoverOldRuns_spec s : fresh NoRun s -> spec s recoverOldRuns (fun _ s' => fresh NoRun s').
Proof.
  intros Hs. unfold recoverOldRuns, RecoverStale. apply (triple_iter (fun _ s => fresh NoRun s)); [|done]. clear s Hs.
  intros [] s [accesses ->]. apply spec_call; [done|]. intros [|e|run] _; [by apply spec_done; exists accesses..|].
  eapply spec_then with (R := fun _ s' => s' = MkLedger (Some run) NoRun Absent Absent accesses Absent ∅ None false false).
  - apply spec_call; [done|]. intros networkErr _. apply spec_call; [done|]. intros viewErr _. by apply spec_done.
  - intros err s' ->. apply spec_call; [done|]. intros [e|] _; apply spec_done; by exists accesses.
Qed.

Lemma readOnlyFacts_spec s :
  fresh NoRun s ->
  spec s (readOnlyFacts request) (fun '(facts, _, _) s' =>
    s' = s /\ forall egresses, facts = Ok egresses -> validateEgressSet (selectedNetworks request) egresses = None).
Proof.
  intros [accesses ->]. unfold readOnlyFacts.
  eapply spec_then with (R := fun _ s' => s' = MkLedger None NoRun Absent Absent accesses Absent ∅ None false false).
  { eapply triple_bind_ok with (R := fun _ s' => s' = MkLedger None NoRun Absent Absent accesses Absent ∅ None false false).
    - by apply triple_call.
    - intros snapshot s' ->. by apply triple_lift.
    - by intros e s' ->. }
  intros egresses s' ->. apply spec_call; [done|]. intros [snapshot sourceErr] _.
  destruct (errors_Join _); [by apply spec_done|]. destruct (validateEgressSet _ _) eqn:Ev; apply spec_done; (split; [done|]); [done|].
  by intros ? [= <-].
Qed.

Lemma check_selected_distinct selections : forall index ids ips ids',
  check_selected index ids ips selections = Ok ids' ->
  NoDup (sn_transfer <$> selections) /\ Forall (fun s => sn_transfer s ∉ ids) selections.
Proof.
  induction selections as [|sel selections IH]; intros index ids ips ids'; cbn [check_selected fmap list_fmap].
  { intros _. split; constructor. }
  destruct (_ || _); [done|]. destruct (bool_decide (sn_transfer sel ∈ ids)) eqn:Eid; [done|]. destruct (bool_decide (sn_localIP sel ∈ ips)); [done|].
  intros [Hnd Hf]%IH. apply bool_decide_eq_false in Eid. split.
  - constructor; [|done]. intros (s' & E & Hin)%list_elem_of_fmap. rewrite Forall_forall in Hf. apply (Hf s' Hin).
    rewrite <- E. set_solver.
  - constructor; [done|]. eapply Forall_impl; [exact Hf|]. intros s'. set_solver.
Qed.

Lemma validateSelectedNetworks_distinct selections :
  validateSelectedNetworks selections = None -> NoDup (sn_transfer <$> selections).
Proof.
  unfold validateSelectedNetworks. destruct (_ || _); [done|]. destruct (check_selected _ _ _ _) eqn:E; [|done].
  intros _. by eapply check_selected_distinct.
Qed.

Lemma validate_run_ok complete source :
  validate_run complete source request = None ->
  (exists root, source = Some root) /\ NoDup (sn_transfer <$> selectedNetworks request).
Proof.
  unfold validate_run. destruct (negb complete); [done|]. destruct source as [root|]; [|done].
  destruct (_ || _); [done|]. destruct (negb _); [done|]. intros E. split; [by exists root|].
  by apply validateSelectedNetworks_distinct.
Qed.

Lemma Run_spec complete source :
  spec idle (Run complete source request) (fun '(o, later) s' => run_ends o later s').
Proof.
  assert (Hidle : fresh NoRun idle) by (by exists ∅). unfold Run.
  destruct (validate_run complete source request) as [e|] eqn:Ev; [by apply spec_done, run_ends_failed|].
  apply validate_run_ok in Ev as [[root ->] Hnd].
  eapply spec_then; [by apply recoverOldRuns_spec|]. intros [e|] s Hs; [by apply spec_done, run_ends_failed|].
  apply spec_call; [by destruct Hs as [? ->]|]. intros [e|] _; [by apply spec_done, run_ends_failed|].
  eapply spec_then; [by apply readOnlyFacts_spec|]. intros [[facts snapshot] captured] s' [-> Hfacts].
  destruct facts as [egresses|e].
  2: { apply spec_done. eapply run_ends_with; [..|by apply (run_ends_failed e)]; by destruct captured. }
  eapply spec_then; [by apply createLiveRun_spec|]. intros [[live|e] o] s1 Hs1.
  2: { apply spec_done. by eapply run_ends_with. }
  destruct Hs1 as [Hs1 ->]. apply spec_call.
  { destruct Hs1 as [accesses ->]. split_and!; [done|done|by apply Hfacts]. }
  intros [network|e] _.
  - apply executeWithNetwork_spec; [by exists s1|done|done].
  - cbn [recorded id]. destruct Hs1 as [accesses ->]. set (o := resultWithSourceSummary _ snapshot true).
    eapply spec_then; [by apply (completeRun_ends _ live o (Some (ErrWrap "open host network" e))) with (b := true)|].
    intros err s2 Hs2. by apply spec_done.
Qed.
End Stages.

Section Claims.
Context `{URLs} (request : TransferRequest).

#[local] Existing Instance flow_world.

(** C1. The owners of a transfer are used as their interfaces ask, on every path
    and up to any moment at which the process may die: nothing is used before it
    is opened, after it is closed or closed twice; commands start only in open
    views, each with the argv, environment, view and resolver of its transfer;
    resolvers, network and views are closed only when no process can still be
    inside; the run root is completed, or its liveness signalled away, only when
    everything else is closed; and no nil value is ever dereferenced. *)
Theorem transfer_keeps_the_owners_rules complete source tr o
    (Hexec : exec (run_to_the_end complete source request) tr o) :
  lawful (World0 := flow_world request) idle tr.
Proof.
  refine (triple_lawful _ _ _ _ _ _ Hexec). eapply triple_bind; [apply Run_spec|]. intros [out later] s Hs.
  eapply triple_bind with (R := fun _ _ => True).
  - destruct later as [later|]; [|by apply triple_ret]. eapply triple_mono; [by apply finish_spec; destruct Hs as (_ & ? & _)|done].
  - intros [] s' _. by apply (triple_ret (World0 := flow_world request) _ _ (fun _ _ => True)).
Qed.

Lemma run_to_the_end_spec complete source :
  triple (World0 := flow_world request) idle (run_to_the_end complete source request) (fun out s =>
    (out_cleanupErr out = None ->
       all_released s /\ lg_faulty s = false /\ (lg_live s = NoRun \/ lg_live s = Completed))
    /\ (lg_signalled s = true -> all_released s)
    /\ (out_hasRun out = false <-> lg_live s = NoRun)
    /\ (out_runErr out = None -> out_hasRun out = true /\ all_reported request out)).
Proof.
  eapply triple_bind; [apply Run_spec|]. intros [out [later|]] s (Hc & Hl & Hno & Hr).
  - eapply triple_bind; [by apply finish_spec|]. intros [] s' [[live Hlive] Hs']. apply triple_ret.
    split_and!; [by intros [? _]%Hc|done| |done]. rewrite Hlive, Hno. by destruct Hl as ([live' ->] & _).
  - destruct Hl as [Hg Hl].
    eapply triple_bind; [apply (triple_ret (World0 := flow_world request) _ _ (fun _ s' => s' = s)); done|].
    intros [] s' ->. apply triple_ret. split_and!; [|by rewrite Hg|done..].
    intros E. destruct (Hc E) as (_ & Hf & Hlive). destruct Hl as [[Hrel _]|[[live Hheld] _]]; [done|].
    destruct Hlive as [Hlive|Hlive]; rewrite Hlive in Hheld; done.
Qed.

(** C13. A transfer that reports no clean-up error has released everything: no
    process, lease, view, resolver or network is left, no owner complained and
    the run root, when there was one, is completed.  When a goroutine was left
    to finish, it signals the liveness of the run away only with everything
    released, and the clean-up error says that it was. *)
Theorem clean_transfer_leaves_nothing complete source tr out
    (Hexec : exec (run_to_the_end complete source request) tr (Some out))
    (Hpromises : faithful (World0 := flow_world request) idle tr) :
  let s := state_after (World0 := flow_world request) idle tr in
  (out_cleanupErr out = None -> all_released s /\ lg_faulty s = false /\ (lg_live s = NoRun \/ lg_live s = Completed))
  /\ (lg_signalled s = true -> all_released s)
  /\ (out_hasRun out = false <-> lg_live s = NoRun).
Proof. destruct (run_to_the_end_spec complete source _ _ Hexec) as [_ H1]. by destruct (H1 Hpromises) as (? & ? & ? & _). Qed.

(** C39. A transfer that reports no error has run: it has an identity, was not
    cancelled, and reports one result for every selected transfer, in the order
    of the selection. *)
Theorem successful_transfer_reports_everyone complete source tr out
    (Hexec : exec (run_to_the_end complete source request) tr (Some out))
    (Hpromises : faithful (World0 := flow_world request) idle tr) (Hsuccess : OutcomeErr out = None) :
  out_hasRun out = true /\ out_cancelled out = false
  /\ (fun r => cr_transfer r) <$> out_transfers out = sn_transfer <$> selectedNetworks request
  /\ lg_live (state_after (World0 := flow_world request) idle tr) = Completed.
Proof.
  destruct (run_to_the_end_spec complete source _ _ Hexec) as [_ H1].
  destruct (H1 Hpromises) as (Hc & _ & Hno & Hr). unfold OutcomeErr in Hsuccess.
  destruct (out_cleanupErr out); [done|]. destruct (Hr Hsuccess) as (Hrun & Hcan & Hall). split_and!; [done|done| |].
  - clear - Hall. induction Hall as [|sel r ? ? E _ IH]; [done|]. cbn. by rewrite E, IH.
  - destruct (Hc eq_refl) as (_ & _ & [Hl|?]); [|done]. apply Hno in Hl. congruence.
Qed.
End Claims.

(** ** The selected egresses *)
Lemma collect_egresses_spec selected : forall resolved known m,
  length resolved = length selected -> NoDup (sn_transfer <$> selected) ->
  Forall (fun sel => known !! sn_transfer sel = None) selected ->
  collect_egresses known selected resolved = Ok m ->
  Forall2 (fun sel egress => m !! sn_transfer sel = Some egress /\ eg_localIP egress = sn_localIP sel /\ eg_runnable egress = true)
    selected resolved
  /\ base.size m = (base.size known + length selected)%nat
  /\ forall n, n ∉ sn_transfer <$> selected -> m !! n = known !! n.
Proof.
  induction selected as [|sel selected IH]; intros [|egress resolved] known m Hlen Hnd Hnew; try done; cbn [collect_egresses].
  { intros [= <-]. split_and!; [constructor|cbn; lia|done]. }
  destruct (negb _) eqn:Eip; [done|]. destruct (negb (eg_runnable egress)) eqn:Erun; [done|]. intros E.
  apply NoDup_cons in Hnd as [Hn Hnd]. apply Forall_cons in Hnew as [Hnew1 Hnew].
  destruct (IH resolved (<[ sn_transfer sel := egress ]> known) m (f_equal pred Hlen) Hnd) as (Hall & Hsize & Hother); [|exact E|].
  { apply Forall_forall. intros s' Hs'. rewrite lookup_insert_ne; [by rewrite Forall_forall in Hnew; apply Hnew|].
    intros Eq. apply Hn. rewrite Eq. by apply list_elem_of_fmap_2. }
  bool_to_prop. split_and!.
  - constructor; [|done]. split_and!; [|done|done]. rewrite (Hother _ Hn). by rewrite lookup_insert_eq.
  - rewrite Hsize, map_size_insert_None by done. cbn. lia.
  - intros n [Hne Hn']%not_elem_of_cons. rewrite (Hother _ Hn'). by rewrite lookup_insert_ne.
Qed.

Lemma Forall2_same {A} (P : A -> A -> Prop) l : Forall2 P l l -> Forall (fun x => P x x) l.
Proof. induction l as [|x l IH]; intros Hl; [constructor|]. apply Forall2_cons in Hl as [? ?]. constructor; auto. Qed.

(** A run that selects valid networks and resolves them all hands the host
    network exactly one runnable egress per transfer, the one the catalog finds
    for the address of that transfer; the check of the set then passes. *)
Theorem selected_egresses_are_complete snapshot selected egresses
    (Hvalid : validateSelectedNetworks selected = None) (Hresolved : egresses_of snapshot selected = Ok egresses) :
  validateEgressSet selected egresses = None
  /\ dom egresses = list_to_set (sn_transfer <$> selected)
  /\ Forall (fun sel => let egress := resolveOne snapshot (sn_localIP sel) in
                        egresses !! sn_transfer sel = Some egress
                        /\ eg_localIP egress = sn_localIP sel /\ eg_runnable egress = true) selected.
Proof.
  apply validateSelectedNetworks_distinct in Hvalid as Hnd. revert Hresolved. unfold egresses_of. destruct (negb _); [done|]. intros E.
  apply collect_egresses_spec in E as (Hall & Hsize & Hother); [|by unfold Resolve; rewrite !length_fmap|done|by apply Forall_forall].
  assert (Hsel : Forall (fun sel => let egress := resolveOne snapshot (sn_localIP sel) in
    egresses !! sn_transfer sel = Some egress /\ eg_localIP egress = sn_localIP sel /\ eg_runnable egress = true) selected).
  { unfold Resolve in Hall. rewrite <- list_fmap_compose in Hall. apply Forall2_fmap_r in Hall. clear - Hall.
    apply (Forall2_same _ _ Hall). }
  split_and!; [| |done].
  - unfold validateEgressSet. rewrite Hsize, map_size_empty, Nat.add_0_l, Z.eqb_refl. cbn [negb].
    destruct (find _ selected) as [s|] eqn:Ef; [|done]. apply find_some in Ef as [Hin Hnone].
    rewrite Forall_forall in Hsel. apply list_elem_of_In, Hsel in Hin as [Hin _]. apply bool_decide_eq_true in Hnone. congruence.
  - apply leibniz_equiv. intros n. rewrite elem_of_list_to_set. split.
    + intros [eg Hn]%elem_of_dom. destruct (decide (n ∈ sn_transfer <$> selected)) as [|Hnot]; [done|].
      rewrite (Hother _ Hnot), lookup_empty in Hn. done.
    + intros (sel & -> & Hin)%list_elem_of_fmap. rewrite Forall_forall in Hsel. destruct (Hsel _ Hin) as [Hm _].
      apply elem_of_dom. eauto.
Qed.

(** ** A run on a sample host *)
Module Sample.
#[local] Existing Instance TransferStartProofs.Sample.urls.

Definition number : Number := MkNumber 1.
Definition selection : list ManualNetworkSelection := [MkManual number ResolveProofs.sample_source 1].
Definition request : TransferRequest :=
  MkTransferRequest "src" selection [] ["cp"; "-r"; "{}"; "/mnt"] ["TERM=xterm-256color"] DefaultIntent terminal_zero
    PlainCommandIO settings_zero false.
Definition root : SourceRoot := MkSource "src" "/proc/7/fd/3".
Definition id : ID := MkID (replicate 16 x11).
Definition view : ViewAccess := MkView 5 id number "src".

(** One stale run is recovered first; [contained] is what polls of the process
    group find. *)
Definition answer (contained : bool) (X : Type) (e : FlowE X) : nat -> option (X * nat) :=
  match e in FlowE X return nat -> option (X * nat) with
  | NewRunID => fun n => Some (Ok id, n)
  | RecoverNext => fun n => Some (match n with O => Offered (MkStale 9 id) | _ => NoStale end, S n)
  | RecoverReturned _ err => fun n => Some (err, n)
  | RootsCreate _ => fun n => Some (Ok (MkLive 1 id), n)
  | Capture => fun n => Some (Ok ResolveProofs.sample_snapshot, n)
  | Scan _ => fun n => Some ((Some AllocationProofs.sample_contents, None), n)
  | NetworkOpen _ _ => fun n => Some (Ok 2%nat, n)
  | ResolversOpen _ _ _ => fun n => Some (Ok 3%nat, n)
  | ResolversAccess _ _ => fun n => Some (Ok 4%nat, n)
  | ResolversClose _ => fun n => Some ((true, None), n)
  | ViewsOpen _ _ => fun n => Some ((Some 6%nat, None), n)
  | OpenView _ _ => fun n => Some (Ok view, n)
  | ViewsClose _ => fun n => Some ((true, None), n)
  | ObserveNamespaces _ _ _ => fun n => Some (NotObserved (ErrText "unused") None, n)
  | StartInteractive _ _ _ => fun n => Some ((Some 7%nat, None), n)
  | StartPlain _ _ => fun n => Some ((Some 7%nat, None), n)
  | Wait _ => fun n => Some ((MkGroupResult [MkChildResult number 0 0] false, None), n)
  | FinishStartFailure _ => fun n => Some (MkStartFailure None None, n)
  | ContainmentDone _ => fun n => Some (contained, n)
  | AwaitContainment _ => fun n => Some (tt, n)
  | CloseCleanupDone => fun n => Some (tt, n)
  | NilDereference => fun _ => None
  | LiveComplete _ | LiveClose _ | RetainLiveness _ | NetworkRecover _ | NetworkClose _ | AccessOpen _
  | ResolversDiagnostic _ | ViewsPreflight | ViewsRecover _ | LeaseClose _ | ConfirmContainment _ | ContextCause =>
      fun n => Some (None, n)
  end.

Definition played (contained : bool) := play 1000 (answer contained) (run_to_the_end true (Some root) request) 0%nat.

Definition smooth : Outcome := MkOutcome id true [MkChildResult number 0 0] false None None (MkSummary 0 0 1 0) true.

Lemma smooth_run : (played true).2 = Some smooth.
Proof. vm_compute. done. Qed.

Lemma smooth_exec : exec (run_to_the_end true (Some root) request) (played true).1 (Some smooth).
Proof. rewrite <- smooth_run. apply play_exec. Qed.

Lemma smooth_faithful : faithful (World0 := flow_world request) idle (played true).1.
Proof. vm_compute. repeat split; try discriminate; done. Qed.

Lemma transfer_keeps_the_owners_rules_witness :
  lawful (World0 := flow_world request) idle (played false).1.
Proof. exact (transfer_keeps_the_owners_rules request true (Some root) _ _ (play_exec 1000 (answer false) _ 0%nat)). Defined.

Lemma clean_transfer_leaves_nothing_witness :
  all_released (state_after (World0 := flow_world request) idle (played true).1).
Proof.
  exact (proj1 (proj1 (clean_transfer_leaves_nothing request true (Some root) _ _ smooth_exec smooth_faithful) eq_refl)).
Defined.

Lemma successful_transfer_reports_everyone_witness :
  out_hasRun smooth = true
  /\ lg_live (state_after (World0 := flow_world request) idle (played true).1) = Completed.
Proof.
  destruct (successful_transfer_reports_everyone request true (Some root) _ _ smooth_exec smooth_faithful eq_refl)
    as (Hrun & _ & _ & Hlive).
  exact (conj Hrun Hlive).
Defined.

(** A group that is not contained at first leaves its clean-up to the goroutine,
    which closes everything and signals the liveness away. *)
Example delayed_run :
  let s := state_after (World0 := flow_world request) idle (played false).1 in
  lg_signalled s = true /\ all_released s
  /\ (out_cleanupErr <$> (played false).2)
     = Some (Some (ErrJoin (ErrWrap "confirm child process cleanup" (ErrText "child process containment is unconfirmed")) [])).
Proof. vm_compute. repeat split. Qed.

Lemma selected_valid : validateSelectedNetworks (manualSelectedNetworks selection) = None.
Proof. vm_compute. done. Qed.

Lemma selected_resolve :
  is_ok (egresses_of ResolveProofs.sample_snapshot (manualSelectedNetworks selection)) = true.
Proof. vm_compute. done. Qed.

Lemma selected_egresses_are_complete_witness :
  validateEgressSet (manualSelectedNetworks selection)
    (ok_or ∅ (egresses_of ResolveProofs.sample_snapshot (manualSelectedNetworks selection))) = None.
Proof.
  refine (proj1 (selected_egresses_are_complete ResolveProofs.sample_snapshot _ _ selected_valid _)).
  pose proof selected_resolve as E. destruct (egresses_of _ _); done.
Defined.
End Sample.
