(* ===== verification/Interference.v ===== *)
(** * Processes that share a kernel

    Programs of calls that run at the same time, each call a step of its own,
    each process liable to be killed between two of them.  A process may rely on
    what [keeps] promises it; a proof about one process shows that its steps keep
    that promise to all the others, whenever theirs keep it to this one.  Then
    every interleaving keeps the invariant. *)
From ITree Require Import ITree.
From S2P Require Import Prelude Effects.

Abbreviation pid := nat.

(** A kernel: what a call may answer and do, when it may be made, what the death
    of a process does; and what the processes agree on. *)
Class System (E : Type -> Type) (K : Type) : Type := {
  answers : forall X, pid -> E X -> X -> K -> K -> Prop;
  may_make : forall X, pid -> E X -> K -> Prop;
  dies : pid -> K -> K -> Prop;
  agreed : K -> Prop;
  keeps : pid -> K -> K -> Prop
}.
Arguments answers {E K _ X} p e x s s'.
Arguments may_make {E K _ X} p e s.

Class SystemLaws (E : Type -> Type) (K : Type) `{!System E K} : Prop := {
  keeps_preorder p :: PreOrder (keeps p);
  dies_agreed p s s' : agreed s -> dies p s s' -> agreed s';
  dies_keeps p q s s' : agreed s -> dies p s s' -> q <> p -> keeps q s s'
}.

Section Processes.
Context {E : Type -> Type} {K : Type} `{SystemLaws E K}.

(** ** Interleavings *)
Definition pool : Type := gmap pid (itree E unit) * K.

Inductive moves (p : pid) : pool -> pool -> Prop :=
  | moves_silently threads s t t' :
      threads !! p = Some t -> observe t = TauF t' -> moves p (threads, s) (<[p := t']> threads, s)
  | moves_by_call threads s t X (e : E X) k x s' :
      threads !! p = Some t -> observe t = VisF e k -> answers p e x s s' ->
      moves p (threads, s) (<[p := k x]> threads, s')
  | moves_away threads s t s' :
      threads !! p = Some t -> dies p s s' -> moves p (threads, s) (delete p threads, s').

Inductive reaches (c : pool) : pool -> Prop :=
  | reaches_here : reaches c c
  | reaches_next p c' c'' : reaches c c' -> moves p c' c'' -> reaches c c''.

(** ** One process among others *)
Fixpoint safe {A} (n : nat) (p : pid) (t : itree E A) (Q : A -> K -> Prop) (s : K) : Prop :=
  match n with
  | O => True
  | S n =>
      forall s0, agreed s0 -> keeps p s s0 ->
      match observe t with
      | RetF a => Q a s0
      | TauF t' => safe n p t' Q s0
      | VisF e k =>
          may_make p e s0
          /\ forall x s1, answers p e x s0 s1 ->
             agreed s1 /\ (forall q, q <> p -> keeps q s0 s1) /\ safe n p (k x) Q s1
      end
  end.

Definition still (p : pid) (P : K -> Prop) (s : K) : Prop := forall s', agreed s' -> keeps p s s' -> P s'.

(** What the process knows does not depend on the others. *)
Class Stable (p : pid) (P : K -> Prop) : Prop := stable s s' : keeps p s s' -> P s -> P s'.

Definition hoare {A} (p : pid) (P : K -> Prop) (t : itree E A) (Q : A -> K -> Prop) : Prop :=
  forall n s, agreed s -> P s -> safe n p t Q s.

Lemma safe_keeps {A} n p (t : itree E A) Q s s' : keeps p s s' -> safe n p t Q s -> safe n p t Q s'.
Proof. destruct n; [done|]. intros Hk Hs s0 Ha H0. apply Hs; [done|]. by etrans. Qed.

Lemma safe_less {A} n m p (t : itree E A) Q s : (m <= n)%nat -> safe n p t Q s -> safe m p t Q s.
Proof.
  revert m t s. induction n as [|n IH]; intros [|m] t s Hle Hs; [done|lia|done|]. intros s0 Ha Hk.
  specialize (Hs s0 Ha Hk). destruct (observe t) as [a|t'|X e k]; [done|apply IH; [lia|done]|].
  destruct Hs as [Hm Hs]. split; [done|]. intros x s1 Hx. destruct (Hs x s1 Hx) as (? & ? & ?).
  split_and!; [done..|]. apply IH; [lia|done].
Qed.

Lemma safe_mono {A} n p (t : itree E A) (Q R : A -> K -> Prop) s :
  (forall a s, agreed s -> Q a s -> R a s) -> safe n p t Q s -> safe n p t R s.
Proof.
  intros HQ. revert t s. induction n as [|n IH]; intros t s Hs; [done|]. intros s0 Ha Hk. specialize (Hs s0 Ha Hk).
  destruct (observe t) as [a|t'|X e k]; [by apply HQ|by apply IH|]. destruct Hs as [Hm Hs]. split; [done|].
  intros x s1 Hx. destruct (Hs x s1 Hx) as (? & ? & ?). split_and!; [done..|]. by apply IH.
Qed.

Lemma safe_observe {A} n p (t t' : itree E A) Q s : observe t = observe t' -> safe n p t Q s -> safe n p t' Q s.
Proof. intros O. destruct n; [done|]. intros Hs s0 Ha Hk. rewrite <- O. by apply Hs. Qed.

Lemma safe_bind {A B} n p (t : itree E A) (k : A -> itree E B) R Q s :
  safe n p t R s -> (forall a s', agreed s' -> still p (R a) s' -> safe n p (k a) Q s') -> safe n p (ITree.bind t k) Q s.
Proof.
  revert t s. induction n as [|n IH]; intros t s Hs Hk; [done|]. intros s0 Ha H0. pose proof (Hs s0 Ha H0) as Hs0.
  rewrite observe_bind'. destruct (observe t) as [a|t'|X e h] eqn:O.
  - apply (Hk a s0 Ha); [|done|done]. intros s1 Ha1 Hk1. assert (keeps p s s1) as Hk' by (by etrans).
    specialize (Hs s1 Ha1 Hk'). by rewrite O in Hs.
  - apply IH; [done|]. intros a s' Ha' HR. apply (safe_less (S n)); [lia|]. by apply Hk.
  - destruct Hs0 as [Hm Hx0]. split; [done|]. intros x s1 Hx. destruct (Hx0 x s1 Hx) as (? & ? & ?). split_and!; [done..|].
    apply IH; [done|]. intros a s' Ha' HR. apply (safe_less (S n)); [lia|]. by apply Hk.
Qed.

(** ** Rules *)
Lemma hoare_ret {A} p (P : K -> Prop) `{!Stable p P} (a : A) (Q : A -> K -> Prop) :
  (forall s, agreed s -> P s -> Q a s) -> hoare p P (Ret a) Q.
Proof. intros HQ [|n] s Ha HP; [done|]. intros s0 Ha0 Hk. apply HQ; [done|]. by eapply stable. Qed.

Lemma hoare_call {X} p (P : K -> Prop) `{!Stable p P} (e : E X) (Q : X -> K -> Prop) `{!forall x, Stable p (Q x)} :
  (forall s, agreed s -> P s ->
     may_make p e s
     /\ forall x s', answers p e x s s' -> agreed s' /\ (forall q, q <> p -> keeps q s s') /\ Q x s') ->
  hoare p P (call e) Q.
Proof.
  intros HP [|n] s Ha Hs; [done|]. intros s0 Ha0 Hk. destruct (HP s0 Ha0) as [Hm Hx]; [by eapply stable|].
  split; [done|]. intros x s1 Hans. destruct (Hx x s1 Hans) as (? & ? & HQ). split_and!; [done..|].
  destruct n; [done|]. intros s2 Ha2 Hk2. by eapply stable.
Qed.

Lemma hoare_bind {A B} p (P : K -> Prop) (t : itree E A) (k : A -> itree E B) R Q :
  hoare p P t R -> (forall a, hoare p (R a) (k a) Q) -> hoare p P (ITree.bind t k) Q.
Proof. intros Ht Hk n s Ha HP. eapply safe_bind; [by apply Ht|]. intros a s' Ha' HR. apply Hk; [done|]. by apply HR. Qed.

Lemma hoare_mono {A} p (P P' : K -> Prop) (t : itree E A) Q Q' :
  hoare p P t Q -> (forall s, agreed s -> P' s -> P s) -> (forall a s, agreed s -> Q a s -> Q' a s) -> hoare p P' t Q'.
Proof. intros Ht HP HQ n s Ha HP'. eapply safe_mono; [exact HQ|]. apply Ht; [done|]. by apply HP. Qed.

Lemma hoare_exists {A B} p (P : B -> K -> Prop) (t : itree E A) Q :
  (forall b, hoare p (P b) t Q) -> hoare p (fun s => exists b, P b s) t Q.
Proof. intros Ht n s Ha [b HP]. by apply (Ht b). Qed.

Lemma hoare_pure {A} p (P : K -> Prop) (t : itree E A) (X : Prop) Q :
  (X -> hoare p P t Q) -> hoare p (fun s => X /\ P s) t Q.
Proof. intros Ht n s Ha [HX HP]. by apply Ht. Qed.

Lemma hoare_iter {I A} p (inv : I -> K -> Prop) (Q : A -> K -> Prop) (body : I -> itree E (I + A)) :
  (forall i, hoare p (inv i) (body i) (fun r s => match r with inl i => inv i s | inr a => Q a s end)) ->
  forall i, hoare p (inv i) (ITree.iter body i) Q.
Proof.
  intros Hbody i n. revert i. induction n as [n IH] using lt_wf_ind. intros i s Ha Hi.
  set (next := fun lr : I + A => match lr with inl l => Tau (ITree.iter body l) | inr r => Ret r end).
  apply (safe_observe n p (ITree.bind (body i) next)); [reflexivity|]. eapply safe_bind; [by apply Hbody|].
  intros [j|a] s' Ha' Hr; destruct n as [|n]; try done.
  intros s0 Ha0 Hk. cbn. apply IH; [lia|done|]. by apply (Hr s0).
Qed.

(** ** The processes together *)
Section Together.
Context (Q : pid -> K -> Prop).

Definition all_safe (c : pool) : Prop :=
  agreed c.2 /\ forall p t, c.1 !! p = Some t -> forall n, safe n p t (fun _ => Q p) c.2.

Lemma safe_vis_inv {A X} p (t : itree E A) (e : E X) k R s :
  observe t = VisF e k -> agreed s -> (forall n, safe n p t R s) ->
  may_make p e s
  /\ forall x s', answers p e x s s' ->
     agreed s' /\ (forall q, q <> p -> keeps q s s') /\ forall n, safe n p (k x) R s'.
Proof.
  intros O Ha Hs.
  assert (Hn : forall n, may_make p e s /\ forall x s', answers p e x s s' ->
     agreed s' /\ (forall q, q <> p -> keeps q s s') /\ safe n p (k x) R s').
  { intros n. specialize (Hs (S n) s Ha ltac:(reflexivity)). by rewrite O in Hs. }
  split; [by apply (Hn 0%nat)|]. intros x s' Hx.
  destruct (Hn 0%nat) as [_ H0]. destruct (H0 x s' Hx) as (? & ? & _). split_and!; [done..|].
  intros n. destruct (Hn n) as [_ Hn1]. by destruct (Hn1 x s' Hx) as (? & ? & ?).
Qed.

(** A step of one process keeps its promise to the others and all are safe after it. *)
Lemma moves_safe p c c' :
  all_safe c -> moves p c c' -> all_safe c' /\ forall q, q <> p -> keeps q c.2 c'.2.
Proof.
  intros [Ha Hs] Hm. destruct Hm as [threads s t t' Ht O|threads s t X e k x s' Ht O Hx|threads s t s' Ht Hd]; cbn in *.
  - split; [|by intros; reflexivity]. split; [done|]. intros q u. cbn. rewrite lookup_insert_Some.
    intros [[<- <-]|[Hne Hq]]; [|by apply Hs]. intros n. specialize (Hs p t Ht (S n) s Ha ltac:(reflexivity)).
    by rewrite O in Hs.
  - destruct (safe_vis_inv _ _ _ _ _ _ O Ha (Hs p t Ht)) as [_ Hk]. destruct (Hk x s' Hx) as (Ha' & Hq & Hn).
    split; [|done]. split; [done|]. intros q u. cbn. rewrite lookup_insert_Some. intros [[<- <-]|[Hne Hu]]; [done|].
    intros n. eapply safe_keeps; [by apply Hq|]. by apply Hs.
  - assert (Hq : forall q, q <> p -> keeps q s s') by (intros; by eapply dies_keeps). split; [|done].
    split; [by eapply dies_agreed|]. intros q u. cbn. rewrite lookup_delete_Some. intros [Hne Hu] n.
    eapply safe_keeps; [by apply Hq|]. by apply Hs.
Qed.

Lemma reaches_safe c c' : all_safe c -> reaches c c' -> all_safe c'.
Proof. intros Hs Hr. induction Hr as [|p c' c'' _ IH Hm]; [done|]. by apply (moves_safe p c' c'' IH Hm). Qed.

(** What a process of a safe pool is about to do it may do, and what it has
    come to when it returned. *)
Lemma all_safe_call c p t X (e : E X) k : all_safe c -> c.1 !! p = Some t -> observe t = VisF e k -> may_make p e c.2.
Proof. intros [Ha Hs] Ht O. exact (proj1 (safe_vis_inv _ _ _ _ _ _ O Ha (Hs p t Ht))). Qed.

Lemma all_safe_returned c p t a : all_safe c -> c.1 !! p = Some t -> observe t = RetF a -> Q p c.2.
Proof. intros [Ha Hs] Ht O. specialize (Hs p t Ht 1%nat c.2 Ha ltac:(reflexivity)). by rewrite O in Hs. Qed.
End Together.
End Processes.
