(* ===== verification/RunDirectory.v ===== *)
(** * Run directories

    [internal/rundirectory]: every run has a directory below one authority,
    published by a rename and removed by the run itself or, when it died, by the
    next run that comes along.  A lock on the authority serializes the changes
    of its entries; the liveness lock of a run says that the run is alive, its
    recovery lock serializes those who want to remove it.  The system calls of
    the package are the calls of [DirE]; an [os.File] is a number of its own. *)
From ITree Require Import ITree.
From S2P Require Import Prelude GoText Sorting Paths RunId Effects.

Definition AuthorityRoot : string := "/var/tmp/transferlanes".
Definition livenessLockName : string := "liveness.lock".
Definition recoveryLockName : string := "recovery.lock".
Definition stagingPrefix : string := ".staging-".
Definition removingPrefix : string := ".removing-".

Abbreviation file := nat.

(** What the code uses of [unix.Stat_t]. *)
Record Stat : Type := MkStat { st_mode : Z; st_uid : Z; st_nlink : Z; st_dev : Z; st_ino : Z }.

Inductive context : Type := Background | Bounded.

Inductive DirE : Type -> Type :=
  | OpenPath (path : string) : DirE (result file)
  | OpenDirAt (parent : file) (name : string) : DirE (result file)
  | OpenLockAt (parent : file) (name : string) : DirE (result file)
  | CreateLockAt (parent : file) (name : string) : DirE (result file)
  | Mkdirat (parent : file) (name : string) : DirE (option error)
  | Renameat (parent : file) (old new : string) : DirE (option error)
  | UnlinkFile (parent : file) (name : string) : DirE (option error)
  | RemoveDir (parent : file) (name : string) : DirE (option error)
  | Fstat (f : file) : DirE (result Stat)
  | Fstatat (parent : file) (name : string) : DirE (result Stat)
  | Readdirnames (directory : file) : DirE (result (list string))
  | FlockExclusive (f : file) : DirE (option error)
  | FlockUnlock (f : file) : DirE (option error)
  | Fsync (f : file) : DirE (option error)
  | CloseFile (f : file) : DirE (option error)
  | DuplicateFile (f : file) : DirE (result file)
  | ContextErr (ctx : context) : DirE (option error)
  | WaitForRetry (ctx : context) : DirE (option error)
  | NewID : DirE (result ID)
  (* the other owners recover a stale run in its root, or use a live one *)
  | RecoverRun (id : ID) (root : file) : DirE (option error)
  | UseRoot (root : file) : DirE unit.

Abbreviation prog := (itree DirE).

(** A call that failed: the caller does something about it and returns. *)
Definition try_else {A B} (t : prog (result A)) (h : error -> prog (result B)) (k : A -> prog (result B)) : prog (result B) :=
  ITree.bind t (fun r => match r with Ok a => k a | Err e => h e end).
Notation "'try!' x ':=' t 'or' h 'in' k" := (try_else t h (fun x => k))
  (at level 10, x name, t at level 100, h at level 100, k at level 200).
Definition check_else {B} (t : prog (option error)) (h : error -> prog B) (k : prog B) : prog B :=
  ITree.bind t (fun r => match r with None => k | Some e => h e end).
Notation "'ensure!' t 'or' h 'in' k" := (check_else t h k)
  (at level 10, t at level 100, h at level 100, k at level 200).

Definition fail {A} (context : string) (e : error) : prog (result A) := Ret (Err (ErrWrap context e)).
Definition failing (context : string) (e : error) : prog (option error) := Ret (Some (ErrWrap context e)).

(** [errors.Join(err, other)] of an error that is not nil. *)
Definition join_error (e : error) (other : option error) : error := default e (errors_Join [Some e; other]).

(** ** Errors of the kernel *)
Definition ENOENT : error := ErrSentinel "no such file or directory".
Definition EEXIST : error := ErrSentinel "file exists".
Definition EAGAIN : error := ErrSentinel "resource temporarily unavailable".

Definition is_errno (errno e : error) : bool :=
  match errno, e with ErrSentinel n, ErrSentinel m => bool_decide (n = m) | _, _ => false end.
Definition lockBusy (e : error) : bool := is_errno EAGAIN e.

(** ** Files *)
Definition octal_digit (d : Z) : string := text_of [z2b (0x30 + d)].
Fixpoint octal_from (fuel : nat) (n : Z) : string :=
  match fuel with
  | O => ""
  | S fuel => if n <? 8 then octal_digit n else octal_from fuel (n / 8) +:+ octal_digit (n mod 8)
  end.
(** [%o] of a mode of nine bits. *)
Definition octal (n : Z) : string := octal_from 3 n.

Definition S_IFMT : Z := 0xf000.
Definition S_IFDIR : Z := 0x4000.
Definition S_IFREG : Z := 0x8000.
Definition ModePerm : Z := 511.
Definition mode_0700 : Z := 448.
Definition mode_0600 : Z := 384.

Section Owner.
(** [unix.Geteuid()] and the root of the authority. *)
Context (euid : Z) (authorityRoot : string).

Definition validateOwnershipAndMode (stat : Stat) (mode : Z) : option error :=
  if negb (st_uid stat =? euid)
  then Some (ErrText ("owner uid " +:+ pretty (st_uid stat) +:+ " does not match effective uid"))
  else if negb (Z.land (st_mode stat) ModePerm =? mode)
  then Some (ErrText ("mode " +:+ octal (Z.land (st_mode stat) ModePerm) +:+ ", want " +:+ octal mode))
  else None.

Definition validateOwnedDirectory (f : file) (mode : Z) : prog (option error) :=
  do! stat := call (Fstat f) in
  match stat with
  | Err e => Ret (Some e)
  | Ok stat =>
      if negb (Z.land (st_mode stat) S_IFMT =? S_IFDIR) then Ret (Some (ErrText "not a directory"))
      else Ret (validateOwnershipAndMode stat mode)
  end.

Definition validateOwnedRegular (f : file) (mode : Z) : prog (option error) :=
  do! stat := call (Fstat f) in
  match stat with
  | Err e => Ret (Some e)
  | Ok stat =>
      if negb (Z.land (st_mode stat) S_IFMT =? S_IFREG) || negb (st_nlink stat =? 1)
      then Ret (Some (ErrText "not a singly linked regular file"))
      else Ret (validateOwnershipAndMode stat mode)
  end.

(** [_ = file.Close()]. *)
Definition close_quietly (f : file) : prog unit := do! e := call (CloseFile f) in Ret tt.

Definition openDirectory (path : string) : prog (result file) := call (OpenPath path).
Definition openDirectoryAt (parent : file) (name : string) : prog (result file) := call (OpenDirAt parent name).
Definition openDirectoryCopy (directory : file) : prog (result file) := openDirectoryAt directory ".".

(** A lock file that was just opened or created. *)
Definition checked_lock (opened : prog (result file)) : prog (result file) :=
  do* f := opened in
  ensure! validateOwnedRegular f mode_0600 or (fun e => do! closed := close_quietly f in Ret (Err e)) in
  Ret (Ok f).

Definition createLockFile (parent : file) (name : string) : prog (result file) := checked_lock (call (CreateLockAt parent name)).
Definition openLockFile (parent : file) (name : string) : prog (result file) := checked_lock (call (OpenLockAt parent name)).

Definition same_inode (left right : Stat) : bool := (st_dev left =? st_dev right) && (st_ino left =? st_ino right).

Definition sameDirectory (left right : file) : prog (result bool) :=
  do* leftStat := call (Fstat left) in
  do* rightStat := call (Fstat right) in
  Ret (Ok (same_inode leftStat rightStat)).

Definition entryExists (parent : file) (name : string) : prog (result bool) :=
  do! stat := call (Fstatat parent name) in
  match stat with
  | Ok _ => Ret (Ok true)
  | Err e => if is_errno ENOENT e then Ret (Ok false) else Ret (Err e)
  end.

Definition readDirectoryNames (directory : file) : prog (result (list string)) :=
  do* copy := openDirectoryCopy directory in
  do! names := call (Readdirnames copy) in
  do! closed := close_quietly copy in
  Ret names.

(** ** Locks *)
Definition lockWithContext (ctx : context) (f : file) : prog (option error) :=
  ITree.iter (fun _ : unit =>
    do! ended := call (ContextErr ctx) in
    match ended with
    | Some e => Ret (inr (Some e))
    | None =>
        do! err := call (FlockExclusive f) in
        match err with
        | None => Ret (inr None)
        | Some e =>
            if negb (lockBusy e) then Ret (inr (Some e))
            else
              do! waited := call (WaitForRetry ctx) in
              match waited with Some e => Ret (inr (Some e)) | None => Ret (inl tt) end
        end
    end) tt.

Definition tryLock (f : file) : prog (result bool) :=
  do! err := call (FlockExclusive f) in
  match err with
  | None => Ret (Ok true)
  | Some e => if lockBusy e then Ret (Ok false) else Ret (Err e)
  end.

Definition unlock (f : option file) : prog (option error) :=
  match f with None => Ret None | Some f => call (FlockUnlock f) end.

(** ** The authority *)
Record authorityDirectory : Type := MkAuthority { au_parent : file; au_root : file }.

Definition Dir (path : string) : string :=
  match split_on slash path with
  | [] | [_] => Clean ""
  | components => Clean (Join (removelast components) "/" +:+ "/")
  end.

Definition close_root_and_parent (root parent : file) : prog unit :=
  do! a := close_quietly root in close_quietly parent.

Definition syncAuthorityCreation (root parent : file) : prog (option error) :=
  ensure! call (Fsync root) or failing "sync authority root" in
  ensure! call (Fsync parent) or failing "sync authority parent" in
  Ret None.

Definition make_authority (parent : file) (name : string) : prog (option error) :=
  do! made := call (Mkdirat parent name) in
  Ret match made with Some e => if is_errno EEXIST e then None else Some e | None => None end.

Definition openAuthority : prog (result authorityDirectory) :=
  let parentPath := Dir authorityRoot in
  let name := Base authorityRoot in
  try! parent := openDirectory parentPath or fail ("open authority parent " +:+ Quote parentPath) in
  ensure! make_authority parent name
    or (fun e => do! closed := close_quietly parent in fail "create authority root" e) in
  try! root := openDirectoryAt parent name
    or (fun e => do! closed := close_quietly parent in fail "open authority root" e) in
  ensure! validateOwnedDirectory root mode_0700
    or (fun e => do! closed := close_root_and_parent root parent in fail "validate authority root" e) in
  ensure! syncAuthorityCreation root parent
    or (fun e => do! closed := close_root_and_parent root parent in Ret (Err e)) in
  Ret (Ok (MkAuthority parent root)).

(** [Close] of an authority. *)
Definition authority_close (authority : authorityDirectory) : prog (option error) :=
  do! rootErr := call (CloseFile (au_root authority)) in
  do! parentErr := call (CloseFile (au_parent authority)) in
  Ret (errors_Join [rootErr; parentErr]).

Definition compare_authority (current : file) (authority : authorityDirectory) : prog (option error) :=
  do! same := sameDirectory current (au_root authority) in
  match same with
  | Err e => failing "compare authority root identity" e
  | Ok false => Ret (Some (ErrText "authority root changed identity"))
  | Ok true => Ret None
  end.

Definition verifyAuthorityLocation (authority : authorityDirectory) : prog (option error) :=
  do! current := openDirectoryAt (au_parent authority) (Base authorityRoot) in
  match current with
  | Err e => failing "reopen authority root" e
  | Ok current =>
      do! compared := compare_authority current authority in
      do! closed := close_quietly current in
      Ret compared
  end.

(** [defer authority.Close()]. *)
Definition with_authority {A} (authority : authorityDirectory) (body : prog A) : prog A :=
  do! a := body in
  do! closed := authority_close authority in
  Ret a.

(** [lockWithContext] on the root of the authority, [defer unlock]. *)
Definition with_lock {A} (ctx : context) (authority : authorityDirectory) (h : error -> prog A) (body : prog A) : prog A :=
  ensure! lockWithContext ctx (au_root authority) or h in
  do! a := body in
  do! unlocked := unlock (Some (au_root authority)) in
  Ret a.

(** ** Temporary directories *)
Definition validTemporarySuffix (suffix : string) (matched : bool) : bool :=
  if negb matched || negb (slen suffix =? 65)
     || negb (match bytes_of suffix !! 32%nat with Some b => Byte.eqb b x2d | None => false end)
  then false
  else is_ok (Parse (stake 32 suffix)) && is_ok (Parse (sdrop 33 suffix)).

(** The suffix [strings.TrimPrefix] leaves; no prefix is empty, so a name
    differs from its suffix exactly when it has the prefix. *)
Definition has_temporary_prefix (prefix name : string) : bool :=
  validTemporarySuffix (if HasPrefix name prefix then sdrop (String.length prefix) name else name) (HasPrefix name prefix).

Definition isTemporaryName (name : string) : bool :=
  has_temporary_prefix stagingPrefix name || has_temporary_prefix removingPrefix name.

Definition freshTemporaryName (prefix : string) (id : ID) : prog (result string) :=
  try! nonce := call NewID or fail "generate temporary directory name" in
  Ret (Ok (prefix +:+ IDString id +:+ "-" +:+ IDString nonce)).

(** The names found, all of them lock files. *)
Fixpoint check_entries (directory : file) (found : list string) (names : list string) : prog (result (list string)) :=
  match names with
  | [] => Ret (Ok found)
  | name :: names =>
      if negb (bool_decide (name = livenessLockName)) && negb (bool_decide (name = recoveryLockName))
      then Ret (Err (ErrText ("unexpected entry " +:+ Quote name)))
      else
        do* f := openLockFile directory name in
        check* call (CloseFile f) in
        check_entries directory (name :: found) names
  end.

Definition validateFixedEntries (directory : file) (allowMissing : bool) : prog (option error) :=
  do! names := readDirectoryNames directory in
  match names with
  | Err e => Ret (Some e)
  | Ok names =>
      do! found := check_entries directory [] names in
      match found with
      | Err e => Ret (Some e)
      | Ok found =>
          if negb allowMissing
             && (negb (bool_decide (livenessLockName ∈ found)) || negb (bool_decide (recoveryLockName ∈ found)))
          then Ret (Some (ErrText "run root is missing a lock file"))
          else Ret None
      end
  end.

Fixpoint remove_locks (directory : file) (name : string) (locks : list string) : prog (option error) :=
  match locks with
  | [] => Ret None
  | lockName :: locks =>
      do! removed := call (UnlinkFile directory lockName) in
      match removed with
      | Some e => if is_errno ENOENT e then remove_locks directory name locks
                  else failing ("remove " +:+ lockName +:+ " from " +:+ Quote name) e
      | None => remove_locks directory name locks
      end
  end.

Definition remove_temporary (authority : authorityDirectory) (name : string) (directory : file) : prog (option error) :=
  let validate := "validate temporary directory " +:+ Quote name in
  ensure! validateOwnedDirectory directory mode_0700 or failing validate in
  ensure! validateFixedEntries directory true or failing validate in
  ensure! remove_locks directory name [livenessLockName; recoveryLockName] or (fun e => Ret (Some e)) in
  ensure! call (RemoveDir (au_root authority) name) or failing ("remove temporary directory " +:+ Quote name) in
  ensure! call (Fsync (au_root authority)) or failing ("sync removal of temporary directory " +:+ Quote name) in
  Ret None.

Definition removeUnpublished (authority : authorityDirectory) (name : string) : prog (option error) :=
  if negb (isTemporaryName name) then Ret (Some (ErrText ("refuse to remove non-temporary entry " +:+ Quote name)))
  else
    do! directory := openDirectoryAt (au_root authority) name in
    match directory with
    | Err e => if is_errno ENOENT e then Ret None else failing ("open temporary directory " +:+ Quote name) e
    | Ok directory =>
        do! removed := remove_temporary authority name directory in
        do! closed := close_quietly directory in
        Ret removed
    end.

(** ** Publishing *)
Definition close_if (f : option file) (closing : file -> prog (list (option error))) : prog (list (option error)) :=
  match f with None => Ret [] | Some f => closing f end.

(** Each join of the code takes the errors so far and the next ones; they are
    joined here at once. *)
Definition closeRunFiles (liveness recovery directory : option file) : prog (option error) :=
  do! a := close_if liveness (fun f => do! u := unlock (Some f) in do! c := call (CloseFile f) in Ret [u; c]) in
  do! b := close_if recovery (fun f => do! c := call (CloseFile f) in Ret [c]) in
  do! c := close_if directory (fun f => do! c := call (CloseFile f) in Ret [c]) in
  Ret (errors_Join (a ++ b ++ c)).

Record runPublication : Type := MkPublication {
  pub_stagingName : string;
  pub_published : bool;
  pub_directory : option file;
  pub_liveness : option file;
  pub_recovery : option file
}.

Definition discardRunPublication (authority : authorityDirectory) (id : ID) (publication : runPublication)
    : prog (option error) :=
  do! closeErr := closeRunFiles (pub_liveness publication) (pub_recovery publication) (pub_directory publication) in
  do! isolated :=
    (if pub_published publication then call (Renameat (au_root authority) (IDString id) (pub_stagingName publication))
     else Ret None) in
  match isolated with
  | Some e => Ret (errors_Join [closeErr; Some (ErrWrap "isolate failed publication" e)])
  | None =>
      do! removed := removeUnpublished authority (pub_stagingName publication) in
      Ret (errors_Join [closeErr; removed])
  end.

Definition syncPublishedFiles (directory liveness recovery : file) : prog (option error) :=
  ensure! call (Fsync liveness) or failing "sync liveness lock" in
  ensure! call (Fsync recovery) or failing "sync recovery lock" in
  ensure! call (Fsync directory) or failing "sync staging directory" in
  Ret None.

(** A failed publication is discarded. *)
Definition abandon {A} (authority : authorityDirectory) (id : ID) (publication : runPublication) (e : error) : prog (result A) :=
  do! discarded := discardRunPublication authority id publication in
  Ret (Err (join_error e discarded)).

Definition lock_new_liveness (liveness : file) : prog (option error) :=
  do! locked := tryLock liveness in
  match locked with
  | Err e => failing "lock liveness file" e
  | Ok false => Ret (Some (ErrText "new liveness file is unexpectedly locked"))
  | Ok true => Ret None
  end.

Definition stageRun (authority : authorityDirectory) (id : ID) : prog (result runPublication) :=
  do* stagingName := freshTemporaryName stagingPrefix id in
  ensure! call (Mkdirat (au_root authority) stagingName) or fail "create staging directory" in
  let pub := MkPublication stagingName false in
  try! directory := openDirectoryAt (au_root authority) stagingName
    or (fun e => abandon authority id (pub None None None) (ErrWrap "open staging directory" e)) in
  ensure! validateOwnedDirectory directory mode_0700
    or (fun e => abandon authority id (pub (Some directory) None None) (ErrWrap "validate staging directory" e)) in
  try! liveness := createLockFile directory livenessLockName
    or (fun e => abandon authority id (pub (Some directory) None None) (ErrWrap "create liveness lock" e)) in
  try! recovery := createLockFile directory recoveryLockName
    or (fun e => abandon authority id (pub (Some directory) (Some liveness) None) (ErrWrap "create recovery lock" e)) in
  let publication := pub (Some directory) (Some liveness) (Some recovery) in
  ensure! syncPublishedFiles directory liveness recovery or abandon authority id publication in
  ensure! lock_new_liveness liveness or abandon authority id publication in
  Ret (Ok publication).

Definition published (publication : runPublication) : runPublication :=
  MkPublication (pub_stagingName publication) true (pub_directory publication) (pub_liveness publication)
    (pub_recovery publication).

(** The publication as the commit leaves it, and the error of the commit. *)
Definition commitRunPublication (authority : authorityDirectory) (id : ID) (publication : runPublication)
    : prog (runPublication * option error) :=
  do! exists_ := entryExists (au_root authority) (IDString id) in
  match exists_ with
  | Err e => Ret (publication, Some (ErrWrap "check run identity collision" e))
  | Ok true => Ret (publication, Some (ErrText ("run " +:+ IDString id +:+ " already exists")))
  | Ok false =>
      ensure! call (Renameat (au_root authority) (pub_stagingName publication) (IDString id))
        or (fun e => Ret (publication, Some (ErrWrap "publish run root" e))) in
      let publication := published publication in
      ensure! call (Fsync (au_root authority)) or (fun e => Ret (publication, Some (ErrWrap "sync published run root" e))) in
      ensure! verifyAuthorityLocation authority
        or (fun e => Ret (publication, Some (ErrWrap "verify published authority" e))) in
      Ret (publication, None)
  end.

(** ** Leases *)
Record runLease : Type := MkLease {
  le_id : ID;
  le_root : option file;
  le_live : option file;
  le_recovery : option file;
  le_closed : bool;
  le_retained : bool
}.

Definition new_lease (id : ID) (root live recovery : option file) : runLease := MkLease id root live recovery false false.
Definition mark_closed (lease : runLease) : runLease :=
  MkLease (le_id lease) (le_root lease) (le_live lease) (le_recovery lease) true (le_retained lease).
Definition mark_retained (retained : bool) (lease : runLease) : runLease :=
  MkLease (le_id lease) (le_root lease) (le_live lease) (le_recovery lease) (le_closed lease) retained.
Definition take_recovery (recovery : file) (lease : runLease) : runLease :=
  MkLease (le_id lease) (le_root lease) (le_live lease) (Some recovery) (le_closed lease) (le_retained lease).

Definition closeLocked (lease : runLease) : prog (runLease * option error) :=
  do! err := closeRunFiles (le_live lease) (le_recovery lease) (le_root lease) in
  Ret (mark_closed lease, err).

Definition lease_close (lease : runLease) : prog (runLease * option error) :=
  if le_closed lease then Ret (lease, None)
  else if le_retained lease then Ret (lease, Some (ErrText "run liveness release belongs to process containment"))
  else closeLocked lease.

(** An error of the caller, joined with the one of closing the lease. *)
Definition close_after (lease : runLease) (e : error) : prog (runLease * option error) :=
  do! ' (lease, closed) := lease_close lease in
  Ret (lease, Some (join_error e closed)).

Definition openRoot (lease : runLease) : prog (result file) :=
  if le_closed lease || le_retained lease then Ret (Err (ErrText "run root lease is closed"))
  else
    match le_root lease with
    | None => Ret (Err (ErrText "invalid argument"))
    | Some root =>
        try! copy := call (DuplicateFile root) or fail "duplicate run root descriptor" in
        Ret (Ok copy)
    end.

(** The lease as it waits, and what the goroutine does when the signal comes. *)
Definition retainUntil (lease : runLease) : runLease * option error :=
  if le_closed lease || le_retained lease
  then (lease, Some (ErrText "run liveness lease cannot be transferred"))
  else (mark_retained true lease, None).
Definition release_retained (lease : runLease) : prog (runLease * option error) := closeLocked (mark_retained false lease).

Definition liveRunFromPublication (id : ID) (publication : runPublication) : prog (result runLease) :=
  ensure! (match pub_recovery publication with Some f => call (CloseFile f) | None => Ret (Some (ErrText "invalid argument")) end)
    or fail "close recovery lock after publish" in
  Ret (Ok (new_lease id (pub_directory publication) (pub_liveness publication) None)).

Definition publishRun (authority : authorityDirectory) (id : ID) : prog (result runLease) :=
  do* publication := stageRun authority id in
  do! ' (publication, refused) := commitRunPublication authority id publication in
  match refused with
  | Some e => abandon authority id publication e
  | None => try! lease := liveRunFromPublication id publication or abandon authority id publication in Ret (Ok lease)
  end.

Definition validateRunID (id : ID) : option error :=
  match Parse (IDString id) with
  | Ok parsed => if bool_decide (parsed = id) then None else Some (ErrWrap "invalid run ID" ErrInvalid)
  | Err _ => Some (ErrWrap "invalid run ID" ErrInvalid)
  end.

Definition Create (id : ID) : prog (result runLease) :=
  match validateRunID id with
  | Some e => Ret (Err e)
  | None =>
      do* authority := openAuthority in
      with_authority authority
        (with_lock Background authority (fail "lock authority root") (publishRun authority id))
  end.

(** ** Removing *)
Definition isolate_and_remove (authority : authorityDirectory) (id : ID) : prog (option error) :=
  do! removingName := freshTemporaryName removingPrefix id in
  match removingName with
  | Err e => Ret (Some e)
  | Ok removingName =>
      ensure! call (Renameat (au_root authority) (IDString id) removingName)
        or failing ("isolate completed run " +:+ IDString id) in
      ensure! call (Fsync (au_root authority)) or failing ("sync isolated run " +:+ IDString id) in
      ensure! removeUnpublished authority removingName or failing ("remove completed run " +:+ IDString id) in
      Ret None
  end.

Definition check_claimed (authority : authorityDirectory) (id : ID) (root current : file) : prog (option error) :=
  do! same := sameDirectory current root in
  match same with
  | Err e => failing ("verify claimed run " +:+ IDString id) e
  | Ok false => Ret (Some (ErrText ("claimed run " +:+ IDString id +:+ " changed identity")))
  | Ok true =>
      ensure! validateFixedEntries root false or failing ("validate completed run " +:+ IDString id) in
      isolate_and_remove authority id
  end.

Definition remove_claimed (authority : authorityDirectory) (id : ID) (root : file) : prog (option error) :=
  ensure! verifyAuthorityLocation authority or failing "verify authority for run removal" in
  do! current := openDirectoryAt (au_root authority) (IDString id) in
  match current with
  | Err e => failing ("reopen claimed run " +:+ IDString id) e
  | Ok current =>
      do! removed := check_claimed authority id root current in
      do! closed := close_quietly current in
      Ret removed
  end.

Definition removeClaimedRun (ctx : context) (authority : authorityDirectory) (lease : runLease) : prog (option error) :=
  with_lock ctx authority (failing "lock authority for run removal")
    (match le_root lease with
     | Some root => remove_claimed authority (le_id lease) root
     | None => Ret (Some (ErrText "invalid argument"))
     end).

Definition remove_completed (ctx : context) (lease : runLease) : prog (runLease * option error) :=
  do! authority := openAuthority in
  match authority with
  | Err e => close_after lease e
  | Ok authority =>
      do! removeErr := removeClaimedRun ctx authority lease in
      do! closeErr := authority_close authority in
      do! ' (lease, leaseErr) := lease_close lease in
      Ret (lease, errors_Join [removeErr; closeErr; leaseErr])
  end.

Definition completeLive (ctx : context) (lease : runLease) : prog (runLease * option error) :=
  if le_closed lease || le_retained lease
  then Ret (lease, Some (ErrText "live run is closed or retained by process containment"))
  else
    match le_root lease with
    | None => close_after lease (ErrWrap "open recovery lock for completion" (ErrText "invalid argument"))
    | Some root =>
        do! recovery := openLockFile root recoveryLockName in
        match recovery with
        | Err e => close_after lease (ErrWrap "open recovery lock for completion" e)
        | Ok recovery =>
            do! locked := lockWithContext ctx recovery in
            match locked with
            | Some e =>
                do! closed := close_quietly recovery in
                close_after lease (ErrWrap "lock recovery file for completion" e)
            | None => remove_completed ctx (take_recovery recovery lease)
            end
        end
    end.

(** ** Recovery *)
Fixpoint remove_temporaries (authority : authorityDirectory) (published : list string) (names : list string)
    : prog (result (list string)) :=
  match names with
  | [] => Ret (Ok (sort_by sltb published))
  | name :: names =>
      if negb (isTemporaryName name) then remove_temporaries authority (published ++ [name]) names
      else check* removeUnpublished authority name in remove_temporaries authority published names
  end.

Definition snapshot_entries (authority : authorityDirectory) : prog (result (list string)) :=
  ensure! verifyAuthorityLocation authority or fail "verify authority for recovery snapshot" in
  try! names := readDirectoryNames (au_root authority) or fail "list authority for recovery snapshot" in
  remove_temporaries authority [] names.

Definition snapshotRecoveryEntries (ctx : context) (authority : authorityDirectory) : prog (result (list string)) :=
  with_lock ctx authority (fail "lock authority for recovery snapshot") (snapshot_entries authority).

Inductive runClaim : Type :=
  | claimMissing
  | claimActive
  | claimBusy
  | claimStale (lease : runLease).

Definition checkRunLiveness (id : ID) (root recovery : file) : prog (result runClaim) :=
  try! liveness := openLockFile root livenessLockName
    or (fun e =>
          do! unlocked := unlock (Some recovery) in
          do! closed := close_root_and_parent recovery root in
          fail ("open liveness lock for " +:+ IDString id) e) in
  try! liveLocked := tryLock liveness
    or (fun e =>
          do! closed := closeRunFiles (Some liveness) (Some recovery) (Some root) in
          fail ("lock liveness file for " +:+ IDString id) e) in
  if negb liveLocked then
    do! closed := closeRunFiles None (Some recovery) (Some root) in
    do! closed := close_quietly liveness in
    Ret (Ok claimActive)
  else Ret (Ok (claimStale (new_lease id (Some root) (Some liveness) (Some recovery)))).

Definition lockRunForRecovery (id : ID) (root : file) : prog (result runClaim) :=
  try! recovery := openLockFile root recoveryLockName
    or (fun e => do! closed := close_quietly root in fail ("open recovery lock for " +:+ IDString id) e) in
  try! locked := tryLock recovery
    or (fun e => do! closed := close_root_and_parent recovery root in fail ("lock recovery file for " +:+ IDString id) e) in
  if negb locked then do! closed := close_root_and_parent recovery root in Ret (Ok claimBusy)
  else checkRunLiveness id root recovery.

Definition claimRun (authority : file) (id : ID) : prog (result runClaim) :=
  do! root := openDirectoryAt authority (IDString id) in
  match root with
  | Err e => if is_errno ENOENT e then Ret (Ok claimMissing) else fail ("open run root " +:+ IDString id) e
  | Ok root =>
      ensure! validateOwnedDirectory root mode_0700
        or (fun e => do! closed := close_quietly root in fail ("validate run root " +:+ IDString id) e) in
      lockRunForRecovery id root
  end.

(** [lease.close()] is the last thing that happens to a lease of recovery. *)
Definition close_last (lease : runLease) (e : option error) : prog (option error) :=
  do! ' (_, closed) := lease_close lease in
  Ret (match e with Some e => Some (join_error e closed) | None => closed end).

Definition recoverClaim (ctx : context) (authority : authorityDirectory) (lease : runLease) : prog (option error) :=
  ensure! verifyAuthorityLocation authority or (fun e => close_last lease (Some (ErrWrap "verify recovery authority" e))) in
  do! recovered :=
    (match le_root lease with
     | Some root => call (RecoverRun (le_id lease) root)
     | None => Ret (Some (ErrText "invalid argument"))
     end) in
  match recovered with
  | Some e => close_last lease (Some e)
  | None =>
      ensure! removeClaimedRun ctx authority lease or (fun e => close_last lease (Some e)) in
      close_last lease None
  end.

(** Whether the pass has to start again. *)
Fixpoint recover_names (ctx : context) (authority : authorityDirectory) (names : list string) : prog (result bool) :=
  match names with
  | [] => Ret (Ok false)
  | name :: names =>
      match Parse name with
      | Err _ => Ret (Err (ErrText ("unexpected entry " +:+ Quote name +:+ " in authority root")))
      | Ok id =>
          do* claim := claimRun (au_root authority) id in
          match claim with
          | claimMissing | claimActive => recover_names ctx authority names
          | claimBusy => Ret (Ok true)
          | claimStale lease =>
              check* recoverClaim ctx authority lease in
              recover_names ctx authority names
          end
      end
  end.

Definition recoverPass (ctx : context) : prog (result bool) :=
  do* authority := openAuthority in
  with_authority authority
    (do* names := snapshotRecoveryEntries ctx authority in recover_names ctx authority names).

Definition RecoverStale (ctx : context) : prog (option error) :=
  ITree.iter (fun _ : unit =>
    do! restart := recoverPass ctx in
    match restart with
    | Err e => Ret (inr (Some e))
    | Ok false => Ret (inr None)
    | Ok true =>
        do! waited := call (WaitForRetry ctx) in
        match waited with Some e => Ret (inr (Some e)) | None => Ret (inl tt) end
    end) tt.
End Owner.
