(* ===== verification/RunKernel.v ===== *)
(** * The disk under the run directories

    The directories and lock files of one authority, the open files and the
    locks of the processes that use it, and what each system call of [DirE] does
    to them.  Any call may fail and then changes nothing; an open file counts
    until it is closed or its process dies, and a lock belongs to the open file
    that took it.  What a process may rely on is [keeps]. *)
From ITree Require Import ITree.
From S2P Require Import Prelude Sorting GoText Paths RunId Effects Interference RunDirectory.

Inductive object : Type :=
  | Parent
  | Authority
  | RunRoot (run : nat)
  | LockFile (number : nat).

#[export] Instance object_eq_dec : EqDecision object.
Proof. solve_decision. Defined.
#[export] Instance object_countable : Countable object.
Proof.
  refine (inj_countable'
    (fun o => match o with Parent => inl false | Authority => inl true | RunRoot i => inr (inl i) | LockFile j => inr (inr j) end)
    (fun c => match c with inl false => Parent | inl true => Authority | inr (inl i) => RunRoot i | inr (inr j) => LockFile j end) _).
  by intros [].
Defined.

(** The inode number of an object. *)
Definition inode (o : object) : Z :=
  match o with
  | Parent => 1
  | Authority => 2
  | RunRoot i => 3 + 2 * Z.of_nat i
  | LockFile j => 4 + 2 * Z.of_nat j
  end.

Lemma inode_inj o o' : inode o = inode o' -> o = o'.
Proof. destruct o, o'; cbn; intros; try lia; f_equal; lia. Qed.

(** A lock file of a run directory: not there yet, there, gone. *)
Inductive slot : Type := Never | Present (number : nat) | Removed.

#[export] Instance slot_eq_dec : EqDecision slot.
Proof. solve_decision. Defined.

Record RunDir : Type := MkRunDir {
  rd_creator : pid;
  rd_live : slot;
  rd_recovery : slot;
  (* the files of the other owners *)
  rd_other : gset string
}.

Record Disk : Type := MkDisk {
  d_made : bool;
  d_names : gmap string nat;
  d_runs : gmap nat RunDir
}.

Record Kernel : Type := MkKernel {
  k_disk : Disk;
  k_files : gmap (pid * file) object;
  k_locks : gmap object (pid * file);
  k_next : nat
}.

Definition is_present (s : slot) : bool := match s with Present _ => true | _ => false end.
Definition present_number (s : slot) : option nat := match s with Present j => Some j | _ => None end.
Definition is_lock_name (name : string) : bool :=
  bool_decide (name = livenessLockName) || bool_decide (name = recoveryLockName).
Definition slot_of (name : string) (d : RunDir) : slot :=
  if bool_decide (name = livenessLockName) then rd_live d else rd_recovery d.
Definition set_slot (name : string) (s : slot) (d : RunDir) : RunDir :=
  if bool_decide (name = livenessLockName) then MkRunDir (rd_creator d) s (rd_recovery d) (rd_other d)
  else MkRunDir (rd_creator d) (rd_live d) s (rd_other d).
Definition set_other (other : gset string) (d : RunDir) : RunDir :=
  MkRunDir (rd_creator d) (rd_live d) (rd_recovery d) other.
Definition entries_of (d : RunDir) : gset string :=
  (if is_present (rd_live d) then {[ livenessLockName ]} else ∅)
  ∪ (if is_present (rd_recovery d) then {[ recoveryLockName ]} else ∅) ∪ rd_other d.
Definition is_empty (d : RunDir) : Prop := entries_of d = ∅.

(** The other owners have names of their own. *)
Definition no_lock_names (other : gset string) : Prop := forall name, name ∈ other -> is_lock_name name = false.

Definition set_names (names : gmap string nat) (D : Disk) : Disk := MkDisk (d_made D) names (d_runs D).
Definition set_run (i : nat) (d : RunDir) (D : Disk) : Disk := MkDisk (d_made D) (d_names D) (<[ i := d ]> (d_runs D)).
Definition make (D : Disk) : Disk := MkDisk true (d_names D) (d_runs D).

Definition with_disk (D : Disk) (K : Kernel) : Kernel := MkKernel D (k_files K) (k_locks K) (k_next K).
Definition bump (K : Kernel) : Kernel := MkKernel (k_disk K) (k_files K) (k_locks K) (S (k_next K)).
Definition add_file (p : pid) (o : object) (K : Kernel) : Kernel :=
  MkKernel (k_disk K) (<[ (p, k_next K) := o ]> (k_files K)) (k_locks K) (S (k_next K)).
Definition set_locks (locks : gmap object (pid * file)) (K : Kernel) : Kernel :=
  MkKernel (k_disk K) (k_files K) locks (k_next K).
Definition drop_lock (p : pid) (f : file) (o : object) (K : Kernel) : Kernel :=
  if bool_decide (k_locks K !! o = Some (p, f)) then set_locks (delete o (k_locks K)) K else K.
Definition drop_file (p : pid) (f : file) (o : object) (K : Kernel) : Kernel :=
  let K := drop_lock p f o K in MkKernel (k_disk K) (delete (p, f) (k_files K)) (k_locks K) (k_next K).

Section Calls.
Context (authorityRoot : string).

Definition dir_at (p : pid) (parent : file) (name : string) (K : Kernel) : option object :=
  match k_files K !! (p, parent) with
  | Some Parent => if bool_decide (name = Base authorityRoot) && d_made (k_disk K) then Some Authority else None
  | Some Authority => if bool_decide (name = ".") then Some Authority else RunRoot <$> d_names (k_disk K) !! name
  | Some (RunRoot i) => if bool_decide (name = ".") then Some (RunRoot i) else None
  | _ => None
  end.

(** The directory a file is, with its state. *)
Definition run_at (p : pid) (f : file) (K : Kernel) : option (nat * RunDir) :=
  match k_files K !! (p, f) with
  | Some (RunRoot i) => d ← d_runs (k_disk K) !! i; Some (i, d)
  | _ => None
  end.

Definition lock_at (p : pid) (parent : file) (name : string) (K : Kernel) : option object :=
  '(_, d) ← run_at p parent K;
  if is_lock_name name then LockFile <$> present_number (slot_of name d) else None.

Definition opened (p : pid) (target : option object) (r : result file) (K K' : Kernel) : Prop :=
  match r with
  | Ok f => exists o, target = Some o /\ f = k_next K /\ K' = add_file p o K
  | Err e => K' = K /\ (is_errno ENOENT e = true -> target = None)
  end.

Definition unchanged (err : option error) (K K' : Kernel) (done : Prop) : Prop :=
  match err with None => done | Some _ => K' = K end.

Definition names_of (p : pid) (f : file) (K : Kernel) : option (gset string) :=
  match k_files K !! (p, f) with
  | Some Authority => Some (dom (d_names (k_disk K)))
  | Some (RunRoot i) => entries_of <$> d_runs (k_disk K) !! i
  | _ => None
  end.

Definition named_run (p : pid) (parent : file) (name : string) (K : Kernel) (i : nat) (d : RunDir) : Prop :=
  k_files K !! (p, parent) = Some Authority /\ d_names (k_disk K) !! name = Some i /\ d_runs (k_disk K) !! i = Some d.

Definition step {X} (p : pid) (e : DirE X) : X -> Kernel -> Kernel -> Prop :=
  match e in DirE X return X -> Kernel -> Kernel -> Prop with
  | OpenPath path => fun r K K' => opened p (if bool_decide (path = Dir authorityRoot) then Some Parent else None) r K K'
  | OpenDirAt parent name => fun r K K' => opened p (dir_at p parent name K) r K K'
  | OpenLockAt parent name => fun r K K' => opened p (lock_at p parent name K) r K K'
  | CreateLockAt parent name => fun r K K' =>
      match r with
      | Ok f =>
          exists i d, run_at p parent K = Some (i, d) /\ is_lock_name name = true /\ is_present (slot_of name d) = false
          /\ f = k_next K
          /\ K' = bump (with_disk (set_run i (set_slot name (Present (k_next K)) d) (k_disk K)) (add_file p (LockFile (k_next K)) K))
      | Err _ => K' = K
      end
  | Mkdirat parent name => fun err K K' =>
      unchanged err K K'
        ((k_files K !! (p, parent) = Some Parent /\ name = Base authorityRoot /\ d_made (k_disk K) = false
          /\ K' = with_disk (make (k_disk K)) K)
         \/ (k_files K !! (p, parent) = Some Authority /\ d_names (k_disk K) !! name = None
             /\ K' = bump (with_disk (set_run (k_next K) (MkRunDir p Never Never ∅)
                            (set_names (<[ name := k_next K ]> (d_names (k_disk K))) (k_disk K))) K)))
  | Renameat parent old new => fun err K K' =>
      unchanged err K K'
        (exists i d, named_run p parent old K i d
         /\ (forall i' d', named_run p parent new K i' d' -> is_empty d')
         /\ K' = with_disk (set_names (<[ new := i ]> (delete old (d_names (k_disk K)))) (k_disk K)) K)
  | UnlinkFile parent name => fun err K K' =>
      match err with
      | None =>
          exists i d, run_at p parent K = Some (i, d)
          /\ ((is_lock_name name = true /\ is_present (slot_of name d) = true
               /\ K' = with_disk (set_run i (set_slot name Removed d) (k_disk K)) K)
              \/ (is_lock_name name = false /\ name ∈ rd_other d
                  /\ K' = with_disk (set_run i (set_other (rd_other d ∖ {[ name ]}) d) (k_disk K)) K))
      | Some e => K' = K /\ (is_errno ENOENT e = true -> forall i d, run_at p parent K = Some (i, d) -> name ∉ entries_of d)
      end
  | RemoveDir parent name => fun err K K' =>
      unchanged err K K'
        (exists i d, named_run p parent name K i d /\ is_empty d
         /\ K' = with_disk (set_names (delete name (d_names (k_disk K))) (k_disk K)) K)
  | Fstat f => fun r K K' =>
      K' = K /\ match r with
                | Ok st => exists o, k_files K !! (p, f) = Some o /\ st_dev st = 0 /\ st_ino st = inode o
                | Err _ => True
                end
  | Fstatat parent name => fun r K K' =>
      K' = K /\ match r with
                | Ok _ => True
                | Err e => is_errno ENOENT e = true -> dir_at p parent name K = None
                end
  | Readdirnames f => fun r K K' =>
      K' = K /\ match r with
                | Ok names => NoDup names /\ names_of p f K = Some (list_to_set names)
                | Err _ => True
                end
  | FlockExclusive f => fun err K K' =>
      unchanged err K K'
        (exists o, k_files K !! (p, f) = Some o
         /\ (k_locks K !! o = None \/ k_locks K !! o = Some (p, f))
         /\ K' = set_locks (<[ o := (p, f) ]> (k_locks K)) K)
  (* an open file can always be unlocked *)
  | FlockUnlock f => fun err K K' =>
      match k_files K !! (p, f) with
      | Some o => err = None /\ K' = drop_lock p f o K
      | None => err <> None /\ K' = K
      end
  | CloseFile f => fun err K K' =>
      match k_files K !! (p, f) with
      | Some o => K' = drop_file p f o K
      | None => err <> None /\ K' = K
      end
  | DuplicateFile f => fun r K K' => opened p (k_files K !! (p, f)) r K K'
  | Fsync _ => fun _ K K' => K' = K
  | ContextErr ctx => fun err K K' => K' = K /\ (ctx = Background -> err = None)
  | WaitForRetry ctx => fun err K K' => K' = K /\ (ctx = Background -> err = None)
  | NewID => fun r K K' => K' = K /\ match r with Ok id => id_wf id /\ id <> zero_ID | Err _ => True end
  | RecoverRun _ root => fun _ K K' =>
      match run_at p root K with
      | Some (i, d) =>
          exists other, other ⊆ rd_other d /\ K' = with_disk (set_run i (set_other other d) (k_disk K)) K
      | None => K' = K
      end
  | UseRoot root => fun _ K K' =>
      match run_at p root K with
      | Some (i, d) =>
          exists other, no_lock_names other /\ K' = with_disk (set_run i (set_other other d) (k_disk K)) K
      | None => K' = K
      end
  end.

(** The kernel closes the files of a dead process. *)
Definition dead (p : pid) (K K' : Kernel) : Prop :=
  K' = MkKernel (k_disk K) (filter (fun kv => kv.1.1 <> p) (k_files K)) (filter (fun kv => kv.2.1 <> p) (k_locks K)) (k_next K).
End Calls.

(** ** What the processes agree on *)
Definition is_run_name (name : string) : bool := is_ok (Parse name).

Definition published_ok (name : string) (d : RunDir) : Prop :=
  is_run_name name = true /\ is_present (rd_live d) = true /\ is_present (rd_recovery d) = true.
Definition temporary_ok (name : string) (d : RunDir) : Prop := isTemporaryName name = true /\ rd_other d = ∅.

(** Every entry of the authority is a complete run, or something the next one to
    come along knows how to remove. *)
Definition recoverable (D : Disk) : Prop :=
  forall name i, d_names D !! name = Some i ->
    exists d, d_runs D !! i = Some d /\ (published_ok name d \/ temporary_ok name d).

Definition has_slot (D : Disk) (i : nat) (name : string) (j : nat) : Prop :=
  is_lock_name name = true /\ exists d, d_runs D !! i = Some d /\ slot_of name d = Present j.

Record sound (K : Kernel) : Prop := {
  so_recoverable : recoverable (k_disk K);
  so_names : forall name name' i, d_names (k_disk K) !! name = Some i -> d_names (k_disk K) !! name' = Some i -> name = name';
  so_slots : forall i i' name name' j, has_slot (k_disk K) i name j -> has_slot (k_disk K) i' name' j -> i = i' /\ name = name';
  so_other : forall i d, d_runs (k_disk K) !! i = Some d -> no_lock_names (rd_other d);
  so_locks : forall o p f, k_locks K !! o = Some (p, f) -> k_files K !! (p, f) = Some o;
  so_roots : forall p f i, k_files K !! (p, f) = Some (RunRoot i) -> is_Some (d_runs (k_disk K) !! i);
  so_next_files : forall p f o, k_files K !! (p, f) = Some o -> (f < k_next K)%nat;
  so_next_locks : forall p f j, k_files K !! (p, f) = Some (LockFile j) -> (j < k_next K)%nat;
  so_next_runs : forall i d, d_runs (k_disk K) !! i = Some d -> (i < k_next K)%nat;
  so_next_slots : forall i name j, has_slot (k_disk K) i name j -> (j < k_next K)%nat
}.

Definition slot_evolves (a b : slot) : Prop :=
  match a with
  | Never => True
  | Present j => b = Present j \/ b = Removed
  | Removed => b = Removed
  end.

Definition evolves (d d' : RunDir) : Prop :=
  rd_creator d' = rd_creator d /\ slot_evolves (rd_live d) (rd_live d') /\ slot_evolves (rd_recovery d) (rd_recovery d').
Definition same_slots (d d' : RunDir) : Prop :=
  rd_creator d' = rd_creator d /\ rd_live d' = rd_live d /\ rd_recovery d' = rd_recovery d.

(** What the others leave alone of a process that holds these locks: nothing
    comes back; under the lock of the authority no entry and no lock file
    changes; the files of the other owners of a run belong to the holder of its
    liveness, and only the process that made the run adds any; and a live run of the process stays published. *)
Record keeps_disk (p : pid) (held : object -> Prop) (D D' : Disk) : Prop := {
  kd_made : d_made D = true -> d_made D' = true;
  kd_evolves : forall i d, d_runs D !! i = Some d -> exists d', d_runs D' !! i = Some d' /\ evolves d d';
  kd_names : held Authority -> d_names D' = d_names D;
  kd_slots : held Authority -> forall i d, d_runs D !! i = Some d -> exists d', d_runs D' !! i = Some d' /\ same_slots d d';
  kd_other : forall i d d' j, d_runs D !! i = Some d -> d_runs D' !! i = Some d' ->
    rd_live d = Present j -> rd_live d' = Present j -> held (LockFile j) -> rd_other d' = rd_other d;
  kd_shrinks : forall i d d', d_runs D !! i = Some d -> d_runs D' !! i = Some d' -> rd_creator d = p -> rd_other d' ⊆ rd_other d;
  kd_mine : forall name i d j, d_names D !! name = Some i -> d_runs D !! i = Some d -> is_run_name name = true ->
    rd_creator d = p -> rd_live d = Present j -> held (LockFile j) ->
    d_names D' !! name = Some i /\ exists d', d_runs D' !! i = Some d' /\ same_slots d d'
}.

Definition holds_lock (p : pid) (K : Kernel) (o : object) : Prop := exists f, k_locks K !! o = Some (p, f).

Record keeps_kernel (p : pid) (K K' : Kernel) : Prop := {
  ke_files : forall f, k_files K' !! (p, f) = k_files K !! (p, f);
  ke_locks : forall o f, k_locks K' !! o = Some (p, f) <-> k_locks K !! o = Some (p, f);
  ke_disk : keeps_disk p (holds_lock p K) (k_disk K) (k_disk K')
}.

(** The other owners act on a root only under its liveness: nobody else holds
    it, and the run a recovery sees is stale. *)
Definition root_is_ours (p : pid) (root : file) (K : Kernel) : Prop :=
  forall i d j, run_at p root K = Some (i, d) -> rd_live d = Present j -> holds_lock p K (LockFile j).

Definition permitted {X} (p : pid) (e : DirE X) (K : Kernel) : Prop :=
  match e with
  | RecoverRun _ root | UseRoot root => root_is_ours p root K
  | _ => True
  end.

Definition directory_system (authorityRoot : string) : System DirE Kernel := {|
  answers := fun X p e => step authorityRoot p e;
  may_make := fun X p e => permitted p e;
  dies := dead;
  agreed := sound;
  keeps := keeps_kernel
|}.

(** * A kernel that answers

    An executable kernel in which every call that can succeed does.  It is one of
    the kernels of [RunKernel], so what a process does on it is something the
    processes can do; runs of a process can be computed. *)
Section Performing.
Context (root : string) (nonce : ID).

Definition open_object (p : pid) (target : option object) (K : Kernel) : result file * Kernel :=
  match target with
  | Some o => (Ok (k_next K), add_file p o K)
  | None => (Err ENOENT, K)
  end.

(** A directory of mode 0700 and lock files of mode 0600. *)
Definition stat_of (euid : Z) (o : object) : Stat :=
  match o with
  | LockFile _ => MkStat (S_IFREG + mode_0600) euid 1 0 (inode o)
  | _ => MkStat (S_IFDIR + mode_0700) euid 2 0 (inode o)
  end.

Definition run_named (p : pid) (parent : file) (name : string) (K : Kernel) : option (nat * RunDir) :=
  match k_files K !! (p, parent) with
  | Some Authority => i ← d_names (k_disk K) !! name; d ← d_runs (k_disk K) !! i; Some (i, d)
  | _ => None
  end.

Definition may_replace (p : pid) (parent : file) (name : string) (K : Kernel) : bool :=
  match run_named p parent name K with Some (_, d) => bool_decide (entries_of d = ∅) | None => true end.

Definition make_directory (p : pid) (parent : file) (name : string) (K : Kernel) : option error * Kernel :=
  match k_files K !! (p, parent) with
  | Some Parent =>
      if bool_decide (name = Base root) && negb (d_made (k_disk K)) then (None, with_disk (make (k_disk K)) K)
      else (Some EEXIST, K)
  | Some Authority =>
      match d_names (k_disk K) !! name with
      | None =>
          (None, bump (with_disk (set_run (k_next K) (MkRunDir p Never Never ∅)
                   (set_names (<[ name := k_next K ]> (d_names (k_disk K))) (k_disk K))) K))
      | Some _ => (Some EEXIST, K)
      end
  | _ => (Some EEXIST, K)
  end.

Definition create_lock (p : pid) (parent : file) (name : string) (K : Kernel) : result file * Kernel :=
  match run_at p parent K with
  | Some (i, d) =>
      if is_lock_name name && negb (is_present (slot_of name d))
      then (Ok (k_next K),
            bump (with_disk (set_run i (set_slot name (Present (k_next K)) d) (k_disk K)) (add_file p (LockFile (k_next K)) K)))
      else (Err EEXIST, K)
  | None => (Err ENOENT, K)
  end.

Definition rename_run (p : pid) (parent : file) (old new : string) (K : Kernel) : option error * Kernel :=
  match run_named p parent old K with
  | Some (i, d) =>
      if may_replace p parent new K
      then (None, with_disk (set_names (<[ new := i ]> (delete old (d_names (k_disk K)))) (k_disk K)) K)
      else (Some EEXIST, K)
  | None => (Some ENOENT, K)
  end.

Definition unlink_file (p : pid) (parent : file) (name : string) (K : Kernel) : option error * Kernel :=
  match run_at p parent K with
  | Some (i, d) =>
      if is_lock_name name then
        if is_present (slot_of name d) then (None, with_disk (set_run i (set_slot name Removed d) (k_disk K)) K)
        else (Some EAGAIN, K)
      else if bool_decide (name ∈ rd_other d)
      then (None, with_disk (set_run i (set_other (rd_other d ∖ {[ name ]}) d) (k_disk K)) K)
      else (Some EAGAIN, K)
  | None => (Some EAGAIN, K)
  end.

Definition remove_directory (p : pid) (parent : file) (name : string) (K : Kernel) : option error * Kernel :=
  match run_named p parent name K with
  | Some (i, d) =>
      if bool_decide (entries_of d = ∅)
      then (None, with_disk (set_names (delete name (d_names (k_disk K))) (k_disk K)) K)
      else (Some EEXIST, K)
  | None => (Some ENOENT, K)
  end.

Definition lock_file (p : pid) (f : file) (K : Kernel) : option error * Kernel :=
  match k_files K !! (p, f) with
  | Some o =>
      if bool_decide (k_locks K !! o = None) || bool_decide (k_locks K !! o = Some (p, f))
      then (None, set_locks (<[ o := (p, f) ]> (k_locks K)) K)
      else (Some EAGAIN, K)
  | None => (Some EAGAIN, K)
  end.

Definition set_others (p : pid) (f : file) (other : gset string) (K : Kernel) : Kernel :=
  match run_at p f K with
  | Some (i, d) => with_disk (set_run i (set_other other d) (k_disk K)) K
  | None => K
  end.

(** The other owner leaves a file the first time it works in a root and removes it the second time. *)
Definition toggled (p : pid) (f : file) (K : Kernel) : gset string :=
  match run_at p f K with
  | Some (_, d) => if bool_decide (rd_other d = ∅) then {[ "network.claim" ]} else ∅
  | None => ∅
  end.

Definition perform {X} (euid : Z) (p : pid) (e : DirE X) : Kernel -> X * Kernel :=
  match e in DirE X return Kernel -> X * Kernel with
  | OpenPath path => fun K => open_object p (if bool_decide (path = Dir root) then Some Parent else None) K
  | OpenDirAt parent name => fun K => open_object p (dir_at root p parent name K) K
  | OpenLockAt parent name => fun K => open_object p (lock_at p parent name K) K
  | CreateLockAt parent name => create_lock p parent name
  | Mkdirat parent name => make_directory p parent name
  | Renameat parent old new => rename_run p parent old new
  | UnlinkFile parent name => unlink_file p parent name
  | RemoveDir parent name => remove_directory p parent name
  | Fstat f => fun K => (match k_files K !! (p, f) with Some o => Ok (stat_of euid o) | None => Err ENOENT end, K)
  | Fstatat parent name => fun K => (match dir_at root p parent name K with Some o => Ok (stat_of euid o) | None => Err ENOENT end, K)
  | Readdirnames f => fun K => (match names_of p f K with Some names => Ok (elements names) | None => Err ENOENT end, K)
  | FlockExclusive f => lock_file p f
  | FlockUnlock f => fun K =>
      match k_files K !! (p, f) with Some o => (None, drop_lock p f o K) | None => (Some EAGAIN, K) end
  | CloseFile f => fun K =>
      match k_files K !! (p, f) with Some o => (None, drop_file p f o K) | None => (Some EAGAIN, K) end
  | DuplicateFile f => fun K => open_object p (k_files K !! (p, f)) K
  | Fsync _ => fun K => (None, K)
  | ContextErr _ => fun K => (None, K)
  | WaitForRetry _ => fun K => (None, K)
  | NewID => fun K => (Ok nonce, K)
  | RecoverRun _ f => fun K => (None, set_others p f ∅ K)
  | UseRoot f => fun K => (tt, set_others p f (toggled p f K) K)
  end.

Lemma run_named_Some p parent name K i d : run_named p parent name K = Some (i, d) <-> named_run p parent name K i d.
Proof.
  unfold run_named, named_run. split.
  - destruct (k_files K !! (p, parent)) as [[]|]; try done. destruct (d_names _ !! name) as [i'|] eqn:E; [|done]. cbn.
    destruct (d_runs _ !! i') as [d'|] eqn:E'; [|done]. cbn. intros [= -> ->]. done.
  - intros (-> & -> & Hd). cbn. by rewrite Hd.
Qed.

Lemma open_object_opens p target K : opened p target (open_object p target K).1 K (open_object p target K).2.
Proof. unfold open_object. destruct target as [o|]; cbn; [by exists o|done]. Qed.

Lemma may_replace_spec p parent name K i d : may_replace p parent name K = true -> named_run p parent name K i d -> is_empty d.
Proof. unfold may_replace. intros H Hn%run_named_Some. rewrite Hn in H. by apply bool_decide_eq_true in H. Qed.

(** What it does the kernel of [RunKernel] may do. *)
Lemma perform_answers {X} euid p (e : DirE X) K :
  id_wf nonce -> nonce <> zero_ID -> step root p e (perform euid p e K).1 K (perform euid p e K).2.
Proof.
  intros Hn Hz. destruct e; cbn; try done; try (apply open_object_opens).
  - unfold create_lock. destruct (run_at p parent K) as [[i d]|] eqn:E; [|done]. destruct (_ && _) eqn:Ec; [|done]. cbn.
    apply andb_true_iff in Ec as [? ?%negb_true_iff]. by exists i, d.
  - unfold make_directory. destruct (k_files K !! (p, parent)) as [[]|] eqn:Ef; try done.
    + destruct (_ && _) eqn:Ec; [|done]. apply andb_true_iff in Ec as [?%bool_decide_eq_true ?%negb_true_iff]. by left.
    + destruct (d_names _ !! name) eqn:En; [done|]. by right.
  - unfold rename_run. destruct (run_named p parent old K) as [[i d]|] eqn:E; [|done]. destruct (may_replace _ _ _ _) eqn:Em; [|done].
    cbn. exists i, d. split; [by apply run_named_Some|]. split; [|done]. intros i' d'. by apply may_replace_spec.
  - unfold unlink_file. destruct (run_at p parent K) as [[i d]|] eqn:E; [|done]. destruct (is_lock_name name) eqn:El.
    + destruct (is_present _) eqn:Ep; [|done]. cbn. exists i, d. split; [done|]. by left.
    + case_bool_decide; [|done]. cbn. exists i, d. split; [done|]. by right.
  - unfold remove_directory. destruct (run_named p parent name K) as [[i d]|] eqn:E; [|done]. case_bool_decide; [|done].
    cbn. exists i, d. split; [by apply run_named_Some|done].
  - split; [done|]. destruct (k_files K !! (p, f)) as [o|]; [|done]. exists o. by destruct o.
  - split; [done|]. by destruct (dir_at _ _ _ _ _).
  - split; [done|]. destruct (names_of p directory K) as [names|]; [|done]. split; [apply NoDup_elements|]. by rewrite list_to_set_elements_L.
  - unfold lock_file. destruct (k_files K !! (p, f)) as [o|] eqn:Ef; [|done]. destruct (_ || _) eqn:Ec; [|done]. cbn.
    exists o. split; [done|]. split; [|done]. apply orb_true_iff in Ec as [?%bool_decide_eq_true|?%bool_decide_eq_true]; auto.
  - destruct (k_files K !! (p, f)) as [o|]; done.
  - destruct (k_files K !! (p, f)) as [o|]; done.
  - unfold set_others. destruct (run_at p root0 K) as [[i d]|]; [|done]. by exists ∅.
  - unfold set_others. destruct (run_at p root0 K) as [[i d]|]; [|done]. exists (toggled p root0 K). split; [|done].
    unfold toggled. destruct (run_at p root0 K) as [[i' d']|]; [case_bool_decide|]; intros name Hx; [|set_solver..].
    apply elem_of_singleton in Hx. by subst.
Qed.

(** ** One process alone *)
Fixpoint run_alone (fuel : nat) (euid : Z) (p : pid) (t : itree DirE unit) (K : Kernel) : itree DirE unit * Kernel :=
  match fuel with
  | O => (t, K)
  | S fuel =>
      match observe t with
      | RetF _ => (t, K)
      | TauF t => run_alone fuel euid p t K
      | VisF e k => let '(x, K) := perform euid p e K in run_alone fuel euid p (k x) K
      end
  end.

#[local] Instance performed : System DirE Kernel := directory_system root.

Lemma reaches_trans (c c' c'' : pool (E := DirE) (K := Kernel)) : reaches c c' -> reaches c' c'' -> reaches c c''.
Proof. intros H1. induction 1 as [|p c1 c2 _ IH Hm]; [done|]. by eapply reaches_next. Qed.

Lemma run_alone_reaches fuel euid p : forall t K threads,
  id_wf nonce -> nonce <> zero_ID -> threads !! p = Some t ->
  reaches (threads, K) (<[ p := (run_alone fuel euid p t K).1 ]> threads, (run_alone fuel euid p t K).2).
Proof.
  induction fuel as [|fuel IH]; intros t K threads Hn Hz Ht; cbn [run_alone].
  { rewrite insert_id by done. constructor. }
  destruct (observe t) as [a|t'|X e k] eqn:O; [rewrite insert_id by done; constructor| |].
  - eapply reaches_trans; [eapply reaches_next; [constructor|by eapply moves_silently]|].
    specialize (IH t' K (<[ p := t' ]> threads) Hn Hz). rewrite insert_insert_eq in IH. apply IH, lookup_insert_eq.
  - pose proof (perform_answers euid p e K Hn Hz) as Hstep. destruct (perform euid p e K) as [x K']. cbn in *.
    eapply reaches_trans; [eapply reaches_next; [constructor|by eapply moves_by_call]|].
    specialize (IH (k x) K' (<[ p := k x ]> threads) Hn Hz). rewrite insert_insert_eq in IH. apply IH, lookup_insert_eq.
Qed.

(** ** Several processes *)
(** In turn: a process runs for so many steps, or is killed. *)
Inductive turn : Type := Runs (euid : Z) (p : pid) (fuel : nat) | Killed (p : pid).

Definition kill (p : pid) (K : Kernel) : Kernel :=
  MkKernel (k_disk K) (filter (fun kv => kv.1.1 <> p) (k_files K)) (filter (fun kv => kv.2.1 <> p) (k_locks K)) (k_next K).

Definition take_turn (c : pool (E := DirE) (K := Kernel)) (now : turn) : pool (E := DirE) (K := Kernel) :=
  match now with
  | Runs euid p fuel =>
      match c.1 !! p with
      | Some t => let '(t, K) := run_alone fuel euid p t c.2 in (<[ p := t ]> c.1, K)
      | None => c
      end
  | Killed p => match c.1 !! p with Some _ => (delete p c.1, kill p c.2) | None => c end
  end.
Definition take_turns (c : pool (E := DirE) (K := Kernel)) (turns : list turn) : pool (E := DirE) (K := Kernel) :=
  foldl take_turn c turns.

Lemma one_turn_moves c euid p t :
  id_wf nonce -> nonce <> zero_ID -> c.1 !! p = Some t -> (forall a, observe t <> RetF a) ->
  moves p c (take_turn c (Runs euid p 1)).
Proof.
  intros Hn Hz Ht Hr. destruct c as [threads K]. cbn in *. rewrite Ht.
  destruct (observe t) as [a|t'|X e k] eqn:O; [by destruct (Hr a)|by eapply moves_silently|].
  pose proof (perform_answers euid p e K Hn Hz) as Hs. destruct (perform euid p e K) as [x K']. by eapply moves_by_call.
Qed.

Lemma take_turns_reaches turns : forall c,
  id_wf nonce -> nonce <> zero_ID -> reaches c (take_turns c turns).
Proof.
  induction turns as [|now turns IH]; intros c Hn Hz; cbn; [constructor|].
  eapply reaches_trans; [|by apply IH]. destruct now as [euid p fuel|p]; cbn; destruct c as [threads K]; cbn.
  - destruct (threads !! p) as [t|] eqn:Et; [|constructor]. pose proof (run_alone_reaches fuel euid p t K threads Hn Hz Et) as Hr.
    by destruct (run_alone fuel euid p t K).
  - destruct (threads !! p) as [t|] eqn:Et; [|constructor]. eapply reaches_next; [constructor|by eapply moves_away].
Qed.
End Performing.
