(* ===== verification/RunLaws.v ===== *)
(** * What the system calls keep

    The laws of the shared disk: what the processes rely on is a preorder, and
    each kind of change, made under the rules of the run directories, keeps the
    disk sound and the promise to every other process. *)
From S2P Require Import Prelude GoText Paths RunId Effects Interference RunDirectory RunKernel.

Create HintDb rundir.

Lemma slot_evolves_refl a : slot_evolves a a.
Proof. by destruct a; [|left|]. Qed.

Lemma slot_evolves_trans a b c : slot_evolves a b -> slot_evolves b c -> slot_evolves a c.
Proof. destruct a; cbn; [done| |by intros -> ->]. intros [-> | ->]; cbn; [done|by intros ->; right]. Qed.

Lemma evolves_refl d : evolves d d.
Proof. split_and!; [done|apply slot_evolves_refl..]. Qed.

Lemma evolves_trans d1 d2 d3 : evolves d1 d2 -> evolves d2 d3 -> evolves d1 d3.
Proof. intros (? & ? & ?) (? & ? & ?). split_and!; [congruence|by eapply slot_evolves_trans..]. Qed.

Lemma same_slots_refl d : same_slots d d.
Proof. done. Qed.

Lemma same_slots_trans d1 d2 d3 : same_slots d1 d2 -> same_slots d2 d3 -> same_slots d1 d3.
Proof. intros (? & ? & ?) (? & ? & ?). split_and!; congruence. Qed.

Lemma same_slots_evolves d d' : same_slots d d' -> evolves d d'.
Proof. intros (? & E1 & E2). split_and!; [done|rewrite E1; apply slot_evolves_refl|rewrite E2; apply slot_evolves_refl]. Qed.

#[export] Hint Resolve slot_evolves_refl evolves_refl same_slots_refl same_slots_evolves : rundir.

Lemma keeps_disk_refl p held D : keeps_disk p held D D.
Proof. split; try done; intros; simplify_eq; eauto with rundir. Qed.

Lemma keeps_disk_trans p (held : object -> Prop) D1 D2 D3 :
  keeps_disk p held D1 D2 -> keeps_disk p held D2 D3 -> keeps_disk p held D1 D3.
Proof.
  intros H1 H2. split.
  - intros. by apply (kd_made _ _ _ _ H2), (kd_made _ _ _ _ H1).
  - intros i d Hd. destruct (kd_evolves _ _ _ _ H1 i d Hd) as (d2 & Hd2 & E1).
    destruct (kd_evolves _ _ _ _ H2 i d2 Hd2) as (d3 & Hd3 & E2). eauto using evolves_trans.
  - intros Ha. rewrite (kd_names _ _ _ _ H2) by done. by apply (kd_names _ _ _ _ H1).
  - intros Ha i d Hd. destruct (kd_slots _ _ _ _ H1 Ha i d Hd) as (d2 & Hd2 & E1).
    destruct (kd_slots _ _ _ _ H2 Ha i d2 Hd2) as (d3 & Hd3 & E2). eauto using same_slots_trans.
  - intros i d d3 j Hd Hd3 Hj Hj3 Hh. destruct (kd_evolves _ _ _ _ H1 i d Hd) as (d2 & Hd2 & (_ & E1 & _)).
    destruct (kd_evolves _ _ _ _ H2 i d2 Hd2) as (? & Hd3' & (_ & E2 & _)). simplify_eq.
    assert (rd_live d2 = Present j) as Hj2.
    { rewrite Hj in E1. destruct E1 as [E1|E1]; [done|]. rewrite E1 in E2. cbn in E2. congruence. }
    rewrite (kd_other _ _ _ _ H2 i d2 d3 j) by done. by apply (kd_other _ _ _ _ H1 i d d2 j).
  - intros i d d3 Hd Hd3 Hc. destruct (kd_evolves _ _ _ _ H1 i d Hd) as (d2 & Hd2 & (Ec & _)).
    etrans; [apply (kd_shrinks _ _ _ _ H2 i d2 d3); congruence|]. by apply (kd_shrinks _ _ _ _ H1 i d d2).
  - intros name i d j Hn Hd Hr Hc Hj Hh. destruct (kd_mine _ _ _ _ H1 name i d j) as (Hn2 & d2 & Hd2 & E1); try done.
    destruct E1 as (Ec & El & Er). destruct (kd_mine _ _ _ _ H2 name i d2 j) as (Hn3 & d3 & Hd3 & E3); try done; [congruence..|].
    split; [done|]. exists d3. split; [done|]. by apply (same_slots_trans d d2 d3).
Qed.

Lemma keeps_disk_mono p (held held' : object -> Prop) D D' :
  (forall o, held o -> held' o) -> keeps_disk p held' D D' -> keeps_disk p held D D'.
Proof.
  intros Hle H. split.
  - apply (kd_made _ _ _ _ H).
  - apply (kd_evolves _ _ _ _ H).
  - intros Ha. by apply (kd_names _ _ _ _ H), Hle.
  - intros Ha. by apply (kd_slots _ _ _ _ H), Hle.
  - intros. eapply (kd_other _ _ _ _ H); eauto.
  - apply (kd_shrinks _ _ _ _ H).
  - intros. eapply (kd_mine _ _ _ _ H); eauto.
Qed.

#[export] Instance keeps_kernel_preorder p : PreOrder (keeps_kernel p).
Proof.
  split.
  - intros K. split; [done..|]. apply keeps_disk_refl.
  - intros K1 K2 K3 [F1 L1 D1] [F2 L2 D2]. split.
    + intros f. by rewrite F2, F1.
    + intros o f. by rewrite L2, L1.
    + eapply keeps_disk_trans; [exact D1|]. eapply keeps_disk_mono; [|exact D2].
      intros o [f Hf]. exists f. by apply L1.
Qed.

(** ** Death *)
Lemma dead_agreed p K K' : sound K -> dead p K K' -> sound K'.
Proof.
  intros HK ->. split; cbn; try apply HK.
  - intros o q f [Hl Hq]%map_lookup_filter_Some. apply map_lookup_filter_Some. split; [by apply (so_locks _ HK)|done].
  - intros q f i [Hf _]%map_lookup_filter_Some. by apply (so_roots _ HK q f).
  - intros q f o [Hf _]%map_lookup_filter_Some. by apply (so_next_files _ HK q f o).
  - intros q f j [Hf _]%map_lookup_filter_Some. by apply (so_next_locks _ HK q f j).
Qed.

Lemma dead_keeps p q K K' : sound K -> dead p K K' -> q <> p -> keeps_kernel q K K'.
Proof.
  intros HK -> Hne. split; cbn.
  - intros f. destruct (k_files K !! (q, f)) as [o|] eqn:E.
    + by apply map_lookup_filter_Some.
    + apply map_lookup_filter_None. by left.
  - intros o f. rewrite map_lookup_filter_Some. naive_solver.
  - apply keeps_disk_refl.
Qed.

#[export] Instance directory_laws root : @SystemLaws DirE Kernel (directory_system root).
Proof.
  split.
  - intros p. apply keeps_kernel_preorder.
  - intros p s s'. apply dead_agreed.
  - intros p q s s'. apply dead_keeps.
Qed.

(** ** Steps that the others do not notice *)
Definition benign (p : pid) (K K' : Kernel) : Prop := sound K' /\ forall q, q <> p -> keeps_kernel q K K'.

Lemma benign_refl p K : sound K -> benign p K K.
Proof. intros HK. split; [done|]. by intros. Qed.

Definition valid_object (K : Kernel) (o : object) : Prop :=
  match o with
  | RunRoot i => is_Some (d_runs (k_disk K) !! i)
  | LockFile j => (j < k_next K)%nat
  | _ => True
  end.

Lemma file_valid K p f o : sound K -> k_files K !! (p, f) = Some o -> valid_object K o.
Proof. intros HK Hf. destruct o; cbn; [done..|by eapply so_roots|by eapply so_next_locks]. Qed.

Lemma holds_lock_exclusive K o p q : holds_lock p K o -> holds_lock q K o -> q = p.
Proof. intros [f Hf] [g Hg]. congruence. Qed.

Lemma bump_sound K : sound K -> sound (bump K).
Proof.
  intros HK. split; cbn; try apply HK.
  - intros p f o Hf. pose proof (so_next_files _ HK _ _ _ Hf). lia.
  - intros p f j Hf. pose proof (so_next_locks _ HK _ _ _ Hf). lia.
  - intros i d Hd. pose proof (so_next_runs _ HK _ _ Hd). lia.
  - intros i n j Hs. pose proof (so_next_slots _ HK _ _ _ Hs). lia.
Qed.

Lemma next_is_free K p : sound K -> k_files K !! (p, k_next K) = None.
Proof. intros HK. destruct (k_files K !! _) as [o|] eqn:E; [|done]. apply (so_next_files _ HK) in E. lia. Qed.

Lemma add_file_sound K p o : sound K -> valid_object K o -> sound (add_file p o K).
Proof.
  intros HK Ho. split; cbn; try apply HK.
  - intros o' q f Hl. apply (so_locks _ HK) in Hl. rewrite lookup_insert_ne; [done|]. intros [= <- <-].
    by rewrite (next_is_free K p HK) in Hl.
  - intros q f i. rewrite lookup_insert_Some. intros [[_ ->]|[_ Hf]]; [done|]. by apply (so_roots _ HK q f).
  - intros q f o'. rewrite lookup_insert_Some. intros [[[= <- <-] _]|[_ Hf]]; [lia|].
    pose proof (so_next_files _ HK _ _ _ Hf). lia.
  - intros q f j. rewrite lookup_insert_Some. intros [[_ ->]|[_ Hf]]; [cbn in Ho; lia|].
    pose proof (so_next_locks _ HK _ _ _ Hf). lia.
  - intros i d Hd. pose proof (so_next_runs _ HK _ _ Hd). lia.
  - intros i n j Hs. pose proof (so_next_slots _ HK _ _ _ Hs). lia.
Qed.

Lemma add_file_benign K p o : sound K -> valid_object K o -> benign p K (add_file p o K).
Proof.
  intros HK Ho. split; [by apply add_file_sound|]. intros q Hne. split; cbn.
  - intros f. rewrite lookup_insert_ne; [done|]. congruence.
  - done.
  - apply keeps_disk_refl.
Qed.

(** Changes of the locks of one process. *)
Lemma set_locks_benign K p locks :
  sound K ->
  (forall o q f, locks !! o = Some (q, f) -> k_files K !! (q, f) = Some o) ->
  (forall q o f, q <> p -> locks !! o = Some (q, f) <-> k_locks K !! o = Some (q, f)) ->
  benign p K (set_locks locks K).
Proof.
  intros HK Hl Hq. split; [split; cbn; try apply HK; done|].
  intros q Hne. split; cbn; [done|by intros; apply Hq|apply keeps_disk_refl].
Qed.

Lemma take_lock_benign K p f o :
  sound K -> k_files K !! (p, f) = Some o -> k_locks K !! o = None \/ k_locks K !! o = Some (p, f) ->
  benign p K (set_locks (<[ o := (p, f) ]> (k_locks K)) K).
Proof.
  intros HK Hf Hfree. apply set_locks_benign; [done|..].
  - intros o' q g. rewrite lookup_insert_Some. intros [[<- [= <- <-]]|[_ Hg]]; [done|]. by apply (so_locks _ HK).
  - intros q o' g Hne. rewrite lookup_insert_Some. split; [intros [[_ [= ? _]]|[_ ?]]; [congruence|done]|].
    intros Hg. right. split; [|done]. intros <-. destruct Hfree; congruence.
Qed.

Lemma drop_lock_benign K p f o : sound K -> benign p K (drop_lock p f o K).
Proof.
  intros HK. unfold drop_lock. case_bool_decide as E; [|by apply benign_refl]. apply set_locks_benign; [done|..].
  - intros o' q g. rewrite lookup_delete_Some. intros [_ Hg]. by apply (so_locks _ HK).
  - intros q o' g Hne. rewrite lookup_delete_Some. split; [naive_solver|]. intros Hg. split; [|done]. intros <-. congruence.
Qed.

Lemma drop_file_benign K p f o : sound K -> k_files K !! (p, f) = Some o -> benign p K (drop_file p f o K).
Proof.
  intros HK Hf. unfold drop_file. destruct (drop_lock_benign K p f o HK) as [HK' Hq].
  assert (Hfiles : k_files (drop_lock p f o K) = k_files K) by (unfold drop_lock; by case_bool_decide).
  assert (Hno : forall o', k_locks (drop_lock p f o K) !! o' <> Some (p, f)).
  { intros o' Hl. pose proof (so_locks _ HK' _ _ _ Hl) as Hl'. rewrite Hfiles, Hf in Hl'. injection Hl' as <-.
    revert Hl. unfold drop_lock. case_bool_decide as E; [cbn; by rewrite lookup_delete_eq|done]. }
  split.
  - split; cbn; try apply HK'.
    + intros o' q g Hl. rewrite lookup_delete_ne; [by apply (so_locks _ HK')|]. intros [= <- <-]. by apply Hno in Hl.
    + intros q g i [_ Hg]%lookup_delete_Some. by apply (so_roots _ HK' q g).
    + intros q g o' [_ Hg]%lookup_delete_Some. by apply (so_next_files _ HK' q g o').
    + intros q g j [_ Hg]%lookup_delete_Some. by apply (so_next_locks _ HK' q g j).
  - intros q Hne. destruct (Hq q Hne) as [F L D]. split; cbn; [|done|done]. intros g. rewrite lookup_delete_ne; [apply F|]. congruence.
Qed.

(** ** Changes of the disk *)
Lemma keeps_set_run q held D i d d' :
  d_runs D !! i = Some d -> evolves d d' -> (held Authority -> same_slots d d') ->
  (forall j, rd_live d = Present j -> rd_live d' = Present j -> held (LockFile j) -> rd_other d' = rd_other d) ->
  (rd_creator d = q -> rd_other d' ⊆ rd_other d) ->
  (forall name j, d_names D !! name = Some i -> is_run_name name = true -> rd_creator d = q -> rd_live d = Present j ->
     held (LockFile j) -> same_slots d d') ->
  keeps_disk q held D (set_run i d' D).
Proof.
  intros Hd He Ha Ho Hsh Hm.
  assert (Hlook : forall n, d_runs (set_run i d' D) !! n = if decide (n = i) then Some d' else d_runs D !! n).
  { intros n. cbn. destruct (decide (n = i)) as [->|]; [by rewrite lookup_insert_eq|by rewrite lookup_insert_ne]. }
  split; try done.
  - intros n dn Hn. rewrite Hlook. case_decide; simplify_eq; eauto with rundir.
  - intros Hh n dn Hn. rewrite Hlook. case_decide; simplify_eq; eauto with rundir.
  - intros n dn dn' j Hn. rewrite Hlook. case_decide; intros; simplify_eq; eauto.
  - intros n dn dn' Hn. rewrite Hlook. case_decide; intros; simplify_eq; eauto.
  - intros name n dn j Hn Hdn Hr Hc Hj Hh. split; [done|]. rewrite Hlook. case_decide; simplify_eq; eauto with rundir.
Qed.

Lemma keeps_set_names q held D names :
  (held Authority -> names = d_names D) ->
  (forall name i d j, d_names D !! name = Some i -> d_runs D !! i = Some d -> is_run_name name = true ->
     rd_creator d = q -> rd_live d = Present j -> held (LockFile j) -> names !! name = Some i) ->
  keeps_disk q held D (set_names names D).
Proof.
  intros Ha Hm. split; try done; cbn.
  - eauto with rundir.
  - eauto with rundir.
  - intros; simplify_eq; done.
  - intros; simplify_eq; done.
  - intros. split; [by eapply Hm|eauto with rundir].
Qed.

Lemma with_disk_keeps q K D : keeps_disk q (holds_lock q K) (k_disk K) D -> keeps_kernel q K (with_disk D K).
Proof. by split. Qed.

Lemma with_disk_sound K D :
  sound K -> recoverable D ->
  (forall name name' i, d_names D !! name = Some i -> d_names D !! name' = Some i -> name = name') ->
  (forall i i' name name' j, has_slot D i name j -> has_slot D i' name' j -> i = i' /\ name = name') ->
  (forall i d, d_runs D !! i = Some d -> no_lock_names (rd_other d)) ->
  (forall i, is_Some (d_runs (k_disk K) !! i) -> is_Some (d_runs D !! i)) ->
  (forall i d, d_runs D !! i = Some d -> (i < k_next K)%nat) ->
  (forall i name j, has_slot D i name j -> (j < k_next K)%nat) ->
  sound (with_disk D K).
Proof.
  intros HK Hr Hn Hs Ho Hi Hb Hj. split; cbn; try done; try apply HK.
  intros p f i Hf. by apply Hi, (so_roots _ HK p f).
Qed.

(** ** Names *)
Lemma sdrop_length n s : slen (sdrop n s) <= slen s.
Proof. unfold slen, sdrop. rewrite bytes_of_text_of. unfold zlen. rewrite length_drop. lia. Qed.

Lemma temporary_is_no_run name : isTemporaryName name = true -> is_run_name name = false.
Proof.
  intros Ht. unfold is_run_name, Parse. enough (slen name =? encodedLength = false) as -> by done.
  assert (Hlen : 65 <= slen name); [|unfold encodedLength; lia]. revert Ht. unfold isTemporaryName, has_temporary_prefix, validTemporarySuffix.
  intros [H|H]%orb_true_iff; revert H; destruct (HasPrefix _ _); cbn [negb orb]; try done;
    match goal with |- context [slen ?s =? 65] => destruct (slen s =? 65) eqn:E; [|done]; pose proof (sdrop_length (String.length stagingPrefix) name); pose proof (sdrop_length (String.length removingPrefix) name); lia end.
Qed.

Definition proper_ID (id : ID) : Prop := id_wf id /\ id <> zero_ID.

Lemma proper_Parse id : proper_ID id -> Parse (IDString id) = Ok id.
Proof. intros [? ?]. by apply run_id_round_trip. Qed.

Lemma proper_run_name id : proper_ID id -> is_run_name (IDString id) = true.
Proof. intros H. unfold is_run_name. by rewrite proper_Parse. Qed.

Lemma sdrop_app p s : sdrop (String.length p) (p +:+ s) = s.
Proof.
  unfold sdrop. rewrite bytes_of_app. replace (String.length p) with (length (bytes_of p)).
  - rewrite drop_app_length. apply text_of_bytes_of.
  - induction p as [|a p IH]; [done|]. cbn. by f_equal.
Qed.

Lemma suffix_valid id nonce :
  proper_ID id -> proper_ID nonce -> validTemporarySuffix (IDString id +:+ "-" +:+ IDString nonce) true = true.
Proof.
  intros Hid Hn. pose proof (IDString_length id (proj1 Hid)) as L1. pose proof (IDString_length nonce (proj1 Hn)) as L2.
  assert (Ln : length (bytes_of (IDString id)) = 32%nat) by (unfold slen, zlen in L1; lia).
  unfold validTemporarySuffix. rewrite !slen_app, L1, L2. cbn [negb orb]. change (32 + (slen "-" + 32) =? 65) with true.
  rewrite !bytes_of_app. rewrite lookup_app_r by lia. rewrite Ln. cbn -[text_of stake sdrop bytes_of].
  unfold stake, sdrop. rewrite !bytes_of_app.
  rewrite take_app_le, firstn_all2 by lia. rewrite text_of_bytes_of, (proper_Parse id) by done.
  rewrite (drop_app_ge _ _ 33) by lia. rewrite Ln. change (drop (33 - 32) (bytes_of "-" ++ ?l)) with l.
  by rewrite text_of_bytes_of, (proper_Parse nonce).
Qed.

Lemma fresh_name_temporary prefix id nonce :
  prefix = stagingPrefix \/ prefix = removingPrefix -> proper_ID id -> proper_ID nonce ->
  isTemporaryName (prefix +:+ IDString id +:+ "-" +:+ IDString nonce) = true.
Proof.
  intros Hp Hid Hn. unfold isTemporaryName, has_temporary_prefix.
  assert (Hpre : HasPrefix (prefix +:+ IDString id +:+ "-" +:+ IDString nonce) prefix = true) by (apply HasPrefix_spec; eauto).
  destruct Hp as [-> | ->]; rewrite Hpre, sdrop_app, suffix_valid by done; [done|by rewrite orb_true_r].
Qed.

(** The run behind a temporary name is no other name's. *)
Lemma temporary_not_run K name name' i :
  sound K -> isTemporaryName name = true -> d_names (k_disk K) !! name = Some i ->
  d_names (k_disk K) !! name' = Some i -> is_run_name name' = true -> False.
Proof.
  intros HK Ht Hn Hn' Hr. pose proof (so_names _ HK _ _ _ Hn Hn') as ->. by rewrite temporary_is_no_run in Hr.
Qed.

Lemma lock_names_distinct name name' :
  is_lock_name name = true -> is_lock_name name' = true -> (name = livenessLockName <-> name' = livenessLockName) -> name = name'.
Proof.
  unfold is_lock_name. intros H H' Hiff. repeat case_bool_decide; simplify_eq; naive_solver.
Qed.

Lemma slot_set_slot name s d : slot_of name (set_slot name s d) = s.
Proof. unfold slot_of, set_slot. by case_bool_decide. Qed.

Lemma slot_set_slot_ne name name' s d :
  is_lock_name name = true -> is_lock_name name' = true -> name' <> name -> slot_of name' (set_slot name s d) = slot_of name' d.
Proof.
  intros H H' Hne. unfold slot_of, set_slot. repeat case_bool_decide; simplify_eq; try done.
  exfalso. apply Hne, lock_names_distinct; try done.
Qed.

Lemma set_slot_evolves name s d : slot_evolves (slot_of name d) s -> evolves d (set_slot name s d).
Proof. unfold slot_of, set_slot. case_bool_decide; intros; split_and!; cbn; auto with rundir. Qed.

Lemma set_slot_other name s d : rd_other (set_slot name s d) = rd_other d.
Proof. unfold set_slot. by case_bool_decide. Qed.

Lemma has_slot_set_slot D i d name s i' name' j :
  d_runs D !! i = Some d -> is_lock_name name = true -> has_slot (set_run i (set_slot name s d) D) i' name' j ->
  (i' = i /\ name' = name /\ s = Present j) \/ has_slot D i' name' j.
Proof.
  intros Hd Hl [Hl' (d' & Hd' & Hs)]. cbn in Hd'. rewrite lookup_insert_Some in Hd'. destruct Hd' as [[<- <-]|[Hne Hd']].
  - destruct (decide (name' = name)) as [->|Hne]; [left; by rewrite slot_set_slot in Hs|].
    right. rewrite slot_set_slot_ne in Hs by done. split; eauto.
  - right. split; eauto.
Qed.

(** ** Making directories and lock files *)
Definition new_run (p : pid) : RunDir := MkRunDir p Never Never ∅.
Definition with_new_run (p : pid) (name : string) (K : Kernel) : Kernel :=
  bump (with_disk (set_run (k_next K) (new_run p) (set_names (<[ name := k_next K ]> (d_names (k_disk K))) (k_disk K))) K).

Lemma next_run_is_free K : sound K -> d_runs (k_disk K) !! k_next K = None.
Proof. intros HK. destruct (_ !! _) as [d|] eqn:E; [|done]. apply (so_next_runs _ HK) in E. lia. Qed.

Lemma next_run_is_unnamed K name : sound K -> d_names (k_disk K) !! name <> Some (k_next K).
Proof. intros HK Hn. destruct (so_recoverable _ HK _ _ Hn) as (d & Hd & _). by rewrite next_run_is_free in Hd. Qed.

Lemma make_benign K p : sound K -> benign p K (with_disk (make (k_disk K)) K).
Proof.
  intros HK. split; [by apply with_disk_sound; try apply HK|]. intros q _. apply with_disk_keeps.
  split; try done; cbn; intros; simplify_eq; eauto with rundir.
Qed.

Lemma mkdir_benign K p name :
  sound K -> holds_lock p K Authority -> isTemporaryName name = true -> d_names (k_disk K) !! name = None ->
  benign p K (with_new_run p name K).
Proof.
  intros HK Hh Ht Hn.
  assert (Hold : forall i d, d_runs (k_disk K) !! i = Some d -> <[ k_next K := new_run p ]> (d_runs (k_disk K)) !! i = Some d).
  { intros i d Hd. rewrite lookup_insert_ne; [done|]. intros <-. by rewrite next_run_is_free in Hd. }
  assert (Hslot : forall i n j, has_slot (set_run (k_next K) (new_run p) (set_names (<[ name := k_next K ]> (d_names (k_disk K))) (k_disk K))) i n j ->
                    has_slot (k_disk K) i n j).
  { intros i n j [Hl (d & Hd & Hs)]. cbn in Hd. apply lookup_insert_Some in Hd as [[<- <-]|[_ Hd]]; [|by split; eauto].
    revert Hs. unfold slot_of. by case_bool_decide. }
  split.
  - unfold with_new_run. split; cbn; try apply HK.
    + intros n i. cbn. rewrite lookup_insert_Some. intros [[<- <-]|[Hne Hi]].
      * exists (new_run p). rewrite lookup_insert_eq. split; [done|by right].
      * destruct (so_recoverable _ HK _ _ Hi) as (d & Hd & Hok). eauto.
    + intros n n' i. rewrite !lookup_insert_Some. intros [[<- <-]|[_ H1]] [[<- E]|[_ H2]]; try done.
      * by apply next_run_is_unnamed in H2.
      * rewrite <- E in H1. by apply next_run_is_unnamed in H1.
      * by apply (so_names _ HK n n' i).
    + intros i i' n n' j H1%Hslot H2%Hslot. by apply (so_slots _ HK i i' n n' j).
    + intros i d. rewrite lookup_insert_Some. intros [[_ <-]|[_ Hd]]; [by intros n Hx%elem_of_empty|by apply (so_other _ HK i)].
    + intros q f i Hf. destruct (so_roots _ HK _ _ _ Hf) as [d Hd]. eauto.
    + intros q f o Hf. pose proof (so_next_files _ HK _ _ _ Hf). lia.
    + intros q f j Hf. pose proof (so_next_locks _ HK _ _ _ Hf). lia.
    + intros i d. rewrite lookup_insert_Some. intros [[<- _]|[_ Hd]]; [lia|]. pose proof (so_next_runs _ HK _ _ Hd). lia.
    + intros i n j H1%Hslot. pose proof (so_next_slots _ HK _ _ _ H1). lia.
  - intros q Hne. assert (Hno : ~ holds_lock q K Authority) by (intros Hq; by apply Hne, (holds_lock_exclusive K Authority)).
    split; [done|done|]. unfold with_new_run. split; cbn; try done.
    + intros i d Hd. eauto with rundir.
    + intros i d d' j Hd Hd' _ _ _. rewrite (Hold _ _ Hd) in Hd'. by simplify_eq.
    + intros i d d' Hd Hd' _. rewrite (Hold _ _ Hd) in Hd'. by simplify_eq.
    + intros n i d j Hi Hd _ _ _ _. split; [|eauto with rundir]. rewrite lookup_insert_ne; [done|]. congruence.
Qed.

(** A lock file in a directory that is not published. *)
Definition with_new_lock (p : pid) (name : string) (i : nat) (d : RunDir) (K : Kernel) : Kernel :=
  bump (with_disk (set_run i (set_slot name (Present (k_next K)) d) (k_disk K)) (add_file p (LockFile (k_next K)) K)).

Lemma recoverable_set_run D i d d' :
  recoverable D -> d_runs D !! i = Some d ->
  (forall name, d_names D !! name = Some i -> published_ok name d \/ temporary_ok name d -> published_ok name d' \/ temporary_ok name d') ->
  recoverable (set_run i d' D).
Proof.
  intros HD Hd Hok n i' Hn. destruct (HD n i' Hn) as (d0 & Hd0 & H0). cbn.
  destruct (decide (i' = i)) as [->|Hne]; [|by rewrite lookup_insert_ne; eauto].
  rewrite lookup_insert_eq. simplify_eq. eauto.
Qed.

Lemma set_slot_temporary name name' s d : temporary_ok name' d -> temporary_ok name' (set_slot name s d).
Proof. unfold temporary_ok. by rewrite set_slot_other. Qed.

Lemma with_new_lock_sound K p name i d :
  sound K -> d_runs (k_disk K) !! i = Some d -> is_lock_name name = true ->
  (forall n, d_names (k_disk K) !! n = Some i -> temporary_ok n d) -> sound (with_new_lock p name i d K).
Proof.
  intros HK Hd Hl Ht. unfold with_new_lock.
  assert (Hslot : forall i' n j, has_slot (set_run i (set_slot name (Present (k_next K)) d) (k_disk K)) i' n j ->
    (i' = i /\ n = name /\ j = k_next K) \/ has_slot (k_disk K) i' n j).
  { intros i' n j [(-> & -> & [= ->])|?]%(has_slot_set_slot _ _ d); auto. }
  assert (Hfile : forall q f o, k_files (add_file p (LockFile (k_next K)) K) !! (q, f) = Some o ->
    (f = k_next K /\ o = LockFile (k_next K)) \/ k_files K !! (q, f) = Some o).
  { intros q f o. cbn. rewrite lookup_insert_Some. naive_solver. }
  split.
  - apply (recoverable_set_run _ i d); [apply HK|done|]. intros n Hn _. right. by apply set_slot_temporary, Ht.
  - apply HK.
  - intros i1 i2 n1 n2 j [(-> & -> & ->)|H1]%Hslot [(-> & -> & E)|H2]%Hslot; [done|..].
    + pose proof (so_next_slots _ HK _ _ _ H2). lia.
    + pose proof (so_next_slots _ HK _ _ _ H1). lia.
    + by apply (so_slots _ HK i1 i2 n1 n2 j).
  - intros i' d'. cbn. rewrite lookup_insert_Some. intros [[_ <-]|[_ Hi]]; [rewrite set_slot_other; by apply (so_other _ HK i)|by apply (so_other _ HK i')].
  - intros o q f Hf. cbn. rewrite lookup_insert_ne; [by apply (so_locks _ HK)|]. intros [= <- <-].
    apply (so_locks _ HK), (so_next_files _ HK) in Hf. lia.
  - intros q f i' [[_ ?]|Hf]%Hfile; [done|]. cbn. destruct (so_roots _ HK _ _ _ Hf) as [d' Hd'].
    destruct (decide (i' = i)) as [->|]; [by rewrite lookup_insert_eq|rewrite lookup_insert_ne by done; eauto].
  - intros q f o [[-> _]|Hf]%Hfile; cbn; [lia|]. pose proof (so_next_files _ HK _ _ _ Hf). lia.
  - intros q f j [[_ [= ->]]|Hf]%Hfile; cbn; [lia|]. pose proof (so_next_locks _ HK _ _ _ Hf). lia.
  - intros i' d'. cbn. rewrite lookup_insert_Some. intros [[<- _]|[_ Hi]]; [pose proof (so_next_runs _ HK _ _ Hd); lia|].
    pose proof (so_next_runs _ HK _ _ Hi). lia.
  - intros i' n j [(-> & -> & ->)|Hs]%Hslot; cbn; [lia|]. pose proof (so_next_slots _ HK _ _ _ Hs). lia.
Qed.

(** A directory that only has temporary names is nobody's live run. *)
Lemma unpublished K i d q held D' :
  sound K -> d_runs (k_disk K) !! i = Some d -> (forall n, d_names (k_disk K) !! n = Some i -> temporary_ok n d) ->
  forall name j, d_names (k_disk K) !! name = Some i -> is_run_name name = true -> rd_creator d = q -> rd_live d = Present j ->
  held (LockFile j) -> same_slots d D'.
Proof. intros HK Hd Ht name j Hn Hr. destruct (Ht name Hn) as [Hx _]. by rewrite temporary_is_no_run in Hr. Qed.

Lemma not_held K p q : holds_lock p K Authority -> q <> p -> ~ holds_lock q K Authority.
Proof. intros Hh Hne Hq. by apply Hne, (holds_lock_exclusive K Authority). Qed.

Lemma new_lock_benign K p name i d :
  sound K -> holds_lock p K Authority -> d_runs (k_disk K) !! i = Some d -> is_lock_name name = true ->
  slot_of name d = Never -> (forall n, d_names (k_disk K) !! n = Some i -> temporary_ok n d) ->
  benign p K (with_new_lock p name i d K).
Proof.
  intros HK Hh Hd Hl Hs Ht. split; [by apply with_new_lock_sound|]. intros q Hne. split; cbn.
  - intros f. rewrite lookup_insert_ne; [done|]. congruence.
  - done.
  - apply (keeps_set_run _ _ _ _ d); [done|..].
    + apply set_slot_evolves. by rewrite Hs.
    + intros Ha. by destruct (not_held _ _ _ Hh Hne).
    + intros. apply set_slot_other.
    + intros _. by rewrite set_slot_other.
    + by apply (unpublished K).
Qed.

(** Removing a lock file of such a directory. *)
Lemma unlink_benign K p name i d :
  sound K -> holds_lock p K Authority -> d_runs (k_disk K) !! i = Some d -> is_lock_name name = true ->
  is_present (slot_of name d) = true -> (forall n, d_names (k_disk K) !! n = Some i -> temporary_ok n d) ->
  benign p K (with_disk (set_run i (set_slot name Removed d) (k_disk K)) K).
Proof.
  intros HK Hh Hd Hl Hs Ht.
  assert (Hslot : forall i' n j, has_slot (set_run i (set_slot name Removed d) (k_disk K)) i' n j -> has_slot (k_disk K) i' n j).
  { intros i' n j [(_ & _ & ?)|?]%(has_slot_set_slot _ _ d); auto; done. }
  split.
  - apply with_disk_sound; [done|..].
    + apply (recoverable_set_run _ i d); [apply HK|done|]. intros n Hn _. right. by apply set_slot_temporary, Ht.
    + apply HK.
    + intros i1 i2 n1 n2 j H1%Hslot H2%Hslot. by apply (so_slots _ HK i1 i2 n1 n2 j).
    + intros i' d'. cbn. rewrite lookup_insert_Some. intros [[_ <-]|[_ Hi]]; [rewrite set_slot_other; by apply (so_other _ HK i)|by apply (so_other _ HK i')].
    + intros i' [d' Hd']. cbn. destruct (decide (i' = i)) as [->|]; [by rewrite lookup_insert_eq|rewrite lookup_insert_ne by done; eauto].
    + intros i' d'. cbn. rewrite lookup_insert_Some. intros [[<- _]|[_ Hi]]; [by apply (so_next_runs _ HK _ d)|by apply (so_next_runs _ HK _ d')].
    + intros i' n j Hx%Hslot. by apply (so_next_slots _ HK i' n).
  - intros q Hne. apply with_disk_keeps, (keeps_set_run _ _ _ _ d); [done|..].
    + apply set_slot_evolves. destruct (slot_of name d); [done|by right|done].
    + intros Ha. by destruct (not_held _ _ _ Hh Hne).
    + intros. apply set_slot_other.
    + intros _. by rewrite set_slot_other.
    + by apply (unpublished K).
Qed.

(** The files of the other owners, under the liveness of the run. *)
Lemma set_other_benign K p i d other :
  sound K -> d_runs (k_disk K) !! i = Some d ->
  (forall j, rd_live d = Present j -> holds_lock p K (LockFile j)) ->
  no_lock_names other ->
  (other ⊆ rd_other d \/ rd_creator d = p /\ forall n, d_names (k_disk K) !! n = Some i -> is_run_name n = true) ->
  benign p K (with_disk (set_run i (set_other other d) (k_disk K)) K).
Proof.
  intros HK Hd Hh Hother Hsub.
  assert (Hslot : forall i' n j, has_slot (set_run i (set_other other d) (k_disk K)) i' n j -> has_slot (k_disk K) i' n j).
  { intros i' n j [Hl (d' & Hd' & Hs)]. split; [done|]. cbn in Hd'. apply lookup_insert_Some in Hd' as [[<- <-]|[_ Hd']]; eauto. }
  split.
  - apply with_disk_sound; [done|..].
    + apply (recoverable_set_run _ i d); [apply HK|done|]. intros n Hn [Hp|[Ht Ho]]; [by left|].
      destruct Hsub as [Hsub|[_ Hrun]]; [right; split; [done|cbn; set_solver]|].
      specialize (Hrun n Hn). by rewrite temporary_is_no_run in Hrun.
    + apply HK.
    + intros i1 i2 n1 n2 j H1%Hslot H2%Hslot. by apply (so_slots _ HK i1 i2 n1 n2 j).
    + intros i' d'. cbn. rewrite lookup_insert_Some. intros [[_ <-]|[_ Hi]]; [done|by apply (so_other _ HK i')].
    + intros i' [d' Hd']. cbn. destruct (decide (i' = i)) as [->|]; [by rewrite lookup_insert_eq|rewrite lookup_insert_ne by done; eauto].
    + intros i' d'. cbn. rewrite lookup_insert_Some. intros [[<- _]|[_ Hi]]; [by apply (so_next_runs _ HK _ d)|by apply (so_next_runs _ HK _ d')].
    + intros i' n j Hx%Hslot. by apply (so_next_slots _ HK i' n).
  - intros q Hne. apply with_disk_keeps, (keeps_set_run _ _ _ _ d); try done.
    + by apply same_slots_evolves.
    + intros j Hj _ Hq. exfalso. apply Hne. by eapply holds_lock_exclusive; [apply Hh|].
    + intros Hc. destruct Hsub as [|[? _]]; [done|congruence].
Qed.

(** ** Entries of the authority *)
Definition renamed (old new : string) (i : nat) (K : Kernel) : Kernel :=
  with_disk (set_names (<[ new := i ]> (delete old (d_names (k_disk K)))) (k_disk K)) K.

Lemma rename_benign K p old new i d :
  sound K -> holds_lock p K Authority -> d_names (k_disk K) !! old = Some i -> d_runs (k_disk K) !! i = Some d ->
  (forall i' d', d_names (k_disk K) !! new = Some i' -> d_runs (k_disk K) !! i' = Some d' -> is_present (rd_live d') = false) ->
  published_ok new d \/ temporary_ok new d ->
  (* nobody else's live run loses its name *)
  (is_run_name old = true -> forall q j, q <> p -> rd_creator d = q -> rd_live d = Present j -> ~ holds_lock q K (LockFile j)) ->
  benign p K (renamed old new i K).
Proof.
  intros HK Hh Ho Hd Hn Hok Hlive.
  assert (Hlook : forall n i', <[ new := i ]> (delete old (d_names (k_disk K))) !! n = Some i' ->
                   (n = new /\ i' = i) \/ (n <> new /\ n <> old /\ d_names (k_disk K) !! n = Some i')).
  { intros n i'. rewrite lookup_insert_Some, lookup_delete_Some. naive_solver. }
  split.
  - apply with_disk_sound; [done|..|apply HK|done|apply HK|apply HK].
    + intros n i' [[-> ->]|(Hne & _ & Hi')]%Hlook; [eauto|]. by apply (so_recoverable _ HK n).
    + intros n n' i' [[-> ->]|(Hne & Hne2 & H1)]%Hlook [[-> ?]|(Hne' & Hne2' & H2)]%Hlook; subst; try done.
      * exfalso. by apply Hne2', (so_names _ HK n' old i).
      * exfalso. by apply Hne2, (so_names _ HK n old i).
      * by apply (so_names _ HK n n' i').
    + apply HK.
  - intros q Hne. apply with_disk_keeps, keeps_set_names.
    + intros Ha. by destruct (not_held _ _ _ Hh Hne).
    + intros name i' d' j Hi' Hd' Hr Hc Hj Hq. rewrite lookup_insert_ne, lookup_delete_ne; [done|..].
      * intros <-. simplify_eq. exact (Hlive Hr _ j Hne eq_refl Hj Hq).
      * intros <-. specialize (Hn i' d' Hi' Hd'). by rewrite Hj in Hn.
Qed.

Lemma rmdir_benign K p name i :
  sound K -> holds_lock p K Authority -> isTemporaryName name = true -> d_names (k_disk K) !! name = Some i ->
  benign p K (with_disk (set_names (delete name (d_names (k_disk K))) (k_disk K)) K).
Proof.
  intros HK Hh Ht Hn. split.
  - apply with_disk_sound; [done|..|apply HK|done|apply HK|apply HK].
    + intros n i'. cbn. rewrite lookup_delete_Some. intros [_ Hi']. by apply (so_recoverable _ HK n).
    + intros n n' i'. cbn. rewrite !lookup_delete_Some. intros [_ H1] [_ H2]. by apply (so_names _ HK n n' i').
    + apply HK.
  - intros q Hne. apply with_disk_keeps, keeps_set_names.
    + intros Ha. by destruct (not_held _ _ _ Hh Hne).
    + intros n i' d' j Hi' Hd' Hr _ _ _. cbn. rewrite lookup_delete_ne; [done|]. intros <-. by rewrite temporary_is_no_run in Hr.
Qed.
