(* ===== verification/RunSpecs.v ===== *)
(** * One process at the disk

    What one process knows of the disk while others use it, and what the system
    calls, the locks and the authority do to its files and locks. *)
From ITree Require Import ITree.
From S2P Require Import Prelude GoText Sorting Paths RunId Effects Interference RunDirectory RunKernel RunLaws.

Section Specs.
Context {euid : Z} {root : string}.
#[local] Instance sys : System DirE Kernel := directory_system root.

(** The open files and the locks of a process. *)
Definition mine (p : pid) (m : gmap file object) (L : gmap object file) (K : Kernel) : Prop :=
  (forall f, k_files K !! (p, f) = m !! f) /\ (forall o f, k_locks K !! o = Some (p, f) <-> L !! o = Some f).

Definition knows (p : pid) (m : gmap file object) (L : gmap object file) (F : Disk -> Prop) (K : Kernel) : Prop :=
  mine p m L K /\ F (k_disk K).

(** A fact of the disk that the others leave true to the holder of these locks. *)
Class Known (p : pid) (L : gmap object file) (F : Disk -> Prop) : Prop :=
  known D D' : keeps_disk p (fun o => is_Some (L !! o)) D D' -> F D -> F D'.

Definition anything (D : Disk) : Prop := True.
Abbreviation owns p m L := (knows p m L anything).

#[export] Instance known_anything p L : Known p L anything.
Proof. done. Qed.

#[export] Instance known_and p L F G : Known p L F -> Known p L G -> Known p L (fun D => F D /\ G D).
Proof. intros HF HG D D' Hk [? ?]. split; [by apply (HF D)|by apply (HG D)]. Qed.

#[export] Instance known_exists {A} p L (F : A -> Disk -> Prop) : (forall a, Known p L (F a)) -> Known p L (fun D => exists a, F a D).
Proof. intros HF D D' Hk [a ?]. exists a. by apply (HF a D). Qed.

Lemma mine_held p m L K o : mine p m L K -> holds_lock p K o <-> is_Some (L !! o).
Proof. intros [_ Hl]. split; intros [f Hf]; exists f; by apply Hl. Qed.

#[export] Instance knows_stable p m L F : Known p L F -> Stable p (knows p m L F).
Proof.
  intros HF K K' [Hf Hl Hd] [[Hm HL] HFK]. split.
  - split; [intros f; by rewrite Hf|intros o f; by rewrite Hl].
  - apply (HF (k_disk K)); [|done]. eapply keeps_disk_mono; [|exact Hd]. intros o Ho. by apply (mine_held p m L K).
Qed.

#[export] Instance stable_pure p (X : Prop) (P : Kernel -> Prop) : Stable p P -> Stable p (fun K => X /\ P K).
Proof. intros HP K K' Hk [? ?]. split; [done|]. by apply (HP K). Qed.

#[export] Instance stable_exists {A} p (P : A -> Kernel -> Prop) : (forall a, Stable p (P a)) -> Stable p (fun K => exists a, P a K).
Proof. intros HP K K' Hk [a ?]. exists a. by apply (HP a K). Qed.

#[export] Instance stable_result {A} p (r : result A) P Q :
  (forall a, Stable p (P a)) -> (forall e, Stable p (Q e)) ->
  Stable p (fun K => match r with Ok a => P a K | Err e => Q e K end).
Proof. by destruct r. Qed.

#[export] Instance stable_option {A} p (r : option A) P Q :
  (forall a, Stable p (Q a)) -> Stable p P ->
  Stable p (fun K => match r with Some a => Q a K | None => P K end).
Proof. by destruct r. Qed.

Abbreviation spec p P t Q := (@hoare DirE Kernel sys _ p P t Q).

Lemma at_call {X} p m L F (e : DirE X) (Q : X -> Kernel -> Prop) :
  Known p L F -> (forall x, Stable p (Q x)) ->
  (forall K, sound K -> knows p m L F K -> permitted p e K) ->
  (forall K x K', sound K -> knows p m L F K -> step root p e x K K' -> benign p K K' /\ Q x K') ->
  spec p (knows p m L F) (call e) Q.
Proof.
  intros HF HQ Hp Hs. apply (hoare_call (System0 := sys)); [apply _|done|]. intros K HK HP. split; [by apply Hp|].
  intros x K' Hx. destruct (Hs K x K' HK HP Hx) as [[? ?] ?]. done.
Qed.

Lemma spec_bind {A B} p P (t : prog A) (k : A -> prog B) R Q :
  spec p P t R -> (forall a, spec p (R a) (k a) Q) -> spec p P (ITree.bind t k) Q.
Proof. exact (hoare_bind (System0 := sys) p P t k R Q). Qed.

Lemma spec_ret {A} p P `{!Stable p P} (a : A) Q : (forall K, sound K -> P K -> Q a K) -> spec p P (Ret a) Q.
Proof. exact (hoare_ret (System0 := sys) p P a Q). Qed.

Lemma spec_weaken {A} p P P' (t : prog A) Q Q' :
  spec p P t Q -> (forall K, sound K -> P' K -> P K) -> (forall a K, sound K -> Q a K -> Q' a K) -> spec p P' t Q'.
Proof. exact (hoare_mono (System0 := sys) p P P' t Q Q'). Qed.

(** ** Calls that change nothing *)
Definition file_facts {X} (m : gmap file object) (e : DirE X) : X -> Prop :=
  match e in DirE X return X -> Prop with
  | Fstat f => fun r => match r with Ok st => exists o, m !! f = Some o /\ st_dev st = 0 /\ st_ino st = inode o | Err _ => True end
  | NewID => fun r => match r with Ok id => id_wf id /\ id <> zero_ID | Err _ => True end
  | _ => fun _ => True
  end.

Definition is_quiet {X} (e : DirE X) : Prop :=
  match e with
  | Fstat _ | Fstatat _ _ | Readdirnames _ | Fsync _ | ContextErr _ | WaitForRetry _ | NewID => True
  | _ => False
  end.

Lemma quiet_step {X} p m L (e : DirE X) x K K' :
  is_quiet e -> mine p m L K -> step root p e x K K' -> K' = K /\ file_facts m e x.
Proof.
  intros Hq [Hm _]. destruct e; try done; cbn; [|tauto..].
  intros [-> Hx]. split; [done|]. destruct x; [|done]. destruct Hx as (o & Ho & ?). exists o. by rewrite <- Hm.
Qed.

Lemma quiet_spec {X} p m L F (e : DirE X) :
  Known p L F -> is_quiet e -> spec p (knows p m L F) (call e) (fun x K => file_facts m e x /\ knows p m L F K).
Proof.
  intros HF Hq. apply at_call; [done|apply _|by destruct e|].
  intros K x K' HK HP Hx. destruct (quiet_step p m L e x K K' Hq (proj1 HP) Hx) as [-> ?].
  split; [by apply benign_refl|done].
Qed.

(** A quiet call whose answer says something about the disk. *)
Lemma quiet_spec_with {X} p m L F (e : DirE X) (G : X -> Disk -> Prop) :
  Known p L F -> (forall x, Known p L (G x)) -> is_quiet e ->
  (forall K x K', sound K -> knows p m L F K -> step root p e x K K' -> G x (k_disk K)) ->
  spec p (knows p m L F) (call e) (fun x => knows p m L (fun D => F D /\ G x D)).
Proof.
  intros HF HG Hq Hx. apply at_call; [done|apply _|by destruct e|].
  intros K x K' HK HP Hs. destruct (quiet_step p m L e x K K' Hq (proj1 HP) Hs) as [-> _].
  split; [by apply benign_refl|]. split; [apply HP|]. split; [apply HP|]. by eapply Hx.
Qed.

(** ** Open files *)
(** A file the process did not have. *)
Definition fresh (m : gmap file object) (L : gmap object file) (f : file) : Prop :=
  m !! f = None /\ forall o, L !! o <> Some f.

Lemma mine_add p m L K o :
  sound K -> mine p m L K -> fresh m L (k_next K) /\ mine p (<[ k_next K := o ]> m) L (add_file p o K).
Proof.
  intros HK [Hm HL]. assert (Hf : m !! k_next K = None) by (rewrite <- Hm; by apply next_is_free).
  split; [split; [done|]|split; [|done]].
  - intros o' Ho'. apply HL, (so_locks _ HK) in Ho'. rewrite Hm in Ho'. congruence.
  - intros f. cbn. destruct (decide (f = k_next K)) as [->|Hne]; [by rewrite !lookup_insert_eq|].
    rewrite !lookup_insert_ne by congruence. apply Hm.
Qed.

Definition is_open {X} (e : DirE X) : Kernel -> pid -> option object :=
  match e with
  | OpenPath path => fun _ _ => if bool_decide (path = Dir root) then Some Parent else None
  | OpenDirAt parent name => fun K p => dir_at root p parent name K
  | OpenLockAt parent name => fun K p => lock_at p parent name K
  | DuplicateFile f => fun K p => k_files K !! (p, f)
  | _ => fun _ _ => None
  end.

Lemma lookup_valid K i d name j :
  sound K -> d_runs (k_disk K) !! i = Some d -> is_lock_name name = true -> slot_of name d = Present j -> valid_object K (LockFile j).
Proof. intros HK Hd Hl Hs. apply (so_next_slots _ HK i name j). split; eauto. Qed.

Lemma run_at_Some K p f i d : run_at p f K = Some (i, d) <-> k_files K !! (p, f) = Some (RunRoot i) /\ d_runs (k_disk K) !! i = Some d.
Proof.
  unfold run_at. split.
  - destruct (k_files K !! (p, f)) as [[]|]; try done. destruct (d_runs _ !! _) eqn:E; [|done]. cbn. intros. by simplify_eq.
  - intros [-> Hd]. cbn. by rewrite Hd.
Qed.

Lemma lock_at_Some K p f name o :
  lock_at p f name K = Some o ->
  exists i d j, run_at p f K = Some (i, d) /\ is_lock_name name = true /\ slot_of name d = Present j /\ o = LockFile j.
Proof.
  unfold lock_at. destruct (run_at p f K) as [[i d]|] eqn:E; [|done]. cbn. destruct (is_lock_name name); [|done].
  destruct (slot_of name d) as [|j|] eqn:Es; try done. cbn. intros [= <-]. eauto 10.
Qed.

Lemma open_target_valid {X} (e : DirE X) K p o : sound K -> is_open e K p = Some o -> valid_object K o.
Proof.
  intros HK. destruct e; cbn; try done.
  - case_bool_decide; [|done]. by intros [= <-].
  - unfold dir_at. destruct (k_files K !! (p, parent)) as [[]|] eqn:Ef; try done.
    + destruct (_ && _); [|done]. by intros [= <-].
    + case_bool_decide; [by intros [= <-]|]. intros (i & Hi & ->)%fmap_Some. destruct (so_recoverable _ HK _ _ Hi) as (d & Hd & _). by eexists.
    + case_bool_decide; [|done]. intros [= <-]. by eapply so_roots.
  - intros (i & d & j & [Hf Hd]%run_at_Some & Hl & Hs & ->)%lock_at_Some. by eapply lookup_valid.
  - apply file_valid, HK.
Qed.

(** An open call, and what is known of what it opened. *)
Lemma open_spec p m L F (e : DirE (result file)) (G : object -> Disk -> Prop) :
  Known p L F -> (forall o, Known p L (G o)) ->
  (forall r K K', step root p e r K K' <-> opened p (is_open e K p) r K K') ->
  (forall K, permitted p e K) ->
  (forall K o, sound K -> knows p m L F K -> is_open e K p = Some o -> G o (k_disk K)) ->
  spec p (knows p m L F) (call e) (fun r K =>
    match r with
    | Ok f => fresh m L f /\ exists o, knows p (<[ f := o ]> m) L (fun D => F D /\ G o D) K
    | Err _ => knows p m L F K
    end).
Proof.
  intros HF HG Hstep Hperm Hx. apply at_call; [done|apply _|done|]. intros K r K' HK HP [_ Hs]%(fun H => conj (proj1 HP) (proj1 (Hstep r K K') H)).
  destruct r as [f|err].
  - destruct Hs as (o & Ho & -> & ->). destruct (mine_add p m L K o HK (proj1 HP)) as [Hfresh Hm].
    split; [by apply add_file_benign; [|eapply open_target_valid]|]. split; [done|]. exists o. split; [done|]. split; [apply HP|]. by apply (Hx K).
  - destruct Hs as [-> _]. by split; [apply benign_refl|].
Qed.

(** What closing a file leaves of the files and locks. *)
Definition unlocked (m : gmap file object) (f : file) (L : gmap object file) : gmap object file :=
  match m !! f with
  | Some o => if bool_decide (L !! o = Some f) then delete o L else L
  | None => L
  end.

Lemma mine_drop_lock p m L K f o :
  mine p m L K -> m !! f = Some o -> mine p m (unlocked m f L) (drop_lock p f o K).
Proof.
  intros [Hm HL] Hf. unfold unlocked, drop_lock. rewrite Hf. destruct (decide (L !! o = Some f)) as [E|E].
  - assert (E' : k_locks K !! o = Some (p, f)) by (by apply HL). rewrite !bool_decide_eq_true_2 by done.
    split; [done|]. intros o' g. cbn.
    rewrite !lookup_delete_Some. by rewrite HL.
  - assert (E' : k_locks K !! o <> Some (p, f)) by (by rewrite HL). rewrite !bool_decide_eq_false_2 by done. done.
Qed.

Lemma drop_lock_disk p f o K : k_disk (drop_lock p f o K) = k_disk K.
Proof. unfold drop_lock. by case_bool_decide. Qed.

Lemma mine_drop_file p m L K f o :
  mine p m L K -> m !! f = Some o -> mine p (delete f m) (unlocked m f L) (drop_file p f o K).
Proof.
  intros Hm Hf. destruct (mine_drop_lock p m L K f o Hm Hf) as [H1 H2]. unfold drop_file. split; [|done].
  intros g. cbn. destruct (decide (g = f)) as [->|Hne]; [by rewrite !lookup_delete_eq|].
  rewrite !lookup_delete_ne by congruence. apply H1.
Qed.

Lemma close_spec p m L F f :
  Known p L F -> Known p (unlocked m f L) F ->
  spec p (knows p m L F) (call (CloseFile f)) (fun _ => knows p (delete f m) (unlocked m f L) F).
Proof.
  intros HF HF'. apply at_call; [done|apply _|done|]. intros K r K' HK [Hm HFK]. cbn.
  rewrite (proj1 Hm). destruct (m !! f) as [o|] eqn:Hf.
  - intros ->. assert (Hf' : k_files K !! (p, f) = Some o) by (by rewrite (proj1 Hm)).
    split; [by apply drop_file_benign|]. split; [by apply mine_drop_file|]. unfold drop_file. cbn. by rewrite drop_lock_disk.
  - intros [_ ->]. split; [by apply benign_refl|]. unfold unlocked. rewrite Hf, delete_id by done. done.
Qed.

Lemma unlock_spec p m L F f :
  Known p L F -> Known p (unlocked m f L) F ->
  spec p (knows p m L F) (call (FlockUnlock f)) (fun _ => knows p m (unlocked m f L) F).
Proof.
  intros HF HF'. apply at_call; [done|apply _|done|]. intros K r K' HK [Hm HFK]. cbn.
  rewrite (proj1 Hm). destruct (m !! f) as [o|] eqn:Hf.
  - intros [_ ->]. split; [by apply drop_lock_benign|]. split; [by apply mine_drop_lock|]. by rewrite drop_lock_disk.
  - intros [_ ->]. split; [by apply benign_refl|]. unfold unlocked. by rewrite Hf.
Qed.

(** A lock that was free or its own. *)
Lemma flock_free_spec p m L F f o :
  Known p L F -> Known p (<[ o := f ]> L) F -> m !! f = Some o ->
  spec p (knows p m L F) (call (FlockExclusive f)) (fun r K =>
    match r with
    | None => (L !! o = None \/ L !! o = Some f) /\ knows p m (<[ o := f ]> L) F K
    | Some _ => knows p m L F K
    end).
Proof.
  intros HF HF' Hf. apply at_call; [done|intros []; apply _|done|]. intros K r K' HK [Hm HFK] Hs. destruct r as [e|]; cbn in Hs.
  - subst K'. by split; [apply benign_refl|].
  - destruct Hs as (o' & Ho' & Hfree & ->). rewrite (proj1 Hm), Hf in Ho'. injection Ho' as <-.
    split; [apply take_lock_benign; try done; by rewrite (proj1 Hm)|]. split.
    { destruct (L !! o) as [g|] eqn:E; [|by left]. right. apply (proj2 Hm) in E. destruct Hfree as [Hfree|Hfree]; congruence. }
    split; [|done]. split; [apply Hm|]. intros o' g. cbn.
    destruct (decide (o' = o)) as [->|Hne].
    + rewrite !lookup_insert_eq. naive_solver.
    + rewrite !lookup_insert_ne by congruence. apply Hm.
Qed.

(** ** Composition *)
Lemma spec_try {A B} p P (t : prog (result A)) h (k : A -> prog (result B)) R Q :
  spec p P t R -> (forall a, spec p (R (Ok a)) (k a) Q) -> (forall e, spec p (R (Err e)) (h e) Q) ->
  spec p P (try_else t h k) Q.
Proof. intros Ht Hk He. eapply spec_bind; [exact Ht|]. intros [a|e]; [apply Hk|apply He]. Qed.

Lemma spec_check {B} p P (t : prog (option error)) h (k : prog B) R Q :
  spec p P t R -> spec p (R None) k Q -> (forall e, spec p (R (Some e)) (h e) Q) -> spec p P (check_else t h k) Q.
Proof. intros Ht Hk He. eapply spec_bind; [exact Ht|]. intros [e|]; [apply He|apply Hk]. Qed.

Lemma spec_bind_ok {A B} p P (t : prog (result A)) (k : A -> prog (result B)) R Q :
  spec p P t R -> (forall a, spec p (R (Ok a)) (k a) Q) -> (forall e, spec p (R (Err e)) (Ret (Err e)) Q) ->
  spec p P (bind_ok t k) Q.
Proof. apply spec_try with (h := fun e => Ret (Err e)). Qed.

Lemma spec_check_ok {B} p P (t : prog (option error)) (k : prog (result B)) R Q :
  spec p P t R -> spec p (R None) k Q -> (forall e, spec p (R (Some e)) (Ret (Err e)) Q) -> spec p P (check_ok t k) Q.
Proof. apply spec_check with (h := fun e => Ret (Err e)). Qed.

Lemma spec_pure {A} p P (t : prog A) (X : Prop) Q : (X -> spec p P t Q) -> spec p (fun K => X /\ P K) t Q.
Proof. exact (hoare_pure (System0 := sys) p P t X Q). Qed.

Lemma spec_exists {A B} p (P : B -> Kernel -> Prop) (t : prog A) Q :
  (forall b, spec p (P b) t Q) -> spec p (fun K => exists b, P b K) t Q.
Proof. exact (hoare_exists (System0 := sys) p P t Q). Qed.

Lemma spec_pre {A} p (P P' : Kernel -> Prop) (t : prog A) Q : (forall K, sound K -> P' K -> P K) -> spec p P t Q -> spec p P' t Q.
Proof. intros HP Ht. by eapply spec_weaken. Qed.

Lemma spec_post {A} p (P : Kernel -> Prop) (t : prog A) Q Q' : spec p P t Q -> (forall a K, sound K -> Q a K -> Q' a K) -> spec p P t Q'.
Proof. intros Ht HQ. by eapply spec_weaken. Qed.

Lemma knows_mono p m L (F F' : Disk -> Prop) K : (forall D, F D -> F' D) -> knows p m L F K -> knows p m L F' K.
Proof. intros HF [? ?]. split; auto. Qed.

Lemma at_end {A} p m L F (a : A) (Q : A -> Kernel -> Prop) :
  Known p L F -> (forall K, sound K -> knows p m L F K -> Q a K) -> spec p (knows p m L F) (Ret a) Q.
Proof. intros HF HQ. by apply spec_ret; [apply _|]. Qed.

(** A program that leaves the files, the locks and the facts as they are. *)
Definition neutral {A} (p : pid) (m : gmap file object) (L : gmap object file) (F : Disk -> Prop) (t : prog A) : Prop :=
  spec p (knows p m L F) t (fun _ => knows p m L F).

Lemma neutral_quiet {X} p m L F (e : DirE X) : Known p L F -> is_quiet e -> neutral p m L F (call e).
Proof. intros HF Hq. eapply spec_post; [by apply quiet_spec|]. by intros a K _ [_ ?]. Qed.

Lemma neutral_ret {A} p m L F (a : A) : Known p L F -> neutral p m L F (Ret a).
Proof. intros HF. by apply at_end. Qed.

Lemma neutral_bind {A B} p m L F (t : prog A) (k : A -> prog B) :
  neutral p m L F t -> (forall a, neutral p m L F (k a)) -> neutral p m L F (ITree.bind t k).
Proof. intros Ht Hk. by eapply spec_bind. Qed.

Lemma neutral_check {B} p m L F (t : prog (option error)) h (k : prog B) :
  neutral p m L F t -> neutral p m L F k -> (forall e, neutral p m L F (h e)) -> neutral p m L F (check_else t h k).
Proof. intros Ht Hk Hh. by eapply spec_check. Qed.

Lemma neutral_validate_directory p m L F f mode : Known p L F -> neutral p m L F (validateOwnedDirectory euid f mode).
Proof.
  intros HF. apply neutral_bind; [by apply neutral_quiet|]. intros [st|e]; [|by apply neutral_ret].
  destruct (negb _); by apply neutral_ret.
Qed.

Lemma neutral_validate_regular p m L F f mode : Known p L F -> neutral p m L F (validateOwnedRegular euid f mode).
Proof.
  intros HF. apply neutral_bind; [by apply neutral_quiet|]. intros [st|e]; [|by apply neutral_ret].
  destruct (_ || _); by apply neutral_ret.
Qed.

(** ** Files that are opened and closed again *)
Lemma delete_fresh m L f o : fresh m L f -> delete f (<[ f := o ]> m) = m.
Proof. intros [Hf _]. by apply delete_insert_id. Qed.

Lemma unlocked_fresh m L f o : fresh m L f -> unlocked (<[ f := o ]> m) f L = L.
Proof. intros [_ Hl]. unfold unlocked. rewrite lookup_insert_eq. by rewrite bool_decide_eq_false_2. Qed.

Lemma close_quietly_spec p m L F f :
  Known p L F -> Known p (unlocked m f L) F ->
  spec p (knows p m L F) (close_quietly f) (fun _ => knows p (delete f m) (unlocked m f L) F).
Proof. intros HF HF'. eapply spec_bind; [by apply close_spec|]. intros r. by apply at_end. Qed.

Lemma close_fresh_spec p m L F f o :
  Known p L F -> fresh m L f ->
  spec p (knows p (<[ f := o ]> m) L F) (call (CloseFile f)) (fun _ => knows p m L F).
Proof.
  intros HF Hf. eapply spec_post; [apply close_spec|].
  - done.
  - by rewrite (unlocked_fresh m).
  - intros r K _. by rewrite (delete_fresh m L), (unlocked_fresh m).
Qed.

Lemma close_quietly_fresh_spec p m L F f o :
  Known p L F -> fresh m L f ->
  spec p (knows p (<[ f := o ]> m) L F) (close_quietly f) (fun _ => knows p m L F).
Proof. intros HF Hf. eapply spec_bind; [by apply close_fresh_spec|]. intros r. by apply at_end. Qed.

(** A lock file that was there in this directory. *)
Definition was_lock (i : nat) (name : string) (j : nat) (D : Disk) : Prop :=
  exists d, d_runs D !! i = Some d /\ (slot_of name d = Present j \/ slot_of name d = Removed).

#[export] Instance known_was_lock p L i name j : Known p L (was_lock i name j).
Proof.
  intros D D' Hk (d & Hd & Hs). destruct (kd_evolves _ _ _ _ Hk i d Hd) as (d' & Hd' & (_ & E1 & E2)).
  exists d'. split; [done|]. unfold slot_of in *. case_bool_decide;
    [destruct (rd_live d), (rd_live d')|destruct (rd_recovery d), (rd_recovery d')]; cbn in *; naive_solver.
Qed.

Lemma checked_lock_spec p m L F (opening : prog (result file)) (G : object -> Disk -> Prop) :
  Known p L F -> (forall o, Known p L (G o)) ->
  spec p (knows p m L F) opening (fun r K =>
    match r with Ok f => fresh m L f /\ exists o, knows p (<[ f := o ]> m) L (fun D => F D /\ G o D) K | Err _ => knows p m L F K end) ->
  spec p (knows p m L F) (checked_lock euid opening) (fun r K =>
    match r with Ok f => fresh m L f /\ exists o, knows p (<[ f := o ]> m) L (fun D => F D /\ G o D) K | Err _ => knows p m L F K end).
Proof.
  intros HF HG Ho. eapply spec_bind_ok; [exact Ho|intros f; cbn beta iota|intros e; by apply at_end].
  apply spec_pure. intros Hf. apply spec_exists. intros o. eapply spec_check.
  - apply (neutral_validate_regular p (<[ f := o ]> m) L (fun D => F D /\ G o D)). apply _.
  - cbn beta. apply at_end; [apply _|]. eauto.
  - intros e. cbn beta. eapply spec_bind; [apply (close_quietly_fresh_spec p m L _ f o); [apply _|done]|].
    intros []. apply at_end; [apply _|]. intros K _. apply knows_mono. by intros D [? _].
Qed.

Lemma openLockFile_spec p m L F parent i name :
  Known p L F -> m !! parent = Some (RunRoot i) ->
  spec p (knows p m L F) (openLockFile euid parent name) (fun r K =>
    match r with
    | Ok f => fresh m L f /\ exists j, knows p (<[ f := LockFile j ]> m) L (fun D => F D /\ was_lock i name j D) K
    | Err _ => knows p m L F K
    end).
Proof.
  intros HF Hp.
  eapply spec_post; [apply (checked_lock_spec _ _ _ _ _ (fun o D => exists j, o = LockFile j /\ was_lock i name j D))|].
  - done.
  - intros o D D' Hk (j & -> & Hw). exists j. split; [done|]. by eapply known_was_lock.
  - apply open_spec; [done| |done|done|].
    + intros o D D' Hk (j & -> & Hw). exists j. split; [done|]. by eapply known_was_lock.
    + intros K o HK [Hm _]. cbn. intros (i' & d & j & [Hf Hd]%run_at_Some & Hl & Hs & ->)%lock_at_Some.
      rewrite (proj1 Hm), Hp in Hf. simplify_eq. exists j. split; [done|]. exists d. auto.
  - intros [f|e] K _; [|done]. intros (Hf & o & [Hm [HFK (j & -> & Hw)]]). split; [done|]. exists j. done.
Qed.

#[export] Instance known_fact p L (X : Prop) : Known p L (fun _ => X).
Proof. by intros D D' _. Qed.

Lemma spec_forget {A} p m L (F F' : Disk -> Prop) (t : prog A) Q :
  (forall D, F' D -> F D) -> spec p (knows p m L F) t Q -> spec p (knows p m L F') t Q.
Proof. intros HF. apply spec_pre. intros K _. by apply knows_mono. Qed.

#[export] Instance known_implied p L (X : Prop) F : Known p L F -> Known p L (fun D => X -> F D).
Proof. intros HF D D' Hk HX x. by apply (HF D), HX. Qed.

(** ** Reading directories *)
Definition listing (o : object) (D : Disk) : option (gset string) :=
  match o with
  | Authority => Some (dom (d_names D))
  | RunRoot i => entries_of <$> d_runs D !! i
  | _ => None
  end.

Definition is_directory (o : object) : Prop := match o with Authority | RunRoot _ => True | _ => False end.

Lemma openDirectoryCopy_spec p m L F f o :
  Known p L F -> m !! f = Some o -> is_directory o ->
  spec p (knows p m L F) (openDirectoryCopy f) (fun r K =>
    match r with Ok g => fresh m L g /\ knows p (<[ g := o ]> m) L F K | Err _ => knows p m L F K end).
Proof.
  intros HF Hf Ho. eapply spec_post; [apply (open_spec p m L F (OpenDirAt f ".") (fun o' _ => o' = o))|].
  - done.
  - intros o'. apply _.
  - done.
  - done.
  - intros K o' HK [[Hm _] _]. cbn. unfold dir_at. rewrite Hm, Hf. destruct o; try done; cbn; by intros [= <-].
  - intros [g|e] K _; [|done]. intros (Hg & o' & [Hm [HFK ->]]). done.
Qed.

Lemma readDirectoryNames_spec p m L F f o (G : list string -> Disk -> Prop) :
  Known p L F -> (forall names, Known p L (G names)) -> m !! f = Some o -> is_directory o ->
  (forall K names, sound K -> F (k_disk K) -> NoDup names -> listing o (k_disk K) = Some (list_to_set names) ->
     G names (k_disk K)) ->
  spec p (knows p m L F) (readDirectoryNames f) (fun r K =>
    match r with Ok names => knows p m L (fun D => F D /\ G names D) K | Err _ => knows p m L F K end).
Proof.
  intros HF HG Hf Ho Hx. eapply spec_bind_ok; [by apply (openDirectoryCopy_spec p m L F f o)|intros g; cbn beta iota|intros e; by apply at_end].
  apply spec_pure. intros Hg. eapply spec_bind.
  { apply (quiet_spec_with p _ L F (Readdirnames g)
      (fun r D => match r with Ok names => G names D | Err _ => True end)); [done|by intros []; try apply _|done|].
    intros K r K' HK [[Hm _] HFK] [-> Hr]. destruct r as [names|e]; [|done]. destruct Hr as [Hnd Hr]. apply (Hx K); try done.
    revert Hr. unfold names_of, listing. rewrite Hm, lookup_insert_eq. by destruct o. }
  intros r. eapply spec_bind; [apply (close_quietly_fresh_spec p m L _ g o); [|done]|].
  - destruct r; apply _.
  - intros []. destruct r as [names|e]; apply at_end; try apply _; [done|]. intros K _. apply knows_mono. by intros D [? _].
Qed.

Lemma check_entries_neutral p m L F dir i names : forall found,
  Known p L F -> m !! dir = Some (RunRoot i) -> neutral p m L F (check_entries euid dir found names).
Proof.
  induction names as [|name names IH]; intros found HF Hd; cbn [check_entries]; [by apply neutral_ret|].
  destruct (_ && _); [by apply neutral_ret|].
  eapply spec_bind_ok; [by apply (openLockFile_spec p m L F dir i)|intros f; cbn beta iota|intros e; by apply at_end].
  apply spec_pure. intros Hf. apply spec_exists. intros j. eapply (spec_forget p _ _ F); [by intros D [? _]|].
  eapply spec_check_ok; [by apply (close_fresh_spec p m L F f (LockFile j))|by apply IH|intros e; by apply at_end].
Qed.

(** The names that pass are lock names. *)
Lemma check_entries_spec p m L F dir i names : forall found,
  Known p L F -> m !! dir = Some (RunRoot i) ->
  spec p (knows p m L F) (check_entries euid dir found names) (fun r K =>
    match r with Ok _ => Forall (fun name => is_lock_name name = true) names | Err _ => True end /\ knows p m L F K).
Proof.
  induction names as [|name names IH]; intros found HF Hd; cbn [check_entries].
  { apply at_end; [done|]. intros K _ ?. split; [constructor|done]. }
  destruct (negb _ && negb _) eqn:En; [by apply at_end|].
  assert (Hl : is_lock_name name = true).
  { unfold is_lock_name. by destruct (bool_decide (name = livenessLockName)), (bool_decide (name = recoveryLockName)). }
  eapply spec_bind_ok; [by apply (openLockFile_spec p m L F dir i)|intros f; cbn beta iota|intros e; by apply at_end].
  apply spec_pure. intros Hf. apply spec_exists. intros j. eapply (spec_forget p _ _ F); [by intros D [? _]|].
  eapply spec_check_ok; [by apply (close_fresh_spec p m L F f (LockFile j))| |intros e; by apply at_end].
  cbn beta. eapply spec_post; [by apply IH|]. intros [found'|e] K _ [Hall ?]; split; try done. by constructor.
Qed.

(** What [validateFixedEntries] finds: [G] follows when nothing but the locks is there. *)
Lemma validateFixedEntries_spec p m L F dir i allowMissing (G : Disk -> Prop) :
  Known p L F -> Known p L G -> m !! dir = Some (RunRoot i) ->
  (forall K d, sound K -> F (k_disk K) -> d_runs (k_disk K) !! i = Some d -> rd_other d = ∅ -> G (k_disk K)) ->
  spec p (knows p m L F) (validateFixedEntries euid dir allowMissing) (fun err K =>
    match err with None => knows p m L (fun D => F D /\ G D) K | Some _ => knows p m L F K end).
Proof.
  intros HF HG Hd Hx.
  eapply spec_bind; [apply (readDirectoryNames_spec p m L F dir (RunRoot i)
     (fun names D => Forall (fun name => is_lock_name name = true) names -> G D)); try done|].
  - intros names. apply _.
  - intros K names HK HFK _ Hl Hall. cbn in Hl. apply fmap_Some in Hl as (d & Hd' & Hl).
    apply (Hx K d HK HFK Hd'). apply elem_of_equiv_empty_L. intros n Hn.
    assert (Hin : n ∈ names) by (apply (elem_of_list_to_set (C := gset string)); rewrite Hl; unfold entries_of; set_solver).
    rewrite Forall_forall in Hall. apply Hall in Hin. by rewrite (so_other _ HK i d Hd' n Hn) in Hin.
  - intros [names|e]; [|by apply at_end].
    eapply spec_bind; [apply (check_entries_spec p m L _ dir i); [apply _|done]|]. intros r. apply spec_pure. intros Hall.
    destruct r as [found|e]; [|apply at_end; [apply _|]; intros K _; apply knows_mono; by intros D [? _]].
    destruct (_ && _); apply at_end; try apply _; intros K _; apply knows_mono; intros D [? HGD]; auto.
Qed.

(** ** Comparing, locking *)
Lemma sameDirectory_spec p m L F l r a b :
  Known p L F -> m !! l = Some a -> m !! r = Some b ->
  spec p (knows p m L F) (sameDirectory l r) (fun same K => (same = Ok true -> a = b) /\ knows p m L F K).
Proof.
  intros HF Hl Hr. eapply spec_bind_ok; [by apply (quiet_spec p m L F (Fstat l))|intros st; cbn beta|intros e; apply spec_pure; intros _; by apply at_end].
  apply spec_pure. intros (o & Ho & Hdev & Hino).
  eapply spec_bind_ok; [by apply (quiet_spec p m L F (Fstat r))|intros st'; cbn beta|intros e; apply spec_pure; intros _; by apply at_end].
  apply spec_pure. intros (o' & Ho' & Hdev' & Hino'). simplify_eq. apply at_end; [done|]. intros K _ ?. split; [|done].
  unfold same_inode. intros [= Hs]. apply andb_true_iff in Hs as [_ Hs]. apply inode_inj. lia.
Qed.

Lemma known_locked p L F o f : Known p L F -> L !! o = None \/ L !! o = Some f -> Known p (<[ o := f ]> L) F.
Proof.
  intros HF Hfree D D' Hk. apply HF. eapply keeps_disk_mono; [|exact Hk]. intros o' [g Hg].
  destruct (decide (o' = o)) as [->|Hne]; [rewrite lookup_insert_eq; eauto|rewrite lookup_insert_ne by done; eauto].
Qed.

Lemma lockWithContext_spec p m L F ctx f o :
  Known p L F -> Known p (<[ o := f ]> L) F -> m !! f = Some o ->
  spec p (knows p m L F) (lockWithContext ctx f) (fun err K =>
    match err with
    | None => (L !! o = None \/ L !! o = Some f) /\ knows p m (<[ o := f ]> L) F K
    | Some _ => knows p m L F K
    end).
Proof.
  intros HF HF' Hf. unfold lockWithContext. apply (hoare_iter (System0 := sys) p (fun _ => knows p m L F)). intros _.
  eapply spec_bind; [by apply (neutral_quiet p m L F (ContextErr ctx))|]. intros [e|]; [by apply at_end|].
  eapply spec_bind; [by apply (flock_free_spec p m L F f o)|]. intros [e|]; cbn beta iota.
  2: { apply spec_pure. intros ?. by apply at_end. }
  destruct (negb (lockBusy e)); [by apply at_end|].
  eapply spec_bind; [by apply (neutral_quiet p m L F (WaitForRetry ctx))|]. intros [e'|]; by apply at_end.
Qed.

Lemma tryLock_spec p m L F f o :
  Known p L F -> Known p (<[ o := f ]> L) F -> m !! f = Some o ->
  spec p (knows p m L F) (tryLock f) (fun r K =>
    match r with
    | Ok true => (L !! o = None \/ L !! o = Some f) /\ knows p m (<[ o := f ]> L) F K
    | _ => knows p m L F K
    end).
Proof.
  intros HF HF' Hf. eapply spec_bind; [by apply (flock_free_spec p m L F f o)|].
  intros [e|]; cbn beta iota; [destruct (lockBusy e); by apply at_end|]. apply spec_pure. intros ?. by apply at_end.
Qed.

(** ** The authority *)
Definition authority_files (a : authorityDirectory) (m : gmap file object) : gmap file object :=
  <[ au_root a := Authority ]> (<[ au_parent a := Parent ]> m).

Definition fresh_authority (m : gmap file object) (L : gmap object file) (a : authorityDirectory) : Prop :=
  fresh m L (au_parent a) /\ fresh (<[ au_parent a := Parent ]> m) L (au_root a).

Lemma make_keeps p held D : keeps_disk p held D (make D).
Proof. split; try done; cbn; intros; simplify_eq; eauto with rundir. Qed.

Lemma make_authority_neutral p m L F parent :
  Known p L F -> m !! parent = Some Parent -> neutral p m L F (make_authority parent (Base root)).
Proof.
  intros HF Hp. eapply spec_bind; [|intros r; by apply at_end].
  apply (at_call p m L F (Mkdirat parent (Base root)) (fun _ => knows p m L F)); [done|apply _|done|].
  intros K [e|] K' HK [Hm HFK]; cbn; [by intros ->; split; [apply benign_refl|]|]. rewrite (proj1 Hm), Hp.
  intros [(_ & _ & _ & ->)|[? _]]; [|done]. split; [by apply make_benign|]. split; [done|].
  eapply HF; [|exact HFK]. apply make_keeps.
Qed.

Lemma sync_neutral p m L F r q : Known p L F -> neutral p m L F (syncAuthorityCreation r q).
Proof.
  intros HF. apply neutral_check; [by apply neutral_quiet|apply neutral_check; [by apply neutral_quiet|by apply neutral_ret|]|];
    intros e; by apply neutral_ret.
Qed.

Lemma close_root_and_parent_spec p m L F a :
  Known p L F -> fresh_authority m L a ->
  spec p (knows p (authority_files a m) L F) (close_root_and_parent (au_root a) (au_parent a)) (fun _ => knows p m L F).
Proof.
  intros HF [Hp Hr]. eapply spec_bind; [by apply (close_quietly_fresh_spec p _ L F (au_root a))|].
  intros []. by apply close_quietly_fresh_spec.
Qed.

Lemma authority_close_spec p m L F a :
  Known p L F -> fresh_authority m L a ->
  spec p (knows p (authority_files a m) L F) (authority_close a) (fun _ => knows p m L F).
Proof.
  intros HF [Hp Hr]. eapply spec_bind; [by apply (close_fresh_spec p _ L F (au_root a))|].
  intros e. eapply spec_bind; [by apply (close_fresh_spec p m L F (au_parent a))|]. intros e'. by apply at_end.
Qed.

Lemma openAuthority_spec p m L F :
  Known p L F ->
  spec p (knows p m L F) (openAuthority euid root) (fun r K =>
    match r with
    | Ok a => fresh_authority m L a /\ knows p (authority_files a m) L F K
    | Err _ => knows p m L F K
    end).
Proof.
  intros HF. unfold openAuthority. cbv zeta. eapply spec_try.
  { apply (open_spec p m L F (OpenPath (Dir root)) (fun o _ => o = Parent)); [done|intros; apply _|done|done|].
    intros K o _ _. cbn. case_bool_decide; [|done]. by intros [= <-]. }
  2: { intros e. by apply at_end. }
  intros parent. apply spec_pure. intros Hp. apply spec_exists. intros o. apply (spec_pre p (fun K => o = Parent /\ knows p (<[ parent := o ]> m) L F K)).
  { intros K _ [Hm [HFK ->]]. done. }
  apply spec_pure. intros ->. eapply spec_check; [apply make_authority_neutral; [done|by rewrite lookup_insert_eq]| |].
  2: { intros e. eapply spec_bind; [by apply (close_quietly_fresh_spec p m L F parent)|]. intros []. by apply at_end. }
  eapply spec_try.
  { apply (open_spec p (<[ parent := Parent ]> m) L F (OpenDirAt parent (Base root)) (fun o _ => o = Authority)); [done|intros; apply _|done|done|].
    intros K o _ [Hm _]. cbn. unfold dir_at. rewrite (proj1 Hm), lookup_insert_eq. destruct (_ && _); [|done]. by intros [= <-]. }
  2: { intros e. eapply spec_bind; [by apply (close_quietly_fresh_spec p m L F parent)|]. intros []. by apply at_end. }
  intros r. apply spec_pure. intros Hr. apply spec_exists. intros o.
  apply (spec_pre p (fun K => o = Authority /\ knows p (<[ r := o ]> (<[ parent := Parent ]> m)) L F K)).
  { intros K _ [Hm [HFK ->]]. done. }
  apply spec_pure. intros ->. set (a := MkAuthority parent r). assert (Ha : fresh_authority m L a) by (by split).
  change (<[ r := Authority ]> _) with (authority_files a m).
  eapply spec_check; [by apply neutral_validate_directory| |].
  2: { intros e. eapply spec_bind; [by apply (close_root_and_parent_spec p m L F a)|]. intros []. by apply at_end. }
  eapply spec_check; [by apply sync_neutral| |].
  2: { intros e. eapply spec_bind; [by apply (close_root_and_parent_spec p m L F a)|]. intros []. by apply at_end. }
  apply at_end; [done|]. intros K _ ?. split; [done|]. done.
Qed.

Lemma verify_neutral p m L F a :
  Known p L F -> m !! au_parent a = Some Parent -> m !! au_root a = Some Authority ->
  neutral p m L F (verifyAuthorityLocation root a).
Proof.
  intros HF Hp Hr. eapply spec_bind.
  { apply (open_spec p m L F (OpenDirAt (au_parent a) (Base root)) (fun o _ => True)); [done|intros; apply _|done|done|done]. }
  intros [current|e]; [|by apply at_end]. apply spec_pure. intros Hc. apply spec_exists. intros o.
  apply (spec_forget p _ _ F); [by intros D [? _]|].
  assert (Hroot : <[ current := o ]> m !! au_root a = Some Authority).
  { rewrite lookup_insert_ne; [done|]. intros E. destruct Hc as [Hc _]. by rewrite E, Hr in Hc. }
  eapply spec_bind.
  - eapply spec_bind; [apply (sameDirectory_spec p (<[ current := o ]> m) L F current (au_root a) o Authority); [done|by rewrite lookup_insert_eq|done]|].
    intros same. apply spec_pure. intros _. destruct same as [[]|e]; by apply (neutral_ret p (<[ current := o ]> m) L F).
  - intros compared. eapply spec_bind; [by apply (close_quietly_fresh_spec p m L F current)|]. intros []. by apply at_end.
Qed.

Lemma unlock_authority_spec p m L F f :
  Known p L F -> L !! Authority = None -> m !! f = Some Authority ->
  spec p (knows p m (<[ Authority := f ]> L) F) (unlock (Some f)) (fun _ => knows p m L F).
Proof.
  intros HF HL Hf. assert (E : unlocked m f (<[ Authority := f ]> L) = L).
  { unfold unlocked. rewrite Hf, lookup_insert_eq, bool_decide_eq_true_2 by done. by apply delete_insert_id. }
  eapply spec_post; [apply unlock_spec; [|by rewrite E]|].
  - apply known_locked; [done|by left].
  - intros r K _. by rewrite E.
Qed.

(** Letting go of the authority. *)
Lemma authority_close_spec' p m L F a :
  Known p L F -> (forall o, L !! o <> Some (au_root a)) -> (forall o, L !! o <> Some (au_parent a)) ->
  spec p (knows p m L F) (authority_close a) (fun _ => knows p (delete (au_parent a) (delete (au_root a) m)) L F).
Proof.
  intros HF Hr Hp.
  assert (Hu : forall m f, (forall o, L !! o <> Some f) -> unlocked m f L = L).
  { intros m' f Hno. unfold unlocked. destruct (m' !! f); [|done]. by rewrite bool_decide_eq_false_2. }
  unfold authority_close. eapply spec_bind; [apply (close_spec p m L F (au_root a)); [done|by rewrite Hu]|].
  intros e. rewrite Hu by done. eapply spec_bind; [apply (close_spec p _ L F (au_parent a)); [done|by rewrite Hu]|].
  intros e'. rewrite Hu by done. by apply at_end.
Qed.

(** What a process has while it works in the authority, on top of what it had. *)
Definition with_authority_lock (a : authorityDirectory) (L : gmap object file) : gmap object file := <[ Authority := au_root a ]> L.

Lemma authority_files_lookup a m L :
  fresh_authority m L a -> authority_files a m !! au_root a = Some Authority /\ authority_files a m !! au_parent a = Some Parent.
Proof.
  intros [_ [Hr _]]. unfold authority_files. rewrite lookup_insert_eq. split; [done|].
  rewrite lookup_insert_ne, lookup_insert_eq; [done|]. intros E. by rewrite E, lookup_insert_eq in Hr.
Qed.

Lemma fresh_unlocked m L o f x : fresh m (<[ o := f ]> L) x -> L !! o = None -> fresh m L x.
Proof.
  intros [Hm HL] Ho. split; [done|]. intros o' Ho'. apply (HL o'). rewrite lookup_insert_ne; [done|]. congruence.
Qed.

Lemma fresh_more m L o f x : fresh m L x -> x <> f -> fresh m (<[ o := f ]> L) x.
Proof.
  intros [Hm HL] Hne. split; [done|]. intros o'. destruct (decide (o' = o)) as [->|]; [rewrite lookup_insert_eq; congruence|].
  by rewrite lookup_insert_ne.
Qed.

Lemma fresh_less m L f o x : fresh (<[ f := o ]> m) L x -> fresh m L x /\ x <> f.
Proof. intros [Hm HL]. apply lookup_insert_None in Hm as [? ?]. by split. Qed.

Lemma with_lock_spec {A} p m L F ctx a (h : error -> prog A) body (R : A -> Kernel -> Prop) Q :
  Known p L F -> L !! Authority = None -> m !! au_root a = Some Authority ->
  (forall e, spec p (knows p m L F) (h e) Q) ->
  spec p (knows p m (with_authority_lock a L) F) body R ->
  (forall r, spec p (R r) (unlock (Some (au_root a))) (fun _ => Q r)) ->
  (forall r, Stable p (Q r)) ->
  spec p (knows p m L F) (with_lock ctx a h body) Q.
Proof.
  intros HF HL Hr Hh Hb Hu HQ. assert (HF' : Known p (with_authority_lock a L) F) by (apply known_locked; [done|by left]).
  eapply spec_check; [by apply (lockWithContext_spec p m L F ctx (au_root a) Authority)| |exact Hh].
  apply spec_pure. intros _. eapply spec_bind; [exact Hb|]. intros r. eapply spec_bind; [apply Hu|]. intros u. by apply spec_ret.
Qed.

(** A body that leaves everything as it was. *)
Lemma with_lock_neutral {A} p m L F ctx a (h : error -> prog A) body :
  Known p L F -> L !! Authority = None -> m !! au_root a = Some Authority ->
  (forall e, neutral p m L F (h e)) -> neutral p m (with_authority_lock a L) F body -> neutral p m L F (with_lock ctx a h body).
Proof.
  intros HF HL Hr Hh Hb. eapply with_lock_spec; [done..|exact Hb| |intros; by apply knows_stable].
  intros r. by apply unlock_authority_spec.
Qed.

Lemma with_authority_spec {A} p P a (body : prog A) R Q :
  spec p P body R -> (forall r, spec p (R r) (authority_close a) (fun _ => Q r)) -> (forall r, Stable p (Q r)) ->
  spec p P (with_authority a body) Q.
Proof. intros Hb Hc HQ. eapply spec_bind; [exact Hb|]. intros r. eapply spec_bind; [apply Hc|]. intros c. by apply spec_ret. Qed.

End Specs.
