(* ===== verification/RunRoots.v ===== *)
(** * Run roots among processes

    What each operation of [RunDirectory] does to the files and locks of its
    process: staging, publishing and removing a run. *)
From ITree Require Import ITree.
From S2P Require Import Prelude GoText Sorting Paths RunId Effects Interference RunDirectory RunKernel RunLaws RunSpecs.

Section Roots.
Context {euid : Z} {root : string}.
#[local] Instance system : System DirE Kernel := directory_system root.
Abbreviation spec p P t Q := (@hoare DirE Kernel (directory_system root) _ p P t Q).
Abbreviation neutral := (RunSpecs.neutral (root := root)).
Abbreviation owns p m L := (knows p m L anything).

(** ** Temporary directories *)
Lemma locked_is_Some (L : gmap object file) f : L !! Authority = Some f -> is_Some (L !! Authority).
Proof. intros ->. eauto. Qed.

(** Under the lock of the authority its entries are known. *)
Lemma known_names p L f (P : gmap string nat -> Prop) : L !! Authority = Some f -> Known p L (fun D => P (d_names D)).
Proof. intros HL D D' Hk. by rewrite (kd_names _ _ _ _ Hk) by (by eapply locked_is_Some). Qed.

(** A directory, its maker and its lock files. *)
Definition run_is (i : nat) (creator : pid) (live recovery : slot) (D : Disk) : Prop :=
  exists d, d_runs D !! i = Some d /\ rd_creator d = creator /\ rd_live d = live /\ rd_recovery d = recovery.

Lemma known_run_is p L f i creator live recovery : L !! Authority = Some f -> Known p L (run_is i creator live recovery).
Proof.
  intros HL D D' Hk (d & Hd & Hc & Hl & Hr).
  destruct (kd_slots _ _ _ _ Hk (locked_is_Some _ _ HL) i d Hd) as (d' & Hd' & E1 & E2 & E3).
  exists d'. split_and!; congruence.
Qed.

Lemma mine_lock p m L K f o : mine p m L K -> L !! o = Some f -> holds_lock p K o.
Proof. intros Hm HL. apply (mine_held p m L K o Hm). eauto. Qed.

(** A run under a temporary name is not published. *)
Lemma temporary_run K name i d :
  sound K -> isTemporaryName name = true -> d_names (k_disk K) !! name = Some i -> d_runs (k_disk K) !! i = Some d ->
  forall n, d_names (k_disk K) !! n = Some i -> temporary_ok n d.
Proof.
  intros HK Ht Hn Hd n Hn'. pose proof (so_names _ HK _ _ _ Hn Hn') as <-.
  destruct (so_recoverable _ HK _ _ Hn) as (d' & Hd' & [[Hr _]|Hok]); simplify_eq; [|done].
  by rewrite temporary_is_no_run in Hr.
Qed.

Lemma temporary_is_no_dot name : isTemporaryName name = true -> name <> ".".
Proof. intros H ->. vm_compute in H. done. Qed.

Lemma remove_locks_spec p m L dir i name f locks :
  L !! Authority = Some f -> m !! dir = Some (RunRoot i) -> isTemporaryName name = true ->
  Forall (fun n => is_lock_name n = true) locks ->
  spec p (knows p m L (fun D => d_names D !! name = Some i)) (remove_locks dir name locks)
    (fun _ => knows p m L (fun D => d_names D !! name = Some i)).
Proof.
  intros HL Hd Ht. set (F := fun D => d_names D !! name = Some i).
  assert (HF : Known p L F) by (by apply (known_names p L f (fun names => names !! name = Some i))).
  induction 1 as [|lockName locks Hl _ IH]; cbn [remove_locks]; [by apply at_end|].
  eapply spec_bind.
  - apply (at_call p m L F (UnlinkFile dir lockName) (fun _ => knows p m L F)); [done|apply _|done|].
    intros K [e|] K' HK [Hm HFK]; cbn.
    + intros [-> _]. by split; [apply benign_refl|].
    + intros (i' & d & [Hf Hd']%run_at_Some & [(_ & Hp & ->)|(Hno & _)]); [|by rewrite Hl in Hno].
      rewrite (proj1 Hm), Hd in Hf. simplify_eq. split; [|by split].
      apply unlink_benign; try done; [by eapply mine_lock|]. by eapply temporary_run.
  - intros [e|]; [|exact IH]. destruct (is_errno _ _); [exact IH|]. by apply at_end.
Qed.

Lemma remove_temporary_spec p m L a dir i name f :
  L !! Authority = Some f -> m !! au_root a = Some Authority -> m !! dir = Some (RunRoot i) -> isTemporaryName name = true ->
  spec p (knows p m L (fun D => d_names D !! name = Some i)) (remove_temporary euid a name dir) (fun _ => owns p m L).
Proof.
  intros HL Hr Hd Ht. set (F := fun D => d_names D !! name = Some i).
  assert (HF : Known p L F) by (by apply (known_names p L f (fun names => names !! name = Some i))).
  assert (Hend : forall err : option error, spec p (knows p m L F) (Ret err) (fun _ => owns p m L)).
  { intros err. apply at_end; [done|]. intros K _. by apply knows_mono. }
  unfold remove_temporary. cbv zeta. eapply spec_check; [by apply neutral_validate_directory| |intros e; apply Hend].
  eapply spec_check; [apply (validateFixedEntries_spec p m L F dir i true F); try done; by intros K d _ ?| |intros e; apply Hend].
  apply (spec_forget p _ _ F); [by intros D [? _]|].
  eapply spec_check; [apply (remove_locks_spec p m L dir i name f); try done; by repeat constructor| |intros e; apply Hend].
  apply (spec_check p _ _ _ _ (fun _ => owns p m L)); [|eapply spec_check; [by apply (neutral_quiet p m L anything)| |]|].
  - apply (at_call p m L F (RemoveDir (au_root a) name) (fun _ => owns p m L)); [done|apply _|done|].
    intros K [e|] K' HK [Hm HFK]; cbn.
    + intros ->. by split; [apply benign_refl|].
    + intros (i' & d & (Hf & Hn & Hd') & He & ->). split; [|by split]. apply (rmdir_benign K p name i'); try done. by eapply mine_lock.
  - by apply at_end.
  - intros e. by apply at_end.
  - intros e. by apply at_end.
Qed.

Lemma removeUnpublished_spec p m L a name f :
  L !! Authority = Some f -> m !! au_root a = Some Authority ->
  neutral p m L anything (removeUnpublished euid a name).
Proof.
  intros HL Hr. unfold removeUnpublished. destruct (isTemporaryName name) eqn:Ht; cbn [negb]; [|by apply neutral_ret].
  set (G := fun (o : object) D => exists i, o = RunRoot i /\ d_names D !! name = Some i).
  assert (HG : forall o, Known p L (G o)).
  { intros o. apply known_exists. intros i. apply known_and; [apply _|]. by apply (known_names p L f (fun names => names !! name = Some i)). }
  eapply spec_bind.
  { apply (open_spec p m L anything (OpenDirAt (au_root a) name) G); [done|done|done|done|].
    intros K o HK [[Hm _] _]. cbn. unfold dir_at. rewrite Hm, Hr.
    rewrite bool_decide_eq_false_2 by (by apply temporary_is_no_dot). intros (i & Hi & ->)%fmap_Some. exists i. by split. }
  intros [dir|e]; [|cbn beta iota; destruct (is_errno _ _); by apply at_end].
  apply spec_pure. intros Hdir. apply spec_exists. intros o.
  apply (spec_pre p (fun K => exists i, o = RunRoot i /\ knows p (<[ dir := o ]> m) L (fun D => d_names D !! name = Some i) K)).
  { intros K _ [Hm [_ (i & -> & Hi)]]. exists i. done. }
  apply spec_exists. intros i. apply spec_pure. intros ->.
  eapply spec_bind; [apply (remove_temporary_spec p (<[ dir := RunRoot i ]> m) L a dir i name f); try done|].
  - rewrite lookup_insert_ne; [done|]. intros E. destruct Hdir as [Hx _]. by rewrite E, Hr in Hx.
  - by rewrite lookup_insert_eq.
  - intros r. eapply spec_bind; [by apply (close_quietly_fresh_spec p m L anything dir)|]. intros []. by apply at_end.
Qed.

Lemma freshTemporaryName_spec p m L F prefix id :
  Known p L F -> proper_ID id -> prefix = stagingPrefix \/ prefix = removingPrefix ->
  spec p (knows p m L F) (freshTemporaryName prefix id) (fun r K =>
    match r with Ok name => isTemporaryName name = true | Err _ => True end /\ knows p m L F K).
Proof.
  intros HF Hid Hp. eapply spec_try; [by apply (quiet_spec p m L F NewID)|intros nonce; cbn beta|intros e; cbn beta; apply spec_pure; intros _; by apply at_end].
  apply spec_pure. intros Hn. apply at_end; [done|]. intros K _ ?. split; [|done]. by apply fresh_name_temporary.
Qed.

(** ** Closing the files of a run *)
Definition closed (f : option file) (s : gmap file object * gmap object file) : gmap file object * gmap object file :=
  match f with Some f => (delete f s.1, unlocked s.1 f s.2) | None => s end.
Definition all_closed (liveness recovery directory : option file) (s : gmap file object * gmap object file) :=
  closed directory (closed recovery (closed liveness s)).

Lemma unlocked_twice m f L : unlocked m f (unlocked m f L) = unlocked m f L.
Proof.
  unfold unlocked. destruct (m !! f) as [o|]; [|done]. destruct (decide (L !! o = Some f)) as [E|E].
  - rewrite (bool_decide_eq_true_2 (L !! o = Some f)) by done. rewrite lookup_delete_eq. by case_bool_decide.
  - rewrite (bool_decide_eq_false_2 (L !! o = Some f)) by done. by rewrite bool_decide_eq_false_2.
Qed.

Lemma unlocked_other m f L o f' : L !! o = Some f' -> f' <> f -> unlocked m f L !! o = Some f'.
Proof.
  intros HL Hne. unfold unlocked. destruct (m !! f) as [o'|]; [|done]. case_bool_decide as E; [|done].
  rewrite lookup_delete_ne; [done|]. congruence.
Qed.

(** A fact that survives the closing, because the lock it needs is another's. *)
Lemma closeRunFiles_spec p m L F liveness recovery directory :
  Known p L F -> Known p (closed liveness (m, L)).2 F -> Known p (closed recovery (closed liveness (m, L))).2 F ->
  Known p (all_closed liveness recovery directory (m, L)).2 F ->
  spec p (knows p m L F) (closeRunFiles liveness recovery directory)
    (fun _ => knows p (all_closed liveness recovery directory (m, L)).1 (all_closed liveness recovery directory (m, L)).2 F).
Proof.
  intros H0 H1 H2 H3. unfold closeRunFiles, all_closed in *. set (s1 := closed liveness (m, L)) in *. set (s2 := closed recovery s1) in *.
  set (s3 := closed directory s2) in *. apply (spec_bind p _ _ _ (fun _ => knows p s1.1 s1.2 F)).
  { destruct liveness as [f|]; [|by apply at_end]. eapply spec_bind; [by apply (unlock_spec p m L F f)|].
    intros u. cbn beta. eapply spec_bind; [apply (close_spec p m (unlocked m f L) F f); [done|by rewrite unlocked_twice]|].
    intros c. rewrite unlocked_twice. by apply at_end. }
  intros a. apply (spec_bind p _ _ _ (fun _ => knows p s2.1 s2.2 F)).
  { destruct recovery as [f|]; [|by apply at_end]. eapply spec_bind; [by apply (close_spec p s1.1 s1.2 F f)|]. intros c. by apply at_end. }
  intros b. apply (spec_bind p _ _ _ (fun _ => knows p s3.1 s3.2 F)).
  { destruct directory as [f|]; [|by apply at_end]. eapply spec_bind; [by apply (close_spec p s2.1 s2.2 F f)|]. intros c. by apply at_end. }
  intros c. by apply at_end.
Qed.

(** ** Staging *)
(** The run a name stands for, to the last entry. *)
Definition run_under (name : string) (i : nat) (d : RunDir) (D : Disk) : Prop :=
  d_names D !! name = Some i /\ d_runs D !! i = Some d.

Lemma known_run_under p L f name i d :
  L !! Authority = Some f -> rd_creator d = p -> rd_other d = ∅ -> Known p L (run_under name i d).
Proof.
  intros HL Hc Ho D D' Hk [Hn Hd]. pose proof (locked_is_Some _ _ HL) as Hh.
  destruct (kd_slots _ _ _ _ Hk Hh i d Hd) as (d' & Hd' & E1 & E2 & E3).
  pose proof (kd_shrinks _ _ _ _ Hk i d d' Hd Hd' Hc) as Hsub. split; [by rewrite (kd_names _ _ _ _ Hk)|].
  rewrite Hd'. f_equal. destruct d, d'; cbn in *. subst. f_equal. set_solver.
Qed.

Definition staged_run (p : pid) (live recovery : slot) : RunDir := MkRunDir p live recovery ∅.

Lemma mkdir_spec p m L f a name :
  L !! Authority = Some f -> m !! au_root a = Some Authority -> isTemporaryName name = true ->
  spec p (owns p m L) (call (Mkdirat (au_root a) name)) (fun err K =>
    match err with
    | None => exists i, knows p m L (run_under name i (staged_run p Never Never)) K
    | Some _ => owns p m L K
    end).
Proof.
  intros HL Hr Ht. apply (at_call p m L anything (Mkdirat (au_root a) name)); [apply _| |done|].
  { intros [e|]; [apply _|]. apply stable_exists. intros i. apply knows_stable. by apply (known_run_under p L f). }
  intros K [e|] K' HK [Hm HFK]; cbn; [by intros ->; split; [apply benign_refl|]|]. rewrite (proj1 Hm), Hr.
  intros [[? _]|(_ & Hn & ->)]; [done|]. split; [apply mkdir_benign; try done; by eapply mine_lock|].
  exists (k_next K). split; [done|]. split; cbn; by rewrite lookup_insert_eq.
Qed.

Lemma openStaged_spec p m L f a name i d :
  L !! Authority = Some f -> m !! au_root a = Some Authority -> isTemporaryName name = true ->
  rd_creator d = p -> rd_other d = ∅ ->
  spec p (knows p m L (run_under name i d)) (openDirectoryAt (au_root a) name) (fun r K =>
    match r with
    | Ok g => fresh m L g /\ knows p (<[ g := RunRoot i ]> m) L (run_under name i d) K
    | Err _ => knows p m L (run_under name i d) K
    end).
Proof.
  intros HL Hr Ht Hc Ho. assert (HF : Known p L (run_under name i d)) by (by apply (known_run_under p L f)).
  eapply spec_post; [apply (open_spec p m L _ (OpenDirAt (au_root a) name) (fun o _ => o = RunRoot i)); [done|intros; apply _|done|done|]|].
  - intros K o HK [[Hm _] [Hn _]]. cbn. unfold dir_at. rewrite Hm, Hr, bool_decide_eq_false_2 by (by apply temporary_is_no_dot).
    rewrite Hn. by intros [= <-].
  - intros [g|e] K _; [|done]. intros (Hg & o & [Hm [HFK ->]]). done.
Qed.

Lemma createLockFile_spec p m L f dir name lockName i d :
  L !! Authority = Some f -> m !! dir = Some (RunRoot i) -> isTemporaryName name = true -> is_lock_name lockName = true ->
  rd_creator d = p -> rd_other d = ∅ -> slot_of lockName d = Never ->
  spec p (knows p m L (run_under name i d)) (createLockFile euid dir lockName) (fun r K =>
    match r with
    | Ok g =>
        fresh m L g /\ exists j, L !! LockFile j = None
        /\ knows p (<[ g := LockFile j ]> m) L (run_under name i (set_slot lockName (Present j) d)) K
    | Err _ => owns p m L K
    end).
Proof.
  intros HL Hd Ht Hl Hc Ho Hs. assert (HF : Known p L (run_under name i d)) by (by apply (known_run_under p L f)).
  assert (HF' : forall j, Known p L (run_under name i (set_slot lockName (Present j) d))).
  { intros j. apply (known_run_under p L f); [done| |by rewrite set_slot_other]. unfold set_slot. by case_bool_decide. }
  set (post := fun (r : result file) K =>
    match r with
    | Ok g =>
        fresh m L g /\ exists j, L !! LockFile j = None
        /\ knows p (<[ g := LockFile j ]> m) L (run_under name i (set_slot lockName (Present j) d)) K
    | Err _ => owns p m L K
    end).
  apply (spec_bind_ok p _ _ _ post).
  - apply (at_call p m L _ (CreateLockAt dir lockName) post); [done|by intros []; apply _|done|].
    intros K [g|e] K' HK [Hm [Hn Hrun]]; cbn; [|by intros ->; split; [apply benign_refl|]].
    intros (i' & d' & [Hf Hd']%run_at_Some & _ & _ & -> & ->). rewrite (proj1 Hm), Hd in Hf.
    injection Hf as <-. assert (d' = d) as -> by congruence.
    destruct (mine_add p m L K (LockFile (k_next K)) HK Hm) as [Hfresh Hmine]. split.
    + apply new_lock_benign; try done; [by eapply mine_lock|]. by eapply temporary_run.
    + split; [done|]. exists (k_next K). split.
      { destruct (L !! LockFile (k_next K)) as [g|] eqn:E; [|done]. apply (proj2 Hm), (so_locks _ HK), (so_next_locks _ HK) in E. lia. }
      split; [exact Hmine|]. split; [done|]. cbn. by rewrite lookup_insert_eq.
  - intros g. apply spec_pure. intros Hg. apply spec_exists. intros j. apply spec_pure. intros Hj. eapply spec_check.
    + apply (neutral_validate_regular p (<[ g := LockFile j ]> m) L (run_under name i (set_slot lockName (Present j) d))). done.
    + apply at_end; [done|]. intros K _ ?. split; [done|]. by exists j.
    + intros e. eapply spec_bind; [by apply (close_quietly_fresh_spec p m L (run_under name i (set_slot lockName (Present j) d)) g)|].
      intros []. apply at_end; [done|]. intros K _. by apply knows_mono.
  - intros e. by apply at_end.
Qed.

(** Giving up a directory that was never published. *)
Lemma abandon_staged_spec {A} p m1 L1 m L F f a id name liveness recovery directory e :
  Known p L1 F -> all_closed liveness recovery directory (m1, L1) = (m, L) ->
  L !! Authority = Some f -> m !! au_root a = Some Authority ->
  spec p (knows p m1 L1 F) (abandon (A := A) euid a id (MkPublication name false directory liveness recovery) e)
    (fun r K => (exists e', r = Err e') /\ owns p m L K).
Proof.
  intros HF E HL Hr. apply (spec_forget p _ _ anything); [done|]. eapply spec_bind.
  - eapply spec_bind; [apply closeRunFiles_spec; apply _|]. intros closeErr. cbn [pub_liveness pub_recovery pub_directory]. rewrite E.
    eapply spec_bind; [by apply (neutral_ret p m L anything)|]. intros [e'|]; [by apply (neutral_ret p m L anything)|].
    eapply spec_bind; [by apply (removeUnpublished_spec p m L a name f)|]. intros r. by apply (neutral_ret p m L anything).
  - intros r. apply at_end; [apply _|]. intros K _ ?. split; [by eexists|done].
Qed.

(** The files of a publication. *)
Record staged_files (m : gmap file object) (L : gmap object file) (i j j' : nat) (d l r : file) : Prop := {
  sf_directory : fresh m L d;
  sf_liveness : fresh (<[ d := RunRoot i ]> m) L l;
  sf_recovery : fresh (<[ l := LockFile j ]> (<[ d := RunRoot i ]> m)) L r;
  sf_unlocked : L !! LockFile j = None
}.

Definition with_live (i j : nat) (d l : file) (m : gmap file object) : gmap file object :=
  <[ l := LockFile j ]> (<[ d := RunRoot i ]> m).
Definition with_staged (i j j' : nat) (d l r : file) (m : gmap file object) : gmap file object :=
  <[ r := LockFile j' ]> (with_live i j d l m).

Lemma staged_distinct m L i j j' d l r : staged_files m L i j j' d l r -> l <> d /\ r <> l /\ r <> d.
Proof.
  intros [_ [Hl _] [Hr _] _]. rewrite lookup_insert_None in Hl. rewrite !lookup_insert_None in Hr.
  destruct Hl as [_ Hl], Hr as [[_ Hr1] Hr2]. auto.
Qed.

Lemma staged_closed m L L1 i j j' d l r :
  staged_files m L i j j' d l r -> L1 = L \/ L1 = <[ LockFile j := l ]> L ->
  all_closed (Some l) (Some r) (Some d) (with_staged i j j' d l r m, L1) = (m, L).
Proof.
  intros Hs HL1. destruct (staged_distinct _ _ _ _ _ _ _ _ Hs) as (N1 & N2 & N3). destruct Hs as [[Hd HLd] [Hl HLl] [Hr HLr] Hj].
  unfold all_closed, closed, with_staged, with_live. cbn.
  assert (E : unlocked (<[ r := LockFile j' ]> (<[ l := LockFile j ]> (<[ d := RunRoot i ]> m))) l L1 = L).
  { unfold unlocked. rewrite lookup_insert_ne, lookup_insert_eq by done.
    destruct HL1 as [-> | ->]; [by rewrite bool_decide_eq_false_2 by (by rewrite Hj)|].
    rewrite bool_decide_eq_true_2 by (by rewrite lookup_insert_eq). by apply delete_insert_id. }
  rewrite E. assert (Ed : delete l (<[ r := LockFile j' ]> (<[ l := LockFile j ]> (<[ d := RunRoot i ]> m))) = <[ r := LockFile j' ]> (<[ d := RunRoot i ]> m)).
  { rewrite delete_insert_ne by done. by rewrite delete_insert_id. }
  rewrite Ed. assert (Hr' : fresh (<[ d := RunRoot i ]> m) L r).
  { split; [|done]. rewrite lookup_insert_ne by congruence. rewrite !lookup_insert_None in Hr. by destruct Hr as [[? _] _]. }
  rewrite (delete_fresh _ L), (unlocked_fresh _ L) by done. by rewrite (delete_fresh _ L), (unlocked_fresh _ L).
Qed.

Lemma half_staged_closed m L i j d l :
  fresh m L d -> fresh (<[ d := RunRoot i ]> m) L l ->
  all_closed (Some l) None (Some d) (with_live i j d l m, L) = (m, L).
Proof.
  intros Hd Hl. unfold all_closed, closed, with_live. cbn.
  rewrite (delete_fresh _ L), (unlocked_fresh _ L) by done. by rewrite (delete_fresh _ L), (unlocked_fresh _ L).
Qed.

Lemma sync_published_neutral p m L F d l r : Known p L F -> neutral p m L F (syncPublishedFiles d l r).
Proof.
  intros HF. repeat apply neutral_check; try (by apply neutral_quiet); try (by apply neutral_ret); intros e; by apply neutral_ret.
Qed.

Lemma lock_new_liveness_spec p m L F l j :
  Known p L F -> m !! l = Some (LockFile j) -> L !! LockFile j = None ->
  spec p (knows p m L F) (lock_new_liveness l) (fun err K =>
    match err with None => knows p m (<[ LockFile j := l ]> L) F K | Some _ => knows p m L F K end).
Proof.
  intros HF Hl Hj. assert (HF' : Known p (<[ LockFile j := l ]> L) F) by (apply known_locked; [done|by left]).
  eapply spec_bind; [by apply (tryLock_spec p m L F l (LockFile j))|]. intros [[]|e]; cbn beta iota; [|by apply at_end..].
  apply spec_pure. intros _. by apply at_end.
Qed.

Lemma kept (m : gmap file object) L (x : file) v d o : m !! x = Some v -> fresh m L d -> <[ d := o ]> m !! x = Some v.
Proof. intros Hr [Hd _]. rewrite lookup_insert_ne; [done|]. intros E. by rewrite E, Hr in Hd. Qed.

(** What staging hands to the commit. *)
Definition staged (p : pid) (m : gmap file object) (L : gmap object file) (publication : runPublication) (K : Kernel) : Prop :=
  exists name i j j' d l r,
    (publication = MkPublication name false (Some d) (Some l) (Some r) /\ isTemporaryName name = true
     /\ staged_files m L i j j' d l r)
    /\ knows p (with_staged i j j' d l r m) (<[ LockFile j := l ]> L) (run_under name i (staged_run p (Present j) (Present j'))) K.

Definition gave_up {A} (p : pid) (m : gmap file object) (L : gmap object file) (r : result A) (K : Kernel) : Prop :=
  (exists e, r = Err e) /\ owns p m L K.

Lemma spec_gave_up {A} p P (t : prog (result A)) m L (R : result A -> Kernel -> Prop) :
  spec p P t (gave_up p m L) -> (forall e K, owns p m L K -> R (Err e) K) -> spec p P t R.
Proof. intros Ht HR. eapply spec_post; [exact Ht|]. intros r K _ [[e ->] ?]. by apply HR. Qed.

Lemma stageRun_spec p m L f a id :
  L !! Authority = Some f -> m !! au_root a = Some Authority -> proper_ID id ->
  spec p (owns p m L) (stageRun euid a id) (fun r K =>
    match r with Ok publication => staged p m L publication K | Err _ => owns p m L K end).
Proof.
  intros HL Hr Hid. set (post := fun (r : result runPublication) K => _).
  assert (Hpost : forall e K, owns p m L K -> post (Err e) K) by done.
  assert (HFs : forall name i l r, Known p L (run_under name i (staged_run p l r))) by (intros; by apply (known_run_under p L f)).
  unfold stageRun. eapply spec_bind_ok.
  { apply (freshTemporaryName_spec p m L anything stagingPrefix id); [apply _|done|by left]. }
  2: { intros e. cbn beta. apply spec_pure. intros _. by apply at_end. }
  intros name. cbn beta. apply spec_pure. intros Ht. eapply spec_check; [by apply (mkdir_spec p m L f)| |].
  2: { intros e. by apply at_end. }
  cbn beta iota zeta. apply spec_exists. intros i. eapply spec_try; [by apply (openStaged_spec p m L f)| |].
  2: { intros e. cbn beta iota. eapply spec_gave_up; [|exact Hpost]. by apply (abandon_staged_spec p m L m L _ f). }
  intros d. cbn beta iota. apply spec_pure. intros Hd. pose proof (kept m L _ _ d (RunRoot i) Hr Hd) as Hrd.
  assert (Ed : all_closed None None (Some d) (<[ d := RunRoot i ]> m, L) = (m, L)).
  { unfold all_closed, closed. cbn. by rewrite (delete_fresh _ L), (unlocked_fresh _ L). }
  eapply spec_check; [by apply neutral_validate_directory| |].
  2: { intros e. eapply spec_gave_up; [|exact Hpost]. by apply (abandon_staged_spec p _ L m L _ f _ _ _ _ _ _ _ (HFs name i Never Never)). }
  eapply spec_try; [apply (createLockFile_spec p _ L f d name livenessLockName i); try done; by rewrite lookup_insert_eq| |].
  2: { intros e. cbn beta iota. eapply spec_gave_up; [|exact Hpost]. by apply (abandon_staged_spec p _ L m L anything f). }
  intros l. cbn beta iota. apply spec_pure. intros Hl. apply spec_exists. intros j. apply spec_pure. intros Hj.
  assert (Hdl : <[ l := LockFile j ]> (<[ d := RunRoot i ]> m) !! d = Some (RunRoot i)).
  { rewrite lookup_insert_ne, lookup_insert_eq; [done|]. intros E. destruct Hl as [Hl _]. by rewrite E, lookup_insert_eq in Hl. }
  eapply spec_try; [by apply (createLockFile_spec p _ L f d name recoveryLockName i (staged_run p (Present j) Never))| |].
  2: { intros e. cbn beta iota. eapply spec_gave_up; [|exact Hpost]. apply (abandon_staged_spec p _ L m L anything f); try done. by apply half_staged_closed. }
  intros r. cbn beta iota. apply spec_pure. intros Hrec. apply spec_exists. intros j'. apply spec_pure. intros Hj'.
  assert (Hsf : staged_files m L i j j' d l r) by done.
  change (<[ r := LockFile j' ]> _) with (with_staged i j j' d l r m).
  change (set_slot recoveryLockName (Present j') (staged_run p (Present j) Never)) with (staged_run p (Present j) (Present j')).
  eapply spec_check; [by apply sync_published_neutral| |].
  2: { intros e. eapply spec_gave_up; [|exact Hpost]. apply (abandon_staged_spec p _ L m L _ f _ _ _ _ _ _ _ (HFs name i (Present j) (Present j'))); try done.
       apply (staged_closed m L); [done|by left]. }
  destruct (staged_distinct _ _ _ _ _ _ _ _ Hsf) as (N1 & N2 & N3).
  eapply spec_check; [apply (lock_new_liveness_spec p _ L _ l j); [done| |done]| |].
  { unfold with_staged, with_live. by rewrite lookup_insert_ne, lookup_insert_eq. }
  2: { intros e. cbn beta iota. eapply spec_gave_up; [|exact Hpost]. apply (abandon_staged_spec p _ L m L _ f _ _ _ _ _ _ _ (HFs name i (Present j) (Present j'))); try done.
       apply (staged_closed m L); [done|by left]. }
  cbn beta iota. apply at_end.
  - apply (known_run_under p _ f); [|done|done]. by rewrite lookup_insert_ne.
  - intros K _ HK. exists name, i, j, j', d, l, r. split; [|exact HK]. split_and!; done.
Qed.

(** ** Publishing *)
Lemma entryExists_spec p m L F f a name :
  Known p L F -> L !! Authority = Some f -> m !! au_root a = Some Authority -> name <> "." ->
  spec p (knows p m L F) (entryExists (au_root a) name) (fun r K =>
    match r with Ok false => knows p m L (fun D => F D /\ d_names D !! name = None) K | _ => knows p m L F K end).
Proof.
  intros HF HL Hr Hdot. set (G := fun (r : result Stat) D => match r with Err e => is_errno ENOENT e = true -> d_names D !! name = None | Ok _ => True end).
  assert (HN : Known p L (fun D => d_names D !! name = None)) by (by apply (known_names p L f (fun names => names !! name = None))).
  eapply spec_bind; [apply (quiet_spec_with p m L F (Fstatat (au_root a) name) G); [done| |done|]|].
  - intros [st|e]; unfold G; apply _.
  - intros K [st|e] K' HK [[Hm _] _] [-> Hx]; [done|]. intros He. specialize (Hx He). revert Hx. unfold dir_at.
    rewrite Hm, Hr, bool_decide_eq_false_2 by done. by destruct (d_names (k_disk K) !! name).
  - intros [st|e]; unfold G; cbn beta iota.
    + apply at_end; [apply _|]. intros K _. apply knows_mono. by intros D [? _].
    + destruct (is_errno ENOENT e) eqn:E.
      * apply at_end; [apply _|]. intros K _. apply knows_mono. intros D [? Hx]. auto.
      * apply at_end; [apply _|]. intros K _. apply knows_mono. by intros D [? _].
Qed.

Lemma proper_name_no_dot id : proper_ID id -> IDString id <> ".".
Proof. intros [H _] E. pose proof (IDString_length id H) as Hl. by rewrite E in Hl. Qed.

(** A rename between the name of a run and a temporary one, of a directory of this process. *)
Lemma rename_spec p m L f a old new i d :
  L !! Authority = Some f -> m !! au_root a = Some Authority -> rd_creator d = p -> rd_other d = ∅ ->
  published_ok new d \/ temporary_ok new d ->
  spec p (knows p m L (run_under old i d)) (call (Renameat (au_root a) old new)) (fun err =>
    match err with None => knows p m L (run_under new i d) | Some _ => knows p m L (run_under old i d) end).
Proof.
  intros HL Hr Hc Ho Hok.
  assert (HF : forall n, Known p L (run_under n i d)) by (intros; by apply (known_run_under p L f)).
  apply (at_call p m L _ (Renameat (au_root a) old new)); [done|intros []; apply _|done|].
  intros K [e|] K' HK [Hm [Hn Hd]]; cbn; [by intros ->; split; [apply benign_refl|]|].
  intros (i' & d' & (Hf & Hn' & Hd') & Hempty & ->). rewrite Hn in Hn'. injection Hn' as <-. assert (d' = d) as -> by congruence.
  split.
  - apply (rename_benign K p old new i d); try done; [by eapply mine_lock| |].
    + intros i' d' Hi' Hd2. specialize (Hempty i' d'). destruct (rd_live d') eqn:El; try done.
      assert (is_empty d') as He by (by apply Hempty). unfold is_empty, entries_of in He. rewrite El in He. set_solver.
    + intros _ q j Hne Hq. congruence.
  - split; [done|]. split; cbn; [by rewrite lookup_insert_eq|done].
Qed.

Lemma staged_published p id j j' : proper_ID id -> published_ok (IDString id) (staged_run p (Present j) (Present j')).
Proof. intros Hid. split_and!; [by apply proper_run_name|done|done]. Qed.

Lemma staged_temporary p name l r : isTemporaryName name = true -> temporary_ok name (staged_run p l r).
Proof. by split. Qed.

(** The publication as it is, with its directory under this name. *)
Definition holds_publication (p : pid) (m : gmap file object) (L : gmap object file) (published : bool) (id : ID)
    (publication : runPublication) (K : Kernel) : Prop :=
  exists name i j j' d l r,
    (publication = MkPublication name published (Some d) (Some l) (Some r) /\ isTemporaryName name = true
     /\ staged_files m L i j j' d l r)
    /\ knows p (with_staged i j j' d l r m) (<[ LockFile j := l ]> L)
         (run_under (if published then IDString id else name) i (staged_run p (Present j) (Present j'))) K.

Lemma with_staged_kept m L i j j' d l r x v :
  staged_files m L i j j' d l r -> m !! x = Some v -> with_staged i j j' d l r m !! x = Some v.
Proof. intros [Hd Hl Hr _] Hx. unfold with_staged, with_live. by repeat (eapply kept; [|done]). Qed.

Lemma unlocked_keeps m f L o : m !! f <> Some o -> unlocked m f L !! o = L !! o.
Proof.
  intros Hne. unfold unlocked. destruct (m !! f) as [o'|]; [|done]. case_bool_decide; [|done].
  rewrite lookup_delete_ne; [done|]. congruence.
Qed.

Lemma neutral_removed p m L a name f (closeErr : option error) :
  L !! Authority = Some f -> m !! au_root a = Some Authority ->
  neutral p m L anything (do! removed := removeUnpublished euid a name in Ret (errors_Join [closeErr; removed])).
Proof.
  intros HL Hr. eapply spec_bind; [by apply (removeUnpublished_spec p m L a name f)|]. intros r. by apply (neutral_ret p m L anything).
Qed.

(** Giving up a directory that may be published already. *)
Lemma abandon_spec {A} p m1 L1 m L f a (b : bool) id name i live recovery liveness recover directory e :
  all_closed liveness recover directory (m1, L1) = (m, L) ->
  L1 !! Authority = Some f -> (closed liveness (m1, L1)).2 !! Authority = Some f ->
  (closed recover (closed liveness (m1, L1))).2 !! Authority = Some f -> L !! Authority = Some f ->
  m !! au_root a = Some Authority -> isTemporaryName name = true ->
  spec p (knows p m1 L1 (run_under (if b then IDString id else name) i (staged_run p live recovery)))
    (abandon (A := A) euid a id (MkPublication name b directory liveness recover) e) (gave_up p m L).
Proof.
  intros E H1 H2 H3 HL Hr Ht.
  assert (HF : forall L' n, L' !! Authority = Some f -> Known p L' (run_under n i (staged_run p live recovery))).
  { intros. by apply (known_run_under p L' f). }
  apply (spec_bind p _ _ _ (fun _ => owns p m L)).
  2: { intros r. apply at_end; [apply _|]. intros K _ ?. split; [by eexists|done]. }
  unfold discardRunPublication. cbn [pub_liveness pub_recovery pub_directory pub_published pub_stagingName].
  eapply spec_bind; [apply closeRunFiles_spec; try (by apply HF); rewrite E; by apply HF|].
  intros closeErr. rewrite E. cbn [fst snd]. destruct b.
  - eapply spec_bind; [apply (rename_spec p m L f a (IDString id) name i); try done; by right|]. intros [e'|]; cbn beta iota.
    + apply at_end; [by apply HF|]. intros K _. by apply knows_mono.
    + apply (spec_forget p _ _ anything); [done|]. by apply (neutral_removed p m L a name f).
  - eapply spec_bind; [by apply (neutral_ret p m L _ (None : option error)), (HF L name)|]. intros [e'|]; cbn beta iota.
    + apply at_end; [by apply HF|]. intros K _. by apply knows_mono.
    + apply (spec_forget p _ _ anything); [done|]. by apply (neutral_removed p m L a name f).
Qed.

Lemma staged_lookups m L i j j' d l r :
  staged_files m L i j j' d l r ->
  with_staged i j j' d l r m !! l = Some (LockFile j) /\ with_staged i j j' d l r m !! r = Some (LockFile j')
  /\ with_staged i j j' d l r m !! d = Some (RunRoot i).
Proof.
  intros Hs. destruct (staged_distinct _ _ _ _ _ _ _ _ Hs) as (N1 & N2 & N3). unfold with_staged, with_live. split_and!.
  - by rewrite lookup_insert_ne, lookup_insert_eq.
  - by rewrite lookup_insert_eq.
  - by rewrite lookup_insert_ne, lookup_insert_ne, lookup_insert_eq by done.
Qed.

Lemma abandon_publication_spec {A} p m L f a b id publication e :
  L !! Authority = Some f -> m !! au_root a = Some Authority ->
  spec p (holds_publication p m L b id publication) (abandon (A := A) euid a id publication e) (gave_up p m L).
Proof.
  intros HL Hr. do 7 (apply spec_exists; intros ?). apply spec_pure. intros (-> & Ht & Hs).
  match goal with H : staged_files _ _ ?i ?j ?j' ?d ?l ?r |- _ => rename i into i0, j into j0, j' into j1, d into d0, l into l0, r into r0 end.
  destruct (staged_lookups _ _ _ _ _ _ _ _ Hs) as (El & Er & Ed). destruct (staged_distinct _ _ _ _ _ _ _ _ Hs) as (N1 & N2 & N3).
  assert (HL1 : <[ LockFile j0 := l0 ]> L !! Authority = Some f) by (by rewrite lookup_insert_ne).
  apply (abandon_spec p _ _ m L f a b); try done.
  - apply (staged_closed m L); [done|by right].
  - cbn. rewrite unlocked_keeps by (by rewrite El). done.
  - cbn. rewrite !unlocked_keeps; [done|by rewrite El|]. rewrite lookup_delete_ne by done. by rewrite Er.
Qed.

Lemma commit_spec p m L f a id publication :
  L !! Authority = Some f -> m !! au_root a = Some Authority -> m !! au_parent a = Some Parent -> proper_ID id ->
  spec p (holds_publication p m L false id publication) (commitRunPublication root a id publication) (fun r K =>
    match r.2 with
    | None => holds_publication p m L true id r.1 K
    | Some _ => exists b, holds_publication p m L b id r.1 K
    end).
Proof.
  intros HL Hr Hp Hid. set (post := fun (r : runPublication * option error) K => _).
  apply spec_exists. intros name. apply spec_exists. intros i. apply spec_exists. intros j. apply spec_exists. intros j'.
  apply spec_exists. intros d. apply spec_exists. intros l. apply spec_exists. intros r. apply spec_pure. intros (-> & Ht & Hs).
  set (m1 := with_staged i j j' d l r m). set (L1 := <[ LockFile j := l ]> L). set (R := staged_run p (Present j) (Present j')).
  assert (HL1 : L1 !! Authority = Some f) by (unfold L1; by rewrite lookup_insert_ne).
  assert (Hr1 : m1 !! au_root a = Some Authority) by (by apply (with_staged_kept m L)).
  assert (Hp1 : m1 !! au_parent a = Some Parent) by (by apply (with_staged_kept m L)).
  assert (HF : forall n, Known p L1 (run_under n i R)) by (intros; by apply (known_run_under p L1 f)).
  assert (Hback : forall (b : bool) e, spec p (knows p m1 L1 (run_under (if b then IDString id else name) i R))
    (Ret (MkPublication name b (Some d) (Some l) (Some r), Some e)) post).
  { intros b e. apply at_end; [apply HF|]. intros K _ HK. exists b, name, i, j, j', d, l, r. done. }
  unfold commitRunPublication. eapply spec_bind; [by apply (entryExists_spec p m1 L1 _ f a (IDString id) (HF name)); [| |apply proper_name_no_dot]|].
  intros [[]|e]; cbn beta iota; [apply (Hback false)| |apply (Hback false)].
  apply (spec_forget p _ _ (run_under name i R)); [by intros D [? _]|].
  eapply spec_check; [apply (rename_spec p m1 L1 f a name (IDString id) i R); try done; left; by apply staged_published| |intros e; apply (Hback false)].
  cbn beta iota zeta. eapply spec_check; [by apply (neutral_quiet p m1 L1 (run_under (IDString id) i R))| |intros e; apply (Hback true)].
  eapply spec_check; [by apply (verify_neutral p m1 L1 (run_under (IDString id) i R))| |intros e; apply (Hback true)].
  apply at_end; [apply HF|]. intros K _ HK. exists name, i, j, j', d, l, r. done.
Qed.

(** ** The lease of a live run *)
Definition lives (p : pid) (name : string) (i j : nat) (D : Disk) : Prop :=
  d_names D !! name = Some i
  /\ exists d, d_runs D !! i = Some d /\ rd_creator d = p /\ rd_live d = Present j /\ is_present (rd_recovery d) = true.

Lemma known_lives p L name i j l : L !! LockFile j = Some l -> is_run_name name = true -> Known p L (lives p name i j).
Proof.
  intros HL Hr D D' Hk (Hn & d & Hd & Hc & Hl & Hrec).
  destruct (kd_mine _ _ _ _ Hk name i d j) as (Hn' & d' & Hd' & E1 & E2 & E3); try done.
  split; [done|]. exists d'. split_and!; congruence.
Qed.

Definition live_lease (p : pid) (m : gmap file object) (L : gmap object file) (lease : runLease) (K : Kernel) : Prop :=
  exists i j d l,
    (lease = new_lease (le_id lease) (Some d) (Some l) None /\ fresh m L d /\ fresh (<[ d := RunRoot i ]> m) L l
     /\ L !! LockFile j = None /\ proper_ID (le_id lease))
    /\ knows p (with_live i j d l m) (<[ LockFile j := l ]> L) (lives p (IDString (le_id lease)) i j) K.

Lemma close_live m L i j d l :
  fresh (<[ d := RunRoot i ]> m) L l -> L !! LockFile j = None ->
  closed (Some l) (with_live i j d l m, <[ LockFile j := l ]> L) = (<[ d := RunRoot i ]> m, L).
Proof.
  intros [Hl _] Hj. unfold closed, with_live. cbn. rewrite delete_insert_id by done. f_equal.
  unfold unlocked. rewrite lookup_insert_eq, bool_decide_eq_true_2 by (by rewrite lookup_insert_eq). by apply delete_insert_id.
Qed.

Lemma close_root m L i d : fresh m L d -> closed (Some d) (<[ d := RunRoot i ]> m, L) = (m, L).
Proof. intros Hd. unfold closed. cbn. by rewrite (delete_fresh _ L), (unlocked_fresh _ L). Qed.

Lemma close_absent m L r : m !! r = None -> closed (Some r) (m, L) = (m, L).
Proof. intros Hr. unfold closed, unlocked. cbn. by rewrite Hr, delete_id. Qed.

Lemma publishRun_spec p m L f a id :
  L !! Authority = Some f -> m !! au_root a = Some Authority -> m !! au_parent a = Some Parent -> proper_ID id ->
  spec p (owns p m L) (publishRun euid root a id) (fun r K =>
    match r with Ok lease => le_id lease = id /\ live_lease p m L lease K | Err _ => owns p m L K end).
Proof.
  intros HL Hr Hp Hid. set (post := fun (r : result runLease) K => _).
  assert (Hpost : forall e K, owns p m L K -> post (Err e) K) by done.
  unfold publishRun. eapply spec_bind_ok; [by apply (stageRun_spec p m L f)| |intros e; by apply at_end].
  intros publication. cbn beta iota. eapply spec_bind; [by apply (commit_spec p m L f a id publication)|].
  intros [pub [e|]]; cbn [fst snd].
  { apply spec_exists. intros b. eapply spec_gave_up; [|exact Hpost]. by apply (abandon_publication_spec p m L f a b). }
  apply spec_exists. intros name. apply spec_exists. intros i. apply spec_exists. intros j. apply spec_exists. intros j'.
  apply spec_exists. intros d. apply spec_exists. intros l. apply spec_exists. intros r. apply spec_pure. intros (-> & Ht & Hs).
  destruct (staged_distinct _ _ _ _ _ _ _ _ Hs) as (N1 & N2 & N3). destruct (staged_lookups _ _ _ _ _ _ _ _ Hs) as (El & Er & Ed).
  set (L1 := <[ LockFile j := l ]> L). set (R := staged_run p (Present j) (Present j')).
  assert (HL1 : L1 !! Authority = Some f) by (unfold L1; by rewrite lookup_insert_ne).
  assert (HF : Known p L1 (run_under (IDString id) i R)) by (by apply (known_run_under p L1 f)).
  assert (Hfr : fresh (with_live i j d l m) L1 r).
  { destruct Hs as [_ _ [Hr1 Hr2] _]. split; [done|]. intros o. unfold L1. destruct (decide (o = LockFile j)) as [->|];
      [rewrite lookup_insert_eq; congruence|by rewrite lookup_insert_ne]. }
  eapply spec_try.
  - eapply spec_check; [by apply (close_fresh_spec p (with_live i j d l m) L1 (run_under (IDString id) i R) r)| |].
    + cbn beta. apply (at_end p _ _ _ _ (fun r0 K =>
        (exists e, r0 = Err e) /\ knows p (with_live i j d l m) L1 (run_under (IDString id) i R) K
        \/ r0 = Ok (new_lease id (Some d) (Some l) None) /\ knows p (with_live i j d l m) L1 (run_under (IDString id) i R) K)); [done|].
      intros K _ HK. by right.
    + intros e. apply at_end; [done|]. intros K _ HK. left. split; [by eexists|done].
  - intros lease. apply (spec_pre p (fun K => lease = new_lease id (Some d) (Some l) None
        /\ knows p (with_live i j d l m) L1 (run_under (IDString id) i R) K)); [by intros K _ [[[e ?] _]|[[= ->] ?]]|].
    apply spec_pure. intros ->. apply at_end; [done|]. intros K _ [Hm [Hn Hd]]. split; [done|]. exists i, j, d, l.
    destruct Hs as [Hd1 Hl1 _ Hj1]. split; [done|]. split; [done|]. split; [done|]. exists R. done.
  - intros e. apply (spec_pre p (knows p (with_live i j d l m) L1 (run_under (IDString id) i R))); [by intros K _ [[_ ?]|[? _]]|].
    eapply spec_gave_up; [|exact Hpost].
    pose proof (close_live m L i j d l (sf_liveness _ _ _ _ _ _ _ _ Hs) (sf_unlocked _ _ _ _ _ _ _ _ Hs)) as C1.
    fold L1 in C1.
    assert (C2 : closed (Some r) (<[ d := RunRoot i ]> m, L) = (<[ d := RunRoot i ]> m, L)).
    { apply close_absent. destruct Hfr as [Hr1 _]. unfold with_live in Hr1. by rewrite lookup_insert_ne in Hr1. }
    pose proof (close_root m L i d (sf_directory _ _ _ _ _ _ _ _ Hs)) as C3.
    apply (abandon_spec p (with_live i j d l m) L1 m L f a true id name i); try done.
    + unfold all_closed. by rewrite C1, C2, C3.
    + by rewrite C1.
    + by rewrite C1, C2.
Qed.

(** [Create] leaves a live run with its two files, or nothing. *)
Lemma validateRunID_proper id : validateRunID id = None -> proper_ID id.
Proof.
  unfold validateRunID. destruct (Parse (IDString id)) as [parsed|] eqn:E; [|done]. case_bool_decide as Eq; [|done]. intros _.
  subst. by apply run_id_round_trip in E as (? & ? & _).
Qed.

Lemma known_lease p L j l name i : is_run_name name = true -> Known p (<[ LockFile j := l ]> L) (lives p name i j).
Proof. intros Hn. apply (known_lives p _ name i j l); [by rewrite lookup_insert_eq|done]. Qed.

Lemma live_lease_unlock p m L a lease :
  L !! Authority = None -> m !! au_root a = Some Authority ->
  spec p (live_lease p m (with_authority_lock a L) lease) (unlock (Some (au_root a))) (fun _ => live_lease p m L lease).
Proof.
  intros HA Hr. apply spec_exists. intros i. apply spec_exists. intros j. apply spec_exists. intros d. apply spec_exists. intros l.
  apply spec_pure. intros (E & Hd & Hl & Hj & Hid).
  set (F := lives p (IDString (le_id lease)) i j). set (L1 := <[ LockFile j := l ]> L).
  assert (EL : <[ LockFile j := l ]> (with_authority_lock a L) = <[ Authority := au_root a ]> L1).
  { unfold L1, with_authority_lock. by rewrite insert_insert_ne. }
  assert (HF : Known p L1 F) by (by apply known_lease, proper_run_name).
  rewrite EL. eapply spec_post; [apply (unlock_authority_spec p _ L1 F (au_root a)); [done|by unfold L1; rewrite lookup_insert_ne|]|].
  - unfold with_live. by repeat eapply (kept _ (with_authority_lock a L)).
  - intros u K _ HK. exists i, j, d, l. split; [|exact HK]. split_and!; try done.
    + by apply fresh_unlocked in Hd.
    + by apply fresh_unlocked in Hl.
    + revert Hj. unfold with_authority_lock. by rewrite lookup_insert_ne.
Qed.

Lemma live_lease_close p m L a lease :
  fresh_authority m L a ->
  spec p (live_lease p (authority_files a m) L lease) (authority_close a) (fun _ => live_lease p m L lease).
Proof.
  intros Ha. apply spec_exists. intros i. apply spec_exists. intros j. apply spec_exists. intros d. apply spec_exists. intros l.
  apply spec_pure. intros (E & Hd & Hl & Hj & Hid). set (F := lives p (IDString (le_id lease)) i j). set (L1 := <[ LockFile j := l ]> L).
  assert (HF : Known p L1 F) by (by apply known_lease, proper_run_name).
  destruct (fresh_less _ _ _ _ _ Hd) as [Hd1 Nd1]. destruct (fresh_less _ _ _ _ _ Hd1) as [Hd2 Nd2].
  destruct (fresh_less _ _ _ _ _ Hl) as [Hl1 Nl]. destruct (fresh_less _ _ _ _ _ Hl1) as [Hl2 Nl1].
  destruct (fresh_less _ _ _ _ _ Hl2) as [Hl3 Nl2]. destruct Ha as [Hp Hr].
  destruct (fresh_less _ _ _ _ _ Hr) as [Hr1 Nr].
  eapply spec_post; [apply (authority_close_spec' p _ L1 F a); [done|..]|].
  - by apply (fresh_more m).
  - by apply (fresh_more m).
  - intros e K _ HK. exists i, j, d, l.
    assert (Em : delete (au_parent a) (delete (au_root a) (with_live i j d l (authority_files a m))) = with_live i j d l m).
    { unfold with_live, authority_files. rewrite !(delete_insert_ne _ (au_root a)) by done.
      rewrite delete_insert_id by apply Hr. rewrite !(delete_insert_ne _ (au_parent a)) by done. rewrite delete_insert_id; [done|apply Hp]. }
    rewrite Em in HK. split; [|exact HK]. split_and!; try done.
    destruct Hl3 as [Hl3 ?]. split; [|done]. by rewrite lookup_insert_ne.
Qed.

Lemma stable_live_lease p m L lease : Stable p (live_lease p m L lease).
Proof.
  intros K K' Hk (i & j & d & l & Hx & HK). exists i, j, d, l. split; [done|]. destruct Hx as (_ & _ & _ & _ & Hid).
  revert HK. apply (knows_stable (root := root)); [|done]. by apply known_lease, proper_run_name.
Qed.

(** [Create] leaves a live run with its two files, or nothing. *)
Lemma Create_spec p m L id :
  L !! Authority = None ->
  spec p (owns p m L) (Create euid root id) (fun r K =>
    match r with Ok lease => le_id lease = id /\ live_lease p m L lease K | Err _ => owns p m L K end).
Proof.
  intros HL. set (post m := fun (r : result runLease) K =>
    match r with Ok lease => le_id lease = id /\ live_lease p m L lease K | Err _ => owns p m L K end). unfold Create.
  assert (Hst : forall m r, Stable p (post m r)).
  { intros m0 [lease|e]; [|apply _]. apply stable_pure, stable_live_lease. }
  destruct (validateRunID id) as [e|] eqn:Ev; [by apply at_end|]. apply validateRunID_proper in Ev as Hid.
  eapply spec_bind_ok; [by apply (openAuthority_spec p m L anything)| |intros e; by apply at_end].
  intros a. cbn beta iota. apply spec_pure. intros Ha. destruct (authority_files_lookup a m L Ha) as [Eroot Eparent].
  set (ma := authority_files a m) in *. apply (with_authority_spec p _ a _ (post ma) (post m)); [| |apply Hst].
  - apply (with_lock_spec p ma L anything Background a _ _ (fun (r : result runLease) K =>
      match r with Ok lease => le_id lease = id /\ live_lease p ma (with_authority_lock a L) lease K | Err _ => owns p ma (with_authority_lock a L) K end)); try done.
    + intros e. by apply at_end.
    + apply (publishRun_spec p ma _ (au_root a)); try done. apply lookup_insert_eq.
    + intros [lease|e]; [|by apply unlock_authority_spec]. apply spec_pure. intros Hlease.
      eapply spec_post; [by apply live_lease_unlock|]. by intros.
  - intros [lease|e]; [|by apply authority_close_spec]. apply spec_pure. intros Hlease.
    eapply spec_post; [by apply live_lease_close|]. by intros.
Qed.
End Roots.
