(* ===== verification/RunRemoval.v ===== *)
(** * Removing runs

    How a run is removed by the process that completes it or by one that finds it
    stale: under the lock of the authority and the liveness of the run, and what
    is left of the files and locks of the process. *)
From ITree Require Import ITree.
From S2P Require Import Prelude GoText Sorting Paths RunId Effects Interference RunDirectory RunKernel RunLaws RunSpecs RunRoots.

Section Removal.
Context {euid : Z} {root : string}.
#[local] Instance system : System DirE Kernel := directory_system root.
Abbreviation spec p P t Q := (@hoare DirE Kernel (directory_system root) _ p P t Q).
Abbreviation neutral := (RunSpecs.neutral (root := root)).
Abbreviation owns p m L := (knows p m L anything).

Lemma spec_owned {A} p m L F (a : A) : Known p L F -> spec p (knows p m L F) (Ret a) (fun _ => owns p m L).
Proof. intros HF. apply at_end; [done|]. intros K _. by apply knows_mono. Qed.

(** ** Under the lock of the authority and the liveness of the run *)
(** The run of this name, alive under [j] and with nothing but its locks. *)
Definition ready (name : string) (i j : nat) (D : Disk) : Prop :=
  d_names D !! name = Some i
  /\ exists d, d_runs D !! i = Some d /\ rd_live d = Present j /\ rd_other d = ∅.

Lemma known_ready p L f l name i j : L !! Authority = Some f -> L !! LockFile j = Some l -> Known p L (ready name i j).
Proof.
  intros HA Hj D D' Hk (Hn & d & Hd & Hl & Ho). pose proof (locked_is_Some _ _ HA) as Hh.
  destruct (kd_slots _ _ _ _ Hk Hh i d Hd) as (d' & Hd' & E1 & E2 & E3). split; [by rewrite (kd_names _ _ _ _ Hk)|].
  exists d'. split_and!; [done|congruence|]. rewrite (kd_other _ _ _ _ Hk i d d' j Hd Hd' Hl); [done|congruence|by rewrite Hj].
Qed.

Lemma isolate_rename_spec p m L f l a name new i j :
  L !! Authority = Some f -> L !! LockFile j = Some l -> m !! au_root a = Some Authority -> isTemporaryName new = true ->
  spec p (knows p m L (ready name i j)) (call (Renameat (au_root a) name new)) (fun _ => owns p m L).
Proof.
  intros HA Hj Hr Ht. apply (at_call p m L _ (Renameat (au_root a) name new)); [by eapply known_ready|apply _|done|].
  intros K [e|] K' HK [Hm (Hn & d & Hd & Hl & Ho)]; cbn; [by intros ->; split; [apply benign_refl|]|].
  intros (i' & d' & (Hf & Hn' & Hd') & Hempty & ->). rewrite Hn in Hn'. injection Hn' as <-. assert (d' = d) as -> by congruence.
  split; [|by split]. apply (rename_benign K p name new i d); try done; [by eapply mine_lock| |by right|].
  - intros i' d' Hi' Hd2. destruct (rd_live d') eqn:El; try done.
    assert (is_empty d') as He by (by apply (Hempty i')). unfold is_empty, entries_of in He. rewrite El in He. set_solver.
  - intros _ q j0 Hne _ Hj0 Hq. apply Hne. eapply holds_lock_exclusive; [|exact Hq].
    assert (j0 = j) as -> by congruence. by eapply mine_lock.
Qed.

Lemma isolate_spec p m L f l a id i j :
  L !! Authority = Some f -> L !! LockFile j = Some l -> m !! au_root a = Some Authority -> proper_ID id ->
  spec p (knows p m L (ready (IDString id) i j)) (isolate_and_remove euid a id) (fun _ => owns p m L).
Proof.
  intros HA Hj Hr Hid. assert (HF : Known p L (ready (IDString id) i j)) by (by eapply known_ready).
  eapply spec_bind; [apply (freshTemporaryName_spec p m L _ removingPrefix id HF Hid); by right|]. intros [new|e].
  2: { apply spec_pure. intros _. by apply spec_owned. }
  apply spec_pure. intros Ht. eapply spec_check; [by eapply isolate_rename_spec| |intros e; by apply spec_owned].
  cbn beta. eapply spec_check; [by apply (neutral_quiet p m L anything)| |intros e; by apply spec_owned].
  cbn beta. eapply spec_check; [by apply (removeUnpublished_spec p m L a new f)| |intros e; by apply spec_owned]. by apply spec_owned.
Qed.

Lemma check_claimed_spec p m L f l a id i j d c o :
  L !! Authority = Some f -> L !! LockFile j = Some l -> m !! au_root a = Some Authority -> m !! d = Some (RunRoot i) ->
  m !! c = Some o -> proper_ID id ->
  spec p (knows p m L (fun D => was_lock i livenessLockName j D /\ exists i', o = RunRoot i' /\ d_names D !! IDString id = Some i'))
    (check_claimed euid a id d c) (fun _ => owns p m L).
Proof.
  intros HA Hj Hr Hd Hc Hid. set (N := fun D => exists i', o = RunRoot i' /\ d_names D !! IDString id = Some i').
  assert (HN : Known p L N).
  { apply known_exists. intros i'. apply known_and; [apply _|]. by apply (known_names p L f (fun names => names !! IDString id = Some i')). }
  set (F := fun D => was_lock i livenessLockName j D /\ N D). assert (HF : Known p L F) by apply _.
  eapply spec_bind; [by apply (sameDirectory_spec p m L F c d o (RunRoot i))|]. intros r. apply spec_pure. intros Hsame.
  destruct r as [[]|e]; [|by apply spec_owned..]. specialize (Hsame eq_refl). subst o.
  assert (HG : Known p L (ready (IDString id) i j)) by (by eapply known_ready).
  eapply spec_check; [apply (validateFixedEntries_spec p m L F d i false (ready (IDString id) i j)); try done| |intros e; by apply spec_owned].
  - intros K d0 HK [(d1 & Hd1 & Hs) (i' & [= <-] & Hn)] Hd0 Ho. assert (d1 = d0) as -> by congruence. split; [done|].
    exists d0. split_and!; [done| |done]. destruct (so_recoverable _ HK _ _ Hn) as (d2 & Hd2 & Hok).
    assert (d2 = d0) as -> by congruence. destruct Hok as [(_ & Hp & _)|[Ht _]].
    + change (slot_of livenessLockName d0) with (rd_live d0) in Hs. destruct Hs as [Hs|Hs]; [done|]. by rewrite Hs in Hp.
    + apply temporary_is_no_run in Ht. by rewrite (proper_run_name id Hid) in Ht.
  - cbn beta. apply (spec_forget p _ _ (ready (IDString id) i j)); [by intros D [_ ?]|]. by eapply isolate_spec.
Qed.

Lemma remove_claimed_spec p m L f l a id i j d :
  L !! Authority = Some f -> L !! LockFile j = Some l -> m !! au_root a = Some Authority -> m !! au_parent a = Some Parent ->
  m !! d = Some (RunRoot i) -> proper_ID id ->
  spec p (knows p m L (was_lock i livenessLockName j)) (remove_claimed euid root a id d) (fun _ => owns p m L).
Proof.
  intros HA Hj Hr Hp Hd Hid. eapply spec_check; [apply (verify_neutral p m L (was_lock i livenessLockName j) a); [apply _|done..]| |intros e; apply spec_owned, _].
  cbn beta.
  set (N := fun (o : object) D => exists i', o = RunRoot i' /\ d_names D !! IDString id = Some i').
  assert (HN : forall o, Known p L (N o)).
  { intros o. apply known_exists. intros i'. apply known_and; [apply _|]. by apply (known_names p L f (fun names => names !! IDString id = Some i')). }
  eapply spec_bind.
  { apply (open_spec p m L _ (OpenDirAt (au_root a) (IDString id)) N); [apply _|done|done|done|].
    intros K o HK [[Hm _] _]. cbn. unfold dir_at. rewrite Hm, Hr.
    rewrite bool_decide_eq_false_2 by (by apply proper_name_no_dot). intros (i' & Hi & ->)%fmap_Some. by exists i'. }
  intros [c|e]; [|apply spec_owned, _]. apply spec_pure. intros Hc. apply spec_exists. intros o.
  eapply spec_bind; [apply (check_claimed_spec p (<[ c := o ]> m) L f l a id i j d c o); try done|].
  - by eapply kept.
  - by eapply kept.
  - by rewrite lookup_insert_eq.
  - intros r. eapply spec_bind; [by apply (close_quietly_fresh_spec p m L anything c)|]. intros []. by apply spec_owned.
Qed.

Lemma removeClaimedRun_spec p m L ctx l a lease i j d :
  L !! Authority = None -> L !! LockFile j = Some l -> m !! au_root a = Some Authority -> m !! au_parent a = Some Parent ->
  m !! d = Some (RunRoot i) -> le_root lease = Some d -> proper_ID (le_id lease) ->
  spec p (knows p m L (was_lock i livenessLockName j)) (removeClaimedRun euid root ctx a lease) (fun _ => owns p m L).
Proof.
  intros HA Hj Hr Hp Hd Hroot Hid. unfold removeClaimedRun. rewrite Hroot.
  apply (with_lock_spec p m L _ ctx a _ _ (fun _ => owns p m (with_authority_lock a L))); try done; [apply _| | | |intros; apply _].
  - intros e. apply spec_owned, _.
  - apply (remove_claimed_spec p m _ (au_root a) l a _ i j); try done; [apply lookup_insert_eq|].
    unfold with_authority_lock. by rewrite lookup_insert_ne.
  - intros r. by apply unlock_authority_spec.
Qed.

(** ** Closing a lease *)
Lemma lease_close_spec p m1 L1 m L F lease :
  Known p L1 F -> all_closed (le_live lease) (le_recovery lease) (le_root lease) (m1, L1) = (m, L) ->
  le_closed lease = false -> le_retained lease = false ->
  spec p (knows p m1 L1 F) (lease_close lease) (fun r K => le_closed r.1 = true /\ owns p m L K).
Proof.
  intros HF E Hc Hr. apply (spec_forget p _ _ anything); [done|]. unfold lease_close, closeLocked. rewrite Hc, Hr.
  eapply spec_bind; [apply closeRunFiles_spec; apply _|]. intros e. rewrite E. by apply at_end.
Qed.

Lemma close_after_spec p m1 L1 m L F lease e :
  Known p L1 F -> all_closed (le_live lease) (le_recovery lease) (le_root lease) (m1, L1) = (m, L) ->
  le_closed lease = false -> le_retained lease = false ->
  spec p (knows p m1 L1 F) (close_after lease e) (fun r K => le_closed r.1 = true /\ owns p m L K).
Proof.
  intros HF E Hc Hr. eapply spec_bind; [by apply (lease_close_spec p m1 L1 m L F)|]. intros [lease' closed'].
  apply spec_pure. intros Hx. by apply at_end.
Qed.

Lemma close_last_spec p m1 L1 m L F lease e :
  Known p L1 F -> all_closed (le_live lease) (le_recovery lease) (le_root lease) (m1, L1) = (m, L) ->
  le_closed lease = false -> le_retained lease = false ->
  spec p (knows p m1 L1 F) (close_last lease e) (fun _ => owns p m L).
Proof.
  intros HF E Hc Hr. eapply spec_bind; [by apply (lease_close_spec p m1 L1 m L F)|]. intros [lease' closed'].
  apply spec_pure. intros Hx. by apply at_end.
Qed.

(** ** A lease with all three files *)
Definition claim_files (i j j' : nat) (d l r : file) (m : gmap file object) : gmap file object :=
  <[ l := LockFile j ]> (<[ r := LockFile j' ]> (<[ d := RunRoot i ]> m)).
Definition claim_locks (j j' : nat) (l r : file) (L : gmap object file) : gmap object file :=
  <[ LockFile j := l ]> (<[ LockFile j' := r ]> L).

Record claim_ok (m : gmap file object) (L : gmap object file) (i j j' : nat) (d l r : file) (lease : runLease) : Prop := {
  cl_lease : lease = new_lease (le_id lease) (Some d) (Some l) (Some r);
  cl_root : fresh m L d;
  cl_live : fresh m L l;
  cl_recovery : fresh m L r;
  cl_distinct : l <> d /\ r <> d /\ l <> r;
  cl_live_free : L !! LockFile j = None;
  cl_recovery_free : L !! LockFile j' = None;
  cl_locks : j <> j';
  cl_id : proper_ID (le_id lease)
}.

Definition claim_lease (p : pid) (m : gmap file object) (L : gmap object file) (lease : runLease) (K : Kernel) : Prop :=
  exists i j j' d l r, claim_ok m L i j j' d l r lease
    /\ knows p (claim_files i j j' d l r m) (claim_locks j j' l r L) (was_lock i livenessLockName j) K.

Lemma closed_locked m L f o : fresh m L f -> L !! o = None -> closed (Some f) (<[ f := o ]> m, <[ o := f ]> L) = (m, L).
Proof.
  intros [Hf _] Ho. unfold closed, unlocked. cbn. rewrite lookup_insert_eq, bool_decide_eq_true_2 by (by rewrite lookup_insert_eq).
  by rewrite !delete_insert_id.
Qed.

Lemma claim_closed m L i j j' d l r lease :
  claim_ok m L i j j' d l r lease ->
  all_closed (Some l) (Some r) (Some d) (claim_files i j j' d l r m, claim_locks j j' l r L) = (m, L).
Proof.
  intros [_ Hd Hl Hr (N1 & N2 & N3) Hj Hj' Hne _]. unfold all_closed, claim_files, claim_locks.
  rewrite closed_locked.
  - rewrite closed_locked; [by apply close_root| |done]. destruct Hr. split; [by rewrite lookup_insert_ne|done].
  - destruct Hl as [Hl1 Hl2]. split; [by rewrite !lookup_insert_ne|]. by apply (fresh_more m).
  - rewrite lookup_insert_ne; [done|congruence].
Qed.

Lemma claim_root m L i j j' d l r lease : claim_ok m L i j j' d l r lease -> claim_files i j j' d l r m !! d = Some (RunRoot i).
Proof. intros [_ _ _ _ (N1 & N2 & N3) _ _ _ _]. unfold claim_files. by rewrite lookup_insert_ne, lookup_insert_ne, lookup_insert_eq. Qed.

Lemma claim_kept m L i j j' d l r lease x v :
  claim_ok m L i j j' d l r lease -> m !! x = Some v -> claim_files i j j' d l r m !! x = Some v.
Proof.
  intros [_ [Hd _] [Hl _] [Hr _] _ _ _ _ _] Hx. unfold claim_files. rewrite !lookup_insert_ne; [done|congruence..].
Qed.

Lemma claim_facts m L i j j' d l r lease :
  claim_ok m L i j j' d l r lease ->
  le_root lease = Some d /\ le_closed lease = false /\ le_retained lease = false
  /\ (forall m1 L1, m1 = claim_files i j j' d l r m -> L1 = claim_locks j j' l r L ->
       all_closed (le_live lease) (le_recovery lease) (le_root lease) (m1, L1) = (m, L)).
Proof.
  intros Hok. rewrite (cl_lease _ _ _ _ _ _ _ _ _ Hok). cbn. split_and!; try done. intros m1 L1 -> ->. by eapply claim_closed.
Qed.

Lemma remove_completed_spec p m L ctx lease :
  L !! Authority = None ->
  spec p (claim_lease p m L lease) (remove_completed euid root ctx lease) (fun r K => le_closed r.1 = true /\ owns p m L K).
Proof.
  intros HA. do 6 (apply spec_exists; intros ?). apply spec_pure. intros Hok.
  match type of Hok with claim_ok _ _ ?i ?j ?j' ?d ?l ?r _ => rename i into i0, j into j0, j' into j1, d into d0, l into l0, r into r0 end.
  destruct (claim_facts _ _ _ _ _ _ _ _ _ Hok) as (Hroot & Hc & Hr & Hclosed). specialize (Hclosed _ _ eq_refl eq_refl).
  set (m1 := claim_files i0 j0 j1 d0 l0 r0 m) in *. set (L1 := claim_locks j0 j1 l0 r0 L) in *.
  assert (HA1 : L1 !! Authority = None) by (unfold L1, claim_locks; by rewrite !lookup_insert_ne).
  eapply spec_bind; [apply (openAuthority_spec p m1 L1 (was_lock i0 livenessLockName j0)), _|]. intros [a|e].
  2: { eapply close_after_spec; [apply _|done..]. }
  apply spec_pure. intros Ha. destruct (authority_files_lookup a m1 L1 Ha) as [Eroot Eparent].
  eapply spec_bind.
  - apply (removeClaimedRun_spec p (authority_files a m1) L1 ctx l0 a lease i0 j0 d0); try done; [apply lookup_insert_eq| |apply Hok].
    unfold authority_files. destruct Ha as [Hp Hq]. by eapply (kept _ L1), Hq; eapply (kept _ L1), Hp; eapply claim_root.
  - intros removeErr. cbn beta. eapply spec_bind; [by apply (authority_close_spec p m1 L1 anything a)|]. intros closeErr. cbn beta.
    eapply spec_bind; [by apply (lease_close_spec p m1 L1 m L anything)|]. intros [lease' leaseErr]. apply spec_pure. intros Hx.
    by apply at_end.
Qed.

(** ** Completing a live run *)
Lemma lives_was_lock p name i j D : lives p name i j D -> was_lock i livenessLockName j D.
Proof. intros (_ & d & Hd & _ & Hl & _). exists d. split; [done|by left]. Qed.

Lemma live_closed m L i j d l :
  fresh m L d -> fresh (<[ d := RunRoot i ]> m) L l -> L !! LockFile j = None ->
  all_closed (Some l) None (Some d) (with_live i j d l m, <[ LockFile j := l ]> L) = (m, L).
Proof. intros Hd Hl Hj. unfold all_closed. rewrite close_live by done. by apply close_root. Qed.

Definition ends (p : pid) (m : gmap file object) (L : gmap object file) (r : runLease * option error) (K : Kernel) : Prop :=
  le_closed r.1 = true /\ owns p m L K.

Lemma completeLive_spec p m L ctx lease :
  L !! Authority = None -> spec p (live_lease p m L lease) (completeLive euid root ctx lease) (ends p m L).
Proof.
  intros HA. apply spec_exists. intros i. apply spec_exists. intros j. apply spec_exists. intros d. apply spec_exists. intros l.
  apply spec_pure. intros (E & Hd & Hl & Hj & Hid). apply (spec_forget p _ _ (was_lock i livenessLockName j)); [by apply lives_was_lock|].
  pose proof (live_closed m L i j d l Hd Hl Hj) as Hclosed. destruct (fresh_less _ _ _ _ _ Hl) as [Hl1 Nl].
  set (F := was_lock i livenessLockName j) in *. set (m1 := with_live i j d l m) in *. set (L1 := <[ LockFile j := l ]> L) in *.
  assert (Hclose : forall e, spec p (knows p m1 L1 F) (close_after lease e) (ends p m L)).
  { intros e. apply (close_after_spec p m1 L1 m L F); [apply _|..]; by rewrite E. }
  assert (Hm1d : m1 !! d = Some (RunRoot i)) by (unfold m1, with_live; by rewrite lookup_insert_ne, lookup_insert_eq).
  assert (Ec : le_closed lease = false /\ le_retained lease = false /\ le_root lease = Some d) by (by rewrite E).
  destruct Ec as (Ec & Er & Ed). unfold completeLive. rewrite Ec, Er, Ed. cbn [orb].
  eapply spec_bind; [apply (openLockFile_spec p m1 L1 F d i recoveryLockName); [apply _|done]|]. intros [r|e]; [|by apply Hclose].
  apply spec_pure. intros Hr. apply spec_exists. intros j'. apply (spec_forget p _ _ F); [by intros D [? _]|].
  eapply spec_bind; [apply (lockWithContext_spec p (<[ r := LockFile j' ]> m1) L1 F ctx r (LockFile j')); [apply _..|by rewrite lookup_insert_eq]|].
  intros [e|].
  { eapply spec_bind; [apply (close_quietly_fresh_spec p m1 L1 F r); [apply _|done]|]. intros []. apply Hclose. }
  apply spec_pure. intros Hfree. apply (spec_pre p (claim_lease p m L (take_recovery r lease))); [|by apply remove_completed_spec].
  intros K _ HK. exists i, j, j', d, l, r. destruct (fresh_less _ _ _ _ _ Hr) as [Hr1 Nr]. destruct (fresh_less _ _ _ _ _ Hr1) as [Hr2 Nr2].
  assert (Hfree' : L1 !! LockFile j' = None) by (destruct Hfree as [|Hx]; [done|]; by apply Hr in Hx).
  unfold L1 in Hfree'. apply lookup_insert_None in Hfree' as [Hj' Hne].
  assert (Hr3 : fresh m L r) by (by apply fresh_unlocked in Hr2).
  split.
  - split; try done; [by rewrite E|congruence].
  - unfold claim_files, claim_locks. rewrite (insert_insert_ne _ l r), (insert_insert_ne _ (LockFile j)) by (congruence). exact HK.
Qed.

(** ** Recovery *)
Lemma recoverRun_spec p m L i j d l id :
  m !! d = Some (RunRoot i) -> L !! LockFile j = Some l ->
  spec p (knows p m L (was_lock i livenessLockName j)) (call (RecoverRun id d))
    (fun _ => knows p m L (was_lock i livenessLockName j)).
Proof.
  intros Hd Hj. apply at_call; [apply _|intros; apply _|..].
  - intros K HK [Hm (d1 & Hd1 & Hs)] i' d' j' [Hf Hd']%run_at_Some Hl. rewrite (proj1 Hm), Hd in Hf. injection Hf as <-.
    assert (d1 = d') as -> by congruence. change (slot_of livenessLockName d') with (rd_live d') in Hs.
    assert (j' = j) as -> by (destruct Hs; congruence). by eapply mine_lock.
  - intros K x K' HK [Hm (d1 & Hd1 & Hs)]. cbn. destruct (run_at p d K) as [[i' d']|] eqn:Er.
    2: { intros ->. split; [by apply benign_refl|]. split; [done|]. by exists d1. }
    intros (other & Hsub & ->). apply run_at_Some in Er as [Hf Hd']. rewrite (proj1 Hm), Hd in Hf. injection Hf as <-.
    assert (d1 = d') as -> by congruence. change (slot_of livenessLockName d') with (rd_live d') in Hs.
    split; [|split; [done|]; exists (set_other other d'); split; [cbn; by rewrite lookup_insert_eq|exact Hs]].
    apply (set_other_benign K p i d'); try done; [| |by left].
    + intros j' Hj'. assert (j' = j) as -> by (destruct Hs; congruence). by eapply mine_lock.
    + intros n Hn. apply (so_other _ HK i d' Hd'). by apply Hsub.
Qed.

Lemma recoverClaim_spec p m L ctx a lease :
  L !! Authority = None -> m !! au_root a = Some Authority -> m !! au_parent a = Some Parent ->
  spec p (claim_lease p m L lease) (recoverClaim euid root ctx a lease) (fun _ => owns p m L).
Proof.
  intros HA Hr Hp. do 6 (apply spec_exists; intros ?). apply spec_pure. intros Hok.
  match type of Hok with claim_ok _ _ ?i ?j ?j' ?d ?l ?r _ => rename i into i0, j into j0, j' into j1, d into d0, l into l0, r into r0 end.
  destruct (claim_facts _ _ _ _ _ _ _ _ _ Hok) as (Hroot & Hc & Hret & Hclosed). specialize (Hclosed _ _ eq_refl eq_refl).
  pose proof (claim_kept _ _ _ _ _ _ _ _ _ _ _ Hok Hr) as Hr1. pose proof (claim_kept _ _ _ _ _ _ _ _ _ _ _ Hok Hp) as Hp1.
  pose proof (claim_root _ _ _ _ _ _ _ _ _ Hok) as Hd1.
  set (m1 := claim_files i0 j0 j1 d0 l0 r0 m) in *. set (L1 := claim_locks j0 j1 l0 r0 L) in *.
  assert (HA1 : L1 !! Authority = None) by (unfold L1, claim_locks; by rewrite !lookup_insert_ne).
  assert (HL1 : L1 !! LockFile j0 = Some l0) by (apply lookup_insert_eq).
  assert (Hclose : forall F e, Known p L1 F -> spec p (knows p m1 L1 F) (close_last lease e) (fun _ => owns p m L)).
  { intros F e HF. by apply (close_last_spec p m1 L1 m L F). }
  unfold recoverClaim. rewrite Hroot. eapply spec_check.
  - apply (verify_neutral p m1 L1 (was_lock i0 livenessLockName j0) a); [apply _|done..].
  - cbn beta. apply (spec_bind p _ _ _ (fun _ => knows p m1 L1 (was_lock i0 livenessLockName j0))).
    { by apply (recoverRun_spec p m1 L1 i0 j0 d0 l0). }
    intros [e|]; [apply Hclose, _|]. eapply spec_check.
    + apply (removeClaimedRun_spec p m1 L1 ctx l0 a lease i0 j0 d0); try done. apply Hok.
    + apply Hclose, _.
    + intros e. apply Hclose, _.
  - intros e. apply Hclose, _.
Qed.

(** What a claim has. *)
Definition claims (p : pid) (m : gmap file object) (L : gmap object file) (r : result runClaim) (K : Kernel) : Prop :=
  match r with Ok (claimStale lease) => claim_lease p m L lease K | _ => owns p m L K end.

Lemma closed_fresh m L f o : fresh m L f -> closed (Some f) (<[ f := o ]> m, L) = (m, L).
Proof. intros Hf. unfold closed. cbn. by rewrite (delete_fresh _ L), (unlocked_fresh _ L). Qed.

(** Closing the files and giving up. *)
Lemma close_run_files_spec p m1 L1 m L F liveness recovery directory :
  all_closed liveness recovery directory (m1, L1) = (m, L) ->
  spec p (knows p m1 L1 F) (closeRunFiles liveness recovery directory) (fun _ => owns p m L).
Proof.
  intros E. apply (spec_forget p _ _ anything); [done|]. eapply spec_post; [apply closeRunFiles_spec; apply _|]. intros e K _. by rewrite E.
Qed.

Lemma close_one_spec p m1 L1 m L F f :
  closed (Some f) (m1, L1) = (m, L) -> spec p (knows p m1 L1 F) (close_quietly f) (fun _ => owns p m L).
Proof.
  intros E. apply (spec_forget p _ _ anything); [done|].
  eapply spec_post; [apply (close_quietly_spec p m1 L1 anything f); apply _|]. intros [] K _.
  change (delete f m1) with (closed (Some f) (m1, L1)).1. change (unlocked m1 f L1) with (closed (Some f) (m1, L1)).2. by rewrite E.
Qed.

Lemma unlock_one_spec p m1 L1 F f : spec p (knows p m1 L1 F) (unlock (Some f)) (fun _ => owns p m1 (unlocked m1 f L1)).
Proof. apply (spec_forget p _ _ anything); [done|]. apply unlock_spec; apply _. Qed.

Lemma close_pair_spec p m1 L1 m L F d r :
  closed (Some d) (closed (Some r) (m1, L1)) = (m, L) ->
  spec p (knows p m1 L1 F) (close_root_and_parent r d) (fun _ => owns p m L).
Proof.
  intros E. destruct (closed (Some r) (m1, L1)) as [m2 L2] eqn:E2. eapply spec_bind; [by apply (close_one_spec p m1 L1 m2 L2)|].
  intros []. by apply close_one_spec.
Qed.

Lemma then_return {A} p P m L (t : prog A) (v : result runClaim) :
  spec p P t (fun _ => owns p m L) -> (forall K, owns p m L K -> claims p m L v K) ->
  spec p P (do! closed := t in Ret v) (claims p m L).
Proof. intros Ht Hv. eapply spec_bind; [exact Ht|]. intros c. apply at_end; [apply _|]. intros K _. apply Hv. Qed.

Lemma checkRunLiveness_spec p m L id d r i j' :
  fresh m L d -> fresh (<[ d := RunRoot i ]> m) L r -> L !! LockFile j' = None -> proper_ID id ->
  spec p (owns p (<[ r := LockFile j' ]> (<[ d := RunRoot i ]> m)) (<[ LockFile j' := r ]> L)) (checkRunLiveness euid id d r) (claims p m L).
Proof.
  intros Hd Hr Hj' Hid. set (m1 := <[ r := LockFile j' ]> (<[ d := RunRoot i ]> m)). set (L1 := <[ LockFile j' := r ]> L).
  destruct (fresh_less _ _ _ _ _ Hr) as [Hr1 Nr].
  assert (Ed : m1 !! d = Some (RunRoot i)) by (unfold m1; by rewrite lookup_insert_ne, lookup_insert_eq).
  assert (Eback : closed (Some d) (closed (Some r) (m1, L1)) = (m, L)).
  { unfold m1, L1. rewrite closed_locked by done. by apply closed_fresh. }
  assert (Eunlocked : unlocked m1 r L1 = L).
  { unfold unlocked, m1, L1. rewrite !lookup_insert_eq, bool_decide_eq_true_2 by done. by apply delete_insert_id. }
  eapply spec_try; [by apply (openLockFile_spec p m1 L1 anything d i livenessLockName)| |].
  - intros l. apply spec_pure. intros Hl. apply spec_exists. intros j. set (m2 := <[ l := LockFile j ]> m1).
    set (F := fun D => anything D /\ was_lock i livenessLockName j D).
    destruct (fresh_less _ _ _ _ _ Hl) as [Hl1 Nlr]. destruct (fresh_less _ _ _ _ _ Hl1) as [Hl2 Nld].
    assert (Hl3 : fresh m L l) by (by apply fresh_unlocked in Hl2).
    assert (Eclosed : all_closed (Some l) (Some r) (Some d) (m2, L1) = (m, L)).
    { unfold all_closed, m2. by rewrite (closed_fresh m1 L1 l _ Hl). }
    eapply spec_try; [apply (tryLock_spec p m2 L1 F l (LockFile j)); [apply _..|apply lookup_insert_eq]| |].
    + intros [|]; cbn [negb].
      * apply spec_pure. intros Hfree. assert (Hfree' : L1 !! LockFile j = None) by (destruct Hfree as [|Hx]; [done|]; by apply Hl in Hx).
        unfold L1 in Hfree'. apply lookup_insert_None in Hfree' as [Hj Hne].
        apply at_end; [apply _|]. intros K _ HK. exists i, j, j', d, l, r. split; [by split; try congruence|].
        revert HK. apply knows_mono. by intros D [_ ?].
      * eapply spec_bind; [apply (close_run_files_spec p m2 L1 (<[ l := LockFile j ]> m) L)|].
        { unfold all_closed. change (closed None (m2, L1)) with (m2, L1). unfold m2, m1, L1. rewrite (insert_insert_ne _ l r), (insert_insert_ne _ l d) by done.
          assert (fresh (<[ l := LockFile j ]> m) L d) by (destruct Hd; split; [by rewrite lookup_insert_ne|done]).
          rewrite closed_locked; [by apply closed_fresh| |done]. destruct Hr as [Hr2 ?]. split; [|done].
          by rewrite (insert_insert_ne _ d l), lookup_insert_ne. }
        intros e. apply then_return; [|done]. apply close_one_spec. by apply closed_fresh.
    + intros e. apply then_return; [|done]. by apply close_run_files_spec.
  - intros e. eapply spec_bind; [apply unlock_one_spec|]. intros u. cbn beta. rewrite Eunlocked. apply then_return; [|done].
    apply close_pair_spec. unfold m1. rewrite (closed_fresh _ L) by done. by apply closed_fresh.
Qed.

Lemma lockRunForRecovery_spec p m L id d i :
  fresh m L d -> proper_ID id ->
  spec p (owns p (<[ d := RunRoot i ]> m) L) (lockRunForRecovery euid id d) (claims p m L).
Proof.
  intros Hd Hid. eapply spec_try; [apply (openLockFile_spec p (<[ d := RunRoot i ]> m) L anything d i recoveryLockName); [done|apply lookup_insert_eq]| |].
  2: { intros e. apply then_return; [|done]. apply close_one_spec. by apply closed_fresh. }
  intros r. apply spec_pure. intros Hr. apply spec_exists. intros j'. apply (spec_forget p _ _ anything); [done|].
  assert (Eback : closed (Some d) (closed (Some r) (<[ r := LockFile j' ]> (<[ d := RunRoot i ]> m), L)) = (m, L)).
  { rewrite closed_fresh by done. by apply closed_fresh. }
  eapply spec_try; [apply (tryLock_spec p _ L anything r (LockFile j')); [done..|apply lookup_insert_eq]| |].
  - intros [|]; cbn [negb].
    + apply spec_pure. intros Hfree. apply checkRunLiveness_spec; try done. destruct Hfree as [|Hx]; [done|]. by apply Hr in Hx.
    + apply then_return; [|done]. by apply close_pair_spec.
  - intros e. apply then_return; [|done]. by apply close_pair_spec.
Qed.

Lemma claimRun_spec p m L f id :
  m !! f = Some Authority -> proper_ID id -> spec p (owns p m L) (claimRun euid f id) (claims p m L).
Proof.
  intros Hf Hid. eapply spec_bind.
  { apply (open_spec p m L anything (OpenDirAt f (IDString id)) (fun o _ => exists i, o = RunRoot i)); [done|intros; apply _|done|done|].
    intros K o HK [[Hm _] _]. cbn. unfold dir_at. rewrite Hm, Hf. rewrite bool_decide_eq_false_2 by (by apply proper_name_no_dot).
    intros (i & Hi & ->)%fmap_Some. by exists i. }
  intros [d|e]; [|destruct (is_errno ENOENT e); by apply at_end].
  apply spec_pure. intros Hd. apply spec_exists. intros o.
  apply (spec_pre p (fun K => exists i, o = RunRoot i /\ owns p (<[ d := o ]> m) L K)).
  { intros K _ [Hm [_ [i ->]]]. by exists i. }
  apply spec_exists. intros i. apply spec_pure. intros ->. eapply spec_check.
  - by apply (neutral_validate_directory p _ L anything).
  - by apply lockRunForRecovery_spec.
  - intros e. apply then_return; [|done]. apply close_one_spec. by apply closed_fresh.
Qed.

Lemma recover_names_spec p m L ctx a names :
  L !! Authority = None -> m !! au_root a = Some Authority -> m !! au_parent a = Some Parent ->
  neutral p m L anything (recover_names euid root ctx a names).
Proof.
  intros HA Hr Hp. induction names as [|name names IH]; cbn [recover_names]; [by apply neutral_ret|].
  destruct (Parse name) as [id|e] eqn:E; [|by apply neutral_ret]. apply run_id_round_trip in E as (E1 & E2 & _).
  eapply spec_bind_ok; [by apply (claimRun_spec p m L (au_root a) id)| |intros e; by apply at_end].
  intros [| | |lease]; [exact IH|exact IH|by apply at_end|].
  eapply spec_check_ok; [by apply (recoverClaim_spec p m L ctx a lease)|exact IH|intros e; by apply at_end].
Qed.

Lemma remove_temporaries_spec p m L f a names : forall published,
  L !! Authority = Some f -> m !! au_root a = Some Authority ->
  neutral p m L anything (remove_temporaries euid a published names).
Proof.
  intros published HA Hr. revert published. induction names as [|name names IH]; intros published; cbn [remove_temporaries];
    [by apply neutral_ret|]. destruct (negb _); [apply IH|].
  eapply spec_check_ok; [by apply (removeUnpublished_spec p m L a name f)|apply IH|intros e; by apply at_end].
Qed.

Lemma snapshot_spec p m L ctx a :
  L !! Authority = None -> m !! au_root a = Some Authority -> m !! au_parent a = Some Parent ->
  neutral p m L anything (snapshotRecoveryEntries euid root ctx a).
Proof.
  intros HA Hr Hp. apply with_lock_neutral; try done; [intros e; by apply neutral_ret|].
  set (La := with_authority_lock a L). eapply spec_check; [by apply (verify_neutral p m La anything)| |intros e; by apply neutral_ret].
  eapply spec_try; [by apply (readDirectoryNames_spec p m La anything (au_root a) Authority (fun _ => anything))| |intros e; by apply neutral_ret].
  intros names. apply (spec_forget p _ _ anything); [done|]. apply (remove_temporaries_spec p m La (au_root a)); [apply lookup_insert_eq|done].
Qed.

Lemma RecoverStale_spec p m L ctx :
  L !! Authority = None -> neutral p m L anything (RecoverStale euid root ctx).
Proof.
  intros HA. apply (hoare_iter (System0 := system) p (fun _ => owns p m L)). intros _. apply (spec_bind p _ _ _ (fun _ => owns p m L)).
  - eapply spec_bind_ok; [by apply (openAuthority_spec p m L anything)| |intros e; by apply at_end].
    intros a. apply spec_pure. intros Ha. destruct (authority_files_lookup a m L Ha) as [Eroot Eparent].
    apply (with_authority_spec p _ a _ (fun _ => owns p (authority_files a m) L)); [|intros r; by apply authority_close_spec|intros; apply _].
    eapply spec_bind_ok; [by apply snapshot_spec|intros names; by apply recover_names_spec|intros e; by apply at_end].
  - intros [[]|e]; [|by apply at_end..]. eapply spec_bind; [by apply (neutral_quiet p m L anything (WaitForRetry ctx))|].
    intros [e|]; by apply at_end.
Qed.
End Removal.
