(* ===== verification/RunProcesses.v ===== *)
(** * Runs among processes

    Processes that each recover what they find, create a run, work in its root
    and give it up in whatever way, while any of them may be killed and any
    system call may fail: what the authority looks like at any moment, and what
    each of them may rely on. *)
From ITree Require Import ITree.
From S2P Require Import Prelude GoText Sorting Paths RunId Effects Interference RunDirectory RunKernel RunLaws RunSpecs RunRoots RunRemoval.

(** ** What the owner of a live run does with it *)
Inductive lease_use : Type :=
  | WorkInRoot
  | CompleteRun (ctx : context)
  | CloseRun
  | RetainRun
  | ReleaseRun.

(** Another owner opens the root, works in it and closes it. *)
Definition work_in_root (lease : runLease) : prog unit :=
  do! opened := openRoot lease in
  match opened with
  | Ok root => do! used := call (UseRoot root) in close_quietly root
  | Err _ => Ret tt
  end.

(** The signal of a retained run comes. *)
Definition release_run (lease : runLease) : prog runLease :=
  if le_retained lease && negb (le_closed lease)
  then do! ' (lease, _) := release_retained lease in Ret lease
  else Ret lease.

Section Programs.
Context (euid : Z) (root : string).

Definition use_lease (lease : runLease) (use : lease_use) : prog runLease :=
  match use with
  | WorkInRoot => do! worked := work_in_root lease in Ret lease
  | CompleteRun ctx => do! ' (lease, _) := completeLive euid root ctx lease in Ret lease
  | CloseRun => do! ' (lease, _) := lease_close lease in Ret lease
  | RetainRun => Ret (retainUntil lease).1
  | ReleaseRun => release_run lease
  end.

Fixpoint use_leases (lease : runLease) (uses : list lease_use) : prog runLease :=
  match uses with
  | [] => Ret lease
  | use :: uses => do! lease := use_lease lease use in use_leases lease uses
  end.

(** In the end a run is closed, or its signal comes. *)
Definition end_lease (lease : runLease) : prog unit :=
  do! lease := release_run lease in
  do! ' (lease, _) := lease_close lease in
  Ret tt.

(** A run from its recovery to the end of its process. *)
Definition run_process (ctx : context) (id : ID) (uses : list lease_use) : prog unit :=
  do! recovered := RecoverStale euid root ctx in
  match recovered with
  | Some _ => Ret tt
  | None =>
      do! created := Create euid root id in
      match created with
      | Err _ => Ret tt
      | Ok lease =>
          do! lease := use_leases lease uses in
          end_lease lease
      end
  end.
End Programs.

Section Leases.
Context {euid : Z} {root : string}.
#[local] Instance system : System DirE Kernel := directory_system root.
Abbreviation spec p P t Q := (@hoare DirE Kernel (directory_system root) _ p P t Q).
Abbreviation neutral := (RunSpecs.neutral (root := root)).
Abbreviation owns p m L := (knows p m L anything).

(** The files and locks that belong to a lease, until it is closed. *)
Definition holds_lease (p : pid) (m : gmap file object) (L : gmap object file) (lease : runLease) (K : Kernel) : Prop :=
  if le_closed lease then owns p m L K else live_lease p m L (mark_retained false lease) K.

#[local] Instance stable_holds_lease p m L lease : Stable p (holds_lease p m L lease).
Proof. unfold holds_lease. destruct (le_closed lease); [apply _|apply stable_live_lease]. Qed.

Lemma live_lease_open p m L lease K : live_lease p m L lease K -> le_closed lease = false /\ le_retained lease = false.
Proof. intros (i & j & d & l & (E & _) & _). by rewrite E. Qed.

Lemma live_holds p m L lease K : live_lease p m L lease K -> holds_lease p m L lease K.
Proof.
  intros HK. unfold holds_lease. destruct (live_lease_open _ _ _ _ _ HK) as [-> Er].
  by destruct lease; cbn in *; subst.
Qed.

Lemma unretained lease : le_retained lease = false -> mark_retained false lease = lease.
Proof. by destruct lease; cbn; intros ->. Qed.

(** Working in the root changes nothing but the files of the others below it. *)
Lemma use_root_spec p m L name i j d l :
  is_run_name name = true -> m !! d = Some (RunRoot i) -> L !! LockFile j = Some l ->
  neutral p m L (lives p name i j) (call (UseRoot d)).
Proof.
  intros Hn Hd Hj. assert (HF : Known p L (lives p name i j)) by (by apply (known_lives p L name i j l)).
  apply (at_call p m L _ (UseRoot d) (fun _ => knows p m L (lives p name i j))); [done|apply _|..].
  - intros K HK [Hm (_ & d1 & Hd1 & _ & Hl & _)] i' d' j' [Hf Hd']%run_at_Some Hl'. rewrite (proj1 Hm), Hd in Hf. injection Hf as <-.
    assert (j' = j) as -> by congruence. by eapply mine_lock.
  - intros K x K' HK [Hm (Hname & d1 & Hd1 & Hc & Hl & Hrec)]. cbn. destruct (run_at p d K) as [[i' d']|] eqn:Er.
    2: { intros ->. split; [by apply benign_refl|]. split; [done|]. split; [done|]. by exists d1. }
    intros (other & Hother & ->). apply run_at_Some in Er as [Hf Hd']. rewrite (proj1 Hm), Hd in Hf. injection Hf as <-.
    assert (d1 = d') as -> by congruence. split.
    + apply (set_other_benign K p i d'); try done.
      * intros j' Hj'. assert (j' = j) as -> by congruence. by eapply mine_lock.
      * right. split; [done|]. intros n Hi. by rewrite (so_names _ HK n name i).
    + split; [done|]. split; [done|]. exists (set_other other d'). cbn. by rewrite lookup_insert_eq.
Qed.

Lemma work_in_root_spec p m L lease : spec p (live_lease p m L lease) (work_in_root lease) (fun _ => live_lease p m L lease).
Proof.
  apply spec_exists. intros i. apply spec_exists. intros j. apply spec_exists. intros d. apply spec_exists. intros l.
  apply spec_pure. intros (E & Hd & Hl & Hj & Hid). apply proper_run_name in Hid as Hn. destruct (fresh_less _ _ _ _ _ Hl) as [Hl1 Nl].
  set (m1 := with_live i j d l m). set (L1 := <[ LockFile j := l ]> L). set (F := lives p (IDString (le_id lease)) i j).
  assert (HL : L1 !! LockFile j = Some l) by apply lookup_insert_eq.
  assert (HF : Known p L1 F) by (by apply (known_lives p L1 _ i j l)).
  assert (Ed : m1 !! d = Some (RunRoot i)) by (unfold m1, with_live; by rewrite lookup_insert_ne, lookup_insert_eq).
  assert (Hdone : forall K, knows p m1 L1 F K -> live_lease p m L lease K) by (intros K HK; by exists i, j, d, l).
  assert (Er : openRoot lease = (try! copy := call (DuplicateFile d) or fail "duplicate run root descriptor" in Ret (Ok copy))).
  { unfold openRoot. assert (Ex : le_closed lease = false /\ le_retained lease = false /\ le_root lease = Some d) by (by rewrite E).
    by destruct Ex as (-> & -> & ->). }
  unfold work_in_root. rewrite Er. eapply spec_bind.
  { eapply spec_try.
    - apply (open_spec p m1 L1 F (DuplicateFile d) (fun o _ => o = RunRoot i)); [done|intros; apply _|done|done|].
      intros K o _ [Hm _]. cbn. rewrite (proj1 Hm), Ed. by intros [= <-].
    - intros copy. apply (spec_ret p (fun K => fresh m1 L1 copy /\ exists o, knows p (<[ copy := o ]> m1) L1 (fun D => F D /\ o = RunRoot i) K) _
        (fun r K => match r with Ok copy => fresh m1 L1 copy /\ knows p (<[ copy := RunRoot i ]> m1) L1 F K | Err _ => knows p m1 L1 F K end)).
      intros K _ (Hc & o & [Hm [HFK ->]]). done.
    - intros e. by apply at_end. }
  intros [copy|e]; [|apply at_end; [done|]; intros K _; apply Hdone].
  apply spec_pure. intros Hc. eapply spec_bind; [apply (use_root_spec p (<[ copy := RunRoot i ]> m1) L1 (IDString (le_id lease)) i j copy l); [done|apply lookup_insert_eq|done]|].
  intros u. eapply spec_post; [by apply (close_quietly_fresh_spec p m1 L1 F copy)|]. intros [] K _. apply Hdone.
Qed.

Lemma close_live_spec p m L lease :
  spec p (live_lease p m L lease) (closeLocked lease) (ends p m L).
Proof.
  apply spec_exists. intros i. apply spec_exists. intros j. apply spec_exists. intros d. apply spec_exists. intros l.
  apply spec_pure. intros (E & Hd & Hl & Hj & Hid).
  eapply spec_bind; [apply (close_run_files_spec p (with_live i j d l m) (<[ LockFile j := l ]> L) m L)|].
  - rewrite E. by apply live_closed.
  - intros e. apply at_end; [apply _|]. by intros.
Qed.

Lemma ended_holds p m L r K : ends p m L r K -> holds_lease p m L r.1 K.
Proof. unfold ends, holds_lease. by intros [-> ?]. Qed.

(** A program that ends a lease, or leaves it as it was. *)
Lemma spec_ended p m L (P : Kernel -> Prop) (t : prog (runLease * option error)) :
  spec p P t (ends p m L) -> spec p P (do! ' (lease, _) := t in Ret lease) (holds_lease p m L).
Proof.
  intros Ht. eapply spec_bind; [exact Ht|]. intros [lease e]. apply spec_pure. intros Hc. apply at_end; [apply _|].
  intros K _ HK. by apply (ended_holds p m L (lease, e)).
Qed.

Lemma spec_unended p m L lease (r : option error) :
  spec p (holds_lease p m L lease) (do! ' (lease, _) := Ret (lease, r) in Ret lease) (holds_lease p m L).
Proof.
  apply (spec_bind p _ _ _ (fun r => holds_lease p m L r.1)).
  - apply spec_ret; [apply stable_holds_lease|done].
  - intros [lease' e]. apply spec_ret; [apply stable_holds_lease|done].
Qed.

Lemma use_lease_spec p m L lease use :
  L !! Authority = None -> spec p (holds_lease p m L lease) (use_lease euid root lease use) (holds_lease p m L).
Proof.
  intros HA. destruct use as [|ctx| | |]; cbn [use_lease].
  - apply (spec_bind p _ _ _ (fun _ => holds_lease p m L lease)); [|intros []; apply spec_ret; [apply _|done]].
    destruct (le_closed lease || le_retained lease) eqn:E.
    + unfold work_in_root, openRoot. rewrite E. apply (spec_bind p _ _ _ (fun r K => (exists e, r = Err e) /\ holds_lease p m L lease K)).
      * apply spec_ret; [apply _|]. intros K _ HK. split; [by eexists|done].
      * intros r. apply spec_pure. intros [e ->]. apply spec_ret; [apply _|done].
    + apply orb_false_iff in E as [Ec Er]. unfold holds_lease. rewrite Ec, unretained by done. apply work_in_root_spec.
  - unfold completeLive. destruct (le_closed lease || le_retained lease) eqn:E; [apply spec_unended|].
    apply orb_false_iff in E as [Ec Er].
    pose proof (completeLive_spec (euid := euid) (root := root) p m L ctx lease HA) as Hx. unfold completeLive in Hx. rewrite Ec, Er in Hx. cbn [orb] in Hx.
    apply spec_ended. unfold holds_lease. rewrite Ec, unretained by done. exact Hx.
  - unfold lease_close. destruct (le_closed lease) eqn:Ec; [apply spec_unended|]. destruct (le_retained lease) eqn:Er; [apply spec_unended|].
    apply spec_ended. unfold holds_lease. rewrite Ec, unretained by done. apply close_live_spec.
  - unfold retainUntil. destruct (le_closed lease || le_retained lease) eqn:E; cbn [fst].
    + apply spec_ret; [apply stable_holds_lease|done].
    + apply spec_ret; [apply stable_holds_lease|]. by intros K _.
  - unfold release_run. destruct (le_retained lease && negb (le_closed lease)) eqn:E.
    + apply andb_true_iff in E as [Er Ec%negb_true_iff]. apply spec_ended. unfold holds_lease. rewrite Ec. apply close_live_spec.
    + apply spec_ret; [apply stable_holds_lease|done].
Qed.

Lemma use_leases_spec p m L uses : forall lease,
  L !! Authority = None -> spec p (holds_lease p m L lease) (use_leases euid root lease uses) (holds_lease p m L).
Proof.
  induction uses as [|use uses IH]; intros lease HA; cbn [use_leases]; [by apply spec_ret; [apply _|]|].
  eapply spec_bind; [by apply use_lease_spec|]. intros lease'. by apply IH.
Qed.

Lemma release_run_spec p m L lease :
  spec p (holds_lease p m L lease) (release_run lease) (fun lease K => (le_closed lease = false -> le_retained lease = false) /\ holds_lease p m L lease K).
Proof.
  unfold release_run. destruct (le_retained lease && negb (le_closed lease)) eqn:E.
  - apply andb_true_iff in E as [Er Ec%negb_true_iff]. apply (spec_bind p _ _ _ (ends p m L)); [|intros [lease' e]; apply spec_pure; intros Hc; apply at_end; [apply _|]].
    + unfold holds_lease. rewrite Ec. apply close_live_spec.
    + cbn in Hc. intros K _ HK. split; [by rewrite Hc|]. by apply (ended_holds p m L (lease', e)).
  - apply spec_ret; [apply _|]. intros K _ HK. split; [|done]. intros Ec. rewrite Ec in E. by rewrite andb_true_r in E.
Qed.

Lemma end_lease_spec p m L lease : spec p (holds_lease p m L lease) (end_lease lease) (fun _ => owns p m L).
Proof.
  eapply spec_bind; [apply release_run_spec|]. intros lease'. apply spec_pure. intros Hr. unfold lease_close, holds_lease.
  destruct (le_closed lease') eqn:Ec.
  - apply (spec_bind p _ _ _ (fun _ => owns p m L)); [by apply at_end|]. intros []. by apply at_end.
  - rewrite Hr, unretained by auto. eapply spec_bind; [apply close_live_spec|]. intros []. apply spec_pure. intros _. by apply at_end.
Qed.

Lemma run_process_spec p m L ctx id uses :
  L !! Authority = None -> spec p (owns p m L) (run_process euid root ctx id uses) (fun _ => owns p m L).
Proof.
  intros HA. eapply spec_bind; [by apply (RecoverStale_spec p m L ctx)|]. intros [e|]; [by apply at_end|].
  eapply spec_bind; [by apply (Create_spec p m L id)|]. intros [lease|e]; [|by apply at_end].
  apply spec_pure. intros _. apply (spec_pre p (holds_lease p m L lease)); [intros K _; apply live_holds|].
  eapply spec_bind; [by apply use_leases_spec|]. intros lease'. apply end_lease_spec.
Qed.
End Leases.

(** ** All the processes *)
Section Together.
Context (root : string).
#[local] Instance shared : System DirE Kernel := directory_system root.

(** A process that has not opened anything yet, with some run to do. *)
Definition runs (t : itree DirE unit) : Prop := exists euid ctx id uses, t = run_process euid root ctx id uses.

Record starts (c : pool) : Prop := {
  st_sound : sound c.2;
  st_runs : forall p t, c.1 !! p = Some t -> runs t;
  st_nothing : forall p f, is_Some (c.1 !! p) -> k_files c.2 !! (p, f) = None
}.

(** Nothing is left of a process. *)
Definition has_nothing (p : pid) (K : Kernel) : Prop :=
  (forall f, k_files K !! (p, f) = None) /\ forall o, ~ holds_lock p K o.

Lemma owns_nothing p K : has_nothing p K <-> knows p ∅ ∅ anything K.
Proof.
  split.
  - intros [Hf Hl]. split; [|done]. split; [intros f; by rewrite Hf, lookup_empty|]. intros o f. rewrite lookup_empty.
    split; [|done]. intros E. destruct (Hl o). by exists f.
  - intros [[Hf Hl] _]. split; [intros f; by rewrite Hf, lookup_empty|]. intros o [f E]. apply Hl in E. by rewrite lookup_empty in E.
Qed.

Lemma starts_safe c : starts c -> all_safe has_nothing c.
Proof.
  intros [Hs Hr Hn]. split; [done|]. intros p t Ht n. destruct (Hr p t Ht) as (euid & ctx & id & uses & ->).
  eapply (safe_mono n p _ (fun _ => knows p ∅ ∅ anything)); [intros [] K _ HK; by apply owns_nothing|].
  apply (run_process_spec (euid := euid) (root := root) p ∅ ∅ ctx id uses); [done|done|]. apply owns_nothing. split; [intros f; apply Hn; eauto|].
  intros o [f Hf]. apply (so_locks _ Hs) in Hf. rewrite Hn in Hf; [done|eauto].
Qed.

(** C3. Whatever the processes do, in whatever order, wherever calls fail and
    processes are killed: every entry of the authority is a complete run with both
    its lock files, or a temporary directory without files of other owners that
    recovery removes; no directory has two names, no lock file two owners. *)
Theorem run_directory_is_always_recoverable c c' : starts c -> reaches c c' -> sound c'.2.
Proof. intros Hs Hr. by destruct (reaches_safe _ c c' (starts_safe c Hs) Hr) as [? _]. Qed.

(** C2. A run whose maker holds its liveness lock stays published under its name,
    with both its lock files, its lock and the files of its other owners, whatever
    another process does or however it dies. *)
Theorem live_runs_are_left_alone c c1 c2 p q name i d j :
  starts c -> reaches c c1 -> moves p c1 c2 -> q <> p ->
  d_names (k_disk c1.2) !! name = Some i -> d_runs (k_disk c1.2) !! i = Some d -> is_run_name name = true ->
  rd_creator d = q -> rd_live d = Present j -> holds_lock q c1.2 (LockFile j) ->
  d_names (k_disk c2.2) !! name = Some i
  /\ (exists d', d_runs (k_disk c2.2) !! i = Some d' /\ same_slots d d' /\ rd_other d' = rd_other d)
  /\ holds_lock q c2.2 (LockFile j).
Proof.
  intros Hs Hr Hm Hne Hn Hd Hrun Hc Hl Hh. pose proof (reaches_safe _ c c1 (starts_safe c Hs) Hr) as H1.
  destruct (moves_safe _ p c1 c2 H1 Hm) as [_ Hk]. destruct (Hk q Hne) as [_ Hlocks Hdisk].
  destruct (kd_mine _ _ _ _ Hdisk name i d j) as (Hn' & d' & Hd' & Hsame); try done. split; [done|]. split.
  - exists d'. split_and!; [done..|]. apply (kd_other _ _ _ _ Hdisk i d d' j); try done. destruct Hsame as (_ & E & _). congruence.
  - destruct Hh as [f Hf]. exists f. by apply Hlocks.
Qed.

(** The run a process is about to let the other owners recover. *)
Definition recovering (t : itree DirE unit) : option (ID * file) :=
  match observe t with
  | VisF e _ => match e with RecoverRun id root => Some (id, root) | _ => None end
  | _ => None
  end.

(** C14. A process lets the other owners recover a run only while it holds the
    liveness lock of that run itself: its maker is gone, and nobody else recovers
    the run at the same time. *)
Theorem recovery_has_the_run_to_itself c c1 p t id f i d j q :
  starts c -> reaches c c1 -> c1.1 !! p = Some t -> recovering t = Some (id, f) ->
  run_at p f c1.2 = Some (i, d) -> rd_live d = Present j -> holds_lock p c1.2 (LockFile j) /\ (holds_lock q c1.2 (LockFile j) -> q = p).
Proof.
  intros Hs Hr Ht Ho Hi Hj. pose proof (reaches_safe _ c c1 (starts_safe c Hs) Hr) as H1. unfold recovering in Ho.
  destruct (observe t) as [| |X e k] eqn:E; try done. pose proof (all_safe_call _ c1 p t _ _ _ H1 Ht E) as Hp. destruct e; try done.
  injection Ho as -> ->. pose proof (Hp i d j Hi Hj) as Hmine. split; [done|]. intros Hq. by eapply holds_lock_exclusive.
Qed.

Definition returned (t : itree DirE unit) : bool := match observe t with RetF _ => true | _ => false end.

(** C25. A process that returned, on whatever path, has closed every file it opened
    and released every lock it took. *)
Theorem returned_process_has_nothing c c1 p t :
  starts c -> reaches c c1 -> c1.1 !! p = Some t -> returned t = true -> has_nothing p c1.2.
Proof.
  intros Hs Hr Ht Ho. pose proof (reaches_safe _ c c1 (starts_safe c Hs) Hr) as H1. unfold returned in Ho.
  destruct (observe t) as [[]| |] eqn:E; try done. by apply (all_safe_returned _ c1 p t tt).
Qed.
End Together.

(** ** Two processes *)
Module Scenario.
Definition first_id : ID := MkID (replicate 16 x01).
Definition second_id : ID := MkID (replicate 16 x02).
Definition nonce : ID := MkID (replicate 16 x03).

Definition empty_kernel : Kernel := MkKernel (MkDisk false ∅ ∅) ∅ ∅ 0.
Definition run (id : ID) (uses : list lease_use) : itree DirE unit := run_process 0 AuthorityRoot Background id uses.
Definition both (first second : list lease_use) : pool (E := DirE) (K := Kernel) :=
  (<[ 1%nat := run first_id first ]> (<[ 2%nat := run second_id second ]> ∅), empty_kernel).
Definition after (c : pool (E := DirE) (K := Kernel)) (turns : list turn) : pool (E := DirE) (K := Kernel) :=
  take_turns AuthorityRoot nonce c turns.

(** The first process works in its root, leaves something there and dies; the
    second recovers the run, makes its own and completes it. *)
Definition crashing : pool := both [WorkInRoot; RetainRun] [WorkInRoot; WorkInRoot; CompleteRun Background].
Definition crash_turns : list turn := [Runs 0 1 51; Killed 1; Runs 0 2 300].

Lemma empty_sound : sound empty_kernel.
Proof.
  split; cbn; intros; try done;
    repeat match goal with H : has_slot _ _ _ _ |- _ => destruct H as (_ & ? & ? & _) end; done.
Qed.

Lemma both_starts first second : starts AuthorityRoot (both first second).
Proof.
  split; [exact empty_sound| |done]. intros p t. unfold both. cbn [fst]. rewrite !lookup_insert_Some, lookup_empty.
  intros [[_ <-]|[_ [[_ <-]|[_ Hx]]]]; [exists 0, Background, first_id, first|exists 0, Background, second_id, second|discriminate Hx]; exact eq_refl.
Qed.

Lemma after_reaches c turns : reaches (System0 := shared AuthorityRoot) c (after c turns).
Proof. by apply take_turns_reaches. Qed.

Example crashed_run_is_recovered :
  let c := after crashing [Runs 0 1 51; Killed 1] in
  let c' := after crashing crash_turns in
  dom (d_names (k_disk c.2)) = {[ IDString first_id ]}
  /\ d_names (k_disk c'.2) = ∅ /\ k_files c'.2 = ∅ /\ k_locks c'.2 = ∅ /\ returned <$> c'.1 !! 2%nat = Some true.
Proof. split_and!; vm_compute; reflexivity. Qed.

(** ** The theorems on these turns *)
Definition present (p : pid) (c : pool (E := DirE) (K := Kernel)) : bool := match c.1 !! p with Some _ => true | None => false end.
Definition thread (p : pid) (c : pool (E := DirE) (K := Kernel)) : itree DirE unit := default (Ret tt) (c.1 !! p).
Lemma present_thread p c : present p c = true -> c.1 !! p = Some (thread p c).
Proof. unfold present, thread. by destruct (c.1 !! p). Qed.

(** The directory the first process made, as it left it. *)
Definition first_directory : RunDir := MkRunDir 1 (Present 8) (Present 10) {[ "network.claim" ]}.
Definition live_pool : pool := after crashing [Runs 0 1 51].
Definition recovering_pool : pool := after crashing [Runs 0 1 51; Killed 1; Runs 0 2 28].

Lemma run_directory_is_always_recoverable_witness :
  starts AuthorityRoot crashing /\ returned (thread 2 (after crashing crash_turns)) = true /\ sound (after crashing crash_turns).2.
Proof.
  split; [apply both_starts|]. split; [vm_compute; reflexivity|].
  apply (run_directory_is_always_recoverable AuthorityRoot crashing); [apply both_starts|apply after_reaches].
Defined.

Lemma second_moves c :
  present 2 c = true -> returned (thread 2 c) = false -> moves (System0 := shared AuthorityRoot) 2 c (after c [Runs 0 2 1]).
Proof.
  intros Hp Hr. apply (one_turn_moves AuthorityRoot nonce c 0 2 (thread 2 c)); [done..|by apply present_thread|].
  intros a E. unfold returned in Hr. by rewrite E in Hr.
Qed.

Lemma live_runs_are_left_alone_witness :
  d_names (k_disk (after live_pool [Runs 0 2 1]).2) !! IDString first_id = Some 6%nat
  /\ (exists d', d_runs (k_disk (after live_pool [Runs 0 2 1]).2) !! 6%nat = Some d' /\ same_slots first_directory d'
       /\ rd_other d' = {[ "network.claim" ]})
  /\ holds_lock 1 (after live_pool [Runs 0 2 1]).2 (LockFile 8).
Proof.
  apply (live_runs_are_left_alone AuthorityRoot crashing live_pool (after live_pool [Runs 0 2 1]) 2 1 (IDString first_id) 6 first_directory 8).
  - apply both_starts.
  - apply after_reaches.
  - apply second_moves; vm_compute; reflexivity.
  - lia.
  - vm_compute. reflexivity.
  - vm_compute. reflexivity.
  - vm_compute. reflexivity.
  - reflexivity.
  - reflexivity.
  - exists 8%nat. vm_compute. reflexivity.
Defined.

Lemma recovery_has_the_run_to_itself_witness :
  holds_lock 2 recovering_pool.2 (LockFile 8) /\ (holds_lock 1 recovering_pool.2 (LockFile 8) -> 1%nat = 2%nat).
Proof.
  apply (recovery_has_the_run_to_itself AuthorityRoot crashing recovering_pool 2 (thread 2 recovering_pool) first_id 18 6 first_directory 8 1).
  - apply both_starts.
  - apply after_reaches.
  - apply present_thread. vm_compute. reflexivity.
  - vm_compute. reflexivity.
  - vm_compute. reflexivity.
  - reflexivity.
Defined.

Lemma returned_process_has_nothing_witness : has_nothing 2 (after crashing crash_turns).2.
Proof.
  apply (returned_process_has_nothing AuthorityRoot crashing (after crashing crash_turns) 2 (thread 2 (after crashing crash_turns))).
  - apply both_starts.
  - apply after_reaches.
  - apply present_thread. vm_compute. reflexivity.
  - vm_compute. reflexivity.
Defined.

(** Recovery claims outside the lock of the authority.  When a run completes
    after its directory was opened and before its recovery lock is, the lock file
    is gone and the start of the other run fails, although nothing is wrong. *)
Definition completing : pool := both [CompleteRun Background] [WorkInRoot].
Definition overtaken_turns : list turn := [Runs 0 1 48; Runs 0 2 18; Runs 0 1 300; Runs 0 2 300].

Example completion_fails_a_start :
  let c := after completing overtaken_turns in
  returned (thread 1 c) = true /\ returned (thread 2 c) = true /\ d_names (k_disk c.2) = ∅
  /\ size (d_runs (k_disk c.2)) = 1%nat.
Proof. split_and!; vm_compute; reflexivity. Qed.
End Scenario.
