(* ===== verification/Listing.v ===== *)
(** * Listing networks

    [listnetworks]: which local addresses a listing shows, what the catalog says
    about each of them, and the diagnostics a caller asked for.  Probing an
    address and measuring a group are I/O: their answers are arguments.  The
    endpoint of a probe is validated by [probe/endpoint.go]; the goroutines of a
    probe write a row each, so their order does not show. *)
From S2P Require Import Prelude Utf8 GoText Netip NetipText TransferNumber Sorting SourceTree Allocation Settings Weights Catalog Resolve.

Definition ProbeEndpointURL : string := "https://ipwho.is/?fields=ip,success,connection".

Section Listing.
Context `{URLs}.

(** ** The endpoint of a probe *)
Record ProbeEndpoint : Type := MkEndpoint { pe_url : URL }.

Definition validateEndpointURL (endpoint : URL) : option error :=
  if negb (bool_decide (url_Scheme endpoint = "http")) && negb (bool_decide (url_Scheme endpoint = "https"))
  then Some (ErrText "scheme must be http or https")
  else if bool_decide (url_Host endpoint = "") then Some (ErrText "host is required")
  else if url_hasUser endpoint then Some (ErrText "userinfo is not allowed")
  else if negb (bool_decide (url_Fragment endpoint = "")) || negb (bool_decide (url_RawFragment endpoint = ""))
  then Some (ErrText "fragments are not allowed")
  else None.

Definition parseEndpointURL (raw : string) : result URL :=
  if contains_byte x23 raw then Err (ErrText "fragments are not allowed")
  else
    match url_Parse raw with
    | Err e => Err (ErrWrap ("parse " +:+ Quote raw) e)
    | Ok parsed => check! validateEndpointURL parsed in Ok parsed
    end.

Definition NewEndpoint (raw : string) : result ProbeEndpoint :=
  if (slen raw =? 0) || (2048 <? slen raw) || negb (ValidString raw) || contains_byte x00 raw
  then Err (ErrText "probe endpoint length or encoding is invalid")
  else
    match parseEndpointURL raw with
    | Err e => Err (ErrWrap "probe endpoint" e)
    | Ok parsed => Ok (MkEndpoint parsed)
    end.

Definition DefaultEndpoint : ProbeEndpoint :=
  match NewEndpoint ProbeEndpointURL with Ok endpoint => endpoint | Err _ => MkEndpoint url_zero end.
Definition endpoint_Valid (endpoint : ProbeEndpoint) : bool :=
  match validateEndpointURL (pe_url endpoint) with None => true | Some _ => false end.

(** ** Requests *)
Record ListRequest : Type := MkListRequest {
  lr_explicitRaw : list string;
  lr_all : bool;
  lr_probe : option ProbeEndpoint;
  lr_measure : option Settings
}.

Definition ProbeRequested (request : ListRequest) : bool := bool_decide (is_Some (lr_probe request)).
Definition MeasureRequested (request : ListRequest) : bool := bool_decide (is_Some (lr_measure request)).

Record validatedRequest : Type := MkValidated {
  vr_explicit : list Addr;
  vr_all : bool;
  vr_probe : option ProbeEndpoint;
  vr_measure : option Settings
}.

(** A [UsageError] has the text of its cause. *)
Definition errListUsage : string := "listnetworks.UsageError".
Definition usage (cause : error) : error := ErrTyped errListUsage cause.

(** The loop over the addresses. *)
Fixpoint check_explicit (seen : gset Addr) (raws : list string) : result (list Addr) :=
  match raws with
  | [] => Ok []
  | raw :: raws =>
      match ParseAddr raw with
      | Ok address =>
          if negb (Is4 address) then Err (usage (ErrText ("network " +:+ Quote raw +:+ " is not a valid IPv4 address")))
          else if bool_decide (address ∈ seen) then Err (usage (ErrText ("network " +:+ AddrString address +:+ " is repeated")))
          else let* rest := check_explicit ({[ address ]} ∪ seen) raws in Ok (address :: rest)
      | Err _ => Err (usage (ErrText ("network " +:+ Quote raw +:+ " is not a valid IPv4 address")))
      end
  end.

Definition validateRequest (request : ListRequest) : result validatedRequest :=
  if lr_all request && negb (zlen (lr_explicitRaw request) =? 0)
  then Err (usage (ErrText "--all and explicit network selection are mutually exclusive"))
  else
    let* explicit := check_explicit ∅ (lr_explicitRaw request) in
    if match lr_probe request with Some endpoint => negb (endpoint_Valid endpoint) | None => false end
    then Err (usage (ErrText "probe endpoint is invalid"))
    else if match lr_measure request with Some settings => negb (settings_Valid settings) | None => false end
    then Err (usage (ErrText "measure window is invalid"))
    else Ok (MkValidated explicit (lr_all request) (lr_probe request) (lr_measure request)).

Definition NewListRequest (explicit : list string) (all : bool) (probeEndpoint : option ProbeEndpoint)
    (measureWindow : option Settings) : result ListRequest :=
  let request := MkListRequest explicit all probeEndpoint measureWindow in
  let* _ := validateRequest request in Ok request.

(** ** What is known of the host *)
Record localNetwork : Type := MkLocalNetwork {
  ln_localIP : Addr;
  ln_interfaceName : string;
  ln_interfaceIndex : Z;
  ln_included : bool;
  ln_exclusionReason : string
}.
Definition no_network : localNetwork := MkLocalNetwork AddrNone "" 0 false "".

Record resolvedNetwork : Type := MkResolved {
  rn_localIP : Addr;
  rn_interfaceName : string;
  rn_interfaceIndex : Z;
  rn_table : Z;
  rn_gateway : Addr;
  rn_hasGateway : bool;
  rn_runnable : bool;
  rn_reason : string
}.

Record capturedNetworks : Type := MkCaptured {
  cn_addresses : list localNetwork;
  cn_defaults : list localNetwork;
  cn_resolve : list Addr -> list resolvedNetwork
}.

Definition local_network (address : LocalAddress) : localNetwork :=
  MkLocalNetwork (la_ip address) (if_name (la_interface address)) (if_index (la_interface address))
    (IncludedByDefault address) (la_exclusionReason address).
Definition localNetworks (addresses : list LocalAddress) : list localNetwork := local_network <$> addresses.

Definition resolved_network (egress : Egress) : resolvedNetwork :=
  MkResolved (eg_localIP egress) (if_name (eg_interface egress)) (if_index (eg_interface egress)) (eg_table egress)
    (eg_gateway egress) (eg_hasGateway egress) (eg_runnable egress) (eg_reason egress).
Definition resolvedNetworks (egresses : list Egress) : list resolvedNetwork := resolved_network <$> egresses.

Definition captureSystemNetworks (captured : result Snapshot) : result capturedNetworks :=
  let* snapshot := captured in
  Ok (MkCaptured (localNetworks (LocalAddresses snapshot)) (localNetworks (DefaultCandidates snapshot))
        (fun sources => resolvedNetworks (Resolve snapshot sources))).

(** ** Selecting *)
Record selectedNetwork : Type := MkSelected { sl_address : localNetwork; sl_present : bool }.

Definition not_selected : selectedNetwork := MkSelected no_network false.

Definition excluded (reason : string) (address : localNetwork) : localNetwork :=
  MkLocalNetwork (ln_localIP address) (ln_interfaceName address) (ln_interfaceIndex address) false reason.

Definition mergeLocalNetwork (selected : selectedNetwork) (address : localNetwork) : selectedNetwork :=
  if negb (sl_present selected) then MkSelected address true
  else if negb (ln_included address)
  then MkSelected (excluded (ln_exclusionReason address) (sl_address selected)) true
  else selected.

Definition findLocalNetwork (addresses : list localNetwork) (source : Addr) : selectedNetwork :=
  foldl (fun selected address => if negb (bool_decide (ln_localIP address = source)) then selected
                                 else mergeLocalNetwork selected address) not_selected addresses.

(** The entry of an address is where it was first seen. *)
Fixpoint merge_into (selected : list selectedNetwork) (address : localNetwork) : list selectedNetwork :=
  match selected with
  | [] => [MkSelected address true]
  | s :: rest =>
      if bool_decide (ln_localIP (sl_address s) = ln_localIP address) then mergeLocalNetwork s address :: rest
      else s :: merge_into rest address
  end.
Definition selectUniqueLocalNetworks (addresses : list localNetwork) : list selectedNetwork := foldl merge_into [] addresses.

Definition with_localIP (source : Addr) (address : localNetwork) : localNetwork :=
  MkLocalNetwork source (ln_interfaceName address) (ln_interfaceIndex address) (ln_included address) (ln_exclusionReason address).

Definition select_explicit (addresses : list localNetwork) (source : Addr) : selectedNetwork :=
  let selected := findLocalNetwork addresses source in
  if sl_present selected then selected else MkSelected (with_localIP source (sl_address selected)) false.

Definition selectLocalNetworks (captured : capturedNetworks) (request : validatedRequest) : list selectedNetwork :=
  if negb (zlen (vr_explicit request) =? 0) then select_explicit (cn_addresses captured) <$> vr_explicit request
  else selectUniqueLocalNetworks (if vr_all request then cn_addresses captured else cn_defaults captured).

(** ** Rows *)
Record ProbeStatus : Type := MkProbeStatus {
  ps_attempted : bool;
  ps_publicIP : Addr;
  ps_asn : Z;
  ps_organization : string;
  ps_err : option error
}.
Definition probe_unattempted : ProbeStatus := MkProbeStatus false AddrNone 0 "" None.

(** [Mbps] is a float made from the bytes and the duration of the row. *)
Record MeasureStatus : Type := MkMeasureStatus {
  ms_attempted : bool;
  ms_bytes : Z;
  ms_duration : Z;
  ms_weight : Z;
  ms_err : option error
}.
Definition measure_unattempted : MeasureStatus := MkMeasureStatus false 0 0 0 None.

Record Row : Type := MkRow {
  row_localIP : Addr;
  row_interfaceName : string;
  row_interfaceIndex : Z;
  row_table : Z;
  row_gateway : Addr;
  row_hasGateway : bool;
  row_includedByDefault : bool;
  row_runnable : bool;
  row_localReason : string;
  row_probe : option ProbeStatus;
  row_measure : option MeasureStatus
}.

Definition local_reason (selected : selectedNetwork) (egress : resolvedNetwork) : option string :=
  if negb (sl_present selected) then Some (rn_reason egress)
  else if negb (ln_included (sl_address selected)) then Some (ln_exclusionReason (sl_address selected))
  else if negb (rn_runnable egress) then Some (rn_reason egress)
  else None.

Definition newRow (selected : selectedNetwork) (egress : resolvedNetwork) : Row :=
  let address := sl_address selected in
  let named := negb (bool_decide (rn_interfaceName egress = "")) in
  let reason := local_reason selected egress in
  MkRow (ln_localIP address)
    (if named then rn_interfaceName egress else ln_interfaceName address)
    (if named then rn_interfaceIndex egress else ln_interfaceIndex address)
    (rn_table egress) (rn_gateway egress) (rn_hasGateway egress)
    (sl_present selected && ln_included address)
    (match reason with None => true | Some _ => false end)
    (match reason with
     | None => ""
     | Some reason => if bool_decide (reason = "") then "selected network is not runnable" else reason
     end)
    None None.

Fixpoint check_selected (expected : gset Addr) (selected : list selectedNetwork) : result (gset Addr) :=
  match selected with
  | [] => Ok expected
  | s :: selected =>
      let localIP := ln_localIP (sl_address s) in
      if negb (Is4 localIP) then Err (ErrText "selected network has no local IPv4 identity")
      else if bool_decide (localIP ∈ expected) then Err (ErrText ("selected network repeats local IP " +:+ AddrString localIP))
      else check_selected ({[ localIP ]} ∪ expected) selected
  end.

Fixpoint index_resolved (expected : gset Addr) (byLocalIP : gmap Addr resolvedNetwork) (resolved : list resolvedNetwork)
    : result (gmap Addr resolvedNetwork) :=
  match resolved with
  | [] => Ok byLocalIP
  | egress :: resolved =>
      let localIP := rn_localIP egress in
      if negb (Is4 localIP) then Err (ErrText "network catalog returned an egress without local IPv4 identity")
      else if negb (bool_decide (localIP ∈ expected)) then Err (ErrText ("network catalog returned unknown egress " +:+ AddrString localIP))
      else if bool_decide (is_Some (byLocalIP !! localIP)) then Err (ErrText ("network catalog repeated egress " +:+ AddrString localIP))
      else index_resolved expected (<[ localIP := egress ]> byLocalIP) resolved
  end.

Definition row_of (byLocalIP : gmap Addr resolvedNetwork) (selected : selectedNetwork) : result Row :=
  match byLocalIP !! ln_localIP (sl_address selected) with
  | None => Err (ErrText ("network catalog omitted egress " +:+ AddrString (ln_localIP (sl_address selected))))
  | Some egress => Ok (newRow selected egress)
  end.

Definition rowsFromSelection (captured : capturedNetworks) (selected : list selectedNetwork) : result (list Row) :=
  let resolved := cn_resolve captured ((fun s => ln_localIP (sl_address s)) <$> selected) in
  if negb (zlen resolved =? zlen selected) then Err (ErrText "network catalog returned an incomplete egress set")
  else
    let* expected := check_selected ∅ selected in
    let* byLocalIP := index_resolved expected ∅ resolved in
    mmap (row_of byLocalIP) selected.

Definition runnableRows (rows : list Row) : list Row := filter (fun row => row_runnable row = true) rows.

Definition explicitSelectionFailed (request : validatedRequest) (rows : list Row) : bool :=
  if zlen (vr_explicit request) =? 0 then false else existsb (fun row => negb (row_runnable row)) rows.

Definition active_from (index : nat) (rows : list Row) : list nat :=
  mjoin (imap (fun i row => if row_runnable row then [(index + i)%nat] else []) rows).
Definition activeRows (rows : list Row) : list nat := active_from 0 rows.

Record ListResult : Type := MkListResult { res_rows : list Row; res_runtimeFailure : bool }.

(** ** Diagnostics *)
Record publicObservation : Type := MkPublic { po_publicIP : Addr; po_asn : Z; po_organization : string }.

Definition with_probe (status : ProbeStatus) (row : Row) : Row :=
  MkRow (row_localIP row) (row_interfaceName row) (row_interfaceIndex row) (row_table row) (row_gateway row)
    (row_hasGateway row) (row_includedByDefault row) (row_runnable row) (row_localReason row) (Some status) (row_measure row).
Definition with_measure (status : MeasureStatus) (row : Row) : Row :=
  MkRow (row_localIP row) (row_interfaceName row) (row_interfaceIndex row) (row_table row) (row_gateway row)
    (row_hasGateway row) (row_includedByDefault row) (row_runnable row) (row_localReason row) (row_probe row) (Some status).

(** A failed probe has an empty observation. *)
Definition probe_status (answer : result publicObservation) : ProbeStatus :=
  match answer with
  | Ok o => MkProbeStatus true (po_publicIP o) (po_asn o) (po_organization o) None
  | Err e => MkProbeStatus true AddrNone 0 "" (Some e)
  end.
Definition probe_failed (row : Row) : bool :=
  match row_probe row with Some status => bool_decide (is_Some (ps_err status)) | None => false end.

Definition failed_at (failed : Row -> bool) (rows : list Row) (active : list nat) : bool :=
  existsb (fun index => match rows !! index with Some row => failed row | None => false end) active.

Definition addProbeResults (probeSource : Addr -> ProbeEndpoint -> result publicObservation) (res : ListResult)
    (active : list nat) (endpoint : ProbeEndpoint) : ListResult :=
  let rows := with_probe probe_unattempted <$> res_rows res in
  if zlen active =? 0 then MkListResult rows (res_runtimeFailure res)
  else
    let rows := foldl (fun rows index =>
                  alter (fun row => with_probe (probe_status (probeSource (row_localIP row) endpoint)) row) index rows) rows active in
    MkListResult rows (res_runtimeFailure res || failed_at probe_failed rows active).

Record throughputObservation : Type := MkThroughput {
  to_localIP : Addr;
  to_bytes : Z;
  to_duration : Z;
  to_weight : Z;
  to_err : option error
}.

Definition set_weight (weight : Z) (o : throughputObservation) : throughputObservation :=
  MkThroughput (to_localIP o) (to_bytes o) (to_duration o) weight (to_err o).
Definition fail_unfailed (e : error) (o : throughputObservation) : throughputObservation :=
  match to_err o with
  | None => MkThroughput (to_localIP o) (to_bytes o) (to_duration o) (to_weight o) (Some (ErrWrap "normalize measure group" e))
  | Some _ => o
  end.

(** [indexes] of a repeated address is the last one; the zero index when there is none. *)
Definition observation_index (results : list Observation) (localIP : Addr) : nat :=
  default 0%nat (last (mjoin (imap (fun i o => if bool_decide (target_localIP (obs_target o) = localIP) then [i] else []) results))).

Definition observeThroughputs (results : list Observation) : list throughputObservation :=
  let observed := (fun o => MkThroughput (target_localIP (obs_target o)) (obs_bytes o) (obs_duration o) 0 (obs_err o)) <$> results in
  match RelativeWeights results true with
  | Err e => fail_unfailed e <$> observed
  | Ok weights =>
      foldl (fun observed weight =>
               alter (set_weight (relative_value weight)) (observation_index results (target_localIP (relative_target weight))) observed)
        observed weights
  end.

Fixpoint index_observed (expected : gset Addr) (byNetwork : gmap Addr throughputObservation) (observed : list throughputObservation)
    : result (gmap Addr throughputObservation) :=
  match observed with
  | [] => Ok byNetwork
  | value :: observed =>
      if negb (bool_decide (to_localIP value ∈ expected)) then Err (ErrText "measure result identifies an unknown network")
      else if bool_decide (is_Some (byNetwork !! to_localIP value)) then Err (ErrText "measure result repeats a network")
      else index_observed expected (<[ to_localIP value := value ]> byNetwork) observed
  end.

Definition measure_status (value : throughputObservation) : MeasureStatus :=
  MkMeasureStatus true (to_bytes value) (to_duration value) (to_weight value) (to_err value).
Definition measure_failed (row : Row) : bool :=
  match row_measure row with Some status => bool_decide (is_Some (ms_err status)) | None => false end.

Fixpoint place_measured (byNetwork : gmap Addr throughputObservation) (rows : list Row) (active : list nat) : result (list Row) :=
  match active with
  | [] => Ok rows
  | index :: active =>
      match rows !! index ≫= (fun row => byNetwork !! row_localIP row) with
      | None => Err (ErrText "measure result set is missing a network")
      | Some value => place_measured byNetwork (alter (with_measure (measure_status value)) index rows) active
      end
  end.

Definition target_at (rows : list Row) (index : nat) : result Target :=
  NewSourceBoundTarget (match rows !! index with Some row => row_localIP row | None => AddrNone end).

Definition addMeasureResults (measureGroup : list Target -> Settings -> list throughputObservation) (res : ListResult)
    (active : list nat) (window : Settings) : result ListResult :=
  let rows := with_measure measure_unattempted <$> res_rows res in
  if zlen active =? 0 then Ok (MkListResult rows (res_runtimeFailure res))
  else
    let* targets := mmap (target_at rows) active in
    let observed := measureGroup targets window in
    if negb (zlen observed =? zlen targets) then Err (ErrText "measure capability returned an incomplete result set")
    else
      let* byNetwork := index_observed (list_to_set (target_localIP <$> targets)) ∅ observed in
      let* rows := place_measured byNetwork rows active in
      Ok (MkListResult rows (res_runtimeFailure res || failed_at measure_failed rows active)).

(** ** A listing *)
Record Listing : Type := MkListing {
  capture : result capturedNetworks;
  probeSource : Addr -> ProbeEndpoint -> result publicObservation;
  measureGroup : list Target -> Settings -> list throughputObservation
}.

Definition list_Run (listing : Listing) (request : ListRequest) : result ListResult :=
  let* validated := validateRequest request in
  match capture listing with
  | Err e => Err (ErrWrap "capture local networks" e)
  | Ok captured =>
      let selected := selectLocalNetworks captured validated in
      let* rows := rowsFromSelection captured selected in
      let rows := if (zlen (vr_explicit validated) =? 0) && negb (vr_all validated) then runnableRows rows else rows in
      let res := MkListResult rows (explicitSelectionFailed validated rows) in
      let active := activeRows rows in
      let res := match vr_probe validated with
                 | Some endpoint => addProbeResults (probeSource listing) res active endpoint
                 | None => res
                 end in
      match vr_measure validated with
      | Some window => addMeasureResults (measureGroup listing) res active window
      | None => Ok res
      end
  end.

(** [New] over the answers of the kernel, of the probes and of the measurement. *)
Definition new_listing (captured : result Snapshot) (observe : Addr -> ProbeEndpoint -> result publicObservation)
    (tester : list Target -> Settings -> list Observation) : Listing :=
  MkListing (captureSystemNetworks captured) observe (fun targets settings => observeThroughputs (tester targets settings)).
End Listing.
