(* ===== verification/ListingProofs.v ===== *)
(** * What a listing shows

    The rows of a listing are the addresses asked for, each with the verdict of
    the catalog; diagnostics touch the runnable rows only. *)
From S2P Require Import Prelude Utf8 GoText Netip NetipText TransferNumber Sorting SourceTree Allocation Settings Weights Catalog CatalogProofs Resolve ResolveProofs Listing.

(** ** The egress of a source *)
Lemma lookupTable_localIP snapshot egress table : eg_localIP (lookupTable snapshot egress table).1 = eg_localIP egress.
Proof. unfold lookupTable, applyRoute, runnableRoute. repeat case_match; simplify_eq; done. Qed.

Lemma applyRule_localIP snapshot egress rule : eg_localIP (applyRule snapshot egress rule).1 = eg_localIP egress.
Proof. unfold applyRule. repeat case_match; try done. by rewrite lookupTable_localIP. Qed.

Lemma applicable_rules_localIP egress source rules e : applicable_rules egress source rules = inl e -> eg_localIP e = eg_localIP egress.
Proof.
  induction rules as [|rule rules IH]; cbn; [done|]. repeat case_match; intros; simplify_eq; try done; by apply IH.
Qed.

Lemma resolve_group_localIP snapshot egress source group :
  eg_localIP (resolve_group snapshot egress source group).1 = eg_localIP egress.
Proof.
  unfold resolve_group. destruct (applicable_rules egress source group) as [e|[|first rest]] eqn:E; [by apply applicable_rules_localIP in E|done|].
  destruct (equivalentRules first rest); [apply applyRule_localIP|done].
Qed.

Lemma resolve_rules_localIP fuel snapshot source : forall egress rules,
  eg_localIP (resolve_rules fuel snapshot egress source rules) = eg_localIP egress.
Proof.
  induction fuel as [|fuel IH]; intros egress [|first rules]; cbn [resolve_rules]; try done.
  destruct (priority_group (rule_priority first) (first :: rules)) as [group rest].
  pose proof (resolve_group_localIP snapshot egress source group) as Hg. destruct (resolve_group _ _ _ _) as [e []]; [done|]. by rewrite IH.
Qed.

Lemma resolveOne_localIP snapshot source : eg_localIP (resolveOne snapshot source) = source.
Proof.
  unfold resolveOne. destruct (negb (Is4 source)); [done|]. destruct (localAddress snapshot source) as [reason|[address diagnostics]]; [done|].
  destruct (negb _); [done|]. unfold resolveRules. by rewrite resolve_rules_localIP.
Qed.

(** ** Selecting *)
(** The first occurrence of each value, in order. *)
Definition uniques {A} `{EqDecision A} (l : list A) : list A :=
  foldl (fun seen x => if bool_decide (x ∈ seen) then seen else seen ++ [x]) [] l.

Lemma uniques_snoc {A} `{EqDecision A} (l : list A) x :
  uniques (l ++ [x]) = if bool_decide (x ∈ uniques l) then uniques l else uniques l ++ [x].
Proof. unfold uniques. by rewrite foldl_app. Qed.

Lemma uniques_elem {A} `{EqDecision A} (l : list A) x : x ∈ uniques l <-> x ∈ l.
Proof.
  induction l as [|y l IH] using rev_ind; [done|]. rewrite uniques_snoc. case_bool_decide as E; rewrite ?elem_of_app, ?IH.
  - split; [by left|]. intros [?|?%list_elem_of_singleton]; [done|subst]. by apply IH.
  - done.
Qed.

Lemma uniques_in {A} `{EqDecision A} (l : list A) x : x ∈ uniques l -> x ∈ l.
Proof. apply uniques_elem. Qed.

Lemma uniques_NoDup {A} `{EqDecision A} (l : list A) : NoDup (uniques l).
Proof.
  induction l as [|y l IH] using rev_ind; [constructor|]. rewrite uniques_snoc. case_bool_decide; [done|].
  apply NoDup_app. split_and!; [done| |apply NoDup_singleton]. intros z Hz ->%list_elem_of_singleton. done.
Qed.

Lemma uniques_id {A} `{EqDecision A} (l : list A) : NoDup l -> uniques l = l.
Proof.
  induction l as [|y l IH] using rev_ind; [done|]. intros Hnd. rewrite uniques_snoc.
  apply NoDup_app in Hnd as (H1 & H2 & _). rewrite IH by done. rewrite bool_decide_eq_false_2; [done|].
  intros Hy. apply (H2 y Hy). by apply list_elem_of_singleton.
Qed.

Lemma findLocalNetwork_snoc addresses a source :
  findLocalNetwork (addresses ++ [a]) source =
    if bool_decide (ln_localIP a = source) then mergeLocalNetwork (findLocalNetwork addresses source) a
    else findLocalNetwork addresses source.
Proof. unfold findLocalNetwork. rewrite foldl_app. cbn. by case_bool_decide. Qed.

(** The occurrences of an address. *)
Definition occurrences (source : Addr) (addresses : list localNetwork) : list localNetwork :=
  filter (fun a => ln_localIP a = source) addresses.

Definition reasons_given (addresses : list localNetwork) : Prop :=
  Forall (fun a => ln_included a = false -> ln_exclusionReason a <> "") addresses.

Lemma findLocalNetwork_spec addresses source :
  let found := findLocalNetwork addresses source in
  sl_present found = negb (bool_decide (occurrences source addresses = []))
  /\ (sl_present found = true -> ln_localIP (sl_address found) = source)
  /\ (sl_present found = true -> ln_included (sl_address found) = forallb ln_included (occurrences source addresses))
  /\ (reasons_given addresses -> sl_present found = true -> ln_included (sl_address found) = false ->
        ln_exclusionReason (sl_address found) <> "").
Proof.
  cbn. unfold occurrences, reasons_given. induction addresses as [|a addresses (IHp & IHip & IHi & IHr)] using rev_ind; [done|].
  rewrite findLocalNetwork_snoc, filter_app, Forall_app, Forall_singleton.
  destruct (decide (ln_localIP a = source)) as [E|E].
  - rewrite bool_decide_eq_true_2, filter_cons_True by done. cbn. rewrite forallb_app. cbn. rewrite andb_true_r.
    rewrite (bool_decide_eq_false_2 (_ ++ _ = [])) by (by destruct (filter _ addresses)). unfold mergeLocalNetwork.
    destruct (sl_present (findLocalNetwork addresses source)) eqn:Ep; cbn [negb].
    + destruct (ln_included a) eqn:Ea; cbn.
      * rewrite Ep, andb_true_r. split_and!; [done|by intros; apply IHip|by intros; apply IHi|by intros [? ?] ? ?; apply IHr].
      * rewrite andb_false_r. split_and!; [done|by intros; apply IHip|done|]. by intros [_ Hr] _ _; apply Hr.
    + cbn. symmetry in IHp. apply negb_false_iff, bool_decide_eq_true in IHp. rewrite IHp. cbn. split_and!; [done..|]. by intros [_ Hr] _; apply Hr.
  - rewrite bool_decide_eq_false_2, filter_cons_False, filter_nil, app_nil_r by done. split_and!; [done..|]. by intros [? _]; apply IHr.
Qed.

Lemma find_present addresses source :
  sl_present (findLocalNetwork addresses source) = true <-> source ∈ ln_localIP <$> addresses.
Proof.
  destruct (findLocalNetwork_spec addresses source) as (-> & _). rewrite negb_true_iff, bool_decide_eq_false. unfold occurrences.
  rewrite list_elem_of_fmap. split.
  - intros Hne. destruct (filter _ addresses) as [|a l] eqn:E; [done|]. assert (Ha : a ∈ a :: l) by left.
    rewrite <- E in Ha. apply list_elem_of_filter in Ha as [<- ?]. by exists a.
  - intros (a & -> & Ha) E. assert (Hx : a ∈ filter (fun b => ln_localIP b = ln_localIP a) addresses) by (by apply list_elem_of_filter).
    rewrite E in Hx. by apply not_elem_of_nil in Hx.
Qed.

Lemma merge_into_absent selected a :
  ln_localIP a ∉ (fun s => ln_localIP (sl_address s)) <$> selected -> merge_into selected a = selected ++ [MkSelected a true].
Proof.
  induction selected as [|s selected IH]; [done|]. rewrite fmap_cons, not_elem_of_cons. intros [Hne Hn]. cbn.
  rewrite bool_decide_eq_false_2 by congruence. by rewrite IH.
Qed.

Lemma selectUnique_spec addresses :
  selectUniqueLocalNetworks addresses = findLocalNetwork addresses <$> uniques (ln_localIP <$> addresses).
Proof.
  induction addresses as [|a addresses IH] using rev_ind; [done|]. unfold selectUniqueLocalNetworks in *.
  rewrite foldl_app, IH, fmap_app. cbn [foldl fmap list_fmap]. rewrite uniques_snoc.
  set (ips := uniques (ln_localIP <$> addresses)).
  assert (Hips : forall ip, ip ∈ ips -> ln_localIP (sl_address (findLocalNetwork addresses ip)) = ip).
  { intros ip Hip. apply (uniques_elem (ln_localIP <$> addresses)) in Hip. destruct (findLocalNetwork_spec addresses ip) as (_ & H & _). apply H. by apply find_present. }
  assert (Hfmap : (fun s => ln_localIP (sl_address s)) <$> (findLocalNetwork addresses <$> ips) = ips).
  { clearbody ips. rewrite <- list_fmap_compose. induction ips as [|ip ips IHi]; [done|]. rewrite fmap_cons. f_equal; [apply Hips; left|].
    apply IHi. intros x Hx. apply Hips. by right. }
  case_bool_decide as Hin.
  - pose proof (uniques_NoDup (ln_localIP <$> addresses)) as Hnd. fold ips in Hnd. clear Hfmap. clearbody ips.
    induction ips as [|ip ips IHi]; [by apply not_elem_of_nil in Hin|]. cbn. rewrite findLocalNetwork_snoc.
    apply NoDup_cons in Hnd as [Hip Hnd]. rewrite Hips by left. destruct (decide (ip = ln_localIP a)) as [->|Hne].
    + rewrite !bool_decide_eq_true_2 by done. f_equal. apply list_fmap_ext. intros i x Hx. rewrite findLocalNetwork_snoc.
      rewrite bool_decide_eq_false_2; [done|]. intros <-. apply Hip. by eapply list_elem_of_lookup_2.
    + rewrite !bool_decide_eq_false_2 by congruence. f_equal. apply IHi; [|set_solver|done]. intros x Hx. apply Hips. by right.
  - rewrite merge_into_absent by (by rewrite Hfmap). rewrite fmap_app. f_equal.
    + apply list_fmap_ext. intros i x Hx. rewrite findLocalNetwork_snoc. rewrite bool_decide_eq_false_2; [done|].
      intros <-. apply Hin. by eapply list_elem_of_lookup_2.
    + cbn. rewrite findLocalNetwork_snoc, bool_decide_eq_true_2 by done. unfold mergeLocalNetwork.
      destruct (sl_present (findLocalNetwork addresses (ln_localIP a))) eqn:E; [|done].
      apply find_present in E. exfalso. by apply Hin, (uniques_elem (ln_localIP <$> addresses)).
Qed.

(** ** Rows *)
Definition ip_of (s : selectedNetwork) : Addr := ln_localIP (sl_address s).

Lemma check_selected_ok selected : forall expected,
  Forall (fun s => Is4 (ip_of s) = true) selected -> NoDup (ip_of <$> selected) ->
  (forall s, s ∈ selected -> ip_of s ∉ expected) ->
  exists all, check_selected expected selected = Ok all /\ forall ip, ip ∈ ip_of <$> selected -> ip ∈ all.
Proof.
  assert (Hmono : forall selected expected all, check_selected expected selected = Ok all -> expected ⊆ all).
  { clear. intros selected. induction selected as [|s selected IH]; intros expected all; cbn [check_selected].
    - by intros ->%Ok_inj.
    - intros E. ok_branches E. apply IH in E. set_solver. }
  induction selected as [|s selected IH]; intros expected H4 Hnd Hfresh; cbn [check_selected].
  - exists expected. split; [done|]. by intros ip ?%not_elem_of_nil.
  - apply Forall_cons in H4 as [H4 H4s]. apply NoDup_cons in Hnd as [Hs Hnd]. fold (ip_of s). rewrite H4. cbn [negb].
    rewrite bool_decide_eq_false_2 by (apply Hfresh; left). destruct (IH ({[ ip_of s ]} ∪ expected)) as (all & E & Hall); [done..| |].
    + intros s' Hs'. rewrite not_elem_of_union, not_elem_of_singleton. split; [|apply Hfresh; by right].
      intros E. apply Hs. apply list_elem_of_fmap. by exists s'.
    + exists all. split; [done|]. intros ip [->|Hip]%elem_of_cons; [|by apply Hall]. apply Hmono in E. set_solver.
Qed.

Lemma index_resolved_ok {A} (f : A -> resolvedNetwork) (expected : gset Addr) xs : forall m,
  Forall (fun x => Is4 (rn_localIP (f x)) = true /\ rn_localIP (f x) ∈ expected) xs -> NoDup ((fun x => rn_localIP (f x)) <$> xs) ->
  (forall x, x ∈ xs -> m !! rn_localIP (f x) = None) ->
  exists byLocalIP, index_resolved expected m (f <$> xs) = Ok byLocalIP
    /\ (forall x, x ∈ xs -> byLocalIP !! rn_localIP (f x) = Some (f x))
    /\ (forall ip, ip ∉ (fun x => rn_localIP (f x)) <$> xs -> byLocalIP !! ip = m !! ip).
Proof.
  induction xs as [|x xs IH]; intros m Hok Hnd Hfresh; cbn [fmap list_fmap index_resolved].
  { exists m. split_and!; [done| |done]. by intros x ?%not_elem_of_nil. }
  apply Forall_cons in Hok as [[H4 Hin] Hok]. apply NoDup_cons in Hnd as [Hx Hnd]. rewrite H4. cbn [negb].
  rewrite bool_decide_eq_true_2 by done. cbn [negb]. rewrite bool_decide_eq_false_2 by (rewrite (Hfresh x) by left; by intros [? ?]).
  destruct (IH (<[ rn_localIP (f x) := f x ]> m)) as (m' & E & Hm & Hrest); [done..| |].
  { intros y Hy. rewrite lookup_insert_ne; [apply Hfresh; by right|]. intros Ey. apply Hx. rewrite Ey. apply list_elem_of_fmap. by exists y. }
  exists m'. split; [done|]. split.
  - intros y [->|Hy]%elem_of_cons; [|by apply Hm]. rewrite Hrest by done. by rewrite lookup_insert_eq.
  - intros ip [Hip Hips]%not_elem_of_cons. rewrite Hrest by done. by rewrite lookup_insert_ne.
Qed.

Definition catalog_row (snapshot : Snapshot) (s : selectedNetwork) : Row :=
  newRow s (resolved_network (resolveOne snapshot (ip_of s))).

Definition captured_of (snapshot : Snapshot) : capturedNetworks :=
  MkCaptured (localNetworks (LocalAddresses snapshot)) (localNetworks (DefaultCandidates snapshot))
    (fun sources => resolvedNetworks (Resolve snapshot sources)).

Lemma rowsFromSelection_ok snapshot selected :
  Forall (fun s => Is4 (ip_of s) = true) selected -> NoDup (ip_of <$> selected) ->
  rowsFromSelection (captured_of snapshot) selected = Ok (catalog_row snapshot <$> selected).
Proof.
  intros H4 Hnd. unfold rowsFromSelection, captured_of, resolvedNetworks, Resolve. cbn [cn_resolve].
  rewrite <- list_fmap_compose. set (f := fun ip => resolved_network (resolveOne snapshot ip)).
  assert (Hf : forall ip, rn_localIP (f ip) = ip) by (intros ip; apply resolveOne_localIP).
  change (compose resolved_network (resolveOne snapshot)) with f. change (fun s => ln_localIP (sl_address s)) with ip_of.
  unfold zlen. rewrite !length_fmap, Z.eqb_refl. cbn [negb].
  destruct (check_selected_ok selected ∅ H4 Hnd) as (all & -> & Hall); [intros; apply not_elem_of_empty|]. cbn [rbind].
  destruct (index_resolved_ok f all (ip_of <$> selected) ∅) as (m & -> & Hm & _).
  - rewrite Forall_fmap. apply Forall_forall. intros s Hs. unfold compose. rewrite Hf. split; [by rewrite Forall_forall in H4; apply H4|].
    apply Hall, list_elem_of_fmap. by exists s.
  - assert ((fun x => rn_localIP (f x)) <$> (ip_of <$> selected) = ip_of <$> selected) as ->; [|done].
    rewrite <- (list_fmap_id (ip_of <$> selected)) at 2. apply list_fmap_ext. intros i ip _. apply Hf.
  - intros; apply lookup_empty.
  - cbn [rbind]. apply mmap_Ok, Forall2_fmap_r, Forall2_same_length_lookup_2; [done|].
    intros i s s' Hs Hs'. assert (s' = s) as -> by congruence. unfold row_of. fold (ip_of s). 
    pose proof (Hm (ip_of s)) as E. rewrite Hf in E. rewrite E; [done|]. apply list_elem_of_fmap. exists s. split; [done|].
    by eapply list_elem_of_lookup_2.
Qed.

(** ** The row of a source *)
Definition usable_here (snapshot : Snapshot) (source : Addr) : Prop :=
  (exists a, a ∈ LocalAddresses snapshot /\ la_ip a = source)
  /\ forall a, a ∈ LocalAddresses snapshot -> la_ip a = source -> la_exclusionReason a = "".

Record row_facts (snapshot : Snapshot) (source : Addr) (row : Row) : Prop := {
  rf_ip : row_localIP row = source;
  rf_runnable : row_runnable row = true <-> usable_here snapshot source /\ eg_runnable (resolveOne snapshot source) = true;
  rf_reason : row_runnable row = true <-> row_localReason row = "";
  rf_table : row_table row = eg_table (resolveOne snapshot source);
  rf_gateway : row_gateway row = eg_gateway (resolveOne snapshot source);
  rf_hasGateway : row_hasGateway row = eg_hasGateway (resolveOne snapshot source)
}.

Lemma ip_of_explicit addresses source : ip_of (select_explicit addresses source) = source.
Proof.
  unfold select_explicit, ip_of. destruct (findLocalNetwork_spec addresses source) as (_ & Hip & _).
  destruct (sl_present _); [by apply Hip|done].
Qed.

Lemma catalog_row_reason snapshot s : row_runnable (catalog_row snapshot s) = true <-> row_localReason (catalog_row snapshot s) = "".
Proof.
  unfold catalog_row, newRow. cbn. destruct (local_reason _ _) as [reason|]; [|done]. split; [done|].
  by case_bool_decide.
Qed.

Lemma catalog_row_runnable snapshot s :
  row_runnable (catalog_row snapshot s) = true <->
  sl_present s = true /\ ln_included (sl_address s) = true /\ eg_runnable (resolveOne snapshot (ip_of s)) = true.
Proof.
  unfold catalog_row, newRow, local_reason. cbn. destruct (sl_present s), (ln_included (sl_address s)), (eg_runnable _); cbn; naive_solver.
Qed.

Lemma catalog_row_facts snapshot source addresses :
  (sl_present (findLocalNetwork addresses source) = true /\ ln_included (sl_address (findLocalNetwork addresses source)) = true
   <-> usable_here snapshot source) ->
  row_facts snapshot source (catalog_row snapshot (select_explicit addresses source)).
Proof.
  intros Hx. pose proof (ip_of_explicit addresses source) as Hip.
  pose proof (catalog_row_runnable snapshot (select_explicit addresses source)) as Hr.
  pose proof (catalog_row_reason snapshot (select_explicit addresses source)) as Hreason.
  assert (Hs : sl_present (select_explicit addresses source) = true /\ ln_included (sl_address (select_explicit addresses source)) = true
               <-> usable_here snapshot source).
  { rewrite <- Hx. unfold select_explicit. destruct (sl_present (findLocalNetwork addresses source)) eqn:E; [by rewrite E|].
    split; intros [? _]; done. }
  rewrite Hip in Hr. split; try done; [by rewrite Hr, <- Hs, assoc by apply _|..];
    unfold catalog_row; by rewrite Hip.
Qed.

Lemma usable_all snapshot source :
  let found := findLocalNetwork (localNetworks (LocalAddresses snapshot)) source in
  sl_present found = true /\ ln_included (sl_address found) = true <-> usable_here snapshot source.
Proof.
  cbn. set (addresses := localNetworks (LocalAddresses snapshot)). destruct (findLocalNetwork_spec addresses source) as (_ & _ & Hi & _).
  assert (Hfmap : ln_localIP <$> addresses = la_ip <$> LocalAddresses snapshot) by (unfold addresses, localNetworks; by rewrite <- list_fmap_compose).
  assert (Hall : forallb ln_included (occurrences source addresses) = true <->
                 forall a, a ∈ LocalAddresses snapshot -> la_ip a = source -> la_exclusionReason a = "").
  { rewrite forallb_forall. setoid_rewrite <- list_elem_of_In. unfold occurrences. split.
    - intros H a Ha Hip. assert (Hl : local_network a ∈ filter (fun b => ln_localIP b = source) addresses).
      { apply list_elem_of_filter. split; [done|]. by apply list_elem_of_fmap_2. }
      specialize (H _ Hl). by apply bool_decide_eq_true in H.
    - intros H l [Hip (a & -> & Ha)%list_elem_of_fmap]%list_elem_of_filter. apply bool_decide_eq_true. by apply H. }
  assert (Hpres : sl_present (findLocalNetwork addresses source) = true <-> exists a, a ∈ LocalAddresses snapshot /\ la_ip a = source).
  { rewrite find_present, Hfmap, list_elem_of_fmap. naive_solver. }
  unfold usable_here. rewrite <- Hpres, <- Hall. split.
  - intros [Hp Hinc]. split; [done|]. by rewrite <- Hi.
  - intros [Hp Hinc]. split; [done|]. by rewrite Hi.
Qed.

(** ** Diagnostics *)
Lemma foldl_alter_lookup {A} (f : A -> A) (active : list nat) : forall (rows : list A) i,
  NoDup active ->
  foldl (fun rows j => alter f j rows) rows active !! i = if bool_decide (i ∈ active) then f <$> rows !! i else rows !! i.
Proof.
  induction active as [|j active IH]; intros rows i Hnd; cbn [foldl].
  { rewrite bool_decide_eq_false_2; [done|apply not_elem_of_nil]. }
  apply NoDup_cons in Hnd as [Hj Hnd]. rewrite IH by done. destruct (decide (i = j)) as [->|Hne].
  - rewrite (bool_decide_eq_false_2 (j ∈ active)) by done. rewrite bool_decide_eq_true_2 by left. apply list_lookup_alter_eq.
  - rewrite list_lookup_alter_ne by done. rewrite (bool_decide_ext (i ∈ j :: active) (i ∈ active)); [done|]. rewrite elem_of_cons. clear -Hne. naive_solver.
Qed.

Lemma active_from_spec rows : forall k i,
  i ∈ active_from k rows <-> exists row, (k <= i)%nat /\ rows !! (i - k)%nat = Some row /\ row_runnable row = true.
Proof.
  unfold active_from. induction rows as [|row rows IH]; intros k i; cbn.
  { split; [by intros ?%not_elem_of_nil|]. by intros (? & _ & ? & _). }
  rewrite elem_of_app. assert (E : imap ((fun (i : nat) (row : Row) => if row_runnable row then [(k + i)%nat] else []) ∘ S) rows
    = imap (fun (i : nat) (row : Row) => if row_runnable row then [(S k + i)%nat] else []) rows).
  { apply imap_ext. intros j row' _. cbn. by replace (k + S j)%nat with (S (k + j)) by lia. }
  rewrite E, IH. split.
  - intros [Hi|(row' & Hk & Hl & Hr)].
    + destruct (row_runnable row) eqn:Er; [|by apply not_elem_of_nil in Hi]. apply list_elem_of_singleton in Hi as ->.
      exists row. split; [lia|]. by replace (k + 0 - k)%nat with 0%nat by lia.
    + exists row'. split; [lia|]. by replace (i - k)%nat with (S (i - S k)) by lia.
  - intros (row' & Hk & Hl & Hr). destruct (i - k)%nat as [|n] eqn:En; cbn in Hl.
    + simplify_eq. left. rewrite Hr. apply list_elem_of_singleton. lia.
    + right. exists row'. split; [lia|]. by replace (i - S k)%nat with n by lia.
Qed.

Lemma active_spec rows i : i ∈ activeRows rows <-> exists row, rows !! i = Some row /\ row_runnable row = true.
Proof. unfold activeRows. rewrite active_from_spec. replace (i - 0)%nat with i by lia. naive_solver lia. Qed.

Lemma active_from_NoDup rows : forall k, NoDup (active_from k rows).
Proof.
  induction rows as [|row rows IH]; intros k; [constructor|]. unfold active_from. cbn.
  assert (E : imap ((fun (i : nat) (row : Row) => if row_runnable row then [(k + i)%nat] else []) ∘ S) rows
    = imap (fun (i : nat) (row : Row) => if row_runnable row then [(S k + i)%nat] else []) rows).
  { apply imap_ext. intros j row' _. cbn. by replace (k + S j)%nat with (S (k + j)) by lia. }
  rewrite E. apply NoDup_app. split_and!.
  - destruct (row_runnable row); [apply NoDup_singleton|constructor].
  - intros x Hx Hin. apply active_from_spec in Hin as (? & ? & _). destruct (row_runnable row); [|by apply not_elem_of_nil in Hx].
    apply list_elem_of_singleton in Hx. lia.
  - apply IH.
Qed.

(** Altering the active rows changes the runnable ones. *)
Lemma alter_active (f g : Row -> Row) rows :
  (forall row, row_runnable (g row) = row_runnable row) ->
  foldl (fun rows j => alter f j rows) (g <$> rows) (activeRows rows) = (fun row => if row_runnable row then f (g row) else g row) <$> rows.
Proof.
  intros Hg. apply list_eq. intros i. rewrite foldl_alter_lookup by apply active_from_NoDup. rewrite !list_lookup_fmap.
  destruct (rows !! i) as [row|] eqn:E; cbn; [|by case_bool_decide]. case_bool_decide as Hi.
  - apply active_spec in Hi as (row' & Hrow & Hr). simplify_eq. by rewrite Hr.
  - destruct (row_runnable row) eqn:Er; [|done]. destruct Hi. apply active_spec. eauto.
Qed.

Lemma failed_at_spec (failed : Row -> bool) rows active :
  (forall i row, rows !! i = Some row -> failed row = true -> i ∈ active) ->
  failed_at failed rows active = true <-> exists row, row ∈ rows /\ failed row = true.
Proof.
  intros Hin. unfold failed_at. rewrite existsb_exists. split.
  - intros (i & _ & Hi). destruct (rows !! i) as [row|] eqn:E; [|done]. exists row. split; [by eapply list_elem_of_lookup_2|done].
  - intros (row & (i & Hi)%list_elem_of_lookup & Hf). exists i. rewrite Hi. split; [|done]. apply list_elem_of_In. by eapply Hin.
Qed.

Section Diagnostics.
Context `{URLs}.

Definition probed (observe : Addr -> ProbeEndpoint -> result publicObservation) (endpoint : ProbeEndpoint) (row : Row) : Row :=
  with_probe (if row_runnable row then probe_status (observe (row_localIP row) endpoint) else probe_unattempted) row.

Lemma addProbeResults_spec observe res endpoint :
  let res' := addProbeResults observe res (activeRows (res_rows res)) endpoint in
  res_rows res' = probed observe endpoint <$> res_rows res
  /\ (res_runtimeFailure res' = true <-> res_runtimeFailure res = true \/ exists row, row ∈ res_rows res' /\ probe_failed row = true).
Proof.
  cbn. unfold addProbeResults. set (rows := res_rows res).
  assert (Hrows : foldl (fun rows index => alter (fun row => with_probe (probe_status (observe (row_localIP row) endpoint)) row) index rows)
     (with_probe probe_unattempted <$> rows) (activeRows rows) = probed observe endpoint <$> rows).
  { rewrite alter_active by done. apply list_fmap_ext. intros i row _. unfold probed. by destruct (row_runnable row). }
  destruct (zlen (activeRows rows) =? 0) eqn:Ez; cbn [res_rows res_runtimeFailure].
  - rewrite zlen_zero in Ez. apply bool_decide_eq_true in Ez. rewrite Ez in Hrows. cbn in Hrows. rewrite Hrows. split; [done|].
    split; [by left|]. intros [?|(row & Hrow & Hf)]; [done|]. rewrite <- Hrows in Hrow. by apply list_elem_of_fmap in Hrow as (r & -> & _).
  - rewrite Hrows. split; [done|]. rewrite orb_true_iff, failed_at_spec; [done|].
    intros i row Hi Hf. rewrite list_lookup_fmap in Hi. apply fmap_Some in Hi as (r & Hr & ->). apply active_spec. exists r. split; [done|].
    unfold probed in Hf. by destruct (row_runnable r).
Qed.

(** A row with its measurement: what was observed when it is runnable. *)
Definition measured (observed : list throughputObservation) (row row' : Row) : Prop :=
  if row_runnable row
  then exists value, value ∈ observed /\ to_localIP value = row_localIP row /\ row' = with_measure (measure_status value) row
  else row' = with_measure measure_unattempted row.

Lemma index_observed_spec expected observed : forall m m', index_observed expected m observed = Ok m' ->
  forall ip value, m' !! ip = Some value -> m !! ip = Some value \/ value ∈ observed /\ to_localIP value = ip.
Proof.
  induction observed as [|o observed IH]; intros m m'; cbn [index_observed]; [intros ->%Ok_inj; by left|].
  destruct (negb _); [done|]. destruct (bool_decide _); [done|]. intros E ip value Hv.
  apply (IH _ _ E) in Hv as [Hv|[? ?]]; [|right; split; [by right|done]].
  apply lookup_insert_Some in Hv as [[<- <-]|[_ ?]]; [right; split; [left|done]|by left].
Qed.

Lemma index_observed_ok expected observed : forall m,
  Forall (fun o => to_localIP o ∈ expected) observed -> NoDup (to_localIP <$> observed) ->
  (forall o, o ∈ observed -> m !! to_localIP o = None) ->
  exists m', index_observed expected m observed = Ok m' /\
    forall ip, is_Some (m !! ip) \/ ip ∈ to_localIP <$> observed -> is_Some (m' !! ip).
Proof.
  induction observed as [|o observed IH]; intros m Hin Hnd Hfresh; cbn [index_observed].
  { exists m. split; [done|]. by intros ip [?|?%not_elem_of_nil]. }
  apply Forall_cons in Hin as [Ho Hin]. apply NoDup_cons in Hnd as [Hx Hnd].
  rewrite bool_decide_eq_true_2 by done. cbn [negb]. rewrite bool_decide_eq_false_2 by (rewrite (Hfresh o) by left; by intros [? ?]).
  destruct (IH (<[ to_localIP o := o ]> m)) as (m' & E & Hm); [done..| |].
  { intros y Hy. rewrite lookup_insert_ne; [apply Hfresh; by right|]. intros Ey. apply Hx. rewrite Ey. by apply list_elem_of_fmap_2. }
  exists m'. split; [done|]. intros ip Hip. apply Hm. destruct (decide (ip = to_localIP o)) as [->|Hne].
  - left. rewrite lookup_insert_eq. eauto.
  - rewrite lookup_insert_ne by done. destruct Hip as [?|[->|?]%elem_of_cons]; [by left|done|by right].
Qed.

Lemma place_measured_spec m active : forall rows rows',
  NoDup active -> place_measured m rows active = Ok rows' ->
  forall i, rows' !! i = if bool_decide (i ∈ active)
                         then row ← rows !! i; value ← m !! row_localIP row; Some (with_measure (measure_status value) row)
                         else rows !! i.
Proof.
  induction active as [|j active IH]; intros rows rows' Hnd; cbn [place_measured].
  { intros ->%Ok_inj i. rewrite bool_decide_eq_false_2; [done|apply not_elem_of_nil]. }
  apply NoDup_cons in Hnd as [Hj Hnd]. destruct (rows !! j ≫= _) as [value|] eqn:Ev; [|done]. intros E i.
  rewrite (IH _ _ Hnd E i). apply bind_Some in Ev as (row & Hrow & Hv). destruct (decide (i = j)) as [->|Hne].
  - rewrite (bool_decide_eq_false_2 (j ∈ active)) by done. rewrite bool_decide_eq_true_2 by left.
    rewrite list_lookup_alter_eq, Hrow. cbn. by rewrite Hv.
  - rewrite list_lookup_alter_ne by done. rewrite (bool_decide_ext (i ∈ j :: active) (i ∈ active)); [done|]. rewrite elem_of_cons. clear -Hne. naive_solver.
Qed.

Lemma place_measured_length m active : forall rows rows', place_measured m rows active = Ok rows' -> length rows' = length rows.
Proof.
  induction active as [|j active IH]; intros rows rows'; cbn [place_measured]; [by intros ->%Ok_inj|].
  destruct (_ ≫= _); [|done]. intros E. rewrite (IH _ _ E). apply length_alter.
Qed.

Lemma place_measured_ok m active : forall rows,
  NoDup active -> (forall i, i ∈ active -> exists row, rows !! i = Some row /\ is_Some (m !! row_localIP row)) ->
  exists rows', place_measured m rows active = Ok rows'.
Proof.
  induction active as [|j active IH]; intros rows Hnd Hrows; cbn [place_measured]; [eauto|].
  apply NoDup_cons in Hnd as [Hj Hnd]. destruct (Hrows j) as (row & Hrow & value & Hv); [left|]. rewrite Hrow. cbn. rewrite Hv.
  apply IH; [done|]. intros i Hi. rewrite list_lookup_alter_ne by (by intros ->). apply Hrows. by right.
Qed.

(** The targets of the runnable rows. *)
Definition row_targets (rows : list Row) : list Target := (fun row => MkTarget (row_localIP row) number_zero) <$> runnableRows rows.

Lemma targets_of_active rows : forall k (all : list Row),
  Forall (fun row => Is4 (row_localIP row) = true) rows -> (forall i, rows !! i = all !! (k + i)%nat) ->
  mmap (target_at (with_measure measure_unattempted <$> all)) (active_from k rows) = Ok (row_targets rows).
Proof.
  induction rows as [|row rows IH]; intros k all H4 Hall; [done|]. apply Forall_cons in H4 as [Hr H4].
  assert (Hk : all !! k = Some row) by (by rewrite <- (Hall 0%nat), Nat.add_0_r || (specialize (Hall 0%nat); by rewrite Nat.add_0_r in Hall)).
  assert (IH' : mmap (target_at (with_measure measure_unattempted <$> all)) (active_from (S k) rows) = Ok (row_targets rows)).
  { apply IH; [done|]. intros i. specialize (Hall (S i)). cbn in Hall. by replace (S k + i)%nat with (k + S i)%nat by lia. }
  assert (E : active_from k (row :: rows) = (if row_runnable row then [k] else []) ++ active_from (S k) rows).
  { unfold active_from. cbn. rewrite Nat.add_0_r. f_equal. f_equal. apply imap_ext. intros j row' _. cbn. by rewrite Nat.add_succ_r. }
  rewrite E. unfold row_targets, runnableRows. destruct (row_runnable row) eqn:Er.
  - rewrite filter_cons_True by done. cbn. unfold target_at at 1. rewrite list_lookup_fmap, Hk. cbn. unfold NewSourceBoundTarget. rewrite Hr. cbn.
    unfold row_targets, runnableRows in IH'. by rewrite IH'.
  - rewrite filter_cons_False by (by rewrite Er). exact IH'.
Qed.

Lemma addMeasureResults_spec group res window :
  let rows := res_rows res in
  let observed := group (row_targets rows) window in
  Forall (fun row => Is4 (row_localIP row) = true) rows -> NoDup (row_localIP <$> rows) ->
  to_localIP <$> observed ≡ₚ row_localIP <$> runnableRows rows ->
  exists res', addMeasureResults group res (activeRows rows) window = Ok res'
  /\ Forall2 (measured observed) rows (res_rows res')
  /\ (res_runtimeFailure res' = true <-> res_runtimeFailure res = true \/ exists row, row ∈ res_rows res' /\ measure_failed row = true).
Proof.
  intros rows observed H4 Hnd Hobs. unfold addMeasureResults. fold rows. destruct (zlen (activeRows rows) =? 0) eqn:Ez.
  - eexists. split; [done|]. cbn [res_rows res_runtimeFailure]. rewrite zlen_zero in Ez. apply bool_decide_eq_true in Ez. split.
    + apply Forall2_fmap_r, Forall_Forall2_diag, Forall_forall. intros row Hrow. unfold measured.
      destruct (row_runnable row) eqn:Er; [|done]. apply list_elem_of_lookup in Hrow as [i Hi].
      assert (Hx : i ∈ activeRows rows) by (apply active_spec; eauto). rewrite Ez in Hx. by apply not_elem_of_nil in Hx.
    + split; [by left|]. intros [?|(row & Hrow & Hf)]; [done|]. by apply list_elem_of_fmap in Hrow as (r & -> & _).
  - unfold activeRows at 1. rewrite (targets_of_active rows 0 rows) by done. cbn [rbind]. fold observed.
    assert (Hlen : zlen observed = zlen (row_targets rows)).
    { unfold zlen, row_targets. rewrite length_fmap. apply Permutation_length in Hobs. rewrite !length_fmap in Hobs. by rewrite Hobs. }
    rewrite Hlen, Z.eqb_refl. cbn [negb].
    assert (Hnd' : NoDup (row_localIP <$> runnableRows rows)).
    { unfold runnableRows. eapply sublist_NoDup; [exact Hnd|]. apply fmap_sublist, sublist_filter. }
    destruct (index_observed_ok (list_to_set (target_localIP <$> row_targets rows)) observed ∅) as (m & Em & Hm).
    { apply Forall_forall. intros o Ho. apply elem_of_list_to_set. unfold row_targets. rewrite <- list_fmap_compose. cbn.
      change (compose target_localIP _) with row_localIP. rewrite <- Hobs. by apply list_elem_of_fmap_2. }
    { by rewrite Hobs. }
    { intros; apply lookup_empty. }
    rewrite Em. cbn [rbind].
    destruct (place_measured_ok m (activeRows rows) (with_measure measure_unattempted <$> rows)) as (rows' & E); [apply active_from_NoDup| |].
    { intros i Hi. apply active_spec in Hi as (row & Hrow & Hr). exists (with_measure measure_unattempted row).
      rewrite list_lookup_fmap, Hrow. split; [done|]. apply Hm. right. rewrite Hobs. cbn. apply list_elem_of_fmap_2, list_elem_of_filter.
      split; [done|]. by eapply list_elem_of_lookup_2. }
    rewrite E. cbn [rbind]. eexists. split; [done|]. cbn [res_rows res_runtimeFailure].
    pose proof (place_measured_spec m _ _ _ (active_from_NoDup rows 0) E) as Hrows.
    assert (Hrows' : forall i, rows' !! i = (row ← rows !! i;
        if row_runnable row then value ← m !! row_localIP row; Some (with_measure (measure_status value) row)
        else Some (with_measure measure_unattempted row))).
    { intros i. rewrite Hrows, list_lookup_fmap. change (active_from 0 rows) with (activeRows rows). destruct (rows !! i) as [row|] eqn:Er; cbn; [|by case_bool_decide].
      case_bool_decide as Hi.
      - apply active_spec in Hi as (row0 & E0 & Hr0). assert (row0 = row) as -> by congruence. by rewrite Hr0.
      - destruct (row_runnable row) eqn:Err; [|done]. destruct Hi. apply active_spec. eauto. }
    split.
    + apply Forall2_same_length_lookup_2; [symmetry; by erewrite place_measured_length, length_fmap by done|]. intros i row row' Hr Hr'.
      rewrite Hrows', Hr in Hr'. cbn in Hr'. unfold measured. destruct (row_runnable row); [|congruence].
      apply bind_Some in Hr' as (value & Hv & [= <-]). destruct (index_observed_spec _ _ _ _ Em _ _ Hv) as [?|[? ?]]; [|eauto].
      by rewrite lookup_empty in *.
    + rewrite orb_true_iff, failed_at_spec; [done|]. intros i row Hi Hf. rewrite Hrows' in Hi.
      apply bind_Some in Hi as (row0 & Hr0 & Hi). apply active_spec. exists row0. split; [done|].
      destruct (row_runnable row0); [done|]. injection Hi as <-. done.
Qed.
End Diagnostics.

(** ** Requests *)
Lemma check_explicit_Ok raws : forall seen ips, check_explicit seen raws = Ok ips ->
  Forall (fun ip => Is4 ip = true) ips /\ NoDup ips /\ Forall (fun ip => ip ∉ seen) ips
  /\ Forall2 (fun raw ip => ParseAddr raw = Ok ip) raws ips.
Proof.
  induction raws as [|raw raws IH]; intros seen ips; cbn [check_explicit].
  { intros <-%Ok_inj. split_and!; constructor. }
  destruct (ParseAddr raw) as [ip|e] eqn:Ep; [|done]. destruct (negb (Is4 ip)) eqn:E4; [done|]. apply negb_false_iff in E4.
  case_bool_decide as Hs; [done|]. intros (rest & E & Hx)%rbind_Ok_inv. apply Ok_inj in Hx as <-.
  destruct (IH _ _ E) as (H4 & Hnd & Hfresh & Hp).
  rewrite Forall_forall in Hfresh. split_and!; [by constructor| | |by constructor].
  - constructor; [|done]. intros Hip. apply (Hfresh _ Hip). by apply elem_of_union_l, elem_of_singleton.
  - constructor; [done|]. apply Forall_forall. intros x Hx Hsx. apply (Hfresh _ Hx). by apply elem_of_union_r.
Qed.

Lemma validateRequest_Ok `{URLs} request v :
  validateRequest request = Ok v ->
  Forall (fun ip => Is4 ip = true) (vr_explicit v) /\ NoDup (vr_explicit v)
  /\ Forall2 (fun raw ip => ParseAddr raw = Ok ip) (lr_explicitRaw request) (vr_explicit v)
  /\ vr_all v = lr_all request /\ vr_probe v = lr_probe request /\ vr_measure v = lr_measure request.
Proof.
  unfold validateRequest. destruct (lr_all request && _); [done|]. intros (explicit & E & Hx)%rbind_Ok_inv.
  apply check_explicit_Ok in E as (? & ? & _ & ?). ok_branches Hx; by apply Ok_inj in Hx as <-.
Qed.

(** ** Observed throughput *)
(** The weight of an address: its last one, 0 when it has none. *)
Definition assigned (weights : list Weight) (ip : Addr) : Z :=
  foldl (fun w weight => if bool_decide (target_localIP (relative_target weight) = ip) then relative_value weight else w) 0 weights.

(** What a row shows of the observation of its address. *)
Definition observed_as (results : list Observation) (o : Observation) (t : throughputObservation) : Prop :=
  to_localIP t = target_localIP (obs_target o) /\ to_bytes t = obs_bytes o /\ to_duration t = obs_duration o
  /\ match RelativeWeights results true with
     | Ok weights => to_err t = obs_err o /\ to_weight t = assigned weights (target_localIP (obs_target o))
     | Err e => to_err t = Some (default (ErrWrap "normalize measure group" e) (obs_err o)) /\ to_weight t = 0
     end.

Lemma zip_targets (results : list Observation) (g : Z -> Z) valid : forall scaled, (forall o, o ∈ valid -> o ∈ results) ->
  Forall (fun w => exists o, o ∈ results /\ relative_target w = obs_target o)
    (zip_with (fun (o : Observation) value => MkRelative (obs_target o) (g value)) valid scaled).
Proof.
  induction valid as [|o valid IH]; intros [|x scaled] Hin; cbn; try constructor.
  - exists o. split; [apply Hin; left|done].
  - apply IH. intros; apply Hin. by right.
Qed.

Lemma relative_targets results only weights :
  RelativeWeights results only = Ok weights -> Forall (fun w => exists o, o ∈ results /\ relative_target w = obs_target o) weights.
Proof.
  unfold RelativeWeights. intros (valid & Hv & E)%rbind_Ok_inv. apply successful_Ok in Hv as (Hv & _).
  assert (Hin : forall o, o ∈ valid -> o ∈ results) by (intros o; rewrite Hv; by intros [_ ?]%list_elem_of_filter).
  clear Hv. destruct valid as [|first [|second rest]]; [by destruct only; simplify_eq; constructor..|].
  destruct (negb _); [done|]. apply rbind_Ok_inv in E as (scaled & _ & Hw). apply Ok_inj in Hw as <-.
  by apply zip_targets.
Qed.

Lemma observation_index_spec results : forall i o,
  NoDup ((fun o => target_localIP (obs_target o)) <$> results) -> results !! i = Some o ->
  forall ip, (exists o', o' ∈ results /\ target_localIP (obs_target o') = ip) ->
    observation_index results ip = i <-> target_localIP (obs_target o) = ip.
Proof.
  set (at_ip k ip results := mjoin (imap (fun (i : nat) o => if bool_decide (target_localIP (obs_target o) = ip) then [(k + i)%nat] else []) results)).
  assert (Hnone : forall results k ip, (forall o, o ∈ results -> target_localIP (obs_target o) <> ip) -> at_ip k ip results = []).
  { clear. induction results as [|o results IH]; intros k ip Hn; [done|]. unfold at_ip. cbn. rewrite bool_decide_eq_false_2 by (apply Hn; left). cbn.
    etrans; [|apply (IH (S k) ip); intros; apply Hn; by right]. unfold at_ip. f_equal. apply imap_ext. intros j x _. cbn. by rewrite Nat.add_succ_r. }
  assert (Hone : forall results k i o, NoDup ((fun o => target_localIP (obs_target o)) <$> results) -> results !! i = Some o ->
    at_ip k (target_localIP (obs_target o)) results = [(k + i)%nat]).
  { clear -Hnone. induction results as [|x results IH]; intros k [|i] o Hnd Hi; cbn in Hi; [done..|simplify_eq|];
      apply NoDup_cons in Hnd as [Hx Hnd]; unfold at_ip; cbn.
    - rewrite bool_decide_eq_true_2 by done. cbn. rewrite Nat.add_0_r. f_equal. etrans; [|apply (Hnone results (S k) (target_localIP (obs_target o)))].
      + unfold at_ip. f_equal. apply imap_ext. intros j x _. cbn. by rewrite Nat.add_succ_r.
      + intros o' Ho' E. apply Hx. rewrite <- E. by apply (list_elem_of_fmap_2 (fun o => target_localIP (obs_target o))).
    - rewrite bool_decide_eq_false_2. 2: { intros E. apply Hx. rewrite E.
        apply (list_elem_of_fmap_2 (fun o => target_localIP (obs_target o))). by eapply list_elem_of_lookup_2. }
      cbn. rewrite <- Nat.add_succ_comm. etrans; [|by apply (IH (S k) i o)]. unfold at_ip. f_equal. apply imap_ext. intros j y _. cbn. by rewrite Nat.add_succ_r. }
  intros i o Hnd Hi ip (o' & [j Hj]%list_elem_of_lookup & <-).
  assert (E : observation_index results (target_localIP (obs_target o')) = j).
  { unfold observation_index. change (mjoin _) with (at_ip 0%nat (target_localIP (obs_target o')) results). by rewrite (Hone _ 0%nat j o'). }
  rewrite E. split.
  - intros ->. by simplify_eq.
  - intros Eip. eapply (NoDup_lookup ((fun o => target_localIP (obs_target o)) <$> results)); [done|rewrite list_lookup_fmap, Hj; done|].
    rewrite list_lookup_fmap, Hi. cbn. by rewrite Eip.
Qed.

Lemma observeThroughputs_spec results :
  NoDup ((fun o => target_localIP (obs_target o)) <$> results) ->
  Forall2 (observed_as results) results (observeThroughputs results).
Proof.
  intros Hnd. unfold observeThroughputs, observed_as. destruct (RelativeWeights results true) as [weights|e] eqn:Ew.
  - apply relative_targets in Ew. set (start := fun o => MkThroughput (target_localIP (obs_target o)) (obs_bytes o) (obs_duration o) 0 (obs_err o)).
    assert (H : forall w0 : Addr -> Z,
      Forall2 (fun o t => to_localIP t = target_localIP (obs_target o) /\ to_bytes t = obs_bytes o /\ to_duration t = obs_duration o
        /\ to_err t = obs_err o /\ to_weight t = foldl (fun w weight => if bool_decide (target_localIP (relative_target weight) = target_localIP (obs_target o)) then relative_value weight else w) (w0 (target_localIP (obs_target o))) weights)
        results (foldl (fun observed weight => alter (set_weight (relative_value weight)) (observation_index results (target_localIP (relative_target weight))) observed)
                   ((fun o => set_weight (w0 (target_localIP (obs_target o))) (start o)) <$> results) weights)).
    2: { specialize (H (fun _ => 0)). exact H. }
    induction Ew as [|weight weights (o' & Ho' & Et) Ew IH]; intros w0; cbn [foldl].
    { apply Forall2_fmap_r, Forall_Forall2_diag, Forall_forall. done. }
    set (w1 ip := if bool_decide (target_localIP (relative_target weight) = ip) then relative_value weight else w0 ip).
    specialize (IH w1). assert (E : alter (set_weight (relative_value weight)) (observation_index results (target_localIP (relative_target weight)))
        ((fun o => set_weight (w0 (target_localIP (obs_target o))) (start o)) <$> results)
      = (fun o => set_weight (w1 (target_localIP (obs_target o))) (start o)) <$> results).
    { apply list_eq. intros i. destruct (results !! i) as [o|] eqn:Eo.
      2: { rewrite list_lookup_fmap, Eo. cbn. apply lookup_ge_None. rewrite length_alter, length_fmap. by apply lookup_ge_None. }
      destruct (observation_index_spec results i o Hnd Eo (target_localIP (relative_target weight))) as [H1 H2]; [exists o'; by rewrite Et|].
      rewrite (list_lookup_fmap _ _ i), Eo. cbn. unfold w1. case_bool_decide as Hip.
      - rewrite H2 by done. rewrite list_lookup_alter_eq, list_lookup_fmap, Eo. done.
      - rewrite list_lookup_alter_ne by (intros E; apply Hip; symmetry; by apply H1). rewrite list_lookup_fmap, Eo. done. }
    rewrite E. exact IH.
  - apply Forall2_fmap_r, Forall2_fmap_r, Forall_Forall2_diag, Forall_forall. intros o _. cbn. unfold fail_unfailed. cbn.
    by destruct (obs_err o).
Qed.

(** ** A listing *)
Section Listed.
Context `{URLs}.
Context (snapshot : Snapshot) (observe : Addr -> ProbeEndpoint -> result publicObservation).
Context (tester : list Target -> Settings -> list Observation).

(** The addresses a listing is about. *)
Definition listed (v : validatedRequest) : list LocalAddress :=
  if negb (zlen (vr_explicit v) =? 0) || vr_all v then LocalAddresses snapshot else DefaultCandidates snapshot.
Definition sources (v : validatedRequest) : list Addr :=
  if negb (zlen (vr_explicit v) =? 0) then vr_explicit v else uniques (la_ip <$> listed v).

Lemma select_listed v :
  selectLocalNetworks (captured_of snapshot) v = select_explicit (localNetworks (listed v)) <$> sources v.
Proof.
  unfold selectLocalNetworks, sources, listed. destruct (negb (zlen (vr_explicit v) =? 0)); [done|]. cbn [orb].
  assert (E : forall l, selectUniqueLocalNetworks (localNetworks l) = select_explicit (localNetworks l) <$> uniques (la_ip <$> l)).
  { intros l. rewrite selectUnique_spec. unfold localNetworks. rewrite <- list_fmap_compose.
    change (compose ln_localIP local_network) with la_ip. apply list_fmap_ext. intros i ip Hip. unfold select_explicit.
    assert (Hp : sl_present (findLocalNetwork (local_network <$> l) ip) = true).
    { apply find_present. rewrite <- list_fmap_compose. apply uniques_elem. by eapply list_elem_of_lookup_2. }
    by rewrite Hp. }
  cbn [cn_addresses cn_defaults captured_of]. by destruct (vr_all v).
Qed.

Definition catalog_rows (v : validatedRequest) : list Row :=
  let rows := (fun ip => catalog_row snapshot (select_explicit (localNetworks (listed v)) ip)) <$> sources v in
  if (zlen (vr_explicit v) =? 0) && negb (vr_all v) then runnableRows rows else rows.

(** What the answers of the probes and of the measurement put in a row. *)
Definition probe_shown (v : validatedRequest) (row : Row) : Prop :=
  row_probe row = match vr_probe v with
                  | None => None
                  | Some endpoint =>
                      Some (if row_runnable row then probe_status (observe (row_localIP row) endpoint) else probe_unattempted)
                  end.
Definition measure_shown (v : validatedRequest) (rows : list Row) (row : Row) : Prop :=
  match vr_measure v with
  | None => row_measure row = None
  | Some window =>
      if row_runnable row
      then exists o t, o ∈ tester (row_targets rows) window /\ target_localIP (obs_target o) = row_localIP row
             /\ observed_as (tester (row_targets rows) window) o t /\ row_measure row = Some (measure_status t)
      else row_measure row = Some measure_unattempted
  end.

(** A row is filled in without changing what the catalog says of it. *)
Definition same_catalog (row row' : Row) : Prop :=
  row_localIP row' = row_localIP row /\ row_runnable row' = row_runnable row
  /\ forall source, row_facts snapshot source row -> row_facts snapshot source row'.

Lemma same_catalog_targets rows rows' : Forall2 same_catalog rows rows' ->
  row_targets rows' = row_targets rows /\ row_localIP <$> rows' = row_localIP <$> rows /\ row_localIP <$> runnableRows rows' = row_localIP <$> runnableRows rows.
Proof.
  unfold row_targets, runnableRows. induction 1 as [|row row' rows rows' (Hip & Hr & _) _ (IH1 & IH2 & IH3)]; [done|]. rewrite !filter_cons, Hr, !fmap_cons.
  case_decide; rewrite ?fmap_cons; split_and!; congruence.
Qed.

Lemma with_probe_catalog status row : same_catalog row (with_probe status row).
Proof. split_and!; [done..|]. by intros source []. Qed.
Lemma with_measure_catalog status row : same_catalog row (with_measure status row).
Proof. split_and!; [done..|]. by intros source []. Qed.
Lemma same_catalog_trans r1 r2 r3 : same_catalog r1 r2 -> same_catalog r2 r3 -> same_catalog r1 r3.
Proof. unfold same_catalog. intros (? & ? & ?) (? & ? & ?). split_and!; [congruence..|eauto]. Qed.

(** The diagnostics of a listing that has its rows. *)
Definition diagnosed (v : validatedRequest) (res : ListResult) : result ListResult :=
  let active := activeRows (res_rows res) in
  let res := match vr_probe v with Some endpoint => addProbeResults observe res active endpoint | None => res end in
  match vr_measure v with
  | Some window => addMeasureResults (fun targets settings => observeThroughputs (tester targets settings)) res active window
  | None => Ok res
  end.

Definition honest_tester : Prop := forall targets settings, obs_target <$> tester targets settings ≡ₚ targets.

Lemma honest_locals targets settings : honest_tester ->
  (fun o => target_localIP (obs_target o)) <$> tester targets settings ≡ₚ target_localIP <$> targets.
Proof. intros Hh. rewrite <- (Hh targets settings) at 2. by rewrite <- list_fmap_compose. Qed.

Lemma observed_locals results : NoDup ((fun o => target_localIP (obs_target o)) <$> results) ->
  to_localIP <$> observeThroughputs results = (fun o => target_localIP (obs_target o)) <$> results.
Proof.
  intros Hnd%observeThroughputs_spec. apply Forall2_flip in Hnd. apply list_eq_Forall2, Forall2_fmap.
  eapply Forall2_impl; [exact Hnd|]. by intros t o (? & _).
Qed.

Lemma probes_shown v res :
  Forall (fun row => row_probe row = None /\ row_measure row = None) (res_rows res) ->
  let res' := match vr_probe v with Some endpoint => addProbeResults observe res (activeRows (res_rows res)) endpoint | None => res end in
  Forall2 same_catalog (res_rows res) (res_rows res')
  /\ activeRows (res_rows res') = activeRows (res_rows res)
  /\ Forall (fun row => probe_shown v row /\ row_measure row = None) (res_rows res')
  /\ (res_runtimeFailure res' = true <-> res_runtimeFailure res = true \/ exists row, row ∈ res_rows res' /\ probe_failed row = true).
Proof.
  intros Hnone. cbn. unfold probe_shown. destruct (vr_probe v) as [endpoint|].
  - destruct (addProbeResults_spec observe res endpoint) as [-> Hf]. split_and!; [| | |exact Hf].
    + apply Forall2_fmap_r, Forall_Forall2_diag, Forall_forall. intros row _. apply with_probe_catalog.
    + clear. unfold activeRows, active_from. f_equal. apply list_eq. intros i. rewrite !list_lookup_imap, list_lookup_fmap. by destruct (res_rows res !! i).
    + apply Forall_fmap. eapply Forall_impl; [exact Hnone|]. by intros row [_ Hm].
  - split_and!; [|done|done|].
    + apply Forall_Forall2_diag, Forall_forall. by intros row _.
    + split; [by left|]. intros [?|(row & Hrow & Hf)]; [done|]. rewrite Forall_forall in Hnone. destruct (Hnone _ Hrow) as [Hp _].
      unfold probe_failed in Hf. by rewrite Hp in Hf.
Qed.

Lemma measures_shown v res :
  honest_tester -> Forall (fun row => Is4 (row_localIP row) = true) (res_rows res) -> NoDup (row_localIP <$> res_rows res) ->
  Forall (fun row => probe_shown v row /\ row_measure row = None) (res_rows res) ->
  exists res', match vr_measure v with
    | Some window => addMeasureResults (fun targets settings => observeThroughputs (tester targets settings)) res (activeRows (res_rows res)) window
    | None => Ok res
    end = Ok res'
  /\ Forall2 (fun row row' => same_catalog row row' /\ row_probe row' = row_probe row) (res_rows res) (res_rows res')
  /\ Forall (fun row => probe_shown v row /\ measure_shown v (res_rows res') row) (res_rows res')
  /\ (res_runtimeFailure res' = true <-> res_runtimeFailure res = true \/ exists row, row ∈ res_rows res' /\ measure_failed row = true).
Proof.
  intros Hh H4 Hnd Hp. unfold measure_shown. destruct (vr_measure v) as [window|].
  - assert (Htargets : target_localIP <$> row_targets (res_rows res) = row_localIP <$> runnableRows (res_rows res))
      by (unfold row_targets; by rewrite <- list_fmap_compose).
    assert (Hobs := honest_locals (row_targets (res_rows res)) window Hh). rewrite Htargets in Hobs.
    assert (Hndo : NoDup ((fun o => target_localIP (obs_target o)) <$> tester (row_targets (res_rows res)) window)).
    { rewrite Hobs. eapply sublist_NoDup; [exact Hnd|]. apply fmap_sublist, sublist_filter. }
    destruct (addMeasureResults_spec (fun targets settings => observeThroughputs (tester targets settings)) res window) as (res' & E & HF & Hf); [done..| |].
    { by rewrite observed_locals. }
    exists res'. split; [exact E|].
    assert (Hsame : Forall2 (fun row row' => same_catalog row row' /\ row_probe row' = row_probe row) (res_rows res) (res_rows res')).
    { eapply Forall2_impl; [exact HF|]. intros row row'. unfold measured. destruct (row_runnable row).
      - intros (value & _ & _ & ->). split; [apply with_measure_catalog|done].
      - intros ->. split; [apply with_measure_catalog|done]. }
    split; [done|]. split; [|exact Hf].
    destruct (same_catalog_targets (res_rows res) (res_rows res')) as (-> & _); [eapply Forall2_impl; [exact Hsame|by intros ? ? []]|].
    apply Forall_forall. intros row' [i Hi]%list_elem_of_lookup. destruct (Forall2_lookup_r _ _ _ _ _ HF Hi) as (row & Hrow & Hm).
    destruct (Forall2_lookup_lr _ _ _ _ _ _ Hsame Hrow Hi) as ((Hip & Hr & _) & Hpr).
    rewrite Forall_forall in Hp. destruct (Hp row) as [Hps _]; [by eapply list_elem_of_lookup_2|]. split.
    { unfold probe_shown in *. by rewrite Hpr, Hip, Hr. }
    rewrite Hr, Hip. unfold measured in Hm. destruct (row_runnable row); [|by rewrite Hm].
    destruct Hm as (t & [j Hj]%list_elem_of_lookup & Ht & ->).
    destruct (Forall2_lookup_r _ _ _ _ _ (observeThroughputs_spec _ Hndo) Hj) as (o & Ho & Hot).
    exists o, t. split_and!; [by eapply list_elem_of_lookup_2| |done..]. rewrite <- Ht. symmetry. apply Hot.
  - exists res. split_and!; [done| |done|].
    + apply Forall_Forall2_diag, Forall_forall. by intros row _.
    + split; [by left|]. intros [?|(row & Hrow & Hf)]; [done|]. rewrite Forall_forall in Hp. destruct (Hp _ Hrow) as [_ Hm].
      unfold measure_failed in Hf. by rewrite Hm in Hf.
Qed.

Lemma probe_failure_kept row row' : row_probe row' = row_probe row -> probe_failed row' = probe_failed row.
Proof. unfold probe_failed. by intros ->. Qed.

(** A listing whose rows are found has its diagnostics. *)
Lemma diagnosed_shown v res :
  honest_tester -> Forall (fun row => Is4 (row_localIP row) = true) (res_rows res) -> NoDup (row_localIP <$> res_rows res) ->
  Forall (fun row => row_probe row = None /\ row_measure row = None) (res_rows res) ->
  exists res', diagnosed v res = Ok res' /\ Forall2 same_catalog (res_rows res) (res_rows res')
  /\ Forall (fun row => probe_shown v row /\ measure_shown v (res_rows res') row) (res_rows res')
  /\ (res_runtimeFailure res' = true <->
        res_runtimeFailure res = true \/ exists row, row ∈ res_rows res' /\ (probe_failed row = true \/ measure_failed row = true)).
Proof.
  intros Hh H4 Hnd Hnone. destruct (probes_shown v res Hnone) as (Hs1 & Ha & Hp & Hf1). unfold diagnosed.
  set (res1 := match vr_probe v with Some endpoint => _ | None => _ end) in *.
  destruct (same_catalog_targets _ _ Hs1) as (_ & Hips & _). rewrite <- Ha.
  destruct (measures_shown v res1) as (res' & E & Hs2 & Hshown & Hf2); [done| |by rewrite Hips|done|].
  { change (Forall ((fun ip => Is4 ip = true) ∘ row_localIP) (res_rows res1)). rewrite <- Forall_fmap, Hips. by apply Forall_fmap. }
  exists res'. split; [exact E|]. split_and!; [|done|].
  - clear -Hs1 Hs2. revert Hs2. generalize (res_rows res'). induction Hs1 as [|r1 r2 rows1 rows2 H12 _ IH]; intros rows3 Hs; inversion Hs as [|? r3 ? ? [H23 _]]; subst; constructor; [|by apply IH].
    by eapply same_catalog_trans.
  - rewrite Hf2, Hf1.
    assert (Hpf : (exists row, row ∈ res_rows res1 /\ probe_failed row = true) <-> exists row, row ∈ res_rows res' /\ probe_failed row = true).
    { split; intros (row & [i Hi]%list_elem_of_lookup & Hf).
      - destruct (Forall2_lookup_l _ _ _ _ _ Hs2 Hi) as (row' & Hi' & _ & Hx). exists row'. split; [by eapply list_elem_of_lookup_2|].
        by rewrite (probe_failure_kept _ _ Hx).
      - destruct (Forall2_lookup_r _ _ _ _ _ Hs2 Hi) as (row' & Hi' & _ & Hx). exists row'. split; [by eapply list_elem_of_lookup_2|].
        by rewrite <- (probe_failure_kept _ _ Hx). }
    rewrite Hpf. clear. naive_solver.
Qed.
End Listed.

(** ** The rows of a listing *)
(** The addresses of a default listing: every observation of the address is
    usable and says the same, and the kernel's rules lead somewhere. *)
Definition default_egress (snapshot : Snapshot) (ip : Addr) : Prop :=
  (exists c, agreed (LocalAddresses snapshot) c /\ la_ip c = ip) /\ eg_runnable (resolveOne snapshot ip) = true.

Definition shows `{URLs} (snapshot : Snapshot) (v : validatedRequest) (ip : Addr) : Prop :=
  if negb (zlen (vr_explicit v) =? 0) then ip ∈ vr_explicit v
  else if vr_all v then ip ∈ la_ip <$> LocalAddresses snapshot
  else default_egress snapshot ip.

Section Shown.
Context `{HU : URLs}.
Context (snapshot : Snapshot).
Hypothesis sorted : StronglySorted (fun x y => CompareAddr (la_ip x) (la_ip y) <= 0) (LocalAddresses snapshot).

Lemma DefaultCandidates_agreed c : c ∈ DefaultCandidates snapshot <-> agreed (LocalAddresses snapshot) c.
Proof. unfold DefaultCandidates. by apply default_candidates_agreed. Qed.

Lemma usable_default ip : ip ∈ la_ip <$> DefaultCandidates snapshot ->
  let found := findLocalNetwork (localNetworks (DefaultCandidates snapshot)) ip in
  sl_present found = true /\ ln_included (sl_address found) = true <-> usable_here snapshot ip.
Proof.
  cbn. intros Hip. pose proof Hip as (c & Ec & Hc)%list_elem_of_fmap. apply DefaultCandidates_agreed in Hc as (Hc & _ & Hall).
  assert (Hu : usable_here snapshot ip).
  { split; [exists c; by split|]. intros a Ha Ea. eapply Hall; [done|congruence]. }
  split; [done|]. intros _. set (addresses := localNetworks (DefaultCandidates snapshot)).
  destruct (findLocalNetwork_spec addresses ip) as (_ & _ & Hi & _).
  assert (Hp : sl_present (findLocalNetwork addresses ip) = true).
  { apply find_present. unfold addresses, localNetworks. by rewrite <- list_fmap_compose. }
  split; [done|]. rewrite Hi by done. apply forallb_forall. setoid_rewrite <- list_elem_of_In.
  intros l (_ & (a & -> & Ha)%list_elem_of_fmap)%list_elem_of_filter. apply DefaultCandidates_agreed in Ha as (Ha & _ & Hag).
  apply bool_decide_eq_true. by apply (Hag a).
Qed.

Lemma row_facts_listed v ip : ip ∈ sources snapshot v ->
  row_facts snapshot ip (catalog_row snapshot (select_explicit (localNetworks (listed snapshot v)) ip)).
Proof.
  intros Hip. apply catalog_row_facts. revert Hip. unfold sources, listed. destruct (negb (zlen (vr_explicit v) =? 0)); cbn [orb].
  { intros _. apply usable_all. }
  destruct (vr_all v); intros Hip%uniques_in; [apply usable_all|exact (usable_default ip Hip)].
Qed.

Lemma sources_ok v : Forall (fun ip => Is4 ip = true) (vr_explicit v) -> NoDup (vr_explicit v) ->
  Forall (fun a => Is4 (la_ip a) = true) (LocalAddresses snapshot) ->
  Forall (fun ip => Is4 ip = true) (sources snapshot v) /\ NoDup (sources snapshot v).
Proof.
  intros H4 Hnd Hl. unfold sources. destruct (negb _); [done|]. split; [|apply uniques_NoDup].
  apply Forall_forall. intros ip (a & -> & Ha)%uniques_in%list_elem_of_fmap. rewrite Forall_forall in Hl. apply Hl.
  unfold listed in Ha. destruct (_ || _); [done|]. by apply DefaultCandidates_agreed in Ha as [? _].
Qed.

Lemma sources_shown v ip :
  ip ∈ sources snapshot v /\ (zlen (vr_explicit v) =? 0 = true -> vr_all v = false -> usable_here snapshot ip /\ eg_runnable (resolveOne snapshot ip) = true)
  <-> shows snapshot v ip.
Proof.
  unfold sources, shows, listed. destruct (zlen (vr_explicit v) =? 0); cbn [negb orb]; [|naive_solver].
  rewrite uniques_elem. destruct (vr_all v); [naive_solver|]. unfold default_egress. rewrite list_elem_of_fmap. setoid_rewrite DefaultCandidates_agreed. split.
  - intros [(c & -> & Hc) Hu]. split; [by exists c|]. by apply Hu.
  - intros [(c & Hc & <-) Hr]. split; [by exists c|]. intros _ _. split; [|done]. destruct Hc as (Hin & _ & Hall).
    split; [by exists c|]. intros a Ha Ea. by apply (Hall a).
Qed.

Lemma sources_shown_in v ip : shows snapshot v ip -> ip ∈ sources snapshot v.
Proof. rewrite <- sources_shown. by intros [? _]. Qed.

Lemma catalog_rows_ips (v : validatedRequest) rows :
  rows = (fun ip => catalog_row snapshot (select_explicit (localNetworks (listed snapshot v)) ip)) <$> sources snapshot v ->
  row_localIP <$> rows = sources snapshot v /\ Forall (fun row => row_facts snapshot (row_localIP row) row /\ row_probe row = None /\ row_measure row = None) rows.
Proof.
  intros ->. assert (HF : Forall (fun ip => row_facts snapshot ip (catalog_row snapshot (select_explicit (localNetworks (listed snapshot v)) ip))) (sources snapshot v))
    by (apply Forall_forall, row_facts_listed). split.
  - rewrite <- list_fmap_compose. rewrite <- (list_fmap_id (sources snapshot v)) at 2. apply list_fmap_ext. intros i ip Hi.
    cbn. rewrite Forall_forall in HF. apply HF. by eapply list_elem_of_lookup_2.
  - apply Forall_fmap. eapply Forall_impl; [exact HF|]. intros ip Hf. unfold compose. by rewrite (rf_ip _ _ _ Hf).
Qed.

Lemma catalog_rows_shown v : NoDup (sources snapshot v) ->
  let rows := catalog_rows snapshot v in
  NoDup (row_localIP <$> rows) /\ (forall ip, ip ∈ row_localIP <$> rows <-> shows snapshot v ip)
  /\ (vr_explicit v <> [] -> row_localIP <$> rows = vr_explicit v)
  /\ Forall (fun row => row_facts snapshot (row_localIP row) row /\ row_probe row = None /\ row_measure row = None) rows.
Proof.
  intros Hnd. cbn. unfold catalog_rows. set (rows := _ <$> sources snapshot v).
  destruct (catalog_rows_ips v rows eq_refl) as [Hips Hfacts]. setoid_rewrite <- sources_shown. rewrite <- Hips in Hnd. rewrite <- Hips.
  destruct ((zlen (vr_explicit v) =? 0) && negb (vr_all v)) eqn:Ed.
  - apply andb_true_iff in Ed as [He Ha]. apply negb_true_iff in Ha. rename He into Hempty. rewrite Hempty, Ha. split_and!.
    + eapply sublist_NoDup; [exact Hnd|]. apply fmap_sublist, sublist_filter.
    + intros ip. rewrite !list_elem_of_fmap. rewrite Forall_forall in Hfacts. unfold runnableRows. setoid_rewrite list_elem_of_filter. split.
      * intros (row & -> & Hr & Hrow). split; [by exists row|]. intros _ _. destruct (Hfacts _ Hrow) as [Hf _]. by apply (rf_runnable _ _ _ Hf).
      * intros [(row & -> & Hrow) Hu]. exists row. split_and!; [done| |done]. destruct (Hfacts _ Hrow) as [Hf _]. apply (rf_runnable _ _ _ Hf). by apply Hu.
    + intros Hne. rewrite zlen_zero in Hempty. by apply bool_decide_eq_true in Hempty.
    + apply Forall_forall. intros row [_ Hrow]%list_elem_of_filter. rewrite Forall_forall in Hfacts. by apply Hfacts.
  - split_and!; [done| | |done].
    + intros ip. split; [|by intros [? _]]. intros Hip. split; [done|]. intros E1 E2. by rewrite E1, E2 in Ed.
    + intros Hne. rewrite Hips. unfold sources. destruct (zlen (vr_explicit v) =? 0) eqn:E; [|done].
      rewrite zlen_zero in E. by apply bool_decide_eq_true in E.
Qed.

Lemma list_Run_diagnosed observe tester request v :
  validateRequest request = Ok v -> Forall (fun ip => Is4 ip = true) (sources snapshot v) -> NoDup (sources snapshot v) ->
  list_Run (new_listing (Ok snapshot) observe tester) request =
    diagnosed observe tester v (MkListResult (catalog_rows snapshot v) (explicitSelectionFailed v (catalog_rows snapshot v))).
Proof.
  intros Ev H4 Hnd. unfold list_Run, new_listing, captureSystemNetworks. rewrite Ev. cbn [rbind capture].
  change (MkCaptured _ _ _) with (captured_of snapshot). rewrite select_listed.
  assert (Hip : ip_of <$> (select_explicit (localNetworks (listed snapshot v)) <$> sources snapshot v) = sources snapshot v).
  { rewrite <- list_fmap_compose. rewrite <- (list_fmap_id (sources snapshot v)) at 2. apply list_fmap_ext. intros i ip _. apply ip_of_explicit. }
  rewrite rowsFromSelection_ok; [| |by rewrite Hip].
  2: { change (Forall ((fun ip => Is4 ip = true) ∘ ip_of) (select_explicit (localNetworks (listed snapshot v)) <$> sources snapshot v)). by rewrite <- Forall_fmap, Hip. }
  cbn [rbind]. rewrite <- list_fmap_compose. done.
Qed.
End Shown.

Lemma explicitSelectionFailed_spec `{URLs} v rows :
  explicitSelectionFailed v rows = true <-> exists row, row ∈ rows /\ vr_explicit v <> [] /\ row_runnable row = false.
Proof.
  unfold explicitSelectionFailed. rewrite zlen_zero. case_bool_decide as E; [naive_solver|]. rewrite existsb_exists.
  setoid_rewrite <- list_elem_of_In. setoid_rewrite negb_true_iff. naive_solver.
Qed.

(** C40. A listing answers, and shows the addresses it was asked for, each once
    and with the catalog's verdict on it: the addresses that were named (in that
    order), all local addresses, or the addresses that are usable, agreed on by
    every observation and led somewhere by the kernel's rules.  A row is runnable
    exactly when the address is on a usable link and its egress resolves; it has a
    reason exactly when it is not.  Probes and measurements are those of the
    runnable rows, each row with the answer for its own address; the listing
    fails exactly when a named address is not runnable or a diagnostic failed. *)
Theorem listing_shows_the_catalog `{URLs} links addresses rules routes observe tester request v :
  let s := newSnapshot links addresses rules routes in
  validateRequest request = Ok v ->
  Forall (fun a => Is4 (la_ip a) = true) (LocalAddresses s) ->
  honest_tester tester ->
  exists res, list_Run (new_listing (Ok s) observe tester) request = Ok res
  /\ NoDup (row_localIP <$> res_rows res)
  /\ (forall ip, ip ∈ row_localIP <$> res_rows res <-> shows s v ip)
  /\ (vr_explicit v <> [] -> row_localIP <$> res_rows res = vr_explicit v)
  /\ Forall (fun row => row_facts s (row_localIP row) row /\ probe_shown observe v row /\ measure_shown tester v (res_rows res) row) (res_rows res)
  /\ (res_runtimeFailure res = true <-> exists row, row ∈ res_rows res /\
        (vr_explicit v <> [] /\ row_runnable row = false \/ probe_failed row = true \/ measure_failed row = true)).
Proof.
  intros s Ev Hl Hh. pose proof (newSnapshot_addresses_sorted links addresses rules routes) as Hsorted.
  destruct (validateRequest_Ok _ _ Ev) as (H4 & Hnd & _). destruct (sources_ok s Hsorted v H4 Hnd Hl) as [Hs4 Hsnd].
  rewrite (list_Run_diagnosed s observe tester request v) by done. destruct (catalog_rows_shown s Hsorted v Hsnd) as (Hrnd & Hrows & Hrex & Hfacts).
  set (rows := catalog_rows s v) in *.
  destruct (diagnosed_shown s observe tester v (MkListResult rows (explicitSelectionFailed v rows))) as (res & E & Hsame & Hshown & Hf); [done| |done| |].
  { apply Forall_forall. intros row Hrow. cbn in Hrow. rewrite Forall_forall in Hs4. apply Hs4, sources_shown_in; [done|].
    apply Hrows. by apply list_elem_of_fmap_2. }
  { eapply Forall_impl; [exact Hfacts|]. by intros row (_ & ? & ?). }
  cbn [res_rows res_runtimeFailure] in *. destruct (same_catalog_targets s _ _ Hsame) as (_ & Hips & _).
  exists res. rewrite Hips. split_and!; try done.
  - apply Forall_forall. intros row' [i Hi]%list_elem_of_lookup. destruct (Forall2_lookup_r _ _ _ _ _ Hsame Hi) as (row & Hrow & Hip & _ & Hk).
    rewrite Forall_forall in Hfacts, Hshown. split; [|apply Hshown; by eapply list_elem_of_lookup_2].
    rewrite Hip. apply Hk, Hfacts. by eapply list_elem_of_lookup_2.
  - rewrite Hf, explicitSelectionFailed_spec.
    assert (Hx : (exists row, row ∈ rows /\ vr_explicit v <> [] /\ row_runnable row = false) <->
                 exists row, row ∈ res_rows res /\ vr_explicit v <> [] /\ row_runnable row = false).
    { split; intros (row & [i Hi]%list_elem_of_lookup & Hne & Hr).
      - destruct (Forall2_lookup_l _ _ _ _ _ Hsame Hi) as (row' & Hi' & _ & Hx & _). exists row'. split; [by eapply list_elem_of_lookup_2|]. by rewrite Hx.
      - destruct (Forall2_lookup_r _ _ _ _ _ Hsame Hi) as (row' & Hi' & _ & Hx & _). exists row'. split; [by eapply list_elem_of_lookup_2|]. by rewrite <- Hx. }
    rewrite Hx. clear. naive_solver.
Qed.

(** ** A listing of an address with a default route, and of one that is not here *)
#[local] Instance sample_urls : URLs := {
  URL := string; url_zero := ""; url_Parse := Ok; url_String := id; url_Scheme _ := "https"; url_Host := id;
  url_hasUser _ := false; url_Fragment _ := ""; url_RawFragment _ := ""
}.
Definition listing_window : Settings := MkSettings "host" (2 * Second) (10 * Second).
Definition listing_request : ListRequest := MkListRequest ["10.0.0.5"; "10.0.0.6"] false (Some (MkEndpoint "host")) (Some listing_window).
Definition observe_example (ip : Addr) (_ : ProbeEndpoint) : result publicObservation := Ok (MkPublic (Addr4 16843009) 13335 "example").
Definition sample_tester (targets : list Target) (_ : Settings) : list Observation := (fun t => MkObservation t 1000 Second None) <$> targets.
Definition listing_validated : validatedRequest :=
  MkValidated [Addr4 (10 * 2 ^ 24 + 5); Addr4 (10 * 2 ^ 24 + 6)] false (Some (MkEndpoint "host")) (Some listing_window).

Lemma sample_tester_honest : honest_tester sample_tester.
Proof. intros targets settings. unfold sample_tester. rewrite <- list_fmap_compose. cbn. by rewrite list_fmap_id. Qed.

Example sample_listing :
  (fun row => (row_runnable row, row_localReason row)) <$>
    res_rows (match list_Run (new_listing (Ok sample_snapshot) observe_example sample_tester) listing_request with Ok res => res | Err _ => MkListResult [] false end)
  = [(true, ""); (false, "selected source 10.0.0.6 is not a local address")].
Proof. vm_compute. reflexivity. Qed.

Lemma listing_shows_the_catalog_witness :
  exists res, list_Run (new_listing (Ok sample_snapshot) observe_example sample_tester) listing_request = Ok res
    /\ row_localIP <$> res_rows res = vr_explicit listing_validated.
Proof.
  destruct (listing_shows_the_catalog [sample_link] [MkAddress 2 (MkPrefix sample_source 24)] sample_rules sample_routes
    observe_example sample_tester listing_request listing_validated) as (res & E & _ & _ & Hips & _).
  - vm_compute. reflexivity.
  - repeat constructor.
  - apply sample_tester_honest.
  - exists res. split; [exact E|]. by apply Hips.
Defined.
