(* ===== verification/GoTime.v ===== *)
(** * Durations and floats of the standard library

    [time.ParseDuration] and the rates the listing shows.  A [float64] is the
    IEEE binary64 number of [SpecFloat], with rounding to nearest even. *)
From Stdlib Require Import SpecFloat.
From S2P Require Import Prelude Utf8 GoText Settings.

(** ** [float64] *)
Definition float_of (z : Z) : spec_float := binary_normalize 53 1024 z 0 false.
Definition float_mul : spec_float -> spec_float -> spec_float := SFmul 53 1024.
Definition float_div : spec_float -> spec_float -> spec_float := SFdiv 53 1024.
Definition float_add : spec_float -> spec_float -> spec_float := SFadd 53 1024.

(** The conversion to an integer drops the fraction. *)
Definition float_trunc (f : spec_float) : Z :=
  match f with
  | S754_finite false m e => if 0 <=? e then Z.shiftl (Z.pos m) e else Z.shiftr (Z.pos m) (- e)
  | _ => 0
  end.

(** [strconv.FormatFloat(f, 'f', 2, 64)] of a number that is not negative: the
    exact value rounded to hundredths, halves to even. *)
Definition hundredths (f : spec_float) : Z :=
  match f with
  | S754_finite false m e =>
      let numerator := Z.pos m * 100 * 2 ^ (Z.max e 0) in
      let denominator := 2 ^ (Z.max (- e) 0) in
      let q := numerator / denominator in
      let twice := 2 * (numerator mod denominator) in
      if (denominator <? twice) || ((denominator =? twice) && Z.odd q) then q + 1 else q
  | _ => 0
  end.
Definition FormatFixed2 (f : spec_float) : string :=
  let n := hundredths f in
  pretty (n / 100) +:+ "." +:+ pretty (n / 10 mod 10) +:+ pretty (n mod 10).

(** [Duration.Seconds]. *)
Definition Seconds (d : Z) : spec_float :=
  float_add (float_of (Z.quot d Second)) (float_div (float_of (Z.rem d Second)) (float_of Second)).

(** ** [time.ParseDuration] *)
(** The [quote] of package [time]. *)
Definition time_quote (s : string) : string :=
  text_of (x22 :: mjoin ((fun b => if (b2z b <? 0x20) || (0x80 <=? b2z b) then x5c :: x78 :: hex_bytes [b]
                                   else if bool_decide (b = x22) || bool_decide (b = x5c) then [x5c; b] else [b]) <$> bytes_of s) ++ [x22]).

Definition is_digit (b : byte) : bool := in_byte 0x30 0x39 b.
Definition point : byte := x2e.

(** [leadingInt]: the number and what follows it, or nothing when it is too large. *)
Fixpoint leadingInt (x : Z) (s : list byte) : option (Z * list byte) :=
  match s with
  | c :: rest =>
      if negb (is_digit c) then Some (x, s)
      else if 2 ^ 63 / 10 <? x then None
      else
        let x := x * 10 + (b2z c - 0x30) in
        if 2 ^ 63 <? x then None else leadingInt x rest
  | [] => Some (x, [])
  end.

(** [leadingFraction]: digits that no longer fit are skipped. *)
Fixpoint leadingFraction (x : Z) (scale : spec_float) (overflow : bool) (s : list byte) : Z * spec_float * list byte :=
  match s with
  | c :: rest =>
      if negb (is_digit c) then (x, scale, s)
      else if overflow then leadingFraction x scale overflow rest
      else if (2 ^ 63 - 1) / 10 <? x then leadingFraction x scale true rest
      else
        let y := x * 10 + (b2z c - 0x30) in
        if 2 ^ 63 <? y then leadingFraction x scale true rest
        else leadingFraction y (float_mul scale (float_of 10)) overflow rest
  | [] => (x, scale, [])
  end.

(** The unit ends at the next digit or point. *)
Fixpoint split_unit (s : list byte) : list byte * list byte :=
  match s with
  | c :: rest => if bool_decide (c = point) || is_digit c then ([], s) else let '(u, after) := split_unit rest in (c :: u, after)
  | [] => ([], [])
  end.

(** [unitMap]; the two spellings of a microsecond are U+00B5 and U+03BC. *)
Definition unit_value (u : string) : option Z :=
  if bool_decide (u = "ns") then Some 1
  else if bool_decide (u = "us") || bool_decide (u = text_of [xc2; xb5; x73]) || bool_decide (u = text_of [xce; xbc; x73]) then Some 1000
  else if bool_decide (u = "ms") then Some Millisecond
  else if bool_decide (u = "s") then Some Second
  else if bool_decide (u = "m") then Some (60 * Second)
  else if bool_decide (u = "h") then Some (3600 * Second)
  else None.

Section ParseDuration.
Context (orig : string).

Definition invalid_duration : error := ErrText ("time: invalid duration " +:+ time_quote orig).

(** One number with its unit: its nanoseconds and what follows. *)
Definition parse_segment (s : list byte) : result (Z * list byte) :=
  match s with
  | [] => Err invalid_duration
  | c :: _ =>
      if negb (bool_decide (c = point) || is_digit c) then Err invalid_duration
      else
        match leadingInt 0 s with
        | None => Err invalid_duration
        | Some (v, s1) =>
            let pre := negb (zlen s =? zlen s1) in
            let '(f, scale, post, s2) :=
              match s1 with
              | x2e :: s1' => let '(f, scale, s2) := leadingFraction 0 (float_of 1) false s1' in (f, scale, negb (zlen s1' =? zlen s2), s2)
              | _ => (0, float_of 1, false, s1)
              end in
            if negb pre && negb post then Err invalid_duration
            else
              let '(u, s3) := split_unit s2 in
              if zlen u =? 0 then Err (ErrText ("time: missing unit in duration " +:+ time_quote orig))
              else
                match unit_value (text_of u) with
                | None => Err (ErrText ("time: unknown unit " +:+ time_quote (text_of u) +:+ " in duration " +:+ time_quote orig))
                | Some unit =>
                    if 2 ^ 63 / unit <? v then Err invalid_duration
                    else
                      let v := v * unit in
                      if 0 <? f then
                        let v := wrap 64 (v + float_trunc (float_mul (float_of f) (float_div (float_of unit) scale))) in
                        if 2 ^ 63 <? v then Err invalid_duration else Ok (v, s3)
                      else Ok (v, s3)
                end
        end
  end.

(** The loop over the segments; each takes a byte at least. *)
Fixpoint parse_segments (fuel : nat) (d : Z) (s : list byte) : result Z :=
  match fuel, s with
  | S fuel, _ :: _ =>
      let* '(v, rest) := parse_segment s in
      let d := wrap 64 (d + v) in
      if 2 ^ 63 <? d then Err invalid_duration else parse_segments fuel d rest
  | _, _ => Ok d
  end.
End ParseDuration.

Definition ParseDuration (orig : string) : result Z :=
  let '(neg, s) := match bytes_of orig with
                   | x2d :: s => (true, s)
                   | x2b :: s => (false, s)
                   | s => (false, s)
                   end in
  if bool_decide (s = [x30]) then Ok 0
  else if zlen s =? 0 then Err (invalid_duration orig)
  else
    let* d := parse_segments orig (length s) 0 s in
    if neg then Ok (- d)
    else if 2 ^ 63 - 1 <? d then Err (invalid_duration orig)
    else Ok d.

Example parse_durations :
  ParseDuration "3s" = Ok (3 * Second) /\ ParseDuration "1h2m3.5s" = Ok (3723500 * Millisecond)
  /\ ParseDuration "-.5ms" = Ok (-500000) /\ ParseDuration "9223372036.854775807s" = Ok (2 ^ 63 - 1)
  /\ ParseDuration "5" = Err (ErrText (text_of (bytes_of "time: missing unit in duration " ++ [x22; x35; x22]))).
Proof. split_and!; vm_compute; reflexivity. Qed.

(** [Mbps] of an observation, in the notation of the listing. *)
Definition Mbps (bytes duration : Z) (err : option error) : spec_float :=
  match err with
  | Some _ => S754_zero false
  | None =>
      if (bytes =? 0) || (duration <=? 0) then S754_zero false
      else float_div (float_div (float_mul (float_of bytes) (float_of 8)) (Seconds duration)) (float_of 1000000)
  end.

Example mbps_examples :
  FormatFixed2 (Mbps 12500000 Second None) = "100.00" /\ FormatFixed2 (Mbps 1 (3 * Second) None) = "0.00"
  /\ FormatFixed2 (Mbps 1234567 (7 * Second) None) = "1.41".
Proof. split_and!; vm_compute; reflexivity. Qed.

(** ** Bounds and termination *)
Lemma leadingInt_shorter s : forall x v rest, leadingInt x s = Some (v, rest) -> 0 <= x <= 2 ^ 63 ->
  (length rest <= length s)%nat /\ 0 <= v <= 2 ^ 63.
Proof.
  induction s as [|c s IH]; intros x v rest; cbn [leadingInt]; [by intros [= <- <-]|].
  destruct (is_digit c) eqn:Ed; cbn [negb]; [|by intros [= <- <-]]. destruct (_ <? x); [done|]. destruct (2 ^ 63 <? _) eqn:E; [done|].
  intros Hl Hx. unfold is_digit, in_byte in Ed. bool_to_prop. destruct (IH _ _ _ Hl); [lia|]. cbn. lia.
Qed.

Lemma leadingFraction_shorter s : forall x scale overflow v scale' rest, leadingFraction x scale overflow s = (v, scale', rest) ->
  (length rest <= length s)%nat.
Proof.
  induction s as [|c s IH]; intros x scale overflow v scale' rest; cbn [leadingFraction]; [by intros [= <- <- <-]|].
  destruct (negb _); [by intros [= <- <- <-]|].
  destruct overflow; [intros Hl%IH; cbn; lia|]. destruct (_ <? x); [intros Hl%IH; cbn; lia|]. destruct (_ <? _); intros Hl%IH; cbn; lia.
Qed.

Lemma split_unit_app s u rest : split_unit s = (u, rest) -> s = u ++ rest.
Proof.
  revert u rest; induction s as [|c s IH]; intros u rest; cbn [split_unit]; [by intros [= <- <-]|].
  destruct (_ || _); [by intros [= <- <-]|]. destruct (split_unit s) as [u' after]. intros [= <- <-]. cbn. f_equal. by apply IH.
Qed.

Lemma parse_segment_shorter orig s v rest : parse_segment orig s = Ok (v, rest) -> (length rest < length s)%nat /\ 0 <= v <= 2 ^ 63.
Proof.
  unfold parse_segment. destruct s as [|c s]; [done|]. destruct (negb _); [done|].
  destruct (leadingInt 0 (c :: s)) as [[v1 s1]|] eqn:E1; [|done]. apply leadingInt_shorter in E1 as [H1 Hv1]; [|lia].
  assert (Hs2 : exists f scale post s2, match s1 with
      | x2e :: s1' => let '(f, scale, s2) := leadingFraction 0 (float_of 1) false s1' in (f, scale, negb (zlen s1' =? zlen s2), s2)
      | _ => (0, float_of 1, false, s1) end = (f, scale, post, s2) /\ (length s2 <= length s1)%nat).
  { destruct s1 as [|b s1']; [eexists _, _, _, _; by split|].
    destruct (leadingFraction 0 (float_of 1) false s1') as [[f scale] s2] eqn:E2. apply leadingFraction_shorter in E2.
    destruct b; eexists _, _, _, _; (split; [reflexivity|cbn; lia]). }
  destruct Hs2 as (f & scale & post & s2 & -> & H2). destruct (negb _ && _); [done|].
  destruct (split_unit s2) as [u s3] eqn:E3. apply split_unit_app in E3. destruct (zlen u =? 0) eqn:Eu; [done|].
  assert (Hu : u <> []) by (by intros ->). assert (H3 : (length s3 < length s2)%nat) by (rewrite E3, length_app; destruct u; [done|cbn; lia]).
  destruct (unit_value _) as [unit|] eqn:Eunit; [|done]. destruct (2 ^ 63 / unit <? v1) eqn:Ev; [done|]. apply Z.ltb_ge in Ev.
  assert (Hunit : 0 < unit) by (unfold unit_value in Eunit; repeat case_bool_decide; cbn in Eunit; repeat case_match; simplify_eq; done).
  destruct (0 <? f).
  - destruct (2 ^ 63 <? wrap _ _) eqn:Ew; [done|]. intros [= <- <-]. apply Z.ltb_ge in Ew. split; [lia|].
    split; [|done]. unfold wrap. by apply Z.mod_pos_bound.
  - intros [= <- <-]. split; [lia|]. pose proof (Z.mul_div_le (2 ^ 63) unit Hunit). nia.
Qed.

(** The fuel of the loop is enough. *)
Lemma parse_segments_fuel orig fuel : forall more d s, (length s <= fuel)%nat ->
  parse_segments orig (fuel + more) d s = parse_segments orig fuel d s.
Proof.
  induction fuel as [|fuel IH]; intros more d [|c s] Hlen; cbn in Hlen; try lia; [by destruct more|done|].
  cbn [Nat.add parse_segments]. destruct (parse_segment orig (c :: s)) as [[v rest]|e] eqn:E; [|done]. cbn [rbind].
  apply parse_segment_shorter in E as [E _]. destruct (2 ^ 63 <? _); [done|]. apply IH. cbn in E. lia.
Qed.

Lemma parse_segments_range orig fuel : forall d s d', parse_segments orig fuel d s = Ok d' -> 0 <= d <= 2 ^ 63 -> 0 <= d' <= 2 ^ 63.
Proof.
  induction fuel as [|fuel IH]; intros d [|c s] d'; cbn [parse_segments]; try by intros [= <-].
  intros ([v rest] & _ & E)%rbind_Ok_inv Hd. destruct (2 ^ 63 <? _) eqn:Ew; [done|]. apply Z.ltb_ge in Ew.
  apply (IH _ _ _ E). split; [|done]. unfold wrap. by apply Z.mod_pos_bound.
Qed.

(** A parsed duration is an [int64]. *)
Lemma ParseDuration_range raw d : ParseDuration raw = Ok d -> - 2 ^ 63 <= d < 2 ^ 63.
Proof.
  unfold ParseDuration. set (parts := match bytes_of raw with x2d :: s => _ | _ => _ end). destruct parts as [neg s].
  case_bool_decide; [by intros [= <-]|]. destruct (zlen s =? 0); [done|].
  intros (v & E & Hd)%rbind_Ok_inv. apply parse_segments_range in E; [|lia]. destruct neg; [injection Hd as <-; lia|].
  destruct (_ <? v) eqn:Ev; [done|]. injection Hd as <-. apply Z.ltb_ge in Ev. lia.
Qed.
