(* ===== verification/CommandLine.v ===== *)
(** * The command line

    [cli/help.go], [parse.go], [options.go], [errors.go] and [validate.go]: from the
    arguments of the process to a request, or the reason there is none.  A value
    and its [Set] flag are one [option]; the numbers of [math/big] are [Z].  Every
    option the parser knows is in the text of its command
    ([options_are_documented] of [CommandLineProofs]). *)
From Stdlib Require Import Ascii.
From S2P Require Import Prelude Utf8 GoText Netip NetipText TransferNumber Settings TransferStart RunRequest Listing GoTime.

(** ** Help *)
Definition defaultMeasureDuration : Z := 3 * Second.

Inductive HelpPage : Type := RootHelpPage | ListHelpPage | RunHelpPage.

#[export] Instance help_page_eq_dec : EqDecision HelpPage.
Proof. solve_decision. Defined.

(** [fmt.Sprintf] of a template whose only verbs are [%s]. *)
Fixpoint fill (template : string) (values : list string) : string :=
  match template with
  | String "%"%char (String "s"%char rest) => match values with v :: values => v +:+ fill rest values | [] => fill rest [] end
  | String c rest => String c (fill rest values)
  | EmptyString => EmptyString
  end.

Definition rootHelpText : string := "transferlanes runs a directory transfer over one or more preconfigured outbound
network paths.

Usage:
  transferlanes <command> [options]

Commands:
  list  Inspect local outbound network paths.
  run   Transfer a directory across selected outbound network paths.

Options:
  -h, --help  Show help.
  --version   Show version information.

Run 'transferlanes <command> --help' for more information about a command.
".

Definition listHelpTemplate : string := "Inspect local outbound network paths.

Usage:
  transferlanes list [options]

By default, list reads local address and routing facts only. It does not
contact external services or measure throughput.

Selection:
  --network <IPv4>  Select a local IPv4 address; repeatable and order
                    preserving.
  --all             Show all local IPv4 addresses; incompatible with
                    --network.

Diagnostics:
  --probe
      Observe public IP, ASN, and organization for usable selected networks.
  --probe-url <URL>
      Override the probe endpoint; requires --probe.
      Default: %s
  --measure
      Measure upload throughput for usable selected networks.
  --measure-url <URL>
      Override the upload endpoint; requires --measure.
      Default: %s
  --measure-duration <time>
      Override the upload window; requires --measure. Default: %s.

Measurements report Mbps for every successful network. Relative weights are
computed only when at least two networks succeed; failed networks get no
weight.

Options:
  -h, --help  Show this help.

Examples:
  transferlanes list
  transferlanes list --all
  transferlanes list --network 192.0.2.10 --probe
  transferlanes list --measure --measure-duration 5s
".

Definition runHelpTemplate : string := "Transfer a directory across selected outbound network paths.

Usage:
  transferlanes run --source <directory> --network <IPv4>[@weight]...
             [options] [--]
             <command containing one standalone {} argument>

Run requires Linux and effective root.

Source:
  --source <directory>
      Required normalized absolute source other than /. The final path
      component must be a real directory, not a symlink; ancestor components
      may be symlinks.
  --follow-symlinks
      Expand source symlinks under their logical names, including targets
      outside the source root. Broken, cyclic, or unreadable targets fail
      before commands. Source symlinks are omitted by default.

Regular files and empty directories are transferred. Special files are
omitted. Transfer views contain ordinary files and directories, not symlinks.

Networks:
  --network <IPv4>[@weight]
      Select a local IPv4 outbound path; repeatable and required. Weight is a
      positive integer or decimal, defaults to 1, and is relative to the full
      selected group.
  --auto-weight
      Measure at least two unweighted networks before file allocation.
  --measure-url <URL>
      Override the automatic measurement endpoint.
      Default: %s
  --measure-duration <time>
      Override the automatic measurement window. Default: %s.
  --dns <IP>
      Override DNS used by transfer namespaces; repeatable. The default uses
      the host resolver configuration.

Command:
  The command must contain exactly one argument equal to {}. An explicit --
  ends Transfer Lanes options; otherwise the first non-option starts command
  argv.
  Each transfer receives a mutually exclusive read-only directory view in
  place of {}. Transfer Lanes executes argv directly without a shell or
  tool-specific rewriting.

Display and logs:
  --no-tui
      Use plain output even when stdin and stdout are terminals.
  --mouse
      Start the interactive TUI in target mouse mode; inert in plain mode.
  --log-dir <directory>
      Preserve byte-exact raw logs for each transfer.

Options:
  -h, --help  Show this help.

Examples:
  transferlanes run --source /data/source --network 192.0.2.10 -- \
    rsync -a {} user@backup.example:/incoming/
  transferlanes run --source /data/source \
    --network 192.0.2.10 --network 198.51.100.20 -- \
    aws s3 cp --recursive {} s3://example-bucket/path/
".

Definition help_text (page : HelpPage) : string :=
  match page with
  | RootHelpPage => rootHelpText
  | ListHelpPage => fill listHelpTemplate [ProbeEndpointURL; DefaultEndpointURL; DurationString defaultMeasureDuration]
  | RunHelpPage => fill runHelpTemplate [DefaultEndpointURL; DurationString defaultMeasureDuration]
  end.

Definition help_name (page : HelpPage) : string :=
  match page with RootHelpPage => "root" | ListHelpPage => "list" | RunHelpPage => "run" end.

(** ** Usage errors *)
Record UsageError : Type := MkUsage { usage_message : string; usage_cause : error }.

Definition usage_text (e : UsageError) : string :=
  if bool_decide (usage_message e = "") then error_text (usage_cause e) else usage_message e.
Definition usageErrorf (text : string) : UsageError := MkUsage "" (ErrText text).
Definition usageError (context : string) (cause : error) : UsageError := MkUsage "" (ErrWrap context cause).
Definition usageErrorWithCause (message : string) (cause : error) : UsageError := MkUsage message cause.

(** A value, or a usage error. *)
Inductive parsed (A : Type) : Type :=
  | Parsed (value : A)
  | Misused (e : UsageError).
Arguments Parsed {A} value.
Arguments Misused {A} e.

Definition parsed_bind {A B} (p : parsed A) (k : A -> parsed B) : parsed B :=
  match p with Parsed a => k a | Misused e => Misused e end.

(** ** Options *)
Record listOptions : Type := MkListOptions {
  lo_networks : list string;
  lo_all : bool;
  lo_probe : bool;
  lo_probeURL : option string;
  lo_measure : bool;
  lo_measureURL : option string;
  lo_duration : option string
}.
Definition no_list_options : listOptions := MkListOptions [] false false None false None None.

Record runOptions : Type := MkRunOptions {
  ro_source : option string;
  ro_networks : list string;
  ro_auto : bool;
  ro_measureURL : option string;
  ro_duration : option string;
  ro_dns : list string;
  ro_logDir : option string;
  ro_noTUI : bool;
  ro_mouse : bool;
  ro_followSymlinks : bool;
  ro_argv : list string
}.
Definition run_options (argv : list string) : runOptions := MkRunOptions None [] false None None [] None false false false argv.

Definition duplicateOption (name : string) : UsageError := usageErrorf ("option " +:+ name +:+ " may be specified only once").
Definition value_required (name : string) : UsageError := usageErrorf ("option " +:+ name +:+ " requires a value").

Definition once {A} (name : string) (seen : bool) (o : A) : parsed A :=
  if seen then Misused (duplicateOption name) else Parsed o.
Definition is_set (value : option string) : bool := bool_decide (is_Some value).

Definition is_help (argument : string) : bool := bool_decide (argument = "-h") || bool_decide (argument = "--help").

(** *** Options of [list] *)
Definition list_flags : list string := ["--all"; "--probe"; "--measure"].
Definition list_values : list string := ["--network"; "--probe-url"; "--measure-url"; "--measure-duration"].

(** What a flag, and an option with its value, do to the options before them. *)
Definition set_list_flag (name : string) (o : listOptions) : parsed listOptions :=
  let '(MkListOptions networks all probe probeURL measure measureURL duration) := o in
  if bool_decide (name = "--all") then once name all (MkListOptions networks true probe probeURL measure measureURL duration)
  else if bool_decide (name = "--probe") then once name probe (MkListOptions networks all true probeURL measure measureURL duration)
  else if bool_decide (name = "--measure") then once name measure (MkListOptions networks all probe probeURL true measureURL duration)
  else Misused (usageErrorf ("unknown list option " +:+ name)).

Definition set_list_value (name : string) (value : string) (o : listOptions) : parsed listOptions :=
  let '(MkListOptions networks all probe probeURL measure measureURL duration) := o in
  if bool_decide (name = "--network") then Parsed (MkListOptions (networks ++ [value]) all probe probeURL measure measureURL duration)
  else if bool_decide (name = "--probe-url")
  then once name (is_set probeURL) (MkListOptions networks all probe (Some value) measure measureURL duration)
  else if bool_decide (name = "--measure-url")
  then once name (is_set measureURL) (MkListOptions networks all probe probeURL measure (Some value) duration)
  else if bool_decide (name = "--measure-duration")
  then once name (is_set duration) (MkListOptions networks all probe probeURL measure measureURL (Some value))
  else Misused (usageErrorf ("unknown list option " +:+ name)).

(** The loop of [parseList]: [None] when it meets help. *)
Fixpoint scan_list (argv : list string) (o : listOptions) : parsed (option listOptions) :=
  match argv with
  | [] => Parsed (Some o)
  | name :: rest =>
      if is_help name then Parsed None
      else if bool_decide (name ∈ list_flags) then parsed_bind (set_list_flag name o) (scan_list rest)
      else if bool_decide (name ∈ list_values) then
        match rest with
        | value :: rest =>
            if bool_decide (value = "--") then Misused (value_required name)
            else parsed_bind (set_list_value name value o) (scan_list rest)
        | [] => Misused (value_required name)
        end
      else Misused (usageErrorf ("unknown list option " +:+ name))
  end.

(** *** Options of [run] *)
Definition run_flags : list string := ["--auto-weight"; "--no-tui"; "--mouse"; "--follow-symlinks"].
Definition run_values : list string := ["--source"; "--network"; "--measure-url"; "--measure-duration"; "--dns"; "--log-dir"].

Definition runOptionArity (name : string) : option nat :=
  if bool_decide (name ∈ run_flags) then Some 0%nat
  else if bool_decide (name ∈ run_values) then Some 1%nat
  else None.

Definition set_run_flag (name : string) (o : runOptions) : parsed runOptions :=
  let '(MkRunOptions source networks auto measureURL duration dns logDir noTUI mouse follow argv) := o in
  if bool_decide (name = "--auto-weight")
  then once name auto (MkRunOptions source networks true measureURL duration dns logDir noTUI mouse follow argv)
  else if bool_decide (name = "--no-tui")
  then once name noTUI (MkRunOptions source networks auto measureURL duration dns logDir true mouse follow argv)
  else if bool_decide (name = "--mouse")
  then once name mouse (MkRunOptions source networks auto measureURL duration dns logDir noTUI true follow argv)
  else if bool_decide (name = "--follow-symlinks")
  then once name follow (MkRunOptions source networks auto measureURL duration dns logDir noTUI mouse true argv)
  else Misused (usageErrorf ("unknown run option " +:+ name)).

Definition set_run_value (name : string) (value : string) (o : runOptions) : parsed runOptions :=
  let '(MkRunOptions source networks auto measureURL duration dns logDir noTUI mouse follow argv) := o in
  if bool_decide (name = "--source")
  then once name (is_set source) (MkRunOptions (Some value) networks auto measureURL duration dns logDir noTUI mouse follow argv)
  else if bool_decide (name = "--network")
  then Parsed (MkRunOptions source (networks ++ [value]) auto measureURL duration dns logDir noTUI mouse follow argv)
  else if bool_decide (name = "--measure-url")
  then once name (is_set measureURL) (MkRunOptions source networks auto (Some value) duration dns logDir noTUI mouse follow argv)
  else if bool_decide (name = "--measure-duration")
  then once name (is_set duration) (MkRunOptions source networks auto measureURL (Some value) dns logDir noTUI mouse follow argv)
  else if bool_decide (name = "--dns")
  then Parsed (MkRunOptions source networks auto measureURL duration (dns ++ [value]) logDir noTUI mouse follow argv)
  else if bool_decide (name = "--log-dir")
  then once name (is_set logDir) (MkRunOptions source networks auto measureURL duration dns (Some value) noTUI mouse follow argv)
  else Misused (usageErrorf ("unknown run option " +:+ name)).

(** What [splitRunCommand] finds: help, or the options and the command. *)
Inductive split : Type :=
  | SplitHelp
  | SplitCommand (options child : list string).

Definition split_after (before : list string) (s : split) : split :=
  match s with SplitHelp => SplitHelp | SplitCommand options child => SplitCommand (before ++ options) child end.

Fixpoint splitRunCommand (argv : list string) : parsed split :=
  match argv with
  | [] => Parsed (SplitCommand [] [])
  | argument :: rest =>
      if bool_decide (argument = "--") then Parsed (SplitCommand [] rest)
      else if negb (HasPrefix argument "-") then Parsed (SplitCommand [] (argument :: rest))
      else if is_help argument then Parsed SplitHelp
      else
        match runOptionArity argument with
        | None => Misused (usageErrorf ("unknown run option " +:+ argument))
        | Some 0%nat => parsed_bind (splitRunCommand rest) (fun s => Parsed (split_after [argument] s))
        | Some _ =>
            match rest with
            | value :: rest =>
                if bool_decide (value = "--") then Misused (value_required argument)
                else parsed_bind (splitRunCommand rest) (fun s => Parsed (split_after [argument; value] s))
            | [] => Misused (value_required argument)
            end
        end
  end.

(** The loop of [parseRun]. *)
Fixpoint scan_run (argv : list string) (o : runOptions) : parsed runOptions :=
  match argv with
  | [] => Parsed o
  | name :: rest =>
      if bool_decide (name ∈ run_flags) then parsed_bind (set_run_flag name o) (scan_run rest)
      else if bool_decide (name ∈ run_values) then
        match rest with
        | value :: rest =>
            if bool_decide (value = "--") then Misused (value_required name)
            else parsed_bind (set_run_value name value o) (scan_run rest)
        | [] => Misused (value_required name)
        end
      else Misused (usageErrorf ("unknown run option " +:+ name))
  end.

(** ** Weights *)
Record decimalWeight : Type := MkDecimal { coefficient : Z; scale : Z }.

Record parsedNetworkSelection : Type := MkSelection {
  addressText : string;
  ps_localIP : Addr;
  ps_weight : option decimalWeight;
  ps_explicitWeight : bool;
  ps_weightTextInvalid : bool;
  ps_addressTextContainsNUL : bool
}.

Definition asciiDigits (value : string) : bool :=
  if bool_decide (value = "") then false else forallb is_digit (bytes_of value).

(** [SetString] of decimal digits. *)
Definition decimal_value (digits : string) : Z := foldl (fun v b => v * 10 + (b2z b - 0x30)) 0 (bytes_of digits).

Definition parseWeight (raw : string) : option decimalWeight :=
  let '(whole, fraction, decimal) := Cut raw (Ascii.ascii_of_nat 46) in
  if negb (asciiDigits whole) || (decimal && negb (asciiDigits fraction)) then None
  else
    let coefficient := decimal_value (whole +:+ fraction) in
    if coefficient <=? 0 then None else Some (MkDecimal coefficient (slen fraction)).

Definition parse_selection (raw : string) : parsedNetworkSelection :=
  let '(addressText, weightText, explicit) := Cut raw (Ascii.ascii_of_nat 64) in
  let weight := if explicit then parseWeight weightText else None in
  MkSelection addressText (match ParseAddr addressText with Ok address => address | Err _ => AddrNone end)
    weight explicit (explicit && bool_decide (weight = None)) (contains_byte x00 addressText).

Definition selection_weight (s : parsedNetworkSelection) : decimalWeight := default (MkDecimal 1 0) (ps_weight s).
Definition maxScale (selections : list parsedNetworkSelection) : Z :=
  foldl (fun m s => match ps_weight s with Some w => if m <? scale w then scale w else m | None => m end) 0 selections.
Definition scaled_weight (maxScale : Z) (s : parsedNetworkSelection) : Z :=
  coefficient (selection_weight s) * 10 ^ (maxScale - scale (selection_weight s)).

(** [IsUint64] and a positive [Sign]; the zero value otherwise. *)
Definition uint64_weight (weight : Z) : Z := if (0 <? weight) && (weight <=? MaxUint64) then weight else 0.

Definition normalizeNetworkWeights (selections : list parsedNetworkSelection) : list Z :=
  if existsb ps_weightTextInvalid selections then replicate (length selections) 0
  else
    let values := scaled_weight (maxScale selections) <$> selections in
    let divisor := foldl Z.gcd 0 values in
    (fun value => uint64_weight (Z.quot value divisor)) <$> values.

(** [normalizedWeight] of each selection is kept beside it. *)
Definition parseNetworkSelections (values : list string) : list (parsedNetworkSelection * Z) :=
  let selections := parse_selection <$> values in
  zip selections (normalizeNetworkWeights selections).

Definition networkArguments (selections : list (parsedNetworkSelection * Z)) : list NetworkArgument :=
  (fun '(s, weight) => MkArgument (ps_localIP s) weight (ps_explicitWeight s) (ps_weightTextInvalid s) (ps_addressTextContainsNUL s)) <$> selections.

Definition parseResolvers (values : list string) : list Addr :=
  (fun raw => match ParseAddr raw with Ok address => address | Err _ => AddrNone end) <$> values.

Definition parseDuration (raw : option string) : parsed Z :=
  match raw with
  | None => Parsed defaultMeasureDuration
  | Some raw => match ParseDuration raw with Ok d => Parsed d | Err e => Misused (usageError "parse --measure-duration" e) end
  end.

(** ** Requests *)
Section Build.
Context `{URLs}.

Inductive CLIResult : Type :=
  | Help (page : HelpPage)
  | Version
  | CLIList (request : ListRequest)
  | Run (request : RunRequest).

Definition as_usage {A} (context : string) (r : result A) : parsed A :=
  match r with Ok a => Parsed a | Err e => Misused (usageError context e) end.

Definition list_probe (o : listOptions) : parsed (option ProbeEndpoint) :=
  if lo_probe o then
    match lo_probeURL o with
    | Some url => parsed_bind (as_usage "parse --probe-url" (NewEndpoint url)) (fun endpoint => Parsed (Some endpoint))
    | None => Parsed (Some DefaultEndpoint)
    end
  else Parsed None.

Definition list_measure (o : listOptions) : parsed (option Settings) :=
  if lo_measure o then
    parsed_bind (parseDuration (lo_duration o)) (fun duration =>
    parsed_bind (as_usage "construct --measure request" (NewSettings (default DefaultEndpointURL (lo_measureURL o)) duration)) (fun window =>
    Parsed (Some window)))
  else Parsed None.

Definition buildList (o : listOptions) : parsed CLIResult :=
  if is_set (lo_probeURL o) && negb (lo_probe o) then Misused (usageErrorf "--probe-url requires --probe")
  else if (is_set (lo_measureURL o) || is_set (lo_duration o)) && negb (lo_measure o)
  then Misused (usageErrorf "measure overrides require --measure")
  else
    parsed_bind (list_probe o) (fun probeEndpoint =>
    parsed_bind (list_measure o) (fun measureWindow =>
    parsed_bind (as_usage "construct list request" (NewListRequest (lo_networks o) (lo_all o) probeEndpoint measureWindow)) (fun request =>
    Parsed (CLIList request)))).

(** The settings of an automatic run, or why there are none: the zero settings
    are kept and the request is rejected later. *)
Definition run_settings (o : runOptions) : Settings * option UsageError :=
  if ro_auto o then
    match parseDuration (ro_duration o) with
    | Misused e => (settings_zero, Some e)
    | Parsed duration =>
        match NewSettings (default DefaultEndpointURL (ro_measureURL o)) duration with
        | Ok settings => (settings, None)
        | Err e => (settings_zero, Some (usageError "construct automatic measure request" e))
        end
    end
  else (settings_zero, None).

Definition resolverAddressText (failure : RequestValidationFailure) (values : list string) : string :=
  match ResolverIndex failure ≫= (fun index => values !! Z.to_nat index) with
  | Some text => text
  | None => AddrString (failure_address failure)
  end.

Definition networkAddressText (failure : RequestValidationFailure) (selections : list parsedNetworkSelection) : string :=
  match NetworkIndex failure ≫= (fun index => selections !! Z.to_nat index) with
  | Some selection => addressText selection
  | None =>
      match list_find (fun s => ps_localIP s = failure_address failure) selections with
      | Some (_, selection) => addressText selection
      | None => AddrString (failure_address failure)
      end
  end.

Definition invalidNetworkWeight : UsageError := usageErrorf "--network has an invalid weight".

(** The failure in the words of the command line; every reason has some. *)
Definition runRequestUsageError (failure : RequestValidationFailure) (selections : list parsedNetworkSelection)
    (resolverTexts : list string) (settingsError : option UsageError) : UsageError :=
  let because message := usageErrorWithCause message (ErrText (failure_text failure)) in
  match reason failure with
  | RequestSourcePathInvalid => because "--source must be a clean absolute directory other than /"
  | RequestNetworkCountInvalid => because ("run requires 1.." +:+ pretty (failure_maximum failure) +:+ " --network values")
  | RequestManualMeasureOverride => because "measure overrides require --auto-weight"
  | RequestNetworkWeightSyntaxInvalid | RequestManualNetworkWeightInvalid => invalidNetworkWeight
  | RequestNetworkAddressContainsNUL => usageErrorf "--network contains NUL"
  | RequestNetworkAddressSyntaxInvalid =>
      usageErrorf ("--network " +:+ Quote (networkAddressText failure selections) +:+ " is not IPv4")
  | RequestAutomaticNetworkCountInvalid => because "--auto-weight requires at least two networks"
  | RequestAutomaticExplicitWeightInvalid => because "--auto-weight cannot be combined with an explicit @weight"
  | RequestNetworkAddressInvalid => because ("--network " +:+ Quote (networkAddressText failure selections) +:+ " is not IPv4")
  | RequestNetworkRepeated => because ("--network repeats " +:+ AddrString (failure_address failure))
  | RequestMeasureSettingsInvalid =>
      match settingsError with Some e => e | None => because "automatic measure settings are invalid" end
  | RequestDNSCountInvalid => because ("run accepts at most " +:+ pretty (failure_maximum failure) +:+ " --dns values")
  | RequestDNSAddressSyntaxInvalid =>
      usageErrorf ("--dns " +:+ Quote (resolverAddressText failure resolverTexts) +:+ " is not a usable nameserver IP")
  | RequestDNSAddressInvalid => because ("--dns " +:+ Quote (resolverAddressText failure resolverTexts) +:+ " is not a usable nameserver IP")
  | RequestLogDirectoryInvalid => because "--log-dir must be a clean absolute path"
  | RequestChildArgumentCountInvalid => because "run child command exceeds its private argument-count representation"
  | RequestChildArgumentContainsNUL => because "child argv contains NUL"
  | RequestChildPlaceholderCountInvalid => because "child argv must contain exactly one standalone {} argument"
  end.

Definition buildRun (o : runOptions) : parsed CLIResult :=
  match ro_source o with
  | None => Misused (usageErrorf "--source is required")
  | Some source =>
      let selections := parseNetworkSelections (ro_networks o) in
      let '(settings, settingsError) := run_settings o in
      match NewRequest source (ro_auto o) (networkArguments selections) (is_set (ro_measureURL o) || is_set (ro_duration o))
              settings (parseResolvers (ro_dns o)) (ro_argv o) (ro_logDir o) (MkDisplay (ro_noTUI o) (ro_mouse o)) (ro_followSymlinks o) with
      | Accepted request => Parsed (Run request)
      | Rejected failure => Misused (runRequestUsageError failure selections.*1 (ro_dns o) settingsError)
      end
  end.

(** ** Arguments *)
Definition parseList (argv : list string) : parsed CLIResult :=
  parsed_bind (scan_list argv no_list_options) (fun scanned =>
  match scanned with None => Parsed (Help ListHelpPage) | Some o => buildList o end).

Definition parseRun (argv : list string) : parsed CLIResult :=
  parsed_bind (splitRunCommand argv) (fun s =>
  match s with
  | SplitHelp => Parsed (Help RunHelpPage)
  | SplitCommand options child => parsed_bind (scan_run options (run_options child)) buildRun
  end).

Definition Parse (argv : list string) : parsed CLIResult :=
  match argv with
  | [] => Misused (usageErrorf "a subcommand is required (list or run)")
  | command :: rest =>
      if (zlen argv =? 1) && is_help command then Parsed (Help RootHelpPage)
      else if (zlen argv =? 1) && bool_decide (command = "--version") then Parsed Version
      else if bool_decide (command = "list") then parseList rest
      else if bool_decide (command = "run") then parseRun rest
      else Misused (usageErrorf ("unknown subcommand " +:+ command +:+ " (expected list or run)"))
  end.
End Build.
