(* ===== verification/CommandLineProofs.v ===== *)
(** * What the command line means

    The grammar of [list] and [run], and that the parser accepts exactly it: the
    options in any order, each of the single ones at most once, and the command
    after [--] or from the first argument that is no option. *)
From S2P Require TransferStartProofs.
From S2P Require Import Prelude Utf8 GoText Paths Netip NetipText TransferNumber Weights Settings TransferStart RunRequest RunIntent Listing GoTime CommandLine.

(** ** The grammar *)
Inductive item : Type :=
  | Flag (name : string)
  | Valued (name value : string).

Definition item_name (i : item) : string := match i with Flag name => name | Valued name _ => name end.
Definition spell (i : item) : list string := match i with Flag name => [name] | Valued name value => [name; value] end.
Definition spelled (items : list item) : list string := items ≫= spell.

Definition item_ok (flags values : list string) (i : item) : Prop :=
  match i with Flag name => name ∈ flags | Valued name value => name ∈ values /\ value <> "--" end.

(** Options that are not repeatable are given once. *)
Definition once_each (repeatable : list string) (items : list item) : Prop :=
  NoDup (filter (fun name => name ∉ repeatable) (item_name <$> items)).

Definition values_of (name : string) (items : list item) : list string :=
  omap (fun i => match i with Valued n value => if bool_decide (n = name) then Some value else None | Flag _ => None end) items.
Definition has (name : string) (items : list item) : bool := bool_decide (name ∈ item_name <$> items).

Definition list_options_of (items : list item) : listOptions :=
  MkListOptions (values_of "--network" items) (has "--all" items) (has "--probe" items) (head (values_of "--probe-url" items))
    (has "--measure" items) (head (values_of "--measure-url" items)) (head (values_of "--measure-duration" items)).

Definition run_options_of (items : list item) (child : list string) : runOptions :=
  MkRunOptions (head (values_of "--source" items)) (values_of "--network" items) (has "--auto-weight" items)
    (head (values_of "--measure-url" items)) (head (values_of "--measure-duration" items)) (values_of "--dns" items)
    (head (values_of "--log-dir" items)) (has "--no-tui" items) (has "--mouse" items) (has "--follow-symlinks" items) child.

Lemma values_of_snoc name items i : values_of name (items ++ [i]) = values_of name items ++ values_of name [i].
Proof. unfold values_of. by rewrite omap_app. Qed.

Lemma has_snoc name items i : has name (items ++ [i]) = has name items || bool_decide (item_name i = name).
Proof.
  unfold has. rewrite fmap_app. apply eq_bool_prop_intro. rewrite orb_True, !bool_decide_spec, elem_of_app. cbn. rewrite list_elem_of_singleton. naive_solver.
Qed.

Lemma head_snoc {A} (l : list A) x : head (l ++ [x]) = Some (default x (head l)).
Proof. by destruct l. Qed.

Lemma once_each_snoc repeatable items i :
  once_each repeatable (items ++ [i]) <->
  once_each repeatable items /\ (item_name i ∉ repeatable -> item_name i ∉ item_name <$> items).
Proof.
  unfold once_each. rewrite fmap_app, filter_app. cbn [fmap list_fmap]. destruct (decide (item_name i ∉ repeatable)) as [Hn|Hn].
  - rewrite filter_cons_True, filter_nil by done. rewrite NoDup_app. split.
    + intros (H1 & H2 & _). split; [done|]. intros _ Hin. apply (H2 (item_name i)); [by apply list_elem_of_filter|left].
    + intros [H1 H2]. split_and!; [done| |apply NoDup_singleton]. intros x Hx ->%list_elem_of_singleton.
      apply list_elem_of_filter in Hx as [_ Hx]. by apply H2.
  - rewrite filter_cons_False, filter_nil, app_nil_r by done. naive_solver.
Qed.

(** An option with a value has been given before when its name has. *)
Lemma values_of_None flags values name items :
  Forall (item_ok flags values) items -> name ∉ flags -> values_of name items = [] <-> name ∉ item_name <$> items.
Proof.
  intros Hok Hn. induction Hok as [|i items Hi _ IH]; [split; [intros _; apply not_elem_of_nil|done]|].
  rewrite fmap_cons, not_elem_of_cons. destruct i as [n|n v]; cbn in *.
  - rewrite IH. split; [|by intros [_ ?]]. intros ?. split; [by intros ->|done].
  - case_bool_decide as E; [naive_solver|]. rewrite IH. naive_solver.
Qed.

Lemma once_Parsed {A} name seen (o o' : A) : once name seen o = Parsed o' <-> seen = false /\ o = o'.
Proof. unfold once. destruct seen; naive_solver. Qed.

Lemma is_set_head (l : list string) : is_set (head l) = false <-> l = [].
Proof. unfold is_set. rewrite bool_decide_eq_false. destruct l; cbn; [split; [done|intros _ [? ?]; done]|]. split; [|done]. intros Hn. destruct Hn. eauto. Qed.

Lemma has_false name items : has name items = false <-> name ∉ item_name <$> items.
Proof. unfold has. by rewrite bool_decide_eq_false. Qed.

(** Comparisons of two given strings. *)
Ltac compare_strings :=
  repeat match goal with
  | |- context [bool_decide (@eq string ?a ?b)] =>
      let e := eval vm_compute in (bool_decide (@eq string a b)) in
      match e with true => idtac | false => idtac end; change (bool_decide (@eq string a b)) with e
  end.

Ltac each_name H := repeat (apply elem_of_cons in H as [->|H]); [..|by apply not_elem_of_nil in H].

(** Evaluates the options of [items ++ [i]] for an option [i]. *)
Ltac last_option :=
  rewrite ?values_of_snoc, ?has_snoc; cbn [values_of omap list_omap item_name]; compare_strings;
  cbn [app]; rewrite ?app_nil_r, ?orb_true_r, ?orb_false_r.

Definition single (repeatable : list string) (name : string) (items : list item) : Prop :=
  name ∉ repeatable -> name ∉ item_name <$> items.

Lemma single_not {repeatable} {name} {items} : name ∉ repeatable -> single repeatable name items <-> name ∉ item_name <$> items.
Proof. unfold single. tauto. Qed.

Ltac not_listed := match goal with |- ?n ∉ ?l => apply (bool_decide_eq_false_1 (n ∈ l)); vm_compute; reflexivity end.
Ltac step_done := split; intros [? ?]; subst; (split; [done|done]).

Lemma set_list_flag_step items name o : name ∈ list_flags ->
  set_list_flag name (list_options_of items) = Parsed o <->
  single ["--network"] name items /\ o = list_options_of (items ++ [Flag name]).
Proof.
  intros Hn. unfold list_options_of. each_name Hn; cbn [set_list_flag]; compare_strings; cbv iota;
    rewrite once_Parsed, has_false, single_not by not_listed; last_option; step_done.
Qed.

(** A flag is no option with a value. *)
Lemma disjoint_names (flags values : list string) : forallb (fun n => negb (bool_decide (n ∈ flags))) values = true ->
  forall n, n ∈ values -> n ∉ flags.
Proof. intros Hf n Hn. rewrite forallb_forall in Hf. apply list_elem_of_In, Hf, negb_true_iff, bool_decide_eq_false in Hn. done. Qed.

(** A single option with a value. *)
Ltac single_value Hname :=
  rewrite once_Parsed, is_set_head, Hname, single_not by not_listed;
  last_option; rewrite head_snoc; split; intros [Hx ?]; (split; [done|]); apply Hname in Hx; subst; by rewrite Hx.
(** A repeatable one. *)
Ltac repeatable_value :=
  last_option; split; [intros [= <-]; split; [|done]|by intros [_ ->]];
  let H := fresh in intros H; destruct H; rewrite ?elem_of_cons; tauto.

Lemma set_list_value_step items name value o : Forall (item_ok list_flags list_values) items -> name ∈ list_values ->
  set_list_value name value (list_options_of items) = Parsed o <->
  single ["--network"] name items /\ o = list_options_of (items ++ [Valued name value]).
Proof.
  intros Hok Hn. unfold list_options_of.
  assert (Hname : values_of name items = [] <-> name ∉ item_name <$> items).
  { apply (values_of_None list_flags list_values); [done|]. by apply (disjoint_names list_flags list_values). }
  each_name Hn; cbn [set_list_value]; compare_strings; cbv iota; [repeatable_value|single_value Hname..].
Qed.

Lemma set_run_flag_step items child name o : name ∈ run_flags ->
  set_run_flag name (run_options_of items child) = Parsed o <->
  single ["--network"; "--dns"] name items /\ o = run_options_of (items ++ [Flag name]) child.
Proof.
  intros Hn. unfold run_options_of. each_name Hn; cbn [set_run_flag]; compare_strings; cbv iota;
    rewrite once_Parsed, has_false, single_not by not_listed; last_option; step_done.
Qed.

Lemma set_run_value_step items child name value o : Forall (item_ok run_flags run_values) items -> name ∈ run_values ->
  set_run_value name value (run_options_of items child) = Parsed o <->
  single ["--network"; "--dns"] name items /\ o = run_options_of (items ++ [Valued name value]) child.
Proof.
  intros Hok Hn. unfold run_options_of.
  assert (Hname : values_of name items = [] <-> name ∉ item_name <$> items).
  { apply (values_of_None run_flags run_values); [done|]. by apply (disjoint_names run_flags run_values). }
  each_name Hn; cbn [set_run_value]; compare_strings; cbv iota;
    [single_value Hname|repeatable_value|single_value Hname..|repeatable_value|single_value Hname].
Qed.

(** ** Scanning *)
Lemma parsed_bind_Parsed {A B} (p : parsed A) (k : A -> parsed B) b :
  parsed_bind p k = Parsed b <-> exists a, p = Parsed a /\ k a = Parsed b.
Proof. destruct p; cbn; naive_solver. Qed.

(** The two loops of the parser, and what they have in common. *)
Section Scan.
Context {O : Type} (help : string -> bool) (flags values repeatable : list string).
Context (set_flag : string -> O -> parsed O) (set_value : string -> string -> O -> parsed O) (unknown : string -> UsageError).
Context (options_of : list item -> O).

Fixpoint scan (argv : list string) (o : O) : parsed (option O) :=
  match argv with
  | [] => Parsed (Some o)
  | name :: rest =>
      if help name then Parsed None
      else if bool_decide (name ∈ flags) then parsed_bind (set_flag name o) (scan rest)
      else if bool_decide (name ∈ values) then
        match rest with
        | value :: rest =>
            if bool_decide (value = "--") then Misused (value_required name)
            else parsed_bind (set_value name value o) (scan rest)
        | [] => Misused (value_required name)
        end
      else Misused (unknown name)
  end.

Hypothesis help_apart : forall name, name ∈ flags ++ values -> help name = false.
Hypothesis disjoint : forall name, name ∈ values -> name ∉ flags.
Hypothesis flag_step : forall items name o, name ∈ flags ->
  set_flag name (options_of items) = Parsed o <-> single repeatable name items /\ o = options_of (items ++ [Flag name]).
Hypothesis value_step : forall items name value o, Forall (item_ok flags values) items -> name ∈ values ->
  set_value name value (options_of items) = Parsed o <-> single repeatable name items /\ o = options_of (items ++ [Valued name value]).

Lemma once_each_prefix items more : once_each repeatable (items ++ more) -> once_each repeatable items.
Proof. unfold once_each. rewrite fmap_app, filter_app, NoDup_app. by intros (? & _). Qed.

Lemma once_each_cons items i more : once_each repeatable (items ++ i :: more) ->
  single repeatable (item_name i) items /\ once_each repeatable (items ++ [i]).
Proof.
  intros Ho. rewrite (app_assoc items [i] more : items ++ i :: more = _) in Ho. apply once_each_prefix in Ho. split; [|done].
  by apply once_each_snoc in Ho as [_ ?].
Qed.

(** Where the loop stops: at the end, or at help. *)
Definition stop (scanned : option O) (items : list item) (rest : list string) : Prop :=
  match scanned with
  | Some o => rest = [] /\ o = options_of items
  | None => exists h after, rest = h :: after /\ help h = true
  end.

Lemma scan_Parsed n : forall argv items scanned, (length argv < n)%nat ->
  Forall (item_ok flags values) items -> once_each repeatable items ->
  scan argv (options_of items) = Parsed scanned <->
  exists more rest, argv = spelled more ++ rest /\ Forall (item_ok flags values) more /\ once_each repeatable (items ++ more)
    /\ stop scanned (items ++ more) rest.
Proof.
  induction n as [|n IH]; intros argv items scanned Hlen Hok Honce; [lia|]. split.
  - destruct argv as [|name rest]; cbn [scan].
    { intros [= <-]. exists [], []. rewrite !app_nil_r. split; [done|]. split; [by constructor|]. split; [done|]. by split. }
    destruct (help name) eqn:Eh.
    { intros [= <-]. exists [], (name :: rest). rewrite app_nil_r. split_and!; [done|constructor|done|]. by exists name, rest. }
    case_bool_decide as Hf.
    { intros (o & Ho & Hs)%parsed_bind_Parsed. apply flag_step in Ho as [Hsingle ->]; [|done].
      apply IH in Hs as (more & rest' & -> & Hmore & Ho & Hstop); [|cbn in Hlen; lia|apply Forall_app_2; [done|by repeat constructor]|by apply once_each_snoc].
      rewrite <- app_assoc in Ho, Hstop. exists (Flag name :: more), rest'. split_and!; [done|by constructor|done|done]. }
    case_bool_decide as Hv; [|done]. destruct rest as [|value rest]; [done|]. case_bool_decide as Hd; [done|].
    intros (o & Ho & Hs)%parsed_bind_Parsed. apply value_step in Ho as [Hsingle ->]; [|done..].
    apply IH in Hs as (more & rest' & -> & Hmore & Ho & Hstop); [|cbn in Hlen; lia|apply Forall_app_2; [done|by repeat constructor]|by apply once_each_snoc].
    rewrite <- app_assoc in Ho, Hstop. exists (Valued name value :: more), rest'. split_and!; [done|by constructor|done|done].
  - intros (more & rest & -> & Hmore & Ho & Hstop). destruct more as [|i more].
    { cbn. rewrite app_nil_r in Hstop. destruct scanned as [o|]; cbn in Hstop; [by destruct Hstop as [-> ->]|].
      destruct Hstop as (h & after & -> & Hh). cbn. by rewrite Hh. }
    apply Forall_cons in Hmore as [Hi Hmore]. apply once_each_cons in Ho as Hi1. destruct Hi1 as [Hsingle Ho1].
    rewrite (app_assoc items [i] more : items ++ i :: more = _) in Ho, Hstop.
    assert (Hrec : scan (spelled more ++ rest) (options_of (items ++ [i])) = Parsed scanned).
    { apply IH; [|apply Forall_app_2; [done|by repeat constructor]|done|by exists more, rest].
      clear -Hlen. unfold spelled in *. destruct i; cbn in Hlen; lia. }
    destruct i as [name|name value]; cbn [spelled mbind list_bind spell app scan item_ok] in *.
    + rewrite help_apart by (apply elem_of_app; by left). rewrite bool_decide_eq_true_2 by done.
      apply parsed_bind_Parsed. eexists. split; [by apply flag_step|done].
    + destruct Hi as [Hv Hd]. rewrite help_apart by (apply elem_of_app; by right). rewrite bool_decide_eq_false_2 by (by apply disjoint).
      rewrite bool_decide_eq_true_2 by done. rewrite bool_decide_eq_false_2 by done.
      apply parsed_bind_Parsed. eexists. split; [by apply value_step|done].
Qed.
End Scan.

Lemma help_is_apart flags : forallb (fun n => negb (is_help n)) flags = true -> forall name, name ∈ flags -> is_help name = false.
Proof. intros Hf n Hn. rewrite forallb_forall in Hf. by apply list_elem_of_In, Hf, negb_true_iff in Hn. Qed.

Lemma scan_list_is_scan : forall argv o,
  scan_list argv o = scan is_help list_flags list_values set_list_flag set_list_value (fun name => usageErrorf ("unknown list option " +:+ name)) argv o.
Proof. reflexivity. Qed.

Lemma scan_list_Parsed argv scanned :
  scan_list argv no_list_options = Parsed scanned <->
  exists items rest, argv = spelled items ++ rest /\ Forall (item_ok list_flags list_values) items /\ once_each ["--network"] items
    /\ stop is_help list_options_of scanned items rest.
Proof.
  rewrite scan_list_is_scan. change no_list_options with (list_options_of []).
  apply (scan_Parsed _ _ _ ["--network"] _ _ _ list_options_of) with (n := S (length argv)) (items := []); [..|by constructor|by constructor].
  - by apply help_is_apart.
  - by apply disjoint_names.
  - intros. by apply set_list_flag_step.
  - intros. by apply set_list_value_step.
  - lia.
Qed.

Section Child.
Context (child : list string).

Lemma scan_run_is_scan : forall n argv o, (length argv < n)%nat ->
  parsed_bind (scan_run argv o) (fun o => Parsed (Some o)) =
  scan (fun _ => false) run_flags run_values set_run_flag set_run_value (fun name => usageErrorf ("unknown run option " +:+ name)) argv o.
Proof.
  induction n as [|n IH]; intros argv o Hlen; [lia|]. destruct argv as [|name rest]; [done|]. cbn [scan_run scan]. cbn in Hlen.
  case_bool_decide; [|case_bool_decide; [|done]].
  - destruct (set_run_flag name o); [|done]. cbn [parsed_bind]. apply IH. lia.
  - destruct rest as [|value rest]; [done|]. case_bool_decide; [done|]. destruct (set_run_value name value o); [|done].
    cbn [parsed_bind]. cbn in Hlen. apply IH. lia.
Qed.

Lemma spelled_inj items : forall more,
  Forall (item_ok run_flags run_values) items -> Forall (item_ok run_flags run_values) more -> spelled items = spelled more -> items = more.
Proof.
  assert (Hd := disjoint_names run_flags run_values eq_refl).
  induction items as [|[n|n v] items IH]; intros [|[n'|n' v'] more] Hi Hm E; try done;
    apply Forall_cons in Hi as [Hi1 Hi]; apply Forall_cons in Hm as [Hm1 Hm]; cbn in E; simplify_eq/=.
  - f_equal. by apply IH.
  - destruct Hm1 as [Hm1 _]. by apply Hd in Hm1.
  - destruct Hi1 as [Hi1 _]. by apply Hd in Hi1.
  - f_equal. by apply IH.
Qed.

Lemma scan_run_Parsed items o : Forall (item_ok run_flags run_values) items ->
  scan_run (spelled items) (run_options child) = Parsed o <-> once_each ["--network"; "--dns"] items /\ o = run_options_of items child.
Proof.
  intros Hok. assert (Hs : scan_run (spelled items) (run_options child) = Parsed o <->
    parsed_bind (scan_run (spelled items) (run_options child)) (fun o => Parsed (Some o)) = Parsed (Some o)).
  { destruct (scan_run _ _); cbn; naive_solver. }
  rewrite Hs, (scan_run_is_scan (S (length (spelled items)))) by lia.
  change (run_options child) with (run_options_of [] child).
  rewrite (scan_Parsed _ _ _ ["--network"; "--dns"] _ _ _ (fun items => run_options_of items child)) with (n := S (length (spelled items)));
    [|done|by apply disjoint_names|intros; by apply set_run_flag_step|intros; by apply set_run_value_step|lia|by constructor|by constructor].
  split.
  - intros (more & rest & E & Hmore & Ho & [-> ->]). rewrite app_nil_r in E. by rewrite (spelled_inj items more).
  - intros [Ho ->]. exists items, []. rewrite app_nil_r. by split_and!.
Qed.
End Child.

(** What follows the options: nothing, [--] and the command, or the command. *)
Definition command_at (rest child : list string) : Prop :=
  rest = [] /\ child = [] \/ rest = "--" :: child
  \/ exists first args, rest = first :: args /\ child = rest /\ HasPrefix first "-" = false.

Definition found (s : split) (items : list item) (rest : list string) : Prop :=
  match s with
  | SplitHelp => exists h after, rest = h :: after /\ is_help h = true
  | SplitCommand options child => options = spelled items /\ command_at rest child
  end.

Lemma found_after i items rest s : found (split_after (spell i) s) (i :: items) rest <-> found s items rest.
Proof. destruct s; [done|]. cbn. split; intros [E ?]; (split; [|done]); [by apply app_inv_head in E|by rewrite E]. Qed.

Lemma run_option_shape name : name ∈ run_flags ++ run_values -> name <> "--" /\ HasPrefix name "-" = true /\ is_help name = false.
Proof. intros Hn. assert (H : forallb (fun n => negb (bool_decide (n = "--")) && HasPrefix n "-" && negb (is_help n)) (run_flags ++ run_values) = true) by done.
  rewrite forallb_forall in H. apply list_elem_of_In, H in Hn. bool_to_prop. done.
Qed.

Lemma runOptionArity_spec name k : runOptionArity name = Some k <-> name ∈ run_flags /\ k = 0%nat \/ name ∈ run_values /\ k = 1%nat.
Proof.
  unfold runOptionArity. assert (Hd := disjoint_names run_flags run_values eq_refl name).
  case_bool_decide; [|case_bool_decide]; naive_solver.
Qed.

Lemma splitRunCommand_Parsed n : forall argv s, (length argv < n)%nat ->
  splitRunCommand argv = Parsed s <->
  exists items rest, argv = spelled items ++ rest /\ Forall (item_ok run_flags run_values) items /\ found s items rest.
Proof.
  induction n as [|n IH]; intros argv s Hlen; [lia|]. split.
  - destruct argv as [|name rest]; cbn [splitRunCommand].
    { intros [= <-]. exists [], []. split; [done|]. split; [by constructor|]. split; [done|by left]. }
    case_bool_decide as Ed. { intros [= <-]. subst. exists [], ("--" :: rest). split; [done|]. split; [by constructor|]. split; [done|by right; left]. }
    destruct (HasPrefix name "-") eqn:Ep; cbn [negb].
    2: { intros [= <-]. exists [], (name :: rest). split; [done|]. split; [by constructor|]. split; [done|]. right; right. by exists name, rest. }
    destruct (is_help name) eqn:Eh. { intros [= <-]. exists [], (name :: rest). split; [done|]. split; [by constructor|]. by exists name, rest. }
    destruct (runOptionArity name) as [k|] eqn:Ek; [|done]. apply runOptionArity_spec in Ek as [[Hn ->]|[Hn ->]].
    + intros (s' & Hs & [= <-])%parsed_bind_Parsed. apply IH in Hs as (items & rest' & -> & Hok & Hf); [|cbn in Hlen; lia].
      exists (Flag name :: items), rest'. split; [done|]. split; [by constructor|]. by apply (found_after (Flag name)).
    + destruct rest as [|value rest]; [done|]. case_bool_decide as Hv; [done|].
      intros (s' & Hs & [= <-])%parsed_bind_Parsed. apply IH in Hs as (items & rest' & -> & Hok & Hf); [|cbn in Hlen; lia].
      exists (Valued name value :: items), rest'. split; [done|]. split; [by constructor|]. by apply (found_after (Valued name value)).
  - intros (items & rest & -> & Hok & Hf). destruct items as [|i items].
    + cbn. destruct s as [|options child].
      * destruct Hf as (h & after & -> & Hh). unfold is_help in Hh. apply orb_true_iff in Hh as [->%bool_decide_eq_true| ->%bool_decide_eq_true]; done.
      * destruct Hf as [-> [[-> ->]|[->|(first & args & -> & -> & Hp)]]]; [done..|]. cbn [splitRunCommand].
        rewrite bool_decide_eq_false_2 by (by intros ->). by rewrite Hp.
    + apply Forall_cons in Hok as [Hi Hok]. assert (Hname : item_name i ∈ run_flags ++ run_values).
      { apply elem_of_app. destruct i; cbn in Hi; [by left|right; tauto]. }
      destruct (run_option_shape _ Hname) as (Hd & Hp & Hh).
      assert (Hrec : exists s', splitRunCommand (spelled items ++ rest) = Parsed s' /\ s = split_after (spell i) s').
      { destruct s as [|options child].
        - exists SplitHelp. split; [|done]. apply IH; [clear -Hlen; destruct i; cbn in Hlen; unfold spelled in *; lia|by exists items, rest].
        - destruct Hf as [-> Hc]. exists (SplitCommand (spelled items) child). split; [|done].
          apply IH; [clear -Hlen; destruct i; cbn in Hlen; unfold spelled in *; lia|by exists items, rest]. }
      destruct Hrec as (s' & Hs & ->). destruct i as [name|name value]; cbn [spelled mbind list_bind spell app splitRunCommand item_name item_ok] in *.
      * rewrite bool_decide_eq_false_2 by done. rewrite Hp, Hh. cbn [negb].
        assert (runOptionArity name = Some 0%nat) as -> by (apply runOptionArity_spec; by left). change (items ≫= spell) with (spelled items). by rewrite Hs.
      * destruct Hi as [Hn Hv]. rewrite bool_decide_eq_false_2 by done. rewrite Hp, Hh. cbn [negb].
        assert (runOptionArity name = Some 1%nat) as -> by (apply runOptionArity_spec; by right). rewrite bool_decide_eq_false_2 by done.
        change (items ≫= spell) with (spelled items). by rewrite Hs.
Qed.

(** ** Weights *)
(** A decimal number, as digits and how many of them follow the point. *)
Definition weight_written (text : string) (w : decimalWeight) : Prop :=
  exists whole fraction, asciiDigits whole = true
    /\ (text = whole /\ fraction = "" \/ text = whole +:+ "." +:+ fraction /\ asciiDigits fraction = true)
    /\ w = MkDecimal (decimal_value (whole +:+ fraction)) (slen fraction) /\ 0 < coefficient w.

(** An address, or an address and a weight. *)
Definition network_written (raw text : string) (w : decimalWeight) : Prop :=
  contains_byte x40 text = false
  /\ (raw = text /\ w = MkDecimal 1 0 \/ exists weight, raw = text +:+ "@" +:+ weight /\ weight_written weight w).

Lemma parseWeight_written raw w : parseWeight raw = Some w -> weight_written raw w.
Proof.
  unfold parseWeight, weight_written. destruct (Cut raw (Ascii.ascii_of_nat 46)) as [[whole fraction] decimal] eqn:E.
  apply Cut_spec in E. destruct (negb (asciiDigits whole) || _) eqn:Ed; [done|]. apply orb_false_iff in Ed as [Hw%negb_false_iff Hf].
  destruct (_ <=? 0) eqn:Ec; [done|]. apply Z.leb_gt in Ec. intros [= <-]. exists whole, fraction. split; [done|]. split; [|done].
  destruct decimal; [right|by left]. split; [done|]. by apply negb_false_iff.
Qed.

Lemma Cut_before s sep before after found : Cut s sep = (before, after, found) -> contains_byte (Ascii.byte_of_ascii sep) before = false.
Proof.
  revert before after found; induction s as [|a s IH]; intros before after found; cbn; [by intros [= <- <- <-]|].
  destruct (Ascii.eqb a sep) eqn:E; [by intros [= <- <- <-]|]. destruct (Cut s sep) as [[b c] f] eqn:E0. specialize (IH b c f eq_refl).
  assert (Ha : forall t, contains_byte (Ascii.byte_of_ascii sep) (String a t) = contains_byte (Ascii.byte_of_ascii sep) t).
  { intros t. unfold contains_byte, bytes_of. cbn. destruct (Byte.eqb _ _) eqn:Eb; [|done]. exfalso.
    apply Byte.byte_dec_bl in Eb. apply (f_equal Ascii.ascii_of_byte) in Eb. rewrite !Ascii.ascii_of_byte_of_ascii in Eb. subst.
    by rewrite Ascii.eqb_refl in E. }
  destruct f; intros [= <- <- <-]; rewrite Ha; [done|]. apply Cut_spec in E0 as [-> _]. done.
Qed.

Lemma parse_selection_written raw : ps_weightTextInvalid (parse_selection raw) = false ->
  network_written raw (addressText (parse_selection raw)) (selection_weight (parse_selection raw)).
Proof.
  unfold parse_selection, network_written, selection_weight. destruct (Cut raw (Ascii.ascii_of_nat 64)) as [[text weight] explicit] eqn:E.
  pose proof (Cut_before _ _ _ _ _ E) as Hb. apply Cut_spec in E. cbn. intros Hi. split; [exact Hb|].
  destruct explicit; [right|left; cbn; tauto]. exists weight. split; [exact E|]. cbn in Hi. apply bool_decide_eq_false in Hi.
  destruct (parseWeight weight) as [w|] eqn:Ew; [|done]. by apply parseWeight_written.
Qed.

Lemma selection_weight_wf raw : let w := selection_weight (parse_selection raw) in 0 < coefficient w /\ 0 <= scale w.
Proof.
  unfold parse_selection, selection_weight. destruct (Cut raw _) as [[text weight] explicit]. cbn.
  destruct (if explicit then parseWeight weight else None) as [w|] eqn:E; [|by cbn]. destruct explicit; [|done].
  apply parseWeight_written in E as (whole & fraction & _ & _ & -> & Hc). cbn in *. split; [done|]. unfold slen, zlen. lia.
Qed.

Lemma maxScale_spec l : Forall (fun s => 0 <= scale (selection_weight s)) l ->
  0 <= maxScale l /\ Forall (fun s => scale (selection_weight s) <= maxScale l) l.
Proof.
  unfold maxScale. intros H0. induction l as [|s l IH] using rev_ind; [by split; [|constructor]|].
  apply Forall_app in H0 as [Hl Hs]. apply Forall_singleton in Hs. destruct (IH Hl) as [Hm Hle]. rewrite foldl_app. cbn.
  set (m := foldl _ 0 l) in *. unfold selection_weight in Hs |- *. rewrite Forall_app, Forall_singleton.
  destruct (ps_weight s) as [w|]; cbn in *; [|split_and!; [done|done|lia]].
  destruct (Z.ltb_spec m (scale w)); (split_and!; [lia| |lia]); eapply Forall_impl; try exact Hle; intros x Hx; cbn in *; unfold selection_weight in Hx; lia.
Qed.

(** The weights are the smallest integers in the ratios that were written. *)
Lemma normalized_weights (l : list parsedNetworkSelection) :
  existsb ps_weightTextInvalid l = false -> l <> [] ->
  Forall (fun s => 0 < coefficient (selection_weight s) /\ 0 <= scale (selection_weight s)) l ->
  exists unit digits ws, 0 < unit /\ normalizeNetworkWeights l = uint64_weight <$> ws /\ gcd_all ws = 1
    /\ Forall2 (fun s w => 0 <= scale (selection_weight s) <= digits /\ w * unit = coefficient (selection_weight s) * 10 ^ (digits - scale (selection_weight s))) l ws.
Proof.
  intros Hi Hne Hwf. unfold normalizeNetworkWeights. rewrite Hi. set (values := scaled_weight (maxScale l) <$> l).
  assert (Hg : foldl Z.gcd 0 values = gcd_all values).
  { destruct (foldl_gcd values 0) as [->|[-> ->]]; [|done]. rewrite Z.gcd_0_l. apply Z.abs_eq, gcd_all_nonneg. }
  destruct (maxScale_spec l) as [_ Hm]; [eapply Forall_impl; [exact Hwf|]; by intros s [_ ?]|].
  assert (Hpos : 0 < gcd_all values).
  { destruct l as [|s l]; [done|]. pose proof (gcd_all_nonneg values). destruct (Z.eq_dec (gcd_all values) 0) as [E|]; [|lia].
    apply Z.gcd_eq_0_l in E. unfold scaled_weight in E. apply Forall_cons in Hwf as [[Hc _] _]. apply Forall_cons in Hm as [Hs _].
    pose proof (Z.pow_pos_nonneg 10 (maxScale (s :: l) - scale (selection_weight s))). nia. }
  destruct (divide_out values (gcd_all values) Hpos eq_refl) as [Hv Hq]. rewrite Hg.
  exists (gcd_all values), (maxScale l), ((fun x => Z.quot x (gcd_all values)) <$> values). split; [done|].
  split; [by rewrite <- list_fmap_compose|]. split; [done|].
  apply Forall2_same_length_lookup_2; [by unfold values; rewrite !length_fmap|]. intros i s w Hs Hw.
  apply list_elem_of_lookup_2 in Hs as Hin. rewrite Forall_forall in Hwf, Hm. split; [split; [by apply Hwf|by apply Hm]|].
  pose proof (f_equal (lookup i) Hv) as Hvi. rewrite (list_lookup_fmap _ (_ <$> values)), Hw in Hvi.
  cbn in Hvi. assert (Hvs : values !! i = Some (scaled_weight (maxScale l) s)) by (unfold values; by rewrite list_lookup_fmap, Hs).
  rewrite Hvs in Hvi. by injection Hvi as <-.
Qed.

(** ** Run requests *)
Section Requests.
Context `{URLs}.

Lemma buildRun_Run o r : buildRun o = Parsed (Run r) <-> exists source, ro_source o = Some source /\
  NewRequest source (ro_auto o) (networkArguments (parseNetworkSelections (ro_networks o))) (is_set (ro_measureURL o) || is_set (ro_duration o))
    (run_settings o).1 (parseResolvers (ro_dns o)) (ro_argv o) (ro_logDir o) (MkDisplay (ro_noTUI o) (ro_mouse o)) (ro_followSymlinks o) = Accepted r.
Proof.
  unfold buildRun. destruct (ro_source o) as [source|]; [|split; [done|by intros (? & ? & _)]].
  destruct (run_settings o) as [settings e]. cbn [fst]. destruct (NewRequest _ _ _ _ _ _ _ _ _ _) eqn:E; split; try done.
  - intros [= <-]. eauto.
  - intros (source' & [= <-] & E'). rewrite E in E'. by injection E' as <-.
  - intros (source' & [= <-] & E'). by rewrite E in E'.
Qed.

(** The options and the command of a [run]. *)
Definition run_line (argv : list string) (items : list item) (child : list string) : Prop :=
  exists rest, argv = spelled items ++ rest /\ Forall (item_ok run_flags run_values) items
    /\ once_each ["--network"; "--dns"] items /\ command_at rest child.

Lemma parseRun_Run argv r : parseRun argv = Parsed (Run r) <->
  exists items child, run_line argv items child /\ buildRun (run_options_of items child) = Parsed (Run r).
Proof.
  unfold parseRun. rewrite parsed_bind_Parsed. split.
  - intros (s & Hs & Hr). destruct s as [|options child]; [done|]. apply parsed_bind_Parsed in Hr as (o & Ho & Hr).
    apply (splitRunCommand_Parsed (S (length argv))) in Hs as (items & rest & -> & Hok & -> & Hc); [|lia].
    apply scan_run_Parsed in Ho as [Honce ->]; [|done]. exists items, child. split; [|done]. by exists rest.
  - intros (items & child & (rest & -> & Hok & Honce & Hc) & Hr). exists (SplitCommand (spelled items) child). split.
    + apply (splitRunCommand_Parsed (S (length (spelled items ++ rest)))); [lia|]. exists items, rest. by split_and!.
    + apply parsed_bind_Parsed. exists (run_options_of items child). split; [|done]. by apply scan_run_Parsed.
Qed.

Lemma Parse_run argv : Parse ("run" :: argv) = parseRun argv.
Proof. unfold Parse. by rewrite !andb_false_r. Qed.

(** C18. A [run] command line is accepted exactly when it is options, each known,
    with its value, and given once unless it may be repeated, and a command (after
    [--], or from the first argument that is no option), when there is one
    [--source], and when the parts make a valid intent.  The request then has the
    values that were written, whatever the order of the options; the order of the
    networks and of the resolvers is kept. *)
Theorem run_command_line_is_understood argv r :
  Parse ("run" :: argv) = Parsed (Run r) <->
  exists items child source,
    run_line argv items child /\ head (values_of "--source" items) = Some source
    /\ let automatic := has "--auto-weight" items in
       let arguments := networkArguments (parseNetworkSelections (values_of "--network" items)) in
       let overrides := is_set (head (values_of "--measure-url" items)) || is_set (head (values_of "--measure-duration" items)) in
       let settings := (run_settings (run_options_of items child)).1 in
       let dns := parseResolvers (values_of "--dns" items) in
       let log := head (values_of "--log-dir" items) in
       intent_ok source automatic arguments overrides settings dns child log
       /\ r = MkRunRequest source (selections_of automatic arguments settings) dns child (default "" log)
                (MkDisplay (has "--no-tui" items) (has "--mouse" items)) (has "--follow-symlinks" items).
Proof.
  rewrite Parse_run, parseRun_Run. setoid_rewrite buildRun_Run. setoid_rewrite NewRequest_Accepted. cbn zeta. split.
  - intros (items & child & Hl & source & Hs & Hr). by exists items, child, source.
  - intros (items & child & source & Hl & Hs & Hr). exists items, child. split; [done|]. by exists source.
Qed.

(** A network of a request and how it was written, in a unit the whole request shares. *)
Definition written_network (unit digits : Z) (raw : string) (n : RunNetwork) : Prop :=
  exists text w, network_written raw text w /\ ParseAddr text = Ok (RunRequest.rn_localIP n)
    /\ 0 <= scale w <= digits /\ rn_weight n * unit = coefficient w * 10 ^ (digits - scale w) /\ 1 <= rn_weight n <= MaxUint64.

Definition as_network (a : NetworkArgument) : RunNetwork := MkRunNetwork (arg_localIP a) (normalizedWeight a).

Lemma parse_selection_address raw : Is4 (ps_localIP (parse_selection raw)) = true ->
  ParseAddr (addressText (parse_selection raw)) = Ok (ps_localIP (parse_selection raw)).
Proof. unfold parse_selection. destruct (Cut raw _) as [[text weight] explicit]. cbn [ps_localIP addressText].
  destruct (ParseAddr text) as [a|e]; [done|]. intros H4. vm_compute in H4. discriminate H4.
Qed.

Lemma arguments_written values :
  let arguments := networkArguments (parseNetworkSelections values) in
  values <> [] -> Forall arg_ok arguments -> Forall (fun a => normalizedWeight a <> 0) arguments ->
  exists unit digits, 0 < unit /\ Forall2 (written_network unit digits) values (as_network <$> arguments)
    /\ gcd_all (rn_weight <$> (as_network <$> arguments)) = 1.
Proof.
  intros arguments Hne Hok Hpos. unfold arguments, parseNetworkSelections in *. clear arguments. set (sels := parse_selection <$> values) in *.
  assert (Hlen : length (normalizeNetworkWeights sels) = length sels).
  { unfold normalizeNetworkWeights. destruct (existsb _ _); [apply length_replicate|by rewrite !length_fmap]. }
  assert (Harg : forall i s w, sels !! i = Some s -> normalizeNetworkWeights sels !! i = Some w ->
    networkArguments (zip sels (normalizeNetworkWeights sels)) !! i
      = Some (MkArgument (ps_localIP s) w (ps_explicitWeight s) (ps_weightTextInvalid s) (ps_addressTextContainsNUL s))).
  { intros i s w Hs Hw. unfold networkArguments. rewrite list_lookup_fmap, lookup_zip_with, Hs. cbn. by rewrite Hw. }
  assert (Hargs : length (networkArguments (zip sels (normalizeNetworkWeights sels))) = length values).
  { unfold networkArguments. rewrite length_fmap, length_zip_with, Hlen. unfold sels. rewrite length_fmap. lia. }
  rewrite Forall_forall in Hok, Hpos.
  assert (Hsel : forall s, s ∈ sels -> ps_weightTextInvalid s = false /\ Is4 (ps_localIP s) = true).
  { intros s [i Hi]%list_elem_of_lookup. assert (is_Some (normalizeNetworkWeights sels !! i)) as [w Hw].
    { apply lookup_lt_is_Some. rewrite Hlen. by eapply lookup_lt_Some. }
    pose proof (Harg _ _ _ Hi Hw) as Ha%list_elem_of_lookup_2%Hok. by destruct Ha as (? & _ & ?). }
  destruct (normalized_weights sels) as (unit & digits & ws & Hu & Hn & Hg & HF).
  { apply existsb_false, Forall_forall. intros s Hs. by apply Hsel. }
  { unfold sels. by destruct values. }
  { unfold sels. apply Forall_fmap, Forall_forall. intros raw _. apply selection_weight_wf. }
  assert (Hws : forall i w, ws !! i = Some w -> 1 <= w <= MaxUint64 /\ normalizeNetworkWeights sels !! i = Some w).
  { intros i w Hw. assert (Hi : normalizeNetworkWeights sels !! i = Some (uint64_weight w)) by (by rewrite Hn, list_lookup_fmap, Hw).
    destruct (Forall2_lookup_r _ _ _ _ _ HF Hw) as (s & Hs & _). pose proof (Harg _ _ _ Hs Hi) as Ha%list_elem_of_lookup_2%Hpos. cbn in Ha.
    rewrite Hi. unfold uint64_weight in *. destruct ((0 <? w) && (w <=? MaxUint64)) eqn:E; [|done]. bool_to_prop. split; [lia|done]. }
  exists unit, digits. split; [done|]. split.
  - apply Forall2_same_length_lookup_2; [by rewrite length_fmap|]. intros i raw n Hraw Hnet.
    assert (Hs : sels !! i = Some (parse_selection raw)) by (unfold sels; by rewrite list_lookup_fmap, Hraw).
    destruct (Forall2_lookup_l _ _ _ _ _ HF Hs) as (w & Hw & Hsc & Hr). destruct (Hws _ _ Hw) as [Hrange Hnw].
    rewrite list_lookup_fmap, (Harg _ _ _ Hs Hnw) in Hnet. cbn in Hnet. injection Hnet as <-.
    apply list_elem_of_lookup_2 in Hs. destruct (Hsel _ Hs) as [Hi H4].
    exists (addressText (parse_selection raw)), (selection_weight (parse_selection raw)). split_and!; cbn; try lia.
    + by apply parse_selection_written.
    + by apply parse_selection_address.
  - assert (rn_weight <$> (as_network <$> networkArguments (zip sels (normalizeNetworkWeights sels))) = ws) as ->; [|done].
    apply list_eq_same_length with (length ws); [done|rewrite !length_fmap, Hargs; apply Forall2_length in HF; unfold sels in HF; by rewrite length_fmap in HF|].
    intros i x y _ Hx Hy. destruct (Hws _ _ Hy) as [_ Hnw]. destruct (Forall2_lookup_r _ _ _ _ _ HF Hy) as (s & Hs & _).
    rewrite !list_lookup_fmap, (Harg _ _ _ Hs Hnw) in Hx. cbn in Hx. by injection Hx as <-.
Qed.

(** C19. In an accepted [run] without [--auto-weight] each network has the address
    that was written and the weights are the smallest integers in exactly the
    ratios that were written: integers or decimals of any length, 1 where none is
    given.  They fit 64 bits; a line whose weights would not is refused. *)
Theorem written_weights_are_exact argv r :
  Parse ("run" :: argv) = Parsed (Run r) -> selections_AutomaticWeight (networks r) = false ->
  exists items child unit digits, run_line argv items child /\ 0 < unit
    /\ Forall2 (written_network unit digits) (values_of "--network" items) (sel_manual (networks r))
    /\ gcd_all (rn_weight <$> sel_manual (networks r)) = 1.
Proof.
  rewrite Parse_run, parseRun_Run. setoid_rewrite buildRun_Run. setoid_rewrite NewRequest_Accepted.
  intros (items & child & Hl & source & _ & [_ Hcount [Hok _] Hmode _ _ _] & ->). cbn in *. unfold selections_of.
  destruct (has "--auto-weight" items).
  { unfold selections_AutomaticWeight. cbn. unfold zlen in *. rewrite length_fmap. destruct Hmode as (_ & H2 & _).
    destruct (_ =? 0) eqn:E; [|done]. apply Z.eqb_eq in E. lia. }
  intros _. destruct Hmode as (_ & _ & Hpos). exists items, child.
  destruct (arguments_written (values_of "--network" items)) as (unit & digits & ? & ? & ?); [|done|done|].
  { intros E. rewrite E in Hcount. vm_compute in Hcount. by destruct Hcount. }
  by exists unit, digits.
Qed.
End Requests.

(** ** List requests and help *)
Section Lists.
Context `{URLs}.

Definition list_line (argv : list string) (items : list item) : Prop :=
  argv = spelled items /\ Forall (item_ok list_flags list_values) items /\ once_each ["--network"] items.

Definition probe_written (items : list item) (p : option ProbeEndpoint) : Prop :=
  if has "--probe" items then
    match head (values_of "--probe-url" items) with
    | Some url => exists endpoint, NewEndpoint url = Ok endpoint /\ p = Some endpoint
    | None => p = Some DefaultEndpoint
    end
  else values_of "--probe-url" items = [] /\ p = None.

Definition duration_written (raw : option string) (d : Z) : Prop :=
  match raw with Some raw => ParseDuration raw = Ok d | None => d = 3 * Second end.

Definition measure_written (items : list item) (m : option Settings) : Prop :=
  if has "--measure" items then
    exists d window, duration_written (head (values_of "--measure-duration" items)) d
      /\ NewSettings (default DefaultEndpointURL (head (values_of "--measure-url" items))) d = Ok window /\ m = Some window
  else values_of "--measure-url" items = [] /\ values_of "--measure-duration" items = [] /\ m = None.

Lemma as_usage_Parsed {A} context (r : result A) a : as_usage context r = Parsed a <-> r = Ok a.
Proof. unfold as_usage. destruct r; naive_solver. Qed.

Lemma parseDuration_Parsed raw d : parseDuration raw = Parsed d <-> duration_written raw d.
Proof. unfold parseDuration, duration_written, defaultMeasureDuration. destruct raw as [raw|]; [destruct (ParseDuration raw); naive_solver|]. split; [by intros [= <-]|by intros ->]. Qed.

Lemma list_probe_written items p :
  is_set (head (values_of "--probe-url" items)) && negb (has "--probe" items) = false ->
  list_probe (list_options_of items) = Parsed p <-> probe_written items p.
Proof.
  intros Hreq. unfold list_probe, probe_written. cbn. destruct (has "--probe" items).
  - destruct (head (values_of "--probe-url" items)) as [url|]; [|split; [by intros [= <-]|by intros ->]].
    rewrite parsed_bind_Parsed. setoid_rewrite as_usage_Parsed. naive_solver.
  - rewrite andb_true_r, is_set_head in Hreq. split; [by intros [= <-]|by intros [_ ->]].
Qed.

Lemma list_measure_written items m :
  (is_set (head (values_of "--measure-url" items)) || is_set (head (values_of "--measure-duration" items))) && negb (has "--measure" items) = false ->
  list_measure (list_options_of items) = Parsed m <-> measure_written items m.
Proof.
  intros Hreq. unfold list_measure, measure_written. cbn. destruct (has "--measure" items).
  - rewrite parsed_bind_Parsed. setoid_rewrite parsed_bind_Parsed. setoid_rewrite as_usage_Parsed. setoid_rewrite parseDuration_Parsed. naive_solver.
  - rewrite andb_true_r, orb_false_iff, !is_set_head in Hreq. destruct Hreq as [E1 E2].
    split; [by intros [= <-]|by intros (_ & _ & ->)].
Qed.

Lemma Parse_list argv : Parse ("list" :: argv) = parseList argv.
Proof. unfold Parse. by rewrite !andb_false_r. Qed.

Lemma NewListRequest_Ok explicit all p m q :
  NewListRequest explicit all p m = Ok q <-> q = MkListRequest explicit all p m /\ exists v, validateRequest q = Ok v.
Proof.
  unfold NewListRequest. destruct (validateRequest _) as [v|e] eqn:E; cbn [rbind]; split; try done.
  - intros [= <-]. eauto.
  - by intros [-> _].
  - intros [-> [v Hv]]. by rewrite E in Hv.
Qed.

Lemma overrides_written items :
  (exists p m, probe_written items p /\ measure_written items m) ->
  is_set (head (values_of "--probe-url" items)) && negb (has "--probe" items) = false
  /\ (is_set (head (values_of "--measure-url" items)) || is_set (head (values_of "--measure-duration" items))) && negb (has "--measure" items) = false.
Proof.
  intros (p & m & Hp & Hm). unfold probe_written, measure_written in *. split.
  - destruct (has "--probe" items); [by rewrite andb_false_r|]. by destruct Hp as [-> _].
  - destruct (has "--measure" items); [by rewrite andb_false_r|]. by destruct Hm as (-> & -> & _).
Qed.

(** A [list] command line is accepted exactly when it is options, each known,
    with its value, and given once unless it may be repeated, no override stands
    without the diagnostic it belongs to, the endpoints and the window are valid,
    and the selection is; the request has what was written. *)
Theorem list_command_line_is_understood argv q :
  Parse ("list" :: argv) = Parsed (CLIList q) <->
  exists items p m,
    list_line argv items /\ probe_written items p /\ measure_written items m
    /\ q = MkListRequest (values_of "--network" items) (has "--all" items) p m /\ exists v, validateRequest q = Ok v.
Proof.
  rewrite Parse_list. unfold parseList. rewrite parsed_bind_Parsed. setoid_rewrite scan_list_Parsed. split.
  - intros (scanned & (items & rest & -> & Hok & Honce & Hstop) & Hb). destruct scanned as [o|]; [|done]. destruct Hstop as [-> ->].
    unfold buildList in Hb. cbn in Hb. destruct (is_set _ && _) eqn:E1; [done|]. destruct (_ && negb (has "--measure" items)) eqn:E2; [done|].
    apply parsed_bind_Parsed in Hb as (p & Hp & Hb). apply parsed_bind_Parsed in Hb as (m & Hm & Hb).
    apply parsed_bind_Parsed in Hb as (q' & Hq & Hb). injection Hb as ->. apply as_usage_Parsed, NewListRequest_Ok in Hq as [Hq Hv].
    rewrite app_nil_r. exists items, p, m. split; [done|]. split; [by apply list_probe_written|]. split; [by apply list_measure_written|done].
  - intros (items & p & m & (-> & Hok & Honce) & Hp & Hm & Hq & Hv). exists (Some (list_options_of items)). split.
    + exists items, []. rewrite app_nil_r. by repeat split.
    + destruct (overrides_written items) as [E1 E2]; [eauto|]. unfold buildList. cbn. rewrite E1, E2.
      apply parsed_bind_Parsed. exists p. split; [by apply list_probe_written|]. apply parsed_bind_Parsed. exists m.
      split; [by apply list_measure_written|]. apply parsed_bind_Parsed. exists q. split; [|done]. by apply as_usage_Parsed, NewListRequest_Ok.
Qed.

Lemma buildList_no_help o page : buildList o <> Parsed (Help page).
Proof.
  unfold buildList. intros Hb. destruct (_ && _); [done|]. destruct (_ && _); [done|].
  apply parsed_bind_Parsed in Hb as (p & _ & Hb). apply parsed_bind_Parsed in Hb as (m & _ & Hb). by apply parsed_bind_Parsed in Hb as (q & _ & Hb).
Qed.

Lemma buildRun_no_help o page : buildRun o <> Parsed (Help page).
Proof. unfold buildRun. destruct (ro_source o); [|done]. destruct (run_settings o). by destruct (NewRequest _ _ _ _ _ _ _ _ _ _). Qed.

(** Help is answered where it stands: after options of [list] that are valid so
    far, and after options of [run] whatever they say. *)
Lemma list_help argv : Parse ("list" :: argv) = Parsed (Help ListHelpPage) <->
  exists items h after, argv = spelled items ++ h :: after
    /\ is_help h = true /\ Forall (item_ok list_flags list_values) items /\ once_each ["--network"] items.
Proof.
  rewrite Parse_list. unfold parseList. rewrite parsed_bind_Parsed. setoid_rewrite scan_list_Parsed. split.
  - intros (scanned & (items & rest & -> & Hok & Honce & Hstop) & Hb). destruct scanned as [o|]; [by apply buildList_no_help in Hb|].
    destruct Hstop as (h & after & -> & Hh). by exists items, h, after.
  - intros (items & h & after & -> & Hh & Hok & Honce). exists None. split; [|done]. exists items, (h :: after).
    split_and!; [done..|]. by exists h, after.
Qed.

Lemma run_help argv : Parse ("run" :: argv) = Parsed (Help RunHelpPage) <->
  exists items h after, argv = spelled items ++ h :: after /\ is_help h = true /\ Forall (item_ok run_flags run_values) items.
Proof.
  rewrite Parse_run. unfold parseRun. rewrite parsed_bind_Parsed. split.
  - intros (s & Hs & Hb). destruct s as [|options child].
    2: { apply parsed_bind_Parsed in Hb as (o & _ & Hb). by apply buildRun_no_help in Hb. }
    apply (splitRunCommand_Parsed (S (length argv))) in Hs as (items & rest & -> & Hok & h & after & -> & Hh); [|lia]. by exists items, h, after.
  - intros (items & h & after & -> & Hh & Hok). exists SplitHelp. split; [|done].
    apply (splitRunCommand_Parsed (S (length (spelled items ++ h :: after)))); [lia|]. exists items, (h :: after). split_and!; [done..|]. by exists h, after.
Qed.
End Lists.

(** Every option of a command is on its page. *)
Fixpoint mentions (text name : string) : bool :=
  HasPrefix text name || match text with String _ text => mentions text name | EmptyString => false end.

Example options_are_documented :
  forallb (mentions (help_text ListHelpPage)) (list_flags ++ list_values ++ ["--help"; "-h"]) = true
  /\ forallb (mentions (help_text RunHelpPage)) (run_flags ++ run_values ++ ["--help"; "-h"]) = true
  /\ forallb (mentions (help_text RootHelpPage)) ["list"; "run"; "--help"; "-h"; "--version"] = true.
Proof. split_and!; vm_compute; reflexivity. Qed.

(** ** Examples *)
Module Sample.
#[local] Existing Instance TransferStartProofs.Sample.urls.

Definition run_argv : list string :=
  ["--network"; "192.0.2.10@0.5"; "--mouse"; "--source"; "/data"; "--network"; "198.51.100.20@1.25"; "--dns"; "192.0.2.53"; "rsync"; "-a"; "{}"].
Definition run_parsed : RunRequest :=
  MkRunRequest "/data" (MkSelections [MkRunNetwork (Addr4 0xc000020a) 2; MkRunNetwork (Addr4 0xc6336414) 5] [] settings_zero)
    [Addr4 0xc0000235] ["rsync"; "-a"; "{}"] "" (MkDisplay false true) false.

Example run_parses : Parse ("run" :: run_argv) = Parsed (Run run_parsed).
Proof. vm_compute. reflexivity. Qed.

Lemma written_weights_are_exact_witness :
  exists items child unit digits, run_line run_argv items child /\ 0 < unit
    /\ Forall2 (written_network unit digits) (values_of "--network" items) (sel_manual (networks run_parsed))
    /\ gcd_all (rn_weight <$> sel_manual (networks run_parsed)) = 1.
Proof. apply (written_weights_are_exact run_argv run_parsed); vm_compute; reflexivity. Defined.

Definition usage_of {A} (p : parsed A) : string := match p with Parsed _ => "" | Misused e => usage_text e end.
Example run_usage_errors :
  (fun argv => usage_of (Parse argv)) <$>
    [["run"; "--source"; "/data"; "--source"; "/data"]; ["run"; "--dns"; "--"; "x"]; ["run"; "--source"; "/data"; "--network"; "1.2.3.4@0"; "{}"];
     ["run"; "--source"; "/data"; "--network"; "1.2.3.4"; "{}"; "{}"]; ["list"; "--probe-url"; "x"]; []; ["copy"]]
  = ["option --source may be specified only once"; "option --dns requires a value"; "--network has an invalid weight";
     "child argv must contain exactly one standalone {} argument"; "--probe-url requires --probe"; "a subcommand is required (list or run)";
     "unknown subcommand copy (expected list or run)"].
Proof. vm_compute. reflexivity. Qed.
End Sample.
