(* ===== verification/Presenter.v ===== *)
(** * What the process writes, and how it ends

    [cli/run_presenter.go], [list_presenter.go] and [execute.go].  A writer is an
    argument: what the next write answers given all earlier ones.  The transfer
    itself, the listing and the version are arguments as well. *)
From S2P Require TransferStartProofs.
From S2P Require Import Prelude Sorting Utf8 TransferNumber GoText Control Final Netip NetipText Settings TransferStart RunRequest RunIntent Listing GoTime CommandLine CommandLineProofs.

(** ** Text of one line *)
Definition clean_runes (value : string) : list (list byte) :=
  trim ((fun r => if IsControl r then [x20] else r) <$> runes value).
(** [cleanRunMessage] and [cleanTableValue] are one function. *)
Definition cleanRunMessage (value : string) : string := text_of (mjoin (clean_runes value)).
Definition cleanTableValue : string -> string := cleanRunMessage.

(** ** Writers *)
Inductive Stream : Type := Stdout | Stderr.
#[export] Instance stream_eq_dec : EqDecision Stream.
Proof. solve_decision. Defined.

Definition Output : Type := list (Stream * string).

Section Writers.
Context (answer : Output -> Stream -> string -> option error).

(** A step sees what was written before and adds to it. *)
Definition W (A : Type) : Type := Output -> A * Output.
Definition W_ret {A} (a : A) : W A := fun out => (a, out).
Definition W_bind {A B} (m : W A) (k : A -> W B) : W B := fun out => let '(a, out) := m out in k a out.

Definition write (st : Stream) (text : string) : W (option error) :=
  fun out => (answer out st text, out ++ [(st, text)]).
End Writers.

Notation "'out!' x ':=' m 'in' k" := (W_bind m (fun x => k)) (at level 200, x name, m at level 100, k at level 200).

(** ** The end of a run *)
Inductive DisplayMode : Type := DisplayPlain | DisplayInteractive.
#[export] Instance display_mode_eq_dec : EqDecision DisplayMode.
Proof. solve_decision. Defined.

Record RunResult : Type := MkRunResult {
  liveSessionEstablished : bool;
  run_display : option DisplayMode;
  run_final : option Final;
  cancellation : option Z;
  parentError : option error;
  logError : option error
}.

Definition exitSuccess : Z := 0.
Definition exitRuntime : Z := 1.
Definition exitUsage : Z := 2.
Definition runExitInterrupt : Z := 130.

Definition transfer_succeeded (t : TransferResult) : bool := (ExitCode t =? 0) && (Signal t =? 0).
Definition anyRunTransferFailed (transfers : list TransferResult) : bool := existsb (fun t => negb (transfer_succeeded t)) transfers.

Definition cancelled_by_user (r : option Z) : bool := bool_decide (r = Some CancelUser).

Definition classifyRunCompletion (res : RunResult) : Z :=
  if bool_decide (is_Some (parentError res)) || bool_decide (is_Some (logError res)) then exitRuntime
  else
    match run_final res with
    | None => if negb (liveSessionEstablished res) && cancelled_by_user (cancellation res) then runExitInterrupt else exitRuntime
    | Some final =>
        if negb (bool_decide (InternalError final = "")) || negb (bool_decide (CleanupError final = "")) then exitRuntime
        else if cancelled_by_user (cancellation res) || (Reason final =? CancelUser) then runExitInterrupt
        else if negb (bool_decide (RunError final = "")) || anyRunTransferFailed (Transfers final) || Cancelled final then exitRuntime
        else exitSuccess
    end.

Definition failed_text (t : TransferResult) : string :=
  "transfer " +:+ pretty (Value (Transfer t)) +:+ " failed: exit=" +:+ pretty (ExitCode t) +:+ " signal=" +:+ pretty (Signal t).
Definition runFailureMessage (transfers : list TransferResult) (runError : string) : string :=
  Join ((failed_text <$> filter (fun t => transfer_succeeded t = false) transfers)
        ++ (if bool_decide (runError = "") then [] else [runError])) " ".

(** [sort.Slice] by transfer number; the numbers of a result are distinct. *)
Definition sorted_transfers (transfers : list TransferResult) : list TransferResult :=
  sort_by (fun a b => Value (Transfer a) <? Value (Transfer b)) transfers.

Section Presenter.
Context (answer : Output -> Stream -> string -> option error).
Let write := write answer.

Definition writeNamedRunFailure (name value : string) : W (option error) :=
  write Stderr ("transferlanes: " +:+ name +:+ ": " +:+ cleanRunMessage value +:+ newline).
Definition writeRunLine (line : string) : W (option error) := write Stdout ("transferlanes: " +:+ line +:+ newline).

(** Each write is made whatever the others answered. *)
Fixpoint write_each (writes : list (W (option error))) : W (list (option error)) :=
  match writes with
  | [] => W_ret []
  | w :: writes => out! e := w in out! es := write_each writes in W_ret (e :: es)
  end.
Definition write_all (writes : list (W (option error))) : W (option error) :=
  out! es := write_each writes in W_ret (errors_Join es).

Definition parent_failures (parentError logError : option error) : list (W (option error)) :=
  (match parentError with Some e => [writeNamedRunFailure "output" (error_text e)] | None => [] end)
  ++ (match logError with Some e => [writeNamedRunFailure "logs" (error_text e)] | None => [] end).
Definition writeParentRunFailures (parentError logError : option error) : W (option error) :=
  write_all (parent_failures parentError logError).

Definition source_line (s : SourceSummary) : string :=
  "source: followed_symlinks=" +:+ pretty (FollowedSymlinks s) +:+ " ignored_symlinks=" +:+ pretty (IgnoredSymlinks s)
  +:+ " empty_directories=" +:+ pretty (EmptyDirectories s) +:+ " ignored_special_files=" +:+ pretty (IgnoredSpecialFiles s).
Definition transfer_line (t : TransferResult) : string :=
  "transfer " +:+ pretty (Value (Transfer t)) +:+ " completed: exit=" +:+ pretty (ExitCode t) +:+ " signal=" +:+ pretty (Signal t).
Definition totals_line (transfers : list TransferResult) : string :=
  let succeeded := zlen (filter (fun t => transfer_succeeded t = true) transfers) in
  "completed: succeeded=" +:+ pretty succeeded +:+ " failed=" +:+ pretty (zlen transfers - succeeded).
Definition named (name value : string) : list (W (option error)) :=
  if bool_decide (value = "") then [] else [writeNamedRunFailure name value].

(** What a summary writes about the result of the supervisor. *)
Definition final_summary (final : Final) : list (W (option error)) :=
  let transfers := sorted_transfers (Transfers final) in
  (match Source final with Some s => [writeRunLine (source_line s)] | None => [] end)
  ++ ((fun t => writeRunLine (transfer_line t)) <$> transfers)
  ++ [writeRunLine (totals_line transfers)]
  ++ named "internal" (InternalError final)
  ++ named "run" (runFailureMessage transfers (RunError final))
  ++ (if bool_decide (CleanupError final = "") then [writeRunLine "cleanup completed"] else named "cleanup" (CleanupError final)).

Definition writePlainRunSummary (res : RunResult) : W (option error) :=
  match run_final res with
  | None => writeParentRunFailures (parentError res) (logError res)
  | Some final =>
      out! failures := write_each (final_summary final) in
      out! parent := writeParentRunFailures (parentError res) (logError res) in
      W_ret (errors_Join (failures ++ [parent]))
  end.

Definition writeInteractiveRunDiagnostics (res : RunResult) : W (option error) :=
  out! failures := write_each (match run_final res with
                               | Some final => named "internal" (InternalError final) ++ named "run" (RunError final) ++ named "cleanup" (CleanupError final)
                               | None => []
                               end) in
  out! parent := writeParentRunFailures (parentError res) (logError res) in
  W_ret (errors_Join (failures ++ [parent])).

Definition presentRun (res : RunResult) : W Z :=
  out! writeErr := (match run_display res with
                    | Some DisplayPlain => writePlainRunSummary res
                    | _ => writeInteractiveRunDiagnostics res
                    end) in
  W_ret (match writeErr with Some _ => exitRuntime | None => classifyRunCompletion res end).
End Presenter.

(** ** The table of a listing *)
(** [utf8.RuneCountInString]. *)
Definition RuneCount (s : string) : Z := zlen (runes s).
Definition spaces (n : Z) : string := text_of (replicate (Z.to_nat n) x20).

(** [text/tabwriter] with two spaces of padding, on lines of as many cells: every
    cell but the last of a line is as wide as its column. *)
Definition column_width (lines : list (list string)) (column : nat) : Z :=
  2 + foldr Z.max 0 ((fun line => RuneCount (default "" (line !! column))) <$> lines).
Fixpoint line_text (widths : list Z) (cells : list string) : string :=
  match cells, widths with
  | [], _ => newline
  | [cell], _ => cell +:+ newline
  | cell :: cells, w :: widths => cell +:+ spaces (w - RuneCount cell) +:+ line_text widths cells
  | cell :: cells, [] => cell +:+ line_text [] cells
  end.
Definition table_text (columns : nat) (lines : list (list string)) : string :=
  let widths := column_width lines <$> seq 0 (columns - 1) in
  foldr (fun line text => line_text widths line +:+ text) "" lines.

Definition localFields (row : Row) : list string :=
  [AddrString (row_localIP row); cleanTableValue (row_interfaceName row); pretty (row_table row);
   (if row_hasGateway row then AddrString (row_gateway row) else "direct");
   cleanTableValue (if row_runnable row then "runnable" else row_localReason row)].

Definition probeFields (row : Row) : list string :=
  match row_probe row with
  | None => [""; ""; ""; ""]
  | Some status =>
      if negb (ps_attempted status) then [""; ""; ""; ""]
      else
        match ps_err status with
        | Some e => [""; ""; ""; cleanTableValue (error_text e)]
        | None =>
            [(if AddrIsValid (ps_publicIP status) then AddrString (ps_publicIP status) else ""); pretty (ps_asn status);
             cleanTableValue (ps_organization status); "ok"]
        end
  end.

(** The weight of a status is shown when it is positive. *)
Definition measureFields (row : Row) : list string :=
  match row_measure row with
  | None => [""; ""; ""]
  | Some status =>
      if negb (ms_attempted status) then [""; ""; ""]
      else
        match ms_err status with
        | Some e => [""; ""; cleanTableValue (error_text e)]
        | None =>
            [FormatFixed2 (Mbps (ms_bytes status) (ms_duration status) (ms_err status));
             (if 0 <? ms_weight status then pretty (ms_weight status) else ""); "ok"]
        end
  end.

Definition headings (includeProbe includeMeasure : bool) : list string :=
  ["LOCAL_IP"; "IFACE"; "ROUTE_TABLE"; "GATEWAY"; "LOCAL_STATUS"]
  ++ (if includeProbe then ["PUBLIC_IP"; "ASN"; "ORGANIZATION"; "PROBE_STATUS"] else [])
  ++ (if includeMeasure then ["MBPS"; "WEIGHT"; "MEASURE_STATUS"] else []).
Definition row_fields (includeProbe includeMeasure : bool) (row : Row) : list string :=
  localFields row ++ (if includeProbe then probeFields row else []) ++ (if includeMeasure then measureFields row else []).

Definition network_table (rows : list Row) (includeProbe includeMeasure : bool) : string :=
  table_text (length (headings includeProbe includeMeasure)) (headings includeProbe includeMeasure :: (row_fields includeProbe includeMeasure <$> rows)).

(** ** The process *)
Section Execute.
Context `{URLs}.
Context (answer : Output -> Stream -> string -> option error).
Context (listing : ListRequest -> result ListResult) (runner : RunRequest -> W (result RunResult)) (readVersion : result string).
Let write := write answer.

(** The pieces of the table are written one after the other: one write here. *)
Definition writeNetworkList (res : ListResult) (includeProbe includeMeasure : bool) : W (option error) :=
  write Stdout (network_table (res_rows res) includeProbe includeMeasure).

Definition writeRuntimeError (e : error) : W Z :=
  out! _ := write Stderr ("transferlanes: " +:+ error_text e +:+ newline) in W_ret exitRuntime.
Definition writeCommandUsageError (command message : string) : W Z :=
  out! _ := write Stderr ("transferlanes: " +:+ message +:+ newline +:+ "Run 'transferlanes " +:+ command +:+ " --help' for usage." +:+ newline) in
  W_ret exitUsage.
Definition writeParsedUsageError (argv : list string) (message : string) : W Z :=
  match argv with
  | command :: _ =>
      if bool_decide (command = "list") || bool_decide (command = "run") then writeCommandUsageError command message
      else out! _ := write Stderr ("transferlanes: " +:+ message +:+ newline +:+ newline +:+ help_text RootHelpPage) in W_ret exitUsage
  | [] => out! _ := write Stderr ("transferlanes: " +:+ message +:+ newline +:+ newline +:+ help_text RootHelpPage) in W_ret exitUsage
  end.

Definition executeVersion : W Z :=
  match readVersion with
  | Err e => writeRuntimeError (ErrWrap "read build identity" e)
  | Ok value =>
      out! e := write Stdout value in
      match e with Some e => writeRuntimeError (ErrWrap "write version" e) | None => W_ret exitSuccess end
  end.

Definition executeList (request : ListRequest) : W Z :=
  match listing request with
  | Err e =>
      let failure := ErrWrap "list networks" e in
      if errors_As e errListUsage then writeCommandUsageError "list" (error_text failure)
      else writeRuntimeError failure
  | Ok res =>
      out! e := writeNetworkList res (ProbeRequested request) (MeasureRequested request) in
      match e with
      | Some e => writeRuntimeError (ErrWrap "write network list" e)
      | None => W_ret (if res_runtimeFailure res then exitRuntime else exitSuccess)
      end
  end.

Definition executeRun (request : RunRequest) : W Z :=
  out! completion := runner request in
  match completion with
  | Err e => writeRuntimeError e
  | Ok res => presentRun answer res
  end.

Definition execute (argv : list string) : W Z :=
  match Parse argv with
  | Misused e => writeParsedUsageError argv (usage_text e)
  | Parsed (Help page) =>
      out! e := write Stdout (help_text page) in
      match e with Some e => writeRuntimeError (ErrWrap "write help" e) | None => W_ret exitSuccess end
  | Parsed Version => executeVersion
  | Parsed (CLIList request) => executeList request
  | Parsed (Run request) =>
      match CheckStartRequestCapacity request with
      | Some e => writeCommandUsageError "run" (error_text e)
      | None => executeRun request
      end
  end.
End Execute.

(** * What the exit status and the output tell

    Messages are one printable line each; the summary of a run reports every
    transfer; the exit status is 0 exactly when everything succeeded and was
    shown, 130 when the user cancelled cleanly, 2 for a command line that was
    refused and 1 otherwise. *)
(** ** Clean text *)
Lemma runes_are_runes n l : Forall (fun r => is_rune r = true) (runes_fuel n l).
Proof.
  revert l; induction n as [|n IH]; intros [|b l]; cbn [runes_fuel]; [constructor..|].
  destruct (split_rune (b :: l)) as [[r l']|] eqn:E; constructor; try apply IH; [|done].
  cbn in E. destruct (is_rune _) eqn:Er; [|done]. by injection E as <- _.
Qed.

Lemma trim_left_suffix l : exists before, l = before ++ trim_left l.
Proof.
  induction l as [|r l [before IH]]; [by exists []|]. cbn. destruct (IsSpace r); [|by exists []]. exists (r :: before). cbn. by f_equal.
Qed.

Lemma trim_infix l : exists before after, l = before ++ trim l ++ after.
Proof.
  destruct (trim_left_suffix l) as [before E]. destruct (trim_left_suffix (rev (trim_left l))) as [after E'].
  exists before, (rev after). unfold trim. rewrite <- rev_app_distr, <- E', rev_involutive. done.
Qed.

Definition printable_rune (r : list byte) : Prop := is_rune r = true /\ IsControl r = false.

Lemma clean_runes_printable value : Forall printable_rune (clean_runes value).
Proof.
  unfold clean_runes. destruct (trim_infix ((fun r => if IsControl r then [x20] else r) <$> runes value)) as (before & after & E).
  assert (H : Forall printable_rune ((fun r => if IsControl r then [x20] else r) <$> runes value)).
  { apply Forall_fmap. eapply Forall_impl; [apply runes_are_runes|]. intros r Hr. cbn. by destruct (IsControl r) eqn:Ec. }
  rewrite E in H. apply Forall_app in H as [_ H]. by apply Forall_app in H as [H _].
Qed.

Lemma in_byte_ge lo hi b : in_byte lo hi b = true -> lo <= b2z b.
Proof. unfold in_byte. intros H. bool_to_prop. done. Qed.

Lemma second_ok_ge b0 b1 : second_ok b0 b1 = true -> 0x80 <= b2z b1.
Proof. unfold second_ok, continuation. destruct b0; intros H%in_byte_ge; lia. Qed.

Lemma rune_size_ge b n : rune_size b = n -> (2 <= n)%nat -> 0x80 <= b2z b.
Proof.
  unfold rune_size. destruct (in_byte 0 0x7f b); [lia|]. destruct (in_byte 0xc2 0xdf b) eqn:E; [apply in_byte_ge in E; lia|].
  destruct (in_byte 0xe0 0xef b) eqn:E1; [apply in_byte_ge in E1; lia|]. destruct (in_byte 0xf0 0xf4 b) eqn:E2; [apply in_byte_ge in E2; lia|lia].
Qed.

(** Only a rune of its own has a byte below 0x80. *)
Lemma low_byte_alone r b : is_rune r = true -> b ∈ r -> b2z b < 0x80 -> r = [b].
Proof.
  intros Hr Hb Hc. destruct r as [|b0 [|b1 [|b2 [|b3 [|]]]]]; cbn in Hr; try done; bool_to_prop.
  { by apply list_elem_of_singleton in Hb as ->. }
  all: exfalso; repeat match goal with
    | H : second_ok _ _ = true |- _ => apply second_ok_ge in H
    | H : continuation _ = true |- _ => apply in_byte_ge in H
    | H : rune_size _ = _ |- _ => apply rune_size_ge in H; [|lia]
    end; repeat (apply elem_of_cons in Hb as [->|Hb]; [lia|]); by apply not_elem_of_nil in Hb.
Qed.

(** A clean message has no control byte: it is on one line. *)
Lemma clean_is_one_line value b : b ∈ bytes_of (cleanRunMessage value) -> 0x20 <= b2z b /\ b2z b <> 0x7f.
Proof.
  unfold cleanRunMessage. rewrite bytes_of_text_of. intros (r & Hb & Hr)%list_elem_of_join.
  pose proof (clean_runes_printable value) as Hp. rewrite Forall_forall in Hp. destruct (Hp _ Hr) as [Hrune Hc].
  destruct (Z.lt_ge_cases (b2z b) 0x80) as [Hlow|]; [|lia]. rewrite (low_byte_alone _ _ Hrune Hb Hlow) in Hc.
  unfold IsControl, between in Hc. cbn in Hc. bool_to_prop. pose proof (b2z_range b). destruct H; bool_to_prop; lia.
Qed.

(** ** Writing *)
Section Writing.
Context (answer : Output -> Stream -> string -> option error).

Definition as_write (line : Stream * string) : W (option error) := write answer line.1 line.2.

(** What the writer answers to the lines, one after the other. *)
Fixpoint answers (out : Output) (lines : Output) : list (option error) :=
  match lines with
  | [] => []
  | line :: lines => answer out line.1 line.2 :: answers (out ++ [line]) lines
  end.
Definition accepted (out lines : Output) : Prop := Forall (fun e => e = None) (answers out lines).

Lemma answers_app lines more : forall out, answers out (lines ++ more) = answers out lines ++ answers (out ++ lines) more.
Proof.
  induction lines as [|line lines IH]; intros out; cbn [answers app]; [by rewrite app_nil_r|]. by rewrite IH, <- app_assoc.
Qed.

Lemma write_each_lines lines : forall out, write_each (as_write <$> lines) out = (answers out lines, out ++ lines).
Proof.
  induction lines as [|[st text] lines IH]; intros out; cbn; [by rewrite app_nil_r|]. unfold W_bind, write in *. cbn.
  rewrite IH. cbn. by rewrite <- app_assoc.
Qed.

(** *** The lines of a run *)
Definition failure_line (name value : string) : Stream * string :=
  (Stderr, "transferlanes: " +:+ name +:+ ": " +:+ cleanRunMessage value +:+ newline).
Definition run_line_out (line : string) : Stream * string := (Stdout, "transferlanes: " +:+ line +:+ newline).
Definition named_lines (name value : string) : Output := if bool_decide (value = "") then [] else [failure_line name value].

Definition parent_lines (res : RunResult) : Output :=
  (match parentError res with Some e => [failure_line "output" (error_text e)] | None => [] end)
  ++ (match logError res with Some e => [failure_line "logs" (error_text e)] | None => [] end).

Definition summary_lines (f : Final) : Output :=
  let transfers := sorted_transfers (Transfers f) in
  (match Source f with Some s => [run_line_out (source_line s)] | None => [] end)
  ++ ((fun t => run_line_out (transfer_line t)) <$> transfers)
  ++ [run_line_out (totals_line transfers)]
  ++ named_lines "internal" (InternalError f) ++ named_lines "run" (runFailureMessage transfers (RunError f))
  ++ (if bool_decide (CleanupError f = "") then [run_line_out "cleanup completed"] else named_lines "cleanup" (CleanupError f)).

Definition diagnostic_lines (f : Final) : Output :=
  named_lines "internal" (InternalError f) ++ named_lines "run" (RunError f) ++ named_lines "cleanup" (CleanupError f).
Definition final_lines (res : RunResult) : Output :=
  match run_final res, run_display res with
  | None, _ => []
  | Some f, Some DisplayPlain => summary_lines f
  | Some f, _ => diagnostic_lines f
  end.
Definition run_lines (res : RunResult) : Output := final_lines res ++ parent_lines res.

Lemma named_as_write name value : named answer name value = as_write <$> named_lines name value.
Proof. unfold named, named_lines. by case_bool_decide. Qed.

Lemma final_summary_lines f : final_summary answer f = as_write <$> summary_lines f.
Proof.
  unfold final_summary, summary_lines. rewrite !named_as_write, !fmap_app. f_equal; [by destruct (Source f)|]. f_equal.
  { rewrite <- list_fmap_compose. done. }
  do 3 f_equal. by case_bool_decide.
Qed.

Lemma parent_as_write res : parent_failures answer (parentError res) (logError res) = as_write <$> parent_lines res.
Proof. unfold parent_failures, parent_lines. rewrite fmap_app. by destruct (parentError res), (logError res). Qed.

Lemma writeParent_lines res out :
  writeParentRunFailures answer (parentError res) (logError res) out = (errors_Join (answers out (parent_lines res)), out ++ parent_lines res).
Proof. unfold writeParentRunFailures, write_all, W_bind. by rewrite parent_as_write, write_each_lines. Qed.

Lemma joined_parent lines res out :
  errors_Join (answers out lines ++ [errors_Join (answers (out ++ lines) (parent_lines res))]) = None <-> accepted out (lines ++ parent_lines res).
Proof.
  unfold accepted. rewrite errors_Join_None, answers_app, !Forall_app, Forall_singleton, errors_Join_None. done.
Qed.

(** Every line is written, whatever the writers answer; a line that is not
    accepted makes the run fail. *)
Lemma presentRun_spec res out : exists code,
  presentRun answer res out = (code, out ++ run_lines res)
  /\ (accepted out (run_lines res) /\ code = classifyRunCompletion res \/ ~ accepted out (run_lines res) /\ code = exitRuntime).
Proof.
  assert (H : exists e, (match run_display res with
                    | Some DisplayPlain => writePlainRunSummary answer res
                    | _ => writeInteractiveRunDiagnostics answer res
                    end) out = (e, out ++ run_lines res) /\ (e = None <-> accepted out (run_lines res))).
  { unfold run_lines. destruct (decide (run_display res = Some DisplayPlain)) as [Ed|Ed].
    - unfold final_lines. rewrite Ed. unfold writePlainRunSummary, W_bind. destruct (run_final res) as [f|].
      + rewrite final_summary_lines, write_each_lines, writeParent_lines. eexists. rewrite app_assoc. split; [reflexivity|]. apply joined_parent.
      + rewrite writeParent_lines. eexists. split; [reflexivity|]. apply errors_Join_None.
    - assert (Hi : writeInteractiveRunDiagnostics answer res out =
        (errors_Join (answers out (final_lines res) ++ [errors_Join (answers (out ++ final_lines res) (parent_lines res))]), out ++ run_lines res)).
      { unfold writeInteractiveRunDiagnostics, W_bind, run_lines, final_lines. destruct (run_final res) as [f|].
        - assert (named answer "internal" (InternalError f) ++ named answer "run" (RunError f) ++ named answer "cleanup" (CleanupError f)
            = as_write <$> diagnostic_lines f) as -> by (unfold diagnostic_lines; by rewrite !named_as_write, !fmap_app).
          rewrite write_each_lines, writeParent_lines, app_assoc. by destruct (run_display res) as [[]|].
        - change (write_each []) with (write_each (as_write <$> [])). rewrite write_each_lines, writeParent_lines, app_assoc. done. }
      eexists. rewrite app_assoc. split; [|apply joined_parent]. unfold run_lines in Hi. rewrite app_assoc in Hi. rewrite <- Hi.
      by destruct (run_display res) as [[]|]. }
  destruct H as (e & E & He). unfold presentRun, W_bind. rewrite E. destruct e as [e|]; eexists; (split; [reflexivity|]).
  - right. split; [|done]. by intros H%He.
  - left. split; [by apply He|done].
Qed.
End Writing.

(** ** The exit status *)
(** The user cancelled: by a signal to this process, or so the result says. *)
Definition user_cancelled (res : RunResult) (f : Final) : Prop := cancellation res = Some CancelUser \/ Reason f = CancelUser.
Definition nothing_lost (res : RunResult) : Prop := parentError res = None /\ logError res = None.

Definition run_succeeded (res : RunResult) : Prop :=
  nothing_lost res /\ exists f, run_final res = Some f /\ InternalError f = "" /\ RunError f = "" /\ CleanupError f = ""
    /\ ~ user_cancelled res f /\ Cancelled f = false /\ Forall (fun t => ExitCode t = 0 /\ Signal t = 0) (Transfers f).

Definition run_interrupted (res : RunResult) : Prop :=
  nothing_lost res /\ match run_final res with
                      | Some f => InternalError f = "" /\ CleanupError f = "" /\ user_cancelled res f
                      | None => liveSessionEstablished res = false /\ cancellation res = Some CancelUser
                      end.

Lemma any_failed_spec transfers : anyRunTransferFailed transfers = false <-> Forall (fun t => ExitCode t = 0 /\ Signal t = 0) transfers.
Proof.
  unfold anyRunTransferFailed, transfer_succeeded. induction transfers as [|t l IH]; [by split; [constructor|]|]. cbn.
  rewrite orb_false_iff, IH, Forall_cons, negb_false_iff, andb_true_iff, !Z.eqb_eq. done.
Qed.

Lemma user_cancelled_spec res f : cancelled_by_user (cancellation res) || (Reason f =? CancelUser) = true <-> user_cancelled res f.
Proof. unfold user_cancelled, cancelled_by_user. by rewrite orb_true_iff, bool_decide_eq_true, Z.eqb_eq. Qed.

Lemma classify_spec res :
  classifyRunCompletion res = exitSuccess /\ run_succeeded res
  \/ classifyRunCompletion res = runExitInterrupt /\ run_interrupted res
  \/ classifyRunCompletion res = exitRuntime /\ ~ run_succeeded res /\ ~ run_interrupted res.
Proof.
  unfold classifyRunCompletion, run_succeeded, run_interrupted, nothing_lost.
  destruct (parentError res) as [e|]; [right; right; split_and!; [done|by intros [[? ?] _]..]|].
  destruct (logError res) as [e|]; [right; right; split_and!; [done|by intros [[? ?] _]..]|]. cbn [bool_decide decide option_eq_None_dec is_Some_dec orb].
  destruct (run_final res) as [f|].
  - destruct (decide (InternalError f = "")) as [Ei|Ei]; [rewrite bool_decide_eq_true_2 by done|rewrite bool_decide_eq_false_2 by done; right; right; naive_solver].
    destruct (decide (CleanupError f = "")) as [Ec|Ec]; [rewrite bool_decide_eq_true_2 by done|rewrite (bool_decide_eq_false_2 (CleanupError f = "")) by done; right; right; naive_solver].
    cbn [negb orb].
    destruct (cancelled_by_user _ || _) eqn:Eu; [apply user_cancelled_spec in Eu; right; left; naive_solver|].
    assert (Hu : ~ user_cancelled res f) by (by rewrite <- user_cancelled_spec, Eu).
    destruct (decide (RunError f = "")) as [Er|Er]; [rewrite bool_decide_eq_true_2 by done|rewrite bool_decide_eq_false_2 by done; right; right; naive_solver].
    cbn [negb orb]. destruct (anyRunTransferFailed (Transfers f)) eqn:Ea.
    { right; right. split; [done|]. split; [|naive_solver]. intros (_ & f' & [= <-] & _ & _ & _ & _ & _ & Hall). apply any_failed_spec in Hall. congruence. }
    apply any_failed_spec in Ea. cbn [orb]. destruct (Cancelled f) eqn:Eca.
    { right; right. split; [done|]. split; [|by intros (_ & _ & _ & ?)]. intros (_ & f' & [= <-] & _ & _ & _ & _ & ? & _). congruence. }
    left. split; [done|]. split; [done|]. by exists f.
  - destruct (liveSessionEstablished res); cbn [negb andb]; [right; right; naive_solver|]. unfold cancelled_by_user.
    case_bool_decide; [right; left; naive_solver|right; right; naive_solver].
Qed.

Section Status.
Context `{URLs}.
Context (answer : Output -> Stream -> string -> option error).
Context (listing : ListRequest -> result ListResult) (runner : RunRequest -> W (result RunResult)) (readVersion : result string).

(** The request was refused: the command line does not parse, no start request of
    it fits the pipe, or the listing found an error of usage. *)
Definition refused (argv : list string) : Prop :=
  match Parse argv with
  | Misused _ => True
  | Parsed (Run r) => is_Some (CheckStartRequestCapacity r)
  | Parsed (CLIList q) => exists e, listing q = Err e /\ errors_As e errListUsage = true
  | Parsed _ => False
  end.

Definition succeeded (argv : list string) (out : Output) : Prop :=
  match Parse argv with
  | Misused _ => False
  | Parsed (Help page) => accepted answer out [(Stdout, help_text page)]
  | Parsed Version => exists text, readVersion = Ok text /\ accepted answer out [(Stdout, text)]
  | Parsed (CLIList q) => exists res, listing q = Ok res /\ res_runtimeFailure res = false
      /\ accepted answer out [(Stdout, network_table (res_rows res) (ProbeRequested q) (MeasureRequested q))]
  | Parsed (Run r) => CheckStartRequestCapacity r = None /\ exists res ran, runner r out = (Ok res, ran) /\ run_succeeded res
      /\ accepted answer ran (run_lines res)
  end.

Definition interrupted (argv : list string) (out : Output) : Prop :=
  exists r res ran, Parse argv = Parsed (Run r) /\ CheckStartRequestCapacity r = None /\ runner r out = (Ok res, ran)
    /\ run_interrupted res /\ accepted answer ran (run_lines res).

Lemma accepted_one out st text : accepted answer out [(st, text)] <-> answer out st text = None.
Proof. unfold accepted. cbn. by rewrite Forall_singleton. Qed.

Lemma run_outcomes_differ res : run_succeeded res -> run_interrupted res -> False.
Proof. intros (_ & f & Hf & _ & _ & _ & Hu & _) (_ & Hi). rewrite Hf in Hi. tauto. Qed.

(** One outcome, with its code. *)
Lemma one_outcome (code : Z) (R S I : Prop) :
  (code = exitUsage /\ R /\ ~ S /\ ~ I) \/ (code = exitSuccess /\ S /\ ~ R /\ ~ I)
  \/ (code = runExitInterrupt /\ I /\ ~ R /\ ~ S) \/ (code = exitRuntime /\ ~ R /\ ~ S /\ ~ I) ->
  (code = exitUsage <-> R) /\ (code = exitSuccess <-> S) /\ (code = runExitInterrupt <-> I) /\ (code = exitRuntime <-> ~ R /\ ~ S /\ ~ I).
Proof.
  unfold exitUsage, exitSuccess, runExitInterrupt, exitRuntime.
  intros [(-> & ?)|[(-> & ?)|[(-> & ?)|(-> & ?)]]]; (split; [|split; [|split]]); split; intros; first [done|tauto].
Qed.

(** A command that is no run is done or failed. *)
Lemma done_or_failed (code : Z) (S I : Prop) :
  ~ I -> (code = exitSuccess /\ S) \/ (code = exitRuntime /\ ~ S) ->
  (code = exitUsage /\ False /\ ~ S /\ ~ I) \/ (code = exitSuccess /\ S /\ ~ False /\ ~ I)
  \/ (code = runExitInterrupt /\ I /\ ~ False /\ ~ S) \/ (code = exitRuntime /\ ~ False /\ ~ S /\ ~ I).
Proof. tauto. Qed.

Lemma not_a_run argv out p : Parse argv = p -> match p with Parsed (Run _) => False | _ => True end -> ~ interrupted argv out.
Proof. intros E Hp (r & res & ran & E' & _). rewrite E' in E. by subst. Qed.

(** A run that was started. *)
Lemma run_outcome r out : CheckStartRequestCapacity r = None ->
  let S := exists res ran, runner r out = (Ok res, ran) /\ run_succeeded res /\ accepted answer ran (run_lines res) in
  let I := exists res ran, runner r out = (Ok res, ran) /\ run_interrupted res /\ accepted answer ran (run_lines res) in
  let code := (executeRun answer runner r out).1 in
  (code = exitSuccess /\ S /\ ~ I) \/ (code = runExitInterrupt /\ I /\ ~ S) \/ (code = exitRuntime /\ ~ S /\ ~ I).
Proof.
  intros _. cbn zeta. unfold executeRun, W_bind. destruct (runner r out) as [[res|e] ran].
  2: { right; right. split; [done|]. split; by intros (? & ? & [= ] & _). }
  destruct (presentRun_spec answer res ran) as (code & Ep & Hcode). rewrite Ep. cbn [fst].
  destruct Hcode as [[Ha ->]|[Ha ->]].
  - destruct (classify_spec res) as [(-> & Hs)|[(-> & Hs)|(-> & Hs & Hi)]].
    + left. split; [done|]. split; [by exists res, ran|]. intros (res' & ran' & [= <- <-] & Hi & _). by apply (run_outcomes_differ res).
    + right; left. split; [done|]. split; [by exists res, ran|]. intros (res' & ran' & [= <- <-] & Hs' & _). by apply (run_outcomes_differ res).
    + right; right. split; [done|]. split; by intros (res' & ran' & [= <- <-] & ? & _).
  - right; right. split; [done|]. split; by intros (res' & ran' & [= <- <-] & _ & ?).
Qed.

(** C20. The exit status of the process is 2 exactly when the request was refused: the
    command line does not parse, no start request of it fits the pipe, or the
    listing reports an error of usage; 0 exactly when what it asked for was done and everything that had to
    be written was accepted (for a run: a clean result, no transfer failed, nothing
    was cancelled, and neither the display nor the logs lost anything); 130 exactly
    when the user cancelled a run that cleaned up and whose output is complete; and
    1 in every other case. *)
Theorem exit_status_tells_the_outcome argv out :
  let code := (execute answer listing runner readVersion argv out).1 in
  (code = exitUsage <-> refused argv) /\ (code = exitSuccess <-> succeeded argv out) /\ (code = runExitInterrupt <-> interrupted argv out)
  /\ (code = exitRuntime <-> ~ refused argv /\ ~ succeeded argv out /\ ~ interrupted argv out).
Proof.
  cbn zeta. apply one_outcome. unfold refused, succeeded.
  unfold execute. destruct (Parse argv) as [[page| |q|r]|e] eqn:E.
  - apply done_or_failed; [by eapply not_a_run|]. rewrite accepted_one. unfold W_bind, write. by destruct (answer out Stdout (help_text page)); [right|left].
  - apply done_or_failed; [by eapply not_a_run|]. unfold executeVersion. destruct readVersion as [text|e]; [|right; by split; [|intros (? & ? & _)]].
    setoid_rewrite accepted_one. unfold W_bind, write. destruct (answer out Stdout text) eqn:Ea; [right|left]; (split; [done|]); [|by exists text].
    intros (text' & [= <-] & Ha). congruence.
  - pose proof (not_a_run _ out _ E I) as Hi. unfold executeList. destruct (listing q) as [res|e] eqn:El.
    + assert (Hu : ~ exists e, Ok res = Err e /\ errors_As e errListUsage = true) by (by intros (? & ? & _)).
      unfold writeNetworkList, W_bind, write. setoid_rewrite accepted_one. destruct (answer out Stdout _) eqn:Ea.
      { right; right; right. split_and!; try done. intros (res' & [= <-] & _ & Ha). congruence. }
      destruct (res_runtimeFailure res) eqn:Ef.
      { right; right; right. split_and!; try done. intros (res' & [= <-] & Hf & _). congruence. }
      right; left. split_and!; try done. by exists res.
    + assert (Hs : forall P : ListResult -> Prop, ~ exists res, Err e = Ok res /\ P res) by (by intros ? (? & ? & _)).
      destruct (errors_As e errListUsage) eqn:Eu; [left; split_and!; [done|by exists e|by apply Hs|done]|].
      right; right; right. split_and!; [done| |by apply Hs|done]. intros (e' & [= <-] & Hu). congruence.
  - unfold interrupted. destruct (CheckStartRequestCapacity r) as [e|] eqn:Ec.
    { left. split; [done|]. split; [by eexists|]. split; [by intros [? _]|]. intros (r' & res & ran & Er & Hn & _).
      assert (r' = r) as -> by (rewrite E in Er; by injection Er). congruence. }
    assert (Hint : interrupted argv out <-> exists res ran, runner r out = (Ok res, ran) /\ run_interrupted res /\ accepted answer ran (run_lines res)).
    { unfold interrupted. split.
      - intros (r' & res & ran & Er & _ & Hr). assert (r' = r) as -> by (rewrite E in Er; by injection Er). by exists res, ran.
      - intros (res & ran & Hr). by exists r, res, ran. }
    fold (interrupted argv out). rewrite Hint. right. destruct (run_outcome r out Ec) as [(-> & Hs & Hn)|[(-> & Hs & Hn)|(-> & Hs & Hn)]].
    + left. split; [done|]. split; [done|]. split; [by intros [? ?]|done].
    + right; left. split; [done|]. split; [done|]. split; [by intros [? ?]|]. by intros [_ ?].
    + right; right. split; [done|]. split; [by intros [? ?]|]. split; [by intros [_ ?]|done].
  - left. split; [|split; [done|split; [tauto|by eapply not_a_run]]].
    unfold writeParsedUsageError. destruct argv as [|command rest]; [done|]. by destruct (bool_decide (command = "list") || _).
Qed.
End Status.

(** ** Examples *)
Module Sample.
#[local] Existing Instance TransferStartProofs.Sample.urls.

Definition all_accepted (_ : Output) (_ : Stream) (_ : string) : option error := None.
Definition closed_stdout (_ : Output) (st : Stream) (_ : string) : option error :=
  match st with Stdout => Some (ErrText "broken pipe") | Stderr => None end.
Definition listing_refuses (_ : ListRequest) : result ListResult :=
  let* _ := validateRequest (MkListRequest ["invalid"] false None None) in Err (ErrText "no netlink").
Definition listing_fails (_ : ListRequest) : result ListResult := Err (ErrText "no netlink").
Definition one_failed : Final := MkFinal false 0 "" "" "" None [MkTransferResult (MkNumber 2) 3 0; MkTransferResult (MkNumber 1) 0 0].
Definition finished (f : Final) (_ : RunRequest) : W (result RunResult) :=
  W_ret (Ok (MkRunResult true (Some DisplayPlain) (Some f) None None None)).

Example version_to_a_closed_pipe :
  execute closed_stdout listing_fails (finished one_failed) (Ok "v1") ["--version"] []
  = (exitRuntime, [(Stdout, "v1"); (Stderr, "transferlanes: write version: broken pipe" +:+ newline)]).
Proof. reflexivity. Qed.

Example errors_of_a_listing_keep_their_class :
  execute all_accepted listing_refuses (finished one_failed) (Ok "v1") ["list"] []
  = (exitUsage, [(Stderr, "transferlanes: list networks: network " +:+ Quote "invalid" +:+ " is not a valid IPv4 address" +:+ newline
                          +:+ "Run 'transferlanes list --help' for usage." +:+ newline)])
  /\ execute all_accepted listing_fails (finished one_failed) (Ok "v1") ["list"] []
     = (exitRuntime, [(Stderr, "transferlanes: list networks: no netlink" +:+ newline)]).
Proof. split; vm_compute; reflexivity. Qed.

Example failed_transfer_is_reported :
  (execute all_accepted listing_fails (finished one_failed) (Ok "v1") ("run" :: CommandLineProofs.Sample.run_argv) [])
  = (exitRuntime, [(Stdout, "transferlanes: transfer 1 completed: exit=0 signal=0" +:+ newline);
                   (Stdout, "transferlanes: transfer 2 completed: exit=3 signal=0" +:+ newline);
                   (Stdout, "transferlanes: completed: succeeded=1 failed=1" +:+ newline);
                   (Stderr, "transferlanes: run: transfer 2 failed: exit=3 signal=0" +:+ newline);
                   (Stdout, "transferlanes: cleanup completed" +:+ newline)]).
Proof. vm_compute. reflexivity. Qed.

Example table :
  network_table [MkRow (Addr4 0xc000020a) "eth0" 2 254 (Addr4 0xc0000201) true true true "" None None;
                 MkRow (Addr4 0xc000020b) "eth1" 3 0 AddrNone false false false "link is down" None None] false false
  = "LOCAL_IP    IFACE  ROUTE_TABLE  GATEWAY    LOCAL_STATUS" +:+ newline
    +:+ "192.0.2.10  eth0   254          192.0.2.1  runnable" +:+ newline
    +:+ "192.0.2.11  eth1   0            direct     link is down" +:+ newline.
Proof. vm_compute. reflexivity. Qed.
End Sample.
