(* ===== verification/SourceRoot.v ===== *)
(** * The source root

    [internal/sourcefiles/source_root.go], [filesystem_unix.go], [backing.go] and
    [access.go]: the owner of the source directory's descriptor, the descriptors
    it lends, and the leases that reopen what a snapshot names.  The kernel's file
    calls are the events; an open file is its descriptor, which stays the file's
    until it is closed.  A method runs under the owner's lock, so it is one step of
    the owner: it takes the owner's state and returns the next. *)
From ITree Require Import ITree.
From S2P Require Import Prelude Sorting GoText Paths SourceTree Allocation Effects.

(** ** The kernel's calls *)
(** The fields of [unix.Stat_t] that are read. *)
Record Stat_t : Type := MkStat { Dev : Z; Ino : Z; Mode : Z; Size : Z }.

Inductive OpenFlag : Type := O_RDONLY | O_DIRECTORY | O_CLOEXEC | O_NOFOLLOW | O_NONBLOCK.

Inductive SourceE : Type -> Type :=
  | ContextErr : SourceE (option error)
  | Getpid : SourceE Z
  | NewCapability : SourceE Z
  | Open (path : string) (flags : list OpenFlag) : SourceE (result Z)
  | Openat (directory : Z) (name : string) (flags : list OpenFlag) : SourceE (result Z)
  | Dupfd (file : Z) : SourceE (result Z)
  | Lstat (path : string) : SourceE (result Stat_t)
  | Fstatat (directory : Z) (name : string) : SourceE (result Stat_t)
  | Fstat (file : Z) : SourceE (result Stat_t)
  | Readlinkat (directory : Z) (name : string) (room : Z) : SourceE (result string)
  | Readdirnames (directory : Z) : SourceE (list string * option error)
  | FileStat (file : Z) : SourceE (result Z)
  | CloseFile (file : Z) : SourceE (option error).

Abbreviation source_io := (itree SourceE).

(** [if err != nil || !ok { return errors.Join(message, err) }]. *)
Definition expect {A} (r : result A) (ok : A -> bool) (message : error) : result A :=
  match r with
  | Ok a => if ok a then Ok a else Err (ErrJoin message [])
  | Err e => Err (ErrJoin message [e])
  end.

(** [defer file.Close()], and a close whose error is dropped. *)
Definition closing {A} (file : Z) (t : source_io A) : source_io A :=
  do! r := t in
  do! _ := call (CloseFile file) in
  Ret r.

Definition failing {A} (file : Z) (e : error) : source_io (result A) :=
  do! _ := call (CloseFile file) in
  Ret (Err e).

(** ** Identities *)
Definition sourceRegularObject : Z := 2.
Definition sourceSymlinkObject : Z := 3.
Definition sourceSpecialObject : Z := 4.

Definition S_IFMT : Z := 0xf000.
Definition S_IFDIR : Z := 0x4000.
Definition S_IFREG : Z := 0x8000.
Definition S_IFLNK : Z := 0xa000.

Definition sourceKind (mode : Z) : Z :=
  if mode =? S_IFDIR then sourceDirectoryObject
  else if mode =? S_IFREG then sourceRegularObject
  else if mode =? S_IFLNK then sourceSymlinkObject
  else sourceSpecialObject.

Definition identityFromStat (status : Stat_t) : sourceIdentity :=
  MkIdentity (wrap 64 (Dev status)) (Ino status) (sourceKind (Z.land (wrap 32 (Mode status)) S_IFMT)).

#[export] Instance sourceIdentity_eq_dec : EqDecision sourceIdentity.
Proof. solve_decision. Defined.

#[export] Instance sourceIdentity_countable : Countable sourceIdentity :=
  inj_countable' (fun i => (device i, inode i, kind i)) (fun t => MkIdentity t.1.1 t.1.2 t.2)
    ltac:(by intros []).

(** ** filesystem_unix.go *)
(** [os.NewFile] gives no file for a negative descriptor. *)
Definition wrapSourceDescriptor (fd : Z) : source_io (result Z) :=
  if fd <? 0 then failing fd (ErrText "wrap source descriptor") else Ret (Ok fd).

Definition directory_flags : list OpenFlag := [O_RDONLY; O_DIRECTORY; O_CLOEXEC; O_NOFOLLOW].
Definition regular_flags : list OpenFlag := [O_RDONLY; O_CLOEXEC; O_NOFOLLOW; O_NONBLOCK].

Definition openSourceDirectoryPath (path : string) : source_io (result Z) :=
  do* fd := call (Open path directory_flags) in wrapSourceDescriptor fd.

Definition openSourceDirectoryAt (parent : Z) (name : string) : source_io (result Z) :=
  do* fd := call (Openat parent name directory_flags) in wrapSourceDescriptor fd.

Definition openSourceRegularAt (parent : Z) (name : string) : source_io (result Z) :=
  do* fd := call (Openat parent name regular_flags) in wrapSourceDescriptor fd.

Definition duplicateSourceDescriptor (source : Z) : source_io (result Z) :=
  do* fd := call (Dupfd source) in wrapSourceDescriptor fd.

Definition lstatSource (path : string) : source_io (result sourceIdentity) :=
  do* status := call (Lstat path) in Ret (Ok (identityFromStat status)).

Definition statSourceAt (directory : Z) (name : string) : source_io (result sourceIdentity) :=
  do* status := call (Fstatat directory name) in Ret (Ok (identityFromStat status)).

(** The buffer doubles until the target fits with a byte to spare. *)
Definition read_symlink_step (directory : Z) (name : string) (size : Z) : source_io (Z + result string) :=
  if size <=? 2 ^ 20 then
    do! target := call (Readlinkat directory name size) in
    match target with
    | Err e => Ret (inr (Err e))
    | Ok target => if slen target <? size then Ret (inr (Ok target)) else Ret (inl (size * 2))
    end
  else Ret (inr (Err (ErrText "source symlink target is too long"))).

Definition readSourceSymlinkAt (directory : Z) (name : string) : source_io (result string) :=
  ITree.iter (read_symlink_step directory name) 256.

Definition inspectDescriptor (file : Z) : source_io (result sourceIdentity) :=
  do* status := call (Fstat file) in Ret (Ok (identityFromStat status)).

Definition inspectOpenedRegular (file : Z) : source_io (result (sourceIdentity * Z)) :=
  do* status := call (Fstat file) in
  let identity := identityFromStat status in
  if negb (kind identity =? sourceRegularObject) || (Size status <? 0) then
    Ret (Err (ErrText "opened source object is not a regular file"))
  else Ret (Ok (identity, wrap 64 (Size status))).

Record FileMetadata : Type := MkMetadata { meta_mode : Z; meta_size : Z; meta_mtime : Z }.

Definition metadataFromDescriptor (file : Z) (expected : Z) : source_io (result FileMetadata) :=
  do* status := call (Fstat file) in
  if negb (kind (identityFromStat status) =? expected) || (Size status <? 0) then
    Ret (Err (ErrText "source backing object changed type"))
  else
    do* mtime := call (FileStat file) in
    Ret (Ok (MkMetadata (wrap 32 (Mode status)) (wrap 64 (Size status)) mtime)).

Definition backing_flags (directory : bool) : list OpenFlag :=
  [O_RDONLY; O_CLOEXEC; O_NOFOLLOW; O_NONBLOCK] ++ if directory then [O_DIRECTORY] else [].

Fixpoint open_components (current : Z) (components : list string) (wantDirectory : bool) : source_io (result Z) :=
  match components with
  | [] => Ret (Ok current)
  | component :: rest =>
      let last := bool_decide (rest = []) in
      do! fd := call (Openat current component (backing_flags (negb last || wantDirectory))) in
      do! _ := call (CloseFile current) in
      match fd with
      | Err e => Ret (Err e)
      | Ok fd => do* current := wrapSourceDescriptor fd in open_components current rest wantDirectory
      end
  end.

Definition openBackingObject (anchor : Z) (components : list string) (wantDirectory : bool) : source_io (result Z) :=
  do* current := duplicateSourceDescriptor anchor in open_components current components wantDirectory.

(** ** backing.go *)
Definition openRelative (anchor : option Z) (relative : string) (wantDirectory : bool) : source_io (result Z) :=
  match anchor with
  | None => Ret (Err (ErrText "source backing anchor is absent"))
  | Some anchor =>
      if bool_decide (relative = ".") then
        if negb wantDirectory then Ret (Err (ErrText "regular source backing path is invalid"))
        else duplicateSourceDescriptor anchor
      else openBackingObject anchor (splitRelative relative) wantDirectory
  end.

Definition openRelativeDirectory (anchor : option Z) (relative : string) := openRelative anchor relative true.
Definition openRelativeRegular (anchor : option Z) (relative : string) := openRelative anchor relative false.

(** ** The owner *)
Definition ErrSourceRootBorrowed : error := ErrSentinel "source root is borrowed".
Definition ErrSourceRootTransferred : error := ErrSentinel "source root ownership was transferred".
Definition ErrSourceRootScanned : error := ErrSentinel "source root was already scanned".
Definition ErrSourceRootClosed : error := ErrSentinel "source root is closed".
Definition root_absent : error := ErrText "source root is absent".

Record SourceRoot : Type := MkSourceRoot {
  root : option Z;
  anchors : list Z;
  root_label : string;
  root_baseName : string;
  root_stableRoot : string;
  root_identity : sourceIdentity;
  root_capability : Z;
  borrows : Z;
  scanned : bool;
  transferred : bool;
  closed : bool
}.

(** The owner keeps what it was opened with: only its descriptors and its four
    states change. *)
Definition with_state (r : SourceRoot) (fd : option Z) (files : list Z) (lent : Z) (s t c : bool) : SourceRoot :=
  MkSourceRoot fd files (root_label r) (root_baseName r) (root_stableRoot r) (root_identity r) (root_capability r) lent s t c.

Definition lend (by_ : Z) (r : SourceRoot) : SourceRoot :=
  with_state r (root r) (anchors r) (borrows r + by_) (scanned r) (transferred r) (closed r).
Definition set_scanned (r : SourceRoot) : SourceRoot :=
  with_state r (root r) (anchors r) (borrows r) true (transferred r) (closed r).
Definition add_anchors (more : list Z) (r : SourceRoot) : SourceRoot :=
  with_state r (root r) (anchors r ++ more) (borrows r) (scanned r) (transferred r) (closed r).
Definition give_away (r : SourceRoot) : SourceRoot :=
  with_state r None [] (borrows r) (scanned r) true (closed r).
Definition shut (r : SourceRoot) : SourceRoot :=
  with_state r None [] (borrows r) (scanned r) (transferred r) true.

Definition normalizedSourceLabel (path : string) : result (string * string) :=
  if negb (IsAbs path) then Err (ErrText ("source root " +:+ Quote path +:+ " must be absolute"))
  else
    let absolute := Clean path in
    let* baseName := validateRootPath absolute in
    Ok (absolute, baseName).

(** [directory_path_linux.go]: a clean path, so joining it is concatenation. *)
Definition stableDescriptorRoot (pid fd : Z) : string := "/proc/" +:+ pretty pid +:+ "/fd/" +:+ pretty fd.

Definition newSourceRoot (fd : Z) (label baseName : string) (id : sourceIdentity) : source_io SourceRoot :=
  do! capability := call NewCapability in
  do! pid := call Getpid in
  Ret (MkSourceRoot (Some fd) [] label baseName (stableDescriptorRoot pid fd) id capability 0 false false false).

Definition OpenSourceRoot (path : string) : source_io (result SourceRoot) :=
  do* names := lift (normalizedSourceLabel path) in
  let '(label, baseName) := names in
  do! before := lstatSource label in
  match before with
  | Err e => Ret (Err (ErrWrap ("inspect source root " +:+ Quote label) e))
  | Ok before =>
      if negb (kind before =? sourceDirectoryObject) then
        Ret (Err (ErrText ("source root " +:+ Quote label +:+ " must be an actual non-symlink directory")))
      else
        do! fd := openSourceDirectoryPath label in
        match fd with
        | Err e => Ret (Err (ErrWrap ("open source root " +:+ Quote label) e))
        | Ok fd =>
            do! opened := inspectDescriptor fd in
            match expect opened (fun id => bool_decide (id = before)) (ErrText "source root changed while opening") with
            | Err e => failing fd e
            | Ok opened => do! owner := newSourceRoot fd label baseName opened in Ret (Ok owner)
            end
        end
  end.

Definition TakeSourceRoot (descriptor : option Z) (label : string) : source_io (result SourceRoot) :=
  match normalizedSourceLabel label, descriptor with
  | Err e, Some fd => failing fd e
  | Err e, None => Ret (Err e)
  | Ok _, None => Ret (Err (ErrText "inherited source descriptor is absent"))
  | Ok (normalized, baseName), Some fd =>
      do! id := inspectDescriptor fd in
      match expect id (fun id => kind id =? sourceDirectoryObject)
              (ErrText "inherited source descriptor is not a directory") with
      | Err e => failing fd e
      | Ok id => do! owner := newSourceRoot fd normalized baseName id in Ret (Ok owner)
      end
  end.

Definition Label (r : option SourceRoot) : string := from_option root_label "" r.
Definition BaseName (r : option SourceRoot) : string := from_option root_baseName "" r.
Definition StableRoot (r : option SourceRoot) : string :=
  match r with
  | Some r => match root r with Some _ => root_stableRoot r | None => "" end
  | None => ""
  end.

(** A method of a nil owner. *)
Definition on_root {A} (r : option SourceRoot) (absent : A) (method : SourceRoot -> source_io (A * SourceRoot))
  : source_io (A * option SourceRoot) :=
  match r with
  | None => Ret (absent, None)
  | Some r => do! '(a, r) := method r in Ret (a, Some r)
  end.

(** *** Lending *)
Definition borrowDescriptorLocked (r : SourceRoot) : source_io (result Z * SourceRoot) :=
  if transferred r then Ret (Err ErrSourceRootTransferred, r)
  else match closed r, root r with
  | true, _ | _, None => Ret (Err ErrSourceRootClosed, r)
  | false, Some fd =>
      do! duplicate := duplicateSourceDescriptor fd in
      match duplicate with
      | Err e => Ret (Err e, r)
      | Ok duplicate => Ret (Ok duplicate, lend 1 r)
      end
  end.

(** A borrow's descriptor while it is lent, and what its close returned. *)
Record SourceRootBorrow : Type := MkBorrow { borrow_root : option Z; borrow_err : option error }.

Definition Borrow (r : SourceRoot) : source_io (result SourceRootBorrow * SourceRoot) :=
  do! '(duplicate, r) := borrowDescriptorLocked r in
  match duplicate with
  | Err e => Ret (Err e, r)
  | Ok duplicate => Ret (Ok (MkBorrow (Some duplicate) None), r)
  end.

(** [^uintptr(0)] where there is no descriptor. *)
Definition borrow_Descriptor (borrow : option SourceRootBorrow) : Z :=
  match borrow with Some (MkBorrow (Some fd) _) => fd | _ => MaxUint64 end.

(** The once of a borrow has run when its descriptor is gone. *)
Definition borrow_Close (borrow : SourceRootBorrow) (r : SourceRoot)
  : source_io (option error * (SourceRootBorrow * SourceRoot)) :=
  match borrow_root borrow with
  | None => Ret (borrow_err borrow, (borrow, r))
  | Some fd =>
      do! err := call (CloseFile fd) in
      Ret (err, (MkBorrow None err, lend (-1) r))
  end.

Fixpoint close_all (files : list Z) : source_io (list (option error)) :=
  match files with
  | [] => Ret []
  | file :: files =>
      do! err := call (CloseFile file) in
      do! errs := close_all files in
      Ret (err :: errs)
  end.

Definition TransferDescriptor (r : SourceRoot) : source_io (result Z * SourceRoot) :=
  if transferred r then Ret (Err ErrSourceRootTransferred, r)
  else match closed r, root r with
  | true, _ | _, None => Ret (Err ErrSourceRootClosed, r)
  | false, Some descriptor =>
      if negb (borrows r =? 0) then Ret (Err ErrSourceRootBorrowed, r)
      else
        do! _ := close_all (anchors r) in
        Ret (Ok descriptor, give_away r)
  end.

Definition Close (r : SourceRoot) : source_io (option error * SourceRoot) :=
  if transferred r then Ret (Some ErrSourceRootTransferred, r)
  else if closed r then Ret (None, r)
  else if negb (borrows r =? 0) then Ret (Some ErrSourceRootBorrowed, r)
  else
    do! failures := close_all (option_list (root r) ++ anchors r) in
    Ret (errors_Join failures, shut r).

(** *** What a scan takes of its owner *)
Definition beginScan (r : SourceRoot) : source_io (result (Z * sourceIdentity * Z) * SourceRoot) :=
  if scanned r then Ret (Err ErrSourceRootScanned, r)
  else
    do! '(descriptor, r) := borrowDescriptorLocked r in
    match descriptor with
    | Err e => Ret (Err e, r)
    | Ok descriptor => Ret (Ok (descriptor, root_identity r, root_capability r), set_scanned r)
    end.

Definition finishScan (descriptor : Z) (r : SourceRoot) : source_io (option error * SourceRoot) :=
  do! closeErr := call (CloseFile descriptor) in
  Ret (closeErr, lend (-1) r).

(** The descriptor of the root is anchor 0. *)
Definition maximumAnchors : Z := (2 ^ 32 - 1) - 1.

Definition addBackingDirectory (directory : option Z) (r : SourceRoot) : result Z * SourceRoot :=
  match directory with
  | None => (Err (ErrText "backing directory is absent"), r)
  | Some directory =>
      match transferred r || closed r, root r with
      | true, _ | _, None => (Err ErrSourceRootClosed, r)
      | false, Some _ =>
          if maximumAnchors <=? zlen (anchors r) then (Err (ErrText "too many source backing directories"), r)
          else (Ok (wrap 32 (zlen (anchors r ++ [directory]))), add_anchors [directory] r)
      end
  end.

(** ** access.go *)
Definition sameSnapshotSource (r : SourceRoot) (id : sourceIdentity) (capability : option Z) : bool :=
  match capability, root r with
  | Some capability, Some _ => bool_decide (root_identity r = id) && (root_capability r =? capability)
  | _, _ => false
  end.

(** A lease's descriptors, and what its close returned once it ran. *)
Record SourceAccess : Type := MkAccess { access_anchors : list Z; access_once : bool; access_err : option error }.

Fixpoint duplicate_all (sources duplicates : list Z) : source_io (result (list Z)) :=
  match sources with
  | [] => Ret (Ok duplicates)
  | source :: sources =>
      do! file := duplicateSourceDescriptor source in
      match file with
      | Err e =>
          do! failures := close_all duplicates in
          Ret (Err (ErrJoin e (option_list (errors_Join failures))))
      | Ok file => duplicate_all sources (duplicates ++ [file])
      end
  end.

Definition duplicateBackingDirectories (fd : Z) (files : list Z) : source_io (result (list Z)) :=
  duplicate_all (fd :: files) [].

Definition AcquireAccess (r : SourceRoot) (snapshot : SourceSnapshot) : source_io (result SourceAccess * SourceRoot) :=
  match snapshot with
  | None => Ret (Err (ErrText "source access requires its originating snapshot"), r)
  | Some contents =>
      if negb (sameSnapshotSource r (identity contents) (capability contents)) then
        Ret (Err (ErrText "source access requires its originating snapshot"), r)
      else match transferred r || closed r, root r with
      | true, _ | _, None => Ret (Err ErrSourceRootClosed, r)
      | false, Some fd =>
          do! duplicates := duplicateBackingDirectories fd (anchors r) in
          match duplicates with
          | Err e => Ret (Err e, r)
          | Ok duplicates => Ret (Ok (MkAccess duplicates false None), lend 1 r)
          end
      end
  end.

Definition reference_accepted (access : option SourceAccess) (reference : BackingReference) : bool :=
  from_option (fun access => backing_valid reference (zlen (access_anchors access))) false access.

Definition access_anchor (access : option SourceAccess) (reference : BackingReference) : option Z :=
  access ≫= fun access => access_anchors access !! Z.to_nat (anchor reference).

Definition OpenRegular (access : option SourceAccess) (reference : BackingReference)
  : source_io (result (Z * FileMetadata)) :=
  if negb (reference_accepted access reference) then Ret (Err (ErrText "source backing reference is invalid"))
  else
    do* file := openRelativeRegular (access_anchor access reference) (backingPath reference) in
    do! metadata := metadataFromDescriptor file sourceRegularObject in
    match metadata with
    | Err e => failing file e
    | Ok metadata => Ret (Ok (file, metadata))
    end.

Definition DirectoryMetadata (access : option SourceAccess) (reference : BackingReference)
  : source_io (result FileMetadata) :=
  if negb (reference_accepted access reference) then Ret (Err (ErrText "source backing reference is invalid"))
  else
    do* directory := openRelativeDirectory (access_anchor access reference) (backingPath reference) in
    closing directory (metadataFromDescriptor directory sourceDirectoryObject).

Definition access_Close (access : SourceAccess) (r : SourceRoot)
  : source_io (option error * (SourceAccess * SourceRoot)) :=
  if access_once access then Ret (access_err access, (access, r))
  else
    do! failures := close_all (access_anchors access) in
    let err := errors_Join failures in
    Ret (err, (MkAccess [] true err, lend (-1) r)).

(** ** Methods of an owner that may be nil *)
Definition BorrowRoot (r : option SourceRoot) := on_root r (Err root_absent) Borrow.
Definition TransferRoot (r : option SourceRoot) := on_root r (Err root_absent) TransferDescriptor.
Definition CloseRoot (r : option SourceRoot) := on_root r None Close.
Definition AcquireRoot (r : option SourceRoot) (snapshot : SourceSnapshot) :=
  on_root r (Err (ErrText "source access requires its originating snapshot")) (fun r => AcquireAccess r snapshot).
