(* ===== verification/SourceScan.v ===== *)
(** * The source scan

    [internal/sourcefiles/scanner.go] and [symlink.go]: one pass over an owned
    directory that follows symbolic links itself, component by component, and
    checks that what it opened is what it saw.  A scan step takes the scanner's
    state and returns the next, on failure too: the summary, the directories it is
    in, and the owner, whose anchors it adds to.  The recursion is open: a step
    that enters a directory takes the scan of that directory, and [scanDirectory]
    ties the knot with fuel, running silently forever when it has none. *)
From ITree Require Import ITree.
From S2P Require Import Prelude Sorting GoText Paths SourceTree Allocation Effects SourceRoot.

Record sourceScanner : Type := MkScanner {
  owner : SourceRoot;
  scan_summary : Summary;
  ancestors : gset sourceIdentity
}.

Definition set_owner (r : SourceRoot) (s : sourceScanner) : sourceScanner :=
  MkScanner r (scan_summary s) (ancestors s).
Definition set_summary (f : Summary -> Summary) (s : sourceScanner) : sourceScanner :=
  MkScanner (owner s) (f (scan_summary s)) (ancestors s).
Definition set_ancestors (f : gset sourceIdentity -> gset sourceIdentity) (s : sourceScanner) : sourceScanner :=
  MkScanner (owner s) (scan_summary s) (f (ancestors s)).

(** ** Scan steps *)
Definition scan (A : Type) : Type := sourceScanner -> source_io (result A * sourceScanner).

Definition scan_return {A} (r : result A) : scan A := fun s => Ret (r, s).
Definition scan_bind {A B} (m : scan A) (k : A -> scan B) : scan B := fun s =>
  do! '(r, s) := m s in
  match r with Ok a => k a s | Err e => Ret (Err e, s) end.
Definition scan_io {A} (t : source_io (result A)) : scan A := fun s => do! r := t in Ret (r, s).
Definition scan_put (f : sourceScanner -> sourceScanner) : scan unit := fun s => Ret (Ok tt, f s).
Definition scan_read {A} (f : sourceScanner -> A) : scan A := fun s => Ret (Ok (f s), s).

(** Deferred: run whether the step fails or not. *)
Definition scan_closing {A} (file : Z) (m : scan A) : scan A := fun s => closing file (m s).
Definition scan_leaving {A} (directory : sourceIdentity) (m : scan A) : scan A := fun s =>
  do! '(r, s) := m s in Ret (r, set_ancestors (fun a => a ∖ {[directory]}) s).
Definition scan_wrapping {A} (message : string) (m : scan A) : scan A := fun s =>
  do! '(r, s) := m s in
  Ret (match r with Ok a => Ok a | Err e => Err (ErrWrap message e) end, s).

Notation "'let+' x ':=' m 'in' k" := (scan_bind m (fun x => k))
  (at level 10, x name, m at level 100, k at level 200) : go_scope.
Notation "'let+' ' p ':=' m 'in' k" := (scan_bind m (fun p => k))
  (at level 10, p strict pattern, m at level 100, k at level 200) : go_scope.

Definition context_check : source_io (result unit) :=
  do! err := call ContextErr in
  Ret (match err with None => Ok tt | Some e => Err e end).

(** ** Names *)
Definition readSourceNames (directory : Z) : source_io (result (list string)) :=
  do* reader := openSourceDirectoryAt directory "." in
  closing reader
    (do! '(names, err) := call (Readdirnames reader) in
     Ret (match err with
          | Some e => if is_EOF e then Ok (sort_by sltb names) else Err e
          | None => Ok (sort_by sltb names)
          end)).

Fixpoint verify_names (directory : Z) (relative : string) (observed : gmap string sourceIdentity)
    (names : list string) : source_io (option error) :=
  match names with
  | [] => Ret None
  | name :: names =>
      match observed !! name with
      | None =>
          Ret (Some (ErrText ("source directory " +:+ Quote relative +:+ " gained entry " +:+ Quote name +:+ " during scan")))
      | Some identity =>
          do! current := statSourceAt directory name in
          match expect current (fun current => bool_decide (current = identity))
                  (ErrText ("source entry " +:+ Quote (joinRelative relative name) +:+ " changed during scan")) with
          | Err e => Ret (Some e)
          | Ok _ => verify_names directory relative observed names
          end
      end
  end.

Definition verifySourceNames (directory : Z) (relative : string) (observed : gmap string sourceIdentity)
  : source_io (option error) :=
  do! names := readSourceNames directory in
  match names with
  | Err e => Ret (Some e)
  | Ok names =>
      if negb (zlen names =? Z.of_nat (base.size observed)) then
        Ret (Some (ErrText ("source directory " +:+ Quote relative +:+ " changed entries during scan")))
      else verify_names directory relative observed names
  end.

(** ** Symbolic links *)
Definition maximumSourceSymlinkDepth : Z := 40.

Record resolvedSourceTarget : Type := MkTarget {
  target_kind : Z;
  target_identity : sourceIdentity;
  target_anchor : option Z;
  target_name : string;
  target_size : Z
}.

Record sourceSymlinkWalk : Type := MkLinkWalk {
  directory : option Z;
  components : list string;
  requireDirectory : bool;
  followedLinks : Z
}.

(** [strings.HasSuffix(path, "/")]. *)
Definition ends_with_slash (path : string) : bool :=
  match last (String.list_ascii_of_string path) with Some c => Ascii.eqb c slash | None => false end.

Definition readObservedSourceSymlink (parent : Z) (name : string) (observed : sourceIdentity)
  : source_io (result string) :=
  if negb (kind observed =? sourceSymlinkObject) then Ret (Err (ErrText "observed source object is not a symlink"))
  else
    do! before := statSourceAt parent name in
    do* _ := lift (expect before (fun before => bool_decide (before = observed))
                     (ErrText "source symlink changed before reading")) in
    do* target := readSourceSymlinkAt parent name in
    do! after := statSourceAt parent name in
    do* _ := lift (expect after (fun after => bool_decide (after = observed))
                     (ErrText "source symlink changed while reading")) in
    Ret (Ok target).

Definition symlinkStartingDirectory (parent : Z) (target : string) : source_io (result Z) :=
  if IsAbs target then openSourceDirectoryPath "/" else duplicateSourceDescriptor parent.

Definition newSourceSymlinkWalk (parent : Z) (linkTarget : string) : source_io (result sourceSymlinkWalk) :=
  do* directory := symlinkStartingDirectory parent linkTarget in
  Ret (Ok (MkLinkWalk (Some directory) (splitRelative linkTarget) (ends_with_slash linkTarget) 1)).

Definition openObservedSourceDirectory (parent : Z) (name : string) (observed : sourceIdentity)
  : source_io (result Z) :=
  do* directory := openSourceDirectoryAt parent name in
  do! opened := inspectDescriptor directory in
  match expect opened (fun opened => bool_decide (opened = observed))
          (ErrText "source directory changed while opening") with
  | Err e => failing directory e
  | Ok _ => Ret (Ok directory)
  end.

Definition set_directory (fd : option Z) (walk : sourceSymlinkWalk) : sourceSymlinkWalk :=
  MkLinkWalk fd (components walk) (requireDirectory walk) (followedLinks walk).
Definition set_components (cs : list string) (walk : sourceSymlinkWalk) : sourceSymlinkWalk :=
  MkLinkWalk (directory walk) cs (requireDirectory walk) (followedLinks walk).

Definition takeDirectoryTarget (walk : sourceSymlinkWalk) (identity : sourceIdentity)
  : resolvedSourceTarget * sourceSymlinkWalk :=
  (MkTarget sourceDirectoryObject identity (directory walk) "." 0, set_directory None walk).

Section Walk.
Variable walk : sourceSymlinkWalk.

(** A nil file: its descriptor is the invalid one, and closing it makes no call. *)
Definition walk_fd : Z := default (-1) (directory walk).
Definition close_walk : source_io (option error) :=
  match directory walk with
  | Some fd => call (CloseFile fd)
  | None => Ret (Some (ErrSentinel "invalid argument"))
  end.

Definition nextComponent : option (string * sourceSymlinkWalk) :=
  match components walk with
  | [] => None
  | component :: rest => Some (component, set_components rest walk)
  end.

Definition replaceDirectory (replacement : Z) : source_io (option error * sourceSymlinkWalk) :=
  do! err := close_walk in
  match err with
  | Some e =>
      do! closeErr := call (CloseFile replacement) in
      Ret (Some (ErrJoin e (option_list closeErr)), set_directory None walk)
  | None => Ret (None, set_directory (Some replacement) walk)
  end.

Definition enterDirectory (component : string) (identity : sourceIdentity)
  : source_io (option error * sourceSymlinkWalk) :=
  if negb (kind identity =? sourceDirectoryObject) then
    Ret (Some (ErrText ("source symlink component " +:+ Quote component +:+ " is not a directory")), walk)
  else
    do! opened := openObservedSourceDirectory walk_fd component identity in
    match opened with
    | Err e => Ret (Some e, walk)
    | Ok opened => replaceDirectory opened
    end.

(** The components of the link come before those that are left. *)
Definition splice (target : string) (links : Z) : sourceSymlinkWalk :=
  MkLinkWalk (directory walk) (splitRelative target ++ components walk)
    (requireDirectory walk || (bool_decide (components walk = []) && ends_with_slash target)) links.

Definition resolveCurrentDirectory : source_io (result resolvedSourceTarget * sourceSymlinkWalk) :=
  do! identity := inspectDescriptor walk_fd in
  match expect identity (fun identity => kind identity =? sourceDirectoryObject)
          (ErrText "source symlink target is not a directory") with
  | Err e => Ret (Err e, walk)
  | Ok identity => let '(target, walk) := takeDirectoryTarget walk identity in Ret (Ok target, walk)
  end.

(** What an opened regular file and its close say. *)
Definition check_opened (opened : result (sourceIdentity * Z)) (closeErr : option error) (identity : sourceIdentity)
  : result Z :=
  let changed := ErrText "source symlink target changed while opening" in
  match opened with
  | Err e => Err (ErrJoin changed (e :: option_list closeErr))
  | Ok (opened, size) =>
      if bool_decide (closeErr = None) && bool_decide (opened = identity) then Ok size
      else Err (ErrJoin changed (option_list closeErr))
  end.

Definition resolveRegularFile (component : string) (identity : sourceIdentity)
  : source_io (result resolvedSourceTarget * sourceSymlinkWalk) :=
  if requireDirectory walk then Ret (Err (ErrText "source symlink target is not a directory"), walk)
  else
    do! file := openSourceRegularAt walk_fd component in
    match file with
    | Err e => Ret (Err e, walk)
    | Ok file =>
        do! opened := inspectOpenedRegular file in
        do! closeErr := call (CloseFile file) in
        match check_opened opened closeErr identity with
        | Err e => Ret (Err e, walk)
        | Ok size =>
            Ret (Ok (MkTarget sourceRegularObject identity (directory walk) component size), set_directory None walk)
        end
    end.

Definition resolveFinalEntry (component : string) (identity : sourceIdentity)
  : source_io (result resolvedSourceTarget * sourceSymlinkWalk) :=
  if kind identity =? sourceDirectoryObject then
    do! opened := openObservedSourceDirectory walk_fd component identity in
    match opened with
    | Err e => Ret (Err e, walk)
    | Ok opened =>
        do! '(err, walk) := replaceDirectory opened in
        match err with
        | Some e => Ret (Err e, walk)
        | None => let '(target, walk) := takeDirectoryTarget walk identity in Ret (Ok target, walk)
        end
    end
  else if kind identity =? sourceRegularObject then resolveRegularFile component identity
  else if requireDirectory walk then Ret (Err (ErrText "source symlink target is not a directory"), walk)
  else Ret (Ok (MkTarget sourceSpecialObject identity None "" 0), walk).
End Walk.

Definition followNestedSymlink (walk : sourceSymlinkWalk) (component : string) (identity : sourceIdentity)
  : source_io (option error * sourceSymlinkWalk) :=
  if maximumSourceSymlinkDepth <=? followedLinks walk then
    Ret (Some (ErrText "source symlink target forms a link cycle"), walk)
  else
    let links := followedLinks walk + 1 in
    do! target := readObservedSourceSymlink (walk_fd walk) component identity in
    match target with
    | Err e => Ret (Some e, walk)
    | Ok target =>
        if IsAbs target then
          do! top := openSourceDirectoryPath "/" in
          match top with
          | Err e => Ret (Some e, walk)
          | Ok top =>
              do! '(err, walk) := replaceDirectory walk top in
              match err with
              | Some e => Ret (Some e, walk)
              | None => Ret (None, splice walk target links)
              end
          end
        else Ret (None, splice walk target links)
    end.

(** Go on with the walk, or return the error. *)
Definition continue_walk (r : option error * sourceSymlinkWalk)
  : sourceSymlinkWalk + result resolvedSourceTarget * sourceSymlinkWalk :=
  match r with
  | (None, walk) => inl walk
  | (Some e, walk) => inr (Err e, walk)
  end.

(** One turn of the loop of [resolve]. *)
Definition resolve_step (walk : sourceSymlinkWalk)
  : source_io (sourceSymlinkWalk + result resolvedSourceTarget * sourceSymlinkWalk) :=
  match nextComponent walk with
  | None => do! r := resolveCurrentDirectory walk in Ret (inr r)
  | Some (component, walk) =>
      if bool_decide (component = "") || bool_decide (component = ".") then Ret (inl walk)
      else
        do! identity := statSourceAt (walk_fd walk) component in
        match identity with
        | Err e => Ret (inr (Err e, walk))
        | Ok identity =>
            if kind identity =? sourceSymlinkObject then
              do! r := followNestedSymlink walk component identity in Ret (continue_walk r)
            else if negb (bool_decide (components walk = [])) || bool_decide (component = "..") then
              do! r := enterDirectory walk component identity in Ret (continue_walk r)
            else
              do! r := resolveFinalEntry walk component identity in Ret (inr r)
        end
  end.

Definition resolve (walk : sourceSymlinkWalk) : source_io (result resolvedSourceTarget * sourceSymlinkWalk) :=
  ITree.iter resolve_step walk.

Definition resolveSourceSymlink (parent : Z) (name : string) (observed : sourceIdentity)
  : source_io (result resolvedSourceTarget) :=
  do* linkTarget := readObservedSourceSymlink parent name observed in
  do* walk := newSourceSymlinkWalk parent linkTarget in
  do! '(target, walk) := resolve walk in
  match directory walk with
  | None => Ret target
  | Some fd =>
      do! closeErr := call (CloseFile fd) in
      Ret (match target, closeErr with
           | Ok target, None => Ok target
           | Ok _, Some e => Err (ErrJoin e [])
           | Err e, _ => Err (ErrJoin e (option_list closeErr))
           end)
  end.

(** ** The scanner *)
(** The counters of the summary, 64 bits wide. *)
Definition count_followed (s : Summary) : Summary :=
  MkSummary (wrap 64 (followedSymlinks s + 1)) (ignoredSymlinks s) (emptyDirectories s) (ignoredSpecialFiles s).
Definition count_ignored (s : Summary) : Summary :=
  MkSummary (followedSymlinks s) (wrap 64 (ignoredSymlinks s + 1)) (emptyDirectories s) (ignoredSpecialFiles s).
Definition count_empty (s : Summary) : Summary :=
  MkSummary (followedSymlinks s) (ignoredSymlinks s) (wrap 64 (emptyDirectories s + 1)) (ignoredSpecialFiles s).
Definition count_special (s : Summary) : Summary :=
  MkSummary (followedSymlinks s) (ignoredSymlinks s) (emptyDirectories s) (wrap 64 (ignoredSpecialFiles s + 1)).

Definition scan_count (f : Summary -> Summary) : scan (option SourceEntry) :=
  let+ _ := scan_put (set_summary f) in scan_return (Ok None).

(** [scanner.owner.addBackingDirectory]; a target that is not retained is closed. *)
Definition scan_retain (logicalPath : string) (anchor : option Z) : scan Z := fun s =>
  let '(index, r) := addBackingDirectory anchor (owner s) in
  match index with
  | Ok index => Ret (Ok index, set_owner r s)
  | Err e =>
      do! _ := match anchor with Some fd => call (CloseFile fd) | None => Ret None end in
      Ret (Err (ErrWrap ("retain source symlink target " +:+ Quote logicalPath) e), set_owner r s)
  end.

Definition captureRegularFile (parent : Z) (name logicalPath : string) (identity : sourceIdentity)
    (parentBacking : BackingReference) : scan (option SourceEntry) :=
  let+ file := scan_wrapping ("open source file " +:+ Quote logicalPath) (scan_io (openSourceRegularAt parent name)) in
  scan_closing file
    (let+ opened := scan_io (do! opened := inspectOpenedRegular file in
                             lift (expect opened (fun opened => bool_decide (opened.1 = identity))
                               (ErrText ("source file " +:+ Quote logicalPath +:+ " changed while opening")))) in
     let+ captured := scan_return (newSourceFile logicalPath opened.2
                        [MkBacking (anchor parentBacking) (joinBacking (backingPath parentBacking) name)]) in
     scan_return (Ok (Some (fileEntry captured)))).

Definition captureSymlinkFile (logicalPath : string) (target : resolvedSourceTarget) : scan (option SourceEntry) :=
  let+ index := scan_retain logicalPath (target_anchor target) in
  let+ captured := scan_return (newSourceFile logicalPath (target_size target) [MkBacking index (target_name target)]) in
  scan_return (Ok (Some (fileEntry captured))).

Section Scanner.
Variable followSymlinks : bool.
Variable scanDirectory : Z -> string -> BackingReference -> scan SourceDirectory.

Definition captureDirectory (parent : Z) (name logicalPath : string) (identity : sourceIdentity)
    (parentBacking : BackingReference) : scan (option SourceEntry) :=
  let+ directory := scan_wrapping ("open source directory " +:+ Quote logicalPath)
                      (scan_io (openSourceDirectoryAt parent name)) in
  scan_closing directory
    (let+ opened := scan_io (do! opened := inspectDescriptor directory in
                             lift (expect opened (fun opened => bool_decide (opened = identity))
                               (ErrText ("source directory " +:+ Quote logicalPath +:+ " changed while opening")))) in
     let+ cyclic := scan_read (fun s => bool_decide (opened ∈ ancestors s)) in
     if cyclic : bool then
       scan_return (Err (ErrText ("source directory " +:+ Quote logicalPath +:+ " forms a recursive cycle")))
     else
       let+ _ := scan_put (set_ancestors (fun a => {[opened]} ∪ a)) in
       scan_leaving opened
         (let+ captured := scanDirectory directory logicalPath
                             (MkBacking (anchor parentBacking) (joinBacking (backingPath parentBacking) name)) in
          scan_return (Ok (Some (directoryEntry captured))))).

Definition captureSymlinkDirectory (logicalPath : string) (target : resolvedSourceTarget) : scan (option SourceEntry) :=
  let identity := target_identity target in
  let+ cyclic := scan_read (fun s => bool_decide (identity ∈ ancestors s)) in
  if cyclic : bool then fun s =>
    do! _ := match target_anchor target with Some fd => call (CloseFile fd) | None => Ret None end in
    Ret (Err (ErrText ("source symlink " +:+ Quote logicalPath +:+ " forms a recursive directory cycle")), s)
  else
    let+ index := scan_retain logicalPath (target_anchor target) in
    let+ _ := scan_put (set_ancestors (fun a => {[identity]} ∪ a)) in
    scan_leaving identity
      (let+ captured := scanDirectory (default (-1) (target_anchor target)) logicalPath (MkBacking index ".") in
       scan_return (Ok (Some (directoryEntry captured)))).

Definition followSymlink (parent : Z) (name logicalPath : string) (observed : sourceIdentity)
  : scan (option SourceEntry) :=
  let+ target := scan_wrapping ("resolve source symlink " +:+ Quote logicalPath)
                   (scan_io (resolveSourceSymlink parent name observed)) in
  let+ _ := scan_put (set_summary count_followed) in
  if target_kind target =? sourceDirectoryObject then captureSymlinkDirectory logicalPath target
  else if target_kind target =? sourceRegularObject then captureSymlinkFile logicalPath target
  else scan_count count_special.

(** The entry where it is included. *)
Definition captureEntry (parent : Z) (parentLogical name : string) (identity : sourceIdentity)
    (parentBacking : BackingReference) : scan (option SourceEntry) :=
  let logicalPath := joinRelative parentLogical name in
  if kind identity =? sourceSymlinkObject then
    if negb followSymlinks then scan_count count_ignored
    else followSymlink parent name logicalPath identity
  else if kind identity =? sourceDirectoryObject then captureDirectory parent name logicalPath identity parentBacking
  else if kind identity =? sourceRegularObject then captureRegularFile parent name logicalPath identity parentBacking
  else scan_count count_special.

Fixpoint scan_names (directory : Z) (logicalPath : string) (backing : BackingReference) (names : list string)
    (observed : gmap string sourceIdentity) (children : list SourceEntry)
  : scan (gmap string sourceIdentity * list SourceEntry) :=
  match names with
  | [] => scan_return (Ok (observed, children))
  | name :: names =>
      let+ _ := scan_io context_check in
      let+ identity := scan_wrapping ("inspect source entry " +:+ Quote (joinRelative logicalPath name))
                         (scan_io (statSourceAt directory name)) in
      let+ entry := captureEntry directory logicalPath name identity backing in
      scan_names directory logicalPath backing names (<[name := identity]> observed)
        (children ++ option_list entry)
  end.

Definition scan_directory (directory : Z) (logicalPath : string) (backing : BackingReference) : scan SourceDirectory :=
  let+ _ := scan_io context_check in
  let+ before := scan_io (do! before := inspectDescriptor directory in
                          lift (expect before (fun before => kind before =? sourceDirectoryObject)
                            (ErrText ("source directory " +:+ Quote logicalPath +:+ " is not stable")))) in
  let+ names := scan_wrapping ("read source directory " +:+ Quote logicalPath) (scan_io (readSourceNames directory)) in
  let+ '(observed, children) := scan_names directory logicalPath backing names ∅ [] in
  let+ _ := scan_io (do! after := inspectDescriptor directory in
                     lift (expect after (fun after => bool_decide (after = before))
                       (ErrText ("source directory " +:+ Quote logicalPath +:+ " changed identity during scan")))) in
  let+ _ := scan_io (check* verifySourceNames directory logicalPath observed in Ret (Ok tt)) in
  let+ captured := scan_return (newSourceDirectory logicalPath backing children) in
  if negb (bool_decide (logicalPath = "")) && DirEmpty captured then
    let+ _ := scan_put (set_summary count_empty) in scan_return (Ok captured)
  else scan_return (Ok captured).
End Scanner.

(** The directories below are scanned with less fuel. *)
Fixpoint scanDirectory (fuel : nat) (followSymlinks : bool) (directory : Z) (logicalPath : string)
    (backing : BackingReference) : scan SourceDirectory :=
  match fuel with
  | O => fun _ => ITree.spin
  | S fuel => scan_directory followSymlinks (scanDirectory fuel followSymlinks) directory logicalPath backing
  end.

(** The error of a deferred step joins the one that is returned. *)
Definition joined (first second : option error) : option error := errors_Join [first; second].

(** What is returned of a scanned tree: its snapshot, and an error where the
    tree has nothing to transfer. *)
Definition scan_outcome (name : string) (id : sourceIdentity) (capability : Z)
    (scanned : result SourceDirectory) (summary : Summary) : SourceSnapshot * option error :=
  match scanned with
  | Err e => (None, Some e)
  | Ok rootDirectory =>
      match newSourceSnapshot name id (Some capability) (MkTree rootDirectory) summary with
      | Err e => (None, Some e)
      | Ok snapshot =>
          (snapshot, if FileCount snapshot + EmptyDirectoryCount snapshot =? 0 then Some ErrNoTransferItems else None)
      end
  end.

Definition Scan (fuel : nat) (ctx : bool) (followSymlinks : bool) (r : option SourceRoot)
  : source_io (SourceSnapshot * option error * option SourceRoot) :=
  if negb ctx then Ret (None, Some (ErrText "source scan requires context"), r)
  else
    do! err := call ContextErr in
    match err with
    | Some e => Ret (None, Some e, r)
    | None =>
        match r with
        | None => Ret (None, Some (ErrWrap "begin source scan" root_absent), None)
        | Some r =>
            do! '(begun, r) := beginScan r in
            match begun with
            | Err e => Ret (None, Some (ErrWrap "begin source scan" e), Some r)
            | Ok (rootFile, id, capability) =>
                do! '(scanned, scanner) := scanDirectory fuel followSymlinks rootFile "" (MkBacking 0 ".")
                                             (MkScanner r (MkSummary 0 0 0 0) {[id]}) in
                let '(snapshot, err) :=
                  scan_outcome (BaseName (Some r)) id capability scanned (scan_summary scanner) in
                do! '(closeErr, r) := finishScan rootFile (owner scanner) in
                Ret (snapshot, joined err closeErr, Some r)
            end
        end
    end.
