(* ===== verification/SourceDescriptors.v ===== *)
(** * The descriptors of a source

    Whatever the kernel answers, and wherever a call fails: a scan only uses
    descriptors that are open, closes each once, and leaves open what it found open
    and the anchors it gave its owner. *)
From ITree Require Import ITree.
From S2P Require Import Prelude Sorting GoText Paths SourceTree Allocation Effects SourceRoot SourceScan.

(** ** The kernel's descriptor table *)
(** A call names a descriptor that is open, an answer gives a new one, and a
    close ends it even where it reports an error. *)
Definition uses {X} (e : SourceE X) : option Z :=
  match e with
  | Openat fd _ _ | Dupfd fd | Fstatat fd _ | Fstat fd | Readlinkat fd _ _ | Readdirnames fd | FileStat fd
  | CloseFile fd => Some fd
  | _ => None
  end.

Definition gives {X} (e : SourceE X) : X -> option Z :=
  match e with
  | Open _ _ | Openat _ _ _ | Dupfd _ => fun r => match r with Ok fd => Some fd | Err _ => None end
  | _ => fun _ => None
  end.

Definition ends {X} (e : SourceE X) : option Z :=
  match e with CloseFile fd => Some fd | _ => None end.

Definition descriptor_world : World SourceE (gset Z) := {|
  may_call X e s := forall fd, uses e = Some fd -> fd ∈ s;
  may_answer X e x s := forall fd, gives e x = Some fd -> fd ∉ s /\ 0 <= fd;
  after_call X e x s :=
    (match gives e x with Some fd => {[fd]} | None => ∅ end ∪ s) ∖ (match ends e with Some fd => {[fd]} | None => ∅ end);
  holds s := True
|}.
#[export] Existing Instance descriptor_world.

(** What a call leaves: nothing new, or one descriptor where it succeeds. *)
Definition same {A} (s : gset Z) (_ : A) (s' : gset Z) : Prop := s' = s.
Definition opens (s : gset Z) (r : result Z) (s' : gset Z) : Prop :=
  match r with Ok fd => fd ∉ s /\ s' = {[fd]} ∪ s | Err _ => s' = s end.

Lemma triple_read {X} s (e : SourceE X) :
  (forall fd, uses e = Some fd -> fd ∈ s) -> (forall x, gives e x = None) -> ends e = None ->
  triple s (call e) (same s).
Proof.
  intros Hu Hg He. apply triple_call; [exact Hu|]. intros x _. split; [done|]. unfold same. cbn. rewrite Hg, He. set_solver.
Qed.

Lemma triple_open s (e : SourceE (result Z)) :
  (forall fd, uses e = Some fd -> fd ∈ s) ->
  (forall r, gives e r = match r with Ok fd => Some fd | Err _ => None end) -> ends e = None ->
  triple s (do* fd := call e in wrapSourceDescriptor fd) (opens s).
Proof.
  intros Hu Hg He. eapply triple_bind_ok with (R := fun r s' => opens s r s' /\ forall fd, r = Ok fd -> 0 <= fd).
  - apply triple_call; [exact Hu|]. intros r Hr. split; [done|]. cbn in Hr |- *. rewrite Hg in *. rewrite He.
    destruct r as [fd|e']; [|split; [set_solver|done]]. destruct (Hr fd eq_refl). split; [split; [done|set_solver]|].
    by intros ? [= <-].
  - intros fd s' [Ho Hfd]. unfold wrapSourceDescriptor. rewrite (proj2 (Z.ltb_ge _ _)) by (by apply Hfd). by apply triple_ret.
  - intros e' s' [Ho _]. done.
Qed.

Lemma triple_close s fd (Q : option error -> gset Z -> Prop) :
  fd ∈ s -> (forall x, Q x (s ∖ {[fd]})) -> triple s (call (CloseFile fd)) Q.
Proof.
  intros Hfd HQ. apply triple_call; [by intros ? [= <-]|]. intros x _. split; [done|]. cbn.
  assert ((∅ ∪ s) ∖ {[fd]} = s ∖ {[fd]}) as -> by set_solver. apply HQ.
Qed.

Lemma triple_closing {A} s fd (t : source_io A) (Q : A -> gset Z -> Prop) :
  triple s t (fun a s' => fd ∈ s' /\ Q a (s' ∖ {[fd]})) -> triple s (closing fd t) Q.
Proof.
  intros H. apply (triple_bind _ _ _ _ _ H). intros a s' [Hfd HQ].
  apply triple_bind with (R := fun _ s' => Q a s'); [by apply triple_close|]. intros _ s'' HQ'. by apply triple_ret.
Qed.

Lemma triple_failing {A} s fd e (Q : result A -> gset Z -> Prop) :
  fd ∈ s -> Q (Err e) (s ∖ {[fd]}) -> triple s (failing fd e) Q.
Proof.
  intros Hfd HQ. apply triple_bind with (R := fun _ s' => Q (Err e) s'); [by apply triple_close|].
  intros _ s' HQ'. by apply triple_ret.
Qed.

Lemma exec_spin {E A} (t : itree E A) tr o : exec t tr o -> observe t = TauF ITree.spin -> tr = [] /\ o = None.
Proof. induction 1 as [|? ? E0|? ? ? ? E0 ? IH|? ? ? ? E0|? ? ? ? ? ? ? E0]; intros O; rewrite ?O in *; simplify_eq; auto. Qed.

Lemma triple_spin {A} s (Q : A -> gset Z -> Prop) : triple s ITree.spin Q.
Proof. intros tr o [-> ->]%exec_spin; [done|reflexivity]. Qed.

(** Reading steps in sequence. *)
Lemma same_bind {A B} s (t : source_io A) (k : A -> source_io B) Q :
  triple s t (same s) -> (forall a, triple s (k a) Q) -> triple s (ITree.bind t k) Q.
Proof. intros H Hk. apply (triple_bind _ _ _ _ _ H). intros a s' ->. apply Hk. Qed.

Lemma same_bind_ok {A B} s (t : source_io (result A)) (k : A -> source_io (result B)) Q :
  triple s t (same s) -> (forall a, triple s (k a) Q) -> (forall e, Q (Err e) s) -> triple s (bind_ok t k) Q.
Proof. intros H Hk He. apply same_bind; [done|]. intros [a|e]; [apply Hk|by apply triple_ret]. Qed.

Lemma opens_bind_ok {B} s (t : source_io (result Z)) (k : Z -> source_io (result B)) Q :
  triple s t (opens s) -> (forall fd, fd ∉ s -> triple ({[fd]} ∪ s) (k fd) Q) -> (forall e, Q (Err e) s) ->
  triple s (bind_ok t k) Q.
Proof.
  intros H Hk He. apply (triple_bind _ _ _ _ _ H). intros [fd|e] s'; [intros [Hfd ->]; by apply Hk|].
  intros ->. by apply triple_ret.
Qed.

Lemma opens_bind {B} s (t : source_io (result Z)) (k : result Z -> source_io B) Q :
  triple s t (opens s) -> (forall fd, fd ∉ s -> triple ({[fd]} ∪ s) (k (Ok fd)) Q) -> (forall e, triple s (k (Err e)) Q) ->
  triple s (ITree.bind t k) Q.
Proof.
  intros H Hk He. apply (triple_bind _ _ _ _ _ H). intros [fd|e] s'; [intros [Hfd ->]; by apply Hk|].
  intros ->. apply He.
Qed.

Lemma same_ret {A} s (a : A) : triple s (Ret a) (same s).
Proof. by apply triple_ret. Qed.
Lemma same_lift {A} s (r : result A) : triple s (lift r) (same s).
Proof. by apply triple_ret. Qed.

Lemma after_closing (fd : Z) (s : gset Z) : fd ∉ s -> ({[fd]} ∪ s) ∖ {[fd]} = s.
Proof. set_solver. Qed.

Create HintDb descriptors.
#[export] Hint Resolve same_ret same_lift : descriptors.

(** ** filesystem_unix.go *)
Section Calls.
Context (s : gset Z).

Lemma openSourceDirectoryPath_ok path : triple s (openSourceDirectoryPath path) (opens s).
Proof. by apply triple_open. Qed.

Lemma openSourceDirectoryAt_ok fd name : fd ∈ s -> triple s (openSourceDirectoryAt fd name) (opens s).
Proof. intros H. apply triple_open; [by intros ? [= <-]|done..]. Qed.

Lemma openSourceRegularAt_ok fd name : fd ∈ s -> triple s (openSourceRegularAt fd name) (opens s).
Proof. intros H. apply triple_open; [by intros ? [= <-]|done..]. Qed.

Lemma duplicateSourceDescriptor_ok fd : fd ∈ s -> triple s (duplicateSourceDescriptor fd) (opens s).
Proof. intros H. apply triple_open; [by intros ? [= <-]|done..]. Qed.

Lemma lstatSource_ok path : triple s (lstatSource path) (same s).
Proof. apply same_bind_ok; [by apply triple_read|intros; apply same_ret|done]. Qed.

Lemma statSourceAt_ok fd name : fd ∈ s -> triple s (statSourceAt fd name) (same s).
Proof. intros H. apply same_bind_ok; [apply triple_read; [by intros ? [= <-]|done..]|intros; apply same_ret|done]. Qed.

Lemma inspectDescriptor_ok fd : fd ∈ s -> triple s (inspectDescriptor fd) (same s).
Proof. intros H. apply same_bind_ok; [apply triple_read; [by intros ? [= <-]|done..]|intros; apply same_ret|done]. Qed.

Lemma inspectOpenedRegular_ok fd : fd ∈ s -> triple s (inspectOpenedRegular fd) (same s).
Proof.
  intros H. apply same_bind_ok; [apply triple_read; [by intros ? [= <-]|done..]| |done].
  intros st. cbv zeta. case_match; apply same_ret.
Qed.

Lemma metadataFromDescriptor_ok fd expected : fd ∈ s -> triple s (metadataFromDescriptor fd expected) (same s).
Proof.
  intros H. apply same_bind_ok; [apply triple_read; [by intros ? [= <-]|done..]| |done].
  intros st. case_match; [apply same_ret|].
  apply same_bind_ok; [apply triple_read; [by intros ? [= <-]|done..]|intros; apply same_ret|done].
Qed.

Lemma readSourceSymlinkAt_ok fd name : fd ∈ s -> triple s (readSourceSymlinkAt fd name) (same s).
Proof.
  intros H. apply (triple_iter (fun _ s' => s' = s)); [|done]. intros size ? ->. unfold read_symlink_step.
  case_match; [|by apply triple_ret]. apply same_bind; [apply triple_read; [by intros ? [= <-]|done..]|].
  intros [target|e]; [case_match|]; by apply triple_ret.
Qed.

Lemma context_check_ok : triple s context_check (same s).
Proof. apply same_bind; [by apply triple_read|intros; apply same_ret]. Qed.
End Calls.
#[export] Hint Resolve openSourceDirectoryPath_ok openSourceDirectoryAt_ok openSourceRegularAt_ok duplicateSourceDescriptor_ok
  lstatSource_ok statSourceAt_ok inspectDescriptor_ok inspectOpenedRegular_ok metadataFromDescriptor_ok
  readSourceSymlinkAt_ok context_check_ok : descriptors.
#[export] Hint Extern 8 (_ ∈ _) => set_solver : descriptors.

(** ** Names and links *)
Section Names.
Context (s : gset Z) (fd : Z) (Hfd : fd ∈ s).

Lemma readSourceNames_ok : triple s (readSourceNames fd) (same s).
Proof using Hfd.
  apply opens_bind_ok; [auto with descriptors| |done]. intros reader Hr. apply triple_closing.
  apply same_bind; [apply triple_read; [by intros ? [= <-]; set_solver|done..]|]. intros [names err].
  apply triple_ret. split; [set_solver|by apply after_closing].
Qed.

Lemma verify_names_ok relative observed names : triple s (verify_names fd relative observed names) (same s).
Proof using Hfd.
  induction names as [|name names IH]; cbn [verify_names]; [apply same_ret|].
  destruct (observed !! name); [|apply same_ret]. apply same_bind; [auto with descriptors|]. intros current.
  destruct (expect _ _ _); [done|apply same_ret].
Qed.

Lemma verifySourceNames_ok relative observed : triple s (verifySourceNames fd relative observed) (same s).
Proof using Hfd.
  apply same_bind; [apply readSourceNames_ok|]. intros [names|e]; [|apply same_ret].
  case_match; [apply same_ret|apply verify_names_ok].
Qed.

Lemma readObservedSourceSymlink_ok name observed : triple s (readObservedSourceSymlink fd name observed) (same s).
Proof using Hfd.
  unfold readObservedSourceSymlink. case_match; [apply same_ret|].
  apply same_bind; [auto with descriptors|]. intros before.
  apply same_bind_ok; [apply same_lift| |done]. intros _.
  apply same_bind_ok; [auto with descriptors| |done]. intros target.
  apply same_bind; [auto with descriptors|]. intros after.
  apply same_bind_ok; [apply same_lift| |done]. intros _. apply same_ret.
Qed.

Lemma symlinkStartingDirectory_ok target : triple s (symlinkStartingDirectory fd target) (opens s).
Proof using Hfd. unfold symlinkStartingDirectory. case_match; auto with descriptors. Qed.

Lemma openObservedSourceDirectory_ok name observed : triple s (openObservedSourceDirectory fd name observed) (opens s).
Proof using Hfd.
  apply opens_bind_ok; [auto with descriptors| |done]. intros d Hd.
  apply same_bind; [auto with descriptors|]. intros opened. destruct (expect _ _ _).
  - by apply triple_ret.
  - apply triple_failing; [set_solver|]. by apply after_closing.
Qed.
End Names.
#[export] Hint Resolve readSourceNames_ok verifySourceNames_ok readObservedSourceSymlink_ok symlinkStartingDirectory_ok
  openObservedSourceDirectory_ok : descriptors.

(** ** The walk of a link *)
(** Beside the descriptors [s], the walk's own is open. *)
Definition walk_holds (s : gset Z) (walk : sourceSymlinkWalk) (s' : gset Z) : Prop :=
  match directory walk with Some d => d ∉ s /\ s' = {[d]} ∪ s | None => s' = s end.

(** Only what is entered or read has an anchor. *)
Definition target_opened (target : resolvedSourceTarget) : Prop :=
  target_kind target = sourceDirectoryObject \/ target_kind target = sourceRegularObject.

(** Its result: the target's anchor was the walk's descriptor. *)
Definition walk_ends (s : gset Z) (r : result resolvedSourceTarget) (walk : sourceSymlinkWalk) (s' : gset Z) : Prop :=
  match r with
  | Ok target =>
      match target_anchor target with
      | Some a => directory walk = None /\ target_opened target /\ a ∉ s /\ s' = {[a]} ∪ s
      | None => target_kind target = sourceSpecialObject /\ walk_holds s walk s'
      end
  | Err _ => walk_holds s walk s'
  end.

Definition walk_turned (s : gset Z) (r : option error * sourceSymlinkWalk) (s' : gset Z) : Prop :=
  walk_holds s r.2 s' /\ (r.1 = None -> is_Some (directory r.2)).

Section Walking.
Context (s : gset Z) (walk : sourceSymlinkWalk) (d : Z) (Hd : d ∉ s) (Hwalk : directory walk = Some d).

Lemma walk_fd_open : walk_fd walk ∈ {[d]} ∪ s.
Proof using Hwalk. clear Hd. unfold walk_fd. rewrite Hwalk. set_solver. Qed.

Lemma walk_still : walk_holds s walk ({[d]} ∪ s).
Proof using Hd Hwalk. unfold walk_holds. by rewrite Hwalk. Qed.

Lemma replaceDirectory_ok replacement :
  replacement ∉ {[d]} ∪ s -> triple ({[replacement]} ∪ ({[d]} ∪ s)) (replaceDirectory walk replacement) (walk_turned s).
Proof using Hd Hwalk.
  intros Hr. unfold replaceDirectory, close_walk. rewrite Hwalk.
  apply triple_bind with (R := fun _ s' => s' = {[replacement]} ∪ s).
  - apply triple_close; [set_solver|]. intros _. set_solver.
  - intros [e|] ? ->.
    + apply triple_bind with (R := fun _ s' => s' = s); [apply triple_close; [set_solver|]; intros; set_solver|].
      intros closeErr ? ->. by apply triple_ret.
    + apply triple_ret. split; [|intros _; by eexists]. split; [set_solver|done].
Qed.

Lemma enterDirectory_ok component identity : triple ({[d]} ∪ s) (enterDirectory walk component identity) (walk_turned s).
Proof using Hd Hwalk.
  unfold enterDirectory. case_match; [by apply triple_ret; split; [apply walk_still|]|].
  apply opens_bind; [apply openObservedSourceDirectory_ok, walk_fd_open|apply replaceDirectory_ok|].
  intros e. apply triple_ret. by split; [apply walk_still|].
Qed.

Lemma resolveCurrentDirectory_ok :
  triple ({[d]} ∪ s) (resolveCurrentDirectory walk) (fun r s' => walk_ends s r.1 r.2 s').
Proof using Hd Hwalk.
  apply same_bind; [apply inspectDescriptor_ok, walk_fd_open|]. intros identity. destruct (expect _ _ _).
  - apply triple_ret. unfold walk_ends, target_opened. cbn. rewrite Hwalk. auto.
  - apply triple_ret, walk_still.
Qed.

Lemma resolveRegularFile_ok component identity :
  triple ({[d]} ∪ s) (resolveRegularFile walk component identity) (fun r s' => walk_ends s r.1 r.2 s').
Proof using Hd Hwalk.
  unfold resolveRegularFile. case_match; [apply triple_ret, walk_still|].
  apply opens_bind; [apply openSourceRegularAt_ok, walk_fd_open| |intros e; apply triple_ret, walk_still].
  intros file Hfile. apply same_bind; [auto with descriptors|]. intros opened.
  apply triple_bind with (R := fun _ s' => s' = {[d]} ∪ s); [apply triple_close; [set_solver|]; intros; set_solver|].
  intros closeErr ? ->. destruct (check_opened _ _ _); apply triple_ret; [|apply walk_still].
  unfold walk_ends, target_opened. cbn. rewrite Hwalk. auto.
Qed.

Lemma resolveFinalEntry_ok component identity :
  triple ({[d]} ∪ s) (resolveFinalEntry walk component identity) (fun r s' => walk_ends s r.1 r.2 s').
Proof using Hd Hwalk.
  unfold resolveFinalEntry. case_match.
  - apply opens_bind; [apply openObservedSourceDirectory_ok, walk_fd_open| |intros e; apply triple_ret, walk_still].
    intros opened Ho. apply (triple_bind _ _ _ _ _ (replaceDirectory_ok _ Ho)).
    intros [[e|] walk'] s' [Hh Hs]; [by apply triple_ret|]. apply triple_ret. cbn in *. destruct (Hs eq_refl) as [d' E].
    unfold walk_holds in Hh. unfold walk_ends, target_opened. cbn. rewrite E in *. naive_solver.
  - case_match; [apply resolveRegularFile_ok|]. case_match; apply triple_ret; [apply walk_still|].
    split; [done|apply walk_still].
Qed.
End Walking.

Lemma walk_turned_splice s walk target links s' :
  walk_holds s walk s' -> is_Some (directory walk) -> walk_turned s (None, splice walk target links) s'.
Proof. intros H1 H2. by split. Qed.

Lemma followNestedSymlink_ok s walk d component identity :
  d ∉ s -> directory walk = Some d ->
  triple ({[d]} ∪ s) (followNestedSymlink walk component identity) (walk_turned s).
Proof.
  intros Hd Hw. pose proof (walk_still s walk d Hd Hw) as Hstill. unfold followNestedSymlink.
  case_match; [by apply triple_ret|].
  apply same_bind; [apply readObservedSourceSymlink_ok, (walk_fd_open s walk d Hw)|].
  intros [target|e]; [|by apply triple_ret]. case_match.
  - apply opens_bind; [apply openSourceDirectoryPath_ok| |intros; by apply triple_ret]. intros top Ht.
    apply (triple_bind _ _ _ _ _ (replaceDirectory_ok s walk d Hd Hw top Ht)).
    intros [[e|] walk'] s' [Hh Hs]; [by apply triple_ret|]. apply triple_ret. apply walk_turned_splice; auto.
  - apply triple_ret. apply walk_turned_splice; [done|by eexists].
Qed.

Lemma continue_ok s (t : source_io (option error * sourceSymlinkWalk)) s0 :
  triple s0 t (walk_turned s) ->
  triple s0 (do! r := t in Ret (continue_walk r))
    (fun r s' => match r with inl walk => walk_holds s walk s' /\ is_Some (directory walk) | inr r => walk_ends s r.1 r.2 s' end).
Proof.
  intros H. apply (triple_bind _ _ _ _ _ H). intros [[e|] walk] s' [Hh Hs]; apply triple_ret; [done|].
  split; [done|by apply Hs].
Qed.

Lemma resolve_ok s walk d :
  d ∉ s -> directory walk = Some d -> triple ({[d]} ∪ s) (resolve walk) (fun r s' => walk_ends s r.1 r.2 s').
Proof.
  intros Hd Hw. apply (triple_iter (fun walk s' => walk_holds s walk s' /\ is_Some (directory walk))).
  2:{ split; [by apply walk_still|by eexists]. }
  clear. intros walk s' [Hh [d Hw]]. unfold walk_holds in Hh. rewrite Hw in Hh. destruct Hh as [Hd ->]. unfold resolve_step, nextComponent.
  destruct (components walk) as [|component rest] eqn:Ec.
  - apply (triple_bind _ _ _ _ _ (resolveCurrentDirectory_ok s walk d Hd Hw)). intros r s' Hr. by apply triple_ret.
  - set (walk' := set_components rest walk). assert (Hw' : directory walk' = Some d) by done.
    case_match; [apply triple_ret; split; [by apply walk_still|by eexists]|].
    apply same_bind; [apply statSourceAt_ok, (walk_fd_open s walk' d Hw')|].
    intros [identity|e]; [|apply triple_ret; by apply (walk_still s walk' d)].
    case_match; [by apply continue_ok, followNestedSymlink_ok|].
    case_match; [by apply continue_ok, enterDirectory_ok|].
    apply (triple_bind _ _ _ _ _ (resolveFinalEntry_ok s walk' d Hd Hw' component identity)). intros r s' Hr. by apply triple_ret.
Qed.

(** A target keeps its anchor open and nothing else; only a special file has none. *)
Definition target_holds (s : gset Z) (r : result resolvedSourceTarget) (s' : gset Z) : Prop :=
  match r with
  | Ok target =>
      match target_anchor target with
      | Some a => target_opened target /\ a ∉ s /\ s' = {[a]} ∪ s
      | None => target_kind target = sourceSpecialObject /\ s' = s
      end
  | Err _ => s' = s
  end.

Lemma resolveSourceSymlink_ok s parent name observed :
  parent ∈ s -> triple s (resolveSourceSymlink parent name observed) (target_holds s).
Proof.
  intros Hp. apply same_bind_ok; [auto with descriptors| |done]. intros linkTarget.
  unfold newSourceSymlinkWalk.
  apply triple_bind_ok with (R := fun r s' => match r with Ok w => walk_holds s w s' /\ is_Some (directory w) | Err _ => s' = s end);
    [|intros walk s' [Hh [d Hw]]|by intros e ? ->].
  - apply opens_bind_ok; [auto with descriptors| |done]. intros d Hd. apply triple_ret. split; [done|by eexists].
  - unfold walk_holds in Hh. rewrite Hw in Hh. destruct Hh as [Hd ->].
    apply (triple_bind _ _ _ _ _ (resolve_ok s walk d Hd Hw)). intros [target walk'] s' Hr. cbn in Hr.
    destruct (directory walk') as [fd|] eqn:Ew.
    + assert (walk_holds s walk' s' /\ (forall t, target = Ok t -> target_kind t = sourceSpecialObject /\ target_anchor t = None)) as [Hh Ht].
      { destruct target as [t|e]; cbn in Hr; [|done]. destruct (target_anchor t) eqn:Ea; [by destruct Hr as [? _]; congruence|].
        destruct Hr. split; [done|]. by intros ? [= <-]. }
      unfold walk_holds in Hh. rewrite Ew in Hh. destruct Hh as [Hfd ->].
      apply triple_bind with (R := fun _ s' => s' = s); [apply triple_close; [set_solver|]; intros; set_solver|].
      intros closeErr ? ->. apply triple_ret. destruct target as [t|e]; [|done]. destruct (Ht t eq_refl) as [E1 E2].
      destruct closeErr; [done|]. cbn. by rewrite E2.
    + apply triple_ret. unfold walk_holds in *. destruct target as [t|e]; cbn in *.
      * unfold walk_holds in Hr. rewrite Ew in Hr. destruct (target_anchor t); naive_solver.
      * unfold walk_holds in Hr. by rewrite Ew in Hr.
Qed.
#[export] Hint Resolve resolveSourceSymlink_ok : descriptors.

(** ** The scanner *)
(** A step leaves open what was, and the anchors it gave the owner. *)
Definition leaves (sc : sourceScanner) (s : gset Z) (sc' : sourceScanner) (s' : gset Z) : Prop :=
  ancestors sc' = ancestors sc /\
  exists added, owner sc' = add_anchors added (owner sc) /\ s' = list_to_set added ∪ s /\ NoDup added
    /\ (forall fd, fd ∈ added -> fd ∉ s).

Definition scan_leaves {A} (s : gset Z) (sc : sourceScanner) (m : scan A) : Prop :=
  triple s (m sc) (fun p s' => leaves sc s p.2 s').

Lemma add_anchors_nil r : add_anchors [] r = r.
Proof. destruct r. unfold add_anchors, with_state. cbn. by rewrite app_nil_r. Qed.

Lemma add_anchors_app l1 l2 r : add_anchors l2 (add_anchors l1 r) = add_anchors (l1 ++ l2) r.
Proof. unfold add_anchors, with_state. cbn. by rewrite app_assoc. Qed.

Lemma leaves_same sc sc' s : ancestors sc' = ancestors sc -> owner sc' = owner sc -> leaves sc s sc' s.
Proof.
  intros Ha Ho. split; [done|]. exists []. rewrite add_anchors_nil. split_and!; [done|set_solver|constructor|set_solver].
Qed.

Lemma leaves_trans sc s sc1 s1 sc2 s2 : leaves sc s sc1 s1 -> leaves sc1 s1 sc2 s2 -> leaves sc s sc2 s2.
Proof.
  intros (Ha1 & l1 & Ho1 & -> & Hn1 & Hd1) (Ha2 & l2 & Ho2 & -> & Hn2 & Hd2). split; [congruence|].
  exists (l1 ++ l2). rewrite Ho2, Ho1, add_anchors_app. split_and!; [done|set_solver| |set_solver].
  apply NoDup_app. split_and!; [done| |done]. intros fd H1 H2. apply (Hd2 fd H2). set_solver.
Qed.

Lemma leaves_subset sc s sc' s' : leaves sc s sc' s' -> s ⊆ s'.
Proof. intros (_ & l & _ & -> & _). set_solver. Qed.

Lemma leaves_closing fd sc s sc' s' : fd ∉ s -> leaves sc ({[fd]} ∪ s) sc' s' -> fd ∈ s' /\ leaves sc s sc' (s' ∖ {[fd]}).
Proof.
  intros Hfd (Ha & l & Ho & -> & Hn & Hd). split; [set_solver|]. split; [done|]. exists l.
  split_and!; [done|set_solver|done|set_solver].
Qed.

Lemma leaves_anchor a sc s : a ∉ s -> leaves sc s (set_owner (add_anchors [a] (owner sc)) sc) ({[a]} ∪ s).
Proof.
  intros Ha. split; [done|]. exists [a]. split_and!; [done|set_solver|apply NoDup_singleton|set_solver].
Qed.

Lemma leaves_within f sc s sc' s' : leaves (set_ancestors f sc) s sc' s' ->
  forall g, g (f (ancestors sc)) = ancestors sc -> leaves sc s (set_ancestors g sc') s'.
Proof. intros (Ha & H) g Hg. split; [cbn in *; by rewrite Ha|done]. Qed.

Lemma after_inside (id : sourceIdentity) (a : gset sourceIdentity) : id ∉ a -> ({[id]} ∪ a) ∖ {[id]} = a.
Proof. intros H. apply set_eq. intros x. rewrite elem_of_difference, elem_of_union, elem_of_singleton. naive_solver. Qed.

Section Steps.
Context {A B : Type}.

Lemma scan_leaves_bind s sc (m : scan A) (k : A -> scan B) :
  scan_leaves s sc m -> (forall a sc' s', leaves sc s sc' s' -> scan_leaves s' sc' (k a)) -> scan_leaves s sc (scan_bind m k).
Proof.
  intros Hm Hk. apply (triple_bind _ _ _ _ _ Hm). intros [[a|e] sc'] s' Hl; [|by apply triple_ret].
  eapply triple_mono; [by apply Hk|]. intros p s'' Hl'. by eapply leaves_trans.
Qed.

Lemma scan_leaves_same s sc (f : sourceScanner -> result A * sourceScanner) :
  ancestors (f sc).2 = ancestors sc -> owner (f sc).2 = owner sc -> scan_leaves s sc (fun s => Ret (f s)).
Proof. intros Ha Ho. apply triple_ret. by apply leaves_same. Qed.

Lemma scan_leaves_return s sc (r : result A) : scan_leaves s sc (scan_return r).
Proof. by apply (scan_leaves_same s sc (fun s => (r, s))). Qed.

Lemma scan_leaves_io s sc (t : source_io (result A)) : triple s t (same s) -> scan_leaves s sc (scan_io t).
Proof. intros Ht. apply same_bind; [done|]. intros r. by apply triple_ret, leaves_same. Qed.

Lemma scan_leaves_wrapping s sc message (m : scan A) : scan_leaves s sc m -> scan_leaves s sc (scan_wrapping message m).
Proof. intros Hm. apply (triple_bind _ _ _ _ _ Hm). intros [r sc'] s' Hl. by apply triple_ret. Qed.

(** A step with a descriptor of its own. *)
Lemma scan_leaves_open s sc message (t : source_io (result Z)) (k : Z -> scan B) :
  triple s t (opens s) -> (forall fd, fd ∉ s -> scan_leaves ({[fd]} ∪ s) sc (k fd)) ->
  scan_leaves s sc (let+ fd := scan_wrapping message (scan_io t) in scan_closing fd (k fd)).
Proof.
  intros Ht Hk. unfold scan_leaves, scan_bind.
  apply triple_bind with (R := fun p s' => p.2 = sc /\ opens s p.1 s').
  - apply triple_bind with (R := fun p s' => p.2 = sc /\ opens s p.1 s').
    + apply (triple_bind _ _ _ _ _ Ht). intros r s' Ho. by apply triple_ret.
    + intros [[fd|e] sc'] s' [E Ho]; by apply triple_ret.
  - intros [[fd|e] sc'] s' [E Ho]; cbn in E, Ho; subst sc'; [|subst s'; by apply triple_ret, leaves_same].
    destruct Ho as [Hfd ->]. apply triple_closing. eapply triple_mono; [by apply Hk|]. intros p s' Hl. by apply leaves_closing.
Qed.

(** A step inside a directory that is not an ancestor yet. *)
Lemma scan_leaves_inside s sc id (m : scan A) :
  id ∉ ancestors sc ->
  (forall sc', ancestors sc' = {[id]} ∪ ancestors sc -> owner sc' = owner sc -> scan_leaves s sc' m) ->
  scan_leaves s sc (let+ _ := scan_put (set_ancestors (fun a => {[id]} ∪ a)) in scan_leaving id m).
Proof.
  intros Hid Hm. apply triple_bind with (R := fun p s' => p = (Ok tt, set_ancestors (fun a => {[id]} ∪ a) sc) /\ s' = s);
    [by apply triple_ret|]. intros ? ? [-> ->].
  apply (triple_bind _ _ _ _ _ (Hm (set_ancestors (fun a => {[id]} ∪ a) sc) eq_refl eq_refl)). intros [r sc'] s' Hl. apply triple_ret. cbn in *.
  eapply leaves_within; [exact Hl|]. by apply after_inside.
Qed.
End Steps.

Lemma scan_leaves_read {A} s sc (f : sourceScanner -> A) : scan_leaves s sc (scan_read f).
Proof. by apply (scan_leaves_same s sc (fun s => (Ok (f s), s))). Qed.

Lemma scan_leaves_put s sc f : scan_leaves s sc (scan_put (set_summary f)).
Proof. by apply (scan_leaves_same s sc (fun s => (Ok tt, set_summary f s))). Qed.

Lemma scan_leaves_count s sc f : scan_leaves s sc (scan_count f).
Proof. apply scan_leaves_bind; [apply scan_leaves_put|]. intros. apply scan_leaves_return. Qed.
#[export] Hint Resolve scan_leaves_return scan_leaves_io scan_leaves_wrapping scan_leaves_read scan_leaves_put
  scan_leaves_count : descriptors.

(** A read and a check of what was read. *)
Lemma same_expect {A} s (t : source_io (result A)) f message :
  triple s t (same s) -> triple s (do! r := t in lift (expect r f message)) (same s).
Proof. intros Ht. apply same_bind; [done|]. intros r. apply same_ret. Qed.
#[export] Hint Resolve same_expect : descriptors.

Lemma captureRegularFile_ok s sc parent name logicalPath identity backing :
  parent ∈ s -> scan_leaves s sc (captureRegularFile parent name logicalPath identity backing).
Proof.
  intros Hp. apply scan_leaves_open; [auto with descriptors|]. intros file Hf.
  apply scan_leaves_bind; [auto with descriptors|]. intros opened sc1 s1 _.
  apply scan_leaves_bind; [auto with descriptors|]. auto with descriptors.
Qed.

(** The anchor is the owner's, or closed. *)
Lemma scan_retain_ok {B} s sc logicalPath a (k : Z -> scan B) :
  a ∉ s -> (forall index sc', leaves sc s sc' ({[a]} ∪ s) -> scan_leaves ({[a]} ∪ s) sc' (k index)) ->
  triple ({[a]} ∪ s) (scan_bind (scan_retain logicalPath (Some a)) k sc) (fun p s' => leaves sc s p.2 s').
Proof.
  intros Ha Hk. unfold scan_bind.
  apply triple_bind with (R := fun p s' =>
    match p.1 with Ok _ => leaves sc s p.2 ({[a]} ∪ s) /\ s' = {[a]} ∪ s | Err _ => leaves sc s p.2 s' end).
  - unfold scan_retain, addBackingDirectory. destruct (transferred (owner sc) || closed (owner sc)), (root (owner sc));
      [..|destruct (maximumAnchors <=? zlen (anchors (owner sc)))|]; cbn beta iota zeta;
      try (apply triple_bind with (R := fun _ s' => s' = s); [apply triple_close; [set_solver|]; intros; by apply after_closing|];
           intros _ ? ->; apply triple_ret; by apply leaves_same).
    apply triple_ret. split; [by apply leaves_anchor|done].
  - intros [[index|e] sc'] s' H; [|by apply triple_ret]. destruct H as [Hl ->].
    eapply triple_mono; [by apply Hk|]. intros p s' Hl'. by eapply leaves_trans.
Qed.

Lemma captureSymlinkFile_ok s sc logicalPath target a :
  target_anchor target = Some a -> a ∉ s ->
  triple ({[a]} ∪ s) (captureSymlinkFile logicalPath target sc) (fun p s' => leaves sc s p.2 s').
Proof.
  intros Et Ha. unfold captureSymlinkFile. rewrite Et. apply scan_retain_ok; [done|]. intros index sc' _.
  apply scan_leaves_bind; [auto with descriptors|]. auto with descriptors.
Qed.

Section Scanning.
Context (followSymlinks : bool) (scan_below : Z -> string -> BackingReference -> scan SourceDirectory).
Hypothesis Hbelow : forall s sc fd logicalPath backing, fd ∈ s -> scan_leaves s sc (scan_below fd logicalPath backing).

Lemma inside_ok s sc id fd logicalPath backing :
  fd ∈ s -> id ∉ ancestors sc ->
  scan_leaves s sc
    (let+ _ := scan_put (set_ancestors (fun a => {[id]} ∪ a)) in
     scan_leaving id (let+ captured := scan_below fd logicalPath backing in
                      scan_return (Ok (Some (directoryEntry captured))))).
Proof using Hbelow.
  intros Hfd Hid. apply scan_leaves_inside; [done|]. intros sc' _ _. apply scan_leaves_bind; auto with descriptors.
Qed.

Lemma captureDirectory_ok s sc parent name logicalPath identity backing :
  parent ∈ s -> scan_leaves s sc (captureDirectory scan_below parent name logicalPath identity backing).
Proof using Hbelow.
  intros Hp. apply scan_leaves_open; [auto with descriptors|]. intros fd Hfd.
  apply scan_leaves_bind; [auto with descriptors|]. intros opened sc1 s1 Hl1.
  unfold scan_leaves, scan_bind at 1.
  apply triple_bind with (R := fun p s' => p = (Ok (bool_decide (opened ∈ ancestors sc1)), sc1) /\ s' = s1); [by apply triple_ret|].
  intros ? ? [-> ->]. case_bool_decide as Hid; [apply scan_leaves_return|]. apply inside_ok; [|done].
  apply leaves_subset in Hl1. set_solver.
Qed.

Lemma captureSymlinkDirectory_ok s sc logicalPath target a :
  target_anchor target = Some a -> a ∉ s ->
  triple ({[a]} ∪ s) (captureSymlinkDirectory scan_below logicalPath target sc) (fun p s' => leaves sc s p.2 s').
Proof using Hbelow.
  intros Et Ha. unfold captureSymlinkDirectory. cbv zeta. unfold scan_bind at 1. rewrite Et.
  apply triple_bind with (R := fun p s' => p = (Ok (bool_decide (target_identity target ∈ ancestors sc)), sc) /\ s' = {[a]} ∪ s);
    [by apply triple_ret|].
  intros ? ? [-> ->]. case_bool_decide as Hid.
  - apply triple_bind with (R := fun _ s' => s' = s); [apply triple_close; [set_solver|]; intros; by apply after_closing|].
    intros _ ? ->. by apply triple_ret, leaves_same.
  - apply scan_retain_ok; [done|]. intros index sc' Hl. apply inside_ok; [cbn; set_solver|]. by destruct Hl as [-> _].
Qed.

Lemma followSymlink_ok s sc parent name logicalPath observed :
  parent ∈ s -> scan_leaves s sc (followSymlink scan_below parent name logicalPath observed).
Proof using Hbelow.
  intros Hp. unfold followSymlink, scan_leaves, scan_bind at 1.
  apply triple_bind with (R := fun p s' => p.2 = sc /\ target_holds s p.1 s').
  { apply triple_bind with (R := fun p s' => p.2 = sc /\ target_holds s p.1 s').
    - apply (triple_bind _ _ _ _ _ (resolveSourceSymlink_ok s parent name observed Hp)). intros r s' Ho. by apply triple_ret.
    - intros [[target|e] sc'] s' [E Ho]; by apply triple_ret. }
  intros [[target|e] sc'] s' [E Ho]; cbn in E, Ho; subst sc'; [|subst s'; by apply triple_ret, leaves_same].
  unfold scan_bind at 1.
  apply triple_bind with (R := fun p s'' => p = (Ok tt, set_summary count_followed sc) /\ s'' = s'); [by apply triple_ret|].
  intros ? ? [-> ->]. set (sc1 := set_summary count_followed sc).
  assert (Hsc : forall sc' s', leaves sc1 s sc' s' -> leaves sc s sc' s') by done.
  destruct (target_anchor target) as [a|] eqn:Ea.
  - destruct Ho as (Hk & Ha & ->). destruct (_ =? sourceDirectoryObject) eqn:E1.
    + eapply triple_mono; [by apply (captureSymlinkDirectory_ok s)|]. auto.
    + destruct (_ =? sourceRegularObject) eqn:E2.
      * eapply triple_mono; [by apply (captureSymlinkFile_ok s)|]. auto.
      * bool_to_prop. by destruct Hk.
  - destruct Ho as [-> ->]. eapply triple_mono; [apply scan_leaves_count|]. auto.
Qed.

Lemma captureEntry_ok s sc parent logicalPath name identity backing :
  parent ∈ s -> scan_leaves s sc (captureEntry followSymlinks scan_below parent logicalPath name identity backing).
Proof using Hbelow.
  intros Hp. unfold captureEntry. cbv zeta.
  repeat case_match; auto using followSymlink_ok, captureDirectory_ok, captureRegularFile_ok with descriptors.
Qed.

Lemma scan_names_ok fd logicalPath backing names : forall s sc observed children,
  fd ∈ s -> scan_leaves s sc (scan_names followSymlinks scan_below fd logicalPath backing names observed children).
Proof using Hbelow.
  induction names as [|name names IH]; intros s sc observed children Hfd; cbn [scan_names]; [auto with descriptors|].
  apply scan_leaves_bind; [auto with descriptors|]. intros _ sc1 s1 Hl1%leaves_subset.
  apply scan_leaves_bind; [auto with descriptors|]. intros identity sc2 s2 Hl2%leaves_subset.
  apply scan_leaves_bind; [apply captureEntry_ok; set_solver|]. intros entry sc3 s3 Hl3%leaves_subset.
  apply IH. set_solver.
Qed.

Lemma scan_directory_ok s sc fd logicalPath backing :
  fd ∈ s -> scan_leaves s sc (scan_directory followSymlinks scan_below fd logicalPath backing).
Proof using Hbelow.
  intros Hfd. unfold scan_directory.
  apply scan_leaves_bind; [auto with descriptors|]. intros _ sc1 s1 Hl1%leaves_subset.
  apply scan_leaves_bind; [auto with descriptors|]. intros before sc2 s2 Hl2%leaves_subset.
  apply scan_leaves_bind; [auto with descriptors|]. intros names sc3 s3 Hl3%leaves_subset.
  apply scan_leaves_bind; [apply scan_names_ok; set_solver|]. intros [observed children] sc4 s4 Hl4%leaves_subset.
  apply scan_leaves_bind; [auto with descriptors|]. intros after sc5 s5 Hl5%leaves_subset.
  apply scan_leaves_bind.
  { apply scan_leaves_io, same_bind; [auto with descriptors|]. intros [e|]; apply same_ret. }
  intros _ sc6 s6 _. apply scan_leaves_bind; [auto with descriptors|]. intros captured sc7 s7 _.
  case_match; [|auto with descriptors]. apply scan_leaves_bind; auto with descriptors.
Qed.
End Scanning.

Lemma scanDirectory_ok fuel followSymlinks : forall s sc fd logicalPath backing,
  fd ∈ s -> scan_leaves s sc (scanDirectory fuel followSymlinks fd logicalPath backing).
Proof.
  induction fuel as [|fuel IH]; intros s sc fd logicalPath backing Hfd; cbn [scanDirectory]; [apply triple_spin|].
  by apply scan_directory_ok.
Qed.
