(* ===== verification/SourceLife.v ===== *)
(** * The life of a source

    The owner of [source_root.go] under any calls of its methods, of the borrows it
    lends and of the leases of [access.go]: every open descriptor is accounted for. *)
From ITree Require Import ITree.
From S2P Require Import Prelude Sorting GoText Paths SourceTree Allocation Effects SourceRoot SourceScan SourceDescriptors.

(** ** The owner's methods *)
(** [l] are open, each once, beside [base]. *)
Definition accounts (base : gset Z) (l : list Z) (s : gset Z) : Prop :=
  NoDup l /\ (forall fd, fd ∈ l -> fd ∉ base) /\ s = list_to_set l ∪ base.

#[export] Instance accounts_proper base : Proper ((≡ₚ) ==> eq ==> iff) (accounts base).
Proof. intros l l' Hl s ? <-. unfold accounts. by setoid_rewrite Hl. Qed.

Lemma accounts_cons base l s fd : accounts base l s -> fd ∉ s -> accounts base (fd :: l) ({[fd]} ∪ s).
Proof. intros (Hn & Hd & ->) Hfd. split_and!; [constructor; [set_solver|done]|set_solver|set_solver]. Qed.

Lemma accounts_close base l s fd : accounts base (fd :: l) s -> accounts base l (s ∖ {[fd]}).
Proof.
  intros (Hn & Hd & ->). apply NoDup_cons in Hn as [Hfd Hn]. split_and!; [done|set_solver|].
  assert (fd ∉ base) by set_solver. set_solver.
Qed.

Lemma accounts_in base l s fd : accounts base l s -> fd ∈ l -> fd ∈ s.
Proof. intros (_ & _ & ->) Hfd. set_solver. Qed.

Lemma accounts_app base l s added : accounts base l s -> NoDup added -> (forall fd, fd ∈ added -> fd ∉ s) ->
  accounts base (added ++ l) (list_to_set added ∪ s).
Proof.
  intros (Hn & Hd & ->) Ha Hs. split_and!; [|set_solver|set_solver].
  apply NoDup_app. split_and!; [done|set_solver|done].
Qed.

Lemma close_all_ok base files : forall l s,
  accounts base (files ++ l) s -> triple s (close_all files) (fun _ s' => accounts base l s').
Proof.
  induction files as [|file files IH]; intros l s Hs; cbn [close_all]; [by apply triple_ret|].
  apply triple_bind with (R := fun _ s' => accounts base (files ++ l) s').
  - apply triple_close; [apply (accounts_in _ _ _ file Hs); set_solver|]. intros _. by apply accounts_close.
  - intros err s' Hs'. apply (triple_bind _ _ _ _ _ (IH l s' Hs')). intros errs s'' Hs''. by apply triple_ret.
Qed.

Lemma duplicate_all_ok base l sources : forall duplicates s,
  (forall fd, fd ∈ sources -> fd ∈ l) -> accounts base (duplicates ++ l) s ->
  triple s (duplicate_all sources duplicates)
    (fun r s' => match r with Ok files => accounts base (files ++ l) s' | Err _ => accounts base l s' end).
Proof.
  induction sources as [|source sources IH]; intros duplicates s Hin Hs; cbn [duplicate_all]; [by apply triple_ret|].
  apply opens_bind.
  - apply duplicateSourceDescriptor_ok, (accounts_in _ _ _ _ Hs). set_solver.
  - intros fd Hfd. apply IH; [set_solver|]. pose proof (accounts_cons _ _ _ _ Hs Hfd) as H.
    rewrite <- app_assoc. change ([fd] ++ l) with (fd :: l). by rewrite <- Permutation_middle.
  - intros e. apply (triple_bind _ _ _ _ _ (close_all_ok base duplicates l s Hs)). intros fs s' Hs'. by apply triple_ret.
Qed.

Lemma borrowDescriptorLocked_ok s r :
  (forall fd, root r = Some fd -> fd ∈ s) ->
  triple s (borrowDescriptorLocked r)
    (fun p s' => match p.1 with
                 | Ok fd => fd ∉ s /\ s' = {[fd]} ∪ s /\ p.2 = lend 1 r /\ is_Some (root r) /\ transferred r = false /\ closed r = false
                 | Err _ => s' = s /\ p.2 = r end).
Proof.
  intros Hr. unfold borrowDescriptorLocked. destruct (transferred r); [by apply triple_ret|].
  destruct (closed r), (root r) as [fd|]; try by apply triple_ret.
  apply opens_bind; [apply duplicateSourceDescriptor_ok; auto|intros d Hd; by apply triple_ret; eauto 10|intros e; by apply triple_ret].
Qed.

(** What a scan leaves of the owner: its mark, and the anchors it added. *)
Definition scanned_root (r r' : SourceRoot) (s s' : gset Z) : Prop :=
  exists added mark, r' = with_state r (root r) (anchors r ++ added) (borrows r) mark (transferred r) (closed r)
    /\ s' = list_to_set added ∪ s /\ NoDup added /\ (forall fd, fd ∈ added -> fd ∉ s)
    /\ (added <> [] -> is_Some (root r)).

Lemma scanned_root_same r s : scanned_root r r s s.
Proof. exists [], (scanned r). rewrite app_nil_r. split_and!; [by destruct r|set_solver|constructor|set_solver|done]. Qed.

Lemma scanned_root_marked r mark s sc s' fd id :
  fd ∉ s -> is_Some (root r) ->
  leaves (MkScanner (set_scanned (lend 1 r)) mark id) ({[fd]} ∪ s) sc s' ->
  fd ∈ s' /\ scanned_root r (lend (-1) (owner sc)) s (s' ∖ {[fd]}).
Proof.
  intros Hfd Hr Hl. destruct (leaves_closing _ _ _ _ _ Hfd Hl) as [Hin (_ & added & Ho & Hs & Hn & Hd)]. split; [done|].
  exists added, true. cbn in Ho. rewrite Ho. unfold lend, add_anchors, set_scanned, with_state. cbn.
  split_and!; [f_equal; lia|done|done|done|done].
Qed.

Lemma Scan_ok fuel ctx followSymlinks s r :
  (forall fd, root r = Some fd -> fd ∈ s) ->
  triple s (Scan fuel ctx followSymlinks (Some r))
    (fun p s' => exists r', p.2 = Some r' /\ scanned_root r r' s s').
Proof.
  intros Hr. unfold Scan. case_match; [apply triple_ret; eexists; split; [done|apply scanned_root_same]|].
  apply same_bind; [by apply triple_read|]. intros [e|]; [apply triple_ret; eexists; split; [done|apply scanned_root_same]|].
  apply triple_bind with (R := fun p s' =>
    match p.1 with
    | Ok (fd, _, _) => fd ∉ s /\ s' = {[fd]} ∪ s /\ p.2 = set_scanned (lend 1 r) /\ is_Some (root r)
    | Err _ => s' = s /\ p.2 = r end).
  { unfold beginScan. case_match; [by apply triple_ret|].
    apply (triple_bind _ _ _ _ _ (borrowDescriptorLocked_ok s r Hr)). intros [[fd|e] r'] s' H1; apply triple_ret; [|done].
    cbn in *. destruct H1 as (? & ? & -> & ? & _). done. }
  intros [[[[fd id] cap]|e] r1] s1 H1; cbn [fst snd] in H1.
  2:{ destruct H1 as [-> ->]. apply triple_ret. eexists; split; [done|apply scanned_root_same]. }
  destruct H1 as (Hfd & -> & -> & Hroot).
  apply (triple_bind _ _ _ _ _ (scanDirectory_ok fuel followSymlinks ({[fd]} ∪ s) (MkScanner (set_scanned (lend 1 r)) _ _) fd "" _ ltac:(set_solver))).
  intros [tree sc] s2 Hl. cbn [snd] in Hl. cbv zeta. destruct (scanned_root_marked _ _ _ _ _ _ _ Hfd Hroot Hl) as [Hin Hs].
  destruct (scan_outcome _ _ _ _ _) as [snapshot err]. unfold finishScan.
  apply triple_bind with (R := fun p s' => p.2 = lend (-1) (owner sc) /\ s' = s2 ∖ {[fd]}).
  { apply triple_bind with (R := fun _ s' => s' = s2 ∖ {[fd]}); [by apply triple_close|].
    intros closeErr ? ->. by apply triple_ret. }
  intros [closeErr r2] ? [E ->]. cbn in E. subst r2. apply triple_ret. eexists. by split.
Qed.

(** *** A life of the owner *)
(** The owner, what it has lent and what it or its leases have given away, under
    any sequence of calls of their methods. *)
Record Estate : Type := MkEstate {
  estate_owner : SourceRoot;
  estate_borrows : list SourceRootBorrow;
  estate_leases : list SourceAccess;
  estate_given : list Z
}.

Inductive owner_call : Type :=
  | CallBorrow
  | CallReturn (i : nat)
  | CallScan (fuel : nat) (ctx followSymlinks : bool)
  | CallAcquire (snapshot : SourceSnapshot)
  | CallOpen (i : nat) (reference : BackingReference)
  | CallMetadata (i : nat) (reference : BackingReference)
  | CallRelease (i : nat)
  | CallTransfer
  | CallClose.

Definition run_call (c : owner_call) (e : Estate) : source_io Estate :=
  let '(MkEstate r borrows leases given) := e in
  match c with
  | CallBorrow =>
      do! '(borrow, r) := Borrow r in
      Ret (MkEstate r (match borrow with Ok borrow => borrow :: borrows | Err _ => borrows end) leases given)
  | CallReturn i =>
      match borrows !! i with
      | None => Ret e
      | Some borrow =>
          do! '(_, (borrow, r)) := borrow_Close borrow r in Ret (MkEstate r (<[i := borrow]> borrows) leases given)
      end
  | CallScan fuel ctx followSymlinks =>
      do! '(_, r') := Scan fuel ctx followSymlinks (Some r) in Ret (MkEstate (default r r') borrows leases given)
  | CallAcquire snapshot =>
      do! '(lease, r) := AcquireAccess r snapshot in
      Ret (MkEstate r borrows (match lease with Ok lease => lease :: leases | Err _ => leases end) given)
  | CallOpen i reference =>
      do! opened := OpenRegular (leases !! i) reference in
      Ret (MkEstate r borrows leases (match opened with Ok (file, _) => file :: given | Err _ => given end))
  | CallMetadata i reference => do! _ := DirectoryMetadata (leases !! i) reference in Ret e
  | CallRelease i =>
      match leases !! i with
      | None => Ret e
      | Some lease =>
          do! '(_, (lease, r)) := access_Close lease r in Ret (MkEstate r borrows (<[i := lease]> leases) given)
      end
  | CallTransfer =>
      do! '(descriptor, r) := TransferDescriptor r in
      Ret (MkEstate r borrows leases (match descriptor with Ok fd => fd :: given | Err _ => given end))
  | CallClose => do! '(_, r) := Close r in Ret (MkEstate r borrows leases given)
  end.

Fixpoint run_calls (cs : list owner_call) (e : Estate) : source_io Estate :=
  match cs with
  | [] => Ret e
  | c :: cs => do! e := run_call c e in run_calls cs e
  end.

Definition borrowed (b : SourceRootBorrow) : list Z := option_list (borrow_root b).
Definition live_lease (a : SourceAccess) : list SourceAccess := if access_once a then [] else [a].
Definition lent (e : Estate) : list Z :=
  mjoin (borrowed <$> estate_borrows e) ++ mjoin (access_anchors <$> estate_leases e).
Definition held (e : Estate) : list Z :=
  option_list (root (estate_owner e)) ++ anchors (estate_owner e) ++ lent e ++ estate_given e.

(** What the owner counts as borrowed is what is lent, and the owner keeps its
    own descriptors as long as anything is. *)
Definition loans (e : Estate) : Z :=
  zlen (mjoin (borrowed <$> estate_borrows e)) + zlen (mjoin (live_lease <$> estate_leases e)).

Record estate_wf (e : Estate) : Prop := {
  wf_loans : borrows (estate_owner e) = loans e;
  wf_leases : Forall (fun a => access_once a = true -> access_anchors a = []) (estate_leases e);
  wf_gone : transferred (estate_owner e) = true \/ closed (estate_owner e) = true ->
    root (estate_owner e) = None /\ anchors (estate_owner e) = [] /\ loans e = 0;
  wf_root : transferred (estate_owner e) = false -> closed (estate_owner e) = false -> is_Some (root (estate_owner e))
}.

Definition estate_ok (base : gset Z) (e : Estate) (s : gset Z) : Prop := estate_wf e /\ accounts base (held e) s.

(** Permutations of joined lists, by counting. *)
Ltac count_perm :=
  apply (Permutation_count_occ Z.eq_dec); intros; cbn [option_list app]; rewrite ?count_occ_app;
  repeat match goal with |- context [count_occ _ (?x :: ?l) _] => lazymatch l with [] => fail | _ => change (x :: l) with ([x] ++ l) end end;
  rewrite ?count_occ_app; lia.

Lemma mjoin_update {A B} (f : A -> list B) l i x y :
  l !! i = Some x -> f x ++ mjoin (f <$> <[i := y]> l) ≡ₚ f y ++ mjoin (f <$> l).
Proof.
  intros Hi. rewrite <- (take_drop_middle l i x Hi) at 2. rewrite (insert_take_drop l i y) by (by eapply lookup_lt_Some).
  rewrite !fmap_app, !fmap_cons, !join_app, !mjoin_cons, (Permutation_app_swap_app (f x)), (Permutation_app_swap_app (f y)).
  apply Permutation_app_head, Permutation_app_swap_app.
Qed.

Lemma borrowed_gone bs i b b' fd :
  bs !! i = Some b -> borrow_root b = Some fd -> borrow_root b' = None ->
  fd :: mjoin (borrowed <$> <[i := b']> bs) ≡ₚ mjoin (borrowed <$> bs).
Proof.
  intros Hi Hb Hb'. pose proof (mjoin_update borrowed bs i b b' Hi) as Hp. unfold borrowed at 1 3 in Hp.
  rewrite Hb, Hb' in Hp. exact Hp.
Qed.

(** *** Leases *)
Lemma open_components_ok s components wantDirectory : forall current,
  current ∉ s -> triple ({[current]} ∪ s) (open_components current components wantDirectory) (opens s).
Proof.
  induction components as [|component rest IH]; intros current Hc; cbn [open_components]; [by apply triple_ret|].
  apply triple_bind with (R := fun r s' => match r with
      | Ok fd => fd ∉ {[current]} ∪ s /\ s' = {[fd]} ∪ ({[current]} ∪ s) /\ 0 <= fd | Err _ => s' = {[current]} ∪ s end).
  { apply triple_call; [intros ? [= <-]; set_solver|]. intros [fd|e] Hx; (split; [done|]); cbn in *; [|set_solver].
    destruct (Hx fd eq_refl). split_and!; [done|set_solver|done]. }
  intros [fd|e] s1 H1.
  - destruct H1 as (Hfd & -> & H0).
    apply triple_bind with (R := fun _ s' => s' = {[fd]} ∪ s); [apply triple_close; [set_solver|]; intros; set_solver|].
    intros _ ? ->. apply triple_bind_ok with (R := fun r s' => r = Ok fd /\ s' = {[fd]} ∪ s).
    + unfold wrapSourceDescriptor. rewrite (proj2 (Z.ltb_ge _ _)) by done. by apply triple_ret.
    + intros ? ? [[= <-] ->]. apply IH. set_solver.
    + by intros ? ? [[=] _].
  - subst s1. apply triple_bind with (R := fun _ s' => s' = s); [apply triple_close; [set_solver|]; intros; by apply after_closing|].
    intros _ ? ->. by apply triple_ret.
Qed.

Lemma openRelative_ok s a relative wantDirectory :
  (forall fd, a = Some fd -> fd ∈ s) -> triple s (openRelative a relative wantDirectory) (opens s).
Proof.
  intros Ha. unfold openRelative. destruct a as [fd|]; [|by apply triple_ret]. specialize (Ha fd eq_refl).
  case_bool_decide; [case_match; [by apply triple_ret|by apply duplicateSourceDescriptor_ok]|].
  apply opens_bind_ok; [by apply duplicateSourceDescriptor_ok|apply open_components_ok|done].
Qed.

Lemma OpenRegular_ok s access reference :
  (forall fd, access_anchor access reference = Some fd -> fd ∈ s) ->
  triple s (OpenRegular access reference)
    (fun r s' => match r with Ok (file, _) => file ∉ s /\ s' = {[file]} ∪ s | Err _ => s' = s end).
Proof.
  intros Ha. unfold OpenRegular. case_match; [by apply triple_ret|].
  apply opens_bind_ok; [by apply openRelative_ok| |done]. intros file Hf.
  apply same_bind; [auto with descriptors|]. intros [metadata|e]; [by apply triple_ret|].
  apply triple_failing; [set_solver|by apply after_closing].
Qed.

Lemma DirectoryMetadata_ok s access reference :
  (forall fd, access_anchor access reference = Some fd -> fd ∈ s) ->
  triple s (DirectoryMetadata access reference) (same s).
Proof.
  intros Ha. unfold DirectoryMetadata. case_match; [by apply triple_ret|].
  apply opens_bind_ok; [by apply openRelative_ok| |done]. intros file Hf. apply triple_closing.
  eapply triple_mono; [apply metadataFromDescriptor_ok; set_solver|]. intros ? ? ->. split; [set_solver|by apply after_closing].
Qed.

(** *** Each call keeps the estate in order *)
Lemma loans_nonneg e : 0 <= loans e.
Proof. unfold loans, zlen. lia. Qed.

Lemma wf_lend e e' k :
  estate_wf e -> estate_owner e' = lend k (estate_owner e) -> loans e' = loans e + k ->
  Forall (fun a => access_once a = true -> access_anchors a = []) (estate_leases e') ->
  (transferred (estate_owner e) = false /\ closed (estate_owner e) = false) \/ 0 < loans e -> estate_wf e'.
Proof.
  intros [Hl Hf Hg Hr] Ho Hk Hf' Hlive. split; rewrite ?Ho; cbn; [lia|done| |done].
  intros H. destruct Hlive as [[E1 E2]|Hlive]; [destruct H; congruence|]. specialize (Hg H). lia.
Qed.

Lemma held_root base e s fd : estate_ok base e s -> root (estate_owner e) = Some fd -> fd ∈ s.
Proof. intros [_ Ha] E. apply (accounts_in _ _ _ _ Ha). unfold held. rewrite E. set_solver. Qed.

Lemma held_lease base e s i reference fd :
  estate_ok base e s -> access_anchor (estate_leases e !! i) reference = Some fd -> fd ∈ s.
Proof.
  intros [_ Ha] E. apply (accounts_in _ _ _ _ Ha). unfold access_anchor in E. destruct (estate_leases e !! i) as [a|] eqn:Ei; [|done].
  cbn in E. unfold held, lent. rewrite !elem_of_app. right. right. left. right. apply list_elem_of_join. exists (access_anchors a).
  split; [by eapply list_elem_of_lookup_2|]. apply list_elem_of_fmap_2. by eapply list_elem_of_lookup_2.
Qed.

Section Calls.
Context (base : gset Z).

Lemma call_Borrow s r bs ls gs :
  estate_ok base (MkEstate r bs ls gs) s -> triple s (run_call CallBorrow (MkEstate r bs ls gs)) (estate_ok base).
Proof.
  intros He. pose proof He as [Hwf Ha]. cbn [run_call]. unfold Borrow.
  apply triple_bind with (R := fun p s' => match p.1 with
    | Ok b => exists fd, b = MkBorrow (Some fd) None /\ fd ∉ s /\ s' = {[fd]} ∪ s /\ p.2 = lend 1 r
                /\ transferred r = false /\ closed r = false
    | Err _ => s' = s /\ p.2 = r end).
  - apply (triple_bind _ _ _ _ _ (borrowDescriptorLocked_ok s r (fun fd => held_root _ _ _ _ He))).
    intros [[fd|e] r'] s' H; apply triple_ret; cbn in *; [|done]. exists fd. naive_solver.
  - intros [[b|e] r'] s' H; apply triple_ret; cbn [fst snd] in H; [|by destruct H as [-> ->]].
    destruct H as (fd & -> & Hfd & -> & -> & Ht & Hc). split.
    + apply (wf_lend (MkEstate r bs ls gs) _ 1); [done|done| |apply Hwf|by left].
      unfold loans. cbn [estate_borrows estate_leases]. rewrite fmap_cons, mjoin_cons. rewrite zlen_app. change (zlen (borrowed (MkBorrow (Some fd) None))) with 1. lia.
    + assert (held (MkEstate (lend 1 r) (MkBorrow (Some fd) None :: bs) ls gs) ≡ₚ fd :: held (MkEstate r bs ls gs)) as ->.
      { unfold held, lent. cbn [estate_owner estate_borrows estate_leases estate_given lend with_state root anchors].
        rewrite fmap_cons, mjoin_cons. change (borrowed (MkBorrow (Some fd) None)) with [fd]. count_perm. }
      by apply accounts_cons.
Qed.

Lemma call_Return s i r bs ls gs :
  estate_ok base (MkEstate r bs ls gs) s -> triple s (run_call (CallReturn i) (MkEstate r bs ls gs)) (estate_ok base).
Proof.
  intros He. pose proof He as [Hwf Ha]. cbn [run_call]. destruct (bs !! i) as [b|] eqn:Ei; [|by apply triple_ret].
  unfold borrow_Close. destruct (borrow_root b) as [fd|] eqn:Eb.
  - apply triple_bind with (R := fun p s' => exists err, p.2 = (MkBorrow None err, lend (-1) r) /\ s' = s ∖ {[fd]}).
    { apply triple_bind with (R := fun _ s' => s' = s ∖ {[fd]}).
      - apply triple_close; [|done]. apply (accounts_in _ _ _ _ Ha). unfold held, lent. cbn [estate_borrows].
        rewrite !elem_of_app. right. right. left. left. apply list_elem_of_join. exists [fd]. split; [by left|].
        apply list_elem_of_fmap. exists b. split; [by unfold borrowed; rewrite Eb|by eapply list_elem_of_lookup_2].
      - intros err ? ->. apply triple_ret. by eexists. }
    intros [err0 [b' r']] s' (err & [= -> ->] & ->). apply triple_ret.
    pose proof (borrowed_gone bs i b (MkBorrow None err) fd Ei Eb eq_refl) as Hp.
    pose proof (Permutation_length Hp) as Hlen. cbn [length] in Hlen. split.
    + apply (wf_lend (MkEstate r bs ls gs) _ (-1)); [done|done| |apply Hwf|right].
      * unfold loans. cbn [estate_borrows estate_leases]. unfold zlen. lia.
      * unfold loans. cbn [estate_borrows estate_leases]. unfold zlen. lia.
    + apply accounts_close. assert (fd :: held (MkEstate (lend (-1) r) (<[i:=MkBorrow None err]> bs) ls gs) ≡ₚ held (MkEstate r bs ls gs)) as ->; [|done].
      unfold held, lent. cbn [estate_owner estate_borrows estate_leases estate_given lend with_state root anchors].
      rewrite <- Hp. count_perm.
  - apply triple_bind with (R := fun p s' => p.2 = (b, r) /\ s' = s); [by apply triple_ret|].
    intros [err [b' r']] ? [[= -> ->] ->]. apply triple_ret. by rewrite list_insert_id.
Qed.

Lemma call_Scan s fuel ctx followSymlinks r bs ls gs :
  estate_ok base (MkEstate r bs ls gs) s ->
  triple s (run_call (CallScan fuel ctx followSymlinks) (MkEstate r bs ls gs)) (estate_ok base).
Proof.
  intros He. pose proof He as [Hwf Ha]. cbn [run_call].
  apply (triple_bind _ _ _ _ _ (Scan_ok fuel ctx followSymlinks s r (fun fd => held_root _ _ _ _ He))).
  intros [out r0] s' (r' & E & added & mark & -> & -> & Hn & Hd & Hroot). cbn in E. subst r0. apply triple_ret. cbn [default]. split.
  - destruct Hwf as [Hl Hf Hg Hr]. split; cbn in *; [done|done| |done].
    intros H. destruct (Hg H) as (E1 & E2 & E3). split_and!; [done| |done]. rewrite E2. destruct added; [done|].
    rewrite E1 in Hroot. by destruct Hroot.
  - assert (held (MkEstate (with_state r (root r) (anchors r ++ added) (borrows r) mark (transferred r) (closed r)) bs ls gs)
      ≡ₚ added ++ held (MkEstate r bs ls gs)) as ->; [|by apply accounts_app].
    unfold held, lent. cbn [estate_owner estate_borrows estate_leases estate_given with_state root anchors]. count_perm.
Qed.

Lemma call_Acquire s snapshot r bs ls gs :
  estate_ok base (MkEstate r bs ls gs) s -> triple s (run_call (CallAcquire snapshot) (MkEstate r bs ls gs)) (estate_ok base).
Proof.
  intros He. pose proof He as [Hwf Ha]. cbn [run_call].
  apply triple_bind with (R := fun p s' => match p.1 with
    | Ok a => exists files, a = MkAccess files false None /\ p.2 = lend 1 r /\ transferred r = false /\ closed r = false
                /\ accounts base (files ++ held (MkEstate r bs ls gs)) s'
    | Err _ => p.2 = r /\ accounts base (held (MkEstate r bs ls gs)) s' end).
  - unfold AcquireAccess. destruct snapshot as [contents|]; [|by apply triple_ret]. case_match; [by apply triple_ret|].
    destruct (transferred r) eqn:Et, (closed r) eqn:Ec, (root r) as [fd|] eqn:Er; cbn [orb]; try by apply triple_ret.
    apply (triple_bind _ _ _ _ _ (duplicate_all_ok base (held (MkEstate r bs ls gs)) (fd :: anchors r) [] s
      ltac:(unfold held; cbn [estate_owner]; rewrite Er; set_solver) Ha)).
    intros [files|e] s' Hs'; apply triple_ret; cbn; [by exists files|done].
  - intros [[a|e] r'] s' H; apply triple_ret; cbn [fst snd] in H; [|by destruct H as [-> H]].
    destruct H as (files & -> & -> & Ht & Hc & Hs'). split.
    + apply (wf_lend (MkEstate r bs ls gs) _ 1); [done|done| | |by left].
      * unfold loans. cbn [estate_borrows estate_leases]. rewrite fmap_cons, mjoin_cons, zlen_app.
        change (zlen (live_lease (MkAccess files false None))) with 1. lia.
      * constructor; [done|apply Hwf].
    + assert (held (MkEstate (lend 1 r) bs (MkAccess files false None :: ls) gs) ≡ₚ files ++ held (MkEstate r bs ls gs)) as ->; [|done].
      unfold held, lent. cbn [estate_owner estate_borrows estate_leases estate_given lend with_state root anchors].
      rewrite fmap_cons, mjoin_cons. change (access_anchors (MkAccess files false None)) with files. count_perm.
Qed.

Lemma call_Open s i reference r bs ls gs :
  estate_ok base (MkEstate r bs ls gs) s -> triple s (run_call (CallOpen i reference) (MkEstate r bs ls gs)) (estate_ok base).
Proof.
  intros He. pose proof He as [Hwf Ha]. cbn [run_call].
  apply (triple_bind _ _ _ _ _ (OpenRegular_ok s (ls !! i) reference (fun fd => held_lease base _ _ i reference fd He))).
  intros [[file metadata]|e] s' H; apply triple_ret; [|by subst s'].
  destruct H as [Hf ->]. split; [by destruct Hwf|].
  assert (held (MkEstate r bs ls (file :: gs)) ≡ₚ file :: held (MkEstate r bs ls gs)) as ->; [|by apply accounts_cons].
  unfold held, lent. cbn [estate_owner estate_borrows estate_leases estate_given]. count_perm.
Qed.

Lemma call_Metadata s i reference r bs ls gs :
  estate_ok base (MkEstate r bs ls gs) s -> triple s (run_call (CallMetadata i reference) (MkEstate r bs ls gs)) (estate_ok base).
Proof.
  intros He. cbn [run_call]. apply same_bind; [apply DirectoryMetadata_ok; intros fd; by apply (held_lease base (MkEstate r bs ls gs))|].
  intros metadata. by apply triple_ret.
Qed.

Lemma lease_gone ls i a a' :
  ls !! i = Some a -> access_once a = false -> access_anchors a' = [] -> access_once a' = true ->
  access_anchors a ++ mjoin (access_anchors <$> <[i := a']> ls) ≡ₚ mjoin (access_anchors <$> ls)
  /\ zlen (mjoin (live_lease <$> ls)) = 1 + zlen (mjoin (live_lease <$> <[i := a']> ls)).
Proof.
  intros Hi Ho Ha Ho'. split.
  - pose proof (mjoin_update access_anchors ls i a a' Hi) as Hp. by rewrite Ha in Hp.
  - pose proof (mjoin_update live_lease ls i a a' Hi) as Hp. unfold live_lease at 1 3 in Hp. rewrite Ho, Ho' in Hp.
    apply Permutation_length in Hp. cbn in Hp. unfold zlen. lia.
Qed.

Lemma call_Release s i r bs ls gs :
  estate_ok base (MkEstate r bs ls gs) s -> triple s (run_call (CallRelease i) (MkEstate r bs ls gs)) (estate_ok base).
Proof.
  intros He. pose proof He as [Hwf Ha]. cbn [run_call]. destruct (ls !! i) as [a|] eqn:Ei; [|by apply triple_ret].
  unfold access_Close. destruct (access_once a) eqn:Eo.
  - apply triple_bind with (R := fun p s' => p.2 = (a, r) /\ s' = s); [by apply triple_ret|].
    intros [err [a' r']] ? [[= -> ->] ->]. apply triple_ret. by rewrite list_insert_id.
  - set (rest := MkEstate (lend (-1) r) bs (<[i := MkAccess [] true None]> ls) gs).
    destruct (lease_gone ls i a (MkAccess [] true None) Ei Eo eq_refl eq_refl) as [Hp Hz].
    assert (accounts base (access_anchors a ++ held rest) s) as Ha'.
    { assert (access_anchors a ++ held rest ≡ₚ held (MkEstate r bs ls gs)) as ->; [|done].
      unfold held, lent. cbn [rest estate_owner estate_borrows estate_leases estate_given lend with_state root anchors]. rewrite <- Hp. count_perm. }
    apply triple_bind with (R := fun p s' => exists err, p.2 = (MkAccess [] true err, lend (-1) r) /\ accounts base (held rest) s').
    { apply (triple_bind _ _ _ _ _ (close_all_ok base _ _ s Ha')). intros errs s' Hs'. apply triple_ret. by eexists. }
    intros [err0 [a' r']] s' (err & [= -> ->] & Hs'). apply triple_ret. split.
    + apply (wf_lend (MkEstate r bs ls gs) _ (-1)); [done|done| | |right].
      * destruct (lease_gone ls i a (MkAccess [] true err) Ei Eo eq_refl eq_refl) as [_ Hz'].
        unfold loans. cbn [estate_borrows estate_leases]. lia.
      * apply Forall_insert; [apply Hwf|done].
      * unfold loans. cbn [estate_borrows estate_leases]. unfold zlen in *. lia.
    + assert (held (MkEstate (lend (-1) r) bs (<[i := MkAccess [] true err]> ls) gs) = held rest) as ->; [|done].
      unfold held, lent, rest. cbn [estate_borrows estate_leases]. by rewrite !list_fmap_insert.
Qed.

Lemma call_Transfer s r bs ls gs :
  estate_ok base (MkEstate r bs ls gs) s -> triple s (run_call CallTransfer (MkEstate r bs ls gs)) (estate_ok base).
Proof.
  intros He. pose proof He as [Hwf Ha]. cbn [run_call].
  apply triple_bind with (R := fun p s' => match p.1 with
    | Ok fd => p.2 = give_away r /\ borrows r = 0 /\ accounts base (held (MkEstate (give_away r) bs ls (fd :: gs))) s'
    | Err _ => p.2 = r /\ s' = s end).
  - unfold TransferDescriptor. destruct (transferred r); [by apply triple_ret|].
    destruct (closed r), (root r) as [fd|] eqn:Er; try by apply triple_ret.
    destruct (borrows r =? 0) eqn:Eb; cbn [negb]; [|by apply triple_ret]. apply Z.eqb_eq in Eb.
    assert (accounts base (anchors r ++ held (MkEstate (give_away r) bs ls (fd :: gs))) s) as Ha'.
    { assert (anchors r ++ held (MkEstate (give_away r) bs ls (fd :: gs)) ≡ₚ held (MkEstate r bs ls gs)) as ->; [|done].
      unfold held, lent. cbn [estate_owner estate_borrows estate_leases estate_given give_away with_state root anchors]. rewrite Er.
      change (option_list (Some fd)) with [fd]. change (option_list None) with (@nil Z). count_perm. }
    apply (triple_bind _ _ _ _ _ (close_all_ok base _ _ s Ha')). intros errs s' Hs'. by apply triple_ret.
  - intros [[fd|e] r'] s' H; apply triple_ret; cbn [fst snd] in H; [|by destruct H as [-> ->]].
    destruct H as (-> & Hb & Hs'). split; [|done]. destruct Hwf as [Hl Hf Hg Hr]. cbn in *.
    split; cbn; [done|done| |done]. intros _. split_and!; [done|done|]. rewrite <- Hl in *. unfold loans in *. cbn in *. lia.
Qed.

Lemma call_Close s r bs ls gs :
  estate_ok base (MkEstate r bs ls gs) s -> triple s (run_call CallClose (MkEstate r bs ls gs)) (estate_ok base).
Proof.
  intros He. pose proof He as [Hwf Ha]. cbn [run_call].
  apply triple_bind with (R := fun p s' =>
    (p.2 = shut r /\ borrows r = 0 /\ accounts base (held (MkEstate (shut r) bs ls gs)) s') \/ (p.2 = r /\ s' = s)).
  - unfold Close. destruct (transferred r) eqn:Et; [apply triple_ret; by right|]. destruct (closed r) eqn:Ec; [apply triple_ret; by right|].
    destruct (borrows r =? 0) eqn:Eb; cbn [negb]; [|apply triple_ret; by right]. apply Z.eqb_eq in Eb.
    assert (accounts base ((option_list (root r) ++ anchors r) ++ held (MkEstate (shut r) bs ls gs)) s) as Ha'.
    { rewrite <- app_assoc. exact Ha. }
    apply (triple_bind _ _ _ _ _ (close_all_ok base _ _ s Ha')). intros errs s' Hs'. apply triple_ret. by left.
  - intros [err r'] s' [(E & Hb & Hs')|[E ->]]; cbn in E; subst r'; apply triple_ret; [|done].
    split; [|done]. destruct Hwf as [Hl Hf Hg Hr]. cbn in *.
    split; cbn; [done|done| |done]. intros _. split_and!; [done|done|]. rewrite <- Hl in *. unfold loans in *. cbn in *. lia.
Qed.

Lemma run_call_ok c e s : estate_ok base e s -> triple s (run_call c e) (estate_ok base).
Proof.
  destruct e as [r bs ls gs]. destruct c; [apply call_Borrow|apply call_Return|apply call_Scan|apply call_Acquire|apply call_Open
    |apply call_Metadata|apply call_Release|apply call_Transfer|apply call_Close].
Qed.

Lemma run_calls_ok cs : forall e s, estate_ok base e s -> triple s (run_calls cs e) (estate_ok base).
Proof.
  induction cs as [|c cs IH]; intros e s He; cbn [run_calls]; [by apply triple_ret|].
  apply (triple_bind _ _ _ _ _ (run_call_ok c e s He)). intros e' s' He'. by apply IH.
Qed.
End Calls.

(** An owner that has closed or transferred its root keeps nothing open. *)
Lemma gone_held e :
  estate_wf e -> transferred (estate_owner e) = true \/ closed (estate_owner e) = true -> held e = estate_given e.
Proof.
  intros [Hl Hf Hg _] H. destruct (Hg H) as (Er & Ea & El). unfold held, lent. rewrite Er, Ea. unfold loans, zlen in El.
  assert (mjoin (borrowed <$> estate_borrows e) = []) as -> by (apply length_zero_iff_nil; lia).
  assert (mjoin (access_anchors <$> estate_leases e) = []) as ->; [|done].
  assert (mjoin (live_lease <$> estate_leases e) = []) as Hlive by (apply length_zero_iff_nil; lia). clear -Hf Hlive.
  induction Hf as [|a ls Ha Hf IH]; [done|]. rewrite fmap_cons, mjoin_cons in *. apply app_nil in Hlive as [H1 H2].
  rewrite IH by done. rewrite Ha; [done|]. unfold live_lease in H1. by destruct (access_once a).
Qed.

(** *** Opening *)
Lemma newSourceRoot_ok s fd label baseName id :
  triple s (newSourceRoot fd label baseName id)
    (fun r s' => s' = s /\ root r = Some fd /\ anchors r = [] /\ borrows r = 0 /\ transferred r = false /\ closed r = false).
Proof.
  apply same_bind; [by apply triple_read|]. intros capability. apply same_bind; [by apply triple_read|]. intros pid.
  by apply triple_ret.
Qed.

Lemma new_estate base r fd s :
  root r = Some fd -> anchors r = [] -> borrows r = 0 -> transferred r = false -> closed r = false ->
  fd ∉ base -> s = {[fd]} ∪ base -> estate_ok base (MkEstate r [] [] []) s.
Proof.
  intros Er Ea Eb Et Ec Hfd ->. split.
  - split; cbn; [by rewrite Eb|done|by intros [H|H]; congruence|by rewrite Er].
  - unfold held. cbn. rewrite Er, Ea. split_and!; [apply NoDup_singleton|set_solver|set_solver].
Qed.

Definition opened_root (s : gset Z) (r : result SourceRoot) (s' : gset Z) : Prop :=
  match r with Ok r => estate_ok s (MkEstate r [] [] []) s' | Err _ => s' = s end.

Lemma OpenSourceRoot_ok s path : triple s (OpenSourceRoot path) (opened_root s).
Proof.
  apply same_bind_ok; [apply same_lift| |done]. intros [label baseName].
  apply same_bind; [apply lstatSource_ok|]. intros [before|e]; [|by apply triple_ret]. case_match; [by apply triple_ret|].
  apply opens_bind; [apply openSourceDirectoryPath_ok| |intros e; by apply triple_ret]. intros fd Hfd.
  apply same_bind; [apply inspectDescriptor_ok; set_solver|]. intros opened. destruct (expect _ _ _) as [id|e].
  - apply (triple_bind _ _ _ _ _ (newSourceRoot_ok _ fd label baseName id)). intros r s' (-> & ? & ? & ? & ? & ?).
    apply triple_ret. by apply (new_estate s r fd).
  - apply triple_failing; [set_solver|]. by apply after_closing.
Qed.

(** A descriptor that is passed on is consumed. *)
Lemma TakeSourceRoot_ok s fd label :
  fd ∉ s -> triple ({[fd]} ∪ s) (TakeSourceRoot (Some fd) label) (opened_root s).
Proof.
  intros Hfd. unfold TakeSourceRoot. destruct (normalizedSourceLabel label) as [[normalized baseName]|e].
  - apply same_bind; [apply inspectDescriptor_ok; set_solver|]. intros id. destruct (expect _ _ _) as [id'|e].
    + apply (triple_bind _ _ _ _ _ (newSourceRoot_ok _ fd normalized baseName id')). intros r s' (-> & ? & ? & ? & ? & ?).
      apply triple_ret. by apply (new_estate s r fd).
    + apply triple_failing; [set_solver|]. by apply after_closing.
  - apply triple_failing; [set_solver|]. by apply after_closing.
Qed.

(** A source from its opening on. *)
Definition source_life (path : string) (cs : list owner_call) : source_io (result Estate) :=
  do* r := OpenSourceRoot path in
  do! e := run_calls cs (MkEstate r [] [] []) in
  Ret (Ok e).

(** C8. Open a source and make any calls of its methods, of its borrows and of
    its leases, in any order, scans with and without links among them: whatever
    the kernel answers, and wherever the process stops, every call names an open
    descriptor and no descriptor is closed twice.  When they have returned, the
    open descriptors are the ones open before and, once each, those the owner
    holds, has lent or has given away; the root is with its owner as long as
    anything is lent, and an owner that was closed or transferred has left
    nothing of its own open. *)
Theorem source_descriptors_are_accounted_for s path cs :
  triple s (source_life path cs)
    (fun r s' => match r with
       | Err _ => s' = s
       | Ok e => accounts s (held e) s' /\ borrows (estate_owner e) = loans e
           /\ (0 < loans e -> is_Some (root (estate_owner e)))
           /\ (transferred (estate_owner e) = true \/ closed (estate_owner e) = true -> held e = estate_given e)
       end).
Proof.
  apply triple_bind_ok with (R := opened_root s); [apply OpenSourceRoot_ok| |by intros e ? ->]. intros r s1 Hr.
  apply (triple_bind _ _ _ _ _ (run_calls_ok s cs _ _ Hr)). intros e s' [Hwf Ha]. apply triple_ret. split_and!; [done|apply Hwf| |by apply gone_held].
  intros Hl. destruct Hwf as [_ _ Hg Hroot]. destruct (transferred (estate_owner e)) eqn:Et, (closed (estate_owner e)) eqn:Ec;
    try by (destruct Hg as (_ & _ & E); [auto|lia]). by apply Hroot.
Qed.
