(* ===== verification/QuietFiles.v ===== *)
(** * A file system at rest

    A file system whose objects do not change while they are read: directories
    with their names and parents, regular files, symbolic links and the rest.
    What a path leads to, and what a scan should show of a directory, are
    functions of it that know no descriptors; the [World] at the end says how such
    a file system answers the calls of [SourceRoot]. *)
From ITree Require Import ITree.
From S2P Require Import Prelude Sorting GoText Paths SourceTree Effects SourceRoot SourceScan SourceDescriptors.

(** An object is its device and inode. *)
Abbreviation object := (Z * Z)%type.

Inductive node : Type :=
  | Directory (names : gmap string object) (parent : object)
  | Regular (bytes : Z)
  | Symlink (target : string)
  | Special.

Record filesystem : Type := MkFilesystem { nodes : gmap object node; top : object }.

Section Files.
Variable fs : filesystem.

Definition is_directory (o : object) : bool := match nodes fs !! o with Some (Directory _ _) => true | _ => false end.

(** What [name] is in the directory [p]: a link is not followed. *)
Definition object_at (p : object) (name : string) : option object :=
  match nodes fs !! p with
  | Some (Directory names parent) =>
      if bool_decide (name = ".") then Some p
      else if bool_decide (name = "..") then Some parent
      else names !! name
  | _ => None
  end.

Record filesystem_wf : Prop := {
  wf_top : is_directory (top fs) = true;
  wf_parent p names parent : nodes fs !! p = Some (Directory names parent) -> is_directory parent = true;
  wf_names p names parent name o :
    nodes fs !! p = Some (Directory names parent) -> names !! name = Some o ->
    proper_name name /\ has_char slash name = false /\ is_Some (nodes fs !! o);
  wf_device o : is_Some (nodes fs !! o) -> in_u 64 o.1;
  wf_bytes o bytes : nodes fs !! o = Some (Regular bytes) -> in_u 63 bytes;
  wf_target o target : nodes fs !! o = Some (Symlink target) -> slen target < 4096
}.

(** ** Path resolution *)
(** The object a path leads to, through at most [links] links, with the directory
    and the name by which it is reached: a directory is reached as itself. *)
Record destination : Type := MkDestination { reached_from : object; reached_as : string; reached : object }.

Fixpoint resolve_path (links : nat) : object -> list string -> option destination :=
  fix follow (p : object) (path : list string) : option destination :=
    match path with
    | [] => Some (MkDestination p "." p)
    | name :: rest =>
        if bool_decide (name = "") || bool_decide (name = ".") then follow p rest
        else
          o ← object_at p name;
          match nodes fs !! o with
          | Some (Directory _ _) => follow o rest
          | Some (Symlink target) =>
              match links with
              | O => None
              | S links => resolve_path links (if IsAbs target then top fs else p) (splitRelative target ++ rest)
              end
          | Some _ => match rest with [] => Some (MkDestination p name o) | _ => None end
          | None => None
          end
    end.

(** Forty links in a row at most, the first included. *)
Definition resolve_link (p : object) (target : string) : option destination :=
  resolve_path 39 (if IsAbs target then top fs else p) (splitRelative target).

(** The object an absolute path names: its last component is not followed. *)
Definition path_object (path : string) : option object :=
  if bool_decide (path = "/") then Some (top fs)
  else match rev (splitRelative path) with
       | name :: above => to ← resolve_path 40 (top fs) (rev above); object_at (reached to) name
       | [] => None
       end.

(** ** What a scan shows *)
(** The object that an entry of a directory stands for: [None] where that cannot
    be told, and no object where the entry is left out. *)
Definition entry_object (follow : bool) (p : object) (name : string) : option (option object) :=
  o ← object_at p name;
  match nodes fs !! o with
  | Some (Symlink target) =>
      if follow then
        to ← resolve_link p target;
        Some (match nodes fs !! reached to with Some Special => None | _ => Some (reached to) end)
      else Some None
  | Some Special => Some None
  | Some _ => Some (Some o)
  | None => None
  end.

#[warnings="-register-all"]
Inductive shown : Type :=
  | ShownDir (o : object) (children : list (string * shown))
  | ShownFile (o : object) (bytes : Z).

Definition entry_names (names : gmap string object) : list string := sort_by sltb (map_to_list names).*1.

Section Entries.
Variable follow : bool.
Variable below : object -> option shown.

Definition show_object (inside : gset object) (o : object) : option shown :=
  match nodes fs !! o with
  | Some (Directory _ _) => if bool_decide (o ∈ inside) then None else below o
  | Some (Regular bytes) => Some (ShownFile o bytes)
  | _ => None
  end.

Definition show_entry (inside : gset object) (p : object) (name : string) : option (option shown) :=
  included ← entry_object follow p name;
  match included with
  | None => Some None
  | Some o => Some <$> show_object inside o
  end.

Fixpoint show_entries (inside : gset object) (p : object) (names : list string) : option (list (string * shown)) :=
  match names with
  | [] => Some []
  | name :: names =>
      v ← show_entry inside p name;
      vs ← show_entries inside p names;
      Some (match v with Some v => (name, v) :: vs | None => vs end)
  end.
End Entries.

(** The tree below [p], met inside the directories [inside]; [None] where some
    entry cannot be resolved or leads back to a directory it is in. *)
Fixpoint show (fuel : nat) (follow : bool) (inside : gset object) (p : object) : option shown :=
  match fuel with
  | O => None
  | S fuel =>
      match nodes fs !! p with
      | Some (Directory names _) =>
          ShownDir p <$> show_entries follow (fun o => show fuel follow ({[o]} ∪ inside) o) inside p (entry_names names)
      | _ => None
      end
  end.

(** ** The answers *)
Definition node_kind (o : object) : Z :=
  match nodes fs !! o with
  | Some (Directory _ _) => sourceDirectoryObject
  | Some (Regular _) => sourceRegularObject
  | Some (Symlink _) => sourceSymlinkObject
  | _ => sourceSpecialObject
  end.

Definition identity_of (o : object) : sourceIdentity := MkIdentity o.1 o.2 (node_kind o).

Definition status_of (o : object) (st : Stat_t) : Prop :=
  Dev st = o.1 /\ Ino st = o.2 /\ sourceKind (Z.land (wrap 32 (Mode st)) S_IFMT) = node_kind o
  /\ forall bytes, nodes fs !! o = Some (Regular bytes) -> Size st = bytes.

(** No link is opened, and only a directory where one is asked for. *)
Definition opens_with (flags : list OpenFlag) (o : object) : bool :=
  match nodes fs !! o with
  | Some (Directory _ _) => true
  | Some (Symlink _) | None => false
  | Some _ => negb (existsb (fun f => match f with O_DIRECTORY => true | _ => false end) flags)
  end.

Definition opened_object {X} (e : SourceE X) (s : gmap Z object) : option object :=
  match e with
  | Open path flags => o ← path_object path; if opens_with flags o then Some o else None
  | Openat d name flags =>
      p ← s !! d; o ← object_at p name; if opens_with flags o then Some o else None
  | Dupfd d => s !! d
  | _ => None
  end.

Definition opened_as (s : gmap Z object) (o : option object) (r : result Z) : Prop :=
  match o with
  | Some _ => exists fd, r = Ok fd /\ 0 <= fd /\ s !! fd = None
  | None => exists e, r = Err e
  end.

Definition status_is (o : option object) (r : result Stat_t) : Prop :=
  match o with
  | Some o => exists st, r = Ok st /\ status_of o st
  | None => exists e, r = Err e
  end.

Definition quiet_answer {X} (e : SourceE X) : gmap Z object -> X -> Prop :=
  match e with
  | ContextErr => fun s x => x = None
  | Getpid | NewCapability => fun s x => True
  | Open _ _ as e => fun s x => opened_as s (opened_object e s) x
  | Openat _ _ _ as e => fun s x => opened_as s (opened_object e s) x
  | Dupfd _ as e => fun s x => opened_as s (opened_object e s) x
  | Lstat path => fun s x => status_is (path_object path) x
  | Fstatat d name => fun s x => status_is (p ← s !! d; object_at p name) x
  | Fstat d => fun s x => status_is (s !! d) x
  | Readlinkat d name room => fun s x =>
      match p ← s !! d; o ← object_at p name; nodes fs !! o with
      | Some (Symlink target) => x = Ok (stake (Z.to_nat room) target)
      | _ => exists e, x = Err e
      end
  | Readdirnames d => fun s x =>
      match p ← s !! d; nodes fs !! p with
      | Some (Directory names _) => x.1 ≡ₚ (map_to_list names).*1 /\ (x.2 = None \/ x.2 = Some ErrEOF)
      | _ => exists e, x = ([], Some e) /\ is_EOF e = false
      end
  | FileStat _ => fun s x => exists mtime, x = Ok mtime
  | CloseFile _ => fun s x => x = None
  end.

Definition quiet_world : World SourceE (gmap Z object) := {|
  may_call X e s := forall fd, uses e = Some fd -> is_Some (s !! fd);
  may_answer X e x s := quiet_answer e s x;
  after_call X e x s :=
    let s := match gives e x, opened_object e s with Some fd, Some o => <[fd := o]> s | _, _ => s end in
    match ends e with Some fd => delete fd s | None => s end;
  holds s := True
|}.
End Files.

(** ** What a snapshot says *)
(** The path of an entry below the root. *)
Definition path_of (names : list string) : string := Join names "/".

(** An entry shows an object: a file its size, a directory all that is shown of
    it, in order, and every backing reference leads to the object. *)
Inductive shows (leads : BackingReference -> object -> Prop) : list string -> shown -> SourceEntry -> Prop :=
  | shows_file ns o bytes f :
      relativePath f = path_of ns -> size f = bytes -> leads (backing f) o ->
      shows leads ns (ShownFile o bytes) (FileEntry f)
  | shows_dir ns o children b cs :
      leads b o -> Forall2 (fun v e => shows leads (ns ++ [v.1]) v.2 e) children cs ->
      shows leads ns (ShownDir o children) (DirEntry (path_of ns) b cs).

(** Down from a directory by names alone: no link is on the way. *)
Fixpoint descend (fs : filesystem) (p : object) (ns : list string) : option object :=
  match ns with
  | [] => Some p
  | n :: ns => o ← object_at fs p n; descend fs o ns
  end.

(** The reference of names below an anchor. *)
Definition path_name (n : string) : Prop := proper_name n /\ has_char slash n = false.
Definition backing_path (ns : list string) : string := match ns with [] => "." | _ => Join ns "/" end.

(** A backing reference leads to an object: by names below one of the anchors,
    which are [anchored] directories. *)
Definition leads (fs : filesystem) (anchored : list object) (b : BackingReference) (o : object) : Prop :=
  exists p ns, 0 <= anchor b /\ anchored !! Z.to_nat (anchor b) = Some p /\ is_directory fs p = true /\ Forall path_name ns
    /\ backingPath b = backing_path ns /\ descend fs p ns = Some o.

(** The descriptors are open on the objects. *)
Definition open_on (s : gmap Z object) : list Z -> list object -> Prop := Forall2 (fun fd o => s !! fd = Some o).

(** ** What a scan shows, as a tree

    Paths are lists of proper names, the entries that show a directory have
    distinct paths, and nothing is sorted or refused when they become a
    [SourceDirectory] and a snapshot. *)
Lemma path_names ns : Forall path_name ns -> Forall proper_name ns /\ Forall (fun n => has_char slash n = false) ns.
Proof. intros H. split; eapply Forall_impl; try exact H; by intros ? []. Qed.

Lemma split_path ns : ns <> [] -> Forall path_name ns -> splitRelative (path_of ns) = ns.
Proof. intros Hne [_ H]%path_names. by apply (split_Join slash). Qed.

Lemma path_normalized ns : ns <> [] -> Forall path_name ns -> normalizeRelativePath (path_of ns) = Ok (path_of ns).
Proof. intros Hne H. apply normalizeRelativePath_Ok. rewrite split_path by done. split; [done|by apply path_names]. Qed.

Lemma normalized_clean path out : normalizeRelativePath path = Ok out -> Clean path = path.
Proof.
  unfold normalizeRelativePath. cbv zeta. destruct (bool_decide (Clean path = path)) eqn:E; [by bool_to_prop|].
  rewrite orb_true_r. done.
Qed.

Lemma text_app_assoc a b c : (a +:+ b) +:+ c = a +:+ (b +:+ c).
Proof. induction a as [|x a IH]; [done|]. change (String x ((a +:+ b) +:+ c) = String x (a +:+ (b +:+ c))). by rewrite IH. Qed.

Lemma path_snoc ns n : ns <> [] -> path_of (ns ++ [n]) = path_of ns +:+ "/" +:+ n.
Proof.
  intros Hne. induction ns as [|m ns IH]; [done|]. destruct ns as [|m' ns]; [done|].
  change (path_of ((m :: m' :: ns) ++ [n])) with (m +:+ "/" +:+ path_of ((m' :: ns) ++ [n])).
  change (path_of (m :: m' :: ns)) with (m +:+ "/" +:+ path_of (m' :: ns)). rewrite IH by done. by rewrite !text_app_assoc.
Qed.

Lemma path_empty ns : Forall path_name ns -> path_of ns = "" <-> ns = [].
Proof.
  intros H. split; [|by intros ->]. intros E. destruct ns as [|n ns]; [done|].
  pose proof (split_path (n :: ns) ltac:(done) H) as Hs. rewrite E in Hs. injection Hs as <- _.
  by apply Forall_cons in H as [[(? & _) _] _].
Qed.

Lemma names_snoc ns n : Forall path_name ns -> path_name n -> Forall path_name (ns ++ [n]).
Proof. intros H Hn. apply Forall_app. split; [done|by constructor]. Qed.

Lemma snoc_not_nil {A} (l : list A) x : l ++ [x] <> [].
Proof. by destruct l. Qed.
#[export] Hint Resolve snoc_not_nil names_snoc : core.

Lemma filepath_Join_path ns n :
  ns <> [] -> Forall path_name ns -> path_name n -> filepath_Join (path_of ns) n = path_of (ns ++ [n]).
Proof.
  intros Hne H Hn. unfold filepath_Join. rewrite <- path_snoc by done.
  eapply normalized_clean, path_normalized; auto.
Qed.

Lemma joinRelative_path ns n : Forall path_name ns -> path_name n -> joinRelative (path_of ns) n = path_of (ns ++ [n]).
Proof.
  intros H Hn. unfold joinRelative. case_bool_decide as E.
  - apply path_empty in E as ->; done.
  - apply filepath_Join_path; try done. intros ->. done.
Qed.

Lemma joinBacking_path ns n : Forall path_name ns -> path_name n -> joinBacking (backing_path ns) n = backing_path (ns ++ [n]).
Proof.
  intros H Hn. unfold joinBacking. destruct ns as [|m ns]; [done|]. case_bool_decide as E.
  - pose proof (split_path (m :: ns) ltac:(done) H) as Hs. cbn [backing_path] in E. unfold path_of in Hs. rewrite E in Hs.
    injection Hs as <- <-. by apply Forall_cons in H as [[(_ & ? & _) _] _].
  - change (backing_path (m :: ns)) with (path_of (m :: ns)). by rewrite filepath_Join_path.
Qed.

Lemma Base_path ns n : Forall path_name ns -> path_name n -> Base (path_of (ns ++ [n])) = n.
Proof.
  intros H Hn. unfold Base. rewrite bool_decide_eq_false_2.
  2:{ intros E. apply path_empty in E; [by destruct ns|auto]. }
  rewrite split_path by auto. rewrite trim_slashes_proper by (apply path_names; auto). by rewrite last_snoc.
Qed.

Lemma newSourceFile_path ns bytes b :
  ns <> [] -> Forall path_name ns -> newSourceFile (path_of ns) bytes [b] = Ok (MkSourceFile (path_of ns) bytes b).
Proof. intros Hne H. unfold newSourceFile. by rewrite path_normalized. Qed.

(** ** Entries that show a directory *)
Section Shows.
Context (leads : BackingReference -> object -> Prop).

Lemma shows_path ns v e : shows leads ns v e -> entryPath e = path_of ns.
Proof. by destruct 1. Qed.

Lemma shows_leads (leads' : BackingReference -> object -> Prop) :
  (forall b o, leads b o -> leads' b o) -> forall e ns v, shows leads ns v e -> shows leads' ns v e.
Proof.
  intros Hl. induction e as [p b cs IH|f] using SourceEntry_nested_ind; intros ns v H.
  - inversion H as [|? o vs ? ? Hb Hcs]; subst. constructor; [auto|]. clear Hb H. induction Hcs as [|v e vs cs Hv Hcs IHcs]; [constructor|].
    apply Forall_cons in IH as [IH1 IH2]. constructor; auto.
  - inversion H; subst. constructor; auto.
Qed.

(** Proper names, in strict order, all the way down. *)
Inductive neat : shown -> Prop :=
  | neat_file o bytes : neat (ShownFile o bytes)
  | neat_dir o vs :
      Forall (fun v => path_name v.1 /\ neat v.2) vs -> StronglySorted (fun a b => sltb a b = true) vs.*1 ->
      neat (ShownDir o vs).

Lemma path_of_inj ns ms : Forall path_name ns -> Forall path_name ms -> path_of ns = path_of ms -> ns = ms.
Proof.
  intros Hn Hm E. destruct (decide (ns = [])) as [->|Hne].
  - symmetry. apply (path_empty ms Hm). by rewrite <- E.
  - assert (ms <> []) by (intros ->; apply Hne, (path_empty ns Hn), E).
    by rewrite <- (split_path ns), <- (split_path ms), E by done.
Qed.

(** The path of an entry and the paths below it are those of the names and of
    the names that go on from there, each once. *)
Definition paths_from (ns : list string) (paths : list string) : Prop :=
  NoDup paths /\ forall q, q ∈ paths -> exists ms, q = path_of (ns ++ ms) /\ Forall path_name ms.

Lemma children_paths ns vs cs :
  Forall path_name ns -> Forall2 (fun v e => shows leads (ns ++ [v.1]) v.2 e) vs cs ->
  Forall2 (fun v e => path_name v.1 /\ paths_from (ns ++ [v.1]) (entry_paths e).*1) vs cs ->
  StronglySorted (fun a b => sltb a b = true) vs.*1 ->
  NoDup (mjoin (entry_paths <$> cs)).*1
  /\ forall q, q ∈ (mjoin (entry_paths <$> cs)).*1 ->
       exists v ms, v ∈ vs.*1 /\ q = path_of (ns ++ v :: ms) /\ Forall path_name (v :: ms).
Proof.
  intros Hns _ Hp Hs. induction Hp as [|v e vs cs [Hv [Hnd Hq]] Hp IH]; [split; [constructor|set_solver]|].
  rewrite fmap_cons in Hs. inversion Hs as [|? ? Hs' Hlt]; subst. destruct (IH Hs') as [Hnd' Hq'].
  rewrite fmap_cons, mjoin_cons, fmap_app. split.
  - apply NoDup_app. split_and!; [done| |done]. intros q H1 H2. destruct (Hq q H1) as (ms & -> & Hms).
    destruct (Hq' _ H2) as (w & ms' & Hw & E & Hms'). rewrite <- app_assoc in E. apply path_of_inj in E.
    + apply app_inv_head in E. injection E as E _. rewrite Forall_forall in Hlt. specialize (Hlt w Hw). rewrite E in Hlt.
      by rewrite sltb_irrefl in Hlt.
    + apply Forall_app. split; [done|]. by constructor.
    + apply Forall_app. by split.
  - intros q [H1|H2]%elem_of_app.
    + destruct (Hq q H1) as (ms & -> & Hms). exists v.1, ms. split_and!; [by left|by rewrite <- app_assoc|by constructor].
    + destruct (Hq' q H2) as (w & ms & Hw & H). exists w, ms. split; [by right|done].
Qed.

Lemma shows_paths e : forall ns v, Forall path_name ns -> neat v -> shows leads ns v e -> paths_from ns (entry_paths e).*1.
Proof.
  induction e as [p b cs IH|f] using SourceEntry_nested_ind; intros ns v Hns Hv H.
  - inversion H as [|? o vs ? ? Hb Hcs]; subst. inversion Hv as [|? ? Hneat Hsorted]; subst.
    assert (Forall2 (fun v e => path_name v.1 /\ paths_from (ns ++ [v.1]) (entry_paths e).*1) vs cs) as Hp.
    { clear Hb H Hv Hsorted. induction Hcs as [|v e vs cs Hv Hcs IHcs]; [constructor|]. apply Forall_cons in IH as [IH1 IH2].
      apply Forall_cons in Hneat as [[Hn1 Hn2] Hneat]. constructor; [|by apply IHcs]. split; [done|]. apply (IH1 _ v.2); auto. }
    destruct (children_paths ns vs cs Hns Hcs Hp Hsorted) as [Hnd Hq].
    cbn [entry_paths]. rewrite fmap_cons. split.
    + constructor; [|done]. intros Hin. destruct (Hq _ Hin) as (w & ms & _ & E & Hms). apply path_of_inj in E; [|done|by apply Forall_app].
      rewrite <- (app_nil_r ns) in E at 1. by apply app_inv_head in E.
    + intros q [->|Hin]%elem_of_cons; [exists []; by rewrite app_nil_r|]. destruct (Hq q Hin) as (w & ms & _ & -> & Hms). by eexists.
  - inversion H; subst. cbn. split; [apply NoDup_singleton|]. intros q ->%list_elem_of_singleton. exists []. by rewrite app_nil_r.
Qed.
End Shows.

(** ** Directories and snapshots *)
Lemma shown_order leads ns vs cs :
  Forall path_name ns -> Forall (fun v => path_name v.1 /\ neat v.2) vs -> Forall2 (fun v e => shows leads (ns ++ [v.1]) v.2 e) vs cs ->
  entryName <$> cs = vs.*1.
Proof.
  intros Hns Hv H. induction H as [|v e vs cs Hs H IH]; [done|]. apply Forall_cons in Hv as [[Hn _] Hv].
  rewrite !fmap_cons, IH by done. f_equal. unfold entryName. rewrite (shows_path _ _ _ _ Hs). by apply Base_path.
Qed.

Lemma StronglySorted_weaken {A} (R S : A -> A -> Prop) l : (forall x y, R x y -> S x y) -> StronglySorted R l -> StronglySorted S l.
Proof. intros H. induction 1 as [|x l Hl IH Hx]; constructor; [done|]. eapply Forall_impl; [exact Hx|]. auto. Qed.

Lemma sorted_children cs :
  StronglySorted (fun a b => sltb a b = true) (entryName <$> cs) -> sort_by name_less cs = cs /\ repeated_child cs = None.
Proof.
  intros H. apply StronglySorted_fmap_inv in H. split.
  - apply sort_by_id. eapply StronglySorted_weaken; [|exact H]. intros x y Hxy. unfold not_after, name_less. by apply sltb_asym.
  - induction H as [|x cs Hs IH Hx]; [done|]. destruct cs as [|y cs]; [done|]. cbn [repeated_child].
    rewrite bool_decide_eq_false_2; [done|]. intros E. apply Forall_cons in Hx as [Hx _]. rewrite E in Hx. by rewrite sltb_irrefl in Hx.
Qed.

Lemma newSourceDirectory_shown leads ns vs cs b :
  Forall path_name ns -> Forall (fun v => path_name v.1 /\ neat v.2) vs -> StronglySorted (fun a b => sltb a b = true) vs.*1 ->
  Forall2 (fun v e => shows leads (ns ++ [v.1]) v.2 e) vs cs ->
  newSourceDirectory (path_of ns) b cs = Ok (MkDirectory (path_of ns) b cs).
Proof.
  intros Hns Hv Hs Hc. rewrite <- (shown_order leads ns vs cs Hns Hv Hc) in Hs. destruct (sorted_children cs Hs) as [E1 E2].
  unfold newSourceDirectory. case_bool_decide as Ep; cbn [negb rbind]; [by rewrite E1, E2|].
  rewrite path_normalized by (done || by intros ->). cbn [rbind]. by rewrite E1, E2.
Qed.

(** ** What is shown of a file system *)
Lemma StronglySorted_sublist {A} (R : A -> A -> Prop) l l' : l `sublist_of` l' -> StronglySorted R l' -> StronglySorted R l.
Proof.
  induction 1 as [|x l l' Hs IH|x l l' Hs IH]; intros H; [done|..]; inversion H as [|? ? Hl Hx]; subst; [|by apply IH].
  constructor; [by apply IH|]. rewrite Forall_forall in *. intros y Hy. apply Hx. by eapply elem_of_sublist.
Qed.

Section Shown.
Context (fs : filesystem) (Hfs : filesystem_wf fs).

Lemma entry_names_elem names n : n ∈ entry_names names <-> is_Some (names !! n).
Proof using.
  unfold entry_names. rewrite (sort_by_perm sltb), list_elem_of_fmap. split.
  - intros ([n' o] & -> & H%elem_of_map_to_list). by eexists.
  - intros [o H]. exists (n, o). split; [done|]. by apply elem_of_map_to_list.
Qed.

Lemma entry_names_sorted names : StronglySorted (fun a b => sltb a b = true) (entry_names names).
Proof using.
  apply (strictly_sorted (fun x => x)).
  - rewrite list_fmap_id. unfold entry_names. rewrite (sort_by_perm sltb). apply NoDup_fst_map_to_list.
  - apply (sort_by_sorted sltb).
Qed.

Lemma entry_names_proper p names parent :
  nodes fs !! p = Some (Directory names parent) -> Forall path_name (entry_names names).
Proof using Hfs.
  intros Hp. apply Forall_forall. intros n [o Ho]%entry_names_elem. destruct (wf_names fs Hfs _ _ _ _ _ Hp Ho) as (? & ? & _). by split.
Qed.

Lemma show_entries_neat follow below inside p names vs :
  (forall o v, below o = Some v -> neat v) -> Forall path_name names ->
  show_entries fs follow below inside p names = Some vs ->
  Forall (fun v => path_name v.1 /\ neat v.2) vs /\ vs.*1 `sublist_of` names.
Proof using.
  intros Hb Hn. revert vs. induction Hn as [|n names Hn Hns IH]; intros vs; cbn [show_entries]; [by intros [= <-]|].
  intros (v & Hv & (vs' & Hvs & [= <-])%bind_Some)%bind_Some. destruct (IH _ Hvs) as [H1 H2].
  destruct v as [v|]; [|split; [done|by apply sublist_cons]]. split; [|rewrite fmap_cons; by apply sublist_skip].
  constructor; [|done]. split; [done|]. unfold show_entry in Hv. apply bind_Some in Hv as ([o|] & _ & Hv); [|done].
  apply fmap_Some in Hv as (v' & Hv & [= <-]). unfold show_object in Hv. destruct (nodes fs !! o) as [[]|]; try done.
  - case_bool_decide; [done|]. by eapply Hb.
  - injection Hv as <-. constructor.
Qed.

Lemma show_neat fuel follow : forall inside p v, show fs fuel follow inside p = Some v -> neat v.
Proof using Hfs.
  induction fuel as [|fuel IH]; intros inside p v; cbn [show]; [done|].
  destruct (nodes fs !! p) as [[names parent| | |]|] eqn:Hp; try done. intros (vs & Hvs & ->)%fmap_Some.
  destruct (show_entries_neat _ _ _ _ _ _ (fun o v Ho => IH _ _ _ Ho) (entry_names_proper _ _ _ Hp) Hvs) as [H1 H2].
  constructor; [done|]. eapply StronglySorted_sublist; [exact H2|apply entry_names_sorted].
Qed.

(** ** Backing references *)
Lemma descend_app p ns ms : descend fs p (ns ++ ms) = (o ← descend fs p ns; descend fs o ms).
Proof using. revert p. induction ns as [|n ns IH]; intros p; [done|]. cbn. destruct (object_at fs p n); [apply IH|done]. Qed.

Lemma leads_snoc objs b p name o :
  leads fs objs b p -> object_at fs p name = Some o -> path_name name ->
  leads fs objs (MkBacking (anchor b) (joinBacking (backingPath b) name)) o.
Proof using.
  intros (q & ns & H0 & Hq & Hdir & Hns & Hb & Hd) Ho Hn. exists q, (ns ++ [name]). cbn. split_and!; try done.
  - auto.
  - rewrite Hb. by apply joinBacking_path.
  - rewrite descend_app, Hd. cbn. by rewrite Ho.
Qed.

Lemma leads_more objs more b o : leads fs objs b o -> leads fs (objs ++ more) b o.
Proof using. intros (q & ns & H0 & Hq & H). exists q, ns. split_and!; try done; [by apply lookup_app_l_Some|apply H..]. Qed.

Lemma leads_anchor objs p : is_directory fs p = true -> leads fs (objs ++ [p]) (MkBacking (zlen objs) ".") p.
Proof using.
  intros Hp. exists p, []. cbn. split_and!; try done; [apply zlen_nonneg|].
  unfold zlen. rewrite Nat2Z.id, lookup_app_r, Nat.sub_diag by lia. done.
Qed.

Lemma leads_anchor_name objs p name o :
  object_at fs p name = Some o -> path_name name -> leads fs (objs ++ [p]) (MkBacking (zlen objs) name) o.
Proof using.
  intros Ho Hn. assert (is_directory fs p = true) as Hp.
  { unfold object_at in Ho. unfold is_directory. by destruct (nodes fs !! p) as [[]|]. }
  apply (leads_snoc _ (MkBacking (zlen objs) ".") p name o (leads_anchor objs p Hp) Ho Hn).
Qed.
End Shown.
