(* ===== verification/QuietWalk.v ===== *)
(** * Following a link on a file system at rest

    What the functions of [filesystem_unix.go] return there: an identity names its
    object.  The walk of [symlink.go] ends, and where the path of the link leads;
    the flag that asks for a directory after a final slash never decides anything. *)
From ITree Require Import ITree.
From S2P Require Import Prelude Sorting GoText Paths SourceTree Effects SourceRoot SourceScan QuietFiles.

Lemma exists_descriptor (s : gmap Z object) : exists fd, 0 <= fd /\ s !! fd = None.
Proof.
  destruct (exist_fresh (set_map (D := gset nat) Z.to_nat (dom s))) as [n Hn]. exists (Z.of_nat n). split; [lia|].
  apply not_elem_of_dom. intros H. apply Hn. apply elem_of_map. exists (Z.of_nat n). by rewrite Nat2Z.id.
Qed.

(** The mode bits of a kind. *)
Lemma sourceKind_values : sourceKind S_IFDIR = 1 /\ sourceKind S_IFREG = 2 /\ sourceKind S_IFLNK = 3 /\ sourceKind 0 = 4.
Proof. done. Qed.

(** Text cut to a buffer. *)
Lemma slen_stake n s : slen (stake n s) = Z.min (Z.of_nat n) (slen s).
Proof. unfold stake. rewrite slen_text_of. unfold slen, zlen. rewrite length_take. lia. Qed.

Lemma stake_whole n s : slen s <= Z.of_nat n -> stake n s = s.
Proof. intros H. unfold stake. rewrite take_ge by (unfold slen, zlen in H; lia). apply text_of_bytes_of. Qed.

#[local] Instance swo_sltb : StrictWeakOrder sltb := swo_string (fun x => x).

(** Names sort to the same list in whatever order they are read. *)
Lemma sort_names_perm l l' : l ≡ₚ l' -> sort_by sltb l = sort_by sltb l'.
Proof.
  intros H. apply (sort_by_unique sltb).
  - by rewrite (sort_by_perm sltb l).
  - apply (sort_by_sorted sltb).
  - intros x y _ _ H1 H2. by apply sltb_total.
Qed.

Section Quiet.
Context (fs : filesystem) (Hfs : filesystem_wf fs).
#[local] Existing Instance quiet_world.
#[local] Instance files_world : World SourceE (gmap Z object) := quiet_world fs.

Lemma exists_status o : exists st, status_of fs o st.
Proof using.
  set (mode := match nodes fs !! o with
    | Some (Directory _ _) => S_IFDIR | Some (Regular _) => S_IFREG | Some (Symlink _) => S_IFLNK | _ => 0 end).
  exists (MkStat o.1 o.2 mode (match nodes fs !! o with Some (Regular bytes) => bytes | _ => 0 end)).
  unfold status_of, node_kind, mode. destruct (nodes fs !! o) as [[]|]; split_and!; try done; intros ? [= <-]; done.
Qed.

Lemma node_kind_known o n : nodes fs !! o = Some n ->
  node_kind fs o = match n with
    | Directory _ _ => sourceDirectoryObject | Regular _ => sourceRegularObject | Symlink _ => sourceSymlinkObject
    | Special => sourceSpecialObject end.
Proof using. unfold node_kind. by intros ->. Qed.

Lemma status_identity o st : is_Some (nodes fs !! o) -> status_of fs o st -> identityFromStat st = identity_of fs o.
Proof using Hfs.
  intros Ho (E1 & E2 & E3 & _). unfold identityFromStat, identity_of. rewrite E1, E2, E3. f_equal.
  apply wrap_small. by apply (wf_device fs Hfs).
Qed.

Lemma identity_inj o o' : identity_of fs o = identity_of fs o' -> o = o'.
Proof using. destruct o, o'. by intros [= -> ->]. Qed.

Lemma object_at_known p name o : object_at fs p name = Some o -> is_Some (nodes fs !! o).
Proof using Hfs.
  unfold object_at. destruct (nodes fs !! p) as [[names parent| | |]|] eqn:Ep; try done.
  case_bool_decide; [intros [= <-]; by eexists|]. case_bool_decide.
  - intros [= <-]. apply (wf_parent fs Hfs) in Ep. unfold is_directory in Ep. destruct (nodes fs !! parent); [by eexists|done].
  - intros H'. by eapply (wf_names fs Hfs).
Qed.

(** ** Answers *)
Definition finds {A} (s : gmap Z object) (o : option object) (f : object -> A) (r : result A) (s' : gmap Z object) : Prop :=
  s' = s /\ match o with Some o => r = Ok (f o) | None => exists e, r = Err e end.

Definition opened (s : gmap Z object) (o : option object) (r : result Z) (s' : gmap Z object) : Prop :=
  match o with
  | Some o => exists fd, r = Ok fd /\ s !! fd = None /\ s' = <[fd := o]> s
  | None => s' = s /\ exists e, r = Err e
  end.

Lemma finds_ok {A} s o (f : object -> A) a s' : finds s o f (Ok a) s' -> s' = s /\ exists x, o = Some x /\ a = f x.
Proof using. intros [-> H]. destruct o as [x|]; [|by destruct H]. simplify_eq. eauto. Qed.

Lemma total_open s (e : SourceE (result Z)) o :
  may_call e s -> (forall r, may_answer e r s <-> opened_as s o r) ->
  (forall r, after_call e r s = match r, o with Ok fd, Some o => <[fd := o]> s | _, _ => s end) ->
  total s (do* fd := call e in wrapSourceDescriptor fd) (opened s o).
Proof using.
  intros Hc Ha Hs. apply total_bind with (R := fun r s' => opened_as s o r /\ s' = after_call e r s).
  - apply total_call; [done| |]. 2: intros r Hr; by rewrite <- Ha.
    destruct o as [o|]; [|by exists (Err ErrEOF); apply Ha; eexists].
    destruct (exists_descriptor s) as (fd & H0 & Hf). exists (Ok fd). apply Ha. by exists fd.
  - intros r s' [Ho ->]. rewrite Hs. destruct o as [o|]; cbn in Ho.
    + destruct Ho as (fd & -> & H0 & Hf). unfold wrapSourceDescriptor. rewrite (proj2 (Z.ltb_ge _ _)) by done.
      apply total_ret. by exists fd.
    + destruct Ho as [e' ->]. apply total_ret. split; [done|by eexists].
Qed.

Section Calls.
Context (s : gmap Z object) (d : Z) (p : object) (Hd : s !! d = Some p).

Lemma uses_d (fd : Z) : Some d = Some fd -> is_Some (s !! fd).
Proof using Hd. intros [= <-]. by eexists. Qed.

Lemma total_openat name flags :
  total s (do* fd := call (Openat d name flags) in wrapSourceDescriptor fd)
    (opened s (o ← object_at fs p name; if opens_with fs flags o then Some o else None)).
Proof using Hd.
  apply total_open; [exact uses_d| |]; intros r; cbn; rewrite Hd; cbn; [done|].
  by destruct r; [|destruct (object_at fs p name) as [o|]; cbn; [destruct (opens_with fs flags o)|]].
Qed.

Lemma total_directory_at name : total s (openSourceDirectoryAt d name) (opened s (o ← object_at fs p name; if is_directory fs o then Some o else None)).
Proof using Hd.
  eapply total_mono; [apply total_openat|]. intros r s'.
  assert (forall o, opens_with fs directory_flags o = is_directory fs o) as H.
  { intros o. unfold opens_with, is_directory. by destruct (nodes fs !! o) as [[]|]. }
  destruct (object_at fs p name) as [o|]; [|done]. cbn [mbind option_bind]. by rewrite H.
Qed.

Lemma total_regular_at name o bytes :
  object_at fs p name = Some o -> nodes fs !! o = Some (Regular bytes) -> total s (openSourceRegularAt d name) (opened s (Some o)).
Proof using Hd.
  intros Ho Hn. eapply total_mono; [apply total_openat|]. intros r s'. rewrite Ho. cbn [mbind option_bind].
  unfold opens_with. by rewrite Hn.
Qed.

Lemma total_duplicate : total s (duplicateSourceDescriptor d) (opened s (Some p)).
Proof using Hd. apply total_open; [exact uses_d| |]; intros r; cbn; rewrite Hd; [done|by destruct r]. Qed.

Lemma total_open_path path :
  total s (openSourceDirectoryPath path) (opened s (o ← path_object fs path; if is_directory fs o then Some o else None)).
Proof using.
  assert (forall o, opens_with fs directory_flags o = is_directory fs o) as H.
  { intros o. unfold opens_with, is_directory. by destruct (nodes fs !! o) as [[]|]. }
  assert (opened_object fs (Open path directory_flags) s = (o ← path_object fs path; if is_directory fs o then Some o else None)) as <-.
  { unfold opened_object. destruct (path_object fs path) as [o|]; [|done]. cbn [mbind option_bind]. by rewrite H. }
  apply total_open; [by intros|done|]. intros r. by destruct r, (opened_object fs (Open path directory_flags) s) eqn:E; cbn in E |- *; rewrite ?E.
Qed.

Lemma total_top : total s (openSourceDirectoryPath "/") (opened s (Some (top fs))).
Proof using Hfs.
  eapply total_mono; [apply total_open_path|]. intros r s'. unfold path_object. cbn [bool_decide_eq_true_2 mbind option_bind].
  rewrite bool_decide_eq_true_2 by done. cbn [mbind option_bind]. by rewrite (wf_top fs Hfs).
Qed.

Lemma total_fstat (f : object -> Stat_t -> Prop) :
  total s (call (Fstat d)) (fun r s' => s' = s /\ exists st, r = Ok st /\ status_of fs p st).
Proof using Hd.
  apply total_call; [exact uses_d| |]; cbn; rewrite Hd.
  - destruct (exists_status p) as [st Hst]. exists (Ok st), st. by split.
  - intros r (st & -> & Hst). split; [done|]. by exists st.
Qed.

Lemma total_inspect : is_Some (nodes fs !! p) -> total s (inspectDescriptor d) (fun r s' => s' = s /\ r = Ok (identity_of fs p)).
Proof using Hd Hfs.
  intros Hp. apply (total_bind _ _ _ _ _ (total_fstat (fun _ _ => True))). intros r s' (-> & st & -> & Hst).
  apply total_ret. by rewrite (status_identity p).
Qed.

Lemma total_inspect_regular bytes :
  nodes fs !! p = Some (Regular bytes) ->
  total s (inspectOpenedRegular d) (fun r s' => s' = s /\ r = Ok (identity_of fs p, bytes)).
Proof using Hd Hfs.
  intros Hp. apply (total_bind _ _ _ _ _ (total_fstat (fun _ _ => True))). intros r s' (-> & st & -> & Hst).
  pose proof (wf_bytes fs Hfs _ _ Hp) as [Hb1 Hb2]. rewrite (status_identity p) by (done || by eexists).
  destruct Hst as (_ & _ & _ & H4). rewrite (H4 _ Hp). cbv zeta. cbn [kind identity_of]. rewrite (node_kind_known _ _ Hp), Z.eqb_refl, (proj2 (Z.ltb_ge _ _)) by done.
  apply total_ret. split; [done|]. do 2 f_equal. apply wrap_small. unfold in_u. lia.
Qed.

Lemma total_stat_at name : total s (statSourceAt d name) (finds s (object_at fs p name) (identity_of fs)).
Proof using Hd Hfs.
  apply total_bind with (R := fun r s' => s' = s /\ status_is fs (object_at fs p name) r).
  - apply total_call; [exact uses_d| |]; cbn; rewrite Hd; cbn.
    + destruct (object_at fs p name) as [o|]; cbn; [|by exists (Err ErrEOF); eexists].
      destruct (exists_status o) as [st Hst]. exists (Ok st), st. by split.
    + done.
  - intros r s' [-> Hr]. unfold status_is in Hr. destruct (object_at fs p name) as [o|] eqn:Ho.
    + destruct Hr as (st & -> & Hst). apply total_ret. split; [done|].
      by rewrite (status_identity o) by (by eapply object_at_known || done).
    + destruct Hr as [e ->]. apply total_ret. split; [done|by eexists].
Qed.

End Calls.

Section Checks.
Context (s : gmap Z object) (d : Z) (p : object) (Hd : s !! d = Some p).

Lemma total_readlink name o target :
  object_at fs p name = Some o -> nodes fs !! o = Some (Symlink target) ->
  total s (readSourceSymlinkAt d name) (fun r s' => s' = s /\ r = Ok target).
Proof using Hd Hfs.
  intros Ho Hn. pose proof (wf_target fs Hfs _ _ Hn) as Ht. unfold readSourceSymlinkAt.
  assert (forall n size, 256 <= size <= 4096 -> size * 2 ^ Z.of_nat n = 4096 ->
    total s (ITree.iter (read_symlink_step d name) size) (fun r s' => s' = s /\ r = Ok target)) as H; [|by apply (H 4%nat)].
  induction n as [|n IH]; intros size Hsize H2; apply total_iter; unfold read_symlink_step;
    rewrite (proj2 (Z.leb_le size (2 ^ 20))) by lia;
    (apply total_bind with (R := fun r s' => s' = s /\ r = Ok (stake (Z.to_nat size) target));
      [apply total_call; [exact (uses_d s d p Hd)| |]; cbn; rewrite Hd; cbn; rewrite Ho; cbn; rewrite Hn; [by eexists|done]|]);
    intros ? ? [-> ->]; rewrite slen_stake by lia.
  - change (2 ^ Z.of_nat 0) with 1 in H2. rewrite (proj2 (Z.ltb_lt _ _)) by lia.
    apply total_ret. split; [done|]. by rewrite stake_whole by lia.
  - destruct (Z.ltb_spec (slen target) size).
    + rewrite (proj2 (Z.ltb_lt _ _)) by lia. apply total_ret. split; [done|]. by rewrite stake_whole by lia.
    + rewrite (proj2 (Z.ltb_ge _ _)) by lia. apply total_ret. rewrite Nat2Z.inj_succ, Z.pow_succ_r in H2 by lia.
      assert (0 < 2 ^ Z.of_nat n) by (apply Z.pow_pos_nonneg; lia). apply IH; nia.
Qed.

Lemma total_link name o target :
  object_at fs p name = Some o -> nodes fs !! o = Some (Symlink target) ->
  total s (readObservedSourceSymlink d name (identity_of fs o)) (fun r s' => s' = s /\ r = Ok target).
Proof using Hd Hfs.
  intros Ho Hn. unfold readObservedSourceSymlink. cbn [kind identity_of]. rewrite (node_kind_known _ _ Hn), Z.eqb_refl. cbn [negb].
  assert (forall B message (k : sourceIdentity -> source_io (result B)) Q, total s (k (identity_of fs o)) Q ->
    total s (do! r := statSourceAt d name in do* x := lift (expect r (fun i => bool_decide (i = identity_of fs o)) message) in k x) Q) as Hstat.
  { intros B message k Q Hk. apply (total_bind _ _ _ _ _ (total_stat_at s d p Hd name)). intros r s' [-> Hr]. rewrite Ho in Hr. subst r.
    cbn [expect]. rewrite bool_decide_eq_true_2 by done. apply total_bind with (R := fun r s' => r = Ok (identity_of fs o) /\ s' = s);
      [by apply total_ret|]. by intros ? ? [-> ->]. }
  apply Hstat. apply (total_bind_ok _ _ _ _ _ (total_readlink name o target Ho Hn)); [|by intros ? ? [_ [=]]].
  intros ? ? [-> [= ->]]. apply Hstat. by apply total_ret.
Qed.

Lemma total_start target :
  total s (symlinkStartingDirectory d target) (opened s (Some (if IsAbs target then top fs else p))).
Proof using Hd Hfs. unfold symlinkStartingDirectory. destruct (IsAbs target); [apply total_top|apply (total_duplicate s d p Hd)]. Qed.

Lemma total_observed_directory name o :
  object_at fs p name = Some o -> is_directory fs o = true ->
  total s (openObservedSourceDirectory d name (identity_of fs o)) (opened s (Some o)).
Proof using Hd Hfs.
  intros Ho Hn. unfold openObservedSourceDirectory.
  apply total_bind_ok with (R := opened s (Some o)).
  - eapply total_mono; [apply (total_directory_at s d p Hd)|]. intros r s'. rewrite Ho. cbn. by rewrite Hn.
  - intros fd s' (fd' & [= <-] & Hf & ->).
    apply (total_bind _ _ _ _ _ (total_inspect (<[fd := o]> s) fd o ltac:(apply lookup_insert_eq) ltac:(by eapply object_at_known))).
    intros ? ? [-> ->]. cbn [expect]. rewrite bool_decide_eq_true_2 by done. apply total_ret. by exists fd.
  - by intros e s' (fd' & [=] & _).
Qed.

(** ** Closing *)
Lemma total_close_fresh {A} fd o (t : source_io A) (Q : A -> gmap Z object -> Prop) :
  total (<[fd := o]> s) t (fun a s' => s' !! fd = Some o /\ Q a (delete fd s')) -> total (<[fd := o]> s) (closing fd t) Q.
Proof using.
  intros H. apply (total_bind _ _ _ _ _ H). intros a s' [Hf HQ].
  apply total_bind with (R := fun _ s' => Q a s').
  - apply total_call; [intros ? [= <-]; by eexists|by exists None|]. intros x _. exact HQ.
  - intros _ s'' HQ'. by apply total_ret.
Qed.

(** ** Names *)
Lemma total_names names parent :
  nodes fs !! p = Some (Directory names parent) ->
  total s (readSourceNames d) (fun r s' => s' = s /\ r = Ok (entry_names names)).
Proof using Hd.
  intros Hn. unfold readSourceNames.
  assert (object_at fs p "." = Some p) as Ho by (unfold object_at; by rewrite Hn).
  assert (is_directory fs p = true) as Hdir by (unfold is_directory; by rewrite Hn).
  apply total_bind_ok with (R := opened s (Some p)).
  - eapply total_mono; [apply (total_directory_at s d p Hd)|]. intros r s'. rewrite Ho. cbn. by rewrite Hdir.
  - intros fd s' (fd' & [= <-] & Hf & ->). apply total_close_fresh.
    apply total_bind with (R := fun x s' => s' = <[fd := p]> s /\ x.1 ≡ₚ (map_to_list names).*1 /\ (x.2 = None \/ x.2 = Some ErrEOF)).
    + apply total_call; [intros ? [= <-]; rewrite lookup_insert_eq; by eexists| |];
        cbn; rewrite lookup_insert_eq; cbn; rewrite Hn; [|done]. exists ((map_to_list names).*1, None). by split; [|left].
    + intros [found err] ? (-> & Hp & He). cbn in Hp, He. apply total_ret. rewrite lookup_insert_eq. split; [done|].
      rewrite delete_insert_id by done. split; [done|]. unfold entry_names. rewrite <- (sort_names_perm _ _ Hp). by destruct He as [-> | ->].
  - by intros e s' (fd' & [=] & _).
Qed.

Lemma total_verify relative names parent observed :
  nodes fs !! p = Some (Directory names parent) ->
  (forall name o, names !! name = Some o -> object_at fs p name = Some o) ->
  observed = identity_of fs <$> names ->
  total s (verifySourceNames d relative observed) (fun r s' => s' = s /\ r = None).
Proof using Hd Hfs.
  intros Hn Hat ->. apply (total_bind _ _ _ _ _ (total_names names parent Hn)). intros ? ? [-> ->].
  assert (zlen (entry_names names) = Z.of_nat (base.size (identity_of fs <$> names))) as ->.
  { unfold entry_names, zlen. rewrite (sort_by_length sltb), length_fmap, length_map_to_list. by rewrite map_size_fmap. }
  rewrite Z.eqb_refl. cbn [negb].
  assert (Forall (fun n => is_Some (names !! n)) (entry_names names)) as Hall.
  { apply Forall_forall. intros n Hin. unfold entry_names in Hin. rewrite (sort_by_perm sltb) in Hin.
    apply list_elem_of_fmap in Hin as ([n' o] & -> & Hin). apply elem_of_map_to_list in Hin. by eexists. }
  induction Hall as [|n ns [o Ho] _ IH]; cbn [verify_names]; [by apply total_ret|].
  rewrite lookup_fmap, Ho. cbn [fmap option_fmap option_map].
  apply (total_bind _ _ _ _ _ (total_stat_at s d p Hd n)). intros r s' [-> Hr]. rewrite (Hat _ _ Ho) in Hr. subst r.
  cbn [expect]. by rewrite bool_decide_eq_true_2.
Qed.
End Checks.
End Quiet.

(** ** Final slashes *)
Lemma last_split_slash t : ends_with_slash t = true -> last (splitRelative t) = Some "".
Proof.
  unfold ends_with_slash, splitRelative. induction t as [|a t IH]; [done|]. cbn [String.list_ascii_of_string split_on].
  destruct t as [|b t].
  - cbn. unfold slash. intros H. by rewrite H.
  - cbn [String.list_ascii_of_string] in *. rewrite last_cons_cons. intros H. specialize (IH H).
    destruct (split_on_cons slash (String b t)) as (c & cs & E). rewrite E in *.
    destruct (Ascii.eqb a slash); [by rewrite last_cons_cons|]. destruct cs; [|done]. exfalso.
    injection IH as ->. revert E. cbn [split_on]. destruct (split_on_cons slash t) as (c' & cs' & ->).
    destruct (Ascii.eqb b slash); by intros [=].
Qed.

(** A walk that must end in a directory has a final empty component ahead, or
    has just passed it. *)
Definition slash_ahead (walk : sourceSymlinkWalk) : Prop :=
  requireDirectory walk = true -> components walk = [] \/ last (components walk) = Some "".

Lemma slash_ahead_next walk c rest :
  slash_ahead walk -> components walk = c :: rest -> slash_ahead (set_components rest walk).
Proof.
  intros H Ec Hr. destruct (H Hr) as [E|E]; rewrite Ec in E; [done|]. cbn. destruct rest as [|c' rest]; [by left|right].
  by rewrite last_cons_cons in E.
Qed.

Lemma slash_ahead_final walk c : slash_ahead walk -> components walk = [c] -> c <> "" -> requireDirectory walk = false.
Proof.
  intros H Ec Hc. apply not_true_iff_false. intros Hr. destruct (H Hr) as [E|E]; rewrite Ec in E; [done|].
  cbn in E. congruence.
Qed.

Lemma slash_ahead_splice walk c rest target links :
  slash_ahead walk -> components walk = c :: rest -> c <> "" ->
  slash_ahead (splice (set_components rest walk) target links).
Proof.
  intros H Ec Hc Hr. right. cbn in *. destruct rest as [|c' rest].
  - rewrite app_nil_r, bool_decide_eq_true_2 in * by done. rewrite (slash_ahead_final walk c H Ec Hc) in Hr. by apply last_split_slash.
  - rewrite bool_decide_eq_false_2, orb_false_r in Hr by done. destruct (H Hr) as [E|E]; rewrite Ec in E; [done|].
    rewrite last_cons_cons in E. rewrite last_app. by rewrite E.
Qed.

Section Walk.
Context (fs : filesystem) (Hfs : filesystem_wf fs).
#[local] Instance walk_world : World SourceE (gmap Z object) := quiet_world fs.

Lemma total_close {A} s fd o (k : source_io A) (Q : A -> gmap Z object -> Prop) :
  s !! fd = Some o -> total (delete fd s) k Q -> total s (do! _ := call (CloseFile fd) in k) Q.
Proof using.
  intros Hf Hk. apply total_bind with (R := fun x s' => x = None /\ s' = delete fd s).
  - apply total_call; [intros ? [= <-]; by eexists|by exists None|]. by intros x ->.
  - by intros ? ? [-> ->].
Qed.

Lemma is_directory_known o : is_directory fs o = true -> exists names parent, nodes fs !! o = Some (Directory names parent).
Proof using. unfold is_directory. destruct (nodes fs !! o) as [[]|]; try done. eauto. Qed.

Lemma directory_known o : is_directory fs o = true -> is_Some (nodes fs !! o).
Proof using. intros (names & parent & ->)%is_directory_known. by eexists. Qed.

Lemma directory_kind o : node_kind fs o =? sourceDirectoryObject = is_directory fs o.
Proof using. unfold node_kind, is_directory. by destruct (nodes fs !! o) as [[]|]. Qed.

Definition is_special (o : object) : bool := match nodes fs !! o with Some Special => true | _ => false end.

Lemma is_special_known o n : nodes fs !! o = Some n -> is_special o = match n with Special => true | _ => false end.
Proof using. unfold is_special. by intros ->. Qed.

(** The walk's descriptor, if it still has one, is open beside [s]. *)
Definition walk_open (s : gmap Z object) (walk : sourceSymlinkWalk) (s' : gmap Z object) : Prop :=
  match directory walk with
  | Some fd => s !! fd = None /\ exists p, s' = <[fd := p]> s
  | None => s' = s
  end.

(** A target stands for the object that was reached; its anchor is where it was
    reached from. *)
Definition target_of (s : gmap Z object) (to : destination) (target : resolvedSourceTarget) (s' : gmap Z object) : Prop :=
  target_identity target = identity_of fs (reached to) /\ target_kind target = node_kind fs (reached to)
  /\ target_name target = reached_as to
  /\ (forall bytes, nodes fs !! reached to = Some (Regular bytes) -> target_size target = bytes)
  /\ exists fd, target_anchor target = Some fd /\ s !! fd = None /\ s' = <[fd := reached_from to]> s.

Definition resolved (s : gmap Z object) (to : option destination) (r : result resolvedSourceTarget)
    (walk : sourceSymlinkWalk) (s' : gmap Z object) : Prop :=
  match to with
  | None => (exists e, r = Err e) /\ walk_open s walk s'
  | Some to =>
      exists target, r = Ok target /\
        if is_special (reached to)
        then target_kind target = sourceSpecialObject /\ target_anchor target = None /\ walk_open s walk s'
        else directory walk = None /\ target_of s to target s'
  end.

Section Turn.
Context (s : gmap Z object) (fd : Z) (p : object) (walk : sourceSymlinkWalk).
Context (Hfd : s !! fd = None) (Hw : directory walk = Some fd) (Hp : is_directory fs p = true).

Lemma walk_reads : (<[fd := p]> s) !! walk_fd walk = Some p.
Proof using Hw. unfold walk_fd. rewrite Hw. apply lookup_insert_eq. Qed.

Lemma walk_stays : walk_open s walk (<[fd := p]> s).
Proof using Hfd Hw. unfold walk_open. rewrite Hw. eauto. Qed.

Lemma total_replace new o :
  (<[fd := p]> s) !! new = None ->
  total (<[new := o]> (<[fd := p]> s)) (replaceDirectory walk new)
    (fun r s' => r = (None, set_directory (Some new) walk) /\ s !! new = None /\ s' = <[new := o]> s).
Proof using Hfd Hw.
  intros Hn. apply lookup_insert_None in Hn as [Hn Hne]. unfold replaceDirectory, close_walk. rewrite Hw.
  apply total_bind with (R := fun x s' => x = None /\ s' = <[new := o]> s).
  - apply total_call; [intros ? [= <-]; rewrite lookup_insert_ne, lookup_insert_eq by done; by eexists|by exists None|].
    intros x ->. cbn. split; [done|]. rewrite delete_insert_ne by done. f_equal. by rewrite delete_insert_id.
  - intros ? ? [-> ->]. by apply total_ret.
Qed.

Lemma total_enter name o :
  object_at fs p name = Some o -> is_directory fs o = true ->
  total (<[fd := p]> s) (enterDirectory walk name (identity_of fs o))
    (fun r s' => exists new, r = (None, set_directory (Some new) walk) /\ s !! new = None /\ s' = <[new := o]> s).
Proof using Hfd Hw Hfs.
  intros Ho Hd. unfold enterDirectory. cbn [kind identity_of]. rewrite directory_kind, Hd. cbn [negb].
  apply (total_bind _ _ _ _ _ (total_observed_directory fs Hfs _ _ _ walk_reads name o Ho Hd)).
  intros r s' (new & -> & Hn & ->). eapply total_mono; [by apply total_replace|]. intros r s' ?. by exists new.
Qed.

Lemma total_current :
  total (<[fd := p]> s) (resolveCurrentDirectory walk)
    (fun r s' => resolved s (Some (MkDestination p "." p)) r.1 r.2 s').
Proof using Hfd Hw Hp Hfs.
  apply (total_bind _ _ _ _ _ (total_inspect fs Hfs _ _ _ walk_reads (directory_known _ Hp))). intros ? ? [-> ->].
  cbn [expect]. cbn [kind identity_of]. rewrite directory_kind, Hp. apply total_ret. eexists; split; [done|].
  destruct (is_directory_known p Hp) as (names & parent & En). cbn [reached]. rewrite (is_special_known _ _ En).
  split; [done|]. unfold target_of. cbn. rewrite Hw, (node_kind_known _ _ _ En), En. split_and!; [done..|by intros ? [=]|eauto].
Qed.

Lemma total_final name o :
  object_at fs p name = Some o -> node_kind fs o <> sourceSymlinkObject -> requireDirectory walk = false ->
  total (<[fd := p]> s) (resolveFinalEntry walk name (identity_of fs o))
    (fun r s' => resolved s
       (Some (if is_directory fs o then MkDestination o "." o else MkDestination p name o)) r.1 r.2 s').
Proof using Hfd Hw Hfs.
  intros Ho Hk Hr. unfold resolveFinalEntry. cbn [kind identity_of]. rewrite directory_kind.
  destruct (object_at_known fs Hfs _ _ _ Ho) as [n Hn]. destruct (is_directory fs o) eqn:Hd.
  - apply (total_bind _ _ _ _ _ (total_observed_directory fs Hfs _ _ _ walk_reads name o Ho Hd)).
    intros r s' (new & -> & Hnew & ->). apply (total_bind _ _ _ _ _ (total_replace new o Hnew)).
    intros ? ? (-> & Hs & ->). apply total_ret. eexists; split; [done|]. destruct (is_directory_known o Hd) as (names & parent & En).
    cbn [reached]. rewrite (is_special_known _ _ En). split; [done|]. unfold target_of. cbn.
    rewrite (node_kind_known _ _ _ En), En. split_and!; [done..|by intros ? [=]|eauto].
  - rewrite (node_kind_known _ _ _ Hn) in *. unfold is_directory in Hd. rewrite Hn in Hd.
    destruct n as [names parent|bytes|target|]; [done| |done|].
    + cbn [Z.eqb sourceRegularObject Pos.eqb]. unfold resolveRegularFile. rewrite Hr.
      apply (total_bind _ _ _ _ _ (total_regular_at fs _ _ _ walk_reads name o bytes Ho Hn)).
      intros r s' (file & -> & Hf & ->).
      apply (total_bind _ _ _ _ _ (total_inspect_regular fs Hfs (<[file := o]> (<[fd := p]> s)) file o ltac:(apply lookup_insert_eq) bytes Hn)).
      intros ? ? [-> ->]. apply total_bind with (R := fun x s' => x = None /\ s' = <[fd := p]> s).
      { apply total_call; [intros ? [= <-]; rewrite lookup_insert_eq; by eexists|by exists None|].
        intros x ->. split; [done|]. cbn. by rewrite delete_insert_id. }
      intros ? ? [-> ->]. unfold check_opened. rewrite !bool_decide_eq_true_2 by done. apply total_ret. eexists; split; [done|].
      cbn [reached]. rewrite (is_special_known _ _ Hn). split; [done|]. unfold target_of. cbn.
      rewrite Hw, (node_kind_known _ _ _ Hn), Hn. split_and!; [done..|by intros ? [= ->]|eauto].
    + cbn [Z.eqb sourceSpecialObject sourceRegularObject Pos.eqb]. rewrite Hr. apply total_ret. eexists; split; [done|].
      cbn [reached]. rewrite (is_special_known _ _ Hn). split_and!; [done|done|apply walk_stays].
Qed.
End Turn.

Lemma total_nested s fd p walk name o target :
  s !! fd = None -> directory walk = Some fd -> object_at fs p name = Some o -> nodes fs !! o = Some (Symlink target) ->
  followedLinks walk < 40 ->
  total (<[fd := p]> s) (followNestedSymlink walk name (identity_of fs o))
    (fun r s' => exists new walk', r = (None, walk') /\ directory walk' = Some new /\ s !! new = None
       /\ s' = <[new := if IsAbs target then top fs else p]> s /\ followedLinks walk' = followedLinks walk + 1
       /\ components walk' = splitRelative target ++ components walk
       /\ requireDirectory walk' = requireDirectory (splice walk target 0)).
Proof using Hfs.
  intros Hfd Hw Ho Hn Hlinks. unfold followNestedSymlink, maximumSourceSymlinkDepth. rewrite (proj2 (Z.leb_gt _ _)) by done.
  apply (total_bind _ _ _ _ _ (total_link fs Hfs _ _ _ (walk_reads s fd p walk Hw) name o target Ho Hn)).
  intros ? ? [-> ->]. destruct (IsAbs target) eqn:Ha.
  - apply (total_bind _ _ _ _ _ (total_top fs Hfs (<[fd := p]> s))). intros r s' (new & -> & Hnew & ->).
    apply (total_bind _ _ _ _ _ (total_replace s fd p walk Hfd Hw new (top fs) Hnew)). intros ? ? (-> & Hs & ->).
    apply total_ret. eexists new, _. split_and!; try done.
  - apply total_ret. eexists fd, _. split_and!; done.
Qed.

Lemma resolve_path_nil links p : resolve_path fs links p [] = Some (MkDestination p "." p).
Proof using. by destruct links. Qed.

Lemma resolve_path_cons links p c rest :
  resolve_path fs links p (c :: rest) =
  if bool_decide (c = "") || bool_decide (c = ".") then resolve_path fs links p rest
  else
    o ← object_at fs p c;
    match nodes fs !! o with
    | Some (Directory _ _) => resolve_path fs links o rest
    | Some (Symlink target) =>
        match links with
        | O => None
        | S links => resolve_path fs links (if IsAbs target then top fs else p) (splitRelative target ++ rest)
        end
    | Some _ => match rest with [] => Some (MkDestination p c o) | _ => None end
    | None => None
    end.
Proof using. by destruct links. Qed.

Definition resolves (links : nat) (path : list string) : Prop :=
  forall s walk fd p,
    followedLinks walk = 40 - Z.of_nat links -> components walk = path -> slash_ahead walk ->
    s !! fd = None -> directory walk = Some fd -> is_directory fs p = true ->
    total (<[fd := p]> s) (resolve walk) (fun r s' => resolved s (resolve_path fs links p path) r.1 r.2 s').

(** The loop after a turn that goes on. *)
Lemma total_continue links path s0 (t : source_io (option error * sourceSymlinkWalk)) s p :
  resolves links path ->
  total s0 t (fun r s' => exists fd walk, r = (None, walk) /\ directory walk = Some fd /\ s !! fd = None /\ s' = <[fd := p]> s
    /\ followedLinks walk = 40 - Z.of_nat links /\ components walk = path /\ slash_ahead walk /\ is_directory fs p = true) ->
  total s0 (do! r := t in Ret (continue_walk r))
    (fun r s' => match r with
       | inl walk => total s' (ITree.iter resolve_step walk) (fun r s' => resolved s (resolve_path fs links p path) r.1 r.2 s')
       | inr r => resolved s (resolve_path fs links p path) r.1 r.2 s' end).
Proof using.
  intros IH H. apply (total_bind _ _ _ _ _ H). intros r s' (fd & walk & -> & Hw & Hf & -> & Hl & Hc & Hs & Hp).
  apply total_ret. by apply IH.
Qed.

(** A component that is neither a directory nor a link ends the path. *)
Lemma total_leaf s fd p walk walk' c rest o :
  s !! fd = None -> directory walk' = Some fd -> components walk = c :: rest -> walk' = set_components rest walk ->
  slash_ahead walk -> c <> "" -> object_at fs p c = Some o -> is_directory fs o = false ->
  node_kind fs o <> sourceSymlinkObject ->
  total (<[fd := p]> s)
    (if node_kind fs o =? sourceSymlinkObject then
       do! r := followNestedSymlink walk' c (identity_of fs o) in Ret (continue_walk r)
     else if negb (bool_decide (components walk' = [])) || bool_decide (c = "..") then
       do! r := enterDirectory walk' c (identity_of fs o) in Ret (continue_walk r)
     else do! r := resolveFinalEntry walk' c (identity_of fs o) in Ret (inr r))
    (fun r s' => exists r', r = inr r' /\
       resolved s (match rest with [] => Some (MkDestination p c o) | _ => None end) r'.1 r'.2 s').
Proof using Hfs.
  intros Hfd Hw' Hc Hwalk' Hslash Hne Ho Hdir Hk. rewrite (proj2 (Z.eqb_neq _ _)) by done.
  destruct (negb (bool_decide (components walk' = [])) || bool_decide (c = "..")) eqn:Em.
  - assert (rest <> []) as Hrest.
    { bool_to_prop. subst walk'. cbn in Em. destruct Em as [Em|Em]; bool_to_prop; [done|]. subst c. exfalso.
      unfold object_at in Ho. destruct (nodes fs !! p) as [[names parent| | |]|] eqn:Ep; try done. injection Ho as <-.
      pose proof (wf_parent fs Hfs _ _ _ Ep). congruence. }
    unfold enterDirectory. cbn [kind identity_of]. rewrite directory_kind, Hdir. cbn [negb].
    eapply total_bind with (R := fun r s' => (exists e, r = (Some e, walk')) /\ s' = <[fd := p]> s); [apply total_ret; eauto|].
    intros ? ? [[e ->] ->]. apply total_ret. eexists; split; [done|]. destruct rest; [done|]. split; [by eexists|by apply walk_stays].
  - bool_to_prop. subst walk'. cbn [components set_components] in *. subst rest.
    apply (total_bind _ _ _ _ _ (total_final s fd p (set_components [] walk) Hfd Hw' c o Ho Hk (slash_ahead_final walk c Hslash Hc Hne))).
    intros r s' Hr. rewrite Hdir in Hr. apply total_ret. by eexists.
Qed.

Lemma resolves_turn links c rest :
  (forall l, links = S l -> forall path, resolves l path) -> resolves links rest -> resolves links (c :: rest).
Proof using Hfs.
  intros IHl IHrest s walk fd p Hl Hc Hslash Hfd Hw Hp. apply total_iter. unfold resolve_step, nextComponent. rewrite Hc.
  pose proof (slash_ahead_next walk c rest Hslash Hc) as Hslash'. set (walk' := set_components rest walk) in *.
  assert (Hw' : directory walk' = Some fd) by done. rewrite resolve_path_cons.
  destruct (bool_decide (c = "") || bool_decide (c = ".")) eqn:Ec; [apply total_ret; by apply IHrest|]. bool_to_prop.
  apply (total_bind _ _ _ _ _ (total_stat_at fs Hfs _ _ _ (walk_reads s fd p walk' Hw') c)). intros r s' [-> Hr].
  destruct (object_at fs p c) as [o|] eqn:Ho; cbn [mbind option_bind].
  2:{ destruct Hr as [e ->]. apply total_ret. split; [by eexists|by apply walk_stays]. }
  subst r. cbn [kind identity_of]. destruct (object_at_known fs Hfs _ _ _ Ho) as [n Hn].
  destruct n as [names parent|bytes|target|]; rewrite Hn.
  - assert (is_directory fs o = true) as Hdir by (unfold is_directory; by rewrite Hn). rewrite (node_kind_known _ _ _ Hn). cbn [Z.eqb Pos.eqb sourceDirectoryObject sourceSymlinkObject].
    destruct (negb (bool_decide (components walk' = [])) || bool_decide (c = "..")) eqn:Em.
    + apply (total_continue links rest _ _ s o IHrest).
      eapply total_mono; [by apply (total_enter s fd p walk' Hfd Hw' c o Ho)|]. cbn beta.
      intros r s' (new & -> & Hnew & ->). eexists new, _. split_and!; done.
    + bool_to_prop. cbn [components walk' set_components] in *. subst rest.
      apply (total_bind _ _ _ _ _ (total_final s fd p walk' Hfd Hw' c o Ho ltac:(by rewrite (node_kind_known _ _ _ Hn)) (slash_ahead_final walk c Hslash Hc ltac:(done)))).
      intros r s' Hr. rewrite Hdir in Hr. rewrite resolve_path_nil. by apply total_ret.
  - eapply total_mono; [apply (total_leaf s fd p walk walk' c rest o); try done; [unfold is_directory; by rewrite Hn|by rewrite (node_kind_known _ _ _ Hn)]|].
    by intros ? s' (r & -> & Hr).
  - rewrite (node_kind_known _ _ _ Hn). cbn [Z.eqb Pos.eqb sourceSymlinkObject]. destruct links as [|links].
    + unfold followNestedSymlink, maximumSourceSymlinkDepth. cbn [followedLinks walk' set_components]. rewrite (proj2 (Z.leb_le _ _)) by lia.
      apply total_bind with (R := fun r s' => (exists e, r = (Some e, walk')) /\ s' = <[fd := p]> s); [apply total_ret; eauto|].
      intros ? ? [[e ->] ->]. apply total_ret. split; [by eexists|by apply walk_stays].
    + apply (total_continue links (splitRelative target ++ rest) _ _ s (if IsAbs target then top fs else p)); [by apply IHl|].
      eapply total_mono; [apply (total_nested s fd p walk' c o target Hfd Hw' Ho Hn); cbn; lia|]. cbn beta.
      intros r s' (new & walk2 & -> & Hd & Hnew & -> & Hf & Hcs & Hreq). exists new, walk2. split_and!; try done.
      * cbn in Hf. lia.
      * pose proof (slash_ahead_splice walk c rest target 0 Hslash Hc ltac:(done)) as Hsp. intros Hr. rewrite Hcs. apply Hsp. fold walk'. by rewrite <- Hreq.
      * destruct (IsAbs target); [apply Hfs|done].
  - eapply total_mono; [apply (total_leaf s fd p walk walk' c rest o); try done; [unfold is_directory; by rewrite Hn|by rewrite (node_kind_known _ _ _ Hn)]|].
    by intros ? s' (r & -> & Hr).
Qed.

Lemma resolve_total links path : resolves links path.
Proof using Hfs.
  revert path. induction links as [|links IHl]; induction path as [|c rest IHp]; try (apply resolves_turn; [|done]; by intros l [= <-]);
    intros s walk fd p Hl Hc Hslash Hfd Hw Hp; apply total_iter; unfold resolve_step, nextComponent; rewrite Hc, resolve_path_nil;
    apply (total_bind _ _ _ _ _ (total_current s fd p walk Hfd Hw Hp)); intros r s' Hr; by apply total_ret.
Qed.

(** What following a link returns: the anchor stays open. *)
Definition link_resolved (s : gmap Z object) (to : option destination) (r : result resolvedSourceTarget)
    (s' : gmap Z object) : Prop :=
  match to with
  | None => s' = s /\ exists e, r = Err e
  | Some to =>
      exists target, r = Ok target /\
        if is_special (reached to) then target_kind target = sourceSpecialObject /\ target_anchor target = None /\ s' = s
        else target_of s to target s'
  end.

Lemma total_resolve_link s d p name o target :
  s !! d = Some p -> object_at fs p name = Some o -> nodes fs !! o = Some (Symlink target) ->
  total s (resolveSourceSymlink d name (identity_of fs o)) (link_resolved s (resolve_link fs p target)).
Proof using Hfs.
  intros Hd Ho Hn. assert (is_directory fs p = true) as Hp.
  { unfold object_at in Ho. unfold is_directory. by destruct (nodes fs !! p) as [[]|]. }
  unfold resolveSourceSymlink. apply (total_bind_ok _ _ _ _ _ (total_link fs Hfs s d p Hd name o target Ho Hn)); [|by intros ? ? [_ [=]]].
  intros ? ? [-> [= ->]]. set (start := if IsAbs target then top fs else p).
  apply total_bind_ok with (R := fun r s' => exists fd, r = Ok (MkLinkWalk (Some fd) (splitRelative target) (ends_with_slash target) 1)
    /\ s !! fd = None /\ s' = <[fd := start]> s).
  { apply (total_bind_ok _ _ _ _ _ (total_start fs Hfs s d p Hd target)); [|by intros ? ? (? & [=] & _)].
    intros fd s' (fd' & [= <-] & Hf & ->). apply total_ret. by exists fd. }
  2:{ by intros ? ? (? & [=] & _). }
  intros walk s' (fd & [= ->] & Hf & ->).
  assert (is_directory fs start = true) as Hstart by (unfold start; destruct (IsAbs target); [apply Hfs|done]).
  eapply total_bind; [apply (resolve_total 39 (splitRelative target) s _ fd start); try done|].
  { intros H. right. by apply last_split_slash. }
  intros [r walk] s' Hr. cbn [fst snd] in Hr. change (resolve_path fs 39 start (splitRelative target)) with (resolve_link fs p target) in Hr.
  destruct (directory walk) as [fd'|] eqn:Ew.
  - assert (exists q, s !! fd' = None /\ s' = <[fd' := q]> s) as (q & Hf' & ->).
    { unfold resolved, walk_open in Hr. rewrite Ew in Hr. destruct (resolve_link fs p target) as [to|].
      - destruct Hr as (t & -> & Hr). destruct (is_special (reached to)); [destruct Hr as (_ & _ & ? & q & ?); by exists q|by destruct Hr].
      - destruct Hr as (_ & ? & q & ?). by exists q. }
    apply total_bind with (R := fun x s' => x = None /\ s' = s).
    { apply total_call; [intros ? [= <-]; rewrite lookup_insert_eq; by eexists|by exists None|].
      intros x ->. split; [done|]. cbn. by rewrite delete_insert_id. }
    intros ? ? [-> ->]. apply total_ret. unfold link_resolved, resolved in *. destruct (resolve_link fs p target) as [to|].
    + destruct Hr as (t & -> & Hr). exists t. split; [done|]. destruct (is_special (reached to)); [destruct Hr as (? & ? & _); auto|]. destruct Hr. congruence.
    + destruct Hr as [[e ->] _]. split; [done|]. by eexists.
  - apply total_ret. unfold link_resolved, resolved, walk_open in *. rewrite Ew in Hr. destruct (resolve_link fs p target) as [to|].
    + destruct Hr as (t & -> & Hr). exists t. split; [done|]. destruct (is_special (reached to)); [done|by destruct Hr].
    + by destruct Hr as [? ->].
Qed.
End Walk.
