(* ===== verification/QuietScan.v ===== *)
(** * Scanning a file system at rest

    With as much fuel as there are objects a scan returns, and what it returns is
    what [show] says of the directory: the same names, sizes and objects, or an
    error exactly where [show] has none, unless the owner has no room for another
    anchor. *)
From ITree Require Import ITree.
From S2P Require Import Prelude Sorting GoText Paths SourceTree Allocation Effects SourceRoot SourceScan SourceDescriptors QuietFiles QuietWalk.

Section Scan.
Context (fs : filesystem) (Hfs : filesystem_wf fs) (follow : bool).
#[local] Instance files_world : World SourceE (gmap Z object) := quiet_world fs.

(** ** What a step leaves *)
Definition adds (sc : sourceScanner) (s : gmap Z object) (added : list (Z * object)) (sc' : sourceScanner) (s' : gmap Z object) : Prop :=
  ancestors sc' = ancestors sc /\ owner sc' = add_anchors added.*1 (owner sc) /\ s' = list_to_map added ∪ s
  /\ NoDup added.*1 /\ Forall (fun fd => s !! fd = None) added.*1.

Definition full (sc : sourceScanner) : Prop := maximumAnchors <= zlen (anchors (owner sc)).

(** A result against what is shown. *)
Definition outcome {V A} (rel : V -> A -> Prop) (sc : sourceScanner) (v : option V) (r : result A) : Prop :=
  match v, r with
  | Some v, Ok a => rel v a
  | Some _, Err _ => full sc
  | None, Err _ => True
  | None, Ok _ => False
  end.

Definition scan_total {V A} (s : gmap Z object) (sc : sourceScanner) (m : scan A) (rel : list (Z * object) -> V -> A -> Prop)
    (v : option V) : Prop :=
  total s (m sc) (fun r s' => exists added, adds sc s added r.2 s' /\ outcome (rel added) r.2 v r.1).

(** The scanner and its owner, with the objects of the anchors. *)
Definition ready (inside : gset object) (objs : list object) (sc : sourceScanner) : Prop :=
  ancestors sc = set_map (identity_of fs) inside /\ zlen objs = 1 + zlen (anchors (owner sc))
  /\ transferred (owner sc) = false /\ closed (owner sc) = false /\ is_Some (root (owner sc)).

Lemma known_key (l : list (Z * object)) fd o : (list_to_map l : gmap Z object) !! fd = Some o -> fd ∈ l.*1.
Proof using. intros H%elem_of_list_to_map_2. by apply (list_elem_of_fmap_2 fst) in H. Qed.

Lemma adds_nil sc s sc' : ancestors sc' = ancestors sc -> owner sc' = owner sc -> adds sc s [] sc' s.
Proof using.
  intros Ha Ho. split; [done|]. rewrite add_anchors_nil. cbn. rewrite (left_id_L ∅ (∪)). split_and!; [done|done|constructor|constructor].
Qed.

Lemma adds_trans sc s l1 sc1 s1 l2 sc2 s2 : adds sc s l1 sc1 s1 -> adds sc1 s1 l2 sc2 s2 -> adds sc s (l1 ++ l2) sc2 s2.
Proof using.
  intros (Ha1 & Ho1 & -> & Hn1 & Hf1) (Ha2 & Ho2 & -> & Hn2 & Hf2). unfold adds. rewrite fmap_app, Ho2, Ho1, add_anchors_app.
  rewrite Forall_forall in Hf1, Hf2.
  assert (forall fd, fd ∈ l2.*1 -> fd ∉ l1.*1 /\ s !! fd = None) as Hd.
  { intros fd Hfd. specialize (Hf2 fd Hfd). apply lookup_union_None in Hf2 as [H1 H2]. split; [|done]. by apply not_elem_of_list_to_map in H1. }
  split_and!; [congruence|done| | |].
  - rewrite list_to_map_app, <- (assoc_L (∪)). rewrite (assoc_L (∪) (list_to_map l2)), (assoc_L (∪) (list_to_map l1)). f_equal.
    apply map_union_comm. apply map_disjoint_spec. intros fd x y H1 H2.
    apply known_key in H1, H2. destruct (Hd fd) as [Hn _]; done.
  - apply NoDup_app. split_and!; [done|intros fd H1 H2; by apply (Hd fd H2)|done].
  - apply Forall_forall. intros fd [H|H]%elem_of_app; [auto|by apply Hd].
Qed.

Lemma adds_lookup sc s l sc' s' fd o : adds sc s l sc' s' -> s !! fd = Some o -> s' !! fd = Some o.
Proof using.
  intros (_ & _ & -> & _ & Hf) Hs. rewrite lookup_union_r; [done|]. apply not_elem_of_list_to_map. intros Hin.
  rewrite Forall_forall in Hf. specialize (Hf fd Hin). congruence.
Qed.

Lemma adds_open sc s l sc' s' : adds sc s l sc' s' -> open_on s' l.*1 l.*2.
Proof using.
  intros (_ & _ & -> & Hn & _). apply Forall2_same_length_lookup. split; [by rewrite !length_fmap|]. intros i fd o Hfd Ho.
  apply list_lookup_fmap_Some in Hfd as ([fd1 o1] & -> & Ei). apply list_lookup_fmap_Some in Ho as ([fd2 o2] & -> & E2). simplify_eq. cbn.
  apply lookup_union_Some_l. apply elem_of_list_to_map_1; [done|]. by eapply list_elem_of_lookup_2.
Qed.

Lemma adds_closing fd o sc s l sc' s' :
  s !! fd = None -> adds sc (<[fd := o]> s) l sc' s' -> s' !! fd = Some o /\ adds sc s l sc' (delete fd s').
Proof using.
  intros Hfd H. split; [eapply adds_lookup; [exact H|apply lookup_insert_eq]|]. destruct H as (Ha & Ho & -> & Hn & Hf).
  assert (forall x, x ∈ l.*1 -> x <> fd /\ s !! x = None) as Hx.
  { intros x Hin. rewrite Forall_forall in Hf. specialize (Hf x Hin). apply lookup_insert_None in Hf. naive_solver. }
  split_and!; [done|done| |done|apply Forall_forall; intros x Hin; by apply Hx].
  rewrite delete_union, delete_insert_id by done. f_equal. apply delete_id. apply not_elem_of_list_to_map.
  intros Hin. by destruct (Hx _ Hin).
Qed.

Lemma ready_adds inside objs sc s l sc' s' : ready inside objs sc -> adds sc s l sc' s' -> ready inside (objs ++ l.*2) sc'.
Proof using.
  intros (H1 & H2 & H3 & H4 & H5) (Ha & Ho & _). unfold ready. rewrite Ha, Ho. cbn. split_and!; try done.
  unfold zlen in *. rewrite !length_app, !length_fmap. lia.
Qed.

Lemma full_adds sc s l sc' s' : adds sc s l sc' s' -> full sc -> full sc'.
Proof using. intros (_ & Ho & _). unfold full. rewrite Ho. cbn. unfold zlen. rewrite length_app. lia. Qed.

(** ** Steps *)
Section Steps.
Context {A B V W : Type}.

Lemma known_step s sc (t : source_io (result A)) a (k : A -> scan B) Q :
  total s t (fun r s' => s' = s /\ r = Ok a) -> total s (k a sc) Q -> total s (scan_bind (scan_io t) k sc) Q.
Proof using.
  intros Ht Hk. apply total_bind with (R := fun r s' => r = (Ok a, sc) /\ s' = s); [|by intros ? ? [-> ->]].
  apply (total_bind _ _ _ _ _ Ht). intros ? ? [-> ->]. by apply total_ret.
Qed.

Lemma known_wrapped s sc message (t : source_io (result A)) a (k : A -> scan B) Q :
  total s t (fun r s' => s' = s /\ r = Ok a) -> total s (k a sc) Q ->
  total s (scan_bind (scan_wrapping message (scan_io t)) k sc) Q.
Proof using.
  intros Ht Hk. apply total_bind with (R := fun r s' => r = (Ok a, sc) /\ s' = s); [|by intros ? ? [-> ->]].
  apply total_bind with (R := fun r s' => r = (Ok a, sc) /\ s' = s); [|by intros ? ? [-> ->]; apply total_ret].
  apply (total_bind _ _ _ _ _ Ht). intros ? ? [-> ->]. by apply total_ret.
Qed.

Lemma return_step s sc (a : A) (k : A -> scan B) Q : total s (k a sc) Q -> total s (scan_bind (scan_return (Ok a)) k sc) Q.
Proof using. intros Hk. apply total_bind with (R := fun r s' => r = (Ok a, sc) /\ s' = s); [by apply total_ret|by intros ? ? [-> ->]]. Qed.

Lemma read_step s sc (f : sourceScanner -> A) (k : A -> scan B) Q : total s (k (f sc) sc) Q -> total s (scan_bind (scan_read f) k sc) Q.
Proof using. intros Hk. apply total_bind with (R := fun r s' => r = (Ok (f sc), sc) /\ s' = s); [by apply total_ret|by intros ? ? [-> ->]]. Qed.

Lemma put_step s sc f (k : unit -> scan B) Q : total s (k tt (f sc)) Q -> total s (scan_bind (scan_put f) k sc) Q.
Proof using. intros Hk. apply total_bind with (R := fun r s' => r = (Ok tt, f sc) /\ s' = s); [by apply total_ret|by intros ? ? [-> ->]]. Qed.

(** A step that returns what it knows. *)
Lemma known_total s sc sc' (rel : list (Z * object) -> V -> A -> Prop) v (r : result A) :
  ancestors sc' = ancestors sc -> owner sc' = owner sc -> outcome (rel []) sc' v r ->
  total s (Ret (r, sc')) (fun r s' => exists added, adds sc s added r.2 s' /\ outcome (rel added) r.2 v r.1).
Proof using. intros Ha Ho Hr. apply total_ret. exists []. split; [by apply adds_nil|done]. Qed.

(** A step inside a file of its own. *)
Lemma open_step s sc message (t : source_io (result Z)) o (k : Z -> scan A) (rel : list (Z * object) -> V -> A -> Prop) v :
  total s t (opened s (Some o)) ->
  (forall fd, s !! fd = None -> scan_total (<[fd := o]> s) sc (k fd) rel v) ->
  scan_total s sc (let+ fd := scan_wrapping message (scan_io t) in scan_closing fd (k fd)) rel v.
Proof using.
  intros Ht Hk. apply total_bind with (R := fun r s' => exists fd, r = (Ok fd, sc) /\ s !! fd = None /\ s' = <[fd := o]> s).
  { apply total_bind with (R := fun r s' => exists fd, r = (Ok fd, sc) /\ s !! fd = None /\ s' = <[fd := o]> s).
    - apply (total_bind _ _ _ _ _ Ht). intros r s' (fd & -> & Hf & ->). apply total_ret. by exists fd.
    - intros ? s' (fd & -> & Hf & ->). apply total_ret. by exists fd. }
  intros ? s' (fd & -> & Hf & ->). apply total_close_fresh. eapply total_mono; [by apply Hk|].
  intros r s' (added & Ha & Ho). destruct (adds_closing fd o sc s added r.2 s' Hf Ha) as [H1 H2]. split; [done|]. by exists added.
Qed.
End Steps.

(** ** Entries *)
Definition entry_rel (objs : list object) (ns : list string) (added : list (Z * object)) : option shown -> option SourceEntry -> Prop :=
  option_Forall2 (shows (leads fs (objs ++ added.*2)) ns).

Definition directory_rel (objs : list object) (ns : list string) (added : list (Z * object)) (v : shown) (d : SourceDirectory) : Prop :=
  shows (leads fs (objs ++ added.*2)) ns v (directoryEntry d).

Lemma ancestor_known inside objs sc o : ready inside objs sc -> identity_of fs o ∈ ancestors sc <-> o ∈ inside.
Proof using.
  intros (-> & _). rewrite elem_of_map. split; [intros (o' & E & H); by apply identity_inj in E as ->|]. intros H. by exists o.
Qed.

Lemma ready_inside inside objs sc o :
  ready inside objs sc -> ready ({[o]} ∪ inside) objs (set_ancestors (fun a => {[identity_of fs o]} ∪ a) sc).
Proof using. intros (Ha & H). split; [|done]. cbn. rewrite Ha, set_map_union_L, set_map_singleton_L. done. Qed.

Lemma count_total s sc f objs ns : scan_total s sc (scan_count f) (entry_rel objs ns) (Some None).
Proof using. apply put_step, known_total; [done|done|]. constructor. Qed.

Lemma regular_total s sc d p name o bytes ns pb objs :
  s !! d = Some p -> object_at fs p name = Some o -> nodes fs !! o = Some (Regular bytes) ->
  Forall path_name ns -> path_name name -> leads fs objs pb p ->
  scan_total s sc (captureRegularFile d name (path_of (ns ++ [name])) (identity_of fs o) pb) (entry_rel objs (ns ++ [name]))
    (Some (Some (ShownFile o bytes))).
Proof using Hfs.
  intros Hd Ho Hn Hns Hname Hl. apply (open_step _ _ _ _ o); [by apply (total_regular_at fs s d p Hd name o bytes)|].
  intros fd Hf. apply known_step with (a := (identity_of fs o, bytes)).
  - apply (total_bind _ _ _ _ _ (total_inspect_regular fs Hfs (<[fd := o]> s) fd o ltac:(apply lookup_insert_eq) bytes Hn)).
    intros ? ? [-> ->]. cbn [expect fst]. rewrite bool_decide_eq_true_2 by done. by apply total_ret.
  - rewrite newSourceFile_path by auto. apply return_step, known_total; [done|done|].
    constructor. constructor; [done|done|]. cbn. rewrite app_nil_r. by apply leads_snoc with (p := p).
Qed.

(** An anchor is kept where the owner has room for it. *)
Lemma retain_step {A} s sc fd a objs inside message (k : Z -> scan A) Q :
  s !! fd = None -> ready inside objs sc ->
  (full sc -> forall e, Q (Err e, sc) s) ->
  (forall sc', adds sc s [(fd, a)] sc' (<[fd := a]> s) -> total (<[fd := a]> s) (k (zlen objs) sc') Q) ->
  total (<[fd := a]> s) (scan_bind (scan_retain message (Some fd)) k sc) Q.
Proof using.
  intros Hf (_ & Hz & Ht & Hc & [r Hr]) Hfull Hk. unfold scan_bind, scan_retain, addBackingDirectory. rewrite Ht, Hc, Hr. cbn [orb].
  destruct (maximumAnchors <=? zlen (anchors (owner sc))) eqn:Em; bool_to_prop.
  - apply total_bind with (R := fun r s' => exists e, r = (Err e, sc) /\ s' = s).
    + apply (total_close fs _ fd a _ _ ltac:(apply lookup_insert_eq)). apply total_ret. rewrite delete_insert_id by done.
      eexists. split; [|done]. f_equal. by destruct sc.
    + intros ? ? (e & -> & ->). apply total_ret. by apply Hfull.
  - apply total_bind with (R := fun r s' => r = (Ok (zlen objs), set_owner (add_anchors [fd] (owner sc)) sc) /\ s' = <[fd := a]> s).
    + apply total_ret. split; [|done]. do 2 f_equal. unfold wrap. rewrite zlen_app. change (zlen [fd]) with 1.
      rewrite Z.mod_small; [lia|]. unfold maximumAnchors in Em. pose proof (zlen_nonneg (anchors (owner sc))). lia.
    + intros ? ? [-> ->]. apply Hk. split_and!; [done|done| |apply NoDup_singleton|by constructor].
      cbn. by rewrite (insert_union_singleton_l s).
Qed.

Section Entries.
Variable below : Z -> string -> BackingReference -> scan SourceDirectory.
Variable show_below : object -> option shown.
Variable inside : gset object.

Definition scans_below : Prop := forall o s sc objs d ns pb,
  o ∉ inside -> s !! d = Some o -> is_directory fs o = true -> ready ({[o]} ∪ inside) objs sc -> leads fs objs pb o ->
  Forall path_name ns -> ns <> [] ->
  scan_total s sc (below d (path_of ns) pb) (directory_rel objs ns) (show_below o).

Hypothesis Hbelow : scans_below.

Lemma inside_total s sc objs d ns pb o :
  o ∉ inside -> s !! d = Some o -> is_directory fs o = true -> ready inside objs sc -> leads fs objs pb o ->
  Forall path_name ns -> ns <> [] ->
  scan_total s sc
    (let+ _ := scan_put (set_ancestors (fun a => {[identity_of fs o]} ∪ a)) in
     scan_leaving (identity_of fs o)
       (let+ captured := below d (path_of ns) pb in scan_return (Ok (Some (directoryEntry captured)))))
    (entry_rel objs ns) (Some <$> show_below o).
Proof using Hbelow.
  intros Ho Hd Hdir Hready Hl Hns Hne. pose proof Hready as [Ha _]. apply put_step.
  set (sc1 := set_ancestors _ sc). unfold scan_leaving.
  eapply total_bind with (R := fun r s' => exists added, adds sc1 s added r.2 s' /\ outcome (entry_rel objs ns added) r.2 (Some <$> show_below o) r.1).
  - eapply total_bind; [apply (Hbelow o s sc1 objs d ns pb); try done; by apply ready_inside|].
    intros [[dir|e] sc2] s2 (added & Hadds & Hout); apply total_ret; exists added; (split; [done|]); cbn in *;
      destruct (show_below o); try done. by constructor.
  - intros [r sc2] s2 (added & (Ha2 & Hrest) & Hout). apply total_ret. exists added. split.
    + split; [|exact Hrest]. cbn in *. rewrite Ha2. apply after_inside. by rewrite (ancestor_known inside objs).
    + exact Hout.
Qed.

Lemma directory_total s sc objs d p name o ns pb :
  s !! d = Some p -> object_at fs p name = Some o -> is_directory fs o = true -> ready inside objs sc -> leads fs objs pb p ->
  Forall path_name ns -> path_name name ->
  scan_total s sc (captureDirectory below d name (path_of (ns ++ [name])) (identity_of fs o) pb) (entry_rel objs (ns ++ [name]))
    (Some <$> show_object fs show_below inside o).
Proof using Hfs Hbelow.
  intros Hd Ho Hdir Hready Hl Hns Hname. apply (open_step _ _ _ _ o).
  { eapply total_mono; [by apply total_directory_at|]. intros r s'. rewrite Ho. cbn. by rewrite Hdir. }
  intros fd Hf. apply known_step with (a := identity_of fs o).
  { apply (total_bind _ _ _ _ _ (total_inspect fs Hfs (<[fd := o]> s) fd o ltac:(apply lookup_insert_eq) ltac:(by eapply object_at_known))).
    intros ? ? [-> ->]. cbn [expect]. rewrite bool_decide_eq_true_2 by done. by apply total_ret. }
  apply read_step. destruct (is_directory_known fs o Hdir) as (names & parent & En).
  unfold show_object. rewrite En. rewrite (bool_decide_ext _ _ (ancestor_known inside objs sc o Hready)). case_bool_decide as Hin.
  - by apply known_total.
  - apply inside_total; auto; [apply lookup_insert_eq|]. by apply leads_snoc with (p := p).
Qed.

Lemma symlink_directory_total s sc objs ns to target fd :
  is_directory fs (reached to) = true -> reached_from to = reached to -> target_identity target = identity_of fs (reached to) ->
  target_anchor target = Some fd -> s !! fd = None -> ready inside objs sc -> Forall path_name ns -> ns <> [] ->
  total (<[fd := reached_from to]> s) (captureSymlinkDirectory below (path_of ns) target sc)
    (fun r s' => exists added, adds sc s added r.2 s' /\
       outcome (entry_rel objs ns added) r.2 (Some <$> show_object fs show_below inside (reached to)) r.1).
Proof using Hbelow.
  intros Hdir Hfrom Hid Hanchor Hf Hready Hns Hne. unfold captureSymlinkDirectory. cbv zeta. apply read_step.
  destruct (is_directory_known fs _ Hdir) as (names & parent & En). unfold show_object. rewrite En, Hid, Hanchor.
  rewrite (bool_decide_ext _ _ (ancestor_known inside objs sc _ Hready)). case_bool_decide as Hin.
  - apply (total_close fs _ fd (reached_from to) _ _ ltac:(apply lookup_insert_eq)). rewrite delete_insert_id by done.
    by apply known_total.
  - apply (retain_step s sc fd _ objs inside _ _ _ Hf Hready).
    + intros Hfull e. exists []. split; [by apply adds_nil|]. by destruct (show_below (reached to)).
    + intros sc' Hadds. cbn [default]. eapply total_mono.
      * apply (inside_total (<[fd := reached_from to]> s) sc' (objs ++ [reached_from to]) fd ns (MkBacking (zlen objs) ".") (reached to)); try done.
        -- rewrite lookup_insert_eq. by rewrite Hfrom.
        -- by apply (ready_adds inside objs sc s [(fd, reached_from to)] sc' (<[fd := reached_from to]> s)).
        -- rewrite Hfrom. by apply leads_anchor.
      * intros r s' (added & Ha & Ho). exists ((fd, reached_from to) :: added). split; [by apply (adds_trans _ _ [(fd, reached_from to)] _ _ added _ _ Hadds)|].
        unfold entry_rel in *. by rewrite <- app_assoc in Ho.
Qed.

Lemma symlink_file_total s sc objs ns to target fd bytes :
  nodes fs !! reached to = Some (Regular bytes) -> object_at fs (reached_from to) (reached_as to) = Some (reached to) ->
  path_name (reached_as to) -> target_name target = reached_as to -> target_size target = bytes ->
  target_anchor target = Some fd -> s !! fd = None -> ready inside objs sc -> Forall path_name ns -> ns <> [] ->
  total (<[fd := reached_from to]> s) (captureSymlinkFile (path_of ns) target sc)
    (fun r s' => exists added, adds sc s added r.2 s' /\
       outcome (entry_rel objs ns added) r.2 (Some (Some (ShownFile (reached to) bytes))) r.1).
Proof using.
  intros En Hat Hname Hn Hs Hanchor Hf Hready Hns Hne. unfold captureSymlinkFile. rewrite Hanchor.
  apply (retain_step s sc fd _ objs inside _ _ _ Hf Hready).
  - intros Hfull e. exists []. split; [by apply adds_nil|done].
  - intros sc' Hadds. rewrite newSourceFile_path, Hn, Hs by done. apply return_step, total_ret.
    exists [(fd, reached_from to)]. split; [done|]. constructor. constructor; [done|done|]. by apply leads_anchor_name.
Qed.

(** *** Links *)
(** What a path reaches is never a link, and is where its last name says. *)
Definition reaches (to : destination) : Prop :=
  match nodes fs !! reached to with
  | Some (Directory _ _) => reached_from to = reached to
  | Some (Regular _) => object_at fs (reached_from to) (reached_as to) = Some (reached to) /\ path_name (reached_as to)
  | Some Special => True
  | _ => False
  end.

Lemma reaches_self p : is_directory fs p = true -> reaches (MkDestination p "." p).
Proof using. intros (names & parent & En)%is_directory_known. unfold reaches. cbn. by rewrite En. Qed.

Lemma named_leaf p name o bytes : object_at fs p name = Some o -> nodes fs !! o = Some (Regular bytes) -> path_name name.
Proof using Hfs.
  intros Ho Hn. unfold object_at in Ho. destruct (nodes fs !! p) as [[names parent| | |]|] eqn:Ep; try done.
  case_bool_decide; [injection Ho as <-; congruence|]. case_bool_decide.
  - injection Ho as <-. apply (wf_parent fs Hfs) in Ep. unfold is_directory in Ep. by rewrite Hn in Ep.
  - destruct (wf_names fs Hfs _ _ _ _ _ Ep Ho) as (? & ? & _). by split.
Qed.

Lemma resolve_reaches links : forall path p to, is_directory fs p = true -> resolve_path fs links p path = Some to -> reaches to.
Proof using Hfs.
  induction links as [|links IHl]; induction path as [|c rest IHp]; intros p to Hp; rewrite ?resolve_path_nil, ?resolve_path_cons;
    try (intros [= <-]; by apply reaches_self); (destruct (_ || _); [by apply IHp|]);
    intros (o & Ho & H)%bind_Some; (destruct (nodes fs !! o) as [[names parent|bytes|target|]|] eqn:En; try done);
    try (apply (IHp o); [by unfold is_directory; rewrite En|done]);
    try (destruct rest; [|done]; injection H as <-; unfold reaches; cbn; rewrite En; try done; by split; [|eapply named_leaf]).
  eapply IHl; [|exact H]. destruct (IsAbs target); [apply Hfs|done].
Qed.

Lemma link_reaches p target to : is_directory fs p = true -> resolve_link fs p target = Some to -> reaches to.
Proof using Hfs. intros Hp. apply resolve_reaches. destruct (IsAbs target); [apply Hfs|done]. Qed.

Lemma symlink_total s sc objs d p name o target ns :
  s !! d = Some p -> object_at fs p name = Some o -> nodes fs !! o = Some (Symlink target) -> ready inside objs sc ->
  Forall path_name ns -> path_name name ->
  scan_total s sc (followSymlink below d name (path_of (ns ++ [name])) (identity_of fs o)) (entry_rel objs (ns ++ [name]))
    (to ← resolve_link fs p target;
     match nodes fs !! reached to with
     | Some Special => Some None
     | _ => Some <$> show_object fs show_below inside (reached to)
     end).
Proof using Hfs Hbelow.
  intros Hd Ho Hn Hready Hns Hname. assert (is_directory fs p = true) as Hp.
  { unfold object_at in Ho. unfold is_directory. by destruct (nodes fs !! p) as [[]|]. }
  unfold scan_total, followSymlink.
  apply total_bind with (R := fun r s' => r.2 = sc /\ link_resolved fs s (resolve_link fs p target) r.1 s').
  { apply total_bind with (R := fun r s' => r.2 = sc /\ link_resolved fs s (resolve_link fs p target) r.1 s').
    - apply (total_bind _ _ _ _ _ (total_resolve_link fs Hfs s d p name o target Hd Ho Hn)). intros r s' Hr. by apply total_ret.
    - intros [r sc'] s' [E Hr]. apply total_ret. split; [done|]. cbn [fst snd] in *. unfold link_resolved in *.
      destruct (resolve_link fs p target) as [to|]; [by destruct Hr as (t & -> & Hr); exists t|].
      destruct Hr as [? [e ->]]. split; [done|]. by eexists. }
  intros [r sc'] s' [E Hr]. cbn [fst snd] in E, Hr. unfold link_resolved in Hr. subst sc'.
  destruct (resolve_link fs p target) as [to|] eqn:Eto; cbn [mbind option_bind].
  2:{ destruct Hr as [-> [e ->]]. by apply known_total. }
  destruct Hr as (t & -> & Hr). apply put_step. pose proof (link_reaches p target to Hp Eto) as Hreach. unfold reaches in Hreach.
  set (sc1 := set_summary count_followed sc). assert (Hready1 : ready inside objs sc1) by done.
  assert (forall l sc' s', adds sc1 s l sc' s' -> adds sc s l sc' s') as Hadds by done.
  destruct (nodes fs !! reached to) as [[names parent|bytes|target'|]|] eqn:En; try done; rewrite (is_special_known _ _ _ En) in Hr.
  - destruct Hr as (Hid & Hk & _ & _ & fd & Hanchor & Hf & ->). rewrite (node_kind_known _ _ _ En) in Hk. rewrite Hk, Z.eqb_refl.
    apply (symlink_directory_total s sc1); auto. unfold is_directory. by rewrite En.
  - destruct Hr as (_ & Hk & Hn' & Hs & fd & Hanchor & Hf & ->). rewrite (node_kind_known _ _ _ En) in Hk. rewrite Hk.
    change (sourceRegularObject =? sourceDirectoryObject) with false. rewrite Z.eqb_refl. cbn iota.
    destruct Hreach as [Hat Hrn]. unfold show_object. rewrite En.
    apply (symlink_file_total s sc1); auto.
  - destruct Hr as (-> & _ & ->). change (sourceSpecialObject =? sourceDirectoryObject) with false.
    change (sourceSpecialObject =? sourceRegularObject) with false. exact (count_total s sc1 count_special objs (ns ++ [name])).
Qed.

Lemma entry_total s sc objs d p names parent name o ns pb :
  s !! d = Some p -> nodes fs !! p = Some (Directory names parent) -> names !! name = Some o -> ready inside objs sc ->
  leads fs objs pb p -> Forall path_name ns ->
  scan_total s sc (captureEntry follow below d (path_of ns) name (identity_of fs o) pb) (entry_rel objs (ns ++ [name]))
    (show_entry fs follow show_below inside p name).
Proof using Hfs Hbelow.
  intros Hd Hp Hname Hready Hl Hns. destruct (wf_names fs Hfs _ _ _ _ _ Hp Hname) as (Hpn & Hslash & [n Hn]).
  assert (path_name name) as Hpath by (by split).
  assert (object_at fs p name = Some o) as Ho.
  { unfold object_at. rewrite Hp. destruct Hpn as (_ & ? & ?). by rewrite !bool_decide_eq_false_2. }
  unfold captureEntry. cbv zeta. rewrite joinRelative_path by done. unfold show_entry, entry_object. rewrite Ho. cbn [mbind option_bind].
  cbn [kind identity_of]. rewrite Hn, (node_kind_known _ _ _ Hn). destruct n as [names' parent'|bytes|target|]; cbn [mbind option_bind].
  - cbn [Z.eqb Pos.eqb sourceDirectoryObject sourceSymlinkObject sourceRegularObject]. apply (directory_total s sc objs d p); try done.
    unfold is_directory. by rewrite Hn.
  - cbn [Z.eqb Pos.eqb sourceDirectoryObject sourceSymlinkObject sourceRegularObject]. unfold show_object. rewrite Hn. by apply (regular_total s sc d p).
  - cbn [Z.eqb Pos.eqb sourceSymlinkObject]. destruct follow; cbn [negb]; [|apply count_total].
    pose proof (symlink_total s sc objs d p name o target ns Hd Ho Hn Hready Hns Hpath) as H.
    destruct (resolve_link fs p target) as [to|]; [|exact H]. cbn [mbind option_bind] in *.
    by destruct (nodes fs !! reached to) as [[]|].
  - cbn [Z.eqb Pos.eqb sourceDirectoryObject sourceSymlinkObject sourceRegularObject sourceSpecialObject]. apply count_total.
Qed.

(** *** Sequences of entries *)
Lemma bind_total {A B V W} s sc (m : scan A) (k : A -> scan B) rel v (rel' : list (Z * object) -> W -> B -> Prop) (v' : V -> option W) :
  scan_total s sc m rel v ->
  (forall a w sc' s' added, v = Some w -> rel added w a -> adds sc s added sc' s' ->
     scan_total s' sc' (k a) (fun more => rel' (added ++ more)) (v' w)) ->
  scan_total s sc (scan_bind m k) rel' (v ≫= v').
Proof using.
  intros Hm Hk. apply (total_bind _ _ _ _ _ Hm). intros [[a|e] sc'] s' (added & Hadds & Ho); cbn [fst snd] in *.
  - destruct v as [w|]; [|done]. cbn [mbind option_bind]. eapply total_mono; [by apply (Hk a w)|].
    intros r s'' (more & Hmore & Ho'). exists (added ++ more). split; [by eapply adds_trans|done].
  - apply total_ret. exists added. split; [done|]. destruct v as [w|]; [|done]. cbn in *. by destruct (v' w).
Qed.

Lemma context_known s : total s context_check (fun r s' => s' = s /\ r = Ok tt).
Proof using.
  apply total_bind with (R := fun x s' => x = None /\ s' = s); [|by intros ? ? [-> ->]; apply total_ret].
  apply total_call; [by intros|by exists None|]. by intros x ->.
Qed.

Definition children_rel (objs : list object) (ns : list string) (added : list (Z * object)) (vs : list (string * shown))
    (cs : list SourceEntry) : Prop :=
  Forall2 (fun v e => shows (leads fs (objs ++ added.*2)) (ns ++ [v.1]) v.2 e) vs cs.

Definition names_rel (objs : list object) (ns : list string) (names : gmap string object) (todo : list string)
    (observed : gmap string sourceIdentity) (children : list SourceEntry) (added : list (Z * object))
    (vs : list (string * shown)) (r : gmap string sourceIdentity * list SourceEntry) : Prop :=
  (forall n, r.1 !! n = if bool_decide (n ∈ todo) then identity_of fs <$> names !! n else observed !! n)
  /\ exists cs, r.2 = children ++ cs /\ children_rel objs ns added vs cs.

Lemma shows_later objs l more ns v e :
  shows (leads fs (objs ++ l)) ns v e -> shows (leads fs (objs ++ l ++ more)) ns v e.
Proof using. apply shows_leads. intros b o. rewrite app_assoc. apply leads_more. Qed.

Lemma names_total todo : forall s sc objs d p names parent ns pb observed children,
  Forall (fun n => is_Some (names !! n)) todo ->
  s !! d = Some p -> nodes fs !! p = Some (Directory names parent) -> ready inside objs sc -> leads fs objs pb p ->
  Forall path_name ns ->
  scan_total s sc (scan_names follow below d (path_of ns) pb todo observed children)
    (names_rel objs ns names todo observed children) (show_entries fs follow show_below inside p todo).
Proof using Hfs Hbelow.
  induction todo as [|name todo IH]; intros s sc objs d p names parent ns pb observed children Htodo Hd Hp Hready Hl Hns;
    cbn [scan_names show_entries].
  - apply known_total; [done|done|]. split; [intros n; by rewrite bool_decide_eq_false_2 by set_solver|].
    exists []. rewrite app_nil_r. split; [done|constructor].
  - apply Forall_cons in Htodo as [[o Hname] Htodo]. destruct (wf_names fs Hfs _ _ _ _ _ Hp Hname) as (Hpn & Hslash & _).
    assert (path_name name) as Hpath by (by split).
    apply known_step with (a := tt); [apply context_known|].
    apply known_wrapped with (a := identity_of fs o).
    { eapply total_mono; [by apply (total_stat_at fs Hfs s d p Hd)|]. intros r s' [-> Hr]. split; [done|].
      unfold object_at in Hr. rewrite Hp in Hr. destruct Hpn as (_ & ? & ?). rewrite !bool_decide_eq_false_2 in Hr by done. by rewrite Hname in Hr. }
    apply (bind_total _ _ _ _ _ _ _ (fun v => vs ← show_entries fs follow show_below inside p todo; Some (match v with Some v => (name, v) :: vs | None => vs end))
             (entry_total s sc objs d p names parent name o ns pb Hd Hp Hname Hready Hl Hns)).
    intros entry v sc' s' added _ Hentry Hadds.
    assert (s' !! d = Some p) as Hd' by (by eapply adds_lookup). pose proof (ready_adds _ _ _ _ _ _ _ Hready Hadds) as Hready'.
    pose proof (leads_more fs objs added.*2 pb p Hl) as Hl'.
    pose proof (IH s' sc' (objs ++ added.*2) d p names parent ns pb (<[name := identity_of fs o]> observed) (children ++ option_list entry)
      Htodo Hd' Hp Hready' Hl' Hns) as H.
    eapply total_mono; [exact H|]. clear H. intros [r sc2] s2 (more & Hmore & Ho). exists more. split; [done|].
    cbn [fst snd] in *. destruct (show_entries fs follow show_below inside p todo) as [vs|]; [|by destruct r].
    cbn [mbind option_bind outcome] in *. destruct r as [[observed' children']|e]; [|done].
    unfold names_rel in *. cbn [fst snd] in *. destruct Ho as (Hobs & cs & -> & Hcs). split.
    + intros n. rewrite Hobs. case_bool_decide as Hn; [by rewrite bool_decide_eq_true_2 by set_solver|].
      destruct (decide (n = name)) as [->|Hne].
      * rewrite lookup_insert_eq, bool_decide_eq_true_2 by set_solver. by rewrite Hname.
      * rewrite lookup_insert_ne, bool_decide_eq_false_2 by set_solver. done.
    + unfold children_rel in *. rewrite <- app_assoc in Hcs. exists (option_list entry ++ cs). split; [by rewrite <- app_assoc|].
      unfold entry_rel in Hentry. rewrite fmap_app. inversion Hentry as [v' e Hv|]; subst; [|done].
      constructor; [|done]. by apply shows_later.
Qed.

Hypothesis Hneat : forall o v, show_below o = Some v -> neat v.

Lemma scan_directory_total s sc objs d p ns pb names parent :
  s !! d = Some p -> nodes fs !! p = Some (Directory names parent) -> ready inside objs sc -> leads fs objs pb p ->
  Forall path_name ns ->
  scan_total s sc (scan_directory follow below d (path_of ns) pb) (directory_rel objs ns)
    (ShownDir p <$> show_entries fs follow show_below inside p (entry_names names)).
Proof using Hfs Hbelow Hneat.
  intros Hd Hp Hready Hl Hns. unfold scan_directory.
  assert (Hinspect : forall s, s !! d = Some p -> total s (inspectDescriptor d) (fun r s' => s' = s /\ r = Ok (identity_of fs p))).
  { intros s0 Hd0. apply (total_inspect fs Hfs s0 d p Hd0). by rewrite Hp. }
  apply known_step with (a := tt); [apply context_known|].
  apply known_step with (a := identity_of fs p).
  { apply (total_bind _ _ _ _ _ (Hinspect s Hd)). intros ? ? [-> ->]. cbn [expect kind identity_of].
    rewrite (node_kind_known _ _ _ Hp), Z.eqb_refl. by apply total_ret. }
  apply known_wrapped with (a := entry_names names); [by apply (total_names fs s d p Hd names parent)|].
  assert (Forall (fun n => is_Some (names !! n)) (entry_names names)) as Hnames.
  { apply Forall_forall. intros n. by apply entry_names_elem. }
  assert ((ShownDir p <$> show_entries fs follow show_below inside p (entry_names names))
    = (vs ← show_entries fs follow show_below inside p (entry_names names); Some (ShownDir p vs))) as -> by by destruct (show_entries _ _ _ _ _ _).
  apply (bind_total _ _ _ _ _ _ _ (fun vs => Some (ShownDir p vs))
    (names_total (entry_names names) s sc objs d p names parent ns pb ∅ [] Hnames Hd Hp Hready Hl Hns)).
  intros [observed children] vs sc' s' added Hvs [Hobs (cs & Ecs & Hcs)] Hadds. cbn [fst snd app] in Hobs, Ecs. subst cs.
  assert (s' !! d = Some p) as Hd' by (by eapply adds_lookup).
  apply known_step with (a := identity_of fs p).
  { apply (total_bind _ _ _ _ _ (Hinspect s' Hd')). intros ? ? [-> ->]. cbn [expect].
    rewrite bool_decide_eq_true_2 by done. by apply total_ret. }
  apply known_step with (a := tt).
  { apply total_bind with (R := fun r s'' => s'' = s' /\ r = None); [|by intros ? ? [-> ->]; apply total_ret].
    apply (total_verify fs Hfs s' d p Hd' _ names parent observed Hp).
    - intros n o Hn. destruct (wf_names fs Hfs _ _ _ _ _ Hp Hn) as ((_ & ? & ?) & _). unfold object_at.
      by rewrite Hp, !bool_decide_eq_false_2.
    - apply map_eq. intros n. rewrite Hobs, lookup_fmap, lookup_empty. case_bool_decide as Hn; [done|].
      rewrite entry_names_elem in Hn. destruct (names !! n); [by destruct Hn; eexists|done]. }
  destruct (show_entries_neat fs follow show_below inside p (entry_names names) vs Hneat (entry_names_proper fs Hfs _ _ _ Hp) Hvs) as [Hn1 Hn2].
  assert (StronglySorted (fun a b => sltb a b = true) vs.*1) as Hsorted by (eapply StronglySorted_sublist; [exact Hn2|apply entry_names_sorted]).
  rewrite (newSourceDirectory_shown _ ns vs children pb Hns Hn1 Hsorted Hcs). apply return_step.
  assert (directory_rel objs ns added (ShownDir p vs) (MkDirectory (path_of ns) pb children)) as Hrel.
  { constructor; [by apply leads_more|exact Hcs]. }
  case_match; [apply put_step|]; (apply known_total; [done|done|]); cbn [outcome]; by rewrite app_nil_r.
Qed.
End Entries.

(** ** The recursion *)
(** Each directory entered is one more that the scan is inside of, so as much
    fuel as there are objects is enough. *)
Definition room (inside : gset object) : nat := base.size (dom (nodes fs) ∖ inside).

Lemma room_inside inside o : o ∉ inside -> is_directory fs o = true -> (room ({[o]} ∪ inside) < room inside)%nat.
Proof using.
  intros Ho Hd. unfold room. apply (subset_size (C := gset object)). destruct (directory_known fs o Hd) as [n Hn].
  assert (o ∈ dom (nodes fs)) by (by apply elem_of_dom_2 in Hn). clear Hfs. set_solver.
Qed.

Lemma room_root d : is_directory fs d = true -> (room {[d]} < base.size (nodes fs))%nat.
Proof using.
  intros (names & parent & Hn)%is_directory_known. apply elem_of_dom_2 in Hn. rewrite <- (size_dom (nodes fs)).
  unfold room. apply (subset_size (C := gset object)). clear -Hn. set_solver.
Qed.

Lemma scanDirectory_total fuel : forall inside s sc objs d p ns pb,
  (room inside < fuel)%nat -> s !! d = Some p -> is_directory fs p = true -> ready inside objs sc -> leads fs objs pb p ->
  Forall path_name ns ->
  scan_total s sc (scanDirectory fuel follow d (path_of ns) pb) (directory_rel objs ns) (show fs fuel follow inside p).
Proof using Hfs.
  induction fuel as [|fuel IH]; intros inside s sc objs d p ns pb Hroom Hd Hp Hready Hl Hns; [lia|].
  destruct (is_directory_known fs p Hp) as (names & parent & En). cbn [scanDirectory show]. rewrite En.
  apply (scan_directory_total _ _ inside) with (parent := parent); try done.
  - intros o s' sc' objs' d' ns' pb' Ho Hd' Hdir Hready' Hl' Hns' _. apply IH; try done. pose proof (room_inside inside o Ho Hdir). lia.
  - intros o v. by apply show_neat.
Qed.

(** ** The scan of a root *)
(** A source that was just opened on the directory [d]. *)
Record opened_on (s : gmap Z object) (r : SourceRoot) (fd : Z) (d : object) : Prop := {
  on_root_fd : root r = Some fd;
  on_object : s !! fd = Some d;
  on_directory : is_directory fs d = true;
  on_identity : root_identity r = identity_of fs d;
  on_name : validateBaseName (root_baseName r) = None;
  on_anchors : anchors r = [];
  on_state : scanned r = false /\ transferred r = false /\ closed r = false
}.

(** What the scan returns of a tree that is shown: a snapshot whose tree shows it
    and whose lists are the tree's, with the error that says it is empty; or an
    error because there are too many anchors. *)
Definition scanned_as (r : SourceRoot) (d : object) (added : list (Z * object)) (v : option shown)
    (snapshot : SourceSnapshot) (err : option error) : Prop :=
  match v, snapshot with
  | None, None => is_Some err
  | None, Some _ => False
  | Some _, None => is_Some err /\ maximumAnchors <= zlen added
  | Some v, Some contents =>
      shows (leads fs (d :: added.*2)) [] v (directoryEntry (tree_root (tree contents)))
      /\ baseName contents = root_baseName r /\ identity contents = root_identity r /\ capability contents = Some (root_capability r)
      /\ flattenTree (tree contents) = Ok (entries contents)
      /\ err = if FileCount snapshot + EmptyDirectoryCount snapshot =? 0 then Some (ErrJoin ErrNoTransferItems []) else None
  end.

Lemma scan_outcome_shown r d added v dir summary :
  neat v -> validateBaseName (root_baseName r) = None -> root_identity r = identity_of fs d -> is_directory fs d = true ->
  shows (leads fs (d :: added.*2)) [] v (directoryEntry dir) ->
  let '(snapshot, err) := scan_outcome (root_baseName r) (root_identity r) (root_capability r) (Ok dir) summary in
  snapshot <> None /\ scanned_as r d added (Some v) snapshot (joined err None).
Proof using.
  intros Hneat Hname Hid Hdir Hshows. unfold scan_outcome, newSourceSnapshot. rewrite Hname. cbn [check].
  rewrite Hid. cbn [kind identity_of]. rewrite directory_kind, Hdir. cbn [negb orb].
  pose proof (shows_paths _ _ [] v ltac:(constructor) Hneat Hshows) as [Hnd _].
  assert (dirPath dir = "") as Hroot by exact (shows_path _ _ _ _ Hshows).
  unfold directoryEntry in Hnd. cbn [entry_paths] in Hnd. rewrite fmap_cons in Hnd. apply NoDup_cons in Hnd as [_ Hnd].
  pose proof (flattenTree_spec (MkTree dir)) as Hflat. unfold tree_paths in Hflat. cbn [tree_root] in Hflat.
  destruct (flattenTree (MkTree dir)) as [flat|e] eqn:Ef; [|by destruct Hflat].
  cbn [rbind]. split; [done|]. cbn [scanned_as tree_root tree baseName identity capability entries].
  rewrite Hid. split_and!; try done. by destruct (_ =? 0).
Qed.

Lemma Scan_total fuel s r fd d :
  opened_on s r fd d -> (base.size (nodes fs) <= fuel)%nat ->
  total s (Scan fuel true follow (Some r)) (fun out s' => exists added,
    out.2 = Some (with_state r (root r) added.*1 (borrows r) true (transferred r) (closed r))
    /\ s' = list_to_map added ∪ s /\ open_on s' (fd :: added.*1) (d :: added.*2)
    /\ scanned_as r d added (show fs fuel follow {[d]} d) out.1.1 out.1.2).
Proof using Hfs.
  intros [Hroot Hd Hdir Hid Hname Hanchors (Hsc & Ht & Hc)] Hfuel. unfold Scan. cbn [negb].
  apply total_bind with (R := fun x s' => x = None /\ s' = s).
  { apply total_call; [by intros|by exists None|]. by intros x ->. }
  intros ? ? [-> ->].
  apply total_bind with (R := fun x s' => exists new, x = (Ok (new, root_identity r, root_capability r), set_scanned (lend 1 r))
    /\ s !! new = None /\ s' = <[new := d]> s).
  { unfold beginScan, borrowDescriptorLocked. rewrite Hsc, Ht, Hc, Hroot.
    apply total_bind with (R := fun x s' => exists new, x = (Ok new, lend 1 r) /\ s !! new = None /\ s' = <[new := d]> s).
    - apply (total_bind _ _ _ _ _ (total_duplicate fs s fd d Hd)). intros x s' (new & -> & Hnew & ->). apply total_ret. by exists new.
    - intros ? s' (new & -> & Hnew & ->). apply total_ret. by exists new. }
  intros ? s' (new & -> & Hnew & ->).
  set (sc := MkScanner (set_scanned (lend 1 r)) (MkSummary 0 0 0 0) {[root_identity r]}).
  assert (ready {[d]} [d] sc) as Hready.
  { split; cbn; [by rewrite Hid, set_map_singleton_L|]. rewrite Hanchors, Hroot. by split_and!. }
  assert (room {[d]} < fuel)%nat as Hroom by (pose proof (room_root d Hdir); lia).
  eapply total_bind; [apply (scanDirectory_total fuel {[d]} (<[new := d]> s) sc [d] new d [] (MkBacking 0 ".")); try done;
    [apply lookup_insert_eq|by apply (leads_anchor fs [] d)]|].
  intros [tree sc'] s' (added & Hadds & Ho). cbn [fst snd] in *.
  destruct (adds_closing new d sc s added sc' s' Hnew Hadds) as [Hin Hadds']. pose proof Hadds' as (_ & Howner & Hs' & _).
  assert (maximumAnchors <= zlen (anchors (owner sc')) -> maximumAnchors <= zlen added) as Hfull.
  { rewrite Howner. change (anchors (add_anchors added.*1 (owner sc))) with (anchors r ++ added.*1).
    rewrite Hanchors. unfold zlen. cbn [app]. by rewrite length_fmap. }
  destruct (scan_outcome _ _ _ _ _) as [snapshot err] eqn:Eo. unfold finishScan.
  apply total_bind with (R := fun x s'' => x = (None, lend (-1) (owner sc')) /\ s'' = delete new s').
  { apply total_bind with (R := fun x s'' => x = None /\ s'' = delete new s'); [|by intros ? ? [-> ->]; apply total_ret].
    apply total_call; [intros ? [= <-]; by eexists|by exists None|]. by intros x ->. }
  intros ? ? [-> ->]. apply total_ret. exists added. cbn [fst snd]. split; [|split; [done|split]].
  2:{ constructor; [by eapply adds_lookup|]. by eapply adds_open. }
  { f_equal. rewrite Howner. unfold lend, add_anchors, set_scanned, with_state. cbn. rewrite Hanchors, Hroot. f_equal. lia. }
  unfold outcome in Ho. destruct (show fs fuel follow {[d]} d) as [v|] eqn:Ev, tree as [dir|e]; try done.
  - pose proof (scan_outcome_shown r d added v dir (scan_summary sc') (show_neat fs Hfs _ _ _ _ _ Ev) Hname Hid Hdir Ho) as H.
    change (BaseName (Some (set_scanned (lend 1 r)))) with (root_baseName r) in Eo. rewrite Eo in H. by destruct H.
  - injection Eo as <- <-. cbn. split; [by eexists|]. by apply Hfull.
  - injection Eo as <- <-. cbn. by eexists.
Qed.
End Scan.
