(* ===== verification/QuietSource.v ===== *)
(** * What a source shows, and what its leases open

    On a file system at rest a scan returns the tree that path resolution shows,
    and a lease that is taken of its owner opens, by the backing reference of a
    file of the snapshot, the object that was scanned. *)
From ITree Require Import ITree.
From S2P Require Import Prelude Sorting GoText Paths SourceTree Allocation Effects SourceRoot SourceScan SourceDescriptors QuietFiles QuietWalk QuietScan.

(** The files of what is shown, with their paths, objects and sizes. *)
Fixpoint shown_files (ns : list string) (v : shown) : list (string * object * Z) :=
  match v with
  | ShownFile o bytes => [(path_of ns, o, bytes)]
  | ShownDir _ children =>
      (fix go (vs : list (string * shown)) : list (string * object * Z) :=
         match vs with [] => [] | (n, v) :: vs => shown_files (ns ++ [n]) v ++ go vs end) children
  end.

Lemma shown_files_dir ns o vs : shown_files ns (ShownDir o vs) = mjoin ((fun v => shown_files (ns ++ [v.1]) v.2) <$> vs).
Proof. induction vs as [|[n v] vs IH]; [done|]. cbn [shown_files] in *. rewrite IH. done. Qed.

Section Source.
Context (fs : filesystem) (Hfs : filesystem_wf fs).
#[local] Instance files_world : World SourceE (gmap Z object) := quiet_world fs.

(** Every file of a tree is one that is shown, and its reference leads to it. *)
Lemma shown_file objs e : forall ns v f, shows (leads fs objs) ns v e -> f ∈ entry_files e ->
  exists o, (relativePath f, o, SourceTree.size f) ∈ shown_files ns v /\ leads fs objs (backing f) o.
Proof using.
  induction e as [p b cs IH|g] using SourceEntry_nested_ind; intros ns v f H Hf; inversion H as [|? o vs ? ? Hb Hcs]; subst.
  - cbn [entry_files] in Hf. apply list_elem_of_join in Hf as (l & Hf & Hl). apply list_elem_of_fmap in Hl as (e & -> & He).
    rewrite shown_files_dir. rewrite Forall_forall in IH. apply list_elem_of_lookup_1 in He as [i He].
    destruct (Forall2_lookup_r _ _ _ _ _ Hcs He) as (v & Hv & Hshows).
    destruct (IH e ltac:(by eapply list_elem_of_lookup_2) _ _ f Hshows Hf) as (x & Hin & Hx). exists x. split; [|done].
    apply list_elem_of_join. exists (shown_files (ns ++ [v.1]) v.2). split; [done|].
    apply list_elem_of_fmap. exists v. split; [done|by eapply list_elem_of_lookup_2].
  - cbn [entry_files] in Hf. apply list_elem_of_singleton in Hf as ->. eexists. split; [|done]. cbn. apply list_elem_of_singleton. congruence.
Qed.

Lemma shown_file_regular fuel follow : forall inside p ns v path o bytes,
  show fs fuel follow inside p = Some v -> (path, o, bytes) ∈ shown_files ns v -> nodes fs !! o = Some (Regular bytes).
Proof using Hfs.
  induction fuel as [|fuel IH]; intros inside p ns v path o bytes; cbn [show]; [done|].
  destruct (nodes fs !! p) as [[names parent| | |]|]; try done. intros (vs & Hvs & ->)%fmap_Some. rewrite shown_files_dir.
  revert vs Hvs. induction (entry_names names) as [|n ns' IHn]; intros vs; cbn [show_entries]; [intros [= <-]; set_solver|].
  intros (v & Hv & (vs' & Hvs & [= <-])%bind_Some)%bind_Some. destruct v as [v|]; [|by apply IHn].
  rewrite fmap_cons, mjoin_cons. intros [Hin|Hin]%elem_of_app; [|by eapply IHn]. cbn [fst snd] in Hin.
  unfold show_entry in Hv. apply bind_Some in Hv as ([q|] & _ & Hv); [|done]. apply fmap_Some in Hv as (v' & Hv & [= <-]).
  unfold show_object in Hv. destruct (nodes fs !! q) as [[| | |]|] eqn:Eq; try done.
  - case_bool_decide; [done|]. by eapply IH.
  - injection Hv as <-. cbn in Hin. apply list_elem_of_singleton in Hin as [= -> -> ->]. done.
Qed.

(** ** Opening by reference *)
Lemma backing_accepted anchored b o : leads fs anchored b o -> backing_valid b (zlen anchored) = true.
Proof using.
  intros (p & ns & H0 & Hp & _ & Hns & Hb & _). unfold backing_valid.
  apply lookup_lt_Some in Hp. rewrite (proj2 (Z.leb_gt _ _)) by (unfold zlen; lia). apply orb_true_iff. rewrite Hb.
  destruct ns as [|n ns]; [left; by apply bool_decide_eq_true_2|right].
  change (backing_path (n :: ns)) with (path_of (n :: ns)). by rewrite path_normalized.
Qed.

Lemma total_components o bytes : nodes fs !! o = Some (Regular bytes) ->
  forall ns s cur q, ns <> [] -> descend fs q ns = Some o -> s !! cur = None ->
  total (<[cur := q]> s) (open_components cur ns false) (opened s (Some o)).
Proof using.
  intros Ho. induction ns as [|n ns IH]; intros s cur q Hne Hd Hcur; [done|]. cbn [descend] in Hd.
  apply bind_Some in Hd as (q' & Hq' & Hd). cbn [open_components].
  assert (opens_with fs (backing_flags (negb (bool_decide (ns = [])) || false)) q' = true) as Hopens.
  { destruct ns as [|n' ns]; cbn in Hd.
    - injection Hd as ->. unfold opens_with. by rewrite Ho.
    - apply bind_Some in Hd as (q2 & Hq2 & _). unfold object_at in Hq2. unfold opens_with. by destruct (nodes fs !! q') as [[]|]. }
  cbv zeta. revert Hopens. generalize (backing_flags (negb (bool_decide (ns = [])) || false)). intros flags Hopens.
  apply total_bind with (R := fun r s' => exists new, r = Ok new /\ 0 <= new /\ (<[cur := q]> s) !! new = None /\ s' = <[new := q']> (<[cur := q]> s)).
  { assert (opened_object fs (Openat cur n flags) (<[cur := q]> s) = Some q') as Hobj.
    { cbn -[opens_with]. rewrite lookup_insert_eq. cbn -[opens_with]. rewrite Hq'. cbn -[opens_with]. by rewrite Hopens. }
    apply total_call; [intros ? [= <-]; rewrite lookup_insert_eq; by eexists| |].
    - destruct (exists_descriptor (<[cur := q]> s)) as (new & H0 & Hnew). exists (Ok new).
      change (opened_as (<[cur := q]> s) (opened_object fs (Openat cur n flags) (<[cur := q]> s)) (Ok new)). rewrite Hobj. by exists new.
    - intros r Hr. change (opened_as (<[cur := q]> s) (opened_object fs (Openat cur n flags) (<[cur := q]> s)) r) in Hr.
      rewrite Hobj in Hr. destruct Hr as (new & -> & H0 & Hnew). exists new. split_and!; try done.
      change (after_call (Openat cur n flags) (Ok new) (<[cur := q]> s))
        with (match opened_object fs (Openat cur n flags) (<[cur := q]> s) with Some o => <[new := o]> (<[cur := q]> s) | None => <[cur := q]> s end).
      by rewrite Hobj. }
  intros r s' (new & -> & H0 & Hnew & ->). apply lookup_insert_None in Hnew as [Hnew Hne'].
  apply (total_close fs _ cur q).
  { rewrite lookup_insert_ne by done. apply lookup_insert_eq. }
  rewrite delete_insert_ne, (delete_insert_id s) by done.
  apply total_bind_ok with (R := fun r s' => r = Ok new /\ s' = <[new := q']> s).
  - unfold wrapSourceDescriptor. rewrite (proj2 (Z.ltb_ge _ _)) by done. by apply total_ret.
  - intros ? ? [[= ->] ->]. destruct ns as [|n' ns].
    + cbn in Hd |- *. injection Hd as ->. apply total_ret. by exists new.
    + by apply IH.
  - by intros ? ? [[=] _].
Qed.

Lemma total_OpenRegular s files objs b o bytes :
  Forall2 (fun fd x => s !! fd = Some x) files objs -> leads fs objs b o -> nodes fs !! o = Some (Regular bytes) ->
  total s (OpenRegular (Some (MkAccess files false None)) b)
    (fun r s' => exists file meta, r = Ok (file, meta) /\ s !! file = None /\ s' = <[file := o]> s /\ meta_size meta = bytes).
Proof using Hfs.
  intros Hfiles Hl Ho. pose proof (backing_accepted objs b o Hl) as Hvalid. destruct Hl as (p & ns & H0 & Hp & Hdir & Hns & Hb & Hd).
  destruct (Forall2_lookup_r _ _ _ _ _ Hfiles Hp) as (fd & Hfd & Hs).
  assert (zlen files = zlen objs) as Hlen by (unfold zlen; by rewrite (Forall2_length _ _ _ Hfiles)).
  unfold OpenRegular, reference_accepted. cbn [from_option access_anchors]. rewrite Hlen, Hvalid. cbn [negb].
  unfold access_anchor. cbn [mbind option_bind access_anchors]. rewrite Hfd.
  assert (ns <> []) as Hne.
  { intros ->. cbn in Hd. injection Hd as ->. unfold is_directory in Hdir. by rewrite Ho in Hdir. }
  apply total_bind_ok with (R := opened s (Some o)); [|intros file s' (file' & [= <-] & Hf & ->)|by intros ? ? (? & [=] & _)].
  - unfold openRelativeRegular, openRelative. rewrite bool_decide_eq_false_2.
    2:{ intros E. rewrite Hb in E. destruct ns as [|n ns]; [done|]. pose proof (split_path (n :: ns) Hne Hns) as Hsp.
        unfold path_of in Hsp. cbn [backing_path] in E. rewrite E in Hsp. injection Hsp as <- <-.
        by apply Forall_cons in Hns as [[(_ & ? & _) _] _]. }
    unfold openBackingObject. apply total_bind_ok with (R := opened s (Some p)); [by apply total_duplicate| |by intros ? ? (? & [=] & _)].
    intros cur s' (cur' & [= <-] & Hc & ->). rewrite Hb. destruct ns as [|n ns]; [done|].
    change (backing_path (n :: ns)) with (path_of (n :: ns)). rewrite split_path by done. by apply total_components with (bytes := bytes) (q := p).
  - apply total_bind with (R := fun r s' => exists meta, r = Ok meta /\ s' = <[file := o]> s /\ meta_size meta = bytes).
    + unfold metadataFromDescriptor. apply total_bind_ok with (R := fun r s' => s' = <[file := o]> s /\ exists st, r = Ok st /\ status_of fs o st).
      * apply (total_fstat fs (<[file := o]> s) file o ltac:(apply lookup_insert_eq) (fun _ _ => True)).
      * intros st ? (-> & st' & [= <-] & Hst). pose proof (wf_bytes fs Hfs _ _ Ho) as [Hb1 Hb2].
        rewrite (status_identity fs Hfs o) by (done || by eexists). destruct Hst as (_ & _ & _ & Hsize). rewrite (Hsize _ Ho).
        cbn [kind identity_of]. rewrite (node_kind_known _ _ _ Ho), Z.eqb_refl, (proj2 (Z.ltb_ge _ _)) by done. cbn [negb orb].
        apply total_bind_ok with (R := fun r s' => s' = <[file := o]> s /\ is_ok r = true).
        -- apply total_call; [intros ? [= <-]; rewrite lookup_insert_eq; by eexists|by exists (Ok 0), 0|].
           by intros r (mtime & ->).
        -- intros mtime ? [-> _]. apply total_ret. eexists. split; [done|]. split; [done|]. cbn. apply wrap_small. unfold in_u. lia.
        -- by intros e ? [_ [=]].
      * by intros e ? (_ & ? & [=] & _).
    + intros ? ? (meta & -> & -> & Hm). apply total_ret. by exists file, meta.
Qed.

(** ** Fuel *)
(** With room for every directory that is not entered yet, more fuel shows no more. *)
Lemma show_entries_below follow below below' inside p names :
  (forall o, o ∉ inside -> is_directory fs o = true -> below o = below' o) ->
  show_entries fs follow below inside p names = show_entries fs follow below' inside p names.
Proof using.
  intros H. induction names as [|n names IH]; [done|]. cbn [show_entries]. rewrite IH. f_equal.
  unfold show_entry. destruct (entry_object fs follow p n) as [[o|]|]; [|done..]. cbn [mbind option_bind]. f_equal.
  unfold show_object. destruct (nodes fs !! o) as [[]|] eqn:Eo; try done. case_bool_decide; [done|]. apply H; [done|].
  unfold is_directory. by rewrite Eo.
Qed.

Lemma show_fuel follow fuel : forall fuel' inside p,
  (room fs inside < fuel)%nat -> (room fs inside < fuel')%nat -> show fs fuel follow inside p = show fs fuel' follow inside p.
Proof using.
  induction fuel as [|fuel IH]; intros [|fuel'] inside p H H'; [lia..|]. cbn [show].
  destruct (nodes fs !! p) as [[names parent| | |]|]; try done. f_equal. apply show_entries_below. intros o Ho Hd.
  pose proof (room_inside fs inside o Ho Hd). apply IH; lia.
Qed.

(** What a scan of [d] should show. *)
Definition shown_tree (follow : bool) (d : object) : option shown := show fs (base.size (nodes fs)) follow {[d]} d.

Lemma shown_tree_fuel follow fuel d :
  is_directory fs d = true -> (base.size (nodes fs) <= fuel)%nat -> show fs fuel follow {[d]} d = shown_tree follow d.
Proof using. intros Hd Hfuel. pose proof (room_root fs d Hd). apply show_fuel; lia. Qed.

(** ** Opening *)
(** The directory a source path names. *)
Definition source_object (path : string) : option object :=
  match normalizedSourceLabel path with
  | Ok (label, _) => o ← path_object fs label; if is_directory fs o then Some o else None
  | Err _ => None
  end.

Lemma path_object_known path o : path_object fs path = Some o -> is_Some (nodes fs !! o).
Proof using Hfs.
  unfold path_object. case_bool_decide; [intros [= <-]; apply directory_known, Hfs|].
  destruct (rev _) as [|name above]; [done|]. intros (to & _ & Ho)%bind_Some. by eapply object_at_known.
Qed.

Lemma label_base path label base : normalizedSourceLabel path = Ok (label, base) -> validateBaseName base = None.
Proof using.
  unfold normalizedSourceLabel. destruct (negb (IsAbs path)); [done|]. cbv zeta. intros (b & Hb & [= _ ->])%rbind_Ok_inv.
  unfold validateRootPath in Hb. ok_branches Hb. congruence.
Qed.

Lemma total_newSourceRoot s fd label base id :
  total s (newSourceRoot fd label base id) (fun r s' => s' = s /\ exists capability stable,
    r = MkSourceRoot (Some fd) [] label base stable id capability 0 false false false).
Proof using.
  apply total_bind with (R := fun _ s' => s' = s); [apply total_call; [by intros|by exists 0|done]|]. intros capability ? ->.
  apply total_bind with (R := fun _ s' => s' = s); [apply total_call; [by intros|by exists 0|done]|]. intros pid ? ->.
  apply total_ret. eauto.
Qed.

Lemma OpenSourceRoot_total s path :
  total s (OpenSourceRoot path) (fun r s' =>
    match source_object path with
    | Some d => exists owner fd, r = Ok owner /\ opened_on fs s' owner fd d /\ borrows owner = 0 /\ s !! fd = None /\ s' = <[fd := d]> s
    | None => s' = s /\ exists e, r = Err e
    end).
Proof using Hfs.
  unfold OpenSourceRoot, source_object.
  apply total_bind with (R := fun r s' => r = normalizedSourceLabel path /\ s' = s); [by apply total_ret|]. intros ? ? [-> ->].
  destruct (normalizedSourceLabel path) as [[label base]|e] eqn:El; [|apply total_ret; eauto].
  apply total_bind with (R := finds s (path_object fs label) (identity_of fs)).
  { apply total_bind with (R := fun r s' => s' = s /\ status_is fs (path_object fs label) r).
    - apply total_call; [by intros| |done]. cbn. destruct (path_object fs label) as [o|]; [|by exists (Err ErrEOF); eexists].
      destruct (exists_status fs o) as [st Hst]. exists (Ok st), st. done.
    - intros r s' [-> Hr]. unfold status_is in Hr. destruct (path_object fs label) as [o|] eqn:Eo.
      + destruct Hr as (st & -> & Hst). apply total_ret. split; [done|].
        by rewrite (status_identity fs Hfs o) by (by eapply path_object_known || done).
      + destruct Hr as [e ->]. apply total_ret. split; [done|by eexists]. }
  intros r s' [-> Hr]. destruct (path_object fs label) as [o|] eqn:Eo; cbn [mbind option_bind]; [subst r|destruct Hr as [e ->]; apply total_ret; eauto].
  cbn [kind identity_of]. rewrite directory_kind. destruct (is_directory fs o) eqn:Ed; cbn [negb]; [|apply total_ret; eauto].
  apply (total_bind _ _ _ _ _ (total_open_path fs s label)). intros r s' Hr. rewrite Eo in Hr. cbn [mbind option_bind] in Hr. rewrite Ed in Hr.
  destruct Hr as (fd & -> & Hf & ->).
  apply (total_bind _ _ _ _ _ (total_inspect fs Hfs (<[fd := o]> s) fd o ltac:(apply lookup_insert_eq) ltac:(by apply directory_known))).
  intros ? ? [-> ->]. cbn [expect]. rewrite bool_decide_eq_true_2 by done.
  apply (total_bind _ _ _ _ _ (total_newSourceRoot _ fd label base _)). intros owner ? (-> & capability & stable & ->).
  apply total_ret. eexists _, fd. split; [done|]. split; [|done].
  split; try done; [apply lookup_insert_eq|by eapply label_base].
Qed.

(** Open a source by its path and scan it. *)
Definition open_and_scan (fuel : nat) (follow : bool) (path : string)
  : source_io (result (SourceRoot * (SourceSnapshot * option error * option SourceRoot))) :=
  do* r := OpenSourceRoot path in
  do! out := Scan fuel true follow (Some r) in
  Ret (Ok (r, out)).

Lemma open_and_scan_total fuel follow s path :
  (base.size (nodes fs) <= fuel)%nat ->
  total s (open_and_scan fuel follow path) (fun out s' =>
    match source_object path, out with
    | None, Err _ => s' = s
    | Some d, Ok (r, out) => exists fd added,
        out.2 = Some (with_state r (Some fd) added.*1 0 true false false)
        /\ s' = list_to_map added ∪ <[fd := d]> s /\ open_on s' (fd :: added.*1) (d :: added.*2)
        /\ scanned_as fs r d added (shown_tree follow d) out.1.1 out.1.2
    | _, _ => False
    end).
Proof using Hfs.
  intros Hfuel. apply (total_bind_ok _ _ _ _ _ (OpenSourceRoot_total s path)); destruct (source_object path) as [d|].
  - intros r s' (owner & fd & [= ->] & Hon & Hb & _ & ->).
    apply (total_bind _ _ _ _ _ (Scan_total fs Hfs follow fuel _ owner fd d Hon Hfuel)). intros out s' (added & E & Hs & Hopen & Hscan).
    apply total_ret. exists fd, added. rewrite <- (shown_tree_fuel follow fuel d (on_directory _ _ _ _ _ Hon) Hfuel).
    destruct Hon as [Hr _ _ _ _ _ (_ & Ht & Hc)]. by rewrite Hr, Hb, Ht, Hc in E.
  - by intros r s' [_ (? & [=])].
  - by intros e s' (? & ? & [=] & _).
  - by intros e s' [-> _].
Qed.

(** ** Leases *)
Lemma total_duplicate_all sources : forall objs s duplicates copied,
  open_on s sources objs -> open_on s duplicates copied ->
  total s (duplicate_all sources duplicates) (fun r s' => exists files, r = Ok files /\ open_on s' files (copied ++ objs)).
Proof using.
  induction sources as [|source sources IH]; intros objs s duplicates copied Hs Hd; inversion Hs as [|? o ? objs' Ho Hs']; subst; cbn [duplicate_all].
  - apply total_ret. exists duplicates. by rewrite app_nil_r.
  - apply (total_bind _ _ _ _ _ (total_duplicate fs s source o Ho)). intros r s' (new & -> & Hnew & ->).
    assert (forall fd x, s !! fd = Some x -> <[new := o]> s !! fd = Some x) as Hkeep.
    { intros fd x Hx. rewrite lookup_insert_ne; [done|]. intros ->. congruence. }
    eapply total_mono; [apply (IH objs' _ (duplicates ++ [new]) (copied ++ [o]))|].
    + eapply Forall2_impl; [exact Hs'|]. auto.
    + apply Forall2_app; [eapply Forall2_impl; [exact Hd|]; auto|]. constructor; [apply lookup_insert_eq|constructor].
    + intros r s' (files & -> & Hf). exists files. by rewrite <- app_assoc in Hf.
Qed.

Lemma total_Acquire s r contents fd objs :
  root r = Some fd -> transferred r = false -> closed r = false ->
  identity contents = root_identity r -> capability contents = Some (root_capability r) -> open_on s (fd :: anchors r) objs ->
  total s (AcquireAccess r (Some contents))
    (fun out s' => exists files, out = (Ok (MkAccess files false None), lend 1 r) /\ open_on s' files objs).
Proof using.
  intros Hr Ht Hc Hid Hcap Hopen. unfold AcquireAccess, sameSnapshotSource. rewrite Hcap, Hr, Hid, Ht, Hc.
  rewrite bool_decide_eq_true_2, Z.eqb_refl by done. cbn [andb negb orb].
  apply (total_bind _ _ _ _ _ (total_duplicate_all (fd :: anchors r) objs s [] [] Hopen ltac:(constructor))).
  intros ? s' (files & -> & Hf). apply total_ret. by exists files.
Qed.

(** Scan a source, take a lease, and open the [i]-th file of the snapshot. *)
Definition scan_and_open (fuel : nat) (follow : bool) (r : SourceRoot) (i : nat)
  : source_io (SourceSnapshot * option (result (Z * FileMetadata))) :=
  do! '(snapshot, _, r') := Scan fuel true follow (Some r) in
  match r', snapshot_Files snapshot !! i with
  | Some r', Some f =>
      do! '(lease, _) := AcquireAccess r' snapshot in
      match lease with
      | Err e => Ret (snapshot, Some (Err e))
      | Ok lease => do! opened := OpenRegular (Some lease) (backing f) in Ret (snapshot, Some opened)
      end
  | _, _ => Ret (snapshot, None)
  end.

Lemma scan_and_open_total fuel follow s r fd d v i :
  opened_on fs s r fd d -> (base.size (nodes fs) <= fuel)%nat -> shown_tree follow d = Some v ->
  total s (scan_and_open fuel follow r i) (fun out s' =>
    match snapshot_Files out.1 !! i with
    | None => out.2 = None
    | Some f => exists file meta o, out.2 = Some (Ok (file, meta)) /\ s' !! file = Some o
        /\ (relativePath f, o, SourceTree.size f) ∈ shown_files [] v /\ meta_size meta = SourceTree.size f
    end).
Proof using Hfs.
  intros Hon Hfuel Hv. rewrite <- (shown_tree_fuel follow fuel d (on_directory _ _ _ _ _ Hon) Hfuel) in Hv. apply (total_bind _ _ _ _ _ (Scan_total fs Hfs follow fuel s r fd d Hon Hfuel)).
  intros [[snapshot err] r'] s1 (added & E & _ & Hopen & Hscan). cbn [fst snd] in *. subst r'. rewrite Hv in Hscan.
  destruct (snapshot_Files snapshot !! i) as [f|] eqn:Ef; [|by apply total_ret; cbn [fst snd]; rewrite Ef].
  destruct snapshot as [contents|]; [|done]. destruct Hscan as (Hshows & _ & Hid & Hcap & Hflat & _).
  pose proof Hon as [Hroot _ _ _ _ _ (_ & Ht & Hc)]. rewrite Hroot in *.
  apply (total_bind _ _ _ _ _ (total_Acquire s1 (with_state r (Some fd) added.*1 (borrows r) true (transferred r) (closed r)) contents fd
    (d :: added.*2) eq_refl Ht Hc Hid Hcap Hopen)).
  intros ? s2 (files & -> & Hfiles).
  assert (f ∈ entry_files (directoryEntry (tree_root (tree contents)))) as Hf.
  { pose proof (flattenTree_spec (tree contents)) as Hspec.
    rewrite Hflat in Hspec. destruct Hspec as (_ & _ & [Hfl _ _ _ _ _ _]). cbn in Ef. apply list_elem_of_lookup_2 in Ef. rewrite Hfl in Ef.
    unfold tree_files in Ef. unfold directoryEntry. cbn [entry_files]. by destruct (dirChildren _). }
  destruct (shown_file (d :: added.*2) _ [] v f Hshows Hf) as (o & Hin & Hl).
  pose proof (shown_file_regular _ _ _ _ _ _ _ _ _ Hv Hin) as Ho.
  apply (total_bind _ _ _ _ _ (total_OpenRegular s2 files (d :: added.*2) (backing f) o _ Hfiles Hl Ho)).
  intros ? s3 (file & meta & -> & _ & -> & Hm). apply total_ret. cbn [fst snd]. cbn in Ef |- *. rewrite Ef.
  exists file, meta, o. split_and!; [done|apply lookup_insert_eq|done|done].
Qed.
End Source.

(** ** Properties *)
(** C7. On a file system that does not change, opening a source by its path and
    scanning it, with as much fuel as there are objects, always returns, whatever
    links there are.  It shows the tree of names, objects and sizes that path
    resolution finds below the directory of that path (each link followed through
    at most forty links, or all links left out); its lists are those of the tree,
    every backing reference leads to its object from one of the anchors the owner
    now holds, and a tree without files and empty directories is reported.  It
    fails exactly where the path is not an acceptable name of a directory, some
    entry cannot be resolved or leads back into a directory it is in, or the owner
    has as many anchors as can be named; nothing but the root and its anchors is
    left open. *)
Theorem scan_shows_the_directory fs follow fuel s path :
  filesystem_wf fs -> (base.size (nodes fs) <= fuel)%nat ->
  @total SourceE (gmap Z object) (quiet_world fs) _ s (open_and_scan fuel follow path) (fun out s' =>
    match source_object fs path, out with
    | None, Err _ => s' = s
    | Some d, Ok (r, out) => exists fd added,
        out.2 = Some (with_state r (Some fd) added.*1 0 true false false)
        /\ s' = list_to_map added ∪ <[fd := d]> s /\ open_on s' (fd :: added.*1) (d :: added.*2)
        /\ scanned_as fs r d added (shown_tree fs follow d) out.1.1 out.1.2
    | _, _ => False
    end).
Proof. intros Hfs. by apply open_and_scan_total. Qed.

(** C22. What a lease opens is what was scanned: on a file system that does not
    change, scanning a source, acquiring a lease with the snapshot and opening
    any file of it by its backing reference succeeds, and opens the object that
    is shown at the file's path, with the size that was captured. *)
Theorem leases_open_what_was_scanned fs follow fuel s r fd d v i :
  filesystem_wf fs -> opened_on fs s r fd d -> (base.size (nodes fs) <= fuel)%nat -> shown_tree fs follow d = Some v ->
  @total SourceE (gmap Z object) (quiet_world fs) _ s (scan_and_open fuel follow r i) (fun out s' =>
    match snapshot_Files out.1 !! i with
    | None => out.2 = None
    | Some f => exists file meta o, out.2 = Some (Ok (file, meta)) /\ s' !! file = Some o
        /\ (relativePath f, o, SourceTree.size f) ∈ shown_files [] v /\ meta_size meta = SourceTree.size f
    end).
Proof. intros Hfs. by apply scan_and_open_total. Qed.

(** ** A file system *)
Module Sample.
Definition files : filesystem := MkFilesystem
  (list_to_map [((1, 1), Directory (list_to_map [("data", (1, 2)); ("etc", (1, 5))]) (1, 1));
                ((1, 2), Directory (list_to_map [("a.txt", (1, 3)); ("link", (1, 4)); ("empty", (1, 6)); ("pipe", (1, 8))]) (1, 1));
                ((1, 3), Regular 12);
                ((1, 4), Symlink "../etc/up");
                ((1, 5), Directory (list_to_map [("up", (1, 7)); ("back", (1, 9))]) (1, 1));
                ((1, 6), Directory ∅ (1, 2));
                ((1, 7), Symlink "/data/./a.txt");
                ((1, 8), Special);
                ((1, 9), Symlink "../etc/")])
  (1, 1).

Definition source : SourceRoot :=
  MkSourceRoot (Some 7) [] "/data" "data" "/proc/9/fd/7" (identity_of files (1, 2)) 1 0 false false false.
Definition open_files : gmap Z object := {[7 := (1, 2)]}.

Example followed : shown_tree files true (1, 2)
  = Some (ShownDir (1, 2) [("a.txt", ShownFile (1, 3) 12); ("empty", ShownDir (1, 6) []); ("link", ShownFile (1, 3) 12)]).
Proof. vm_compute. reflexivity. Qed.

Example left_out : shown_tree files false (1, 2)
  = Some (ShownDir (1, 2) [("a.txt", ShownFile (1, 3) 12); ("empty", ShownDir (1, 6) [])]).
Proof. vm_compute. reflexivity. Qed.

(** [/etc/back] leads back to [/etc]. *)
Example cycle : shown_tree files true (1, 5) = None.
Proof. vm_compute. reflexivity. Qed.

(** The table of a finite map, entry by entry. *)
Lemma map_cases {A} (P : object -> A -> Prop) (l : list (object * A)) :
  NoDup l.*1 -> Forall (fun x => P x.1 x.2) l -> forall o a, (list_to_map l : gmap object A) !! o = Some a -> P o a.
Proof. intros Hn Hl o a H%elem_of_list_to_map; [|done]. rewrite Forall_forall in Hl. apply (Hl (o, a) H). Qed.

Lemma name_cases (P : string -> object -> Prop) (l : list (string * object)) :
  NoDup l.*1 -> Forall (fun x => P x.1 x.2) l -> forall n o, (list_to_map l : gmap string object) !! n = Some o -> P n o.
Proof. intros Hn Hl n o H%elem_of_list_to_map; [|done]. rewrite Forall_forall in Hl. apply (Hl (n, o) H). Qed.

(** What is asked of each entry of the table. *)
Definition entry_wf (o : object) (n : node) : Prop :=
  in_u 64 o.1 /\
  match n with
  | Directory names parent =>
      is_directory files parent = true
      /\ forall name x, names !! name = Some x -> proper_name name /\ has_char slash name = false /\ is_Some (nodes files !! x)
  | Regular bytes => in_u 63 bytes
  | Symlink target => slen target < 4096
  | Special => True
  end.

Ltac table := first
  [ apply NoDup_nil_2
  | apply NoDup_cons; split; [set_solver|table] ].

Lemma files_entries o n : nodes files !! o = Some n -> entry_wf o n.
Proof.
  revert o n. apply map_cases; [cbn; table|].
  repeat first [apply Forall_nil_2|apply Forall_cons_2]; cbn [entry_wf fst snd]; (split; [done|]); try done.
  all: split; [done|]; try (intros name x; by rewrite lookup_empty).
  all: apply name_cases; [cbn; table|]; repeat first [apply Forall_nil_2|apply Forall_cons_2]; cbn [fst snd];
    (split; [by split|split; [done|by eexists]]).
Qed.

Lemma files_wf : filesystem_wf files.
Proof.
  split.
  - done.
  - intros p names parent H%files_entries. by destruct H as [_ [? _]].
  - intros p names parent name o H%files_entries. destruct H as [_ [_ H]]. apply H.
  - intros o [n H%files_entries]. by destruct H.
  - intros o bytes H%files_entries. by destruct H.
  - intros o target H%files_entries. by destruct H.
Qed.

Lemma source_opened : opened_on files open_files source 7 (1, 2).
Proof. split; done. Qed.
End Sample.

Lemma scan_shows_the_directory_witness :
  source_object Sample.files "/data/" = Some (1, 2) /\ is_Some (shown_tree Sample.files true (1, 2)) /\
  @total SourceE (gmap Z object) (quiet_world Sample.files) _ ∅ (open_and_scan 9 true "/data/") (fun out s' =>
    match source_object Sample.files "/data/", out with
    | None, Err _ => s' = ∅
    | Some d, Ok (r, out) => exists fd added,
        out.2 = Some (with_state r (Some fd) added.*1 0 true false false)
        /\ s' = list_to_map added ∪ <[fd := d]> ∅ /\ open_on s' (fd :: added.*1) (d :: added.*2)
        /\ scanned_as Sample.files r d added (shown_tree Sample.files true d) out.1.1 out.1.2
    | _, _ => False
    end).
Proof.
  split; [vm_compute; reflexivity|]. split; [rewrite Sample.followed; by eexists|].
  apply (scan_shows_the_directory Sample.files true 9 ∅ "/data/" Sample.files_wf). vm_compute. lia.
Defined.

Lemma leases_open_what_was_scanned_witness :
  exists v, shown_files [] v = [("a.txt", (1, 3), 12); ("link", (1, 3), 12)] /\
  @total SourceE (gmap Z object) (quiet_world Sample.files) _ Sample.open_files (scan_and_open 9 true Sample.source 1) (fun out s' =>
    match snapshot_Files out.1 !! 1%nat with
    | None => out.2 = None
    | Some f => exists file meta o, out.2 = Some (Ok (file, meta)) /\ s' !! file = Some o
        /\ (relativePath f, o, SourceTree.size f) ∈ shown_files [] v /\ meta_size meta = SourceTree.size f
    end).
Proof.
  eexists. split; [|apply (leases_open_what_was_scanned Sample.files true 9 Sample.open_files Sample.source 7 (1, 2) _ 1
    Sample.files_wf Sample.source_opened); [vm_compute; lia|exact Sample.followed]]. reflexivity.
Defined.
