(* ===== verification/IPTables.v ===== *)
(** * Rule programs of iptables

    [hostnetwork/iptables.go]: the rules a claim has in the tables [filter] and
    [nat], the commands that insert and delete them, and what the saved tables
    say of them.  A table is the text [iptables-save] prints; its lines are read
    the way a shell splits them. *)
From S2P Require Import Prelude Utf8 TransferNumber GoText Netip Hashing NetipText RunId HostAllocation HostAllocationProofs HostClaim PublishedClaims.

(** ** The program of a claim *)
Record iptablesRule : Type := MkIPRule {
  ir_table : string;
  ir_chain : string;
  ir_argv : list string;
  ir_owner : string
}.
Record iptablesProgram : Type := MkIPProgram { ip_ownerPrefix : string; ip_rules : list iptablesRule }.
Record iptablesMutation : Type := MkIPMutation { im_owner : string; im_argv : list string }.

(** The comment goes before the jump. *)
Fixpoint with_comment (comment argv : list string) : list string :=
  match argv with
  | [] => comment
  | word :: rest => if bool_decide (word = "-j") then comment ++ argv else word :: with_comment comment rest
  end.

Definition newIPTablesRule (table chain owner : string) (argv : list string) : iptablesRule :=
  MkIPRule table chain (with_comment ["-m"; "comment"; "--comment"; owner] argv) owner.

Definition owner_prefix (claim : networkClaim) : string :=
  "transferlanes:" +:+ IDString (nc_runID claim) +:+ ":" +:+ nc_ownerToken claim +:+ ":".

Definition transfer_owner (claim : networkClaim) (t : transferAllocation) : string :=
  owner_prefix claim +:+ pretty (ta_number t).

Definition transfer_iptables_rules (claim : networkClaim) (t : transferAllocation) : list iptablesRule :=
  let owner := transfer_owner claim t in
  [ newIPTablesRule "filter" "FORWARD" (owner +:+ ":forward-out")
      ["-s"; PrefixString (subnet t); "-i"; hostVeth t; "-o"; ta_providerName t; "-j"; "ACCEPT"];
    newIPTablesRule "filter" "FORWARD" (owner +:+ ":return")
      ["-d"; PrefixString (subnet t); "-i"; ta_providerName t; "-o"; hostVeth t;
       "-m"; "conntrack"; "--ctstate"; "RELATED,ESTABLISHED"; "-j"; "ACCEPT"];
    newIPTablesRule "filter" "FORWARD" (owner +:+ ":drop-out") ["-i"; hostVeth t; "-j"; "DROP"];
    newIPTablesRule "filter" "FORWARD" (owner +:+ ":drop-in") ["-o"; hostVeth t; "-j"; "DROP"];
    newIPTablesRule "nat" "POSTROUTING" (owner +:+ ":snat")
      ["-s"; AddrString (namespaceIP t) +:+ "/32"; "-o"; ta_providerName t;
       "-j"; "SNAT"; "--to-source"; AddrString (ta_source t)] ].

Definition claim_iptables_rules (claim : networkClaim) : list iptablesRule :=
  mjoin (transfer_iptables_rules claim <$> nc_transfers claim).

Definition buildIPTablesProgram (claim : networkClaim) : result iptablesProgram :=
  check! validateClaim claim (nc_runID claim) in
  if negb (bool_decide (nc_backend claim = firewallIPTables))
  then Err (ErrText "iptables program requires an iptables network claim")
  else Ok (MkIPProgram (owner_prefix claim) (claim_iptables_rules claim)).

(** ** Commands *)
Definition iptablesTableCommand (table operation : string) : list string := ["-w"; "5"; "-t"; table; operation].
Definition iptablesChainCommand (table operation chain : string) : list string :=
  iptablesTableCommand table operation ++ [chain].
Definition iptablesRuleCommand (table operation chain : string) (rule : list string) : list string :=
  iptablesChainCommand table operation chain ++ rule.

Definition rules_of_table (program : iptablesProgram) (table : string) : list iptablesRule :=
  filter (fun rule => ir_table rule = table) (ip_rules program).

Definition install_mutation (rule : iptablesRule) : iptablesMutation :=
  MkIPMutation (ir_owner rule) (iptablesTableCommand (ir_table rule) "-I" ++ [ir_chain rule; "1"] ++ ir_argv rule).

(** In reverse order at position one, so that the program ends up in order
    before what is there. *)
Definition install_mutations (program : iptablesProgram) : list iptablesMutation :=
  mjoin ((fun table => install_mutation <$> rev (rules_of_table program table)) <$> ["filter"; "nat"]).

Definition buildIPTablesInstallMutations (claim : networkClaim) : result (list iptablesMutation) :=
  let* program := buildIPTablesProgram claim in Ok (install_mutations program).

Definition buildIPTablesInstallCommands (claim : networkClaim) : result (list (list string)) :=
  let* mutations := buildIPTablesInstallMutations claim in Ok (im_argv <$> mutations).

(** ** Receipts *)
Record firewallReceipts : Type := MkReceipts { rc_kind : string; rc_owners : gset string }.
Definition newFirewallReceipts (kind : string) : firewallReceipts := MkReceipts kind ∅.
Definition receipts_add (receipts : firewallReceipts) (owner : string) : firewallReceipts :=
  MkReceipts (rc_kind receipts) ({[ owner ]} ∪ rc_owners receipts).
Definition receipts_has (receipts : firewallReceipts) (owner : string) : bool := bool_decide (owner ∈ rc_owners receipts).

(** What complete receipts of a claim name. *)
Definition firewallReceiptOwners (claim : networkClaim) : result (list string) :=
  if bool_decide (nc_backend claim = firewallNFTables) then Ok ["nft:" +:+ nc_firewallTable claim]
  else if bool_decide (nc_backend claim = firewallIPTables) then
    let* program := buildIPTablesProgram claim in Ok (ir_owner <$> ip_rules program)
  else Err (ErrText ("unsupported firewall receipt backend " +:+ Quote (nc_backend claim))).

Definition receipts_requireComplete (receipts : firewallReceipts) (claim : networkClaim) : option error :=
  match firewallReceiptOwners claim with
  | Err e => Some e
  | Ok expected =>
      if negb (bool_decide (rc_kind receipts = nc_backend claim))
         || negb (Z.of_nat (size (rc_owners receipts)) =? zlen expected) || negb (forallb (receipts_has receipts) expected)
      then Some (ErrText "live firewall receipt set is incomplete") else None
  end.

(** ** Reading a saved table *)
(** The state of the loop of [splitIPTablesLine] over the runes of a line. *)
Record splitState : Type := MkSplit {
  sp_words : list string;
  sp_word : list byte;
  sp_quote : option (list byte);
  sp_escaped : bool
}.

Definition split_flush (s : splitState) : splitState :=
  MkSplit (sp_words s ++ flush_word (sp_word s)) [] (sp_quote s) (sp_escaped s).
Definition split_write (s : splitState) (r : list byte) : splitState :=
  MkSplit (sp_words s) (sp_word s ++ r) (sp_quote s) false.

Definition split_step (s : splitState) (r : list byte) : splitState :=
  if sp_escaped s then split_write s r
  else if bool_decide (r = [x5c]) then MkSplit (sp_words s) (sp_word s) (sp_quote s) true
  else
    match sp_quote s with
    | Some quote => if bool_decide (r = quote) then MkSplit (sp_words s) (sp_word s) None false else split_write s r
    | None =>
        if bool_decide (r = [x27]) || bool_decide (r = [x22]) then MkSplit (sp_words s) (sp_word s) (Some r) false
        else if IsSpace r then split_flush s
        else split_write s r
    end.

Definition splitIPTablesLine (line : string) : result (list string) :=
  let s := foldl split_step (MkSplit [] [] None false) (runes line) in
  if sp_escaped s || bool_decide (is_Some (sp_quote s)) then Err (ErrText "unterminated iptables quoting")
  else
    let words := sp_words (split_flush s) in
    if zlen words =? 0 then Err (ErrText "empty iptables command line") else Ok words.

(** [None]: the chain is one of iptables itself. *)
Definition parseIPTablesSaveChain (line : string) : result (option (list string)) :=
  match Fields (TrimPrefix line ":") with
  | name :: policy :: _ => if bool_decide (policy = "-") then Ok (Some ["-N"; name]) else Ok None
  | _ => Err (ErrText ("malformed iptables-save chain declaration " +:+ Quote line))
  end.

Definition skipped_line (line : string) : bool :=
  bool_decide (line = "") || HasPrefix line "#" || HasPrefix line "*" || bool_decide (line = "COMMIT").

(** What the turn of the loop for a trimmed line appends. *)
Definition parse_line (line : string) : result (list (list string)) :=
  if skipped_line line then Ok []
  else if HasPrefix line ":" then
    let* declaration := parseIPTablesSaveChain line in
    Ok (match declaration with Some d => [d] | None => [] end)
  else let* argv := splitIPTablesLine line in Ok [argv].

(** [bufio.Scanner] over lines: a line that does not fit into its buffer ends
    the scan with an error, an unfinished last line counts, and one carriage
    return before the newline is dropped. *)
Definition maxTokenSize : Z := 2 ^ 20.
Definition drop_cr (l : list byte) : list byte :=
  match rev l with b :: rest => if Byte.eqb b x0d then rev rest else l | [] => l end.
Definition scanned_lines (output : string) : list (list byte) :=
  let ls := split_lines [] (bytes_of output) in
  match rev ls with [] :: rest => rev rest | _ => ls end.

Fixpoint parse_lines (ls : list (list byte)) : result (list (list string)) :=
  match ls with
  | [] => Ok []
  | l :: ls =>
      if maxTokenSize <=? zlen l then Err (ErrWrap "scan iptables output" (ErrSentinel "bufio.Scanner: token too long"))
      else
        let* parsed := parse_line (TrimSpace (text_of (drop_cr l))) in
        let* rest := parse_lines ls in
        Ok (parsed ++ rest)
  end.

Definition parseIPTablesLines (output : string) : result (list (list string)) := parse_lines (scanned_lines output).

(** ** Observing a program *)
(** [iptablesObservation.present]. *)
Notation iptablesObservation := (gmap string bool).
Definition observation_count (present : iptablesObservation) : Z :=
  zlen (filter (fun '(_, p) => p = true) (map_to_list present)).

Fixpoint iptablesOption (argv : list string) (name : string) : string :=
  match argv with
  | word :: (value :: _) as rest => if bool_decide (word = name) then value else iptablesOption rest name
  | _ => ""
  end.

Definition saved_rule (rule : iptablesRule) : list string := ["-A"; ir_chain rule] ++ ir_argv rule.

Definition expected_rules (program : iptablesProgram) (table : string) : gmap string (list string) :=
  foldl (fun m rule => <[ ir_owner rule := saved_rule rule ]> m) ∅ (rules_of_table program table).

(** The comment of a line that appends a rule. *)
Definition line_owner (line : list string) : option string :=
  match line with
  | op :: _ :: options => if bool_decide (op = "-A") then Some (iptablesOption options "--comment") else None
  | _ => None
  end.

Fixpoint observe_lines (ownerPrefix : string) (expected : gmap string (list string)) (present : iptablesObservation)
    (lines : list (list string)) : result iptablesObservation :=
  match lines with
  | [] => Ok present
  | line :: lines =>
      match line_owner line with
      | None => observe_lines ownerPrefix expected present lines
      | Some owner =>
          if negb (HasPrefix owner ownerPrefix) then observe_lines ownerPrefix expected present lines
          else
            match expected !! owner with
            | None => Err (ErrText ("unknown rule has the claim owner prefix " +:+ Quote owner))
            | Some want =>
                if default false (present !! owner)
                then Err (ErrText ("owned rule " +:+ Quote owner +:+ " appears more than once"))
                else if negb (bool_decide (line = want))
                then Err (ErrText ("owned rule " +:+ Quote owner +:+ " has conflicting shape: actual="
                                     +:+ QuoteList line +:+ " expected=" +:+ QuoteList want))
                else observe_lines ownerPrefix expected (<[ owner := true ]> present) lines
            end
      end
  end.

Definition observeIPTablesTable (output table : string) (program : iptablesProgram) (present : iptablesObservation)
    : result iptablesObservation :=
  let* actual := parseIPTablesLines output in
  observe_lines (ip_ownerPrefix program) (expected_rules program table) present actual.

Definition iptablesExpectedTableLines (program : iptablesProgram) (table : string) : list (list string) :=
  saved_rule <$> rules_of_table program table.

(** A line that appends to the chain. *)
Definition appends_to (chain : string) (line : list string) : bool :=
  match line with op :: c :: _ => bool_decide (op = "-A") && bool_decide (c = chain) | _ => false end.
Definition iptablesChainRules (lines : list (list string)) (chain : string) : list (list string) :=
  filter (fun line => appends_to chain line = true) lines.

Definition is_leading (expected actual : list (list string)) : bool :=
  (length expected <=? length actual)%nat && bool_decide (take (length expected) actual = expected).

Definition require_leading_table (output table chain : string) (program : iptablesProgram) : option error :=
  match parseIPTablesLines output with
  | Err e => Some e
  | Ok actual =>
      if is_leading (iptablesExpectedTableLines program table) (iptablesChainRules actual chain) then None
      else Some (ErrText ("owned iptables " +:+ table +:+ " rules are not the leading exact program"))
  end.

Definition requireLeadingIPTablesProgram (filterOutput natOutput : string) (program : iptablesProgram) : option error :=
  match require_leading_table filterOutput "filter" "FORWARD" program with
  | Some e => Some e
  | None => require_leading_table natOutput "nat" "POSTROUTING" program
  end.

Definition none_present (program : iptablesProgram) : iptablesObservation :=
  foldl (fun m rule => <[ ir_owner rule := false ]> m) ∅ (ip_rules program).

Definition wrap_table {A} (table : string) (r : result A) : result A :=
  match r with Ok a => Ok a | Err e => Err (ErrWrap ("observe iptables " +:+ table +:+ " ownership") e) end.

Definition observeIPTablesProgram (filterOutput natOutput : string) (program : iptablesProgram) (allowPartial : bool)
    : result iptablesObservation :=
  let* present := wrap_table "filter" (observeIPTablesTable filterOutput "filter" program (none_present program)) in
  let* present := wrap_table "nat" (observeIPTablesTable natOutput "nat" program present) in
  if allowPartial then Ok present
  else if negb (observation_count present =? zlen (ip_rules program)) then Err (ErrText "owned iptables program is incomplete")
  else check! requireLeadingIPTablesProgram filterOutput natOutput program in Ok present.

(** ** Removing *)
Definition buildIPTablesRemoveCommandsFor (program : iptablesProgram) (observation : iptablesObservation)
    (receipts : option firewallReceipts) : list (list string) :=
  (fun rule => iptablesRuleCommand (ir_table rule) "-D" (ir_chain rule) (ir_argv rule))
    <$> filter (fun rule => default false (observation !! ir_owner rule)
                            && match receipts with None => true | Some r => receipts_has r (ir_owner rule) end = true)
          (ip_rules program).

Definition buildIPTablesRemoveCommands (program : iptablesProgram) (observation : iptablesObservation) : list (list string) :=
  buildIPTablesRemoveCommandsFor program observation None.

(** ** Published programs *)
Definition indexedIPTablesProgram : Type := Z * iptablesProgram.

Fixpoint take_matching {A} (p : A -> bool) (l : list A) : option (A * list A) :=
  match l with
  | [] => None
  | a :: l => if p a then Some (a, l)
              else match take_matching p l with Some (x, rest) => Some (x, a :: rest) | None => None end
  end.

(** The loop over the remaining programs: one of them leaves in each turn, and
    [chainRules] is what the cursor has not passed. *)
Fixpoint leading_order (n : nat) (table : string) (chainRules : list (list string)) (remaining : list indexedIPTablesProgram)
    : result (list Z) :=
  match n with
  | O => Ok []
  | S n =>
      match take_matching (fun candidate =>
              let expected := iptablesExpectedTableLines candidate.2 table in
              (0 <? length expected)%nat && is_leading expected chainRules) remaining with
      | None => Err (ErrText ("published iptables " +:+ table +:+ " rules are not the leading exact programs"))
      | Some (matched, remaining) =>
          let* order := leading_order n table
            (drop (length (iptablesExpectedTableLines matched.2 table)) chainRules) remaining in
          Ok (matched.1 :: order)
      end
  end.

Definition leadingIPTablesProgramOrder (output table chain : string) (programs : list indexedIPTablesProgram)
    : result (list Z) :=
  if zlen programs =? 0 then Ok []
  else
    let* actual := parseIPTablesLines output in
    leading_order (length programs) table (iptablesChainRules actual chain) programs.

(** Presence by program, and the programs that are complete. *)
Fixpoint observe_programs (filterOutput natOutput : string) (index : Z) (programs : list iptablesProgram)
    : result (list bool * list indexedIPTablesProgram) :=
  match programs with
  | [] => Ok ([], [])
  | program :: programs =>
      match observeIPTablesProgram filterOutput natOutput program true with
      | Err e => Err (ErrWrap ("observe published iptables program " +:+ Quote (ip_ownerPrefix program)) e)
      | Ok observation =>
          let count := observation_count observation in
          if count =? 0 then
            let* '(present, complete) := observe_programs filterOutput natOutput (index + 1) programs in
            Ok (false :: present, complete)
          else if count =? zlen (ip_rules program) then
            let* '(present, complete) := observe_programs filterOutput natOutput (index + 1) programs in
            Ok (true :: present, (index, program) :: complete)
          else Err (ErrText ("published iptables program " +:+ Quote (ip_ownerPrefix program) +:+ " is incomplete"))
      end
  end.

Definition observePublishedIPTablesPrograms (filterOutput natOutput : string) (programs : list iptablesProgram)
    : result (list bool) :=
  let* '(present, complete) := observe_programs filterOutput natOutput 0 programs in
  let* filterOrder := leadingIPTablesProgramOrder filterOutput "filter" "FORWARD" complete in
  let* natOrder := leadingIPTablesProgramOrder natOutput "nat" "POSTROUTING" complete in
  if bool_decide (filterOrder = natOrder) then Ok present
  else Err (ErrText "published iptables filter and nat programs have different owner order").

(** ** Words *)
Definition not_option (word : string) : Prop := HasPrefix word "-" = false.

Lemma not_option_ne word s : not_option word -> HasPrefix s "-" = true -> word <> s.
Proof. unfold not_option. congruence. Qed.

(** The words of a rule that the claim brings in. *)
Definition plain_transfer (t : transferAllocation) : Prop :=
  Forall not_option [PrefixString (subnet t); hostVeth t; ta_providerName t; AddrString (namespaceIP t) +:+ "/32"; AddrString (ta_source t)].

Lemma bytes_head_not_option s b l : bytes_of s = b :: l -> b <> x2d -> not_option s.
Proof.
  intros H Hb. unfold not_option. destruct (HasPrefix s "-") eqn:E; [|done]. apply HasPrefix_spec in E as [rest ->].
  rewrite bytes_of_app in H. change (bytes_of "-") with [x2d] in H. injection H as H _. congruence.
Qed.

Lemma dotted_not_option v rest : in_u 32 v -> not_option (dotted v +:+ rest).
Proof.
  intros Hv. pose proof (dotted_bytes v Hv) as Hb. pose proof (bytes_of_dotted v) as E.
  destruct (bytes_of (dotted v)) as [|b l] eqn:El; [by destruct (octet_text (v / 2 ^ 24))|].
  apply (bytes_head_not_option _ b (l ++ bytes_of rest)); [by rewrite bytes_of_app, El|].
  apply Forall_cons in Hb as [Hb _]. intros ->. destruct Hb as [[d Hd]|[Hd|Hd]]; [|done..]. done.
Qed.

(** The subnet of a transfer is a slot with its two addresses. *)
Lemma ok_transfer_slot claim t :
  ok_transfer claim t ->
  exists k, 0 <= k < slots /\ subnet t = slot k /\ hostIP t = Addr4 (slot_base k + 1) /\ namespaceIP t = Addr4 (slot_base k + 2).
Proof.
  intros (owner & mac & _ & _ & Ef). unfold transfer_facts_ok in Ef. rewrite !andb_true_iff, !bool_decide_eq_true, !Z.eqb_eq in Ef.
  assert (F : prefix_bits (subnet t) = 30 /\ subnet t = Masked (subnet t) /\ Contains temporaryRange (prefix_ip (subnet t)) = true /\
    hostIP t = Next (prefix_ip (subnet t)) /\ namespaceIP t = Next (hostIP t)) by tauto.
  clear Ef. destruct F as (E30 & Em & Ein & Eh & En).
  destruct (masked_in_range_slot _ E30 Em Ein) as [k Ek]. exists k.
  assert (Hk : 0 <= k < slots).
  { rewrite Ek in Ein. apply Contains_spec in Ein as (_ & _ & _ & _ & Ht). revert Ht. unfold top_bits, slot. cbn. unfold slot_base, slots.
    intros Ht. Z.to_euclidean_division_equations. lia. }
  destruct (slot_Next k Hk) as [N1 N2]. rewrite Ek in Eh. split; [done|]. split_and!; congruence.
Qed.

Lemma slot_range k : 0 <= k < slots -> in_u 32 (slot_base k) /\ in_u 32 (slot_base k + 1) /\ in_u 32 (slot_base k + 2).
Proof. unfold slots, slot_base, in_u. lia. Qed.

Lemma ok_transfer_facts claim t :
  ok_transfer claim t ->
  1 <= ta_number t <= Maximum /\ Is4 (ta_source t) = true /\ validProviderName (ta_providerName t) = true /\
  exists owner, hostVeth t = hostName owner.
Proof.
  intros (owner & mac & _ & _ & Ef). unfold transfer_facts_ok in Ef. rewrite !andb_true_iff, !bool_decide_eq_true, !Z.leb_le in Ef.
  intuition. by exists owner.
Qed.

Lemma ok_transfer_plain claim t :
  ok_transfer claim t -> addr_wf (ta_source t) -> not_option (ta_providerName t) -> plain_transfer t.
Proof.
  intros Hok Hs Hp. destruct (ok_transfer_slot _ _ Hok) as (k & Hk & Es & _ & En). destruct (slot_range k Hk) as (R1 & _ & R3).
  destruct (ok_transfer_facts _ _ Hok) as (_ & H4 & _ & owner & Eh). unfold plain_transfer.
  repeat constructor; [|by rewrite Eh|done| |].
  - rewrite Es. unfold PrefixString. cbn [PrefixIsValid slot prefix_bits]. by apply dotted_not_option.
  - rewrite En. by apply dotted_not_option.
  - destruct (ta_source t) as [|v|]; try done. rewrite <- (append_empty (AddrString _)). by apply dotted_not_option.
Qed.

(** ** Comments *)
Lemma with_comment_before comment pre post : "-j" ∉ pre -> with_comment comment (pre ++ "-j" :: post) = pre ++ comment ++ "-j" :: post.
Proof.
  induction pre as [|w pre IH]; intros H; [done|]. apply not_elem_of_cons in H as [Hw H]. cbn [app with_comment].
  rewrite bool_decide_eq_false_2 by congruence. by rewrite IH.
Qed.

Lemma option_after pre name value post :
  name ∉ pre -> iptablesOption (pre ++ name :: value :: post) name = value.
Proof.
  induction pre as [|w pre IH]; intros H; [cbn; by rewrite bool_decide_eq_true_2|]. apply not_elem_of_cons in H as [Hw H].
  specialize (IH H). destruct pre as [|w' pre]; cbn [app iptablesOption] in *; rewrite bool_decide_eq_false_2 by congruence; done.
Qed.

Lemma saved_rule_owner table chain owner pre post :
  "-j" ∉ pre -> "--comment" ∉ pre -> line_owner (saved_rule (newIPTablesRule table chain owner (pre ++ "-j" :: post))) = Some owner.
Proof.
  intros Hj Hc. unfold newIPTablesRule, saved_rule, line_owner. cbn [ir_chain ir_argv app]. rewrite with_comment_before by done.
  rewrite bool_decide_eq_true_2 by done. f_equal.
  replace (pre ++ ["-m"; "comment"; "--comment"; owner] ++ "-j" :: post)
    with ((pre ++ ["-m"; "comment"]) ++ "--comment" :: owner :: "-j" :: post) by (by rewrite <- app_assoc).
  apply option_after. rewrite not_elem_of_app. split; [done|]. set_solver.
Qed.

Lemma transfer_rules_saved claim t :
  plain_transfer t -> Forall (fun r => line_owner (saved_rule r) = Some (ir_owner r)) (transfer_iptables_rules claim t).
Proof.
  intros H. unfold plain_transfer in H. rewrite !Forall_cons in H. destruct H as (H1 & H2 & H3 & H4 & H5 & _).
  assert (Hne : forall w s, not_option w -> HasPrefix s "-" = true -> s <> w) by (intros w s Hw Hs ->; unfold not_option in Hw; congruence).
  unfold transfer_iptables_rules.
  repeat (constructor; [eapply (saved_rule_owner _ _ _ [_; _; _; _; _; _; _; _; _; _] _) || eapply (saved_rule_owner _ _ _ [_; _; _; _; _; _] _)
    || eapply (saved_rule_owner _ _ _ [_; _; _; _] _) || eapply (saved_rule_owner _ _ _ [_; _] _);
    rewrite !not_elem_of_cons; repeat split; try (by apply not_elem_of_nil); try (by apply Hne); discriminate|]). constructor.
Qed.

(** ** Owners *)
Definition suffixes : list string := [":forward-out"; ":return"; ":drop-out"; ":drop-in"; ":snat"].

Lemma numbers_plain : forallb (fun n => forallb (fun b => negb (Byte.eqb b x3a)) (bytes_of (pretty n))) (seqZ 1 35) = true.
Proof. vm_compute. reflexivity. Qed.

Lemma number_plain n : 1 <= n <= Maximum -> x3a ∉ bytes_of (pretty n).
Proof.
  unfold Maximum. intros Hn Hin. pose proof numbers_plain as H. rewrite forallb_forall in H.
  specialize (H n). rewrite <- list_elem_of_In, elem_of_seqZ, forallb_forall in H. specialize (H ltac:(lia) x3a).
  rewrite <- list_elem_of_In in H. by specialize (H Hin).
Qed.

Lemma split_at_first {A} (x : A) l l' r r' : x ∉ l -> x ∉ l' -> l ++ x :: r = l' ++ x :: r' -> l = l' /\ r = r'.
Proof.
  revert l'; induction l as [|a l IH]; intros [|a' l'] H H' E; cbn in E; [by simplify_eq|..|];
    injection E as E1 E; subst; try (exfalso; set_solver).
  apply not_elem_of_cons in H as [_ H], H' as [_ H']. by destruct (IH l' H H' E) as [-> ->].
Qed.

Lemma owner_inj claim t t' s s' :
  1 <= ta_number t <= Maximum -> 1 <= ta_number t' <= Maximum ->
  transfer_owner claim t +:+ String (Ascii.ascii_of_byte x3a) s = transfer_owner claim t' +:+ String (Ascii.ascii_of_byte x3a) s' ->
  ta_number t = ta_number t' /\ s = s'.
Proof.
  intros H H' E. unfold transfer_owner in E. apply (f_equal bytes_of) in E. rewrite !bytes_of_app in E.
  rewrite <- !app_assoc in E. apply app_inv_head in E. unfold bytes_of in E. cbn [String.list_byte_of_string] in E.
  change (Ascii.byte_of_ascii (Ascii.ascii_of_byte x3a)) with x3a in E.
  apply split_at_first in E as [E1 E2]; [|by apply number_plain..].
  apply bytes_of_inj in E1, E2. split; [by apply (inj pretty) in E1|done].
Qed.

Lemma NoDup_mjoin {A B} (f : A -> list B) l :
  ForallOrdPairs (fun a b => forall x, x ∈ f a -> x ∉ f b) l -> Forall (fun a => NoDup (f a)) l -> NoDup (mjoin (f <$> l)).
Proof.
  induction 1 as [|a l Ha Hl IH]; intros Hd; [constructor|]. apply Forall_cons in Hd as [Hd1 Hd].
  rewrite fmap_cons, mjoin_cons. apply NoDup_app. split; [done|]. split; [|by apply IH].
  intros x Hx (l' & Hxl & (b & -> & Hb)%list_elem_of_fmap)%list_elem_of_join. rewrite Forall_forall in Ha. by eapply Ha.
Qed.

Lemma rule_owners claim t : ir_owner <$> transfer_iptables_rules claim t = (fun s => transfer_owner claim t +:+ s) <$> suffixes.
Proof. reflexivity. Qed.

(** What the rest of the development uses of a program. *)
Record good_program (program : iptablesProgram) : Prop := {
  gp_saved : Forall (fun r => line_owner (saved_rule r) = Some (ir_owner r)) (ip_rules program);
  gp_owned : Forall (fun r => HasPrefix (ir_owner r) (ip_ownerPrefix program) = true) (ip_rules program);
  gp_distinct : NoDup (ir_owner <$> ip_rules program);
  gp_chains : Forall (fun r => (ir_table r = "filter" /\ ir_chain r = "FORWARD") \/ (ir_table r = "nat" /\ ir_chain r = "POSTROUTING"))
                (ip_rules program)
}.

(** The providers of a claim, as the kernel names interfaces and addresses. *)
Definition plain_providers (claim : networkClaim) : Prop :=
  Forall (fun t => addr_wf (ta_source t) /\ not_option (ta_providerName t)) (nc_transfers claim).

Lemma HasPrefix_app s rest : HasPrefix (s +:+ rest) s = true.
Proof. apply HasPrefix_spec. by exists rest. Qed.

Lemma append_assoc (a b c : string) : (a +:+ b) +:+ c = a +:+ (b +:+ c).
Proof. apply bytes_of_inj. by rewrite !bytes_of_app, app_assoc. Qed.

Lemma in_claim_rules claim r :
  r ∈ claim_iptables_rules claim <-> exists t, t ∈ nc_transfers claim /\ r ∈ transfer_iptables_rules claim t.
Proof.
  unfold claim_iptables_rules. rewrite list_elem_of_join. split.
  - intros (l & Hr & (t & -> & Ht)%list_elem_of_fmap). by exists t.
  - intros (t & Ht & Hr). exists (transfer_iptables_rules claim t). split; [done|]. by apply list_elem_of_fmap_2.
Qed.

Lemma suffix_shape : Forall (fun s => exists rest, s = String (Ascii.ascii_of_byte x3a) rest) suffixes.
Proof. repeat (constructor; [by eexists|]). constructor. Qed.

Lemma suffix_owner claim t o : o ∈ ir_owner <$> transfer_iptables_rules claim t ->
  exists rest, o = transfer_owner claim t +:+ String (Ascii.ascii_of_byte x3a) rest.
Proof.
  rewrite rule_owners. intros (s & -> & Hs)%list_elem_of_fmap. pose proof suffix_shape as H. rewrite Forall_forall in H.
  destruct (H s Hs) as [rest ->]. by exists rest.
Qed.

Lemma transfer_owners_distinct claim t : 1 <= ta_number t <= Maximum -> NoDup (ir_owner <$> transfer_iptables_rules claim t).
Proof.
  intros Hn. rewrite rule_owners. apply NoDup_fmap_2_strong; [|repeat (constructor; [set_solver|]); constructor].
  pose proof suffix_shape as H. rewrite Forall_forall in H. intros s s' [r ->]%H [r' ->]%H E.
  by destruct (owner_inj claim t t r r' Hn Hn E) as [_ ->].
Qed.

Lemma claim_rules_good claim :
  Forall (ok_transfer claim) (nc_transfers claim) -> ForallOrdPairs distinct (nc_transfers claim) -> plain_providers claim ->
  good_program (MkIPProgram (owner_prefix claim) (claim_iptables_rules claim)).
Proof.
  intros Hok Hd Hp. unfold plain_providers in Hp. rewrite Forall_forall in Hok, Hp.
  constructor; cbn [ip_rules ip_ownerPrefix]; try (apply Forall_forall; intros r (t & Ht & Hr)%in_claim_rules).
  - destruct (Hp t Ht) as [? ?]. assert (Hpl : plain_transfer t) by (by eapply ok_transfer_plain; [apply Hok|..]).
    pose proof (transfer_rules_saved claim t Hpl) as Hs. rewrite Forall_forall in Hs. by apply Hs.
  - apply (list_elem_of_fmap_2 ir_owner) in Hr. apply suffix_owner in Hr as [rest ->]. unfold transfer_owner.
    rewrite append_assoc. apply HasPrefix_app.
  - unfold claim_iptables_rules. rewrite fmap_mjoin, <- list_fmap_compose.
    apply (NoDup_mjoin (fun t => ir_owner <$> transfer_iptables_rules claim t)).
    + apply ForallOrdPairs_lookup. intros i j t t' Hij Hi Hj o Ho Ho'.
      apply suffix_owner in Ho as [r ->], Ho' as [r' E].
      assert (M : t ∈ nc_transfers claim /\ t' ∈ nc_transfers claim) by (split; by eapply list_elem_of_lookup_2).
      destruct M as [M1 M2]. destruct (ok_transfer_facts _ _ (Hok t M1)) as [N1 _], (ok_transfer_facts _ _ (Hok t' M2)) as [N2 _].
      apply owner_inj in E as [E _]; [|done..].
      rewrite <- ForallOrdPairs_lookup in Hd. destruct (Hd i j t t' Hij Hi Hj) as [Hne _]. congruence.
    + apply Forall_forall. intros t Ht. apply transfer_owners_distinct.
      by destruct (ok_transfer_facts _ _ (Hok t Ht)).
  - unfold transfer_iptables_rules in Hr. rewrite !elem_of_cons in Hr.
    destruct Hr as [->|[->|[->|[->|[->|[]%not_elem_of_nil]]]]]; cbn; auto.
Qed.

Lemma built_program claim program :
  buildIPTablesProgram claim = Ok program ->
  program = MkIPProgram (owner_prefix claim) (claim_iptables_rules claim) /\ validateClaim claim (nc_runID claim) = None /\
  nc_backend claim = firewallIPTables.
Proof.
  unfold buildIPTablesProgram. intros H. inv_result. destruct (bool_decide_reflect (nc_backend claim = firewallIPTables)); [|done].
  by apply Ok_inj in H as <-.
Qed.

Lemma built_program_good claim program :
  buildIPTablesProgram claim = Ok program -> plain_providers claim -> good_program program.
Proof.
  intros (-> & Hv & _)%built_program Hp. apply validateClaim_inv in Hv as (_ & _ & _ & _ & Hok & _ & Hd). by apply claim_rules_good.
Qed.

(** ** What the loop over the lines finds *)
Lemma foldl_insert_lookup {A V} (key : A -> string) (value : A -> V) l (m : gmap string V) o v :
  NoDup (key <$> l) ->
  foldl (fun m a => <[ key a := value a ]> m) m l !! o = Some v <->
  (exists a, a ∈ l /\ key a = o /\ value a = v) \/ (o ∉ key <$> l /\ m !! o = Some v).
Proof.
  revert m; induction l as [|a l IH]; intros m Hd; [cbn; set_solver|]. rewrite fmap_cons in Hd |- *.
  apply NoDup_cons in Hd as [Ha Hd]. cbn [foldl]. rewrite IH by done. rewrite !not_elem_of_cons, lookup_insert_Some. split.
  - intros [(b & Hb & Hk)|(Ho & [(<- & <-)|(Hne & Hm)])].
    + left. exists b. by split; [right|].
    + left. exists a. by split; [left|].
    + right. done.
  - intros [(b & [->|Hb]%elem_of_cons & <- & <-)|((Hne & Ho) & Hm)]; [right|left|right].
    + split; [done|by left].
    + by exists b.
    + split; [done|right]. done.
Qed.

Lemma filter_none {A} (P : A -> Prop) `{forall x, Decision (P x)} l : Forall (fun x => ~ P x) l -> filter P l = [].
Proof. induction 1 as [|x l Hx _ IH]; [done|]. by rewrite filter_cons_False. Qed.

Section Observing.
Context (program : iptablesProgram) (Hgood : good_program program).

Definition owned_line (line : list string) : Prop :=
  match line_owner line with Some o => HasPrefix o (ip_ownerPrefix program) = true | None => False end.
#[export] Instance owned_line_dec line : Decision (owned_line line).
Proof. unfold owned_line. destruct (line_owner line); apply _. Defined.

Definition owner_of (line : list string) : string := default "" (line_owner line).

Lemma in_rules_of_table table r : r ∈ rules_of_table program table <-> ir_table r = table /\ r ∈ ip_rules program.
Proof. unfold rules_of_table. by rewrite list_elem_of_filter. Qed.

Lemma saved_owned r : r ∈ ip_rules program -> owned_line (saved_rule r) /\ owner_of (saved_rule r) = ir_owner r.
Proof.
  intros Hr. pose proof (gp_saved _ Hgood) as Hs. pose proof (gp_owned _ Hgood) as Ho. rewrite Forall_forall in Hs, Ho.
  unfold owned_line, owner_of. rewrite (Hs r Hr). split; [by apply Ho|done].
Qed.

Lemma same_owner r r' : r ∈ ip_rules program -> r' ∈ ip_rules program -> ir_owner r = ir_owner r' -> r = r'.
Proof.
  intros Hr Hr' E. pose proof (gp_distinct _ Hgood) as Hd.
  apply list_elem_of_lookup in Hr as [i Hi], Hr' as [j Hj].
  assert (i = j) as ->; [|congruence]. eapply (NoDup_lookup _ _ _ (ir_owner r) Hd); rewrite list_lookup_fmap; [by rewrite Hi|rewrite Hj; cbn; congruence].
Qed.

Lemma saved_rule_inj r r' : r ∈ ip_rules program -> r' ∈ ip_rules program -> saved_rule r = saved_rule r' -> r = r'.
Proof.
  intros Hr Hr' E. apply same_owner; [done..|]. destruct (saved_owned r Hr) as [_ <-], (saved_owned r' Hr') as [_ <-]. by rewrite E.
Qed.

Lemma table_distinct table : NoDup (ir_owner <$> rules_of_table program table).
Proof.
  apply NoDup_fmap_2_strong; [|apply NoDup_filter, (NoDup_fmap_1 ir_owner), (gp_distinct _ Hgood)].
  intros r r' [_ Hr]%in_rules_of_table [_ Hr']%in_rules_of_table. by apply same_owner.
Qed.

Lemma expected_lookup table o want :
  expected_rules program table !! o = Some want <-> exists r, r ∈ rules_of_table program table /\ ir_owner r = o /\ saved_rule r = want.
Proof.
  unfold expected_rules. rewrite foldl_insert_lookup by apply table_distinct. rewrite lookup_empty. set_solver.
Qed.

(** The owned lines of a table are lines of the program, each at most once. *)
Definition exact_lines (table : string) (lines : list (list string)) : Prop :=
  NoDup (filter owned_line lines) /\ Forall (fun l => exists r, r ∈ rules_of_table program table /\ l = saved_rule r) (filter owned_line lines).

Definition mark (present : iptablesObservation) (lines : list (list string)) : iptablesObservation :=
  foldl (fun m l => <[ owner_of l := true ]> m) present (filter owned_line lines).

Lemma observe_exact table lines present :
  exact_lines table lines -> (forall l, l ∈ filter owned_line lines -> present !! owner_of l <> Some true) ->
  observe_lines (ip_ownerPrefix program) (expected_rules program table) present lines = Ok (mark present lines).
Proof.
  unfold exact_lines, mark. revert present; induction lines as [|l lines IH]; intros present [Hd He] Hp; [done|].
  cbn [observe_lines]. rewrite filter_cons in Hd, He, Hp |- *. destruct (decide (owned_line l)) as [Hown|Hown]; unfold owned_line in Hown.
  2: { destruct (line_owner l) as [o|]; [|by apply IH]. apply not_true_is_false in Hown. rewrite Hown. by apply IH. }
  destruct (line_owner l) as [o|] eqn:El; [|done]. rewrite Hown. cbn [negb].
  apply NoDup_cons in Hd as [Hl Hd]. apply Forall_cons in He as [(r & Hr & ->) He].
  pose proof Hr as [_ Hr']%in_rules_of_table. destruct (saved_owned r Hr') as [_ Eow].
  assert (o = ir_owner r) as -> by (unfold owner_of in Eow; rewrite El in Eow; done).
  rewrite (proj2 (expected_lookup table (ir_owner r) (saved_rule r))) by (exists r; done).
  assert (default false (present !! ir_owner r) = false) as ->.
  { specialize (Hp (saved_rule r) ltac:(left)). rewrite Eow in Hp. by destruct (present !! ir_owner r) as [[]|]. }
  rewrite bool_decide_eq_true_2 by done. cbn [negb foldl]. rewrite Eow. apply IH; [done|].
  intros l Hin. rewrite Forall_forall in He. destruct (He l Hin) as (r2 & Hr2 & ->).
  pose proof Hr2 as [_ Hr2']%in_rules_of_table. destruct (saved_owned r2 Hr2') as [_ ->].
  rewrite lookup_insert_ne. { specialize (Hp (saved_rule r2) ltac:(by right)). by destruct (saved_owned r2 Hr2') as [_ <-]. }
  intros E. apply Hl. by rewrite (same_owner r r2 Hr' Hr2' E).
Qed.

(** Declarations of chains do not count. *)
Lemma observe_skip decls expected present lines :
  Forall (fun l => line_owner l = None) decls ->
  observe_lines (ip_ownerPrefix program) expected present (decls ++ lines)
  = observe_lines (ip_ownerPrefix program) expected present lines.
Proof. induction 1 as [|l decls Hl _ IH]; [done|]. cbn [app observe_lines]. by rewrite Hl. Qed.

Lemma mark_lookup present lines o :
  mark present lines !! o = Some true <-> o ∈ owner_of <$> filter owned_line lines \/ present !! o = Some true.
Proof.
  unfold mark. generalize (filter owned_line lines). intros ls. revert present. induction ls as [|l ls IH]; intros present; cbn [foldl].
  - rewrite fmap_nil. set_solver.
  - rewrite IH, fmap_cons, elem_of_cons, lookup_insert_Some. destruct (decide (owner_of l = o)); naive_solver.
Qed.

Lemma count_spec (present : iptablesObservation) owners :
  NoDup owners -> (forall o, present !! o = Some true <-> o ∈ owners) -> observation_count present = zlen owners.
Proof.
  intros Hd Ho. unfold observation_count, zlen. f_equal.
  rewrite <- (length_fmap fst). apply Permutation_length, NoDup_Permutation; [|done|].
  - apply NoDup_fmap_fst; [|apply NoDup_filter, NoDup_map_to_list].
    intros x y1 y2 [_ H1%elem_of_map_to_list]%list_elem_of_filter [_ H2%elem_of_map_to_list]%list_elem_of_filter. congruence.
  - intros o. rewrite <- Ho, list_elem_of_fmap. split.
    + intros ((o' & p) & -> & (Hp & Hm%elem_of_map_to_list)%list_elem_of_filter). cbn in *. by subst.
    + intros H. exists (o, true). split; [done|]. apply list_elem_of_filter. by split; [|apply elem_of_map_to_list].
Qed.

Lemma none_present_lookup o : none_present program !! o <> Some true.
Proof.
  unfold none_present. rewrite foldl_insert_lookup by apply (gp_distinct _ Hgood). rewrite lookup_empty. naive_solver.
Qed.

(** A line of one table is no line of the other. *)
Definition found (F N : list (list string)) : iptablesObservation := mark (mark (none_present program) F) N.

Lemma exact_owners table lines : exact_lines table lines -> NoDup (owner_of <$> filter owned_line lines).
Proof.
  intros [Hd He]. apply NoDup_fmap_2_strong; [|done]. rewrite Forall_forall in He. intros l l' Hl Hl' E.
  destruct (He l Hl) as (r & [_ Hr]%in_rules_of_table & ->), (He l' Hl') as (r' & [_ Hr']%in_rules_of_table & ->).
  destruct (saved_owned r Hr) as [_ E1], (saved_owned r' Hr') as [_ E2]. f_equal. apply same_owner; congruence.
Qed.

Lemma tables_apart F N o :
  exact_lines "filter" F -> exact_lines "nat" N -> o ∈ owner_of <$> filter owned_line F -> o ∉ owner_of <$> filter owned_line N.
Proof.
  intros [_ HF] [_ HN] (l & -> & Hl)%list_elem_of_fmap (l' & E & Hl')%list_elem_of_fmap. rewrite Forall_forall in HF, HN.
  destruct (HF l Hl) as (r & [Ht Hr]%in_rules_of_table & ->), (HN l' Hl') as (r' & [Ht' Hr']%in_rules_of_table & ->).
  destruct (saved_owned r Hr) as [_ E1], (saved_owned r' Hr') as [_ E2].
  assert (r = r') as <- by (apply same_owner; congruence). congruence.
Qed.

Lemma found_lookup F N o :
  found F N !! o = Some true <-> o ∈ owner_of <$> filter owned_line F ++ filter owned_line N.
Proof.
  unfold found. rewrite !mark_lookup, fmap_app, elem_of_app. pose proof (none_present_lookup o). tauto.
Qed.

Lemma found_count F N :
  exact_lines "filter" F -> exact_lines "nat" N ->
  observation_count (found F N) = zlen (filter owned_line F) + zlen (filter owned_line N).
Proof.
  intros HF HN. rewrite (count_spec _ (owner_of <$> filter owned_line F ++ filter owned_line N)).
  - unfold zlen. rewrite length_fmap, length_app. lia.
  - rewrite fmap_app. apply NoDup_app. split; [by eapply exact_owners|]. split; [|by eapply exact_owners].
    intros o. by apply tables_apart.
  - apply found_lookup.
Qed.

(** The lines of a saved table, behind the declarations of its own chains. *)
Definition prints (output : string) (lines : list (list string)) : Prop :=
  exists decls, parseIPTablesLines output = Ok (decls ++ lines) /\
    Forall (fun l => line_owner l = None /\ forall chain, appends_to chain l = false) decls.

Lemma observe_table output table lines present :
  prints output lines -> exact_lines table lines -> (forall l, l ∈ filter owned_line lines -> present !! owner_of l <> Some true) ->
  observeIPTablesTable output table program present = Ok (mark present lines).
Proof.
  intros (decls & Hp & Hd) He Hn. unfold observeIPTablesTable. rewrite Hp. cbn [rbind]. rewrite observe_skip; [by apply observe_exact|].
  eapply Forall_impl; [exact Hd|]. by intros l [? _].
Qed.

(** The observation of exact tables: it finds the owned lines. *)
Lemma observe_partial filterOutput natOutput F N :
  prints filterOutput F -> prints natOutput N -> exact_lines "filter" F -> exact_lines "nat" N ->
  observeIPTablesProgram filterOutput natOutput program true = Ok (found F N).
Proof.
  intros PF PN HF HN. unfold observeIPTablesProgram.
  rewrite (observe_table _ _ F) by (done || (intros; apply none_present_lookup)). cbn [wrap_table rbind].
  rewrite (observe_table _ _ N); [done..|].
  intros l Hl. rewrite mark_lookup. intros [Ho|Hf]; [|by apply none_present_lookup in Hf].
  by eapply tables_apart; [exact HF|exact HN|exact Ho|apply list_elem_of_fmap_2].
Qed.

Lemma chain_rules_prints output lines chain :
  prints output lines -> exists actual, parseIPTablesLines output = Ok actual /\ iptablesChainRules actual chain = iptablesChainRules lines chain.
Proof.
  intros (decls & Hp & Hd). exists (decls ++ lines). split; [done|]. unfold iptablesChainRules. rewrite filter_app.
  rewrite (filter_none _ decls); [done|]. eapply Forall_impl; [exact Hd|]. intros l [_ H]. by rewrite H.
Qed.

(** ... and a complete program in front of its chains is verified. *)
Lemma observe_complete filterOutput natOutput F N restF restN :
  prints filterOutput F -> prints natOutput N -> exact_lines "filter" F -> exact_lines "nat" N ->
  iptablesChainRules F "FORWARD" = iptablesExpectedTableLines program "filter" ++ restF ->
  iptablesChainRules N "POSTROUTING" = iptablesExpectedTableLines program "nat" ++ restN ->
  zlen (filter owned_line F) + zlen (filter owned_line N) = zlen (ip_rules program) ->
  observeIPTablesProgram filterOutput natOutput program false = Ok (found F N).
Proof.
  intros PF PN HF HN EF EN Hc. pose proof (observe_partial _ _ _ _ PF PN HF HN) as Ho. unfold observeIPTablesProgram in Ho |- *.
  apply rbind_Ok_inv in Ho as (present & -> & Ho). cbn [rbind]. apply rbind_Ok_inv in Ho as (present' & -> & Ho). cbn [rbind].
  apply Ok_inj in Ho as ->. rewrite found_count, Hc, Z.eqb_refl by done. cbn [negb].
  assert (Hlead : forall output lines table chain rest, prints output lines ->
    iptablesChainRules lines chain = iptablesExpectedTableLines program table ++ rest ->
    require_leading_table output table chain program = None).
  { intros output lines table chain rest Hp E. destruct (chain_rules_prints output lines chain Hp) as (actual & Ha & Hr).
    unfold require_leading_table, is_leading. rewrite Ha, Hr, E, take_app_length, bool_decide_eq_true_2, andb_true_r by done.
    rewrite length_app. by rewrite (proj2 (Nat.leb_le _ _)) by lia. }
  unfold requireLeadingIPTablesProgram.
  by rewrite (Hlead _ _ _ _ _ PF EF), (Hlead _ _ _ _ _ PN EN).
Qed.
End Observing.
