(* ===== verification/IPTablesBackend.v ===== *)
(** * The iptables backend

    [hostnetwork/iptables_backend.go], [iptables_frontend.go],
    [iptables_rule_plane.go] and [iptables_legacy.go]: programs over two calls, a
    command that runs and a file that is read.  What they answer is up to the
    host; a context that ends is a command that fails. *)
From ITree Require Import ITree.
From S2P Require Import Prelude Utf8 GoText RunId Hashing HostAllocation HostClaim Effects IPTables.

Inductive HostE : Type -> Type :=
  | Run (name : string) (argv : list string) : HostE (result string)
  | ReadFile (path : string) : HostE (result string).

Definition host_do (A : Type) : Type := itree HostE A.

Definition errFirewallUnavailable : string := "firewall backend is unavailable".
Definition ErrNotFound : string := "executable file not found in $PATH".
Definition ErrNotExist : string := "file does not exist".

(** A loop that stops at the first error. *)
Fixpoint each {E A} (f : A -> itree E (option error)) (l : list A) : itree E (option error) :=
  match l with
  | [] => Ret None
  | a :: l => do! e := f a in match e with Some e => Ret (Some e) | None => each f l end
  end.

Definition then_ok {E A} (e : option error) (k : itree E (result A)) : itree E (result A) :=
  match e with Some e => Ret (Err e) | None => k end.
Definition then_check {E} (e : option error) (k : itree E (option error)) : itree E (option error) :=
  match e with Some e => Ret (Some e) | None => k end.

(** [if err != nil { return err }] for a call with a value. *)
Definition failing_or {E A} (r : result A) (k : A -> itree E (option error)) : itree E (option error) :=
  match r with Ok a => k a | Err e => Ret (Some e) end.

(** ** Who answers *)
Definition parseIPTablesFrontendNames (command : string) (names : list string) (output : string) : result string :=
  match Fields (TrimSpace output) with
  | [name; version; frontend] =>
      if negb (bool_decide (name ∈ names)) || (slen version <? 2) || negb (HasPrefix version "v")
      then Err (ErrText (command +:+ " version output does not identify a supported frontend"))
      else if bool_decide (frontend = "(nf_tables)") then Ok iptablesFrontendNFT
      else if bool_decide (frontend = "(legacy)") then Ok iptablesFrontendLegacy
      else Err (ErrText (command +:+ " version output names unsupported frontend " +:+ Quote frontend))
  | _ => Err (ErrText (command +:+ " version output does not identify a supported frontend"))
  end.

Definition parseIPTablesFrontend (command output : string) : result string :=
  parseIPTablesFrontendNames command [command] output.

Definition iptablesNFTRulesCommand : string := "iptables-nft".
Definition iptablesNFTSaveCommand : string := "iptables-nft-save".
Definition iptablesLegacyRulesCommand : string := "iptables-legacy".
Definition iptablesLegacySaveCommand : string := "iptables-legacy-save".

Definition parseIPTablesRulePlaneFrontend (command output : string) : result string :=
  if bool_decide (command = iptablesNFTRulesCommand) || bool_decide (command = iptablesLegacyRulesCommand)
  then parseIPTablesFrontendNames command ["iptables"; command] output
  else if bool_decide (command = iptablesNFTSaveCommand) || bool_decide (command = iptablesLegacySaveCommand)
  then parseIPTablesFrontendNames command ["iptables-save"; command] output
  else Err (ErrText ("unsupported fixed iptables command " +:+ Quote command)).

Definition parseConfiguredIPTablesFrontend (command output : string) : result string :=
  if bool_decide (command = "iptables") || bool_decide (command = "iptables-save")
  then parseIPTablesFrontend command output
  else parseIPTablesRulePlaneFrontend command output.

Definition matchingIPTablesCommandFrontends (rulesCommand rulesOutput saveCommand saveOutput : string) : result string :=
  let* rulesFrontend := parseConfiguredIPTablesFrontend rulesCommand rulesOutput in
  let* saveFrontend := parseConfiguredIPTablesFrontend saveCommand saveOutput in
  if bool_decide (rulesFrontend = saveFrontend) then Ok rulesFrontend
  else Err (ErrText (rulesCommand +:+ " uses " +:+ rulesFrontend +:+ " but " +:+ saveCommand +:+ " uses " +:+ saveFrontend)).

Definition commandIdentityError (command : string) (r : result string) : option error :=
  match r with Ok _ => None | Err e => Some (ErrWrap ("read " +:+ command +:+ " frontend identity") e) end.
Definition joinCommandIdentityErrors (first : string) (r : result string) (second : string) (s : result string)
    : option error :=
  errors_Join [commandIdentityError first r; commandIdentityError second s].

(** ** The rule plane of a frontend *)
Record iptablesRulePlane : Type := MkPlane { pl_frontend : string; rulesCommand : string; saveCommand : string }.

(** The command runner of the program is never nil. *)
Definition newIPTablesRulePlane (frontend : string) : result iptablesRulePlane :=
  if bool_decide (frontend = iptablesFrontendNFT)
  then Ok (MkPlane frontend iptablesNFTRulesCommand iptablesNFTSaveCommand)
  else if bool_decide (frontend = iptablesFrontendLegacy)
  then Ok (MkPlane frontend iptablesLegacyRulesCommand iptablesLegacySaveCommand)
  else Err (ErrText ("unsupported iptables frontend " +:+ Quote frontend)).

Definition is_missing (r : result string) : bool :=
  match r with Err e => errors_Is e ErrNotFound | Ok _ => false end.

Definition failure {A} (r : result A) : option error := match r with Ok _ => None | Err e => Some e end.

(** The verdict on the two answers of [verifyIdentity]. *)
Definition plane_identity (plane : iptablesRulePlane) (rulesOutput saveOutput : result string) : option error :=
  match rulesOutput, saveOutput with
  | Ok rules, Ok save =>
      match parseIPTablesRulePlaneFrontend (rulesCommand plane) rules, parseIPTablesRulePlaneFrontend (saveCommand plane) save with
      | Ok rulesFrontend, Ok saveFrontend =>
          if negb (bool_decide (rulesFrontend = saveFrontend))
          then Some (ErrText ("verify iptables rule plane identity: " +:+ rulesCommand plane +:+ " uses " +:+ rulesFrontend
                                +:+ " but " +:+ saveCommand plane +:+ " uses " +:+ saveFrontend))
          else if negb (bool_decide (rulesFrontend = pl_frontend plane))
          then Some (ErrText ("iptables rule plane command identifies " +:+ rulesFrontend +:+ ", want " +:+ pl_frontend plane))
          else None
      | r, s => match errors_Join [failure r; failure s] with
                | Some e => Some (ErrWrap "verify iptables rule plane identity" e) | None => None end
      end
  | r, s => joinCommandIdentityErrors (rulesCommand plane) r (saveCommand plane) s
  end.

Definition verifyIdentity (plane : iptablesRulePlane) : host_do (option error) :=
  do! rulesOutput := call (Run (rulesCommand plane) ["--version"]) in
  do! saveOutput := call (Run (saveCommand plane) ["--version"]) in
  Ret (plane_identity plane rulesOutput saveOutput).

Definition readTable (plane : iptablesRulePlane) (table : string) : host_do (result string) :=
  do! output := call (Run (saveCommand plane) ["-t"; table]) in
  Ret (match output with Ok o => Ok o | Err e => Err (ErrWrap ("inspect iptables " +:+ table +:+ " table") e) end).

(** A table that is not read is the empty text. *)
Definition read_existing (plane : iptablesRulePlane) (exists_ : bool) (table : string) : host_do (result string) :=
  if exists_ then readTable plane table else Ret (Ok "").
Definition readTables (plane : iptablesRulePlane) (filterExists natExists : bool) : host_do (result (string * string)) :=
  do* filter := read_existing plane filterExists "filter" in
  do* nat := read_existing plane natExists "nat" in
  Ret (Ok (filter, nat)).

(** [procLegacyIPTablesTables]: the tables the kernel has loaded for the legacy
    frontend. *)
Definition legacyIPTablesNamesPath : string := "/proc/net/ip_tables_names".
Definition Names : host_do (result (gset string)) :=
  do! contents := call (ReadFile legacyIPTablesNamesPath) in
  Ret (match contents with
       | Err e => if errors_Is e ErrNotExist then Ok ∅ else Err (ErrWrap "read legacy iptables table names" e)
       | Ok text => Ok (list_to_set (Fields text))
       end).

Definition emptyLegacyFilterInventory : string :=
  "*filter" +:+ newline +:+ ":FORWARD ACCEPT [0:0]" +:+ newline +:+ "COMMIT" +:+ newline.
Definition emptyLegacyNATInventory : string :=
  "*nat" +:+ newline +:+ ":POSTROUTING ACCEPT [0:0]" +:+ newline +:+ "COMMIT" +:+ newline.

Definition readLegacyInventory (plane : iptablesRulePlane) : host_do (result (string * string)) :=
  do* names := Names in
  let filterExists := bool_decide ("filter" ∈ names) in
  let natExists := bool_decide ("nat" ∈ names) in
  do* tables := readTables plane filterExists natExists in
  Ret (Ok (if filterExists then tables.1 else emptyLegacyFilterInventory,
           if natExists then tables.2 else emptyLegacyNATInventory)).

Definition readInventory (plane : iptablesRulePlane) : host_do (result (string * string)) :=
  if bool_decide (pl_frontend plane = iptablesFrontendLegacy) then readLegacyInventory plane
  else readTables plane true true.

Definition capability_probes : list (list string) :=
  [ ["-w"; "5"; "-m"; "comment"; "--help"]; ["-w"; "5"; "-m"; "conntrack"; "--help"];
    ["-w"; "5"; "-t"; "nat"; "-j"; "SNAT"; "--help"] ].

Definition verifyCapabilities (plane : iptablesRulePlane) : host_do (option error) :=
  each (fun probe =>
    do! output := call (Run (rulesCommand plane) probe) in
    Ret (match output with
         | Ok _ => None
         | Err e => Some (ErrWrap ("probe iptables capability " +:+ QuoteList probe) e)
         end)) capability_probes.

Definition preflightMutation (plane : iptablesRulePlane) : host_do (option error) :=
  do! e := verifyIdentity plane in then_check e (verifyCapabilities plane).

Definition plane_observe (plane : iptablesRulePlane) (program : iptablesProgram) (allowPartial : bool)
    : host_do (result iptablesObservation) :=
  check* verifyIdentity plane in
  do* tables := readInventory plane in
  Ret (observeIPTablesProgram tables.1 tables.2 program allowPartial).

(** ** The inventory of the tables *)
(** The policy of the one declaration of a chain of iptables. *)
Fixpoint declared_policy (prefix message : string) (found : option string) (lines : list string) : result (option string) :=
  match lines with
  | [] => Ok found
  | raw :: lines =>
      let line := TrimSpace raw in
      if HasPrefix line prefix then
        match Fields line, found with
        | _ :: policy :: _, None => declared_policy prefix message (Some policy) lines
        | _, _ => Err (ErrText message)
        end
      else declared_policy prefix message found lines
  end.

Definition has_chain_rule (chain : string) (lines : list (list string)) : bool := existsb (appends_to chain) lines.

Definition iptablesForwardActive (output : string) : result bool :=
  let* policy := declared_policy ":FORWARD " "malformed or repeated FORWARD declaration" None (SplitLines output) in
  match policy with
  | None => Err (ErrText "filter table has no FORWARD declaration")
  | Some policy =>
      let* lines := parseIPTablesLines output in
      Ok (has_chain_rule "FORWARD" lines || negb (bool_decide (policy = "ACCEPT")))
  end.

Definition iptablesPostroutingActive (output : string) : result bool :=
  let* policy := declared_policy ":POSTROUTING " "malformed or repeated POSTROUTING declaration" None (SplitLines output) in
  match policy with
  | None => Err (ErrText "nat table has no POSTROUTING declaration")
  | Some _ => let* lines := parseIPTablesLines output in Ok (has_chain_rule "POSTROUTING" lines)
  end.

(** The run a comment names. *)
Definition runIDFromIPTablesComment (comment : string) : option string :=
  let prefix := "transferlanes:" in
  if negb (HasPrefix comment prefix) then None
  else
    let '(id, _, _) := Cut (TrimPrefix comment prefix) (Ascii.ascii_of_nat 58) in
    if negb (slen id =? 32) || negb (forallb isLowerHex (bytes_of id)) then None else Some id.

Fixpoint add_inventory_lines (lines : list string) (owners : gset string) : result (gset string) :=
  match lines with
  | [] => Ok owners
  | raw :: lines =>
      let line := TrimSpace raw in
      if skipped_line line then add_inventory_lines lines owners
      else if HasPrefix line ":" then
        match Fields (TrimPrefix line ":") with
        | _ :: _ :: _ => add_inventory_lines lines owners
        | _ => Err (ErrText ("malformed iptables chain declaration " +:+ Quote line))
        end
      else
        let* argv := splitIPTablesLine line in
        match line_owner argv with
        | None => Err (ErrText ("unexpected iptables-save statement " +:+ Quote line))
        | Some comment =>
            add_inventory_lines lines
              (match runIDFromIPTablesComment comment with Some id => {[ id ]} ∪ owners | None => owners end)
        end
  end.

Definition addIPTablesInventory (output : string) (owners : gset string) : result (gset string) :=
  add_inventory_lines (SplitLines output) owners.

Definition with_context {A} (context : string) (r : result A) : result A :=
  match r with Ok a => Ok a | Err e => Err (ErrWrap context e) end.

Definition decodeIPTablesInventory (frontend filter nat : string) : result firewallInventory :=
  let* owners := with_context "parse iptables filter inventory" (addIPTablesInventory filter ∅) in
  let* owners := with_context "parse iptables nat inventory" (addIPTablesInventory nat owners) in
  let* forward := with_context "inspect iptables FORWARD chain" (iptablesForwardActive filter) in
  let* postrouting := with_context "inspect iptables POSTROUTING chain" (iptablesPostroutingActive nat) in
  Ok (MkFirewall firewallIPTables ∅ [] [] owners frontend forward postrouting).

(** ** The backend *)
Record iptablesFirewall : Type := MkIPFirewall { activeRulesCommand : string; activeSaveCommand : string }.

(** The one of [defaultFirewallBackends]. *)
Definition default_iptables : iptablesFirewall := MkIPFirewall "iptables" "iptables-save".

Definition validDiscovery (fw : iptablesFirewall) : option error :=
  if bool_decide (activeRulesCommand fw = "") || bool_decide (activeSaveCommand fw = "")
  then Some (ErrText "iptables backend dependencies are incomplete") else None.

Definition frontend_of_answers (fw : iptablesFirewall) (rulesOutput saveOutput : result string) : result string :=
  if is_missing rulesOutput && is_missing saveOutput
  then Err (ErrDetail (ErrSentinel errFirewallUnavailable) "iptables and iptables-save executables are absent")
  else
    match rulesOutput, saveOutput with
    | Ok rules, Ok save =>
        with_context "verify iptables frontend identity"
          (matchingIPTablesCommandFrontends (activeRulesCommand fw) rules (activeSaveCommand fw) save)
    | r, s => match joinCommandIdentityErrors (activeRulesCommand fw) r (activeSaveCommand fw) s with
              | Some e => Err e | None => Ok "" end
    end.

Definition inspectFrontend (fw : iptablesFirewall) : host_do (result string) :=
  do! rulesOutput := call (Run (activeRulesCommand fw) ["--version"]) in
  do! saveOutput := call (Run (activeSaveCommand fw) ["--version"]) in
  Ret (frontend_of_answers fw rulesOutput saveOutput).

Definition iptables_Inspect (fw : iptablesFirewall) : host_do (result firewallInventory) :=
  then_ok (validDiscovery fw)
    (do* frontend := inspectFrontend fw in
     do* plane := lift (newIPTablesRulePlane frontend) in
     check* verifyIdentity plane in
     do* tables := readInventory plane in
     check* verifyCapabilities plane in
     lift (decodeIPTablesInventory frontend tables.1 tables.2)).

Definition iptables_Preflight (claim : networkClaim) : host_do (option error) :=
  failing_or (buildIPTablesProgram claim) (fun _ =>
  failing_or (newIPTablesRulePlane (nc_iptablesFrontend claim)) preflightMutation).

Definition iptables_observe (claim : networkClaim) (program : iptablesProgram) (allowPartial : bool)
    : host_do (result iptablesObservation) :=
  do* plane := lift (newIPTablesRulePlane (nc_iptablesFrontend claim)) in
  plane_observe plane program allowPartial.

(** What a loop of commands does after each of them: it looks again, and the
    number of owned rules has to be [expected]. *)
Definition run_and_count (plane : iptablesRulePlane) (claim : networkClaim) (program : iptablesProgram)
    (argv : list string) (expected : Z) (failed verify wrong : string) : host_do (bool * option error) :=
  do! output := call (Run (rulesCommand plane) argv) in
  match output with
  | Err e => Ret (false, Some (ErrWrap failed e))
  | Ok _ =>
      do! observation := iptables_observe claim program true in
      Ret (true, match observation with
                 | Err e => Some (ErrWrap verify e)
                 | Ok present => if observation_count present =? expected then None else Some (ErrText wrong)
                 end)
  end.

Fixpoint install_loop (plane : iptablesRulePlane) (claim : networkClaim) (program : iptablesProgram) (index : Z)
    (receipts : firewallReceipts) (mutations : list iptablesMutation) : host_do (firewallReceipts * option error) :=
  match mutations with
  | [] => Ret (receipts, None)
  | m :: mutations =>
      let command := QuoteList (im_argv m) in
      do! ' (ran, e) := run_and_count plane claim program (im_argv m) (index + 1) ("apply iptables command " +:+ command)
          ("verify iptables command " +:+ command)
          ("iptables command " +:+ command +:+ " did not create exactly one owned rule") in
      let receipts := if ran then receipts_add receipts (im_owner m) else receipts in
      match e with
      | Some e => Ret (receipts, Some e)
      | None => install_loop plane claim program (index + 1) receipts mutations
      end
  end.

(** A failing install still tells what it has installed. *)
Definition iptables_Install (claim : networkClaim) : host_do (firewallReceipts * option error) :=
  let receipts := newFirewallReceipts firewallIPTables in
  match buildIPTablesProgram claim with
  | Err e => Ret (receipts, Some e)
  | Ok program =>
      match buildIPTablesInstallMutations claim with
      | Err e => Ret (receipts, Some e)
      | Ok mutations =>
          do! observation := iptables_observe claim program true in
          match observation with
          | Err e => Ret (receipts, Some e)
          | Ok present =>
              if negb (observation_count present =? 0)
              then Ret (receipts, Some (ErrText ("iptables claim owner already has " +:+ pretty (observation_count present)
                                                   +:+ " rules before install")))
              else
                match newIPTablesRulePlane (nc_iptablesFrontend claim) with
                | Err e => Ret (receipts, Some e)
                | Ok plane => install_loop plane claim program 0 receipts mutations
                end
          end
      end
  end.

Definition iptables_Verify (claim : networkClaim) (allowAbsent : bool) : host_do (option error) :=
  failing_or (buildIPTablesProgram claim) (fun program =>
  do! observation := iptables_observe claim program allowAbsent in Ret (failure observation)).

Fixpoint remove_loop (plane : iptablesRulePlane) (claim : networkClaim) (program : iptablesProgram) (remaining : Z)
    (commands : list (list string)) : host_do (option error) :=
  match commands with
  | [] => Ret None
  | argv :: commands =>
      let command := QuoteList argv in
      do! ' (_, e) := run_and_count plane claim program argv (remaining - 1)
          ("remove exact iptables object with " +:+ command) ("verify removed iptables object " +:+ command)
          ("iptables delete " +:+ command +:+ " did not remove exactly one owned rule") in
      then_check e (remove_loop plane claim program (remaining - 1) commands)
  end.

Definition iptables_remove (claim : networkClaim) (receipts : option firewallReceipts) : host_do (option error) :=
  failing_or (buildIPTablesProgram claim) (fun program =>
  do! observation := iptables_observe claim program true in
  failing_or observation (fun present =>
  failing_or (newIPTablesRulePlane (nc_iptablesFrontend claim)) (fun plane =>
  remove_loop plane claim program (observation_count present)
    (buildIPTablesRemoveCommandsFor program present receipts)))).

Definition iptables_Remove (claim : networkClaim) (receipts : firewallReceipts) : host_do (option error) :=
  if negb (bool_decide (rc_kind receipts = firewallIPTables))
  then Ret (Some (ErrText "live iptables receipts name another backend"))
  else iptables_remove claim (Some receipts).
Definition iptables_Recover (claim : networkClaim) : host_do (option error) := iptables_remove claim None.

Definition requireIPTablesOwnershipAbsent (frontend : string) (present : iptablesObservation) : option error :=
  if negb (observation_count present =? 0)
  then Some (ErrText ("claimed iptables ownership remains in " +:+ frontend +:+ " rule plane")) else None.

Definition iptables_VerifyAbsent (claim : networkClaim) : host_do (option error) :=
  failing_or (buildIPTablesProgram claim) (fun program =>
  do! observation := iptables_observe claim program true in
  failing_or observation (fun present => Ret (requireIPTablesOwnershipAbsent (nc_iptablesFrontend claim) present))).

Fixpoint published_programs (frontend : string) (claims : list networkClaim) : result (list iptablesProgram) :=
  match claims with
  | [] => Ok []
  | claim :: claims =>
      if negb (bool_decide (nc_iptablesFrontend claim = frontend))
      then Err (ErrText ("published iptables claims name different frontends " +:+ Quote frontend +:+ " and "
                           +:+ Quote (nc_iptablesFrontend claim)))
      else
        let* program := buildIPTablesProgram claim in
        let* programs := published_programs frontend claims in
        Ok (program :: programs)
  end.

Definition iptables_ObservePublished (claims : list networkClaim) : host_do (result (list bool)) :=
  match claims with
  | [] => Ret (Ok [])
  | claim :: _ =>
      let frontend := nc_iptablesFrontend claim in
      do* programs := lift (published_programs frontend claims) in
      do* plane := lift (newIPTablesRulePlane frontend) in
      check* verifyIdentity plane in
      do* tables := readInventory plane in
      lift (observePublishedIPTablesPrograms tables.1 tables.2 programs)
  end.

(** ** The reader of the legacy tables *)
Record legacyFacts : Type := MkLegacyFacts { lf_exists : bool; lf_active : bool }.

Definition readLoadedTable (table : string) : host_do (result (option string)) :=
  do* names := Names in
  if negb (bool_decide (table ∈ names)) then Ret (Ok None)
  else
    let inspect {A} (r : result A) := with_context ("inspect existing legacy " +:+ table +:+ " table") r in
    do* plane := lift (newIPTablesRulePlane iptablesFrontendLegacy) in
    do! e := verifyIdentity plane in
    then_ok (match e with Some e => Some (ErrWrap ("inspect existing legacy " +:+ table +:+ " table") e) | None => None end)
      (do! contents := readTable plane table in
       Ret (inspect (match contents with Ok c => Ok (Some c) | Err e => Err e end))).

Definition legacy_facts (table surface : string) (active : string -> result bool) : host_do (result legacyFacts) :=
  do* contents := readLoadedTable table in
  Ret (match contents with
       | None => Ok (MkLegacyFacts false false)
       | Some text =>
           let* a := with_context ("inspect existing legacy " +:+ surface +:+ " surface") (active text) in
           Ok (MkLegacyFacts true a)
       end).

Definition legacy_Forward : host_do (result legacyFacts) := legacy_facts "filter" "FORWARD" iptablesForwardActive.
Definition legacy_Postrouting : host_do (result legacyFacts) := legacy_facts "nat" "POSTROUTING" iptablesPostroutingActive.

(** ** The output of a command *)
Definition iptablesOutputLimit : Z := 2 ^ 20.
Record boundedArgvOutput : Type := MkOutput { out_contents : list byte; out_exceeded : bool }.

(** Every write is accepted whole; [cancel] ends the command. *)
Definition output_Write (limit : Z) (output : boundedArgvOutput) (contents : list byte) : boundedArgvOutput * Z :=
  if out_exceeded output then (output, zlen contents)
  else
    let remaining := limit - zlen (out_contents output) in
    let kept := if 0 <? remaining
                then out_contents output ++ take (Z.to_nat (Z.min remaining (zlen contents))) contents
                else out_contents output in
    (MkOutput kept (remaining <? zlen contents), zlen contents).
