(* ===== verification/IPTablesHost.v ===== *)
(** * A host with iptables

    What the commands of iptables are documented to do with the two tables, as a
    world the backend runs in.  A command may fail at any time, before it has
    done anything or after it has done its work.  In this world the backend
    inserts and deletes rules of its claim only, its receipts name what it has
    installed but for a rule whose command failed late, and whatever it leaves
    behind, recovery takes away. *)
From ITree Require Import ITree.
From S2P Require Import Prelude Utf8 TransferNumber GoText Hashing RunId HostAllocation HostClaim Effects IPTables IPTablesBackend.

(** ** Tables *)
(** The chains of a table in the order they are printed, each with its rules. *)
Definition Table : Type := list (string * list (list string)).
Definition line_of (chain : string) (argv : list string) : list string := "-A" :: chain :: argv.
Definition chain_lines (entry : string * list (list string)) : list (list string) := line_of entry.1 <$> entry.2.
Definition lines_of (T : Table) : list (list string) := mjoin (chain_lines <$> T).
Definition chains (T : Table) : list string := T.*1.

Fixpoint remove_first (x : list string) (l : list (list string)) : list (list string) :=
  match l with [] => [] | y :: l => if decide (y = x) then l else y :: remove_first x l end.

Definition on_chain (chain : string) (f : list (list string) -> list (list string)) (T : Table) : Table :=
  (fun entry => if decide (entry.1 = chain) then (entry.1, f entry.2) else entry) <$> T.
Definition insert_rule (chain : string) (argv : list string) : Table -> Table := on_chain chain (cons argv).
Definition delete_rule (chain : string) (argv : list string) : Table -> Table := on_chain chain (remove_first argv).

Lemma on_chain_chains chain f T : chains (on_chain chain f T) = chains T.
Proof.
  unfold chains, on_chain. rewrite <- list_fmap_compose. apply list_fmap_ext. intros _ [c rs] _. cbn. by case_decide.
Qed.

Lemma on_chain_cons chain f c rs T :
  on_chain chain f ((c, rs) :: T) = (c, if decide (c = chain) then f rs else rs) :: on_chain chain f T.
Proof. unfold on_chain. rewrite fmap_cons. cbn [fst snd]. by case_decide. Qed.

Lemma on_chain_absent chain f T : chain ∉ chains T -> on_chain chain f T = T.
Proof.
  induction T as [|[c rs] T IH]; intros H; [done|]. unfold chains in H. rewrite fmap_cons, elem_of_cons in H.
  rewrite on_chain_cons, decide_False by naive_solver. f_equal. apply IH. naive_solver.
Qed.

(** One chain of a table changes, in place. *)
Lemma on_chain_split chain T :
  NoDup (chains T) -> chain ∈ chains T ->
  exists T1 rs T2, T = T1 ++ (chain, rs) :: T2 /\ forall f, on_chain chain f T = T1 ++ (chain, f rs) :: T2.
Proof.
  induction T as [|[c rs] T IH]; intros Hd Hc; [by apply not_elem_of_nil in Hc|]. cbn in Hd, Hc.
  apply NoDup_cons in Hd as [Hn Hd]. destruct (decide (c = chain)) as [->|Hne].
  - exists [], rs, T. split; [done|]. intros f. rewrite on_chain_cons, decide_True by done. by rewrite on_chain_absent.
  - apply elem_of_cons in Hc as [->|Hc]; [done|]. destruct (IH Hd Hc) as (T1 & rs' & T2 & -> & Hf).
    exists ((c, rs) :: T1), rs', T2. split; [done|]. intros f. rewrite on_chain_cons, decide_False by done. by rewrite Hf.
Qed.

Lemma lines_of_app T1 T2 : lines_of (T1 ++ T2) = lines_of T1 ++ lines_of T2.
Proof. unfold lines_of. by rewrite fmap_app, join_app. Qed.

Lemma lines_of_cons c rs T : lines_of ((c, rs) :: T) = (line_of c <$> rs) ++ lines_of T.
Proof. done. Qed.

Lemma remove_first_perm x l : x ∈ l -> l ≡ₚ x :: remove_first x l.
Proof.
  induction l as [|y l IH]; intros H; [by apply not_elem_of_nil in H|]. cbn. case_decide as E; [by subst|].
  apply elem_of_cons in H as [->|H]; [done|]. rewrite (IH H) at 1. apply Permutation_swap.
Qed.

Lemma insert_lines chain argv T :
  NoDup (chains T) -> chain ∈ chains T -> lines_of (insert_rule chain argv T) ≡ₚ line_of chain argv :: lines_of T.
Proof.
  intros Hd Hc. destruct (on_chain_split chain T Hd Hc) as (T1 & rs & T2 & -> & Hf). unfold insert_rule. rewrite Hf.
  rewrite !lines_of_app, !lines_of_cons, fmap_cons. cbn [app]. by rewrite <- Permutation_middle.
Qed.

Lemma line_of_inj c c' argv argv' : line_of c argv = line_of c' argv' -> c = c' /\ argv = argv'.
Proof. unfold line_of. by intros [= -> ->]. Qed.

Lemma in_lines_of l T : l ∈ lines_of T <-> exists c rs argv, (c, rs) ∈ T /\ argv ∈ rs /\ l = line_of c argv.
Proof.
  unfold lines_of. rewrite list_elem_of_join. split.
  - intros (ls & Hl & ([c rs] & -> & HT)%list_elem_of_fmap). apply list_elem_of_fmap in Hl as (argv & -> & Ha). by exists c, rs, argv.
  - intros (c & rs & argv & HT & Ha & ->). exists (chain_lines (c, rs)). split; [by apply (list_elem_of_fmap_2 (line_of c))|by apply (list_elem_of_fmap_2 chain_lines)].
Qed.

Lemma delete_lines chain argv T :
  NoDup (chains T) -> line_of chain argv ∈ lines_of T -> lines_of T ≡ₚ line_of chain argv :: lines_of (delete_rule chain argv T).
Proof.
  intros Hd Hin. apply in_lines_of in Hin as (c & rs0 & argv' & HT & Ha & E). apply line_of_inj in E as [<- <-].
  assert (Hc : chain ∈ chains T) by (apply list_elem_of_fmap; by exists (chain, rs0)).
  destruct (on_chain_split chain T Hd Hc) as (T1 & rs & T2 & -> & Hf). unfold delete_rule. rewrite Hf.
  assert (rs0 = rs) as ->.
  { apply elem_of_app in HT as [HT|[HT|HT]%elem_of_cons]; [|by injection HT|]; exfalso; revert Hd; unfold chains;
      rewrite fmap_app, fmap_cons, NoDup_app, NoDup_cons; intros (_ & H1 & H2 & _).
    - by eapply (H1 chain); [apply (list_elem_of_fmap_2 fst _ _ HT)|left].
    - apply H2. apply (list_elem_of_fmap_2 fst _ _ HT). }
  rewrite !lines_of_app, !lines_of_cons. rewrite (fmap_Permutation (line_of chain) _ _ (remove_first_perm argv rs Ha)).
  rewrite fmap_cons. cbn [app]. by rewrite <- Permutation_middle.
Qed.

(** The rules of one chain. *)
Lemma appends_line chain c argv : appends_to chain (line_of c argv) = bool_decide (c = chain).
Proof. done. Qed.

Lemma chain_rules_app L1 L2 chain : iptablesChainRules (L1 ++ L2) chain = iptablesChainRules L1 chain ++ iptablesChainRules L2 chain.
Proof. apply filter_app. Qed.

Lemma chain_rules_other chain c rs : c <> chain -> iptablesChainRules (line_of c <$> rs) chain = [].
Proof.
  intros Hne. apply filter_none, Forall_fmap, Forall_forall. intros argv _. cbn [compose]. rewrite appends_line. by rewrite bool_decide_eq_false_2.
Qed.

Lemma chain_rules_same chain rs : iptablesChainRules (line_of chain <$> rs) chain = line_of chain <$> rs.
Proof.
  unfold iptablesChainRules. induction rs as [|argv rs IH]; [done|]. rewrite fmap_cons, filter_cons_True, IH; [done|].
  rewrite appends_line. by rewrite bool_decide_eq_true_2.
Qed.

Lemma insert_chain_rules chain argv T :
  NoDup (chains T) -> chain ∈ chains T ->
  iptablesChainRules (lines_of (insert_rule chain argv T)) chain = line_of chain argv :: iptablesChainRules (lines_of T) chain.
Proof.
  intros Hd Hc. destruct (on_chain_split chain T Hd Hc) as (T1 & rs & T2 & -> & Hf). unfold insert_rule. rewrite Hf.
  assert (Hn : forall T', chain ∉ chains T' -> iptablesChainRules (lines_of T') chain = []).
  { intros T'. induction T' as [|[c rs'] T' IH]; intros Hn; [done|]. cbn in Hn. rewrite elem_of_cons in Hn.
    rewrite lines_of_cons, chain_rules_app, chain_rules_other by naive_solver. apply IH. naive_solver. }
  rewrite !lines_of_app, !lines_of_cons, !chain_rules_app, !chain_rules_same, Hn; [done|].
  revert Hd. unfold chains. rewrite fmap_app, fmap_cons, NoDup_app. intros (_ & H1 & _) Hin. by apply (H1 chain Hin); left.
Qed.

(** ** The host *)
Record Host : Type := MkHost { h_filter : Table; h_nat : Table; h_loaded : gset string }.

Definition table_of (h : Host) (table : string) : Table :=
  if bool_decide (table = "filter") then h_filter h else if bool_decide (table = "nat") then h_nat h else [].

(** What a command asks for: a rule goes to the head of its chain, or its first
    occurrence goes. *)
Inductive Change : Type := Insert (table chain : string) (argv : list string) | Delete (table chain : string) (argv : list string).

Definition change_of (argv : list string) : option Change :=
  match argv with
  | w :: seconds :: t :: table :: op :: chain :: rest =>
      if negb (bool_decide (w = "-w") && bool_decide (seconds = "5") && bool_decide (t = "-t")) then None
      else if bool_decide (op = "-I") then
        match rest with
        | position :: rule => if bool_decide (position = "1") then Some (Insert table chain rule) else None
        | [] => None
        end
      else if bool_decide (op = "-D") then Some (Delete table chain rest)
      else None
  | _ => None
  end.

Definition possible (h : Host) (c : Change) : bool :=
  match c with
  | Insert table chain argv => bool_decide (chain ∈ chains (table_of h table))
  | Delete table chain argv => bool_decide (line_of chain argv ∈ lines_of (table_of h table))
  end.

Definition update_table (h : Host) (table : string) (f : Table -> Table) : Host :=
  let loaded := {[ table ]} ∪ h_loaded h in
  if bool_decide (table = "filter") then MkHost (f (h_filter h)) (h_nat h) loaded
  else if bool_decide (table = "nat") then MkHost (h_filter h) (f (h_nat h)) loaded
  else h.

Definition changed (h : Host) (c : Change) : Host :=
  match c with
  | Insert table chain argv => update_table h table (insert_rule chain argv)
  | Delete table chain argv => update_table h table (delete_rule chain argv)
  end.

Lemma insert_change rule : change_of (im_argv (install_mutation rule)) = Some (Insert (ir_table rule) (ir_chain rule) (ir_argv rule)).
Proof. reflexivity. Qed.

Lemma delete_change rule :
  change_of (iptablesRuleCommand (ir_table rule) "-D" (ir_chain rule) (ir_argv rule))
  = Some (Delete (ir_table rule) (ir_chain rule) (ir_argv rule)).
Proof. reflexivity. Qed.

(** The commands of a frontend: the versions they tell, the text a table is
    saved as, the rules that can be read back from it, and the errors with which
    a command ends that has done its work. *)
Class IPTablesTools : Type := {
  tools_frontend : string;
  tools_plane : iptablesRulePlane;
  rules_version : string;
  save_version : string;
  saved_text : string -> Table -> string;
  comes_late : error -> bool;
  printable : list string -> Prop
}.
Class IPTablesLaws `{IPTablesTools} : Prop := {
  plane_of_frontend : newIPTablesRulePlane tools_frontend = Ok tools_plane;
  versions_match : plane_identity tools_plane (Ok rules_version) (Ok save_version) = None;
  saved_text_prints table T : Forall printable (lines_of T) -> prints (saved_text table T) (lines_of T)
}.

Section Hosts.
Context `{Tools : IPTablesTools} `{!IPTablesLaws}.
Context (failing : bool).

(** The answer of a command that works. *)
Definition honest_command (h : Host) (name : string) (argv : list string) (r : result string) : Prop :=
  if bool_decide (name = saveCommand tools_plane) then
    if bool_decide (argv = ["--version"]) then r = Ok save_version
    else match argv with
         | [t; table] => t = "-t" -> r = Ok (saved_text table (table_of h table))
         | _ => True
         end
  else if bool_decide (name = rulesCommand tools_plane) then
    if bool_decide (argv = ["--version"]) then r = Ok rules_version
    else match change_of argv with Some c => is_ok r = possible h c | None => True end
  else True.

Definition honest_answer {X} (e : HostE X) : X -> Host -> Prop :=
  match e in HostE X return X -> Host -> Prop with
  | Run name argv => fun r h => honest_command h name argv r
  | ReadFile path => fun r h =>
      match r with
      | Ok text => list_to_set (Fields text) = h_loaded h
      | Err e => errors_Is e ErrNotExist = true /\ h_loaded h = ∅
      end
  end.

(** A file that is there is not reported missing. *)
Definition failed_answer {X} (e : HostE X) : X -> Prop :=
  match e in HostE X return X -> Prop with
  | Run _ _ => fun r => is_ok r = false
  | ReadFile _ => fun r => match r with Ok _ => False | Err e => errors_Is e ErrNotExist = false end
  end.

(** A command that could do its work has done it when it succeeds, and when its
    error comes late. *)
Definition done_late (r : result string) : bool := match r with Ok _ => true | Err e => comes_late e end.
Definition after_command (h : Host) (argv : list string) (r : result string) : Host :=
  match change_of argv with Some c => if done_late r && possible h c then changed h c else h | None => h end.

Definition after_answer {X} (e : HostE X) : X -> Host -> Host :=
  match e in HostE X return X -> Host -> Host with
  | Run name argv => fun r h =>
      if bool_decide (name = rulesCommand tools_plane) then after_command h argv r else h
  | ReadFile _ => fun _ h => h
  end.

(** ** Program and host *)
Context (program : iptablesProgram) (Hgood : good_program program).
Context (Hprintable : Forall (fun r => printable (saved_rule r)) (ip_rules program)).

Definition owned_rows (T : Table) : list (list string) := filter (owned_line program) (lines_of T).

(** What is not of the program. *)
Definition strip (T : Table) : Table :=
  (fun entry => (entry.1, filter (fun argv => ~ owned_line program (line_of entry.1 argv)) entry.2)) <$> T.

Lemma strip_on_chain chain f T :
  (forall rs, filter (fun argv => ~ owned_line program (line_of chain argv)) (f rs)
              = filter (fun argv => ~ owned_line program (line_of chain argv)) rs) -> strip (on_chain chain f T) = strip T.
Proof.
  intros Hf. unfold strip, on_chain. rewrite <- list_fmap_compose. apply list_fmap_ext. intros _ [c rs] _. unfold compose. cbn [fst snd].
  case_decide as E; [|done]. cbn [fst snd]. subst c. by rewrite Hf.
Qed.

Lemma strip_insert chain argv T : owned_line program (line_of chain argv) -> strip (insert_rule chain argv T) = strip T.
Proof. intros Ho. apply strip_on_chain. intros rs. by rewrite filter_cons_False by tauto. Qed.

Lemma strip_delete chain argv T : owned_line program (line_of chain argv) -> strip (delete_rule chain argv T) = strip T.
Proof.
  intros Ho. apply strip_on_chain. intros rs. induction rs as [|r rs IH]; [done|]. cbn [remove_first]. case_decide as E.
  - subst. by rewrite filter_cons_False by tauto.
  - rewrite !filter_cons, IH. done.
Qed.

Lemma strip_clean T : owned_rows T = [] -> strip T = T.
Proof.
  intros Hr. assert (Hn : forall l, l ∈ lines_of T -> ~ owned_line program l).
  { intros l Hl Ho. eapply filter_nil_not_elem_of; [exact Hr|exact Ho|done]. }
  clear Hr. unfold strip. apply list_eq_same_length with (length T); [done|by rewrite length_fmap|].
  intros i [c rs] [c' rs'] Hi H1 H2. rewrite list_lookup_fmap in H1. rewrite H2 in H1. cbn in H1. injection H1 as <- <-. f_equal.
  assert (Hrs : Forall (fun argv => ~ owned_line program (line_of c' argv)) rs').
  { apply Forall_forall. intros argv Ha. apply Hn, in_lines_of. exists c', rs', argv. split; [by eapply list_elem_of_lookup_2|done]. }
  clear -Hrs. induction Hrs as [|argv rs Ha _ IH]; [done|]. by rewrite filter_cons_True, IH.
Qed.

(** The tables of the program and its chains. *)
Definition place (table chain : string) : Prop :=
  (table = "filter" /\ chain = "FORWARD") \/ (table = "nat" /\ chain = "POSTROUTING").

Record host_wf (h : Host) : Prop := {
  wf_chains table chain : place table chain -> NoDup (chains (table_of h table)) /\ chain ∈ chains (table_of h table);
  wf_printable table : Forall printable (lines_of (table_of h table));
  wf_names : exists text, list_to_set (Fields text) = h_loaded h;
  wf_loaded : tools_frontend = iptablesFrontendLegacy -> forall table, table ∉ h_loaded h -> lines_of (table_of h table) = []
}.

(** Of the program's rules each is there at most once, as it was made; the other
    rules of the host are [base]. *)
Record own_host (base : string -> Table) (h : Host) : Prop := {
  own_wf : host_wf h;
  own_exact table : exact_lines program table (lines_of (table_of h table));
  own_base table : strip (table_of h table) = base table
}.

Definition owned (h : Host) : list (list string) := owned_rows (h_filter h) ++ owned_rows (h_nat h).

Lemma owned_perm T L : lines_of T ≡ₚ L -> owned_rows T ≡ₚ filter (owned_line program) L.
Proof. intros E. unfold owned_rows. by rewrite E. Qed.

Lemma exact_perm table L L' :
  filter (owned_line program) L ≡ₚ filter (owned_line program) L' -> exact_lines program table L -> exact_lines program table L'.
Proof. unfold exact_lines. intros E. by rewrite E. Qed.

Lemma saved_line r : saved_rule r = line_of (ir_chain r) (ir_argv r).
Proof. done. Qed.

Lemma rule_place r : r ∈ ip_rules program -> place (ir_table r) (ir_chain r).
Proof. intros Hr. pose proof (gp_chains _ Hgood) as Hc. rewrite Forall_forall in Hc. by apply Hc. Qed.

Lemma rule_line r : r ∈ ip_rules program -> owned_line program (line_of (ir_chain r) (ir_argv r)).
Proof. intros Hr. by apply (saved_owned program Hgood). Qed.

Lemma exact_insert table chain argv T r :
  r ∈ rules_of_table program table -> saved_rule r = line_of chain argv -> owned_line program (line_of chain argv) ->
  NoDup (chains T) -> chain ∈ chains T -> line_of chain argv ∉ owned_rows T -> exact_lines program table (lines_of T) ->
  exact_lines program table (lines_of (insert_rule chain argv T)) /\
  owned_rows (insert_rule chain argv T) ≡ₚ line_of chain argv :: owned_rows T.
Proof.
  intros Hr Es Ho Hd Hc Hn He. pose proof (owned_perm _ _ (insert_lines chain argv T Hd Hc)) as Hp.
  rewrite filter_cons_True in Hp by done. split; [|exact Hp]. destruct He as [He1 He2]. unfold exact_lines. fold (owned_rows T) in Hp.
  change (filter (owned_line program) (lines_of (insert_rule chain argv T))) with (owned_rows (insert_rule chain argv T)).
  rewrite Hp. split; [by constructor|]. constructor; [by exists r|done].
Qed.

Lemma exact_delete table chain argv T :
  owned_line program (line_of chain argv) -> NoDup (chains T) -> line_of chain argv ∈ owned_rows T -> exact_lines program table (lines_of T) ->
  exact_lines program table (lines_of (delete_rule chain argv T)) /\
  owned_rows T ≡ₚ line_of chain argv :: owned_rows (delete_rule chain argv T).
Proof.
  intros Ho Hd Hin He. apply list_elem_of_filter in Hin as [_ Hin]. pose proof (owned_perm _ _ (delete_lines chain argv T Hd Hin)) as Hp.
  rewrite filter_cons_True in Hp by done. fold (owned_rows (delete_rule chain argv T)) in Hp. split; [|exact Hp].
  destruct He as [He1 He2]. unfold exact_lines. fold (owned_rows T) in He1, He2. fold (owned_rows (delete_rule chain argv T)).
  rewrite Hp in He1, He2. apply NoDup_cons in He1 as [_ He1]. by apply Forall_cons in He2 as [_ He2].
Qed.

Lemma printable_insert chain argv T :
  NoDup (chains T) -> chain ∈ chains T -> printable (line_of chain argv) -> Forall printable (lines_of T) ->
  Forall printable (lines_of (insert_rule chain argv T)).
Proof. intros Hd Hc Hp HT. rewrite (insert_lines chain argv T Hd Hc). by constructor. Qed.

Lemma printable_delete chain argv T :
  NoDup (chains T) -> line_of chain argv ∈ lines_of T -> Forall printable (lines_of T) -> Forall printable (lines_of (delete_rule chain argv T)).
Proof. intros Hd Hin HT. rewrite (delete_lines chain argv T Hd Hin) in HT. by apply Forall_cons in HT as [_ ?]. Qed.

Definition rules_at (h : Host) (table chain : string) : list (list string) := iptablesChainRules (lines_of (table_of h table)) chain.

Lemma update_table_of h table chain f table' :
  place table chain ->
  table_of (update_table h table f) table' = if decide (table' = table) then f (table_of h table) else table_of h table'.
Proof.
  intros [[-> _]|[-> _]]; unfold update_table, table_of; cbn -[bool_decide];
    repeat case_bool_decide; repeat case_decide; try done; cbn -[bool_decide]; try congruence;
    repeat case_bool_decide; congruence.
Qed.

Lemma update_loaded h table chain f : place table chain -> h_loaded (update_table h table f) = {[ table ]} ∪ h_loaded h.
Proof. by intros [[-> _]|[-> _]]. Qed.

Lemma owned_update h table chain f L :
  place table chain -> owned_rows (f (table_of h table)) ≡ₚ L ++ owned_rows (table_of h table) ->
  owned (update_table h table f) ≡ₚ L ++ owned h.
Proof.
  intros [[-> _]|[-> _]] E; unfold owned, update_table; cbn -[owned_rows]; rewrite E; [by rewrite app_assoc|].
  change (table_of h "nat") with (h_nat h). rewrite !app_assoc. apply Permutation_app_tail, Permutation_app_comm.
Qed.

Lemma names_more h table chain :
  place table chain -> (exists text, list_to_set (Fields text) = h_loaded h) ->
  exists text, list_to_set (Fields text) =@{gset string} {[ table ]} ∪ h_loaded h.
Proof.
  intros Hpl [text <-]. exists (table +:+ (" " +:+ text)).
  assert (Fields (table +:+ (" " +:+ text)) = table :: Fields text) as ->; [|done]. by destruct Hpl as [[-> _]|[-> _]].
Qed.

(** The effect of inserting a rule that is not there. *)
Lemma insert_step base h r :
  own_host base h -> r ∈ ip_rules program -> saved_rule r ∉ owned h ->
  let h' := changed h (Insert (ir_table r) (ir_chain r) (ir_argv r)) in
  own_host base h' /\ owned h' ≡ₚ saved_rule r :: owned h /\ possible h (Insert (ir_table r) (ir_chain r) (ir_argv r)) = true /\
  rules_at h' (ir_table r) (ir_chain r) = saved_rule r :: rules_at h (ir_table r) (ir_chain r) /\
  forall table, table <> ir_table r -> table_of h' table = table_of h table.
Proof.
  intros [[Wc Wp Wt Wl] He Eb] Hr Hn. pose proof (rule_line r Hr) as Ho. pose proof (rule_place r Hr) as Hpl.
  destruct (Wc _ _ Hpl) as [Hd Hc]. rewrite Forall_forall in Hprintable. pose proof (Hprintable r Hr) as Hpr. rewrite saved_line in *.
  assert (Hn' : line_of (ir_chain r) (ir_argv r) ∉ owned_rows (table_of h (ir_table r))).
  { unfold owned in Hn. rewrite not_elem_of_app in Hn. destruct Hn. by destruct Hpl as [[-> _]|[-> _]]. }
  destruct (exact_insert (ir_table r) (ir_chain r) (ir_argv r) (table_of h (ir_table r)) r) as [He' Hp]; try done;
    [by apply in_rules_of_table|].
  cbn zeta. unfold changed, possible, rules_at. split_and!.
  - constructor; [constructor|..]; [intros table chain Hpl'|intros table| |intros Hl table|intros table|intros table];
      rewrite ?(update_table_of _ _ _ _ _ Hpl), ?(update_loaded _ _ _ _ Hpl).
    + case_decide; [subst|by apply Wc]. unfold insert_rule. rewrite on_chain_chains. by apply Wc.
    + case_decide; [by apply printable_insert|done].
    + by apply (names_more _ _ _ Hpl).
    + rewrite not_elem_of_union, not_elem_of_singleton. intros [Hne Ht]. rewrite decide_False by done. by apply Wl.
    + case_decide; [by subst|done].
    + case_decide; [subst|done]. by rewrite strip_insert.
  - by apply (owned_update _ _ _ _ [_] Hpl).
  - by rewrite bool_decide_eq_true_2.
  - rewrite (update_table_of _ _ _ _ _ Hpl), decide_True by done. by apply insert_chain_rules.
  - intros table Hne. by rewrite (update_table_of _ _ _ _ _ Hpl), decide_False.
Qed.

Lemma owned_place base h r :
  own_host base h -> r ∈ ip_rules program -> saved_rule r ∈ owned h -> saved_rule r ∈ owned_rows (table_of h (ir_table r)).
Proof.
  intros [_ He _] Hr Hin. assert (Hex : exists table, saved_rule r ∈ owned_rows (table_of h table)).
  { apply elem_of_app in Hin as [Hin|Hin]; [by exists "filter"|by exists "nat"]. }
  destruct Hex as [table Ht]. destruct (He table) as [_ Hf]. rewrite Forall_forall in Hf.
  destruct (Hf _ Ht) as (r' & [Et Hr']%in_rules_of_table & Es). apply (saved_rule_inj program Hgood) in Es as <-; [|done..]. by subst.
Qed.

(** The effect of deleting one that is there. *)
Lemma delete_step base h r :
  own_host base h -> r ∈ ip_rules program -> saved_rule r ∈ owned h ->
  let h' := changed h (Delete (ir_table r) (ir_chain r) (ir_argv r)) in
  own_host base h' /\ owned h ≡ₚ saved_rule r :: owned h' /\ possible h (Delete (ir_table r) (ir_chain r) (ir_argv r)) = true.
Proof.
  intros Hown Hr Hin. apply (owned_place _ _ _ Hown Hr) in Hin. destruct Hown as [[Wc Wp Wt Wl] He Eb].
  pose proof (rule_line r Hr) as Ho. pose proof (rule_place r Hr) as Hpl. destruct (Wc _ _ Hpl) as [Hd Hc]. rewrite saved_line in *.
  pose proof Hin as [_ Hline]%list_elem_of_filter.
  destruct (exact_delete (ir_table r) (ir_chain r) (ir_argv r) (table_of h (ir_table r))) as [He' Hp]; try done.
  cbn zeta. unfold changed, possible. split_and!.
  - constructor; [constructor|..]; [intros table chain Hpl'|intros table| |intros Hl table|intros table|intros table];
      rewrite ?(update_table_of _ _ _ _ _ Hpl), ?(update_loaded _ _ _ _ Hpl).
    + case_decide; [subst|by apply Wc]. unfold delete_rule. rewrite on_chain_chains. by apply Wc.
    + case_decide; [by apply printable_delete|done].
    + by apply (names_more _ _ _ Hpl).
    + rewrite not_elem_of_union, not_elem_of_singleton. intros [Hne Ht]. rewrite decide_False by done. by apply Wl.
    + case_decide; [by subst|done].
    + case_decide; [subst|done]. by rewrite strip_delete.
  - destruct Hpl as [[Et _]|[Et _]]; rewrite Et in *; unfold owned, update_table; cbn -[owned_rows delete_rule].
    + change (table_of h "filter") with (h_filter h) in Hp. by rewrite Hp.
    + change (table_of h "nat") with (h_nat h) in Hp. rewrite Hp. by rewrite <- Permutation_middle.
  - by rewrite bool_decide_eq_true_2.
Qed.

(** A host without rules of the program. *)
Definition clean (h : Host) : Prop := owned h = [].

Lemma clean_own h : host_wf h -> clean h -> own_host (table_of h) h.
Proof.
  intros Hw Hc. unfold clean, owned in Hc. apply app_eq_nil in Hc as [Hf Hn].
  assert (Ho : forall table, owned_rows (table_of h table) = []).
  { intros table. unfold table_of. by repeat case_bool_decide. }
  constructor; [done| |intros table; apply strip_clean, Ho].
  intros table. specialize (Ho table). unfold owned_rows in Ho. unfold exact_lines. rewrite Ho. split; constructor.
Qed.

(** ** The world *)
(** The commands the backend may run: it asks for versions and tables, probes
    the extensions it needs, and inserts and deletes rules of its program. *)
Definition allowed_command (name : string) (argv : list string) : Prop :=
  (argv = ["--version"] /\ (name = rulesCommand tools_plane \/ name = saveCommand tools_plane)) \/
  (name = saveCommand tools_plane /\ exists table, (table = "filter" \/ table = "nat") /\ argv = ["-t"; table]) \/
  (name = rulesCommand tools_plane /\ argv ∈ capability_probes) \/
  (name = rulesCommand tools_plane /\ exists r, r ∈ ip_rules program /\
     (argv = im_argv (install_mutation r) \/ argv = iptablesRuleCommand (ir_table r) "-D" (ir_chain r) (ir_argv r))).

Definition allowed {X} (e : HostE X) : Prop :=
  match e with Run name argv => allowed_command name argv | ReadFile path => path = legacyIPTablesNamesPath end.

Context (base : string -> Table).

#[local] Instance host_world : World HostE Host := {
  may_call X e h := own_host base h /\ allowed e;
  may_answer X e x h := honest_answer e x h \/ (failing = true /\ failed_answer e x);
  after_call X e x h := after_answer e x h;
  holds h := True
}.

Lemma commands_differ : rulesCommand tools_plane <> saveCommand tools_plane.
Proof.
  pose proof plane_of_frontend as Hp. unfold newIPTablesRulePlane in Hp. repeat case_bool_decide; try done; by apply Ok_inj in Hp as <-.
Qed.

Lemma plane_frontend : pl_frontend tools_plane = tools_frontend.
Proof.
  pose proof plane_of_frontend as Hp. unfold newIPTablesRulePlane in Hp. repeat case_bool_decide; try done; by apply Ok_inj in Hp as <-.
Qed.

Lemma some_answer h name argv : exists r, honest_command h name argv r.
Proof.
  unfold honest_command. destruct (bool_decide (name = saveCommand tools_plane)).
  - destruct (bool_decide (argv = ["--version"])); [by eexists|]. 
    destruct argv as [|t [|table [|]]]; try by exists (Ok ""). by eexists.
  - destruct (bool_decide (name = rulesCommand tools_plane)); [|by exists (Ok "")].
    destruct (bool_decide (argv = ["--version"])); [by eexists|]. destruct (change_of argv) as [c|]; [|by exists (Ok "")].
    destruct (possible h c) eqn:E; [by exists (Ok "")|by exists (Err (ErrText ""))].
Qed.

Lemma total_command h name argv (Q : result string -> Host -> Prop) :
  own_host base h -> allowed_command name argv ->
  (forall r, honest_command h name argv r \/ (failing = true /\ is_ok r = false) -> Q r (after_answer (Run name argv) r h)) ->
  total h (call (Run name argv)) Q.
Proof.
  intros Hh Ha HQ. apply total_call; [by split| |].
  - destruct (some_answer h name argv) as [r Hr]. exists r. by left.
  - intros r Hr. by apply HQ.
Qed.

Definition reading (name : string) (argv : list string) : Prop :=
  name = saveCommand tools_plane \/ change_of argv = None.

Lemma reading_after name argv r h : reading name argv -> after_answer (Run name argv) r h = h.
Proof.
  intros Hr. cbn. case_bool_decide as En; [|done]. destruct Hr as [Hr|Hr]; [by destruct commands_differ; congruence|].
  unfold after_command. by rewrite Hr.
Qed.

Lemma total_reading h name argv (Q : result string -> Host -> Prop) :
  own_host base h -> allowed_command name argv -> reading name argv ->
  (forall r, honest_command h name argv r \/ (failing = true /\ is_ok r = false) -> Q r h) ->
  total h (call (Run name argv)) Q.
Proof. intros Hh Ha Hr HQ. apply total_command; [done..|]. intros r Hq. rewrite reading_after by done. by apply HQ. Qed.

Lemma version_command name : name = rulesCommand tools_plane \/ name = saveCommand tools_plane -> allowed_command name ["--version"].
Proof. intros Hn. by left. Qed.

Lemma honest_rules_version h r : honest_command h (rulesCommand tools_plane) ["--version"] r -> r = Ok rules_version.
Proof.
  unfold honest_command. rewrite bool_decide_eq_false_2 by apply commands_differ. by rewrite !bool_decide_eq_true_2 by done.
Qed.
Lemma honest_save_version h r : honest_command h (saveCommand tools_plane) ["--version"] r -> r = Ok save_version.
Proof. unfold honest_command. by rewrite !bool_decide_eq_true_2 by done. Qed.
Lemma honest_table h r table : honest_command h (saveCommand tools_plane) ["-t"; table] r -> r = Ok (saved_text table (table_of h table)).
Proof. unfold honest_command. rewrite bool_decide_eq_true_2 by done. rewrite bool_decide_eq_false_2 by done. auto. Qed.

Lemma verifyIdentity_total h :
  own_host base h -> total h (verifyIdentity tools_plane) (fun e h' => h' = h /\ (e = None \/ failing = true)).
Proof.
  intros Hh. unfold verifyIdentity. eapply total_bind.
  { apply (total_reading h _ _ (fun r h' => h' = h /\ (r = Ok rules_version \/ failing = true))); [done|by apply version_command; left|by right|].
    intros r [Hr|[Hf _]]; [|by auto]. apply honest_rules_version in Hr. auto. }
  intros r1 h1 [-> H1]. eapply total_bind.
  { apply (total_reading h _ _ (fun r h' => h' = h /\ (r = Ok save_version \/ failing = true))); [done|by apply version_command; right|by left|].
    intros r [Hr|[Hf _]]; [|by auto]. apply honest_save_version in Hr. auto. }
  intros r2 h2 [-> H2]. apply total_ret. split; [done|]. destruct H1 as [-> |]; [|by right]. destruct H2 as [-> |]; [|by right].
  left. apply versions_match.
Qed.

Definition reads (h : Host) (table : string) (r : result string) : Prop :=
  match r with Ok output => prints output (lines_of (table_of h table)) | Err _ => failing = true end.

Lemma readTable_total h table :
  own_host base h -> table = "filter" \/ table = "nat" ->
  total h (readTable tools_plane table) (fun r h' => h' = h /\ reads h table r).
Proof.
  intros Hh Ht. unfold readTable. eapply total_bind.
  { apply (total_reading h _ _ (fun r h' => h' = h /\ reads h table r)); [done|right; left; eauto|by left|].
    intros r [Hr|[Hf He]]; split; try done.
    - apply honest_table in Hr as ->. cbn. apply saved_text_prints. apply Hh.
    - by destruct r. }
  intros r h' [-> Hr]. apply total_ret. split; [done|]. by destruct r.
Qed.

Definition reads_both (h : Host) (r : result (string * string)) : Prop :=
  match r with Ok (f, n) => reads h "filter" (Ok f) /\ reads h "nat" (Ok n) | Err _ => failing = true end.

Lemma empty_filter_prints : prints emptyLegacyFilterInventory [].
Proof. exists []. split; [by vm_compute|constructor]. Qed.
Lemma empty_nat_prints : prints emptyLegacyNATInventory [].
Proof. exists []. split; [by vm_compute|constructor]. Qed.

Lemma total_read_existing h (exists_ : bool) table :
  own_host base h -> table = "filter" \/ table = "nat" ->
  total h (read_existing tools_plane exists_ table) (fun r h' => h' = h /\ (exists_ = true -> reads h table r) /\ (is_ok r = true \/ failing = true)).
Proof.
  intros Hh Ht. unfold read_existing. destruct exists_; [|apply total_ret; split_and!; [done|done|by left]].
  eapply total_mono; [by apply readTable_total|]. intros r h' [-> Hr]. split; [done|]. split; [done|]. destruct r; auto.
Qed.

Lemma readTables_total h (ef en : bool) :
  own_host base h ->
  total h (readTables tools_plane ef en) (fun r h' => h' = h /\
    match r with Ok (f, n) => (ef = true -> reads h "filter" (Ok f)) /\ (en = true -> reads h "nat" (Ok n)) | Err _ => failing = true end).
Proof.
  intros Hh. unfold readTables. eapply total_bind_ok; [apply (total_read_existing h ef "filter"); auto| |].
  - intros f h1 (-> & Hf & _). cbn beta. eapply total_bind_ok; [apply (total_read_existing h en "nat"); auto| |].
    + intros n h2 (-> & Hn & _). apply total_ret. auto.
    + intros e h2 (-> & _ & [|]); [done|]. auto.
  - intros e h1 (-> & _ & [|]); [done|]. auto.
Qed.

Lemma Names_total h :
  own_host base h -> total h Names (fun r h' => h' = h /\ (r = Ok (h_loaded h) \/ failing = true /\ is_ok r = false)).
Proof.
  intros Hh. unfold Names. eapply total_bind.
  - apply (total_call h (ReadFile _) (fun r h' => h' = h /\ (honest_answer (ReadFile legacyIPTablesNamesPath) r h \/
      failing = true /\ failed_answer (ReadFile legacyIPTablesNamesPath) r))); [by split| |by intros r Hr].
    destruct (wf_names h (own_wf _ _ Hh)) as [text Ht]. exists (Ok text). by left.
  - intros r h' [-> Hr]. apply total_ret. split; [done|]. destruct r as [text|e].
    + destruct Hr as [Hr|[_ []]]. left. by rewrite <- Hr.
    + destruct Hr as [[He Hl]|[Hf He]]; [left; by rewrite He, Hl|right]. cbn in He. by rewrite He.
Qed.

Lemma readInventory_total h :
  own_host base h -> total h (readInventory tools_plane) (fun r h' => h' = h /\ reads_both h r).
Proof.
  intros Hh. unfold readInventory. rewrite plane_frontend. case_bool_decide as El.
  - unfold readLegacyInventory. eapply total_bind_ok; [by apply Names_total| |].
    + intros names h1 (-> & [E|[_ E]]); [apply Ok_inj in E as ->|done]. eapply total_bind_ok; [by apply readTables_total| |].
      * intros [f n] h2 [-> [Hf Hn]]. apply total_ret. split; [done|]. cbn [fst snd reads_both].
        pose proof (wf_loaded h (own_wf _ _ Hh) El) as Wl. split; cbn [reads].
        -- destruct (bool_decide_reflect ("filter" ∈ h_loaded h)) as [Ef|Ef]; [by apply Hf|]. rewrite (Wl _ Ef). apply empty_filter_prints.
        -- destruct (bool_decide_reflect ("nat" ∈ h_loaded h)) as [Ef|Ef]; [by apply Hn|]. rewrite (Wl _ Ef). apply empty_nat_prints.
      * intros e h2 [-> He]. by split.
    + intros e h1 (-> & [E|[E _]]); [done|]. by split.
  - eapply total_mono; [by apply readTables_total|]. intros [[f n]|e] h' [-> Hr]; (split; [done|]); cbn in Hr |- *; [|done].
    destruct Hr. auto.
Qed.

(** What an observation tells. *)
Lemma plane_observe_total h allowPartial :
  own_host base h ->
  total h (plane_observe tools_plane program allowPartial) (fun r h' => h' = h /\
    (failing = true /\ is_ok r = false \/
     exists f n, prints f (lines_of (h_filter h)) /\ prints n (lines_of (h_nat h)) /\ r = observeIPTablesProgram f n program allowPartial)).
Proof.
  intros Hh. unfold plane_observe. eapply total_bind; [by apply verifyIdentity_total|]. intros e h1 [-> He].
  destruct e as [e|]; [apply total_ret; destruct He as [|Hf]; [done|auto]|]. clear He.
  eapply total_bind_ok; [by apply readInventory_total| |].
  - intros [f n] h2 [-> [Hf Hn]]. apply total_ret. split; [done|]. right. by exists f, n.
  - intros e h2 [-> Hf]. split; [done|]. by left.
Qed.

Definition observed (h : Host) : iptablesObservation := found program (lines_of (h_filter h)) (lines_of (h_nat h)).

Lemma observed_count h : own_host base h -> observation_count (observed h) = zlen (owned h).
Proof.
  intros Hh. unfold observed. rewrite (found_count program Hgood) by apply (own_exact _ _ Hh).
  unfold owned, owned_rows, zlen. rewrite length_app. lia.
Qed.

Lemma observe_total h :
  own_host base h ->
  total h (plane_observe tools_plane program true) (fun r h' => h' = h /\
    match r with Ok present => present = observed h | Err _ => failing = true end).
Proof.
  intros Hh. eapply total_mono; [by apply plane_observe_total|]. intros r h' [-> [[Hf Hr]|(f & n & Pf & Pn & ->)]]; (split; [done|]).
  - by destruct r.
  - rewrite (observe_partial program Hgood _ _ _ _ Pf Pn); [done|apply (own_exact _ _ Hh)..].
Qed.

(** ** The loops *)
Section Loops.
Context (claim : networkClaim) (Hfrontend : nc_iptablesFrontend claim = tools_frontend).

Lemma iptables_observe_total h :
  own_host base h ->
  total h (iptables_observe claim program true) (fun r h' => h' = h /\
    match r with Ok present => present = observed h | Err _ => failing = true end).
Proof.
  intros Hh. unfold iptables_observe. rewrite Hfrontend, plane_of_frontend.
  eapply (total_bind_ok _ _ _ (fun r h' => h' = h /\ r = Ok tools_plane)); [by apply total_ret| |by intros e h' [_ ?]].
  intros plane h' [-> Hp]. apply Ok_inj in Hp as ->. by apply observe_total.
Qed.

(** The error of a command that has done its work. *)
Definition uncertain (context : string) (e : option error) : Prop :=
  failing = true /\ exists cause, e = Some (ErrWrap context cause) /\ comes_late cause = true.

(** A command that changes one rule, and the look that follows. *)
Lemma run_and_count_total h argv c expected failed verify wrong :
  own_host base h -> allowed_command (rulesCommand tools_plane) argv -> change_of argv = Some c -> argv <> ["--version"] ->
  possible h c = true -> own_host base (changed h c) -> zlen (owned (changed h c)) = expected ->
  total h (run_and_count tools_plane claim program argv expected failed verify wrong) (fun '(ran, e) h' =>
    (failing = false -> e = None) /\
    ((ran = false /\ is_Some e /\ (h' = h \/ h' = changed h c /\ uncertain failed e)) \/ (ran = true /\ h' = changed h c))).
Proof.
  intros Hh Ha Hc Hv Hp Hh' He. unfold run_and_count.
  eapply (total_bind _ _ _ (fun r h' => (failing = false -> is_ok r = true) /\ h' = if done_late r then changed h c else h)).
  - apply total_command; [done..|]. intros r Hr. cbn [after_answer]. unfold after_command. rewrite bool_decide_eq_true_2, Hc, Hp, andb_true_r by done.
    split; [|done]. intros Hf. destruct Hr as [Hr|[Hr _]]; [|congruence]. revert Hr. unfold honest_command.
    rewrite bool_decide_eq_false_2 by apply commands_differ. rewrite bool_decide_eq_true_2, bool_decide_eq_false_2, Hc by done. congruence.
  - intros [out|e] h' [Hok ->]; cbn [is_ok done_late] in *.
    + eapply total_bind; [by apply iptables_observe_total|]. intros r h' [-> Hr]. apply total_ret. split; [|by right].
      intros Hf. destruct r as [present|e]; [|congruence]. by rewrite Hr, observed_count, He, Z.eqb_refl.
    + apply total_ret. split; [by intros Hf; specialize (Hok Hf)|]. left. split_and!; [done|by eexists|].
      destruct (comes_late e) eqn:El; [right; split; [done|]|by left]. split; [by destruct failing; [|specialize (Hok eq_refl)]|].
      by exists e.
Qed.

Definition add_all (receipts : firewallReceipts) (R : list iptablesRule) : firewallReceipts :=
  foldl receipts_add receipts (ir_owner <$> R).

(** The state after a part of the rules was inserted. *)
Record inserted (h h' : Host) (R1 : list iptablesRule) : Prop := {
  ins_own : own_host base h';
  ins_owned : owned h' ≡ₚ (saved_rule <$> R1) ++ owned h;
  ins_rules table chain : place table chain ->
    rules_at h' table chain = (saved_rule <$> rev (filter (fun r => ir_table r = table) R1)) ++ rules_at h table chain
}.

Lemma inserted_nil h : own_host base h -> inserted h h [].
Proof. by constructor. Qed.

Lemma inserted_cons h h' r R :
  own_host base h -> r ∈ ip_rules program -> saved_rule r ∉ owned h ->
  inserted (changed h (Insert (ir_table r) (ir_chain r) (ir_argv r))) h' R -> inserted h h' (r :: R).
Proof.
  intros Hh Hr Hn [I1 I2 I3]. destruct (insert_step base h r Hh Hr Hn) as (S1 & S2 & _ & S4 & S5). constructor; [done| |].
  - rewrite I2, S2, fmap_cons. cbn [app]. by rewrite <- Permutation_middle.
  - intros table chain Hpl. rewrite (I3 _ _ Hpl). rewrite filter_cons. case_decide as Et.
    + cbn [rev]. rewrite fmap_app, <- app_assoc. f_equal. subst table.
      assert (chain = ir_chain r) as ->; [|by rewrite S4].
      pose proof (rule_place r Hr) as Hpl'. destruct Hpl as [[E ->]|[E ->]], Hpl' as [[E' ->]|[E' ->]]; congruence.
    + f_equal. unfold rules_at. by rewrite S5 by done.
Qed.

(** A part of the rules is inserted and has receipts; after an uncertain error
    the next rule is there too, without one. *)
Definition installs (R : list iptablesRule) (h h' : Host) (receipts rc : firewallReceipts) (e : option error) : Prop :=
  exists R1 R2 R3, R = R1 ++ R2 ++ R3 /\ inserted h h' (R1 ++ R2) /\ rc = add_all receipts R1 /\
    (R2 = [] \/ exists r, R2 = [r] /\ uncertain ("apply iptables command " +:+ QuoteList (im_argv (install_mutation r))) e) /\ (e = None -> R2 ++ R3 = []) /\ (failing = false -> e = None).

Lemma installs_cons r R h h' receipts rc e :
  own_host base h -> r ∈ ip_rules program -> saved_rule r ∉ owned h ->
  installs R (changed h (Insert (ir_table r) (ir_chain r) (ir_argv r))) h' (receipts_add receipts (ir_owner r)) rc e ->
  installs (r :: R) h h' receipts rc e.
Proof.
  intros Hh Hr Hn (R1 & R2 & R3 & -> & I & -> & Hu & He & Hf). exists (r :: R1), R2, R3. split_and!; try done.
  cbn [app]. by apply inserted_cons.
Qed.

Lemma install_loop_total : forall R h index receipts,
  own_host base h -> Forall (fun r => r ∈ ip_rules program) R -> NoDup R -> Forall (fun r => saved_rule r ∉ owned h) R ->
  index = zlen (owned h) ->
  total h (install_loop tools_plane claim program index receipts (install_mutation <$> R)) (fun '(rc, e) h' =>
    installs R h h' receipts rc e).
Proof.
  induction R as [|r R IH]; intros h index receipts Hh HR Hd Hn Hi.
  - apply total_ret. exists [], [], []. split_and!; auto using inserted_nil.
  - apply Forall_cons in HR as [Hr HR]. apply NoDup_cons in Hd as [Hrd Hd]. apply Forall_cons in Hn as [Hnr Hn].
    destruct (insert_step base h r Hh Hr Hnr) as (S1 & S2 & S3 & _ & _). rewrite fmap_cons. cbn [install_loop].
    eapply total_bind.
    + eapply (run_and_count_total h _ _ _ _ _ _ Hh); [|apply insert_change|done|exact S3|exact S1|].
      * right; right; right. split; [done|]. exists r. auto.
      * rewrite Hi, S2, zlen_cons. done.
    + intros [ran e] h1 [Hok [(-> & [e' ->] & [-> |[-> Hu]])|(-> & ->)]].
      * apply total_ret. exists [], [], (r :: R). split_and!; auto using inserted_nil; done.
      * apply total_ret. exists [], [r], R. split_and!; eauto; [apply inserted_cons; [done..|]; by apply inserted_nil|done].
      * destruct e as [e|]; [apply total_ret; apply installs_cons; [done..|]; exists [], [], R; split_and!; auto using inserted_nil; done|].
        eapply total_mono; [apply IH; [done..| |]|].
        -- rewrite Forall_forall in Hn, HR |- *. intros r' Hr' Hin. rewrite S2, elem_of_cons in Hin.
           destruct Hin as [E|Hin]; [|by eapply Hn]. apply (saved_rule_inj program Hgood) in E; [by subst|by apply HR|done].
        -- rewrite S2, zlen_cons, Hi. done.
        -- intros [rc e] h2 I. by apply installs_cons.
Qed.

Definition delete_command (r : iptablesRule) : list string :=
  iptablesRuleCommand (ir_table r) "-D" (ir_chain r) (ir_argv r).

Lemma remove_loop_total : forall R K h remaining,
  own_host base h -> Forall (fun r => r ∈ ip_rules program) R -> owned h ≡ₚ saved_rule <$> R ++ K -> remaining = zlen (R ++ K) ->
  total h (remove_loop tools_plane claim program remaining (delete_command <$> R)) (fun e h' =>
    own_host base h' /\ exists R1 R2, R = R1 ++ R2 /\ owned h' ≡ₚ saved_rule <$> R2 ++ K /\
      (e = None -> R2 = []) /\ (failing = false -> e = None)).
Proof.
  induction R as [|r R IH]; intros K h remaining Hh HR Ho Hn.
  - apply total_ret. split; [done|]. by exists [], [].
  - apply Forall_cons in HR as [Hr HR]. assert (Hin : saved_rule r ∈ owned h) by (rewrite Ho; by left).
    destruct (delete_step base h r Hh Hr Hin) as (S1 & S2 & S3). rewrite fmap_cons. cbn [remove_loop].
    assert (Ho' : owned (changed h (Delete (ir_table r) (ir_chain r) (ir_argv r))) ≡ₚ saved_rule <$> R ++ K).
    { rewrite S2 in Ho. cbn [app] in Ho. rewrite fmap_cons in Ho. by apply Permutation_cons_inv in Ho. }
    eapply total_bind.
    + eapply (run_and_count_total h _ _ _ _ _ _ Hh); [|apply delete_change|done|exact S3|exact S1|].
      * right; right; right. split; [done|]. exists r. auto.
      * rewrite Ho', Hn. cbn [app]. rewrite zlen_cons. unfold zlen. rewrite length_fmap. lia.
    + intros [ran e] h1 [Hok [(-> & [e' ->] & [-> |[-> Hu]])|(-> & ->)]].
      * apply total_ret. split; [done|]. by exists [], (r :: R).
      * apply total_ret. split; [done|]. by exists [r], R.
      * destruct e as [e|]; [apply total_ret; split; [done|]; by exists [r], R|].
        eapply total_mono; [apply (IH K); [done..|]|].
        -- rewrite Hn. cbn [app]. rewrite zlen_cons. lia.
        -- intros e h2 [Hh2 (R1 & R2 & -> & Ho2 & He & Hf)]. split; [done|]. by exists (r :: R1), R2.
Qed.

(** ** The operations *)
Definition install_order : list iptablesRule := rev (rules_of_table program "filter") ++ rev (rules_of_table program "nat").

Lemma install_order_spec :
  install_mutations program = install_mutation <$> install_order /\ NoDup install_order /\
  (forall r, r ∈ install_order <-> r ∈ ip_rules program).
Proof.
  assert (Hrev : forall table, NoDup (rev (rules_of_table program table)) /\
    forall r, r ∈ rev (rules_of_table program table) <-> ir_table r = table /\ r ∈ ip_rules program).
  { intros table. split; [rewrite <- Permutation_rev; apply NoDup_filter, (NoDup_fmap_1 ir_owner), Hgood|].
    intros r. rewrite <- Permutation_rev. apply in_rules_of_table. }
  destruct (Hrev "filter") as [F1 F2], (Hrev "nat") as [N1 N2]. split_and!.
  - unfold install_mutations, install_order. rewrite fmap_app. cbn. by rewrite app_nil_r.
  - apply NoDup_app. split_and!; [done| |done]. intros r [? _]%F2 [? _]%N2. congruence.
  - intros r. unfold install_order. rewrite elem_of_app, F2, N2. split; [tauto|].
    intros Hr. destruct (rule_place r Hr) as [[? _]|[? _]]; tauto.
Qed.

Lemma owned_distinct h : own_host base h -> NoDup (owned h).
Proof.
  intros Hh. apply (NoDup_fmap_1 (owner_of)). unfold owned. rewrite fmap_app. apply NoDup_app.
  split; [apply (exact_owners program Hgood "filter"), (own_exact _ _ Hh)|].
  split; [|apply (exact_owners program Hgood "nat"), (own_exact _ _ Hh)].
  intros o Ho. apply (tables_apart program Hgood (lines_of (h_filter h))); [apply (own_exact _ _ Hh "filter")|apply (own_exact _ _ Hh "nat")|done].
Qed.

Lemma owned_rule h l : own_host base h -> l ∈ owned h -> exists r, r ∈ ip_rules program /\ l = saved_rule r.
Proof.
  intros Hh [Hl|Hl]%elem_of_app; [pose proof (own_exact _ _ Hh "filter") as [_ He]|pose proof (own_exact _ _ Hh "nat") as [_ He]];
    rewrite Forall_forall in He; destruct (He l Hl) as (r & [_ Hr]%in_rules_of_table & ->); by exists r.
Qed.

(** The rules that are there. *)
Definition is_present (h : Host) (r : iptablesRule) : Prop := saved_rule r ∈ owned h.
#[local] Instance is_present_dec h r : Decision (is_present h r).
Proof. unfold is_present. apply _. Defined.
Definition present_rules (h : Host) : list iptablesRule := filter (is_present h) (ip_rules program).

Lemma owned_present h : own_host base h -> owned h ≡ₚ saved_rule <$> present_rules h.
Proof.
  intros Hh. apply NoDup_Permutation; [by apply owned_distinct| |].
  - apply NoDup_fmap_2_strong; [|apply NoDup_filter, (NoDup_fmap_1 ir_owner), Hgood].
    intros r r' [_ Hr]%list_elem_of_filter [_ Hr']%list_elem_of_filter. by apply (saved_rule_inj program Hgood).
  - intros l. rewrite list_elem_of_fmap. split.
    + intros Hl. destruct (owned_rule h l Hh Hl) as (r & Hr & ->). exists r. split; [done|]. by apply list_elem_of_filter.
    + by intros (r & -> & [Hr _]%list_elem_of_filter).
Qed.

Lemma observed_lookup h r : r ∈ ip_rules program -> own_host base h -> default false (observed h !! ir_owner r) = bool_decide (is_present h r).
Proof.
  intros Hr Hh. pose proof (found_lookup program Hgood (lines_of (h_filter h)) (lines_of (h_nat h)) (ir_owner r)) as Hf.
  change (found program (lines_of (h_filter h)) (lines_of (h_nat h))) with (observed h) in Hf.
  change (filter (owned_line program) (lines_of (h_filter h)) ++ filter (owned_line program) (lines_of (h_nat h))) with (owned h) in Hf.
  assert (Hi : is_present h r <-> ir_owner r ∈ owner_of <$> owned h).
  { rewrite list_elem_of_fmap. split.
    - intros Hp. exists (saved_rule r). split; [by rewrite (proj2 (saved_owned program Hgood r Hr))|done].
    - intros (l & E & Hl). destruct (owned_rule h l Hh Hl) as (r' & Hr' & ->).
      rewrite (proj2 (saved_owned program Hgood r' Hr')) in E. by rewrite (same_owner program Hgood r r' Hr Hr' E). }
  rewrite <- Hi in Hf. case_bool_decide as Ep; [by rewrite (proj2 Hf Ep)|].
  destruct (observed h !! ir_owner r) as [[]|] eqn:E; [|done..]. by destruct Ep, Hf; auto.
Qed.

Definition has_receipt (receipts : option firewallReceipts) (r : iptablesRule) : bool :=
  match receipts with None => true | Some rc => receipts_has rc (ir_owner r) end.

Lemma remove_commands h receipts :
  own_host base h ->
  buildIPTablesRemoveCommandsFor program (observed h) receipts
  = delete_command <$> filter (fun r => has_receipt receipts r = true) (present_rules h).
Proof.
  intros Hh. unfold buildIPTablesRemoveCommandsFor, present_rules. f_equal. rewrite list_filter_filter.
  assert (Hr : Forall (fun r => r ∈ ip_rules program) (ip_rules program)) by by apply Forall_forall.
  revert Hr. generalize (ip_rules program) at 2 3 4. intros rules Hr. induction Hr as [|r rules Hr _ IH]; [done|].
  rewrite !filter_cons, IH. rewrite observed_lookup by done. unfold has_receipt.
  case_bool_decide; cbn [andb]; repeat case_decide; try done; exfalso; naive_solver.
Qed.

Lemma split_receipts {A} (p : A -> bool) l : l ≡ₚ filter (fun a => p a = true) l ++ filter (fun a => p a = false) l.
Proof.
  induction l as [|a l IH]; [done|]. rewrite !filter_cons. destruct (p a).
  - rewrite decide_True, decide_False by done. cbn [app]. by rewrite <- IH.
  - rewrite decide_False, decide_True by done. by rewrite <- Permutation_middle, <- IH.
Qed.

(** Removing takes away rules that are there and have a receipt, all of them
    when it succeeds. *)
Lemma remove_total h receipts :
  own_host base h -> buildIPTablesProgram claim = Ok program ->
  total h (iptables_remove claim receipts) (fun e h' => own_host base h' /\
    (forall r, is_present h' r -> is_present h r) /\
    (e = None -> forall r, r ∈ ip_rules program -> is_present h' r <-> is_present h r /\ has_receipt receipts r = false) /\
    (failing = false -> e = None)).
Proof.
  intros Hh Hb. unfold iptables_remove. rewrite Hb. cbn [failing_or].
  eapply total_bind; [by apply iptables_observe_total|]. intros obs h1 [-> Ho]. destruct obs as [present|e].
  2: { apply total_ret. split_and!; [done|done|done|congruence]. }
  subst present. cbn [failing_or]. rewrite Hfrontend, plane_of_frontend. cbn [failing_or]. rewrite remove_commands, observed_count by done.
  set (C := filter (fun r => has_receipt receipts r = true) (present_rules h)).
  set (K := filter (fun r => has_receipt receipts r = false) (present_rules h)).
  assert (HP : present_rules h ≡ₚ C ++ K) by apply split_receipts.
  pose proof (owned_present h Hh) as HO. rewrite HP in HO.
  assert (HCK : forall r, r ∈ C ++ K -> r ∈ ip_rules program /\ is_present h r).
  { intros r. rewrite <- HP. unfold present_rules. rewrite list_elem_of_filter. tauto. }
  eapply total_mono; [apply (remove_loop_total C K h); [done| |done|]|].
  - apply Forall_forall. intros r Hr. apply HCK, elem_of_app. by left.
  - rewrite HO. unfold zlen. by rewrite length_fmap.
  - intros e h' (Hh' & C1 & C2 & EC & Ho' & He & Hf). split; [done|].
    assert (Hp' : forall r, r ∈ ip_rules program -> is_present h' r <-> r ∈ C2 ++ K).
    { intros r Hr. unfold is_present. rewrite Ho', list_elem_of_fmap. split; [|intros Hin; by exists r].
      intros (r' & E & Hin). apply (saved_rule_inj program Hgood) in E as ->; [done|done|].
      apply HCK. rewrite EC. rewrite !elem_of_app in *. tauto. }
    split_and!; [| |done].
    + intros r Hr. unfold is_present in Hr. rewrite Ho', list_elem_of_fmap in Hr. destruct Hr as (r' & E & Hin).
      unfold is_present. rewrite E. apply HCK. rewrite EC. rewrite !elem_of_app in *. tauto.
    + intros E r Hr. rewrite Hp', (He E) by done. unfold K. cbn [app]. rewrite list_elem_of_filter. unfold present_rules.
      rewrite list_elem_of_filter. tauto.
Qed.

(** Nothing of the program is left: the host is as it was. *)
Lemma nothing_left h : own_host base h -> (forall r, r ∈ ip_rules program -> ~ is_present h r) -> owned h = [].
Proof.
  intros Hh Hn. destruct (owned h) as [|l ls] eqn:E; [done|]. destruct (owned_rule h l Hh) as (r & Hr & ->); [rewrite E; by left|].
  destruct (Hn r Hr). unfold is_present. rewrite E. by left.
Qed.

Lemma clean_host h : own_host base h -> owned h = [] -> forall table, table = "filter" \/ table = "nat" -> table_of h table = base table.
Proof.
  intros Hh Ho table Ht. rewrite <- (own_base _ _ Hh). symmetry. apply strip_clean. unfold owned in Ho. apply app_eq_nil in Ho as [H1 H2].
  by destruct Ht as [-> | ->].
Qed.

(** Installing inserts rules in the order of the mutations, with receipts; it
    does nothing where rules of the claim are left. *)
Lemma install_total h :
  own_host base h -> buildIPTablesProgram claim = Ok program ->
  total h (iptables_Install claim) (fun '(rc, e) h' =>
    clean h /\ installs install_order h h' (newFirewallReceipts firewallIPTables) rc e \/
    h' = h /\ rc = newFirewallReceipts firewallIPTables /\ is_Some e /\ (failing = false -> ~ clean h)).
Proof.
  intros Hh Hb. destruct install_order_spec as (Hm & Hd & Hin). unfold iptables_Install, buildIPTablesInstallMutations.
  rewrite Hb. cbn [rbind]. eapply total_bind; [by apply iptables_observe_total|]. intros obs h1 [-> Ho].
  assert (Hnone : forall (e : error) (Q : firewallReceipts * option error -> Host -> Prop), (failing = false -> ~ clean h) ->
    (is_Some (Some e) -> (failing = false -> ~ clean h) -> Q (newFirewallReceipts firewallIPTables, Some e) h) ->
    total h (Ret (newFirewallReceipts firewallIPTables, Some e)) Q).
  { intros e Q Hx HQ. apply total_ret, HQ; [by eexists|done]. }
  destruct obs as [present|e]; [|apply Hnone; [congruence|auto]].
  subst present. rewrite observed_count by done. destruct (zlen (owned h) =? 0) eqn:Ez; cbn [negb].
  2: { apply Hnone; [intros _ Hc; by rewrite Hc in Ez|auto]. }
  assert (Hc : clean h) by (unfold clean; destruct (owned h); [done|]; apply Z.eqb_eq in Ez; unfold zlen in Ez; cbn in Ez; lia).
  rewrite Hfrontend, plane_of_frontend, Hm. eapply total_mono.
  - apply install_loop_total; [done| |done| |by rewrite Hc].
    + apply Forall_forall. intros r Hr. by apply Hin.
    + apply Forall_forall. intros r _. rewrite Hc. apply not_elem_of_nil.
  - intros [rc e] h' I. by left.
Qed.

Lemma verify_total h (allowAbsent : bool) :
  own_host base h -> buildIPTablesProgram claim = Ok program ->
  total h (iptables_Verify claim allowAbsent) (fun e h' => h' = h /\ (failing = false ->
    (exists rest, rules_at h "filter" "FORWARD" = iptablesExpectedTableLines program "filter" ++ rest) ->
    (exists rest, rules_at h "nat" "POSTROUTING" = iptablesExpectedTableLines program "nat" ++ rest) ->
    zlen (owned h) = zlen (ip_rules program) -> e = None)).
Proof.
  intros Hh Hb. unfold iptables_Verify. rewrite Hb. cbn [failing_or]. unfold iptables_observe. rewrite Hfrontend, plane_of_frontend.
  apply (total_bind _ _ _ (fun r h' => h' = h /\ (failing = false ->
    (exists rest, rules_at h "filter" "FORWARD" = iptablesExpectedTableLines program "filter" ++ rest) ->
    (exists rest, rules_at h "nat" "POSTROUTING" = iptablesExpectedTableLines program "nat" ++ rest) ->
    zlen (owned h) = zlen (ip_rules program) -> is_ok r = true))).
  - eapply (total_bind_ok _ _ _ (fun r h' => h' = h /\ r = Ok tools_plane)); [by apply total_ret| |by intros e h' [_ ?]].
    intros plane h' [-> Hp]. apply Ok_inj in Hp as ->. eapply total_mono; [by apply plane_observe_total|].
    intros r h' [-> [[Hf _]|(f & n & Pf & Pn & ->)]]; (split; [done|]); intros Hf' [restF HF] [restN HN] Hz; [congruence|].
    pose proof (own_exact _ _ Hh "filter") as EF. pose proof (own_exact _ _ Hh "nat") as EN. destruct allowAbsent.
    + by rewrite (observe_partial program Hgood _ _ _ _ Pf Pn EF EN).
    + rewrite (observe_complete program Hgood _ _ _ _ restF restN Pf Pn EF EN HF HN); [done|].
      rewrite <- Hz. unfold owned, owned_rows, zlen. rewrite length_app. cbn [table_of]. lia.
  - intros r h' [-> Hr]. apply total_ret. split; [done|]. intros Hf HF HN Hz. specialize (Hr Hf HF HN Hz). by destruct r.
Qed.

Lemma verify_absent_total h :
  own_host base h -> buildIPTablesProgram claim = Ok program ->
  total h (iptables_VerifyAbsent claim) (fun e h' => h' = h /\ (failing = false -> clean h -> e = None)).
Proof.
  intros Hh Hb. unfold iptables_VerifyAbsent. rewrite Hb. cbn [failing_or]. eapply total_bind; [by apply iptables_observe_total|].
  intros r h' [-> Hr]. destruct r as [present|e]; cbn [failing_or]; apply total_ret; (split; [done|]); [|congruence].
  intros _ Hc. subst present. unfold requireIPTablesOwnershipAbsent. by rewrite observed_count, Hc.
Qed.
End Loops.
End Hosts.
