(* ===== verification/IPTablesLife.v ===== *)
(** * What the iptables backend does to a host

    On a host whose tools work a claim's program comes in front of the rules
    that are there, is verified, and goes again without a trace.  Where commands
    fail and processes are killed, what is left of any sequence of attempts is
    told apart from the rules of others, and recovery takes it away.  The file
    begins with one way the tools may print their tables, a line per rule, words
    that are not plain in double quotes with backslashes inside, and shows that
    the reader of the program gets the words back. *)
From ITree Require Import ITree.
From S2P Require Import Prelude Utf8 TransferNumber GoText Netip Hashing RunId HostAllocation HostAllocationProofs HostClaim Effects IPTables IPTablesBackend IPTablesHost.

(** ** Words of printable ASCII *)
Definition shown (b : byte) : bool := in_byte 0x20 0x7e b.
Definition special (b : byte) : bool := existsb (Byte.eqb b) [x20; x22; x27; x5c; x3a].
Definition escape (b : byte) : list byte := if existsb (Byte.eqb b) [x22; x5c] then [x5c; b] else [b].
Definition print_word (word : string) : list byte :=
  let l := bytes_of word in if existsb special l then x22 :: mjoin (escape <$> l) ++ [x22] else l.
Definition word_ok (word : string) : Prop := word <> "" /\ forallb shown (bytes_of word) = true.

Definition one (b : byte) : list byte := [b].

Lemma shown_ascii b : shown b = true -> is_rune [b] = true.
Proof.
  unfold shown, is_rune, rune_size, in_byte. intros Hb. bool_to_prop. pose proof (b2z_range b).
  rewrite (proj2 (Z.leb_le 0 _)), (proj2 (Z.leb_le _ 0x7f)) by lia. done.
Qed.

Lemma split_rune_shown b l : shown b = true -> split_rune (b :: l) = Some ([b], l).
Proof. intros Hb. apply (split_rune_app [b]). by apply shown_ascii. Qed.

Lemma runes_shown l : forallb shown l = true -> runes_fuel (length l) l = one <$> l.
Proof.
  induction l as [|b l IH]; [done|]. cbn [forallb]. rewrite andb_true_iff. intros [Hb Hl].
  cbn [length runes_fuel]. by rewrite split_rune_shown, IH.
Qed.

Lemma pieces_shown l : forallb shown l = true -> pieces_fuel (length l) l = one <$> l.
Proof.
  induction l as [|b l IH]; [done|]. cbn [forallb]. rewrite andb_true_iff. intros [Hb Hl].
  cbn [length pieces_fuel]. by rewrite split_rune_shown, IH.
Qed.

(** Facts about single bytes, by looking at all of them. *)
Definition all_bytes : list byte := z2b <$> seqZ 0 256.
Lemma in_all_bytes b : b ∈ all_bytes.
Proof. apply list_elem_of_fmap. exists (b2z b). split; [by rewrite z2b_b2z|]. apply elem_of_seqZ. pose proof (b2z_range b). lia. Qed.

Lemma byte_cases (p : byte -> bool) : forallb p all_bytes = true -> forall b, p b = true.
Proof. rewrite forallb_forall. intros Hp b. apply Hp. rewrite <- list_elem_of_In. apply in_all_bytes. Qed.

Lemma space_iff b : implb (shown b) (Bool.eqb (IsSpace [b]) (Byte.eqb b x20)) = true.
Proof. revert b. apply byte_cases. vm_compute. reflexivity. Qed.

Lemma shown_space b : shown b = true -> b <> x20 -> IsSpace [b] = false.
Proof.
  intros Hb Hn. pose proof (space_iff b) as Hs. rewrite Hb in Hs. cbn [implb] in Hs. apply Bool.eqb_prop in Hs. rewrite Hs.
  destruct (Byte.eqb b x20) eqn:E; [|done]. by apply Byte.byte_dec_bl in E.
Qed.

Lemma eqb_false_ne (b c : byte) : Byte.eqb b c = false -> [b] <> [c].
Proof. intros E [= ->]. assert (Byte.eqb c c = true) by by apply Byte.byte_dec_lb. congruence. Qed.

(** ** Splitting *)
Lemma split_plain s w :
  forallb shown w = true -> existsb special w = false -> sp_escaped s = false -> sp_quote s = None ->
  foldl split_step s (one <$> w) = MkSplit (sp_words s) (sp_word s ++ w) None false.
Proof.
  revert s; induction w as [|b w IH]; intros s Hs Hp He Hq.
  - cbn. rewrite app_nil_r. destruct s. cbn in *. by subst.
  - cbn [forallb existsb] in Hs, Hp. apply andb_true_iff in Hs as [Hb Hs]. apply orb_false_iff in Hp as [Hc Hp].
    rewrite fmap_cons. cbn [foldl]. unfold special in Hc. cbn [existsb] in Hc. bool_to_prop.
    assert (split_step s (one b) = MkSplit (sp_words s) (sp_word s ++ [b]) None false) as ->.
    { unfold split_step, one. rewrite He, Hq. rewrite !bool_decide_eq_false_2 by (by apply eqb_false_ne). cbn [orb].
      rewrite shown_space; [by unfold split_write; rewrite Hq|done|]. intros ->. done. }
    rewrite IH by done. cbn. by rewrite <- app_assoc.
Qed.

Lemma split_quoted s w :
  sp_escaped s = false -> sp_quote s = Some [x22] ->
  foldl split_step s (one <$> mjoin (escape <$> w)) = MkSplit (sp_words s) (sp_word s ++ w) (Some [x22]) false.
Proof.
  revert s; induction w as [|b w IH]; intros s He Hq.
  - cbn. rewrite app_nil_r. destruct s. cbn in *. by subst.
  - rewrite fmap_cons, mjoin_cons, fmap_app, foldl_app.
    assert (foldl split_step s (one <$> escape b) = MkSplit (sp_words s) (sp_word s ++ [b]) (Some [x22]) false) as ->.
    { unfold escape. destruct (existsb _ _) eqn:E; cbn [fmap list_fmap foldl].
      - assert (split_step s (one x5c) = MkSplit (sp_words s) (sp_word s) (Some [x22]) true) as ->; [|done].
        unfold split_step, one. by rewrite He, bool_decide_eq_true_2, Hq.
      - cbn [existsb] in E. bool_to_prop. unfold split_step, one.
        rewrite He, Hq, !bool_decide_eq_false_2 by (by apply eqb_false_ne). unfold split_write. by rewrite Hq. }
    rewrite IH by done. cbn. by rewrite <- app_assoc.
Qed.

Lemma split_word s word :
  word_ok word -> sp_escaped s = false -> sp_quote s = None ->
  foldl split_step s (one <$> print_word word) = MkSplit (sp_words s) (sp_word s ++ bytes_of word) None false.
Proof.
  intros [_ Hs] He Hq. unfold print_word. destruct (existsb special (bytes_of word)) eqn:E; [|by apply split_plain].
  rewrite fmap_cons, fmap_app. cbn [foldl]. rewrite foldl_app. cbn [fmap list_fmap foldl].
  assert (split_step s (one x22) = MkSplit (sp_words s) (sp_word s) (Some [x22]) false) as ->.
  { unfold split_step, one. by rewrite He, Hq. }
  rewrite split_quoted by done. reflexivity.
Qed.

Definition print_words (words : list string) : list byte :=
  match words with [] => [] | w :: ws => print_word w ++ mjoin ((fun w => x20 :: print_word w) <$> ws) end.

Lemma flush_bytes word : word_ok word -> flush_word (bytes_of word) = [word].
Proof.
  intros [Hn _]. unfold flush_word. destruct (bytes_of word) eqn:E; [|by rewrite <- E, text_of_bytes_of].
  destruct Hn. apply bytes_of_inj. by rewrite E.
Qed.

Lemma split_more ws s :
  Forall word_ok ws -> sp_escaped s = false -> sp_quote s = None ->
  let s' := foldl split_step s (one <$> mjoin ((fun w => x20 :: print_word w) <$> ws)) in
  sp_escaped s' = false /\ sp_quote s' = None /\
  sp_words s' ++ flush_word (sp_word s') = sp_words s ++ flush_word (sp_word s) ++ ws.
Proof.
  revert s; induction ws as [|w ws IH]; intros s Hw He Hq.
  - cbn. by rewrite app_nil_r.
  - apply Forall_cons in Hw as [Hw Hws]. rewrite fmap_cons, mjoin_cons, fmap_app, foldl_app, fmap_cons. cbn [foldl].
    assert (split_step s (one x20) = MkSplit (sp_words s ++ flush_word (sp_word s)) [] None false) as ->.
    { unfold split_step, one. rewrite He, Hq. cbn. unfold split_flush. by rewrite He, Hq. }
    rewrite split_word by done. cbn [sp_words sp_word app].
    destruct (IH (MkSplit (sp_words s ++ flush_word (sp_word s)) (bytes_of w) None false) Hws eq_refl eq_refl) as (E1 & E2 & E3).
    split_and!; [done..|]. rewrite E3. cbn [sp_words sp_word]. rewrite flush_bytes by done. by rewrite <- !app_assoc.
Qed.

Lemma print_word_shown word : word_ok word -> forallb shown (print_word word) = true.
Proof.
  intros [_ Hs]. unfold print_word. destruct (existsb _ _); [|done]. cbn [forallb]. rewrite forallb_app, andb_true_iff. split; [done|].
  rewrite andb_true_iff. split; [|done]. revert Hs. generalize (bytes_of word). intros l. induction l as [|b l IH]; [done|].
  cbn [forallb]. rewrite andb_true_iff. intros [Hb Hl]. rewrite fmap_cons, mjoin_cons, forallb_app, IH by done.
  unfold escape. destruct (existsb _ _); cbn [forallb]; by rewrite Hb.
Qed.

Lemma print_words_shown ws : Forall word_ok ws -> forallb shown (print_words ws) = true.
Proof.
  intros Hw. destruct Hw as [|w ws Hw Hws]; [done|]. cbn [print_words]. rewrite forallb_app, print_word_shown by done. cbn [andb].
  induction Hws as [|w' ws Hw' _ IH]; [done|]. rewrite fmap_cons, mjoin_cons, forallb_app, IH. cbn [forallb]. by rewrite print_word_shown.
Qed.

(** The words that were printed are the words that are read. *)
Lemma split_print_words ws :
  Forall word_ok ws -> ws <> [] -> splitIPTablesLine (text_of (print_words ws)) = Ok ws.
Proof.
  intros Hw Hne. unfold splitIPTablesLine, runes. rewrite bytes_of_text_of, runes_shown by by apply print_words_shown.
  destruct Hw as [|w ws Hw Hws]; [done|]. cbn [print_words]. rewrite fmap_app, foldl_app, split_word by done. cbn [sp_words sp_word app].
  destruct (split_more ws (MkSplit [] (bytes_of w) None false) Hws eq_refl eq_refl) as (E1 & E2 & E3).
  cbn zeta. rewrite E1, E2. cbn [orb]. rewrite bool_decide_eq_false_2 by (by intros [? [=]]).
  unfold split_flush. cbn [sp_words] in E3 |- *. rewrite E3. cbn [sp_word]. by rewrite flush_bytes.
Qed.

(** ** Printed tables *)
Definition line_ok (line : list string) : Prop := Forall word_ok line /\ zlen (print_words line) < maxTokenSize.

Definition table_header (table : string) : list (list byte) :=
  if bool_decide (table = "nat") then [bytes_of "*nat"; bytes_of ":POSTROUTING ACCEPT [0:0]"]
  else [bytes_of "*filter"; bytes_of ":FORWARD ACCEPT [0:0]"].

Definition print_table (table : string) (T : Table) : string :=
  text_of (mjoin ((fun l => l ++ [x0a]) <$> table_header table ++ (print_words <$> lines_of T) ++ [bytes_of "COMMIT"])).

Lemma split_lines_line acc l rest : x0a ∉ l -> split_lines acc (l ++ x0a :: rest) = (acc ++ l) :: split_lines [] rest.
Proof.
  revert acc; induction l as [|b l IH]; intros acc Hl; cbn [app split_lines].
  - by rewrite app_nil_r.
  - apply not_elem_of_cons in Hl as [Hb Hl]. destruct (Byte.eqb b x0a) eqn:E; [by apply Byte.byte_dec_bl in E; subst|].
    rewrite IH by done. by rewrite <- app_assoc.
Qed.

Lemma split_lines_lines ls : Forall (fun l => x0a ∉ l) ls -> split_lines [] (mjoin ((fun l => l ++ [x0a]) <$> ls)) = ls ++ [[]].
Proof.
  induction 1 as [|l ls Hl _ IH]; [done|]. rewrite fmap_cons, mjoin_cons, <- app_assoc. cbn [app].
  rewrite split_lines_line by done. cbn [app]. by rewrite IH.
Qed.

Lemma scanned_print ls : Forall (fun l => x0a ∉ l) ls -> scanned_lines (text_of (mjoin ((fun l => l ++ [x0a]) <$> ls))) = ls.
Proof.
  intros Hl. unfold scanned_lines. rewrite bytes_of_text_of, split_lines_lines by done. rewrite rev_app_distr. cbn [rev app]. apply rev_involutive.
Qed.

Lemma shown_no_newline l : forallb shown l = true -> x0a ∉ l.
Proof. rewrite forallb_forall. intros Hs Hin. apply list_elem_of_In, Hs in Hin. discriminate Hin. Qed.

Lemma drop_cr_shown l : forallb shown l = true -> drop_cr l = l.
Proof.
  intros Hs. unfold drop_cr. destruct (rev l) as [|b r] eqn:E; [done|]. destruct (Byte.eqb b x0d) eqn:Eb; [|done].
  apply Byte.byte_dec_bl in Eb as ->. rewrite forallb_forall in Hs. specialize (Hs x0d). rewrite (in_rev l), E in Hs. specialize (Hs ltac:(by left)). discriminate Hs.
Qed.

(** White space is trimmed off lines that start and end with it only. *)
Lemma trim_shown l b c rest rest' :
  forallb shown l = true -> l = b :: rest -> l = rest' ++ [c] -> b <> x20 -> c <> x20 -> TrimSpace (text_of l) = text_of l.
Proof.
  intros Hs E1 E2 Hb Hc. unfold TrimSpace, pieces. rewrite bytes_of_text_of, pieces_shown by done.
  assert (Hsp : forall x, x ∈ l -> x <> x20 -> space_piece (one x) = false).
  { intros x Hx Hne. unfold space_piece, one. rewrite forallb_forall in Hs. rewrite shown_space; [by rewrite andb_false_r| |done].
    by apply Hs, list_elem_of_In. }
  assert (skip_space (one <$> l) = one <$> l) as ->.
  { rewrite E1. rewrite fmap_cons. cbn [skip_space]. rewrite Hsp; [done| |done]. rewrite E1. by left. }
  assert (skip_space (rev (one <$> l)) = rev (one <$> l)) as ->.
  { rewrite E2, fmap_app. cbn [fmap list_fmap]. rewrite rev_app_distr. cbn [rev app skip_space].
    rewrite Hsp; [done| |done]. rewrite E2, elem_of_app. by right; left. }
  rewrite rev_involutive. f_equal. clear. induction l as [|b l IH]; [done|]. rewrite fmap_cons, mjoin_cons, IH. done.
Qed.

Lemma print_word_end word : word_ok word -> exists rest c, print_word word = rest ++ [c] /\ c <> x20.
Proof.
  intros [Hn Hs]. unfold print_word. destruct (existsb special (bytes_of word)) eqn:E; [by exists (x22 :: mjoin (escape <$> bytes_of word)), x22|].
  destruct (exists_last (l := bytes_of word)) as (rest & c & Ec); [intros E0; destruct Hn; by apply bytes_of_inj|].
  exists rest, c. split; [done|]. intros ->. rewrite Ec, existsb_app in E. cbn in E. by rewrite orb_true_r in E.
Qed.

Lemma print_words_end w ws : Forall word_ok (w :: ws) -> exists rest c, print_words (w :: ws) = rest ++ [c] /\ c <> x20.
Proof.
  intros Hw. apply Forall_cons in Hw as [Hw Hws]. cbn [print_words].
  destruct ws as [|w' ws _] using rev_ind; [destruct (print_word_end w Hw) as (r & c & E & Hc); exists r, c; split; [rewrite <- E; apply app_nil_r|done]|].
  apply Forall_app in Hws as [_ Hw']. apply Forall_cons in Hw' as [Hw' _]. destruct (print_word_end w' Hw') as (rest & c & E & Hc).
  rewrite fmap_app, join_app. cbn [fmap list_fmap]. rewrite mjoin_cons. cbn [app]. rewrite E.
  exists (print_word w ++ mjoin ((fun w => x20 :: print_word w) <$> ws) ++ x20 :: rest), c. split; [|done].
  by rewrite <- !app_assoc.
Qed.

Lemma parse_line_printed rest :
  Forall word_ok ("-A" :: rest) -> parse_line (TrimSpace (text_of (drop_cr (print_words ("-A" :: rest))))) = Ok ["-A" :: rest].
Proof.
  intros Hw. pose proof (print_words_shown _ Hw) as Hs. rewrite drop_cr_shown by done.
  destruct (print_words_end _ _ Hw) as (front & c & E & Hc).
  rewrite (trim_shown _ x2d c (drop 1 (print_words ("-A" :: rest))) front) by done.
  unfold parse_line. assert (skipped_line (text_of (print_words ("-A" :: rest))) = false) as ->.
  { unfold skipped_line. rewrite bool_decide_eq_false_2, bool_decide_eq_false_2 by discriminate. done. }
  change (HasPrefix (text_of (print_words ("-A" :: rest))) ":") with false. cbv iota. by rewrite split_print_words.
Qed.

Lemma parse_lines_printed ls :
  Forall (fun l => line_ok l /\ exists rest, l = "-A" :: rest) ls -> parse_lines ((print_words <$> ls) ++ [bytes_of "COMMIT"]) = Ok ls.
Proof.
  induction 1 as [|l ls [[Hw Hz] [rest ->]] _ IH]; [by vm_compute|]. rewrite fmap_cons. cbn [app parse_lines].
  rewrite (proj2 (Z.leb_gt _ _)) by done. rewrite parse_line_printed by done. cbn [rbind]. by rewrite IH.
Qed.

Lemma parse_lines_skip l ls :
  (maxTokenSize <=? zlen l) = false -> parse_line (TrimSpace (text_of (drop_cr l))) = Ok [] -> parse_lines (l :: ls) = parse_lines ls.
Proof. intros Hz Hp. cbn [parse_lines]. rewrite Hz, Hp. cbn [rbind]. by destruct (parse_lines ls). Qed.

Lemma table_header_parsed table ls : parse_lines (table_header table ++ ls) = parse_lines ls.
Proof. unfold table_header. case_bool_decide; cbn [app]; by rewrite !parse_lines_skip by (vm_compute; reflexivity). Qed.

Lemma print_table_prints table T : Forall line_ok (lines_of T) -> prints (print_table table T) (lines_of T).
Proof.
  intros Hl. exists []. split; [|done]. cbn [app]. unfold parseIPTablesLines, print_table.
  assert (Ha : Forall (fun l => line_ok l /\ exists rest, l = "-A" :: rest) (lines_of T)).
  { rewrite Forall_forall in Hl. apply Forall_forall. intros l Hin. split; [by apply Hl|]. apply in_lines_of in Hin as (c & rs & argv & _ & _ & ->). by eexists. }
  rewrite scanned_print; [by rewrite table_header_parsed, parse_lines_printed|].
  rewrite !Forall_app. split_and!.
  - unfold table_header. case_bool_decide; repeat constructor; apply shown_no_newline; reflexivity.
  - apply Forall_fmap. eapply Forall_impl; [exact Hl|]. intros l [Hw _]. by apply shown_no_newline, print_words_shown.
  - repeat constructor. apply shown_no_newline. reflexivity.
Qed.

(** ** Tools that print like this *)
Definition version_text (name frontend : string) : string := name +:+ " v1.8.9 (" +:+ frontend +:+ ")" +:+ newline.

Definition printing_tools (plane : iptablesRulePlane) (late : error -> bool) : IPTablesTools := {|
  tools_frontend := pl_frontend plane;
  tools_plane := plane;
  rules_version := version_text "iptables" (pl_frontend plane);
  save_version := version_text "iptables-save" (pl_frontend plane);
  saved_text := print_table;
  comes_late := late;
  printable := line_ok
|}.

Lemma printing_tools_laws plane late : newIPTablesRulePlane (pl_frontend plane) = Ok plane -> @IPTablesLaws (printing_tools plane late).
Proof.
  intros Hp. constructor; [done| |intros table T; apply print_table_prints].
  cbn. revert Hp. unfold newIPTablesRulePlane. repeat case_bool_decide; [| |done];
    destruct plane as [f r s]; cbn in *; subst; intros [= <- <-]; vm_compute; reflexivity.
Qed.

(** ** Cutting a total program anywhere *)
Section Cut.
Context {E : Type -> Type} {L : Type} `{!World E L}.

(** Whatever a program with a total triple has done so far, what is known at
    its next call or at its end is known now. *)
Lemma total_cut {A} (I : L -> Prop) s (t : itree E A) Q tr o :
  total s t Q -> (forall X (e : E X) s, may_call e s -> I s) -> (forall a s, Q a s -> I s) ->
  exec t tr o -> faithful s tr -> I (state_after s tr).
Proof.
  intros Ht Hc HQ He. revert s Ht. induction He as [t|t a O|t t' tr o O He IH|t X e k O|t X e k x tr o O He IH]; intros s Ht Hf;
    cbn [state_after].
  - clear -Ht Hc HQ. induction Ht as [s t a O Ha|s t t' O _ IH|s t X e k O Hcall _ _ _]; [by eapply HQ|done|by eapply Hc].
  - destruct Ht as [b Ob Hb|t' Ot _|X e k Oe _ _ _]; [by eapply HQ|rewrite O in Ot; discriminate|rewrite O in Oe; discriminate].
  - apply IH; [|done]. destruct Ht as [b Ob Hb|t1 Ot Ht|X e k Oe _ _ _];
      [rewrite O in Ob; discriminate| |rewrite O in Oe; discriminate]. rewrite O in Ot. by injection Ot as ->.
  - destruct Ht as [b Ob Hb|t1 Ot _|Y e' k' Oe Hcall _ _]; [rewrite O in Ob; discriminate|rewrite O in Ot; discriminate|by eapply Hc].
  - destruct Hf as [Hx Hf]. apply IH; [|done]. destruct Ht as [b Ob Hb|t1 Ot _|Y e' k' Oe Hcall _ Hk];
      [rewrite O in Ob; discriminate|rewrite O in Ot; discriminate|].
    rewrite O in Oe. same_vis Oe. by apply Hk.
Qed.
End Cut.

(** ** Programs on a host *)
Definition outcome `{IPTablesTools} (failing : bool) (program : iptablesProgram) (base : string -> Table) {A} (h : Host)
    (t : host_do A) (Q : A -> Host -> Prop) : Prop :=
  @total HostE Host (host_world failing program base) A h t Q.

(** The answers of a trace are ones the host may give. *)
Definition host_answers `{IPTablesTools} (program : iptablesProgram) (base : string -> Table) (h : Host)
    (tr : list (event HostE)) : Prop :=
  @faithful HostE Host (host_world true program base) h tr.
Definition host_after `{IPTablesTools} (program : iptablesProgram) (base : string -> Table) (h : Host)
    (tr : list (event HostE)) : Host :=
  @state_after HostE Host (host_world true program base) h tr.

Definition same_tables (h h' : Host) : Prop := h_filter h' = h_filter h /\ h_nat h' = h_nat h.

(** What a claim needs of a host: its frontend, rules that can be printed, and
    tables in order. *)
Record fitting `{IPTablesTools} (claim : networkClaim) (program : iptablesProgram) (h : Host) : Prop := {
  fit_program : buildIPTablesProgram claim = Ok program;
  fit_frontend : nc_iptablesFrontend claim = tools_frontend;
  fit_plain : plain_providers claim;
  fit_printable : Forall (fun r => printable (saved_rule r)) (ip_rules program);
  fit_host : host_wf h;
  fit_clean : clean program h
}.

Lemma add_all_spec rc R :
  rc_kind (add_all rc R) = rc_kind rc /\ rc_owners (add_all rc R) = list_to_set (ir_owner <$> R) ∪ rc_owners rc.
Proof.
  unfold add_all. revert rc; induction R as [|r R IH]; intros rc; cbn [fmap list_fmap foldl]; [set_solver|].
  destruct (IH (receipts_add rc (ir_owner r))) as [-> ->]. cbn. set_solver.
Qed.

Section Life.
Context `{Tools : IPTablesTools} `{!IPTablesLaws}.
Context (claim : networkClaim) (program : iptablesProgram) (h : Host) (Hfit : fitting claim program h).

Lemma fit_good : good_program program.
Proof. destruct Hfit. by eapply built_program_good. Qed.

Lemma fit_kind : nc_backend claim = firewallIPTables.
Proof. destruct Hfit as [Hb _ _ _ _ _]. by apply built_program in Hb as (_ & _ & ->). Qed.

Lemma complete_receipts R :
  Permutation R (ip_rules program) -> receipts_requireComplete (add_all (newFirewallReceipts firewallIPTables) R) claim = None.
Proof.
  intros HR. unfold receipts_requireComplete, firewallReceiptOwners. rewrite fit_kind, (fit_program _ _ _ Hfit).
  change (bool_decide (firewallIPTables = firewallNFTables)) with false. rewrite bool_decide_eq_true_2 by done. cbn [rbind].
  destruct (add_all_spec (newFirewallReceipts firewallIPTables) R) as [Ek Eo]. rewrite Ek. rewrite bool_decide_eq_true_2 by done.
  pose proof (gp_distinct _ fit_good) as Hd. rewrite <- HR in Hd. rewrite Eo. cbn [rc_owners newFirewallReceipts].
  rewrite (union_empty_r_L (list_to_set (ir_owner <$> R))), size_list_to_set by done.
  assert (Z.of_nat (length (ir_owner <$> R)) =? zlen (ir_owner <$> ip_rules program) = true) as ->.
  { apply Z.eqb_eq. unfold zlen. f_equal. by rewrite HR. }
  cbn [negb orb]. assert (forallb (receipts_has (add_all (newFirewallReceipts firewallIPTables) R)) (ir_owner <$> ip_rules program) = true) as ->; [|done].
  apply forallb_forall. intros o Ho. apply list_elem_of_In in Ho. unfold receipts_has. rewrite Eo, bool_decide_eq_true_2; [done|].
  rewrite <- HR in Ho. set_solver.
Qed.

Lemma restored failing h1 receipts :
  own_host program (table_of h) h1 ->
  (forall r, r ∈ ip_rules program -> is_present program h1 r -> has_receipt receipts r = true) ->
  outcome failing program (table_of h) h1 (iptables_remove claim receipts) (fun e h2 =>
    (e = None -> same_tables h h2) /\ (failing = false -> e = None)).
Proof.
  intros Hh Hr. destruct Hfit as [Hb Hf Hpl Hpr Hwf Hc].
  eapply (@total_mono HostE Host (host_world failing program (table_of h)));
    [by apply (remove_total failing program fit_good (table_of h) claim Hf h1 receipts Hh Hb)|].
  intros e h2 (Hh2 & _ & He & Hfail). split; [|done]. intros E. specialize (He E).
  assert (Ho : owned program h2 = []).
  { apply (nothing_left program (table_of h) h2 Hh2). intros r Hin Hp. apply (He r Hin) in Hp as [Hp Hn].
    rewrite (Hr r Hin Hp) in Hn. done. }
  pose proof (clean_host program (table_of h) h2 Hh2 Ho) as Hcl.
  split; [apply (Hcl "filter"); auto|apply (Hcl "nat"); auto].
Qed.

(** ** Where everything works *)
Lemma filter_every {A} (P : A -> Prop) `{forall x, Decision (P x)} l : Forall P l -> filter P l = l.
Proof. induction 1 as [|x l Hx _ IH]; [done|]. by rewrite filter_cons_True, IH. Qed.

Lemma order_of_table table :
  table = "filter" \/ table = "nat" ->
  rev (filter (fun r => ir_table r = table) (install_order program)) = rules_of_table program table.
Proof.
  assert (Hr : forall t, Forall (fun r => ir_table r = t) (rev (rules_of_table program t))).
  { intros t. apply Forall_forall. intros r. rewrite <- Permutation_rev. by intros [? _]%in_rules_of_table. }
  assert (Hn : forall t t', t <> t' -> filter (fun r => ir_table r = t') (rev (rules_of_table program t)) = []).
  { intros t t' Hne. apply filter_none. eapply Forall_impl; [apply Hr|]. cbn. congruence. }
  intros [-> | ->]; unfold install_order; rewrite filter_app.
  - rewrite (filter_every _ _ (Hr "filter")), Hn, app_nil_r by done. apply rev_involutive.
  - rewrite (filter_every _ _ (Hr "nat")), Hn by done. cbn [app]. apply rev_involutive.
Qed.

Lemma order_permutation : install_order program ≡ₚ ip_rules program.
Proof.
  destruct (install_order_spec program fit_good) as (_ & Hd & Hin). apply NoDup_Permutation; [done| |done].
  apply (NoDup_fmap_1 ir_owner), fit_good.
Qed.

Lemma installed_complete h1 : inserted program (table_of h) h h1 (install_order program) ->
  rules_at h1 "filter" "FORWARD" = iptablesExpectedTableLines program "filter" ++ rules_at h "filter" "FORWARD" /\
  rules_at h1 "nat" "POSTROUTING" = iptablesExpectedTableLines program "nat" ++ rules_at h "nat" "POSTROUTING" /\
  zlen (owned program h1) = zlen (ip_rules program).
Proof.
  intros [_ Ho Hr]. split_and!.
  - rewrite (Hr "filter" "FORWARD") by by left. by rewrite order_of_table by by left.
  - rewrite (Hr "nat" "POSTROUTING") by by right. by rewrite order_of_table by by right.
  - rewrite Ho, (fit_clean _ _ _ Hfit), app_nil_r. unfold zlen. by rewrite length_fmap, order_permutation.
Qed.

(** ** Where commands fail *)
(** The operations of the backend on a claim. *)
Inductive operation : forall A, host_do A -> Prop :=
  | op_install : operation _ (iptables_Install claim)
  | op_remove receipts : operation _ (iptables_Remove claim receipts)
  | op_recover : operation _ (iptables_Recover claim)
  | op_verify allowAbsent : operation _ (iptables_Verify claim allowAbsent)
  | op_verify_absent : operation _ (iptables_VerifyAbsent claim).

(** The hosts any number of attempts can leave, each cut off anywhere, whatever
    commands have failed on the way. *)
Inductive leftover : Host -> Prop :=
  | leftover_none : leftover h
  | leftover_attempt h1 A (t : host_do A) tr o :
      leftover h1 -> operation A t -> exec t tr o -> host_answers program (table_of h) h1 tr ->
      leftover (host_after program (table_of h) h1 tr).

#[local] Existing Instance host_world.

Lemma operation_total h1 A (t : host_do A) :
  operation A t -> own_host program (table_of h) h1 ->
  outcome true program (table_of h) h1 t (fun _ h2 => own_host program (table_of h) h2).
Proof.
  intros Ht Hh. destruct Hfit as [Hb Hf Hpl Hpr Hwf Hc]. pose proof fit_good as Hg.
  assert (Hremove : forall receipts, outcome true program (table_of h) h1 (iptables_remove claim receipts) (fun _ h2 => own_host program (table_of h) h2)).
  { intros receipts. eapply (@total_mono HostE Host (host_world true program (table_of h)));
      [by apply (remove_total true program Hg (table_of h) claim Hf h1 receipts Hh Hb)|]. by intros e h2 [? _]. }
  destruct Ht.
  - eapply (@total_mono HostE Host (host_world true program (table_of h)));
      [by apply (install_total true program Hg Hpr (table_of h) claim Hf h1 Hh Hb)|]. by intros [rc e] h2 [[_ (R1 & R2 & R3 & _ & [? _ _] & _)]|[-> _]].
  - unfold iptables_Remove. destruct (negb _); [by apply (@total_ret HostE Host (host_world true program (table_of h)))|apply Hremove].
  - apply Hremove.
  - eapply (@total_mono HostE Host (host_world true program (table_of h)));
      [by apply (verify_total true program Hg (table_of h) claim Hf h1 allowAbsent Hh Hb)|]. by intros e h2 [-> _].
  - eapply (@total_mono HostE Host (host_world true program (table_of h)));
      [by apply (verify_absent_total true program Hg (table_of h) claim Hf h1 Hh Hb)|]. by intros e h2 [-> _].
Qed.

Lemma leftover_own h1 : leftover h1 -> own_host program (table_of h) h1.
Proof.
  induction 1 as [|h1 A t tr o _ IH Ht He Hf]; [apply clean_own; apply Hfit|].
  apply (@total_cut HostE Host (host_world true program (table_of h)) A _ h1 t _ tr o (operation_total h1 A t Ht IH)); [|done|done|done].
  by intros X e s [? _].
Qed.
End Life.

(** Receipts for [R1] of the rules that are there: exactly those of [R2] stay. *)
Lemma remove_installed `{Tools : IPTablesTools} `{!IPTablesLaws} claim program h h1 R1 R2 R3 :
  fitting claim program h -> install_order program = R1 ++ R2 ++ R3 -> inserted program (table_of h) h h1 (R1 ++ R2) ->
  outcome false program (table_of h) h1 (iptables_Remove claim (add_all (newFirewallReceipts firewallIPTables) R1))
    (fun e h2 => e = None /\ own_host program (table_of h) h2 /\ owned program h2 ≡ₚ saved_rule <$> R2 /\
       (R2 = [] -> same_tables h h2)).
Proof.
  intros Hfit HR [Hown Ho _]. rewrite (fit_clean _ _ _ Hfit), app_nil_r in Ho. unfold iptables_Remove.
  rewrite (proj1 (add_all_spec _ R1)), bool_decide_eq_true_2 by done. cbn [negb].
  pose proof (fit_good claim program h Hfit) as Hg. destruct (install_order_spec program Hg) as (_ & Hd & Hin).
  assert (HR' : forall r, r ∈ R1 ++ R2 -> r ∈ ip_rules program).
  { intros r Hr. apply Hin. rewrite HR, app_assoc. apply elem_of_app. by left. }
  rewrite HR, app_assoc in Hd. apply NoDup_app in Hd as (Hd & _ & _). pose proof Hd as (_ & Hapart & Hd2)%NoDup_app.
  destruct Hfit as [Hb Hf Hpl Hpr Hwf Hc]. eapply (@total_mono HostE Host (host_world false program (table_of h)));
    [by apply (remove_total false program Hg (table_of h) claim Hf h1 (Some (add_all _ R1)) Hown Hb)|].
  intros e h2 (Hh2 & _ & He & Hfail). specialize (Hfail eq_refl). specialize (He Hfail).
  assert (Hp1 : forall r, r ∈ ip_rules program -> is_present program h1 r <-> r ∈ R1 ++ R2).
  { intros r Hr. unfold is_present. rewrite Ho, list_elem_of_fmap. split; [|by exists r].
    intros (r' & E & Hr'). by apply (saved_rule_inj program Hg) in E as <-; [|done|by apply HR']. }
  assert (Hrc : forall r, r ∈ ip_rules program -> has_receipt (Some (add_all (newFirewallReceipts firewallIPTables) R1)) r = true <-> r ∈ R1).
  { intros r Hr. unfold has_receipt, receipts_has. rewrite (proj2 (add_all_spec _ R1)), bool_decide_eq_true. cbn.
    rewrite elem_of_union, elem_of_list_to_set, list_elem_of_fmap. split; [|intros Hr1; left; by exists r].
    intros [(r' & E & Hr')|[]%not_elem_of_empty]. apply (same_owner program Hg) in E as ->; [done|done|apply HR', elem_of_app; by left]. }
  assert (Ho2 : owned program h2 ≡ₚ saved_rule <$> R2).
  { rewrite (owned_present program Hg (table_of h) h2 Hh2). apply fmap_Permutation, NoDup_Permutation; [|done|].
    - apply NoDup_filter, (NoDup_fmap_1 ir_owner), Hg.
    - intros r. unfold present_rules. rewrite list_elem_of_filter. split.
      + intros [Hp Hr]. rewrite (He r Hr), (Hp1 r Hr), <- not_true_iff_false, (Hrc r Hr), elem_of_app in Hp. tauto.
      + intros Hr2. assert (Hr : r ∈ ip_rules program) by (apply HR', elem_of_app; by right). split; [|done].
        rewrite (He r Hr), (Hp1 r Hr), <- not_true_iff_false, (Hrc r Hr), elem_of_app. split; [by right|]. intros Hr1. by apply (Hapart r). }
  split_and!; [done..|]. intros ->. apply Permutation_nil_r in Ho2.
  pose proof (clean_host program (table_of h) h2 Hh2 Ho2) as Hcl. split; [apply (Hcl "filter"); auto|apply (Hcl "nat"); auto].
Qed.

Lemma recover_own `{Tools : IPTablesTools} `{!IPTablesLaws} claim program h h1 :
  fitting claim program h -> own_host program (table_of h) h1 ->
  outcome false program (table_of h) h1 (iptables_Recover claim) (fun e h2 => e = None /\ same_tables h h2).
Proof.
  intros Hfit Hown. eapply (@total_mono HostE Host (host_world false program (table_of h))).
  - by apply (restored claim program h Hfit false h1 None Hown).
  - intros e h2 [He Hf]. specialize (Hf eq_refl). auto.
Qed.

(** C9. On a host whose tools do what they are documented to do, installing a
    claim succeeds, has complete receipts and puts exactly the program of the
    claim in front of the rules of its two chains; there the program is
    verified, and removing it by its receipts, or recovering it without them,
    gives back the tables the host had. *)
Theorem iptables_program_comes_and_goes `{Tools : IPTablesTools} `{!IPTablesLaws} claim program h
    (Hfit : fitting claim program h) :
  outcome false program (table_of h) h (iptables_Install claim) (fun '(receipts, e) h1 =>
    e = None /\ receipts_requireComplete receipts claim = None /\ own_host program (table_of h) h1 /\
    rules_at h1 "filter" "FORWARD" = iptablesExpectedTableLines program "filter" ++ rules_at h "filter" "FORWARD" /\
    rules_at h1 "nat" "POSTROUTING" = iptablesExpectedTableLines program "nat" ++ rules_at h "nat" "POSTROUTING" /\
    outcome false program (table_of h) h1 (iptables_Verify claim false) (fun e h2 => e = None /\ h2 = h1) /\
    outcome false program (table_of h) h1 (iptables_Remove claim receipts) (fun e h2 => e = None /\ same_tables h h2) /\
    outcome false program (table_of h) h1 (iptables_Recover claim) (fun e h2 => e = None /\ same_tables h h2)).
Proof.
  pose proof (fit_good claim program h Hfit) as Hg. pose proof Hfit as [Hb Hf _ Hpr Hwf Hc].
  eapply (@total_mono HostE Host (host_world false program (table_of h)));
    [by apply (install_total false program Hg Hpr (table_of h) claim Hf h); [apply clean_own|]|].
  intros [receipts e] h1 [[_ (R1 & R2 & R3 & HR & Hi & -> & _ & He & Hok)]|(_ & _ & _ & Hx)]; [|by destruct (Hx eq_refl)].
  specialize (Hok eq_refl). pose proof (He Hok) as [-> ->]%app_nil. rewrite !app_nil_r in *. subst R1.
  destruct (installed_complete claim program h Hfit h1 Hi) as (C1 & C2 & C3). pose proof (ins_own _ _ _ _ _ Hi) as Hown.
  split; [done|]. split; [by apply (complete_receipts claim program h Hfit), (order_permutation claim program h Hfit)|].
  split; [done|]. split; [done|]. split; [done|]. split; [|split].
  - eapply (@total_mono HostE Host (host_world false program (table_of h)));
      [by apply (verify_total false program Hg (table_of h) claim Hf h1 false Hown Hb)|].
    intros e' h2 [-> Hv]. split; [|done]. apply Hv; [done|by eexists|by eexists|done].
  - eapply (@total_mono HostE Host (host_world false program (table_of h)));
      [apply (remove_installed claim program h h1 (install_order program) [] []); [done|by rewrite !app_nil_r|by rewrite app_nil_r]|].
    intros e2 h2 (E2 & _ & _ & Hs). split; [done|]. by apply Hs.
  - by apply recover_own.
Qed.


(** ** A host and a claim *)
Module Sample.
Definition claim : networkClaim := claimFromAllocation (sample_allocation [local_rule; lan_rule]).
Definition program : iptablesProgram := MkIPProgram (owner_prefix claim) (claim_iptables_rules claim).
Definition plane : iptablesRulePlane := MkPlane iptablesFrontendNFT iptablesNFTRulesCommand iptablesNFTSaveCommand.
#[global] Instance sample_tools : IPTablesTools := printing_tools plane (fun e => match e with ErrText m => bool_decide (m = "exit status 4") | _ => false end).
#[global] Instance sample_tools_laws : IPTablesLaws := printing_tools_laws plane _ eq_refl.

(** Docker-like rules of others. *)
Definition host : Host :=
  MkHost [("INPUT", []); ("FORWARD", [["-j"; "DOCKER-USER"]; ["-i"; "docker0"; "-j"; "ACCEPT"]]); ("DOCKER-USER", [["-j"; "RETURN"]])]
         [("PREROUTING", []); ("POSTROUTING", [["-s"; "172.17.0.0/16"; "-j"; "MASQUERADE"]])] ∅.

Example program_built : buildIPTablesProgram claim = Ok program.
Proof. vm_compute. reflexivity. Qed.

Definition line_okb (line : list string) : bool :=
  forallb (fun w => negb (bool_decide (w = "")) && forallb shown (bytes_of w)) line && (zlen (print_words line) <? maxTokenSize).
Lemma line_okb_spec line : line_okb line = true -> line_ok line.
Proof.
  unfold line_okb, line_ok. rewrite andb_true_iff, forallb_forall, Z.ltb_lt. intros [Hw Hz]. split; [|done].
  apply Forall_forall. intros w Hin. apply list_elem_of_In, Hw in Hin. bool_to_prop. by split.
Qed.
Lemma lines_okb_spec lines : forallb line_okb lines = true -> Forall line_ok lines.
Proof. rewrite forallb_forall. intros Hl. apply Forall_forall. intros l Hin. by apply line_okb_spec, Hl, list_elem_of_In. Qed.

Example program_printable : forallb line_okb (saved_rule <$> ip_rules program) = true.
Proof. vm_compute. reflexivity. Qed.
Example host_printable : forallb line_okb (lines_of (h_filter host) ++ lines_of (h_nat host)) = true.
Proof. vm_compute. reflexivity. Qed.
Example host_clean : clean program host.
Proof. vm_compute. reflexivity. Qed.

Lemma host_in_order : host_wf host.
Proof.
  constructor.
  - intros table chain [[-> ->]|[-> ->]]; split; apply (bool_decide_unpack _); vm_compute; exact I.
  - intros table. pose proof (lines_okb_spec _ host_printable) as Hp. apply Forall_app in Hp as [Hf Hn].
    unfold table_of. repeat case_bool_decide; [exact Hf|exact Hn|constructor].
  - by exists "".
  - discriminate.
Qed.

Definition plain_okb (t : transferAllocation) : bool :=
  negb (HasPrefix (ta_providerName t) "-") && match ta_source t with Addr4 v => (0 <=? v) && (v <? 2 ^ 32) | _ => false end.
Lemma plain_okb_spec c : forallb plain_okb (nc_transfers c) = true -> plain_providers c.
Proof.
  rewrite forallb_forall. intros Hp. apply Forall_forall. intros t Ht. apply list_elem_of_In, Hp in Ht. unfold plain_okb in Ht.
  unfold not_option. destruct (ta_source t); bool_to_prop; done.
Qed.
Example claim_plain : forallb plain_okb (nc_transfers claim) = true.
Proof. vm_compute. reflexivity. Qed.

Lemma fits : fitting claim program host.
Proof.
  constructor; [exact program_built|reflexivity| | |exact host_in_order|exact host_clean].
  - apply plain_okb_spec, claim_plain.
  - pose proof (lines_okb_spec _ program_printable) as Hp. rewrite Forall_forall in Hp. apply Forall_forall.
    intros r Hr. apply (Hp (saved_rule r)). by apply list_elem_of_fmap_2.
Qed.
End Sample.

Lemma iptables_program_comes_and_goes_witness :
  outcome false Sample.program (table_of Sample.host) Sample.host (iptables_Install Sample.claim) (fun '(receipts, e) h1 =>
    e = None /\ receipts_requireComplete receipts Sample.claim = None /\ own_host Sample.program (table_of Sample.host) h1 /\
    rules_at h1 "filter" "FORWARD"
      = iptablesExpectedTableLines Sample.program "filter" ++ rules_at Sample.host "filter" "FORWARD" /\
    rules_at h1 "nat" "POSTROUTING"
      = iptablesExpectedTableLines Sample.program "nat" ++ rules_at Sample.host "nat" "POSTROUTING" /\
    outcome false Sample.program (table_of Sample.host) h1 (iptables_Verify Sample.claim false) (fun e h2 => e = None /\ h2 = h1) /\
    outcome false Sample.program (table_of Sample.host) h1 (iptables_Remove Sample.claim receipts)
      (fun e h2 => e = None /\ same_tables Sample.host h2) /\
    outcome false Sample.program (table_of Sample.host) h1 (iptables_Recover Sample.claim)
      (fun e h2 => e = None /\ same_tables Sample.host h2)).
Proof. exact (iptables_program_comes_and_goes Sample.claim Sample.program Sample.host Sample.fits). Defined.

