(* ===== verification/Nft.v ===== *)
(** * Rule programs of nftables

    [hostnetwork/nft.go] and [hostnetwork/nft_linux.go], [nft_forward_linux.go],
    [nft_inventory_linux.go]: the rules of a claim, the expressions they are made
    of, and the operations of the backend, programs over a connection to the
    kernel.  A connection lists tables, chains and rules, and commits a batch of
    changes; what it answers is up to the kernel.  The structs of
    github.com/google/nftables are records and a constructor per expression the
    code makes; any other expression is [OtherExpr]. *)
From ITree Require Import ITree.
From S2P Require Import Prelude Sorting Utf8 GoText Netip Hashing NetipText RunId HostAllocation HostClaim Effects IPTables IPTablesBackend.

(** ** The program of a claim *)
Record nftRule : Type := MkNFTRule {
  nr_chain : string;
  nr_kind : string;
  nr_input : string;
  nr_output : string;
  nr_source : string;
  nr_destination : string;
  nr_address : string;
  nr_owner : string
}.
Record nftForwardRule : Type := MkNFTForward { nf_target : nftForwardChain; nf_rule : nftRule }.
Record nftProgram : Type := MkNFTProgram {
  np_table : string;
  np_ownerPrefix : string;
  np_postroutingPriority : Z;
  np_chains : list string;
  np_rules : list nftRule;
  np_forwardRules : list nftForwardRule
}.

Definition canonicalIPTablesPostroutingChain (chain : nftPostroutingNATChain) : bool :=
  bool_decide (nat_family chain = "ip") && bool_decide (nat_table chain = "nat")
  && bool_decide (nat_name chain = "POSTROUTING") && (nat_priority chain =? iptablesSourceNATPriority).
Definition canonicalIPTablesForwardChain (chain : nftForwardChain) : bool :=
  bool_decide (fc_family chain = "ip") && bool_decide (fc_table chain = "filter") && bool_decide (fc_name chain = "FORWARD").

Definition nul : string := text_of [x00].
Definition nftForwardChainFingerprint (chain : nftForwardChain) : string :=
  EncodeToString (Sum256 (bytes_of (fc_family chain +:+ nul +:+ fc_table chain +:+ nul +:+ fc_name chain))).

Definition transfer_nft_rules (claim : networkClaim) (t : transferAllocation) : list nftRule :=
  let owner := transfer_owner claim t in
  [ MkNFTRule "forward" "forward-out" (hostVeth t) (ta_providerName t) (PrefixString (subnet t)) "" "" (owner +:+ ":forward-out");
    MkNFTRule "forward" "return" (ta_providerName t) (hostVeth t) "" (PrefixString (subnet t)) "" (owner +:+ ":return");
    MkNFTRule "forward" "drop-out" (hostVeth t) "" "" "" "" (owner +:+ ":drop-out");
    MkNFTRule "forward" "drop-in" "" (hostVeth t) "" "" "" (owner +:+ ":drop-in");
    MkNFTRule "postrouting" "snat" (hostVeth t) (ta_providerName t) (AddrString (namespaceIP t)) "" (AddrString (ta_source t))
      (owner +:+ ":snat") ].

Definition forward_owner (claim : networkClaim) (target : nftForwardChain) (t : transferAllocation) : string :=
  owner_prefix claim +:+ "host-forward:" +:+ nftForwardChainFingerprint target +:+ ":" +:+ pretty (ta_number t).

Definition transfer_forward_rules (claim : networkClaim) (target : nftForwardChain) (t : transferAllocation) : list nftForwardRule :=
  let owner := forward_owner claim target t in
  [ MkNFTForward target (MkNFTRule "" "forward-out" (hostVeth t) (ta_providerName t) (PrefixString (subnet t)) "" "" (owner +:+ ":forward-out"));
    MkNFTForward target (MkNFTRule "" "return" (ta_providerName t) (hostVeth t) "" (PrefixString (subnet t)) "" (owner +:+ ":return")) ].

Definition claim_forward_rules (claim : networkClaim) : list nftForwardRule :=
  mjoin ((fun target => mjoin (transfer_forward_rules claim target <$> nc_transfers claim)) <$> nc_forwardChains claim).

Definition buildNFTProgram (claim : networkClaim) : result nftProgram :=
  check! validateClaim claim (nc_runID claim) in
  if negb (bool_decide (nc_backend claim = firewallNFTables))
  then Err (ErrText "nftables program requires an nftables network claim")
  else Ok (MkNFTProgram (nc_firewallTable claim) (owner_prefix claim) (nc_nftPostroutingPriority claim) ["forward"; "postrouting"]
             (mjoin (transfer_nft_rules claim <$> nc_transfers claim)) (claim_forward_rules claim)).

(** ** Expressions *)
Inductive MetaKey : Type := MetaKeyIIFNAME | MetaKeyOIFNAME.
Inductive CmpOp : Type := CmpOpEq | CmpOpNeq.
Inductive VerdictKind : Type := VerdictAccept | VerdictDrop.
#[export] Instance MetaKey_eq_dec : EqDecision MetaKey.
Proof. solve_decision. Defined.
#[export] Instance CmpOp_eq_dec : EqDecision CmpOp.
Proof. solve_decision. Defined.
#[export] Instance VerdictKind_eq_dec : EqDecision VerdictKind.
Proof. solve_decision. Defined.
(** Payload is of the network header, Ct the state of the connection, and NAT
    translates sources of IPv4: the code makes no others. *)
Inductive nftExpr : Type :=
  | Meta (key : MetaKey) (register : Z)
  | Cmp (op : CmpOp) (register : Z) (data : list byte)
  | Payload (destRegister offset len : Z)
  | Bitwise (sourceRegister destRegister len : Z) (mask xor : list byte)
  | CtState (register : Z)
  | Immediate (register : Z) (data : list byte)
  | SourceNAT (regAddrMin regAddrMax : Z)
  | Verdict (kind : VerdictKind)
  | OtherExpr (description : string).
#[export] Instance nftExpr_eq_dec : EqDecision nftExpr.
Proof. solve_decision. Defined.

(** The bits of the state of a connection. *)
Definition CtStateBitESTABLISHED : Z := 2.
Definition CtStateBitRELATED : Z := 4.

(** binaryutil.NativeEndian.PutUint32: the order of the bytes of the machine. *)
Class NativeEndian : Type := { native_u32 : Z -> list byte }.

Definition AsSlice (a : Addr) : list byte :=
  match a with AddrNone => [] | Addr4 v => be_put 4 v | Addr6 v _ => be_put 16 v end.

(** net.CIDRMask of 32 bits. *)
Definition CIDRMask (ones : Z) : list byte :=
  if (0 <=? ones) && (ones <=? 32) then be_put 4 (2 ^ 32 - 2 ^ (32 - ones)) else [].

(** MustParsePrefix and MustParseAddr panic where the text does not parse; the
    texts of a program do (PacketPolicy). *)
Definition matchIPv4Prefix (offset : Z) (raw : string) : list nftExpr :=
  let prefix := Masked (ok_or zero_prefix (ParsePrefix raw)) in
  [ Payload 1 offset 4; Bitwise 1 1 4 (CIDRMask (prefix_bits prefix)) [x00; x00; x00; x00];
    Cmp CmpOpEq 1 (AsSlice (prefix_ip prefix)) ].

Definition IFNAMSIZ : nat := 16.
Definition interface_data (name : string) : list byte :=
  take IFNAMSIZ (bytes_of name) ++ replicate (IFNAMSIZ - length (bytes_of name)) x00.
Definition matchInterface (key : MetaKey) (name : string) : list nftExpr :=
  [ Meta key 1; Cmp CmpOpEq 1 (interface_data name) ].

Section Expressions.
Context `{NativeEndian}.

Definition establishedReturn : list nftExpr :=
  let mask := native_u32 (Z.lor CtStateBitESTABLISHED CtStateBitRELATED) in
  let zero := native_u32 0 in
  [ CtState 1; Bitwise 1 1 4 mask zero; Cmp CmpOpNeq 1 zero; Verdict VerdictAccept ].

Definition snatRuleExpressions (rule : nftRule) : list nftExpr :=
  let source := ok_or AddrNone (ParseAddr (nr_source rule)) in
  let target := ok_or AddrNone (ParseAddr (nr_address rule)) in
  matchInterface MetaKeyIIFNAME (nr_input rule) ++ matchInterface MetaKeyOIFNAME (nr_output rule)
  ++ [ Payload 1 12 4; Cmp CmpOpEq 1 (AsSlice source) ] ++ [ Immediate 1 (AsSlice target); SourceNAT 1 1 ].

Definition nftExpressions (rule : nftRule) : list nftExpr :=
  if bool_decide (nr_kind rule = "forward-out") then
    matchInterface MetaKeyIIFNAME (nr_input rule) ++ matchInterface MetaKeyOIFNAME (nr_output rule)
    ++ matchIPv4Prefix 12 (nr_source rule) ++ [ Verdict VerdictAccept ]
  else if bool_decide (nr_kind rule = "return") then
    matchInterface MetaKeyIIFNAME (nr_input rule) ++ matchInterface MetaKeyOIFNAME (nr_output rule)
    ++ matchIPv4Prefix 16 (nr_destination rule) ++ establishedReturn
  else if bool_decide (nr_kind rule = "drop-out") then matchInterface MetaKeyIIFNAME (nr_input rule) ++ [ Verdict VerdictDrop ]
  else if bool_decide (nr_kind rule = "drop-in") then matchInterface MetaKeyOIFNAME (nr_output rule) ++ [ Verdict VerdictDrop ]
  else if bool_decide (nr_kind rule = "snat") then snatRuleExpressions rule
  else [].
End Expressions.

(** ** The connection *)
Inductive TableFamily : Type := TableFamilyIPv4 | TableFamilyINet | TableFamilyOther (number : Z).
#[export] Instance TableFamily_eq_dec : EqDecision TableFamily.
Proof. solve_decision. Defined.

Record Table : Type := MkTable { tb_family : TableFamily; tb_name : string }.
#[export] Instance Table_eq_dec : EqDecision Table.
Proof. solve_decision. Defined.

Inductive ChainHook : Type := ChainHookForward | ChainHookPostrouting | ChainHookOther (number : Z).
#[export] Instance ChainHook_eq_dec : EqDecision ChainHook.
Proof. solve_decision. Defined.
Inductive ChainPolicy : Type := ChainPolicyDrop | ChainPolicyAccept.
#[export] Instance ChainPolicy_eq_dec : EqDecision ChainPolicy.
Proof. solve_decision. Defined.
Definition ChainTypeFilter : string := "filter".
Definition ChainTypeNAT : string := "nat".

(** A nil pointer is [None]; the library returns no nil chains or rules. *)
Record Chain : Type := MkChain {
  ch_name : string;
  ch_table : option Table;
  ch_hooknum : option ChainHook;
  ch_priority : option Z;
  ch_type : string;
  ch_policy : option ChainPolicy;
  ch_device : string
}.
#[export] Instance Chain_eq_dec : EqDecision Chain.
Proof. solve_decision. Defined.

Record Rule : Type := MkRule {
  ru_table : Table;
  ru_chain : string;
  ru_handle : Z;
  ru_exprs : list nftExpr;
  ru_userData : string
}.
#[export] Instance Rule_eq_dec : EqDecision Rule.
Proof. solve_decision. Defined.

(** What a batch does; the kernel gives a new rule its handle. *)
Inductive Change : Type :=
  | CreateTable (table : Table)
  | AddChain (chain : Chain)
  | AddRule (rule : Rule)
  | InsertRule (rule : Rule)
  | DeleteRule (rule : Rule)
  | DelTable (table : Table).

(** [DelRule] tells whether the deletion could be queued; [Flush] commits what
    was queued. *)
Inductive NftE : Type -> Type :=
  | CtxErr : NftE (option error)
  | ListTablesOfFamily (family : TableFamily) : NftE (result (list Table))
  | ListChainsOfTableFamily (family : TableFamily) : NftE (result (list Chain))
  | GetRules (table : Table) (chain : Chain) : NftE (result (list Rule))
  | DelRule (rule : Rule) : NftE (option error)
  | Flush (batch : list Change) : NftE (option error).

Definition nft_do (A : Type) : Type := itree NftE A.

Definition errOwnedObjectAbsent : string := "owned network object is absent".
Definition errNFTFamilyUnsupported : string := "nftables address family is unsupported".
Definition unsupported_errnos : list string :=
  [ "address family not supported by protocol"; "protocol not supported"; "protocol not available"; "operation not supported" ].

Definition nftIPv4Families : list TableFamily := [TableFamilyIPv4; TableFamilyINet].
Definition nftFamilyName (family : TableFamily) : string :=
  if bool_decide (family = TableFamilyINet) then "inet" else "ip".
Definition nftTableFamily (name : string) : result TableFamily :=
  if bool_decide (name = "ip") then Ok TableFamilyIPv4
  else if bool_decide (name = "inet") then Ok TableFamilyINet
  else Err (ErrText ("unsupported nftables family " +:+ Quote name)).

Definition base_chain (hook : ChainHook) (type : string) (chain : Chain) : bool :=
  bool_decide (is_Some (ch_table chain)) && bool_decide (ch_hooknum chain = Some hook)
  && bool_decide (ch_type chain = type) && bool_decide (ch_device chain = "").
Definition isNFTForwardBaseChain : Chain -> bool := base_chain ChainHookForward ChainTypeFilter.
Definition isNFTPostroutingNATBaseChain : Chain -> bool := base_chain ChainHookPostrouting ChainTypeNAT.

Definition isTransferLanesNFTTable (table : Table) : bool :=
  bool_decide (tb_family table = TableFamilyIPv4) && HasPrefix (tb_name table) "transferlanes_"
  && bool_decide (is_Some (runIDFromIPTablesComment ("transferlanes:" +:+ TrimPrefix (tb_name table) "transferlanes_"))).

Definition nftForwardChainCanReject (chain : Chain) (rules : list Rule) : bool :=
  isNFTForwardBaseChain chain && (bool_decide (ch_policy chain = Some ChainPolicyDrop) || (0 <? zlen rules)).

Definition forward_identity (table : Table) (chain : Chain) : nftForwardChain :=
  MkForwardChain (nftFamilyName (tb_family table)) (tb_name table) (ch_name chain).

Definition rules_of (table : Table) (chain : Chain) : nft_do (result (list Rule)) :=
  do! rules := call (GetRules table chain) in
  Ret (with_context ("list nftables rules for " +:+ tb_name table +:+ "/" +:+ ch_name chain) rules).
Definition chains_of (family : TableFamily) : nft_do (result (list Chain)) :=
  do! chains := call (ListChainsOfTableFamily family) in
  Ret (with_context ("list nftables " +:+ nftFamilyName family +:+ " chains") chains).

(** ** Chains of others that forward *)
Definition nftForwardTargets (rules : list nftForwardRule) : list nftForwardChain :=
  foldl (fun result forward =>
    if bool_decide (last result = Some (nf_target forward)) then result else result ++ [nf_target forward]) [] rules.

Fixpoint active_chains (family : TableFamily) (result : list nftForwardChain) (chains : list Chain)
    : nft_do (Prelude.result (list nftForwardChain)) :=
  match chains with
  | [] => Ret (Ok result)
  | chain :: chains =>
      match ch_table chain with
      | None => active_chains family result chains
      | Some table =>
          if bool_decide (ch_name chain = "") || isTransferLanesNFTTable table then active_chains family result chains
          else
            do* rules := rules_of table chain in
            active_chains family
              (if nftForwardChainCanReject chain rules
               then result ++ [MkForwardChain (nftFamilyName family) (tb_name table) (ch_name chain)] else result) chains
      end
  end.

Fixpoint active_families (result : list nftForwardChain) (families : list TableFamily)
    : nft_do (Prelude.result (list nftForwardChain)) :=
  match families with
  | [] => Ret (Ok result)
  | family :: families =>
      do* chains := chains_of family in
      do* result := active_chains family result chains in
      active_families result families
  end.

Definition activeNFTForwardChains : nft_do (result (list nftForwardChain)) :=
  do* found := active_families [] nftIPv4Families in
  Ret (Ok (sort_by lessNFTForwardChain found)).

Definition chain_words (chain : nftForwardChain) : string := fc_family chain +:+ "/" +:+ fc_table chain +:+ "/" +:+ fc_name chain.

(** The one chain of a family that has the identity. *)
Fixpoint find_forward_chain (target : nftForwardChain) (found : option Chain) (chains : list Chain) : result Chain :=
  match chains with
  | [] => match found with
          | Some chain => Ok chain
          | None => Err (ErrText ("nftables forward target " +:+ chain_words target +:+ " is absent"))
          end
  | chain :: chains =>
      if bool_decide (tb_name <$> ch_table chain = Some (fc_table target)) && bool_decide (ch_name chain = fc_name target) then
        match found with
        | Some _ => Err (ErrText ("duplicate nftables forward target " +:+ chain_words target))
        | None => find_forward_chain target (Some chain) chains
        end
      else find_forward_chain target found chains
  end.

Definition findNFTForwardChain (target : nftForwardChain) : nft_do (result Chain) :=
  do* family := lift (nftTableFamily (fc_family target)) in
  do* chains := chains_of family in
  lift (find_forward_chain target None chains).

Definition changed_identity (target : nftForwardChain) : error :=
  ErrText ("nftables forward target " +:+ chain_words target +:+ " changed identity").

Definition resolvedChains : Type := list (nftForwardChain * Chain).
Definition resolved_chain (resolved : resolvedChains) (target : nftForwardChain) : option Chain :=
  snd <$> List.find (fun entry => bool_decide (entry.1 = target)) resolved.

Fixpoint resolve_targets (resolved : resolvedChains) (rules : list nftForwardRule) : nft_do (result resolvedChains) :=
  match rules with
  | [] => Ret (Ok resolved)
  | forward :: rules =>
      if bool_decide (is_Some (resolved_chain resolved (nf_target forward))) then resolve_targets resolved rules
      else
        do* chain := findNFTForwardChain (nf_target forward) in
        if negb (isNFTForwardBaseChain chain) then Ret (Err (changed_identity (nf_target forward)))
        else resolve_targets ((nf_target forward, chain) :: resolved) rules
  end.

Definition chains_text (chains : list nftForwardChain) : string :=
  "[" +:+ Join ((fun c => "{" +:+ fc_family c +:+ " " +:+ fc_table c +:+ " " +:+ fc_name c +:+ "}") <$> chains) " " +:+ "]".

Definition resolveNFTForwardChains (program : nftProgram) : nft_do (result resolvedChains) :=
  let targets := nftForwardTargets (np_forwardRules program) in
  do* current := activeNFTForwardChains in
  if negb (bool_decide (current = targets))
  then Ret (Err (ErrText ("nftables forward targets changed before mutation: current=" +:+ chains_text current
                            +:+ " claimed=" +:+ chains_text targets)))
  else resolve_targets [] (np_forwardRules program).

Section Programs.
Context `{NativeEndian}.

(** In reverse order at the head of the chain. *)
Definition insertNFTForwardRules (chains : resolvedChains) (rules : list nftForwardRule) : list Change :=
  omap (fun forward =>
    match resolved_chain chains (nf_target forward) with
    | Some chain =>
        match ch_table chain with
        | Some table => Some (InsertRule (MkRule table (ch_name chain) 0 (nftExpressions (nf_rule forward)) (nr_owner (nf_rule forward))))
        | None => None
        end
    | None => None
    end) (rev rules).

Record expectedNFTForwardRule : Type := MkExpected {
  ex_target : nftForwardChain;
  ex_expressions : list nftExpr;
  ex_position : Z
}.

Fixpoint expected_forward (rules : list nftForwardRule) (before : list nftForwardChain)
    (result : gmap string expectedNFTForwardRule) : gmap string expectedNFTForwardRule :=
  match rules with
  | [] => result
  | forward :: rules =>
      let target := nf_target forward in
      expected_forward rules (before ++ [target])
        (<[ nr_owner (nf_rule forward) := MkExpected target (nftExpressions (nf_rule forward))
              (zlen (filter (fun t => t = target) before)) ]> result)
  end.
Definition expectedNFTForwardRules (rules : list nftForwardRule) : gmap string expectedNFTForwardRule :=
  expected_forward rules [] ∅.

Definition hasExpectedNFTForwardTarget (expected : gmap string expectedNFTForwardRule) (target : nftForwardChain) : bool :=
  existsb (fun entry => bool_decide (ex_target entry.2 = target)) (map_to_list expected).

Fixpoint match_rules (target : nftForwardChain) (ownerPrefix : string) (expected : gmap string expectedNFTForwardRule)
    (allowPartial : bool) (index : Z) (found : gset string) (matched : list Rule) (rules : list Rule)
    : result (gset string * list Rule) :=
  match rules with
  | [] => Ok (found, matched)
  | rule :: rules =>
      let owner := ru_userData rule in
      let mismatch := ErrText ("nftables forward rule " +:+ owner +:+ " identity or content mismatch") in
      if negb (HasPrefix owner ownerPrefix)
      then match_rules target ownerPrefix expected allowPartial (index + 1) found matched rules
      else
        match expected !! owner with
        | None => Err mismatch
        | Some wanted =>
            if negb (bool_decide (ex_target wanted = target)) || negb (bool_decide (ru_exprs rule = ex_expressions wanted))
            then Err mismatch
            else if bool_decide (owner ∈ found) then Err (ErrText ("nftables forward rule " +:+ owner +:+ " is duplicated"))
            else if negb allowPartial && negb (index =? ex_position wanted)
            then Err (ErrText ("nftables forward rule " +:+ owner +:+ " is not at its claimed leading position"))
            else match_rules target ownerPrefix expected allowPartial (index + 1) ({[ owner ]} ∪ found) (matched ++ [rule]) rules
        end
  end.

Definition matchNFTForwardRules (table : Table) (chain : Chain) (rules : list Rule) (ownerPrefix : string)
    (expected : gmap string expectedNFTForwardRule) (found : gset string) (allowPartial : bool)
    : result (gset string * list Rule) :=
  let target := forward_identity table chain in
  if negb allowPartial && hasExpectedNFTForwardTarget expected target && negb (isNFTForwardBaseChain chain)
  then Err (changed_identity target)
  else match_rules target ownerPrefix expected allowPartial 0 found [] rules.

Fixpoint observe_chains (program : nftProgram) (expected : gmap string expectedNFTForwardRule) (allowPartial : bool)
    (found : gset string) (owned : list Rule) (chains : list Chain) : nft_do (result (gset string * list Rule)) :=
  match chains with
  | [] => Ret (Ok (found, owned))
  | chain :: chains =>
      match ch_table chain with
      | None => observe_chains program expected allowPartial found owned chains
      | Some table =>
          if bool_decide (ch_name chain = "")
             || (bool_decide (tb_family table = TableFamilyIPv4) && bool_decide (tb_name table = np_table program))
          then observe_chains program expected allowPartial found owned chains
          else
            do* rules := rules_of table chain in
            do* seen := lift (matchNFTForwardRules table chain rules (np_ownerPrefix program) expected found allowPartial) in
            observe_chains program expected allowPartial seen.1 (owned ++ seen.2) chains
      end
  end.

Fixpoint observe_families (program : nftProgram) (expected : gmap string expectedNFTForwardRule) (allowPartial : bool)
    (found : gset string) (owned : list Rule) (families : list TableFamily) : nft_do (result (gset string * list Rule)) :=
  match families with
  | [] => Ret (Ok (found, owned))
  | family :: families =>
      do* chains := chains_of family in
      do* seen := observe_chains program expected allowPartial found owned chains in
      observe_families program expected allowPartial seen.1 seen.2 families
  end.

Definition observeNFTForwardRules (program : nftProgram) (allowPartial : bool) : nft_do (result (list Rule)) :=
  let expected := expectedNFTForwardRules (np_forwardRules program) in
  do* seen := observe_families program expected allowPartial ∅ [] nftIPv4Families in
  if negb allowPartial && negb (Z.of_nat (size seen.1) =? Z.of_nat (size expected))
  then Ret (Err (ErrText ("nftables forward ownership is incomplete: found=" +:+ pretty (Z.of_nat (size seen.1))
                            +:+ " expected=" +:+ pretty (Z.of_nat (size expected)))))
  else Ret (Ok seen.2).
End Programs.

(** ** Reading what a claim owns *)
Fixpoint find_table (name : string) (found : option Table) (tables : list Table) : result Table :=
  match tables with
  | [] => match found with Some table => Ok table | None => Err (ErrSentinel errOwnedObjectAbsent) end
  | table :: tables =>
      if bool_decide (tb_name table = name) then
        match found with
        | Some _ => Err (ErrText "duplicate nftables table identity")
        | None => find_table name (Some table) tables
        end
      else find_table name found tables
  end.

Definition findOwnedNFTTable (name : string) : nft_do (result Table) :=
  do! tables := call (ListTablesOfFamily TableFamilyIPv4) in
  Ret (let* tables := with_context "list nftables tables" tables in find_table name None tables).

Definition nftChainAcceptPolicy (policy : option ChainPolicy) : bool := negb (bool_decide (policy = Some ChainPolicyDrop)).

Definition exactNFTChain (chain : option Chain) (hook : ChainHook) (priority : Z) (chainType : string) : bool :=
  match chain with
  | None => false
  | Some c => bool_decide (ch_hooknum c = Some hook) && bool_decide (ch_priority c = Some priority)
              && bool_decide (ch_type c = chainType) && nftChainAcceptPolicy (ch_policy c) && bool_decide (ch_device c = "")
  end.

(** The chains of a table by name; of two with one name the last is kept. *)
Definition chains_by_name (table : Table) (chains : list Chain) : gmap string Chain :=
  foldl (fun owned chain => if bool_decide (ch_table chain = Some table) then <[ ch_name chain := chain ]> owned else owned) ∅ chains.

(** The description of the two chains is left out of the message. *)
Definition verifyNFTChains (table : Table) (postroutingPriority : Z) : nft_do (result (gmap string Chain)) :=
  do! all := call (ListChainsOfTableFamily TableFamilyIPv4) in
  Ret (let* all := with_context "list nftables chains" all in
       let owned := chains_by_name table all in
       if negb (Z.of_nat (size owned) =? 2)
          || negb (exactNFTChain (owned !! "forward") ChainHookForward (-1) ChainTypeFilter)
          || negb (exactNFTChain (owned !! "postrouting") ChainHookPostrouting postroutingPriority ChainTypeNAT)
       then Err (ErrText "nftables chain identity or content mismatch") else Ok owned).

Definition nftRulesForChain (rules : list nftRule) (chain : string) : list nftRule :=
  filter (fun rule => nr_chain rule = chain) rules.

Section Operations.
Context `{NativeEndian}.

(** The description of the expressions is left out of the message. *)
Fixpoint compare_rules (actual : list Rule) (expected : list nftRule) : option error :=
  match actual, expected with
  | rule :: actual, want :: expected =>
      if negb (bool_decide (ru_userData rule = nr_owner want)) || negb (bool_decide (ru_exprs rule = nftExpressions want))
      then Some (ErrText ("nftables rule " +:+ nr_owner want +:+ " identity or content mismatch"))
      else compare_rules actual expected
  | _, _ => None
  end.

(** Both chains are there once they were verified. *)
Definition verifyNFTRules (table : Table) (chains : gmap string Chain) (program : nftProgram) : nft_do (option error) :=
  each (fun chainName =>
    match chains !! chainName with
    | None => Ret None
    | Some chain =>
        do! actual := call (GetRules table chain) in
        Ret (match actual with
             | Err e => Some (ErrWrap ("list nftables rules in " +:+ chainName) e)
             | Ok actual =>
                 let expected := nftRulesForChain (np_rules program) chainName in
                 if negb (zlen actual =? zlen expected)
                 then Some (ErrText ("nftables chain " +:+ chainName +:+ " has " +:+ pretty (zlen actual) +:+ " rules, want "
                                       +:+ pretty (zlen expected)))
                 else compare_rules actual expected
             end)
    end) (np_chains program).

(** The table of a claim as it was made. *)
Definition verify_table (table : Table) (priority : Z) (program : nftProgram) : nft_do (option error) :=
  do! chains := verifyNFTChains table priority in
  failing_or chains (fun chains => verifyNFTRules table chains program).

Definition verifyNFTClaim (claim : networkClaim) (allowAbsent : bool) : nft_do (option error) :=
  failing_or (buildNFTProgram claim) (fun program =>
  do! resolved := if allowAbsent then Ret (Ok []) else resolveNFTForwardChains program in
  failing_or resolved (fun _ =>
  do! table := findOwnedNFTTable (nc_firewallTable claim) in
  do! e := match table with
           | Err e => Ret (if negb allowAbsent || negb (errors_Is e errOwnedObjectAbsent) then Some e else None)
           | Ok table => verify_table table (nc_nftPostroutingPriority claim) program
           end in
  then_check e
    (do! owned := observeNFTForwardRules program allowAbsent in Ret (failure owned)))).

(** ** Installing *)
Definition requireNFTInstallTopology (inventory : firewallInventory) (program : nftProgram) : option error :=
  if negb (bool_decide (fw_kind inventory = firewallNFTables))
  then Some (ErrText "nftables mutation requires a complete nftables inventory")
  else
    match validateTransferLanesNFTPostroutingPriority (np_postroutingPriority program) with
    | Some e => Some (ErrWrap "nftables mutation has unsupported postrouting priority" e)
    | None =>
        if bool_decide (np_table program ∈ nftTableNames inventory)
        then Some (ErrText ("nftables table identity " +:+ Quote (np_table program) +:+ " appeared before mutation"))
        else
          match List.find (fun chain => nat_hasRules chain && (nat_priority chain <=? np_postroutingPriority program))
                  (nftPostroutingNATChains inventory) with
          | Some chain =>
              Some (ErrText ("nftables postrouting NAT topology changed before mutation: chain " +:+ chain_text chain +:+ " priority "
                               +:+ pretty (nat_priority chain) +:+ " is not later than claimed priority "
                               +:+ pretty (np_postroutingPriority program)))
          | None => None
          end
    end.

Definition addNFTChains (table : Table) (postroutingPriority : Z) : list Change :=
  [ AddChain (MkChain "forward" (Some table) (Some ChainHookForward) (Some (-1)) ChainTypeFilter None "");
    AddChain (MkChain "postrouting" (Some table) (Some ChainHookPostrouting) (Some postroutingPriority) ChainTypeNAT None "") ].

Definition install_batch (program : nftProgram) (forwardChains : resolvedChains) : list Change :=
  let table := MkTable TableFamilyIPv4 (np_table program) in
  CreateTable table :: addNFTChains table (np_postroutingPriority program)
  ++ ((fun rule => AddRule (MkRule table (nr_chain rule) 0 (nftExpressions rule) (nr_owner rule))) <$> np_rules program)
  ++ insertNFTForwardRules forwardChains (np_forwardRules program).

Definition wrap_error (context : string) (e : option error) : option error := ErrWrap context <$> e.

Definition installNFT (program : nftProgram) : nft_do (option error) :=
  do! forwardChains := resolveNFTForwardChains program in
  failing_or forwardChains (fun forwardChains =>
  do! e := call (Flush (install_batch program forwardChains)) in
  Ret (wrap_error "commit nftables transaction" e)).

(** ** Removing *)
Definition queue_deletions (rules : list Rule) : nft_do (option error) :=
  each (fun rule => do! e := call (DelRule rule) in Ret (wrap_error "queue nftables forward rule deletion" e)) rules.

Definition removeNFTClaim (claim : networkClaim) : nft_do (option error) :=
  failing_or (buildNFTProgram claim) (fun program =>
  do! forwardRules := observeNFTForwardRules program true in
  failing_or forwardRules (fun forwardRules =>
  do! table := findOwnedNFTTable (nc_firewallTable claim) in
  let found := match table with Ok t => Some t | Err _ => None end in
  do! e := match table with
           | Err e => Ret (if errors_Is e errOwnedObjectAbsent then None else Some e)
           | Ok table => verify_table table (nc_nftPostroutingPriority claim) program
           end in
  then_check e
    (do! e := queue_deletions forwardRules in
     then_check e
       (if negb (bool_decide (is_Some found)) && (zlen forwardRules =? 0) then Ret None
        else
          do! e := call (Flush ((DeleteRule <$> forwardRules) ++ match found with Some t => [DelTable t] | None => [] end)) in
          Ret (wrap_error "delete exact nftables ownership" e))))).

Definition verifyNFTAbsent (claim : networkClaim) : nft_do (option error) :=
  do! table := findOwnedNFTTable (nc_firewallTable claim) in
  match table with
  | Ok _ => Ret (Some (ErrText ("nftables table " +:+ nc_firewallTable claim +:+ " remains")))
  | Err e =>
      if negb (errors_Is e errOwnedObjectAbsent) then Ret (Some e)
      else
        failing_or (buildNFTProgram claim) (fun program =>
        do! rules := observeNFTForwardRules program true in
        failing_or rules (fun rules =>
        Ret (if negb (zlen rules =? 0) then Some (ErrText "claimed nftables forward rules remain") else None)))
  end.
End Operations.

(** ** Published programs *)
Section Published.
Context `{NativeEndian}.

(** The owned rules of a target, in the order in which the targets appear; Go
    visits them in any order, [visit] is the one it takes. *)
Definition publishedRules : Type := list (nftForwardChain * gmap string (list nftExpr)).

Fixpoint add_published (forward : nftForwardRule) (result : publishedRules) : publishedRules :=
  match result with
  | [] => [(nf_target forward, {[ nr_owner (nf_rule forward) := nftExpressions (nf_rule forward) ]})]
  | (target, rules) :: result =>
      if bool_decide (target = nf_target forward)
      then (target, <[ nr_owner (nf_rule forward) := nftExpressions (nf_rule forward) ]> rules) :: result
      else (target, rules) :: add_published forward result
  end.
Definition publishedNFTForwardRules (programs : list nftProgram) : publishedRules :=
  foldl (fun result forward => add_published forward result) [] (mjoin (np_forwardRules <$> programs)).

Definition matchesNFTForwardTarget (chain : Chain) (target : nftForwardChain) : bool :=
  match ch_table chain with
  | Some table => bool_decide (nftFamilyName (tb_family table) = fc_family target)
                  && bool_decide (tb_name table = fc_table target) && bool_decide (ch_name chain = fc_name target)
  | None => false
  end.

Fixpoint leading_published (target : nftForwardChain) (expected : gmap string (list nftExpr)) (index : Z) (found : gset string)
    (actual : list Rule) : result (gset string) :=
  match actual with
  | [] => Ok found
  | rule :: actual =>
      let owner := ru_userData rule in
      let exact := match expected !! owner with Some want => bool_decide (ru_exprs rule = want) | None => false end in
      let outside := Z.of_nat (size expected) <=? index in
      if negb outside && negb exact
      then Err (ErrText ("published nftables forward rules for " +:+ chain_words target +:+ " are not the leading exact programs"))
      else if negb (bool_decide (is_Some (expected !! owner))) then leading_published target expected (index + 1) found actual
      else if negb exact then Err (ErrText ("nftables forward rule " +:+ owner +:+ " identity or content mismatch"))
      else if bool_decide (owner ∈ found) then Err (ErrText ("nftables forward rule " +:+ owner +:+ " is duplicated"))
      else if outside
      then Err (ErrText ("nftables forward rule " +:+ owner +:+ " is outside the claimed leading programs"))
      else leading_published target expected (index + 1) ({[ owner ]} ∪ found) actual
  end.

Definition requireLeadingPublishedNFTRules (target : nftForwardChain) (chain : Chain) (actual : list Rule)
    (expected : gmap string (list nftExpr)) : option error :=
  if negb (matchesNFTForwardTarget chain target) || negb (isNFTForwardBaseChain chain) then Some (changed_identity target)
  else if zlen actual <? Z.of_nat (size expected)
  then Some (ErrText ("published nftables forward rules for " +:+ chain_words target +:+ " are incomplete"))
  else
    match leading_published target expected 0 ∅ actual with
    | Err e => Some e
    | Ok found =>
        if negb (Z.of_nat (size found) =? Z.of_nat (size expected))
        then Some (ErrText ("published nftables forward ownership is incomplete: found=" +:+ pretty (Z.of_nat (size found))
                              +:+ " expected=" +:+ pretty (Z.of_nat (size expected))))
        else None
    end.

Definition verify_published_target (entry : nftForwardChain * gmap string (list nftExpr)) : nft_do (option error) :=
  let '(target, rules) := entry in
  do! chain := findNFTForwardChain target in
  failing_or chain (fun chain =>
  match ch_table chain with
  | None => Ret (Some (changed_identity target))
  | Some table =>
      do! actual := rules_of table chain in
      failing_or actual (fun actual => Ret (requireLeadingPublishedNFTRules target chain actual rules))
  end).

Definition verifyPublishedNFTForwardRules (visit : publishedRules -> publishedRules) (programs : list nftProgram)
    : nft_do (option error) :=
  each verify_published_target (visit (publishedNFTForwardRules programs)).

Definition verifyPublishedNFTProgram (claim : networkClaim) (program : nftProgram) : nft_do (option error) :=
  do! resolved := resolveNFTForwardChains program in
  failing_or resolved (fun _ =>
  do! table := findOwnedNFTTable (nc_firewallTable claim) in
  failing_or table (fun table =>
  do! e := verify_table table (nc_nftPostroutingPriority claim) program in
  then_check e
    (do! owned := observeNFTForwardRules program true in
     failing_or owned (fun owned =>
     Ret (if negb (zlen owned =? zlen (np_forwardRules program))
          then Some (ErrText ("nftables forward ownership is incomplete: found=" +:+ pretty (zlen owned) +:+ " expected="
                                +:+ pretty (zlen (np_forwardRules program))))
          else None))))).

Fixpoint observe_claims (claims : list networkClaim) : nft_do (result (list bool * list nftProgram)) :=
  match claims with
  | [] => Ret (Ok ([], []))
  | claim :: claims =>
      do! absent := verifyNFTAbsent claim in
      match absent with
      | None => do* seen := observe_claims claims in Ret (Ok (false :: seen.1, seen.2))
      | Some _ =>
          check* call CtxErr in
          do* program := lift (buildNFTProgram claim) in
          do! e := verifyPublishedNFTProgram claim program in
          then_ok (wrap_error "confirm complete claimed firewall" e)
            (do* seen := observe_claims claims in Ret (Ok (true :: seen.1, program :: seen.2)))
      end
  end.

Definition observePublishedNFTClaims (visit : publishedRules -> publishedRules) (claims : list networkClaim)
    : nft_do (result (list bool)) :=
  do* seen := observe_claims claims in
  check* verifyPublishedNFTForwardRules visit seen.2 in
  Ret (Ok seen.1).
End Published.

(** ** The inventory *)
Definition with_nft_table (name : string) (inv : firewallInventory) : firewallInventory :=
  MkFirewall (fw_kind inv) ({[ name ]} ∪ nftTableNames inv) (nftForwardChains inv) (nftPostroutingNATChains inv)
    (transferlanesOwnerReferences inv) (fw_iptablesFrontend inv) (HostAllocation.iptablesForwardActive inv) (HostAllocation.iptablesPostroutingActive inv).
Definition with_nft_chains (owners : gset string) (forward : list nftForwardChain) (nat : list nftPostroutingNATChain)
    (inv : firewallInventory) : firewallInventory :=
  MkFirewall (fw_kind inv) (nftTableNames inv) forward nat owners (fw_iptablesFrontend inv) (HostAllocation.iptablesForwardActive inv)
    (HostAllocation.iptablesPostroutingActive inv).

Definition nftPostroutingNATFacts (table : Table) (chain : Chain) (hasRules : bool) : result (option nftPostroutingNATChain) :=
  if negb (isNFTPostroutingNATBaseChain chain) then Ok None
  else
    match ch_priority chain with
    | None => Err (ErrText ("nftables postrouting NAT chain " +:+ tb_name table +:+ "/" +:+ ch_name chain +:+ " has no priority"))
    | Some priority => Ok (Some (MkNATChain (nftFamilyName (tb_family table)) (tb_name table) (ch_name chain) priority hasRules))
    end.

(** What the rules of one chain add. *)
Definition chain_facts (table : Table) (chain : Chain) (rules : list Rule) (inv : firewallInventory) : result firewallInventory :=
  let owners := foldl (fun owners rule =>
    match runIDFromIPTablesComment (ru_userData rule) with Some id => {[ id ]} ∪ owners | None => owners end)
    (transferlanesOwnerReferences inv) rules in
  let forward := if nftForwardChainCanReject chain rules && negb (isTransferLanesNFTTable table)
                 then nftForwardChains inv ++ [forward_identity table chain] else nftForwardChains inv in
  let* nat := nftPostroutingNATFacts table chain (0 <? zlen rules) in
  Ok (with_nft_chains owners forward
        (match nat with Some c => nftPostroutingNATChains inv ++ [c] | None => nftPostroutingNATChains inv end) inv).

Definition inspectNFTChain (chain : Chain) (inv : firewallInventory) : nft_do (result firewallInventory) :=
  check* call CtxErr in
  match ch_table chain with
  | None => Ret (Err (ErrText "nftables returned a chain without identity"))
  | Some table =>
      if bool_decide (ch_name chain = "") then Ret (Err (ErrText "nftables returned a chain without identity"))
      else
        do* rules := rules_of table chain in
        lift (chain_facts table chain rules inv)
  end.

Fixpoint inspect_chains (chains : list Chain) (inv : firewallInventory) : nft_do (result firewallInventory) :=
  match chains with
  | [] => Ret (Ok inv)
  | chain :: chains => do* inv := inspectNFTChain chain inv in inspect_chains chains inv
  end.

Definition nftFamilyIsUnsupported (e : error) : bool := existsb (errors_Is e) unsupported_errnos.

Fixpoint add_table_names (tables : list Table) (inv : firewallInventory) : result firewallInventory :=
  match tables with
  | [] => Ok inv
  | table :: tables =>
      if bool_decide (tb_name table = "") then Err (ErrText "nftables returned an unnamed IPv4 table")
      else add_table_names tables (with_nft_table (tb_name table) inv)
  end.

Definition inspectNFTFamily (family : TableFamily) (inv : firewallInventory) : nft_do (result firewallInventory) :=
  do! tables := call (ListTablesOfFamily family) in
  match tables with
  | Err e =>
      Ret (Err (if nftFamilyIsUnsupported e
                then ErrDetail (ErrSentinel errNFTFamilyUnsupported) ("list " +:+ nftFamilyName family +:+ " tables: " +:+ error_text e)
                else ErrWrap ("list " +:+ nftFamilyName family +:+ " nftables tables") e))
  | Ok tables =>
      do* inv := lift (if bool_decide (family = TableFamilyIPv4) then add_table_names tables inv else Ok inv) in
      do! chains := call (ListChainsOfTableFamily family) in
      do* chains := lift (with_context ("list " +:+ nftFamilyName family +:+ " nftables chains") chains) in
      inspect_chains chains inv
  end.

Fixpoint inspect_families (families : list TableFamily) (inv : firewallInventory) : nft_do (result firewallInventory) :=
  match families with
  | [] => Ret (Ok inv)
  | family :: families =>
      do! found := inspectNFTFamily family inv in
      match found with
      | Ok inv => inspect_families families inv
      | Err e =>
          if errors_Is e errNFTFamilyUnsupported then
            if bool_decide (family = TableFamilyIPv4) then Ret (Err (ErrDetail (ErrSentinel errFirewallUnavailable) (error_text e)))
            else inspect_families families inv
          else Ret (Err e)
      end
  end.

(** strings.Join of the three names with a NUL between them. *)
Definition less_nat_chain (left right : nftPostroutingNATChain) : bool :=
  sltb (Join [nat_family left; nat_table left; nat_name left] nul) (Join [nat_family right; nat_table right; nat_name right] nul).

Definition nft_Inspect : nft_do (result firewallInventory) :=
  check* call CtxErr in
  do* inv := inspect_families nftIPv4Families (MkFirewall firewallNFTables ∅ [] [] ∅ "" false false) in
  let inv := with_nft_chains (transferlanesOwnerReferences inv) (sort_by lessNFTForwardChain (nftForwardChains inv))
               (sort_by less_nat_chain (nftPostroutingNATChains inv)) inv in
  lift (check! validateNFTPostroutingNATChains (nftPostroutingNATChains inv) in Ok inv).

(** ** The backend *)
Section Backend.
Context `{NativeEndian}.

Definition unless_ended (k : nft_do (option error)) : nft_do (option error) := do! e := call CtxErr in then_check e k.

Definition nft_Preflight (claim : networkClaim) : nft_do (option error) :=
  unless_ended
    (failing_or (buildNFTProgram claim) (fun program =>
     do! inventory := nft_Inspect in
     failing_or inventory (fun inventory => Ret (requireNFTInstallTopology inventory program)))).

(** The steps before the table is there. *)
Definition nft_install (claim : networkClaim) : nft_do (option error) :=
  failing_or (buildNFTProgram claim) (fun program =>
  do! inventory := nft_Inspect in
  failing_or inventory (fun inventory =>
  then_check (requireNFTInstallTopology inventory program) (installNFT program))).

Definition nft_owner (claim : networkClaim) : string := "nft:" +:+ nc_firewallTable claim.

Definition nft_Install (claim : networkClaim) : nft_do (firewallReceipts * option error) :=
  let receipts := newFirewallReceipts firewallNFTables in
  do! e := unless_ended (nft_install claim) in
  match e with
  | Some e => Ret (receipts, Some e)
  | None =>
      do! e := verifyNFTClaim claim false in
      Ret (receipts_add receipts (nft_owner claim), wrap_error "verify installed nftables ownership" e)
  end.

Definition nft_Verify (claim : networkClaim) (allowAbsent : bool) : nft_do (option error) :=
  unless_ended (verifyNFTClaim claim allowAbsent).

Definition nft_Remove (claim : networkClaim) (receipts : firewallReceipts) : nft_do (option error) :=
  unless_ended
    (if negb (bool_decide (rc_kind receipts = firewallNFTables))
     then Ret (Some (ErrText "live nftables receipts name another backend"))
     else if Z.of_nat (size (rc_owners receipts)) =? 0 then Ret None
     else if negb (Z.of_nat (size (rc_owners receipts)) =? 1) || negb (receipts_has receipts (nft_owner claim))
     then Ret (Some (ErrText "live nftables receipt set is invalid"))
     else removeNFTClaim claim).

Definition nft_Recover (claim : networkClaim) : nft_do (option error) := unless_ended (removeNFTClaim claim).
Definition nft_VerifyAbsent (claim : networkClaim) : nft_do (option error) := unless_ended (verifyNFTAbsent claim).
Definition nft_ObservePublished (visit : publishedRules -> publishedRules) (claims : list networkClaim) : nft_do (result (list bool)) :=
  observePublishedNFTClaims visit claims.
End Backend.
