(* ===== verification/PacketPolicy.v ===== *)
(** * What the rule programs do to packets

    The two backends write a claim down in two languages, words of iptables and
    expressions of nftables.  Here both are read the way the kernel reads them,
    and both make the same lanes: what comes from a transfer's link leaves by
    its provider from its own subnet, or not at all, and what goes to a
    transfer's link answers it. *)
From S2P Require Import Prelude Utf8 TransferNumber GoText Netip Hashing NetipText RunId HostAllocation HostAllocationProofs HostClaim IPTables Nft.

(** ** Packets *)
Record Packet : Type := MkPacket {
  pk_input : string;
  pk_output : string;
  pk_header : list byte;
  pk_state : Z
}.
Definition pk_source (p : Packet) : Addr := AddrFrom4 (take 4 (drop 12 (pk_header p))).
Definition pk_destination (p : Packet) : Addr := AddrFrom4 (take 4 (drop 16 (pk_header p))).

Definition interface_name (s : string) : Prop := slen s <= 15 /\ has_nul s = false.
Record packet_wf (p : Packet) : Prop := {
  pw_input : interface_name (pk_input p);
  pw_output : interface_name (pk_output p);
  pw_header : (20 <= length (pk_header p))%nat;
  pw_state : in_u 32 (pk_state p)
}.

Definition established (p : Packet) : bool := negb (Z.land (pk_state p) (Z.lor CtStateBitESTABLISHED CtStateBitRELATED) =? 0).

Inductive Outcome : Type := NoMatch | Accept | Drop | Translate (source : Addr) | Unknown.

(** The first rule that matches decides. *)
Fixpoint decided (outcomes : list Outcome) : Outcome :=
  match outcomes with
  | [] => NoMatch
  | NoMatch :: outcomes => decided outcomes
  | o :: _ => o
  end.

(** ** Expressions of nftables *)
Definition byte_and (a b : byte) : byte := z2b (Z.land (b2z a) (b2z b)).
Definition byte_xor (a b : byte) : byte := z2b (Z.lxor (b2z a) (b2z b)).

Section Nftables.
Context `{NativeEndian}.

Definition registers : Type := Z -> list byte.
Definition load (regs : registers) (r : Z) (data : list byte) : registers := fun x => if x =? r then data else regs x.

Fixpoint run_expressions (exprs : list nftExpr) (regs : registers) (p : Packet) : Outcome :=
  match exprs with
  | [] => NoMatch
  | expr :: exprs =>
      match expr with
      | Meta MetaKeyIIFNAME r => run_expressions exprs (load regs r (interface_data (pk_input p))) p
      | Meta MetaKeyOIFNAME r => run_expressions exprs (load regs r (interface_data (pk_output p))) p
      | Cmp CmpOpEq r data => if bool_decide (regs r = data) then run_expressions exprs regs p else NoMatch
      | Cmp CmpOpNeq r data => if bool_decide (regs r = data) then NoMatch else run_expressions exprs regs p
      | Payload r offset len =>
          run_expressions exprs (load regs r (take (Z.to_nat len) (drop (Z.to_nat offset) (pk_header p)))) p
      | Bitwise s d _ mask xor => run_expressions exprs (load regs d (zip_with byte_xor (zip_with byte_and (regs s) mask) xor)) p
      | CtState r => run_expressions exprs (load regs r (native_u32 (pk_state p))) p
      | Immediate r data => run_expressions exprs (load regs r data) p
      | SourceNAT from _ => Translate (AddrFrom4 (regs from))
      | Verdict VerdictAccept => Accept
      | Verdict VerdictDrop => Drop
      | OtherExpr _ => Unknown
      end
  end.

Definition nft_outcome (rule : nftRule) (p : Packet) : Outcome := run_expressions (nftExpressions rule) (fun _ => []) p.
Definition nft_chain (program : nftProgram) (chain : string) (p : Packet) : Outcome :=
  decided ((fun rule => nft_outcome rule p) <$> nftRulesForChain (np_rules program) chain).
(** The rules the program puts at the head of a chain of others. *)
Definition nft_target (program : nftProgram) (target : nftForwardChain) (p : Packet) : Outcome :=
  decided ((fun forward => nft_outcome (nf_rule forward) p) <$> filter (fun forward => nf_target forward = target) (np_forwardRules program)).
End Nftables.

(** ** Words of iptables *)
(** A name that ends in a plus stands for all that begin so. *)
Definition interface_matches (pattern name : string) : bool :=
  if ends_with_plus pattern then HasPrefix name (stake (length (bytes_of pattern) - 1) pattern) else bool_decide (name = pattern).

Definition state_bit (name : string) : option Z :=
  if bool_decide (name = "INVALID") then Some 1 else if bool_decide (name = "ESTABLISHED") then Some CtStateBitESTABLISHED
  else if bool_decide (name = "RELATED") then Some CtStateBitRELATED else if bool_decide (name = "NEW") then Some 8 else None.
(** The bits of a list of states. *)
Fixpoint state_bits (fuel : nat) (names : string) : option Z :=
  match fuel with
  | O => None
  | S fuel =>
      match Cut names (Ascii.ascii_of_nat 44) with
      | (name, rest, found) =>
          match state_bit name with
          | None => None
          | Some bit => if found then match state_bits fuel rest with Some bits => Some (Z.lor bit bits) | None => None end else Some bit
          end
      end
  end.

Definition in_prefix (text : string) (a : Addr) : bool := match ParsePrefix text with Ok prefix => Contains prefix a | Err _ => false end.

Fixpoint run_words (argv : list string) (p : Packet) : Outcome :=
  match argv with
  | option :: value :: rest =>
      let when (b : bool) := if b then run_words rest p else NoMatch in
      if bool_decide (option = "-s") then when (in_prefix value (pk_source p))
      else if bool_decide (option = "-d") then when (in_prefix value (pk_destination p))
      else if bool_decide (option = "-i") then when (interface_matches value (pk_input p))
      else if bool_decide (option = "-o") then when (interface_matches value (pk_output p))
      else if bool_decide (option = "-m") then run_words rest p
      else if bool_decide (option = "--comment") then run_words rest p
      else if bool_decide (option = "--ctstate") then
        match state_bits (length (bytes_of value)) value with
        | Some bits => when (negb (Z.land (pk_state p) bits =? 0))
        | None => Unknown
        end
      else if bool_decide (option = "-j") then
        match rest with
        | [] => if bool_decide (value = "ACCEPT") then Accept else if bool_decide (value = "DROP") then Drop else Unknown
        | [to; address] =>
            if bool_decide (value = "SNAT") && bool_decide (to = "--to-source") then
              match ParseAddr address with Ok a => Translate a | Err _ => Unknown end
            else Unknown
        | _ => Unknown
        end
      else Unknown
  | _ => Unknown
  end.

Definition iptables_chain (program : iptablesProgram) (table : string) (p : Packet) : Outcome :=
  decided ((fun rule => run_words (ir_argv rule) p) <$> rules_of_table program table).

(** ** The lanes of a claim *)
Definition lane_out (t : transferAllocation) (p : Packet) : bool :=
  bool_decide (pk_input p = hostVeth t) && bool_decide (pk_output p = ta_providerName t) && Contains (subnet t) (pk_source p).
Definition lane_in (t : transferAllocation) (p : Packet) : bool :=
  bool_decide (pk_input p = ta_providerName t) && bool_decide (pk_output p = hostVeth t) && Contains (subnet t) (pk_destination p)
  && established p.
Definition lane (t : transferAllocation) (p : Packet) : bool := lane_out t p || lane_in t p.
Definition touches (t : transferAllocation) (p : Packet) : bool :=
  bool_decide (pk_input p = hostVeth t) || bool_decide (pk_output p = hostVeth t).

Definition policy (claim : networkClaim) (p : Packet) : Outcome :=
  if existsb (fun t => lane t p) (nc_transfers claim) then Accept
  else if existsb (fun t => touches t p) (nc_transfers claim) then Drop else NoMatch.

Definition leaves (t : transferAllocation) (p : Packet) : bool :=
  bool_decide (pk_output p = ta_providerName t) && bool_decide (pk_source p = namespaceIP t).
(** The backend of nftables also asks where the packet came from. *)
Definition translation (from_link : bool) (claim : networkClaim) (p : Packet) : Outcome :=
  match List.find (fun t => leaves t p && (negb from_link || bool_decide (pk_input p = hostVeth t))) (nc_transfers claim) with
  | Some t => Translate (ta_source t)
  | None => NoMatch
  end.

(** ** Bytes *)
Lemma land_div_pow a b n : 0 <= n -> Z.land a b / 2 ^ n = Z.land (a / 2 ^ n) (b / 2 ^ n).
Proof. intros Hn. rewrite <- !Z.shiftr_div_pow2 by done. apply Z.shiftr_land. Qed.

Lemma land_mod_256 a b : Z.land (a mod 256) (b mod 256) = Z.land a b mod 256.
Proof.
  change 256 with (2 ^ 8). rewrite <- !Z.land_ones by lia. apply Z.bits_inj'. intros n Hn. rewrite !Z.land_spec.
  destruct (Z.testbit a n), (Z.testbit b n), (Z.testbit (Z.ones 8) n); done.
Qed.

Lemma byte_and_z2b a b : byte_and (z2b a) (z2b b) = z2b (Z.land a b).
Proof. unfold byte_and. rewrite !b2z_z2b, land_mod_256. by rewrite <- b2z_z2b, z2b_b2z. Qed.

Lemma be_put_land n a b : zip_with byte_and (be_put n a) (be_put n b) = be_put n (Z.land a b).
Proof.
  induction n as [|n IH]; [done|]. cbn [be_put zip_with]. rewrite byte_and_z2b, IH. repeat f_equal.
  change 256 with (2 ^ 8). rewrite <- Z.pow_mul_r by lia. symmetry. apply land_div_pow. lia.
Qed.

Lemma byte_xor_zero b : byte_xor b x00 = b.
Proof. unfold byte_xor. change (b2z x00) with 0. by rewrite Z.lxor_0_r, z2b_b2z. Qed.

Lemma xor_zeros l : zip_with byte_xor l (replicate (length l) x00) = l.
Proof. induction l as [|b l IH]; [done|]. cbn [length replicate zip_with]. by rewrite byte_xor_zero, IH. Qed.

(** The leading bits of an address. *)
Lemma land_mask a n : in_u 32 a -> 0 <= n <= 32 -> Z.land a (2 ^ 32 - 2 ^ n) = a / 2 ^ n * 2 ^ n.
Proof.
  unfold in_u. intros Ha Hn.
  replace (2 ^ 32 - 2 ^ n) with (Z.ones (32 - n) * 2 ^ n).
  2: { rewrite Z.ones_equiv. replace 32 with ((32 - n) + n) at 2 by lia. rewrite Z.pow_add_r by lia. lia. }
  rewrite <- Z.shiftl_mul_pow2, <- Z.shiftl_mul_pow2, <- Z.shiftr_div_pow2 by lia.
  apply Z.bits_inj'. intros i Hi. rewrite Z.land_spec.
  destruct (Z.lt_ge_cases i n) as [Hlt|Hge].
  - by rewrite !(Z.shiftl_spec_low _ _ i), andb_false_r by lia.
  - rewrite !Z.shiftl_spec, Z.shiftr_spec by lia. replace (i - n + n) with i by lia.
    destruct (Z.lt_ge_cases i 32) as [H32|H32].
    + rewrite Z.ones_spec_low by lia. apply andb_true_r.
    + rewrite Z.ones_spec_high by lia. rewrite andb_false_r. symmetry. destruct (Z.eq_dec a 0) as [->|]; [apply Z.bits_0|].
      apply Z.bits_above_log2; [lia|]. apply Z.log2_lt_pow2; [lia|]. apply Z.lt_le_trans with (2 ^ 32); [lia|]. apply Z.pow_le_mono_r; lia.
Qed.

(** ** Interfaces *)
Lemma has_nul_spec s : has_nul s = false <-> Forall (fun b => b <> x00) (bytes_of s).
Proof.
  unfold has_nul, contains_byte. rewrite Forall_forall. split.
  - intros H b Hb ->. apply not_true_iff_false in H. apply H, existsb_exists. exists x00. by rewrite <- list_elem_of_In.
  - intros H. apply not_true_iff_false. intros (b & Hb & E)%existsb_exists. apply list_elem_of_In in Hb.
    apply (H b Hb). symmetry. by apply Byte.byte_dec_bl.
Qed.

Lemma padded_inj (l l' : list byte) n n' :
  Forall (fun b => b <> x00) l -> Forall (fun b => b <> x00) l' -> l ++ replicate n x00 = l' ++ replicate n' x00 -> l = l'.
Proof.
  intros Hl. revert l'; induction Hl as [|b l Hb _ IH]; intros l' Hl' E.
  - destruct Hl' as [|b' l' Hb' _]; [done|]. cbn in E. destruct n as [|n]; cbn in E; [done|]. congruence.
  - destruct Hl' as [|b' l' Hb' Hl']; [destruct n'; cbn in E; [done|congruence]|]. cbn in E. injection E as -> E. f_equal. by apply IH.
Qed.

Lemma interface_data_eq a b : interface_name a -> interface_name b -> interface_data a = interface_data b <-> a = b.
Proof.
  intros [La Na] [Lb Nb]. apply has_nul_spec in Na, Nb. split; [|by intros ->]. unfold interface_data, slen, zlen in *.
  rewrite !take_ge by (unfold IFNAMSIZ; lia). intros E. by apply bytes_of_inj, (padded_inj _ _ _ _ Na Nb E).
Qed.

(** ** Addresses of the header *)
Lemma be_get_4 l : length l = 4%nat -> be_put 4 (be_get l) = l /\ in_u 32 (be_get l).
Proof.
  intros H. split; [by rewrite <- H, be_put_get|]. rewrite <- (be_put_get l), be_get_put, H. unfold in_u. apply Z.mod_pos_bound. done.
Qed.

Lemma header_word p n : (n <= 16)%nat -> (20 <= length (pk_header p))%nat -> length (take 4 (drop n (pk_header p))) = 4%nat.
Proof. intros Hn Hp. rewrite length_take, length_drop. lia. Qed.

(** The order of bytes is one in which words can be compared and masked. *)
Class NativeEndianLaws `{NativeEndian} : Prop := {
  native_and a b : zip_with byte_and (native_u32 a) (native_u32 b) = native_u32 (Z.land a b);
  native_zero : native_u32 0 = replicate 4 x00;
  native_inj a b : in_u 32 a -> in_u 32 b -> native_u32 a = native_u32 b -> a = b;
  native_length a : length (native_u32 a) = 4%nat
}.

Definition big_endian : NativeEndian := {| native_u32 := be_put 4 |}.
Definition little_endian : NativeEndian := {| native_u32 v := rev (be_put 4 v) |}.

Lemma big_endian_laws : @NativeEndianLaws big_endian.
Proof.
  constructor; [apply (be_put_land 4)|done|intros a b Ha Hb; by apply (be_put_inj 4)|done].
Qed.

Lemma zip_with_rev {A B C} (f : A -> B -> C) l k : length l = length k -> zip_with f (rev l) (rev k) = rev (zip_with f l k).
Proof.
  revert k; induction l as [|a l IH]; intros [|b k] H; try done. injection H as H. cbn [rev zip_with].
  rewrite zip_with_app by by rewrite !length_rev. by rewrite IH.
Qed.

Lemma little_endian_laws : @NativeEndianLaws little_endian.
Proof.
  constructor; cbn [native_u32 little_endian].
  - intros a b. rewrite zip_with_rev by done. by rewrite be_put_land.
  - done.
  - intros a b Ha Hb E%(f_equal (@rev byte)). rewrite !rev_involutive in E. by apply (be_put_inj 4).
  - done.
Qed.

(** ** What the expressions of a rule ask *)
Lemma load_same regs r data : load regs r data r = data.
Proof. unfold load. by rewrite Z.eqb_refl. Qed.

Section Rules.
Context `{Laws : NativeEndianLaws} (p : Packet) (Hp : packet_wf p).

Definition interface_of (key : MetaKey) : string := match key with MetaKeyIIFNAME => pk_input p | MetaKeyOIFNAME => pk_output p end.

(** A block of expressions asks [b], and goes on with other registers. *)
Definition asks (block : list nftExpr) (b : bool) : Prop :=
  forall rest regs, exists regs', run_expressions (block ++ rest) regs p = if b then run_expressions rest regs' p else NoMatch.

Lemma asks_interface key name : interface_name name -> asks (matchInterface key name) (bool_decide (interface_of key = name)).
Proof.
  intros Hn rest regs. exists (load regs 1 (interface_data (interface_of key))).
  assert (Hk : interface_name (interface_of key)) by (destruct key; apply Hp).
  rewrite <- (bool_decide_ext _ _ (interface_data_eq _ _ Hk Hn)). by destruct key.
Qed.

Definition address_at (offset : Z) : Addr := AddrFrom4 (take 4 (drop (Z.to_nat offset) (pk_header p))).

Lemma address_word offset : 0 <= offset <= 16 ->
  exists a, in_u 32 a /\ address_at offset = Addr4 a /\ take 4 (drop (Z.to_nat offset) (pk_header p)) = be_put 4 a.
Proof.
  intros Ho. destruct (be_get_4 _ (header_word p (Z.to_nat offset) ltac:(lia) (pw_header p Hp))) as [E Ha].
  eexists. split_and!; [exact Ha|done|by symmetry].
Qed.

Lemma asks_prefix offset v bits :
  in_u 32 v -> 0 <= bits <= 32 -> 0 <= offset <= 16 ->
  asks (matchIPv4Prefix offset (PrefixString (MkPrefix (Addr4 v) bits))) (Contains (MkPrefix (Addr4 v) bits) (address_at offset)).
Proof.
  intros Hv Hb Ho rest regs. unfold matchIPv4Prefix. rewrite ParsePrefix_PrefixString by done.
  destruct (address_word offset Ho) as (a & Ha & -> & Ew).
  assert (E0 : (0 <=? bits) = true) by (apply Z.leb_le; lia). assert (E1 : (bits <=? 32) = true) by (apply Z.leb_le; lia).
  replace (Masked (ok_or zero_prefix (Ok (MkPrefix (Addr4 v) bits)))) with (MkPrefix (Addr4 (v / 2 ^ (32 - bits) * 2 ^ (32 - bits))) bits)
    by (unfold Masked, PrefixIsValid; cbn [ok_or prefix_bits]; by rewrite E0).
  unfold Contains, PrefixIsValid, CIDRMask, top_bits.
  cbn [prefix_bits prefix_ip AsSlice has_zone AddrIsValid BitLen addr_bits negb andb app]. rewrite E0, E1. cbn [andb app run_expressions].
  eexists. rewrite Z.eqb_refl. cbn [andb]. rewrite !load_same.
  change (Z.to_nat 4) with 4%nat. rewrite Ew, be_put_land.
  change [x00; x00; x00; x00] with (replicate (length (be_put 4 (Z.land a (2 ^ 32 - 2 ^ (32 - bits))))) x00). rewrite xor_zeros.
  rewrite land_mask by (done || lia).
  replace (bool_decide (be_put 4 (a / 2 ^ (32 - bits) * 2 ^ (32 - bits)) = be_put 4 (v / 2 ^ (32 - bits) * 2 ^ (32 - bits))))
    with (v / 2 ^ (32 - bits) =? a / 2 ^ (32 - bits)); [reflexivity|].
  assert (Hpos : 0 < 2 ^ (32 - bits)) by (apply Z.pow_pos_nonneg; lia). unfold in_u in *.
  assert (Hr : forall x, 0 <= x < 2 ^ 32 -> 0 <= x / 2 ^ (32 - bits) * 2 ^ (32 - bits) < 256 ^ Z.of_nat 4).
  { intros x Hx. pose proof (Z.mul_div_le x _ Hpos). pose proof (Z.div_pos x _ ltac:(lia) Hpos). change (256 ^ Z.of_nat 4) with (2 ^ 32). nia. }
  destruct (Z.eqb_spec (v / 2 ^ (32 - bits)) (a / 2 ^ (32 - bits))) as [->|Hne]; symmetry; [by apply bool_decide_eq_true_2|].
  apply bool_decide_eq_false_2. intros E. apply be_put_inj in E; [|by apply Hr..]. apply Hne. nia.
Qed.

Lemma asks_app b1 b2 c1 c2 : asks b1 c1 -> asks b2 c2 -> asks (b1 ++ b2) (c1 && c2).
Proof.
  intros H1 H2 rest regs. rewrite <- app_assoc. destruct (H1 (b2 ++ rest) regs) as [r1 ->].
  destruct c1; [|by exists regs]. destruct (H2 rest r1) as [r2 ->]. by exists r2.
Qed.

(** A rule is a question and a verdict. *)
Lemma asks_verdict block b verdict outcome regs :
  asks block b -> (forall regs', run_expressions verdict regs' p = outcome) ->
  run_expressions (block ++ verdict) regs p = if b then outcome else NoMatch.
Proof. intros Hb Hv. destruct (Hb verdict regs) as [r ->]. by destruct b. Qed.

Lemma run_established regs : run_expressions establishedReturn regs p = if established p then Accept else NoMatch.
Proof.
  unfold establishedReturn, established. cbn [run_expressions]. rewrite !load_same.
  set (bits := Z.lor CtStateBitESTABLISHED CtStateBitRELATED). rewrite native_and, native_zero.
  rewrite <- (native_length (Z.land (pk_state p) bits)), xor_zeros, native_length, <- native_zero.
  assert (Hl : in_u 32 (Z.land (pk_state p) bits)).
  { destruct (pw_state p Hp) as [H0 H1]. assert (Hz : 0 <= Z.land (pk_state p) bits) by (by apply Z.land_nonneg; left).
    split; [done|]. destruct (Z.eq_dec (Z.land (pk_state p) bits) 0) as [->|]; [lia|]. apply Z.log2_lt_pow2; [lia|].
    eapply Z.le_lt_trans; [apply Z.log2_land; [done|by subst bits]|]. apply Z.min_lt_iff. by right. }
  destruct (Z.eqb_spec (Z.land (pk_state p) bits) 0) as [->|Hne]; cbn [negb]; [by rewrite bool_decide_eq_true_2|].
  rewrite bool_decide_eq_false_2; [done|]. intros E. apply Hne. by apply native_inj.
Qed.
End Rules.

(** ** The rules of one transfer *)
Definition when (b : bool) (o : Outcome) : Outcome := if b then o else NoMatch.

Definition transfer_filter (t : transferAllocation) (p : Packet) : list Outcome :=
  [ when (lane_out t p) Accept; when (lane_in t p) Accept;
    when (bool_decide (pk_input p = hostVeth t)) Drop; when (bool_decide (pk_output p = hostVeth t)) Drop ].

(** What the rules need to know of a transfer. *)
Record lane_facts (t : transferAllocation) : Prop := {
  lf_host : interface_name (hostVeth t);
  lf_provider : interface_name (ta_providerName t);
  lf_subnet : exists v bits, in_u 32 v /\ 0 <= bits <= 32 /\ subnet t = MkPrefix (Addr4 v) bits;
  lf_namespace : exists v, in_u 32 v /\ namespaceIP t = Addr4 v;
  lf_source : exists v, in_u 32 v /\ ta_source t = Addr4 v
}.

Lemma claim_lane_facts claim t : ok_transfer claim t -> addr_wf (ta_source t) -> lane_facts t.
Proof.
  intros Hok Hs. destruct (ok_transfer_slot _ _ Hok) as (k & Hk & Es & _ & En). destruct (slot_range k Hk) as (R1 & _ & R3).
  destruct (ok_transfer_facts _ _ Hok) as (_ & H4 & Hpn & _). constructor.
  - destruct Hok as (owner & mac & Ho & _ & Ef). unfold transfer_facts_ok in Ef. rewrite !andb_true_iff, !bool_decide_eq_true in Ef.
    assert (hostVeth t = hostName owner) as -> by tauto. split.
    + rewrite hostName_length by (by eapply deriveLinkOwnerID_wf). lia.
    + apply has_nul_spec. eapply Forall_impl; [apply hostName_plain|]. by intros b [_ ?].
  - unfold validProviderName in Hpn. rewrite !andb_true_iff, !negb_true_iff, orb_false_iff, Z.leb_le in Hpn.
    split; [lia|]. unfold has_nul. tauto.
  - rewrite Es. exists (slot_base k), 30. split_and!; [done|lia|lia|done].
  - rewrite En. by eexists.
  - destruct (ta_source t) as [|v|]; try done. by exists v.
Qed.

Section Nft_rules.
Context `{Laws : NativeEndianLaws} (p : Packet) (Hp : packet_wf p).

Lemma forward_out_outcome chain t owner : lane_facts t ->
  nft_outcome (MkNFTRule chain "forward-out" (hostVeth t) (ta_providerName t) (PrefixString (subnet t)) "" "" owner) p = when (lane_out t p) Accept.
Proof.
  intros [Lh Lp (v & bits & Hv & Hb & Es) _ _]. unfold nft_outcome.
  change (nftExpressions _) with (matchInterface MetaKeyIIFNAME (hostVeth t) ++ matchInterface MetaKeyOIFNAME (ta_providerName t)
    ++ matchIPv4Prefix 12 (PrefixString (subnet t)) ++ [Verdict VerdictAccept]). rewrite Es, !app_assoc.
  rewrite (asks_verdict p _ (lane_out t p) _ Accept); [done| |done]. unfold lane_out. rewrite Es.
  apply asks_app; [apply asks_app; by apply (asks_interface p Hp)|]. by apply (asks_prefix p Hp 12).
Qed.

Lemma return_outcome chain t owner : lane_facts t ->
  nft_outcome (MkNFTRule chain "return" (ta_providerName t) (hostVeth t) "" (PrefixString (subnet t)) "" owner) p = when (lane_in t p) Accept.
Proof.
  intros [Lh Lp (v & bits & Hv & Hb & Es) _ _]. unfold nft_outcome.
  change (nftExpressions _) with (matchInterface MetaKeyIIFNAME (ta_providerName t) ++ matchInterface MetaKeyOIFNAME (hostVeth t)
    ++ matchIPv4Prefix 16 (PrefixString (subnet t)) ++ establishedReturn). rewrite Es, !app_assoc.
  rewrite (asks_verdict p _ (bool_decide (pk_input p = ta_providerName t) && bool_decide (pk_output p = hostVeth t)
    && Contains (subnet t) (pk_destination p)) _ (when (established p) Accept)).
  - unfold lane_in. by destruct (_ && _ && _), (established p).
  - rewrite Es. apply asks_app; [apply asks_app; by apply (asks_interface p Hp)|]. by apply (asks_prefix p Hp 16).
  - intros regs. by apply run_established.
Qed.

Lemma drop_out_outcome t owner : lane_facts t ->
  nft_outcome (MkNFTRule "forward" "drop-out" (hostVeth t) "" "" "" "" owner) p = when (bool_decide (pk_input p = hostVeth t)) Drop.
Proof.
  intros [Lh _ _ _ _]. unfold nft_outcome. change (nftExpressions _) with (matchInterface MetaKeyIIFNAME (hostVeth t) ++ [Verdict VerdictDrop]).
  by rewrite (asks_verdict p _ _ _ Drop _ (asks_interface p Hp MetaKeyIIFNAME _ Lh)).
Qed.

Lemma drop_in_outcome t owner : lane_facts t ->
  nft_outcome (MkNFTRule "forward" "drop-in" "" (hostVeth t) "" "" "" owner) p = when (bool_decide (pk_output p = hostVeth t)) Drop.
Proof.
  intros [Lh _ _ _ _]. unfold nft_outcome. change (nftExpressions _) with (matchInterface MetaKeyOIFNAME (hostVeth t) ++ [Verdict VerdictDrop]).
  by rewrite (asks_verdict p _ _ _ Drop _ (asks_interface p Hp MetaKeyOIFNAME _ Lh)).
Qed.

Lemma snat_outcome t owner : lane_facts t ->
  nft_outcome (MkNFTRule "postrouting" "snat" (hostVeth t) (ta_providerName t) (AddrString (namespaceIP t)) "" (AddrString (ta_source t)) owner) p
  = when (leaves t p && bool_decide (pk_input p = hostVeth t)) (Translate (ta_source t)).
Proof.
  intros [Lh Lp _ (n & Hn & En) (s & Hs & Es)]. unfold nft_outcome.
  change (nftExpressions _) with ((matchInterface MetaKeyIIFNAME (hostVeth t) ++ matchInterface MetaKeyOIFNAME (ta_providerName t)
    ++ [Payload 1 12 4; Cmp CmpOpEq 1 (AsSlice (ok_or AddrNone (ParseAddr (AddrString (namespaceIP t)))))])
    ++ [Immediate 1 (AsSlice (ok_or AddrNone (ParseAddr (AddrString (ta_source t))))); SourceNAT 1 1]).
  rewrite En, Es, !ParseAddr_AddrString by done. cbn [ok_or AsSlice].
  rewrite (asks_verdict p _ (leaves t p && bool_decide (pk_input p = hostVeth t)) _ (Translate (Addr4 s))); [done| |].
  - replace (leaves t p && bool_decide (pk_input p = hostVeth t))
      with (bool_decide (pk_input p = hostVeth t) && (bool_decide (pk_output p = ta_providerName t) && bool_decide (pk_source p = Addr4 n))).
    2: { unfold leaves. rewrite En. repeat case_bool_decide; done. }
    apply asks_app; [by apply (asks_interface p Hp)|]. apply asks_app; [by apply (asks_interface p Hp)|].
    intros rest regs. destruct (address_word p Hp 12 ltac:(lia)) as (a & Ha & Ea & Ew). eexists. cbn [app run_expressions].
    rewrite load_same. change (Z.to_nat 4) with 4%nat. rewrite Ew. change (pk_source p) with (address_at p 12). rewrite Ea.
    rewrite (bool_decide_ext (be_put 4 a = be_put 4 n) (Addr4 a = Addr4 n)); [reflexivity|]. split; [|by intros [= ->]].
    intros E. f_equal. by apply (be_put_inj 4).
  - intros regs. cbn [run_expressions]. rewrite load_same. unfold AddrFrom4. rewrite be_get_put. f_equal. f_equal. by apply Z.mod_small.
Qed.
End Nft_rules.

Section Iptables_rules.
Context (p : Packet).

Lemma words_source v rest : run_words ("-s" :: v :: rest) p = if in_prefix v (pk_source p) then run_words rest p else NoMatch.
Proof. reflexivity. Qed.
Lemma words_destination v rest : run_words ("-d" :: v :: rest) p = if in_prefix v (pk_destination p) then run_words rest p else NoMatch.
Proof. reflexivity. Qed.
Lemma words_input v rest : run_words ("-i" :: v :: rest) p = if interface_matches v (pk_input p) then run_words rest p else NoMatch.
Proof. reflexivity. Qed.
Lemma words_output v rest : run_words ("-o" :: v :: rest) p = if interface_matches v (pk_output p) then run_words rest p else NoMatch.
Proof. reflexivity. Qed.
Lemma words_comment owner rest : run_words ("-m" :: "comment" :: "--comment" :: owner :: rest) p = run_words rest p.
Proof. reflexivity. Qed.
Lemma words_conntrack rest :
  run_words ("-m" :: "conntrack" :: "--ctstate" :: "RELATED,ESTABLISHED" :: rest) p = if established p then run_words rest p else NoMatch.
Proof. reflexivity. Qed.
Lemma words_accept : run_words ["-j"; "ACCEPT"] p = Accept.
Proof. reflexivity. Qed.
Lemma words_drop : run_words ["-j"; "DROP"] p = Drop.
Proof. reflexivity. Qed.
Lemma words_snat a v : ParseAddr a = Ok v -> run_words ["-j"; "SNAT"; "--to-source"; a] p = Translate v.
Proof. intros H. change (match ParseAddr a with Ok a => Translate a | Err _ => Unknown end = Translate v). by rewrite H. Qed.

Lemma exact_interface name other : ends_with_plus name = false -> interface_matches name other = bool_decide (other = name).
Proof. unfold interface_matches. by intros ->. Qed.

Lemma in_own_prefix q a : (exists v bits, in_u 32 v /\ 0 <= bits <= 32 /\ q = MkPrefix (Addr4 v) bits) -> in_prefix (PrefixString q) a = Contains q a.
Proof. intros (v & bits & Hv & Hb & ->). unfold in_prefix. by rewrite ParsePrefix_PrefixString. Qed.

(** One address as a prefix. *)
Lemma host_prefix v a : in_u 32 v -> 0 <= a < 2 ^ 32 -> in_prefix (AddrString (Addr4 v) +:+ "/32") (Addr4 a) = bool_decide (Addr4 a = Addr4 v).
Proof.
  intros Hv Ha. change (AddrString (Addr4 v) +:+ "/32") with (PrefixString (MkPrefix (Addr4 v) 32)).
  rewrite in_own_prefix by (exists v, 32; by split_and!). unfold Contains, top_bits. cbn. rewrite !Z.div_1_r.
  destruct (Z.eqb_spec v a) as [->|Hne]; [by rewrite bool_decide_eq_true_2|]. rewrite bool_decide_eq_false_2; [done|congruence].
Qed.

Context (t : transferAllocation) (Ht : lane_facts t) (Hpl : plain_transfer t).
Context (Hplus : ends_with_plus (ta_providerName t) = false /\ ends_with_plus (hostVeth t) = false).

Lemma words_rule pre post table chain owner argv :
  argv = pre ++ "-j" :: post -> "-j" ∉ pre ->
  run_words (ir_argv (newIPTablesRule table chain owner argv)) p
  = run_words (pre ++ "-m" :: "comment" :: "--comment" :: owner :: "-j" :: post) p.
Proof. intros -> H. unfold newIPTablesRule. cbn [ir_argv]. by rewrite with_comment_before. Qed.

Lemma plain_words w : Exists (eq w) [PrefixString (subnet t); hostVeth t; ta_providerName t; AddrString (namespaceIP t) +:+ "/32"; AddrString (ta_source t)] -> "-j" <> w.
Proof.
  intros H <-. unfold plain_transfer in Hpl. rewrite Forall_forall in Hpl. apply Exists_exists in H as (w & Hw & <-).
  by apply Hpl in Hw.
Qed.

Ltac no_jump :=
  rewrite !not_elem_of_cons; repeat split; try (by apply not_elem_of_nil); try discriminate; apply plain_words; rewrite !Exists_cons; tauto.

Lemma iptables_filter claim :
  (fun r => run_words (ir_argv r) p) <$> filter (fun r => ir_table r = "filter") (transfer_iptables_rules claim t) = transfer_filter t p.
Proof.
  destruct Hplus as [P1 P2]. pose proof (in_own_prefix _ (pk_source p) (lf_subnet t Ht)) as S1.
  pose proof (in_own_prefix _ (pk_destination p) (lf_subnet t Ht)) as S2. unfold transfer_iptables_rules, transfer_filter.
  do 4 (rewrite filter_cons_True by reflexivity).
  rewrite filter_cons_False by discriminate. rewrite filter_nil. cbn [fmap list_fmap].
  erewrite (words_rule ["-s"; _; "-i"; _; "-o"; _] ["ACCEPT"]), (words_rule ["-d"; _; "-i"; _; "-o"; _; "-m"; _; "--ctstate"; _] ["ACCEPT"]),
    (words_rule ["-i"; _] ["DROP"]), (words_rule ["-o"; _] ["DROP"]); try reflexivity; try no_jump.
  cbn [app]. rewrite words_source, words_destination, !words_input, !words_output, words_conntrack, !words_comment, words_accept, words_drop.
  rewrite !exact_interface, S1, S2 by done. unfold when, lane_out, lane_in. f_equal; [|f_equal].
  - repeat case_bool_decide; by destruct (Contains (subnet t) (pk_source p)).
  - repeat case_bool_decide; destruct (Contains (subnet t) (pk_destination p)), (established p); done.
Qed.

Lemma iptables_nat claim :
  (20 <= length (pk_header p))%nat ->
  (fun r => run_words (ir_argv r) p) <$> filter (fun r => ir_table r = "nat") (transfer_iptables_rules claim t)
  = [when (leaves t p) (Translate (ta_source t))].
Proof.
  intros Hh. destruct Hplus as [P1 P2]. destruct (lf_namespace t Ht) as (n & Hn & En), (lf_source t Ht) as (s & Hs & Es).
  unfold transfer_iptables_rules. do 4 (rewrite filter_cons_False by discriminate).
  rewrite filter_cons_True, filter_nil by reflexivity. cbn [fmap list_fmap].
  erewrite (words_rule ["-s"; _; "-o"; _] ["SNAT"; "--to-source"; _]); try reflexivity; try no_jump.
  cbn [app]. rewrite words_source, words_output, words_comment, exact_interface by done.
  rewrite (words_snat _ (ta_source t)) by (rewrite Es; by apply ParseAddr_AddrString).
  destruct (be_get_4 _ (header_word p 12 ltac:(lia) Hh)) as [_ Ha]. unfold leaves, pk_source, AddrFrom4 in *. rewrite En, host_prefix by done.
  f_equal. by repeat case_bool_decide.
Qed.
End Iptables_rules.

(** ** Lanes *)
Lemma decided_app l1 l2 : decided (l1 ++ l2) = match decided l1 with NoMatch => decided l2 | o => o end.
Proof. induction l1 as [|o l1 IH]; [done|]. by destruct o. Qed.

(** No provider is the link of a transfer. *)
Definition providers_apart (ts : list transferAllocation) : Prop :=
  forall t t', t ∈ ts -> t' ∈ ts -> ta_providerName t <> hostVeth t'.

Lemma lane_touches t p : lane t p = true -> touches t p = true.
Proof. unfold lane, lane_out, lane_in, touches. rewrite !orb_true_iff, !andb_true_iff, !bool_decide_eq_true. tauto. Qed.

(** A lane touches the link of its own transfer only. *)
Lemma lane_alone ts t t' p :
  providers_apart ts -> t ∈ ts -> t' ∈ ts -> lane t p = true -> touches t' p = true -> hostVeth t = hostVeth t'.
Proof.
  intros Ha Ht Ht'. unfold lane, lane_out, lane_in, touches. rewrite !orb_true_iff, !andb_true_iff, !bool_decide_eq_true.
  pose proof (Ha t t' Ht Ht') as H1. intros [[[-> ->] _]|[[[-> ->] _] _]] [E|E]; congruence.
Qed.

Definition verdict_of (ts : list transferAllocation) (p : Packet) : Outcome :=
  if existsb (fun t => lane t p) ts then Accept else if existsb (fun t => touches t p) ts then Drop else NoMatch.

Lemma transfer_decided t p : decided (transfer_filter t p) = if lane t p then Accept else when (touches t p) Drop.
Proof.
  unfold transfer_filter, lane, touches, when. destruct (lane_out t p), (lane_in t p); try done. cbn [orb decided].
  by repeat case_bool_decide.
Qed.

Lemma transfers_decided ts p :
  providers_apart ts -> ForallOrdPairs (fun t t' => hostVeth t' <> hostVeth t) ts ->
  decided (mjoin ((fun t => transfer_filter t p) <$> ts)) = verdict_of ts p.
Proof.
  intros Ha Hd. induction Hd as [|t ts Ht Hd IH]; [done|]. rewrite fmap_cons, mjoin_cons, decided_app, transfer_decided. unfold verdict_of.
  cbn [existsb]. assert (Ha' : providers_apart ts) by (intros t1 t2 H1 H2; apply Ha; by right).
  destruct (lane t p) eqn:El; [done|]. cbn [orb]. destruct (touches t p) eqn:Et; cbn [when orb]; [|by apply IH].
  rewrite existsb_false; [done|]. apply Forall_forall. intros t' Ht'. destruct (lane t' p) eqn:El'; [|done]. rewrite Forall_forall in Ht.
  destruct (Ht t' Ht'). eapply (lane_alone (t :: ts)); [done|by right|by left|done|done].
Qed.

(** The first transfer that a question picks. *)
Lemma first_decided {A} (f : A -> bool) (g : A -> Addr) l :
  decided ((fun a => when (f a) (Translate (g a))) <$> l) = match List.find f l with Some a => Translate (g a) | None => NoMatch end.
Proof. induction l as [|a l IH]; [done|]. rewrite fmap_cons. cbn [List.find]. destruct (f a); [done|]. exact IH. Qed.

Definition open_lanes (ts : list transferAllocation) (p : Packet) : Outcome := when (existsb (fun t => lane t p) ts) Accept.

Lemma targets_decided ts p : decided (mjoin ((fun t => [when (lane_out t p) Accept; when (lane_in t p) Accept]) <$> ts)) = open_lanes ts p.
Proof.
  induction ts as [|t ts IH]; [done|]. rewrite fmap_cons, mjoin_cons, decided_app, IH. unfold open_lanes, lane. cbn [existsb].
  by destruct (lane_out t p), (lane_in t p).
Qed.

(** ** The programs of a claim *)
Lemma built_nft claim program :
  buildNFTProgram claim = Ok program ->
  program = MkNFTProgram (nc_firewallTable claim) (owner_prefix claim) (nc_nftPostroutingPriority claim) ["forward"; "postrouting"]
              (mjoin (transfer_nft_rules claim <$> nc_transfers claim)) (claim_forward_rules claim) /\
  validateClaim claim (nc_runID claim) = None /\ nc_backend claim = firewallNFTables.
Proof.
  unfold buildNFTProgram. intros H. inv_result. destruct (bool_decide_reflect (nc_backend claim = firewallNFTables)); [|done].
  by apply Ok_inj in H as <-.
Qed.

Lemma mjoin_fmap_ext {A B} (f g : A -> list B) l : (forall a, a ∈ l -> f a = g a) -> mjoin (f <$> l) = mjoin (g <$> l).
Proof. intros H. f_equal. apply list_fmap_ext. intros i a Ha. apply H. by eapply list_elem_of_lookup_2. Qed.

Lemma mjoin_singletons {A B} (f : A -> B) l : mjoin ((fun a => [f a]) <$> l) = f <$> l.
Proof. induction l as [|a l IH]; [done|]. by rewrite fmap_cons, mjoin_cons, IH. Qed.

Lemma mjoin_nils {A B} (l : list A) : mjoin ((fun _ => [] : list B) <$> l) = [].
Proof. by induction l. Qed.

Lemma exact_interfaces ts t : validateIPTablesProviderNames ts = None -> t ∈ ts ->
  ends_with_plus (ta_providerName t) = false /\ ends_with_plus (hostVeth t) = false.
Proof.
  induction ts as [|t' ts IH]; [by intros _ ?%not_elem_of_nil|]. cbn [validateIPTablesProviderNames].
  destruct (_ || _) eqn:Eo; [done|]. apply orb_false_iff in Eo. intros E [->|Ht]%elem_of_cons; [done|by apply IH].
Qed.

(** The sources of two transfers differ. *)
Lemma namespaces_apart claim t t' :
  ok_transfer claim t -> ok_transfer claim t' -> Overlaps (subnet t') (subnet t) = false -> namespaceIP t <> namespaceIP t'.
Proof.
  intros H H' Ho E. destruct (ok_transfer_slot _ _ H) as (k & _ & Es & _ & En), (ok_transfer_slot _ _ H') as (k' & _ & Es' & _ & En').
  rewrite En, En' in E. assert (k = k') as <- by (unfold slot_base in E; injection E; lia).
  rewrite Es, Es' in Ho. unfold Overlaps in Ho. by rewrite bool_decide_eq_true_2 in Ho.
Qed.

Section Claim.
Context (claim : networkClaim) (Hvalid : validateClaim claim (nc_runID claim) = None) (Hplain : plain_providers claim).
Context (Hapart : providers_apart (nc_transfers claim)) (p : Packet) (Hp : packet_wf p).

Lemma transfers_ok : Forall (ok_transfer claim) (nc_transfers claim) /\ ForallOrdPairs distinct (nc_transfers claim).
Proof. apply validateClaim_inv in Hvalid. tauto. Qed.

Lemma transfer_lane t : t ∈ nc_transfers claim -> lane_facts t.
Proof.
  intros Ht. destruct transfers_ok as [Hok _]. unfold plain_providers in Hplain. rewrite Forall_forall in Hok, Hplain.
  eapply claim_lane_facts; [by apply Hok|by apply Hplain].
Qed.

Lemma links_apart : ForallOrdPairs (fun t t' => hostVeth t' <> hostVeth t) (nc_transfers claim).
Proof.
  destruct transfers_ok as [_ Hd]. rewrite <- ForallOrdPairs_lookup in Hd |- *. intros i j t t' Hij Hi Hj.
  destruct (Hd i j t t' Hij Hi Hj) as (_ & _ & _ & [? _] & _). done.
Qed.

Lemma same_link t t' : t ∈ nc_transfers claim -> t' ∈ nc_transfers claim -> hostVeth t = hostVeth t' -> t = t'.
Proof.
  intros [i Hi]%list_elem_of_lookup [j Hj]%list_elem_of_lookup E. pose proof links_apart as Hl. rewrite <- ForallOrdPairs_lookup in Hl.
  destruct (Nat.lt_trichotomy i j) as [H|[->|H]]; [|congruence|]; [destruct (Hl i j _ _ H Hi Hj)|destruct (Hl j i _ _ H Hj Hi)]; congruence.
Qed.

Lemma same_source t t' : t ∈ nc_transfers claim -> t' ∈ nc_transfers claim -> namespaceIP t = namespaceIP t' -> t = t'.
Proof.
  intros Ht Ht' E. destruct transfers_ok as [Hok Hd]. rewrite Forall_forall in Hok. rewrite <- ForallOrdPairs_lookup in Hd.
  pose proof (Hok t Ht) as O. pose proof (Hok t' Ht') as O'. apply list_elem_of_lookup in Ht as [i Hi], Ht' as [j Hj].
  destruct (Nat.lt_trichotomy i j) as [H|[->|H]]; [|congruence|].
  - destruct (Hd i j _ _ H Hi Hj) as (_ & _ & _ & _ & _ & Ho). by destruct (namespaces_apart claim t t' O O' Ho).
  - destruct (Hd j i _ _ H Hj Hi) as (_ & _ & _ & _ & _ & Ho). by destruct (namespaces_apart claim t' t O' O Ho).
Qed.

Lemma policy_verdict : policy claim p = verdict_of (nc_transfers claim) p.
Proof. done. Qed.

Section Nft_program.
Context `{Laws : NativeEndianLaws}.

Lemma nft_rules_of chain (f : transferAllocation -> list nftRule) :
  (forall t, filter (fun rule => nr_chain rule = chain) (transfer_nft_rules claim t) = f t) ->
  nftRulesForChain (mjoin (transfer_nft_rules claim <$> nc_transfers claim)) chain = mjoin (f <$> nc_transfers claim).
Proof. intros Hf. unfold nftRulesForChain. rewrite filter_mjoin, <- list_fmap_compose. apply mjoin_fmap_ext. intros t _. apply Hf. Qed.

Lemma nft_forward program : buildNFTProgram claim = Ok program -> nft_chain program "forward" p = policy claim p.
Proof.
  intros (-> & _ & _)%built_nft. rewrite policy_verdict. unfold nft_chain. cbn [np_rules].
  rewrite (nft_rules_of "forward" (fun t => take 4 (transfer_nft_rules claim t)) (fun t => eq_refl)), fmap_mjoin, <- list_fmap_compose.
  rewrite <- transfers_decided by (apply Hapart || apply links_apart). f_equal. apply mjoin_fmap_ext. intros t Ht%transfer_lane.
  unfold compose, transfer_nft_rules, transfer_filter. cbn [take fmap list_fmap].
  by rewrite (forward_out_outcome p Hp), (return_outcome p Hp), (drop_out_outcome p Hp), (drop_in_outcome p Hp).
Qed.

Lemma nft_postrouting program : buildNFTProgram claim = Ok program -> nft_chain program "postrouting" p = translation true claim p.
Proof.
  intros (-> & _ & _)%built_nft. unfold nft_chain, translation. cbn [np_rules].
  rewrite (nft_rules_of "postrouting" (fun t => drop 4 (transfer_nft_rules claim t)) (fun t => eq_refl)), fmap_mjoin, <- list_fmap_compose.
  rewrite <- (first_decided _ ta_source). f_equal. etrans; [|apply mjoin_singletons]. apply mjoin_fmap_ext. intros t Ht%transfer_lane.
  unfold compose, transfer_nft_rules. cbn [drop fmap list_fmap negb orb]. by rewrite (snat_outcome p Hp).
Qed.

(** At the head of a chain of others. *)
Lemma nft_targets program target :
  buildNFTProgram claim = Ok program -> target ∈ nc_forwardChains claim -> nft_target program target p = open_lanes (nc_transfers claim) p.
Proof.
  intros (-> & _ & _)%built_nft. unfold nft_target, claim_forward_rules. cbn [np_forwardRules].
  assert (Hone : forall c, decided ((fun forward => nft_outcome (nf_rule forward) p) <$> filter (fun forward => nf_target forward = target)
      (mjoin (transfer_forward_rules claim c <$> nc_transfers claim)))
    = if bool_decide (c = target) then open_lanes (nc_transfers claim) p else NoMatch).
  { intros c. rewrite filter_mjoin, fmap_mjoin, <- !list_fmap_compose. case_bool_decide as Ec.
    - rewrite <- targets_decided. f_equal. apply mjoin_fmap_ext. intros t Ht%transfer_lane. unfold compose, transfer_forward_rules.
      rewrite !filter_cons_True, filter_nil by done. cbn [fmap list_fmap nf_rule].
      by rewrite (forward_out_outcome p Hp), (return_outcome p Hp).
    - rewrite (mjoin_fmap_ext _ (fun _ => [])); [by rewrite mjoin_nils|]. intros t _. unfold compose, transfer_forward_rules.
      rewrite !filter_cons_False, filter_nil by done. done. }
  induction (nc_forwardChains claim) as [|c cs IH]; intros Hin; [by apply not_elem_of_nil in Hin|].
  rewrite fmap_cons, mjoin_cons, filter_app, fmap_app, decided_app, Hone. case_bool_decide as Ec.
  - unfold open_lanes at 1, when. destruct (existsb _ _) eqn:Ex; [unfold open_lanes; by rewrite Ex|].
    destruct (decide (target ∈ cs)) as [Hc|Hc]; [by apply IH|].
    rewrite (filter_none (A := nftForwardRule)); [unfold open_lanes; by rewrite Ex|].
    apply Forall_forall. intros forward (l & Hf & (c' & -> & Hc')%list_elem_of_fmap)%list_elem_of_join Ef. apply Hc. rewrite <- Ef.
    apply list_elem_of_join in Hf as (l & Hf & (t & -> & _)%list_elem_of_fmap).
    unfold transfer_forward_rules in Hf. rewrite !elem_of_cons in Hf. by destruct Hf as [->|[->|[]%not_elem_of_nil]].
  - apply IH. by apply elem_of_cons in Hin as [->|].
Qed.
End Nft_program.

Lemma exact_names program t : buildIPTablesProgram claim = Ok program -> t ∈ nc_transfers claim ->
  ends_with_plus (ta_providerName t) = false /\ ends_with_plus (hostVeth t) = false.
Proof.
  intros (_ & _ & Hb)%built_program Ht. apply validateClaim_inv in Hvalid as (_ & _ & Hv & _). unfold validate_backend in Hv.
  rewrite Hb, bool_decide_eq_false_2, bool_decide_eq_true_2 in Hv by done. destruct (_ || _); [done|].
  destruct (validateIPTablesProviderNames (nc_transfers claim)) eqn:E; [done|]. by eapply exact_interfaces.
Qed.

Lemma plain_of t : t ∈ nc_transfers claim -> plain_transfer t.
Proof.
  intros Ht. destruct transfers_ok as [Hok _]. unfold plain_providers in Hplain. rewrite Forall_forall in Hok, Hplain.
  destruct (Hplain t Ht). eapply ok_transfer_plain; [by apply Hok|done..].
Qed.

Lemma iptables_rules_of program table :
  buildIPTablesProgram claim = Ok program ->
  rules_of_table program table = mjoin ((fun t => filter (fun r => ir_table r = table) (transfer_iptables_rules claim t)) <$> nc_transfers claim).
Proof. intros (-> & _ & _)%built_program. unfold rules_of_table, claim_iptables_rules. cbn [ip_rules]. by rewrite filter_mjoin, <- list_fmap_compose. Qed.

Lemma iptables_forward program : buildIPTablesProgram claim = Ok program -> iptables_chain program "filter" p = policy claim p.
Proof.
  intros Hb. rewrite policy_verdict. unfold iptables_chain. rewrite (iptables_rules_of _ _ Hb), fmap_mjoin, <- list_fmap_compose.
  rewrite <- transfers_decided by (apply Hapart || apply links_apart). f_equal. apply mjoin_fmap_ext. intros t Ht.
  apply iptables_filter; [by apply transfer_lane|by apply plain_of|by eapply exact_names].
Qed.

Lemma iptables_postrouting program : buildIPTablesProgram claim = Ok program -> iptables_chain program "nat" p = translation false claim p.
Proof.
  intros Hb. unfold iptables_chain, translation. rewrite (iptables_rules_of _ _ Hb), fmap_mjoin, <- list_fmap_compose.
  rewrite <- (first_decided _ ta_source). f_equal. etrans; [|apply mjoin_singletons]. apply mjoin_fmap_ext. intros t Ht. unfold compose. cbn [negb orb].
  rewrite andb_true_r. apply iptables_nat; [by apply transfer_lane|by apply plain_of|by eapply exact_names|apply Hp].
Qed.

(** The address of a transfer is in its own subnet only. *)
Lemma subnet_owner t t' :
  t ∈ nc_transfers claim -> t' ∈ nc_transfers claim -> Contains (subnet t) (namespaceIP t') = true -> t = t'.
Proof.
  intros Ht Ht' Hc. destruct transfers_ok as [Hok _]. rewrite Forall_forall in Hok. apply same_source; [done..|].
  destruct (ok_transfer_slot _ _ (Hok t Ht)) as (k & _ & Es & _ & En), (ok_transfer_slot _ _ (Hok t' Ht')) as (k' & _ & _ & _ & En').
  rewrite Es, En' in Hc. apply slot_Contains in Hc. rewrite En, En'. do 2 f_equal. unfold slot_base in *. Z.to_euclidean_division_equations. lia.
Qed.

(** What leaves in a lane is translated when it has the transfer's address; the
    answers that come in are not. *)
Lemma leaving_translated from_link t :
  t ∈ nc_transfers claim -> lane_out t p = true ->
  translation from_link claim p = if bool_decide (pk_source p = namespaceIP t) then Translate (ta_source t) else NoMatch.
Proof.
  intros Ht Hl. unfold lane_out in Hl. rewrite !andb_true_iff, !bool_decide_eq_true in Hl. destruct Hl as [[Hi Ho] Hs].
  unfold translation. destruct (List.find _ _) as [t'|] eqn:Ef.
  - apply find_some in Ef as [Ht' Ef]. apply list_elem_of_In in Ht'. unfold leaves in Ef. rewrite !andb_true_iff, !bool_decide_eq_true in Ef.
    destruct Ef as [[_ Hs'] _]. rewrite Hs' in Hs. rewrite (subnet_owner t t' Ht Ht' Hs). by rewrite bool_decide_eq_true_2.
  - case_bool_decide as Es; [|done]. apply list_elem_of_In in Ht. pose proof (find_none _ _ Ef t Ht) as Hn. cbn beta in Hn. unfold leaves in Hn.
    rewrite !bool_decide_eq_true_2 in Hn by done. by rewrite orb_true_r in Hn.
Qed.

Lemma answers_untranslated from_link t : t ∈ nc_transfers claim -> lane_in t p = true -> translation from_link claim p = NoMatch.
Proof.
  intros Ht Hl. unfold lane_in in Hl. rewrite !andb_true_iff, !bool_decide_eq_true in Hl. destruct Hl as [[[_ Ho] _] _].
  unfold translation. destruct (List.find _ _) as [t'|] eqn:Ef; [|done].
  apply find_some in Ef as [Ht' Ef]. apply list_elem_of_In in Ht'. unfold leaves in Ef. rewrite !andb_true_iff, !bool_decide_eq_true in Ef.
  destruct Ef as [[Ho' _] _]. destruct (Hapart t' t Ht' Ht). congruence.
Qed.

Lemma accepted_lane : policy claim p = Accept -> exists t, t ∈ nc_transfers claim /\ lane t p = true.
Proof.
  unfold policy. destruct (existsb _ _) eqn:E; [intros _|by destruct (existsb (fun t => touches t p) _)].
  apply existsb_exists in E as (t & Ht & Hl). exists t. split; [by apply list_elem_of_In|done].
Qed.
End Claim.

(** C11. Of a valid claim whose providers are ordinary interfaces, none of them
    the link of a transfer.  Whatever the packet, the filter rules nftables runs
    for the claim and those iptables runs decide the same.  What comes from the
    link of a transfer is accepted when it leaves by the transfer's provider from
    its own subnet, what goes to the link when it comes from the provider, is
    meant for the subnet and belongs to a connection that is established; anything
    else on the link is dropped, and packets that touch no link are left to the
    rules of others.  In the chains of others the nftables program opens the same
    lanes and drops nothing.  No packet is in two lanes.  The two differ in their
    rules for sources: nftables also asks whether the packet came from the link.
    Of every packet that the policy accepts they make the same, though: what
    leaves in a lane gets the transfer's source when it has the transfer's
    address, and is left as it is when it has another one of the subnet; answers
    are left as they are. *)
Theorem packets_keep_their_lanes `{Laws : NativeEndianLaws} claim p (Hvalid : validateClaim claim (nc_runID claim) = None)
    (Hplain : plain_providers claim) (Hapart : providers_apart (nc_transfers claim)) (Hp : packet_wf p) :
  (forall program, buildNFTProgram claim = Ok program ->
     nft_chain program "forward" p = policy claim p /\ nft_chain program "postrouting" p = translation true claim p /\
     forall target, target ∈ nc_forwardChains claim -> nft_target program target p = open_lanes (nc_transfers claim) p) /\
  (forall program, buildIPTablesProgram claim = Ok program ->
     iptables_chain program "filter" p = policy claim p /\ iptables_chain program "nat" p = translation false claim p) /\
  (forall t t', t ∈ nc_transfers claim -> t' ∈ nc_transfers claim -> lane t p = true -> lane t' p = true -> t = t') /\
  (forall from_link t, t ∈ nc_transfers claim ->
     (lane_out t p = true ->
      translation from_link claim p = if bool_decide (pk_source p = namespaceIP t) then Translate (ta_source t) else NoMatch) /\
     (lane_in t p = true -> translation from_link claim p = NoMatch)) /\
  (policy claim p = Accept -> translation true claim p = translation false claim p).
Proof.
  split; [|split; [|split; [|split]]].
  - intros program Hb. split; [by eapply nft_forward|]. split; [by eapply nft_postrouting|]. intros target Ht. by apply nft_targets.
  - intros program Hb. split; [by eapply iptables_forward|by eapply iptables_postrouting].
  - intros t t' Ht Ht' Hl Hl'. eapply same_link; [done..|]. eapply lane_alone; [done..|]. by apply lane_touches.
  - intros from_link t Ht. split; intros Hl; [by eapply leaving_translated|by eapply answers_untranslated].
  - intros (t & Ht & [Hl|Hl]%orb_true_iff)%accepted_lane.
    + etrans; [|symmetry]; by eapply leaving_translated.
    + etrans; [|symmetry]; by eapply answers_untranslated.
Qed.

(** ** Two transfers beside Docker *)
Module Sample.
#[global] Instance machine : NativeEndian := little_endian.
#[global] Instance machine_laws : NativeEndianLaws := little_endian_laws.

Definition second_selection : egressSelection :=
  MkSelection (MkNumber 2) (Addr4 0xc0a80102) "eth1" 3 253 (Addr4 0xc0a80101) true.
Definition docker_chain : nftForwardChain := MkForwardChain "ip" "filter" "FORWARD".
Definition nft_inventory : hostInventory :=
  MkInventory {[ "eth0"; "eth1" ]} (MkFirewall firewallNFTables {[ "filter" ]} [docker_chain] [] ∅ "" false false)
    {[ 0; 32766; 32767 ]} {[ 254; 255 ]} {[ Addr4 0xc0a80002; Addr4 0xc0a80102 ]} [MkPrefix (Addr4 0xc0a80000) 24]
    [local_rule] {[ 2; 3 ]} ∅.
Definition claim : networkClaim :=
  claimFromAllocation (ok_or (sample_allocation []) (allocateClaimNetwork sample_id sample_token [sample_selection; second_selection] nft_inventory)).
Definition program : nftProgram := ok_or (MkNFTProgram "" "" 0 [] [] []) (buildNFTProgram claim).

Example nft_program_built : buildNFTProgram claim = Ok program.
Proof. vm_compute. reflexivity. Qed.
Example nft_program_size : (length (np_rules program), length (np_forwardRules program)) = (10, 4)%nat.
Proof. vm_compute. reflexivity. Qed.

Definition first_transfer : transferAllocation := hd (sample_transfer_allocation []) (nc_transfers claim).
(** The first transfer calls a server, and another transfer. *)
Definition packet_to (input output : string) (source destination : Z) : Packet :=
  MkPacket input output (replicate 12 x00 ++ be_put 4 source ++ be_put 4 destination) 8.
Definition call_server : Packet :=
  packet_to (hostVeth first_transfer) "eth0" (addr_bits (namespaceIP first_transfer)) 0x5db8d822.

Definition packet_okb (p : Packet) : bool :=
  (slen (pk_input p) <=? 15) && negb (has_nul (pk_input p)) && (slen (pk_output p) <=? 15) && negb (has_nul (pk_output p))
  && (20 <=? length (pk_header p))%nat && (0 <=? pk_state p) && (pk_state p <? 2 ^ 32).
Lemma packet_okb_spec p : packet_okb p = true -> packet_wf p.
Proof.
  unfold packet_okb. rewrite !andb_true_iff, !negb_true_iff, !Z.leb_le, Z.ltb_lt, Nat.leb_le. intros [[[[[[? ?] ?] ?] ?] ?] ?].
  by repeat split.
Qed.

Definition claim_okb (c : networkClaim) : bool :=
  forallb (fun t => match ta_source t with Addr4 v => (0 <=? v) && (v <? 2 ^ 32) | _ => false end
                    && negb (HasPrefix (ta_providerName t) "-")
                    && forallb (fun t' => negb (bool_decide (ta_providerName t = hostVeth t'))) (nc_transfers c)) (nc_transfers c).
Lemma claim_okb_spec c : claim_okb c = true -> plain_providers c /\ providers_apart (nc_transfers c).
Proof.
  unfold claim_okb, plain_providers, not_option. rewrite forallb_forall, Forall_forall. intros H.
  assert (H' : forall t, t ∈ nc_transfers c -> (addr_wf (ta_source t) /\ HasPrefix (ta_providerName t) "-" = false) /\
    forall t', t' ∈ nc_transfers c -> ta_providerName t <> hostVeth t').
  { intros t Ht%list_elem_of_In%H. rewrite !andb_true_iff, negb_true_iff, forallb_forall in Ht. destruct Ht as [[Hs Hm] Hn]. split.
    - split; [|done]. destruct (ta_source t) as [|v|]; try done. rewrite andb_true_iff, Z.leb_le, Z.ltb_lt in Hs. done.
    - intros t' Ht'%list_elem_of_In%Hn. rewrite negb_true_iff, bool_decide_eq_false in Ht'. done. }
  split; [intros t Ht; by apply H'|]. intros t t' Ht Ht'. by apply H'.
Qed.
Example claim_checked : claim_okb claim = true.
Proof. vm_compute. reflexivity. Qed.
Example packet_checked : packet_okb call_server = true.
Proof. vm_compute. reflexivity. Qed.
Example policy_accepts :
  policy claim call_server = Accept /\ translation true claim call_server = Translate (Addr4 0xc0a80002) /\
  open_lanes (nc_transfers claim) call_server = Accept.
Proof. split; [|split]; vm_compute; reflexivity. Qed.
(** The same packet to another link, or from an address that is not the transfer's. *)
Example policy_drops :
  policy claim (packet_to (hostVeth first_transfer) "docker0" (addr_bits (namespaceIP first_transfer)) 0xac110002) = Drop /\
  policy claim (packet_to (hostVeth first_transfer) "eth0" 0xc0a80002 0x5db8d822) = Drop /\
  policy claim (packet_to "eth0" "docker0" 0x5db8d822 0xac110002) = NoMatch.
Proof. split; [|split]; vm_compute; reflexivity. Qed.
Example claim_valid : validateClaim claim (nc_runID claim) = None.
Proof. apply (built_nft claim program nft_program_built). Qed.
End Sample.

Lemma packets_keep_their_lanes_witness :
  nft_chain Sample.program "forward" Sample.call_server = Accept /\
  nft_chain Sample.program "postrouting" Sample.call_server = Translate (Addr4 0xc0a80002) /\
  nft_target Sample.program Sample.docker_chain Sample.call_server = Accept.
Proof.
  destruct (Sample.claim_okb_spec _ Sample.claim_checked) as [Hp Ha].
  destruct (packets_keep_their_lanes Sample.claim Sample.call_server Sample.claim_valid Hp Ha (Sample.packet_okb_spec _ Sample.packet_checked))
    as (Hn & _). destruct (Hn _ Sample.nft_program_built) as (H1 & H2 & H3). destruct Sample.policy_accepts as (P1 & P2 & P3).
  split; [exact (eq_trans H1 P1)|]. split; [exact (eq_trans H2 P2)|]. refine (eq_trans (H3 Sample.docker_chain _) P3).
  apply (bool_decide_unpack _). vm_compute. exact I.
Defined.
